(* ===== verification/_CoqProject ===== *)
-Q . S2P
Prelude.v
Effects.v
RollingWindow.v
Redis.v
TextFile.v
Ast.v
JsonText.v
AuditLedger.v
AuditSinks.v
Worm.v
LedgerSample.v
Visitor.v
Policy.v
PolicyLoader.v
Templates.v
TemplateFacts.v
Connections.v
PolicyValidation.v
Sql.v
Dialects.v
Compiler.v
Statement.v
SchemaValidation.v
SchemaFacts.v
SchemaSample.v
Approval.v
WritePath.v
WriteExecution.v
QueryShape.v
Quota.v
QuotaRedis.v
Fingerprint.v
Disclosure.v
DisclosureRedis.v
Concurrency.v
ConcurrencyRedis.v
ReadService.v
ReadFacts.v
ReadSample.v
Scopes.v
Identity.v
BoundedStore.v
Sessions.v
DeviceGrant.v
LocalLogin.v
Authentication.v
IdentityAdmin.v
ConfigGovernance.v
ConfigDrafts.v
SchemaMemory.v
CatalogModels.v
CatalogGovernance.v
CatalogRefresh.v
CatalogLearning.v
CatalogAdmin.v
CatalogFacts.v
CatalogPublish.v
CatalogSearch.v
CatalogSample.v
ObservedShapes.v
AccessDiff.v
AccessDiffFacts.v
AccessDiffSample.v
PolicyTemplates.v
WritePreview.v
AsyncExecution.v
