(* ===== verification/Prelude.v ===== *)
(** QueryGate verification library.

    QueryGate ([src/src/querygate/]) answers structured queries and performs
    structured writes on behalf of agents: a JSON tree is parsed, judged by a
    policy, compiled to SQL that carries the policy's filters and masks, and run
    behind quota, concurrency, cost, approval, disclosure and audit gates. This
    library models that path from the parsed tree to the rows answered (for
    writes, to the commit) and to the audit trail it leaves, with the services beside
    it that decide who may ask and under which configuration and catalog: sign-in,
    tokens and scopes, governed configuration, the semantic catalog. All of it is
    executable definitions, with what the gates promise proved of them.

    * Files and what they model

    - [Prelude]: exceptions ([core/exceptions.py]), the error monad [result]
      ([Ok] a value, [Raise] an exception), Python's strings and dicts, case
      folding as the class [CaseFold].
    - [Effects]: code that changes a state and may raise, as a monad.
    - [RollingWindow]: logs of timestamps and the window they are counted in.
    - [Redis]: the part of a Redis server the Lua scripts use, as a class.
    - [TextFile]: UTF-8 decoding, text-mode lines and the tail-first reader of
      [audit/file_reader.py].
    - [JsonText]: [json.dumps], [str] order, SHA-256 as the class [Digest].
    - [Ast]: the read AST of [query_ast/models.py], every data type and every
      Pydantic validator, as a nested inductive type; a value that a validator
      would refuse is a value of the type for which the validator raises.
    - [Visitor]: the walks of [validation/schema_validation.py] (scopes,
      predicates, expressions, column references, correlations, cte depths).
    - [Policy]: [policy/models.py] with the pieces of [core/auth.py] and
      [catalog/models.py] it uses: lookups, purpose deltas, their merge.
    - [PolicyLoader]: [policy/loader.py], the layered document and [get].
    - [Connections]: [connections/] profiles, join groups, visibility, and the
      resolution of the connection each table of a query is reached through.
    - [PolicyValidation]: the whole of [validation/policy_validation.py].
    - [Sql]: SQLAlchemy Core elements as data ([sa_expr], [sa_select], [sa_dml])
      and their meaning on rows: three-valued logic, join types, keys.
    - [Dialects]: the six adapters of [compiler/dialect_adapters.py] as instances
      of one class, and the laws each keeps.
    - [Compiler]: one scope of [compiler/sqlalchemy_compiler.py].
    - [Statement]: its statement level: ctes, set operations, ranked rows, order
      and limits, and the recursion into nested queries.
    - [SchemaValidation], [SchemaFacts], [SchemaSample]: the rest of
      [validation/schema_validation.py], which reflects tables and holds every
      reference against them.
    - [Templates], [TemplateFacts]: [templates/], stored queries with slots.
    - [Approval]: [execution/cost_estimation.py] (thresholds) and
      [execution/approval.py] (triggers, signed tokens).
    - [WritePath]: [write_ast/models.py], [validation/write_*_validation.py]
      and [compiler/write_compiler.py].
    - [WriteExecution]: [execution/write_execution.py] over an abstract database;
      [WritePreview]: [execution/write_preview.py] and the preview batch of
      [mcp/tools/write.py], over a session that is rolled back.
    - [QueryShape], [Fingerprint]: the audited shape of a query
      ([audit/events.py]) and the fingerprint that buckets it.
    - [Quota], [QuotaRedis]: [execution/quota.py], [execution/redis_quota.py].
    - [Disclosure], [DisclosureRedis]: [execution/disclosure_budget.py] and
      [execution/redis_disclosure_budget.py].
    - [Concurrency]: [execution/concurrency.py], [execution/admission.py], as a
      machine whose steps are the points where the event loop may switch;
      [ConcurrencyRedis]: [execution/redis_concurrency.py] as a race of replicas.
    - [ReadService], [ReadFacts], [ReadSample]: [execution/service.py], the seam
      where the parts above meet: the stages of a read in the code's order over
      the limiters, the statements run and the audit trail. [AsyncExecution]:
      [execution/async_execution.py] and its routes in [api/routes.py], as steps of
      the event loop, of callers and of the database.
    - [AuditLedger], [AuditSinks], [Worm], [LedgerSample]: the hash chain of
      [audit/ledger.py], the sinks that write it, the archive's buffer and flush.
    - [Scopes], [Identity]: [core/scopes.py]; claims and the scopes they earn.
    - [BoundedStore], [Sessions], [DeviceGrant], [LocalLogin]: [identity/]: the stores,
      the code exchange and its sessions, device grants, built-in accounts.
    - [Authentication]: the authenticators and how each transport puts them together.
    - [IdentityAdmin]: the local routes of [api/sso_routes.py] and the account routes
      of [api/admin_identity_routes.py] over those stores.
    - [ConfigGovernance], [ConfigDrafts]: [admin/store.py], [admin/service.py],
      [admin/draft_store.py] and [config_reload.py]: versions, reviews, application,
      change sets and drafts.
    - [AccessDiff], [AccessDiffFacts], [AccessDiffSample]: [admin/access_diff.py] and
      [admin/blast_radius.py]: what a candidate configuration changes for callers.
    - [PolicyTemplates]: [admin/templates.py]; [ObservedShapes]:
      [admin/observed_shapes.py], the shapes of queries and the templates drafted.
    - [SchemaMemory]: [catalog/schema_memory.py]: snapshots and their differences.
    - [CatalogModels], [CatalogGovernance], [CatalogRefresh], [CatalogLearning],
      [CatalogAdmin], [CatalogFacts], [CatalogPublish], [CatalogSearch],
      [CatalogSample]: the rest of [catalog/] and the routes of
      [api/catalog_governance_routes.py]: entries and proposals, their life from an
      author, a batch or usage to publication, refresh after a change of schema, search.

    A function keeps its source name. A method [C.m] is [m] with its receiver as
    an argument; a loop whose body may raise is [for_each] or [map_result] over
    a definition of the body; a [raise] is [Raise] with the class and the fixed
    part of the message. State the code keeps in objects is in records of the
    same name and is passed explicitly: the database of a write transaction (with
    what other transactions commit between two statements as an argument), the
    limiters, the files of the sinks. [ReadService] has a state and error monad
    with the triples its proofs are composed from; concurrent code is a step
    function over events, and its theorems quantify over every run. The services
    work the same way: each request is a function of the stores it touches, and a
    course of requests, restarts and background ticks is a fold of steps.

    * What is shown

    - The policy gate. [validate_policy] returning means: every table and every
      column reference of every scope, at any depth and through any position,
      is allowed by the base and the purpose-narrowed policy of every connection
      it may be reached through, and a masked column appears only as a bare
      projection; ctes, correlations, windows, nesting and the tree-wide caps
      obey their rules. The walks those theorems quantify over are themselves
      shown exact in [Visitor].
    - Schema validation. Every reference of an accepted statement names a column of a
      table that was reflected, projected by a cte, or handed down one level, or, in a
      rank over groups, an output of the scope; the compiler finds the same one. A
      checked template fixes every identifier.
    - Purposes only narrow; layered policies always resolve; join groups and
      cross-connection joins are admitted only between agreeing hosts.
    - The compiled scope. Every mandatory row filter is a conjunct on the
      element FROM or JOIN uses and filters every selected row; a masked bare
      column is emitted masked; the group floor bounds the number of distinct
      base rows behind every aggregate row; a boolean tree means what it says.
    - Writes. The policy check is characterised exactly; every cell written is
      allowed; the compiled filter means the caller's; execution commits all of
      it, exactly when accepted, within the cap, approved and run, or none of it, and
      audits either way. A preview commits nothing, foretells the run, shows no masked value and runs
      nothing over the cap; both ways to its difference agree.
    - The statement. Every select of it, at any depth, is governed by the
      policies of the scope it renders; the row limit is applied once.
    - The read. At most one statement runs, only through every gate, and it is
      governed as above; every read is audited; a verdict gives nothing away; a
      retry is not charged twice; the answer is the longest prefix that fits.
    - Background executions. A record always fits its state and its task, ends, and
      then never changes; one cancellation at most reaches the database for it; to a
      caller who may not see it there is none.
    - Limiters. No rolling window holds more than its cap, in process or through
      the Redis scripts, which decide alike (their hints depend on how the server's
      scripts see a reply); no more statements run on a connection than its capacity,
      and an acquisition ends, whatever others do to the slots while it sleeps; the
      answers to one probe, however rephrased, are bounded, and the Redis budget
      answers exactly what fits it and nothing when it cannot be asked.
    - Tokens and approval triggers are exact: an issued token verifies for what
      it was issued for and nothing else; a verified one was signed.
    - The audit trail. What is persisted is redacted; a written ledger verifies
      and a restart resumes it; verification is characterised exactly, tampering
      shows (or yields a collision), a refusal names the first bad line; every
      event of the archive is accounted for.
    - Callers. A caller that a transport knows presented a valid credential of an
      accepted kind and holds the scopes it earns; a session comes of one flow, used
      once; a device token traces back to one client's request and one person's carried-out
      approval, and narrows both; guessing at an account is throttled whatever else is
      tried. An anonymous caller is known only where nothing is configured.
    - Configuration. The documents in force are the deployment's own or had the reviews
      they need, each of another person than their author; contents and reviews of a
      version never change. A difference
      that reports nothing and no gap leaves every access decision it compares as it
      was (columns are compared on tables that are named), a loosening it reports is
      one; a policy template restricts what it writes.
    - Observed shapes. Nothing recorded of a query depends on its values, and every
      field that carries one is a slot in what is kept; a draft bound to the values
      replays a query of its very skeleton; counts are exact until something is evicted.
    - The catalog. What is published was approved, as it stands, by a holder of the
      scope; a publication keeps verified knowledge and every protection; a rollback
      of a creation takes it back exactly; a refresh leaves nothing standing that the
      change of schema touched; no change to what is hidden from a caller changes a
      search, and a search names nothing hidden.

    Concrete counterexamples record where the code does less than its comments
    say: [window_operand_escapes_caps], [cte_arm_projects_masked_column],
    [subquery_output_ignores_joined_mask], [purpose_can_weaken_a_mask],
    [empty_and_turns_or_into_and], [group_floor_depends_on_join_order],
    [empty_and_drops_the_filter], [atomic_batch_skips_recheck],
    [quota_key_collision_fails_open], [nested_scores_hide_the_countdown], [sweep_forgets_longer_windows],
    [alias_choice_mints_buckets], [fail_fast_never_runs],
    [failed_fsync_forks_the_chain], [short_write_tears_the_chain],
    [flush_error_loses_the_batch], [blank_last_line_stops_the_sink],
    [templates_only_refusal_is_unknown], and in the parts beside the path
    [deletion_blocks_publication], [rollback_forgets_untouched_fields],
    [column_publication_verifies_table], [import_bypasses_approval],
    [fifty_edits_freeze_a_proposal], [three_callers_are_not_enough],
    [answer_exceeds_budget], [foreign_names_are_echoed],
    [lease_reload_reverts_application], [failed_disposal_leaves_documents],
    [restart_reverts_application], [torn_version_blocks_listing],
    [active_version_cannot_be_reapplied], [staging_shows_inherited],
    [bad_date_stops_everyone], [hardened_image_answers_mcp_anonymously],
    [blank_method_locks_everyone_out], [guesses_in_flight_escape_the_lock],
    [wide_digits_tell_the_password], [enrolled_cannot_change_password],
    [disabled_account_keeps_its_session], [padded_name_passes_the_guard],
    [line_break_account_is_lost], [racing_polls_mint_two_tokens],
    [poll_undoes_denial], [distinct_prefixes_can_collide],
    [local_accounts_share_the_namespace], [unverified_email_passes],
    [queue_keys_span_slots], [queue_keys_collide],
    [blank_connection_shares_budgets], [caller_chooses_column],
    [list_placeholder_hides_the_rest], [empty_list_default_never_binds],
    [huge_number_escapes_validation], [correlated_exists_in_cte_is_refused],
    [predicted_name_keeps_written_case];
    of the reports, [dropped_column_list_is_silent], [policy_join_group_is_silent],
    [shadowed_filter_removal_is_silent], [write_opening_is_silent],
    [wildcard_denial_is_silent],
    [exchanged_label_is_neutral], [disjoint_lists_open_everything],
    [template_hides_the_default], [casing_twins_swallow_denial], [slot_names_collide],
    [table_alias_mints_shapes]; of previews and background executions,
    [denied_columns_in_diff], [key_change_reads_as_empty],
    [one_refusal_drops_the_batch], [cancel_before_start_sticks],
    [lost_cancel_is_final], [late_cancel_hits_another].

    * Parameters and hypotheses

    [CaseFold] is [str.casefold], with idempotence the only law; [DialectAdapter]
    is the per-dialect rendering; [SqlValues] what a database decides about
    values; [TokenPrimitives] base64, JSON and HMAC with their round-trip and
    separation laws; [UrlParser] is [make_url]; [FloatText] is [repr] of a float;
    [Digest] and [HmacDigest] are the two digests (their collisions appear in
    conclusions, never as an assumption); [LedgerCodec] Pydantic's JSON of a
    record; [RedisServer] the documented commands, and with [lua_nests] whether a script
    sees a member and its score side by side or in a table of their own; Pydantic's dump and validate
    in [PolicyLoader] and of a bound query ([QueryModel]) and its dump
    ([QueryDump]); [SetOrder] the order in which Python walks a set; [StrLower],
    [ReferenceText] and [JsonRepr] are
    [str.lower], the pattern of a provenance reference and [repr] of a claim;
    [Idp], [JwtVerifier], [Passwords], [Totp] and [UserCodeText] the identity
    provider, the token check, scrypt, HOTP and the characters of a user code;
    [ConfigLoaders] the YAML loaders and [DraftCodec] the encryption of drafts; in a
    [ReadEnv] the reflection, the session, the database and the text of a plan; what
    other replicas leave in Redis between two attempts at a slot is an argument of
    [redis_acquire]; [WriteDb] and
    [PreviewDb] the database of a write and of its preview. Every one has a
    concrete instance that the witnesses run on. The group-floor theorem assumes
    that the keys the reflection reports hold of the stored rows.

    Recursion is structural, nested subqueries included, with three exceptions. The
    tail-first reader has the position it starts from as fuel, and
    [iter_lines_reverse_exact] shows that it never runs out; [split_words] has the
    length of its text, and a word takes at least a character; an import that must
    rename a generation tries one name more than there are ids taken, so that one of
    them is free.

    * What is not modelled, and why

    Transports beyond the routes named above, command-line tools, benchmarks, secret
    backends, engines, driver sessions and metrics are glue, I/O or measurement around
    the services. Error messages are cut to their fixed prefix; audit events carry
    names and counts, not durations or SQL text, and a reported change has no sentence
    to explain it. Files and their locks are read and
    written whole, as the code's lock-and-rename makes them. The search of archived
    audit segments, trend and anomaly reports and the client's query builder are
    reporting surfaces: they take no access decision and change no state that the
    modelled parts read. *)
From stdpp Require Export base gmap strings list option sets fin_sets.
From Stdlib Require Export ZArith.
From Stdlib Require Import Ascii Lia.

(** * Exceptions and the error monad *)

(** The exception classes of [core/exceptions.py] that the modelled code
    raises, plus Python's own [ValueError] (what a Pydantic validator raises),
    any error of the database driver ([DatabaseError]), and the other built-in
    exceptions by the name of their class ([BuiltinError]).
    A message is the fixed prefix of the text the code formats: enough to tell
    every raise site of one function apart. *)
Inductive exn :=
| ValueError (msg : string)
| NotFoundError (msg : string)
| PolicyViolationError (msg : string)
| AdHocQueryNotPermittedError (msg : string)
| QueryValidationError (msg : string)
| ConfigValidationError (msg : string)
| ConcurrencyLimitError (msg : string)
| QueueDepthExceededError (msg : string)
| CapacityTimeoutError (msg : string) (retry_after_seconds : Z)
| QueueFullError (msg : string) (retry_after_seconds : Z)
| QuotaExceededError (msg : string) (quota_kind : string) (retry_after_seconds : Z)
| DisclosureBudgetExceededError (msg : string) (quota_kind : string) (retry_after_seconds : Z)
| CostEstimateExceededError (msg : string)
| DatabaseError (msg : string)
| BuiltinError (class_name : string)
| ApprovalRequiredError (msg : string) (fingerprint : string) (reasons : list string).

#[export] Instance exn_eq_dec : EqDecision exn.
Proof. solve_decision. Defined.

(** The class hierarchy the callers' [except] clauses see. *)
Definition is_policy_violation (e : exn) : bool :=
  match e with
  | PolicyViolationError _ | QuotaExceededError _ _ _ | DisclosureBudgetExceededError _ _ _
  | CostEstimateExceededError _ | ApprovalRequiredError _ _ _ | AdHocQueryNotPermittedError _ => true
  | _ => false
  end.

(** [public_error_message]: the classes whose text a client may see; everything
    else is replaced by one sentence. *)
Definition PUBLIC_INTERNAL_ERROR : string := "An unexpected error occurred.".

Definition public_error_message (e : exn) : string :=
  match e with
  | NotFoundError msg | PolicyViolationError msg | ConcurrencyLimitError msg
  | QueueDepthExceededError msg | QueryValidationError msg | ConfigValidationError msg
  | QuotaExceededError msg _ _ | DisclosureBudgetExceededError msg _ _
  | CostEstimateExceededError msg | ApprovalRequiredError msg _ _ | AdHocQueryNotPermittedError msg
  | CapacityTimeoutError msg _ | QueueFullError msg _ => msg
  | ValueError _ | DatabaseError _ | BuiltinError _ => PUBLIC_INTERNAL_ERROR
  end.

(** A call that returns a value or raises. *)
Inductive result (A : Type) :=
| Ok (a : A)
| Raise (e : exn).
Arguments Ok {A} a.
Arguments Raise {A} e.

#[export] Instance result_ret : MRet result := @Ok.
#[export] Instance result_bind : MBind result := λ A B f r,
  match r with Ok a => f a | Raise e => Raise e end.
#[export] Instance result_fmap : FMap result := λ A B f r,
  match r with Ok a => Ok (f a) | Raise e => Raise e end.

(** [if b: raise e] as a statement. *)
Definition raise_if (b : bool) (e : exn) : result unit :=
  if b then Raise e else Ok tt.

(** [for x in l: body(x)], where the body may raise. *)
Fixpoint for_each {A} (f : A → result unit) (l : list A) : result unit :=
  match l with
  | [] => Ok tt
  | x :: l' => f x ≫= λ _, for_each f l'
  end.

(** [[f(x) for x in l]], where [f] may raise. *)
Fixpoint map_result {A B} (f : A → result B) (l : list A) : result (list B) :=
  match l with
  | [] => Ok []
  | x :: l' => f x ≫= λ y, map_result f l' ≫= λ ys, Ok (y :: ys)
  end.

Definition is_ok {A} (r : result A) : bool :=
  match r with Ok _ => true | Raise _ => false end.

Lemma bind_ok {A B} (r : result A) (f : A → result B) b :
  r ≫= f = Ok b ↔ ∃ a, r = Ok a ∧ f a = Ok b.
Proof. destruct r; cbn; naive_solver. Qed.

Lemma bind_ok_unit {B} (r : result unit) (f : unit → result B) b :
  r ≫= f = Ok b ↔ r = Ok tt ∧ f tt = Ok b.
Proof. destruct r as [[]|]; cbn; naive_solver. Qed.

Lemma bind_raise {A B} (r : result A) (f : A → result B) e :
  r ≫= f = Raise e ↔ r = Raise e ∨ ∃ a, r = Ok a ∧ f a = Raise e.
Proof. destruct r; cbn; naive_solver. Qed.

Lemma raise_if_ok b e : raise_if b e = Ok tt ↔ b = false.
Proof. by destruct b. Qed.

Lemma raise_if_raise b e e' : raise_if b e = Raise e' ↔ b = true ∧ e' = e.
Proof. destruct b; cbn; naive_solver. Qed.

Lemma for_each_ok {A} (f : A → result unit) l :
  for_each f l = Ok tt ↔ Forall (λ x, f x = Ok tt) l.
Proof.
  induction l as [|x l IH]; cbn; [by split|].
  by rewrite Forall_cons, bind_ok_unit, IH.
Qed.

Lemma for_each_ok_elem {A} (f : A → result unit) l x :
  for_each f l = Ok tt → x ∈ l → f x = Ok tt.
Proof. rewrite for_each_ok, Forall_forall. auto. Qed.

Lemma for_each_app {A} (f : A → result unit) l1 l2 :
  for_each f (l1 ++ l2) = (for_each f l1 ≫= λ _, for_each f l2).
Proof.
  induction l1 as [|x l1 IH]; cbn; [done|].
  destruct (f x); cbn; [apply IH|done].
Qed.

(** The first element whose body raises decides the exception. *)
Lemma for_each_raise {A} (f : A → result unit) l e :
  for_each f l = Raise e → ∃ x, x ∈ l ∧ f x = Raise e.
Proof.
  induction l as [|x l IH]; cbn; [done|].
  rewrite bind_raise. intros [Hx|(_ & _ & Hl)].
  - exists x. set_solver.
  - destruct (IH Hl) as (y & ? & ?). exists y. set_solver.
Qed.

Lemma map_result_ok {A B} (f : A → result B) l k :
  map_result f l = Ok k ↔ Forall2 (λ x y, f x = Ok y) l k.
Proof.
  revert k. induction l as [|x l IH]; intros k; cbn.
  - split; [intros [= <-]; constructor | by intros ->%Forall2_nil_inv_l].
  - rewrite bind_ok. setoid_rewrite bind_ok. setoid_rewrite IH. split.
    + intros (y & Hy & ys & Hys & [= <-]). by constructor.
    + intros (y & ys & ? & ? & ->)%Forall2_cons_inv_l. eauto.
Qed.

Lemma map_result_elem {A B} (f : A → result B) l k y :
  map_result f l = Ok k → y ∈ k → ∃ x, x ∈ l ∧ f x = Ok y.
Proof.
  rewrite map_result_ok. intros H [i Hi]%list_elem_of_lookup.
  destruct (Forall2_lookup_r _ _ _ _ _ H Hi) as (x & Hx & Hf).
  exists x. split; [by apply list_elem_of_lookup_2 in Hx|done].
Qed.

Lemma map_result_app {A B} (f : A → result B) l1 l2 k1 k2 :
  map_result f l1 = Ok k1 → map_result f l2 = Ok k2 → map_result f (l1 ++ l2) = Ok (k1 ++ k2).
Proof. rewrite !map_result_ok. apply Forall2_app. Qed.

(** [for x in l: s = f(s, x)], where the body may raise. *)
Fixpoint fold_result {A S} (f : S → A → result S) (l : list A) (s : S) : result S :=
  match l with [] => Ok s | x :: l => f s x ≫= λ s, fold_result f l s end.

Lemma fold_result_inv {A S} (P : S → Prop) (f : S → A → result S) l s s' :
  (∀ s x s', x ∈ l → P s → f s x = Ok s' → P s') → P s → fold_result f l s = Ok s' → P s'.
Proof.
  revert s. induction l as [|x l IH]; intros s Hf Hs H; cbn in H; [by injection H as <-|].
  apply bind_ok in H as (s1 & H1 & H). eapply IH; [|eapply Hf; [left|exact Hs|exact H1]|exact H]. intros. eapply Hf; [by right|done|done].
Qed.

Create Rewrite HintDb result.
#[export] Hint Rewrite @bind_ok_unit @bind_ok raise_if_ok @for_each_ok : result.

(** Splits every hypothesis that says a composed check returned. *)
Ltac result_inv :=
  repeat match goal with
  | H : Ok _ = Ok _ |- _ => injection H as H; try subst
  | H : Raise _ = Ok _ |- _ => discriminate H
  | H : Ok _ = Raise _ |- _ => discriminate H
  | H : _ ≫= _ = Ok _ |- _ =>
      first [ apply bind_ok_unit in H as [? H] | apply bind_ok in H as (? & ? & H) ]
  | H : raise_if _ _ = Ok _ |- _ => apply raise_if_ok in H
  | H : (if ?b then Raise _ else _) = Ok _ |- _ => destruct b eqn:?; [discriminate H|]
  | H : (if ?b then _ else Raise _) = Ok _ |- _ => destruct b eqn:?; [|discriminate H]
  end.

(** [raise_if] over a boolean that may be any expression. *)
Ltac bool_inv :=
  repeat match goal with
  | H : _ && _ = true |- _ => apply andb_true_iff in H as [? ?]
  | H : _ || _ = false |- _ => apply orb_false_iff in H as [? ?]
  | H : negb _ = true |- _ => apply negb_true_iff in H
  | H : negb _ = false |- _ => apply negb_false_iff in H
  | H : bool_decide _ = true |- _ => apply bool_decide_eq_true in H
  | H : bool_decide _ = false |- _ => apply bool_decide_eq_false in H
  | H : (_ <? _)%Z = false |- _ => apply Z.ltb_ge in H
  | H : (_ <? _)%Z = true |- _ => apply Z.ltb_lt in H
  | H : (_ <=? _)%Z = false |- _ => apply Z.leb_gt in H
  | H : (_ <=? _)%Z = true |- _ => apply Z.leb_le in H
  end.

(** * Python text *)

(** [str.casefold]. Python folds every Unicode letter; the development is
    stated over any idempotent folding and evaluates with the ASCII instance
    below. *)
Class CaseFold := {
  casefold : string → string;
  casefold_idemp s : casefold (casefold s) = casefold s;
}.

Definition ascii_lower_char (c : ascii) : ascii :=
  let n := nat_of_ascii c in
  if (Nat.leb 65 n && Nat.leb n 90)%bool then ascii_of_nat (n + 32) else c.

Fixpoint string_map (f : ascii → ascii) (s : string) : string :=
  match s with
  | EmptyString => EmptyString
  | String c s' => String (f c) (string_map f s')
  end.

Lemma ascii_lower_char_idemp c :
  ascii_lower_char (ascii_lower_char c) = ascii_lower_char c.
Proof. destruct c as [[] [] [] [] [] [] [] []]; reflexivity. Qed.

Lemma ascii_casefold_idemp s :
  string_map ascii_lower_char (string_map ascii_lower_char s)
  = string_map ascii_lower_char s.
Proof.
  induction s as [|c s IH]; cbn; [done|]. by rewrite ascii_lower_char_idemp, IH.
Qed.

Definition ascii_casefold : CaseFold :=
  {| casefold := string_map ascii_lower_char; casefold_idemp := ascii_casefold_idemp |}.

Fixpoint string_forall (f : ascii → bool) (s : string) : bool :=
  match s with EmptyString => true | String c s => f c && string_forall f s end.

(** [str.isascii]. *)
Definition isascii (s : string) : bool := string_forall (λ c, Nat.ltb (nat_of_ascii c) 128) s.

(** Python's whitespace as UTF-8: the one-byte, two-byte and three-byte
    characters [str.isspace] holds of. *)
Definition isspace (c : ascii) : bool :=
  let n := nat_of_ascii c in
  ((Nat.leb 9 n && Nat.leb n 13) || (Nat.leb 28 n && Nat.leb n 32))%bool.
Definition isspace2 (a b : ascii) : bool :=
  let a := nat_of_ascii a in let b := nat_of_ascii b in
  (Nat.eqb a 194 && (Nat.eqb b 133 || Nat.eqb b 160))%bool.
Definition isspace3 (a b c : ascii) : bool :=
  let a := nat_of_ascii a in let b := nat_of_ascii b in let c := nat_of_ascii c in
  ((Nat.eqb a 225 && Nat.eqb b 154 && Nat.eqb c 128)
   || (Nat.eqb a 226 && Nat.eqb b 128
       && ((Nat.leb 128 c && Nat.leb c 138) || Nat.eqb c 168 || Nat.eqb c 169 || Nat.eqb c 175))
   || (Nat.eqb a 226 && Nat.eqb b 129 && Nat.eqb c 159)
   || (Nat.eqb a 227 && Nat.eqb b 128 && Nat.eqb c 128))%bool.

Fixpoint lstrip_by (space2 : ascii → ascii → bool) (space3 : ascii → ascii → ascii → bool) (s : string) : string :=
  match s with
  | EmptyString => EmptyString
  | String a s1 =>
      if isspace a then lstrip_by space2 space3 s1 else
      match s1 with
      | EmptyString => s
      | String b s2 =>
          if space2 a b then lstrip_by space2 space3 s2 else
          match s2 with
          | EmptyString => s
          | String c s3 => if space3 a b c then lstrip_by space2 space3 s3 else s
          end
      end
  end.

Definition lstrip (s : string) : string := lstrip_by isspace2 isspace3 s.
Definition rstrip (s : string) : string :=
  String.rev (lstrip_by (λ b a, isspace2 a b) (λ c b a, isspace3 a b c) (String.rev s)).

(** [str.strip()]. *)
Definition strip (s : string) : string := lstrip (rstrip s).

Lemma string_rev_app_app s1 s2 k : String.rev_app (s1 +:+ s2) k = String.rev_app s2 (String.rev_app s1 k).
Proof. revert k. induction s1 as [|c s1 IH]; intros k; [done|]. cbn. apply IH. Qed.

Lemma string_rev_rev_app s : ∀ k l, String.rev_app (String.rev_app s k) l = String.rev_app k (s +:+ l).
Proof. induction s as [|c s IH]; intros k l; [done|]. cbn. rewrite IH. done. Qed.

Lemma string_app_cons c s t : String c s +:+ t = String c (s +:+ t).
Proof. done. Qed.

Lemma string_app_assoc a b c : a +:+ (b +:+ c) = (a +:+ b) +:+ c.
Proof. induction a as [|x a IH]; [done|]. by rewrite !string_app_cons, IH. Qed.

Lemma string_length_app a b : String.length (a +:+ b) = (String.length a + String.length b)%nat.
Proof. induction a as [|x a IH]; [done|]. rewrite string_app_cons. cbn. by rewrite IH. Qed.

Lemma string_forall_app f a b : string_forall f (a +:+ b) = string_forall f a && string_forall f b.
Proof. induction a as [|x a IH]; [done|]. rewrite string_app_cons. cbn. by rewrite IH, andb_assoc. Qed.

Lemma string_forall_impl (f g : ascii → bool) s :
  (∀ c, f c = true → g c = true) → string_forall f s = true → string_forall g s = true.
Proof.
  intros Hfg. induction s as [|c s IH]; [done|]. cbn. intros [Hc Hs]%andb_true_iff.
  by rewrite Hfg, IH.
Qed.

Definition no_char (c : ascii) (s : string) : bool := string_forall (λ d, bool_decide (d ≠ c)) s.

Lemma no_char_app c a b : no_char c (a +:+ b) = no_char c a && no_char c b.
Proof. apply string_forall_app. Qed.

(** [len] of a text: its UTF-8 bytes but the continuation ones. *)
Fixpoint char_count (s : string) : Z :=
  (match s with
  | EmptyString => 0
  | String c s => (if (128 <=? Ascii.nat_of_ascii c)%nat && (Ascii.nat_of_ascii c <? 192)%nat then 0 else 1) + char_count s
  end)%Z.

(** The names of a set of strings, in the order the interpreter walks it. *)
Class SetOrder := {
  set_order : list string → list string;
  set_order_perm l : set_order l ≡ₚ remove_dups l;
}.

(** An instance: first occurrences, in order. *)
Definition once_each : SetOrder := {| set_order := remove_dups; set_order_perm l := reflexivity _ |}.

(** [str.lower]. *)
Class StrLower := { str_lower : string → string }.

Definition is_nil {A} (l : list A) : bool := match l with [] => true | _ => false end.

(** The first separator splits a text in one way. *)
Lemma split_first c a b x y : no_char c a = true → no_char c b = true →
  a +:+ String c x = b +:+ String c y → a = b ∧ x = y.
Proof.
  revert b. induction a as [|d a IH]; intros [|e b] Ha Hb H; cbn in Ha, Hb.
  - by injection H.
  - injection H as <- _. by rewrite bool_decide_eq_false_2 in Hb by auto.
  - injection H as -> _. by rewrite bool_decide_eq_false_2 in Ha by auto.
  - rewrite !string_app_cons in H. injection H as -> H. apply andb_true_iff in Ha as [_ Ha], Hb as [_ Hb].
    by destruct (IH b Ha Hb H) as [-> ->].
Qed.

(** The last [c] of a text splits it in one way. *)
Lemma string_split_last c a b : string_forall (λ d, bool_decide (d ≠ c)) a = true →
  string_forall (λ d, bool_decide (d ≠ c)) b = true →
  ∀ p q, p +:+ String c a = q +:+ String c b → p = q ∧ a = b.
Proof.
  intros Ha Hb p. induction p as [|x p IH]; intros [|y q] Heq.
  - by injection Heq as ->.
  - exfalso. injection Heq as -> ->. rewrite string_forall_app in Ha. cbn in Ha.
    rewrite bool_decide_eq_false_2 in Ha by auto. by rewrite andb_false_r in Ha.
  - exfalso. injection Heq as -> <-. rewrite string_forall_app in Hb. cbn in Hb.
    rewrite bool_decide_eq_false_2 in Hb by auto. by rewrite andb_false_r in Hb.
  - rewrite !string_app_cons in Heq. injection Heq as -> Heq. by destruct (IH q Heq) as [-> ->].
Qed.

Lemma string_app_inj_l s p q : s +:+ p = s +:+ q → p = q.
Proof. induction s as [|c s IH]; [done|]. rewrite !string_app_cons. intros [= H]. by apply IH. Qed.

Lemma string_app_inj_r p q s : p +:+ s = q +:+ s → p = q.
Proof.
  intros Heq. assert (Hlen : String.length p = String.length q).
  { apply (f_equal String.length) in Heq. rewrite !string_length_app in Heq. lia. }
  revert q Heq Hlen. induction p as [|x p IH]; intros [|y q] Heq Hlen; try done.
  rewrite !string_app_cons in Heq. injection Heq as -> Heq. f_equal. apply IH; [done|]. by injection Hlen.
Qed.

Lemma string_app_nil_r s : s +:+ "" = s.
Proof. induction s as [|c s IH]; [done|]. change (String c s +:+ "") with (String c (s +:+ "")). by rewrite IH. Qed.

Lemma string_rev_rev s : String.rev (String.rev s) = s.
Proof. unfold String.rev. rewrite string_rev_rev_app. cbn. apply string_app_nil_r. Qed.

(** A text in braces, with what whitespace after it, strips to itself. *)
Lemma lstrip_by_id f g c s : isspace c = false → (∀ b, f c b = false) → (∀ b d, g c b d = false) →
  lstrip_by f g (String c s) = String c s.
Proof. intros Hc Hf Hg. cbn. rewrite Hc. destruct s as [|b [|d s]]; rewrite ?Hf, ?Hg; done. Qed.

Lemma isspace2_brace a : isspace2 a "}" = false.
Proof.
  unfold isspace2. change (nat_of_ascii "}") with 125. cbn [Nat.eqb orb]. apply andb_false_r.
Qed.

Lemma isspace3_brace a b : isspace3 a b "}" = false.
Proof.
  unfold isspace3. change (nat_of_ascii "}") with 125. cbn [Nat.eqb Nat.leb andb orb].
  by rewrite !andb_false_r.
Qed.

Lemma strip_braces mid : strip ("{" +:+ mid +:+ "}") = "{" +:+ mid +:+ "}".
Proof.
  unfold strip, rstrip, lstrip. set (t := "{" +:+ mid +:+ "}").
  assert (String.rev t = String "}" (String.rev_app mid "{")) as Ht.
  { unfold t, String.rev. rewrite !string_rev_app_app. done. }
  rewrite Ht, lstrip_by_id; [|done|intros b; apply isspace2_brace|intros b d; apply isspace3_brace].
  rewrite <- Ht, string_rev_rev. by apply lstrip_by_id.
Qed.

Lemma strip_newline s : strip (s +:+ String (ascii_of_nat 10) "") = strip s.
Proof. unfold strip, rstrip. f_equal. f_equal. unfold String.rev. by rewrite string_rev_app_app. Qed.

(** [s.partition(".")]: the text before the first dot, and the text after it
    when there is a dot ([s.split(".", 1)] when [Some]). *)
Fixpoint partition_dot (s : string) : string * option string :=
  match s with
  | EmptyString => (EmptyString, None)
  | String c s' =>
      if Ascii.eqb c "."%char then (EmptyString, Some s')
      else let '(l, r) := partition_dot s' in (String c l, r)
  end.

(** ["." in s]. *)
Definition has_dot (s : string) : bool :=
  match (partition_dot s).2 with Some _ => true | None => false end.

Definition str_empty (s : string) : bool := bool_decide (s = "").

Definition is_alpha_ (c : ascii) : bool :=
  let n := nat_of_ascii c in
  ((Nat.leb 65 n && Nat.leb n 90) || (Nat.leb 97 n && Nat.leb n 122) || Nat.eqb n 95)%bool.

Definition is_alnum_ (c : ascii) : bool :=
  let n := nat_of_ascii c in (is_alpha_ c || (Nat.leb 48 n && Nat.leb n 57))%bool.

(** [[A-Za-z0-9_]*] up to the end of the text; Python's [re] lets [$] also
    match before one final newline, so [nl] says whether that is admitted. *)
Fixpoint all_alnum_ (nl : bool) (s : string) : bool :=
  match s with
  | EmptyString => true
  | String c s' =>
      (is_alnum_ c && all_alnum_ nl s')
      || (nl && Nat.eqb (nat_of_ascii c) 10 && str_empty s')
  end%bool.

(** [^[A-Za-z_][A-Za-z0-9_]*$], with Python's or with a strict [$]. *)
Definition is_identifier (nl : bool) (s : string) : bool :=
  match s with
  | EmptyString => false
  | String c s' => is_alpha_ c && all_alnum_ nl s'
  end%bool.

Lemma partition_dot_None s : has_dot s = false → partition_dot s = (s, None).
Proof.
  unfold has_dot. induction s as [|c s IH]; cbn; [done|].
  destruct (Ascii.eqb c "."%char); cbn; [done|].
  destruct (partition_dot s) as [l r]; cbn in *. intros H.
  specialize (IH H). by simplify_eq.
Qed.

(** [s.replace(old, new)] for a non-empty [old]: leftmost occurrences first,
    none of them overlapping; [skip] counts the characters of a match still to
    be passed over. *)
Fixpoint str_replace_from (skip : nat) (old new s : string) : string :=
  match s with
  | EmptyString => EmptyString
  | String c s' =>
      match skip with
      | S k => str_replace_from k old new s'
      | O => if String.prefix old s
             then new +:+ str_replace_from (pred (String.length old)) old new s'
             else String c (str_replace_from 0 old new s')
      end
  end.

Definition str_replace (old new s : string) : string := str_replace_from 0 old new s.

(** [x in s]. *)
Fixpoint str_contains (x s : string) : bool :=
  String.prefix x s
  || match s with EmptyString => false | String _ s' => str_contains x s' end.

(** * Dictionaries *)

(** [s.split(c)]. *)
Fixpoint split_on (c : ascii) (s : string) : list string :=
  match s with
  | "" => [""]
  | String d s =>
      if bool_decide (d = c) then "" :: split_on c s
      else match split_on c s with w :: ws => String d w :: ws | [] => [String d ""] end
  end.

Lemma split_on_cons c s : ∃ w ws, split_on c s = w :: ws.
Proof.
  induction s as [|d s (w & ws & IH)]; cbn; [by eexists _, _|]. case_bool_decide; [by eexists _, _|]. rewrite IH. by eexists _, _.
Qed.

Lemma split_on_app c a b : split_on c (a +:+ String c b) = split_on c a ++ split_on c b.
Proof.
  induction a as [|d a IH].
  - change ("" +:+ String c b) with (String c b). cbn. by case_bool_decide.
  - rewrite string_app_cons. cbn. case_bool_decide; rewrite IH; [done|]. by destruct (split_on_cons c a) as (w & ws & ->).
Qed.

(** Text after the last separator extends the last piece. *)
Lemma split_on_last c a b : ∃ init last tail, split_on c a = init ++ [last]
  ∧ split_on c (a +:+ b) = init ++ (last +:+ List.hd "" (split_on c b)) :: tail.
Proof.
  induction a as [|d a (init & last & tail & Ha & Hab)].
  - change ("" +:+ b) with b. exists [], "", (List.tl (split_on c b)). split; [done|].
    destruct (split_on_cons c b) as (w & ws & ->). done.
  - rewrite string_app_cons. cbn. rewrite Ha, Hab. case_bool_decide.
    + by exists ("" :: init), last, tail.
    + destruct init as [|w init]; cbn; [by exists [], (String d last), tail|by exists (String d w :: init), last, tail].
Qed.

(** A Python [dict] with string keys: insertion order is observable (the code
    iterates it), so it is an association list; [dict_set] keeps the position
    of a key that is already there. *)
Definition dict (A : Type) : Type := list (string * A).

Fixpoint dict_get {A} (k : string) (d : dict A) : option A :=
  match d with
  | [] => None
  | (k', v) :: d' => if bool_decide (k = k') then Some v else dict_get k d'
  end.

Fixpoint dict_set {A} (k : string) (v : A) (d : dict A) : dict A :=
  match d with
  | [] => [(k, v)]
  | (k', v') :: d' =>
      if bool_decide (k = k') then (k', v) :: d' else (k', v') :: dict_set k v d'
  end.

(** [d.setdefault(k, v)], as the new dict. *)
Definition dict_setdefault {A} (k : string) (v : A) (d : dict A) : dict A :=
  match dict_get k d with Some _ => d | None => dict_set k v d end.

(** [d.pop(k, None)], as the dict that is left. *)
Definition dict_pop {A} (k : string) (d : dict A) : dict A :=
  List.filter (λ e, negb (bool_decide (e.1 = k))) d.

Definition dict_keys {A} (d : dict A) : list string := d.*1.

Section dict.
Context {A : Type}.
Implicit Types (d : dict A) (k : string) (v : A).

Lemma dict_get_set_eq k v d : dict_get k (dict_set k v d) = Some v.
Proof.
  induction d as [|[k' v'] d IH]; cbn; repeat case_bool_decide; cbn;
    repeat case_bool_decide; try congruence; auto.
Qed.

Lemma dict_get_set_ne k k' v d :
  k ≠ k' → dict_get k (dict_set k' v d) = dict_get k d.
Proof.
  intros Hne. induction d as [|[j w] d IH]; cbn; repeat case_bool_decide; cbn;
    repeat case_bool_decide; try congruence; auto.
Qed.

Lemma dict_get_setdefault k k' v d :
  dict_get k (dict_setdefault k' v d)
  = if bool_decide (k = k') then Some (default v (dict_get k d)) else dict_get k d.
Proof.
  unfold dict_setdefault. case_bool_decide as Hk.
  - subst. destruct (dict_get k' d) eqn:E; cbn; [done|apply dict_get_set_eq].
  - destruct (dict_get k' d); [done|by apply dict_get_set_ne].
Qed.

Lemma dict_get_Some k v d : dict_get k d = Some v → (k, v) ∈ d.
Proof.
  induction d as [|[k' v'] d IH]; cbn; [done|].
  case_bool_decide; intros; simplify_eq; set_solver.
Qed.

Lemma dict_get_None k d : dict_get k d = None ↔ k ∉ dict_keys d.
Proof.
  unfold dict_keys. induction d as [|[k' v'] d IH]; cbn; [set_solver|].
  case_bool_decide; [subst; set_solver|]. rewrite IH. set_solver.
Qed.

Lemma dict_get_is_Some k d : is_Some (dict_get k d) ↔ k ∈ dict_keys d.
Proof.
  rewrite <-not_eq_None_Some, dict_get_None.
  split; [apply dec_stable|naive_solver].
Qed.

Lemma dict_keys_set k v d j : j ∈ dict_keys (dict_set k v d) ↔ j = k ∨ j ∈ dict_keys d.
Proof.
  rewrite <-!dict_get_is_Some. destruct (decide (j = k)) as [->|Hne].
  - rewrite dict_get_set_eq. naive_solver.
  - rewrite dict_get_set_ne by done. naive_solver.
Qed.

Lemma dict_set_in k v d e : e ∈ dict_set k v d → e = (k, v) ∨ e ∈ d.
Proof.
  induction d as [|[j w] d IH]; cbn; [rewrite list_elem_of_singleton; auto|].
  case_bool_decide; rewrite !elem_of_cons; naive_solver.
Qed.

Lemma dict_in_get k v d : NoDup (dict_keys d) → (k, v) ∈ d → dict_get k d = Some v.
Proof.
  unfold dict_keys. induction d as [|[j w] d IH]; cbn; [by intros _ ?%not_elem_of_nil|].
  intros [Hj Hd]%NoDup_cons [[= -> ->]|Hin]%elem_of_cons; [by rewrite bool_decide_eq_true_2|].
  rewrite bool_decide_eq_false_2; [auto|]. intros ->. apply Hj. by apply (list_elem_of_fmap_2 fst) in Hin.
Qed.

Lemma dict_set_keys k v d : dict_keys (dict_set k v d) = if bool_decide (k ∈ dict_keys d) then dict_keys d else dict_keys d ++ [k].
Proof.
  unfold dict_keys. induction d as [|[j w] d IH]; cbn; [done|]. destruct (decide (k = j)) as [->|Hk].
  - rewrite (bool_decide_eq_true_2 (j = j)), (bool_decide_eq_true_2 (j ∈ _)) by (done || by left). done.
  - rewrite (bool_decide_eq_false_2 (k = j)) by done. cbn. rewrite IH.
    case_bool_decide as H1; case_bool_decide as H2; try done; set_solver.
Qed.

Lemma dict_set_NoDup k v d : NoDup (dict_keys d) → NoDup (dict_keys (dict_set k v d)).
Proof.
  intros Hd. rewrite dict_set_keys. case_bool_decide; [done|].
  apply NoDup_app. split_and!; [done| |apply NoDup_singleton]. by intros j Hj ->%list_elem_of_singleton.
Qed.

Lemma dict_pop_elem k d e : e ∈ dict_pop k d ↔ e ∈ d ∧ e.1 ≠ k.
Proof.
  unfold dict_pop. rewrite !list_elem_of_In, List.filter_In, negb_true_iff, bool_decide_eq_false. done.
Qed.

Lemma dict_get_pop k j d : dict_get j (dict_pop k d) = if bool_decide (j = k) then None else dict_get j d.
Proof.
  unfold dict_pop. induction d as [|[i w] d IH]; cbn; [by case_bool_decide|].
  destruct (bool_decide (i = k)) eqn:Hi; cbn; rewrite IH.
  - apply bool_decide_eq_true in Hi as ->. by case_bool_decide.
  - apply bool_decide_eq_false in Hi. destruct (decide (j = i)) as [->|Hj].
    + by rewrite !(bool_decide_eq_true_2 (i = i)), (bool_decide_eq_false_2 (i = k)) by done.
    + by rewrite !(bool_decide_eq_false_2 (j = i)) by done.
Qed.
End dict.

(** Keeping some of the entries of a dict. *)
Lemma dict_filter_NoDup {A} (f : string * A → bool) (d : dict A) :
  NoDup (dict_keys d) → NoDup (dict_keys (List.filter f d)).
Proof.
  unfold dict_keys. induction d as [|e d IH]; cbn; [done|]. intros [He Hd]%NoDup_cons.
  destruct (f e); [|auto]. cbn. apply NoDup_cons. split; [|auto]. intros (e' & He' & Hin)%list_elem_of_fmap.
  apply He. rewrite He'. apply list_elem_of_fmap_2. apply list_elem_of_In, List.filter_In in Hin as [Hin _].
  by apply list_elem_of_In.
Qed.

Lemma dict_filter_get {A} (f : string * A → bool) (d : dict A) k :
  NoDup (dict_keys d) → dict_get k (List.filter f d) = v ← dict_get k d; if f (k, v) then Some v else None.
Proof.
  unfold dict_keys. induction d as [|[j w] d IH]; cbn; [done|]. intros [Hj Hd]%NoDup_cons.
  destruct (f (j, w)) eqn:Ef; cbn; case_bool_decide as Hk; subst; cbn; rewrite ?Ef, ?IH by done; try done.
  assert (dict_get j d = None) as ->; [|done]. by apply dict_get_None.
Qed.

(** * Lists *)

(** [any(f(x) for x in l)] is [existsb], [all] is [forallb]. *)
Lemma existsb_elem {A} (f : A → bool) l :
  existsb f l = true ↔ ∃ x, x ∈ l ∧ f x = true.
Proof. rewrite existsb_exists. setoid_rewrite <-list_elem_of_In. done. Qed.

Lemma existsb_not_elem {A} (f : A → bool) l :
  existsb f l = false ↔ ∀ x, x ∈ l → f x = false.
Proof.
  rewrite <-not_true_iff_false, existsb_elem. split.
  - intros H x Hx. apply not_true_iff_false. naive_solver.
  - intros H (x & Hx & Hf). rewrite (H x Hx) in Hf. done.
Qed.

Lemma forallb_elem {A} (f : A → bool) l :
  forallb f l = true ↔ ∀ x, x ∈ l → f x = true.
Proof. rewrite forallb_forall. setoid_rewrite <-list_elem_of_In. done. Qed.

Lemma elem_of_flat_map {A B} (f : A → list B) l y :
  y ∈ flat_map f l ↔ ∃ x, x ∈ l ∧ y ∈ f x.
Proof. rewrite list_elem_of_In, in_flat_map. by setoid_rewrite list_elem_of_In. Qed.

Lemma flat_map_id {A} (ls : list (list A)) : flat_map (λ l, l) ls = concat ls.
Proof. induction ls as [|l ls IH]; cbn; [done|]. by rewrite IH. Qed.

Lemma flat_map_single {A B} (f : A → B) l : flat_map (λ x, [f x]) l = map f l.
Proof. induction l as [|x l IH]; cbn; [done|]. by rewrite IH. Qed.

Lemma Forall2_impl_elem {A B} (P Q : A → B → Prop) l k :
  Forall2 P l k → (∀ x y, x ∈ l → y ∈ k → P x y → Q x y) → Forall2 Q l k.
Proof. induction 1 as [|x y l k Hxy _ IH]; intros H; constructor; [apply H; [left..|done]|apply IH; intros; apply H; [by right..|done]]. Qed.

Lemma flat_map_cons {A B} (f : A → list B) x l : flat_map f (x :: l) = f x ++ flat_map f l.
Proof. done. Qed.

Lemma flat_map_flat_map {A B C} (f : A → list B) (g : B → list C) l :
  flat_map g (flat_map f l) = flat_map (λ x, flat_map g (f x)) l.
Proof.
  induction l as [|x l IH]; cbn; [done|]. by rewrite flat_map_app, IH.
Qed.

Lemma flat_map_ext_elem {A B} (f g : A → list B) l :
  (∀ x, x ∈ l → f x = g x) → flat_map f l = flat_map g l.
Proof.
  induction l as [|x l IH]; cbn; intros H; [done|].
  rewrite H, IH; set_solver.
Qed.

(** [sum(f(x) for x in l)]. *)
Definition sum_of {A} (f : A → nat) (l : list A) : nat := sum_list_with f l.

Lemma sum_of_elem {A} (f : A → nat) l x : x ∈ l → f x ≤ sum_of f l.
Proof.
  unfold sum_of. induction 1 as [|x y l _ IH]; cbn; lia.
Qed.

Lemma sum_of_app {A} (f : A → nat) l k : sum_of f (l ++ k) = sum_of f l + sum_of f k.
Proof. apply sum_list_with_app. Qed.

Lemma sum_of_map {A B} (g : A → B) (f : B → nat) l : sum_of f (map g l) = sum_of (λ x, f (g x)) l.
Proof. unfold sum_of. induction l; cbn; congruence. Qed.

(** [max(f(x) for x in l)] with default 0. *)
Definition max_of {A} (f : A → nat) (l : list A) : nat := max_list_with f l.

Lemma max_of_le {A} (f : A → nat) l n : max_of f l ≤ n ↔ ∀ x, x ∈ l → f x ≤ n.
Proof.
  unfold max_of. induction l as [|y l IH]; cbn; [set_solver by lia|].
  rewrite Nat.max_lub_iff, IH. set_solver.
Qed.

Lemma max_of_elem {A} (f : A → nat) l x : x ∈ l → f x ≤ max_of f l.
Proof. intros. by apply (max_of_le f l). Qed.

Lemma max_of_attained {A} (f : A → nat) l : l = [] ∨ ∃ x, x ∈ l ∧ max_of f l = f x.
Proof.
  unfold max_of. induction l as [|y l [->|(x & Hx & IH)]]; [by left|right..].
  - exists y. cbn. split; [set_solver|lia].
  - destruct (decide (f x ≤ f y)); [exists y|exists x]; cbn; split; try set_solver; lia.
Qed.

Lemma elem_of_map {A B} (f : A → B) l y : y ∈ map f l ↔ ∃ x, y = f x ∧ x ∈ l.
Proof. apply (list_elem_of_fmap f l y). Qed.

Lemma elem_of_option_list {A} (o : option A) x : x ∈ option_list o ↔ o = Some x.
Proof. destruct o; cbn; set_solver. Qed.

Lemma elem_of_filter_bool {A} (f : A → bool) (l : list A) x :
  x ∈ filter (λ y, f y) l ↔ f x = true ∧ x ∈ l.
Proof. rewrite list_elem_of_filter. by rewrite Is_true_true. Qed.

Lemma elem_of_lfilter {B} (f : B → bool) (l : list B) x : x ∈ List.filter f l ↔ x ∈ l ∧ f x = true.
Proof. by rewrite !list_elem_of_In, List.filter_In. Qed.

(** [set_solver] looks through the list combinators of the walks. *)
#[export] Instance set_unfold_flat_map {A B} (f : A → list B) l y Pin Pf :
  (∀ x, SetUnfoldElemOf x l (Pin x)) → (∀ x, SetUnfoldElemOf y (f x) (Pf x)) →
  SetUnfoldElemOf y (flat_map f l) (∃ x, Pin x ∧ Pf x).
Proof. intros H1 H2. constructor. rewrite elem_of_flat_map. set_solver. Qed.

#[export] Instance set_unfold_map {A B} (f : A → B) l y Pin :
  (∀ x, SetUnfoldElemOf x l (Pin x)) →
  SetUnfoldElemOf y (map f l) (∃ x, y = f x ∧ Pin x).
Proof. intros H1. constructor. rewrite elem_of_map. set_solver. Qed.

#[export] Instance set_unfold_option_list {A} (o : option A) x :
  SetUnfoldElemOf x (option_list o) (o = Some x).
Proof. constructor. apply elem_of_option_list. Qed.

(** Membership in a list of lists. *)
Lemma elem_of_concat {A} (ls : list (list A)) x : x ∈ concat ls ↔ ∃ l, l ∈ ls ∧ x ∈ l.
Proof.
  rewrite <-flat_map_id, elem_of_flat_map. set_solver.
Qed.

Lemma elem_of_imap {A B} (f : nat → A → B) l y :
  y ∈ imap f l ↔ ∃ i x, l !! i = Some x ∧ y = f i x.
Proof.
  rewrite list_elem_of_lookup. setoid_rewrite list_lookup_imap_Some. naive_solver.
Qed.
