(* ===== verification/Effects.v ===== *)
(** State and exceptions together: code that changes a state and may raise, keeping
    what it changed, as a monad; and a loop over a list in it. *)
From S2P Require Export Prelude.

(** Code that changes the state and may raise, keeping what it changed. *)
Definition eff (S A : Type) : Type := S → S * result A.
#[export] Instance eff_ret {S} : MRet (eff S) := λ A a s, (s, Ok a).
#[export] Instance eff_bind {S} : MBind (eff S) := λ A B f m s,
  match m s with (s, Ok a) => f a s | (s, Raise e) => (s, Raise e) end.
Definition lift {S A} (r : result A) : eff S A := λ s, (s, r).
Definition raise_e {S A} (e : exn) : eff S A := λ s, (s, Raise e).
Definition modify {S} (f : S → S) : eff S unit := λ s, (f s, Ok tt).
Definition ask {S A} (f : S → A) : eff S A := λ s, (s, Ok (f s)).
Definition catch {S A} (m : eff S A) (handler : exn → eff S A) : eff S A :=
  λ s, match m s with (s, Ok a) => (s, Ok a) | (s, Raise e) => handler e s end.

(** [for x in l: out += f(x)]. *)
Definition collect_each {S A B} (f : A → eff S (list B)) : list A → eff S (list B) :=
  fix go (l : list A) : eff S (list B) :=
    match l with
    | [] => mret []
    | x :: l => f x ≫= λ ys, go l ≫= λ zs, mret (ys ++ zs)
    end.

Lemma eff_bind_ok {S A B} (m : eff S A) (f : A → eff S B) s s' b :
  (m ≫= f) s = (s', Ok b) ↔ ∃ s1 a, m s = (s1, Ok a) ∧ f a s1 = (s', Ok b).
Proof. unfold mbind, eff_bind. destruct (m s) as [s1 [a|e]]; naive_solver. Qed.
