(* ===== verification/RollingWindow.v ===== *)
(** Rolling windows over a clock, as the request quota and the disclosure
    budget keep them: logs of timestamps, the entries still inside a window, the
    retry hint of a refusal, and the bound a check-then-record limiter keeps in
    every window position.

    A clock reading is a number of nanoseconds, which is what Python's clocks
    read; the code's float arithmetic on readings is exact here. *)
From Stdlib Require Import Sorted.
From S2P Require Export Prelude.
Local Open Scope Z_scope.

Definition second : Z := 1000000000.

(** [now - window_seconds]. *)
Definition cutoff (window now : Z) : Z := now - window * second.

(** [math.ceil(x)] of [x] nanoseconds, in seconds. *)
Definition ceil_seconds (x : Z) : Z := - (- x / second).

(** [max(1, math.ceil(window_seconds - (now - oldest)))], where [oldest] is the
    first entry of the window, or [now] for an empty one. *)
Definition retry_after (window now : Z) (oldest : option Z) : Z :=
  Z.max 1 (ceil_seconds (window * second - (now - default now oldest))).

Section window.
Context {E : Type} (ts : E → Z).

(** [[e for e in entries if e.ts > cutoff]]. *)
Definition in_window (c : Z) (entries : list E) : list E :=
  filter (λ e, c < ts e) entries.

Definition oldest (entries : list E) : option Z := ts <$> head entries.

(** The entries of a log inside the window that ends at [t]. *)
Definition window_at (window t : Z) (log : list E) : list E :=
  filter (λ e, cutoff window t < ts e ∧ ts e ≤ t) log.

Lemma in_window_in_window c c' l : c ≤ c' → in_window c' (in_window c l) = in_window c' l.
Proof.
  intros Hc. unfold in_window. rewrite list_filter_filter. apply list_filter_iff.
  intros e. lia.
Qed.

Lemma in_window_app c l k : in_window c (l ++ k) = in_window c l ++ in_window c k.
Proof. apply filter_app. Qed.

Lemma in_window_none c l : Forall (λ e, ts e ≤ c) l → in_window c l = [].
Proof.
  unfold in_window. induction 1 as [|e l He _ IH]; [done|].
  by rewrite filter_cons_False by lia.
Qed.

Lemma in_window_elem c l e : e ∈ in_window c l ↔ c < ts e ∧ e ∈ l.
Proof. unfold in_window. by rewrite list_elem_of_filter. Qed.

(** Under readings that never go back, the window a limiter keeps by pruning is
    the one that ends now. *)
Lemma in_window_at window now log :
  Forall (λ e, ts e ≤ now) log → in_window (cutoff window now) log = window_at window now log.
Proof.
  unfold in_window, window_at. induction 1 as [|e l He _ IH]; [done|].
  destruct (decide (cutoff window now < ts e)).
  - rewrite !filter_cons_True by done. by rewrite IH.
  - rewrite !filter_cons_False by (try done; intros [??]; done). apply IH.
Qed.

(** At every position of the window, at most [cap] entries are inside. *)
Definition bounded (window cap : Z) (log : list E) : Prop :=
  ∀ t, Z.of_nat (length (window_at window t log)) ≤ cap.

Lemma window_at_app window t l k : window_at window t (l ++ k) = window_at window t l ++ window_at window t k.
Proof. apply filter_app. Qed.

Lemma window_at_length_le window t l : (length (window_at window t l) ≤ length l)%nat.
Proof. apply length_filter. Qed.

Lemma filter_length_weaken (P Q : E → Prop) `{!∀ x, Decision (P x), !∀ x, Decision (Q x)} l :
  (∀ e, e ∈ l → P e → Q e) → (length (filter P l) ≤ length (filter Q l))%nat.
Proof.
  induction l as [|e l IH]; intros Himp; [done|].
  assert (IH' : (length (filter P l) ≤ length (filter Q l))%nat).
  { apply IH. intros e' ?. apply Himp. by constructor. }
  destruct (decide (P e)) as [HP|HP].
  - assert (Q e) by (apply Himp; [by left|done]).
    rewrite (filter_cons_True P), (filter_cons_True Q) by done. cbn. lia.
  - rewrite (filter_cons_False P) by done. rewrite filter_cons. destruct (decide (Q e)); cbn; lia.
Qed.

(** Recording entries stamped [now] keeps the bound when the window that ends
    now has room for them: any other window sees at most that one. *)
Lemma bounded_record window cap log new now :
  bounded window cap log → Forall (λ e, ts e ≤ now) log → Forall (λ e, ts e = now) new →
  Z.of_nat (length (window_at window now log) + length new) ≤ cap →
  bounded window cap (log ++ new).
Proof.
  intros Hb Hlog Hnew Hroom t. rewrite window_at_app, length_app.
  destruct (decide (cutoff window t < now ∧ now ≤ t)) as [Hin|Hout].
  - assert ((length (window_at window t log) ≤ length (window_at window now log))%nat).
    { apply filter_length_weaken. intros e He [??]. rewrite Forall_forall in Hlog.
      specialize (Hlog e He). unfold cutoff in *. lia. }
    pose proof (window_at_length_le window t new). lia.
  - assert (Hnil : window_at window t new = []).
    { unfold window_at. clear Hroom. induction Hnew as [|e l He _ IH]; [done|].
      rewrite filter_cons_False; [done|]. rewrite He. done. }
    rewrite Hnil. specialize (Hb t). cbn. lia.
Qed.

Lemma bounded_nil window cap : 0 ≤ cap → bounded window cap [].
Proof. intros ? t. done. Qed.

(** The oldest entry of a log in time order is the earliest. *)
Definition in_order (log : list E) : Prop := StronglySorted (λ a b, ts a ≤ ts b) log.

Lemma in_order_app log new now :
  in_order log → Forall (λ e, ts e ≤ now) log → Forall (λ e, ts e = now) new → in_order (log ++ new).
Proof.
  intros Ho Hl Hn. induction log as [|e l IH]; cbn.
  - induction Hn as [|e k He Hk IH]; constructor; [by apply IH|].
    eapply Forall_impl; [exact Hk|]. cbn. lia.
  - apply StronglySorted_inv in Ho as [Ho He]. apply Forall_cons in Hl as [Hel Hl].
    constructor; [by apply IH|]. apply Forall_app. split; [done|].
    eapply Forall_impl; [exact Hn|]. cbn. lia.
Qed.

Lemma in_order_in_window c log : in_order log → in_order (in_window c log).
Proof.
  unfold in_order, in_window. induction 1 as [|e l Hl IH He]; [constructor|].
  rewrite filter_cons. destruct (decide _); [|done]. constructor; [done|].
  rewrite Forall_forall in *. intros e' [_ He']%list_elem_of_filter. by apply He.
Qed.

(** After the hinted wait the oldest entry has left the window. *)
Lemma retry_after_ages_out window now entries o now' :
  oldest entries = Some o → now + retry_after window now (oldest entries) * second ≤ now' →
  o ≤ cutoff window now'.
Proof.
  intros Ho. unfold retry_after. rewrite Ho; cbn. unfold cutoff, ceil_seconds, second. intros H.
  pose proof (Z.mul_div_le (- (window * 1000000000 - (now - o))) 1000000000). lia.
Qed.

Lemma retry_after_positive window now o : 1 ≤ retry_after window now o.
Proof. unfold retry_after. lia. Qed.

(** Dropping what has aged out shortens a window whose oldest entry has. *)
Lemma in_window_drops_oldest c e l :
  ts e ≤ c → (length (in_window c (e :: l)) ≤ length l)%nat.
Proof.
  intros He. unfold in_window. rewrite filter_cons_False by lia. apply length_filter.
Qed.
End window.

Arguments bounded {E} ts window cap log : simpl never.

Lemma window_at_length_fmap {E} (ts : E → Z) window t l :
  length (window_at id window t (ts <$> l)) = length (window_at ts window t l).
Proof.
  unfold window_at. induction l as [|e l IH]; [done|]. cbn [fmap list_fmap].
  rewrite !filter_cons. unfold id at 1 2. destruct (decide _); cbn; [f_equal|]; exact IH.
Qed.

Lemma in_window_fmap {E} (ts : E → Z) c l : ts <$> in_window ts c l = in_window id c (ts <$> l).
Proof.
  unfold in_window. induction l as [|e l IH]; [done|]. cbn [fmap list_fmap].
  rewrite !filter_cons. unfold id at 1. destruct (decide _); cbn; by rewrite IH.
Qed.

Lemma oldest_fmap {E} (ts : E → Z) l : oldest id (ts <$> l) = oldest ts l.
Proof. by destruct l. Qed.

(** * Windows under keys *)

Section keyed.
Context `{Countable K} {E : Type} (ts : E → Z).
Implicit Types w : gmap K (list E).

Definition entries_of w (key : K) : list E := default [] (w !! key).

(** [self._windows[key] = entries] when there are any, [pop] otherwise. *)
Definition store_window (key : K) (entries : list E) w : gmap K (list E) :=
  match entries with [] => delete key w | _ => <[key := entries]> w end.

(** [_prune]. *)
Definition prune w (key : K) (c : Z) : list E * gmap K (list E) :=
  let entries := in_window ts c (entries_of w key) in (entries, store_window key entries w).

Lemma entries_of_insert key es w k :
  entries_of (<[key := es]> w) k = if decide (key = k) then es else entries_of w k.
Proof.
  unfold entries_of. destruct (decide (key = k)) as [->|]; [by rewrite lookup_insert_eq|by rewrite lookup_insert_ne].
Qed.

Lemma entries_of_store key es w k :
  entries_of (store_window key es w) k = if decide (key = k) then es else entries_of w k.
Proof.
  unfold store_window. destruct es; [|apply entries_of_insert].
  unfold entries_of. destruct (decide (key = k)) as [->|]; [by rewrite lookup_delete_eq|by rewrite lookup_delete_ne].
Qed.
End keyed.
