(* ===== verification/Redis.v ===== *)
(** The part of a Redis server the Lua scripts of [execution/redis_*.py] use. The
    server is a parameter: the class [RedisServer], whose law is the documented
    effect of each command on sorted sets and hashes under string keys, each with
    an optional deadline. Scripts are state transformers that may stop on an
    error with what they had already written kept. *)
From S2P Require Export RollingWindow.
Local Open Scope Z_scope.

(** Scores and stored numbers are integers here: the scripts store clock
    readings and byte counts. *)
Inductive redis_value :=
| RZset (members : gmap string Z)
| RHash (fields : gmap string Z).

Record redis_entry := MkRedisEntry { re_value : redis_value; re_expires : option Z }.

Abbreviation Redis := (gmap string redis_entry).

Definition expired (now : Z) (e : redis_entry) : bool :=
  match re_expires e with Some d => d <=? now | None => false end.

(** A key past its deadline is gone. *)
Definition redis_get (now : Z) (k : string) (db : Redis) : option redis_value :=
  match db !! k with
  | Some e => if expired now e then None else Some (re_value e)
  | None => None
  end.

Definition as_zset (v : option redis_value) : option (gmap string Z) :=
  match v with None => Some ∅ | Some (RZset m) => Some m | Some (RHash _) => None end.
Definition as_hash (v : option redis_value) : option (gmap string Z) :=
  match v with None => Some ∅ | Some (RHash m) => Some m | Some (RZset _) => None end.

(** A write keeps the deadline of a live key; an emptied collection is no key. *)
Definition redis_put (now : Z) (k : string) (m : gmap string Z) (wrap : gmap string Z → redis_value)
  (db : Redis) : Redis :=
  if decide (m = ∅) then delete k db
  else <[k := MkRedisEntry (wrap m)
                (e ← db !! k; if expired now e then None else re_expires e)]> db.

(** A script: the database afterwards, and a reply unless it stopped on an error
    (a command against a key of another type). *)
Definition script_on (DB A : Type) : Type := DB → DB * option A.
Abbreviation script := (script_on Redis).

#[export] Instance script_ret DB : MRet (script_on DB) := λ A a db, (db, Some a).
#[export] Instance script_bind DB : MBind (script_on DB) := λ A B f s db,
  match s db with (db, Some a) => f a db | (db, None) => (db, None) end.

Definition modify (f : Redis → Redis) : script unit := λ db, (f db, Some tt).

Fixpoint script_each {DB A} (f : A → script_on DB unit) (l : list A) : script_on DB unit :=
  match l with
  | [] => mret tt
  | x :: l => f x ≫= λ _, script_each f l
  end.

(** The smallest of a list. *)
Definition min_of (l : list Z) : option Z :=
  foldr (λ x acc, Some (match acc with Some y => Z.min x y | None => x end)) None l.

Section commands.
Context (now : Z).

Definition read_zset (k : string) : script (gmap string Z) :=
  λ db, (db, as_zset (redis_get now k db)).
Definition read_hash (k : string) : script (gmap string Z) :=
  λ db, (db, as_hash (redis_get now k db)).

(** [ZRANGEBYSCORE k -inf c], as the members it lists. *)
Definition ZRANGEBYSCORE (k : string) (c : Z) : script (list string) :=
  read_zset k ≫= λ z, mret (map_to_list (filter (λ ms, ms.2 ≤ c) z)).*1.

Definition ZREMRANGEBYSCORE (k : string) (c : Z) : script unit :=
  read_zset k ≫= λ z, modify (redis_put now k (filter (λ ms, c < ms.2) z) RZset).

Definition ZCARD (k : string) : script Z := read_zset k ≫= λ z, mret (Z.of_nat (size z)).

(** The member [ZRANGE k 0 0] lists: of the smallest score, the smallest name. *)
Definition earlier (a b : string * Z) : bool :=
  (a.2 <? b.2) || ((a.2 =? b.2) && String.leb a.1 b.1).
Definition first_member (z : gmap string Z) : option (string * Z) :=
  foldr (λ x acc, Some match acc with Some y => if earlier x y then x else y | None => x end) None (map_to_list z).
Definition ZRANGE_0_0 (k : string) : script (option string) :=
  read_zset k ≫= λ z, mret (fst <$> first_member z).

(** [ZRANGE k 0 0 WITHSCORES]: that member and its score. *)
Definition ZFIRST (k : string) : script (option (string * Z)) :=
  read_zset k ≫= λ z, mret (first_member z).

Definition ZADD (k : string) (score : Z) (member : string) : script unit :=
  read_zset k ≫= λ z, modify (redis_put now k (<[member := score]> z) RZset).

Definition ZREM (k : string) (member : string) : script unit :=
  read_zset k ≫= λ z, modify (redis_put now k (delete member z) RZset).

Definition ZSCORE (k : string) (member : string) : script (option Z) :=
  read_zset k ≫= λ z, mret (z !! member).

Definition HDEL (k : string) (field : string) : script unit :=
  read_hash k ≫= λ h, modify (redis_put now k (delete field h) RHash).

Definition HSET (k : string) (field : string) (v : Z) : script unit :=
  read_hash k ≫= λ h, modify (redis_put now k (<[field := v]> h) RHash).

Definition HVALS (k : string) : script (list Z) :=
  read_hash k ≫= λ h, mret (map_to_list h).*2.

(** [EXPIRE k seconds]: the deadline of a key that is there. *)
Definition EXPIRE (k : string) (seconds : Z) : script unit := λ db,
  (match redis_get now k db with
   | Some v => <[k := MkRedisEntry v (Some (now + seconds * second))]> db
   | None => db
   end, Some tt).

(** [PEXPIRE k milliseconds]. *)
Definition PEXPIRE (k : string) (milliseconds : Z) : script unit := λ db,
  (match redis_get now k db with
   | Some v => <[k := MkRedisEntry v (Some (now + milliseconds * 1000000))]> db
   | None => db
   end, Some tt).
End commands.

(** * The server *)

(** The commands the scripts call, and what each replies. *)
Inductive redis_command : Type → Type :=
| ZRangeByScore (k : string) (c : Z) : redis_command (list string)
| ZRemRangeByScore (k : string) (c : Z) : redis_command unit
| ZCard (k : string) : redis_command Z
| ZFirst (k : string) : redis_command (option (string * Z))
| ZAdd (k : string) (score : Z) (member : string) : redis_command unit
| ZRem (k : string) (member : string) : redis_command unit
| ZScore (k : string) (member : string) : redis_command (option Z)
| HDel (k : string) (field : string) : redis_command unit
| HSet (k : string) (field : string) (v : Z) : redis_command unit
| HVals (k : string) : redis_command (list Z)
| ZRangeFirst (k : string) : redis_command (option string)
| Expire (k : string) (seconds : Z) : redis_command unit
| PExpire (k : string) (milliseconds : Z) : redis_command unit.

(** The documented effect of a command. *)
Definition documented (now : Z) {A} (c : redis_command A) : script A :=
  match c with
  | ZRangeByScore k c => ZRANGEBYSCORE now k c
  | ZRemRangeByScore k c => ZREMRANGEBYSCORE now k c
  | ZCard k => ZCARD now k
  | ZFirst k => ZFIRST now k
  | ZAdd k score member => ZADD now k score member
  | ZRem k member => ZREM now k member
  | ZScore k member => ZSCORE now k member
  | HDel k field => HDEL now k field
  | HSet k field v => HSET now k field v
  | HVals k => HVALS now k
  | ZRangeFirst k => ZRANGE_0_0 now k
  | Expire k seconds => EXPIRE now k seconds
  | PExpire k milliseconds => PEXPIRE now k milliseconds
  end.

(** A server: what it holds, read as a database, and what it does on a command,
    which is what the documentation says. A member and its score reach a script
    as two values of one table or, with [lua_nests], as a table in a table: the
    bridge between a server and its scripts may do either. *)
Class RedisServer (DB : Type) := {
  lua_nests : bool;
  contents : DB → Redis;
  call : Z → ∀ {A}, redis_command A → script_on DB A;
  call_documented now A (c : redis_command A) db :
    (contents (call now c db).1, (call now c db).2) = documented now c (contents db);
}.

(** The documentation, taken as a server. *)
#[export, refine] Instance documented_server : RedisServer Redis :=
  {| lua_nests := false; contents db := db; call now A c := documented now c |}.
Proof. intros now A c db. by destruct (documented now c db). Defined.

(** What a script sees of a reply: texts, numbers as texts, and tables. *)
Inductive lua_value :=
| LuaText (s : string)
| LuaNumber (z : Z)
| LuaTable (l : list lua_value).

Definition with_scores (nests : bool) (first : option (string * Z)) : list lua_value :=
  match first with
  | None => []
  | Some (member, score) =>
      if nests then [LuaTable [LuaText member; LuaNumber score]] else [LuaText member; LuaNumber score]
  end.

Section server.
Context {DB : Type} `{RS : !RedisServer DB}.

(** A script on the server that does what a script on the documentation does. *)
Definition follows {A} (s : script_on DB A) (s' : script A) : Prop :=
  ∀ db, (contents (s db).1, (s db).2) = s' (contents db).

Lemma follows_call now {A} (c : redis_command A) : follows (call now c) (call now c).
Proof. intros db. apply call_documented. Qed.

Lemma follows_ret {A} (a : A) : follows (mret a) (mret a).
Proof. by intros db. Qed.

Lemma follows_bind {A B} (s : script_on DB A) s' (f : A → script_on DB B) f' :
  follows s s' → (∀ a, follows (f a) (f' a)) → follows (s ≫= f) (s' ≫= f').
Proof.
  intros Hs Hf db. specialize (Hs db). unfold mbind, script_bind. rewrite <- Hs.
  destruct (s db) as [db1 [a|]]; cbn; [apply Hf|done].
Qed.

Lemma follows_each {A} (f : A → script_on DB unit) f' l :
  (∀ a, follows (f a) (f' a)) → follows (script_each f l) (script_each f' l).
Proof.
  intros Hf. induction l as [|x l IH]; cbn; [apply follows_ret|]. apply follows_bind; [done|]. by intros _.
Qed.
End server.

Create HintDb redis_db.
#[export] Hint Resolve follows_call follows_ret follows_bind follows_each : redis_db.

(** * What the commands do to one key *)

Lemma redis_put_ne now k k' m wrap db : k ≠ k' → redis_put now k m wrap db !! k' = db !! k'.
Proof.
  intros Hne. unfold redis_put. destruct (decide _);
    [by rewrite lookup_delete_ne|by rewrite lookup_insert_ne].
Qed.

(** A key is gone for good: absent, or past its deadline. *)
Definition gone (now : Z) (k : string) (db : Redis) : Prop :=
  match db !! k with None => True | Some e => ∃ d, re_expires e = Some d ∧ d ≤ now end.

(** The collection [m] is stored under [k] until [d]; nothing is when [m] is empty. *)
Definition stored (now d : Z) (k : string) (wrap : gmap string Z → redis_value) (m : gmap string Z)
  (db : Redis) : Prop :=
  if decide (m = ∅) then gone now k db
  else db !! k = Some (MkRedisEntry (wrap m) (Some d)) ∧ now < d.

Lemma gone_get now k db : gone now k db → redis_get now k db = None.
Proof.
  unfold gone, redis_get. destruct (db !! k) as [e|]; [|done]. intros (d & Hd & Hle).
  unfold expired. rewrite Hd. by rewrite (proj2 (Z.leb_le _ _)).
Qed.

Lemma gone_later now now' k db : gone now k db → now ≤ now' → gone now' k db.
Proof. unfold gone. destruct (db !! k); [|done]. intros (d & ? & ?) ?. exists d. split; [done|lia]. Qed.

Lemma stored_get now d k wrap m db :
  stored now d k wrap m db → redis_get now k db = if decide (m = ∅) then None else Some (wrap m).
Proof.
  unfold stored. destruct (decide _); [by apply gone_get|]. intros [Hk Hd].
  unfold redis_get, expired. rewrite Hk. cbn. by rewrite (proj2 (Z.leb_gt _ _)).
Qed.

Lemma stored_zset now d k m db : stored now d k RZset m db → as_zset (redis_get now k db) = Some m.
Proof. intros H. rewrite (stored_get _ _ _ _ _ _ H). by destruct (decide _) as [->|]. Qed.

Lemma stored_hash now d k m db : stored now d k RHash m db → as_hash (redis_get now k db) = Some m.
Proof. intros H. rewrite (stored_get _ _ _ _ _ _ H). by destruct (decide _) as [->|]. Qed.

Lemma stored_eq now d k wrap m db db' : db !! k = db' !! k → stored now d k wrap m db → stored now d k wrap m db'.
Proof. intros Hk. unfold stored, gone. by rewrite Hk. Qed.

Lemma stored_put now d k wrap m m' db :
  stored now d k wrap m db → (m = ∅ → m' = ∅) → stored now d k wrap m' (redis_put now k m' wrap db).
Proof.
  intros H Hm. unfold stored, redis_put, gone in *. destruct (decide (m' = ∅)) as [->|Hne].
  - by rewrite lookup_delete_eq.
  - rewrite lookup_insert_eq. destruct (decide (m = ∅)); [by destruct Hne; apply Hm|].
    destruct H as [-> Hd]. cbn. unfold expired. cbn. by rewrite (proj2 (Z.leb_gt _ _)).
Qed.

Lemma put_get now k wrap m db : m ≠ ∅ → redis_get now k (redis_put now k m wrap db) = Some (wrap m).
Proof.
  intros Hm. unfold redis_put, redis_get. rewrite decide_False, lookup_insert_eq by done.
  unfold expired at 1. cbn. destruct (db !! k) as [e|]; cbn; [|done].
  destruct (expired now e) eqn:E; [done|]. unfold expired in E. by rewrite E.
Qed.

Lemma put_get_ne now k k' wrap m db :
  k ≠ k' → redis_get now k' (redis_put now k m wrap db) = redis_get now k' db.
Proof. intros Hne. unfold redis_get. by rewrite redis_put_ne. Qed.

(** A live key keeps what it holds until its new deadline. *)
Lemma stored_expire now k wrap m seconds db :
  redis_get now k db = Some (wrap m) → m ≠ ∅ → 0 < seconds →
  stored now (now + seconds * second) k wrap m (EXPIRE now k seconds db).1.
Proof.
  intros Hk Hm Hs. unfold EXPIRE, stored. rewrite Hk, decide_False by done. cbn.
  rewrite lookup_insert_eq. split; [done|]. unfold second. lia.
Qed.

Lemma EXPIRE_ne now k k' seconds db : k ≠ k' → (EXPIRE now k seconds db).1 !! k' = db !! k'.
Proof. intros Hne. unfold EXPIRE. cbn. destruct (redis_get now k db); [by rewrite lookup_insert_ne|done]. Qed.

Lemma EXPIRE_get_ne now k k' seconds db :
  k ≠ k' → redis_get now k' (EXPIRE now k seconds db).1 = redis_get now k' db.
Proof. intros Hne. unfold redis_get. by rewrite EXPIRE_ne. Qed.

(** * Collections filled from lists *)

Lemma min_of_head l : (∀ x y, l !! 0%nat = Some x → y ∈ l → x ≤ y) → min_of l = head l.
Proof.
  destruct l as [|x l]; [done|]. intros H. cbn. unfold min_of. cbn.
  assert (Hx : ∀ y, y ∈ l → x ≤ y) by (intros y Hy; apply (H x y); [done|by right]).
  clear H. f_equal.
  destruct (foldr _ None l) as [m|] eqn:E; [|done].
  assert (Hm : m ∈ l ∨ False).
  { left. revert m E. induction l as [|z l IH]; intros m E; [done|]. cbn in E. injection E as <-.
    destruct (foldr _ None l) as [m'|]; [|left].
    destruct (Z.min_spec z m') as [[_ ->]|[_ ->]]; [left|right].
    apply IH; [intros y Hy; apply Hx; by right|done]. }
  destruct Hm as [Hm|[]]. specialize (Hx m Hm). lia.
Qed.

Lemma min_of_permutation l k : l ≡ₚ k → min_of l = min_of k.
Proof.
  induction 1 as [|x l k _ IH|x y l|l k m _ IH1 _ IH2]; [done|..]; unfold min_of in *; cbn.
  - by rewrite IH.
  - destruct (foldr _ None l) as [z|]; f_equal; lia.
  - by rewrite IH1.
Qed.

(** The first member of a sorted set has its smallest score. *)
Lemma first_member_min (z : gmap string Z) : snd <$> first_member z = min_of (map_to_list z).*2.
Proof.
  unfold first_member, min_of. induction (map_to_list z) as [|x l IH]; [done|]. cbn. rewrite <- IH.
  destruct (foldr _ None l) as [y|]; [|done]. cbn. f_equal. unfold earlier.
  destruct (Z.ltb_spec x.2 y.2); cbn; [lia|]. destruct (Z.eqb_spec x.2 y.2); cbn; [|lia]. destruct (String.leb _ _); lia.
Qed.

Lemma first_member_lookup (z : gmap string Z) k s : first_member z = Some (k, s) → z !! k = Some s.
Proof.
  intros H. apply elem_of_map_to_list. revert H. unfold first_member.
  induction (map_to_list z) as [|x l IH]; [done|]. cbn. destruct (foldr _ None l) as [y|]; cbn.
  - intros [= H]. destruct (earlier x y); subst; [left|right; by apply IH].
  - intros [= ->]. left.
Qed.

(** * Running a script on a stored collection *)

Lemma script_bind_ok {A B} (s : script A) (f : A → script B) db db' a :
  s db = (db', Some a) → (s ≫= f) db = f a db'.
Proof. intros H. unfold mbind, script_bind. by rewrite H. Qed.

Section run.
Context (now d : Z) (k : string) (m : gmap string Z) (db : Redis).

Lemma read_zset_run : stored now d k RZset m db → read_zset now k db = (db, Some m).
Proof. intros H. unfold read_zset. by rewrite (stored_zset _ _ _ _ _ H). Qed.

Lemma read_hash_run : stored now d k RHash m db → read_hash now k db = (db, Some m).
Proof. intros H. unfold read_hash. by rewrite (stored_hash _ _ _ _ _ H). Qed.

Hypothesis Hz : stored now d k RZset m db.

Lemma ZRANGEBYSCORE_run c :
  call now (ZRangeByScore k c) db = (db, Some (map_to_list (filter (λ ms, ms.2 ≤ c) m)).*1).
Proof. cbn. unfold ZRANGEBYSCORE. by rewrite (script_bind_ok _ _ _ _ _ (read_zset_run Hz)). Qed.

Lemma ZREMRANGEBYSCORE_run c :
  call now (ZRemRangeByScore k c) db = (redis_put now k (filter (λ ms, c < ms.2) m) RZset db, Some tt).
Proof. cbn. unfold ZREMRANGEBYSCORE. by rewrite (script_bind_ok _ _ _ _ _ (read_zset_run Hz)). Qed.

Lemma ZCARD_run : call now (ZCard k) db = (db, Some (Z.of_nat (size m))).
Proof. cbn. unfold ZCARD. by rewrite (script_bind_ok _ _ _ _ _ (read_zset_run Hz)). Qed.

Lemma ZFIRST_run : call now (ZFirst k) db = (db, Some (first_member m)).
Proof. cbn. unfold ZFIRST. by rewrite (script_bind_ok _ _ _ _ _ (read_zset_run Hz)). Qed.

Lemma ZRANGE_0_0_run : call now (ZRangeFirst k) db = (db, Some (fst <$> first_member m)).
Proof. cbn. unfold ZRANGE_0_0. by rewrite (script_bind_ok _ _ _ _ _ (read_zset_run Hz)). Qed.

Lemma ZREM_run member : call now (ZRem k member) db = (redis_put now k (delete member m) RZset db, Some tt).
Proof. cbn. unfold ZREM. by rewrite (script_bind_ok _ _ _ _ _ (read_zset_run Hz)). Qed.

Lemma ZADD_run score member :
  call now (ZAdd k score member) db = (redis_put now k (<[member := score]> m) RZset db, Some tt).
Proof. cbn. unfold ZADD. by rewrite (script_bind_ok _ _ _ _ _ (read_zset_run Hz)). Qed.

Lemma ZSCORE_run member : call now (ZScore k member) db = (db, Some (m !! member)).
Proof. cbn. unfold ZSCORE. by rewrite (script_bind_ok _ _ _ _ _ (read_zset_run Hz)). Qed.
End run.

Lemma HVALS_run now d k m db :
  stored now d k RHash m db → call now (HVals k) db = (db, Some (map_to_list m).*2).
Proof. intros H. cbn. unfold HVALS. by rewrite (script_bind_ok _ _ _ _ _ (read_hash_run _ _ _ _ _ H)). Qed.

Lemma HSET_run now d k m db field v :
  stored now d k RHash m db →
  call now (HSet k field v) db = (redis_put now k (<[field := v]> m) RHash db, Some tt).
Proof. intros H. cbn. unfold HSET. by rewrite (script_bind_ok _ _ _ _ _ (read_hash_run _ _ _ _ _ H)). Qed.

(** Deleting fields one by one. *)
Lemma HDEL_each now d k fields : ∀ h db, stored now d k RHash h db →
  ∃ h' db', script_each (λ f, call now (HDel k f)) fields db = (db', Some tt) ∧ stored now d k RHash h' db'
    ∧ (∀ f, h' !! f = if decide (f ∈ fields) then None else h !! f)
    ∧ ∀ k', k ≠ k' → db' !! k' = db !! k'.
Proof.
  induction fields as [|f fields IH]; intros h db Hs.
  - exists h, db. split_and!; [done|done| |done]. intros f. by rewrite decide_False by set_solver.
  - cbn [script_each].
    rewrite (script_bind_ok (call now (HDel k f)) _ db (redis_put now k (delete f h) RHash db) tt).
    2: { cbn. unfold HDEL. by rewrite (script_bind_ok _ _ _ _ _ (read_hash_run _ _ _ _ _ Hs)). }
    destruct (IH (delete f h) (redis_put now k (delete f h) RHash db)) as (h' & db' & -> & Hs' & Hh & Hne).
    { eapply stored_put; [exact Hs|]. intros ->. by rewrite delete_empty. }
    exists h', db'. split_and!; [done|done| |].
    + intros g. rewrite Hh. destruct (decide (g = f)) as [->|Hgf].
      * rewrite lookup_delete_eq. rewrite (decide_True (P := f ∈ f :: fields)) by set_solver. by destruct (decide _).
      * rewrite lookup_delete_ne by done. destruct (decide (g ∈ fields)).
        -- by rewrite decide_True by set_solver.
        -- by rewrite decide_False by set_solver.
    + intros k' Hk. rewrite Hne by done. by rewrite redis_put_ne.
Qed.
