(* ===== verification/TextFile.v ===== *)
(** Text files as bytes: UTF-8 decoding with replacement, iteration over lines,
    and the tail-first reader of [audit/file_reader.py]. *)
From Stdlib Require Import Ascii.
From S2P Require Export Prelude.

#[local] Open Scope nat_scope.

Definition newline : ascii := ascii_of_nat 10.
Definition carriage_return : ascii := ascii_of_nat 13.

(** * Decoding *)

(** What a first byte of a longer character asks of the next one, and how many
    follow that one. *)
Definition utf8_lead (n : nat) : option (nat * nat * nat) :=
  if (194 <=? n) && (n <=? 223) then Some (128, 191, 0)
  else if n =? 224 then Some (160, 191, 1)
  else if (225 <=? n) && (n <=? 236) then Some (128, 191, 1)
  else if n =? 237 then Some (128, 159, 1)
  else if (238 <=? n) && (n <=? 239) then Some (128, 191, 1)
  else if n =? 240 then Some (144, 191, 2)
  else if (241 <=? n) && (n <=? 243) then Some (128, 191, 2)
  else if n =? 244 then Some (128, 143, 2)
  else None.

Definition replacement : string :=
  String (ascii_of_nat 239) (String (ascii_of_nat 191) (String (ascii_of_nat 189) "")).

(** [bytes.decode("utf-8", errors="replace")], back in UTF-8: each longest start
    of a character that is not one becomes U+FFFD. [open_] is the character under
    way: the range of its next byte, the bytes after that, and those read. *)
Fixpoint decode_from (open_ : option (nat * nat * nat * string)) (s : string) : string :=
  match s with
  | EmptyString => match open_ with Some _ => replacement | None => "" end
  | String c s =>
      let n := nat_of_ascii c in
      let start := if n <? 128 then String c (decode_from None s) else
        match utf8_lead n with
        | Some (lo, hi, more) => decode_from (Some (lo, hi, more, String c "")) s
        | None => replacement +:+ decode_from None s
        end in
      match open_ with
      | None => start
      | Some (lo, hi, more, read) =>
          if (lo <=? n) && (n <=? hi) then
            match more with
            | 0 => read +:+ String c (decode_from None s)
            | S more => decode_from (Some (128, 191, more, read +:+ String c "")) s
            end
          else replacement +:+ start
      end
  end.

Definition decode_replace (s : string) : string := decode_from None s.

(** A text as Python holds it: UTF-8 that decodes to itself. *)
Definition utf8_text (s : string) : Prop := decode_replace s = s.

Lemma ascii_text s : isascii s = true → utf8_text s.
Proof.
  unfold utf8_text, decode_replace. induction s as [|c s IH]; [done|].
  cbn [isascii string_forall]. intros [Hc Hs]%andb_true_iff. cbn [decode_from]. rewrite Hc. by rewrite IH.
Qed.

(** * Lines *)

(** [text.split("\n")], as its first segment and the others. *)
Fixpoint split_newline (s : string) : string * list string :=
  match s with
  | EmptyString => ("", [])
  | String c s =>
      let '(first, others) := split_newline s in
      if bool_decide (c = newline) then ("", first :: others) else (String c first, others)
  end.

Definition segments (s : string) : list string := (split_newline s).1 :: (split_newline s).2.

(** Universal newlines of text mode. *)
Fixpoint universal_newlines (s : string) : string :=
  match s with
  | EmptyString => ""
  | String c t =>
      if bool_decide (c = carriage_return) then
        match t with
        | String d u => if bool_decide (d = newline) then String newline (universal_newlines u)
                        else String newline (universal_newlines t)
        | EmptyString => String newline ""
        end
      else String c (universal_newlines t)
  end.

(** Iterating over the open file: lines with their newline, the rest if any. *)
Fixpoint with_newlines (first : string) (others : list string) : list string :=
  match others with
  | [] => if str_empty first then [] else [first]
  | next :: others => (first +:+ String newline "") :: with_newlines next others
  end.

Definition iter_lines (contents : string) : list string :=
  let '(first, others) := split_newline (universal_newlines contents) in with_newlines first others.

(** * Reading backward *)

Inductive read_end :=
| ReadAll
| AuditFileReadBounded (why : string)
| StillReading.

Section reverse_reader.
Context (chunk_size max_line_bytes max_total_bytes : Z).

(** What one pass of the loop yields, from [segments[1:]]. *)
Definition yielded (others : list string) : list string :=
  map decode_replace (reverse (base.filter (λ s, str_empty s = false) others)).

(** [seek] and [read] of the open handle. *)
Variable read : nat → nat → string.

(** The loop of [iter_lines_reverse]: the lines it yields and how it ends. Its
    fuel is the position, which every pass lowers. *)
Fixpoint read_back (fuel position : nat) (carry : string) (total_read : nat) : list string * read_end :=
  if position =? 0 then (if str_empty carry then [] else [decode_replace carry], ReadAll) else
  match fuel with
  | 0 => ([], StillReading)
  | S fuel =>
      let read_size := Z.to_nat (Z.min chunk_size (Z.of_nat position)) in
      let position := position - read_size in
      let chunk := read position read_size in
      if negb (String.length chunk =? read_size)
      then ([], AuditFileReadBounded "file size changed while reading") else
      let total_read := total_read + String.length chunk in
      if (max_total_bytes <? Z.of_nat total_read)%Z then ([], AuditFileReadBounded "max_total_bytes exceeded") else
      let '(carry, others) := split_newline (chunk +:+ carry) in
      if bool_decide (others = []) && (max_line_bytes <? Z.of_nat (String.length carry))%Z
      then ([], AuditFileReadBounded "max_line_bytes exceeded") else
      let '(lines, e) := read_back fuel position carry total_read in
      (yielded others ++ lines, e)
  end.

Definition iter_lines_reverse_from (size : nat) : list string * read_end := read_back size size "" 0.
End reverse_reader.

(** A file that does not change while it is read. *)
Definition read_of (contents : string) (position size : nat) : string := String.substring position size contents.

Definition iter_lines_reverse (chunk_size max_line_bytes max_total_bytes : Z) (contents : string) :
  list string * read_end :=
  iter_lines_reverse_from chunk_size max_line_bytes max_total_bytes (read_of contents) (String.length contents).

(** * Splitting and joining *)

Lemma split_newline_first s : (split_newline s).1 = (split_newline (split_newline s).1).1
  ∧ (split_newline (split_newline s).1).2 = [].
Proof.
  induction s as [|c s [IH1 IH2]]; [done|]. cbn [split_newline].
  destruct (split_newline s) as [first others]. cbn [fst snd] in *.
  case_bool_decide as Hc; [done|]. cbn [fst snd split_newline].
  destruct (split_newline first) as [f o]. cbn [fst snd] in *. rewrite bool_decide_eq_false_2 by done.
  cbn. split; [by rewrite IH1 at 1|done].
Qed.

(** A text ending in [s] splits as if only the first segment of [s] were there,
    with the other segments after it. *)
Lemma segments_app p s : segments (p +:+ s) = segments (p +:+ (split_newline s).1) ++ (split_newline s).2.
Proof.
  induction p as [|c p IH].
  - unfold segments. change ("" +:+ ?t) with t. destruct (split_newline_first s) as [H1 H2].
    by rewrite <- H1, H2.
  - change (String c p +:+ ?t) with (String c (p +:+ t)). unfold segments in *. cbn [split_newline].
    destruct (split_newline (p +:+ s)) as [f o], (split_newline (p +:+ (split_newline s).1)) as [f' o'].
    cbn [fst snd] in IH. injection IH as -> ->. by case_bool_decide.
Qed.

Lemma segments_of_first s : segments (split_newline s).1 = [(split_newline s).1].
Proof. destruct (split_newline_first s) as [H1 H2]. unfold segments. by rewrite <- H1, H2. Qed.

Lemma substring_whole s : String.substring 0 (String.length s) s = s.
Proof. induction s as [|c s IH]; [done|]. cbn. by rewrite IH. Qed.

Lemma substring_add a b s :
  String.substring 0 (a + b) s = String.substring 0 a s +:+ String.substring a b s.
Proof.
  revert a. induction s as [|c s IH]; intros [|a]; [by destruct b|done|done|].
  cbn. by rewrite IH.
Qed.

Lemma substring_in_length a b s : a + b ≤ String.length s → String.length (String.substring a b s) = b.
Proof.
  revert a b. induction s as [|c s IH]; intros [|a] [|b]; cbn; intros H; try lia; [by rewrite (IH 0 b); lia..| |].
  - by apply IH; lia.
  - by apply IH; lia.
Qed.

Lemma yielded_app l k : yielded (l ++ k) = yielded k ++ yielded l.
Proof. unfold yielded. by rewrite filter_app, reverse_app, map_app. Qed.

Lemma segments_lengths p s n :
  Forall (λ l, (Z.of_nat (String.length l) ≤ n)%Z) (segments (p +:+ s)) → (split_newline s).2 = [] →
  (Z.of_nat (String.length s) ≤ n)%Z.
Proof.
  intros Hall Hs. assert (∃ x others, segments (p +:+ s) = others ++ [x +:+ s]) as (x & others & Heq).
  { clear Hall. induction p as [|c p IH].
    - exists "", []. unfold segments. change ("" +:+ ?t) with t. rewrite Hs. cbn. f_equal.
      clear -Hs. induction s as [|c s IH]; [done|]. cbn in *. destruct (split_newline s) as [f o]. cbn [fst snd] in IH.
      case_bool_decide; [done|]. cbn in *. by rewrite (IH Hs).
    - destruct IH as (x & others & IH). change (String c p +:+ s) with (String c (p +:+ s)).
      unfold segments in *. cbn [split_newline]. destruct (split_newline (p +:+ s)) as [f o]. cbn [fst snd] in IH.
      case_bool_decide.
      + exists x, ("" :: others). cbn. by rewrite IH.
      + destruct others as [|y others]; cbn in *; injection IH as -> ->.
        * by exists (String c x), [].
        * by exists x, (String c y :: others). }
  rewrite Heq in Hall. apply Forall_app in Hall as [_ Hall]. apply Forall_cons in Hall as [Hx _].
  rewrite string_length_app in Hx. lia.
Qed.

Lemma read_back_spec chunk_size max_line max_total contents fuel : ∀ position carry total,
  (0 < chunk_size)%Z → position ≤ fuel → position ≤ String.length contents → segments carry = [carry] →
  let text := String.substring 0 position contents +:+ carry in
  let '(lines, e) := read_back chunk_size max_line max_total (read_of contents) fuel position carry total in
  e ≠ StillReading
  ∧ (e = ReadAll → lines = yielded (segments text))
  ∧ (∃ rest, yielded (segments text) = lines ++ rest)
  ∧ ((Z.of_nat (total + position) ≤ max_total)%Z → Forall (λ l, (Z.of_nat (String.length l) ≤ max_line)%Z) (segments text) → e = ReadAll).
Proof.
  induction fuel as [|fuel IH]; intros position carry total Hc Hf Hp Hcarry.
  all: cbn [read_back]; destruct (Nat.eqb_spec position 0) as [->|Hpos].
  1,3: (assert (String.substring 0 0 contents = "") as -> by by destruct contents);
       change ("" +:+ ?t) with t; rewrite Hcarry; destruct carry; cbn; repeat split; try done; by exists [].
  { lia. }
  set (n := Z.to_nat (Z.min chunk_size (Z.of_nat position))). assert (0 < n ≤ position) as Hn by lia.
  assert (Hlen : String.length (read_of contents (position - n) n) = n) by (apply substring_in_length; lia).
  rewrite Hlen, Nat.eqb_refl. cbn [negb].
  destruct (Z.ltb_spec max_total (Z.of_nat (total + n))) as [Ht|Ht].
  { repeat split; [done|done|by eexists|lia]. }
  assert (Hsplit : String.substring 0 position contents
                   = String.substring 0 (position - n) contents +:+ read_of contents (position - n) n).
  { unfold read_of. rewrite <- substring_add. f_equal. lia. }
  cbv zeta. rewrite Hsplit, <- string_app_assoc.
  set (buffer := read_of contents (position - n) n +:+ carry).
  rewrite (segments_app _ buffer). pose proof (segments_of_first buffer) as Hfirst.
  pose proof (segments_lengths (String.substring 0 (position - n) contents) (split_newline buffer).1 max_line) as Hlong.
  destruct (split_newline buffer) as [carry' others]. cbn [fst snd] in *.
  destruct (bool_decide (others = []) && (max_line <? Z.of_nat (String.length carry'))%Z) eqn:Hover.
  { apply andb_true_iff in Hover as [Ho%bool_decide_eq_true Hover%Z.ltb_lt].
    repeat split; [done|done|by eexists|]. intros _ [Hall _]%Forall_app. exfalso.
    enough (Z.of_nat (String.length carry') ≤ max_line)%Z by lia. apply Hlong; [done|]. by injection Hfirst as _ ->. }
  specialize (IH (position - n) carry' (total + n) Hc ltac:(lia) ltac:(lia) Hfirst). cbv zeta in IH.
  destruct (read_back _ _ _ _ fuel (position - n) carry' (total + n)) as [lines e].
  destruct IH as (He & Hall & (rest & Hrest) & Hbound). rewrite yielded_app. repeat split; [done| | |].
  - intros ->. by rewrite Hall.
  - exists rest. by rewrite Hrest, app_assoc.
  - intros Hm [Hl _]%Forall_app. apply Hbound; [lia|done].
Qed.

(** What a forward scan yields, newest line first. *)
Definition lines_backward (contents : string) : list string := yielded (segments contents).

Lemma iter_lines_reverse_spec chunk_size max_line max_total contents lines e :
  (0 < chunk_size)%Z → iter_lines_reverse chunk_size max_line max_total contents = (lines, e) →
  e ≠ StillReading
  ∧ (e = ReadAll → lines = lines_backward contents)
  ∧ (∃ rest, lines_backward contents = lines ++ rest)
  ∧ ((Z.of_nat (String.length contents) ≤ max_total)%Z →
     Forall (λ l, (Z.of_nat (String.length l) ≤ max_line)%Z) (segments contents) → e = ReadAll).
Proof.
  intros Hc Hrun.
  pose proof (read_back_spec chunk_size max_line max_total contents (String.length contents) (String.length contents)
                "" 0 Hc (le_n _) (le_n _) eq_refl) as Hspec.
  unfold iter_lines_reverse, iter_lines_reverse_from in Hrun. cbv zeta in Hspec.
  by rewrite Hrun, substring_whole, string_app_nil_r in Hspec.
Qed.

(** The tail-first reader always ends, and never passes a bounded scan for a
    complete one: it yields the non-empty lines of the file last to first, all of
    them unless it stops with an error after some; and it does not stop early
    when the file and each of its lines are within the limits. *)
Theorem iter_lines_reverse_exact chunk_size max_line max_total contents lines e :
  (0 < chunk_size)%Z → iter_lines_reverse chunk_size max_line max_total contents = (lines, e) →
  e ≠ StillReading
  ∧ (e = ReadAll → lines = lines_backward contents)
  ∧ (∃ rest, lines_backward contents = lines ++ rest)
  ∧ ((Z.of_nat (String.length contents) ≤ max_total)%Z → Forall (λ l, (Z.of_nat (String.length l) ≤ max_line)%Z) (segments contents) →
     e = ReadAll).
Proof. apply iter_lines_reverse_spec. Qed.

(** A file of three lines, the middle one blank, read two bytes at a time. *)
Definition sample_file : string :=
  "one" +:+ String newline (String newline ("three" +:+ String newline "")).

Lemma iter_lines_reverse_exact_witness :
  iter_lines_reverse 2 100 100 sample_file = (["three"; "one"], ReadAll)
  ∧ lines_backward sample_file = ["three"; "one"].
Proof.
  split; [vm_compute; reflexivity|].
  destruct (iter_lines_reverse_exact 2 100 100 sample_file ["three"; "one"] ReadAll) as (_ & H & _);
    [lia|vm_compute; reflexivity|]. symmetry. exact (H eq_refl).
Defined.
