(* ===== verification/Ast.v ===== *)
(** The read query AST of [query_ast/models.py]: data, validators and the two
    pure helpers. One record or inductive type per Pydantic model; the cycle
    query - predicate - expression is tied by abstracting the inner types over
    the type [Q] of nested queries, so the outer type is an ordinary nested
    inductive. A model validator is a function that returns or raises
    [ValueError]. *)
From Stdlib Require Export SpecFloat.
From S2P Require Export Prelude.
Local Open Scope Z_scope.

(** * Values *)

(** A Python float is an IEEE binary64 number. *)
Definition float64 : Type := spec_float.
Definition f64_zero : float64 := S754_zero false.
Definition f64_one : float64 := S754_finite false 4503599627370496 (-52).

(** A JSON value as [Optional[Any]] accepts it ([None] is [JNull]). *)
Inductive json :=
| JNull
| JBool (b : bool)
| JInt (z : Z)
| JFloat (f : float64)
| JStr (s : string)
| JList (l : list json)
| JObj (fields : list (string * json)).

Definition json_is_none (v : json) : bool :=
  match v with JNull => true | _ => false end.

(** [LiteralExpr.literal]. *)
Inductive scalar :=
| LNone
| LBool (b : bool)
| LInt (z : Z)
| LFloat (f : float64)
| LStr (s : string).

(** * Closed vocabularies *)

Inductive ReadCompareOp :=
| OpEq | OpNeq | OpLt | OpLte | OpGt | OpGte | OpIn | OpNotIn | OpLike
| OpBetween | OpIsNull | OpIsNotNull | OpExists | OpNotExists.

(** The write path's narrower operator set. *)
Inductive CompareOp :=
| CEq | CNeq | CLt | CLte | CGt | CGte | CIn | CNotIn | CLike | CBetween
| CIsNull | CIsNotNull.

Inductive AggregateFn := AggCount | AggSum | AggAvg | AggMin | AggMax | AggStddev | AggVariance.
Inductive JoinType := JoinInner | JoinLeft | JoinFull | JoinCross.
Inductive SortDir := SortAsc | SortDesc.
Inductive NullsOrder := NullsFirst | NullsLast.
Inductive RankFn := RankRowNumber | RankRank | RankDenseRank.
Inductive DateGranularity := GranDay | GranWeek | GranMonth | GranQuarter | GranYear.
Inductive SetOpKind := SetUnion | SetIntersect | SetExcept.
Inductive ScalarFn := SfCoalesce | SfLower | SfUpper | SfTrim | SfConcat.
Inductive BinaryOp := BopAdd | BopSub | BopMul | BopDiv.
Inductive ExprFn :=
| FnCoalesce | FnLower | FnUpper | FnTrim | FnConcat | FnAbs | FnCeil | FnFloor
| FnRound | FnLength | FnNullif | FnReplace | FnSubstring.
Inductive CastType := CastText | CastInteger | CastNumeric | CastBoolean | CastDate | CastTimestamp.
Inductive DatePart :=
| PartYear | PartQuarter | PartMonth | PartWeek | PartDay | PartDayofweek
| PartDayofyear | PartHour | PartMinute | PartSecond.
Inductive IntervalUnit := UYear | UMonth | UWeek | UDay | UHour | UMinute | USecond.
Inductive NowKind := NowTimestamp | NowDate.
Inductive WindowFn :=
| WSum | WAvg | WMin | WMax | WCount | WRowNumber | WRank | WDenseRank | WNtile
| WLag | WLead | WFirstValue | WLastValue.
Inductive WindowBoundKind :=
| UnboundedPreceding | Preceding | CurrentRow | Following | UnboundedFollowing.
Inductive WindowFrameMode := FrameRows | FrameRange.

#[export] Instance ReadCompareOp_eq_dec : EqDecision ReadCompareOp.
Proof. solve_decision. Defined.
#[export] Instance JoinType_eq_dec : EqDecision JoinType.
Proof. solve_decision. Defined.
#[export] Instance AggregateFn_eq_dec : EqDecision AggregateFn.
Proof. solve_decision. Defined.
#[export] Instance WindowFn_eq_dec : EqDecision WindowFn.
Proof. solve_decision. Defined.
#[export] Instance WindowBoundKind_eq_dec : EqDecision WindowBoundKind.
Proof. solve_decision. Defined.

Definition EXISTS_OPS (op : ReadCompareOp) : bool :=
  match op with OpExists | OpNotExists => true | _ => false end.
Definition SCALAR_COMPARISON_OPS (op : ReadCompareOp) : bool :=
  match op with OpEq | OpNeq | OpLt | OpLte | OpGt | OpGte => true | _ => false end.
Definition in_ops (op : ReadCompareOp) : bool :=
  match op with OpIn | OpNotIn => true | _ => false end.
Definition null_ops (op : ReadCompareOp) : bool :=
  match op with OpIsNull | OpIsNotNull => true | _ => false end.
Definition NO_DISTINCT_AGG_FNS (fn : AggregateFn) : bool :=
  match fn with AggStddev | AggVariance => true | _ => false end.

(** * Column leaves and scalar functions *)

(** [_require_column_ref]: a dotted reference with two non-blank halves. *)
Definition require_column_ref (value field : string) : result string :=
  let '(table, column) := partition_dot value in
  if str_empty (strip table) || str_empty (strip (default EmptyString column))
  then Raise (ValueError (field +:+ " must be a 'Table.Column' reference"))
  else Ok value.

(** [ScalarFunctionArg]: [ColArg] or [LiteralArg]. *)
Inductive ScalarFunctionArg :=
| ColArg (col : string)
| LiteralArg (literal : scalar).

Record ScalarFunctionCall := MkScalarFunctionCall {
  sfc_fn : ScalarFn;
  sfc_args : list ScalarFunctionArg;
}.

Definition scalar_fn_unary (fn : ScalarFn) : bool :=
  match fn with SfLower | SfUpper | SfTrim => true | _ => false end.

(** [ScalarFunctionCall]: each column argument is a dotted reference (the
    [ColumnExpr] field validator), then [_validate_args]. *)
Definition validate_scalar_function_call (c : ScalarFunctionCall) : result unit :=
  for_each (λ a, match a with
    | ColArg col => require_column_ref col "col" ≫= λ _, Ok tt
    | LiteralArg _ => Ok tt
    end) (sfc_args c) ≫= λ _,
  if scalar_fn_unary (sfc_fn c) then
    match sfc_args c with
    | [ColArg _] => Ok tt
    | _ => Raise (ValueError "takes exactly one column argument")
    end
  else raise_if (length (sfc_args c) <? 2)%nat (ValueError "requires at least 2 arguments").

(** * Ordering, windows *)

Record OrderBySpec := MkOrderBySpec {
  ob_col : string;
  ob_dir : SortDir;
  ob_nulls : option NullsOrder;
}.

Record WindowBound := MkWindowBound {
  wb_bound : WindowBoundKind;
  wb_offset : option Z;
}.

(** [WindowBound]: the [ge=1] field and [_validate_offset]. *)
Definition validate_window_bound (b : WindowBound) : result unit :=
  let needs_offset := match wb_bound b with Preceding | Following => true | _ => false end in
  raise_if (match wb_offset b with Some n => n <? 1 | None => false end)
    (ValueError "offset: greater than or equal to 1") ≫= λ _,
  match needs_offset, wb_offset b with
  | true, None => Raise (ValueError "window frame bound requires an offset")
  | false, Some _ => Raise (ValueError "window frame bound takes no offset")
  | _, _ => Ok tt
  end.

(** [WindowBound.sqlalchemy_bound]: [None] is unbounded. *)
Definition sqlalchemy_bound (b : WindowBound) : option Z :=
  match wb_bound b with
  | UnboundedPreceding | UnboundedFollowing => None
  | CurrentRow => Some 0
  | Preceding => option_map Z.opp (wb_offset b)
  | Following => wb_offset b
  end.

(** [WindowBound._position]: a point of the number line with both infinities. *)
Inductive frame_position := PosNegInf | PosAt (n : Z) | PosInf.

Definition window_position (b : WindowBound) : frame_position :=
  match wb_bound b with
  | UnboundedPreceding => PosNegInf
  | UnboundedFollowing => PosInf
  | _ => PosAt (default 0 (sqlalchemy_bound b))
  end.

Definition position_gt (p q : frame_position) : bool :=
  match p, q with
  | PosAt a, PosAt b => b <? a
  | PosInf, PosAt _ | PosInf, PosNegInf | PosAt _, PosNegInf => true
  | _, _ => false
  end.

Record WindowFrame := MkWindowFrame {
  wf_mode : WindowFrameMode;
  wf_start : WindowBound;
  wf_end : WindowBound;
}.

(** [WindowFrame._validate_bounds], after its two bounds. *)
Definition validate_window_frame (f : WindowFrame) : result unit :=
  validate_window_bound (wf_start f) ≫= λ _,
  validate_window_bound (wf_end f) ≫= λ _,
  if bool_decide (wb_bound (wf_start f) = UnboundedFollowing)
  then Raise (ValueError "a window frame cannot start at 'unbounded_following'")
  else if bool_decide (wb_bound (wf_end f) = UnboundedPreceding)
  then Raise (ValueError "a window frame cannot end at 'unbounded_preceding'")
  else raise_if (position_gt (window_position (wf_start f)) (window_position (wf_end f)))
         (ValueError "a window frame's start must not come after its end").

Record WindowSpec := MkWindowSpec {
  ws_partition_by : list string;
  ws_order_by : list OrderBySpec;
  ws_frame : option WindowFrame;
}.

(** [WindowSpec._validate_refs], after the frame. *)
Definition validate_window_spec (w : WindowSpec) : result unit :=
  match ws_frame w with Some f => validate_window_frame f | None => Ok tt end ≫= λ _,
  for_each (λ ref, require_column_ref ref "window partition_by" ≫= λ _, Ok tt)
    (ws_partition_by w) ≫= λ _,
  for_each (λ o, require_column_ref (ob_col o) "window order_by col" ≫= λ _, Ok tt)
    (ws_order_by w).

(** * Predicates and boolean groups *)

(** [Predicate], over expressions [E] and nested queries [Q]. *)
Record Predicate (E Q : Type) := MkPredicate {
  pr_col : option string;
  pr_expr : option E;
  pr_col_fn : option ScalarFunctionCall;
  pr_op : ReadCompareOp;
  pr_value : json;
  pr_value_col : option string;
  pr_value_expr : option E;
  pr_value_subquery : option Q;
  pr_exists_subquery : option Q;
}.
Arguments MkPredicate {E Q} _ _ _ _ _ _ _ _ _.
Arguments pr_col {E Q} _.
Arguments pr_expr {E Q} _.
Arguments pr_col_fn {E Q} _.
Arguments pr_op {E Q} _.
Arguments pr_value {E Q} _.
Arguments pr_value_col {E Q} _.
Arguments pr_value_expr {E Q} _.
Arguments pr_value_subquery {E Q} _.
Arguments pr_exists_subquery {E Q} _.

(** [WhereNode = Union[Predicate, WhereGroup]]. *)
Inductive WhereNode_ (P : Type) :=
| WPredicate (p : P)
| WhereGroup (and_terms or_terms : option (list (WhereNode_ P))) (not_terms : option (WhereNode_ P)).
Arguments WPredicate {P} p.
Arguments WhereGroup {P} and_terms or_terms not_terms.

(** [CaseWhen]. *)
Record CaseWhen_ (W E : Type) := MkCaseWhen { cw_when : W; cw_then : E }.
Arguments MkCaseWhen {W E} _ _.
Arguments cw_when {W E} _.
Arguments cw_then {W E} _.

(** * Expressions: the closed union *)

Inductive Expression_ (Q : Type) :=
| ColumnExpr (col : string)
| LiteralExpr (literal : scalar)
| BinaryOpExpr (op : BinaryOp) (left right : Expression_ Q)
| FunctionExpr (fn : ExprFn) (args : list (Expression_ Q))
| CastExpr (cast : Expression_ Q) (to : CastType)
| CaseExpr (when : list (CaseWhen_ (WhereNode_ (Predicate (Expression_ Q) Q)) (Expression_ Q)))
           (else_ : option (Expression_ Q))
| ExtractExpr (extract : Expression_ Q) (part : DatePart)
| NowExpr (now : NowKind)
| DateAddExpr (date_add : Expression_ Q) (unit : IntervalUnit) (amount : Z)
| WindowExpr (fn : WindowFn) (over : WindowSpec) (arg : option (Expression_ Q))
             (offset buckets : option Z).
Arguments ColumnExpr {Q} col.
Arguments LiteralExpr {Q} literal.
Arguments BinaryOpExpr {Q} op left right.
Arguments FunctionExpr {Q} fn args.
Arguments CastExpr {Q} cast to.
Arguments CaseExpr {Q} when else_.
Arguments ExtractExpr {Q} extract part.
Arguments NowExpr {Q} now.
Arguments DateAddExpr {Q} date_add unit amount.
Arguments WindowExpr {Q} fn over arg offset buckets.

Abbreviation Predicate_ Q := (Predicate (Expression_ Q) Q).
Abbreviation Where_ Q := (WhereNode_ (Predicate_ Q)).
Abbreviation Branch_ Q := (CaseWhen_ (Where_ Q) (Expression_ Q)).

(** * Select items *)

Inductive SelectItem_ (Q : Type) :=
| ColumnItem (ref : string)
| AggregateSelectItem (fn : AggregateFn) (col : option string) (arg : option (Expression_ Q))
                      (distinct : bool) (alias : option string)
| DateBucketSelectItem (col : string) (granularity : DateGranularity) (alias : option string)
| StringAggSelectItem (col delimiter : string) (alias : option string)
| ArrayAggSelectItem (col : string) (alias : option string)
| PercentileContSelectItem (col : string) (fraction : float64) (alias : option string)
| ScalarFunctionSelectItem (call : ScalarFunctionCall) (alias : option string)
| CaseSelectItem (when : list (Branch_ Q)) (else_ : option (Expression_ Q)) (alias : string)
| ExpressionSelectItem (expr : Expression_ Q) (alias : string)
| WindowSelectItem (fn : WindowFn) (over : WindowSpec) (arg : option (Expression_ Q))
                   (offset buckets : option Z) (alias : string).
Arguments ColumnItem {Q} ref.
Arguments AggregateSelectItem {Q} fn col arg distinct alias.
Arguments DateBucketSelectItem {Q} col granularity alias.
Arguments StringAggSelectItem {Q} col delimiter alias.
Arguments ArrayAggSelectItem {Q} col alias.
Arguments PercentileContSelectItem {Q} col fraction alias.
Arguments ScalarFunctionSelectItem {Q} call alias.
Arguments CaseSelectItem {Q} when else_ alias.
Arguments ExpressionSelectItem {Q} expr alias.
Arguments WindowSelectItem {Q} fn over arg offset buckets alias.

(** [CaseSelectItem.as_expression] and [WindowSelectItem.as_expression]. *)
Definition case_as_expression {Q} (when : list (Branch_ Q)) (else_ : option (Expression_ Q)) :
  Expression_ Q := CaseExpr when else_.

Definition window_as_expression {Q} (fn : WindowFn) (over : WindowSpec)
  (arg : option (Expression_ Q)) (offset buckets : option Z) : Expression_ Q :=
  WindowExpr fn over arg offset buckets.

(** [_AGGREGATE_SELECT_ITEM_TYPES]. *)
Definition is_aggregate_item {Q} (item : SelectItem_ Q) : bool :=
  match item with
  | AggregateSelectItem _ _ _ _ _ | StringAggSelectItem _ _ _
  | ArrayAggSelectItem _ _ | PercentileContSelectItem _ _ _ => true
  | _ => false
  end.

Definition is_window_item {Q} (item : SelectItem_ Q) : bool :=
  match item with WindowSelectItem _ _ _ _ _ _ => true | _ => false end.

(** * Joins, ranking, set operations, CTEs *)

Record JoinSpec_ (Q : Type) := MkJoinSpec {
  js_table : string;
  js_alias : option string;
  js_type : JoinType;
  js_on : option (string * string);
  js_extra_on : list (list string);
  js_condition : option (Where_ Q);
  js_connection : option string;
}.
Arguments MkJoinSpec {Q} _ _ _ _ _ _ _.
Arguments js_table {Q} _.
Arguments js_alias {Q} _.
Arguments js_type {Q} _.
Arguments js_on {Q} _.
Arguments js_extra_on {Q} _.
Arguments js_condition {Q} _.
Arguments js_connection {Q} _.

Record TopNSpec := MkTopNSpec {
  tn_partition_by : list string;
  tn_order_by : list OrderBySpec;
  tn_n : Z;
  tn_fn : RankFn;
}.

Record SetOpSpec_ (Q : Type) := MkSetOpSpec {
  so_op : SetOpKind;
  so_all : bool;
  so_arms : list Q;
}.
Arguments MkSetOpSpec {Q} _ _ _.
Arguments so_op {Q} _.
Arguments so_all {Q} _.
Arguments so_arms {Q} _.

Record CteSpec_ (Q : Type) := MkCteSpec {
  cte_name : string;
  cte_query : Q;
}.
Arguments MkCteSpec {Q} _ _.
Arguments cte_name {Q} _.
Arguments cte_query {Q} _.

(** * The query *)

Inductive StructuredQuery := MkStructuredQuery {
  from_table : string;
  from_alias : option string;
  select : list (SelectItem_ StructuredQuery);
  distinct : bool;
  joins : list (JoinSpec_ StructuredQuery);
  where_ : option (Where_ StructuredQuery);
  group_by : list string;
  having : option (Where_ StructuredQuery);
  order_by : list OrderBySpec;
  limit : option Z;
  offset : Z;
  top_n : option TopNSpec;
  set_op : option (SetOpSpec_ StructuredQuery);
  correlate : list string;
  ctes : list (CteSpec_ StructuredQuery);
  intent : option string;
  purpose : option string;
}.

Abbreviation Expression := (Expression_ StructuredQuery).
Abbreviation Pred := (Predicate_ StructuredQuery).
Abbreviation WhereNode := (Where_ StructuredQuery).
Abbreviation CaseWhen := (Branch_ StructuredQuery).
Abbreviation SelectItem := (SelectItem_ StructuredQuery).
Abbreviation JoinSpec := (JoinSpec_ StructuredQuery).
Abbreviation SetOpSpec := (SetOpSpec_ StructuredQuery).
Abbreviation CteSpec := (CteSpec_ StructuredQuery).

(** [is_aggregate_scope]. *)
Definition is_aggregate_scope (query : StructuredQuery) : bool :=
  negb (bool_decide (group_by query = [])) || existsb is_aggregate_item (select query).

(** [interval_magnitude_days] and its table of upper-bound unit lengths. *)
Definition UNIT_MAX_SECONDS (u : IntervalUnit) : Z :=
  match u with
  | UYear => 366 * 86400
  | UMonth => 31 * 86400
  | UWeek => 7 * 86400
  | UDay => 86400
  | UHour => 3600
  | UMinute => 60
  | USecond => 1
  end.

Definition interval_magnitude_days (unit : IntervalUnit) (amount : Z) : Z :=
  let seconds := Z.abs amount * UNIT_MAX_SECONDS unit in
  - ((- seconds) / 86400).

(** ** Walking a boolean tree *)

(** The recursion of [iter_where_predicates], over what is made of each leaf:
    [not_terms] first, else [and_terms or or_terms or []] with Python's notion
    of an empty list as false. *)
Fixpoint where_flat_map {P A} (f : P → list A) (node : WhereNode_ P) : list A :=
  match node with
  | WPredicate p => f p
  | WhereGroup and_terms or_terms not_terms =>
      match not_terms with
      | Some child => where_flat_map f child
      | None =>
          match and_terms with
          | Some (c :: cs) => where_flat_map f c ++ flat_map (where_flat_map f) cs
          | _ =>
              match or_terms with
              | Some cs => flat_map (where_flat_map f) cs
              | None => []
              end
          end
      end
  end.

(** The same tree with every leaf replaced. *)
Fixpoint where_map {P R} (f : P → R) (w : WhereNode_ P) : WhereNode_ R :=
  match w with
  | WPredicate p => WPredicate (f p)
  | WhereGroup a o n =>
      WhereGroup (map (where_map f) <$> a) (map (where_map f) <$> o) (where_map f <$> n)
  end.

(** Does every leaf AND every group of the tree satisfy a test? Unlike the walk
    above this looks at all three fields, as validation does. *)
Fixpoint where_forallb {P} (leaf : P → bool)
  (group : option (list (WhereNode_ P)) → option (list (WhereNode_ P)) →
           option (WhereNode_ P) → bool)
  (node : WhereNode_ P) : bool :=
  match node with
  | WPredicate p => leaf p
  | WhereGroup a o n =>
      group a o n
      && match a with Some l => forallb (where_forallb leaf group) l | None => true end
      && match o with Some l => forallb (where_forallb leaf group) l | None => true end
      && match n with Some c => where_forallb leaf group c | None => true end
  end.

Definition option_flat_map {A B} (f : A → list B) (o : option A) : list B :=
  match o with Some a => f a | None => [] end.

Definition option_forallb {A} (f : A → bool) (o : option A) : bool :=
  match o with Some a => f a | None => true end.

(** * Model validators *)

(** [AggregateSelectItem._normalize_col_sugar]: the [col] spelling becomes
    [arg=ColumnExpr(col)]; only COUNT's star stays on [col]. *)
Definition normalize_col_sugar {Q} (col : option string) (arg : option (Expression_ Q)) :
  result (option string * option (Expression_ Q)) :=
  match col with
  | None => Ok (col, arg)
  | Some c =>
      if bool_decide (c = "*") then Ok (col, arg)
      else match arg with
           | Some _ => Raise (ValueError "Set exactly one of 'col' or 'arg' on an aggregate")
           | None => require_column_ref c "col" ≫= λ c', Ok (None, Some (ColumnExpr c'))
           end
  end.

Definition is_column_expr {Q} (e : Expression_ Q) : bool :=
  match e with ColumnExpr _ => true | _ => false end.

Definition is_some {A} (o : option A) : bool :=
  match o with Some _ => true | None => false end.

(** [AggregateSelectItem._validate_shape]. *)
Definition validate_aggregate_shape {Q} (fn : AggregateFn) (col : option string)
  (arg : option (Expression_ Q)) (dist : bool) (alias : option string) : result unit :=
  if eqb (is_some col) (is_some arg)
  then Raise (ValueError "Aggregate must set exactly one of 'col' or 'arg'")
  else if match col with Some c => negb (bool_decide (c = "*")) | None => false end
  then Raise (ValueError "Aggregate 'col' must be a Table.Column ref or '*'")
  else if dist && bool_decide (col = Some "*")
  then Raise (ValueError "distinct is not valid with count(*)")
  else if dist && NO_DISTINCT_AGG_FNS fn
  then Raise (ValueError "distinct is not valid with this aggregate")
  else raise_if
         (negb (is_some alias)
          && match arg with Some a => negb (is_column_expr a) | None => false end)
         (ValueError "an aggregate over a computed expression requires an explicit 'as' alias").

(** [StringAggSelectItem._validate_col] and [ArrayAggSelectItem._validate_col]. *)
Definition validate_string_agg_col (col : string) : result unit :=
  raise_if (bool_decide (col = "*")) (ValueError "string_agg requires a real column, not '*'").

Definition validate_array_agg_col (col : string) : result unit :=
  raise_if (bool_decide (col = "*")) (ValueError "array_agg requires a real column, not '*'").

(** [PercentileContSelectItem._validate]: NaN fails both comparisons. *)
Definition validate_percentile_cont (col : string) (fraction : float64) : result unit :=
  if bool_decide (col = "*")
  then Raise (ValueError "percentile_cont requires a real column, not '*'")
  else raise_if (negb (SFleb f64_zero fraction && SFleb fraction f64_one))
         (ValueError "percentile_cont fraction must be between 0.0 and 1.0").

(** [_EXPR_FN_ARITY]. *)
Definition EXPR_FN_ARITY (fn : ExprFn) : nat * option nat :=
  match fn with
  | FnCoalesce | FnConcat => (2%nat, None)
  | FnRound => (1%nat, Some 2%nat)
  | FnNullif => (2%nat, Some 2%nat)
  | FnReplace | FnSubstring => (3%nat, Some 3%nat)
  | _ => (1%nat, Some 1%nat)
  end.

(** [FunctionExpr]: [min_length=1], then [_validate_arity]. *)
Definition validate_function_arity (fn : ExprFn) (count : nat) : result unit :=
  raise_if (count <? 1)%nat (ValueError "args: at least 1 item") ≫= λ _,
  let '(low, high) := EXPR_FN_ARITY fn in
  raise_if ((count <? low)%nat || match high with Some h => (h <? count)%nat | None => false end)
    (ValueError "takes a different number of argument(s)").

(** [DateAddExpr.amount]: a signed 32-bit integer. *)
Definition validate_date_add_amount (amount : Z) : result unit :=
  raise_if (negb ((-2147483648 <=? amount) && (amount <=? 2147483647)))
    (ValueError "amount: out of the signed 32-bit range").

Definition WINDOW_AGGREGATE_FNS (fn : WindowFn) : bool :=
  match fn with WSum | WAvg | WMin | WMax | WCount => true | _ => false end.
Definition WINDOW_NO_ARG_FNS (fn : WindowFn) : bool :=
  match fn with WRowNumber | WRank | WDenseRank | WNtile => true | _ => false end.
Definition WINDOW_ORDERED_FNS (fn : WindowFn) : bool :=
  WINDOW_NO_ARG_FNS fn
  || match fn with WLag | WLead | WFirstValue | WLastValue => true | _ => false end.
Definition WINDOW_FRAMEABLE_FNS (fn : WindowFn) : bool :=
  WINDOW_AGGREGATE_FNS fn || match fn with WFirstValue | WLastValue => true | _ => false end.
Definition WINDOW_OFFSET_FNS (fn : WindowFn) : bool :=
  match fn with WLag | WLead => true | _ => false end.

(** [WindowCall]: its [over], the [ge=1] fields and [_validate_shape]. *)
Definition validate_window_call (fn : WindowFn) (over : WindowSpec) (has_arg : bool)
  (off buckets : option Z) : result unit :=
  validate_window_spec over ≫= λ _,
  raise_if (match off with Some n => n <? 1 | None => false end)
    (ValueError "offset: greater than or equal to 1") ≫= λ _,
  raise_if (match buckets with Some n => n <? 1 | None => false end)
    (ValueError "buckets: greater than or equal to 1") ≫= λ _,
  (if WINDOW_NO_ARG_FNS fn
   then raise_if has_arg (ValueError "window function takes no 'arg'")
   else raise_if (negb has_arg && negb (bool_decide (fn = WCount)))
          (ValueError "window function requires an 'arg'")) ≫= λ _,
  raise_if (is_some off && negb (WINDOW_OFFSET_FNS fn))
    (ValueError "'offset' is only valid for lag/lead") ≫= λ _,
  raise_if (bool_decide (fn = WNtile) && negb (is_some buckets))
    (ValueError "window function ntile requires 'buckets'") ≫= λ _,
  raise_if (is_some buckets && negb (bool_decide (fn = WNtile)))
    (ValueError "'buckets' is only valid for ntile") ≫= λ _,
  raise_if (is_some (ws_frame over) && negb (WINDOW_FRAMEABLE_FNS fn))
    (ValueError "a ROWS/RANGE frame is not valid for window function") ≫= λ _,
  raise_if (bool_decide (length (ws_order_by over) = 0%nat)
            && (WINDOW_ORDERED_FNS fn || is_some (ws_frame over)))
    (ValueError "requires over.order_by").

(** [WindowCall.is_aggregate_window]. *)
Definition is_aggregate_window (fn : WindowFn) : bool := WINDOW_AGGREGATE_FNS fn.

(** [JoinSpec._validate_extra_on_pairs] and [_validate_join_form]. *)
Definition validate_join {Q} (j : JoinSpec_ Q) : result unit :=
  for_each (λ pair, raise_if (negb (length pair =? 2)%nat)
    (ValueError "Each extra_on entry must be a two-element pair")) (js_extra_on j) ≫= λ _,
  if bool_decide (js_type j = JoinCross) then
    raise_if (is_some (js_on j) || negb (length (js_extra_on j) =? 0)%nat
              || is_some (js_condition j))
      (ValueError "a 'cross' join takes no condition")
  else if eqb (is_some (js_on j)) (is_some (js_condition j))
  then Raise (ValueError "exactly one of `on` or `condition` is required on a join")
  else raise_if (negb (length (js_extra_on j) =? 0)%nat && negb (is_some (js_on j)))
         (ValueError "`extra_on` cannot be used with `condition`").

(** [Predicate._validate_col_shape]. *)
Definition validate_col_shape {E Q} (p : Predicate E Q) : result unit :=
  if EXISTS_OPS (pr_op p) then
    if is_some (pr_col p) || is_some (pr_col_fn p) || is_some (pr_expr p)
    then Raise (ValueError "Operator takes no left-hand side")
    else raise_if (negb (is_some (pr_exists_subquery p)))
           (ValueError "Operator requires 'exists_subquery'")
  else if is_some (pr_exists_subquery p)
  then Raise (ValueError "'exists_subquery' is only valid with the exists operators")
  else raise_if
         (negb (Nat.b2n (is_some (pr_col p)) + Nat.b2n (is_some (pr_col_fn p))
                + Nat.b2n (is_some (pr_expr p)) =? 1)%nat)
         (ValueError "Predicate must set exactly one of 'col', 'col_fn', or 'expr'").

Definition has_value {E Q} (p : Predicate E Q) : bool := negb (json_is_none (pr_value p)).

Definition has_any_value {E Q} (p : Predicate E Q) : bool :=
  has_value p || is_some (pr_value_col p) || is_some (pr_value_expr p)
  || is_some (pr_value_subquery p).

(** The single-row requirement on a scalar [value_subquery]. *)
Definition validate_scalar_subquery (s : StructuredQuery) : result unit :=
  if is_some (set_op s)
  then Raise (ValueError "a scalar value_subquery may not carry a set_op")
  else raise_if
         (negb (bool_decide (length (group_by s) = 0%nat))
          || negb (match select s with item :: _ => is_aggregate_item item | [] => false end))
         (ValueError "a scalar value_subquery must be an aggregate with no group_by").

(** [Predicate._validate_value_shape]. *)
Definition validate_value_shape {E} (p : Predicate E StructuredQuery) : result unit :=
  let op := pr_op p in
  if EXISTS_OPS op then
    raise_if (has_any_value p) (ValueError "Operator must not include a value")
  else if null_ops op then
    raise_if (has_any_value p) (ValueError "Operator must not include a value or value_col")
  else if (1 <? Nat.b2n (has_value p) + Nat.b2n (is_some (pr_value_col p))
               + Nat.b2n (is_some (pr_value_expr p))
               + Nat.b2n (is_some (pr_value_subquery p)))%nat
  then Raise (ValueError "Predicate must set at most one of 'value', 'value_col', 'value_expr', or 'value_subquery'")
  else if negb (has_any_value p)
  then Raise (ValueError "Operator requires a value, value_col, value_expr, or value_subquery")
  else if is_some (pr_value_expr p) && negb (SCALAR_COMPARISON_OPS op)
  then Raise (ValueError "value_expr is not valid with operator")
  else match pr_value_subquery p with
  | Some s =>
      if negb (in_ops op) && negb (SCALAR_COMPARISON_OPS op)
      then Raise (ValueError "value_subquery is only valid with in/not_in or a scalar comparison")
      else if negb (length (select s) =? 1)%nat
      then Raise (ValueError "A value_subquery must select exactly one column")
      else if SCALAR_COMPARISON_OPS op then validate_scalar_subquery s else Ok tt
  | None =>
      if is_some (pr_value_col p) && negb (SCALAR_COMPARISON_OPS op)
      then Raise (ValueError "value_col is not valid with operator")
      else match op, pr_value p with
           | OpBetween, JList l =>
               raise_if (negb (length l =? 2)%nat)
                 (ValueError "Operator 'between' requires a two-element list")
           | OpBetween, _ => Raise (ValueError "Operator 'between' requires a two-element list")
           | (OpIn | OpNotIn), JList (_ :: _) => Ok tt
           | (OpIn | OpNotIn), _ => Raise (ValueError "Operator requires a non-empty list")
           | _, _ => Ok tt
           end
  end.

(** Both validators of [Predicate], in declaration order. *)
Definition validate_predicate {E} (p : Predicate E StructuredQuery) : result unit :=
  match pr_col_fn p with Some c => validate_scalar_function_call c | None => Ok tt end ≫= λ _,
  validate_col_shape p ≫= λ _, validate_value_shape p.

(** [WhereGroup._exactly_one_boolean]. *)
Definition non_empty {A} (o : option (list A)) : bool :=
  match o with Some (_ :: _) => true | _ => false end.

Definition exactly_one_boolean {N} (and_terms or_terms : option (list N)) (not_terms : option N)
  : bool :=
  (Nat.b2n (non_empty and_terms) + Nat.b2n (non_empty or_terms)
   + Nat.b2n (is_some not_terms) =? 1)%nat.

(** * Query validators *)

(** Field constraints of [TopNSpec]. *)
Definition validate_top_n (t : TopNSpec) : result unit :=
  raise_if (length (tn_order_by t) =? 0)%nat (ValueError "order_by: at least 1 item") ≫= λ _,
  raise_if (tn_n t <? 1) (ValueError "n: greater than or equal to 1").

(** Field constraints of [SetOpSpec] and [CteSpec]: Pydantic's regex engine
    lets [$] match only at the very end. *)
Definition validate_set_op_spec {Q} (s : SetOpSpec_ Q) : result unit :=
  let n := length (so_arms s) in
  raise_if ((n <? 1) || (50 <? n))%nat (ValueError "arms: between 1 and 50 items").

Definition validate_cte_spec {Q} (c : CteSpec_ Q) : result unit :=
  raise_if (negb (is_identifier false (cte_name c))) (ValueError "name: pattern mismatch").

(** Field constraints of [StructuredQuery]. *)
Definition validate_query_fields (q : StructuredQuery) : result unit :=
  let n_select := length (select q) in
  raise_if ((n_select <? 1) || (1000 <? n_select))%nat
    (ValueError "select: between 1 and 1000 items") ≫= λ _,
  raise_if (200 <? length (joins q))%nat (ValueError "joins: at most 200 items") ≫= λ _,
  raise_if (500 <? length (group_by q))%nat (ValueError "group_by: at most 500 items") ≫= λ _,
  raise_if (500 <? length (order_by q))%nat (ValueError "order_by: at most 500 items") ≫= λ _,
  raise_if (match limit q with Some n => n <? 1 | None => false end)
    (ValueError "limit: greater than or equal to 1") ≫= λ _,
  raise_if (offset q <? 0) (ValueError "offset: greater than or equal to 0") ≫= λ _,
  raise_if (50 <? length (correlate q))%nat (ValueError "correlate: at most 50 items") ≫= λ _,
  raise_if (50 <? length (ctes q))%nat (ValueError "ctes: at most 50 items") ≫= λ _,
  raise_if (match purpose q with Some p => (200 <? String.length p)%nat | None => false end)
    (ValueError "purpose: at most 200 characters").

Section query_validators.
Context `{CF : CaseFold}.

(** The from/join occurrences of one scope: (physical table, alias). *)
Definition occurrences (q : StructuredQuery) : list (string * option string) :=
  (from_table q, from_alias q) :: map (λ j, (js_table j, js_alias j)) (joins q).

(** [alias or physical]: an empty alias is falsy. *)
Definition str_or (o : option string) (s : string) : string :=
  match o with Some a => if str_empty a then s else a | None => s end.

Definition effective_name (occ : string * option string) : string :=
  str_or occ.2 occ.1.

Definition physical_count (physical : string) (occs : list (string * option string)) : nat :=
  length (filter (λ occ, casefold occ.1 = casefold physical) occs).

(** The loop of [_validate_table_aliases] over the occurrences, with the set
    [seen] of folded effective names; [all] is the whole occurrence list. *)
Fixpoint check_occurrences (all occs : list (string * option string)) (seen : gset string) :
  result unit :=
  match occs with
  | [] => Ok tt
  | occ :: rest =>
      let effective := casefold (effective_name occ) in
      if bool_decide (effective ∈ seen)
      then Raise (ValueError "Duplicate table/alias")
      else if (1 <? physical_count occ.1 all)%nat && negb (is_some occ.2)
      then Raise (ValueError "Table is used more than once in this query (a self-join)")
      else check_occurrences all rest ({[effective]} ∪ seen)
  end.

(** [_validate_table_aliases]. *)
Definition validate_table_aliases (q : StructuredQuery) : result unit :=
  check_occurrences (occurrences q) (occurrences q) ∅.

(** [_validate_window_scope]. *)
Definition validate_window_scope (q : StructuredQuery) : result unit :=
  raise_if (existsb is_window_item (select q) && is_aggregate_scope q)
    (ValueError "a window function cannot be combined with group_by or aggregate select items").

Definition arm_sets_statement_clause (arm : StructuredQuery) : bool :=
  negb (length (order_by arm) =? 0)%nat || is_some (limit arm)
  || negb (offset arm =? 0) || is_some (top_n arm).

(** [_validate_set_op]. *)
Definition validate_set_op (q : StructuredQuery) : result unit :=
  match set_op q with
  | None => Ok tt
  | Some spec =>
      raise_if (is_some (top_n q)) (ValueError "top_n cannot be combined with set_op") ≫= λ _,
      for_each (λ arm,
        if is_some (set_op arm)
        then Raise (ValueError "a set_op arm may not carry its own set_op")
        else if arm_sets_statement_clause arm
        then Raise (ValueError "a set_op arm may not set order_by/limit/offset/top_n")
        else raise_if (negb (length (select arm) =? length (select q))%nat)
               (ValueError "every set_op arm must project the same number of columns"))
        (so_arms spec)
  end.

(** [_validate_cte_names]. *)
Fixpoint check_cte_names (specs : list CteSpec) (seen : gset string) : result unit :=
  match specs with
  | [] => Ok tt
  | spec :: rest =>
      let key := casefold (cte_name spec) in
      if bool_decide (key ∈ seen) then Raise (ValueError "Duplicate cte name")
      else check_cte_names rest ({[key]} ∪ seen)
  end.

Definition validate_cte_names (q : StructuredQuery) : result unit :=
  check_cte_names (ctes q) ∅.

(** The four after-validators of [StructuredQuery], in declaration order. *)
Definition validate_query_node (q : StructuredQuery) : result unit :=
  validate_query_fields q ≫= λ _,
  match top_n q with Some t => validate_top_n t | None => Ok tt end ≫= λ _,
  match set_op q with Some s => validate_set_op_spec s | None => Ok tt end ≫= λ _,
  for_each validate_cte_spec (ctes q) ≫= λ _,
  validate_table_aliases q ≫= λ _,
  validate_window_scope q ≫= λ _,
  validate_set_op q ≫= λ _,
  validate_cte_names q.

(** ** Whole-tree validation

    Pydantic builds a query bottom-up, running every node's validators: a
    [StructuredQuery] value exists exactly when all of them returned. [qwf]
    stands for the validity of the nested queries while an expression tree is
    traversed. *)
Fixpoint expr_wf (qwf : StructuredQuery → bool) (e : Expression) : bool :=
  let pred_wf (p : Pred) :=
    is_ok (validate_predicate p)
    && option_forallb (expr_wf qwf) (pr_expr p)
    && option_forallb (expr_wf qwf) (pr_value_expr p)
    && option_forallb qwf (pr_value_subquery p)
    && option_forallb qwf (pr_exists_subquery p) in
  match e with
  | ColumnExpr col => is_ok (require_column_ref col "col")
  | LiteralExpr _ | NowExpr _ => true
  | BinaryOpExpr _ l r => expr_wf qwf l && expr_wf qwf r
  | FunctionExpr fn args =>
      is_ok (validate_function_arity fn (length args)) && forallb (expr_wf qwf) args
  | CastExpr x _ | ExtractExpr x _ => expr_wf qwf x
  | CaseExpr when_ else_ =>
      negb (length when_ =? 0)%nat
      && forallb (λ b, where_forallb pred_wf exactly_one_boolean (cw_when b)
                       && expr_wf qwf (cw_then b)) when_
      && option_forallb (expr_wf qwf) else_
  | DateAddExpr x _ amount => is_ok (validate_date_add_amount amount) && expr_wf qwf x
  | WindowExpr fn over arg off buckets =>
      is_ok (validate_window_call fn over (is_some arg) off buckets)
      && option_forallb (expr_wf qwf) arg
  end.

Definition pred_wf (qwf : StructuredQuery → bool) (p : Pred) : bool :=
  is_ok (validate_predicate p)
  && option_forallb (expr_wf qwf) (pr_expr p)
  && option_forallb (expr_wf qwf) (pr_value_expr p)
  && option_forallb qwf (pr_value_subquery p)
  && option_forallb qwf (pr_exists_subquery p).

Definition where_wf (qwf : StructuredQuery → bool) (w : WhereNode) : bool :=
  where_forallb (pred_wf qwf) exactly_one_boolean w.

Definition select_item_wf (qwf : StructuredQuery → bool) (item : SelectItem) : bool :=
  match item with
  | ColumnItem _ | DateBucketSelectItem _ _ _ => true
  | AggregateSelectItem fn col arg dist alias =>
      is_ok (validate_aggregate_shape fn col arg dist alias)
      && option_forallb (expr_wf qwf) arg
  | StringAggSelectItem col _ _ => is_ok (validate_string_agg_col col)
  | ArrayAggSelectItem col _ => is_ok (validate_array_agg_col col)
  | PercentileContSelectItem col fraction _ => is_ok (validate_percentile_cont col fraction)
  | ScalarFunctionSelectItem call _ => is_ok (validate_scalar_function_call call)
  | CaseSelectItem when_ else_ _ => expr_wf qwf (CaseExpr when_ else_)
  | ExpressionSelectItem e _ => expr_wf qwf e
  | WindowSelectItem fn over arg off buckets _ => expr_wf qwf (WindowExpr fn over arg off buckets)
  end.

Definition join_wf (qwf : StructuredQuery → bool) (j : JoinSpec) : bool :=
  is_ok (validate_join j) && option_forallb (where_wf qwf) (js_condition j).

(** A query that Pydantic accepts. *)
Fixpoint query_wf (q : StructuredQuery) : bool :=
  is_ok (validate_query_node q)
  && forallb (select_item_wf query_wf) (select q)
  && forallb (join_wf query_wf) (joins q)
  && option_forallb (where_wf query_wf) (where_ q)
  && option_forallb (where_wf query_wf) (having q)
  && option_forallb (λ s, forallb query_wf (so_arms s)) (set_op q)
  && forallb (λ c, query_wf (cte_query c)) (ctes q).
End query_validators.

(** * Sample queries

    Small concrete queries the witnesses of the development evaluate on. *)

(** [SELECT items FROM table]. *)
Definition simple_query (table : string) (items : list SelectItem) : StructuredQuery :=
  MkStructuredQuery table None items false [] None [] None [] None 0 None None [] [] None None.

Definition with_where (w : WhereNode) (q : StructuredQuery) : StructuredQuery :=
  MkStructuredQuery (from_table q) (from_alias q) (select q) (distinct q) (joins q) (Some w)
    (group_by q) (having q) (order_by q) (limit q) (offset q) (top_n q) (set_op q)
    (correlate q) (ctes q) (intent q) (purpose q).

Definition with_joins (js : list JoinSpec) (q : StructuredQuery) : StructuredQuery :=
  MkStructuredQuery (from_table q) (from_alias q) (select q) (distinct q) js (where_ q)
    (group_by q) (having q) (order_by q) (limit q) (offset q) (top_n q) (set_op q)
    (correlate q) (ctes q) (intent q) (purpose q).

Definition with_set_op (s : SetOpSpec) (q : StructuredQuery) : StructuredQuery :=
  MkStructuredQuery (from_table q) (from_alias q) (select q) (distinct q) (joins q) (where_ q)
    (group_by q) (having q) (order_by q) (limit q) (offset q) (top_n q) (Some s)
    (correlate q) (ctes q) (intent q) (purpose q).

Definition with_ctes (cs : list CteSpec) (q : StructuredQuery) : StructuredQuery :=
  MkStructuredQuery (from_table q) (from_alias q) (select q) (distinct q) (joins q) (where_ q)
    (group_by q) (having q) (order_by q) (limit q) (offset q) (top_n q) (set_op q)
    (correlate q) cs (intent q) (purpose q).

Definition with_correlate (refs : list string) (q : StructuredQuery) : StructuredQuery :=
  MkStructuredQuery (from_table q) (from_alias q) (select q) (distinct q) (joins q) (where_ q)
    (group_by q) (having q) (order_by q) (limit q) (offset q) (top_n q) (set_op q)
    refs (ctes q) (intent q) (purpose q).

Definition with_purpose (name : string) (q : StructuredQuery) : StructuredQuery :=
  MkStructuredQuery (from_table q) (from_alias q) (select q) (distinct q) (joins q) (where_ q)
    (group_by q) (having q) (order_by q) (limit q) (offset q) (top_n q) (set_op q)
    (correlate q) (ctes q) (intent q) (Some name).

(** [col op value] and [col IN (subquery)]. *)
Definition value_predicate (col : string) (op : ReadCompareOp) (v : json) : Pred :=
  MkPredicate (Some col) None None op v None None None None.

Definition in_subquery (col : string) (s : StructuredQuery) : Pred :=
  MkPredicate (Some col) None None OpIn JNull None None (Some s) None.

Definition exists_subquery (s : StructuredQuery) : Pred :=
  MkPredicate None None None OpExists JNull None None None (Some s).

Definition column_predicate (col : string) (op : ReadCompareOp) (other : string) : Pred :=
  MkPredicate (Some col) None None op JNull (Some other) None None None.
