(* ===== verification/JsonText.v ===== *)
(** JSON text as Python's [json.dumps] writes it with sorted keys and compact
    separators, and lists sorted on text keys: what the shape fingerprint and the
    audit ledger hash. *)
From Stdlib Require Import Ascii Sorted.
From stdpp Require Import sorting pretty countable.
From S2P Require Export Ast.

(** * [json.dumps(..., sort_keys=True, separators=(",", ":"))] *)

(** How Python writes a float; the texts hashed here hold none. *)
Class FloatText := { float_repr : float64 → string }.

Definition hex_digit (n : nat) : ascii := ascii_of_nat (if n <? 10 then 48 + n else 87 + n)%nat.

(** The escapes of one byte, where [plain] says which other
    characters are written as they are: printable ASCII under [ensure_ascii],
    all but the control characters without it. *)
Definition json_escape (plain : nat → bool) (c : ascii) : string :=
  let n := nat_of_ascii c in
  if bool_decide (n = 34) then "\" +:+ String c ""
  else if bool_decide (n = 92) then "\\"
  else if bool_decide (n = 10) then "\n"
  else if bool_decide (n = 13) then "\r"
  else if bool_decide (n = 9) then "\t"
  else if bool_decide (n = 12) then "\f"
  else if bool_decide (n = 8) then "\b"
  else if plain n then String c ""
  else "\u00" +:+ String (hex_digit (n / 16)) (String (hex_digit (n mod 16)) "").

(** [\uXXXX], a pair of surrogates beyond the first plane. *)
Definition u_escape (n : nat) : string :=
  "\u" +:+ String (hex_digit (n / 4096 mod 16)) (String (hex_digit (n / 256 mod 16))
    (String (hex_digit (n / 16 mod 16)) (String (hex_digit (n mod 16)) ""))).
Definition code_point_escape (n : nat) : string :=
  if n <? Pos.to_nat 65536 then u_escape n
  else let n := n - Pos.to_nat 65536 in
       u_escape (Pos.to_nat 55296 + n / 1024) +:+ u_escape (Pos.to_nat 56320 + n mod 1024).

(** The escapes of a UTF-8 text: byte by byte, except that a longer character
    that may not stay is written by its code point. *)
Fixpoint json_escapes (plain : nat → bool) (s : string) : string :=
  match s with
  | EmptyString => EmptyString
  | String c s =>
      let n := nat_of_ascii c in
      if (n <? 128) || plain n then json_escape plain c +:+ json_escapes plain s else
      match s with
      | EmptyString => EmptyString
      | String c1 s1 =>
          let n1 := nat_of_ascii c1 - 128 in
          if n <? 224 then code_point_escape ((n - 192) * 64 + n1) +:+ json_escapes plain s1 else
          match s1 with
          | EmptyString => EmptyString
          | String c2 s2 =>
              let n2 := n1 * 64 + (nat_of_ascii c2 - 128) in
              if n <? 240 then code_point_escape ((n - 224) * 4096 + n2) +:+ json_escapes plain s2 else
              match s2 with
              | EmptyString => EmptyString
              | String c3 s3 =>
                  code_point_escape ((n - 240) * Pos.to_nat 262144 + n2 * 64 + (nat_of_ascii c3 - 128))
                  +:+ json_escapes plain s3
              end
          end
      end
  end.

Definition quote : string := String (ascii_of_nat 34) "".
Definition json_string (plain : nat → bool) (s : string) : string := quote +:+ json_escapes plain s +:+ quote.

Definition ascii_only (n : nat) : bool := (32 <=? n) && (n <=? 126).
Definition any_character (n : nat) : bool := 32 <=? n.

(** [sorted(l, key=k)] on text keys; stable, as Python's. *)
Definition key_le {A} (k : A → string) (x y : A) : Prop := (k x ≤ k y)%string.
#[export] Instance key_le_dec {A} (k : A → string) : RelDecision (key_le k).
Proof. intros x y. unfold key_le. apply _. Defined.
Definition sort_on {A} (k : A → string) (l : list A) : list A := merge_sort (key_le k) l.

Definition commas (l : list string) : string := String.concat "," l.

Fixpoint json_dumps_with `{FloatText} (plain : nat → bool) (v : json) : string :=
  match v with
  | JNull => "null"
  | JBool b => if b then "true" else "false"
  | JInt z => pretty z
  | JFloat f => float_repr f
  | JStr s => json_string plain s
  | JList l => "[" +:+ commas (map (json_dumps_with plain) l) +:+ "]"
  | JObj fields =>
      "{" +:+ commas (map (λ '(k, t), json_string plain k +:+ ":" +:+ t)
                       (sort_on fst (map (λ '(k, x), (k, json_dumps_with plain x)) fields))) +:+ "}"
  end.

(** [json.dumps(v, default=str)], with its default separators and order. *)
Definition spaced (l : list string) : string := String.concat ", " l.

Fixpoint json_dumps_default `{FloatText} (v : json) : string :=
  match v with
  | JList l => "[" +:+ spaced (map json_dumps_default l) +:+ "]"
  | JObj fields =>
      "{" +:+ spaced (map (λ '(k, x), json_string ascii_only k +:+ ": " +:+ json_dumps_default x) fields) +:+ "}"
  | v => json_dumps_with ascii_only v
  end.

(** Under [ensure_ascii], the default. *)
Definition json_dumps `{FloatText} (v : json) : string := json_dumps_with ascii_only v.

(** * Digests *)

Definition is_hex (c : ascii) : bool :=
  let n := nat_of_ascii c in (48 <=? n) && (n <=? 57) || (97 <=? n) && (n <=? 102).

(** [hashlib.sha256(text.encode("utf-8")).hexdigest()]: 64 hexadecimal digits. *)
Class Digest := {
  sha256_hexdigest : string → string;
  sha256_length s : String.length (sha256_hexdigest s) = 64%nat;
  sha256_hex s : string_forall is_hex (sha256_hexdigest s) = true;
}.

(** * JSON is countable *)

Definition float_code (f : float64) : Z * Z * Z :=
  match f with
  | S754_zero b => (0, Z.b2z b, 0)
  | S754_infinity b => (1, Z.b2z b, 0)
  | S754_nan => (2, 0, 0)
  | S754_finite b m e => (if b then 3 else 4, Zpos m, e)
  end%Z.
Definition float_of_code (c : Z * Z * Z) : float64 :=
  match c with
  | (0, b, _) => S754_zero (negb (b =? 0))
  | (1, b, _) => S754_infinity (negb (b =? 0))
  | (2, _, _) => S754_nan
  | (3, m, e) => S754_finite true (Z.to_pos m) e
  | (_, m, e) => S754_finite false (Z.to_pos m) e
  end%Z.

Lemma float_code_inv f : float_of_code (float_code f) = f.
Proof. by destruct f as [[]|[]| |[] m e]. Qed.

(** The atoms of a JSON tree. *)
Definition atom : Type := (option bool + Z) + ((Z * Z * Z) + string).

Fixpoint json_tree (v : json) : gen_tree atom :=
  match v with
  | JNull => GenLeaf (inl (inl None))
  | JBool b => GenLeaf (inl (inl (Some b)))
  | JInt z => GenLeaf (inl (inr z))
  | JFloat f => GenLeaf (inr (inl (float_code f)))
  | JStr s => GenLeaf (inr (inr s))
  | JList l => GenNode 0 (map json_tree l)
  | JObj fields => GenNode 1 (map (λ '(k, x), GenNode 2 [GenLeaf (inr (inr k)); json_tree x]) fields)
  end.

Fixpoint tree_json (t : gen_tree atom) : json :=
  match t with
  | GenLeaf (inl (inl None)) => JNull
  | GenLeaf (inl (inl (Some b))) => JBool b
  | GenLeaf (inl (inr z)) => JInt z
  | GenLeaf (inr (inl c)) => JFloat (float_of_code c)
  | GenLeaf (inr (inr s)) => JStr s
  | GenNode 0 l => JList (map tree_json l)
  | GenNode _ l => JObj (map (λ t, match t with
                                   | GenNode _ [GenLeaf (inr (inr k)); x] => (k, tree_json x)
                                   | _ => ("", JNull)
                                   end) l)
  end.

Lemma json_tree_inv : ∀ v, tree_json (json_tree v) = v.
Proof.
  fix IH 1. intros [|b|z|f|s|l|fields]; cbn; try done.
  - by rewrite float_code_inv.
  - f_equal. rewrite map_map. induction l as [|x l IHl]; [done|]. cbn. by rewrite IH, IHl.
  - f_equal. rewrite map_map. induction fields as [|[k x] l IHl]; [done|]. cbn. by rewrite IH, IHl.
Qed.

#[export] Instance json_tree_inj : Inj (=) (=) json_tree.
Proof. intros x y Hxy. by rewrite <- (json_tree_inv x), Hxy, json_tree_inv. Qed.
#[export] Instance json_eq_dec : EqDecision json.
Proof. intros x y. destruct (decide (json_tree x = json_tree y)); [left; by apply (inj json_tree)|right; congruence]. Defined.
#[export] Instance json_countable : Countable json := inj_countable' json_tree tree_json json_tree_inv.

(** * Sorting forgets order *)

Section sorting.
Context {A : Type} (k : A → string).

#[local] Instance key_le_total : Total (key_le k).
Proof. intros x y. unfold key_le. apply (total String.le). Qed.

#[local] Instance key_le_trans : Transitive (key_le k).
Proof. intros x y z. unfold key_le. by transitivity (k y). Qed.

Lemma sort_on_permutation l : sort_on k l ≡ₚ l.
Proof. apply merge_sort_Permutation. Qed.

Lemma sort_on_keys_sorted l : StronglySorted String.le (k <$> sort_on k l).
Proof.
  unfold sort_on. pose proof (StronglySorted_merge_sort (key_le k) l) as Hs.
  induction Hs as [|x l' Hl IH Hx]; cbn; constructor; [done|]. by apply Forall_fmap.
Qed.

(** The sorted keys depend on the keys alone. *)
Lemma sort_on_keys l1 l2 : k <$> l1 ≡ₚ k <$> l2 → k <$> sort_on k l1 = k <$> sort_on k l2.
Proof.
  intros Hp. apply (StronglySorted_unique String.le); [apply sort_on_keys_sorted..|].
  by rewrite !sort_on_permutation.
Qed.
End sorting.

(** When one key names one element, so do the sorted lists. *)
Lemma fmap_key_inj {A} (k : A → string) (l1 l2 : list A) :
  (∀ x y, x ∈ l1 → y ∈ l2 → k x = k y → x = y) → k <$> l1 = k <$> l2 → l1 = l2.
Proof.
  revert l2. induction l1 as [|x l1 IH]; intros [|y l2] Hinj Heq; try done.
  cbn in Heq. injection Heq as Hxy Heq. f_equal; [apply Hinj; [left|left|done]|].
  apply IH; [|done]. intros ?????. apply Hinj; [by right..|done].
Qed.

Lemma sort_on_distinct {A} (k : A → string) (l1 l2 : list A) :
  NoDup (k <$> l1) → l1 ≡ₚ l2 → sort_on k l1 = sort_on k l2.
Proof.
  intros Hd Hp. apply (fmap_key_inj k); [|by apply sort_on_keys; rewrite Hp].
  intros x y Hx Hy Hxy. rewrite sort_on_permutation in Hx. rewrite sort_on_permutation, <- Hp in Hy.
  apply list_elem_of_lookup in Hx as [i Hi], Hy as [j Hj].
  assert (i = j) as ->.
  { eapply (NoDup_lookup (k <$> l1)); [done|rewrite list_lookup_fmap, Hi; done|].
    by rewrite list_lookup_fmap, Hj, Hxy. }
  congruence.
Qed.

(** * Decimal texts *)

Definition is_decimal (c : ascii) : bool :=
  let n := nat_of_ascii c in (48 <=? n) && (n <=? 57) || (n =? 45).

Lemma pretty_N_char_digit x : (x < 10)%N → is_decimal (pretty_N_char x) && is_hex (pretty_N_char x) = true.
Proof.
  intros Hx. unfold pretty_N_char.
  destruct x as [|[[[p|p|]|[p|p|]|]|[[p|p|]|[p|p|]|]|]]; first [reflexivity|lia|destruct p; first [reflexivity|lia]].
Qed.

Lemma pretty_N_go_digits (f : ascii → bool) : (∀ x, (x < 10)%N → f (pretty_N_char x) = true) →
  ∀ x s, string_forall f s = true → string_forall f (pretty_N_go x s) = true.
Proof.
  intros Hf x. induction (N.lt_wf_0 x) as [x _ IH]; intros s Hs.
  destruct (decide (0 < x)%N) as [Hx|Hx].
  - rewrite pretty_N_go_step by done. apply IH; [apply N.div_lt; lia|].
    cbn. rewrite Hf, Hs; [done|]. by apply N.mod_lt.
  - assert (x = 0%N) as -> by lia. by rewrite pretty_N_go_0.
Qed.

Lemma pretty_N_digits (f : ascii → bool) (x : N) :
  (∀ y, (y < 10)%N → f (pretty_N_char y) = true) → string_forall f (pretty x) = true.
Proof.
  intros Hf. unfold pretty, pretty_N. case_decide; [|by apply pretty_N_go_digits].
  change (f (pretty_N_char 0) && true = true). by rewrite Hf.
Qed.

Lemma pretty_Z_decimal (z : Z) : string_forall is_decimal (pretty z) = true.
Proof.
  assert (Hp : ∀ x : N, string_forall is_decimal (pretty x) = true).
  { intros x. apply pretty_N_digits. intros y Hy. by apply pretty_N_char_digit, andb_true_iff in Hy as [Hy _]. }
  destruct z as [|p|p]; [done|apply (Hp (N.pos p))|].
  change (pretty (Z.neg p)) with ("-" +:+ pretty (N.pos p)). rewrite string_forall_app. by rewrite Hp.
Qed.

(** A stand-in for the digest: a rolling checksum in decimal, padded to 64
    characters. *)
Definition zeros : string := "0000000000000000000000000000000000000000000000000000000000000000".

Fixpoint checksum (s : string) (h : N) : N :=
  match s with
  | EmptyString => h
  | String c s => checksum s ((h * 257 + N_of_ascii c) mod 340282366920938463463374607431768211297)%N
  end.

Lemma string_forall_substring f n : ∀ s, string_forall f s = true → string_forall f (String.substring 0 n s) = true.
Proof.
  induction n as [|n IH]; intros [|c s] Hs; try done. cbn in *. apply andb_true_iff in Hs as [-> Hs]. by apply IH.
Qed.

Definition checksum_text (s : string) (h : N) : string := String.substring 0 64 (pretty (checksum s h) +:+ zeros).

Lemma checksum_length s h : String.length (checksum_text s h) = 64.
Proof.
  unfold checksum_text. generalize (pretty (checksum s h)). intros text.
  assert (∀ n t, n ≤ String.length t → String.length (String.substring 0 n t) = n) as Hlen.
  { induction n as [|n IH]; intros [|c t] Ht; cbn in *; try lia. f_equal. apply IH. lia. }
  apply Hlen. rewrite string_length_app. change (String.length zeros) with 64. lia.
Qed.

Lemma checksum_hex s h : string_forall is_hex (checksum_text s h) = true.
Proof.
  apply string_forall_substring. rewrite string_forall_app. apply andb_true_iff. split; [|done].
  apply pretty_N_digits. intros y Hy. by apply pretty_N_char_digit, andb_true_iff in Hy as [_ Hy].
Qed.

Definition sample_digest : Digest :=
  {| sha256_hexdigest s := checksum_text s 7; sha256_length s := checksum_length s 7; sha256_hex s := checksum_hex s 7 |}.

Definition sample_floats : FloatText := {| float_repr _ := "0.0" |}.
