(* ===== verification/AuditLedger.v ===== *)
(** [audit/ledger.py]: the hash chain over audit events, its verification, and
    the receipts cut from it. *)
From Stdlib Require Import Ascii.
From stdpp Require Import countable pretty.
From S2P Require Export TextFile JsonText.

(** * Records and digests *)

Definition GENESIS_PREV_HASH : string := zeros.
Definition ALGO_SHA256 : string := "sha256".
Definition ALGO_HMAC_SHA256 : string := "hmac-sha256".

Record LedgerRecord := MkLedgerRecord {
  lr_seq : Z;
  lr_prev_hash : string;
  lr_event : dict json;
  lr_hash : string;
}.

(** [hmac.new(key, payload, hashlib.sha256).hexdigest()]. *)
Class HmacDigest := {
  hmac_sha256_hexdigest : string → string → string;
  hmac_hex key payload : string_forall is_hex (hmac_sha256_hexdigest key payload) = true;
}.

(** The record as the JSON object Pydantic dumps. *)
Definition record_json (r : LedgerRecord) : json :=
  JObj [("seq", JInt (lr_seq r)); ("prev_hash", JStr (lr_prev_hash r)); ("event", JObj (lr_event r));
        ("hash", JStr (lr_hash r))].

(** JSON that survives a dump: valid text, distinct keys, finite floats. *)
Definition finite_float (f : float64) : Prop :=
  match f with S754_zero _ | S754_finite _ _ _ => True | _ => False end.

Fixpoint json_ok (v : json) : Prop :=
  match v with
  | JNull | JBool _ | JInt _ => True
  | JFloat f => finite_float f
  | JStr s => utf8_text s
  | JList l => (fix go (l : list json) : Prop := match l with [] => True | x :: l => json_ok x ∧ go l end) l
  | JObj fields =>
      NoDup fields.*1
      ∧ (fix go (l : list (string * json)) : Prop :=
           match l with [] => True | (k, x) :: l => utf8_text k ∧ json_ok x ∧ go l end) fields
  end.

Definition record_ok (r : LedgerRecord) : Prop := (0 <= lr_seq r)%Z ∧ json_ok (record_json r).

(** A text Pydantic writes for a record: in braces, with no control characters. *)
Definition json_line (s : string) : Prop :=
  (∃ mid, s = "{" +:+ mid +:+ "}") ∧ string_forall (λ c, any_character (nat_of_ascii c)) s = true
  ∧ utf8_text s.

(** What Pydantic does for [LedgerRecord]: parse a line, coerce a parsed value,
    write a line. *)
Class LedgerCodec := {
  model_validate_json : string → option LedgerRecord;
  model_validate : json → option LedgerRecord;
  model_dump_json : LedgerRecord → string;
  dumped_line r : record_ok r → json_line (model_dump_json r);
  validate_dumped r : record_ok r → model_validate_json (model_dump_json r) = Some r;
  validate_own r : record_ok r → model_validate (record_json r) = Some r;
}.

(** [_canonical_bytes]. *)
Definition canonical_bytes `{FloatText} (v : json) : string := json_dumps_with any_character v.

Section ledger.
Context `{FT : FloatText} `{DG : Digest} `{HD : HmacDigest}.

Definition canonical_payload (seq : Z) (prev_hash : string) (event : dict json) : string :=
  canonical_bytes (JObj [("seq", JInt seq); ("prev_hash", JStr prev_hash); ("event", JObj event)]).

Definition digest (key : option string) (payload : string) : string :=
  match key with
  | Some k => if str_empty k then sha256_hexdigest payload else hmac_sha256_hexdigest k payload
  | None => sha256_hexdigest payload
  end.

Definition compute_record_hash (key : option string) (seq : Z) (prev_hash : string) (event : dict json) : string :=
  digest key (canonical_payload seq prev_hash event).

Definition make_record (key : option string) (seq : Z) (prev_hash : string) (event : dict json) : LedgerRecord :=
  MkLedgerRecord seq prev_hash event (compute_record_hash key seq prev_hash event).

Definition resolve_ledger_key (raw : string) : option string :=
  if str_empty (strip raw) then None else Some raw.

Definition digests_equal (expected actual : string) : bool :=
  if negb (isascii expected && isascii actual) then false else bool_decide (expected = actual).

Definition record_hash (key : option string) (r : LedgerRecord) : string :=
  compute_record_hash key (lr_seq r) (lr_prev_hash r) (lr_event r).

(** * Envelopes *)

Definition is_envelope (raw : json) : option (dict json) :=
  match raw with
  | JObj fields =>
      if forallb (λ k, bool_decide (k ∈ dict_keys fields)) ["seq"; "prev_hash"; "event"; "hash"] then
        match dict_get "event" fields with Some (JObj event) => Some event | _ => None end
      else None
  | _ => None
  end.

Context `{LC : LedgerCodec}.

Definition verify_envelope_hash (key : option string) (raw : json) : option bool :=
  match is_envelope raw with
  | None => None
  | Some _ =>
      match model_validate raw with
      | None => Some false
      | Some r => Some (digests_equal (record_hash key r) (lr_hash r))
      end
  end.

Definition unwrap_envelope (raw : json) : json :=
  match is_envelope raw with Some event => JObj event | None => raw end.

(** * Verifying a chain *)

Record ChainVerificationResult := MkChainResult {
  cv_ok : bool;
  cv_records_checked : Z;
  cv_head_hash : option string;
  cv_broken_at_seq : option Z;
  cv_broken_at_line : option Z;
  cv_reason : option string;
}.

Definition chain_fail (records_checked : Z) (head_hash : option string) (seq line : option Z) (reason : string) :
  ChainVerificationResult :=
  MkChainResult false records_checked head_hash seq line (Some reason).

(** The loop of [verify_chain], then the test of the head. *)
Fixpoint verify_from (key : option string) (expected_head : option string) (lines : list string)
  (prev : option LedgerRecord) (checked : Z) (head_hash : option string) (line_no : Z) :
  ChainVerificationResult :=
  match lines with
  | [] =>
      match expected_head with
      | Some h =>
          if match head_hash with None => true | Some x => negb (digests_equal x h) end
          then chain_fail checked head_hash (lr_seq <$> prev) (Some line_no)
                 "head hash does not match the expected head (records dropped from the end)"
          else MkChainResult true checked head_hash None None None
      | None => MkChainResult true checked head_hash None None None
      end
  | raw :: lines =>
      let line_no := (line_no + 1)%Z in
      let stripped := strip raw in
      if str_empty stripped then verify_from key expected_head lines prev checked head_hash line_no else
      match model_validate_json stripped with
      | None => chain_fail checked head_hash None (Some line_no) "record does not parse as a ledger record"
      | Some record =>
          let broken := chain_fail checked head_hash (Some (lr_seq record)) (Some line_no) in
          let continue := verify_from key expected_head lines (Some record) (checked + 1)%Z
                            (Some (lr_hash record)) line_no in
          if negb (digests_equal (record_hash key record) (lr_hash record))
          then broken "record hash does not match its contents (event or metadata altered)" else
          match prev with
          | None =>
              if (lr_seq record =? 0)%Z && negb (bool_decide (lr_prev_hash record = GENESIS_PREV_HASH))
              then broken "genesis record does not link to the genesis hash" else continue
          | Some p =>
              if negb (lr_seq record =? lr_seq p + 1)%Z
              then broken ("sequence gap: expected " +:+ pretty (lr_seq p + 1)%Z +:+ ", found "
                           +:+ pretty (lr_seq record)) else
              if negb (digests_equal (lr_prev_hash record) (lr_hash p))
              then broken "prev_hash does not match the previous record's hash (record inserted, removed, or reordered)"
              else continue
          end
      end
  end.

Definition verify_chain (key : option string) (expected_head : option string) (lines : list string) :
  ChainVerificationResult :=
  verify_from key expected_head lines None 0%Z None 0%Z.

Fixpoint load_records (lines : list string) : result (list LedgerRecord) :=
  match lines with
  | [] => Ok []
  | raw :: lines =>
      let stripped := strip raw in
      if str_empty stripped then load_records lines else
      match model_validate_json stripped with
      | None => Raise (ValueError "ValidationError")
      | Some r => load_records lines ≫= λ rs, Ok (r :: rs)
      end
  end.

(** * Receipts *)

Record Receipt := MkReceipt {
  rc_algorithm : string;
  rc_seq : Z;
  rc_prev_hash : string;
  rc_hash : string;
  rc_event : dict json;
}.

Definition build_receipt (r : LedgerRecord) (keyed : bool) : Receipt :=
  MkReceipt (if keyed then ALGO_HMAC_SHA256 else ALGO_SHA256) (lr_seq r) (lr_prev_hash r) (lr_hash r) (lr_event r).

Definition verify_receipt (rc : Receipt) (key : option string) : bool :=
  if bool_decide (rc_algorithm rc = ALGO_HMAC_SHA256) then
    match key with
    | None => false
    | Some _ => digests_equal (compute_record_hash key (rc_seq rc) (rc_prev_hash rc) (rc_event rc)) (rc_hash rc)
    end
  else if bool_decide (rc_algorithm rc = ALGO_SHA256) then
    match key with
    | Some _ => false
    | None => digests_equal (compute_record_hash None (rc_seq rc) (rc_prev_hash rc) (rc_event rc)) (rc_hash rc)
    end
  else false.

Definition has_event_id (event_id : string) (r : LedgerRecord) : bool :=
  match dict_get "event_id" (lr_event r) with Some (JStr s) => bool_decide (s = event_id) | _ => false end.

Fixpoint extract_receipt_for_event_id (lines : list string) (event_id : string) (keyed : bool) : option Receipt :=
  match lines with
  | [] => None
  | raw :: lines =>
      let stripped := strip raw in
      if str_empty stripped then extract_receipt_for_event_id lines event_id keyed else
      match model_validate_json stripped with
      | None => extract_receipt_for_event_id lines event_id keyed
      | Some r => if has_event_id event_id r then Some (build_receipt r keyed)
                  else extract_receipt_for_event_id lines event_id keyed
      end
  end.

(** * What a verified chain is *)

Definition authentic (key : option string) (r : LedgerRecord) : Prop := lr_hash r = record_hash key r.

(** [r] continues the chain after [prev], or opens one. *)
Definition continues (prev : option LedgerRecord) (r : LedgerRecord) : Prop :=
  match prev with
  | None => lr_seq r = 0%Z → lr_prev_hash r = GENESIS_PREV_HASH
  | Some p => lr_seq r = (lr_seq p + 1)%Z ∧ lr_prev_hash r = lr_hash p
  end.

Inductive linked (key : option string) : option LedgerRecord → list LedgerRecord → Prop :=
| linked_nil prev : linked key prev []
| linked_cons prev r rs : authentic key r → continues prev r → linked key (Some r) rs → linked key prev (r :: rs).

Hint Constructors linked : core.

Definition head_of (rs : list LedgerRecord) : option string := lr_hash <$> last rs.

(** The head test: no head is asked for, or it is the (ASCII) one of the chain. *)
Definition head_matches (expected_head head : option string) : Prop :=
  match expected_head with None => True | Some h => head = Some h ∧ isascii h = true end.

Lemma is_hex_ascii s : string_forall is_hex s = true → isascii s = true.
Proof.
  apply string_forall_impl. intros c. unfold is_hex. intros Hc. apply Nat.ltb_lt.
  apply orb_true_iff in Hc as [[_ H%Nat.leb_le]%andb_true_iff|[_ H%Nat.leb_le]%andb_true_iff]; lia.
Qed.

Lemma digest_hex key payload : string_forall is_hex (digest key payload) = true.
Proof. unfold digest. destruct key as [k|]; [case_match|]; apply sha256_hex || apply hmac_hex. Qed.

Lemma record_hash_ascii key r : isascii (record_hash key r) = true.
Proof. apply is_hex_ascii, digest_hex. Qed.

Lemma digests_equal_true a b : digests_equal a b = true ↔ a = b ∧ isascii b = true.
Proof.
  unfold digests_equal. destruct (isascii a) eqn:Ha, (isascii b) eqn:Hb; cbn [andb negb].
  - rewrite bool_decide_eq_true. naive_solver.
  - naive_solver.
  - split; [done|intros [-> _]; congruence].
  - naive_solver.
Qed.

Lemma digests_equal_hash key r a : digests_equal (record_hash key r) a = true ↔ a = record_hash key r.
Proof. rewrite digests_equal_true. pose proof (record_hash_ascii key r). naive_solver. Qed.

Lemma authentic_ascii key r : authentic key r → isascii (lr_hash r) = true.
Proof. intros ->. apply record_hash_ascii. Qed.

Lemma digests_equal_prev key p r : authentic key p →
  digests_equal (lr_prev_hash r) (lr_hash p) = true ↔ lr_prev_hash r = lr_hash p.
Proof. rewrite digests_equal_true. intros Hp%authentic_ascii. naive_solver. Qed.

(** The tests of one record, as one bool. *)
Definition record_passes (key : option string) (prev : option LedgerRecord) (r : LedgerRecord) : bool :=
  digests_equal (record_hash key r) (lr_hash r)
  && match prev with
     | None => negb ((lr_seq r =? 0)%Z && negb (bool_decide (lr_prev_hash r = GENESIS_PREV_HASH)))
     | Some p => (lr_seq r =? lr_seq p + 1)%Z && digests_equal (lr_prev_hash r) (lr_hash p)
     end.

Definition prev_ok (key : option string) (prev : option LedgerRecord) : Prop :=
  match prev with Some p => authentic key p | None => True end.

Lemma record_passes_true key prev r : prev_ok key prev →
  record_passes key prev r = true ↔ authentic key r ∧ continues prev r.
Proof.
  intros Hp. unfold record_passes, continues, authentic.
  rewrite andb_true_iff, digests_equal_hash. apply and_iff_compat_l. destruct prev as [p|].
  - rewrite andb_true_iff, Z.eqb_eq, (digests_equal_prev key) by done. done.
  - rewrite negb_true_iff, andb_false_iff, Z.eqb_neq, negb_false_iff, bool_decide_eq_true.
    destruct (decide (lr_seq r = 0%Z)); naive_solver.
Qed.

(** One step of the loop, by what the line is. *)
Inductive line_kind := Blank | Unparsed | Parsed (r : LedgerRecord).
Definition kind_of (raw : string) : line_kind :=
  if str_empty (strip raw) then Blank else
  match model_validate_json (strip raw) with None => Unparsed | Some r => Parsed r end.

Lemma load_records_cons raw lines : load_records (raw :: lines) =
  match kind_of raw with
  | Blank => load_records lines
  | Unparsed => Raise (ValueError "ValidationError")
  | Parsed r => load_records lines ≫= λ rs, Ok (r :: rs)
  end.
Proof. unfold kind_of. cbn. destruct (str_empty (strip raw)); [done|]. by destruct (model_validate_json (strip raw)). Qed.

Lemma extract_receipt_cons raw lines event_id keyed : extract_receipt_for_event_id (raw :: lines) event_id keyed =
  match kind_of raw with
  | Parsed r => if has_event_id event_id r then Some (build_receipt r keyed)
                else extract_receipt_for_event_id lines event_id keyed
  | _ => extract_receipt_for_event_id lines event_id keyed
  end.
Proof. unfold kind_of. cbn. destruct (str_empty (strip raw)); [done|]. by destruct (model_validate_json (strip raw)). Qed.

Lemma verify_from_cons key eh raw lines prev checked head n :
  match kind_of raw with
  | Blank => verify_from key eh (raw :: lines) prev checked head n = verify_from key eh lines prev checked head (n + 1)
  | Unparsed => verify_from key eh (raw :: lines) prev checked head n
                = chain_fail checked head None (Some (n + 1)%Z) "record does not parse as a ledger record"
  | Parsed r =>
      if record_passes key prev r
      then verify_from key eh (raw :: lines) prev checked head n
           = verify_from key eh lines (Some r) (checked + 1) (Some (lr_hash r)) (n + 1)
      else ∃ reason, verify_from key eh (raw :: lines) prev checked head n
                     = chain_fail checked head (Some (lr_seq r)) (Some (n + 1)%Z) reason
  end.
Proof.
  unfold kind_of, record_passes. cbn [verify_from]. cbv zeta.
  destruct (str_empty (strip raw)); [done|]. destruct (model_validate_json (strip raw)) as [r|]; [|done].
  destruct (digests_equal (record_hash key r) (lr_hash r)); cbn [negb andb]; [|by eexists].
  destruct prev as [p|].
  - destruct (lr_seq r =? lr_seq p + 1)%Z; cbn [negb andb]; [|by eexists].
    destruct (digests_equal (lr_prev_hash r) (lr_hash p)); cbn [negb]; [done|by eexists].
  - destruct ((lr_seq r =? 0)%Z && _); cbn [negb]; [by eexists|done].
Qed.

Lemma verify_from_ok key eh lines : ∀ prev checked head n,
  prev_ok key prev → head = lr_hash <$> prev →
  cv_ok (verify_from key eh lines prev checked head n) = true ↔
  ∃ rs, load_records lines = Ok rs ∧ linked key prev rs
        ∧ head_matches eh (match last rs with Some r => Some (lr_hash r) | None => head end).
Proof.
  induction lines as [|raw lines IH]; intros prev checked head n Hp Hh.
  - cbn. split.
    + intros Hok. exists []. split_and!; [done..|]. destruct eh as [h|]; [|done]. cbn in *.
      destruct head as [x|]; [|done]. destruct (digests_equal x h) eqn:E; [|done].
      apply digests_equal_true in E as [-> ?]. done.
    + intros (rs & [= <-] & _ & Hm). destruct eh as [h|]; [|done]. cbn in Hm. destruct Hm as [-> Ha].
      by rewrite (proj2 (digests_equal_true h h)).
  - rewrite load_records_cons. pose proof (verify_from_cons key eh raw lines prev checked head n) as Hstep.
    destruct (kind_of raw) as [| |r].
    + rewrite Hstep. by apply IH.
    + rewrite Hstep. split; [done|]. by intros (? & ? & _).
    + destruct (record_passes key prev r) eqn:E.
      * rewrite Hstep. apply record_passes_true in E as [Ha Hc]; [|done]. rewrite IH by done. split.
        -- intros (rs & -> & Hl & Hm). exists (r :: rs). split_and!; [done|by constructor|].
           rewrite last_cons. by destruct (last rs).
        -- intros (rs & (rs' & Hrs & [= <-])%bind_ok & Hl & Hm). exists rs'. inversion_clear Hl.
           rewrite last_cons in Hm. split_and!; [done..|]. by destruct (last rs').
      * destruct Hstep as [reason ->]. split; [done|].
        intros (rs & (rs' & Hrs & [= <-])%bind_ok & Hl & Hm). inversion_clear Hl.
        rewrite <- not_true_iff_false, record_passes_true in E by done. naive_solver.
Qed.

Lemma verify_chain_ok key eh lines :
  cv_ok (verify_chain key eh lines) = true ↔
  ∃ rs, load_records lines = Ok rs ∧ linked key None rs ∧ head_matches eh (head_of rs).
Proof.
  unfold verify_chain. rewrite verify_from_ok by done. unfold head_of.
  split; intros (rs & H1 & H2 & H3); exists rs; split_and!; try done; by destruct (last rs).
Qed.

Lemma verify_from_counts key eh lines : ∀ prev checked head n rs,
  load_records lines = Ok rs →
  let res := verify_from key eh lines prev checked head n in
  cv_ok res = true →
  cv_records_checked res = (checked + Z.of_nat (length rs))%Z
  ∧ cv_head_hash res = match last rs with Some r => Some (lr_hash r) | None => head end.
Proof.
  induction lines as [|raw lines IH]; intros prev checked head n rs; cbv zeta.
  - cbn. intros [= <-]. destruct eh as [h|]; [|cbn; split; [lia|done]].
    destruct (match head with Some _ => _ | None => _ end); [done|]. cbn. split; [lia|done].
  - rewrite load_records_cons. pose proof (verify_from_cons key eh raw lines prev checked head n) as Hstep.
    destruct (kind_of raw) as [| |r]; [rewrite Hstep; apply IH|done|].
    intros (rs' & Hrs & [= <-])%bind_ok. destruct (record_passes key prev r).
    + rewrite Hstep. intros Hok. destruct (IH _ _ _ _ _ Hrs Hok) as [-> ->]. rewrite last_cons.
      split; [cbn [length]; lia|]. by destruct (last rs').
    + by destruct Hstep as [reason ->].
Qed.
End ledger.

Section chains.
Context `{FT : FloatText} `{DG : Digest} `{HD : HmacDigest} `{LC : LedgerCodec}.

(** C24. [verify_chain] accepts exactly the files whose non-blank lines all parse
    and form a chain: each record carries the digest of its contents, follows its
    predecessor by one and names its hash (a record numbered zero names the
    genesis hash), and the last hash is the expected one; it then reports the
    number of records and that hash. *)
Theorem verify_chain_exact key expected_head lines :
  (cv_ok (verify_chain key expected_head lines) = true ↔
   ∃ rs, load_records lines = Ok rs ∧ linked key None rs ∧ head_matches expected_head (head_of rs))
  ∧ (∀ rs, load_records lines = Ok rs → cv_ok (verify_chain key expected_head lines) = true →
     cv_records_checked (verify_chain key expected_head lines) = Z.of_nat (length rs)
     ∧ cv_head_hash (verify_chain key expected_head lines) = head_of rs).
Proof.
  split; [apply verify_chain_ok|]. intros rs Hrs Hok.
  destruct (verify_from_counts key expected_head lines None 0 None 0 rs Hrs Hok) as [H1 H2].
  unfold verify_chain in *. rewrite H1, H2. split; [done|]. unfold head_of. by destruct (last rs).
Qed.

(** ** The first broken line *)

(** [l] is the index of the first line that breaks the run. *)
Definition breaks_at (key : option string) (lines : list string) (prev : option LedgerRecord) (checked : Z)
  (head : option string) (n : Z) (res : ChainVerificationResult) (l : nat) : Prop :=
  let before := verify_from key None (take l lines) prev checked head n in
  cv_broken_at_line res = Some (n + Z.of_nat (S l))%Z ∧ l < length lines
  ∧ cv_ok before = true ∧ cv_records_checked before = cv_records_checked res
  ∧ cv_head_hash before = cv_head_hash res
  ∧ cv_ok (verify_from key None (take (S l) lines) prev checked head n) = false.

Lemma breaks_at_next key raw lines prev checked head n prev' checked' head' res l :
  (∀ k, verify_from key None (raw :: k) prev checked head n = verify_from key None k prev' checked' head' (n + 1)) →
  breaks_at key lines prev' checked' head' (n + 1) res l →
  breaks_at key (raw :: lines) prev checked head n res (S l).
Proof.
  intros Hk (H1 & H2 & H3). unfold breaks_at. cbn [take length]. rewrite !Hk. split; [|split; [lia|exact H3]].
  rewrite H1. f_equal. lia.
Qed.

Lemma breaks_here key raw lines prev checked head n seq e :
  cv_ok (verify_from key None [raw] prev checked head n) = false →
  breaks_at key (raw :: lines) prev checked head n (chain_fail checked head seq (Some (n + 1)%Z) e) 0.
Proof. intros Hone. unfold breaks_at. cbn [take length]. split_and!; try done; lia. Qed.

Lemma verify_from_localises key eh lines : ∀ prev checked head n,
  let res := verify_from key eh lines prev checked head n in
  cv_ok res = false →
  (∃ l, breaks_at key lines prev checked head n res l)
  ∨ (cv_broken_at_line res = Some (n + Z.of_nat (length lines))%Z
     ∧ cv_ok (verify_from key None lines prev checked head n) = true ∧ eh ≠ None).
Proof.
  induction lines as [|raw lines IH]; intros prev checked head n; cbv zeta.
  - cbn. destruct eh as [h|]; [|done].
    destruct (match head with Some _ => _ | None => _ end); [|done]. intros _. right. cbn.
    split_and!; [f_equal; lia|done..].
  - pose proof (verify_from_cons key eh raw lines prev checked head n) as Hstep.
    pose proof (λ k, verify_from_cons key None raw k prev checked head n) as Hnone.
    assert (Hgo : ∀ prev' checked' head',
      (∀ k, verify_from key None (raw :: k) prev checked head n = verify_from key None k prev' checked' head' (n + 1)) →
      let res := verify_from key eh lines prev' checked' head' (n + 1) in
      cv_ok res = false → (∃ l, breaks_at key (raw :: lines) prev checked head n res l)
      ∨ (cv_broken_at_line res = Some (n + Z.of_nat (length (raw :: lines)))%Z
         ∧ cv_ok (verify_from key None (raw :: lines) prev checked head n) = true ∧ eh ≠ None)).
    { intros prev' checked' head' Hk res Hf. destruct (IH _ _ _ _ Hf) as [[l Hl]|(H1 & H2)].
      - left. exists (S l). by eapply breaks_at_next.
      - right. unfold res. rewrite H1, Hk. split; [|done]. f_equal. cbn [length]. lia. }
    destruct (kind_of raw) as [| |r].
    + rewrite Hstep. by apply Hgo.
    + rewrite Hstep. left. exists 0. apply breaks_here. by rewrite Hnone.
    + destruct (record_passes key prev r).
      * rewrite Hstep. by apply Hgo.
      * destruct Hstep as [e ->]. left. exists 0. apply breaks_here. by destruct (Hnone []) as [e' ->].
Qed.

(** A refusal names the first bad line: the file cut before that line
    verifies, with the record count and head the refusal reports, and cut after
    it does not; or every line is good and only the expected head is missing. *)
Theorem broken_chain_localised key expected_head lines :
  let res := verify_chain key expected_head lines in
  cv_ok res = false →
  (∃ l, cv_broken_at_line res = Some (Z.of_nat (S l)) ∧ l < length lines
     ∧ cv_ok (verify_chain key None (take l lines)) = true
     ∧ cv_records_checked (verify_chain key None (take l lines)) = cv_records_checked res
     ∧ cv_head_hash (verify_chain key None (take l lines)) = cv_head_hash res
     ∧ cv_ok (verify_chain key None (take (S l) lines)) = false)
  ∨ (cv_broken_at_line res = Some (Z.of_nat (length lines))
     ∧ cv_ok (verify_chain key None lines) = true ∧ expected_head ≠ None).
Proof. apply (verify_from_localises key expected_head lines None 0 None 0). Qed.

(** ** Two chains with one head *)

Lemma linked_snoc key prev rs r :
  linked key prev (rs ++ [r]) ↔
  linked key prev rs ∧ authentic key r ∧ continues (match last rs with Some p => Some p | None => prev end) r.
Proof.
  revert prev. induction rs as [|x rs IH]; intros prev; cbn [app].
  - split; [intros H; inversion_clear H; split_and!; [constructor|done..]|].
    intros (_ & Ha & Hc). constructor; [done..|constructor].
  - rewrite last_cons. split.
    + intros H. inversion_clear H as [|? ? ? Ha Hc Hl]. apply IH in Hl as (Hl & Ha' & Hc').
      split_and!; [by constructor|done|]. by destruct (last rs).
    + intros (H & Ha' & Hc'). inversion_clear H as [|? ? ? Ha Hc Hl]. constructor; [done..|].
      apply IH. split_and!; [done..|]. by destruct (last rs).
Qed.

(** A chain from the genesis record. *)
Definition from_genesis (key : option string) (rs : list LedgerRecord) : Prop :=
  linked key None rs ∧ ∀ r, head rs = Some r → lr_seq r = 0%Z.

Lemma from_genesis_snoc key rs r : from_genesis key (rs ++ [r]) ↔
  from_genesis key rs ∧ authentic key r
  ∧ lr_seq r = Z.of_nat (length rs) ∧ lr_prev_hash r = default GENESIS_PREV_HASH (head_of rs).
Proof.
  revert r. induction rs as [|x rs IH] using rev_ind; intros r; unfold from_genesis; rewrite linked_snoc.
  - cbn. split.
    + intros ((_ & Ha & Hc) & Hh). specialize (Hh r eq_refl). split_and!; [constructor|done|done|done|by apply Hc].
    + intros (_ & Ha & Hs & Hp). split_and!; [constructor|done|done|]. by intros ? [= <-].
  - assert (∀ y, head ((rs ++ [x]) ++ [y]) = head (rs ++ [x])) as Hhead by by destruct rs.
    rewrite Hhead, last_snoc. cbn. unfold head_of. rewrite last_snoc. cbn.
    assert (from_genesis key (rs ++ [x]) → lr_seq x = Z.of_nat (length rs)) as Hx.
    { intros H. by apply IH in H as (_ & _ & ? & _). }
    unfold from_genesis in Hx. rewrite length_app. cbn. split.
    + intros ((Hl & Ha & Hs & Hp) & Hh). specialize (Hx (conj Hl Hh)). split_and!; try done. lia.
    + intros ((Hl & Hh) & Ha & Hs & Hp). specialize (Hx (conj Hl Hh)). split_and!; try done. lia.
Qed.

Lemma genesis_prev_hex key rs r : from_genesis key (rs ++ [r]) → string_forall is_hex (lr_prev_hash r) = true.
Proof.
  intros (Hg & _ & _ & ->)%from_genesis_snoc.
  induction rs as [|x rs _] using rev_ind; [done|]. apply from_genesis_snoc in Hg as (_ & Ha & _).
  unfold head_of. rewrite last_snoc. cbn. rewrite Ha. apply digest_hex.
Qed.

(** The text that is hashed determines the position, the predecessor and the
    text of the event. *)
Lemma hex_escape c : is_hex c = true → json_escape any_character c = String c "".
Proof.
  intros Hc. assert (48 <= nat_of_ascii c <= 102) as Hn.
  { unfold is_hex in Hc. apply orb_true_iff in Hc as [[H1%Nat.leb_le H2%Nat.leb_le]%andb_true_iff
      |[H1%Nat.leb_le H2%Nat.leb_le]%andb_true_iff]; lia. }
  assert (nat_of_ascii c <> 92) as Hb.
  { intros H. unfold is_hex in Hc. rewrite H in Hc. done. }
  unfold json_escape, any_character. rewrite !bool_decide_eq_false_2 by lia.
  by rewrite (proj2 (Nat.leb_le _ _)) by lia.
Qed.

Lemma is_hex_byte c : is_hex c = true → (nat_of_ascii c <? 128) = true.
Proof.
  intros Hc. pose proof (is_hex_ascii (String c "")) as H. cbn in H. rewrite Hc in H.
  by apply andb_true_iff in H as [H _].
Qed.

Lemma hex_escapes s : string_forall is_hex s = true → json_escapes any_character s = s.
Proof.
  induction s as [|c s IH]; [done|]. cbn [string_forall]. intros [Hc Hs]%andb_true_iff. cbn [json_escapes].
  rewrite (is_hex_byte c Hc). by rewrite hex_escape, IH.
Qed.

Lemma canonical_payload_text : ∃ before between after, ∀ seq prev event, string_forall is_hex prev = true →
  canonical_payload seq prev event
  = (before +:+ canonical_bytes (JObj event) +:+ between) +:+ String (ascii_of_nat 34) prev
    +:+ after +:+ String ":" (pretty seq +:+ "}").
Proof.
  exists ("{" +:+ json_string any_character "event" +:+ ":"), ("," +:+ json_string any_character "prev_hash" +:+ ":"),
    (quote +:+ "," +:+ json_string any_character "seq").
  intros seq prev event Hp.
  transitivity ("{" +:+ commas [json_string any_character "event" +:+ ":" +:+ canonical_bytes (JObj event);
      json_string any_character "prev_hash" +:+ ":" +:+ json_string any_character prev;
      json_string any_character "seq" +:+ ":" +:+ pretty seq] +:+ "}"); [reflexivity|].
  assert (json_string any_character prev = quote +:+ prev +:+ quote) as ->
    by (unfold json_string; by rewrite hex_escapes).
  unfold commas. cbn [String.concat]. rewrite <- !string_app_assoc. reflexivity.
Qed.

Lemma hex_not_char c s : is_hex c = false → string_forall is_hex s = true →
  string_forall (λ d, bool_decide (d ≠ c)) s = true.
Proof. intros Hc. apply string_forall_impl. intros d Hd. apply bool_decide_eq_true. intros ->. congruence. Qed.
Lemma seq_text (seq : Z) : string_forall (λ d, bool_decide (d ≠ ":"%char)) (pretty seq +:+ "}") = true.
Proof.
  rewrite string_forall_app, andb_true_r. eapply string_forall_impl; [|apply pretty_Z_decimal].
  intros c Hc. apply bool_decide_eq_true. by intros ->.
Qed.

Lemma canonical_payload_inj seq prev event seq' prev' event' :
  string_forall is_hex prev = true → string_forall is_hex prev' = true →
  canonical_payload seq prev event = canonical_payload seq' prev' event' →
  seq = seq' ∧ prev = prev' ∧ canonical_bytes (JObj event) = canonical_bytes (JObj event').
Proof.
  intros Hp Hp'. destruct canonical_payload_text as (before & between & after & Htext).
  rewrite !Htext, !string_app_assoc by done. intros [Hhead Hseq]%string_split_last; [|apply seq_text..].
  apply string_app_inj_r, (inj pretty) in Hseq. apply string_app_inj_r in Hhead.
  apply string_split_last in Hhead as [He ->]; [|by apply hex_not_char..].
  apply string_app_inj_r in He. by apply string_app_inj_l in He.
Qed.

(** Two records with the same place, hash and event text. *)
Record same_record (r r' : LedgerRecord) : Prop := {
  sr_seq : lr_seq r = lr_seq r';
  sr_prev : lr_prev_hash r = lr_prev_hash r';
  sr_hash : lr_hash r = lr_hash r';
  sr_event : canonical_bytes (JObj (lr_event r)) = canonical_bytes (JObj (lr_event r'));
}.

(** Two texts with one digest under the key. *)
Definition digest_collision (key : option string) : Prop :=
  ∃ text text', text ≠ text' ∧ digest key text = digest key text'.

Lemma same_head_same_chain key rs : ∀ rs',
  from_genesis key rs → from_genesis key rs' → head_of rs = head_of rs' →
  Forall2 same_record rs rs' ∨ digest_collision key.
Proof.
  induction rs as [|r rs IH] using rev_ind; intros rs' Hg Hg' Hh.
  - destruct rs' as [|r' rs' _] using rev_ind; [by left|]. unfold head_of in Hh. by rewrite last_snoc in Hh.
  - destruct rs' as [|r' rs' _] using rev_ind; unfold head_of in Hh; rewrite !last_snoc in Hh; [done|].
    pose proof (genesis_prev_hex _ _ _ Hg) as Hp. pose proof (genesis_prev_hex _ _ _ Hg') as Hp'.
    apply from_genesis_snoc in Hg as (Hg & Ha & Hs & Hpr). apply from_genesis_snoc in Hg' as (Hg' & Ha' & Hs' & Hpr').
    injection Hh as Hh.
    destruct (decide (canonical_payload (lr_seq r) (lr_prev_hash r) (lr_event r)
                      = canonical_payload (lr_seq r') (lr_prev_hash r') (lr_event r'))) as [Heq|Hne].
    2: { right. eexists _, _. split; [exact Hne|]. by rewrite Ha, Ha' in Hh. }
    apply canonical_payload_inj in Heq as (Hseq & Hprev & Hev); [|done..].
    destruct (IH rs' Hg Hg') as [Hall|Hc]; [|left|by right].
    2: { apply Forall2_app; [done|]. by repeat constructor. }
    assert (length rs = length rs') as Hlen by lia. rewrite Hpr, Hpr' in Hprev.
    destruct rs as [|x rs _] using rev_ind; [by destruct rs'|].
    destruct rs' as [|x' rs' _] using rev_ind; [rewrite length_app in Hlen; cbn in Hlen; lia|].
    unfold head_of in *. rewrite !last_snoc in *. cbn in Hprev. cbn. by rewrite Hprev.
Qed.

(** Tampering shows against an anchored head: of two files that verify from
    the genesis record with the same expected head, record for record the
    positions, links, hashes and event texts are the same, whatever was edited,
    dropped, inserted or reordered in between; otherwise two different texts
    with the same digest are at hand. *)
Theorem tampering_shows key h lines lines' rs rs' :
  cv_ok (verify_chain key (Some h) lines) = true → cv_ok (verify_chain key (Some h) lines') = true →
  load_records lines = Ok rs → load_records lines' = Ok rs' →
  lr_seq <$> head rs = Some 0%Z → lr_seq <$> head rs' = Some 0%Z →
  Forall2 same_record rs rs' ∨ digest_collision key.
Proof.
  intros Hok Hok' Hrs Hrs' H0 H0'.
  apply verify_chain_ok in Hok as (rs1 & Hrs1 & Hl & Hh & _), Hok' as (rs1' & Hrs1' & Hl' & Hh' & _).
  rewrite Hrs in Hrs1. rewrite Hrs' in Hrs1'. injection Hrs1 as <-. injection Hrs1' as <-.
  apply same_head_same_chain; [split; [done|]..|congruence].
  - intros r Hr. rewrite Hr in H0. by injection H0.
  - intros r Hr. rewrite Hr in H0'. by injection H0'.
Qed.

Lemma linked_elem key rs : ∀ prev r, linked key prev rs → r ∈ rs → authentic key r.
Proof.
  induction rs as [|x rs IH]; intros prev r Hl Hr; [by apply elem_of_nil in Hr|].
  inversion_clear Hl. apply elem_of_cons in Hr as [->|Hr]; [done|by eapply IH].
Qed.

(** A chain from the genesis record verifies with its own head. *)
Lemma genesis_verifies key rs lines : load_records lines = Ok rs → from_genesis key rs →
  cv_ok (verify_chain key (head_of rs) lines) = true.
Proof.
  intros Hload [Hl _]. apply verify_chain_ok. exists rs. split_and!; [done..|].
  unfold head_matches, head_of. destruct (last rs) as [r|] eqn:Hlast; [|done]. split; [done|].
  apply (authentic_ascii key). eapply linked_elem; [done|]. by apply last_Some_elem_of.
Qed.

Lemma verify_chain_counts key eh lines rs : load_records lines = Ok rs → cv_ok (verify_chain key eh lines) = true →
  cv_records_checked (verify_chain key eh lines) = Z.of_nat (length rs).
Proof. intros Hrs Hok. by destruct (verify_from_counts key eh lines None 0 None 0 rs Hrs Hok) as [H1 _]. Qed.

(** ** Receipts *)

Lemma extract_receipt_finds lines event_id keyed : ∀ rs, load_records lines = Ok rs →
  extract_receipt_for_event_id lines event_id keyed
  = (λ r, build_receipt r keyed) <$> head (base.filter (λ r, has_event_id event_id r = true) rs).
Proof.
  induction lines as [|raw lines IH]; intros rs; [by intros [= <-]|].
  rewrite load_records_cons, extract_receipt_cons. destruct (kind_of raw) as [| |r]; [apply IH|done|].
  intros (rs' & Hrs & [= <-])%bind_ok. rewrite filter_cons.
  destruct (has_event_id event_id r) eqn:E; [by rewrite decide_True|].
  rewrite decide_False by congruence. by apply IH.
Qed.

(** Receipts: from a file that verifies, the receipt of an event id is that
    of its first record with the id, and it verifies under the same key (tagged
    keyed exactly when a key is in use); and whatever receipt verifies carries
    the digest of its own position, link and event under that key. *)
Theorem receipt_sound key expected_head lines rs event_id rc :
  cv_ok (verify_chain key expected_head lines) = true → load_records lines = Ok rs →
  (extract_receipt_for_event_id lines event_id (is_some key) = Some rc ↔
   ∃ r, head (base.filter (λ r, has_event_id event_id r = true) rs) = Some r ∧ rc = build_receipt r (is_some key))
  ∧ (extract_receipt_for_event_id lines event_id (is_some key) = Some rc → verify_receipt rc key = true)
  ∧ (∀ rc', verify_receipt rc' key = true →
       rc_hash rc' = compute_record_hash key (rc_seq rc') (rc_prev_hash rc') (rc_event rc')
       ∧ rc_algorithm rc' = if is_some key then ALGO_HMAC_SHA256 else ALGO_SHA256).
Proof.
  intros Hok Hrs. apply verify_chain_ok in Hok as (rs1 & Hrs1 & Hl & _). rewrite Hrs in Hrs1. injection Hrs1 as <-.
  rewrite (extract_receipt_finds lines event_id _ rs Hrs).
  assert (Hiff : (λ r, build_receipt r (is_some key)) <$> head (base.filter (λ r, has_event_id event_id r = true) rs) = Some rc
    ↔ ∃ r, head (base.filter (λ r, has_event_id event_id r = true) rs) = Some r ∧ rc = build_receipt r (is_some key)).
  { rewrite fmap_Some. naive_solver. }
  split_and!; [done| |].
  - intros (r & Hr & ->)%Hiff. assert (r ∈ rs) as Hin.
    { apply head_Some_elem_of in Hr. by apply list_elem_of_filter in Hr as [_ Hr]. }
    pose proof (linked_elem key rs None r Hl Hin) as Ha.
    transitivity (digests_equal (record_hash key r) (lr_hash r)); [by destruct key|by apply digests_equal_hash].
  - intros rc' Hv. unfold verify_receipt in Hv.
    destruct (bool_decide (rc_algorithm rc' = ALGO_HMAC_SHA256)) eqn:E1.
    + apply bool_decide_eq_true in E1. destruct key as [k|]; [|done].
      by apply digests_equal_true in Hv as [<- _].
    + destruct (bool_decide (rc_algorithm rc' = ALGO_SHA256)) eqn:E2; [|done].
      apply bool_decide_eq_true in E2. destruct key as [k|]; [done|]. by apply digests_equal_true in Hv as [<- _].
Qed.
End chains.
