(* ===== verification/AuditSinks.v ===== *)
(** [audit/sinks.py]: the JSONL sink, the hash-chained sink with the recovery of
    its head, and the life of a ledger file across starts and failing writes. *)
From Stdlib Require Import Ascii.
From S2P Require Export AuditLedger.

Definition CHUNK_SIZE : Z := 65536.
Definition DEFAULT_MAX_LINE_BYTES : Z := 1048576.
Definition DEFAULT_MAX_TOTAL_BYTES : Z := 268435456.

(** * Appending to a file *)

(** What [os.open], [os.write] (of the whole payload, or of that many bytes),
    [os.fsync] and [os.close] do. *)
Inductive os_outcome :=
| OpenFails
| WriteFails
| Written (short : option nat) (fsync_fails close_fails : bool).

(** The file, [None] if there is none. *)
Definition append_payload (fsync : bool) (file : option string) (payload : string) (o : os_outcome) :
  option string * result unit :=
  match o with
  | OpenFails => (file, Raise (BuiltinError "OSError"))
  | WriteFails => (Some (default "" file), Raise (BuiltinError "OSError"))
  | Written short fsync_fails close_fails =>
      (Some (default "" file +:+ match short with None => payload | Some n => String.substring 0 n payload end),
       raise_if (fsync && fsync_fails || close_fails) (BuiltinError "OSError"))
  end.

Section sinks.
Context `{FT : FloatText} `{DG : Digest} `{HD : HmacDigest} `{LC : LedgerCodec}.

(** [JsonlAuditSink.emit], on the event as [model_dump_json(exclude_none=True)]
    writes it. *)
Definition jsonl_emit (fsync : bool) (file : option string) (event_json : string) (o : os_outcome) :
  option string * result unit :=
  append_payload fsync file (event_json +:+ String newline "") o.

(** * The hash-chained sink *)

Record HashChainedAuditSink := MkHashChainedAuditSink {
  hs_key : option string;
  hs_fsync : bool;
  hs_next_seq : Z;
  hs_head_hash : string;
}.

Definition read_last_line (file : option string) : result (option string) :=
  match file with
  | None => Ok None
  | Some contents =>
      match iter_lines_reverse CHUNK_SIZE DEFAULT_MAX_LINE_BYTES DEFAULT_MAX_TOTAL_BYTES contents with
      | (line :: _, _) => Ok (Some line)
      | ([], AuditFileReadBounded _) =>
          Raise (ValueError "Cannot resume hash-chained audit ledger: its last line could not be read within the bounded-read limits")
      | ([], _) => Ok None
      end
  end.

Definition recover_head (file : option string) : result (Z * string) :=
  read_last_line file ≫= λ last,
  match last with
  | None => Ok (0%Z, GENESIS_PREV_HASH)
  | Some line =>
      match model_validate_json line with
      | None => Raise (ValueError "Cannot resume hash-chained audit ledger: its last line is not a valid ledger record")
      | Some r => Ok ((lr_seq r + 1)%Z, lr_hash r)
      end
  end.

(** [HashChainedAuditSink.__init__]. *)
Definition open_chained (path : string) (key : option string) (fsync : bool) (file : option string) :
  result HashChainedAuditSink :=
  raise_if (str_empty (strip path)) (ValueError "AUDIT_JSONL_PATH must be set when AUDIT_SINK_BACKEND=jsonl_chained") ≫= λ _,
  recover_head file ≫= λ '(next_seq, head_hash),
  Ok (MkHashChainedAuditSink (match key with Some k => if str_empty k then None else Some k | None => None end)
        fsync next_seq head_hash).

(** [HashChainedAuditSink.emit], on the body of the event. *)
Definition chained_record (sink : HashChainedAuditSink) (body : dict json) : LedgerRecord :=
  make_record (hs_key sink) (hs_next_seq sink) (hs_head_hash sink) body.

Definition chained_emit (sink : HashChainedAuditSink) (file : option string) (body : dict json) (o : os_outcome) :
  HashChainedAuditSink * option string * result unit :=
  let record := chained_record sink body in
  let payload := model_dump_json record +:+ String newline "" in
  let '(file, r) := append_payload (hs_fsync sink) file payload o in
  (match r with
   | Ok _ => MkHashChainedAuditSink (hs_key sink) (hs_fsync sink) (lr_seq record + 1)%Z (lr_hash record)
   | Raise _ => sink
   end, file, r).

(** [CompositeAuditSink.emit]: every sink is given the event; the errors are
    raised together. *)
Definition composite_emit {S} (sinks : list (S → S * result unit)) (s : S) : S * result unit :=
  let '(s, errors) := foldl (λ '(s, errors) sink, let '(s, r) := sink s in
                               (s, match r with Raise e => errors ++ [e] | Ok _ => errors end)) (s, []) sinks in
  (s, raise_if (negb (bool_decide (errors = []))) (BuiltinError "ExceptionGroup")).

(** * The life of a ledger file *)

(** One process after another appends to the file: it emits, or it is started
    again (and stays down when the constructor refuses). *)
Record ledger_world := MkLedgerWorld {
  lw_file : option string;
  lw_sink : option HashChainedAuditSink;
}.

Inductive ledger_op :=
| OpStart
| OpEmit (body : dict json) (o : os_outcome).

Section life.
Context (path : string) (key : option string) (fsync : bool).

Definition ledger_step (w : ledger_world) (op : ledger_op) : ledger_world :=
  match op, lw_sink w with
  | OpStart, _ =>
      MkLedgerWorld (lw_file w) (match open_chained path key fsync (lw_file w) with Ok s => Some s | Raise _ => None end)
  | OpEmit body o, Some sink =>
      let '(sink, file, _) := chained_emit sink (lw_file w) body o in MkLedgerWorld file (Some sink)
  | OpEmit _ _, None => w
  end.

Definition ledger_run (ops : list ledger_op) : ledger_world := foldl ledger_step (MkLedgerWorld None None) ops.

(** No write is cut short, and none fails after it was made. *)
Definition clean_op (op : ledger_op) : Prop :=
  match op with
  | OpStart => True
  | OpEmit body o =>
      json_ok (JObj body)
      ∧ match o with
        | Written short fsync_fails close_fails => short = None ∧ fsync && fsync_fails || close_fails = false
        | _ => True
        end
  end.

(** The bodies that reach the file. *)
Fixpoint persisted (w : ledger_world) (ops : list ledger_op) : list (dict json) :=
  match ops with
  | [] => []
  | op :: ops =>
      match op, lw_sink w with OpEmit body (Written _ _ _), Some _ => [body] | _, _ => [] end
      ++ persisted (ledger_step w op) ops
  end.
End life.

(** ** The text of a chain *)

Definition file_text (rs : list LedgerRecord) : string :=
  foldr (λ r t, (model_dump_json r +:+ String newline "") +:+ t) "" rs.

Lemma file_text_snoc rs r : file_text (rs ++ [r]) = file_text rs +:+ (model_dump_json r +:+ String newline "").
Proof.
  induction rs as [|x rs IH]; cbn [app file_text foldr]; [by rewrite string_app_nil_r|].
  fold (file_text (rs ++ [r])) (file_text rs). by rewrite IH, string_app_assoc.
Qed.

(** A line has no newline of either kind. *)
Lemma json_line_plain s : json_line s → string_forall (λ c, negb (bool_decide (c = newline)) && negb (bool_decide (c = carriage_return))) s = true.
Proof.
  intros (_ & Hs & _). revert Hs. apply string_forall_impl. intros c Hc. unfold any_character in Hc.
  apply andb_true_iff. split; apply negb_true_iff, bool_decide_eq_false; intros ->; done.
Qed.

Lemma json_line_not_empty s : json_line s → str_empty s = false.
Proof. intros ([mid ->] & _). done. Qed.

Lemma json_line_strip s : json_line s → strip s = s.
Proof. intros ([mid ->] & _). apply strip_braces. Qed.

Definition plain_line (s : string) : Prop :=
  string_forall (λ c, negb (bool_decide (c = newline)) && negb (bool_decide (c = carriage_return))) s = true.

Lemma segments_line line rest : plain_line line →
  segments (line +:+ String newline "" +:+ rest) = line :: segments rest.
Proof.
  unfold plain_line. intros Hl. unfold segments.
  enough (split_newline (line +:+ String newline "" +:+ rest) = (line, segments rest)) as -> by done.
  induction line as [|c line IH].
  - change ("" +:+ ?t) with t. change (String newline "" +:+ rest) with (String newline rest).
    cbn [split_newline]. unfold segments. by destruct (split_newline rest).
  - cbn in Hl. apply andb_true_iff in Hl as [[Hc _]%andb_true_iff Hl]. rewrite (string_app_cons c). cbn [split_newline].
    rewrite (IH Hl). apply negb_true_iff in Hc. by rewrite Hc.
Qed.

Lemma universal_line line rest : plain_line line →
  universal_newlines (line +:+ String newline "" +:+ rest) = line +:+ String newline "" +:+ universal_newlines rest.
Proof.
  unfold plain_line. intros Hl. induction line as [|c line IH]; [done|].
  cbn in Hl. apply andb_true_iff in Hl as [[_ Hc]%andb_true_iff Hl]. rewrite !(string_app_cons c).
  cbn [universal_newlines]. apply negb_true_iff in Hc. rewrite Hc. by rewrite IH.
Qed.

Lemma dumped_plain r : record_ok r → plain_line (model_dump_json r).
Proof. intros Hr. by apply json_line_plain, dumped_line. Qed.

Lemma file_segments rs : Forall record_ok rs → segments (file_text rs) = (model_dump_json <$> rs) ++ [""].
Proof.
  induction 1 as [|r rs Hr _ IH]; [done|]. cbn [file_text foldr]. fold (file_text rs).
  rewrite <- string_app_assoc, segments_line by by apply dumped_plain. by rewrite IH.
Qed.

Lemma file_universal rs : Forall record_ok rs → universal_newlines (file_text rs) = file_text rs.
Proof.
  induction 1 as [|r rs Hr _ IH]; [done|]. cbn [file_text foldr]. fold (file_text rs).
  rewrite <- string_app_assoc, universal_line by by apply dumped_plain. by rewrite IH.
Qed.

Lemma with_newlines_lines l : ∀ first others,
  first :: others = l ++ [""] → with_newlines first others = map (λ s, s +:+ String newline "") l.
Proof.
  induction l as [|x l IH]; intros first others Heq; cbn in Heq; simplify_eq; [done|].
  destruct l as [|y l]; cbn in *; simplify_eq; [done|]. f_equal. by apply IH.
Qed.

Lemma file_lines rs : Forall record_ok rs →
  iter_lines (file_text rs) = map (λ r, model_dump_json r +:+ String newline "") rs.
Proof.
  intros Hrs. unfold iter_lines. rewrite file_universal by done.
  pose proof (file_segments rs Hrs) as Hs. unfold segments in Hs. destruct (split_newline (file_text rs)) as [f o].
  cbn [fst snd] in Hs. rewrite (with_newlines_lines _ _ _ Hs). change (model_dump_json <$> rs) with (map model_dump_json rs).
  by rewrite map_map.
Qed.

Lemma file_backward rs : Forall record_ok rs → lines_backward (file_text rs) = reverse (model_dump_json <$> rs).
Proof.
  intros Hrs. unfold lines_backward, yielded. rewrite file_segments by done.
  rewrite filter_app. change (base.filter _ [""]) with (@nil string). rewrite app_nil_r.
  induction Hrs as [|r rs Hr _ IH]; [done|]. rewrite fmap_cons, filter_cons.
  pose proof (dumped_line r Hr) as Hline. rewrite decide_True by by apply json_line_not_empty.
  rewrite !reverse_cons, map_app, IH. f_equal. cbn. f_equal. apply Hline.
Qed.

Lemma file_records rs : Forall record_ok rs → load_records (iter_lines (file_text rs)) = Ok rs.
Proof.
  intros Hrs. rewrite file_lines by done. induction Hrs as [|r rs Hr _ IH]; [done|].
  cbn [map]. rewrite load_records_cons. pose proof (dumped_line r Hr) as Hline.
  assert (kind_of (model_dump_json r +:+ String newline "") = Parsed r) as ->.
  { unfold kind_of. change (String newline "") with (String (ascii_of_nat 10) "").
    rewrite strip_newline, json_line_strip by done. rewrite json_line_not_empty by done.
    by rewrite validate_dumped. }
  by rewrite IH.
Qed.
End sinks.

(** * A clean life leaves a chain *)

Section clean_life.
Context `{FT : FloatText} `{DG : Digest} `{HD : HmacDigest} `{LC : LedgerCodec}.
Context (path : string) (key : option string) (fsync : bool).

Definition sink_key : option string := match key with Some k => if str_empty k then None else Some k | None => None end.

Lemma digest_sink_key payload : digest sink_key payload = digest key payload.
Proof. unfold sink_key, digest. destruct key as [k|]; [|done]. destruct (str_empty k) eqn:E; [done|]. by rewrite E. Qed.

Lemma hex_text s : string_forall is_hex s = true → utf8_text s.
Proof. intros H. by apply ascii_text, is_hex_ascii. Qed.

(** The file holds the lines of a chain and the sink stands at its head. *)
Record at_head (rs : list LedgerRecord) (w : ledger_world) : Prop := {
  ah_chain : from_genesis key rs;
  ah_ok : Forall record_ok rs;
  ah_file : default "" (lw_file w) = file_text rs;
  ah_sink s : lw_sink w = Some s →
    hs_key s = sink_key ∧ hs_fsync s = fsync ∧ hs_next_seq s = Z.of_nat (length rs)
    ∧ hs_head_hash s = default GENESIS_PREV_HASH (head_of rs);
}.

Lemma head_is_hex rs : from_genesis key rs → string_forall is_hex (default GENESIS_PREV_HASH (head_of rs)) = true.
Proof.
  intros Hg. destruct rs as [|r rs _] using rev_ind; [done|]. apply from_genesis_snoc in Hg as (_ & Ha & _).
  unfold head_of. rewrite last_snoc. cbn. rewrite Ha. apply digest_hex.
Qed.

Lemma recover_head_spec rs file : from_genesis key rs → Forall record_ok rs → default "" file = file_text rs →
  ∀ seq head, recover_head file = Ok (seq, head) →
  seq = Z.of_nat (length rs) ∧ head = default GENESIS_PREV_HASH (head_of rs).
Proof.
  intros Hg Hrs Hf seq hd (last & Hlast & Hrec)%bind_ok. unfold read_last_line in Hlast.
  destruct file as [contents|]; cbn in Hf.
  - destruct (iter_lines_reverse _ _ _ contents) as [lines e] eqn:Hrun.
    apply iter_lines_reverse_spec in Hrun as (Hend & Hall & (rest & Hrest) & _); [|done].
    rewrite Hf, file_backward in Hall, Hrest by done.
    destruct rs as [|r rs _] using rev_ind.
    + destruct lines; [|done]. destruct e; by simplify_eq.
    + rewrite fmap_app, reverse_app in Hall, Hrest. cbn in Hall, Hrest. destruct lines as [|line lines].
      { destruct e; [by specialize (Hall eq_refl)|done|done]. }
      injection Hrest as <- _. injection Hlast as <-.
      rewrite validate_dumped in Hrec by by apply Forall_app in Hrs as [_ ?%Forall_cons]; naive_solver.
      injection Hrec as <- <-. apply from_genesis_snoc in Hg as (_ & _ & -> & _).
      unfold head_of. rewrite last_snoc, length_app. cbn. split; [lia|done].
  - injection Hlast as <-. injection Hrec as <- <-. destruct rs as [|r rs]; [done|].
    cbn in Hf. inversion_clear Hrs as [|? ? Hr _]. apply dumped_line in Hr as [[mid Heq] _]. by rewrite Heq in Hf.
Qed.

Lemma record_ok_intro r : (0 <= lr_seq r)%Z → utf8_text (lr_prev_hash r) → utf8_text (lr_hash r) →
  json_ok (JObj (lr_event r)) → record_ok r.
Proof.
  intros Hseq Hp Hh He. split; [done|]. split; [by apply (bool_decide_unpack _)|].
  repeat (split; [first [exact Hp|exact Hh|exact He|exact I|by apply ascii_text]|]). exact I.
Qed.

Lemma ledger_step_at_head rs w op : clean_op fsync op → at_head rs w →
  ∃ rs', at_head (rs ++ rs') (ledger_step path key fsync w op)
    ∧ lr_event <$> rs' = persisted path key fsync w [op].
Proof.
  intros Hop [Hg Hrs Hf Hs]. destruct op as [|body o]; cbn [ledger_step persisted].
  - exists []. rewrite app_nil_r. split; [|done]. split; cbn [lw_file lw_sink]; [done..|].
    intros s Hopen. destruct (open_chained path key fsync (lw_file w)) as [s'|] eqn:E; [|done]. injection Hopen as <-.
    apply bind_ok_unit in E as [_ E]. apply bind_ok in E as ([seq hd] & Hrec & [= <-]).
    apply (recover_head_spec rs) in Hrec as [-> ->]; done.
  - destruct (lw_sink w) as [sink|] eqn:Hsink; [|exists []; rewrite app_nil_r; split; [by split; rewrite ?Hsink|by destruct o]].
    destruct (Hs sink eq_refl) as (Hk & Hfs & Hseq & Hhead). destruct Hop as [Hbody Ho].
    set (record := chained_record sink body).
    assert (Hg' : from_genesis key (rs ++ [record])).
    { apply from_genesis_snoc. split_and!; [done| |done|done].
      unfold authentic, record, chained_record, make_record, record_hash, compute_record_hash. cbn.
      by rewrite Hk, digest_sink_key. }
    assert (Hok : record_ok record).
    { pose proof (head_is_hex rs Hg) as Hhex. rewrite <- Hhead in Hhex.
      apply record_ok_intro; cbn; [lia|by apply hex_text|apply hex_text, digest_hex|done]. }
    unfold chained_emit. fold record. rewrite Hfs. destruct o as [| |short ff cf]; cbn [append_payload].
    + exists []. rewrite app_nil_r. split; [|done]. split; cbn; [done..|]. by intros s [= <-].
    + exists []. rewrite app_nil_r. split; [|done]. split; cbn; [done..|]. by intros s [= <-].
    + destruct Ho as [-> Hlate]. rewrite Hlate. cbn [raise_if]. exists [record]. split; [|done].
      split; cbn [lw_file lw_sink default]; [done| | |].
      * by apply Forall_app_2; [|constructor].
      * by rewrite Hf, file_text_snoc.
      * intros s [= <-]. cbn. rewrite length_app. unfold head_of. rewrite last_snoc. cbn. split_and!; [done..| |done].
        rewrite Hseq. lia.
Qed.

Lemma ledger_run_at_head ops : ∀ rs w, Forall (clean_op fsync) ops → at_head rs w →
  ∃ rs', at_head (rs ++ rs') (foldl (ledger_step path key fsync) w ops)
    ∧ lr_event <$> rs' = persisted path key fsync w ops.
Proof.
  induction ops as [|op ops IH]; intros rs w Hops Hw.
  - exists []. by rewrite app_nil_r.
  - apply Forall_cons in Hops as [Hop Hops]. destruct (ledger_step_at_head rs w op Hop Hw) as (rs1 & Hw1 & He1).
    destruct (IH _ _ Hops Hw1) as (rs2 & Hw2 & He2). exists (rs1 ++ rs2). rewrite app_assoc. split; [done|].
    rewrite fmap_app, He1, He2. cbn [persisted]. by rewrite app_nil_r.
Qed.

Lemma fresh_at_head : at_head [] (MkLedgerWorld None None).
Proof. split; [split; [constructor|done]|constructor|done|done]. Qed.

(** C22. Written chains verify: whatever sequence of starts, emits, failed opens
    and failed writes a ledger file lives through (no write cut short, none
    failing after it was made), the file verifies, its records carry exactly the
    event bodies that were persisted, in order, and the running sink's position
    and head are those of the file, so the head it reports anchors it. *)
Theorem written_ledger_verifies ops :
  Forall (clean_op fsync) ops →
  let w := ledger_run path key fsync ops in
  let lines := iter_lines (default "" (lw_file w)) in
  ∃ rs, load_records lines = Ok rs
    ∧ lr_event <$> rs = persisted path key fsync (MkLedgerWorld None None) ops
    ∧ cv_ok (verify_chain key (head_of rs) lines) = true
    ∧ ∀ sink, lw_sink w = Some sink →
        hs_next_seq sink = Z.of_nat (length rs) ∧ hs_head_hash sink = default GENESIS_PREV_HASH (head_of rs).
Proof.
  intros Hops w lines. destruct (ledger_run_at_head ops [] _ Hops fresh_at_head) as (rs & [Hg Hrs Hf Hs] & He).
  cbn [app] in *. change (foldl _ _ ops) with w in *. unfold lines. rewrite Hf.
  pose proof (file_records rs Hrs) as Hload. exists rs. split_and!; [done..| |].
  - by eapply genesis_verifies.
  - intros sink Hsink. by destruct (Hs sink Hsink) as (_ & _ & ? & ?).
Qed.

(** C23. Restarting never forks a chain: over a file such a life left, with its
    lines and its length within the reader's limits, the constructor succeeds
    and stands exactly at the head. *)
Theorem restart_resumes ops :
  Forall (clean_op fsync) ops → str_empty (strip path) = false →
  let w := ledger_run path key fsync ops in
  let contents := default "" (lw_file w) in
  (Z.of_nat (String.length contents) ≤ DEFAULT_MAX_TOTAL_BYTES)%Z →
  Forall (λ l, (Z.of_nat (String.length l) ≤ DEFAULT_MAX_LINE_BYTES)%Z) (segments contents) →
  ∃ rs, load_records (iter_lines contents) = Ok rs
    ∧ open_chained path key fsync (lw_file w)
      = Ok (MkHashChainedAuditSink sink_key fsync (Z.of_nat (length rs)) (default GENESIS_PREV_HASH (head_of rs))).
Proof.
  intros Hops Hpath w contents Hlen Hall.
  destruct (ledger_run_at_head ops [] _ Hops fresh_at_head) as (rs & [Hg Hrs Hf Hs] & He).
  cbn [app] in *. change (foldl _ _ ops) with w in *. exists rs. split; [unfold contents; rewrite Hf; by apply file_records|].
  unfold open_chained. rewrite Hpath. cbn [raise_if mbind result_bind].
  destruct (recover_head (lw_file w)) as [[seq hd]|e] eqn:Hrec.
  { by apply (recover_head_spec rs) in Hrec as [-> ->]. }
  exfalso. unfold recover_head, read_last_line in Hrec. destruct (lw_file w) as [file|] eqn:Hfile; [|done].
  assert (Htext : file = file_text rs) by exact Hf. change contents with file in Hlen, Hall.
  destruct (iter_lines_reverse _ _ _ file) as [lines e'] eqn:Hrun.
  apply iter_lines_reverse_spec in Hrun as (_ & Hcomplete & (rest & Hrest) & Hfull); [|done].
  rewrite (Hfull Hlen Hall) in Hrec. rewrite Htext, file_backward in Hrest by done.
  destruct lines as [|line lines]; [done|]. clear Hf Htext He Hs Hg. destruct rs as [|r rs _] using rev_ind; [done|].
  rewrite fmap_app, reverse_app in Hrest. injection Hrest as <- _. cbn [mbind result_bind] in Hrec.
  rewrite validate_dumped in Hrec; [done|]. by apply Forall_app in Hrs as [_ ?%Forall_cons]; naive_solver.
Qed.
End clean_life.
