(* ===== verification/Worm.v ===== *)
(** [audit/worm_sink.py]: the bounded buffer in front of the write-once archive,
    the flush that turns a batch into a segment, and what becomes of an event. *)
From Stdlib Require Import Ascii.
From S2P Require Export AuditSinks.

(** * The buffer *)

Section buffer.
Context {E : Type}.

(** [InProcessWormEventBuffer], with the events it has dropped counted. *)
Record WormBuffer := MkWormBuffer {
  wb_max_size : Z;
  wb_events : list E;
  wb_dropped : Z;
}.

Definition full (b : WormBuffer) : bool := (wb_max_size b <=? Z.of_nat (length (wb_events b)))%Z.

(** [popleft] of an empty deque raises. *)
Definition enqueue (b : WormBuffer) (e : E) : result WormBuffer :=
  if full b then
    match wb_events b with
    | [] => Raise (BuiltinError "IndexError")
    | _ :: rest => Ok (MkWormBuffer (wb_max_size b) (rest ++ [e]) (wb_dropped b + 1)%Z)
    end
  else Ok (MkWormBuffer (wb_max_size b) (wb_events b ++ [e]) (wb_dropped b)).

Definition requeue_one (b : WormBuffer) (e : E) : WormBuffer :=
  if full b then MkWormBuffer (wb_max_size b) (wb_events b) (wb_dropped b + 1)%Z
  else MkWormBuffer (wb_max_size b) (e :: wb_events b) (wb_dropped b).

Definition requeue_front (b : WormBuffer) (events : list E) : WormBuffer :=
  foldl requeue_one b (reverse events).

Definition drain (b : WormBuffer) : list E * WormBuffer :=
  (wb_events b, MkWormBuffer (wb_max_size b) [] (wb_dropped b)).

(** * The monitor *)

(** [flush_once] in two halves, around the PUT it awaits; [wm_lost] are batches
    of a flush that raised before its PUT. *)
Record WormMonitor := MkWormMonitor {
  wm_retention_days : Z;
  wm_buffer : WormBuffer;
  wm_in_flight : option (list E);
  wm_archive : list (list E);
  wm_lost : list E;
  wm_flush_failures : Z;
}.

(** [date.max.toordinal()]: [now + timedelta(days=...)] past it overflows. *)
Definition MAX_ORDINAL : Z := 3652059.

Definition flush_start (m : WormMonitor) (today : Z) : WormMonitor :=
  let '(drained, buffer) := drain (wm_buffer m) in
  if bool_decide (length drained = 0) then m
  else if (MAX_ORDINAL <? today + wm_retention_days m)%Z
  then MkWormMonitor (wm_retention_days m) buffer None (wm_archive m) (wm_lost m ++ drained)
         (wm_flush_failures m + 1)%Z
  else MkWormMonitor (wm_retention_days m) buffer (Some drained) (wm_archive m) (wm_lost m) (wm_flush_failures m).

Definition flush_end (m : WormMonitor) (drained : list E) (put : bool) : WormMonitor :=
  if put
  then MkWormMonitor (wm_retention_days m) (wm_buffer m) None (wm_archive m ++ [drained]) (wm_lost m)
         (wm_flush_failures m)
  else MkWormMonitor (wm_retention_days m) (requeue_front (wm_buffer m) drained) None (wm_archive m) (wm_lost m)
         (wm_flush_failures m + 1)%Z.

(** What may happen next: an event is emitted, the timer (or [stop]) flushes, the
    PUT of the flush under way returns. Flushes do not overlap. *)
Inductive worm_event :=
| EvEmit (e : E)
| EvFlush (today : Z)
| EvPut (ok : bool).

Definition worm_step (m : WormMonitor) (ev : worm_event) : option WormMonitor :=
  match ev, wm_in_flight m with
  | EvEmit e, _ =>
      match enqueue (wm_buffer m) e with
      | Ok b => Some (MkWormMonitor (wm_retention_days m) b (wm_in_flight m) (wm_archive m) (wm_lost m)
                        (wm_flush_failures m))
      | Raise _ => None
      end
  | EvFlush today, None => Some (flush_start m today)
  | EvPut ok, Some drained => Some (flush_end m drained ok)
  | _, _ => None
  end.

Fixpoint worm_run (m : WormMonitor) (evs : list worm_event) : option WormMonitor :=
  match evs with [] => Some m | ev :: evs => m ← worm_step m ev; worm_run m evs end.

Definition fresh_monitor (max_size retention_days : Z) : WormMonitor :=
  MkWormMonitor retention_days (MkWormBuffer max_size [] 0) None [] [] 0.

(** ** Every event is accounted for *)

Definition emitted (evs : list worm_event) : list E :=
  flat_map (λ ev, match ev with EvEmit e => [e] | _ => [] end) evs.

(** The events held, oldest first. *)
Definition held (m : WormMonitor) : list E :=
  concat (wm_archive m) ++ default [] (wm_in_flight m) ++ wb_events (wm_buffer m).

Record monitor_ok (max_size : Z) (m : WormMonitor) (sent : list E) : Prop := {
  mo_max : wb_max_size (wm_buffer m) = max_size;
  mo_bound : (Z.of_nat (length (wb_events (wm_buffer m))) ≤ max_size)%Z;
  mo_order : held m `sublist_of` sent;
  mo_count : Z.of_nat (length sent)
    = (Z.of_nat (length (held m)) + Z.of_nat (length (wm_lost m)) + wb_dropped (wm_buffer m))%Z;
}.

Lemma requeue_spec events : ∀ b, (Z.of_nat (length (wb_events b)) ≤ wb_max_size b)%Z →
  let b' := requeue_front b events in
  ∃ lost kept, events = lost ++ kept ∧ wb_events b' = kept ++ wb_events b
    ∧ wb_max_size b' = wb_max_size b ∧ wb_dropped b' = (wb_dropped b + Z.of_nat (length lost))%Z
    ∧ (Z.of_nat (length (wb_events b')) ≤ wb_max_size b)%Z
    ∧ (lost = [] ∨ full b' = true).
Proof.
  unfold requeue_front. induction events as [|e events IH]; intros b Hb; cbv zeta.
  - exists [], []. cbn. split_and!; try done; [lia|by left].
  - rewrite reverse_cons, foldl_app. cbn [foldl]. destruct (IH b Hb) as (lost & kept & Hk & He & Hm & Hd & Hl & Hall).
    set (b' := foldl requeue_one b (reverse events)) in *. unfold requeue_one. destruct (full b') eqn:Hf.
    + exists (e :: lost), kept. cbn [wb_events wb_max_size wb_dropped length]. rewrite Hk, Hd. split_and!; try done; [lia|].
      right. exact Hf.
    + destruct Hall as [->|?]; [|congruence]. exists [], (e :: kept). unfold full in Hf. apply Z.leb_gt in Hf. rewrite Hm in Hf.
      cbn [wb_events wb_max_size wb_dropped length]. split_and!; [by rewrite Hk|by rewrite He|done|exact Hd|lia|by left].
Qed.

Lemma enqueue_spec b e b' : enqueue b e = Ok b' → (Z.of_nat (length (wb_events b)) ≤ wb_max_size b)%Z →
  ∃ lost kept, wb_events b = lost ++ kept ∧ wb_events b' = kept ++ [e] ∧ wb_max_size b' = wb_max_size b
    ∧ wb_dropped b' = (wb_dropped b + Z.of_nat (length lost))%Z
    ∧ (Z.of_nat (length (wb_events b')) ≤ wb_max_size b)%Z.
Proof.
  unfold enqueue, full. intros Hrun Hb.
  destruct (Z.leb_spec (wb_max_size b) (Z.of_nat (length (wb_events b)))) as [Hf|Hf].
  - destruct (wb_events b) as [|x rest]; [done|]. injection Hrun as <-. exists [x], rest. cbn in *.
    rewrite length_app. cbn. split_and!; try done; lia.
  - injection Hrun as <-. exists [], (wb_events b). cbn. rewrite length_app. cbn. split_and!; try done; lia.
Qed.

(** An accounting step: [held] and the lost may change as long as order and
    number add up. *)
Lemma sublist_middle (a b c d s : list E) : a ++ (b ++ c) ++ d `sublist_of` s → a ++ c ++ d `sublist_of` s.
Proof.
  intros H. etransitivity; [|exact H]. apply sublist_app; [done|]. apply sublist_app; [|done].
  apply sublist_inserts_l. done.
Qed.

Lemma worm_step_ok max_size m sent ev m' : monitor_ok max_size m sent → worm_step m ev = Some m' →
  monitor_ok max_size m' (sent ++ emitted [ev]).
Proof.
  intros [Hmax Hb Ho Hc] Hstep. unfold held in *. destruct ev as [e|today|ok]; cbn [emitted flat_map app]; rewrite ?app_nil_r.
  - unfold worm_step in Hstep. destruct (enqueue (wm_buffer m) e) as [b|] eqn:Henq; [|done]. injection Hstep as <-.
    apply enqueue_spec in Henq as (lost & kept & Hk & He & Hm & Hd & Hl); [|by rewrite Hmax].
    split; cbn [wm_buffer wm_in_flight wm_archive wm_lost held]; [congruence|congruence| |].
    + unfold held. cbn [wm_buffer wm_in_flight wm_archive]. rewrite He, !app_assoc. apply sublist_app; [|done].
      rewrite <- app_assoc. rewrite Hk in Ho. rewrite <- (app_nil_r (lost ++ kept)) in Ho.
      rewrite app_assoc in Ho. apply sublist_middle in Ho. by rewrite app_nil_r, <- app_assoc in Ho.
    + unfold held. cbn [wm_buffer wm_in_flight wm_archive]. rewrite He, Hd, Hk in *. rewrite !length_app in *. cbn. lia.
  - cbn [worm_step] in Hstep. destruct (wm_in_flight m) as [?|] eqn:Hf; [done|]. injection Hstep as <-.
    unfold flush_start. cbn [drain]. case_bool_decide as Hz; [by split; unfold held; rewrite ?Hf|].
    rewrite !length_app in Hc. cbn [default app length] in *.
    destruct (Z.ltb_spec MAX_ORDINAL (today + wm_retention_days m)); (split; unfold held;
      cbn [wm_buffer wm_in_flight wm_archive wm_lost wb_events wb_max_size wb_dropped default id];
      [done|cbn [length]; lia| |rewrite !length_app; cbn [length]; lia]).
    + cbn [app]. etransitivity; [|exact Ho]. rewrite app_nil_r. by apply sublist_inserts_r.
    + by rewrite app_nil_r.
  - cbn [worm_step] in Hstep. destruct (wm_in_flight m) as [drained|] eqn:Hf; [|done]. injection Hstep as <-.
    cbn [default id] in *. unfold flush_end. destruct ok; cbn [wm_buffer wm_in_flight wm_archive wm_lost].
    + split; unfold held; cbn [wm_buffer wm_in_flight wm_archive wm_lost default id]; [done|done| |].
      * by rewrite concat_app, <- app_assoc; cbn; rewrite app_nil_r.
      * rewrite concat_app, !length_app in *. cbn in *. rewrite app_nil_r. lia.
    + destruct (requeue_spec drained (wm_buffer m)) as (lost & kept & Hk & He & Hm & Hd & Hl & _); [by rewrite Hmax|].
      split; unfold held; cbn [wm_buffer wm_in_flight wm_archive wm_lost default id]; [congruence|congruence| |].
      * rewrite He. rewrite Hk in Ho. by apply sublist_middle in Ho.
      * rewrite He, Hd, Hk in *. rewrite !length_app in *. cbn. lia.
Qed.

Lemma worm_run_ok max_size evs : ∀ m sent m', monitor_ok max_size m sent → worm_run m evs = Some m' →
  monitor_ok max_size m' (sent ++ emitted evs).
Proof.
  induction evs as [|ev evs IH]; intros m sent m' Hm Hrun.
  - injection Hrun as <-. by rewrite app_nil_r.
  - cbn [worm_run] in Hrun. apply bind_Some in Hrun as (m1 & Hstep & Hrun).
    pose proof (worm_step_ok _ _ _ _ _ Hm Hstep) as H1. specialize (IH _ _ _ H1 Hrun).
    unfold emitted in *. cbn [flat_map app] in *. by rewrite app_nil_r, <- app_assoc in IH.
Qed.

Lemma fresh_ok max_size days : (0 <= max_size)%Z → monitor_ok max_size (fresh_monitor max_size days) [].
Proof. by split. Qed.

Lemma emit_accepted max_size m sent e : (1 <= max_size)%Z → monitor_ok max_size m sent →
  is_Some (worm_step m (EvEmit e)).
Proof.
  intros Hmax [Hm _ _ _]. cbn [worm_step]. unfold enqueue, full. rewrite Hm.
  destruct (Z.leb_spec max_size (Z.of_nat (length (wb_events (wm_buffer m))))) as [Hf|Hf]; [|by eexists].
  destruct (wb_events (wm_buffer m)) as [|x rest]; [cbn in Hf; lia|by eexists].
Qed.

(** The retention date of every flush exists. *)
Definition dates_exist (days : Z) (evs : list worm_event) : Prop :=
  ∀ today, EvFlush today ∈ evs → (today + days ≤ MAX_ORDINAL)%Z.

Lemma worm_run_lost days evs : ∀ m m', wm_retention_days m = days → dates_exist days evs → wm_lost m = [] →
  worm_run m evs = Some m' → wm_lost m' = [].
Proof.
  induction evs as [|ev evs IH]; intros m m' Hd Hev Hl Hrun; [by injection Hrun as <-|].
  cbn [worm_run] in Hrun. apply bind_Some in Hrun as (m1 & Hstep & Hrun).
  assert (Hrest : dates_exist days evs) by (intros today Hin; apply Hev; by right).
  assert (wm_retention_days m1 = days ∧ wm_lost m1 = []) as [Hd1 Hl1]; [|by eapply IH].
  destruct ev as [e|today|ok]; cbn [worm_step] in Hstep.
  - destruct (enqueue (wm_buffer m) e); [|done]. by injection Hstep as <-.
  - destruct (wm_in_flight m); [done|]. injection Hstep as <-. unfold flush_start. cbn [drain].
    case_bool_decide; [done|]. rewrite Hd. rewrite (proj2 (Z.ltb_ge _ _)); [done|]. apply Hev. by left.
  - destruct (wm_in_flight m); [|done]. injection Hstep as <-. unfold flush_end. by destruct ok.
Qed.

(** C25. Every event is accounted for: in any order of emits, flushes and failing
    or succeeding PUTs, the buffer stays within its size and takes every emit;
    what is archived, in flight and buffered is, oldest first, a subsequence of
    what was emitted; and every other event was counted as dropped, or was in a
    batch lost to a flush whose retention date overflows, of which there are
    none while dates exist. *)
Theorem archive_accounts_for_every_event max_size days evs m :
  (1 <= max_size)%Z → worm_run (fresh_monitor max_size days) evs = Some m →
  (Z.of_nat (length (wb_events (wm_buffer m))) ≤ max_size)%Z
  ∧ (∀ e, is_Some (worm_step m (EvEmit e)))
  ∧ held m `sublist_of` emitted evs
  ∧ Z.of_nat (length (emitted evs))
    = (Z.of_nat (length (held m)) + Z.of_nat (length (wm_lost m)) + wb_dropped (wm_buffer m))%Z
  ∧ (dates_exist days evs → wm_lost m = []).
Proof.
  intros Hmax Hrun. pose proof (worm_run_ok max_size evs _ [] m (fresh_ok max_size days ltac:(lia)) Hrun) as Hm.
  cbn [app] in Hm. pose proof (λ e, emit_accepted max_size m _ e Hmax Hm) as Hacc. destruct Hm as [Hm1 Hm2 Hm3 Hm4].
  split_and!; [done..|]. intros Hd. by apply (worm_run_lost days evs (fresh_monitor max_size days)).
Qed.
End buffer.
Arguments WormBuffer : clear implicits.
Arguments WormMonitor : clear implicits.
Arguments worm_event : clear implicits.

(** * Segments *)

Section segments.
Context `{FT : FloatText} `{DG : Digest} `{HD : HmacDigest} `{LC : LedgerCodec}.

(** The records of one segment, from their bodies. *)
Fixpoint segment_records (key : option string) (seq : Z) (prev_hash : string) (bodies : list (dict json)) :
  list LedgerRecord :=
  match bodies with
  | [] => []
  | body :: bodies =>
      let record := make_record key seq prev_hash body in
      record :: segment_records key (seq + 1)%Z (lr_hash record) bodies
  end.

(** ["\n".join(lines) + "\n"]. *)
Definition build_segment_body (key : option string) (bodies : list (dict json)) : string :=
  String.concat (String newline "") (map model_dump_json (segment_records key 0 GENESIS_PREV_HASH bodies))
  +:+ String newline "".

Lemma concat_newlines rs : rs ≠ [] →
  String.concat (String newline "") (map model_dump_json rs) +:+ String newline "" = file_text rs.
Proof.
  induction rs as [|r rs IH]; [done|]. intros _. destruct rs as [|r' rs].
  - cbn [map String.concat file_text foldr]. by rewrite string_app_nil_r.
  - change (String.concat ?s (map ?f (r :: r' :: rs))) with (f r +:+ s +:+ String.concat s (map f (r' :: rs))).
    cbn [file_text foldr]. fold (file_text rs). change ((model_dump_json r' +:+ String newline "") +:+ file_text rs)
      with (file_text (r' :: rs)). rewrite <- IH by done. by rewrite !string_app_assoc.
Qed.

Lemma segment_chain key bodies : ∀ rs, from_genesis key rs → Forall record_ok rs → Forall (λ b, json_ok (JObj b)) bodies →
  let new := segment_records key (Z.of_nat (length rs)) (default GENESIS_PREV_HASH (head_of rs)) bodies in
  from_genesis key (rs ++ new) ∧ Forall record_ok (rs ++ new) ∧ lr_event <$> new = bodies.
Proof.
  induction bodies as [|body bodies IH]; intros rs Hg Hrs Hb; cbv zeta; [by rewrite app_nil_r|].
  cbn [segment_records]. set (record := make_record _ _ _ body). apply Forall_cons in Hb as [Hbody Hb].
  assert (Hg' : from_genesis key (rs ++ [record])) by by apply from_genesis_snoc.
  assert (Hok : record_ok record).
  { apply record_ok_intro; cbn; [lia|by eapply hex_text, head_is_hex|apply hex_text, digest_hex|done]. }
  destruct (IH (rs ++ [record])) as (H1 & H2 & H3); [done|by apply Forall_app_2; [|constructor]|done|].
  unfold head_of in *. rewrite last_snoc, length_app in *. cbn [length default fmap option_fmap option_map] in *.
  replace (Z.of_nat (length rs + 1)) with (Z.of_nat (length rs) + 1)%Z in * by lia.
  rewrite <- app_assoc in H1, H2. split_and!; [done..|]. cbn. by f_equal.
Qed.

(** Every archived segment is a chain of its own: the body built from a
    non-empty batch verifies from the genesis record under the monitor's key,
    and its records carry the batch's event bodies in order. *)
Theorem segment_verifies key bodies :
  bodies ≠ [] → Forall (λ b, json_ok (JObj b)) bodies →
  let lines := iter_lines (build_segment_body key bodies) in
  ∃ rs, load_records lines = Ok rs ∧ lr_event <$> rs = bodies
    ∧ cv_ok (verify_chain key (head_of rs) lines) = true
    ∧ cv_records_checked (verify_chain key (head_of rs) lines) = Z.of_nat (length bodies).
Proof.
  intros Hne Hb lines. destruct (segment_chain key bodies []) as (Hg & Hrs & He); [by split; [constructor|]|constructor|done|].
  cbn [app length] in *. set (rs := segment_records key (Z.of_nat 0) _ bodies) in *.
  assert (Hlines : lines = iter_lines (file_text rs)).
  { unfold lines, build_segment_body. rewrite concat_newlines; [done|]. intros Heq. apply Hne.
    by rewrite <- He; change rs with (segment_records key 0 GENESIS_PREV_HASH bodies); rewrite Heq. }
  pose proof (file_records rs Hrs) as Hload. rewrite <- Hlines in Hload.
  assert (Hok : cv_ok (verify_chain key (head_of rs) lines) = true) by by eapply genesis_verifies.
  exists rs. split_and!; [done..|].
  rewrite (verify_chain_counts _ _ _ rs Hload Hok), <- He. by rewrite length_fmap.
Qed.
End segments.
