(* ===== verification/LedgerSample.v ===== *)
(** A concrete ledger codec and keyed digest, on which the theorems of the audit
    ledger, its sinks and its archive are run; and what a failing [fsync] does. *)
From Stdlib Require Import Ascii.

From S2P Require Export Worm.

(** * A codec *)

(** Records in braces, as the binary digits of their code. *)
Fixpoint bits (p : positive) : string :=
  match p with xH => "}" | xO p => String "0" (bits p) | xI p => String "1" (bits p) end.

Fixpoint of_bits (s : string) : option positive :=
  match s with
  | EmptyString => None
  | String c s =>
      if bool_decide (c = "0"%char) then xO <$> of_bits s
      else if bool_decide (c = "1"%char) then xI <$> of_bits s
      else if bool_decide (String c s = "}") then Some xH else None
  end.

Lemma of_bits_bits p : of_bits (bits p) = Some p.
Proof. induction p as [p IH|p IH|]; cbn; rewrite ?IH; done. Qed.

Definition sample_dump (r : LedgerRecord) : string := "{" +:+ bits (encode (record_json r)).

Definition record_of_json (v : json) : option LedgerRecord :=
  match v with
  | JObj [("seq", JInt seq); ("prev_hash", JStr prev); ("event", JObj event); ("hash", JStr hash)] =>
      if (0 <=? seq)%Z then Some (MkLedgerRecord seq prev event hash) else None
  | _ => None
  end.

Definition sample_validate (s : string) : option LedgerRecord :=
  match s with
  | String c s => if bool_decide (c = "{"%char) then p ← of_bits s; v ← (decode p : option json); record_of_json v else None
  | EmptyString => None
  end.

Lemma record_of_own r : record_ok r → record_of_json (record_json r) = Some r.
Proof. intros [Hs _]. cbn. rewrite (proj2 (Z.leb_le _ _)) by done. by destruct r. Qed.

Lemma sample_validate_dump r : record_ok r → sample_validate (sample_dump r) = Some r.
Proof.
  intros Hr. transitivity (p ← of_bits (bits (encode (record_json r))); v ← (decode p : option json); record_of_json v);
    [reflexivity|].
  rewrite of_bits_bits. cbn [mbind option_bind]. rewrite decode_encode. by apply record_of_own.
Qed.

Lemma bits_braces p : ∃ mid, bits p = mid +:+ "}".
Proof.
  induction p as [p [mid IH]|p [mid IH]|]; [exists (String "1" mid)|exists (String "0" mid)|by exists ""];
    cbn [bits]; by rewrite IH.
Qed.

Lemma bits_forall f p : f "0"%char = true → f "1"%char = true → f "}"%char = true → string_forall f (bits p) = true.
Proof. intros H0 H1 H2. induction p as [p IH|p IH|]; cbn; by rewrite ?IH, ?H0, ?H1, ?H2. Qed.

Lemma sample_line r : json_line (sample_dump r).
Proof.
  unfold sample_dump. split_and!.
  - destruct (bits_braces (encode (record_json r))) as [mid ->]. by exists mid.
  - rewrite string_forall_app. by apply andb_true_iff; split; [|apply bits_forall].
  - apply ascii_text. unfold isascii. rewrite string_forall_app. by apply andb_true_iff; split; [|apply bits_forall].
Qed.

Definition sample_codec : LedgerCodec := {|
  model_validate_json := sample_validate;
  model_validate := record_of_json;
  model_dump_json := sample_dump;
  dumped_line r _ := sample_line r;
  validate_dumped := sample_validate_dump;
  validate_own := record_of_own;
|}.

(** The checksum of the key and the text. *)
Definition sample_hmac : HmacDigest := {|
  hmac_sha256_hexdigest key payload := checksum_text (key +:+ payload) 11;
  hmac_hex key payload := checksum_hex (key +:+ payload) 11;
|}.

#[local] Existing Instances sample_floats sample_digest sample_hmac sample_codec.

(** * A ledger of three events *)

Definition event_body (id : string) : dict json := [("event_id", JStr id)].
Definition whole : os_outcome := Written None false false.
Definition sample_ops : list ledger_op :=
  [OpStart; OpEmit (event_body "a") whole; OpEmit (event_body "b") WriteFails; OpStart; OpEmit (event_body "c") whole].
Definition sample_key : option string := Some "k".
Definition sample_world : ledger_world := ledger_run "audit.jsonl" sample_key true sample_ops.
Definition sample_lines : list string := iter_lines (default "" (lw_file sample_world)).

Lemma body_ok id : isascii id = true → json_ok (JObj (event_body id)).
Proof.
  intros H. split; [by apply (bool_decide_unpack _)|]. split; [by apply ascii_text|]. split; [by apply ascii_text|done].
Qed.

Lemma sample_ops_clean : Forall (clean_op true) sample_ops.
Proof.
  apply Forall_cons_2; [done|]. apply Forall_cons_2; [split; [by apply body_ok|by split]|].
  apply Forall_cons_2; [split; [by apply body_ok|done]|]. apply Forall_cons_2; [done|].
  apply Forall_cons_2; [split; [by apply body_ok|by split]|]. constructor.
Qed.

Lemma written_ledger_verifies_witness :
  ∃ rs, load_records sample_lines = Ok rs ∧ lr_event <$> rs = [event_body "a"; event_body "c"]
    ∧ cv_ok (verify_chain sample_key (head_of rs) sample_lines) = true.
Proof.
  destruct (written_ledger_verifies "audit.jsonl" sample_key true sample_ops sample_ops_clean) as (rs & Hload & He & Hok & _).
  exists rs. split; [exact Hload|]. split; [|exact Hok]. rewrite He. vm_compute. reflexivity.
Defined.

Lemma sample_sizes :
  let contents := default "" (lw_file (ledger_run "audit.jsonl" sample_key true sample_ops)) in
  (Z.of_nat (String.length contents) ≤ DEFAULT_MAX_TOTAL_BYTES)%Z
  ∧ Forall (λ l, (Z.of_nat (String.length l) ≤ DEFAULT_MAX_LINE_BYTES)%Z) (segments contents).
Proof. split; [|apply (bool_decide_unpack _)]; vm_compute; done. Qed.

Lemma restart_resumes_witness :
  ∃ rs, load_records sample_lines = Ok rs
    ∧ open_chained "audit.jsonl" sample_key true (lw_file sample_world)
      = Ok (MkHashChainedAuditSink sample_key true (Z.of_nat (length rs)) (default GENESIS_PREV_HASH (head_of rs))).
Proof.
  destruct (restart_resumes "audit.jsonl" sample_key true sample_ops sample_ops_clean) as (rs & Hload & Hopen).
  - reflexivity.
  - exact (proj1 sample_sizes).
  - exact (proj2 sample_sizes).
  - exists rs. split; [exact Hload|]. change (sink_key sample_key) with sample_key in Hopen. exact Hopen.
Defined.

Definition or_none {A} (r : result (list A)) : list A := match r with Ok l => l | Raise _ => [] end.
Definition sample_records : list LedgerRecord := or_none (load_records sample_lines).

Lemma verify_chain_exact_witness :
  cv_records_checked (verify_chain sample_key None sample_lines) = 2%Z.
Proof.
  destruct (verify_chain_exact sample_key None sample_lines) as [_ H].
  destruct (H sample_records) as [H2 _]; [vm_compute; reflexivity|vm_compute; reflexivity|].
  rewrite H2. vm_compute. reflexivity.
Defined.

(** The second record with another event: the break is on line two. *)
Definition edit (rs : list LedgerRecord) : list string :=
  match rs with
  | [r1; r2] => [model_dump_json r1; model_dump_json (MkLedgerRecord (lr_seq r2) (lr_prev_hash r2) (event_body "x") (lr_hash r2))]
  | _ => []
  end.
Definition edited_lines : list string := edit sample_records.

Lemma broken_chain_localised_witness :
  cv_broken_at_line (verify_chain sample_key None edited_lines) = Some 2%Z
  ∧ cv_ok (verify_chain sample_key None (take 1 edited_lines)) = true.
Proof.
  assert (Hbad : cv_ok (verify_chain sample_key None edited_lines) = false) by (vm_compute; reflexivity).
  assert (Hline : cv_broken_at_line (verify_chain sample_key None edited_lines) = Some 2%Z) by (vm_compute; reflexivity).
  split; [exact Hline|].
  pose proof (broken_chain_localised sample_key None edited_lines Hbad) as H. cbv zeta in H. rewrite Hline in H.
  destruct H as [(l & H1 & _ & H2 & _)|(_ & _ & H)]; [|by destruct H].
  injection H1 as H1. assert (l = 1) as -> by lia. exact H2.
Defined.

(** The same file with blank lines: the same chain. *)
Lemma tampering_shows_witness :
  Forall2 same_record sample_records sample_records ∨ digest_collision sample_key.
Proof.
  apply (tampering_shows sample_key (default "" (head_of sample_records)) sample_lines ("" :: sample_lines));
    vm_compute; reflexivity.
Defined.

Lemma receipt_sound_witness :
  ∃ rc, extract_receipt_for_event_id sample_lines "c" true = Some rc ∧ verify_receipt rc sample_key = true
    ∧ rc_seq rc = 1%Z.
Proof.
  destruct (extract_receipt_for_event_id sample_lines "c" true) as [rc|] eqn:E; [|vm_compute in E; discriminate E].
  exists rc. split; [reflexivity|].
  destruct (receipt_sound sample_key None sample_lines sample_records "c" rc) as (_ & H & _);
    [vm_compute; reflexivity|vm_compute; reflexivity|].
  split; [exact (H E)|]. vm_compute in E. injection E as <-. vm_compute. reflexivity.
Defined.

(** * A segment and the archive *)

Lemma segment_verifies_witness :
  ∃ rs, load_records (iter_lines (build_segment_body None [event_body "a"; event_body "b"])) = Ok rs
    ∧ lr_event <$> rs = [event_body "a"; event_body "b"].
Proof.
  destruct (segment_verifies None [event_body "a"; event_body "b"]) as (rs & Hload & He & _).
  - discriminate.
  - apply Forall_cons_2; [by apply body_ok|]. apply Forall_cons_2; [by apply body_ok|constructor].
  - exists rs. split; [exact Hload|exact He].
Defined.

(** A buffer of two, an outage, and three emits: the oldest event is dropped. *)
Definition outage : list (worm_event string) :=
  [EvEmit "a"; EvFlush 739000; EvEmit "b"; EvEmit "c"; EvPut false; EvFlush 739000; EvPut true].

Lemma archive_accounts_for_every_event_witness :
  ∃ m, worm_run (fresh_monitor 2 180) outage = Some m ∧ wm_archive m = [["b"; "c"]] ∧ wb_dropped (wm_buffer m) = 1%Z
    ∧ held m `sublist_of` ["a"; "b"; "c"].
Proof.
  destruct (worm_run (fresh_monitor 2 180) outage) as [m|] eqn:E; [|vm_compute in E; discriminate E].
  exists m. split; [reflexivity|].
  destruct (archive_accounts_for_every_event 2 180 outage m) as (_ & _ & Hs & _); [lia|exact E|].
  vm_compute in E. injection E as <-. split; [reflexivity|]. split; [reflexivity|exact Hs].
Defined.

(** * Counterexamples *)

(** [flush_once] drains the buffer before it computes the retention date, outside
    the [try] that puts a failed batch back: with a retention that overflows the
    calendar, which the configuration admits, every batch is lost, uncounted. *)
Theorem flush_error_loses_the_batch :
  ∃ m, worm_run (fresh_monitor 2 3000000) [EvEmit "a"; EvFlush 739000; EvEmit "b"; EvFlush 739060] = Some m
    ∧ held m = [] ∧ wm_lost m = ["a"; "b"] ∧ wb_dropped (wm_buffer m) = 0%Z.
Proof. eexists. split; [vm_compute; reflexivity|]. repeat split. Qed.

(** An [fsync] that fails comes after the record is in the file, and the head is
    not advanced: the next event is written under the same number and link, and
    the file no longer verifies. *)
Definition failed_fsync_ops : list ledger_op :=
  [OpStart; OpEmit (event_body "a") (Written None true false); OpEmit (event_body "b") whole].

Theorem failed_fsync_forks_the_chain :
  let w := ledger_run "audit.jsonl" sample_key true failed_fsync_ops in
  let res := verify_chain sample_key None (iter_lines (default "" (lw_file w))) in
  cv_ok res = false ∧ cv_records_checked res = 1%Z
  ∧ cv_reason res = Some "sequence gap: expected 1, found 0".
Proof. vm_compute. done. Qed.

(** A write that stops short is taken for a whole one: the torn line and the next
    record run together. *)
Theorem short_write_tears_the_chain :
  let w := ledger_run "audit.jsonl" sample_key true
             [OpStart; OpEmit (event_body "a") (Written (Some 10) false false); OpEmit (event_body "b") whole] in
  let res := verify_chain sample_key None (iter_lines (default "" (lw_file w))) in
  hs_next_seq <$> lw_sink w = Some 2%Z ∧ cv_ok res = false ∧ cv_broken_at_line res = Some 1%Z.
Proof. vm_compute. done. Qed.

(** A line of spaces is not skipped, so a ledger that ends in one cannot be
    resumed, though it verifies. *)
Theorem blank_last_line_stops_the_sink :
  let spaced := default "" (lw_file sample_world) +:+ "  " in
  cv_ok (verify_chain sample_key None (iter_lines spaced)) = true
  ∧ open_chained "audit.jsonl" sample_key true (Some spaced)
    = Raise (ValueError "Cannot resume hash-chained audit ledger: its last line is not a valid ledger record").
Proof. vm_compute. done. Qed.
