(* ===== verification/Visitor.v ===== *)
(** The canonical walks of [validation/schema_validation.py]: the one recursion
    over expressions, the predicate walk, the scope walk with its CTE depths,
    the correlation pairs and the reference visitor every enforcement layer
    consumes. A Python generator is the list it yields; [id(scope)] is the
    scope's path from the root. *)
From S2P Require Export Ast.

(** * References and effective names *)

(** [schema/reflection.py: sanitize_table_name]. Python's [re] lets [$] match
    before a final newline. *)
Definition sanitize_table_name (table_name : string) : result string :=
  if is_identifier true table_name then Ok table_name
  else Raise (QueryValidationError "Invalid table name").

(** [parse_column_ref]. *)
Definition parse_column_ref (col_ref : string) : result (string * string) :=
  match partition_dot col_ref with
  | (_, None) => Raise (QueryValidationError "Column reference must be 'Table.Column'")
  | (t, Some c) =>
      let table := strip t in
      let column := strip c in
      if str_empty table || str_empty column
      then Raise (QueryValidationError "Invalid column reference")
      else sanitize_table_name table ≫= λ _, Ok (table, column)
  end.

(** * Predicates of a boolean tree *)

(** [iter_where_predicates]. *)
Definition iter_where_predicates {P} (node : WhereNode_ P) : list P :=
  where_flat_map (λ p, [p]) node.

(** [predicate_expressions]. *)
Definition predicate_expressions {E Q} (p : Predicate E Q) : list E :=
  option_list (pr_expr p) ++ option_list (pr_value_expr p).

(** * The single recursion over expressions *)

(** [ExpressionPart]: a node, or (with [is_condition]) a CASE branch's [when]. *)
Inductive part_node (Q : Type) :=
| PNode (e : Expression_ Q)
| PCondition (w : Where_ Q).
Arguments PNode {Q} e.
Arguments PCondition {Q} w.

Record ExpressionPart (Q : Type) := MkPart { part_depth : nat; part_value : part_node Q }.
Arguments MkPart {Q} _ _.
Arguments part_depth {Q} _.
Arguments part_value {Q} _.

(** [iter_expression_parts]: the closed union has no other member, so the
    fail-closed branch on an unknown node cannot arise. *)
Fixpoint iter_expression_parts {Q} (depth : nat) (e : Expression_ Q) : list (ExpressionPart Q) :=
  MkPart depth (PNode e) ::
  match e with
  | ColumnExpr _ | LiteralExpr _ | NowExpr _ => []
  | BinaryOpExpr _ l r => iter_expression_parts (S depth) l ++ iter_expression_parts (S depth) r
  | FunctionExpr _ args => flat_map (iter_expression_parts (S depth)) args
  | CastExpr x _ | ExtractExpr x _ | DateAddExpr x _ _ => iter_expression_parts (S depth) x
  | WindowExpr _ _ arg _ _ => option_flat_map (iter_expression_parts (S depth)) arg
  | CaseExpr when_ else_ =>
      flat_map (λ b,
        MkPart depth (PCondition (cw_when b))
        :: where_flat_map (λ p,
             option_flat_map (iter_expression_parts (S depth)) (pr_expr p)
             ++ option_flat_map (iter_expression_parts (S depth)) (pr_value_expr p))
             (cw_when b)
        ++ iter_expression_parts (S depth) (cw_then b)) when_
      ++ option_flat_map (iter_expression_parts (S depth)) else_
  end.

Definition part_nodes {Q} (p : ExpressionPart Q) : list (Expression_ Q) :=
  match part_value p with PNode e => [e] | PCondition _ => [] end.
Definition part_conditions {Q} (p : ExpressionPart Q) : list (Where_ Q) :=
  match part_value p with PNode _ => [] | PCondition w => [w] end.
Definition part_node_depths {Q} (p : ExpressionPart Q) : list nat :=
  match part_value p with PNode _ => [part_depth p] | PCondition _ => [] end.

(** [iter_expression_nodes], [iter_expression_case_conditions] and
    [expression_depth]: filters over the one walk. *)
Definition iter_expression_nodes {Q} (e : Expression_ Q) : list (Expression_ Q) :=
  flat_map part_nodes (iter_expression_parts 1 e).

Definition iter_expression_case_conditions {Q} (e : Expression_ Q) : list (Where_ Q) :=
  flat_map part_conditions (iter_expression_parts 1 e).

Definition expression_depth {Q} (e : Expression_ Q) : nat :=
  max_list (flat_map part_node_depths (iter_expression_parts 1 e)).

(** [predicate_direct_column_refs]. *)
Definition scalar_fn_column_refs (c : ScalarFunctionCall) : list string :=
  flat_map (λ a, match a with ColArg col => [col] | LiteralArg _ => [] end) (sfc_args c).

Definition predicate_direct_column_refs {E Q} (p : Predicate E Q) : list string :=
  match pr_col p with
  | Some c => if has_dot c then [c] else []
  | None => option_flat_map scalar_fn_column_refs (pr_col_fn p)
  end ++ option_list (pr_value_col p).

(** The refs of one OVER clause: PARTITION BY, then ORDER BY. *)
Definition window_spec_refs (over : WindowSpec) : list string :=
  ws_partition_by over ++ map ob_col (ws_order_by over).

(** [expression_column_refs]. *)
Definition part_column_refs {Q} (p : ExpressionPart Q) : list string :=
  match part_value p with
  | PCondition w => flat_map predicate_direct_column_refs (iter_where_predicates w)
  | PNode (ColumnExpr col) => [col]
  | PNode (WindowExpr _ over _ _ _) => window_spec_refs over
  | PNode _ => []
  end.

Definition expression_column_refs {Q} (e : Expression_ Q) : list string :=
  flat_map part_column_refs (iter_expression_parts 1 e).

(** [predicate_column_refs] and [_where_column_refs]. *)
Definition predicate_column_refs {Q} (p : Predicate_ Q) : list string :=
  predicate_direct_column_refs p ++ flat_map expression_column_refs (predicate_expressions p).

Definition where_column_refs {Q} (w : Where_ Q) : list string :=
  flat_map predicate_column_refs (iter_where_predicates w).

(** [select_item_expressions]. *)
Definition select_item_expressions {Q} (item : SelectItem_ Q) : list (Expression_ Q) :=
  match item with
  | ExpressionSelectItem e _ => [e]
  | CaseSelectItem when_ else_ _ => [case_as_expression when_ else_]
  | AggregateSelectItem _ _ arg _ _ | WindowSelectItem _ _ arg _ _ _ => option_list arg
  | _ => []
  end.

(** [select_item_column_refs]. *)
Definition star_filtered (col : string) : list string :=
  if bool_decide (col = "*") then [] else [col].

Definition select_item_column_refs {Q} (item : SelectItem_ Q) : list string :=
  match item with
  | ColumnItem ref => [ref]
  | ScalarFunctionSelectItem call _ => scalar_fn_column_refs call
  | WindowSelectItem _ over arg _ _ _ =>
      option_flat_map expression_column_refs arg ++ window_spec_refs over
  | AggregateSelectItem _ col (Some a) _ _ => expression_column_refs a
  | AggregateSelectItem _ col None _ _ => option_flat_map star_filtered col
  | ExpressionSelectItem e _ => expression_column_refs e
  | CaseSelectItem when_ else_ _ => expression_column_refs (case_as_expression when_ else_)
  | DateBucketSelectItem col _ _ | StringAggSelectItem col _ _ | ArrayAggSelectItem col _
  | PercentileContSelectItem col _ _ => star_filtered col
  end.

(** [_where_depth]. *)
Fixpoint where_depth_from {P} (depth : nat) (node : WhereNode_ P) : nat :=
  match node with
  | WPredicate _ => depth
  | WhereGroup and_terms or_terms not_terms =>
      match not_terms with
      | Some c => where_depth_from (S depth) c
      | None =>
          match and_terms with
          | Some (c :: cs) => max_list (where_depth_from (S depth) c :: map (where_depth_from (S depth)) cs)
          | _ =>
              match or_terms with
              | Some (c :: cs) => max_list (where_depth_from (S depth) c :: map (where_depth_from (S depth)) cs)
              | _ => depth
              end
          end
      end
  end.

Definition where_depth {P} (node : WhereNode_ P) : nat := where_depth_from 1 node.

(** * One scope *)

(** [iter_join_conditions] and [iter_join_condition_predicates]. *)
Definition iter_join_conditions (q : StructuredQuery) : list (JoinSpec * WhereNode) :=
  flat_map (λ j, option_list ((λ w, (j, w)) <$> js_condition j)) (joins q).

Definition iter_join_condition_predicates (q : StructuredQuery) : list Pred :=
  flat_map (λ jw, iter_where_predicates jw.2) (iter_join_conditions q).

(** [iter_where_and_having_predicates]. *)
Definition iter_where_and_having_predicates (q : StructuredQuery) : list Pred :=
  option_flat_map iter_where_predicates (where_ q)
  ++ option_flat_map iter_where_predicates (having q).

(** [iter_scope_expressions_by_position]. *)
Inductive ExpressionPosition := Projection | AggregateArg | WhereOrHaving | JoinCondition.

#[export] Instance ExpressionPosition_eq_dec : EqDecision ExpressionPosition.
Proof. solve_decision. Defined.

Definition iter_scope_expressions_by_position (q : StructuredQuery) :
  list (ExpressionPosition * Expression) :=
  flat_map (λ item,
    map (λ e, (if is_aggregate_item item then AggregateArg else Projection, e))
      (select_item_expressions item)) (select q)
  ++ flat_map (λ p, map (λ e, (WhereOrHaving, e)) (predicate_expressions p))
       (iter_where_and_having_predicates q)
  ++ flat_map (λ p, map (λ e, (JoinCondition, e)) (predicate_expressions p))
       (iter_join_condition_predicates q).

Definition iter_scope_expressions (q : StructuredQuery) : list Expression :=
  (iter_scope_expressions_by_position q).*2.

(** [iter_scope_case_conditions]. *)
Definition iter_scope_case_conditions (q : StructuredQuery) : list WhereNode :=
  flat_map iter_expression_case_conditions (iter_scope_expressions q).

(** [RefPosition] and [ColumnRef]. *)
Inductive RefPosition :=
| SELECT_PROJECTION_BARE | SELECT_NESTED | JOIN_ON | JOIN_EXTRA_ON | JOIN_CONDITION
| WHERE | GROUP_BY | HAVING | ORDER_BY | TOP_N_PARTITION | TOP_N_ORDER.

#[export] Instance RefPosition_eq_dec : EqDecision RefPosition.
Proof. solve_decision. Defined.

Record ColumnRef := MkColumnRef { ref_position : RefPosition; ref_ref : string }.

Definition at_position (pos : RefPosition) (refs : list string) : list ColumnRef :=
  map (MkColumnRef pos) refs.

(** [iter_column_refs]: the canonical reference visitor of one scope. *)
Definition iter_column_refs (q : StructuredQuery) : list ColumnRef :=
  flat_map (λ item, match item with
    | ColumnItem ref => [MkColumnRef SELECT_PROJECTION_BARE ref]
    | _ => at_position SELECT_NESTED (select_item_column_refs item)
    end) (select q)
  ++ flat_map (λ j,
       match js_on j with
       | Some (l, r) => [MkColumnRef JOIN_ON l; MkColumnRef JOIN_ON r]
       | None => []
       end
       ++ flat_map (at_position JOIN_EXTRA_ON) (js_extra_on j)
       ++ option_flat_map (λ w, at_position JOIN_CONDITION (where_column_refs w))
            (js_condition j)) (joins q)
  ++ option_flat_map (λ w, at_position WHERE (where_column_refs w)) (where_ q)
  ++ at_position GROUP_BY (filter (λ r, has_dot r) (group_by q))
  ++ option_flat_map (λ w, at_position HAVING (where_column_refs w)) (having q)
  ++ at_position ORDER_BY (filter (λ r, has_dot r) (map ob_col (order_by q)))
  ++ option_flat_map (λ t,
       at_position TOP_N_PARTITION (filter (λ r, has_dot r) (tn_partition_by t))
       ++ at_position TOP_N_ORDER (filter (λ r, has_dot r) (map ob_col (tn_order_by t))))
       (top_n q).

(** * The scope tree *)

(** [id(scope)]: the way from the root to a nested query. Two scopes of one
    query are the same object exactly when their paths agree. *)
Inductive scope_step :=
| InCte (i : nat)
| InArm (i : nat)
| InSubquery (i : nat).

#[export] Instance scope_step_eq_dec : EqDecision scope_step.
Proof. solve_decision. Defined.

Abbreviation scope_path := (list scope_step).

Record Scope := MkScope {
  sc_path : scope_path;
  sc_depth : nat;
  sc_query : StructuredQuery;
}.

Definition push_step (step : scope_step) (s : Scope) : Scope :=
  MkScope (step :: sc_path s) (sc_depth s) (sc_query s).

(** The scopes below the [i]-th nested query of one kind carry its step. *)
Definition tag_scopes (mk : nat → scope_step) (ls : list (list Scope)) : list Scope :=
  concat (imap (λ i l, map (push_step (mk i)) l) ls).

(** The subquery-bearing fields of one predicate. *)
Definition predicate_subqueries {E Q} (p : Predicate E Q) : list Q :=
  option_list (pr_value_subquery p) ++ option_list (pr_exists_subquery p).

(** The nested queries of a scope's WHERE and HAVING trees, in walk order. *)
Definition nested_subqueries (q : StructuredQuery) : list StructuredQuery :=
  flat_map predicate_subqueries (iter_where_and_having_predicates q).

Definition set_op_arms (q : StructuredQuery) : list StructuredQuery :=
  option_flat_map so_arms (set_op q).

(** The [from]/[join] source names of one scope. *)
Section scopes.
Context `{CF : CaseFold}.

Definition source_names (q : StructuredQuery) : list string :=
  casefold (from_table q) :: map (λ j, casefold (js_table j)) (joins q).

(** [declared_cte_names]. *)
Definition declared_cte_names (q : StructuredQuery) : gset string :=
  list_to_set (map (λ c, casefold (cte_name c)) (ctes q)).

(** One iteration of the loop of [cte_chain_depths]: the entry is the folded
    name with the source names of the block's own scope tree. *)
Definition chain_step (depths : dict nat) (entry : string * list string) : dict nat :=
  let referenced := filter (λ n, n ∈ dict_keys depths) entry.2 in
  dict_set entry.1 (1 + max_of (λ n, default 0 (dict_get n depths)) referenced) depths.

Definition chain_depths (entries : list (string * list string)) : dict nat :=
  foldl chain_step [] entries.

(** [iter_query_scopes]: the query itself; every CTE body, charged its place in
    the reference chain; every set-operation arm, at the same depth; every
    nested subquery of WHERE/HAVING, one deeper. The scope lists of the nested
    queries are computed by the recursive calls and then tagged with their
    steps. *)
Fixpoint iter_query_scopes_from (q : StructuredQuery) (depth : nat) : list Scope :=
  let depths := chain_depths (map (λ c,
    (casefold (cte_name c),
     flat_map (λ s, source_names (sc_query s)) (iter_query_scopes_from (cte_query c) 0)))
    (ctes q)) in
  let subqueries (p : Pred) :=
    option_flat_map (λ s, [iter_query_scopes_from s (S depth)]) (pr_value_subquery p)
    ++ option_flat_map (λ s, [iter_query_scopes_from s (S depth)]) (pr_exists_subquery p) in
  MkScope [] depth q ::
  tag_scopes InCte (map (λ c,
    iter_query_scopes_from (cte_query c)
      (depth + default 0 (dict_get (casefold (cte_name c)) depths))) (ctes q))
  ++ tag_scopes InArm
       (option_flat_map (λ s, map (λ a, iter_query_scopes_from a depth) (so_arms s)) (set_op q))
  ++ tag_scopes InSubquery
       (option_flat_map (where_flat_map subqueries) (where_ q)
        ++ option_flat_map (where_flat_map subqueries) (having q)).

Definition iter_query_scopes (q : StructuredQuery) : list Scope := iter_query_scopes_from q 0.

(** [cte_source_names]. *)
Definition cte_source_names (q : StructuredQuery) : list string :=
  flat_map (λ s, source_names (sc_query s)) (iter_query_scopes q).

(** [cte_chain_depths]. *)
Definition cte_chain_depths (q : StructuredQuery) : dict nat :=
  chain_depths (map (λ c, (casefold (cte_name c), cte_source_names (cte_query c))) (ctes q)).

Definition cte_depth (q : StructuredQuery) (c : CteSpec) : nat :=
  default 0 (dict_get (casefold (cte_name c)) (cte_chain_depths q)).

(** [iter_set_op_arms]. *)
Definition iter_set_op_arms (q : StructuredQuery) : list StructuredQuery :=
  q :: set_op_arms q.

(** [effective_name_map]. *)
Definition effective_name_map (q : StructuredQuery) : dict string :=
  foldl (λ m j, dict_set (casefold (str_or (js_alias j) (js_table j))) (js_table j) m)
    [(casefold (str_or (from_alias q) (from_table q)), from_table q)] (joins q).

(** [name_to_physical.get(table.casefold(), table)]. *)
Definition physical_of (m : dict string) (table : string) : string :=
  default table (dict_get (casefold table) m).

(** [Correlation] and [iter_correlations]: each declared outer reference with
    the scope it resolves against and the nested scope that declared it. *)
Record Correlation := MkCorrelation {
  co_parent : Scope;
  co_child_path : scope_path;
  co_child : StructuredQuery;
  co_ref : string;
}.

Definition scope_correlations (s : Scope) : list Correlation :=
  concat (imap (λ i nested,
    map (MkCorrelation s (sc_path s ++ [InSubquery i]) nested) (correlate nested))
    (nested_subqueries (sc_query s))).

Definition iter_correlations (q : StructuredQuery) : list Correlation :=
  flat_map scope_correlations (iter_query_scopes q).
End scopes.

(** * Facts about the walks *)

Lemma option_flat_map_list {A B} (f : A → list B) o :
  option_flat_map f o = flat_map f (option_list o).
Proof. destruct o; cbn; [by rewrite app_nil_r|done]. Qed.

(** Induction over a boolean tree along the walk's own descent. *)
Lemma where_flat_map_spec {P A} (f : P → list A) (w : WhereNode_ P) :
  where_flat_map f w = flat_map f (iter_where_predicates w).
Proof.
  unfold iter_where_predicates. revert w. fix IH 1.
  assert (IHl : ∀ l, flat_map (where_flat_map f) l
            = flat_map f (flat_map (where_flat_map (λ p, [p])) l)).
  { fix IHl 1. intros [|c l]; cbn; [done|]. by rewrite flat_map_app, IH, IHl. }
  intros [p|a o n]; cbn; [by rewrite app_nil_r|].
  destruct n as [c|]; [apply IH|].
  destruct a as [[|c cs]|]; [|by rewrite flat_map_app, IH, IHl|];
    (destruct o as [cs|]; [apply IHl|done]).
Qed.

(** The direct sub-expressions of a node, a CASE condition's predicate
    expressions included: what the walk descends into. *)
Definition branch_expressions {Q} (b : Branch_ Q) : list (Expression_ Q) :=
  flat_map predicate_expressions (iter_where_predicates (cw_when b)) ++ [cw_then b].

Definition expression_children {Q} (e : Expression_ Q) : list (Expression_ Q) :=
  match e with
  | ColumnExpr _ | LiteralExpr _ | NowExpr _ => []
  | BinaryOpExpr _ l r => [l; r]
  | FunctionExpr _ args => args
  | CastExpr x _ | ExtractExpr x _ | DateAddExpr x _ _ => [x]
  | WindowExpr _ _ arg _ _ => option_list arg
  | CaseExpr when_ else_ => flat_map branch_expressions when_ ++ option_list else_
  end.

(** The CASE conditions attached directly to a node. *)
Definition expression_conditions {Q} (e : Expression_ Q) : list (Where_ Q) :=
  match e with CaseExpr when_ _ => map cw_when when_ | _ => [] end.

Lemma iter_expression_parts_branch {Q} d (b : Branch_ Q) :
  where_flat_map (λ p,
    option_flat_map (iter_expression_parts d) (pr_expr p)
    ++ option_flat_map (iter_expression_parts d) (pr_value_expr p)) (cw_when b)
  = flat_map (iter_expression_parts d)
      (flat_map predicate_expressions (iter_where_predicates (cw_when b))).
Proof.
  rewrite where_flat_map_spec, flat_map_flat_map. apply flat_map_ext_elem.
  intros p _. unfold predicate_expressions.
  by rewrite flat_map_app, !option_flat_map_list.
Qed.

(** Membership in the walk: the node itself, its own conditions at its depth,
    or a part of a child one level deeper. *)
Lemma elem_of_iter_expression_parts {Q} d (e : Expression_ Q) x :
  x ∈ iter_expression_parts d e ↔
    x = MkPart d (PNode e)
    ∨ (∃ w, w ∈ expression_conditions e ∧ x = MkPart d (PCondition w))
    ∨ (∃ c, c ∈ expression_children e ∧ x ∈ iter_expression_parts (S d) c).
Proof.
  assert (Hl : ∀ (l : list (Expression_ Q)),
    x ∈ flat_map (iter_expression_parts (S d)) l
    ↔ ∃ c, c ∈ l ∧ x ∈ iter_expression_parts (S d) c) by (intros; apply elem_of_flat_map).
  destruct e; cbn [iter_expression_parts expression_children expression_conditions];
    rewrite elem_of_cons, ?elem_of_app, ?option_flat_map_list, ?Hl; try set_solver.
  rewrite elem_of_flat_map.
  setoid_rewrite elem_of_cons. setoid_rewrite elem_of_app.
  setoid_rewrite iter_expression_parts_branch. setoid_rewrite Hl.
  unfold branch_expressions. clear Hl. split.
  - intros [?|[(b & Hb & [?|[(c & Hc & ?)|?]])|(c & Hc & ?)]]; [by left|..].
    + right; left. exists (cw_when b). set_solver.
    + right; right. exists c. set_solver.
    + right; right. exists (cw_then b). set_solver.
    + right; right. exists c. set_solver.
  - intros [?|[(w & Hw & ?)|(c & [Hc|Hc] & ?)]]; [by left|right; left|right; left|right; right].
    + apply elem_of_map in Hw as (b & -> & Hb). eauto.
    + apply elem_of_flat_map in Hc as (b & Hb & Hc). exists b. split; [done|right].
      apply elem_of_app in Hc as [?|?%list_elem_of_singleton]; subst; eauto.
    + eauto.
Qed.

(** Induction over an expression through [expression_children]: one hypothesis
    for the sub-expressions, wherever the grammar puts them. *)
Lemma expression_ind_children {Q} (P : Expression_ Q → Prop)
  (H : ∀ e, (∀ c, c ∈ expression_children e → P c) → P e) : ∀ e, P e.
Proof.
  fix IH 1. intros e. apply H, Forall_forall.
  assert (Hopt : ∀ o, Forall P (option_list o)).
  { intros [x|]; cbn; [apply Forall_singleton, IH|constructor]. }
  assert (Hl : ∀ l, Forall P l).
  { fix IHl 1. intros [|x l]; [constructor|]. constructor; [apply IH|apply IHl]. }
  assert (Hw : ∀ w : Where_ Q, Forall P (where_flat_map predicate_expressions w)).
  { fix IHw 1.
    assert (Hws : ∀ l : list (Where_ Q), Forall P (flat_map (where_flat_map predicate_expressions) l)).
    { fix IHl 1. intros [|w l]; cbn; [constructor|].
      apply Forall_app; split; [apply IHw|apply IHl]. }
    intros [p|a o n]; cbn.
    - destruct p as [c x f op v vc y s t]; unfold predicate_expressions; cbn.
      apply Forall_app; split; apply Hopt.
    - destruct n as [c|]; [apply IHw|].
      destruct a as [[|c cs]|];
        [|apply Forall_app; split; [apply IHw|apply Hws]|];
        (destruct o as [cs|]; [apply Hws|constructor]). }
  destruct e; cbn [expression_children];
    [constructor|constructor| | | | | |constructor| | ].
  - apply Forall_cons; split; [apply IH|]. apply Forall_singleton, IH.
  - apply Hl.
  - apply Forall_singleton, IH.
  - apply Forall_app; split; [|apply Hopt].
    clear -Hw IH. revert when. fix IHb 1. intros [|b bs]; cbn; [constructor|].
    apply Forall_app; split; [|apply IHb].
    destruct b as [w t]; unfold branch_expressions; cbn [cw_when cw_then].
    apply Forall_app; split; [|apply Forall_singleton, IH].
    rewrite <-where_flat_map_spec. apply Hw.
  - apply Forall_singleton, IH.
  - apply Forall_singleton, IH.
  - apply Hopt.
Qed.

(** ** The independent specification of "occurs in an expression" *)

(** [occurs e' e]: [e'] is [e] or sits anywhere inside it, however deep,
    through CASE conditions and window arguments included. *)
Inductive occurs {Q} : Expression_ Q → Expression_ Q → Prop :=
| occurs_here e : occurs e e
| occurs_below e' c e : c ∈ expression_children e → occurs e' c → occurs e' e.

(** Distance from the root of one occurrence. *)
Inductive occurs_at {Q} : nat → Expression_ Q → Expression_ Q → Prop :=
| occurs_at_here e : occurs_at 0 e e
| occurs_at_below n e' c e :
    c ∈ expression_children e → occurs_at n e' c → occurs_at (S n) e' e.

Lemma occurs_iff_at {Q} (e' e : Expression_ Q) : occurs e' e ↔ ∃ n, occurs_at n e' e.
Proof.
  split.
  - induction 1 as [|e' c e ?? [n ?]]; [by eexists; constructor|eexists; by econstructor].
  - intros [n Hn]. induction Hn; by econstructor.
Qed.

Lemma elem_of_parts_node {Q} (e : Expression_ Q) :
  ∀ d k e', MkPart k (PNode e') ∈ iter_expression_parts d e
    ↔ ∃ n, k = d + n ∧ occurs_at n e' e.
Proof.
  induction e as [e IH] using expression_ind_children. intros d k e'.
  rewrite elem_of_iter_expression_parts. split.
  - intros [[= -> ->]|[(w & _ & [=])|(c & Hc & Hp)]].
    + exists 0. split; [lia|constructor].
    + apply IH in Hp as (n & -> & Hn); [|done]. exists (S n). split; [lia|by econstructor].
  - intros (n & -> & Hn). inversion Hn as [|n' ? c ? Hc Hn']; subst.
    + left. by rewrite Nat.add_0_r.
    + right; right. exists c. split; [done|]. apply IH; [done|]. exists n'. split; [lia|done].
Qed.

Lemma elem_of_parts_condition {Q} (e : Expression_ Q) :
  ∀ d k w, MkPart k (PCondition w) ∈ iter_expression_parts d e
    ↔ ∃ n e', k = d + n ∧ occurs_at n e' e ∧ w ∈ expression_conditions e'.
Proof.
  induction e as [e IH] using expression_ind_children. intros d k w.
  rewrite elem_of_iter_expression_parts. split.
  - intros [[=]|[(w' & Hw & [= -> ->])|(c & Hc & Hp)]].
    + exists 0, e. split_and!; [lia|constructor|done].
    + apply IH in Hp as (n & e' & -> & Hn & Hw); [|done].
      exists (S n), e'. split_and!; [lia|by econstructor|done].
  - intros (n & e' & -> & Hn & Hw). inversion Hn as [|n' ? c ? Hc Hn']; subst.
    + right; left. exists w. by rewrite Nat.add_0_r.
    + right; right. exists c. split; [done|]. apply IH; [done|].
      exists n', e'. split_and!; [lia|done|done].
Qed.

Lemma elem_of_iter_expression_nodes {Q} (e e' : Expression_ Q) :
  e' ∈ iter_expression_nodes e ↔ occurs e' e.
Proof.
  unfold iter_expression_nodes, part_nodes. rewrite elem_of_flat_map, occurs_iff_at. split.
  - intros ([k v] & Hp & He'). cbn in He'. destruct v as [x|]; [|set_solver].
    apply list_elem_of_singleton in He' as ->.
    apply elem_of_parts_node in Hp as (n & _ & Hn). eauto.
  - intros [n Hn]. exists (MkPart (1 + n) (PNode e')). split; [|set_solver].
    apply elem_of_parts_node. eauto.
Qed.

Lemma elem_of_iter_expression_case_conditions {Q} (e : Expression_ Q) w :
  w ∈ iter_expression_case_conditions e
  ↔ ∃ e', occurs e' e ∧ w ∈ expression_conditions e'.
Proof.
  unfold iter_expression_case_conditions, part_conditions. rewrite elem_of_flat_map.
  setoid_rewrite occurs_iff_at. split.
  - intros ([k v] & Hp & Hw). cbn in Hw. destruct v as [|x]; [set_solver|].
    apply list_elem_of_singleton in Hw as ->.
    apply elem_of_parts_condition in Hp as (n & e' & _ & ? & ?). eauto.
  - intros (e' & [n Hn] & Hw). exists (MkPart (1 + n) (PCondition w)). split; [|set_solver].
    apply elem_of_parts_condition. eauto.
Qed.

(** ** What the collected references are *)

(** An expression mentions a column reference when some node of it is that
    column, or a window whose OVER clause names it, or a CASE whose condition
    carries a predicate that names it directly. *)
Definition node_mentions {Q} (e : Expression_ Q) (ref : string) : Prop :=
  e = ColumnExpr ref
  ∨ (∃ fn over arg off bk, e = WindowExpr fn over arg off bk ∧ ref ∈ window_spec_refs over)
  ∨ (∃ w p, w ∈ expression_conditions e ∧ p ∈ iter_where_predicates w
            ∧ ref ∈ predicate_direct_column_refs p).

Lemma elem_of_expression_column_refs {Q} (e : Expression_ Q) ref :
  ref ∈ expression_column_refs e ↔ ∃ e', occurs e' e ∧ node_mentions e' ref.
Proof.
  unfold expression_column_refs. rewrite elem_of_flat_map. split.
  - intros ([k v] & Hp & Href). unfold part_column_refs in Href; cbn in Href.
    destruct v as [x|w].
    + apply elem_of_parts_node in Hp as (n & _ & Hn).
      exists x. split; [apply occurs_iff_at; eauto|].
      destruct x; try set_solver; unfold node_mentions.
      * left. f_equal. set_solver.
      * right; left. eauto 10.
    + apply elem_of_parts_condition in Hp as (n & e' & _ & Hn & Hw).
      apply elem_of_flat_map in Href as (p & Hp & Href).
      exists e'. split; [apply occurs_iff_at; eauto|]. right; right. eauto.
  - intros (e' & [n Hn]%occurs_iff_at & [->|[(fn & over & arg & off & bk & -> & Hr)|
      (w & p & Hw & Hp & Hr)]]).
    + exists (MkPart (1 + n) (PNode (ColumnExpr ref))). split; [|set_solver].
      apply elem_of_parts_node. eauto.
    + exists (MkPart (1 + n) (PNode (WindowExpr fn over arg off bk))).
      split; [|done]. apply elem_of_parts_node. eauto.
    + exists (MkPart (1 + n) (PCondition w)). split.
      * apply elem_of_parts_condition. eauto.
      * apply elem_of_flat_map. eauto.
Qed.

(** The nodes of an expression are itself and the nodes of its children, in
    walk order: the node budget counts every node exactly once. *)
Lemma part_nodes_eq {Q} (e : Expression_ Q) : ∀ d,
  flat_map part_nodes (iter_expression_parts d e)
  = e :: flat_map iter_expression_nodes (expression_children e).
Proof.
  induction e as [e IH] using expression_ind_children. intros d.
  assert (IHn : ∀ c k, c ∈ expression_children e →
    flat_map part_nodes (iter_expression_parts k c) = iter_expression_nodes c).
  { intros c k Hc. unfold iter_expression_nodes. by rewrite !IH. }
  assert (Hl : ∀ l k, (∀ c, c ∈ l → c ∈ expression_children e) →
    flat_map part_nodes (flat_map (iter_expression_parts k) l)
    = flat_map iter_expression_nodes l).
  { intros l k Hl. rewrite flat_map_flat_map. apply flat_map_ext_elem. auto. }
  destruct e; cbn [iter_expression_parts expression_children flat_map part_nodes part_value app];
    f_equal; rewrite ?app_nil_r, ?option_flat_map_list, ?flat_map_app, ?Hl by set_solver; try done.
  - rewrite !IHn by set_solver. done.
  - by rewrite IHn by set_solver.
  - f_equal. rewrite !flat_map_flat_map.
    apply flat_map_ext_elem. intros b Hb.
    rewrite iter_expression_parts_branch. unfold branch_expressions; cbn.
    rewrite !flat_map_app, Hl by (cbn; unfold branch_expressions; set_solver). cbn.
    rewrite app_nil_r, IHn by (cbn; unfold branch_expressions; set_solver). done.
  - by rewrite IHn by set_solver.
  - by rewrite IHn by set_solver.
Qed.

Lemma iter_expression_nodes_eq {Q} (e : Expression_ Q) :
  iter_expression_nodes e = e :: flat_map iter_expression_nodes (expression_children e).
Proof. apply part_nodes_eq. Qed.

(** ** Depth *)

Lemma max_list_le l n : max_list l ≤ n ↔ ∀ x, x ∈ l → x ≤ n.
Proof.
  induction l as [|y l IH]; cbn; [set_solver by lia|].
  rewrite Nat.max_lub_iff, IH. set_solver.
Qed.

(** The depth cap bounds every path a caller can build: [expression_depth] is
    the number of nodes on the longest one. *)
Lemma expression_depth_le {Q} (e : Expression_ Q) n :
  expression_depth e ≤ n ↔ ∀ k e', occurs_at k e' e → S k ≤ n.
Proof.
  unfold expression_depth. rewrite max_list_le. split.
  - intros H k e' Hk. apply H, elem_of_flat_map.
    exists (MkPart (1 + k) (PNode e')). split; [|set_solver].
    apply elem_of_parts_node. eauto.
  - intros H x Hx. apply elem_of_flat_map in Hx as ([k v] & Hp & Hx).
    unfold part_node_depths in Hx; cbn in Hx. destruct v as [e'|]; [|set_solver].
    apply list_elem_of_singleton in Hx as ->.
    apply elem_of_parts_node in Hp as (m & -> & Hm). by apply (H m e').
Qed.

Lemma expression_depth_children {Q} (e : Expression_ Q) :
  expression_depth e = S (max_of expression_depth (expression_children e)).
Proof.
  apply Nat.le_antisymm.
  - apply expression_depth_le. intros k e' Hk. inversion Hk as [|m ? c ? Hc Hm]; subst; [lia|].
    apply le_n_S. transitivity (expression_depth c); [|by apply max_of_elem].
    exact (proj1 (expression_depth_le c _) (le_n _) m e' Hm).
  - assert (Hle : ∀ k e', occurs_at k e' e → S k ≤ expression_depth e)
      by exact (proj1 (expression_depth_le e _) (le_n _)).
    destruct (expression_depth e) as [|n] eqn:En.
    { specialize (Hle 0 e (occurs_at_here e)). lia. }
    apply le_n_S, max_of_le. intros c Hc. apply expression_depth_le. intros k e' Hk.
    specialize (Hle (S k) e' (occurs_at_below _ _ _ _ Hc Hk)). lia.
Qed.

(** Node count dominates depth, so the node budget alone also bounds nesting. *)
Lemma expression_depth_le_nodes {Q} (e : Expression_ Q) :
  expression_depth e ≤ length (iter_expression_nodes e).
Proof.
  induction e as [e IH] using expression_ind_children.
  rewrite expression_depth_children, iter_expression_nodes_eq. cbn.
  apply le_n_S, max_of_le. intros c Hc. rewrite IH by done. clear IH.
  induction Hc as [l|x y l _ IH]; cbn; rewrite length_app; lia.
Qed.

(** * Facts about the scope tree *)

(** The nested queries the scope walk descends into. *)
Definition query_children (q : StructuredQuery) : list StructuredQuery :=
  map cte_query (ctes q) ++ set_op_arms q ++ nested_subqueries q.

(** Induction over a query through [query_children]. *)
Lemma query_ind_children (P : StructuredQuery → Prop)
  (H : ∀ q, (∀ c, c ∈ query_children q → P c) → P q) : ∀ q, P q.
Proof.
  fix IH 1. intros q. apply H, Forall_forall.
  assert (Hopt : ∀ o, Forall P (option_list o)).
  { intros [x|]; cbn; [apply Forall_singleton, IH|constructor]. }
  assert (Hw : ∀ w : WhereNode, Forall P (where_flat_map predicate_subqueries w)).
  { fix IHw 1.
    assert (Hws : ∀ l : list WhereNode,
      Forall P (flat_map (where_flat_map predicate_subqueries) l)).
    { fix IHl 1. intros [|w l]; cbn; [constructor|].
      apply Forall_app; split; [apply IHw|apply IHl]. }
    intros [p|a o n]; cbn.
    - destruct p as [c x f op v vc y s t]; unfold predicate_subqueries; cbn.
      apply Forall_app; split; apply Hopt.
    - destruct n as [c|]; [apply IHw|].
      destruct a as [[|c cs]|];
        [|apply Forall_app; split; [apply IHw|apply Hws]|];
        (destruct o as [cs|]; [apply Hws|constructor]). }
  assert (Hwo : ∀ o : option WhereNode,
    Forall P (flat_map predicate_subqueries (option_flat_map iter_where_predicates o))).
  { intros [w|]; cbn [option_flat_map]; [|constructor].
    rewrite <-where_flat_map_spec. apply Hw. }
  destruct q as [? ? ? ? ? w ? h ? ? ? ? so ? cs ? ?].
  unfold query_children, set_op_arms, nested_subqueries, iter_where_and_having_predicates;
    cbn [ctes set_op where_ having].
  repeat (apply Forall_app; split).
  - revert cs. fix IHc 1. intros [|[n c] cs]; cbn; constructor; [apply IH|apply IHc].
  - destruct so as [[o al arms]|]; cbn; [|constructor].
    revert arms. fix IHa 1. intros [|a l]; constructor; [apply IH|apply IHa].
  - rewrite flat_map_app. apply Forall_app; split; apply Hwo.
Qed.

Section scope_facts.
Context `{CF : CaseFold}.

(** The children of a scope, each with its step and the depth it is walked at. *)
Definition scope_children (q : StructuredQuery) (d : nat) :
  list (scope_step * StructuredQuery * nat) :=
  imap (λ i c, (InCte i, cte_query c, d + cte_depth q c)) (ctes q)
  ++ imap (λ i a, (InArm i, a, d)) (set_op_arms q)
  ++ imap (λ i s, (InSubquery i, s, S d)) (nested_subqueries q).

Lemma tag_scopes_imap {A} mk (f : A → list Scope) (l : list A) :
  tag_scopes mk (map f l) = concat (imap (λ i a, map (push_step (mk i)) (f a)) l).
Proof.
  unfold tag_scopes. f_equal. change (map f l) with (f <$> l). by rewrite imap_fmap.
Qed.

Lemma flat_map_imap {A B C} (f : nat → A → B) (g : B → list C) l :
  flat_map g (imap f l) = concat (imap (λ i a, g (f i a)) l).
Proof.
  revert f. induction l as [|x l IH]; intros f; cbn; [done|]. f_equal. apply IH.
Qed.

(** The walk in the shape of the generator's text: the scope, then the scopes
    of each child, their paths extended by the child's step. *)
Lemma iter_query_scopes_from_eq q d :
  iter_query_scopes_from q d =
  MkScope [] d q ::
  flat_map (λ '(step, c, d'), map (push_step step) (iter_query_scopes_from c d'))
    (scope_children q d).
Proof.
  assert (Hsub : ∀ o : option WhereNode,
    option_flat_map (where_flat_map (λ p : Pred,
      option_flat_map (λ s, [iter_query_scopes_from s (S d)]) (pr_value_subquery p)
      ++ option_flat_map (λ s, [iter_query_scopes_from s (S d)]) (pr_exists_subquery p))) o
    = map (λ s, iter_query_scopes_from s (S d))
        (flat_map predicate_subqueries (option_flat_map iter_where_predicates o))).
  { intros [w|]; cbn [option_flat_map]; [|done]. rewrite where_flat_map_spec.
    induction (iter_where_predicates w) as [|p l IH]; cbn; [done|].
    rewrite map_app, IH. f_equal. unfold predicate_subqueries.
    by destruct (pr_value_subquery p), (pr_exists_subquery p). }
  unfold scope_children. rewrite !flat_map_app, !flat_map_imap, <-!tag_scopes_imap.
  destruct q as [? ? ? ? ? w ? h ? ? ? ? so ? cs ? ?].
  cbn [iter_query_scopes_from].
  unfold nested_subqueries, iter_where_and_having_predicates, set_op_arms.
  cbn [where_ having set_op ctes].
  rewrite !Hsub, flat_map_app, map_app. by destruct so.
Qed.

Lemma iter_query_scopes_eq q :
  iter_query_scopes q = MkScope [] 0 q ::
  flat_map (λ '(step, c, d'), map (push_step step) (iter_query_scopes_from c d'))
    (scope_children q 0).
Proof. apply iter_query_scopes_from_eq. Qed.

Lemma elem_of_iter_query_scopes_from q d s :
  s ∈ iter_query_scopes_from q d ↔
    s = MkScope [] d q
    ∨ ∃ step c d' s', (step, c, d') ∈ scope_children q d
        ∧ s' ∈ iter_query_scopes_from c d' ∧ s = push_step step s'.
Proof.
  rewrite iter_query_scopes_from_eq, elem_of_cons, elem_of_flat_map. split.
  - intros [?|([[step c] d'] & Hc & Hs)]; [by left|right].
    apply elem_of_map in Hs as (s' & -> & ?). eauto 10.
  - intros [?|(step & c & d' & s' & ? & ? & ->)]; [by left|right].
    exists (step, c, d'). split; [done|]. apply elem_of_map. eauto.
Qed.

Lemma scope_children_query q d step c d' :
  (step, c, d') ∈ scope_children q d → c ∈ query_children q.
Proof.
  unfold scope_children, query_children. rewrite !elem_of_app, !elem_of_imap.
  intros [(i & x & Hx & [= _ -> _])|[(i & x & Hx & [= _ -> _])|(i & x & Hx & [= _ -> _])]];
    apply list_elem_of_lookup_2 in Hx; set_solver.
Qed.

Lemma scope_children_query_inv q d c :
  c ∈ query_children q → ∃ step d', (step, c, d') ∈ scope_children q d.
Proof.
  unfold scope_children, query_children. setoid_rewrite elem_of_app.
  setoid_rewrite elem_of_app. setoid_rewrite elem_of_imap.
  rewrite elem_of_map, !list_elem_of_lookup. 
  intros [(x & -> & [i Hx]%list_elem_of_lookup)|[[i Hx]|[i Hx]]]; eauto 12.
Qed.

(** Steps tell siblings apart. *)
Lemma scope_children_step_inj q d step c1 d1 c2 d2 :
  (step, c1, d1) ∈ scope_children q d → (step, c2, d2) ∈ scope_children q d →
  c1 = c2 ∧ d1 = d2.
Proof.
  unfold scope_children. rewrite !elem_of_app, !elem_of_imap.
  intros [(i & x & Hx & ?)|[(i & x & Hx & ?)|(i & x & Hx & ?)]]
    [(j & y & Hy & ?)|[(j & y & Hy & ?)|(j & y & Hy & ?)]]; by simplify_eq.
Qed.

(** The root is a scope, and the walk is closed under [query_children]: no
    CTE body, arm or WHERE/HAVING subquery escapes it. *)
Lemma root_in_scopes q : MkScope [] 0 q ∈ iter_query_scopes q.
Proof. apply elem_of_iter_query_scopes_from. by left. Qed.

Lemma scopes_from_closed q : ∀ d s step c d',
  s ∈ iter_query_scopes_from q d →
  (step, c, d') ∈ scope_children (sc_query s) (sc_depth s) →
  MkScope (sc_path s ++ [step]) d' c ∈ iter_query_scopes_from q d.
Proof.
  induction q as [q IH] using query_ind_children. intros d s step c d' Hs Hc.
  apply elem_of_iter_query_scopes_from in Hs as [->|(st & c1 & d1 & s1 & Hc1 & Hs1 & ->)].
  - cbn in *. apply elem_of_iter_query_scopes_from. right.
    exists step, c, d', (MkScope [] d' c). split_and!; [done| |done].
    apply elem_of_iter_query_scopes_from. by left.
  - apply elem_of_iter_query_scopes_from. right.
    exists st, c1, d1, (MkScope (sc_path s1 ++ [step]) d' c). split_and!; [done| |done].
    by apply (IH c1 (scope_children_query _ _ _ _ _ Hc1)).
Qed.

Lemma scopes_closed q s step c d' :
  s ∈ iter_query_scopes q → (step, c, d') ∈ scope_children (sc_query s) (sc_depth s) →
  MkScope (sc_path s ++ [step]) d' c ∈ iter_query_scopes q.
Proof. apply scopes_from_closed. Qed.

Lemma scopes_child q s c :
  s ∈ iter_query_scopes q → c ∈ query_children (sc_query s) →
  ∃ s', s' ∈ iter_query_scopes q ∧ sc_query s' = c.
Proof.
  intros Hs Hc. destruct (scope_children_query_inv _ (sc_depth s) _ Hc) as (step & d' & Hc').
  eexists. split; [by eapply scopes_closed|done].
Qed.

(** A path identifies one scope of the walk, as [id] does one object. *)
Lemma scopes_from_path_inj q : ∀ d s1 s2,
  s1 ∈ iter_query_scopes_from q d → s2 ∈ iter_query_scopes_from q d →
  sc_path s1 = sc_path s2 → s1 = s2.
Proof.
  induction q as [q IH] using query_ind_children. intros d s1 s2.
  rewrite !elem_of_iter_query_scopes_from.
  intros [->|(st1 & c1 & d1 & t1 & Hc1 & Ht1 & ->)]
    [->|(st2 & c2 & d2 & t2 & Hc2 & Ht2 & ->)]; cbn; intros Hp; simplify_eq; [done|].
  destruct (scope_children_step_inj _ _ _ _ _ _ _ Hc1 Hc2) as [-> ->].
  f_equal. eapply IH; [by eapply scope_children_query|done..].
Qed.

Lemma scopes_path_inj q s1 s2 :
  s1 ∈ iter_query_scopes q → s2 ∈ iter_query_scopes q →
  sc_path s1 = sc_path s2 → s1 = s2.
Proof. apply scopes_from_path_inj. Qed.

Lemma scopes_root_path q s :
  s ∈ iter_query_scopes q → sc_path s = [] → s = MkScope [] 0 q.
Proof. intros Hs Hp. eapply scopes_path_inj; [done|apply root_in_scopes|done]. Qed.

(** Depth only grows downwards. *)
Lemma scopes_from_depth_ge q : ∀ d s, s ∈ iter_query_scopes_from q d → d ≤ sc_depth s.
Proof.
  induction q as [q IH] using query_ind_children. intros d s.
  rewrite elem_of_iter_query_scopes_from.
  intros [->|(st & c & d' & t & Hc & Ht & ->)]; cbn; [lia|].
  specialize (IH c (scope_children_query _ _ _ _ _ Hc) d' t Ht).
  unfold scope_children in Hc. rewrite !elem_of_app, !elem_of_imap in Hc.
  destruct Hc as [(?&?&?&?)|[(?&?&?&?)|(?&?&?&?)]]; simplify_eq; lia.
Qed.

(** Every scope of the walk is the root or the child of another scope of it. *)
Lemma scopes_from_parent q : ∀ d s, s ∈ iter_query_scopes_from q d →
  s = MkScope [] d q ∨
  ∃ parent step, parent ∈ iter_query_scopes_from q d
    ∧ (step, sc_query s, sc_depth s) ∈ scope_children (sc_query parent) (sc_depth parent)
    ∧ sc_path s = sc_path parent ++ [step].
Proof.
  induction q as [q IH] using query_ind_children. intros d s Hs.
  apply elem_of_iter_query_scopes_from in Hs as [->|(st & c & d' & t & Hc & Ht & ->)];
    [by left|right].
  destruct (IH c (scope_children_query _ _ _ _ _ Hc) d' t Ht)
    as [->|(parent & step & Hp & Hcp & Hpath)]; cbn.
  - exists (MkScope [] d q), st. split_and!; [|done|done].
    apply elem_of_iter_query_scopes_from. by left.
  - exists (push_step st parent), step. split_and!; [|done|by rewrite Hpath].
    apply elem_of_iter_query_scopes_from. right. eauto 10.
Qed.

(** A predicate-level invariant of a scope and its children holds of every
    scope of the walk. *)
Lemma scopes_invariant (P : StructuredQuery → Prop) q :
  P q → (∀ p c, P p → c ∈ query_children p → P c) →
  ∀ s, s ∈ iter_query_scopes q → P (sc_query s).
Proof.
  intros Hq Hstep. unfold iter_query_scopes. generalize 0.
  induction q as [q IH] using query_ind_children. intros d s.
  rewrite elem_of_iter_query_scopes_from.
  intros [->|(st & c & d' & t & Hc & Ht & ->)]; [done|]. cbn.
  apply scope_children_query in Hc. by eapply (IH c Hc (Hstep _ _ Hq Hc)).
Qed.

(** ** CTE depths *)

Lemma chain_step_get depths e n :
  dict_get n (chain_step depths e)
  = if bool_decide (n = e.1) then
      Some (1 + max_of (λ n, default 0 (dict_get n depths))
                  (filter (λ n, n ∈ dict_keys depths) e.2))
    else dict_get n depths.
Proof.
  unfold chain_step. case_bool_decide; [subst; apply dict_get_set_eq|by apply dict_get_set_ne].
Qed.

(** ** Effective names *)

Lemma effective_name_map_occurrences q n t :
  dict_get n (effective_name_map q) = Some t →
  ∃ occ, occ ∈ occurrences q ∧ occ.1 = t ∧ casefold (effective_name occ) = n.
Proof.
  unfold effective_name_map, occurrences.
  set (m0 := [(_, _)]). set (occ0 := (from_table q, from_alias q)).
  assert (H0 : ∀ n t, dict_get n m0 = Some t →
    ∃ occ, occ ∈ [occ0] ∧ occ.1 = t ∧ casefold (effective_name occ) = n).
  { intros n' t'. subst m0 occ0. cbn. case_bool_decide; [|done]. intros [= <-].
    exists (from_table q, from_alias q). split_and!; [set_solver|reflexivity|by symmetry]. }
  revert n t. cut (∀ js m occs, (∀ n t, dict_get n m = Some t →
      ∃ occ, occ ∈ occs ∧ occ.1 = t ∧ casefold (effective_name occ) = n) →
    ∀ n t, dict_get n (foldl (λ m j, dict_set (casefold (str_or (js_alias j) (js_table j)))
      (js_table j) m) m (js : list JoinSpec)) = Some t →
    ∃ occ, occ ∈ occs ++ map (λ j, (js_table j, js_alias j)) js
      ∧ occ.1 = t ∧ casefold (effective_name occ) = n).
  { intros Hcut n t. apply (Hcut (joins q) m0 [occ0] H0). }
  clear. induction js as [|j js IH]; intros m occs Hm n t; cbn.
  { rewrite app_nil_r. apply Hm. }
  intros Hget. rewrite (cons_middle (js_table j, js_alias j)), app_assoc.
  revert Hget. apply IH. clear n t. intros n t.
  destruct (decide (n = casefold (str_or (js_alias j) (js_table j)))) as [->|Hne].
  - rewrite dict_get_set_eq. intros [= <-].
    exists (js_table j, js_alias j). split_and!; [set_solver|done|done].
  - rewrite dict_get_set_ne by done. intros Hget. destruct (Hm n t Hget) as (occ & ? & ? & ?).
    exists occ. set_solver.
Qed.

End scope_facts.

(** * Completeness of the reference visitor *)

Lemma select_item_expression_refs {Q} (item : SelectItem_ Q) e ref :
  e ∈ select_item_expressions item → ref ∈ expression_column_refs e →
  ref ∈ select_item_column_refs item.
Proof.
  intros He Href.
  destruct item as [?|? ? [?|] ? ?| | | | | | | |? ? [?|] ? ? ?];
    cbn [select_item_expressions select_item_column_refs option_list] in *;
    try (by apply not_elem_of_nil in He); apply list_elem_of_singleton in He as ->;
    [done..|]. cbn [option_flat_map]. set_solver.
Qed.

Lemma elem_of_at_position pos refs r :
  r ∈ at_position pos refs ↔ ref_position r = pos ∧ ref_ref r ∈ refs.
Proof.
  unfold at_position. rewrite elem_of_map. split.
  - by intros (x & -> & ?).
  - destruct r as [q x]; cbn. intros [-> ?]. eauto.
Qed.

Lemma column_refs_select q item ref :
  item ∈ select q → ref ∈ select_item_column_refs item →
  ∃ r, r ∈ iter_column_refs q ∧ ref_ref r = ref
       ∧ (ref_position r = SELECT_PROJECTION_BARE ↔ ∃ c, item = ColumnItem c).
Proof.
  intros Hi Hr. unfold iter_column_refs.
  destruct item as [c| | | | | | | | |] eqn:Eitem;
    [exists (MkColumnRef SELECT_PROJECTION_BARE ref)|exists (MkColumnRef SELECT_NESTED ref)..];
    (split; [|split; [done|cbn; split; [try done; naive_solver|naive_solver]]]);
    apply elem_of_app; left; apply elem_of_flat_map; eexists; (split; [exact Hi|]);
    [cbn in Hr; set_solver|apply elem_of_at_position; by split..].
Qed.

Lemma elem_of_where_column_refs {Q} (w : Where_ Q) p ref :
  p ∈ iter_where_predicates w → ref ∈ predicate_column_refs p → ref ∈ where_column_refs w.
Proof. intros. apply elem_of_flat_map. eauto. Qed.

Lemma column_refs_where_having q p ref :
  p ∈ iter_where_and_having_predicates q → ref ∈ predicate_column_refs p →
  ∃ r, r ∈ iter_column_refs q ∧ ref_ref r = ref ∧ ref_position r ≠ SELECT_PROJECTION_BARE.
Proof.
  intros Hp Hr. unfold iter_where_and_having_predicates in Hp.
  apply elem_of_app in Hp as [Hp|Hp]; rewrite option_flat_map_list in Hp;
    apply elem_of_flat_map in Hp as (w & Hw%elem_of_option_list & Hp);
    [exists (MkColumnRef WHERE ref)|exists (MkColumnRef HAVING ref)];
    (split; [|done]); unfold iter_column_refs; rewrite !option_flat_map_list, !elem_of_app.
  - do 2 right; left. apply elem_of_flat_map. exists w.
    split; [by apply elem_of_option_list|]. apply elem_of_at_position.
    split; [done|]. by eapply elem_of_where_column_refs.
  - do 4 right; left. apply elem_of_flat_map. exists w.
    split; [by apply elem_of_option_list|]. apply elem_of_at_position.
    split; [done|]. by eapply elem_of_where_column_refs.
Qed.

Lemma column_refs_join_condition q p ref :
  p ∈ iter_join_condition_predicates q → ref ∈ predicate_column_refs p →
  ∃ r, r ∈ iter_column_refs q ∧ ref_ref r = ref ∧ ref_position r ≠ SELECT_PROJECTION_BARE.
Proof.
  unfold iter_join_condition_predicates, iter_join_conditions.
  intros ((j & w) & Hjw & Hp)%elem_of_flat_map Hr.
  apply elem_of_flat_map in Hjw as (j' & Hj & Hw%elem_of_option_list).
  destruct (js_condition j') as [w'|] eqn:Ec; [|done]. cbn in Hw. simplify_eq.
  exists (MkColumnRef JOIN_CONDITION ref). split; [|done].
  unfold iter_column_refs. rewrite !elem_of_app. right; left.
  apply elem_of_flat_map. exists j. split; [done|]. rewrite Ec. cbn [option_flat_map].
  rewrite !elem_of_app. right; right. apply elem_of_at_position.
  split; [done|]. by eapply elem_of_where_column_refs.
Qed.

(** No expression of a scope mentions a column the visitor does not report. *)
Lemma scope_expression_refs q pos e ref :
  (pos, e) ∈ iter_scope_expressions_by_position q → ref ∈ expression_column_refs e →
  ∃ r, r ∈ iter_column_refs q ∧ ref_ref r = ref ∧ ref_position r ≠ SELECT_PROJECTION_BARE.
Proof.
  unfold iter_scope_expressions_by_position. rewrite !elem_of_app.
  assert (Hpred : ∀ p pos', (pos, e) ∈ map (λ e, (pos', e)) (predicate_expressions p) →
    ref ∈ expression_column_refs e → ref ∈ predicate_column_refs p).
  { intros p pos' Hm Hr. apply elem_of_map in Hm as (e' & ? & He). simplify_eq.
    apply elem_of_app; right. apply elem_of_flat_map. eauto. }
  intros [H|[H|H]] Hr; apply elem_of_flat_map in H as (x & Hx & He).
  - apply elem_of_map in He as (e' & ? & He). simplify_eq.
    destruct (column_refs_select q x ref) as (r & ? & ? & Hpos);
      [done|by eapply select_item_expression_refs|].
    exists r. split_and!; [done|done|]. rewrite Hpos. intros [c ->]. set_solver.
  - eapply column_refs_where_having; eauto.
  - eapply column_refs_join_condition; eauto.
Qed.

(** * Completeness of the boolean-tree walk *)

(** [leaf_of p w]: [p] sits somewhere in the tree, in any of the three fields
    of any group. *)
Inductive leaf_of {P} (p : P) : WhereNode_ P → Prop :=
| leaf_here : leaf_of p (WPredicate p)
| leaf_and a o n l c : a = Some l → c ∈ l → leaf_of p c → leaf_of p (WhereGroup a o n)
| leaf_or a o n l c : o = Some l → c ∈ l → leaf_of p c → leaf_of p (WhereGroup a o n)
| leaf_not a o n c : n = Some c → leaf_of p c → leaf_of p (WhereGroup a o n).

(** The children of a node, and induction through them. *)
Definition where_children {P} (w : WhereNode_ P) : list (WhereNode_ P) :=
  match w with
  | WPredicate _ => []
  | WhereGroup a o n => default [] a ++ default [] o ++ option_list n
  end.

Lemma where_ind_children {P} (R : WhereNode_ P → Prop)
  (H : ∀ w, (∀ c, c ∈ where_children w → R c) → R w) : ∀ w, R w.
Proof.
  fix IH 1. intros w. apply H, Forall_forall.
  assert (IHl : ∀ l, Forall R l).
  { fix IHl 1. intros [|c l]; [constructor|]. constructor; [apply IH|apply IHl]. }
  destruct w as [p|a o n]; cbn; [constructor|].
  apply Forall_app; split; [destruct a as [l|]; [apply IHl|constructor]|].
  apply Forall_app; split; [destruct o as [l|]; [apply IHl|constructor]|].
  destruct n as [c|]; cbn; [apply Forall_singleton, IH|constructor].
Qed.

Lemma iter_where_predicates_group {P} (p : P) a o n :
  p ∈ iter_where_predicates (WhereGroup a o n) →
  ∃ c, c ∈ where_children (WhereGroup a o n) ∧ p ∈ iter_where_predicates c.
Proof.
  unfold iter_where_predicates.
  assert (Hl : ∀ l, (∀ c, c ∈ l → c ∈ where_children (WhereGroup a o n)) →
    p ∈ flat_map (where_flat_map (λ p, [p])) l →
    ∃ c, c ∈ where_children (WhereGroup a o n) ∧ p ∈ where_flat_map (λ p, [p]) c).
  { intros l Hs (c & ? & ?)%elem_of_flat_map. eauto. }
  destruct n as [c|].
  { intros Hp. exists c. split; [cbn; set_solver|done]. }
  destruct a as [[|c cs]|]; cbn [where_flat_map].
  - destruct o as [cs|]; [apply (Hl cs); cbn; set_solver|by intros ?%not_elem_of_nil].
  - refine (Hl (c :: cs) _). cbn; set_solver.
  - destruct o as [cs|]; [apply (Hl cs); cbn; set_solver|by intros ?%not_elem_of_nil].
Qed.

(** The walk never invents a predicate, and on a validated tree it misses none. *)
Lemma iter_where_predicates_leaf {P} (p : P) w :
  p ∈ iter_where_predicates w → leaf_of p w.
Proof.
  induction w as [w IH] using where_ind_children. destruct w as [q|a o n].
  { intros ->%list_elem_of_singleton. constructor. }
  intros (c & Hc & Hp)%iter_where_predicates_group. specialize (IH c Hc Hp).
  cbn in Hc. rewrite !elem_of_app, elem_of_option_list in Hc.
  destruct Hc as [Hc|[Hc|Hc]]; [destruct a; cbn in Hc; [by eapply leaf_and|set_solver]
    |destruct o; cbn in Hc; [by eapply leaf_or|set_solver]|by eapply leaf_not].
Qed.

Lemma where_forallb_children {P} (leaf : P → bool) group a o n :
  where_forallb leaf group (WhereGroup a o n) = true ↔
    group a o n = true
    ∧ (∀ l c, a = Some l → c ∈ l → where_forallb leaf group c = true)
    ∧ (∀ l c, o = Some l → c ∈ l → where_forallb leaf group c = true)
    ∧ (∀ c, n = Some c → where_forallb leaf group c = true).
Proof.
  cbn. rewrite !andb_true_iff.
  assert (Hl : ∀ o : option (list (WhereNode_ P)),
    match o with Some l => forallb (where_forallb leaf group) l | None => true end = true
    ↔ ∀ l c, o = Some l → c ∈ l → where_forallb leaf group c = true).
  { intros [l|]; [|naive_solver]. rewrite forallb_elem. naive_solver. }
  rewrite !Hl. destruct n; naive_solver.
Qed.

Lemma leaf_iter_where_predicates {P} (leaf : P → bool) (p : P) w :
  where_forallb leaf exactly_one_boolean w = true → leaf_of p w →
  p ∈ iter_where_predicates w.
Proof.
  intros Hw Hl. unfold iter_where_predicates. revert Hw.
  assert (Hlist : ∀ c l, c ∈ l → p ∈ where_flat_map (λ p, [p]) c →
    p ∈ flat_map (where_flat_map (λ p, [p])) l) by (intros; apply elem_of_flat_map; eauto).
  induction Hl as [|a o n l c -> Hc _ IH|a o n l c -> Hc _ IH|a o n c -> _ IH];
    [cbn; set_solver|rewrite where_forallb_children; intros (Hg & Ha & Ho & Hn)..].
  - specialize (IH (Ha _ _ eq_refl Hc)). destruct l as [|d l]; [set_solver|].
    unfold exactly_one_boolean in Hg. destruct n; cbn in Hg; [by destruct (non_empty o)|].
    cbn. exact (Hlist c (d :: l) Hc IH).
  - specialize (IH (Ho _ _ eq_refl Hc)). destruct l as [|d l]; [set_solver|].
    unfold exactly_one_boolean in Hg. destruct n; cbn in Hg; [by destruct (non_empty a)|].
    destruct a as [[|x a]|]; [|done|]; exact (Hlist c (d :: l) Hc IH).
  - by apply IH, Hn.
Qed.

(** * Depth of the scope tree *)

Section depth_facts.
Context `{CF : CaseFold}.

Lemma chain_step_keys depths e k :
  k ∈ dict_keys (chain_step depths e) ↔ k = e.1 ∨ k ∈ dict_keys depths.
Proof. apply dict_keys_set. Qed.

Lemma chain_fold_get_ne es : ∀ depths n, n ∉ es.*1 →
  dict_get n (foldl chain_step depths es) = dict_get n depths.
Proof.
  induction es as [|e es IH]; intros depths n Hn; cbn; [done|].
  rewrite IH, chain_step_get by (cbn in Hn; set_solver).
  rewrite bool_decide_false; [done|]. cbn in Hn; set_solver.
Qed.

Lemma chain_fold_keys es : ∀ depths k,
  k ∈ dict_keys (foldl chain_step depths es) ↔ k ∈ es.*1 ∨ k ∈ dict_keys depths.
Proof.
  induction es as [|e es IH]; intros depths k; [cbn; set_solver|].
  cbn [foldl]. rewrite IH, chain_step_keys, fmap_cons, elem_of_cons. tauto.
Qed.

(** The entry of one block of the reference chain: one more than the deepest
    EARLIER block it reads. *)
Lemma chain_depths_entry pre e post :
  e.1 ∉ post.*1 →
  dict_get e.1 (chain_depths (pre ++ e :: post))
  = Some (1 + max_of (λ n, default 0 (dict_get n (chain_depths pre)))
                (filter (λ n, n ∈ dict_keys (chain_depths pre)) e.2)).
Proof.
  intros He. unfold chain_depths. rewrite foldl_app; cbn.
  rewrite chain_fold_get_ne, chain_step_get by done. by rewrite bool_decide_true.
Qed.

Lemma chain_depths_earlier pre es n :
  n ∉ es.*1 → dict_get n (chain_depths (pre ++ es)) = dict_get n (chain_depths pre).
Proof. intros. unfold chain_depths. rewrite foldl_app. by apply chain_fold_get_ne. Qed.

Lemma chain_depths_lt pre e mid post m e' :
  NoDup (pre ++ e :: mid ++ e' :: post).*1 → e = (m, e.2) → m ∈ e'.2 →
  default 0 (dict_get m (chain_depths (pre ++ e :: mid ++ e' :: post)))
  < default 0 (dict_get e'.1 (chain_depths (pre ++ e :: mid ++ e' :: post))).
Proof.
  intros Hnd He Hm. rewrite fmap_app in Hnd. cbn in Hnd. rewrite fmap_app in Hnd. cbn in Hnd.
  apply NoDup_app in Hnd as (_ & _ & Hnd). apply NoDup_cons in Hnd as [He1 Hnd].
  apply NoDup_app in Hnd as (_ & _ & Hnd). apply NoDup_cons in Hnd as [He'1 _].
  assert (Hm1 : m = e.1) by (by rewrite He). subst m. clear He.
  replace (pre ++ e :: mid ++ e' :: post) with ((pre ++ e :: mid) ++ e' :: post)
    by by rewrite <-app_assoc.
  rewrite (chain_depths_entry (pre ++ e :: mid)) by done. cbn [default].
  rewrite (chain_depths_earlier (pre ++ e :: mid)) by (cbn; set_solver).
  apply Nat.lt_succ_r. apply (max_of_elem (λ n, default 0 (dict_get n _))).
  apply list_elem_of_filter. split; [|done].
  unfold chain_depths. apply chain_fold_keys. left. rewrite fmap_app. cbn. set_solver.
Qed.

Lemma cte_depth_pos q c : c ∈ ctes q → 1 ≤ cte_depth q c.
Proof.
  intros Hc. unfold cte_depth, cte_chain_depths.
  assert (H : ∀ es depths n, (∀ v, dict_get n depths = Some v → 1 ≤ v) →
    n ∈ dict_keys (foldl chain_step depths es) →
    1 ≤ default 0 (dict_get n (foldl chain_step depths es))).
  { induction es as [|e es IH]; cbn; intros depths n Hd Hn.
    - apply dict_get_is_Some in Hn as [v Hv]. rewrite Hv. by apply Hd.
    - apply IH; [|done]. intros v. rewrite chain_step_get. case_bool_decide; [|apply Hd].
      intros [= <-]. lia. }
  apply H; [done|]. apply chain_fold_keys. left.
  apply list_elem_of_fmap. eexists. split; [|by apply elem_of_map; eexists]. done.
Qed.

(** The nesting a path stands for: its cte and subquery steps; an arm of a set
    operation sits at its carrier's depth. *)
Definition step_weight (s : scope_step) : nat := match s with InArm _ => 0 | _ => 1 end.

Lemma scopes_from_depth_path q : ∀ d s, s ∈ iter_query_scopes_from q d →
  d + sum_of step_weight (sc_path s) ≤ sc_depth s.
Proof.
  induction q as [q IH] using query_ind_children. intros d s.
  rewrite elem_of_iter_query_scopes_from.
  intros [->|(st & c & d' & t & Hc & Ht & ->)]; cbn; [lia|].
  specialize (IH c (scope_children_query _ _ _ _ _ Hc) d' t Ht).
  unfold scope_children in Hc. rewrite !elem_of_app, !elem_of_imap in Hc.
  destruct Hc as [(?&x&Hx&?)|[(?&?&?&?)|(?&?&?&?)]]; simplify_eq; cbn; unfold sum_of in *;
    [|lia..].
  apply list_elem_of_lookup_2, cte_depth_pos in Hx. lia.
Qed.
End depth_facts.

(** * Properties *)

Section properties.
Context `{CF : CaseFold}.

(** [nested_query c q]: [c] is [q] or sits anywhere below it, through a cte
    body, a set-operation arm or a WHERE/HAVING subquery. *)
Inductive nested_query : StructuredQuery → StructuredQuery → Prop :=
| nested_here q : nested_query q q
| nested_below c c' q : c' ∈ query_children q → nested_query c c' → nested_query c q.

Lemma nested_query_scopes c q : nested_query c q → ∀ d, ∃ s,
  s ∈ iter_query_scopes_from q d ∧ sc_query s = c.
Proof.
  induction 1 as [q|c c' q Hc _ IH]; intros d.
  - exists (MkScope [] d q). split; [|done]. apply elem_of_iter_query_scopes_from. by left.
  - destruct (scope_children_query_inv q d c' Hc) as (step & d' & Hs).
    destruct (IH d') as (s & Hs' & <-). exists (push_step step s). split; [|done].
    apply elem_of_iter_query_scopes_from. right. eauto 10.
Qed.

Lemma scopes_nested_query q : ∀ d s, s ∈ iter_query_scopes_from q d → nested_query (sc_query s) q.
Proof.
  induction q as [q IH] using query_ind_children. intros d s.
  rewrite elem_of_iter_query_scopes_from.
  intros [->|(st & c & d' & t & Hc & Ht & ->)]; [constructor|].
  apply scope_children_query in Hc. eapply nested_below; [done|]. exact (IH c Hc d' t Ht).
Qed.

(** The scope walk is exact: [iter_query_scopes] yields a query exactly when
    it is the root or nested anywhere below it (a cte body, a set-operation arm,
    a subquery of WHERE or HAVING, at any depth). *)
Theorem scope_walk_exact q c :
  nested_query c q ↔ ∃ s, s ∈ iter_query_scopes q ∧ sc_query s = c.
Proof.
  split; [intros H; by apply nested_query_scopes|].
  intros (s & Hs & <-). by eapply scopes_nested_query.
Qed.

(** The reference visitor is complete: a column mentioned by any node of any
    expression of a scope, at any depth and through CASE conditions and OVER
    clauses, is one of [iter_column_refs], in a position other than a bare
    projection. *)
Theorem reference_visitor_complete q pos e e' ref :
  (pos, e) ∈ iter_scope_expressions_by_position q →
  occurs e' e → node_mentions e' ref →
  ∃ r, r ∈ iter_column_refs q ∧ ref_ref r = ref ∧ ref_position r ≠ SELECT_PROJECTION_BARE.
Proof.
  intros He Ho Hm. eapply scope_expression_refs; [done|].
  apply elem_of_expression_column_refs. eauto.
Qed.

(** On a validated boolean tree (every group has exactly one non-empty
    field) the predicate walk visits every predicate of the tree and nothing
    else. *)
Theorem where_walk_exact {P} (leaf : P → bool) (w : WhereNode_ P) p :
  where_forallb leaf exactly_one_boolean w = true →
  p ∈ iter_where_predicates w ↔ leaf_of p w.
Proof.
  intros Hw. split; [apply iter_where_predicates_leaf|by apply (leaf_iter_where_predicates leaf)].
Qed.

(** [expression_depth] is the number of nodes on the longest path of the
    tree: some path has that many, and none has more. *)
Theorem expression_depth_longest {Q} (e : Expression_ Q) :
  (∃ e', occurs_at (pred (expression_depth e)) e' e)
  ∧ ∀ n e', occurs_at n e' e → n < expression_depth e.
Proof.
  split; [|by apply expression_depth_le].
  induction e as [e IH] using expression_ind_children.
  rewrite expression_depth_children. cbn.
  destruct (max_of_attained expression_depth (expression_children e))
    as [->|(c & Hc & ->)]; [eexists; constructor|].
  destruct (IH c Hc) as [e' He']. exists e'.
  rewrite expression_depth_children in *. cbn in He'. by econstructor.
Qed.

(** Depth of the scope tree: a scope's depth is at least the number of cte
    and subquery steps that lead to it, so [max_subquery_depth] bounds real
    nesting. *)
Theorem scope_depth_counts_nesting q s :
  s ∈ iter_query_scopes q → sum_of step_weight (sc_path s) ≤ sc_depth s.
Proof. intros Hs. by apply (scopes_from_depth_path q 0). Qed.

(** A cte is charged its place in the reference chain: with distinct folded
    names, a block that reads an earlier block is strictly deeper than it. *)
Theorem cte_chain_depth_increases q pre c mid c' post :
  ctes q = pre ++ c :: mid ++ c' :: post →
  NoDup (map (λ c, casefold (cte_name c)) (ctes q)) →
  casefold (cte_name c) ∈ cte_source_names (cte_query c') →
  cte_depth q c < cte_depth q c'.
Proof.
  intros Hq Hnd Hsrc. unfold cte_depth, cte_chain_depths. rewrite Hq in *.
  rewrite !map_app in *. cbn [map] in *. rewrite !map_app in *. cbn [map] in *.
  set (entry := λ c : CteSpec, (casefold (cte_name c), cte_source_names (cte_query c))).
  apply (chain_depths_lt (map entry pre) (entry c) (map entry mid) (map entry post)
    (casefold (cte_name c)) (entry c')); [|done|done].
  rewrite fmap_app. cbn. rewrite fmap_app. cbn.
  assert (Hm : ∀ l, (map entry l).*1 = map (λ c, casefold (cte_name c)) l).
  { intros l. induction l; cbn; congruence. }
  by rewrite !Hm.
Qed.
End properties.

(** ** Witnesses *)

(** A CASE whose condition compares [users.ssn], inside a date shift. *)
Definition sample_case : Expression :=
  DateAddExpr (CaseExpr
    [MkCaseWhen (WhereGroup None (Some [WPredicate (value_predicate "users.ssn" OpEq (JInt 1));
                                        WPredicate (value_predicate "users.id" OpEq (JInt 2))]) None)
       (ColumnExpr "users.born")] None) UDay 1.

Definition sample_case_query : StructuredQuery :=
  simple_query "users" [ExpressionSelectItem sample_case "d"].

Lemma reference_visitor_complete_witness :
  ∃ r, r ∈ iter_column_refs sample_case_query ∧ ref_ref r = "users.ssn"
       ∧ ref_position r ≠ SELECT_PROJECTION_BARE.
Proof.
  apply (reference_visitor_complete sample_case_query Projection sample_case
    (match sample_case with DateAddExpr e _ _ => e | e => e end)).
  - apply list_elem_of_In. cbn. by left.
  - eapply occurs_below; [|constructor]. cbn. by left.
  - right; right. eexists _, _. split_and!; [by left|by left|by left].
Defined.

Definition sample_or : WhereNode :=
  WhereGroup (Some []) (Some [WPredicate (value_predicate "a.x" OpEq (JInt 1));
                              WhereGroup None None
                                (Some (WPredicate (value_predicate "a.y" OpEq (JInt 2))))]) None.

Lemma where_walk_exact_witness :
  value_predicate "a.y" OpEq (JInt 2) ∈ iter_where_predicates sample_or.
Proof.
  apply (where_walk_exact (λ _, true) sample_or); [reflexivity|].
  eapply leaf_or; [reflexivity|right; by left|]. eapply leaf_not; [reflexivity|]. constructor.
Defined.

(** A cte that reads another one, and a query that reads it in a subquery. *)
Definition sample_cte (name table : string) : CteSpec :=
  MkCteSpec name (simple_query table [ColumnItem (table +:+ ".id")]).

Definition sample_ctes_query : StructuredQuery :=
  with_ctes [sample_cte "first" "users"; sample_cte "second" "first"]
    (with_where (WPredicate (in_subquery "second.id" (simple_query "orders" [ColumnItem "orders.id"])))
       (simple_query "second" [ColumnItem "second.id"])).

Lemma scope_depth_counts_nesting_witness :
  let q := sample_ctes_query in
  let s := MkScope [InSubquery 0] 1 (simple_query "orders" [ColumnItem "orders.id"]) in
  sum_of step_weight (sc_path s) ≤ sc_depth s.
Proof.
  apply (@scope_depth_counts_nesting ascii_casefold sample_ctes_query).
  apply list_elem_of_In. vm_compute. auto 10.
Defined.

Lemma cte_chain_depth_increases_witness :
  @cte_depth ascii_casefold sample_ctes_query (sample_cte "first" "users")
  < @cte_depth ascii_casefold sample_ctes_query (sample_cte "second" "first").
Proof.
  apply (@cte_chain_depth_increases ascii_casefold sample_ctes_query
    [] (sample_cte "first" "users") [] (sample_cte "second" "first") []).
  - reflexivity.
  - vm_compute. repeat constructor; set_solver.
  - apply list_elem_of_In. vm_compute. auto.
Defined.
