(* ===== verification/Policy.v ===== *)
(** The policy model of [policy/models.py]: masks, mandatory row filters, the
    write policy, purpose deltas and the policy itself, with the lookups every
    enforcement layer consults. The one class [Policy] is a record of records,
    one per family of fields, in the order the class declares them. *)
From S2P Require Export Ast.
Local Open Scope Z_scope.

(** * Enumerations *)

Inductive CostEstimationMode := ENFORCE | OBSERVE.

Inductive ColumnMaskKind := HASH | MASK_NULL | LAST | BUCKET.

#[export] Instance ColumnMaskKind_eq_dec : EqDecision ColumnMaskKind.
Proof. solve_decision. Defined.

(** [catalog/models.py: SensitivityClass]. *)
Inductive SensitivityClass := SENS_NONE | SENS_INTERNAL | SENS_CONFIDENTIAL | SENS_PII.

#[export] Instance SensitivityClass_eq_dec : EqDecision SensitivityClass.
Proof. solve_decision. Defined.

Definition sensitivity_text (l : SensitivityClass) : string :=
  match l with SENS_NONE => "none" | SENS_INTERNAL => "internal" | SENS_CONFIDENTIAL => "confidential" | SENS_PII => "pii" end.

(** * Column masks *)

Record ColumnMask := MkColumnMask {
  mask_column : string;
  mask_kind : ColumnMaskKind;
  mask_length : option Z;
  mask_bucket_size : option float64;
}.

(** [ColumnMask._check_params]. *)
Definition check_mask_params (m : ColumnMask) : result unit :=
  match mask_kind m with
  | LAST =>
      if match mask_length m with None => true | Some n => n <=? 0 end
      then Raise (ValueError "column_mask kind 'last' needs length > 0")
      else raise_if (is_some (mask_bucket_size m))
             (ValueError "column_mask kind 'last' forbids bucket_size")
  | BUCKET =>
      if match mask_bucket_size m with None => true | Some f => SFleb f f64_zero end
      then Raise (ValueError "column_mask kind 'bucket' needs bucket_size > 0")
      else raise_if (is_some (mask_length m))
             (ValueError "column_mask kind 'bucket' forbids length")
  | HASH | MASK_NULL =>
      raise_if (is_some (mask_length m) || is_some (mask_bucket_size m))
        (ValueError "column_mask kind takes no parameters")
  end.

(** * Principals and mandatory row filters *)

(** [core/auth.py: Actor] and [Principal]; [claims] is a string-keyed mapping,
    [scopes] a frozenset. *)
Inductive Actor := MkActor (actor_subject_ : string) (delegated_by : option Actor).

Record Principal := MkPrincipal {
  subject : string;
  scopes : gset string;
  claims : dict json;
  auth_method : string;
  actor : option Actor;
}.

(** [Principal.delegation_chain]: immediate agent first. *)
Fixpoint actor_chain (a : Actor) : list string :=
  match a with
  | MkActor s None => [s]
  | MkActor s (Some b) => s :: actor_chain b
  end.

Definition is_delegated (p : Principal) : bool := is_some (actor p).

Definition actor_subject (p : Principal) : option string :=
  (λ '(MkActor s _), s) <$> actor p.

Definition delegation_chain (p : Principal) : list string :=
  option_flat_map actor_chain (actor p).

Record MandatoryRowFilter := MkRowFilter {
  rf_table : string;
  rf_column : string;
  rf_value : json;
  rf_from_claim : option string;
}.

(** [MandatoryRowFilter._require_one_value_source]. *)
Definition require_one_value_source (f : MandatoryRowFilter) : result unit :=
  raise_if (negb (is_some (rf_from_claim f)) && json_is_none (rf_value f))
    (ValueError "mandatory_row_filter needs either 'value' or 'from_claim'").

(** [MandatoryRowFilter.resolve]. *)
Definition resolve_row_filter (f : MandatoryRowFilter) (principal : option Principal) :
  result json :=
  match rf_from_claim f with
  | None => Ok (rf_value f)
  | Some claim =>
      match principal with
      | None => Raise (PolicyViolationError "mandatory_row_filter requires claim")
      | Some p =>
          match dict_get claim (claims p) with
          | None => Raise (PolicyViolationError "mandatory_row_filter requires claim")
          | Some v => Ok v
          end
      end
  end.

(** * The write policy *)

Inductive WriteOperation := OpInsert | OpUpdate | OpDelete | OpUpsert.

#[export] Instance WriteOperation_eq_dec : EqDecision WriteOperation.
Proof. solve_decision. Defined.

Record WritePolicy := MkWritePolicy {
  wp_enabled : bool;
  wp_allowed_tables : list string;
  wp_allowed_operations : list WriteOperation;
  wp_denied_write_columns : dict (list string);
  wp_max_affected_rows : Z;
  wp_require_approval_over_rows : option Z;
  wp_max_diff_rows : Z;
  wp_max_batch_size : Z;
}.

Definition default_write_policy : WritePolicy :=
  MkWritePolicy false [] [] [] 100 None 50 10.

(** Field bounds [ge=]. *)
Definition write_policy_fields_ok (w : WritePolicy) : bool :=
  (1 <=? wp_max_affected_rows w)
  && match wp_require_approval_over_rows w with Some n => 0 <=? n | None => true end
  && (1 <=? wp_max_diff_rows w) && (1 <=? wp_max_batch_size w).

(** * The policy *)

(** A narrowing delta layered onto a policy by a declared purpose. *)
Record PurposePolicyDelta := MkDelta {
  dl_denied_tables : list string;
  dl_denied_columns : dict (list string);
  dl_mandatory_row_filters : list MandatoryRowFilter;
  dl_column_masks : dict (list ColumnMask);
}.

(** Access rules. *)
Record PolicyAccess := MkAccess {
  enabled : bool;
  allowed_tables : list string;
  denied_tables : list string;
  allowed_columns : dict (list string);
  denied_columns : dict (list string);
  require_explicit_allowlist : bool;
  allowed_purposes : list string;
  purpose_policies : dict PurposePolicyDelta;
  column_masks : dict (list ColumnMask);
}.

(** Query complexity caps. *)
Record PolicyCaps := MkCaps {
  max_joins : Z;
  allow_cross_join : bool;
  max_select_columns : Z;
  max_where_depth : Z;
  max_group_by : Z;
  max_subquery_depth : Z;
  max_set_op_arms : Z;
  max_cte_count : Z;
  max_correlated_refs : Z;
  max_limit : Z;
  max_limit_aggregate : Z;
  default_limit : Z;
  max_top_n : Z;
  max_partition_by : Z;
  max_batch_size : Z;
  max_where_predicates : Z;
  max_in_list_size : Z;
  max_case_branches : Z;
  max_expression_depth : Z;
  max_expression_nodes : Z;
}.

(** Window, interval and k-anonymity caps. *)
Record PolicyWindows := MkWindows {
  max_window_specs : Z;
  max_window_frame_offset : Z;
  max_interval_days : Z;
  min_group_size : option Z;
}.

(** The cumulative disclosure budget and the response size. *)
Record PolicyDisclosure := MkDisclosure {
  max_shape_repeats_per_window : option Z;
  max_aggregate_queries_per_window : option Z;
  disclosure_budget_window_seconds : Z;
  max_response_bytes : Z;
}.

(** Execution guardrails and the request quota. *)
Record PolicyExecution := MkExecution {
  timeout_seconds : Z;
  max_concurrency : Z;
  concurrency_wait_seconds : float64;
  max_queue_depth : option Z;
  max_queue_depth_per_principal : option Z;
  allow_query_cancellation : bool;
  max_requests_per_window : option Z;
  max_response_bytes_per_window : option Z;
  quota_window_seconds : Z;
}.

(** Cost estimation, approval, rendering, templates and row filters. *)
Record PolicyGates := MkGates {
  max_estimated_rows : option Z;
  max_estimated_cost : option float64;
  cost_estimation_mode : CostEstimationMode;
  approval_max_estimated_rows : option Z;
  approval_max_estimated_cost : option float64;
  approval_sensitivities : list SensitivityClass;
  log_query_literals : bool;
  verdict_include_plan : bool;
  templates_only : bool;
  join_group : option string;
  mandatory_row_filters : list MandatoryRowFilter;
}.

Record Policy := MkPolicy {
  access : PolicyAccess;
  write : WritePolicy;
  caps : PolicyCaps;
  windows : PolicyWindows;
  disclosure : PolicyDisclosure;
  execution : PolicyExecution;
  gates : PolicyGates;
}.

Definition f64_ten : float64 := S754_finite false 5629499534213120 (-49).

(** [Policy()]: the defaults every family declares. *)
Definition default_access : PolicyAccess := MkAccess true [] [] [] [] false [] [] [].
Definition default_caps : PolicyCaps :=
  MkCaps 5 false 30 5 10 1 3 3 2 100 1000 50 50 5 10 100 1000 10 5 200.
Definition default_windows : PolicyWindows := MkWindows 5 1000 3660 None.
Definition default_disclosure : PolicyDisclosure := MkDisclosure None None 3600 10000000.
Definition default_execution : PolicyExecution :=
  MkExecution 30 8 f64_ten None None false None None 60.
Definition default_gates : PolicyGates :=
  MkGates None None ENFORCE None None [] false false false None [].
Definition default_policy : Policy :=
  MkPolicy default_access default_write_policy default_caps default_windows
    default_disclosure default_execution default_gates.

(** The properties computed from the fields. *)
Definition cost_estimation_enabled (p : Policy) : bool :=
  is_some (max_estimated_rows (gates p)) || is_some (max_estimated_cost (gates p)).

Definition approval_cost_gate_enabled (p : Policy) : bool :=
  is_some (approval_max_estimated_rows (gates p))
  || is_some (approval_max_estimated_cost (gates p)).

Definition approval_gate_enabled (p : Policy) : bool :=
  approval_cost_gate_enabled p
  || match approval_sensitivities (gates p) with [] => false | _ => true end.

Definition estimate_needed (p : Policy) : bool :=
  cost_estimation_enabled p || approval_cost_gate_enabled p.

Definition query_quota_enabled (p : Policy) : bool :=
  is_some (max_requests_per_window (execution p))
  || is_some (max_response_bytes_per_window (execution p)).

Definition disclosure_budget_enabled (p : Policy) : bool :=
  is_some (max_shape_repeats_per_window (disclosure p))
  || is_some (max_aggregate_queries_per_window (disclosure p)).

(** [Policy._disclosure_budget_needs_a_k_floor]. *)
Definition disclosure_budget_needs_a_k_floor (p : Policy) : result unit :=
  raise_if (disclosure_budget_enabled p && negb (is_some (min_group_size (windows p))))
    (ValueError "the cumulative disclosure budget requires min_group_size").

(** Field bounds of [Policy]: [opt_ge n o] is [ge=n] on an optional field. *)
Definition opt_ge (n : Z) (o : option Z) : bool :=
  match o with Some v => n <=? v | None => true end.

Definition policy_fields_ok (p : Policy) : bool :=
  (0 <=? max_subquery_depth (caps p)) && (0 <=? max_set_op_arms (caps p))
  && (0 <=? max_cte_count (caps p)) && (0 <=? max_correlated_refs (caps p))
  && (1 <=? max_expression_depth (caps p)) && (1 <=? max_expression_nodes (caps p))
  && (0 <=? max_window_specs (windows p)) && (1 <=? max_window_frame_offset (windows p))
  && (0 <=? max_interval_days (windows p)) && opt_ge 2 (min_group_size (windows p))
  && opt_ge 1 (max_shape_repeats_per_window (disclosure p))
  && opt_ge 1 (max_aggregate_queries_per_window (disclosure p))
  && (1 <=? disclosure_budget_window_seconds (disclosure p))
  && (1 <=? timeout_seconds (execution p)) && (1 <=? max_concurrency (execution p))
  && opt_ge 0 (max_queue_depth (execution p))
  && opt_ge 0 (max_queue_depth_per_principal (execution p))
  && opt_ge 1 (max_requests_per_window (execution p))
  && opt_ge 1 (max_response_bytes_per_window (execution p))
  && (1 <=? quota_window_seconds (execution p))
  && write_policy_fields_ok (write p).

(** Validation of a policy document. *)
Definition validate_policy_model (p : Policy) : result unit :=
  raise_if (negb (policy_fields_ok p)) (ValueError "field constraint") ≫= λ _,
  for_each check_mask_params (concat (column_masks (access p)).*2) ≫= λ _,
  for_each require_one_value_source (mandatory_row_filters (gates p)) ≫= λ _,
  for_each (λ d,
    for_each check_mask_params (concat (dl_column_masks d).*2) ≫= λ _,
    for_each require_one_value_source (dl_mandatory_row_filters d))
    (purpose_policies (access p)).*2 ≫= λ _,
  disclosure_budget_needs_a_k_floor p.

(** * Lookups *)

Section lookups.
Context `{CF : CaseFold}.

(** [a.casefold() == b.casefold()]. *)
Definition ci_eq (a b : string) : bool := bool_decide (casefold a = casefold b).

(** [any(x.casefold() == target for x in l)]. *)
Definition ci_mem (x : string) (l : list string) : bool := existsb (λ y, ci_eq y x) l.

(** [_ci_lookup]: the FIRST entry whose key folds to the same text. *)
Fixpoint ci_lookup {A} (mapping : dict (list A)) (key : string) : option (list A) :=
  match mapping with
  | [] => None
  | (k, v) :: rest => if ci_eq k key then Some v else ci_lookup rest key
  end.

(** [_ci_lookup(m, key) or []]. *)
Definition ci_values {A} (mapping : dict (list A)) (key : string) : list A :=
  default [] (ci_lookup mapping key).

(** [WritePolicy.table_writable], [operation_allowed], [write_column_allowed]. *)
Definition table_writable (w : WritePolicy) (table_name : string) : bool :=
  wp_enabled w && ci_mem table_name (wp_allowed_tables w).

Definition operation_allowed (w : WritePolicy) (op : WriteOperation) : bool :=
  wp_enabled w && bool_decide (op ∈ wp_allowed_operations w).

Definition write_column_allowed (w : WritePolicy) (table_name column_name : string) : bool :=
  negb (ci_mem column_name
    (ci_values (wp_denied_write_columns w) table_name
     ++ ci_values (wp_denied_write_columns w) "*")).

(** [Policy.table_allowed]. *)
Definition table_allowed (p : Policy) (table_name : string) : bool :=
  if ci_mem table_name (denied_tables (access p)) then false
  else match allowed_tables (access p) with
       | [] => negb (require_explicit_allowlist (access p))
       | allowed => ci_mem table_name allowed
       end.

(** [Policy.column_allowed]. *)
Definition column_allowed (p : Policy) (table_name column_name : string) : bool :=
  if ci_mem column_name
       (ci_values (denied_columns (access p)) table_name
        ++ ci_values (denied_columns (access p)) "*")
  then false
  else
    let allowed :=
      match ci_lookup (allowed_columns (access p)) table_name with
      | Some specific => Some specific
      | None => ci_lookup (allowed_columns (access p)) "*"
      end in
    match allowed with
    | Some l => ci_mem column_name l
    | None => negb (require_explicit_allowlist (access p))
    end.

(** [Policy.column_mask]: the table's own list, then the wildcard list; the
    first match on the column wins. *)
Definition first_mask (column_name : string) (masks : list ColumnMask) : option ColumnMask :=
  find (λ m, ci_eq (mask_column m) column_name) masks.

Definition column_mask (p : Policy) (table_name column_name : string) : option ColumnMask :=
  match first_mask column_name (ci_values (column_masks (access p)) table_name) with
  | Some m => Some m
  | None => first_mask column_name (ci_values (column_masks (access p)) "*")
  end.

(** [Policy._merge_table_keyed]. Every table of the merged mappings is a key of
    [canonical] ([canonical_covers] below), so the code's [canonical[...]]
    never raises and the default is never taken. *)
Definition canonical_names {A} (key_preference : list (dict (list A))) : dict string :=
  foldl (λ c table, dict_setdefault (casefold table) table c) []
    (flat_map dict_keys key_preference).

Definition merge_entry {A} (canonical : dict string) (merged : dict (list A))
  (entry : string * list A) : dict (list A) :=
  let key := default entry.1 (dict_get (casefold entry.1) canonical) in
  dict_set key (default [] (dict_get key merged) ++ entry.2) merged.

Definition merge_table_keyed {A} (mappings_in_order key_preference : list (dict (list A))) :
  dict (list A) :=
  foldl (merge_entry (canonical_names key_preference)) [] (concat mappings_in_order).

(** [Policy.for_purpose]. *)
Definition apply_delta (p : Policy) (delta : PurposePolicyDelta) : Policy :=
  let a := access p in
  let g := gates p in
  {| access :=
       {| enabled := enabled a;
          allowed_tables := allowed_tables a;
          denied_tables := denied_tables a ++ dl_denied_tables delta;
          allowed_columns := allowed_columns a;
          denied_columns :=
            merge_table_keyed [denied_columns a; dl_denied_columns delta]
              [denied_columns a; dl_denied_columns delta];
          require_explicit_allowlist := require_explicit_allowlist a;
          allowed_purposes := allowed_purposes a;
          purpose_policies := purpose_policies a;
          column_masks :=
            merge_table_keyed [dl_column_masks delta; column_masks a]
              [column_masks a; dl_column_masks delta] |};
     write := write p;
     caps := caps p;
     windows := windows p;
     disclosure := disclosure p;
     execution := execution p;
     gates :=
       {| max_estimated_rows := max_estimated_rows g;
          max_estimated_cost := max_estimated_cost g;
          cost_estimation_mode := cost_estimation_mode g;
          approval_max_estimated_rows := approval_max_estimated_rows g;
          approval_max_estimated_cost := approval_max_estimated_cost g;
          approval_sensitivities := approval_sensitivities g;
          log_query_literals := log_query_literals g;
          verdict_include_plan := verdict_include_plan g;
          templates_only := templates_only g;
          join_group := join_group g;
          mandatory_row_filters :=
            mandatory_row_filters g ++ dl_mandatory_row_filters delta |} |}.

Definition for_purpose (p : Policy) (purpose_ : option string) : Policy :=
  match purpose_ with
  | None => p
  | Some name =>
      match dict_get name (purpose_policies (access p)) with
      | None => p
      | Some delta => apply_delta p delta
      end
  end.
End lookups.

(** * Facts about the lookups *)

Section lookup_facts.
Context `{CF : CaseFold}.

Lemma ci_eq_true a b : ci_eq a b = true ↔ casefold a = casefold b.
Proof. apply bool_decide_eq_true. Qed.

Lemma ci_mem_true x l : ci_mem x l = true ↔ ∃ y, y ∈ l ∧ casefold y = casefold x.
Proof. unfold ci_mem. rewrite existsb_elem. by setoid_rewrite ci_eq_true. Qed.

Lemma ci_mem_casefold x y l : casefold x = casefold y → ci_mem x l = ci_mem y l.
Proof. intros H. unfold ci_mem, ci_eq. by rewrite H. Qed.

Lemma ci_mem_app x l k : ci_mem x (l ++ k) = ci_mem x l || ci_mem x k.
Proof. apply existsb_app. Qed.

Lemma ci_lookup_casefold {A} (m : dict (list A)) a b :
  casefold a = casefold b → ci_lookup m a = ci_lookup m b.
Proof.
  intros H. induction m as [|[k v] m IH]; cbn; [done|].
  unfold ci_eq. by rewrite H, IH.
Qed.

(** Spelling never matters: a table or column name reaches the same verdict in
    any casing. *)
Lemma table_allowed_casefold p a b :
  casefold a = casefold b → table_allowed p a = table_allowed p b.
Proof.
  intros H. unfold table_allowed. rewrite (ci_mem_casefold a b _ H).
  by destruct (allowed_tables (access p)); rewrite ?(ci_mem_casefold a b _ H).
Qed.

Lemma column_allowed_casefold p t t' c c' :
  casefold t = casefold t' → casefold c = casefold c' →
  column_allowed p t c = column_allowed p t' c'.
Proof.
  intros Ht Hc. unfold column_allowed, ci_values.
  rewrite !(ci_lookup_casefold _ t t' Ht), (ci_mem_casefold c c' _ Hc).
  repeat case_match; by rewrite ?(ci_mem_casefold c c' _ Hc).
Qed.

Lemma first_mask_casefold c c' l :
  casefold c = casefold c' → first_mask c l = first_mask c' l.
Proof.
  intros H. unfold first_mask. induction l as [|m l IH]; cbn; [done|].
  unfold ci_eq at 1 3. by rewrite H, IH.
Qed.

Lemma column_mask_casefold p t t' c c' :
  casefold t = casefold t' → casefold c = casefold c' →
  column_mask p t c = column_mask p t' c'.
Proof.
  intros Ht Hc. unfold column_mask, ci_values.
  by rewrite (ci_lookup_casefold _ t t' Ht), !(first_mask_casefold c c' _ Hc).
Qed.

Lemma first_mask_is_Some c l :
  is_Some (first_mask c l) ↔ ∃ m, m ∈ l ∧ casefold (mask_column m) = casefold c.
Proof.
  unfold first_mask. split.
  - intros [m Hm]. apply find_some in Hm as [Hin Hm].
    exists m. by rewrite list_elem_of_In, <-ci_eq_true.
  - intros (m & Hin & Hm). destruct (find _ l) eqn:E; [by eexists|].
    apply (find_none _ _) with (x := m) in E; [|by apply list_elem_of_In].
    apply ci_eq_true in Hm. congruence.
Qed.

Lemma first_mask_app c l k :
  first_mask c (l ++ k)
  = match first_mask c l with Some m => Some m | None => first_mask c k end.
Proof.
  unfold first_mask. induction l as [|m l IH]; cbn; [done|]. by destruct (ci_eq _ _).
Qed.

Lemma column_mask_is_Some p t c :
  is_Some (column_mask p t c) ↔
  ∃ m, (m ∈ ci_values (column_masks (access p)) t
        ∨ m ∈ ci_values (column_masks (access p)) "*")
       ∧ casefold (mask_column m) = casefold c.
Proof.
  unfold column_mask. destruct (first_mask c _) eqn:E.
  - split; [intros _|by eexists].
    assert (Hs : is_Some (first_mask c (ci_values (column_masks (access p)) t))) by by eexists.
    apply first_mask_is_Some in Hs as (m & ? & ?). eauto.
  - rewrite first_mask_is_Some. split; [naive_solver|].
    intros (m & [Hm|Hm] & Hc); [|eauto].
    assert (Hs : is_Some (first_mask c (ci_values (column_masks (access p)) t)))
      by (apply first_mask_is_Some; eauto).
    rewrite E in Hs. by destruct Hs.
Qed.

(** ** The table-keyed merge *)

(** Every entry of the mappings written under a spelling of [t], in order. *)
Definition entries_for {A} (t : string) (entries : list (string * list A)) : list A :=
  flat_map (λ e, if ci_eq e.1 t then e.2 else []) entries.

Lemma canonical_setdefault_spec tables c0 t :
  (∀ f n, dict_get f c0 = Some n → casefold n = f) →
  let c := foldl (λ c table, dict_setdefault (casefold table) table c) c0 tables in
  (∀ f n, dict_get f c = Some n → casefold n = f)
  ∧ (t ∈ tables ∨ is_Some (dict_get (casefold t) c0) → is_Some (dict_get (casefold t) c)).
Proof.
  revert c0. induction tables as [|x l IH]; intros c0 H0; cbn; [set_solver|].
  destruct (IH (dict_setdefault (casefold x) x c0)) as [H1 H2].
  - intros f n. rewrite dict_get_setdefault. case_bool_decide as Hf; [|by apply H0].
    intros [= <-]. destruct (dict_get f c0) eqn:E; cbn; [by apply H0|done].
  - split; [done|]. intros Ht. apply H2. destruct Ht as [[->|Ht]%elem_of_cons|Ht].
    + right. rewrite dict_get_setdefault. case_bool_decide; [by eexists|done].
    + by left.
    + right. rewrite dict_get_setdefault. case_bool_decide; [by eexists|done].
Qed.

(** The lookup [canonical[table.casefold()]] succeeds for every merged table. *)
Lemma canonical_covers {A} (key_preference : list (dict (list A))) t :
  t ∈ flat_map dict_keys key_preference →
  ∃ n, dict_get (casefold t) (canonical_names key_preference) = Some n ∧ casefold n = casefold t.
Proof.
  intros Ht. unfold canonical_names.
  destruct (canonical_setdefault_spec (flat_map dict_keys key_preference) [] t) as [H1 H2];
    [done|]. destruct H2 as [n Hn]; [by left|]. exists n. split; [done|]. by apply H1.
Qed.

(** The keys a merge has produced so far are the canonical spellings. *)
Definition canonical_ok (canonical : dict string) : Prop :=
  ∀ f n, dict_get f canonical = Some n → casefold n = f.

Definition canonical_keys {A} (canonical : dict string) (merged : dict (list A)) : Prop :=
  ∀ k, k ∈ dict_keys merged → dict_get (casefold k) canonical = Some k.

Lemma canonical_names_ok {A} (key_preference : list (dict (list A))) :
  canonical_ok (canonical_names key_preference).
Proof.
  unfold canonical_names. by destruct (canonical_setdefault_spec
    (flat_map dict_keys key_preference) [] "") as [H1 _].
Qed.

Lemma ci_lookup_canonical {A} canonical (merged : dict (list A)) t :
  canonical_ok canonical → canonical_keys canonical merged →
  ci_lookup merged t
  = match dict_get (casefold t) canonical with Some k => dict_get k merged | None => None end.
Proof.
  unfold canonical_keys. intros Hok. induction merged as [|[k v] m IH]; intros Hk; cbn.
  { by destruct (dict_get _ _). }
  rewrite IH by (intros; apply Hk; set_solver).
  destruct (ci_eq k t) eqn:E.
  - apply ci_eq_true in E. rewrite <-E, (Hk k) by set_solver.
    by rewrite bool_decide_true.
  - destruct (dict_get (casefold t) canonical) as [n|] eqn:En; [|done].
    case_bool_decide as Hn; [subst n|done].
    apply Hok in En. unfold ci_eq in E. case_bool_decide; congruence.
Qed.

Lemma merge_entry_keys {A} canonical (merged : dict (list A)) e n :
  canonical_ok canonical → canonical_keys canonical merged →
  dict_get (casefold e.1) canonical = Some n →
  canonical_keys canonical (merge_entry canonical merged e).
Proof.
  intros Hok Hk Hn k. unfold merge_entry. rewrite Hn; cbn. rewrite dict_keys_set.
  intros [->|?]; [|by apply Hk]. by rewrite (Hok _ _ Hn).
Qed.

(** One merge step appends the entry's values to what its table had, under any
    spelling, and leaves every other table alone. *)
Lemma merge_entry_lookup {A} canonical (merged : dict (list A)) e n t :
  canonical_ok canonical → canonical_keys canonical merged →
  dict_get (casefold e.1) canonical = Some n →
  ci_lookup (merge_entry canonical merged e) t
  = if ci_eq e.1 t then Some (ci_values merged t ++ e.2) else ci_lookup merged t.
Proof.
  intros Hok Hk Hn. unfold ci_values.
  rewrite !(ci_lookup_canonical canonical) by eauto using merge_entry_keys.
  unfold merge_entry. rewrite Hn; cbn. destruct (ci_eq e.1 t) eqn:E.
  - apply ci_eq_true in E. rewrite <-E, Hn. by rewrite dict_get_set_eq.
  - destruct (dict_get (casefold t) canonical) as [n'|] eqn:En'; [|done].
    apply dict_get_set_ne. intros ->. apply Hok in Hn. apply Hok in En'.
    unfold ci_eq in E. case_bool_decide; congruence.
Qed.

Lemma merge_entries_lookup {A} canonical entries : ∀ (merged : dict (list A)) t,
  canonical_ok canonical → canonical_keys canonical merged →
  (∀ e, e ∈ entries → is_Some (dict_get (casefold e.1) canonical)) →
  ci_values (foldl (merge_entry canonical) merged entries) t
  = ci_values merged t ++ entries_for t entries.
Proof.
  induction entries as [|e l IH]; intros merged t Hok Hk Hc.
  { cbn. by rewrite app_nil_r. }
  cbn [foldl]. unfold entries_for; cbn [flat_map]. fold (entries_for t l).
  destruct (Hc e) as [n Hn]; [set_solver|].
  rewrite IH by (try eapply merge_entry_keys; eauto; set_solver).
  unfold ci_values at 1. rewrite (merge_entry_lookup _ _ _ n) by done.
  destruct (ci_eq e.1 t); cbn; [by rewrite <-app_assoc|done].
Qed.

(** The merge, read back: under any spelling of a table, the values of every
    mapping's entries for that table, concatenated in mapping order. *)
Lemma merge_table_keyed_values {A} (ms kp : list (dict (list A))) t :
  (∀ m, m ∈ ms → m ∈ kp) →
  ci_values (merge_table_keyed ms kp) t = entries_for t (concat ms).
Proof.
  intros Hkp. unfold merge_table_keyed.
  rewrite merge_entries_lookup; [done|apply canonical_names_ok|intros k; set_solver|].
  intros e (m & Hm & He)%elem_of_concat.
  destruct (canonical_covers kp e.1) as (n & Hn & _); [|by eexists].
  apply elem_of_flat_map. exists m. split; [by apply Hkp|].
  unfold dict_keys. apply list_elem_of_fmap. by exists e.
Qed.

Lemma entries_for_app {A} t (l k : list (string * list A)) :
  entries_for t (l ++ k) = entries_for t l ++ entries_for t k.
Proof. apply flat_map_app. Qed.

(** What a plain lookup returns is a prefix of the entries of the table: the
    FIRST spelling's list. *)
Lemma ci_values_prefix {A} (m : dict (list A)) t :
  ci_values m t `prefix_of` entries_for t m.
Proof.
  unfold ci_values. induction m as [|[k v] m IH]; cbn; [done|].
  destruct (ci_eq k t); cbn; [by apply prefix_app_r|done].
Qed.

Lemma ci_values_entries {A} (m : dict (list A)) t x :
  x ∈ ci_values m t → x ∈ entries_for t m.
Proof. intros Hx. destruct (ci_values_prefix m t) as [k ->]. set_solver. Qed.

(** No table of a merged mapping is lost, up to spelling. *)
Lemma merge_entries_keys {A} canonical entries : ∀ (merged : dict (list A)) k,
  canonical_ok canonical →
  k ∈ dict_keys merged ∨ k ∈ entries.*1 →
  ∃ k', k' ∈ dict_keys (foldl (merge_entry canonical) merged entries)
        ∧ casefold k' = casefold k.
Proof.
  induction entries as [|e l IH]; intros merged k Hok Hk.
  { destruct Hk as [Hk|Hk]; [by exists k|by apply not_elem_of_nil in Hk]. }
  cbn [foldl]. rewrite fmap_cons, elem_of_cons in Hk.
  destruct Hk as [Hk|[->|Hk]]; [| |by apply IH; [done|right]].
  - apply IH; [done|]. left. unfold merge_entry. apply dict_keys_set. by right.
  - set (key := default e.1 (dict_get (casefold e.1) canonical)).
    destruct (IH (merge_entry canonical merged e) key) as (k' & ? & Hf); [done|left|].
    { apply dict_keys_set. by left. }
    exists k'. split; [done|]. rewrite Hf. subst key.
    destruct (dict_get (casefold e.1) canonical) as [n|] eqn:En; cbn; [by apply Hok|done].
Qed.

Lemma merge_table_keyed_keys {A} (ms kp : list (dict (list A))) m k :
  m ∈ ms → k ∈ dict_keys m →
  ∃ k', k' ∈ dict_keys (merge_table_keyed ms kp) ∧ casefold k' = casefold k.
Proof.
  intros Hm Hk. apply merge_entries_keys; [apply canonical_names_ok|right].
  apply list_elem_of_fmap in Hk as (e & -> & He). apply list_elem_of_fmap.
  exists e. split; [done|]. apply elem_of_concat. eauto.
Qed.

(** ** What a purpose delta does *)

Lemma apply_delta_denied_columns p d t :
  ci_values (denied_columns (access (apply_delta p d))) t
  = entries_for t (denied_columns (access p)) ++ entries_for t (dl_denied_columns d).
Proof.
  cbn [apply_delta access denied_columns].
  rewrite merge_table_keyed_values by set_solver.
  cbn [concat]. by rewrite app_nil_r, entries_for_app.
Qed.

Lemma apply_delta_column_masks p d t :
  ci_values (column_masks (access (apply_delta p d))) t
  = entries_for t (dl_column_masks d) ++ entries_for t (column_masks (access p)).
Proof.
  cbn [apply_delta access column_masks].
  rewrite merge_table_keyed_values by set_solver.
  cbn [concat]. by rewrite app_nil_r, entries_for_app.
Qed.

Lemma apply_delta_table_allowed p d t :
  table_allowed (apply_delta p d) t
  = table_allowed p t && negb (ci_mem t (dl_denied_tables d)).
Proof.
  unfold table_allowed.
  cbn [apply_delta access denied_tables allowed_tables require_explicit_allowlist].
  rewrite ci_mem_app.
  by destruct (ci_mem t (denied_tables _)), (ci_mem t (dl_denied_tables d)); cbn;
    rewrite ?andb_true_r, ?andb_false_r.
Qed.

Lemma apply_delta_column_narrows p d t c :
  column_allowed (apply_delta p d) t c = true → column_allowed p t c = true.
Proof.
  unfold column_allowed. rewrite !apply_delta_denied_columns.
  destruct (ci_mem c (_ ++ _)) eqn:E1; [done|].
  assert (Hsub : ci_mem c (ci_values (denied_columns (access p)) t
                           ++ ci_values (denied_columns (access p)) "*") = false).
  { apply not_true_iff_false. intros (y & Hy & Hc)%ci_mem_true.
    apply not_true_iff_false in E1. apply E1, ci_mem_true. exists y. split; [|done].
    apply elem_of_app in Hy as [Hy|Hy]; apply ci_values_entries in Hy; set_solver. }
  by rewrite Hsub.
Qed.

Lemma apply_delta_denies_column p d t c :
  ci_mem c (entries_for t (dl_denied_columns d) ++ entries_for "*" (dl_denied_columns d)) = true →
  column_allowed (apply_delta p d) t c = false.
Proof.
  intros (y & Hy & Hc)%ci_mem_true. unfold column_allowed.
  rewrite !apply_delta_denied_columns.
  destruct (ci_mem c (_ ++ _)) eqn:E1; [done|].
  apply not_true_iff_false in E1. destruct E1. apply ci_mem_true.
  exists y. split; [|done]. set_solver.
Qed.

Lemma apply_delta_mask_kept p d t c :
  is_Some (column_mask p t c) → is_Some (column_mask (apply_delta p d) t c).
Proof.
  rewrite !column_mask_is_Some. setoid_rewrite apply_delta_column_masks.
  intros (m & Hm & Hc). exists m. split; [|done].
  destruct Hm as [Hm|Hm]; apply ci_values_entries in Hm; set_solver.
Qed.

(** The access verdicts of a purpose-narrowed policy imply the base policy's:
    the order every enforcement layer relies on. *)
Record narrows (p' p : Policy) : Prop := {
  narrows_table t : table_allowed p' t = true → table_allowed p t = true;
  narrows_column t c : column_allowed p' t c = true → column_allowed p t c = true;
  narrows_mask t c : is_Some (column_mask p t c) → is_Some (column_mask p' t c);
  narrows_filters : mandatory_row_filters (gates p) ⊆ mandatory_row_filters (gates p');
  narrows_caps : caps p' = caps p ∧ windows p' = windows p ∧ write p' = write p
                 ∧ disclosure p' = disclosure p ∧ execution p' = execution p;
}.

#[export] Instance narrows_preorder : PreOrder narrows.
Proof.
  split.
  - intros p. by split.
  - intros p q r [] []. split; try by auto.
    + etrans; eassumption.
    + destruct_and!. split_and!; congruence.
Qed.

Lemma apply_delta_narrows p d : narrows (apply_delta p d) p.
Proof.
  split; [|apply apply_delta_column_narrows|apply apply_delta_mask_kept| |done].
  - intros t. rewrite apply_delta_table_allowed. by intros [? _]%andb_true_iff.
  - cbn. set_solver.
Qed.

Lemma for_purpose_narrows p name : narrows (for_purpose p name) p.
Proof.
  unfold for_purpose. repeat case_match; try reflexivity. apply apply_delta_narrows.
Qed.
End lookup_facts.

(** * Properties *)

Section properties.
Context `{CF : CaseFold}.
Implicit Types (p : Policy).

(** Declaring a purpose narrows and never widens the verdicts: whatever table or
    column the narrowed policy allows the base policy allows, every masked column
    stays masked, every mandatory row filter stays, and no cap moves. *)
Theorem for_purpose_only_narrows p name :
  (∀ t, table_allowed (for_purpose p name) t = true → table_allowed p t = true)
  ∧ (∀ t c, column_allowed (for_purpose p name) t c = true → column_allowed p t c = true)
  ∧ (∀ t c, is_Some (column_mask p t c) → is_Some (column_mask (for_purpose p name) t c))
  ∧ (∀ f, f ∈ mandatory_row_filters (gates p) → f ∈ mandatory_row_filters (gates (for_purpose p name)))
  ∧ caps (for_purpose p name) = caps p ∧ windows (for_purpose p name) = windows p
  ∧ write (for_purpose p name) = write p.
Proof.
  destruct (for_purpose_narrows p name) as [Ht Hc Hm Hf Hcaps]. destruct_and! Hcaps.
  split_and!; auto.
Qed.

(** A purpose's denials bite whatever the spelling: a table the delta denies, and
    a column it denies for that table or for ["*"], are refused once the purpose
    is declared, even when the base policy spells the same table differently. *)
Theorem purpose_denials_apply p name d t c :
  dict_get name (purpose_policies (access p)) = Some d →
  (ci_mem t (dl_denied_tables d) = true → table_allowed (for_purpose p (Some name)) t = false)
  ∧ (ci_mem c (entries_for t (dl_denied_columns d) ++ entries_for "*" (dl_denied_columns d)) = true →
     column_allowed (for_purpose p (Some name)) t c = false)
  ∧ (∀ m, first_mask c (entries_for t (dl_column_masks d)) = Some m →
     column_mask (for_purpose p (Some name)) t c = Some m).
Proof.
  intros Hd. unfold for_purpose. rewrite Hd. split_and!.
  - intros Ht. by rewrite apply_delta_table_allowed, Ht, andb_false_r.
  - apply apply_delta_denies_column.
  - intros m Hm. unfold column_mask. by rewrite apply_delta_column_masks, first_mask_app, Hm.
Qed.

(** The table-keyed merge loses nothing: read back under any spelling of a table,
    it holds every mapping's entries for that table, concatenated in mapping
    order (the plain lookup the merge replaces would keep the first spelling
    only). *)
Theorem merge_table_keyed_exact {A} (ms kp : list (dict (list A))) t :
  (∀ m, m ∈ ms → m ∈ kp) →
  default [] (ci_lookup (merge_table_keyed ms kp) t) = entries_for t (concat ms).
Proof. intros H. apply (merge_table_keyed_values ms kp t H). Qed.

(** Deny wins and the allow-list is explicit: a table is reachable exactly when
    no denied table folds to it and either an allowed one does, or the allow-list
    is empty and no explicit allow-list is required. *)
Theorem table_allowed_exact p t :
  table_allowed p t = true ↔
    (∀ d, d ∈ denied_tables (access p) → casefold d ≠ casefold t)
    ∧ ((∃ a, a ∈ allowed_tables (access p) ∧ casefold a = casefold t)
       ∨ (allowed_tables (access p) = [] ∧ require_explicit_allowlist (access p) = false)).
Proof.
  unfold table_allowed. destruct (ci_mem t (denied_tables (access p))) eqn:Ed.
  - split; [done|]. intros [Hd _]. apply ci_mem_true in Ed as (d & Hin & Hf). by destruct (Hd d Hin).
  - assert (Hd : ∀ d, d ∈ denied_tables (access p) → casefold d ≠ casefold t).
    { intros d Hin Hf. apply not_true_iff_false in Ed. apply Ed, ci_mem_true. eauto. }
    destruct (allowed_tables (access p)) as [|a l] eqn:Ea.
    + rewrite negb_true_iff. split; [naive_solver|]. intros [_ [(a & Ha & _)|[_ ?]]]; [set_solver|done].
    + rewrite ci_mem_true. naive_solver.
Qed.

(** A purpose can WEAKEN a mask although it narrows every other verdict: the
    delta's own mask replaces the base one, here a value the base policy always
    nulls becomes its last hundred characters. *)
Theorem purpose_can_weaken_a_mask :
  ∃ p name m m', validate_policy_model p = Ok tt
    ∧ column_mask p "users" "ssn" = Some m ∧ mask_kind m = MASK_NULL
    ∧ column_mask (for_purpose p (Some name)) "users" "ssn" = Some m' ∧ mask_kind m' = LAST
    ∧ mask_length m' = Some 100.
Proof.
  set (base := MkColumnMask "ssn" MASK_NULL None None).
  set (weak := MkColumnMask "ssn" LAST (Some 100) None).
  set (delta := MkDelta [] [] [] [("users", [weak])]).
  set (p := MkPolicy (MkAccess true [] [] [] [] false ["support"] [("support", delta)]
    [("users", [base])]) default_write_policy default_caps default_windows default_disclosure
    default_execution default_gates).
  exists p, "support", base, weak. split_and!; try reflexivity.
  - unfold column_mask, ci_values, ci_lookup, first_mask, ci_eq; cbn.
    rewrite !bool_decide_true by done; cbn. by rewrite !bool_decide_true by done.
  - change (for_purpose p (Some "support")) with (apply_delta p delta).
    unfold column_mask. rewrite apply_delta_column_masks.
    unfold entries_for, first_mask, ci_eq; cbn. rewrite !bool_decide_true by done; cbn.
    by rewrite !bool_decide_true by done.
Qed.
End properties.

(** ** Witnesses *)

Definition support_policy : Policy :=
  MkPolicy (MkAccess true [] [] [] [("users", ["ssn"])] false ["support"]
    [("support", MkDelta ["salaries"] [("Users", ["email"])] [] [("USERS", [MkColumnMask "card" HASH None None])])]
    [("users", [MkColumnMask "card" LAST (Some 4) None])]) default_write_policy default_caps
    default_windows default_disclosure default_execution default_gates.

Lemma purpose_denials_apply_witness :
  column_allowed (CF := ascii_casefold) (for_purpose (CF := ascii_casefold) support_policy (Some "support"))
    "users" "email" = false.
Proof.
  eapply (@purpose_denials_apply ascii_casefold support_policy "support" _ "users" "email");
    [reflexivity|vm_compute; reflexivity].
Defined.

Lemma merge_table_keyed_exact_witness :
  default [] (ci_lookup (CF := ascii_casefold)
    (merge_table_keyed (CF := ascii_casefold) [[("users", ["ssn"])]; [("Users", ["email"])]]
       [[("users", ["ssn"])]; [("Users", ["email"])]]) "USERS") = ["ssn"; "email"].
Proof.
  etransitivity; [apply (@merge_table_keyed_exact ascii_casefold); auto|]. vm_compute. reflexivity.
Defined.
