(* ===== verification/PolicyLoader.v ===== *)
(** The policy store of [policy/loader.py]: the layered document (default,
    per-connection, per-principal) and the resolution of one policy. Pydantic's
    [Policy.model_validate] and [model_dump] are parameters; a raw document is a
    finite map from field names to JSON. *)
From S2P Require Export Policy.

(** A raw mapping of field names; [{**a, **b}] is the right-biased union. *)
Abbreviation raw_policy := (gmap string json).

Definition dict_merge (a b : raw_policy) : raw_policy := b ∪ a.

(** The parsed YAML file: each section may be absent or [null]. *)
Record policy_file := MkPolicyFile {
  pf_default : option raw_policy;
  pf_connections : dict (option raw_policy);
  pf_principals : dict (option (dict (option raw_policy)));
}.

(** [d[k] = v] for each pair, in order. *)
Definition list_to_dict {A} (l : list (string * A)) : dict A :=
  foldl (λ d e, dict_set e.1 e.2 d) [] l.

(** subject -> (connection id or "*") -> partial override. *)
Abbreviation PrincipalOverrides := (dict (dict raw_policy)).

Record PolicyStore := MkPolicyStore {
  ps_default : Policy;
  ps_overrides : dict Policy;
  ps_principal_overrides : PrincipalOverrides;
}.

(** [overrides.get(connection_id, default)]. *)
Definition policy_base (dflt : Policy) (overrides : dict Policy) (connection_id : string) : Policy :=
  default dflt (dict_get connection_id overrides).

(** [_merge_bases]. *)
Definition merge_bases (connection_id : string) (dflt : Policy) (overrides : dict Policy) :
  list Policy :=
  if bool_decide (connection_id = "*") then dflt :: overrides.*2
  else [policy_base dflt overrides connection_id].

Lemma merge_bases_covers cx cx' dflt overrides :
  cx' = cx ∨ cx' = "*" → policy_base dflt overrides cx ∈ merge_bases cx' dflt overrides.
Proof.
  unfold merge_bases, policy_base. intros Hcx. case_bool_decide as Hs.
  - destruct (dict_get cx overrides) as [p|] eqn:E; cbn; [|set_solver].
    apply dict_get_Some in E. apply elem_of_cons; right.
    apply list_elem_of_fmap. by exists (cx, p).
  - destruct Hcx; [subst; set_solver|done].
Qed.

Section loader.
Context (model_validate : raw_policy → result Policy) (model_dump : Policy → raw_policy).

(** One [(connection_id, entry)] of a principal's section, checked against
    every base it can land on. *)
Definition check_principal_entry (dflt : Policy) (overrides : dict Policy)
  (e : string * option raw_policy) : result (string * raw_policy) :=
  let entry := default ∅ e.2 in
  for_each (λ base, model_validate (dict_merge (model_dump base) entry) ≫= λ _, Ok tt)
    (merge_bases e.1 dflt overrides) ≫= λ _,
  Ok (e.1, entry).

(** [PolicyStore.from_dict]. *)
Definition from_dict (raw : policy_file) : result PolicyStore :=
  let default_raw := default ∅ (pf_default raw) in
  model_validate default_raw ≫= λ dflt,
  map_result (λ e : string * option raw_policy,
      model_validate (dict_merge default_raw (default ∅ e.2)) ≫= λ p, Ok (e.1, p))
    (pf_connections raw) ≫= λ overrides_list,
  let overrides := list_to_dict overrides_list in
  map_result (λ s : string * option (dict (option raw_policy)),
      map_result (check_principal_entry dflt overrides) (default [] s.2) ≫= λ resolved,
      Ok (s.1, list_to_dict resolved)) (pf_principals raw) ≫= λ principals,
  Ok (MkPolicyStore dflt overrides (list_to_dict principals)).

(** [by_connection.get(connection_id, by_connection.get("*"))]. *)
Definition principal_override (by_connection : dict raw_policy) (connection_id : string) :
  option raw_policy :=
  match dict_get connection_id by_connection with
  | Some o => Some o
  | None => dict_get "*" by_connection
  end.

(** [PolicyStore.get]; an empty mapping is falsy. *)
Definition store_get (s : PolicyStore) (connection_id : string) (principal : option Principal) :
  result Policy :=
  let base := policy_base (ps_default s) (ps_overrides s) connection_id in
  match principal with
  | None => Ok base
  | Some who =>
      match dict_get (subject who) (ps_principal_overrides s) with
      | None | Some [] => Ok base
      | Some by_connection =>
          match principal_override by_connection connection_id with
          | None => Ok base
          | Some override =>
              if bool_decide (override = ∅) then Ok base
              else model_validate (dict_merge (model_dump base) override)
          end
      end
  end.

(** [PolicyStore.override_connection_ids], before the sort. *)
Definition override_connection_ids (s : PolicyStore) : list string := dict_keys (ps_overrides s).

(** ** Facts *)

Lemma list_to_dict_get {A} (l : list (string * A)) k v :
  dict_get k (list_to_dict l) = Some v → (k, v) ∈ l.
Proof.
  unfold list_to_dict.
  assert (H : ∀ d, dict_get k (foldl (λ d e, dict_set e.1 e.2 d) d l) = Some v →
    (k, v) ∈ l ∨ dict_get k d = Some v).
  { induction l as [|[k' v'] l IH]; cbn; intros d Hd; [by right|].
    destruct (IH _ Hd) as [?|H']; [left; set_solver|].
    destruct (decide (k = k')) as [->|Hne].
    - rewrite dict_get_set_eq in H'. left. set_solver.
    - rewrite dict_get_set_ne in H' by done. by right. }
  intros [?|Hf]%H; [done|discriminate Hf].
Qed.

(** Every entry the store holds was validated against every base it can meet. *)
Lemma from_dict_checked raw s : from_dict raw = Ok s →
  ∀ who by_cx cx entry, dict_get who (ps_principal_overrides s) = Some by_cx →
  dict_get cx by_cx = Some entry →
  ∀ base, base ∈ merge_bases cx (ps_default s) (ps_overrides s) →
  ∃ p, model_validate (dict_merge (model_dump base) entry) = Ok p.
Proof.
  unfold from_dict. intros H. result_inv. cbn.
  match goal with H : map_result _ (pf_principals raw) = Ok ?l |- _ => rename H into Hp end.
  intros who by_cx cx entry Hwho Hcx base Hbase.
  apply list_to_dict_get in Hwho.
  destruct (map_result_elem _ _ _ _ Hp Hwho) as ([w o] & _ & Hr). cbn in Hr. result_inv.
  apply list_to_dict_get in Hcx.
  match goal with H : map_result (check_principal_entry _ _) _ = Ok _ |- _ =>
    destruct (map_result_elem _ _ _ _ H Hcx) as ([c e] & _ & Hc) end.
  unfold check_principal_entry in Hc; cbn in Hc. result_inv.
  match goal with H : for_each _ _ = Ok tt |- _ =>
    apply (for_each_ok_elem _ _ base) in H; [|done]; cbn beta in H end.
  result_inv. eauto.
Qed.
End loader.

(** * Properties *)

Section properties.
Context (model_validate : raw_policy → result Policy) (model_dump : Policy → raw_policy).

(** A policy file that loads never fails at request time: once [from_dict]
    returns, resolving any connection for any caller returns a policy, because
    every principal override was validated against every base it can meet. *)
Theorem from_dict_get_total raw s cx who :
  from_dict model_validate model_dump raw = Ok s →
  ∃ p, store_get model_validate model_dump s cx who = Ok p.
Proof.
  intros H. pose proof (from_dict_checked _ _ _ _ H) as Hc.
  unfold store_get. destruct who as [w|]; [|by eexists].
  destruct (dict_get (subject w) _) as [[|e by_cx]|] eqn:Ew; [by eexists| |by eexists].
  destruct (principal_override (e :: by_cx) cx) as [o|] eqn:Eo; [|by eexists].
  case_bool_decide; [by eexists|]. unfold principal_override in Eo.
  destruct (dict_get cx (e :: by_cx)) as [o'|] eqn:Ecx.
  - injection Eo as ->. apply (Hc _ _ cx o Ew Ecx), merge_bases_covers. by left.
  - apply (Hc _ _ "*" o Ew Eo), merge_bases_covers. by right.
Qed.

(** Precedence: an anonymous caller, or one with no entry, gets the connection's
    own override or the default; a connection-specific principal entry hides the
    ["*"] one, and is merged over that base. *)
Theorem store_get_precedence s cx w by_cx o :
  dict_get (subject w) (ps_principal_overrides s) = Some by_cx →
  dict_get cx by_cx = Some o → o ≠ ∅ →
  store_get model_validate model_dump s cx None
    = Ok (policy_base (ps_default s) (ps_overrides s) cx)
  ∧ store_get model_validate model_dump s cx (Some w)
    = model_validate (dict_merge (model_dump (policy_base (ps_default s) (ps_overrides s) cx)) o).
Proof.
  intros Hw Hcx Ho. split; [done|]. unfold store_get. rewrite Hw.
  destruct by_cx as [|e l]; [done|]. unfold principal_override. rewrite Hcx.
  by rewrite bool_decide_false.
Qed.
End properties.

(** ** Witnesses *)

(** A validator that reads one field and a dump that writes it. *)
Definition sample_validate (d : raw_policy) : result Policy :=
  match d !! "enabled" with
  | Some (JBool b) =>
      Ok (MkPolicy (MkAccess b [] [] [] [] false [] [] []) default_write_policy default_caps
            default_windows default_disclosure default_execution default_gates)
  | Some _ => Raise (ValueError "enabled: not a boolean")
  | None => Ok default_policy
  end.

Definition sample_dump (p : Policy) : raw_policy := {[ "enabled" := JBool (enabled (access p)) ]}.

Definition sample_file : policy_file :=
  MkPolicyFile None [("main", Some {[ "enabled" := JBool true ]})]
    [("alice", Some [("main", Some {[ "enabled" := JBool false ]}); ("*", None)])].

Definition sample_store : PolicyStore :=
  match from_dict sample_validate sample_dump sample_file with
  | Ok s => s
  | Raise _ => MkPolicyStore default_policy [] []
  end.

Definition alice : Principal := MkPrincipal "alice" ∅ [] "api_key" None.

Lemma from_dict_get_total_witness :
  ∃ p, store_get sample_validate sample_dump sample_store "main" (Some alice) = Ok p.
Proof.
  apply (from_dict_get_total sample_validate sample_dump sample_file sample_store).
  vm_compute. reflexivity.
Defined.

Lemma store_get_precedence_witness :
  store_get sample_validate sample_dump sample_store "main" None
  = Ok (policy_base (ps_default sample_store) (ps_overrides sample_store) "main").
Proof.
  eapply (store_get_precedence sample_validate sample_dump sample_store "main" alice).
  - vm_compute. reflexivity.
  - vm_compute. reflexivity.
  - vm_compute. discriminate.
Defined.
