(* ===== verification/Templates.v ===== *)
(** Query templates: [templates/models.py], [templates/binding.py] and
    [templates/loader.py]. A template is a stored query with placeholders; a
    caller supplies values, each held against its slot, and the result is
    validated as any other query. [StructuredQuery.model_validate] is Pydantic
    over the classes of [Ast], and a parameter. *)
From Stdlib Require Import Ascii.
From stdpp Require Import pretty.
From S2P Require Export JsonText PolicyLoader.
Local Open Scope Z_scope.

(** [StructuredQuery.model_validate], or [None] where it raises. *)
Class QueryModel := query_validate : json → option StructuredQuery.

(** * Numbers *)

(** A Python integer against a float, exactly, as Python compares the two. *)
Definition int_compare_float (z : Z) (f : float64) : option comparison :=
  match f with
  | S754_nan => None
  | S754_infinity s => Some (if s then Gt else Lt)
  | S754_zero _ => Some (z ?= 0)
  | S754_finite s m e =>
      let n := if s then Z.neg m else Z.pos m in
      Some (if 0 <=? e then z ?= n * 2 ^ e else z * 2 ^ (- e) ?= n)
  end.

(** [value < bound] and [value > bound] on numbers; anything else has no order. *)
Definition num_compare (v : json) (f : float64) : option comparison :=
  match v with
  | JInt z => int_compare_float z f
  | JFloat g => SFcompare g f
  | _ => None
  end.
Definition num_below (v : json) (bound : float64) : bool := bool_decide (num_compare v bound = Some Lt).
Definition num_above (v : json) (bound : float64) : bool := bool_decide (num_compare v bound = Some Gt).

(** [value == other] on the scalars a slot admits. *)
Definition scalar_eq (a b : json) : bool :=
  match a, b with
  | JStr s, JStr t => bool_decide (s = t)
  | JBool x, JBool y => Bool.eqb x y
  | JInt x, JInt y => x =? y
  | JInt z, JFloat f | JFloat f, JInt z => bool_decide (int_compare_float z f = Some Eq)
  | JFloat f, JFloat g => SFeqb f g
  | JNull, JNull => true
  | _, _ => false
  end.

(** [math.isfinite] makes a float of an integer first, which overflows from half
    a unit above the greatest double. *)
Definition int_overflows_float (z : Z) : bool := 2 ^ 1024 - 2 ^ 970 <=? Z.abs z.

Definition float_isfinite (f : float64) : bool :=
  match f with S754_nan | S754_infinity _ => false | _ => true end.

(** * Slots *)

Inductive ParameterType := PString | PInteger | PNumber | PBoolean.

#[export] Instance ParameterType_eq_dec : EqDecision ParameterType.
Proof. solve_decision. Defined.

(** A default of [None] is no default. *)
Record TemplateParameter := MkParameter {
  tp_name : string;
  tp_type : ParameterType;
  tp_required : bool;
  tp_description : option string;
  tp_default : json;
  tp_is_list : bool;
  tp_min : option float64;
  tp_max : option float64;
  tp_max_length : option Z;
  tp_allowed_values : option (list json);
}.

Definition bounds_error (value : json) (min max : option float64) : option string :=
  if match min with Some b => num_below value b | None => false end then Some "is below min"
  else if match max with Some b => num_above value b | None => false end then Some "is above max"
  else None.

(** The reason a value does not fit, if there is one. *)
Definition scalar_type_error (t : ParameterType) (value : json) (min max : option float64) (max_length : option Z) :
  result (option string) :=
  match t, value with
  | PBoolean, JBool _ => Ok None
  | PBoolean, _ => Ok (Some "must be a boolean")
  | _, JBool _ => Ok (Some "must be of type")
  | PString, JStr s =>
      Ok match max_length with Some n => if n <? char_count s then Some "exceeds max length" else None | None => None end
  | PString, _ => Ok (Some "must be a string")
  | PInteger, JInt _ => Ok (bounds_error value min max)
  | PInteger, _ => Ok (Some "must be an integer")
  | PNumber, JInt z =>
      if int_overflows_float z then Raise (BuiltinError "OverflowError") else Ok (bounds_error value min max)
  | PNumber, JFloat f => Ok (if float_isfinite f then bounds_error value min max else Some "must be finite")
  | PNumber, _ => Ok (Some "must be a number")
  end.

Definition slot_type_error (p : TemplateParameter) (value : json) : result (option string) :=
  scalar_type_error (tp_type p) value (tp_min p) (tp_max p) (tp_max_length p).

(** [value not in allowed_values]. *)
Definition not_allowed (p : TemplateParameter) (value : json) : bool :=
  match tp_allowed_values p with Some vs => negb (existsb (scalar_eq value) vs) | None => false end.

(** [_validate_slot_self_consistency] and [_validate_constraints]. *)
Definition check_slot_value (p : TemplateParameter) (value : json) : result unit :=
  slot_type_error p value ≫= λ reason,
  match reason with Some r => Raise (ValueError r) | None => Ok tt end.

Definition default_values (p : TemplateParameter) : result (list json) :=
  if tp_is_list p then
    match tp_default p with JList l => Ok l | _ => Raise (ValueError "default for a list parameter must be a list") end
  else Ok [tp_default p].

Definition validate_slot_self_consistency (p : TemplateParameter) : result unit :=
  for_each (check_slot_value p) (default [] (tp_allowed_values p)) ≫= λ _,
  if json_is_none (tp_default p) then Ok tt else
  default_values p ≫= λ values,
  for_each (λ v, check_slot_value p v ≫= λ _,
                 raise_if (not_allowed p v) (ValueError "default is not in allowed_values")) values.

Definition validate_constraints (p : TemplateParameter) : result unit :=
  raise_if match tp_min p, tp_max p with Some a, Some b => SFltb b a | _, _ => false end (ValueError "min > max") ≫= λ _,
  raise_if ((is_some (tp_min p) || is_some (tp_max p)) && negb (bool_decide (tp_type p ∈ [PInteger; PNumber])))
    (ValueError "min/max only valid for numeric types") ≫= λ _,
  raise_if (is_some (tp_max_length p) && negb (bool_decide (tp_type p = PString)))
    (ValueError "max_length only valid for string type") ≫= λ _,
  raise_if match tp_max_length p with Some n => n <? 0 | None => false end
    (ValueError "max_length must be non-negative") ≫= λ _,
  validate_slot_self_consistency p.

Definition validate_template_parameter (p : TemplateParameter) : result unit :=
  raise_if (negb (is_identifier true (tp_name p))) (ValueError "parameter name must be a valid identifier") ≫= λ _,
  validate_constraints p.

(** * Templates *)

Record QueryTemplate := MkTemplate {
  qt_id : string;
  qt_connection : string;
  qt_description : option string;
  qt_parameters : list TemplateParameter;
  qt_query : list (string * json);
}.

Definition skeleton (t : QueryTemplate) : json := JObj (qt_query t).

Section templates.
Context `{CF : CaseFold}.

Definition has_duplicates (names : list string) : bool := negb (bool_decide (NoDup (map casefold names))).

(** The validators of [QueryTemplate]: the stripped id and connection, the
    parameters, their names. *)
Definition validate_template (t : QueryTemplate) : result QueryTemplate :=
  let id := strip (qt_id t) in
  let connection := strip (qt_connection t) in
  raise_if (str_empty id) (ValueError "must not be blank") ≫= λ _,
  raise_if (negb (is_identifier true id)) (ValueError "template id must be a valid identifier") ≫= λ _,
  raise_if (str_empty connection) (ValueError "must not be blank") ≫= λ _,
  for_each validate_template_parameter (qt_parameters t) ≫= λ _,
  raise_if (has_duplicates (map tp_name (qt_parameters t))) (ValueError "duplicate parameter names") ≫= λ _,
  Ok (MkTemplate id connection (qt_description t) (qt_parameters t) (qt_query t)).

Definition validate_template_file (ts : list QueryTemplate) : result (list QueryTemplate) :=
  map_result validate_template ts ≫= λ ts,
  raise_if (has_duplicates (map qt_id ts)) (ValueError "duplicate template id in templates file") ≫= λ _, Ok ts.

(** [TemplateStore]. *)
Abbreviation TemplateStore := (dict QueryTemplate).
Definition template_store (ts : list QueryTemplate) : TemplateStore := list_to_dict (map (λ t, (casefold (qt_id t), t)) ts).
Definition template_store_from (ts : list QueryTemplate) : result TemplateStore :=
  validate_template_file ts ≫= λ ts, Ok (template_store ts).
Definition template_get (s : TemplateStore) (id : string) : option QueryTemplate := dict_get (casefold id) s.
Definition template_list (s : TemplateStore) : list QueryTemplate := map snd (sort_on fst s).
Definition template_ids (s : TemplateStore) : list string := sort_on id (map (λ e, qt_id e.2) s).
Definition template_connection_ids (s : TemplateStore) : list string :=
  sort_on id (remove_dups (map (λ e, qt_connection e.2) s)).
End templates.

(** The agent-facing projection. *)
Record PublicTemplateParameter := MkPublicParameter {
  pp_name : string;
  pp_type : ParameterType;
  pp_required : bool;
  pp_description : option string;
  pp_is_list : bool;
  pp_min : option float64;
  pp_max : option float64;
  pp_max_length : option Z;
  pp_allowed_values : option (list json);
}.

Record PublicQueryTemplate := MkPublicTemplate {
  pt_id : string;
  pt_connection : string;
  pt_description : option string;
  pt_parameters : list PublicTemplateParameter;
}.

Definition from_template (t : QueryTemplate) : PublicQueryTemplate :=
  MkPublicTemplate (qt_id t) (qt_connection t) (qt_description t)
    (map (λ p, MkPublicParameter (tp_name p) (tp_type p) (tp_required p) (tp_description p) (tp_is_list p)
                 (tp_min p) (tp_max p) (tp_max_length p) (tp_allowed_values p)) (qt_parameters t)).

(** * Binding *)

Section binding.
Context `{QM : QueryModel}.

Definition coerce_scalar (p : TemplateParameter) (value : json) : result json :=
  slot_type_error p value ≫= λ reason,
  match reason with
  | Some r => Raise (QueryValidationError r)
  | None => raise_if (not_allowed p value) (QueryValidationError "is not an allowed value") ≫= λ _, Ok value
  end.

Definition validate_parameter_value (p : TemplateParameter) (value : json) : result json :=
  if tp_is_list p then
    match value with
    | JList [] => Raise (QueryValidationError "must be a non-empty list")
    | JList l => map_result (coerce_scalar p) l ≫= λ l, Ok (JList l)
    | _ => Raise (QueryValidationError "must be a list")
    end
  else coerce_scalar p value.

Definition resolve_parameter (supplied : dict json) (p : TemplateParameter) : result json :=
  match dict_get (tp_name p) supplied with
  | Some v => validate_parameter_value p v
  | None =>
      if negb (json_is_none (tp_default p)) then validate_parameter_value p (tp_default p)
      else if tp_required p then Raise (QueryValidationError "missing required parameter")
      else Raise (QueryValidationError "parameter was omitted and has no default")
  end.

Definition resolve_parameters (t : QueryTemplate) (supplied : dict json) : result (dict json) :=
  raise_if (negb (forallb (λ k, bool_decide (k ∈ map tp_name (qt_parameters t))) (dict_keys supplied)))
    (QueryValidationError "unknown parameter(s)") ≫= λ _,
  map_result (λ p, resolve_parameter supplied p ≫= λ v, Ok (tp_name p, v)) (qt_parameters t) ≫= λ entries,
  Ok (list_to_dict entries).

(** [{"param": name}]. *)
Definition placeholder (fields : list (string * json)) : option string :=
  match fields with
  | [(k, JStr name)] => if bool_decide (k = "param") then Some name else None
  | _ => None
  end.

Fixpoint substitute (resolved : dict json) (node : json) : result json :=
  match node with
  | JObj fields =>
      match placeholder fields with
      | Some name =>
          match dict_get name resolved with
          | Some v => Ok v
          | None => Raise (QueryValidationError "template references undefined parameter")
          end
      | None => map_result (λ '(k, v), substitute resolved v ≫= λ v, Ok (k, v)) fields ≫= λ fields, Ok (JObj fields)
      end
  | JList items => map_result (substitute resolved) items ≫= λ items, Ok (JList items)
  | _ => Ok node
  end.

Definition bind_template (t : QueryTemplate) (supplied : dict json) : result StructuredQuery :=
  resolve_parameters t supplied ≫= λ resolved,
  substitute resolved (skeleton t) ≫= λ bound,
  match query_validate bound with
  | Some q => Ok q
  | None => Raise (QueryValidationError "produced an invalid query")
  end.

(** * The check at deployment *)

Definition DUMMY_SCALAR (t : ParameterType) : json :=
  match t with PString => JStr "x" | PInteger => JInt 1 | PNumber => JFloat f64_one | PBoolean => JBool true end.

Definition dummy_value (p : TemplateParameter) : json :=
  let s := DUMMY_SCALAR (tp_type p) in if tp_is_list p then JList [s; s] else s.

Definition dummy_bound_query (t : QueryTemplate) : option StructuredQuery :=
  match substitute (list_to_dict (map (λ p, (tp_name p, dummy_value p)) (qt_parameters t))) (skeleton t) with
  | Ok bound => query_validate bound
  | Raise _ => None
  end.

Definition IDENTIFIER_POSITIONS : list string :=
  ["from"; "from_table"; "from_alias"; "table"; "alias"; "name"; "col"; "value_col"; "on"; "extra_on"; "group_by";
   "partition_by"; "correlate"; "connection"].

Definition is_identifier_key (k : string) : bool := bool_decide (k ∈ IDENTIFIER_POSITIONS).

Definition path_touches_identifier (path : string) : bool :=
  existsb (λ segment, negb (str_empty segment) && is_identifier_key (List.hd "" (split_on "["%char segment))) (split_on "."%char path).

Definition child_path (path key : string) : string := if str_empty path then key else path +:+ "." +:+ key.
Definition index_path (path : string) (i : nat) : string := path +:+ "[" +:+ pretty i +:+ "]".

(** The path of a placeholder among [kids], the first of those in a list, the
    first that touches an identifier in an object. *)
Fixpoint placeholder_in_an_identifier_position (node : json) (path : string) {struct node} : option string :=
  match node with
  | JObj fields =>
      match placeholder fields with
      | Some _ => Some (if str_empty path then "<root>" else path)
      | None =>
          (fix go (fields : list (string * json)) : option string :=
             match fields with
             | [] => None
             | (k, v) :: rest =>
                 match placeholder_in_an_identifier_position v (child_path path k) with
                 | Some found => if is_identifier_key k || path_touches_identifier found then Some found else go rest
                 | None => go rest
                 end
             end) fields
      end
  | JList items =>
      (fix go (i : nat) (items : list json) : option string :=
         match items with
         | [] => None
         | item :: rest =>
             match placeholder_in_an_identifier_position item (index_path path i) with
             | Some found => Some found
             | None => go (S i) rest
             end
         end) 0%nat items
  | _ => None
  end.

(** [validate_template_structure]: the complaint, if there is one. *)
Definition validate_template_structure (t : QueryTemplate) : option string :=
  match placeholder_in_an_identifier_position (skeleton t) "" with
  | Some offending => Some ("puts a parameter in an identifier position: " +:+ offending)
  | None => match dummy_bound_query t with Some _ => None | None => Some "is not a structurally valid query" end
  end.
End binding.
