(* ===== verification/TemplateFacts.v ===== *)
(** What [Templates] promises: the values a caller supplies fit their slots and
    land only where the author put a placeholder; a template that passes the
    check at deployment fixes every identifier; and what the check misses. *)
From Stdlib Require Import Ascii.
From S2P Require Export Templates.
Local Open Scope Z_scope.

Lemma json_nested_ind (P : json → Prop) :
  (∀ v, match v with JList _ | JObj _ => False | _ => True end → P v) →
  (∀ l, (∀ v, v ∈ l → P v) → P (JList l)) →
  (∀ fs, (∀ k v, (k, v) ∈ fs → P v) → P (JObj fs)) → ∀ v, P v.
Proof.
  intros Hs Hl Ho. fix IH 1. intros [|b|z|f|s|l|fs]; try by apply Hs.
  - apply Hl. induction l as [|x l IHl]; intros v Hv; [destruct (not_elem_of_nil _ Hv)|].
    apply elem_of_cons in Hv as [->|Hv]; [apply IH|exact (IHl v Hv)].
  - apply Ho. induction fs as [|[k x] fs IHl]; intros j v Hv; [destruct (not_elem_of_nil _ Hv)|].
    apply elem_of_cons in Hv as [Heq|Hv]; [|exact (IHl j v Hv)]. injection Heq as _ ->. apply IH.
Qed.

(** * Values fit their slots *)

(** A value of a slot: of its type, within its bounds, among its values. *)
Definition fits_slot (p : TemplateParameter) (v : json) : Prop :=
  slot_type_error p v = Ok None ∧ not_allowed p v = false.

Definition fits_parameter (p : TemplateParameter) (v : json) : Prop :=
  if tp_is_list p then ∃ l, v = JList l ∧ l ≠ [] ∧ Forall (fits_slot p) l else fits_slot p v.

Lemma coerce_scalar_ok p v w : coerce_scalar p v = Ok w ↔ w = v ∧ fits_slot p v.
Proof.
  unfold coerce_scalar, fits_slot. rewrite bind_ok. split.
  - intros ([r|] & Hr & H); [done|]. apply bind_ok_unit in H as [Ha%raise_if_ok [= <-]]. done.
  - intros (-> & Hr & Ha). exists None. by rewrite Hr, Ha.
Qed.

Lemma validate_parameter_value_ok p v w : validate_parameter_value p v = Ok w ↔ w = v ∧ fits_parameter p v.
Proof.
  unfold validate_parameter_value, fits_parameter. destruct (tp_is_list p); [|apply coerce_scalar_ok].
  destruct v as [|b|z|f|s|[|x l]|fs]; try (split; [done|by intros (_ & k & [=] & Hk & _)]).
  rewrite bind_ok. setoid_rewrite map_result_ok. split.
  - intros (k & Hk & [= <-]). assert (k = x :: l ∧ Forall (fits_slot p) (x :: l)) as [-> Hfit]; [|by eauto].
    induction Hk as [|a b l1 l2 Hab _ [-> IH]]; [done|]. apply coerce_scalar_ok in Hab as [-> ?]. by split; [|constructor].
  - intros (-> & k & [= <-] & _ & Hfit). exists (x :: l). split; [|done].
    induction Hfit; constructor; [by apply coerce_scalar_ok|done].
Qed.

(** A scalar holds no placeholder and no key. *)
Definition plain_scalar (v : json) : Prop := match v with JList _ | JObj _ | JNull => False | _ => True end.

Lemma fits_slot_scalar p v : fits_slot p v → plain_scalar v.
Proof. intros [H _]. unfold slot_type_error, scalar_type_error in H. by destruct (tp_type p), v. Qed.

Definition plain_value (v : json) : Prop := match v with JList l => Forall plain_scalar l | _ => plain_scalar v end.

Lemma fits_parameter_plain p v : fits_parameter p v → plain_value v.
Proof.
  unfold fits_parameter. destruct (tp_is_list p).
  - intros (l & -> & _ & H). cbn. eapply Forall_impl; [exact H|]. by intros x Hx; eapply fits_slot_scalar.
  - intros H%fits_slot_scalar. by destruct v.
Qed.

Lemma resolve_parameter_ok supplied p v : resolve_parameter supplied p = Ok v →
  fits_parameter p v ∧ v = default (tp_default p) (dict_get (tp_name p) supplied).
Proof.
  unfold resolve_parameter. destruct (dict_get (tp_name p) supplied) as [w|]; cbn.
  - by intros [-> ?]%validate_parameter_value_ok.
  - destruct (json_is_none (tp_default p)); cbn; [by destruct (tp_required p)|]. by intros [-> ?]%validate_parameter_value_ok.
Qed.

(** What resolution gives: a fitting value for every slot, and nothing else. *)
Lemma resolve_parameters_ok t supplied resolved : resolve_parameters t supplied = Ok resolved →
  (∀ k, k ∈ dict_keys supplied → k ∈ map tp_name (qt_parameters t))
  ∧ ∀ k v, dict_get k resolved = Some v → ∃ p, p ∈ qt_parameters t ∧ tp_name p = k ∧ fits_parameter p v
      ∧ v = default (tp_default p) (dict_get k supplied).
Proof.
  unfold resolve_parameters. intros [Hu%raise_if_ok H]%bind_ok_unit. apply bind_ok in H as (entries & He & [= <-]). split.
  - intros k Hk. apply negb_false_iff in Hu. rewrite forallb_elem in Hu. exact (proj1 (bool_decide_eq_true _) (Hu k Hk)).
  - intros k v Hv%list_to_dict_get. destruct (map_result_elem _ _ _ _ He Hv) as (p & Hp & Hf).
    apply bind_ok in Hf as (w & Hw & [= <- <-]). apply resolve_parameter_ok in Hw as [Hfit Heq]. by exists p.
Qed.

(** * Substitution touches placeholders only *)

(** Every placeholder has a plain value. *)
Definition plain_resolution (resolved : dict json) : Prop := ∀ k v, dict_get k resolved = Some v → plain_value v.

Fixpoint has_placeholder (node : json) : bool :=
  match node with
  | JObj fields => is_some (placeholder fields) || existsb (λ kv, has_placeholder kv.2) fields
  | JList items => existsb has_placeholder items
  | _ => false
  end.

Lemma map_result_id {A} (f : A → result A) l : (∀ x, x ∈ l → f x = Ok x) → map_result f l = Ok l.
Proof.
  induction l as [|x l IH]; intros H; cbn; [done|]. rewrite H by set_solver. cbn. rewrite IH; [done|set_solver].
Qed.

Lemma substitute_fixed resolved node : has_placeholder node = false → substitute resolved node = Ok node.
Proof.
  induction node as [v Hv|l IH|fs IH] using json_nested_ind; intros H.
  - by destruct v.
  - cbn in H |- *. rewrite existsb_not_elem in H. rewrite map_result_id; [done|]. eauto.
  - cbn in H |- *. apply orb_false_iff in H as [Hp H]. rewrite existsb_not_elem in H.
    destruct (placeholder fs); [done|]. rewrite map_result_id; [done|]. intros [k v] Hin.
    rewrite (IH k v Hin); [done|]. exact (H (k, v) Hin).
Qed.

(** The nodes that sit in an identifier position, at any depth. *)
Fixpoint identifier_parts (node : json) : list json :=
  match node with
  | JObj fields => flat_map (λ kv, (if is_identifier_key kv.1 then [kv.2] else []) ++ identifier_parts kv.2) fields
  | JList items => flat_map identifier_parts items
  | _ => []
  end.

Lemma flat_map_nil {A B} (f : A → list B) l : (∀ x, x ∈ l → f x = []) → flat_map f l = [].
Proof. induction l as [|x l IH]; intros H; cbn; [done|]. rewrite H, IH; [done|set_solver..]. Qed.

Lemma plain_no_parts v : plain_value v → identifier_parts v = [].
Proof.
  destruct v as [| | | | |l|fs]; cbn; try done. intros H. apply flat_map_nil. intros x Hx.
  rewrite Forall_forall in H. specialize (H x Hx). by destruct x.
Qed.

Lemma placeholder_shape fs name : placeholder fs = Some name → fs = [("param", JStr name)].
Proof.
  unfold placeholder. destruct fs as [|[k []] [|]]; try done. case_bool_decide; [|done]. by intros [= ->]; subst.
Qed.

(** ** Lists *)

(** A list a placeholder stands in directly, or in a list within it. *)
Fixpoint list_hole (node : json) : bool :=
  match node with
  | JObj fields => is_some (placeholder fields)
  | JList items => existsb list_hole items
  | _ => false
  end.

(** Values and placeholders only. *)
Fixpoint flat (node : json) : bool :=
  match node with
  | JObj fields => is_some (placeholder fields)
  | JList items => forallb flat items
  | _ => true
  end.

(** No list mixes placeholders with objects. *)
Fixpoint lists_separate (node : json) : bool :=
  match node with
  | JObj fields => forallb (λ kv, lists_separate kv.2) fields
  | JList items => (forallb flat items || negb (existsb list_hole items)) && forallb lists_separate items
  | _ => true
  end.

Lemma flat_no_parts resolved node node' : plain_resolution resolved → flat node = true →
  substitute resolved node = Ok node' → identifier_parts node = [] ∧ identifier_parts node' = [].
Proof.
  intros Hp. revert node'. induction node as [v Hv|l IH|fs IH] using json_nested_ind; intros node' Hf Hs.
  - destruct v; try done; cbn in Hs; by injection Hs as <-.
  - cbn in Hf, Hs. rewrite forallb_elem in Hf. apply bind_ok in Hs as (l' & Hl & [= <-]). cbn. split; apply flat_map_nil.
    + intros x Hx. apply map_result_ok in Hl. pose proof Hx as Hin. apply list_elem_of_lookup in Hx as [n Hn].
      destruct (Forall2_lookup_l _ _ _ _ _ Hl Hn) as (y & _ & Hy). exact (proj1 (IH x Hin y (Hf x Hin) Hy)).
    + intros y Hy. destruct (map_result_elem _ _ _ _ Hl Hy) as (x & Hx & Hxy). exact (proj2 (IH x Hx y (Hf x Hx) Hxy)).
  - cbn [flat] in Hf. cbn [substitute] in Hs. destruct (placeholder fs) as [name|] eqn:Ep; [|done].
    rewrite (placeholder_shape _ _ Ep). split; [reflexivity|].
    destruct (dict_get name resolved) as [v|] eqn:Ev; [|done]. injection Hs as <-. by eapply plain_no_parts, Hp.
Qed.

(** ** Paths *)

Lemma head_split_app c a b : List.hd "" (split_on c (a +:+ String c b)) = List.hd "" (split_on c a).
Proof. rewrite split_on_app. by destruct (split_on_cons c a) as (w & ws & ->). Qed.

(** A path below [path]. *)
Definition extends (path found : string) : Prop :=
  found = path ∨ (∃ rest, found = path +:+ "." +:+ rest) ∨ ∃ rest, found = path +:+ "[" +:+ rest.

Lemma touches_extends path found : extends path found → path_touches_identifier path = true →
  path_touches_identifier found = true.
Proof.
  unfold path_touches_identifier. intros [->|[[rest ->]|[rest ->]]] H; [done| |].
  - change ("." +:+ rest) with (String "."%char rest). rewrite split_on_app. rewrite existsb_app, H. done.
  - destruct (split_on_last "."%char path ("[" +:+ rest)) as (init & last & tail & Hp & ->). rewrite Hp in H.
    rewrite existsb_app in H. rewrite existsb_app. destruct (existsb _ init); [done|]. cbn [existsb orb] in H |- *.
    rewrite orb_false_r in H. apply andb_true_iff in H as [He Hk].
    assert (Htail : ∃ r, List.hd "" (split_on "."%char ("[" +:+ rest)) = String "["%char r).
    { change ("[" +:+ rest) with (String "["%char rest). cbn [split_on]. rewrite bool_decide_false by done.
      destruct (split_on_cons "."%char rest) as (w & ws & ->). by eexists. }
    destruct Htail as [r ->]. rewrite head_split_app, Hk. by destruct last.
Qed.

Lemma extends_refl path : extends path path.
Proof. by left. Qed.

Lemma extends_child path key found : str_empty path = false → extends (child_path path key) found → extends path found.
Proof.
  unfold child_path. intros -> [->|[[r ->]|[r ->]]]; right; left; rewrite <-?string_app_assoc; cbn; by eexists.
Qed.

Lemma extends_trans a b c : extends a b → extends b c → extends a c.
Proof.
  intros [->|[[r ->]|[r ->]]] [->|[[r' ->]|[r' ->]]]; unfold extends; rewrite <- ?string_app_assoc; eauto.
Qed.

Lemma extends_index path i : extends path (index_path path i).
Proof. right; right. by eexists. Qed.

Lemma nonempty_app_r a b : str_empty b = false → str_empty (a +:+ b) = false.
Proof. destruct a; [done|]. intros _. by rewrite string_app_cons. Qed.

Lemma child_nonempty path key : str_empty path = false → str_empty (child_path path key) = false.
Proof. unfold child_path. intros ->. by apply nonempty_app_r. Qed.

Lemma index_nonempty path i : str_empty (index_path path i) = false.
Proof. by apply nonempty_app_r. Qed.

Lemma identifier_key_whole k : is_identifier_key k = true →
  split_on "."%char k = [k] ∧ List.hd "" (split_on "["%char k) = k ∧ str_empty k = false.
Proof.
  unfold is_identifier_key. intros H%bool_decide_eq_true. unfold IDENTIFIER_POSITIONS in H.
  repeat (apply elem_of_cons in H as [->|H]; [by vm_compute|]). by apply not_elem_of_nil in H.
Qed.

Lemma touches_child path k : is_identifier_key k = true → path_touches_identifier (child_path path k) = true.
Proof.
  intros Hk. destruct (identifier_key_whole k Hk) as (Hs & Hh & He). unfold child_path, path_touches_identifier.
  assert (Hone : existsb (λ segment, negb (str_empty segment) && is_identifier_key (List.hd "" (split_on "["%char segment)))
    (split_on "."%char k) = true) by (rewrite Hs; cbn; by rewrite Hh, Hk, He).
  destruct (str_empty path); [done|]. change (path +:+ "." +:+ k) with (path +:+ String "."%char k).
  rewrite split_on_app, existsb_app, Hone. apply orb_true_r.
Qed.

Lemma touches_nonempty path : path_touches_identifier path = true → str_empty path = false.
Proof. by destruct path. Qed.

(** ** The search *)

Section search.
Abbreviation search := placeholder_in_an_identifier_position.

Lemma search_object_None fs path : placeholder fs = None → search (JObj fs) path = None →
  ∀ k v, (k, v) ∈ fs → ∀ found, search v (child_path path k) = Some found →
  is_identifier_key k = false ∧ path_touches_identifier found = false.
Proof.
  cbn. intros -> H k v Hin found Hf. induction fs as [|[k' v'] fs IH]; [by apply not_elem_of_nil in Hin|]. cbn in H.
  apply elem_of_cons in Hin as [Heq|Hin].
  - injection Heq as <- <-. rewrite Hf in H. by destruct (is_identifier_key k), (path_touches_identifier found).
  - apply IH; [|done]. destruct (search v' (child_path path k')); [|done]. by destruct (_ || _).
Qed.

Lemma search_object_Some fs path found : placeholder fs = None → search (JObj fs) path = Some found →
  ∃ k v, (k, v) ∈ fs ∧ search v (child_path path k) = Some found
    ∧ is_identifier_key k || path_touches_identifier found = true.
Proof.
  cbn. intros -> H. induction fs as [|[k v] fs IH]; [done|]. cbn in H.
  assert (Hrest : (∃ k' v', (k', v') ∈ fs ∧ search v' (child_path path k') = Some found
    ∧ is_identifier_key k' || path_touches_identifier found = true) → ∃ k' v', (k', v') ∈ (k, v) :: fs
    ∧ search v' (child_path path k') = Some found ∧ is_identifier_key k' || path_touches_identifier found = true).
  { intros (k' & v' & ? & ? & ?). exists k', v'. split_and!; [by right|done..]. }
  destruct (search v (child_path path k)) as [f|] eqn:E; [|by apply Hrest, IH].
  destruct (is_identifier_key k || path_touches_identifier f) eqn:Et; [|by apply Hrest, IH].
  injection H as ->. exists k, v. split_and!; [left|done..].
Qed.

Lemma search_list_None items path : search (JList items) path = None →
  ∀ item, item ∈ items → ∃ i, search item (index_path path i) = None.
Proof.
  cbn. generalize 0%nat. induction items as [|x items IH]; intros i H item Hin; [by apply not_elem_of_nil in Hin|]. cbn in H.
  destruct (search x (index_path path i)) eqn:E; [done|]. apply elem_of_cons in Hin as [->|Hin]; [by exists i|].
  exact (IH (S i) H item Hin).
Qed.

Lemma search_list_Some items path found : search (JList items) path = Some found →
  ∃ i item, item ∈ items ∧ search item (index_path path i) = Some found.
Proof.
  cbn. generalize 0%nat. induction items as [|x items IH]; intros i H; [done|]. cbn in H.
  destruct (search x (index_path path i)) eqn:E.
  - injection H as ->. exists i, x. split; [left|done].
  - destruct (IH (S i) H) as (j & item & ? & ?). exists j, item. split; [by right|done].
Qed.

Lemma search_extends node : ∀ path found, str_empty path = false → search node path = Some found → extends path found.
Proof.
  induction node as [v Hv|l IH|fs IH] using json_nested_ind; intros path found Hp H.
  - by destruct v.
  - destruct (search_list_Some _ _ _ H) as (i & item & Hin & Hi).
    eapply extends_trans; [apply extends_index|]. eapply IH; [done|apply index_nonempty|done].
  - destruct (placeholder fs) as [name|] eqn:Ep.
    + cbn in H. rewrite Ep, Hp in H. injection H as <-. apply extends_refl.
    + destruct (search_object_Some _ _ _ Ep H) as (k & v & Hin & Hv & _).
      eapply extends_child; [done|]. eapply IH; [done|by apply child_nonempty|done].
Qed.

(** A search under an identifier that finds nothing: there is nothing. *)
Lemma search_complete node : ∀ path, path_touches_identifier path = true → search node path = None → has_placeholder node = false.
Proof.
  induction node as [v Hv|l IH|fs IH] using json_nested_ind; intros path Hp H.
  - by destruct v.
  - cbn [has_placeholder]. apply existsb_not_elem. intros x Hx. destruct (search_list_None _ _ H x Hx) as [i Hi].
    apply (IH x Hx (index_path path i)); [|done]. eapply touches_extends; [apply extends_index|done].
  - destruct (placeholder fs) as [name|] eqn:Ep; [cbn in H; by rewrite Ep in H|].
    cbn [has_placeholder]. rewrite Ep. cbn [is_some orb]. apply existsb_not_elem. intros [k v] Hin. cbn [snd].
    assert (Hchild : path_touches_identifier (child_path path k) = true).
    { eapply touches_extends; [|exact Hp]. eapply extends_child; [by apply touches_nonempty|apply extends_refl]. }
    apply (IH k v Hin (child_path path k)); [done|]. destruct (search v (child_path path k)) as [f|] eqn:E; [|done].
    destruct (search_object_None _ _ Ep H k v Hin f E) as [_ Hf].
    rewrite (touches_extends _ _ (search_extends _ _ _ (touches_nonempty _ Hchild) E) Hchild) in Hf. done.
Qed.

(** What is found away from a bare placeholder touches an identifier. *)
Lemma search_touches node : ∀ path found, list_hole node = false → search node path = Some found →
  path_touches_identifier found = true.
Proof.
  induction node as [v Hv|l IH|fs IH] using json_nested_ind; intros path found Hh H.
  - by destruct v.
  - cbn in Hh. rewrite existsb_not_elem in Hh. destruct (search_list_Some _ _ _ H) as (i & item & Hin & Hi).
    eapply IH; [done|by apply Hh|done].
  - cbn [list_hole] in Hh. destruct (placeholder fs) as [name|] eqn:Ep; [done|].
    destruct (search_object_Some _ _ _ Ep H) as (k & v & Hin & Hv & Ht).
    destruct (is_identifier_key k) eqn:Ek; [|done].
    eapply touches_extends; [|by eapply (touches_child path)]. eapply search_extends; [|done].
    by eapply touches_nonempty, touches_child.
Qed.
End search.

(** * Identifiers belong to the author *)

Lemma identifier_parts_fixed resolved node : plain_resolution resolved → ∀ path node', lists_separate node = true →
  (∀ f, placeholder_in_an_identifier_position node path = Some f → path_touches_identifier f = false) →
  substitute resolved node = Ok node' → identifier_parts node' = identifier_parts node.
Proof.
  intros Hp. induction node as [v Hv|l IH|fs IH] using json_nested_ind; intros path node' Hl Hs Hb.
  - destruct v; try done; cbn in Hb; by injection Hb as <-.
  - cbn [lists_separate] in Hl. apply andb_true_iff in Hl as [Hsep Hall]. rewrite forallb_elem in Hall.
    apply orb_true_iff in Hsep as [Hflat|Hhole%negb_true_iff].
    { by destruct (flat_no_parts resolved (JList l) node' Hp Hflat Hb) as [-> ->]. }
    assert (Hnone : placeholder_in_an_identifier_position (JList l) path = None).
    { destruct (placeholder_in_an_identifier_position (JList l) path) as [f|] eqn:E; [|done].
      specialize (Hs f eq_refl). by rewrite (search_touches (JList l) path f Hhole E) in Hs. }
    apply bind_ok in Hb as (l' & Hl' & [= <-]). cbn. apply map_result_ok in Hl'.
    assert (Hitem : ∀ x y, x ∈ l → substitute resolved x = Ok y → identifier_parts y = identifier_parts x).
    { intros x y Hx Hxy. destruct (search_list_None _ _ Hnone x Hx) as [i Hi].
      apply (IH x Hx (index_path path i)); [by apply Hall|by rewrite Hi|done]. }
    clear - Hl' Hitem. induction Hl' as [|x y l l' Hxy _ IH]; [done|]. cbn. rewrite (Hitem x y), IH; [done| |set_solver|done].
    intros a b Ha. apply Hitem. by right.
  - cbn [substitute] in Hb. destruct (placeholder fs) as [name|] eqn:Ep.
    + destruct (dict_get name resolved) as [v|] eqn:Ev; [|done]. injection Hb as <-.
      rewrite (placeholder_shape _ _ Ep). by rewrite (plain_no_parts v (Hp _ _ Ev)).
    + assert (Hnone : placeholder_in_an_identifier_position (JObj fs) path = None).
      { destruct (placeholder_in_an_identifier_position (JObj fs) path) as [f|] eqn:E; [|done].
        specialize (Hs f eq_refl). rewrite (search_touches (JObj fs) path f) in Hs; [done| |done]. cbn [list_hole]. by rewrite Ep. }
      cbn [lists_separate] in Hl. rewrite forallb_elem in Hl.
      apply bind_ok in Hb as (fs' & Hfs & [= <-]). cbn. apply map_result_ok in Hfs.
      assert (Hfield : ∀ k v v', (k, v) ∈ fs → substitute resolved v = Ok v' →
        (if is_identifier_key k then [v'] else []) ++ identifier_parts v' = (if is_identifier_key k then [v] else []) ++ identifier_parts v).
      { intros k v v' Hin Hv. pose proof (search_object_None _ _ Ep Hnone k v Hin) as Hfound.
        destruct (is_identifier_key k) eqn:Ek.
        - assert (Hclean : has_placeholder v = false).
          { apply (search_complete v (child_path path k)); [by apply touches_child|].
            destruct (placeholder_in_an_identifier_position v (child_path path k)) as [f|]; [|done].
            by destruct (Hfound f eq_refl). }
          rewrite (substitute_fixed resolved v Hclean) in Hv. by injection Hv as <-.
        - cbn. apply (IH k v Hin (child_path path k)); [exact (Hl (k, v) Hin)| |done]. intros f Hf. by destruct (Hfound f Hf). }
      clear - Hfs Hfield. induction Hfs as [|[k v] y fs fs' Hxy _ IH]; [done|].
      apply bind_ok in Hxy as (v' & Hv & [= <-]). cbn. rewrite (Hfield k v v'), IH; [done| |set_solver|done].
      intros a b c Ha. apply Hfield. by right.
Qed.

Section properties.
Context `{QM : QueryModel}.

(** Values only: a bound query is the template's own skeleton with every
    placeholder replaced by a value of its declared slot: the one supplied, or
    the author's default where none was. Nothing else is taken from the caller,
    and a value never holds an object, so no placeholder or clause can come with it. *)
Theorem bound_values_fit_slots t supplied q : bind_template t supplied = Ok q →
  ∃ resolved bound, substitute resolved (skeleton t) = Ok bound ∧ query_validate bound = Some q
    ∧ (∀ k, k ∈ dict_keys supplied → k ∈ map tp_name (qt_parameters t))
    ∧ ∀ k v, dict_get k resolved = Some v → plain_value v ∧ ∃ p, p ∈ qt_parameters t ∧ tp_name p = k
        ∧ fits_parameter p v ∧ v = default (tp_default p) (dict_get k supplied).
Proof.
  unfold bind_template. intros (resolved & Hr & H)%bind_ok. apply bind_ok in H as (bound & Hb & H).
  destruct (query_validate bound) as [q'|] eqn:Eq; [|done]. injection H as ->.
  destruct (resolve_parameters_ok _ _ _ Hr) as [Hu Hv]. exists resolved, bound. split_and!; [done..|].
  intros k v Hk. destruct (Hv k v Hk) as (p & Hp & Hn & Hfit & Heq). split; [by eapply fits_parameter_plain|]. by exists p.
Qed.

(** C40. A template that passes the check at deployment, and in which no list mixes
    placeholders with objects, fixes what a query touches: whatever the caller
    supplies, the nodes in identifier positions (tables, aliases, columns of
    objects, join keys, groupings, connections) are the author's. *)
Theorem identifiers_fixed_by_author t supplied q : validate_template_structure t = None → lists_separate (skeleton t) = true →
  bind_template t supplied = Ok q →
  ∃ bound, query_validate bound = Some q ∧ identifier_parts bound = identifier_parts (skeleton t).
Proof.
  unfold validate_template_structure, bind_template.
  destruct (placeholder_in_an_identifier_position (skeleton t) "") as [f|] eqn:Es; [done|]. intros _ Hl (resolved & Hr & H)%bind_ok.
  apply bind_ok in H as (bound & Hb & H). destruct (query_validate bound) as [q'|] eqn:Eq; [|done]. injection H as ->.
  exists bound. split; [done|]. apply (identifier_parts_fixed resolved (skeleton t)) with (path := ""); [|done| |done].
  - intros k v Hk. destruct (resolve_parameters_ok _ _ _ Hr) as [_ Hv].
    destruct (Hv k v Hk) as (p & _ & _ & Hfit & _). by eapply fits_parameter_plain.
  - intros f Hf. congruence.
Qed.

(** What the file promises is kept at run time: a default that passed the
    load-time check of its slot, and is no empty list, is what an omitted
    parameter gets. *)
Theorem checked_default_binds p : validate_template_parameter p = Ok tt → tp_default p ≠ JNull → tp_default p ≠ JList [] →
  resolve_parameter [] p = Ok (tp_default p).
Proof.
  intros Hv Hnn Hne. unfold resolve_parameter. cbn [dict_get].
  assert (json_is_none (tp_default p) = false) as Hnone by (by destruct (tp_default p)). rewrite Hnone. cbn [negb].
  unfold validate_template_parameter, validate_constraints in Hv. repeat apply bind_ok_unit in Hv as [_ Hv].
  rewrite Hnone in Hv.
  apply bind_ok in Hv as (values & Hvals & Hall).
  assert (Hfit : ∀ v, v ∈ values → fits_slot p v).
  { intros v Hin. eapply for_each_ok_elem in Hall; [|exact Hin]. apply bind_ok_unit in Hall as [Hc Ha%raise_if_ok].
    apply bind_ok in Hc as ([r|] & Hr & Hc); [done|]. by split. }
  apply validate_parameter_value_ok. split; [done|]. unfold fits_parameter, default_values in *.
  destruct (tp_is_list p); [|injection Hvals as <-; apply Hfit; left].
  destruct (tp_default p) as [| | | | |l|]; try done. injection Hvals as <-. exists l. split_and!; [done|congruence|].
  by apply Forall_forall.
Qed.
End properties.

(** ** The store *)

Section store.
Context `{CF : CaseFold}.

Lemma list_to_dict_in_unique {A} (l : list (string * A)) k v : NoDup l.*1 → (k, v) ∈ l → dict_get k (list_to_dict l) = Some v.
Proof.
  unfold list_to_dict. cut (∀ d, NoDup l.*1 → ((k, v) ∈ l ∨ (k ∉ l.*1 ∧ dict_get k d = Some v)) →
    dict_get k (foldl (λ d e, dict_set e.1 e.2 d) d l) = Some v); [intros H ? ?; apply H; auto|].
  induction l as [|[j w] l IH]; intros d Hnd H; cbn.
  - destruct H as [H|[_ H]]; [by apply not_elem_of_nil in H|done].
  - cbn in Hnd. apply NoDup_cons in Hnd as [Hj Hnd]. apply IH; [done|]. destruct H as [[Heq|Hin]%elem_of_cons|[Hni Hg]].
    + injection Heq as -> ->. right. split; [done|apply dict_get_set_eq].
    + by left.
    + cbn in Hni. apply not_elem_of_cons in Hni as [Hne Hni]. right. split; [done|]. by rewrite dict_get_set_ne.
Qed.

(** A loaded template is found under its id, however it is spelled. *)
Theorem loaded_template_found ts s t id : template_store_from ts = Ok s → t ∈ ts →
  casefold id = casefold (strip (qt_id t)) →
  ∃ t', template_get s id = Some t' ∧ validate_template t = Ok t' ∧ qt_query t' = qt_query t.
Proof.
  unfold template_store_from, validate_template_file. intros (ts' & H & [= <-])%bind_ok Hin Hid.
  apply bind_ok in H as (ts1 & Hts & H). apply bind_ok_unit in H as [Hd%raise_if_ok [= ->]].
  apply map_result_ok in Hts. apply list_elem_of_lookup in Hin as [n Hn].
  destruct (Forall2_lookup_l _ _ _ _ _ Hts Hn) as (t' & Hn' & Ht). exists t'.
  pose proof Ht as Hv. unfold validate_template in Hv. cbv zeta in Hv. repeat apply bind_ok_unit in Hv as [_ Hv].
  injection Hv as Hv. split_and!; [|done|by rewrite <- Hv].
  unfold template_get, template_store. apply list_to_dict_in_unique.
  - apply negb_false_iff, bool_decide_eq_true in Hd. rewrite <- list_fmap_compose.
    replace (fst ∘ _ <$> ts') with (map casefold (map qt_id ts')); [done|]. by rewrite map_map.
  - apply list_elem_of_fmap. exists t'. split; [|by eapply list_elem_of_lookup_2]. f_equal. rewrite Hid, <- Hv. done.
Qed.
End store.

(** * Samples *)

(** As much of [StructuredQuery] as the samples use: a table, bare or counted
    columns (counted ones dotted), a limit. *)
Definition sample_item (v : json) : option SelectItem :=
  match v with
  | JStr ref => Some (ColumnItem ref)
  | JObj [("fn", JStr "count"); ("col", JStr col); ("alias", JStr alias)] =>
      if has_dot col then Some (AggregateSelectItem AggCount None (Some (ColumnExpr col)) false (Some alias)) else None
  | _ => None
  end.

#[local] Instance sample_model : QueryModel := λ v,
  match v with
  | JObj [("from", JStr table); ("select", JList items)] => simple_query table <$> mapM sample_item items
  | JObj [("from", JStr table); ("select", JList items); ("limit", JInt n)] =>
      (λ items, MkStructuredQuery table None items false [] None [] None [] (Some n) 0 None None [] [] None None) <$> mapM sample_item items
  | _ => None
  end.

Definition slot (name : string) (t : ParameterType) (d : json) (is_list : bool) : TemplateParameter :=
  MkParameter name t true None d is_list None (Some f64_ten) None None.

Definition top_customers : QueryTemplate :=
  MkTemplate "Top_customers" "main" None [slot "n" PInteger (JInt 5) false]
    [("from", JStr "customers"); ("select", JList [JStr "customers.id"]); ("limit", JObj [("param", JStr "n")])].

Lemma bound_values_fit_slots_witness :
  ∃ q resolved, bind_template top_customers [("n", JInt 7)] = Ok q ∧ limit q = Some 7
    ∧ ∀ k v, dict_get k resolved = Some v → plain_value v ∧ ∃ p, p ∈ qt_parameters top_customers ∧ tp_name p = k
        ∧ fits_parameter p v ∧ v = default (tp_default p) (dict_get k [("n", JInt 7)]).
Proof.
  destruct (bind_template top_customers [("n", JInt 7)]) as [q|e] eqn:E; [|vm_compute in E; discriminate].
  destruct (bound_values_fit_slots top_customers [("n", JInt 7)] q E) as (resolved & bound & _ & _ & _ & H).
  exists q, resolved. split; [reflexivity|]. split; [vm_compute in E; injection E as <-; reflexivity|exact H].
Defined.

Lemma identifiers_fixed_by_author_witness :
  ∃ q bound, bind_template top_customers [("n", JInt 7)] = Ok q ∧ query_validate bound = Some q
    ∧ identifier_parts bound = [JStr "customers"].
Proof.
  destruct (bind_template top_customers [("n", JInt 7)]) as [q|e] eqn:E; [|vm_compute in E; discriminate].
  destruct (identifiers_fixed_by_author top_customers [("n", JInt 7)] q) as (bound & Hq & Hb);
    [vm_compute; reflexivity|vm_compute; reflexivity|exact E|].
  exists q, bound. split; [reflexivity|]. split; [exact Hq|]. rewrite Hb. vm_compute. reflexivity.
Defined.

Lemma checked_default_binds_witness : resolve_parameter [] (slot "n" PInteger (JInt 5) false) = Ok (JInt 5).
Proof. apply (checked_default_binds (slot "n" PInteger (JInt 5) false)); [vm_compute; reflexivity|discriminate|discriminate]. Defined.

Lemma loaded_template_found_witness :
  ∃ s, @template_store_from ascii_casefold [top_customers] = Ok s ∧ @template_get ascii_casefold s "TOP_Customers" = Some top_customers.
Proof.
  destruct (@template_store_from ascii_casefold [top_customers]) as [s|e] eqn:E; [|vm_compute in E; discriminate].
  exists s. split; [reflexivity|].
  destruct (@loaded_template_found ascii_casefold [top_customers] s top_customers "TOP_Customers") as (t & Hg & Hv & _);
    [exact E|left|vm_compute; reflexivity|].
  rewrite Hg. f_equal. vm_compute in Hv. injection Hv as <-. reflexivity.
Defined.

(** * What the check misses *)

(** The select list is no identifier position: a template whose projected column
    is a parameter passes the check, and the caller chooses the column. *)
Definition open_select : QueryTemplate :=
  MkTemplate "open" "main" None [MkParameter "c" PString true None JNull false None None None None]
    [("from", JStr "customers"); ("select", JList [JObj [("param", JStr "c")]])].

Theorem caller_chooses_column :
  @query_wf ascii_casefold (simple_query "customers" [ColumnItem "x"]) = true ∧ validate_template_structure open_select = None
  ∧ bind_template open_select [("c", JStr "customers.ssn")] = Ok (simple_query "customers" [ColumnItem "customers.ssn"]).
Proof. split_and!; vm_compute; reflexivity. Qed.

(** A bare placeholder in a list hides the later items from the check, here an
    alias named by the caller. *)
Definition hidden_count : json :=
  JObj [("fn", JStr "count"); ("col", JStr "customers.id"); ("alias", JObj [("param", JStr "d")])].

Definition hidden_identifier : QueryTemplate :=
  MkTemplate "hidden" "main" None
    [MkParameter "c" PString true None JNull false None None None None;
     MkParameter "d" PString true None JNull false None None None None]
    [("from", JStr "customers");
     ("select", JList [JObj [("param", JStr "c")]; hidden_count])].

Theorem list_placeholder_hides_the_rest :
  validate_template_structure hidden_identifier = None
  ∧ is_some (placeholder_in_an_identifier_position
      (JObj [("select", JList [hidden_count])]) "") = true
  ∧ lists_separate (skeleton hidden_identifier) = false.
Proof. split_and!; vm_compute; reflexivity. Qed.

(** An empty list passes as the default of a list slot at load time, and is
    refused whenever it is used. *)
Theorem empty_list_default_never_binds :
  let p := slot "ids" PInteger (JList []) true in
  validate_template_parameter p = Ok tt
  ∧ resolve_parameter [] p = Raise (QueryValidationError "must be a non-empty list").
Proof. split; vm_compute; reflexivity. Qed.

(** A number too large for a float is no validation error: [math.isfinite]
    raises, and nothing catches it. *)
Theorem huge_number_escapes_validation :
  validate_parameter_value (slot "x" PNumber JNull false) (JInt (10 ^ 400)) = Raise (BuiltinError "OverflowError").
Proof. vm_compute. reflexivity. Qed.
