(* ===== verification/Connections.v ===== *)
(** Connections and cross-connection joins: the profile and its join group
    ([connections/models.py]), the load-time host check
    ([connections/registry.py]), visibility ([connections/visibility.py]) and
    the per-scope table-to-connection maps of [validation/schema_validation.py].
    SQLAlchemy's URL parser is an interface; a resolver is the function the
    callers pass. *)
From Stdlib Require Import Ascii.
From S2P Require Export Visitor PolicyLoader.

Inductive DatabaseDialect := POSTGRESQL | MSSQL | MYSQL | SNOWFLAKE | BIGQUERY.

#[export] Instance DatabaseDialect_eq_dec : EqDecision DatabaseDialect.
Proof. solve_decision. Defined.

(** [SessionDialectAdapter.is_connectable] and its two overrides. *)
Definition is_connectable (d : DatabaseDialect) : bool :=
  match d with SNOWFLAKE | BIGQUERY => false | _ => true end.

Record ConnectionProfile := MkProfile {
  cp_id : string;
  cp_connection_string : string;
  cp_dialect : DatabaseDialect;
  cp_enabled : bool;
  cp_description : option string;
  cp_known_tables : list string;
  cp_join_group : option string;
}.

(** [ConnectionProfile.effective_join_group]. *)
Definition effective_join_group (p : ConnectionProfile) : string :=
  str_or (cp_join_group p) (cp_id p).

(** What [sqlalchemy.engine.url.make_url] returns: a repeated query key is a
    tuple. [None] is a string that does not parse. *)
Inductive query_value := QStr (s : string) | QTuple (l : list string).

Record parsed_url := MkUrl {
  url_host : option string;
  url_query_host : option query_value;
  url_port : option Z;
  url_database : option string;
}.

Class UrlParser := make_url : string → option parsed_url.

(** [host.rsplit("@", 1)[-1]]: the text after the last ["@"], if there is one. *)
Fixpoint text_after_at (s : string) : option string :=
  match s with
  | EmptyString => None
  | String c s' =>
      match text_after_at s' with
      | Some t => Some t
      | None => if Ascii.eqb c "@"%char then Some s' else None
      end
  end.

Definition after_last_at (s : string) : string := default s (text_after_at s).

(** [ConnectionRegistry]: the profiles by id. *)
Abbreviation ConnectionRegistry := (dict ConnectionProfile).

(** One name-to-connection map per scope, keyed by the scope. *)
Abbreviation ScopeConnections := (list (scope_path * dict string)).

Section hosts.
Context `{CF : CaseFold} `{UP : UrlParser}.

(** [connection_host_port]. *)
Definition connection_host_port (p : ConnectionProfile) : option (string * option Z) :=
  match make_url (cp_connection_string p) with
  | None => None
  | Some url =>
      let host :=
        match url_host url with
        | Some h => if str_empty h then url_query_host url else Some (QStr h)
        | None => url_query_host url
        end in
      match host with
      | None | Some (QTuple _) => None
      | Some (QStr h) =>
          if str_empty h then None
          else Some (casefold (after_last_at h), url_port url)
      end
  end.

(** The comparison of [resolve_query_table_connections]: host and port are
    compared separately, and only what both sides state. *)
Definition hosts_disagree (a b : option (string * option Z)) : bool :=
  match a, b with
  | Some (h1, p1), Some (h2, p2) =>
      negb (bool_decide (h1 = h2))
      || match p1, p2 with Some x, Some y => negb (Z.eqb x y) | _, _ => false end
  | _, _ => false
  end.

(** [_validate_join_group_hosts]: the enabled members of a group, in the order
    the groups were first seen, and the sets of host names and stated ports. *)
Definition group_step (groups : dict (list ConnectionProfile)) (p : ConnectionProfile) :
  dict (list ConnectionProfile) :=
  if cp_enabled p then
    let g := effective_join_group p in
    dict_set g (default [] (dict_get g groups) ++ [p]) groups
  else groups.

Definition join_groups (profiles : list ConnectionProfile) : dict (list ConnectionProfile) :=
  foldl group_step [] profiles.

Definition known_hosts (members : list ConnectionProfile) : list (string * option Z) :=
  flat_map (λ m, option_list (connection_host_port m)) members.

Definition host_names (members : list ConnectionProfile) : gset string :=
  list_to_set (known_hosts members).*1.

Definition host_ports (members : list ConnectionProfile) : gset Z :=
  list_to_set (flat_map (λ hp, option_list hp.2) (known_hosts members)).

Definition check_group (members : list ConnectionProfile) : result unit :=
  if (length members <? 2)%nat then Ok tt
  else raise_if ((1 <? size (host_names members)) || (1 <? size (host_ports members)))%nat
         (ValueError "join_group spans different hosts").

Definition validate_join_group_hosts (profiles : list ConnectionProfile) : result unit :=
  for_each (λ g, check_group g.2) (join_groups profiles).

(** [resolve_visible_connection_from]: unknown and disabled are one error. *)
Definition resolve_visible_connection_from (registry : ConnectionRegistry)
  (policy_store_get : string → option Principal → result Policy)
  (connection_id : string) (principal : option Principal) :
  result (ConnectionProfile * Policy) :=
  match dict_get connection_id registry with
  | None => Raise (NotFoundError "Unknown connection")
  | Some profile =>
      policy_store_get connection_id principal ≫= λ policy,
      if negb (cp_enabled profile) || negb (enabled (access policy))
      then Raise (NotFoundError "Unknown connection")
      else Ok (profile, policy)
  end.

(** [list_visible_connections], by id: connections whose resolution raises
    [NotFoundError] are dropped, any other error propagates. *)
Definition visible_ids (registry : ConnectionRegistry)
  (policy_store_get : string → option Principal → result Policy)
  (principal : option Principal) : result (list string) :=
  map_result (λ id,
    match resolve_visible_connection_from registry policy_store_get id principal with
    | Ok _ => Ok (Some id)
    | Raise (NotFoundError _) => Ok None
    | Raise e => Raise e
    end) (dict_keys registry) ≫= λ ids, Ok (flat_map option_list ids).

(** * The table-to-connection maps *)

(** [ConnectionResolver]. *)
Definition ConnectionResolver : Type :=
  string → option Principal → result (ConnectionProfile * Policy).

(** [policy.join_group or profile.effective_join_group()]. *)
Definition resolved_join_group (profile : ConnectionProfile) (policy : Policy) : string :=
  str_or (join_group (gates policy)) (effective_join_group profile).

(** The loop body of [resolve_query_table_connections]: the checks of one join,
    and the connection it resolves to. *)
Definition resolve_join_connection (resolver : ConnectionResolver) (principal : option Principal)
  (known_ctes : gset string) (connection_id : string) (primary : ConnectionProfile)
  (primary_group : string) (j : JoinSpec) : result string :=
  let join_connection_id := str_or (js_connection j) connection_id in
  if is_some (js_connection j) && bool_decide (casefold (js_table j) ∈ known_ctes)
  then Raise (QueryValidationError "join to cte may not set `connection`")
  else if bool_decide (join_connection_id = connection_id) then Ok join_connection_id
  else
    resolver join_connection_id principal ≫= λ '(other, other_policy),
    if negb (bool_decide (primary_group = resolved_join_group other other_policy))
    then Raise (QueryValidationError "cross-connection join: not in the same join_group")
    else if negb (is_connectable (cp_dialect other))
    then Raise (ConfigValidationError "cross-connection join: not connectable")
    else if hosts_disagree (connection_host_port primary) (connection_host_port other)
    then Raise (ConfigValidationError "cross-connection join: not the same server instance")
    else Ok join_connection_id.

Definition resolve_query_table_connections (resolver : ConnectionResolver)
  (query : StructuredQuery) (connection_id : string) (principal : option Principal)
  (cte_names : gset string) : result (dict string) :=
  resolver connection_id principal ≫= λ '(primary, policy),
  let primary_group := resolved_join_group primary policy in
  map_result (λ j,
    resolve_join_connection resolver principal cte_names connection_id primary primary_group j
      ≫= λ cx, Ok (str_or (js_alias j) (js_table j), cx)) (joins query) ≫= λ entries,
  Ok (foldl (λ d e, dict_set e.1 e.2 d)
        [(str_or (from_alias query) (from_table query), connection_id)] entries).

(** [{name.casefold(): cx for name, cx in ...}]. *)
Definition casefold_keys (d : dict string) : dict string :=
  list_to_dict (map (λ e, (casefold e.1, e.2)) d).

(** [resolve_scope_connections]: one map per scope, keyed by the scope. *)
Definition resolve_scope_connections (resolver : ConnectionResolver) (query : StructuredQuery)
  (connection_id : string) (principal : option Principal) : result ScopeConnections :=
  map_result (λ s,
    resolve_query_table_connections resolver (sc_query s) connection_id principal
      (declared_cte_names query) ≫= λ d, Ok (sc_path s, casefold_keys d))
    (iter_query_scopes query).

(** [(scope_connections or {}).get(id(scope), {})]. *)
Definition scope_table_connection (scs : option ScopeConnections) (path : scope_path) :
  dict string :=
  match scs with
  | None => []
  | Some l => default [] (snd <$> find (λ e, bool_decide (e.1 = path)) l)
  end.

(** [resolve_table_policies]: the primary policy first, then the joined
    connection's own. *)
Definition resolve_table_policies (resolver : ConnectionResolver)
  (table_connection_id connection_id : string) (policy : Policy) (principal : option Principal) :
  result (list Policy) :=
  if bool_decide (table_connection_id = connection_id) then Ok [policy]
  else resolver table_connection_id principal ≫= λ '(_, other_policy),
       Ok [policy; other_policy].
End hosts.

(** * Facts *)

Section facts.
Context `{CF : CaseFold} `{UP : UrlParser}.

Definition in_group (g : string) (p : ConnectionProfile) : bool :=
  cp_enabled p && bool_decide (effective_join_group p = g).

Lemma join_groups_members ps : ∀ d g,
  default [] (dict_get g (foldl group_step d ps))
  = default [] (dict_get g d) ++ filter (λ p, in_group g p) ps.
Proof.
  induction ps as [|p ps IH]; intros d g; cbn [foldl]; [by rewrite app_nil_r|].
  rewrite IH, filter_cons. unfold group_step, in_group. destruct (cp_enabled p); cbn [andb];
    [|by rewrite decide_False by (cbn; tauto)].
  case_bool_decide as Hg.
  - subst g. rewrite dict_get_set_eq, decide_True by done. cbn. by rewrite <-app_assoc.
  - rewrite dict_get_set_ne by done. by rewrite decide_False by (cbn; tauto).
Qed.

Lemma hosts_disagree_refl h : hosts_disagree h h = false.
Proof.
  destruct h as [[h [p|]]|]; cbn; try done; rewrite bool_decide_true by done; [|done].
  by rewrite Z.eqb_refl.
Qed.

Lemma set_le_1_eq {A} `{Countable A} (X : gset A) x y : size X ≤ 1 → x ∈ X → y ∈ X → x = y.
Proof.
  intros Hs Hx Hy. destruct (decide (size X = 0)) as [E|E].
  - apply size_empty_inv in E. set_solver.
  - apply (size_singleton_inv X); [lia|done|done].
Qed.

Lemma check_group_agree members a b :
  check_group members = Ok tt → a ∈ members → b ∈ members →
  hosts_disagree (connection_host_port a) (connection_host_port b) = false.
Proof.
  unfold check_group. destruct (length members <? 2)%nat eqn:El; intros Hc Ha Hb.
  { apply Nat.ltb_lt in El. destruct members as [|x [|y l]]; cbn in El; [set_solver| |lia].
    apply list_elem_of_singleton in Ha as ->. apply list_elem_of_singleton in Hb as ->.
    apply hosts_disagree_refl. }
  rewrite raise_if_ok, orb_false_iff, !Nat.ltb_ge in Hc. destruct Hc as [Hn Hp].
  unfold hosts_disagree.
  destruct (connection_host_port a) as [[h1 p1]|] eqn:Ea; [|done].
  destruct (connection_host_port b) as [[h2 p2]|] eqn:Eb; [|done].
  assert (Hka : (h1, p1) ∈ known_hosts members) by (unfold known_hosts; set_solver).
  assert (Hkb : (h2, p2) ∈ known_hosts members) by (unfold known_hosts; set_solver).
  rewrite bool_decide_true; cbn.
  - destruct p1 as [x|], p2 as [y|]; try done. apply negb_false_iff, Z.eqb_eq.
    apply (set_le_1_eq _ _ _ Hp); unfold host_ports; apply elem_of_list_to_set, elem_of_flat_map;
      [exists (h1, Some x)|exists (h2, Some y)]; set_solver.
  - apply (set_le_1_eq _ _ _ Hn); unfold host_names; apply elem_of_list_to_set, list_elem_of_fmap;
      [exists (h1, p1)|exists (h2, p2)]; done.
Qed.

Lemma resolve_join_connection_ok resolver who ctes_ cx primary g j out :
  resolve_join_connection resolver who ctes_ cx primary g j = Ok out →
  out = str_or (js_connection j) cx
  ∧ (out ≠ cx → ∃ other policy, resolver out who = Ok (other, policy)
      ∧ resolved_join_group other policy = g ∧ is_connectable (cp_dialect other) = true
      ∧ hosts_disagree (connection_host_port primary) (connection_host_port other) = false)
  ∧ (is_some (js_connection j) = true → casefold (js_table j) ∉ ctes_).
Proof.
  unfold resolve_join_connection. intros H. result_inv.
  assert (Hcte : is_some (js_connection j) = true → casefold (js_table j) ∉ ctes_).
  { intros Hs. match goal with E : _ && _ = false |- _ => rewrite Hs in E; cbn in E end.
    by bool_inv. }
  case_bool_decide as Hcx; result_inv; [by split_and!|].
  match goal with x : ConnectionProfile * Policy |- _ => destruct x as [other policy] end.
  result_inv. bool_inv. split_and!; [done| |done]. intros _. eauto 10.
Qed.
End facts.

(** * Properties *)

Section properties.
Context `{CF : CaseFold} `{UP : UrlParser}.

(** The load-time host check is at least as strict as the request-time one: in
    a registry whose join groups passed [_validate_join_group_hosts], no two
    enabled members of a group disagree on the host or the port they state. *)
Theorem join_group_hosts_agree profiles a b :
  validate_join_group_hosts profiles = Ok tt → a ∈ profiles → b ∈ profiles →
  cp_enabled a = true → cp_enabled b = true →
  effective_join_group a = effective_join_group b →
  hosts_disagree (connection_host_port a) (connection_host_port b) = false.
Proof.
  unfold validate_join_group_hosts. intros H Ha Hb Hea Heb Hg.
  pose proof (join_groups_members profiles [] (effective_join_group a)) as Hm.
  fold (join_groups profiles) in Hm. cbn [default dict_get app] in Hm.
  assert (Hina : a ∈ default [] (dict_get (effective_join_group a) (join_groups profiles))).
  { rewrite Hm. apply elem_of_filter_bool. unfold in_group. by rewrite Hea, bool_decide_true. }
  assert (Hinb : b ∈ default [] (dict_get (effective_join_group a) (join_groups profiles))).
  { rewrite Hm. apply elem_of_filter_bool. unfold in_group. by rewrite Heb, bool_decide_true. }
  destruct (dict_get (effective_join_group a) (join_groups profiles)) as [l|] eqn:E;
    [|cbn in Hina; set_solver].
  apply dict_get_Some in E. apply (for_each_ok_elem _ _ _) with (2 := E) in H.
  by apply (check_group_agree l).
Qed.

(** Visibility never enumerates: a connection resolves exactly when it is
    registered and enabled both in its profile and in the caller's policy, and
    every way it can fail while the store answers is the same error, so a caller
    cannot tell a hidden connection from one that does not exist. *)
Theorem resolve_visible_spec registry get cx who :
  (∀ p, get cx who = Ok p →
    match resolve_visible_connection_from registry get cx who with
    | Ok (prof, pol) => dict_get cx registry = Some prof ∧ pol = p
                        ∧ cp_enabled prof = true ∧ enabled (access p) = true
    | Raise e => e = NotFoundError "Unknown connection"
                 ∧ ∀ prof, dict_get cx registry = Some prof →
                     cp_enabled prof = false ∨ enabled (access p) = false
    end)
  ∧ (dict_get cx registry = None →
     resolve_visible_connection_from registry get cx who
     = Raise (NotFoundError "Unknown connection")).
Proof.
  unfold resolve_visible_connection_from. split; [|by intros ->].
  intros p Hp. destruct (dict_get cx registry) as [prof|]; [|done].
  rewrite Hp. cbn [mbind result_bind].
  destruct (cp_enabled prof) eqn:E1, (enabled (access p)) eqn:E2; cbn; naive_solver.
Qed.

(** Every cross-connection join of every scope was admitted: when
    [resolve_scope_connections] returns, a join that names another connection
    resolved to a visible one of the same join group, connectable, on a host that
    does not disagree with the primary's, and never names a cte. *)
Theorem scope_connections_admitted resolver q cx who scs prof p s j :
  resolve_scope_connections resolver q cx who = Ok scs → resolver cx who = Ok (prof, p) →
  s ∈ iter_query_scopes q → j ∈ joins (sc_query s) →
  (is_some (js_connection j) = true → casefold (js_table j) ∉ declared_cte_names q)
  ∧ (str_or (js_connection j) cx ≠ cx →
     ∃ other policy, resolver (str_or (js_connection j) cx) who = Ok (other, policy)
       ∧ resolved_join_group other policy = resolved_join_group prof p
       ∧ is_connectable (cp_dialect other) = true
       ∧ hosts_disagree (connection_host_port prof) (connection_host_port other) = false).
Proof.
  unfold resolve_scope_connections. intros H Hp Hs Hj. apply map_result_ok in H.
  apply list_elem_of_lookup in Hs as [i Hi].
  destruct (Forall2_lookup_l _ _ _ _ _ H Hi) as (d & _ & Hd).
  apply bind_ok in Hd as (m & Hm & _). unfold resolve_query_table_connections in Hm.
  rewrite Hp in Hm. cbn [mbind result_bind] in Hm. apply bind_ok in Hm as (es & Hes & _).
  apply map_result_ok in Hes. apply list_elem_of_lookup in Hj as [k Hk].
  destruct (Forall2_lookup_l _ _ _ _ _ Hes Hk) as (e & _ & He).
  apply bind_ok in He as (out & Ho & _). apply resolve_join_connection_ok in Ho as (-> & Ho & Hc).
  split; [exact Hc|exact Ho].
Qed.
End properties.

(** ** Witnesses *)

Definition host_parser : UrlParser := λ s, Some (MkUrl (Some s) None None (Some "db")).

Definition db_profile (id host : string) : ConnectionProfile :=
  MkProfile id host MSSQL true None [] (Some "shared").

Lemma join_group_hosts_agree_witness :
  hosts_disagree
    (@connection_host_port ascii_casefold host_parser (db_profile "a" "DB1"))
    (@connection_host_port ascii_casefold host_parser (db_profile "b" "u:p@x@db1")) = false.
Proof.
  apply (@join_group_hosts_agree ascii_casefold host_parser
    [db_profile "a" "DB1"; db_profile "b" "u:p@x@db1"]); try reflexivity.
  - by left.
  - right. by left.
Defined.

Definition db_resolver : ConnectionResolver := λ cx _, Ok (db_profile cx "db1", default_policy).

Definition db_query : StructuredQuery :=
  with_joins [MkJoinSpec "t" None JoinInner (Some ("u.id", "t.id")) [] None (Some "b")]
    (simple_query "u" [ColumnItem "u.id"]).

Lemma scope_connections_admitted_witness :
  ∃ other policy, db_resolver "b" None = Ok (other, policy)
    ∧ is_connectable (cp_dialect other) = true.
Proof.
  destruct (@scope_connections_admitted ascii_casefold host_parser db_resolver db_query "a" None
    [([], [("u", "a"); ("t", "b")])] (db_profile "a" "db1") default_policy
    (MkScope [] 0 db_query)
    (MkJoinSpec "t" None JoinInner (Some ("u.id", "t.id")) [] None (Some "b")))
    as [_ H].
  - vm_compute. reflexivity.
  - reflexivity.
  - apply list_elem_of_In. vm_compute. auto.
  - by left.
  - destruct H as (o & p & ? & _ & ? & _); [discriminate|]. eauto.
Defined.
