(* ===== verification/PolicyValidation.v ===== *)
(** Policy enforcement before compilation: [validation/policy_validation.py].
    Every check of the module, in the order it runs; a check that passes
    returns, one that fails raises. Sets whose iteration order the code leaves
    open are lists here: only which of several messages is reported depends on
    it. *)
From S2P Require Export Connections.
Local Open Scope Z_scope.

(** * Counting one scope *)

Section counting.
Context `{CF : CaseFold}.

(** [referenced_tables]: the from/join tables and the physical table behind
    every reference, less the statement's cte names. *)
Definition ref_table (name_to_physical : dict string) (ref : string) : result string :=
  parse_column_ref ref ≫= λ '(table, _), Ok (physical_of name_to_physical table).

Definition referenced_tables (q : StructuredQuery) (cte_names : option (gset string)) :
  result (list string) :=
  let names := default (declared_cte_names q) cte_names in
  map_result (λ r, ref_table (effective_name_map q) (ref_ref r)) (iter_column_refs q)
    ≫= λ ref_tables,
  Ok (filter (λ t, casefold t ∉ names)
        (from_table q :: map js_table (joins q) ++ ref_tables)).

(** [referenced_tables_tree_wide]. *)
Definition referenced_tables_tree_wide (q : StructuredQuery) : result (list string) :=
  map_result (λ s, referenced_tables (sc_query s) (Some (declared_cte_names q)))
    (iter_query_scopes q) ≫= λ ls, Ok (concat ls).

Definition scope_where_predicate_count (q : StructuredQuery) : nat :=
  length (option_flat_map iter_where_predicates (where_ q)).

Definition scope_having_predicate_count (q : StructuredQuery) : nat :=
  length (option_flat_map iter_where_predicates (having q)).

Definition scope_join_condition_predicate_count (q : StructuredQuery) : nat :=
  length (iter_join_condition_predicates q).

Definition scope_case_condition_predicate_count (q : StructuredQuery) : nat :=
  length (flat_map iter_where_predicates (iter_scope_case_conditions q)).

(** [_scope_windows]: the window PROJECTIONS of one scope, as (fn, over, offset). *)
Definition scope_windows (q : StructuredQuery) : list (WindowFn * WindowSpec * option Z) :=
  flat_map (λ item, match item with
    | WindowSelectItem fn over _ off _ _ => [(fn, over, off)]
    | _ => []
    end) (select q).

Definition scope_expression_node_count (q : StructuredQuery) : nat :=
  length (flat_map iter_expression_nodes (iter_scope_expressions q)).

(** * Windows only in projections *)

Definition is_window_expr (e : Expression) : bool :=
  match e with WindowExpr _ _ _ _ _ => true | _ => false end.

Definition window_nodes (e : Expression) : list Expression :=
  filter (λ n, is_window_expr n) (iter_expression_nodes e).

Definition check_window_arg (w : Expression) : result unit :=
  match w with
  | WindowExpr _ _ (Some arg) _ _ =>
      raise_if (existsb is_window_expr (iter_expression_nodes arg))
        (PolicyViolationError "a window function cannot be nested inside another window's argument")
  | _ => Ok tt
  end.

(** The loop body of [_reject_windows_outside_projections]. *)
Definition check_window_position (pe : ExpressionPosition * Expression) : result unit :=
  match window_nodes pe.2 with
  | [] => Ok tt
  | ws =>
      if bool_decide (pe.1 = Projection) then for_each check_window_arg ws
      else Raise (PolicyViolationError "a window function is not allowed here")
  end.

Definition has_window (q : StructuredQuery) : bool :=
  existsb (λ pe : ExpressionPosition * Expression, existsb is_window_expr (iter_expression_nodes pe.2))
    (iter_scope_expressions_by_position q).

Definition reject_windows_outside_projections (q : StructuredQuery) : result unit :=
  for_each check_window_position (iter_scope_expressions_by_position q) ≫= λ _,
  raise_if (has_window q && is_aggregate_scope q)
    (PolicyViolationError
       "a window function cannot be combined with group_by or aggregate select items").

(** * Tree-wide caps *)

Definition check_predicate_count (total : nat) (p : Policy) (label : string) : result unit :=
  raise_if (max_where_predicates (caps p) <? Z.of_nat total)
    (PolicyViolationError (label +:+ " predicate count exceeds max")).

Definition sum_Z {A} (f : A → Z) (l : list A) : Z := foldr (λ x acc, f x + acc) 0 l.

Definition total_partition_by (qs : list StructuredQuery) : nat :=
  (sum_of (λ q, match top_n q with Some t => length (tn_partition_by t) | None => 0 end) qs
   + sum_of (λ w : WindowFn * WindowSpec * option Z, length (ws_partition_by w.1.2))
       (flat_map scope_windows qs))%nat.

Definition total_top_n (qs : list StructuredQuery) : Z :=
  sum_Z (λ q, match top_n q with Some t => tn_n t | None => 0 end) qs.

Definition total_set_op_arms (qs : list StructuredQuery) : nat :=
  sum_of (λ q, match set_op q with Some s => S (length (so_arms s)) | None => 0%nat end) qs.

(** [_enforce_tree_wide_caps]. *)
Definition enforce_tree_wide_caps (qs : list StructuredQuery) (p : Policy) : result unit :=
  let over (total cap : Z) msg := raise_if (cap <? total) (PolicyViolationError msg) in
  let n (f : StructuredQuery → nat) := Z.of_nat (sum_of f qs) in
  over (n (λ q, length (select q))) (max_select_columns (caps p)) "select exceeds max" ≫= λ _,
  over (n (λ q, length (joins q))) (max_joins (caps p)) "joins exceeds max" ≫= λ _,
  over (n (λ q, length (group_by q))) (max_group_by (caps p)) "group_by exceeds max" ≫= λ _,
  check_predicate_count (sum_of scope_where_predicate_count qs) p "where" ≫= λ _,
  check_predicate_count (sum_of scope_having_predicate_count qs) p "having" ≫= λ _,
  check_predicate_count (sum_of scope_case_condition_predicate_count qs) p "case condition" ≫= λ _,
  check_predicate_count (sum_of scope_join_condition_predicate_count qs) p "join condition" ≫= λ _,
  over (n scope_expression_node_count) (max_expression_nodes (caps p))
    "expression node count exceeds max" ≫= λ _,
  over (Z.of_nat (length (flat_map scope_windows qs))) (max_window_specs (windows p))
    "window function count exceeds max_window_specs" ≫= λ _,
  over (Z.of_nat (total_partition_by qs)) (max_partition_by (caps p))
    "partition_by exceeds max" ≫= λ _,
  over (total_top_n qs) (max_top_n (caps p)) "top_n.n exceeds max" ≫= λ _,
  over (Z.of_nat (total_set_op_arms qs)) (max_set_op_arms (caps p))
    "set operation exceeds max_set_op_arms".

(** * Shape caps of one predicate tree *)

Definition check_where_depth {P} (node : option (WhereNode_ P)) (p : Policy) (label : string) :
  result unit :=
  match node with
  | None => Ok tt
  | Some w =>
      raise_if (max_where_depth (caps p) <? Z.of_nat (where_depth w))
        (PolicyViolationError (label +:+ " nesting depth exceeds max"))
  end.

(** [len(value)]: a validated [in]/[not_in] value is a list. *)
Definition json_len (v : json) : nat :=
  match v with
  | JList l => length l
  | JObj l => length l
  | JStr s => String.length s
  | _ => 0
  end.

Definition check_in_list_size_of (op : ReadCompareOp) (value : json) (p : Policy) : result unit :=
  if negb (in_ops op) || json_is_none value then Ok tt
  else raise_if (max_in_list_size (caps p) <? Z.of_nat (json_len value))
         (PolicyViolationError "list exceeds max_in_list_size").

Definition check_in_list_size {E Q} (pred : Predicate E Q) (p : Policy) : result unit :=
  check_in_list_size_of (pr_op pred) (pr_value pred) p.

(** [enforce_predicate_shape_caps]. *)
Definition enforce_predicate_shape_caps {E Q} (node : WhereNode_ (Predicate E Q)) (p : Policy)
  (label : string) : result unit :=
  check_where_depth (Some node) p label ≫= λ _,
  check_predicate_count (length (iter_where_predicates node)) p label ≫= λ _,
  for_each (λ pred, check_in_list_size pred p) (iter_where_predicates node).

(** * Which policies govern a table *)

Definition table_connection_id (table_connection : dict string) (effective connection_id : string) :
  string :=
  default connection_id (dict_get (casefold effective) table_connection).

Definition table_allowed_everywhere (table : string) (candidates : list Policy) : bool :=
  forallb (λ p, table_allowed p table) candidates.

Definition column_allowed_everywhere (table column : string) (candidates : list Policy) : bool :=
  forallb (λ p, column_allowed p table column) candidates.

Fixpoint column_mask_anywhere (table column : string) (candidates : list Policy) :
  option ColumnMask :=
  match candidates with
  | [] => None
  | p :: rest =>
      match column_mask p table column with
      | Some m => Some m
      | None => column_mask_anywhere table column rest
      end
  end.
End counting.

(** * Per-scope checks *)

(** What every check of one statement is given: the live resolver, the caller's
    optional one, the primary connection, the principal and the optional
    per-scope connection maps. *)
Record EnforcementContext := MkEnforcement {
  ec_live : ConnectionResolver;
  ec_resolver : option ConnectionResolver;
  ec_connection_id : string;
  ec_principal : option Principal;
  ec_scope_connections : option ScopeConnections;
}.

Section enforcement.
Context `{CF : CaseFold} `{UP : UrlParser}.

Definition ec_resolve (ec : EnforcementContext) : ConnectionResolver :=
  default (ec_live ec) (ec_resolver ec).

(** The candidate policies of one effective name of the scope at [path]. *)
Definition name_policies (ec : EnforcementContext) (path : scope_path) (p : Policy)
  (effective : string) : result (list Policy) :=
  resolve_table_policies (ec_resolve ec)
    (table_connection_id (scope_table_connection (ec_scope_connections ec) path) effective
       (ec_connection_id ec))
    (ec_connection_id ec) p (ec_principal ec).

(** Depth, CASE breadth and date magnitude of one expression tree. *)
Definition check_expression_node (p : Policy) (node : Expression) : result unit :=
  match node with
  | CaseExpr when_ _ =>
      raise_if (max_case_branches (caps p) <? Z.of_nat (length when_))
        (PolicyViolationError "case when branches exceeds max")
  | DateAddExpr _ unit amount =>
      raise_if (max_interval_days (windows p) <? interval_magnitude_days unit amount)
        (PolicyViolationError "date_add interval exceeds max_interval_days")
  | _ => Ok tt
  end.

Definition check_expression (p : Policy) (e : Expression) : result unit :=
  raise_if (max_expression_depth (caps p) <? Z.of_nat (expression_depth e))
    (PolicyViolationError "expression nesting depth exceeds max") ≫= λ _,
  for_each (check_expression_node p) (iter_expression_nodes e).

(** One window projection: its offsets, and the k-anonymity floor. *)
Definition window_offsets (over : WindowSpec) (off : option Z) : list Z :=
  option_list off
  ++ option_flat_map (λ f, option_list (wb_offset (wf_start f))
                           ++ option_list (wb_offset (wf_end f))) (ws_frame over).

Definition check_window (p : Policy) (w : WindowFn * WindowSpec * option Z) : result unit :=
  let '(fn, over, off) := w in
  for_each (λ o, raise_if (max_window_frame_offset (windows p) <? o)
    (PolicyViolationError "window row offset exceeds max_window_frame_offset"))
    (window_offsets over off) ≫= λ _,
  raise_if (is_some (min_group_size (windows p)) && is_aggregate_window fn)
    (PolicyViolationError "aggregate window function is not allowed when min_group_size is set").

(** The cross-join gate. *)
Definition check_cross_joins (q : StructuredQuery) (p : Policy) : result unit :=
  raise_if (negb (allow_cross_join (caps p))
            && existsb (λ j, bool_decide (js_type j = JoinCross)) (joins q))
    (PolicyViolationError "cross join is not allowed under the active policy").

(** Depth of every predicate tree of the scope, then the in-list sizes of every
    predicate it can carry. *)
Definition scope_all_predicates (q : StructuredQuery) : list Pred :=
  flat_map (λ jw, iter_where_predicates jw.2) (iter_join_conditions q)
  ++ flat_map iter_where_predicates (iter_scope_case_conditions q)
  ++ option_flat_map iter_where_predicates (where_ q)
  ++ option_flat_map iter_where_predicates (having q).

Definition check_predicate_shapes (q : StructuredQuery) (p : Policy) : result unit :=
  for_each (λ jw : JoinSpec * WhereNode, check_where_depth (Some jw.2) p "join condition")
    (iter_join_conditions q) ≫= λ _,
  for_each (λ w, check_where_depth (Some w) p "case condition")
    (iter_scope_case_conditions q) ≫= λ _,
  check_where_depth (where_ q) p "where" ≫= λ _,
  check_where_depth (having q) p "having" ≫= λ _,
  for_each (λ pred, check_in_list_size pred p) (scope_all_predicates q).

(** The connections one physical table is reached through in this scope. *)
Definition physical_connections (ec : EnforcementContext) (path : scope_path)
  (name_to_physical : dict string) (table : string) : list string :=
  match
    flat_map (λ e : string * string, if bool_decide (e.2 = table) then
        [table_connection_id (scope_table_connection (ec_scope_connections ec) path) e.1
           (ec_connection_id ec)]
      else []) name_to_physical
  with
  | [] => [ec_connection_id ec]
  | l => l
  end.

Definition check_table (ec : EnforcementContext) (path : scope_path)
  (name_to_physical : dict string) (p : Policy) (table : string) : result unit :=
  for_each (λ cx,
    resolve_table_policies (ec_resolve ec) cx (ec_connection_id ec) p (ec_principal ec)
      ≫= λ candidates,
    raise_if (negb (table_allowed_everywhere table candidates))
      (PolicyViolationError "Table is not accessible under the active policy"))
    (physical_connections ec path name_to_physical table).

(** One reference against the column lists; a cte output name is skipped. *)
Definition check_column_ref (ec : EnforcementContext) (path : scope_path)
  (name_to_physical : dict string) (cte_names : gset string) (p : Policy) (r : ColumnRef) :
  result unit :=
  parse_column_ref (ref_ref r) ≫= λ '(t, c),
  let physical_t := physical_of name_to_physical t in
  if bool_decide (casefold physical_t ∈ cte_names) then Ok tt
  else name_policies ec path p t ≫= λ candidates,
       raise_if (negb (column_allowed_everywhere physical_t c candidates))
         (PolicyViolationError "Column is not accessible under the active policy").

(** The masked-column rule: anywhere but a bare projection is refused. *)
Definition check_masked_ref (ec : EnforcementContext) (path : scope_path)
  (name_to_physical : dict string) (cte_names : gset string) (p : Policy) (r : ColumnRef) :
  result unit :=
  if bool_decide (ref_position r = SELECT_PROJECTION_BARE) then Ok tt
  else
    parse_column_ref (ref_ref r) ≫= λ '(t, c),
    let physical_t := physical_of name_to_physical t in
    if bool_decide (casefold physical_t ∈ cte_names) then Ok tt
    else name_policies ec path p t ≫= λ candidates,
         raise_if (is_some (column_mask_anywhere physical_t c candidates))
           (PolicyViolationError
              "Column is masked by policy and can only appear in the select projection").

(** [_validate_scope]. *)
Definition validate_scope (ec : EnforcementContext) (cte_names : gset string) (p : Policy)
  (s : Scope) : result unit :=
  let q := sc_query s in
  let path := sc_path s in
  reject_windows_outside_projections q ≫= λ _,
  for_each (check_expression p) (iter_scope_expressions q) ≫= λ _,
  for_each (check_window p) (scope_windows q) ≫= λ _,
  check_cross_joins q p ≫= λ _,
  check_predicate_shapes q p ≫= λ _,
  referenced_tables q (Some cte_names) ≫= λ tables,
  let name_to_physical := effective_name_map q in
  for_each (check_table ec path name_to_physical p) tables ≫= λ _,
  for_each (check_column_ref ec path name_to_physical cte_names p) (iter_column_refs q) ≫= λ _,
  for_each (check_masked_ref ec path name_to_physical cte_names p) (iter_column_refs q).

(** * Subqueries, ctes and correlation *)

Definition has_subquery (pred : Pred) : bool :=
  is_some (pr_value_subquery pred) || is_some (pr_exists_subquery pred).

(** The subquery's single output column must not be masked. *)
Definition check_output_masks (p : Policy) (q : StructuredQuery) (item : SelectItem) msg :
  result unit :=
  for_each (λ ref,
    parse_column_ref ref ≫= λ '(t, c),
    raise_if (is_some (column_mask p (physical_of (effective_name_map q) t) c))
      (PolicyViolationError msg)) (select_item_column_refs item).

Definition check_subquery_scope (p : Policy) (s : Scope) : result unit :=
  let q := sc_query s in
  for_each (λ pred,
    raise_if (is_some (pr_value_subquery pred) && in_ops (pr_op pred))
      (PolicyViolationError "IN (subquery) is only supported in a WHERE clause, not HAVING")
      ≫= λ _,
    raise_if (is_some (pr_exists_subquery pred))
      (PolicyViolationError "EXISTS is only supported in a WHERE clause, not HAVING"))
    (option_flat_map iter_where_predicates (having q)) ≫= λ _,
  for_each (λ pred, raise_if (has_subquery pred)
    (PolicyViolationError "a subquery is not supported in a CASE condition"))
    (flat_map iter_where_predicates (iter_scope_case_conditions q)) ≫= λ _,
  for_each (λ pred, raise_if (has_subquery pred)
    (PolicyViolationError "a subquery is not supported in a join condition"))
    (iter_join_condition_predicates q) ≫= λ _,
  if (0 <? sc_depth s)%nat then
    match select q with
    | item :: _ => check_output_masks p q item
        "Column is masked by policy and cannot be a subquery's output"
    | [] => Raise (ValueError "list index out of range")
    end
  else Ok tt.

(** [_validate_subquery_constraints]. *)
Definition validate_subquery_constraints (scoped : list Scope) (p : Policy) : result unit :=
  for_each (check_subquery_scope p) scoped.

(** Rule 2 of [_validate_cte_constraints]: only earlier blocks. *)
Fixpoint check_cte_references (cte_names declared_so_far : gset string) (specs : list CteSpec) :
  result unit :=
  match specs with
  | [] => Ok tt
  | spec :: rest =>
      raise_if (existsb (λ src, bool_decide (src ∈ cte_names)
                                && negb (bool_decide (src ∈ declared_so_far)))
                  (cte_source_names (cte_query spec)))
        (PolicyViolationError "cte references a later cte or itself") ≫= λ _,
      check_cte_references cte_names ({[casefold (cte_name spec)]} ∪ declared_so_far) rest
  end.

(** Rule 3: the table names the policy has an opinion about. *)
Definition governed_names (p : Policy) : list string :=
  map (λ f, casefold (rf_table f)) (mandatory_row_filters (gates p))
  ++ map casefold (dict_keys (column_masks (access p)))
  ++ map casefold (denied_tables (access p))
  ++ map casefold (allowed_tables (access p))
  ++ map casefold (dict_keys (denied_columns (access p)))
  ++ map casefold (dict_keys (allowed_columns (access p))).

(** [_validate_cte_constraints]. *)
Definition validate_cte_constraints (q : StructuredQuery) (scoped : list Scope) (p : Policy)
  (cte_names : gset string) : result unit :=
  raise_if (max_cte_count (caps p) <? Z.of_nat (length (ctes q)))
    (PolicyViolationError "ctes exceeds max") ≫= λ _,
  raise_if (existsb (λ s, negb (bool_decide (sc_path s = []))
                          && negb (bool_decide (length (ctes (sc_query s)) = 0%nat))) scoped)
    (PolicyViolationError "only the top-level query may declare ctes") ≫= λ _,
  if bool_decide (cte_names = ∅) then Ok tt
  else
    check_cte_references cte_names ∅ (ctes q) ≫= λ _,
    raise_if (existsb (λ spec : CteSpec,
        bool_decide (casefold (cte_name spec) ∈ governed_names p)) (ctes q))
      (PolicyViolationError "cte name is also the name of a governed table") ≫= λ _,
    let referenced := flat_map (λ s, source_names (sc_query s)) scoped in
    raise_if (existsb (λ spec : CteSpec,
        negb (bool_decide (casefold (cte_name spec) ∈ referenced))) (ctes q))
      (PolicyViolationError "cte is declared but never referenced") ≫= λ _,
    for_each (λ spec : CteSpec, for_each (λ item,
        check_output_masks p (cte_query spec) item
          "Column is masked by policy and cannot be projected by a cte")
        (select (cte_query spec))) (ctes q).

(** One declared correlation, resolved against the ENCLOSING scope. *)
Definition check_correlation (ec : EnforcementContext) (p : Policy) (c : Correlation) :
  result unit :=
  let parent := sc_query (co_parent c) in
  parse_column_ref (co_ref c) ≫= λ '(table, column),
  let physical := physical_of (effective_name_map parent) table in
  name_policies ec (sc_path (co_parent c)) p table ≫= λ candidates,
  raise_if (negb (table_allowed_everywhere physical candidates))
    (PolicyViolationError "Table is not accessible under the active policy") ≫= λ _,
  raise_if (negb (column_allowed_everywhere physical column candidates))
    (PolicyViolationError "Column is not accessible under the active policy") ≫= λ _,
  raise_if (is_some (column_mask_anywhere physical column candidates))
    (PolicyViolationError "Column is masked by policy and cannot be a correlated reference").

(** [_validate_correlation]. *)
Definition validate_correlation (ec : EnforcementContext) (q : StructuredQuery)
  (scoped : list Scope) (p : Policy) : result unit :=
  let correlations := iter_correlations q in
  raise_if (existsb (λ s, negb (bool_decide (length (correlate (sc_query s)) = 0%nat))
              && negb (bool_decide (sc_path s ∈ map co_child_path correlations))) scoped)
    (PolicyViolationError "correlate is only meaningful on a subquery") ≫= λ _,
  raise_if (max_correlated_refs (caps p) <? Z.of_nat (length correlations))
    (PolicyViolationError "correlated references exceed max") ≫= λ _,
  raise_if (existsb (λ c, negb (bool_decide (casefold (co_ref c)
              ∈ map (λ r, casefold (ref_ref r)) (iter_column_refs (co_child c))))) correlations)
    (PolicyViolationError "correlate is declared but never referenced") ≫= λ _,
  for_each (check_correlation ec p) correlations.

(** * The entry points *)

(** [resolve_purpose_policy]. *)
Definition resolve_purpose_policy (q : StructuredQuery) (p : Policy) : result Policy :=
  match allowed_purposes (access p) with
  | [] => Ok p
  | allowed =>
      match purpose q with
      | None => Raise (PolicyViolationError "this connection requires a declared purpose")
      | Some name =>
          if bool_decide (name ∈ allowed) then Ok (for_purpose p (Some name))
          else Raise (PolicyViolationError "purpose is not permitted on this connection")
      end
  end.

(** [validate_structural_caps]. *)
Definition validate_structural_caps (q : StructuredQuery) (p : Policy) :
  result (list Scope * gset string) :=
  let cte_names := declared_cte_names q in
  let scoped := iter_query_scopes q in
  validate_cte_constraints q scoped p cte_names ≫= λ _,
  raise_if (max_subquery_depth (caps p) <? Z.of_nat (max_of sc_depth scoped))
    (PolicyViolationError "subquery nesting depth exceeds max_subquery_depth") ≫= λ _,
  Ok (scoped, cte_names).

(** [if scope_connections is None and connection_resolver is not None]. *)
Definition derive_scope_connections (ec : EnforcementContext) (q : StructuredQuery) :
  result EnforcementContext :=
  match ec_scope_connections ec, ec_resolver ec with
  | None, Some resolver =>
      resolve_scope_connections resolver q (ec_connection_id ec) (ec_principal ec) ≫= λ scs,
      Ok (MkEnforcement (ec_live ec) (ec_resolver ec) (ec_connection_id ec) (ec_principal ec)
            (Some scs))
  | _, _ => Ok ec
  end.

(** [validate_policy]. *)
Definition validate_policy (ec : EnforcementContext) (q : StructuredQuery) (p : Policy) :
  result Policy :=
  if negb (enabled (access p))
  then Raise (PolicyViolationError "Connection is disabled by policy")
  else
    resolve_purpose_policy q p ≫= λ p,
    validate_structural_caps q p ≫= λ '(scoped, cte_names),
    derive_scope_connections ec q ≫= λ ec,
    validate_subquery_constraints scoped p ≫= λ _,
    validate_correlation ec q scoped p ≫= λ _,
    enforce_tree_wide_caps (map sc_query scoped) p ≫= λ _,
    for_each (validate_scope ec cte_names p) scoped ≫= λ _,
    Ok p.

(** [validate_batch_size]. *)
Definition validate_batch_size (count : nat) (p : Policy) : result unit :=
  raise_if (max_batch_size (caps p) <? Z.of_nat count)
    (PolicyViolationError "batch size exceeds max").
End enforcement.

(** * Facts *)

Section enforcement_facts.
Context `{CF : CaseFold} `{UP : UrlParser}.

(** What an accepted statement has passed, check by check. *)
Record accepted (ec : EnforcementContext) (q : StructuredQuery) (p p' : Policy)
  (ec' : EnforcementContext) : Prop := {
  acc_enabled : enabled (access p) = true;
  acc_purpose : resolve_purpose_policy q p = Ok p';
  acc_ctes : validate_cte_constraints q (iter_query_scopes q) p' (declared_cte_names q) = Ok tt;
  acc_depth : Z.of_nat (max_of sc_depth (iter_query_scopes q)) ≤ max_subquery_depth (caps p');
  acc_context : derive_scope_connections ec q = Ok ec';
  acc_subqueries : validate_subquery_constraints (iter_query_scopes q) p' = Ok tt;
  acc_correlation : validate_correlation ec' q (iter_query_scopes q) p' = Ok tt;
  acc_caps : enforce_tree_wide_caps (map sc_query (iter_query_scopes q)) p' = Ok tt;
  acc_scopes s : s ∈ iter_query_scopes q →
    validate_scope ec' (declared_cte_names q) p' s = Ok tt;
}.

Lemma validate_structural_caps_ok q p x :
  validate_structural_caps q p = Ok x ↔
    x = (iter_query_scopes q, declared_cte_names q)
    ∧ validate_cte_constraints q (iter_query_scopes q) p (declared_cte_names q) = Ok tt
    ∧ Z.of_nat (max_of sc_depth (iter_query_scopes q)) ≤ max_subquery_depth (caps p).
Proof.
  unfold validate_structural_caps. rewrite !bind_ok_unit, raise_if_ok, Z.ltb_ge.
  split; [intros (? & ? & [= <-]); done|]. by intros (-> & ? & ?).
Qed.

Lemma validate_policy_ok ec q p p' :
  validate_policy ec q p = Ok p' ↔ ∃ ec', accepted ec q p p' ec'.
Proof.
  unfold validate_policy. split.
  - destruct (negb (enabled (access p))) eqn:En; [done|]. intros H.
    apply bind_ok in H as (p1 & Hp & H). apply bind_ok in H as ([scoped names] & Hs & H).
    apply validate_structural_caps_ok in Hs as ([= -> ->] & ? & ?).
    apply bind_ok in H as (ec1 & Hec & H). rewrite !bind_ok_unit, for_each_ok in H.
    destruct H as (? & ? & ? & Hsc & [= ->]). exists ec1. split; try done.
    + by apply negb_false_iff in En.
    + by rewrite Forall_forall in Hsc.
  - intros (ec' & [En Hp Hc Hd Hec Hs Hco Hcaps Hsc]). rewrite En. cbn [negb].
    apply bind_ok. exists p'. split; [done|].
    apply bind_ok. exists (iter_query_scopes q, declared_cte_names q).
    split; [by apply validate_structural_caps_ok|].
    apply bind_ok. exists ec'. split; [done|].
    rewrite !bind_ok_unit, for_each_ok, Forall_forall. auto.
Qed.

(** ** Which policies a name meets *)

Lemma name_policies_primary ec path p n candidates :
  name_policies ec path p n = Ok candidates →
  candidates = [p] ∨ ∃ other, candidates = [p; other].
Proof.
  unfold name_policies, resolve_table_policies. case_bool_decide.
  - intros [= <-]. by left.
  - intros Hr. apply bind_ok in Hr as ([prof other] & _ & [= <-]). eauto.
Qed.

Lemma table_allowed_everywhere_true t l :
  table_allowed_everywhere t l = true ↔ ∀ p, p ∈ l → table_allowed p t = true.
Proof. apply forallb_elem. Qed.

Lemma column_allowed_everywhere_true t c l :
  column_allowed_everywhere t c l = true ↔ ∀ p, p ∈ l → column_allowed p t c = true.
Proof. apply forallb_elem. Qed.

Lemma column_mask_anywhere_None t c l :
  is_some (column_mask_anywhere t c l) = false ↔ ∀ p, p ∈ l → column_mask p t c = None.
Proof.
  induction l as [|p l IH]; cbn; [set_solver|].
  destruct (column_mask p t c) eqn:E; cbn.
  - split; [done|]. intros H. specialize (H p). set_solver.
  - rewrite IH. split; [|set_solver]. intros H x [->|?]%elem_of_cons; auto.
Qed.

(** ** One scope *)

(** The decisions a scope's validation made about its references. *)
Record ref_governed (ec : EnforcementContext) (path : scope_path) (names : gset string)
  (p : Policy) (q : StructuredQuery) (r : ColumnRef) : Prop := {
  rg_parses : ∃ t c, parse_column_ref (ref_ref r) = Ok (t, c);
  rg_column t c : parse_column_ref (ref_ref r) = Ok (t, c) →
    casefold (physical_of (effective_name_map q) t) ∉ names →
    ∃ candidates, name_policies ec path p t = Ok candidates
      ∧ (∀ p', p' ∈ candidates →
           column_allowed p' (physical_of (effective_name_map q) t) c = true)
      ∧ (ref_position r ≠ SELECT_PROJECTION_BARE → ∀ p', p' ∈ candidates →
           column_mask p' (physical_of (effective_name_map q) t) c = None);
}.

Lemma check_column_ref_ok ec path m names p r t c :
  check_column_ref ec path m names p r = Ok tt → parse_column_ref (ref_ref r) = Ok (t, c) →
  casefold (physical_of m t) ∉ names →
  ∃ candidates, name_policies ec path p t = Ok candidates
    ∧ ∀ p', p' ∈ candidates → column_allowed p' (physical_of m t) c = true.
Proof.
  unfold check_column_ref. intros H Hp Hn. rewrite Hp in H. cbn [mbind result_bind] in H.
  rewrite bool_decide_false in H by done. apply bind_ok in H as (l & Hl & H).
  apply raise_if_ok, negb_false_iff in H. rewrite column_allowed_everywhere_true in H. eauto.
Qed.

Lemma check_masked_ref_ok ec path m names p r t c :
  check_masked_ref ec path m names p r = Ok tt → ref_position r ≠ SELECT_PROJECTION_BARE →
  parse_column_ref (ref_ref r) = Ok (t, c) → casefold (physical_of m t) ∉ names →
  ∃ candidates, name_policies ec path p t = Ok candidates
    ∧ ∀ p', p' ∈ candidates → column_mask p' (physical_of m t) c = None.
Proof.
  unfold check_masked_ref. intros H Hpos Hp Hn. rewrite bool_decide_false in H by done.
  rewrite Hp in H. cbn [mbind result_bind] in H.
  rewrite bool_decide_false in H by done. apply bind_ok in H as (l & Hl & H).
  apply raise_if_ok in H. rewrite column_mask_anywhere_None in H. eauto.
Qed.

Lemma check_column_ref_parses ec path m names p r :
  check_column_ref ec path m names p r = Ok tt →
  ∃ t c, parse_column_ref (ref_ref r) = Ok (t, c).
Proof. unfold check_column_ref. intros ([t c] & ? & _)%bind_ok. eauto. Qed.

(** The ten steps of [_validate_scope], as the facts they establish. *)
Record scope_checked (ec : EnforcementContext) (names : gset string) (p : Policy) (s : Scope) :
  Prop := {
  sk_windows : reject_windows_outside_projections (sc_query s) = Ok tt;
  sk_expressions e : e ∈ iter_scope_expressions (sc_query s) → check_expression p e = Ok tt;
  sk_window w : w ∈ scope_windows (sc_query s) → check_window p w = Ok tt;
  sk_cross : check_cross_joins (sc_query s) p = Ok tt;
  sk_shapes : check_predicate_shapes (sc_query s) p = Ok tt;
  sk_tables : ∃ tables, referenced_tables (sc_query s) (Some names) = Ok tables
    ∧ ∀ t, t ∈ tables →
        check_table ec (sc_path s) (effective_name_map (sc_query s)) p t = Ok tt;
  sk_refs r : r ∈ iter_column_refs (sc_query s) →
    ref_governed ec (sc_path s) names p (sc_query s) r;
}.

Lemma validate_scope_ok ec names p s :
  validate_scope ec names p s = Ok tt → scope_checked ec names p s.
Proof.
  unfold validate_scope. rewrite !bind_ok_unit. intros (? & He & Hw & ? & ? & H).
  apply bind_ok in H as (tables & Ht & H). rewrite !bind_ok_unit in H.
  rewrite !for_each_ok, !Forall_forall in *. destruct H as (Htab & Hcol & Hmask).
  split; [done|by apply He|by apply Hw|done|done|eauto|].
  intros r Hr. split; [by eapply check_column_ref_parses, Hcol|].
  intros t c Hp Hn.
  destruct (check_column_ref_ok _ _ _ _ _ _ t c (Hcol r Hr) Hp Hn) as (l & Hl & Hall).
  exists l. split_and!; [done|done|]. intros Hpos.
  destruct (check_masked_ref_ok _ _ _ _ _ _ t c (Hmask r Hr) Hpos Hp Hn) as (l' & Hl' & Hm).
  rewrite Hl in Hl'. by simplify_eq.
Qed.

Lemma accepted_scope ec q p p' ec' s :
  accepted ec q p p' ec' → s ∈ iter_query_scopes q →
  scope_checked ec' (declared_cte_names q) p' s.
Proof. intros H Hs. apply validate_scope_ok. by eapply acc_scopes. Qed.

(** A table the scope names is checked under every connection it is reached
    through; the primary policy is always one of the judges. *)
Lemma physical_connections_nonempty ec path m t : ∃ cx, cx ∈ physical_connections ec path m t.
Proof.
  unfold physical_connections. destruct (flat_map _ _) as [|cx l] eqn:E; [|exists cx; set_solver].
  eexists. by left.
Qed.

Lemma check_table_primary ec path m p t :
  check_table ec path m p t = Ok tt → table_allowed p t = true.
Proof.
  unfold check_table. rewrite for_each_ok, Forall_forall. intros H.
  destruct (physical_connections_nonempty ec path m t) as [cx Hcx].
  specialize (H cx Hcx). apply bind_ok in H as (l & Hl & H).
  apply raise_if_ok, negb_false_iff in H. rewrite table_allowed_everywhere_true in H.
  apply H. unfold resolve_table_policies in Hl. case_bool_decide; [simplify_eq; set_solver|].
  apply bind_ok in Hl as ([? ?] & _ & [= <-]). set_solver.
Qed.

Lemma referenced_tables_structural q names tables t :
  referenced_tables q (Some names) = Ok tables → t ∈ from_table q :: map js_table (joins q) →
  casefold t ∉ names → t ∈ tables.
Proof.
  unfold referenced_tables. intros H Ht Hn. apply bind_ok in H as (l & _ & [= <-]).
  apply list_elem_of_filter. split; [done|]. set_solver.
Qed.

(** ** The purpose gate *)

Lemma resolve_purpose_policy_narrows q p p' :
  resolve_purpose_policy q p = Ok p' → narrows p' p.
Proof.
  unfold resolve_purpose_policy. destruct (allowed_purposes (access p)).
  - by intros [= <-].
  - destruct (purpose q) as [name|]; [|done]. case_bool_decide; [|done].
    intros [= <-]. exact (for_purpose_narrows p (Some name)).
Qed.
End enforcement_facts.

(** ** Subqueries, ctes, correlation *)

Section container_facts.
Context `{CF : CaseFold} `{UP : UrlParser}.

Lemma check_subquery_scope_ok p s :
  check_subquery_scope p s = Ok tt →
  (∀ pred, pred ∈ flat_map iter_where_predicates (iter_scope_case_conditions (sc_query s)) →
     has_subquery pred = false)
  ∧ (∀ pred, pred ∈ iter_join_condition_predicates (sc_query s) → has_subquery pred = false).
Proof.
  unfold check_subquery_scope. rewrite !bind_ok_unit, !for_each_ok, !Forall_forall.
  intros (_ & Hc & Hj & _).
  split; intros pred Hp; [apply Hc in Hp|apply Hj in Hp]; by apply raise_if_ok in Hp.
Qed.

Lemma has_subquery_false pred : has_subquery pred = false → predicate_subqueries pred = [].
Proof.
  unfold has_subquery, predicate_subqueries.
  by destruct (pr_value_subquery pred), (pr_exists_subquery pred).
Qed.

Lemma elem_of_nested_subqueries q pred c :
  pred ∈ option_flat_map iter_where_predicates (where_ q)
  ∨ pred ∈ option_flat_map iter_where_predicates (having q) →
  c ∈ predicate_subqueries pred → c ∈ query_children q.
Proof.
  intros Hp Hc. unfold query_children, nested_subqueries, iter_where_and_having_predicates.
  rewrite !elem_of_app. right; right. apply elem_of_flat_map. exists pred.
  by rewrite elem_of_app.
Qed.

Lemma check_cte_references_ok names specs : ∀ sofar,
  check_cte_references names sofar specs = Ok tt →
  ∀ pre c post src, specs = pre ++ c :: post → src ∈ cte_source_names (cte_query c) →
  src ∈ names → src ∈ sofar ∨ src ∈ map (λ c : CteSpec, casefold (cte_name c)) pre.
Proof.
  induction specs as [|spec rest IH]; intros sofar; cbn [check_cte_references].
  { intros _ [|] ? ? ? ?; discriminate. }
  rewrite bind_ok_unit, raise_if_ok. intros [Hsrc Hrest] [|d pre] c post src Hs Hin Hn;
    cbn in Hs; injection Hs as -> ->.
  - left. rewrite existsb_not_elem in Hsrc. specialize (Hsrc src Hin).
    rewrite bool_decide_true in Hsrc by done. cbn in Hsrc.
    by apply negb_false_iff, bool_decide_eq_true in Hsrc.
  - destruct (IH _ Hrest pre c post src eq_refl Hin Hn) as [?|?]; [|right; cbn; set_solver].
    cbn. set_solver.
Qed.

(** The facts [_validate_cte_constraints] establishes. *)
Record ctes_checked (q : StructuredQuery) (p : Policy) : Prop := {
  ck_count : Z.of_nat (length (ctes q)) ≤ max_cte_count (caps p);
  ck_root s : s ∈ iter_query_scopes q → sc_path s ≠ [] → ctes (sc_query s) = [];
  ck_earlier pre c post src : ctes q = pre ++ c :: post →
    src ∈ cte_source_names (cte_query c) → src ∈ declared_cte_names q →
    src ∈ map (λ c : CteSpec, casefold (cte_name c)) pre;
  ck_governed c : c ∈ ctes q → casefold (cte_name c) ∉ governed_names p;
  ck_referenced c : c ∈ ctes q → ∃ s, s ∈ iter_query_scopes q
    ∧ casefold (cte_name c) ∈ source_names (sc_query s);
  ck_output c item : c ∈ ctes q → item ∈ select (cte_query c) →
    ∃ msg, check_output_masks p (cte_query c) item msg = Ok tt;
}.

Lemma declared_cte_names_elem q c : c ∈ ctes q → casefold (cte_name c) ∈ declared_cte_names q.
Proof. intros. unfold declared_cte_names. rewrite elem_of_list_to_set. set_solver. Qed.

Lemma validate_cte_constraints_ok q p :
  validate_cte_constraints q (iter_query_scopes q) p (declared_cte_names q) = Ok tt →
  ctes_checked q p.
Proof.
  unfold validate_cte_constraints. rewrite !bind_ok_unit, !raise_if_ok, Z.ltb_ge.
  intros (Hcount & Hroot & H). rewrite existsb_not_elem in Hroot.
  assert (Hr : ∀ s, s ∈ iter_query_scopes q → sc_path s ≠ [] → ctes (sc_query s) = []).
  { intros s Hs Hp. specialize (Hroot s Hs). rewrite bool_decide_false in Hroot by done.
    cbn in Hroot. apply negb_false_iff, bool_decide_eq_true in Hroot.
    by apply nil_length_inv. }
  case_bool_decide as He.
  { assert (Hnil : ctes q = []).
    { destruct (ctes q) as [|c l] eqn:E; [done|].
      assert (Hc : c ∈ ctes q) by (rewrite E; by left).
      apply declared_cte_names_elem in Hc. rewrite He in Hc. set_solver. }
    split; try done; rewrite Hnil; [|intros; set_solver..]. by intros [|]. }
  rewrite !bind_ok_unit, !raise_if_ok, !existsb_not_elem, for_each_ok, Forall_forall in H.
  destruct H as (Href & Hgov & Hdead & Hout). split; try done.
  - intros pre c post src Hq Hsrc Hn.
    destruct (check_cte_references_ok _ _ _ Href pre c post src Hq Hsrc Hn); [set_solver|done].
  - intros c Hc. by apply Hgov, bool_decide_eq_false in Hc.
  - intros c Hc. apply Hdead, negb_false_iff, bool_decide_eq_true in Hc.
    by apply elem_of_flat_map in Hc.
  - intros c item Hc Hi. specialize (Hout c Hc). cbn beta in Hout.
    rewrite for_each_ok, Forall_forall in Hout. eexists. by apply Hout.
Qed.

Lemma validate_cte_constraints_intro q p :
  ctes_checked q p →
  validate_cte_constraints q (iter_query_scopes q) p (declared_cte_names q) = Ok tt.
Proof.
  intros [Hcount Hroot Hearlier Hgov Href Hout]. unfold validate_cte_constraints.
  rewrite !bind_ok_unit, !raise_if_ok, Z.ltb_ge, existsb_not_elem. split_and!; [done|..].
  { intros s Hs. destruct (decide (sc_path s = [])) as [->|Hp]; [done|].
    by rewrite (Hroot s Hs Hp), andb_comm. }
  case_bool_decide; [done|].
  rewrite !bind_ok_unit, !raise_if_ok, !existsb_not_elem, for_each_ok, Forall_forall.
  split_and!.
  - assert (Hgo : ∀ specs pre, ctes q = pre ++ specs → check_cte_references (declared_cte_names q)
        (list_to_set (map (λ c : CteSpec, casefold (cte_name c)) pre)) specs = Ok tt);
      [|by apply (Hgo (ctes q) [])].
    induction specs as [|c specs IH]; intros pre Hq; cbn [check_cte_references]; [done|].
    rewrite bind_ok_unit, raise_if_ok, existsb_not_elem. split.
    + intros src Hsrc. case_bool_decide as Hn; [|done].
      apply negb_false_iff, bool_decide_eq_true, elem_of_list_to_set. by eapply Hearlier.
    + replace ({[casefold (cte_name c)]} ∪ list_to_set _)
        with (list_to_set (C := gset string)
                (map (λ c : CteSpec, casefold (cte_name c)) (pre ++ [c]))).
      * apply IH. by rewrite <-app_assoc.
      * rewrite map_app. cbn. apply leibniz_equiv. rewrite list_to_set_app. set_solver.
  - intros c Hc. apply bool_decide_eq_false. by apply Hgov.
  - intros c Hc. apply negb_false_iff, bool_decide_eq_true, elem_of_flat_map. by apply Href.
  - intros c Hc. rewrite for_each_ok, Forall_forall. intros item Hi.
    destruct (Hout c item Hc Hi) as [msg Hm]. revert Hm. unfold check_output_masks.
    rewrite !for_each_ok, !Forall_forall. intros Hm ref Hr. specialize (Hm ref Hr).
    apply bind_ok in Hm as ([t c'] & Hp & Hm). rewrite Hp. cbn [mbind result_bind].
    by rewrite raise_if_ok in *.
Qed.

(** An output check that passes under a narrowed policy passes under the base
    policy, and so does the governed-name check. *)
Lemma check_output_masks_narrows p' p q item msg :
  narrows p' p → check_output_masks p' q item msg = Ok tt → check_output_masks p q item msg = Ok tt.
Proof.
  intros Hn. unfold check_output_masks. rewrite !for_each_ok, !Forall_forall.
  intros Hm ref Hr. specialize (Hm ref Hr). cbn beta in *.
  apply bind_ok in Hm as ([t c] & Hp & Hm). rewrite Hp. cbn [mbind result_bind].
  rewrite raise_if_ok in *.
  destruct (column_mask p _ c) eqn:E; [|done]. exfalso.
  destruct (narrows_mask _ _ Hn (physical_of (effective_name_map q) t) c) as [m Hm']; [by eexists|].
  by rewrite Hm' in Hm.
Qed.

Lemma governed_names_for_purpose p name : governed_names p ⊆ governed_names (for_purpose p name).
Proof.
  unfold for_purpose. destruct name as [n|]; [|done].
  destruct (dict_get n _) as [d|]; [|done].
  assert (Hkeys : ∀ {A} (ms kp : list (dict (list A))) m x, m ∈ ms →
    x ∈ map casefold (dict_keys m) → x ∈ map casefold (dict_keys (merge_table_keyed ms kp))).
  { intros A ms kp m x Hm (k & -> & Hk)%elem_of_map.
    destruct (merge_table_keyed_keys ms kp m k Hm Hk) as (k' & Hk' & Hf).
    apply elem_of_map. by exists k'. }
  intros x. unfold governed_names.
  cbn [apply_delta access gates mandatory_row_filters column_masks denied_tables allowed_tables
       denied_columns allowed_columns].
  rewrite !elem_of_app, !map_app, !elem_of_app.
  intros [?|[?|[?|[?|[?|?]]]]]; [by left; left|right; left|by do 2 right; left; left
    |by do 3 right; left|do 4 right; left|by do 5 right].
  - by apply (Hkeys _ _ _ (column_masks (access p))); [set_solver|].
  - by apply (Hkeys _ _ _ (denied_columns (access p))); [set_solver|].
Qed.
End container_facts.

(** * Properties *)

Section properties.
Context `{CF : CaseFold} `{UP : UrlParser}.
Implicit Types (ec : EnforcementContext) (q : StructuredQuery) (p : Policy).

(** C1. Column access: once [validate_policy] returns, every reference of every
    scope of the statement (ctes, arms and subqueries included) parses, and
    unless it names a cte's output its PHYSICAL column is allowed both by the
    purpose-narrowed policy and by the base policy, and outside a bare
    projection it is unmasked under both. *)
Theorem accepted_columns_governed ec q p p' s r :
  validate_policy ec q p = Ok p' → s ∈ iter_query_scopes q →
  r ∈ iter_column_refs (sc_query s) →
  ∃ t c, parse_column_ref (ref_ref r) = Ok (t, c)
    ∧ let physical := physical_of (effective_name_map (sc_query s)) t in
      casefold physical ∉ declared_cte_names q →
      column_allowed p' physical c = true ∧ column_allowed p physical c = true
      ∧ (ref_position r ≠ SELECT_PROJECTION_BARE →
           column_mask p' physical c = None ∧ column_mask p physical c = None).
Proof.
  intros [ec' Hacc]%validate_policy_ok Hs Hr.
  destruct (sk_refs _ _ _ _ (accepted_scope _ _ _ _ _ s Hacc Hs) r Hr) as [(t & c & Hp) Hrg].
  exists t, c. split; [done|]. intros physical Hn.
  destruct (Hrg t c Hp Hn) as (l & Hl & Hall & Hmask).
  assert (Hin : p' ∈ l) by (apply name_policies_primary in Hl as [->|[? ->]]; set_solver).
  pose proof (resolve_purpose_policy_narrows _ _ _ (acc_purpose _ _ _ _ _ Hacc)) as Hnar.
  split_and!; [by apply Hall|by eapply narrows_column, Hall|].
  intros Hpos. specialize (Hmask Hpos p' Hin). split; [done|].
  apply eq_None_not_Some. intros Hm%(narrows_mask _ _ Hnar).
  fold physical in Hmask. rewrite Hmask in Hm. by destruct Hm.
Qed.

(** Nothing hides inside an expression: after [validate_policy], a column
    named at any depth of any expression of any scope (a CASE condition, an OVER
    clause, an aggregate's argument, arithmetic in WHERE) is an allowed and
    unmasked column of its physical table, or a cte's output. *)
Theorem accepted_expressions_governed ec q p p' s pos e e' ref :
  validate_policy ec q p = Ok p' → s ∈ iter_query_scopes q →
  (pos, e) ∈ iter_scope_expressions_by_position (sc_query s) →
  occurs e' e → node_mentions e' ref →
  ∃ t c, parse_column_ref ref = Ok (t, c)
    ∧ let physical := physical_of (effective_name_map (sc_query s)) t in
      casefold physical ∉ declared_cte_names q →
      column_allowed p' physical c = true ∧ column_mask p' physical c = None.
Proof.
  intros [ec' Hacc]%validate_policy_ok Hs He Ho Hm.
  destruct (scope_expression_refs (sc_query s) pos e ref He) as (r & Hr & <- & Hpos).
  { apply elem_of_expression_column_refs. eauto. }
  destruct (sk_refs _ _ _ _ (accepted_scope _ _ _ _ _ s Hacc Hs) r Hr) as [(t & c & Hp) Hrg].
  exists t, c. split; [done|]. intros physical Hn.
  destruct (Hrg t c Hp Hn) as (l & Hl & Hall & Hmask).
  assert (Hin : p' ∈ l) by (apply name_policies_primary in Hl as [->|[? ->]]; set_solver).
  split; [by apply Hall|by apply Hmask].
Qed.

(** Table access: every [from] and [join] table of every scope that is not
    one of the statement's ctes is allowed by the narrowed and the base
    policy. *)
Theorem accepted_tables_allowed ec q p p' s t :
  validate_policy ec q p = Ok p' → s ∈ iter_query_scopes q →
  t ∈ from_table (sc_query s) :: map js_table (joins (sc_query s)) →
  casefold t ∉ declared_cte_names q →
  table_allowed p' t = true ∧ table_allowed p t = true.
Proof.
  intros [ec' Hacc]%validate_policy_ok Hs Ht Hn.
  destruct (sk_tables _ _ _ _ (accepted_scope _ _ _ _ _ s Hacc Hs)) as (tables & Htab & Hall).
  assert (Hok : table_allowed p' t = true).
  { eapply check_table_primary, Hall. by eapply referenced_tables_structural. }
  split; [done|]. eapply narrows_table; [|done].
  by eapply resolve_purpose_policy_narrows, acc_purpose.
Qed.

(** Cross-connection joins: a column reached through another connection is
    judged by that connection's own policy as well, never by the primary
    alone. *)
Theorem cross_connection_columns_governed ec ec' q p p' s r t c prof other :
  validate_policy ec q p = Ok p' → derive_scope_connections ec q = Ok ec' →
  s ∈ iter_query_scopes q → r ∈ iter_column_refs (sc_query s) →
  parse_column_ref (ref_ref r) = Ok (t, c) →
  casefold (physical_of (effective_name_map (sc_query s)) t) ∉ declared_cte_names q →
  let cx := table_connection_id
    (scope_table_connection (ec_scope_connections ec') (sc_path s)) t (ec_connection_id ec') in
  cx ≠ ec_connection_id ec' → ec_resolve ec' cx (ec_principal ec') = Ok (prof, other) →
  column_allowed other (physical_of (effective_name_map (sc_query s)) t) c = true
  ∧ (ref_position r ≠ SELECT_PROJECTION_BARE →
     column_mask other (physical_of (effective_name_map (sc_query s)) t) c = None).
Proof.
  intros [ec1 Hacc]%validate_policy_ok Hec Hs Hr Hp Hn cx Hcx Hres.
  assert (ec1 = ec') as -> by (pose proof (acc_context _ _ _ _ _ Hacc); congruence).
  destruct (sk_refs _ _ _ _ (accepted_scope _ _ _ _ _ s Hacc Hs) r Hr) as [_ Hrg].
  destruct (Hrg t c Hp Hn) as (l & Hl & Hall & Hmask).
  assert (Hin : other ∈ l).
  { unfold name_policies, resolve_table_policies in Hl.
    rewrite bool_decide_false in Hl by done. fold cx in Hl. rewrite Hres in Hl.
    cbn in Hl. simplify_eq. set_solver. }
  split; [by apply Hall|intros Hpos; by apply Hmask].
Qed.

(** The tree-wide check returns exactly under the caps. *)
Lemma enforce_tree_wide_caps_ok qs p :
  enforce_tree_wide_caps qs p = Ok tt ↔
    Z.of_nat (sum_of (λ q, length (select q)) qs) ≤ max_select_columns (caps p)
    ∧ Z.of_nat (sum_of (λ q, length (joins q)) qs) ≤ max_joins (caps p)
    ∧ Z.of_nat (sum_of (λ q, length (group_by q)) qs) ≤ max_group_by (caps p)
    ∧ Z.of_nat (sum_of scope_where_predicate_count qs) ≤ max_where_predicates (caps p)
    ∧ Z.of_nat (sum_of scope_having_predicate_count qs) ≤ max_where_predicates (caps p)
    ∧ Z.of_nat (sum_of scope_case_condition_predicate_count qs) ≤ max_where_predicates (caps p)
    ∧ Z.of_nat (sum_of scope_join_condition_predicate_count qs) ≤ max_where_predicates (caps p)
    ∧ Z.of_nat (sum_of scope_expression_node_count qs) ≤ max_expression_nodes (caps p)
    ∧ Z.of_nat (length (flat_map scope_windows qs)) ≤ max_window_specs (windows p)
    ∧ Z.of_nat (total_partition_by qs) ≤ max_partition_by (caps p)
    ∧ total_top_n qs ≤ max_top_n (caps p)
    ∧ Z.of_nat (total_set_op_arms qs) ≤ max_set_op_arms (caps p).
Proof.
  unfold enforce_tree_wide_caps, check_predicate_count.
  by rewrite !bind_ok_unit, !raise_if_ok, !Z.ltb_ge.
Qed.

(** Nesting never multiplies a budget: over ALL the scopes of an accepted
    statement together (root, cte bodies, arms, subqueries) the select items,
    joins, group keys, WHERE predicates, expression nodes, ranked rows and
    combined SELECTs stay under the base policy's caps. *)
Theorem accepted_statement_within_caps ec q p p' :
  validate_policy ec q p = Ok p' →
  let total f := Z.of_nat (sum_of (λ s, f (sc_query s)) (iter_query_scopes q)) in
  total (λ q, length (select q)) ≤ max_select_columns (caps p)
  ∧ total (λ q, length (joins q)) ≤ max_joins (caps p)
  ∧ total (λ q, length (group_by q)) ≤ max_group_by (caps p)
  ∧ total (λ q, length (option_flat_map iter_where_predicates (where_ q)))
    ≤ max_where_predicates (caps p)
  ∧ total (λ q, length (flat_map iter_expression_nodes (iter_scope_expressions q)))
    ≤ max_expression_nodes (caps p)
  ∧ total (λ q, match set_op q with Some so => (1 + length (so_arms so))%nat | None => 0%nat end)
    ≤ max_set_op_arms (caps p)
  ∧ foldr Z.add 0 (map (λ s, match top_n (sc_query s) with Some t => tn_n t | None => 0 end)
                     (iter_query_scopes q)) ≤ max_top_n (caps p).
Proof.
  intros [ec' Hacc]%validate_policy_ok total.
  pose proof (acc_caps _ _ _ _ _ Hacc) as H. apply enforce_tree_wide_caps_ok in H.
  destruct (narrows_caps _ _ (resolve_purpose_policy_narrows _ _ _ (acc_purpose _ _ _ _ _ Hacc)))
    as [<- _].
  assert (Hsum : ∀ f, Z.of_nat (sum_of f (map sc_query (iter_query_scopes q))) = total f).
  { intros f. subst total. cbn beta. by rewrite sum_of_map. }
  unfold total_set_op_arms in H. rewrite !Hsum in H.
  destruct H as (? & ? & ? & ? & _ & _ & _ & ? & _ & _ & Ht & ?). split_and!; try done.
  revert Ht. unfold total_top_n, sum_Z.
  intros Ht. etrans; [|exact Ht]. apply Z.eq_le_incl.
  clear. induction (iter_query_scopes q) as [|s l IH]; cbn; congruence.
Qed.

(** Windows only in projections: after [validate_policy] a window operand sits
    in a projection, its argument holds no other window, and its scope is not an
    aggregate one. *)
Theorem accepted_windows_in_projections ec q p p' s pos e w :
  validate_policy ec q p = Ok p' → s ∈ iter_query_scopes q →
  (pos, e) ∈ iter_scope_expressions_by_position (sc_query s) →
  occurs w e → is_window_expr w = true →
  pos = Projection ∧ is_aggregate_scope (sc_query s) = false
  ∧ ∀ fn over arg off bk w', w = WindowExpr fn over (Some arg) off bk →
      occurs w' arg → is_window_expr w' = false.
Proof.
  intros [ec' Hacc]%validate_policy_ok Hs He Ho Hw.
  pose proof (sk_windows _ _ _ _ (accepted_scope _ _ _ _ _ s Hacc Hs)) as H.
  unfold reject_windows_outside_projections in H.
  rewrite bind_ok_unit, raise_if_ok, for_each_ok, Forall_forall in H. destruct H as [Hall Hagg].
  assert (Hin : w ∈ window_nodes e).
  { apply elem_of_filter_bool. split; [done|]. by apply elem_of_iter_expression_nodes. }
  specialize (Hall _ He). unfold check_window_position in Hall; cbn [fst snd] in Hall.
  destruct (window_nodes e) as [|w0 ws] eqn:Ews; [set_solver|].
  case_bool_decide; [|discriminate Hall]. rewrite for_each_ok, Forall_forall in Hall.
  split_and!; [done|..].
  - apply andb_false_iff in Hagg as [Hagg|]; [|done]. exfalso.
    unfold has_window in Hagg. rewrite existsb_not_elem in Hagg. specialize (Hagg _ He).
    cbn [snd] in Hagg. rewrite existsb_not_elem in Hagg.
    rewrite (Hagg w) in Hw; [done|]. by apply elem_of_iter_expression_nodes.
  - intros fn over arg off bk w' -> Ho'. specialize (Hall _ Hin). cbn [check_window_arg] in Hall.
    rewrite raise_if_ok, existsb_not_elem in Hall. apply Hall.
    by apply elem_of_iter_expression_nodes.
Qed.

(** No subquery escapes validation: after [validate_policy], a query carried by
    ANY predicate of any scope (WHERE, HAVING, a join condition or a CASE
    condition) is itself one of the scopes that were validated. *)
Theorem accepted_subqueries_are_scopes ec q p p' s pred c :
  validate_policy ec q p = Ok p' → s ∈ iter_query_scopes q →
  pred ∈ scope_all_predicates (sc_query s) → c ∈ predicate_subqueries pred →
  ∃ s', s' ∈ iter_query_scopes q ∧ sc_query s' = c.
Proof.
  intros [ec' Hacc]%validate_policy_ok Hs Hpred Hc.
  pose proof (acc_subqueries _ _ _ _ _ Hacc) as Hsub.
  apply (for_each_ok_elem _ _ s) in Hsub; [|done].
  apply check_subquery_scope_ok in Hsub as [Hcase Hjoin].
  unfold scope_all_predicates in Hpred. rewrite !elem_of_app in Hpred.
  destruct Hpred as [Hpred|[Hpred|Hpred]].
  - apply Hjoin, has_subquery_false in Hpred. rewrite Hpred in Hc. set_solver.
  - apply Hcase, has_subquery_false in Hpred. rewrite Hpred in Hc. set_solver.
  - eapply scopes_child; [done|]. by eapply elem_of_nested_subqueries.
Qed.

(** Nesting is bounded: along the path to any scope of an accepted statement
    there are at most [max_subquery_depth] subquery and cte steps. *)
Theorem accepted_nesting_bounded ec q p p' s :
  validate_policy ec q p = Ok p' → s ∈ iter_query_scopes q →
  Z.of_nat (sum_of step_weight (sc_path s)) ≤ max_subquery_depth (caps p).
Proof.
  intros [ec' Hacc]%validate_policy_ok Hs.
  pose proof (acc_depth _ _ _ _ _ Hacc) as Hd.
  destruct (narrows_caps _ _ (resolve_purpose_policy_narrows _ _ _ (acc_purpose _ _ _ _ _ Hacc)))
    as [<- _].
  pose proof (scopes_from_depth_path q 0%nat s Hs).
  pose proof (max_of_elem sc_depth _ s Hs). lia.
Qed.

(** Ctes are a chain: in an accepted statement only the root declares ctes, and
    a block's scope tree names only blocks declared strictly before it, so a
    recursive or mutually recursive cte is inexpressible. *)
Theorem accepted_ctes_acyclic ec q p p' :
  validate_policy ec q p = Ok p' →
  (∀ s, s ∈ iter_query_scopes q → sc_path s ≠ [] → ctes (sc_query s) = [])
  ∧ ∀ pre c post src, ctes q = pre ++ c :: post →
      src ∈ cte_source_names (cte_query c) → src ∈ declared_cte_names q →
      src ∈ map (λ c : CteSpec, casefold (cte_name c)) pre.
Proof.
  intros [ec' Hacc]%validate_policy_ok.
  pose proof (validate_cte_constraints_ok _ _ (acc_ctes _ _ _ _ _ Hacc)) as [].
  split; eauto.
Qed.

(** A cte neither shadows a governed table nor is dead weight nor projects a
    masked column of the primary policy from its own select list. *)
Theorem accepted_ctes_governed ec q p p' c :
  validate_policy ec q p = Ok p' → c ∈ ctes q →
  (casefold (cte_name c) ∉ governed_names p')
  ∧ (∃ s, s ∈ iter_query_scopes q ∧ casefold (cte_name c) ∈ source_names (sc_query s))
  ∧ ∀ item ref t col, item ∈ select (cte_query c) → ref ∈ select_item_column_refs item →
      parse_column_ref ref = Ok (t, col) →
      column_mask p' (physical_of (effective_name_map (cte_query c)) t) col = None.
Proof.
  intros [ec' Hacc]%validate_policy_ok Hc.
  pose proof (validate_cte_constraints_ok _ _ (acc_ctes _ _ _ _ _ Hacc)) as [_ _ _ Hg Hr Ho].
  split_and!; [by apply Hg|by apply Hr|].
  intros item ref t col Hi Href Hp. destruct (Ho c item Hc Hi) as [msg Hm].
  unfold check_output_masks in Hm. apply (for_each_ok_elem _ _ ref) in Hm; [|done].
  cbn beta in Hm. rewrite Hp in Hm. cbn [mbind result_bind] in Hm. apply raise_if_ok in Hm.
  by destruct (column_mask p' _ col).
Qed.

(** Correlation: every declared outer reference of an accepted statement is
    judged against the ENCLOSING scope's tables, is used by the subquery that
    declares it, and their number stays under the cap. *)
Theorem accepted_correlations_governed ec q p p' :
  validate_policy ec q p = Ok p' →
  Z.of_nat (length (iter_correlations q)) ≤ max_correlated_refs (caps p')
  ∧ ∀ co, co ∈ iter_correlations q →
      casefold (co_ref co) ∈ map (λ r, casefold (ref_ref r)) (iter_column_refs (co_child co))
      ∧ ∃ t c, parse_column_ref (co_ref co) = Ok (t, c)
        ∧ let physical := physical_of (effective_name_map (sc_query (co_parent co))) t in
          table_allowed p' physical = true ∧ column_allowed p' physical c = true
          ∧ column_mask p' physical c = None.
Proof.
  intros [ec' Hacc]%validate_policy_ok.
  pose proof (acc_correlation _ _ _ _ _ Hacc) as H. unfold validate_correlation in H.
  rewrite !bind_ok_unit, !raise_if_ok, Z.ltb_ge, for_each_ok, Forall_forall in H.
  destruct H as (_ & Hcap & Hused & Hall). split; [done|]. intros co Hco. split.
  - rewrite existsb_not_elem in Hused. specialize (Hused co Hco). cbn beta in Hused.
    by apply negb_false_iff, bool_decide_eq_true in Hused.
  - specialize (Hall co Hco). apply bind_ok in Hall as ([t c] & Hp & Hall).
    exists t, c. split; [done|]. intros physical. apply bind_ok in Hall as (l & Hl & Hall).
    assert (Hin : p' ∈ l) by (apply name_policies_primary in Hl as [->|[? ->]]; set_solver).
    rewrite !bind_ok_unit, !raise_if_ok, !negb_false_iff in Hall.
    rewrite table_allowed_everywhere_true, column_allowed_everywhere_true,
      column_mask_anywhere_None in Hall.
    destruct Hall as (Ht & Hc & Hm). split_and!; [by apply Ht|by apply Hc|by apply Hm].
Qed.

(** The purpose gate, branch by branch: a connection with no allowed purposes
    ignores the declaration; otherwise a listed purpose is required and selects
    exactly its delta, and everything else is refused. *)
Theorem resolve_purpose_policy_spec q p :
  match allowed_purposes (access p), purpose q with
  | [], _ => resolve_purpose_policy q p = Ok p
  | _ :: _, None => ∃ msg, resolve_purpose_policy q p = Raise (PolicyViolationError msg)
  | allowed, Some name =>
      (name ∈ allowed → resolve_purpose_policy q p = Ok (for_purpose p (Some name)))
      ∧ (name ∉ allowed → ∃ msg, resolve_purpose_policy q p = Raise (PolicyViolationError msg))
  end.
Proof.
  unfold resolve_purpose_policy. destruct (allowed_purposes (access p)); [done|].
  destruct (purpose q); [|by eexists]. split; intros Hn.
  - by rewrite bool_decide_true.
  - rewrite bool_decide_false by done. by eexists.
Qed.

(** The structural pre-check never over-rejects: whatever the purpose-narrowed
    policy accepts, the un-narrowed policy accepts too, so running the caps
    before purpose resolution cannot refuse a query the authority would admit. *)
Theorem structural_precheck_monotone q p name x :
  validate_structural_caps q (for_purpose p name) = Ok x → validate_structural_caps q p = Ok x.
Proof.
  rewrite !validate_structural_caps_ok. intros (-> & Hc & Hd).
  pose proof (for_purpose_narrows p name) as Hn.
  destruct (narrows_caps _ _ Hn) as [Hcaps _]. rewrite Hcaps in Hd. split_and!; [done| |done].
  apply validate_cte_constraints_ok in Hc as [Hcount ? ? Hg ? Ho].
  apply validate_cte_constraints_intro. split; try done.
  - by rewrite <-Hcaps.
  - intros c Hin Hbad. apply (Hg c Hin). by apply governed_names_for_purpose.
  - intros c item Hin Hi. destruct (Ho c item Hin Hi) as [msg Hm]. exists msg.
    by eapply check_output_masks_narrows.
Qed.

(** A disabled connection and a purpose refused by the gate stop the statement
    before anything else is looked at, whatever the query. *)
Theorem disabled_connection_refused ec q p :
  enabled (access p) = false →
  ∃ msg, validate_policy ec q p = Raise (PolicyViolationError msg).
Proof. intros H. unfold validate_policy. rewrite H. by eexists. Qed.
End properties.

(** * Samples and witnesses *)

Definition sample_parser : UrlParser := λ _, None.

Definition sample_profile (cx : string) : ConnectionProfile :=
  MkProfile cx "" POSTGRESQL true None [] (Some "warehouse").

(** Every connection is live, in one join group; [archive] denies a column the
    primary does not. *)
Definition archive_policy : Policy :=
  MkPolicy (MkAccess true [] [] [] [("events", ["payload"])] false [] []
              [("events", [MkColumnMask "actor" HASH None None])])
    default_write_policy default_caps default_windows default_disclosure default_execution
    default_gates.

Definition sample_live : ConnectionResolver := λ cx _,
  Ok (sample_profile cx, if bool_decide (cx = "archive") then archive_policy else default_policy).

Definition sample_ec : EnforcementContext :=
  MkEnforcement sample_live (Some sample_live) "main" None None.

Definition with_access (a : PolicyAccess) (p : Policy) : Policy :=
  MkPolicy a (write p) (caps p) (windows p) (disclosure p) (execution p) (gates p).

Definition with_windows (w : PolicyWindows) (p : Policy) : Policy :=
  MkPolicy (access p) (write p) (caps p) w (disclosure p) (execution p) (gates p).

(** A policy with a denied column, a mask and one purpose. *)
Definition sample_delta : PurposePolicyDelta :=
  MkDelta ["salaries"] [("Users", ["email"])] [] [].

Definition sample_policy : Policy :=
  with_access (MkAccess true [] [] [] [("users", ["ssn"])] false ["support"]
    [("support", sample_delta)]
    [("users", [MkColumnMask "card" LAST (Some 4) None])]) default_policy.

Definition narrowed_policy : Policy := @apply_delta ascii_casefold sample_policy sample_delta.

(** [recent AS (SELECT orders.user_id FROM orders)
     SELECT u.card, SUM(u.id) OVER (PARTITION BY u.region) AS w FROM users AS u
     WHERE u.id IN (SELECT recent.user_id FROM recent WHERE recent.user_id = u.region)]. *)
Definition sample_window : Expression :=
  WindowExpr WSum (MkWindowSpec ["u.region"] [] None) (Some (ColumnExpr "u.id")) None None.

Definition sample_subquery : StructuredQuery :=
  with_correlate ["u.region"]
    (with_where (WPredicate (column_predicate "recent.user_id" OpEq "u.region"))
       (simple_query "recent" [ColumnItem "recent.user_id"])).

Definition sample_query : StructuredQuery :=
  with_purpose "support"
    (with_ctes [MkCteSpec "recent" (simple_query "orders" [ColumnItem "orders.user_id"])]
      (with_where (WPredicate (in_subquery "u.id" sample_subquery))
        (MkStructuredQuery "users" (Some "u")
           [ColumnItem "u.card"; ExpressionSelectItem sample_window "w"]
           false [] None [] None [] None 0 None None [] [] None None))).

Definition sample_run : result Policy :=
  @validate_policy ascii_casefold sample_parser sample_ec sample_query sample_policy.

Definition sample_root : Scope := MkScope [] 0 sample_query.
Definition sample_sub : Scope := MkScope [InSubquery 0] 1 sample_subquery.

(** The sample is a query the models accept. *)
Example sample_query_wf : @query_wf ascii_casefold sample_query = true.
Proof. vm_compute. reflexivity. Qed.

Lemma accepted_columns_governed_witness :
  column_allowed (CF := ascii_casefold) sample_policy "users" "card" = true.
Proof.
  destruct (@accepted_columns_governed ascii_casefold sample_parser sample_ec sample_query
    sample_policy narrowed_policy sample_root (MkColumnRef SELECT_PROJECTION_BARE "u.card"))
    as (t & c & Hp & H).
  - vm_compute. reflexivity.
  - apply list_elem_of_In. left. reflexivity.
  - apply list_elem_of_In. left. reflexivity.
  - vm_compute in Hp. injection Hp as <- <-.
    destruct H as (_ & H & _); [vm_compute; discriminate|exact H].
Defined.

Lemma accepted_statement_within_caps_witness :
  Z.of_nat (sum_of (λ s, length (select (sc_query s)))
    (iter_query_scopes (CF := ascii_casefold) sample_query))
  ≤ max_select_columns (caps sample_policy).
Proof.
  apply (@accepted_statement_within_caps ascii_casefold sample_parser sample_ec sample_query
    sample_policy narrowed_policy).
  vm_compute. reflexivity.
Defined.

Lemma accepted_expressions_governed_witness :
  ∃ t c, parse_column_ref "u.region" = Ok (t, c).
Proof.
  destruct (@accepted_expressions_governed ascii_casefold sample_parser sample_ec sample_query
    sample_policy narrowed_policy sample_root Projection sample_window sample_window "u.region")
    as (t & c & Hp & _).
  - vm_compute. reflexivity.
  - apply list_elem_of_In. left. reflexivity.
  - apply list_elem_of_In. left. reflexivity.
  - constructor.
  - right; left. do 5 eexists. split; [reflexivity|]. by left.
  - eauto.
Defined.

Lemma accepted_tables_allowed_witness :
  table_allowed (CF := ascii_casefold) narrowed_policy "users" = true
  ∧ table_allowed (CF := ascii_casefold) sample_policy "users" = true.
Proof.
  apply (@accepted_tables_allowed ascii_casefold sample_parser sample_ec sample_query
    sample_policy narrowed_policy sample_root "users").
  - vm_compute. reflexivity.
  - apply list_elem_of_In. left. reflexivity.
  - by left.
  - vm_compute. discriminate.
Defined.

(** A join to the [archive] connection, which has its own deny list and mask. *)
Definition sample_join : JoinSpec :=
  MkJoinSpec "events" None JoinInner (Some ("users.id", "events.user_id")) [] None (Some "archive").

Definition sample_cross_query : StructuredQuery :=
  with_joins [sample_join] (simple_query "users" [ColumnItem "users.id"; ColumnItem "events.kind"]).

Definition sample_cross_ec : EnforcementContext :=
  match @derive_scope_connections ascii_casefold sample_parser sample_ec sample_cross_query with
  | Ok ec => ec
  | Raise _ => sample_ec
  end.

Lemma cross_connection_columns_governed_witness :
  column_allowed (CF := ascii_casefold) archive_policy "events" "user_id" = true.
Proof.
  apply (@cross_connection_columns_governed ascii_casefold sample_parser sample_ec sample_cross_ec
    sample_cross_query default_policy default_policy (MkScope [] 0 sample_cross_query)
    (MkColumnRef JOIN_ON "events.user_id") "events" "user_id" (sample_profile "archive")).
  - vm_compute. reflexivity.
  - vm_compute. reflexivity.
  - apply list_elem_of_In. left. reflexivity.
  - apply list_elem_of_In. vm_compute. auto.
  - reflexivity.
  - vm_compute. discriminate.
  - vm_compute. discriminate.
  - vm_compute. reflexivity.
Defined.

Lemma accepted_windows_in_projections_witness :
  is_aggregate_scope sample_query = false.
Proof.
  apply (@accepted_windows_in_projections ascii_casefold sample_parser sample_ec sample_query
    sample_policy narrowed_policy sample_root Projection sample_window sample_window).
  - vm_compute. reflexivity.
  - apply list_elem_of_In. left. reflexivity.
  - apply list_elem_of_In. left. reflexivity.
  - constructor.
  - reflexivity.
Defined.

Lemma accepted_subqueries_are_scopes_witness :
  ∃ s', s' ∈ iter_query_scopes (CF := ascii_casefold) sample_query
        ∧ sc_query s' = sample_subquery.
Proof.
  apply (@accepted_subqueries_are_scopes ascii_casefold sample_parser sample_ec sample_query
    sample_policy narrowed_policy sample_root (in_subquery "u.id" sample_subquery)).
  - vm_compute. reflexivity.
  - apply list_elem_of_In. left. reflexivity.
  - apply list_elem_of_In. left. reflexivity.
  - by left.
Defined.

Lemma accepted_nesting_bounded_witness :
  Z.of_nat (sum_of step_weight (sc_path sample_sub)) ≤ max_subquery_depth (caps sample_policy).
Proof.
  apply (@accepted_nesting_bounded ascii_casefold sample_parser sample_ec sample_query
    sample_policy narrowed_policy sample_sub).
  - vm_compute. reflexivity.
  - apply list_elem_of_In. vm_compute. auto.
Defined.

Lemma accepted_ctes_acyclic_witness :
  ctes (sc_query sample_sub) = [].
Proof.
  apply (@accepted_ctes_acyclic ascii_casefold sample_parser sample_ec sample_query
    sample_policy narrowed_policy).
  - vm_compute. reflexivity.
  - apply list_elem_of_In. vm_compute. auto.
  - discriminate.
Defined.

Lemma accepted_ctes_governed_witness :
  ∃ s, s ∈ iter_query_scopes (CF := ascii_casefold) sample_query
       ∧ "recent" ∈ source_names (CF := ascii_casefold) (sc_query s).
Proof.
  apply (@accepted_ctes_governed ascii_casefold sample_parser sample_ec sample_query
    sample_policy narrowed_policy
    (MkCteSpec "recent" (simple_query "orders" [ColumnItem "orders.user_id"]))).
  - vm_compute. reflexivity.
  - by left.
Defined.

Lemma accepted_correlations_governed_witness :
  Z.of_nat (length (iter_correlations (CF := ascii_casefold) sample_query)) ≤ 2.
Proof.
  apply (@accepted_correlations_governed ascii_casefold sample_parser sample_ec sample_query
    sample_policy narrowed_policy).
  vm_compute. reflexivity.
Defined.

Lemma structural_precheck_monotone_witness :
  ∃ x, @validate_structural_caps ascii_casefold sample_query sample_policy = Ok x.
Proof.
  eexists. apply (@structural_precheck_monotone ascii_casefold sample_query sample_policy
    (Some "support")).
  vm_compute. reflexivity.
Defined.

Lemma disabled_connection_refused_witness :
  ∃ msg, @validate_policy ascii_casefold sample_parser sample_ec sample_query
    (with_access (MkAccess false [] [] [] [] false [] [] []) default_policy)
  = Raise (PolicyViolationError msg).
Proof. apply disabled_connection_refused. reflexivity. Defined.

(** ** Where a guard does not reach *)

Section gaps.
Local Existing Instance ascii_casefold.
Local Existing Instance sample_parser.

(** [COUNT( * ) OVER (PARTITION BY users.region)], as a projection and as an
    operand. *)
Definition count_over : WindowSpec := MkWindowSpec ["users.region"] [] None.

Definition window_projection_query : StructuredQuery :=
  simple_query "users" [WindowSelectItem WCount count_over None None None "n"].

Definition window_operand_query : StructuredQuery :=
  simple_query "users" [ExpressionSelectItem (WindowExpr WCount count_over None None None) "n"].

(** No windows at all, no partitions, and a k-anonymity floor of 5. *)
Definition no_windows_policy : Policy :=
  with_windows (MkWindows 0 1000 3660 (Some 5)) default_policy.

(** The window guards see only the select-item spelling: with
    [max_window_specs = 0] and a k-anonymity floor configured, the aggregate
    window is refused as a window select item, yet the same window written as an
    expression operand (a valid query too) passes [validate_policy]. *)
Theorem window_operand_escapes_caps :
  query_wf window_projection_query = true ∧ query_wf window_operand_query = true
  ∧ (∃ msg, validate_policy sample_ec window_projection_query no_windows_policy
            = Raise (PolicyViolationError msg))
  ∧ validate_policy sample_ec window_operand_query no_windows_policy = Ok no_windows_policy.
Proof. vm_compute. split_and!; [reflexivity..| |reflexivity]. by eexists. Qed.

(** A cte whose body projects [users.card], directly or in a set-operation arm. *)
Definition masked_policy : Policy :=
  with_access (MkAccess true [] [] [] [] false [] [] [("users", [MkColumnMask "card" MASK_NULL None None])])
    default_policy.

Definition cte_reader (body : StructuredQuery) : StructuredQuery :=
  with_ctes [MkCteSpec "c" body]
    (with_where (WPredicate (value_predicate "c.n" OpEq (JStr "4242")))
       (simple_query "c" [ColumnItem "c.id"])).

Definition direct_body : StructuredQuery :=
  simple_query "users" [ColumnItem "users.id"; ColumnItem "users.card"].

Definition arm_body : StructuredQuery :=
  with_set_op (MkSetOpSpec SetUnion true [direct_body])
    (simple_query "users" [ColumnItem "users.id"; ColumnItem "users.name"]).

(** The masked-output rule of ctes looks at the block's own select list only:
    a masked column is refused there, but the same column projected by a
    set-operation arm of the block (past its first item) is accepted, and the
    rest of the statement may filter on it. *)
Theorem cte_arm_projects_masked_column :
  query_wf (cte_reader direct_body) = true ∧ query_wf (cte_reader arm_body) = true
  ∧ (∃ msg, validate_policy sample_ec (cte_reader direct_body) masked_policy
            = Raise (PolicyViolationError msg))
  ∧ validate_policy sample_ec (cte_reader arm_body) masked_policy = Ok masked_policy.
Proof. vm_compute. split_and!; [reflexivity..| |reflexivity]. by eexists. Qed.

(** [users.id IN (SELECT events.actor FROM users JOIN archive.events ...)]. *)
Definition joined_output_query (item : string) : StructuredQuery :=
  with_where (WPredicate (in_subquery "users.id"
      (with_joins [sample_join] (simple_query "users" [ColumnItem item]))))
    (simple_query "users" [ColumnItem "users.id"]).

(** The subquery-output rule consults the primary policy only: [events.actor]
    is masked by the policy of the connection it is joined from, and is refused
    when the primary masks it too, but the joined connection's own mask does not
    keep it out of an IN comparison. *)
Theorem subquery_output_ignores_joined_mask :
  is_some (column_mask archive_policy "events" "actor") = true
  ∧ (∃ msg, validate_policy sample_ec (joined_output_query "events.actor") archive_policy
            = Raise (PolicyViolationError msg))
  ∧ validate_policy sample_ec (joined_output_query "events.actor") default_policy
    = Ok default_policy.
Proof. vm_compute. split_and!; [reflexivity| |reflexivity]. by eexists. Qed.
End gaps.
