(* ===== verification/Sql.v ===== *)
(** The SQL the compilers emit, as data, and what it means. The elements are
    the SQLAlchemy Core constructs the code builds (a FROM element, a column
    element, a select); the meaning is the documented one of SQL: three-valued
    logic, the join types, and uniqueness of keys. Everything a database
    decides for itself (the value of a function, the truth of a comparison
    other than a connective or an equality) is a parameter. *)
From S2P Require Export PolicyValidation.
Local Open Scope Z_scope.

(** * FROM elements *)

(** What [column.type.python_type] gives, by the classes the code tests for. *)
Inductive PyType :=
| PyBool | PyInt | PyFloat | PyDecimal | PyStr | PyDatetime | PyDate | PyTime | PyTimedelta | PyOther.

#[export] Instance PyType_eq_dec : EqDecision PyType.
Proof. solve_decision. Defined.

(** The facts the code reads from a reflected [sa.Column] and [sa.Table]; the
    type is absent where [python_type] raises, as for a column without one;
    [st_constraints] and [st_indexes] list the column names of each constraint
    and index, with whether it is a UNIQUE one. *)
Record SaColumn := MkSaColumn {
  col_name : string;
  col_nullable : bool;
  col_default : bool;
  col_server_default : bool;
  col_primary_key : bool;
  col_python_type : option PyType;
}.

Record SaTable := MkSaTable {
  st_name : string;
  st_columns : list SaColumn;
  st_constraints : list (bool * list string);
  st_indexes : list (bool * list string);
}.

(** A table, an alias of an element, or a computed stage (a cte or a derived
    table), which carries no key metadata. *)
Inductive SaFrom :=
| FromTable (t : SaTable)
| FromAlias (name : string) (element : SaFrom)
| FromComputed (name : string) (columns : list SaColumn).

#[export] Instance SaColumn_eq_dec : EqDecision SaColumn.
Proof. solve_decision. Defined.
#[export] Instance SaTable_eq_dec : EqDecision SaTable.
Proof. solve_decision. Defined.
#[export] Instance SaFrom_eq_dec : EqDecision SaFrom.
Proof. solve_decision. Defined.

(** [element.c]. *)
Fixpoint from_columns (f : SaFrom) : list SaColumn :=
  match f with
  | FromTable t => st_columns t
  | FromAlias _ e => from_columns e
  | FromComputed _ cols => cols
  end.

(** The [tables] argument of the compiler: elements by effective name. *)
Abbreviation sa_tables := (dict SaFrom).

Section lookup.
Context `{CF : CaseFold}.

(** [resolve_column], over [table.c]: the dict comprehension keeps the LAST of
    two columns folding to one name. *)
Definition resolve_column (columns : list SaColumn) (column_name : string) : result SaColumn :=
  match find (λ c, bool_decide (casefold (col_name c) = casefold column_name)) (rev columns) with
  | Some c => Ok c
  | None => Raise (QueryValidationError "Column not found in table")
  end.

(** [table_by_name_or_none] and [table_by_name]: the first entry, in iteration
    order, whose key folds to the name. *)
Fixpoint table_by_name_or_none {A} (tables : dict A) (name : string) : option A :=
  match tables with
  | [] => None
  | (key, table) :: rest =>
      if bool_decide (casefold key = casefold name) then Some table
      else table_by_name_or_none rest name
  end.

Definition table_by_name {A} (tables : dict A) (name : string) : result A :=
  match table_by_name_or_none tables name with
  | Some t => Ok t
  | None => Raise (QueryValidationError "Unknown table")
  end.

Lemma resolve_column_ok columns name c :
  resolve_column columns name = Ok c → c ∈ columns ∧ casefold (col_name c) = casefold name.
Proof.
  unfold resolve_column. destruct (find _ _) as [d|] eqn:E; [|done]. intros [= <-].
  apply find_some in E as [Hin Heq%bool_decide_eq_true]. split; [|done].
  by apply list_elem_of_In, in_rev.
Qed.

Lemma table_by_name_casefold {A} (tables : dict A) n m :
  casefold n = casefold m → table_by_name tables n = table_by_name tables m.
Proof.
  intros H. unfold table_by_name.
  assert (table_by_name_or_none tables n = table_by_name_or_none tables m) as ->; [|done].
  induction tables as [|[k t] rest IH]; cbn; [done|]. by rewrite H, IH.
Qed.
End lookup.

(** * Column elements and selects *)

(** The SQLAlchemy types the code casts to. *)
Inductive SaType := SaText | SaUnicode | SaInteger | SaNumeric | SaBoolean | SaDate | SaDateTime | SaTimestamp.

#[export] Instance SaType_eq_dec : EqDecision SaType.
Proof. solve_decision. Defined.

(** A column element over the type [S] of nested statements. A bound literal is
    the JSON value the code binds; a [literal_column] is fixed text of the
    code's own; [EOutput] is an output column of a derived table, by position,
    with its [.name]. *)
Inductive sa_expr (S : Type) :=
| EColumn (f : SaFrom) (c : SaColumn)
| ELiteral (v : json)
| ENull
| ETrue
| ELiteralColumn (text : string)
| EInterval (amount : Z) (unit : string)
| EOutput (relation : string) (position : nat) (name : string)
| ELabel (name : string) (e : sa_expr S)
| EBinary (op : BinaryOp) (left right : sa_expr S)
| EMod (left right : sa_expr S)
| ENegate (e : sa_expr S)
| EOperator (op : string) (left right : sa_expr S)
| EFunc (name : string) (args : list (sa_expr S))
| EDistinct (e : sa_expr S)
| EWithinGroup (fn order : sa_expr S)
| EExtract (field : string) (e : sa_expr S)
| ECoerce (e : sa_expr S) (to : SaType)
| ECast (e : sa_expr S) (to : SaType)
| ECase (whens : list (sa_expr S * sa_expr S)) (else_ : option (sa_expr S))
| EOver (fn : string) (args : list (sa_expr S)) (partition_by order_by : list (sa_expr S))
        (frame : option (WindowFrameMode * option Z * option Z))
| EOrder (e : sa_expr S) (dir : SortDir) (nulls : option NullsOrder)
| ECompare (op : ReadCompareOp) (left right : sa_expr S)
| EInValues (e : sa_expr S) (values : list json)
| EInSelect (e : sa_expr S) (s : S)
| EScalarSelect (s : S)
| EExists (s : S)
| EBetween (e : sa_expr S) (low high : json)
| EIsNull (e : sa_expr S)
| EIsNotNull (e : sa_expr S)
| EAnd (l : list (sa_expr S))
| EOr (l : list (sa_expr S))
| ENot (e : sa_expr S).
Arguments EColumn {S} f c.
Arguments ELiteral {S} v.
Arguments ENull {S}.
Arguments ETrue {S}.
Arguments ELiteralColumn {S} text.
Arguments EInterval {S} amount unit.
Arguments EOutput {S} relation position name.
Arguments EMod {S} left right.
Arguments ENegate {S} e.
Arguments EOperator {S} op left right.
Arguments EWithinGroup {S} fn order.
Arguments EExtract {S} field e.
Arguments ECoerce {S} e to.
Arguments ELabel {S} name e.
Arguments EBinary {S} op left right.
Arguments EFunc {S} name args.
Arguments EDistinct {S} e.
Arguments ECast {S} e to.
Arguments ECase {S} whens else_.
Arguments EOver {S} fn args partition_by order_by frame.
Arguments EOrder {S} e dir nulls.
Arguments ECompare {S} op left right.
Arguments EInValues {S} e values.
Arguments EInSelect {S} e s.
Arguments EScalarSelect {S} s.
Arguments EExists {S} s.
Arguments EBetween {S} e low high.
Arguments EIsNull {S} e.
Arguments EIsNotNull {S} e.
Arguments EAnd {S} l.
Arguments EOr {S} l.
Arguments ENot {S} e.

(** [stmt.join(right, condition, isouter=..., full=...)]. *)
Record sa_join (S : Type) := MkSaJoin {
  sj_right : SaFrom;
  sj_condition : sa_expr S;
  sj_isouter : bool;
  sj_full : bool;
}.
Arguments MkSaJoin {S} _ _ _ _.
Arguments sj_right {S} _.
Arguments sj_condition {S} _.
Arguments sj_isouter {S} _.
Arguments sj_full {S} _.

(** A select as [_compile_scope_body] builds it: the conjuncts given to
    [where] and [having], in order. *)
Record select_of (S : Type) := MkSaSelect {
  ss_columns : list (sa_expr S);
  ss_from : SaFrom;
  ss_distinct : bool;
  ss_joins : list (sa_join S);
  ss_where : list (sa_expr S);
  ss_group_by : list (sa_expr S);
  ss_having : list (sa_expr S);
}.
Arguments MkSaSelect {S} _ _ _ _ _ _ _.
Arguments ss_columns {S} _.
Arguments ss_from {S} _.
Arguments ss_distinct {S} _.
Arguments ss_joins {S} _.
Arguments ss_where {S} _.
Arguments ss_group_by {S} _.
Arguments ss_having {S} _.

(** What [.subquery()] is applied to: a select, or a set operation of some. *)
Inductive relation_of (S : Type) :=
| RelSelect (s : select_of S)
| RelCompound (op : SetOpKind) (all_rows : bool) (arms : list (select_of S)).
Arguments RelSelect {S} s.
Arguments RelCompound {S} op all_rows arms.

(** A statement: the WITH blocks it builds and the derived tables its select
    reads, each under the name the [FromComputed] element carries, then the
    select itself with its ORDER BY, LIMIT and OFFSET. *)
Inductive sa_stmt := MkSaStmt {
  sm_ctes : list (string * sa_stmt);
  sm_derived : list (string * relation_of sa_stmt);
  sm_select : select_of sa_stmt;
  sm_order_by : list (sa_expr sa_stmt);
  sm_limit : option Z;
  sm_offset : option Z;
}.

Abbreviation SaExpr := (sa_expr sa_stmt).
Abbreviation SaJoin := (sa_join sa_stmt).
Abbreviation sa_select := (select_of sa_stmt).
Abbreviation sa_relation := (relation_of sa_stmt).

Definition with_where_clause (w : SaExpr) (s : sa_select) : sa_select :=
  MkSaSelect (ss_columns s) (ss_from s) (ss_distinct s) (ss_joins s) (ss_where s ++ [w])
    (ss_group_by s) (ss_having s).

Definition with_having_clause (h : SaExpr) (s : sa_select) : sa_select :=
  MkSaSelect (ss_columns s) (ss_from s) (ss_distinct s) (ss_joins s) (ss_where s)
    (ss_group_by s) (ss_having s ++ [h]).

Definition with_group_clause (g : list SaExpr) (s : sa_select) : sa_select :=
  MkSaSelect (ss_columns s) (ss_from s) (ss_distinct s) (ss_joins s) (ss_where s)
    (ss_group_by s ++ g) (ss_having s).

(** [stmt.add_columns]. *)
Definition with_columns (cols : list SaExpr) (s : sa_select) : sa_select :=
  MkSaSelect (ss_columns s ++ cols) (ss_from s) (ss_distinct s) (ss_joins s) (ss_where s)
    (ss_group_by s) (ss_having s).

(** [stmt.limit(None)]. *)
Definition without_limit (s : sa_stmt) : sa_stmt :=
  MkSaStmt (sm_ctes s) (sm_derived s) (sm_select s) (sm_order_by s) None (sm_offset s).

(** * Three-valued truth *)

(** [Some b] is a truth value, [None] is UNKNOWN. *)
Abbreviation tri := (option bool).

Definition tri_not (x : tri) : tri := option_map negb x.

Definition tri_and (x y : tri) : tri :=
  match x, y with
  | Some false, _ | _, Some false => Some false
  | Some true, Some true => Some true
  | _, _ => None
  end.

Definition tri_or (x y : tri) : tri :=
  match x, y with
  | Some true, _ | _, Some true => Some true
  | Some false, Some false => Some false
  | _, _ => None
  end.

Definition tri_all (l : list tri) : tri := foldr tri_and (Some true) l.
Definition tri_any (l : list tri) : tri := foldr tri_or (Some false) l.

Lemma tri_and_true x y : tri_and x y = Some true ↔ x = Some true ∧ y = Some true.
Proof. destruct x as [[]|], y as [[]|]; cbn; naive_solver. Qed.

Lemma tri_all_true l : tri_all l = Some true ↔ ∀ x, x ∈ l → x = Some true.
Proof.
  induction l as [|x l IH]; cbn; [set_solver|]. rewrite tri_and_true, IH. set_solver.
Qed.

(** * Rows *)

(** SQL equality: true only between values that are both known, and then
    symmetric and transitive. *)
Class SqlValues := {
  sql_value : Type;
  sql_null : sql_value;
  sql_eq : sql_value → sql_value → tri;
  sql_literal : json → sql_value;
  sql_eq_sym x y : sql_eq x y = Some true → sql_eq y x = Some true;
  sql_eq_trans x y z : sql_eq x y = Some true → sql_eq y z = Some true → sql_eq x z = Some true;
}.

Section rows.
Context `{CF : CaseFold} `{SV : SqlValues}.

(** A stored row gives a value to each (folded) column name; a joined row pairs
    each FROM element with a row of it. *)
Abbreviation stored_row := (string → sql_value).
Abbreviation joined_row := (list (SaFrom * stored_row)).

Definition null_row : stored_row := λ _, sql_null.

Fixpoint row_of (r : joined_row) (f : SaFrom) : option stored_row :=
  match r with
  | [] => None
  | (g, row) :: r' => if decide (f = g) then Some row else row_of r' f
  end.

(** What a statement is evaluated against: the rows of each element, the
    columns of an enclosing statement, and the truth of every test that is
    neither a connective nor an equality of columns or literals. *)
Record sql_context := MkSqlContext {
  sq_rows : SaFrom → list stored_row;
  sq_outer : SaFrom → string → sql_value;
  sq_truth : joined_row → SaExpr → tri;
}.

Definition column_value (cx : sql_context) (r : joined_row) (f : SaFrom) (c : SaColumn) : sql_value :=
  match row_of r f with
  | Some row => row (casefold (col_name c))
  | None => sq_outer cx f (casefold (col_name c))
  end.

Fixpoint truth (cx : sql_context) (r : joined_row) (e : SaExpr) : tri :=
  match e with
  | ETrue => Some true
  | EAnd l => tri_all (map (truth cx r) l)
  | EOr l => tri_any (map (truth cx r) l)
  | ENot e' => tri_not (truth cx r e')
  | ECompare OpEq (EColumn f c) (EColumn g d) => sql_eq (column_value cx r f c) (column_value cx r g d)
  | ECompare OpEq (EColumn f c) (ELiteral v) => sql_eq (column_value cx r f c) (sql_literal v)
  | _ => sq_truth cx r e
  end.

(** A row passes a condition when it is TRUE: neither FALSE nor UNKNOWN. *)
Definition passes (cx : sql_context) (e : SaExpr) (r : joined_row) : bool :=
  bool_decide (truth cx r e = Some true).

(** ** Joins *)

Definition matches (cx : sql_context) (cond : SaExpr) (left : joined_row) (f : SaFrom) :
  list joined_row :=
  filter (passes cx cond) (map (λ row, left ++ [(f, row)]) (sq_rows cx f)).

(** The rows one left-hand row contributes. *)
Definition join_left_row (cx : sql_context) (j : SaJoin) (left : joined_row) : list joined_row :=
  match matches cx (sj_condition j) left (sj_right j) with
  | [] => if sj_isouter j || sj_full j then [left ++ [(sj_right j, null_row)]] else []
  | l => l
  end.

(** The right-hand rows of a FULL join that no left-hand row matches. *)
Definition unmatched_right (cx : sql_context) (j : SaJoin) (lefts : list joined_row)
  (blank : joined_row) : list joined_row :=
  if sj_full j then
    map (λ row, blank ++ [(sj_right j, row)])
      (filter (λ row, negb (existsb (λ left,
           passes cx (sj_condition j) (left ++ [(sj_right j, row)])) lefts))
         (sq_rows cx (sj_right j)))
  else [].

Definition join_rows (cx : sql_context) (j : SaJoin) (lefts : list joined_row) (blank : joined_row) :
  list joined_row :=
  flat_map (join_left_row cx j) lefts ++ unmatched_right cx j lefts blank.

(** [FROM base JOIN j1 JOIN j2 ...]: each join sees the rows so far. *)
Fixpoint joins_rows (cx : sql_context) (js : list SaJoin) (lefts : list joined_row)
  (blank : joined_row) : list joined_row :=
  match js with
  | [] => lefts
  | j :: js' =>
      joins_rows cx js' (join_rows cx j lefts blank) (blank ++ [(sj_right j, null_row)])
  end.

Definition base_rows (cx : sql_context) (f : SaFrom) : list joined_row :=
  map (λ row, [(f, row)]) (sq_rows cx f).

(** The joined rows that pass every WHERE conjunct. *)
Definition selected_rows (cx : sql_context) (s : sa_select) : list joined_row :=
  filter (λ r, forallb (λ w, passes cx w r) (ss_where s))
    (joins_rows cx (ss_joins s) (base_rows cx (ss_from s)) [(ss_from s, null_row)]).
End rows.
