(* ===== verification/Dialects.v ===== *)
(** The dialect adapters of [compiler/dialect_adapters.py]: the interface the
    compilers are written against, the six adapters that implement it, and the
    laws every one of them keeps (a form is rendered exactly or refused, a mask
    hides its column, nothing but what was handed in is embedded). SQLAlchemy's
    static type of an element, which only BigQuery reads, is a parameter. *)
From S2P Require Export Sql.
From stdpp Require Import pretty.
Local Open Scope Z_scope.

(** * The interface *)

(** [DialectAdapter]: the points where two dialects render different SQL. A
    method that may reject a form its dialect lacks returns a [result]. *)
Class DialectAdapter := {
  date_bucket : SaExpr → DateGranularity → result SaExpr;
  order_by_terms : SaExpr → SortDir → option NullsOrder → result (list SaExpr);
  stat_fn : AggregateFn → result string;
  string_agg : SaExpr → string → result SaExpr;
  array_agg : SaExpr → result SaExpr;
  percentile_cont : SaExpr → float64 → result SaExpr;
  scalar_function : ExprFn → list SaExpr → result SaExpr;
  window_frame : WindowFrameMode → option Z → option Z →
    result (WindowFrameMode * option Z * option Z);
  set_operation : SetOpKind → bool → list sa_select → result sa_relation;
  extract_part : DatePart → SaExpr → result SaExpr;
  current_timestamp : NowKind → SaExpr;
  date_add : SaExpr → IntervalUnit → Z → result SaExpr;
  column_mask_expr : SaExpr → ColumnMask → result SaExpr;
}.

(** * Shared pieces *)

Definition lit_int (n : Z) : SaExpr := ELiteral (JInt n).
Definition lit_str (s : string) : SaExpr := ELiteral (JStr s).
Definition lit_float (f : option float64) : SaExpr :=
  match f with Some x => ELiteral (JFloat x) | None => ENull end.
Definition lit_opt_int (n : option Z) : SaExpr :=
  match n with Some x => lit_int x | None => ENull end.

Definition unsupported {A} (what dialect : string) : result A :=
  Raise (QueryValidationError (what +:+ " is not supported on " +:+ dialect)).

Definition ok_or {A} (o : option A) (what dialect : string) : result A :=
  match o with Some x => Ok x | None => unsupported what dialect end.

Definition granularity_text (g : DateGranularity) : string :=
  match g with
  | GranDay => "day" | GranWeek => "week" | GranMonth => "month" | GranQuarter => "quarter"
  | GranYear => "year"
  end.

(** [_direction_expr] and the two ways a dialect places NULLs. *)
Definition order_terms_with_nulls (e : SaExpr) (d : SortDir) (n : option NullsOrder) :
  result (list SaExpr) := Ok [EOrder e d n].

Definition order_terms_without_nulls (dialect : string) (e : SaExpr) (d : SortDir)
  (n : option NullsOrder) : result (list SaExpr) :=
  match n with
  | None => Ok [EOrder e d None]
  | Some _ => unsupported "nulls first/last ordering" dialect
  end.

(** [_frame_kwargs]. *)
Definition frame_kwargs (mode : WindowFrameMode) (start end_ : option Z) :
  result (WindowFrameMode * option Z * option Z) := Ok (mode, start, end_).

(** [_SET_OPERATIONS] and [_compound]. *)
Definition compound (op : SetOpKind) (all_rows : bool) (selects : list sa_select) :
  result sa_relation := Ok (RelCompound op all_rows selects).

(** [set_operation] of every dialect but Postgres, with [_no_all_variant]. *)
Definition compound_no_all (dialect : string) (op : SetOpKind) (all_rows : bool)
  (selects : list sa_select) : result sa_relation :=
  match op with
  | SetUnion => compound op all_rows selects
  | SetIntersect | SetExcept =>
      if all_rows then unsupported "the ALL variant of a set operation" dialect
      else compound op all_rows selects
  end.

(** [_bucket_mask]. *)
Definition bucket_mask (col : SaExpr) (m : ColumnMask) : SaExpr :=
  EBinary BopMul (EFunc "floor" [EBinary BopDiv col (lit_float (mask_bucket_size m))])
    (lit_float (mask_bucket_size m)).

(** [ceil], [length], [substring] under a dialect's names, [round] apart; the
    arity is checked when the query is parsed. *)
Definition renamed_function (ceil length substring dialect : string)
  (round : list SaExpr → result SaExpr) (fn : ExprFn) (args : list SaExpr) : result SaExpr :=
  match fn, args with
  | FnCeil, x :: _ => Ok (EFunc ceil [x])
  | FnLength, x :: _ => Ok (EFunc length [x])
  | FnSubstring, _ => Ok (EFunc substring args)
  | FnRound, _ => round args
  | FnCeil, [] | FnLength, [] => Raise (ValueError "list index out of range")
  | _, _ => unsupported "scalar function" dialect
  end.

(** [round(args[0], args[1]) if len(args) == 2 else round(args[0])]. *)
Definition round_plain (args : list SaExpr) : result SaExpr :=
  match args with
  | [x; n] => Ok (EFunc "round" [x; n])
  | x :: _ => Ok (EFunc "round" [x])
  | [] => Raise (ValueError "list index out of range")
  end.

(** A statistical aggregate under a dialect's two names. *)
Definition stat_names (stddev variance : string) (fn : AggregateFn) : result string :=
  match fn with
  | AggStddev => Ok stddev
  | AggVariance => Ok variance
  | _ => Raise (ValueError "not a statistical aggregate")
  end.

(** * Postgres *)

(** [_PG_EXTRACT_FIELDS]. *)
Definition pg_extract_field (p : DatePart) : string :=
  match p with
  | PartYear => "year" | PartQuarter => "quarter" | PartMonth => "month" | PartWeek => "week"
  | PartDay => "day" | PartDayofweek => "dow" | PartDayofyear => "doy" | PartHour => "hour"
  | PartMinute => "minute" | PartSecond => "second"
  end.

(** [_PG_MAKE_INTERVAL_POSITIONS]. *)
Definition pg_interval_position (u : IntervalUnit) : nat :=
  match u with
  | UYear => 0 | UMonth => 1 | UWeek => 2 | UDay => 3 | UHour => 4 | UMinute => 5 | USecond => 6
  end.

Definition pg_scalar_function : ExprFn → list SaExpr → result SaExpr :=
  renamed_function "ceil" "length" "substring" "Postgres" (λ args,
    match args with
    | [x; n] => Ok (EFunc "round" [ECast x SaNumeric; n])
    | x :: _ => Ok (EFunc "round" [x])
    | [] => Raise (ValueError "list index out of range")
    end).

Definition pg_extract_part (p : DatePart) (e : SaExpr) : result SaExpr :=
  Ok (ECast (EFunc "floor" [EExtract (pg_extract_field p) e]) SaInteger).

Definition pg_date_add (e : SaExpr) (u : IntervalUnit) (amount : Z) : result SaExpr :=
  Ok (EBinary BopAdd e
        (EFunc "make_interval" (<[pg_interval_position u := lit_int amount]> (replicate 7 (lit_int 0))))).

Definition pg_column_mask (col : SaExpr) (m : ColumnMask) : result SaExpr :=
  match mask_kind m with
  | MASK_NULL => Ok ENull
  | BUCKET => Ok (bucket_mask col m)
  | LAST => Ok (EFunc "right" [ECast col SaText; lit_opt_int (mask_length m)])
  | HASH => Ok (EFunc "md5" [ECast col SaText])
  end.

Definition postgres_adapter : DialectAdapter := {|
  date_bucket col g := Ok (EFunc "date_trunc" [lit_str (granularity_text g); col]);
  order_by_terms := order_terms_with_nulls;
  stat_fn := stat_names "stddev" "variance";
  string_agg col d := Ok (EFunc "string_agg" [col; lit_str d]);
  array_agg col := Ok (EFunc "array_agg" [col]);
  percentile_cont col f := Ok (EWithinGroup (EFunc "percentile_cont" [ELiteral (JFloat f)]) col);
  scalar_function := pg_scalar_function;
  window_frame := frame_kwargs;
  set_operation := compound;
  extract_part := pg_extract_part;
  current_timestamp k :=
    match k with NowDate => ECast (EFunc "now" []) SaDate | NowTimestamp => EFunc "now" [] end;
  date_add := pg_date_add;
  column_mask_expr := pg_column_mask;
|}.

(** * SQL Server *)

(** [_MSSQL_DATEPART_FIELDS]. *)
Definition ms_datepart (p : DatePart) : option string :=
  match p with
  | PartYear => Some "year" | PartQuarter => Some "quarter" | PartMonth => Some "month"
  | PartWeek => Some "iso_week" | PartDay => Some "day" | PartDayofyear => Some "dayofyear"
  | PartHour => Some "hour" | PartMinute => Some "minute" | PartSecond => Some "second"
  | PartDayofweek => None
  end.

(** The unit keywords: [_MSSQL_DATEADD_UNITS], [_SNOWFLAKE_DATEADD_UNITS], and
    in capitals [_MYSQL_DATEADD_UNITS]. *)
Definition unit_keyword (u : IntervalUnit) : string :=
  match u with
  | UYear => "year" | UMonth => "month" | UWeek => "week" | UDay => "day" | UHour => "hour"
  | UMinute => "minute" | USecond => "second"
  end.

Definition unit_keyword_upper (u : IntervalUnit) : string :=
  match u with
  | UYear => "YEAR" | UMonth => "MONTH" | UWeek => "WEEK" | UDay => "DAY" | UHour => "HOUR"
  | UMinute => "MINUTE" | USecond => "SECOND"
  end.

Definition ms_date_bucket (col : SaExpr) (g : DateGranularity) : result SaExpr :=
  let part := ELiteralColumn (granularity_text g) in
  let zero := ELiteralColumn "0" in
  Ok (EFunc "dateadd" [part; EFunc "datediff" [part; zero; col]; zero]).

Definition ms_scalar_function : ExprFn → list SaExpr → result SaExpr :=
  renamed_function "CEILING" "LEN" "substring" "MSSQL" (λ args,
    match args with
    | [x; n] => Ok (EFunc "ROUND" [x; n])
    | x :: _ => Ok (EFunc "ROUND" [x; lit_int 0])
    | [] => Raise (ValueError "list index out of range")
    end).

(** A frame bound that is unbounded or the current row. *)
Definition unbounded_or_current (b : option Z) : bool :=
  match b with None => true | Some n => n =? 0 end.

Definition ms_window_frame (mode : WindowFrameMode) (start end_ : option Z) :
  result (WindowFrameMode * option Z * option Z) :=
  match mode with
  | FrameRange =>
      if negb (unbounded_or_current start) || negb (unbounded_or_current end_)
      then unsupported "a RANGE frame with a numeric offset" "MSSQL"
      else frame_kwargs mode start end_
  | FrameRows => frame_kwargs mode start end_
  end.

Definition ms_extract_part (p : DatePart) (e : SaExpr) : result SaExpr :=
  match p with
  | PartDayofweek =>
      Ok (EMod (EBinary BopSub
                  (EBinary BopAdd (EFunc "DATEPART" [ELiteralColumn "weekday"; e])
                                  (ELiteralColumn "@@DATEFIRST")) (lit_int 1)) (lit_int 7))
  | _ => ok_or (ms_datepart p) "extract part" "MSSQL" ≫= λ field,
         Ok (EFunc "DATEPART" [ELiteralColumn field; e])
  end.

Definition ms_column_mask (col : SaExpr) (m : ColumnMask) : result SaExpr :=
  match mask_kind m with
  | MASK_NULL => Ok ENull
  | BUCKET => Ok (bucket_mask col m)
  | LAST => Ok (EFunc "RIGHT" [ECast col SaUnicode; lit_opt_int (mask_length m)])
  | HASH => Ok (EFunc "CONVERT" [ELiteralColumn "VARCHAR(64)";
                  EFunc "HASHBYTES" [lit_str "SHA2_256"; ECast col SaUnicode]; lit_int 2])
  end.

Definition mssql_adapter : DialectAdapter := {|
  date_bucket := ms_date_bucket;
  order_by_terms := order_terms_without_nulls "MSSQL";
  stat_fn := stat_names "STDEV" "VAR";
  string_agg col d := Ok (EFunc "STRING_AGG" [col; lit_str d]);
  array_agg _ := unsupported "array_agg" "MSSQL";
  percentile_cont _ _ := unsupported "percentile_cont" "MSSQL";
  scalar_function := ms_scalar_function;
  window_frame := ms_window_frame;
  set_operation := compound_no_all "MSSQL";
  extract_part := ms_extract_part;
  current_timestamp k :=
    match k with
    | NowDate => ECast (EFunc "SYSUTCDATETIME" []) SaDate
    | NowTimestamp => EFunc "SYSUTCDATETIME" []
    end;
  date_add e u n := Ok (EFunc "DATEADD" [ELiteralColumn (unit_keyword u); lit_int n; e]);
  column_mask_expr := ms_column_mask;
|}.

(** * SQLite, for tests and examples *)

Definition sqlite : string := "the internal SQLite test/example dialect".

Definition sqlite_date_bucket (col : SaExpr) (g : DateGranularity) : result SaExpr :=
  let strftime f := EFunc "strftime" [lit_str f; col] in
  Ok match g with
     | GranDay => EFunc "date" [strftime "%Y-%m-%d"]
     | GranMonth => EFunc "date" [strftime "%Y-%m-01"]
     | GranYear => EFunc "date" [strftime "%Y-01-01"]
     | GranWeek => EFunc "date" [col; lit_str "weekday 0"; lit_str "-6 days"]
     | GranQuarter =>
         let month := ECast (strftime "%m") SaInteger in
         let start := EBinary BopAdd (EBinary BopMul
           (EBinary BopDiv (EBinary BopSub month (lit_int 1)) (lit_int 3)) (lit_int 3)) (lit_int 1) in
         EFunc "date" [EBinary BopAdd (EBinary BopAdd (EBinary BopAdd (strftime "%Y") (lit_str "-"))
                         (EFunc "printf" [lit_str "%02d"; start])) (lit_str "-01")]
     end.

Definition sqlite_scalar_function : ExprFn → list SaExpr → result SaExpr :=
  renamed_function "ceil" "length" "substr" sqlite (λ args, Ok (EFunc "round" args)).

(** [_SQLITE_STRFTIME_PARTS]. *)
Definition sqlite_strftime (p : DatePart) : option string :=
  match p with
  | PartYear => Some "%Y" | PartMonth => Some "%m" | PartDay => Some "%d"
  | PartDayofweek => Some "%w" | PartDayofyear => Some "%j" | PartHour => Some "%H"
  | PartMinute => Some "%M" | PartSecond => Some "%S"
  | PartQuarter | PartWeek => None
  end.

Definition sqlite_extract_part (p : DatePart) (e : SaExpr) : result SaExpr :=
  match p with
  | PartWeek => unsupported "extract part 'week'" sqlite
  | PartQuarter =>
      let month := ECast (EFunc "strftime" [lit_str "%m"; e]) SaInteger in
      Ok (ECast (EBinary BopDiv (EBinary BopAdd month (lit_int 2)) (lit_int 3)) SaInteger)
  | _ => ok_or (sqlite_strftime p) "extract part" sqlite ≫= λ code,
         Ok (ECast (EFunc "strftime" [lit_str code; e]) SaInteger)
  end.

(** [f"{amount:+d} {unit}s"]. *)
Definition sqlite_modifier (u : IntervalUnit) (amount : Z) : string :=
  (if 0 <=? amount then "+" else "") +:+ pretty amount +:+ " " +:+ unit_keyword u +:+ "s".

Definition sqlite_date_add (e : SaExpr) (u : IntervalUnit) (amount : Z) : result SaExpr :=
  let '(u, amount) := match u with UWeek => (UDay, amount * 7) | _ => (u, amount) end in
  Ok (EFunc "datetime" [e; lit_str (sqlite_modifier u amount)]).

Definition sqlite_column_mask (col : SaExpr) (m : ColumnMask) : result SaExpr :=
  match mask_kind m with
  | MASK_NULL => Ok ENull
  | BUCKET => Ok (bucket_mask col m)
  | LAST =>
      match mask_length m with
      | Some n => Ok (EFunc "substr" [ECast col SaText; lit_int (- n)])
      | None => Raise (ValueError "bad operand type for unary -")
      end
  | HASH => unsupported "column_mask kind 'hash'" sqlite
  end.

Definition sqlite_adapter : DialectAdapter := {|
  date_bucket := sqlite_date_bucket;
  order_by_terms := order_terms_with_nulls;
  stat_fn _ := unsupported "a statistical aggregate" sqlite;
  string_agg col d := Ok (EFunc "group_concat" [col; lit_str d]);
  array_agg _ := unsupported "array_agg" sqlite;
  percentile_cont _ _ := unsupported "percentile_cont" sqlite;
  scalar_function := sqlite_scalar_function;
  window_frame := frame_kwargs;
  set_operation := compound_no_all sqlite;
  extract_part := sqlite_extract_part;
  current_timestamp k :=
    match k with
    | NowDate => EFunc "date" [lit_str "now"]
    | NowTimestamp => EFunc "datetime" [lit_str "now"]
    end;
  date_add := sqlite_date_add;
  column_mask_expr := sqlite_column_mask;
|}.

(** * MySQL *)

Definition my_date_bucket (col : SaExpr) (g : DateGranularity) : result SaExpr :=
  let to_date e := EFunc "str_to_date" [e; lit_str "%Y-%m-%d"] in
  Ok match g with
     | GranDay => EFunc "date" [col]
     | GranWeek => EFunc "date" [EFunc "subdate" [col; EFunc "weekday" [col]]]
     | GranMonth => to_date (EFunc "date_format" [col; lit_str "%Y-%m-01"])
     | GranQuarter =>
         let start := EBinary BopAdd (EBinary BopMul
           (EBinary BopSub (EFunc "quarter" [col]) (lit_int 1)) (lit_int 3)) (lit_int 1) in
         to_date (EFunc "concat" [EFunc "year" [col]; lit_str "-";
                    EFunc "lpad" [start; lit_int 2; lit_str "0"]; lit_str "-01"])
     | GranYear => to_date (EFunc "date_format" [col; lit_str "%Y-01-01"])
     end.

(** [_MYSQL_EXTRACT_FIELDS]. *)
Definition my_extract_field (p : DatePart) : option string :=
  match p with
  | PartYear => Some "year" | PartQuarter => Some "quarter" | PartMonth => Some "month"
  | PartDay => Some "day" | PartHour => Some "hour" | PartMinute => Some "minute"
  | PartSecond => Some "second"
  | PartDayofweek | PartWeek | PartDayofyear => None
  end.

Definition my_extract_part (p : DatePart) (e : SaExpr) : result SaExpr :=
  match p with
  | PartDayofweek => Ok (EBinary BopSub (EFunc "dayofweek" [e]) (lit_int 1))
  | PartWeek => Ok (EFunc "week" [e; lit_int 3])
  | PartDayofyear => Ok (EFunc "dayofyear" [e])
  | _ => ok_or (my_extract_field p) "extract part" "MySQL" ≫= λ field, Ok (EExtract field e)
  end.

Definition my_column_mask (col : SaExpr) (m : ColumnMask) : result SaExpr :=
  match mask_kind m with
  | MASK_NULL => Ok ENull
  | BUCKET => Ok (bucket_mask col m)
  | LAST => Ok (EFunc "right" [ECast col SaText; lit_opt_int (mask_length m)])
  | HASH => Ok (EFunc "sha2" [ECast col SaText; lit_int 256])
  end.

Definition mysql_adapter : DialectAdapter := {|
  date_bucket := my_date_bucket;
  order_by_terms := order_terms_without_nulls "MySQL";
  stat_fn := stat_names "stddev_samp" "var_samp";
  string_agg col d := Ok (EFunc "group_concat" [EOperator "SEPARATOR" col (lit_str d)]);
  array_agg _ := unsupported "array_agg" "MySQL";
  percentile_cont _ _ := unsupported "percentile_cont" "MySQL";
  scalar_function := renamed_function "ceil" "length" "substring" "MySQL" round_plain;
  window_frame := frame_kwargs;
  set_operation := compound_no_all "MySQL";
  extract_part := my_extract_part;
  current_timestamp k :=
    match k with
    | NowDate => ECast (EFunc "utc_timestamp" []) SaDate
    | NowTimestamp => EFunc "utc_timestamp" []
    end;
  date_add e u n := Ok (EFunc "date_add" [e; EInterval n (unit_keyword_upper u)]);
  column_mask_expr := my_column_mask;
|}.

(** * Snowflake *)

Definition sf_date_bucket (col : SaExpr) (g : DateGranularity) : result SaExpr :=
  Ok match g with
     | GranWeek =>
         EFunc "date_trunc" [lit_str "day";
           EFunc "dateadd" [ELiteralColumn "day";
             ENegate (EBinary BopSub (EFunc "dayofweekiso" [col]) (lit_int 1)); col]]
     | _ => EFunc "date_trunc" [lit_str (granularity_text g); col]
     end.

(** [_SNOWFLAKE_EXTRACT_FIELDS] and [_BQ_EXTRACT_FIELDS]. *)
Definition sf_extract_field (p : DatePart) : option string :=
  match p with
  | PartYear => Some "year" | PartQuarter => Some "quarter" | PartMonth => Some "month"
  | PartDay => Some "day" | PartDayofyear => Some "dayofyear" | PartHour => Some "hour"
  | PartMinute => Some "minute" | PartSecond => Some "second"
  | PartDayofweek | PartWeek => None
  end.

Definition sf_extract_part (p : DatePart) (e : SaExpr) : result SaExpr :=
  match p with
  | PartDayofweek => Ok (EMod (EFunc "dayofweekiso" [e]) (lit_int 7))
  | PartWeek => Ok (EFunc "weekiso" [e])
  | _ => ok_or (sf_extract_field p) "extract part" "Snowflake" ≫= λ field, Ok (EExtract field e)
  end.

Definition snowflake_adapter : DialectAdapter := {|
  date_bucket := sf_date_bucket;
  order_by_terms := order_terms_with_nulls;
  stat_fn := stat_names "stddev" "variance";
  string_agg col d := Ok (EFunc "listagg" [col; lit_str d]);
  array_agg col := Ok (EFunc "array_agg" [col]);
  percentile_cont col f := Ok (EWithinGroup (EFunc "percentile_cont" [ELiteral (JFloat f)]) col);
  scalar_function := renamed_function "ceil" "length" "substring" "Snowflake" round_plain;
  window_frame := frame_kwargs;
  set_operation := compound_no_all "Snowflake";
  extract_part := sf_extract_part;
  current_timestamp k :=
    match k with
    | NowDate => ECast (EFunc "sysdate" []) SaDate
    | NowTimestamp => EFunc "sysdate" []
    end;
  date_add e u n := Ok (EFunc "dateadd" [ELiteralColumn (unit_keyword u); lit_int n; e]);
  column_mask_expr := my_column_mask;
|}.

(** * BigQuery *)

Inductive BqTemporal := BqTimestamp | BqDatetime | BqDate.

Section bigquery.
(** SQLAlchemy's static type of an element. *)
Context (sa_type : SaExpr → option SaType).

(** [_bq_temporal_kind]. *)
Definition bq_temporal_kind (e : SaExpr) : option BqTemporal :=
  match sa_type e with
  | Some SaTimestamp => Some BqTimestamp
  | Some SaDateTime => Some BqDatetime
  | Some SaDate => Some BqDate
  | _ => None
  end.

(** [_BQ_TRUNC_FN], [_BQ_TEMPORAL_TYPE], [_BQ_ADD_FN], [_BQ_TRUNC_KEYWORDS]. *)
Definition bq_trunc_fn (k : BqTemporal) : string :=
  match k with
  | BqDate => "date_trunc" | BqDatetime => "datetime_trunc" | BqTimestamp => "timestamp_trunc"
  end.

Definition bq_temporal_type (k : BqTemporal) : SaType :=
  match k with BqDate => SaDate | BqDatetime => SaDateTime | BqTimestamp => SaTimestamp end.

Definition bq_add_fn (k : BqTemporal) : string :=
  match k with
  | BqDate => "date_add" | BqDatetime => "datetime_add" | BqTimestamp => "timestamp_add"
  end.

Definition bq_trunc_keyword (g : DateGranularity) : string :=
  match g with
  | GranDay => "DAY" | GranWeek => "ISOWEEK" | GranMonth => "MONTH" | GranQuarter => "QUARTER"
  | GranYear => "YEAR"
  end.

Definition bq_kind_or_raise (e : SaExpr) : result BqTemporal :=
  match bq_temporal_kind e with
  | Some k => Ok k
  | None => Raise (QueryValidationError "could not determine whether this BigQuery expression is DATE, DATETIME, or TIMESTAMP")
  end.

Definition bq_date_bucket (col : SaExpr) (g : DateGranularity) : result SaExpr :=
  bq_kind_or_raise col ≫= λ k,
  Ok (ECoerce (EFunc (bq_trunc_fn k) [col; ELiteralColumn (bq_trunc_keyword g)]) (bq_temporal_type k)).

(** [_BQ_DATE_ADD_UNITS], [_BQ_DATETIME_ADD_UNITS], [_BQ_TIMESTAMP_ADD_UNITS]. *)
Definition bq_unit_allowed (k : BqTemporal) (u : IntervalUnit) : bool :=
  match k, u with
  | BqDatetime, _ => true
  | BqDate, (UYear | UMonth | UWeek | UDay) => true
  | BqTimestamp, (UDay | UHour | UMinute | USecond) => true
  | _, _ => false
  end.

Definition bq_date_add (e : SaExpr) (u : IntervalUnit) (amount : Z) : result SaExpr :=
  bq_kind_or_raise e ≫= λ k,
  if bq_unit_allowed k u then
    Ok (ECoerce (EFunc (bq_add_fn k) [e; EInterval amount (unit_keyword_upper u)]) (bq_temporal_type k))
  else unsupported "interval unit" "BigQuery".

Definition bq_extract_part (p : DatePart) (e : SaExpr) : result SaExpr :=
  match p with
  | PartDayofweek => Ok (EBinary BopSub (EExtract "dayofweek" e) (lit_int 1))
  | PartWeek => Ok (EExtract "isoweek" e)
  | _ => ok_or (sf_extract_field p) "extract part" "BigQuery" ≫= λ field, Ok (EExtract field e)
  end.

Definition bq_column_mask (col : SaExpr) (m : ColumnMask) : result SaExpr :=
  match mask_kind m with
  | MASK_NULL => Ok ENull
  | BUCKET => Ok (bucket_mask col m)
  | LAST => Ok (EFunc "right" [ECast col SaText; lit_opt_int (mask_length m)])
  | HASH => Ok (EFunc "to_hex" [EFunc "sha256" [ECast col SaText]])
  end.

Definition bigquery_adapter : DialectAdapter := {|
  date_bucket := bq_date_bucket;
  order_by_terms := order_terms_with_nulls;
  stat_fn := stat_names "stddev" "variance";
  string_agg col d := Ok (EFunc "string_agg" [col; lit_str d]);
  array_agg col := Ok (EFunc "array_agg" [col]);
  percentile_cont _ _ := unsupported "percentile_cont" "BigQuery";
  scalar_function := renamed_function "ceil" "length" "substr" "BigQuery" round_plain;
  window_frame := frame_kwargs;
  set_operation := compound_no_all "BigQuery";
  extract_part := bq_extract_part;
  current_timestamp k :=
    match k with
    | NowDate => ECast (EFunc "current_timestamp" []) SaDate
    | NowTimestamp => ECoerce (EFunc "current_timestamp" []) SaTimestamp
    end;
  date_add := bq_date_add;
  column_mask_expr := bq_column_mask;
|}.

(** [_ADAPTERS] and [get_dialect_adapter]: an unknown name gets the SQLite one. *)
Definition get_dialect_adapter (dialect : string) : DialectAdapter :=
  if bool_decide (dialect = "postgresql") then postgres_adapter
  else if bool_decide (dialect = "mssql") then mssql_adapter
  else if bool_decide (dialect = "mysql") then mysql_adapter
  else if bool_decide (dialect = "snowflake") then snowflake_adapter
  else if bool_decide (dialect = "bigquery") then bigquery_adapter
  else sqlite_adapter.
End bigquery.

(** * Laws *)

(** The statements an element embeds. *)
Fixpoint expr_stmts {S} (e : sa_expr S) : list S :=
  match e with
  | EColumn _ _ | ELiteral _ | ENull | ETrue | ELiteralColumn _ | EInterval _ _ | EOutput _ _ _ => []
  | ELabel _ x | EDistinct x | ECast x _ | ECoerce x _ | EExtract _ x | ENegate x | EOrder x _ _
  | EInValues x _ | EBetween x _ _ | EIsNull x | EIsNotNull x | ENot x => expr_stmts x
  | EBinary _ l r | EMod l r | EOperator _ l r | EWithinGroup l r | ECompare _ l r =>
      expr_stmts l ++ expr_stmts r
  | EFunc _ l | EAnd l | EOr l => flat_map expr_stmts l
  | ECase whens else_ =>
      flat_map (λ w, expr_stmts w.1 ++ expr_stmts w.2) whens
      ++ match else_ with Some x => expr_stmts x | None => [] end
  | EOver _ args parts orders _ =>
      flat_map expr_stmts args ++ flat_map expr_stmts parts ++ flat_map expr_stmts orders
  | EInSelect x s => s :: expr_stmts x
  | EScalarSelect s | EExists s => [s]
  end.

(** Functions that give away their argument only in part: a digest, the last
    characters, a bucket. *)
Definition hiding (fn : string) : bool :=
  bool_decide (fn ∈ ["md5"; "sha2"; "sha256"; "HASHBYTES"; "right"; "RIGHT"; "substr"; "floor"]).

(** A column of [f] stands in the element outside every hiding function. *)
Fixpoint exposes {S} (f : SaFrom) (c : SaColumn) (e : sa_expr S) : bool :=
  match e with
  | EColumn g d => bool_decide (f = g) && bool_decide (c = d)
  | ELiteral _ | ENull | ETrue | ELiteralColumn _ | EInterval _ _ | EOutput _ _ _ => false
  | ELabel _ x | EDistinct x | ECast x _ | ECoerce x _ | EExtract _ x | ENegate x | EOrder x _ _
  | EInValues x _ | EBetween x _ _ | EIsNull x | EIsNotNull x | ENot x => exposes f c x
  | EBinary _ l r | EMod l r | EOperator _ l r | EWithinGroup l r | ECompare _ l r =>
      exposes f c l || exposes f c r
  | EFunc fn l => negb (hiding fn) && existsb (exposes f c) l
  | EAnd l | EOr l => existsb (exposes f c) l
  | ECase whens else_ =>
      existsb (λ w, exposes f c w.1 || exposes f c w.2) whens
      || match else_ with Some x => exposes f c x | None => false end
  | EOver _ args parts orders _ =>
      existsb (exposes f c) args || existsb (exposes f c) parts || existsb (exposes f c) orders
  | EInSelect x _ => exposes f c x
  | EScalarSelect _ | EExists _ => true
  end.

(** What an adapter promises the compiler. *)
Class DialectLaws (DA : DialectAdapter) := {
  order_exact e d n ts : order_by_terms e d n = Ok ts → ts = [EOrder e d n];
  frame_exact m s e fr : window_frame m s e = Ok fr → fr = (m, s, e);
  compound_exact op all_rows l r : set_operation op all_rows l = Ok r → r = RelCompound op all_rows l;
  mask_hides f c m e : column_mask_expr (EColumn f c) m = Ok e → exposes f c e = false;
  mask_stmts f c m e : column_mask_expr (EColumn f c) m = Ok e → expr_stmts e = [];
  bucket_stmts e g r : date_bucket e g = Ok r → expr_stmts r ⊆ expr_stmts e;
  string_agg_stmts e d r : string_agg e d = Ok r → expr_stmts r ⊆ expr_stmts e;
  array_agg_stmts e r : array_agg e = Ok r → expr_stmts r ⊆ expr_stmts e;
  percentile_stmts e x r : percentile_cont e x = Ok r → expr_stmts r ⊆ expr_stmts e;
  function_stmts fn l r : scalar_function fn l = Ok r → expr_stmts r ⊆ flat_map expr_stmts l;
  extract_stmts p e r : extract_part p e = Ok r → expr_stmts r ⊆ expr_stmts e;
  now_stmts k : expr_stmts (current_timestamp k) = [];
  date_add_stmts e u n r : date_add e u n = Ok r → expr_stmts r ⊆ expr_stmts e;
}.

(** Case analysis on everything a rendering inspects, down to the element it
    returns. *)
Ltac render :=
  intros; repeat match goal with
  | H : Raise _ = Ok _ |- _ => discriminate H
  | H : Ok _ = Ok _ |- _ => injection H as H; subst
  | H : context [match ?x with _ => _ end] |- _ => destruct x eqn:?; cbn in H
  | |- context [match ?x with _ => _ end] => destruct x eqn:?
  end; cbn; try done; try set_solver.

Section laws.

Lemma renamed_function_stmts c l s d round fn args r :
  (∀ r, round args = Ok r → expr_stmts r ⊆ flat_map expr_stmts args) →
  renamed_function c l s d round fn args = Ok r → expr_stmts r ⊆ flat_map expr_stmts args.
Proof.
  intros Hr. destruct fn; cbn; try done; try (destruct args; [done|]); try (intros [= <-]; cbn; set_solver);
    apply Hr.
Qed.

Lemma round_plain_stmts args r : round_plain args = Ok r → expr_stmts r ⊆ flat_map expr_stmts args.
Proof. unfold round_plain. render. Qed.

Lemma compound_no_all_exact d op all_rows l r :
  compound_no_all d op all_rows l = Ok r → r = RelCompound op all_rows l.
Proof. unfold compound_no_all, compound, unsupported. render. Qed.

Lemma order_without_nulls_exact dialect e d n ts :
  order_terms_without_nulls dialect e d n = Ok ts → ts = [EOrder e d n].
Proof. unfold order_terms_without_nulls, unsupported. render. Qed.

#[local] Hint Resolve compound_no_all_exact order_without_nulls_exact round_plain_stmts : core.

(** The laws of one adapter: its own definitions, then [render]. *)
Ltac laws_of :=
  split; cbn; unfold order_terms_with_nulls, compound, pg_extract_part, pg_date_add,
    pg_column_mask, ms_date_bucket, ms_window_frame, ms_extract_part, ms_column_mask,
    sqlite_date_bucket, sqlite_extract_part, sqlite_date_add, sqlite_column_mask,
    my_date_bucket, my_extract_part, my_column_mask, sf_date_bucket, sf_extract_part,
    bq_date_bucket, bq_date_add, bq_kind_or_raise, bq_extract_part, bq_column_mask,
    pg_interval_position, bucket_mask, lit_opt_int, lit_float, ok_or, unsupported, frame_kwargs in *; eauto;
  try (intros fn l r; apply renamed_function_stmts; eauto); render.

#[export] Instance postgres_laws : DialectLaws postgres_adapter.
Proof. laws_of. Qed.

#[export] Instance mssql_laws : DialectLaws mssql_adapter.
Proof. laws_of. Qed.

#[export] Instance sqlite_laws : DialectLaws sqlite_adapter.
Proof. laws_of. Qed.

#[export] Instance mysql_laws : DialectLaws mysql_adapter.
Proof. laws_of. Qed.

#[export] Instance snowflake_laws : DialectLaws snowflake_adapter.
Proof. laws_of. Qed.

#[export] Instance bigquery_laws sa_type : DialectLaws (bigquery_adapter sa_type).
Proof. laws_of. Qed.
End laws.

#[export] Instance get_dialect_adapter_laws sa_type dialect :
  DialectLaws (get_dialect_adapter sa_type dialect).
Proof. unfold get_dialect_adapter. repeat case_bool_decide; apply _. Qed.

(** * Dates mean the same everywhere *)

(** The documented day-of-week functions of the six dialects, on a day that is
    [dow] counted from Sunday = 0, under SQL Server's [DATEFIRST] setting. *)
Definition native_day (dow datefirst : Z) (e : SaExpr) : option Z :=
  match e with
  | EExtract field _ =>
      if String.eqb field "dow" then Some dow                      (* Postgres *)
      else if String.eqb field "dayofweek" then Some (dow + 1)     (* BigQuery *)
      else None
  | ELiteralColumn text => if String.eqb text "@@DATEFIRST" then Some datefirst else None
  | EFunc fn args =>
      if String.eqb fn "DATEPART" then Some ((dow - datefirst) mod 7 + 1)  (* SQL Server *)
      else if String.eqb fn "dayofweek" then Some (dow + 1)                (* MySQL *)
      else if String.eqb fn "dayofweekiso" then Some (if dow =? 0 then 7 else dow)  (* Snowflake *)
      else if String.eqb fn "strftime" then Some dow                       (* SQLite, '%w' *)
      else None
  | _ => None
  end.

(** Integer arithmetic over native values; the modulus keeps the sign of its
    left operand, as SQL's does. *)
Fixpoint eval_int (native : SaExpr → option Z) (e : SaExpr) : option Z :=
  match e with
  | ELiteral (JInt n) => Some n
  | EBinary BopAdd l r => x ← eval_int native l; y ← eval_int native r; Some (x + y)
  | EBinary BopSub l r => x ← eval_int native l; y ← eval_int native r; Some (x - y)
  | EMod l r => x ← eval_int native l; y ← eval_int native r; Some (Z.rem x y)
  | ECast x SaInteger => eval_int native x
  | EFunc fn [x] =>
      if String.eqb fn "floor" then eval_int native x else native e
  | _ => native e
  end.

(** [dayofweek] is one number on every dialect: whatever dialect is asked
    for, the part is rendered, and what it evaluates to under that dialect's
    documented function, and any [DATEFIRST], counts days from Sunday = 0. *)
Theorem dayofweek_agrees sa_type dialect x dow datefirst :
  0 ≤ dow < 7 → 1 ≤ datefirst ≤ 7 →
  ∃ e, @extract_part (get_dialect_adapter sa_type dialect) PartDayofweek x = Ok e
    ∧ eval_int (native_day dow datefirst) e = Some dow.
Proof.
  intros Hd Hf. unfold get_dialect_adapter.
  repeat case_bool_decide; (eexists; split; [reflexivity|]); cbn; try done.
  - f_equal. rewrite Z.rem_mod_nonneg by (pose proof (Z.mod_pos_bound (dow - datefirst) 7); lia).
    replace ((dow - datefirst) mod 7 + 1 + datefirst - 1)
      with ((dow - datefirst) mod 7 + datefirst) by lia.
    rewrite Zplus_mod_idemp_l. replace (dow - datefirst + datefirst) with dow by lia.
    by apply Z.mod_small.
  - f_equal. lia.
  - f_equal. destruct (Z.eqb_spec dow 0) as [->|]; [done|]. rewrite Z.rem_mod_nonneg by lia.
    by apply Z.mod_small.
  - f_equal. lia.
Qed.

Lemma dayofweek_agrees_witness :
  eval_int (native_day 6 1) (EMod (EBinary BopSub (EBinary BopAdd
      (EFunc "DATEPART" [ELiteralColumn "weekday"; EFunc "now" []]) (ELiteralColumn "@@DATEFIRST"))
      (lit_int 1)) (lit_int 7)) = Some 6.
Proof.
  destruct (dayofweek_agrees (λ _, None) "mssql" (EFunc "now" []) 6 1) as (e & He & H); [lia|lia|].
  vm_compute in He. injection He as <-. exact H.
Defined.

(** The calendar shift of [n] units, in months and seconds. *)
Definition unit_shift (u : IntervalUnit) (n : Z) : Z * Z :=
  match u with
  | UYear => (12 * n, 0) | UMonth => (n, 0) | UWeek => (0, 604800 * n) | UDay => (0, 86400 * n)
  | UHour => (0, 3600 * n) | UMinute => (0, 60 * n) | USecond => (0, n)
  end.

Definition keyword_unit (kw : string) : option IntervalUnit :=
  if String.eqb kw "year" || String.eqb kw "YEAR" then Some UYear
  else if String.eqb kw "month" || String.eqb kw "MONTH" then Some UMonth
  else if String.eqb kw "week" || String.eqb kw "WEEK" then Some UWeek
  else if String.eqb kw "day" || String.eqb kw "DAY" then Some UDay
  else if String.eqb kw "hour" || String.eqb kw "HOUR" then Some UHour
  else if String.eqb kw "minute" || String.eqb kw "MINUTE" then Some UMinute
  else if String.eqb kw "second" || String.eqb kw "SECOND" then Some USecond
  else None.

(** The documented meaning of a rendered shift: [make_interval(y, mon, w, d, h,
    min, s)], [DATEADD(unit, n, x)], and a function of [x] and [INTERVAL n unit]. *)
Fixpoint shift_of (e : SaExpr) : option (SaExpr * (Z * Z)) :=
  match e with
  | EBinary BopAdd x (EFunc fn [ELiteral (JInt y); ELiteral (JInt mo); ELiteral (JInt w);
      ELiteral (JInt d); ELiteral (JInt h); ELiteral (JInt mi); ELiteral (JInt s)]) =>
      if String.eqb fn "make_interval"
      then Some (x, (12 * y + mo, 604800 * w + 86400 * d + 3600 * h + 60 * mi + s)) else None
  | EFunc fn args =>
      match args with
      | [x; interval] =>
          match interval with
          | EInterval n kw => u ← keyword_unit kw; Some (x, unit_shift u n)
          | _ => None
          end
      | [part; amount; x] =>
          match part, amount with
          | ELiteralColumn kw, ELiteral (JInt n) =>
              if String.eqb fn "DATEADD" || String.eqb fn "dateadd"
              then u ← keyword_unit kw; Some (x, unit_shift u n) else None
          | _, _ => None
          end
      | _ => None
      end
  | ECoerce x _ => shift_of x
  | _ => None
  end.

(** Shifting a date by [n] units is the same shift on every supported
    dialect: what a dialect accepts it renders as a shift of that very operand
    by that many months or seconds. *)
Theorem date_add_agrees sa_type dialect e u n r :
  dialect ∈ ["postgresql"; "mssql"; "mysql"; "snowflake"; "bigquery"] →
  @date_add (get_dialect_adapter sa_type dialect) e u n = Ok r →
  shift_of r = Some (e, unit_shift u n).
Proof.
  intros Hd. repeat (apply elem_of_cons in Hd as [->|Hd]); [..|by apply not_elem_of_nil in Hd];
    cbn.
  - intros [= <-]. destruct u; cbn; do 3 f_equal; lia.
  - intros [= <-]. by destruct u.
  - intros [= <-]. by destruct u.
  - intros [= <-]. by destruct u.
  - change (bq_date_add sa_type e u n = Ok r → shift_of r = Some (e, unit_shift u n)).
    unfold bq_date_add, bq_kind_or_raise, unsupported.
    destruct (bq_temporal_kind sa_type e) as [k|]; cbn; [|done].
    destruct (bq_unit_allowed k u); [|done]. intros [= <-]. by destruct u.
Qed.

Lemma date_add_agrees_witness :
  shift_of (EBinary BopAdd (EFunc "now" []) (EFunc "make_interval"
    [lit_int 0; lit_int 0; lit_int (-2); lit_int 0; lit_int 0; lit_int 0; lit_int 0]))
  = Some (EFunc "now" [], (0, -1209600)).
Proof.
  apply (date_add_agrees (λ _, None) "postgresql" (EFunc "now" []) UWeek (-2)).
  - left.
  - reflexivity.
Defined.
