(* ===== verification/Compiler.v ===== *)
(** The read compiler of [compiler/sqlalchemy_compiler.py], from one scope of
    an accepted query to one select: column and expression rendering, boolean
    trees, the select list with its masks, joins, mandatory row filters, and
    the k-anonymity floor. The dialect adapter is the interface of [Dialects];
    how nested queries are compiled is an argument here. *)
From S2P Require Export Dialects.
Local Open Scope Z_scope.

(** * Function tables *)

(** [_AGG_FNS]; [stddev] and [variance] are the adapter's. *)
Definition aggregate_fn `{DialectAdapter} (fn : AggregateFn) : result string :=
  match fn with
  | AggCount => Ok "count" | AggSum => Ok "sum" | AggAvg => Ok "avg" | AggMin => Ok "min"
  | AggMax => Ok "max"
  | AggStddev | AggVariance => stat_fn fn
  end.

(** [_CAST_TYPES]. *)
Definition cast_sa_type (c : CastType) : SaType :=
  match c with
  | CastText => SaUnicode | CastInteger => SaInteger | CastNumeric => SaNumeric
  | CastBoolean => SaBoolean | CastDate => SaDate | CastTimestamp => SaDateTime
  end.

(** The text of an enumeration member. *)
Definition aggregate_fn_text (fn : AggregateFn) : string :=
  match fn with
  | AggCount => "count" | AggSum => "sum" | AggAvg => "avg" | AggMin => "min" | AggMax => "max"
  | AggStddev => "stddev" | AggVariance => "variance"
  end.

(** [_SCALAR_FNS]. *)
Definition scalar_fn_name (fn : ScalarFn) : string :=
  match fn with
  | SfCoalesce => "coalesce" | SfLower => "lower" | SfUpper => "upper" | SfTrim => "trim"
  | SfConcat => "concat"
  end.

(** [_UNIVERSAL_EXPR_FNS]; the others are the adapter's. *)
Definition universal_expr_fn (fn : ExprFn) : option string :=
  match fn with
  | FnCoalesce => Some "coalesce" | FnLower => Some "lower" | FnUpper => Some "upper"
  | FnTrim => Some "trim" | FnConcat => Some "concat" | FnAbs => Some "abs"
  | FnFloor => Some "floor" | FnNullif => Some "nullif" | FnReplace => Some "replace"
  | FnCeil | FnRound | FnLength | FnSubstring => None
  end.

(** [_WINDOW_FNS]. *)
Definition window_fn_name (fn : WindowFn) : string :=
  match fn with
  | WSum => "sum" | WAvg => "avg" | WMin => "min" | WMax => "max" | WCount => "count"
  | WRowNumber => "row_number" | WRank => "rank" | WDenseRank => "dense_rank" | WNtile => "ntile"
  | WLag => "lag" | WLead => "lead" | WFirstValue => "first_value" | WLastValue => "last_value"
  end.

Definition scalar_json (s : scalar) : json :=
  match s with
  | LNone => JNull | LBool b => JBool b | LInt z => JInt z | LFloat f => JFloat f | LStr s => JStr s
  end.

(** [sa.null() if literal is None else sa.literal(literal)]. *)
Definition literal_expr (s : scalar) : SaExpr :=
  match s with LNone => ENull | _ => ELiteral (scalar_json s) end.

(** [col == value] and [col != value] on a Python value: SQLAlchemy renders a
    comparison with [None] as IS NULL and IS NOT NULL. *)
Definition sa_eq_value (col : SaExpr) (v : json) : SaExpr :=
  if json_is_none v then EIsNull col else ECompare OpEq col (ELiteral v).

Definition sa_neq_value (col : SaExpr) (v : json) : SaExpr :=
  if json_is_none v then EIsNotNull col else ECompare OpNeq col (ELiteral v).

(** * Columns and predicates *)

(** What a nested query needs: how one is compiled through this same path, and
    whether a value-set subquery may stand here ([allow_value_set_subquery]). *)
Record WhereCtx (Q : Type) := MkWhereCtx {
  wc_compile : Q → result sa_stmt;
  wc_allow_value_set : bool;
}.
Arguments MkWhereCtx {Q} _ _.
Arguments wc_compile {Q} _.
Arguments wc_allow_value_set {Q} _.

(** [_compile_in_subquery]. *)
Definition compile_in_subquery {Q} (ctx : option (WhereCtx Q)) (op : ReadCompareOp) (q : Q) :
  result sa_stmt :=
  match ctx with
  | None => Raise (QueryValidationError "IN (subquery) is only supported in a WHERE clause")
  | Some cx =>
      if in_ops op && negb (wc_allow_value_set cx)
      then Raise (QueryValidationError "IN (subquery) is only supported in a WHERE clause")
      else wc_compile cx q ≫= λ s, Ok (without_limit s)
  end.

(** [_compile_exists]. *)
Definition compile_exists {Q} (ctx : option (WhereCtx Q)) (op : ReadCompareOp) (q : Q) :
  result SaExpr :=
  match ctx with
  | None => Raise (QueryValidationError "EXISTS is only supported in a WHERE clause")
  | Some cx =>
      wc_compile cx q ≫= λ s,
      Ok (if bool_decide (op = OpNotExists) then ENot (EExists (without_limit s))
          else EExists (without_limit s))
  end.

Section compiler.
Context `{CF : CaseFold} `{DA : DialectAdapter}.

(** [_column]. *)
Definition compile_column (tables : sa_tables) (ref : string) : result SaExpr :=
  parse_column_ref ref ≫= λ '(t, c),
  table_by_name tables t ≫= λ f,
  resolve_column (from_columns f) c ≫= λ col, Ok (EColumn f col).

(** [_resolve_scalar_arg]. *)
Definition resolve_scalar_arg (tables : sa_tables) (arg : ScalarFunctionArg) : result SaExpr :=
  match arg with
  | ColArg ref => compile_column tables ref
  | LiteralArg l => Ok (ELiteral (scalar_json l))
  end.

(** The right-hand side of [_apply_predicate]: a column, an expression, or the
    literal itself. *)
Inductive operand := OpndExpr (e : SaExpr) | OpndValue (v : json).

Definition sa_eq (col : SaExpr) (v : operand) : SaExpr :=
  match v with OpndExpr e => ECompare OpEq col e | OpndValue j => sa_eq_value col j end.

Definition sa_neq (col : SaExpr) (v : operand) : SaExpr :=
  match v with OpndExpr e => ECompare OpNeq col e | OpndValue j => sa_neq_value col j end.

Definition sa_operand (v : operand) : SaExpr :=
  match v with OpndExpr e => e | OpndValue j => ELiteral j end.

(** [list(val)] and [val[0], val[1]]: a validated predicate carries a list. *)
Definition operand_items (v : operand) : result (list json) :=
  match v with
  | OpndValue (JList l) => Ok l
  | _ => Raise (ValueError "value is not a list")
  end.

Section predicate.
Context {E Q : Type} (compile_expr : E → result SaExpr).
Context (tables : sa_tables) (alias_map : dict SaExpr) (ctx : option (WhereCtx Q)).

(** The ladder over the operator at the end of [_apply_predicate]. *)
Definition apply_operator (op : ReadCompareOp) (col : SaExpr) (val : operand) : result SaExpr :=
  match op with
  | OpEq => Ok (sa_eq col val)
  | OpNeq => Ok (sa_neq col val)
  | OpLt | OpLte | OpGt | OpGte | OpLike => Ok (ECompare op col (sa_operand val))
  | OpIn => operand_items val ≫= λ l, Ok (EInValues col l)
  | OpNotIn => operand_items val ≫= λ l, Ok (ENot (EInValues col l))
  | OpBetween => operand_items val ≫= λ l,
      match l with
      | low :: high :: _ => Ok (EBetween col low high)
      | _ => Raise (ValueError "value has fewer than two items")
      end
  | OpIsNull => Ok (EIsNull col)
  | OpIsNotNull => Ok (EIsNotNull col)
  | OpExists | OpNotExists => Raise (QueryValidationError "Unsupported operator")
  end.

(** [_apply_predicate]. *)
Definition apply_predicate (col : SaExpr) (pred : Predicate E Q) : result SaExpr :=
  match pr_value_subquery pred with
  | Some q =>
      compile_in_subquery ctx (pr_op pred) q ≫= λ sub,
      match pr_op pred with
      | OpIn => Ok (EInSelect col sub)
      | OpNotIn => Ok (ENot (EInSelect col sub))
      | OpEq | OpNeq | OpLt | OpLte | OpGt | OpGte =>
          Ok (ECompare (pr_op pred) col (EScalarSelect sub))
      | _ => Raise (ValueError "not a scalar comparison")
      end
  | None =>
      match pr_value_col pred, pr_value_expr pred with
      | Some ref, _ => compile_column tables ref ≫= λ e, Ok (OpndExpr e)
      | None, Some e => compile_expr e ≫= λ e', Ok (OpndExpr e')
      | None, None => Ok (OpndValue (pr_value pred))
      end ≫= λ val, apply_operator (pr_op pred) col val
  end.

(** [_resolve_predicate_target]. *)
Definition resolve_predicate_target (pred : Predicate E Q) : result SaExpr :=
  match pr_expr pred, pr_col_fn pred, pr_col pred with
  | Some e, _, _ => compile_expr e
  | None, Some call, _ =>
      map_result (resolve_scalar_arg tables) (sfc_args call) ≫= λ args,
      Ok (EFunc (scalar_fn_name (sfc_fn call)) args)
  | None, None, Some ref =>
      if has_dot ref then compile_column tables ref
      else match dict_get ref alias_map with
           | Some e => Ok e
           | None => Raise (QueryValidationError "Unknown column or alias")
           end
  | None, None, None => Raise (ValueError "a predicate without a target")
  end.

(** The predicate branch of [_compile_where]. *)
Definition compile_predicate (pred : Predicate E Q) : result SaExpr :=
  if EXISTS_OPS (pr_op pred) then
    match pr_exists_subquery pred with
    | Some q => compile_exists ctx (pr_op pred) q
    | None => Raise (ValueError "an existence test without its subquery")
    end
  else resolve_predicate_target pred ≫= λ target, apply_predicate target pred.
End predicate.

(** The group branches of [_compile_where], over the rendering of a predicate. *)
Fixpoint compile_where_with {P} (leaf : P → result SaExpr) (node : WhereNode_ P) : result SaExpr :=
  match node with
  | WPredicate p => leaf p
  | WhereGroup and_terms or_terms not_terms =>
      match not_terms with
      | Some c => compile_where_with leaf c ≫= λ e, Ok (ENot e)
      | None =>
          match and_terms with
          | Some (c :: cs) =>
              compile_where_with leaf c ≫= λ e,
              map_result (compile_where_with leaf) cs ≫= λ es, Ok (EAnd (e :: es))
          | _ =>
              match or_terms with
              | Some cs => map_result (compile_where_with leaf) cs
              | None => Ok []
              end ≫= λ es, Ok (if is_some and_terms then EAnd es else EOr es)
          end
      end
  end.

(** [_compile_expression] and [_compile_window]: a CASE condition is compiled
    with no alias map and no context. *)
Fixpoint compile_expression {Q} (tables : sa_tables) (e : Expression_ Q) : result SaExpr :=
  match e with
  | ColumnExpr ref => compile_column tables ref
  | LiteralExpr l => Ok (literal_expr l)
  | BinaryOpExpr op l r =>
      compile_expression tables l ≫= λ l',
      compile_expression tables r ≫= λ r',
      Ok (match op with
          | BopDiv => EBinary BopDiv l' (EFunc "nullif" [r'; ELiteral (JInt 0)])
          | _ => EBinary op l' r'
          end)
  | FunctionExpr fn args =>
      map_result (compile_expression tables) args ≫= λ args',
      match universal_expr_fn fn with
      | Some name => Ok (EFunc name args')
      | None => scalar_function fn args'
      end
  | CastExpr x to => compile_expression tables x ≫= λ x', Ok (ECast x' (cast_sa_type to))
  | ExtractExpr x part => compile_expression tables x ≫= λ x', extract_part part x'
  | NowExpr kind => Ok (current_timestamp kind)
  | DateAddExpr x unit amount => compile_expression tables x ≫= λ x', date_add x' unit amount
  | CaseExpr when_ else_ =>
      map_result (λ b,
        compile_where_with (compile_predicate (compile_expression tables) tables [] None) (cw_when b)
          ≫= λ c, compile_expression tables (cw_then b) ≫= λ t, Ok (c, t)) when_ ≫= λ whens,
      match else_ with
      | Some x => compile_expression tables x ≫= λ x', Ok (ECase whens (Some x'))
      | None => Ok (ECase whens None)
      end
  | WindowExpr fn over arg off buckets =>
      match arg with
      | Some x => compile_expression tables x ≫= λ x', Ok [x']
      | None => Ok []
      end ≫= λ args,
      let args := args
        ++ match fn, buckets with WNtile, Some n => [ELiteral (JInt n)] | _, _ => [] end
        ++ match off with Some n => [ELiteral (JInt n)] | None => [] end in
      match ws_frame over with
      | Some f =>
          window_frame (wf_mode f) (sqlalchemy_bound (wf_start f)) (sqlalchemy_bound (wf_end f))
            ≫= λ fr, Ok (Some fr)
      | None => Ok None
      end ≫= λ frame,
      map_result (compile_column tables) (ws_partition_by over) ≫= λ parts,
      map_result (λ o, compile_column tables (ob_col o) ≫= λ c,
        order_by_terms c (ob_dir o) (ob_nulls o)) (ws_order_by over) ≫= λ orders,
      Ok (EOver (window_fn_name fn) args parts (concat orders) frame)
  end.

(** [_compile_where]. The nested queries of a tree may be of another type than
    those of its expressions, which are never compiled. *)
Definition compile_where {Q R} (tables : sa_tables) (alias_map : dict SaExpr)
  (ctx : option (WhereCtx R)) (node : WhereNode_ (Predicate (Expression_ Q) R)) : result SaExpr :=
  compile_where_with (compile_predicate (compile_expression tables) tables alias_map ctx) node.
End compiler.

(** * One scope *)

#[export] Instance float64_eq_dec : EqDecision float64.
Proof. unfold float64. solve_decision. Defined.

(** Structural equality of JSON values and filters: the code skips a filter
    OBJECT it has already applied to the occurrence; here two equal filters are
    one, and their clauses would be equal too. *)
Fixpoint json_eqb (a b : json) : bool :=
  match a, b with
  | JNull, JNull => true
  | JBool x, JBool y => eqb x y
  | JInt x, JInt y => Z.eqb x y
  | JFloat x, JFloat y => bool_decide (x = y)
  | JStr x, JStr y => String.eqb x y
  | JList l, JList k => (fix go l k := match l, k with
      | [], [] => true | x :: l, y :: k => json_eqb x y && go l k | _, _ => false end) l k
  | JObj l, JObj k => (fix go l k := match l, k with
      | [], [] => true
      | (n, x) :: l, (m, y) :: k => String.eqb n m && json_eqb x y && go l k
      | _, _ => false end) l k
  | _, _ => false
  end.

Definition row_filter_eqb (f g : MandatoryRowFilter) : bool :=
  String.eqb (rf_table f) (rf_table g) && String.eqb (rf_column f) (rf_column g)
  && json_eqb (rf_value f) (rf_value g) && bool_decide (rf_from_claim f = rf_from_claim g).

(** What [_compile_scope_body] is given besides the query and its tables: the
    policy and principal, the primary connection, the resolver, this scope's
    own table-to-connection map, and the folded cte names. *)
Record CompileEnv := MkCompileEnv {
  ce_policy : Policy;
  ce_principal : option Principal;
  ce_connection_id : option string;
  ce_resolver : ConnectionResolver;
  ce_table_connection : dict string;
  ce_cte_names : gset string;
}.

Section scope_body.
Context `{CF : CaseFold} `{DA : DialectAdapter}.

(** [resolve_table_policies(table_connection.get(name, connection_id), ...)]. *)
Definition candidate_policies (env : CompileEnv) (name : string) : result (list Policy) :=
  match dict_get (casefold name) (ce_table_connection env) with
  | None => Ok [ce_policy env]
  | Some cx =>
      match ce_connection_id env with
      | Some primary =>
          resolve_table_policies (ce_resolver env) cx primary (ce_policy env) (ce_principal env)
      | None => ce_resolver env cx (ce_principal env) ≫= λ '(_, other), Ok [ce_policy env; other]
      end
  end.

(** [_mask_for_select_ref]. *)
Definition mask_for_select_ref (env : CompileEnv) (name_to_physical : dict string) (ref : string) :
  result (option ColumnMask) :=
  parse_column_ref ref ≫= λ '(t, c),
  candidate_policies env t ≫= λ candidates,
  Ok (column_mask_anywhere (physical_of name_to_physical t) c candidates).

(** ** The select list *)

(** One item of [_build_select_columns]: the output element and the names it is
    entered under. *)
Definition labelled (e : SaExpr) (alias : string) : result (SaExpr * list string) :=
  Ok (ELabel alias e, [alias]).

(** [col.name] of a resolved column element. *)
Definition element_name (e : SaExpr) : string :=
  match e with EColumn _ c => col_name c | _ => EmptyString end.

Definition compile_bare_item (env : CompileEnv) (tables : sa_tables) (name_to_physical : dict string)
  (ref : string) : result (SaExpr * list string) :=
  compile_column tables ref ≫= λ col,
  mask_for_select_ref env name_to_physical ref ≫= λ mask,
  match mask with
  | Some m =>
      column_mask_expr col m ≫= λ e, Ok (ELabel (element_name col) e, [element_name col; ref])
  | None => Ok (col, [element_name col; ref])
  end.

Definition first_column_arg (args : list ScalarFunctionArg) : option string :=
  head (flat_map (λ a, match a with ColArg c => [c] | LiteralArg _ => [] end) args).

(** The default alias of an aggregate: its argument is a bare column there. *)
Definition aggregate_default_alias (fn : AggregateFn) (arg : option Expression) : result string :=
  match arg with
  | None => Ok (aggregate_fn_text fn +:+ "_all")
  | Some (ColumnExpr ref) =>
      parse_column_ref ref ≫= λ '(_, c), Ok (aggregate_fn_text fn +:+ "_" +:+ c)
  | Some _ => Raise (ValueError "a computed aggregate without an alias")
  end.

Definition alias_or (alias : option string) (default_ : result string) : result string :=
  match alias with
  | Some a => if str_empty a then default_ else Ok a
  | None => default_
  end.

Definition compile_select_item (env : CompileEnv) (tables : sa_tables)
  (name_to_physical : dict string) (item : SelectItem) : result (SaExpr * list string) :=
  match item with
  | ColumnItem ref => compile_bare_item env tables name_to_physical ref
  | DateBucketSelectItem ref g alias =>
      compile_column tables ref ≫= λ col,
      date_bucket col g ≫= λ e,
      labelled e (str_or alias ("bucket_" +:+ element_name col +:+ "_" +:+ granularity_text g))
  | ScalarFunctionSelectItem call alias =>
      map_result (resolve_scalar_arg tables) (sfc_args call) ≫= λ args,
      alias_or alias
        match first_column_arg (sfc_args call) with
        | Some ref => parse_column_ref ref ≫= λ '(_, c),
            Ok (scalar_fn_name (sfc_fn call) +:+ "_" +:+ c)
        | None => Ok (scalar_fn_name (sfc_fn call) +:+ "_result")
        end ≫= λ a,
      labelled (EFunc (scalar_fn_name (sfc_fn call)) args) a
  | StringAggSelectItem ref delimiter alias =>
      compile_column tables ref ≫= λ col, string_agg col delimiter ≫= λ e,
      labelled e (str_or alias ("string_agg_" +:+ element_name col))
  | ArrayAggSelectItem ref alias =>
      compile_column tables ref ≫= λ col, array_agg col ≫= λ e,
      labelled e (str_or alias ("array_agg_" +:+ element_name col))
  | PercentileContSelectItem ref fraction alias =>
      compile_column tables ref ≫= λ col, percentile_cont col fraction ≫= λ e,
      labelled e (str_or alias ("percentile_cont_" +:+ element_name col))
  | WindowSelectItem fn over arg off buckets alias =>
      compile_expression tables (window_as_expression fn over arg off buckets) ≫= λ e,
      labelled e alias
  | CaseSelectItem when_ else_ alias =>
      compile_expression tables (case_as_expression when_ else_) ≫= λ e, labelled e alias
  | ExpressionSelectItem x alias => compile_expression tables x ≫= λ e, labelled e alias
  | AggregateSelectItem fn _ arg dist alias =>
      match arg with
      | None =>
          if bool_decide (fn = AggCount) then Ok (EFunc "count" [])
          else Raise (QueryValidationError "Only count(*) is allowed as a star aggregate")
      | Some x => compile_expression tables x ≫= λ a,
          aggregate_fn fn ≫= λ name, Ok (EFunc name [if dist then EDistinct a else a])
      end ≫= λ e,
      alias_or alias (aggregate_default_alias fn arg) ≫= λ a, labelled e a
  end.

(** [_build_select_columns]: the columns in order, and the alias map. *)
Definition alias_entries (built : list (SaExpr * list string)) : dict SaExpr :=
  foldl (λ m be, foldl (λ m name, dict_set name be.1 m) m be.2) [] built.

Definition build_select_columns (env : CompileEnv) (tables : sa_tables)
  (name_to_physical : dict string) (q : StructuredQuery) : result (list SaExpr * dict SaExpr) :=
  map_result (compile_select_item env tables name_to_physical) (select q) ≫= λ built,
  Ok (built.*1, alias_entries built).

(** ** Joins *)

Definition compile_join_pair (tables : sa_tables) (pair : string * string) : result SaExpr :=
  parse_column_ref pair.1 ≫= λ '(lt, lc),
  parse_column_ref pair.2 ≫= λ '(rt, rc),
  table_by_name tables lt ≫= λ lf, resolve_column (from_columns lf) lc ≫= λ l,
  table_by_name tables rt ≫= λ rf, resolve_column (from_columns rf) rc ≫= λ r,
  Ok (ECompare OpEq (EColumn lf l) (EColumn rf r)).

(** [join.on] with [join.extra_on]; each extra pair is a two-element list. *)
Definition join_pairs (j : JoinSpec) : list (string * string) :=
  option_list (js_on j)
  ++ flat_map (λ l, match l with a :: b :: _ => [(a, b)] | _ => [] end) (js_extra_on j).

Definition join_key (j : JoinSpec) : string := str_or (js_alias j) (js_table j).

(** One turn of the join loop of [_compile_scope_body]. *)
Definition compile_join (tables : sa_tables) (j : JoinSpec) : result SaJoin :=
  table_by_name tables (join_key j) ≫= λ right,
  if bool_decide (js_type j = JoinCross) then Ok (MkSaJoin right ETrue false false)
  else
    match js_condition j with
    | Some cond => compile_where tables [] None cond
    | None =>
        map_result (compile_join_pair tables) (join_pairs j) ≫= λ conditions,
        match conditions with
        | [c] => Ok c
        | _ :: _ => Ok (EAnd conditions)
        | [] => Raise (ValueError "a join without a condition")
        end
    end ≫= λ condition,
    Ok (MkSaJoin right condition (bool_decide (js_type j = JoinLeft))
          (bool_decide (js_type j = JoinFull))).

(** ** Mandatory row filters *)

(** The declared occurrences of the scope: the FROM name, then each join's. *)
Definition declared_keys (q : StructuredQuery) : list string :=
  str_or (from_alias q) (from_table q) :: map join_key (joins q).

(** The filters one occurrence receives, the same filter once: every filter of
    every candidate policy that names the physical table. *)
Definition table_filters (physical : string) (candidates : list Policy) :
  list MandatoryRowFilter :=
  foldl (λ applied f,
    if bool_decide (casefold (rf_table f) = casefold physical)
       && negb (existsb (row_filter_eqb f) applied)
    then applied ++ [f] else applied)
    [] (flat_map (λ p, mandatory_row_filters (gates p)) candidates).

Definition compile_row_filter (env : CompileEnv) (tables : sa_tables) (key : string)
  (f : MandatoryRowFilter) : result SaExpr :=
  resolve_row_filter f (ce_principal env) ≫= λ value,
  table_by_name tables key ≫= λ table,
  resolve_column (from_columns table) (rf_column f) ≫= λ col,
  Ok (sa_eq_value (EColumn table col) value).

Definition filters_for_key (env : CompileEnv) (tables : sa_tables) (name_to_physical : dict string)
  (key : string) : result (list SaExpr) :=
  let physical := physical_of name_to_physical key in
  if bool_decide (casefold physical ∈ ce_cte_names env) then Ok []
  else
    candidate_policies env key ≫= λ candidates,
    map_result (compile_row_filter env tables key) (table_filters physical candidates).

(** [_apply_mandatory_row_filters]: the conjuncts it adds, in order. *)
Definition mandatory_filters (env : CompileEnv) (tables : sa_tables)
  (name_to_physical : dict string) (q : StructuredQuery) : result (list SaExpr) :=
  map_result (filters_for_key env tables name_to_physical) (declared_keys q) ≫= λ ls,
  Ok (concat ls).

Definition apply_mandatory_row_filters (env : CompileEnv) (tables : sa_tables)
  (name_to_physical : dict string) (q : StructuredQuery) (stmt : sa_select) : result sa_select :=
  mandatory_filters env tables name_to_physical q ≫= λ clauses,
  Ok (foldl (λ s w, with_where_clause w s) stmt clauses).

(** ** The k-anonymity floor *)

(** [_take]: the columns a pair pins, added to [bound]. *)
Definition take (joined : string) (bound : gset string) (left_ref right_ref : string) :
  result (gset string) :=
  parse_column_ref left_ref ≫= λ '(lt, lc),
  parse_column_ref right_ref ≫= λ '(rt, rc),
  Ok (if bool_decide (casefold lt = joined) && negb (bool_decide (casefold rt = joined))
      then {[ casefold lc ]} ∪ bound
      else if bool_decide (casefold rt = joined) && negb (bool_decide (casefold lt = joined))
      then {[ casefold rc ]} ∪ bound
      else bound).

Fixpoint take_all (joined : string) (bound : gset string) (pairs : list (string * string)) :
  result (gset string) :=
  match pairs with
  | [] => Ok bound
  | p :: rest => take joined bound p.1 p.2 ≫= λ b, take_all joined b rest
  end.

(** [_walk]: the pairs of the top-level conjuncts that are column equalities. *)
Definition equality_pair {Q} (p : Predicate_ Q) : list (string * string) :=
  match pr_op p, pr_col p, pr_value_col p with
  | OpEq, Some c, Some v => [(c, v)]
  | _, _, _ => []
  end.

Fixpoint conjunct_pairs {Q} (node : Where_ Q) : list (string * string) :=
  match node with
  | WPredicate p => equality_pair p
  | WhereGroup and_terms _ _ =>
      match and_terms with Some l => flat_map conjunct_pairs l | None => [] end
  end.

(** [_equality_bound_columns]. *)
Definition equality_bound_columns (j : JoinSpec) : result (option (gset string)) :=
  if bool_decide (js_type j = JoinCross) then Ok None
  else
    let joined := casefold (join_key j) in
    if is_some (js_on j) then take_all joined ∅ (join_pairs j) ≫= λ b, Ok (Some b)
    else match js_condition j with
         | None => Ok None
         | Some cond => take_all joined ∅ (conjunct_pairs cond) ≫= λ b, Ok (Some b)
         end.

(** [_unique_column_sets]: primary key, unique constraints, unique indexes of
    the table under any aliases; a computed stage declares none. *)
Definition folded_set (names : list string) : gset string := list_to_set (map casefold names).

Definition unique_lists (l : list (bool * list string)) : list (gset string) :=
  map (λ e : bool * list string, folded_set e.2)
    (filter (λ e : bool * list string, e.1 && negb (length e.2 =? 0)%nat) l).

Fixpoint unique_column_sets (source : SaFrom) : list (gset string) :=
  match source with
  | FromTable t =>
      let pk := folded_set (map col_name (filter (λ c, col_primary_key c) (st_columns t))) in
      (if bool_decide (pk = ∅) then [] else [pk])
      ++ unique_lists (st_constraints t) ++ unique_lists (st_indexes t)
  | FromAlias _ element => unique_column_sets element
  | FromComputed _ _ => []
  end.

(** [_join_can_fan_out]. *)
Definition join_can_fan_out (tables : sa_tables) (j : JoinSpec) : result bool :=
  equality_bound_columns j ≫= λ bound,
  match bound with
  | None => Ok true
  | Some b =>
      table_by_name tables (join_key j) ≫= λ table,
      Ok (negb (existsb (λ u, bool_decide (u ⊆ b)) (unique_column_sets table)))
  end.

(** [count() >= k], refused when some join can multiply rows. *)
Definition count_floor (k : Z) : SaExpr :=
  ECompare OpGte (EFunc "count" []) (ELiteral (JInt k)).

Definition apply_group_floor (env : CompileEnv) (tables : sa_tables) (q : StructuredQuery)
  (stmt : sa_select) : result sa_select :=
  match min_group_size (windows (ce_policy env)) with
  | Some k =>
      if is_aggregate_scope q then
        map_result (join_can_fan_out tables) (joins q) ≫= λ fanning,
        if existsb (λ b, b) fanning
        then Raise (PolicyViolationError "join can match more than one row, which would inflate the count that min_group_size floors")
        else Ok (with_having_clause (count_floor k) stmt)
      else Ok stmt
  | None => Ok stmt
  end.

(** ** The whole scope *)

(** The nested queries of a WHERE or HAVING tree, each replaced by [f] of its
    place in the walk order of the scope and itself. *)
Definition number_predicate {E Q R} (f : nat → Q → R) (n : nat) (p : Predicate E Q) :
  Predicate E R :=
  MkPredicate (pr_col p) (pr_expr p) (pr_col_fn p) (pr_op p) (pr_value p) (pr_value_col p)
    (pr_value_expr p) (f n <$> pr_value_subquery p)
    (f (n + length (option_list (pr_value_subquery p)))%nat <$> pr_exists_subquery p).

Definition tree_subqueries {E Q} (w : WhereNode_ (Predicate E Q)) : list Q :=
  where_flat_map predicate_subqueries w.

Fixpoint number_where {E Q R} (f : nat → Q → R) (n : nat) (w : WhereNode_ (Predicate E Q)) :
  WhereNode_ (Predicate E R) :=
  match w with
  | WPredicate p => WPredicate (number_predicate f n p)
  | WhereGroup and_terms or_terms not_terms =>
      let number := fix number (n : nat) (l : list (WhereNode_ (Predicate E Q))) :=
        match l with
        | [] => []
        | c :: cs => number_where f n c :: number (n + length (tree_subqueries c))%nat cs
        end in
      WhereGroup (number n <$> and_terms) (number n <$> or_terms) (number_where f n <$> not_terms)
  end.

(** [_resolve_output_ref]. *)
Definition resolve_output_ref (tables : sa_tables) (alias_map : dict SaExpr)
  (allow_table_fallback : bool) (ref : string) : result SaExpr :=
  match dict_get ref alias_map with
  | Some e => Ok e
  | None =>
      if allow_table_fallback && has_dot ref then compile_column tables ref
      else Raise (QueryValidationError "Unknown column or alias")
  end.

(** [_compile_scope_body], on tables whose cte references are already bound to
    their blocks; [compile_sub i] compiles the [i]-th nested query of the scope,
    WHERE first, and is consulted only where the code compiles one. *)
Definition compile_scope_body (env : CompileEnv) (compile_sub : nat → StructuredQuery → result sa_stmt)
  (tables : sa_tables) (q : StructuredQuery) : result (sa_select * dict SaExpr * bool) :=
  let name_to_physical := effective_name_map q in
  build_select_columns env tables name_to_physical q ≫= λ '(cols, alias_map),
  table_by_name tables (str_or (from_alias q) (from_table q)) ≫= λ base,
  map_result (compile_join tables) (joins q) ≫= λ js,
  let stmt := MkSaSelect cols base (distinct q) js [] [] [] in
  apply_mandatory_row_filters env tables name_to_physical q stmt ≫= λ stmt,
  match where_ q with
  | Some w => compile_where tables [] (Some (MkWhereCtx (λ r, r) true)) (number_where compile_sub 0 w) ≫= λ e,
      Ok (with_where_clause e stmt)
  | None => Ok stmt
  end ≫= λ stmt,
  map_result (resolve_output_ref tables alias_map true) (group_by q) ≫= λ groups,
  let stmt := with_group_clause groups stmt in
  match having q with
  | Some w => compile_where tables alias_map (Some (MkWhereCtx (λ r, r) false))
                (number_where compile_sub (length (option_flat_map tree_subqueries (where_ q))) w) ≫= λ e,
      Ok (with_having_clause e stmt)
  | None => Ok stmt
  end ≫= λ stmt,
  apply_group_floor env tables q stmt ≫= λ stmt,
  Ok (stmt, alias_map, is_aggregate_scope q).

(** ** Limits and the reported masks *)

(** [clamp_limit]. *)
Definition clamp_limit (requested : option Z) (p : Policy) (is_aggregate : bool) : result Z :=
  let max_limit_ := if is_aggregate then max_limit_aggregate (caps p) else max_limit (caps p) in
  let limit := default (default_limit (caps p)) requested in
  if limit <? 1 then Raise (QueryValidationError "limit must be >= 1")
  else Ok (Z.min limit max_limit_).

(** [_projection_output_name]. *)
Definition projection_output_name (item : SelectItem) : result (option string) :=
  match item with
  | ColumnItem ref => parse_column_ref ref ≫= λ '(_, c), Ok (Some c)
  | AggregateSelectItem _ _ _ _ a | DateBucketSelectItem _ _ a | StringAggSelectItem _ _ a
  | ArrayAggSelectItem _ a | PercentileContSelectItem _ _ a | ScalarFunctionSelectItem _ a => Ok a
  | CaseSelectItem _ _ a | ExpressionSelectItem _ a | WindowSelectItem _ _ _ _ _ a => Ok (Some a)
  end.

(** One item of one arm in [applied_column_masks]. *)
Definition masked_name (env : CompileEnv) (name_to_physical : dict string)
  (output_names : list (option string)) (index : nat) (item : SelectItem) :
  result (option string) :=
  match item with
  | ColumnItem ref =>
      mask_for_select_ref env name_to_physical ref ≫= λ mask,
      match mask with
      | None => Ok None
      | Some _ =>
          match output_names !! index with
          | None => Raise (ValueError "list index out of range")
          | Some (Some n) => if str_empty n then parse_column_ref ref ≫= λ '(_, c), Ok (Some c)
                             else Ok (Some n)
          | Some None => parse_column_ref ref ≫= λ '(_, c), Ok (Some c)
          end
      end
  | _ => Ok None
  end.

Definition append_new (masked : list string) (n : option string) : list string :=
  match n with
  | Some c => if bool_decide (c ∈ masked) then masked else masked ++ [c]
  | None => masked
  end.

(** [applied_column_masks]; [arm_connections] is [scope_connections] at the arms,
    by their position. *)
Definition applied_column_masks (env : CompileEnv)
  (arm_connections : nat → dict string) (q : StructuredQuery) : result (list string) :=
  map_result projection_output_name (select q) ≫= λ output_names,
  map_result (λ ai : nat * StructuredQuery,
    let arm := ai.2 in
    let arm_env := MkCompileEnv (ce_policy env) (ce_principal env) (ce_connection_id env)
                     (ce_resolver env) (arm_connections ai.1) (ce_cte_names env) in
    map_result (λ ii : nat * SelectItem,
      masked_name arm_env (effective_name_map arm) output_names ii.1 ii.2)
      (imap pair (select arm))) (imap pair (iter_set_op_arms q)) ≫= λ names,
  Ok (foldl append_new [] (concat names)).
End scope_body.

(** * Helper lemmas *)

Lemma json_eqb_true : ∀ a b, json_eqb a b = true → a = b.
Proof.
  fix IH 1. intros [|x|x|x|x|l|l] [|y|y|y|y|k|k]; cbn; try done.
  - by intros ->%eqb_prop.
  - by intros ->%Z.eqb_eq.
  - by intros ->%bool_decide_eq_true.
  - by intros ->%String.eqb_eq.
  - intros H. f_equal. revert k H. induction l as [|x l IHl]; intros [|y k] H; try done.
    apply andb_true_iff in H as [Hx H]. f_equal; [by apply IH|by apply IHl].
  - intros H. f_equal. revert k H. induction l as [|[n x] l IHl]; intros [|[m y] k] H; try done.
    apply andb_true_iff in H as [[Hn%String.eqb_eq Hx]%andb_true_iff H].
    f_equal; [f_equal; [done|by apply IH]|by apply IHl].
Qed.

Lemma row_filter_eqb_true f g : row_filter_eqb f g = true → f = g.
Proof.
  destruct f, g. unfold row_filter_eqb; cbn. rewrite !andb_true_iff.
  intros [[[H1%String.eqb_eq H2%String.eqb_eq] H3%json_eqb_true] H4%bool_decide_eq_true]. congruence.
Qed.

Section compiler_facts.
Context `{CF : CaseFold} `{DA : DialectAdapter}.

(** ** Mandatory row filters *)

Lemma table_filters_complete physical candidates p f :
  p ∈ candidates → f ∈ mandatory_row_filters (gates p) →
  casefold (rf_table f) = casefold physical → f ∈ table_filters physical candidates.
Proof.
  intros Hp Hf Ht. unfold table_filters.
  assert (Hin : f ∈ flat_map (λ p, mandatory_row_filters (gates p)) candidates)
    by (apply elem_of_flat_map; eauto). clear Hp Hf.
  revert Hin. generalize (flat_map (λ p, mandatory_row_filters (gates p)) candidates) as l.
  set (step := λ applied g, if bool_decide (casefold (rf_table g) = casefold physical)
       && negb (existsb (row_filter_eqb g) applied) then applied ++ [g] else applied).
  assert (Hmono : ∀ l acc, f ∈ acc → f ∈ foldl step acc l).
  { induction l as [|g l IH]; cbn; intros acc Hacc; [done|]. apply IH. unfold step.
    destruct (_ && _); set_solver. }
  intros l. generalize (@nil MandatoryRowFilter) as acc.
  induction l as [|g l IH]; intros acc; cbn; [by intros ?%not_elem_of_nil|].
  intros [<-|Hin]%elem_of_cons; [|by apply IH]. apply Hmono. unfold step.
  rewrite bool_decide_true by done. cbn.
  destruct (existsb (row_filter_eqb f) acc) eqn:E; cbn; [|set_solver].
  apply existsb_elem in E as (h & Hh & ->%row_filter_eqb_true). done.
Qed.

Lemma foldl_with_where ws : ∀ s,
  ss_where (foldl (λ s w, with_where_clause w s) s ws) = ss_where s ++ ws
  ∧ ss_from (foldl (λ s w, with_where_clause w s) s ws) = ss_from s
  ∧ ss_joins (foldl (λ s w, with_where_clause w s) s ws) = ss_joins s
  ∧ ss_having (foldl (λ s w, with_where_clause w s) s ws) = ss_having s.
Proof.
  induction ws as [|w ws IH]; cbn; intros s; [by rewrite app_nil_r|].
  destruct (IH (with_where_clause w s)) as (-> & -> & -> & ->). cbn.
  by rewrite <-app_assoc.
Qed.

(** What a compiled scope is made of: where each part of it comes from. *)
Record scope_compiled (env : CompileEnv) (compile_sub : nat → StructuredQuery → result sa_stmt)
  (tables : sa_tables) (q : StructuredQuery) (stmt : sa_select) : Prop := {
  scd_columns : ∃ am, build_select_columns env tables (effective_name_map q) q = Ok (ss_columns stmt, am);
  scd_from : table_by_name tables (str_or (from_alias q) (from_table q)) = Ok (ss_from stmt);
  scd_joins : map_result (compile_join tables) (joins q) = Ok (ss_joins stmt);
  scd_filters : ∃ clauses, mandatory_filters env tables (effective_name_map q) q = Ok clauses
    ∧ ∀ w, w ∈ clauses → w ∈ ss_where stmt;
  scd_where w : where_ q = Some w → ∃ e,
    compile_where tables [] (Some (MkWhereCtx (λ r, r) true)) (number_where compile_sub 0 w) = Ok e
    ∧ e ∈ ss_where stmt;
  scd_floor k : min_group_size (windows (ce_policy env)) = Some k → is_aggregate_scope q = true →
    count_floor k ∈ ss_having stmt
    ∧ ∀ j, j ∈ joins q → join_can_fan_out tables j = Ok false;
}.

Lemma apply_group_floor_ok env tables q s s' :
  apply_group_floor env tables q s = Ok s' →
  ss_columns s' = ss_columns s ∧ ss_from s' = ss_from s ∧ ss_joins s' = ss_joins s
  ∧ ss_where s' = ss_where s
  ∧ ∀ k, min_group_size (windows (ce_policy env)) = Some k → is_aggregate_scope q = true →
      count_floor k ∈ ss_having s' ∧ ∀ j, j ∈ joins q → join_can_fan_out tables j = Ok false.
Proof.
  unfold apply_group_floor. destruct (min_group_size _) as [k|] eqn:Ek; [|by intros [= <-]].
  destruct (is_aggregate_scope q); [|by intros [= <-]].
  intros (fs & Hfs & H)%bind_ok. destruct (existsb _ fs) eqn:E; [done|]. injection H as <-.
  split_and!; [done..|]. intros k' [= ->] _. split; [cbn; set_solver|].
  intros j Hj. apply map_result_ok in Hfs. rewrite existsb_not_elem in E.
  apply list_elem_of_lookup in Hj as [i Hi].
  destruct (Forall2_lookup_l _ _ _ _ _ Hfs Hi) as (b & Hb & ->).
  by rewrite (E b) by by eapply list_elem_of_lookup_2.
Qed.

Lemma compile_scope_body_ok env sub tables q stmt am agg :
  compile_scope_body env sub tables q = Ok (stmt, am, agg) → scope_compiled env sub tables q stmt.
Proof.
  unfold compile_scope_body. intros ([cols m] & Hcols & H)%bind_ok.
  apply bind_ok in H as (base & Hbase & H). apply bind_ok in H as (js & Hjs & H).
  apply bind_ok in H as (s1 & Hs1 & H). unfold apply_mandatory_row_filters in Hs1.
  apply bind_ok in Hs1 as (clauses & Hcl & [= <-]).
  destruct (foldl_with_where clauses (MkSaSelect cols base (distinct q) js [] [] []))
    as (Hw1 & Hf1 & Hj1 & _).
  assert (Hc1 : ∀ ws s, ss_columns (foldl (λ s w, with_where_clause w s) s ws) = ss_columns s).
  { induction ws as [|w ws IH]; cbn; intros s; [done|]. by rewrite IH. }
  specialize (Hc1 clauses (MkSaSelect cols base (distinct q) js [] [] [])).
  remember (foldl _ _ _) as s1 eqn:Es1. clear Es1. cbn in Hw1, Hf1, Hj1, Hc1.
  apply bind_ok in H as (s2 & Hs2 & H).
  assert (H2 : ss_columns s2 = cols ∧ ss_from s2 = base ∧ ss_joins s2 = js
    ∧ (∀ w, w ∈ clauses → w ∈ ss_where s2)
    ∧ ∀ w, where_ q = Some w → ∃ e,
        compile_where tables [] (Some (MkWhereCtx (λ r, r) true)) (number_where sub 0 w) = Ok e ∧ e ∈ ss_where s2).
  { destruct (where_ q) as [w|].
    - apply bind_ok in Hs2 as (e & He & [= <-]). cbn. rewrite Hw1. split_and!; [done..|set_solver|].
      intros w' [= <-]. exists e. set_solver.
    - injection Hs2 as <-. rewrite Hw1. by split_and!. }
  clear Hs2. destruct H2 as (Hc2 & Hf2 & Hj2 & Hcl2 & Hw2).
  apply bind_ok in H as (groups & _ & H). apply bind_ok in H as (s3 & Hs3 & H).
  assert (H3 : ss_columns s3 = cols ∧ ss_from s3 = base ∧ ss_joins s3 = js ∧ ss_where s3 = ss_where s2).
  { destruct (having q); [apply bind_ok in Hs3 as (? & _ & [= <-])|injection Hs3 as <-]; done. }
  destruct H3 as (Hc3 & Hf3 & Hj3 & Hw3). apply bind_ok in H as (s4 & Hs4 & [= <- <- <-]).
  apply apply_group_floor_ok in Hs4 as (Hc4 & Hf4 & Hj4 & Hw4 & Hfl).
  split; [exists m; congruence|congruence|congruence| | |done].
  - exists clauses. rewrite Hw4, Hw3. by split.
  - intros w Hw. rewrite Hw4, Hw3. by apply Hw2.
Qed.

Lemma declared_key_element env sub tables q stmt key :
  scope_compiled env sub tables q stmt → key ∈ declared_keys q → ∃ table,
    table_by_name tables key = Ok table
    ∧ (table = ss_from stmt ∨ ∃ j, j ∈ ss_joins stmt ∧ sj_right j = table).
Proof.
  intros H [->|Hk]%elem_of_cons.
  { exists (ss_from stmt). split; [apply H|by left]. }
  apply elem_of_map in Hk as (j & -> & Hj). pose proof (scd_joins _ _ _ _ _ H) as Hjs.
  apply map_result_ok in Hjs. apply list_elem_of_lookup in Hj as [i Hi].
  destruct (Forall2_lookup_l _ _ _ _ _ Hjs Hi) as (sj & Hsj & Hc).
  unfold compile_join in Hc. apply bind_ok in Hc as (table & Ht & Hc). exists table.
  split; [done|right]. exists sj. split; [by eapply list_elem_of_lookup_2|].
  case_bool_decide; [by injection Hc as <-|]. by apply bind_ok in Hc as (? & _ & [= <-]).
Qed.

Lemma selected_rows_pass `{SV : SqlValues} cx stmt r w :
  r ∈ selected_rows cx stmt → w ∈ ss_where stmt → passes cx w r = true.
Proof.
  unfold selected_rows. rewrite elem_of_filter_bool, forallb_elem. intros [H _]. apply H.
Qed.
End compiler_facts.

(** ** Boolean trees *)

Section where_facts.
Context `{CF : CaseFold} `{DA : DialectAdapter} `{SV : SqlValues}.

(** What a tree means, over what each predicate means. *)
Fixpoint where_truth {P} (leaf : P → tri) (node : WhereNode_ P) : tri :=
  match node with
  | WPredicate p => leaf p
  | WhereGroup a o n =>
      match n with
      | Some c => tri_not (where_truth leaf c)
      | None =>
          match a with
          | Some (c :: cs) => tri_and (where_truth leaf c) (tri_all (map (where_truth leaf) cs))
          | _ => match o with Some cs => tri_any (map (where_truth leaf) cs) | None => Some false end
          end
      end
  end.

(** The truth of a rendered predicate. *)
Definition rendered_truth {P} (cx : sql_context) (r : list (SaFrom * (string → sql_value)))
  (leaf : P → result SaExpr) (p : P) : tri :=
  match leaf p with Ok e => truth cx r e | Raise _ => None end.

(** No group carries an empty [and] list beside its [or]. *)
Definition no_empty_and {N} (a o : option (list N)) (n : option N) : bool :=
  match a with Some [] => false | _ => true end.

Lemma map_result_truth {P} cx r (leaf : P → result SaExpr) (l : list (WhereNode_ P)) es :
  (∀ c e, c ∈ l → compile_where_with leaf c = Ok e →
     truth cx r e = where_truth (rendered_truth cx r leaf) c) →
  map_result (compile_where_with leaf) l = Ok es →
  map (truth cx r) es = map (where_truth (rendered_truth cx r leaf)) l.
Proof.
  intros H Hes. apply map_result_ok in Hes. induction Hes as [|c e l es Hc _ IH]; [done|].
  cbn. f_equal; [by apply H; [set_solver|]|]. apply IH. intros; apply H; set_solver.
Qed.

Lemma compile_where_with_truth {P} cx r (leaf : P → result SaExpr) w : ∀ e,
  where_forallb (λ _, true) no_empty_and w = true → compile_where_with leaf w = Ok e →
  truth cx r e = where_truth (rendered_truth cx r leaf) w.
Proof.
  induction w as [w IH] using where_ind_children. intros e Hw He.
  destruct w as [p|a o n]; [cbn; unfold rendered_truth; cbn in He; by rewrite He|].
  apply where_forallb_children in Hw as (Hg & Ha & Ho & Hn). cbn in He.
  destruct n as [c|].
  { apply bind_ok in He as (e' & He' & [= <-]). cbn. f_equal.
    apply IH; [cbn; set_solver|by apply Hn|done]. }
  destruct a as [[|c cs]|]; [done| |].
  - apply bind_ok in He as (e' & He' & He). apply bind_ok in He as (es & Hes & [= <-]).
    cbn. f_equal.
    + apply IH; [cbn; set_solver|eapply Ha; [done|set_solver]|done].
    + f_equal. eapply map_result_truth; [|exact Hes]. intros d e'' Hd. apply IH; [cbn; set_solver|].
      eapply Ha; [done|set_solver].
  - destruct o as [cs|]; cbn in He; [|by injection He as <-].
    apply bind_ok in He as (es & Hes & [= <-]). cbn. f_equal.
    eapply map_result_truth; [|exact Hes]. intros d e'' Hd. apply IH; [cbn; set_solver|].
    by eapply Ho.
Qed.
End where_facts.

(** ** Equality joins *)

Section join_facts.
Context `{CF : CaseFold} `{DA : DialectAdapter} `{SV : SqlValues}.

(** [c] is pinned by the pair: one side is column [c] of [joined], the other a
    column of another table. *)
Definition pins (joined : string) (pair : string * string) (c : string) : Prop :=
  ∃ lt lc rt rc, parse_column_ref pair.1 = Ok (lt, lc) ∧ parse_column_ref pair.2 = Ok (rt, rc)
    ∧ ((casefold lt = joined ∧ casefold rt ≠ joined ∧ c = casefold lc)
       ∨ (casefold rt = joined ∧ casefold lt ≠ joined ∧ c = casefold rc)).

Lemma take_all_pins joined pairs : ∀ bound b c,
  take_all joined bound pairs = Ok b → c ∈ b → c ∈ bound ∨ ∃ pair, pair ∈ pairs ∧ pins joined pair c.
Proof.
  induction pairs as [|[l r] pairs IH]; cbn; intros bound b c Hb Hc; [by injection Hb as ->; left|].
  apply bind_ok in Hb as (b1 & Hb1 & Hb).
  destruct (IH b1 b c Hb Hc) as [Hin|(pair & ? & ?)]; [|right; exists pair; set_solver].
  unfold take in Hb1. cbn in Hb1. apply bind_ok in Hb1 as ([lt lc] & Hl & Hb1).
  apply bind_ok in Hb1 as ([rt rc] & Hr & [= <-]).
  assert (Hpin : ((casefold lt = joined ∧ casefold rt ≠ joined ∧ c = casefold lc)
    ∨ (casefold rt = joined ∧ casefold lt ≠ joined ∧ c = casefold rc)) → 
    c ∈ bound ∨ ∃ pair, pair ∈ (l, r) :: pairs ∧ pins joined pair c).
  { intros Hp. right. exists (l, r). split; [set_solver|]. by exists lt, lc, rt, rc. }
  repeat case_bool_decide; cbn in Hin; first [by left | set_solver].
Qed.

(** Names of one statement resolve to distinct objects. *)
Definition names_distinct (tables : sa_tables) : Prop :=
  ∀ n m f, table_by_name tables n = Ok f → table_by_name tables m = Ok f → casefold n = casefold m.

Lemma column_value_other cx left f row g d :
  g ≠ f → column_value cx (left ++ [(f, row)]) g d = column_value cx left g d.
Proof.
  intros Hne. unfold column_value.
  assert (row_of (left ++ [(f, row)]) g = row_of left g) as ->; [|done].
  induction left as [|[h x] left IH]; cbn; [by rewrite decide_False|]. by rewrite IH.
Qed.

Lemma column_value_joined cx left f row d :
  f ∉ left.*1 → column_value cx (left ++ [(f, row)]) f d = row (casefold (col_name d)).
Proof.
  intros Hni. unfold column_value.
  assert (row_of (left ++ [(f, row)]) f = Some row) as ->; [|done].
  induction left as [|[h x] left IH]; cbn in *; [by rewrite decide_True|].
  rewrite decide_False by set_solver. apply IH. set_solver.
Qed.

(** A pinned column of every right-hand row that passes the pair's equality
    equals one value, whatever that row is. *)
Lemma pinned_value tables key f pair c e cx left :
  names_distinct tables → table_by_name tables key = Ok f → f ∉ left.*1 →
  pins (casefold key) pair c → compile_join_pair tables pair = Ok e →
  ∃ v, ∀ row, truth cx (left ++ [(f, row)]) e = Some true → sql_eq (row c) v = Some true.
Proof.
  intros Hd Hf Hni (lt & lc & rt & rc & Hl & Hr & Hp) He. unfold compile_join_pair in He.
  rewrite Hl, Hr in He. cbn [mbind result_bind] in He.
  apply bind_ok in He as (lf & Hlf & He). apply bind_ok in He as (l & Hlc & He).
  apply bind_ok in He as (rf & Hrf & He). apply bind_ok in He as (r & Hrc & [= <-]).
  apply resolve_column_ok in Hlc as [_ Hlc]. apply resolve_column_ok in Hrc as [_ Hrc].
  assert (Hsame : ∀ t g, casefold t = casefold key → table_by_name tables t = Ok g → g = f).
  { intros t g Ht Hg. rewrite (table_by_name_casefold tables t key Ht) in Hg. congruence. }
  destruct Hp as [(Ht & Ho & ->)|(Ht & Ho & ->)].
  - rewrite (Hsame lt lf Ht Hlf) in *.
    assert (rf ≠ f) by (intros ->; by apply Ho, (Hd rt key f)).
    exists (column_value cx left rf r). intros row. cbn.
    by rewrite column_value_joined, column_value_other, Hlc.
  - rewrite (Hsame rt rf Ht Hrf) in *.
    assert (lf ≠ f) by (intros ->; by apply Ho, (Hd lt key f)).
    exists (column_value cx left lf l). intros row. cbn.
    rewrite column_value_joined, column_value_other, Hrc by done. apply sql_eq_sym.
Qed.

(** What the AST validators establish about a join condition. *)
Definition condition_ok (w : WhereNode) : bool :=
  where_forallb (λ p, is_ok (validate_predicate p)) exactly_one_boolean w.

(** A validated equality of two columns renders as the pair does. *)
Lemma equality_predicate_pair tables (p : Pred) pair e :
  is_ok (validate_predicate p) = true → pair ∈ equality_pair p →
  compile_predicate (compile_expression tables) tables [] None p = Ok e →
  compile_join_pair tables pair = Ok e.
Proof.
  intros Hp Hpair He. assert (E : validate_predicate p = Ok tt)
    by (by destruct (validate_predicate p) as [[]|]).
  unfold validate_predicate in E. rewrite !bind_ok_unit in E. destruct E as (_ & Hc & Hv). clear Hp.
  unfold equality_pair in Hpair. destruct p as [c x fn op v vc vx vs es]; cbn in *.
  destruct op; try by apply not_elem_of_nil in Hpair.
  destruct c as [c|], vc as [vc|]; try by apply not_elem_of_nil in Hpair.
  apply list_elem_of_singleton in Hpair as ->.
  unfold validate_col_shape in Hc; cbn in Hc.
  destruct es, fn, x; try done. unfold validate_value_shape, has_any_value in Hv; cbn in Hv.
  destruct vx, vs; try (cbn in Hv; destruct (has_value _); discriminate Hv).
  unfold compile_predicate, resolve_predicate_target, apply_predicate in He. cbn in He.
  destruct (has_dot c); [|done]. unfold compile_column in He.
  apply bind_ok in He as (target & Ht & He). apply bind_ok in Ht as ([lt lc] & Hl & Ht).
  apply bind_ok in Ht as (lf & Hlf & Ht). apply bind_ok in Ht as (l & Hlc & [= <-]).
  apply bind_ok in He as (val & Hval & He). apply bind_ok in Hval as (ce & Hce & [= <-]).
  apply bind_ok in Hce as ([rt rc] & Hr & Hce). apply bind_ok in Hce as (rf & Hrf & Hce).
  apply bind_ok in Hce as (r & Hrc & [= <-]). cbn in He. injection He as <-.
  unfold compile_join_pair. cbn [fst snd]. rewrite Hl, Hr. cbn [mbind result_bind].
  rewrite Hlf. cbn [mbind result_bind]. rewrite Hlc. cbn [mbind result_bind].
  rewrite Hrf. cbn [mbind result_bind]. by rewrite Hrc.
Qed.

(** Every top-level column equality of a condition holds where the condition does. *)
Lemma conjunct_pair_holds tables w pair cx r e :
  condition_ok w = true → compile_where tables [] None w = Ok e → truth cx r e = Some true →
  pair ∈ conjunct_pairs w →
  ∃ e', compile_join_pair tables pair = Ok e' ∧ truth cx r e' = Some true.
Proof.
  unfold compile_where, condition_ok. revert e. induction w as [w IH] using where_ind_children.
  intros e Hw He Ht Hp. destruct w as [p|a o n].
  { exists e. split; [by eapply equality_predicate_pair|done]. }
  apply where_forallb_children in Hw as (Hg & Ha & _ & _). unfold exactly_one_boolean in Hg.
  cbn [conjunct_pairs] in Hp. destruct a as [[|c cs]|]; [by apply not_elem_of_nil in Hp| |by apply not_elem_of_nil in Hp].
  destruct n; [cbn in Hg; by destruct (non_empty o)|]. cbn [compile_where_with] in He.
  apply bind_ok in He as (e1 & He1 & He). apply bind_ok in He as (es & Hes & [= <-]).
  cbn in Ht. rewrite tri_and_true, tri_all_true in Ht. destruct Ht as [Ht1 Hts].
  apply elem_of_flat_map in Hp as (d & [->|Hd]%elem_of_cons & Hp).
  - apply (IH c) with (e := e1); [cbn; set_solver|eapply Ha; [done|set_solver]|done..].
  - apply map_result_ok in Hes. apply list_elem_of_lookup in Hd as [i Hi].
    destruct (Forall2_lookup_l _ _ _ _ _ Hes Hi) as (e' & He' & Hce).
    apply list_elem_of_lookup_2 in Hi, He'.
    apply (IH d) with (e := e'); [cbn; set_solver|eapply Ha; [done|set_solver]|done| |done].
    apply Hts. apply elem_of_map. eauto.
Qed.

(** ... and every pair of an [on]/[extra_on] join. *)
Lemma join_pair_holds tables j sj pair cx r :
  compile_join tables j = Ok sj → js_type j ≠ JoinCross → js_condition j = None →
  truth cx r (sj_condition sj) = Some true → pair ∈ join_pairs j →
  ∃ e', compile_join_pair tables pair = Ok e' ∧ truth cx r e' = Some true.
Proof.
  unfold compile_join. intros (f & _ & H)%bind_ok Hx Hc Ht Hp.
  rewrite bool_decide_false in H by done. rewrite Hc in H.
  apply bind_ok in H as (cond & Hcond & [= <-]). cbn in Ht.
  apply bind_ok in Hcond as (es & Hes & Hcond). apply map_result_ok in Hes.
  apply list_elem_of_lookup in Hp as [i Hi].
  destruct (Forall2_lookup_l _ _ _ _ _ Hes Hi) as (e' & He' & Hce). exists e'. split; [done|].
  apply list_elem_of_lookup_2 in He'.
  destruct es as [|e1 [|e2 es]]; [done| |]; injection Hcond as <-.
  - by apply list_elem_of_singleton in He' as ->.
  - cbn in Ht. apply tri_and_true in Ht as [Ht1 Ht2]. apply tri_and_true in Ht2 as [Ht2 Ht3].
    rewrite tri_all_true in Ht3.
    apply elem_of_cons in He' as [->|[->|He']%elem_of_cons]; [done|done|].
    apply Ht3, elem_of_map. eauto.
Qed.
End join_facts.

(** ** Joins that cannot fan out *)

Section fan_out_facts.
Context `{CF : CaseFold} `{DA : DialectAdapter} `{SV : SqlValues}.

(** The documented meaning of a key: no two stored rows agree on all its
    columns (NULLs agree with nothing). *)
Definition keys_hold (cx : sql_context) (f : SaFrom) : Prop :=
  ∀ u i j r1 r2, u ∈ unique_column_sets f →
    sq_rows cx f !! i = Some r1 → sq_rows cx f !! j = Some r2 →
    (∀ c, c ∈ u → sql_eq (r1 c) (r2 c) = Some true) → i = j.

Lemma filter_at_most_one {A} (P : A → bool) (l : list A) :
  (∀ i j x y, l !! i = Some x → l !! j = Some y → P x = true → P y = true → i = j) →
  (length (filter (λ x, P x) l) ≤ 1)%nat.
Proof.
  induction l as [|a l IH]; intros H; [cbn; lia|]. rewrite filter_cons.
  assert (IHl : (length (filter (λ x, P x) l) ≤ 1)%nat).
  { apply IH. intros i j x y Hi Hj Hx Hy. specialize (H (S i) (S j) x y Hi Hj Hx Hy). congruence. }
  case_decide as Ha; [|done]. destruct (filter (λ x, P x) l) as [|b k] eqn:E; [cbn; lia|].
  assert (Hb : b ∈ filter (λ x, P x) l) by (rewrite E; set_solver).
  apply list_elem_of_filter in Hb as [Hb [i Hi]%list_elem_of_lookup].
  specialize (H 0%nat (S i) a b eq_refl Hi (Is_true_true_1 _ Ha) (Is_true_true_1 _ Hb)).
  discriminate H.
Qed.

Lemma filter_filter_bool {A} (P R : A → bool) (l : list A) :
  filter (λ x, P x) (filter (λ x, R x) l) = filter (λ x, P x && R x) l.
Proof.
  induction l as [|x l IH]; [done|]. rewrite !filter_cons, <-IH.
  destruct (R x) eqn:ER, (P x) eqn:EP; cbn; repeat case_decide; try done;
    rewrite filter_cons, EP; by case_decide.
Qed.

Lemma matches_length cx cond left f :
  length (matches cx cond left f)
  = length (filter (λ row, passes cx cond (left ++ [(f, row)])) (sq_rows cx f)).
Proof.
  unfold matches. induction (sq_rows cx f) as [|row rows IH]; [done|].
  cbn [map]. rewrite !filter_cons. case_decide; cbn; by rewrite IH.
Qed.

(** The pairs whose equalities pin the columns [equality_bound_columns] reports. *)
Lemma bound_column_pinned tables j sj b c cx r :
  compile_join tables j = Ok sj → option_forallb condition_ok (js_condition j) = true →
  (is_some (js_on j) = true → js_condition j = None) →
  equality_bound_columns j = Ok (Some b) → c ∈ b →
  truth cx r (sj_condition sj) = Some true →
  ∃ pair e, pins (casefold (join_key j)) pair c ∧ compile_join_pair tables pair = Ok e
    ∧ truth cx r e = Some true
    ∧ ∀ r', truth cx r' (sj_condition sj) = Some true → truth cx r' e = Some true.
Proof.
  intros Hj Hok Hx Hb Hc Ht. unfold equality_bound_columns in Hb.
  case_bool_decide as Hcross; [done|]. destruct (is_some (js_on j)) eqn:Hon.
  - specialize (Hx eq_refl). apply bind_ok in Hb as (b' & Hb & [= ->]).
    destruct (take_all_pins _ _ _ _ c Hb Hc) as [?|(pair & Hp & Hpin)]; [set_solver|].
    destruct (join_pair_holds tables j sj pair cx r Hj Hcross Hx Ht Hp) as (e & He & Hte).
    exists pair, e. split_and!; [done..|]. intros r' Hr'.
    destruct (join_pair_holds tables j sj pair cx r' Hj Hcross Hx Hr' Hp) as (e' & He' & ?). congruence.
  - destruct (js_condition j) as [cond|] eqn:Hcond; [|done].
    apply bind_ok in Hb as (b' & Hb & [= ->]).
    destruct (take_all_pins _ _ _ _ c Hb Hc) as [?|(pair & Hp & Hpin)]; [set_solver|].
    unfold compile_join in Hj. apply bind_ok in Hj as (f & _ & Hj).
    rewrite bool_decide_false in Hj by done. rewrite Hcond in Hj.
    apply bind_ok in Hj as (ec & Hec & [= <-]). cbn in Ht |- *.
    destruct (conjunct_pair_holds tables cond pair cx r ec Hok Hec Ht Hp) as (e & He & Hte).
    exists pair, e. split_and!; [done..|]. intros r' Hr'.
    destruct (conjunct_pair_holds tables cond pair cx r' ec Hok Hec Hr' Hp) as (e' & He' & ?). congruence.
Qed.

Lemma validate_join_on (j : JoinSpec) :
  validate_join j = Ok tt → is_some (js_on j) = true → js_condition j = None.
Proof.
  unfold validate_join. rewrite bind_ok_unit. intros [_ H] Hon. rewrite Hon in H.
  destruct (js_condition j); [|done]. case_bool_decide; cbn in H; discriminate H.
Qed.

(** A join the compiler holds not to fan out matches at most one row. *)
Lemma matches_at_most_one tables j sj cx left :
  compile_join tables j = Ok sj → option_forallb condition_ok (js_condition j) = true →
  (is_some (js_on j) = true → js_condition j = None) →
  join_can_fan_out tables j = Ok false → names_distinct tables → keys_hold cx (sj_right sj) →
  sj_right sj ∉ left.*1 → (length (matches cx (sj_condition sj) left (sj_right sj)) ≤ 1)%nat.
Proof.
  intros Hj Hok Hx Hfan Hd Hk Hni. unfold join_can_fan_out in Hfan.
  apply bind_ok in Hfan as (bound & Hb & Hfan). destruct bound as [b|]; [|done].
  apply bind_ok in Hfan as (f & Hf & Hfan). injection Hfan as Hfan.
  apply negb_false_iff, existsb_elem in Hfan as (u & Hu & Hsub%bool_decide_eq_true).
  assert (Hright : sj_right sj = f).
  { unfold compile_join in Hj. rewrite Hf in Hj. cbn [mbind result_bind] in Hj.
    case_bool_decide; [by injection Hj as <-|]. by apply bind_ok in Hj as (? & _ & [= <-]). }
  rewrite Hright in *. rewrite matches_length. apply filter_at_most_one.
  intros i i' r1 r2 Hi Hi' Hp1 Hp2. unfold passes in Hp1, Hp2. rewrite bool_decide_eq_true in Hp1, Hp2.
  apply (Hk u i i' r1 r2 Hu Hi Hi'). intros c Hc.
  destruct (bound_column_pinned tables j sj b c cx _ Hj Hok Hx Hb (Hsub c Hc) Hp1)
    as (pair & e & Hpin & He & Ht1 & Hall).
  destruct (pinned_value tables (join_key j) f pair c e cx left Hd Hf Hni Hpin He) as [v Hv].
  apply sql_eq_trans with (y := v); [by apply Hv|]. apply sql_eq_sym, Hv, Hall, Hp2.
Qed.

Lemma join_left_row_at_most_one cx sj left :
  (length (matches cx (sj_condition sj) left (sj_right sj)) ≤ 1)%nat →
  (length (join_left_row cx sj left) ≤ 1)%nat.
Proof.
  unfold join_left_row. destruct (matches _ _ _ _); [|done]. destruct (_ || _); cbn; lia.
Qed.

Lemma join_left_row_extends cx sj left r :
  r ∈ join_left_row cx sj left → ∃ row, r = left ++ [(sj_right sj, row)].
Proof.
  unfold join_left_row. destruct (matches _ _ _ _) as [|m ms] eqn:E.
  - destruct (_ || _); [|by intros ?%not_elem_of_nil]. intros ->%list_elem_of_singleton. eauto.
  - rewrite <-E. unfold matches. intros [_ Hr]%list_elem_of_filter.
    apply elem_of_map in Hr as (row & -> & _). eauto.
Qed.

(** Without FULL joins, the joined rows are those of each base row. *)
Lemma joins_rows_flat cx js : ∀ lefts blank,
  (∀ j, j ∈ js → sj_full j = false) →
  joins_rows cx js lefts blank = flat_map (λ l, joins_rows cx js [l] blank) lefts.
Proof.
  induction js as [|j js IH]; intros lefts blank Hf; cbn [joins_rows].
  { induction lefts; cbn; [done|]. by f_equal. }
  rewrite IH by set_solver. unfold join_rows, unmatched_right. rewrite (Hf j) by set_solver.
  rewrite app_nil_r, flat_map_flat_map. apply flat_map_ext_elem. intros l _. cbn. rewrite !app_nil_r.
  symmetry. apply IH. set_solver.
Qed.

(** Joins that match at most one row give each base row at most one joined row,
    which extends it. *)
Lemma joins_rows_at_most_one cx js : ∀ left blank,
  (∀ j, j ∈ js → sj_full j = false) → NoDup (left.*1 ++ map sj_right js) →
  (∀ j left', j ∈ js → sj_right j ∉ left'.*1 →
     (length (matches cx (sj_condition j) left' (sj_right j)) ≤ 1)%nat) →
  (length (joins_rows cx js [left] blank) ≤ 1)%nat
  ∧ ∀ r, r ∈ joins_rows cx js [left] blank → left `prefix_of` r.
Proof.
  induction js as [|j js IH]; intros left blank Hf Hnd Hm; cbn [joins_rows].
  { split; [done|]. by intros r ->%list_elem_of_singleton. }
  assert (Hni : sj_right j ∉ left.*1).
  { apply NoDup_app in Hnd as (_ & Hd & _). intros Hin. apply (Hd _ Hin). cbn. set_solver. }
  unfold join_rows, unmatched_right. rewrite (Hf j) by set_solver. cbn. rewrite !app_nil_r.
  pose proof (join_left_row_at_most_one cx j left (Hm j left ltac:(set_solver) Hni)) as Hone.
  pose proof (join_left_row_extends cx j left) as Hext.
  destruct (join_left_row cx j left) as [|l' [|? ?]]; [| |cbn in Hone; lia].
  { rewrite joins_rows_flat by set_solver. cbn. split; [lia|]. by intros r ?%not_elem_of_nil. }
  destruct (Hext l') as [row ->]; [set_solver|].
  destruct (IH (left ++ [(sj_right j, row)]) (blank ++ [(sj_right j, null_row)])) as [IH1 IH2].
  - set_solver.
  - rewrite fmap_app. cbn. by rewrite <-app_assoc.
  - intros j' left' Hj'. apply Hm. set_solver.
  - split; [done|]. intros r Hr. specialize (IH2 r Hr).
    etransitivity; [|exact IH2]. by apply prefix_app_r.
Qed.

Lemma flat_map_filter_count {A B} (f : A → list B) (P : B → bool) (l : list A) :
  (∀ x, x ∈ l → (length (f x) ≤ 1)%nat) →
  ∃ bs, bs `sublist_of` l ∧ length bs = length (filter (λ r, P r) (flat_map f l))
    ∧ ∀ b, b ∈ bs → ∃ r, r ∈ f b ∧ P r = true.
Proof.
  induction l as [|x l IH]; intros H; [exists []; split_and!; [done|done|set_solver]|].
  destruct IH as (bs & Hs & Hl & Hb); [intros y Hy; apply H; set_solver|].
  cbn [flat_map]. rewrite filter_app, length_app. pose proof (H x ltac:(set_solver)) as Hx.
  destruct (f x) as [|r [|? ?]] eqn:Ef; [| |cbn in Hx; lia].
  - exists bs. split_and!; [by apply sublist_cons|done|done].
  - rewrite filter_cons, filter_nil. case_decide as HP.
    + exists (x :: bs). split_and!; [by apply sublist_skip|cbn; lia|].
      intros b [->|?]%elem_of_cons; [|by apply Hb]. exists r. rewrite Ef.
      split; [set_solver|]. by destruct (P r).
    + exists bs. split_and!; [by apply sublist_cons|cbn; lia|done].
Qed.

(** The folded effective names of a validated query are distinct. *)
Lemma check_occurrences_nodup all occs : ∀ seen,
  check_occurrences all occs seen = Ok tt →
  NoDup (map (λ o, casefold (effective_name o)) occs)
  ∧ ∀ o, o ∈ occs → casefold (effective_name o) ∉ seen.
Proof.
  induction occs as [|o occs IH]; cbn; intros seen H; [split; [constructor|set_solver]|].
  case_bool_decide as Hs; [done|]. destruct (_ && _); [done|].
  destruct (IH _ H) as [Hnd Hni]. split.
  - constructor; [|done]. intros (o' & Ho' & Hin)%elem_of_map. apply (Hni o' Hin). set_solver.
  - intros o' [->|Ho']%elem_of_cons; [done|]. specialize (Hni o' Ho'). set_solver.
Qed.

Lemma declared_keys_nodup q :
  validate_table_aliases q = Ok tt → NoDup (map casefold (declared_keys q)).
Proof.
  intros H. apply check_occurrences_nodup in H as [H _].
  unfold occurrences in H. cbn in H. rewrite map_map in H. unfold declared_keys. cbn.
  by rewrite map_map.
Qed.

(** The FROM elements of a compiled scope are distinct objects. *)
Lemma scope_elements_nodup env sub tables q stmt :
  scope_compiled env sub tables q stmt → names_distinct tables → validate_table_aliases q = Ok tt →
  NoDup (ss_from stmt :: map sj_right (ss_joins stmt)).
Proof.
  intros H Hd Hnd%declared_keys_nodup.
  assert (Hall : Forall2 (λ k f, table_by_name tables k = Ok f) (declared_keys q)
    (ss_from stmt :: map sj_right (ss_joins stmt))).
  { constructor; [apply H|]. pose proof (scd_joins _ _ _ _ _ H) as Hjs. apply map_result_ok in Hjs.
    induction Hjs as [|j sj js sjs Hc _ IH]; cbn; constructor; [|done].
    unfold compile_join in Hc. apply bind_ok in Hc as (f & Hf & Hc). rewrite Hf. f_equal.
    case_bool_decide; [by injection Hc as <-|]. by apply bind_ok in Hc as (? & _ & [= <-]). }
  apply NoDup_alt. intros i j f Hi Hj.
  destruct (Forall2_lookup_r _ _ _ _ _ Hall Hi) as (n & Hn & Hnf).
  destruct (Forall2_lookup_r _ _ _ _ _ Hall Hj) as (m & Hm & Hmf).
  pose proof (Hd n m f Hnf Hmf) as Heq. rewrite NoDup_alt in Hnd. apply (Hnd i j (casefold n)).
  - by rewrite list_lookup_fmap, Hn.
  - by rewrite list_lookup_fmap, Hm, Heq.
Qed.
End fan_out_facts.

(** * Properties *)

Section properties.
Context `{CF : CaseFold} `{DA : DialectAdapter} `{SV : SqlValues}.

(** In a compiled scope every declared occurrence of a real table, self
    joins included, is filtered by every mandatory row filter that names its
    table in every policy governing it: the clause is a conjunct of WHERE,
    bound to the very element FROM or JOIN uses, with the filter's resolved
    value, and every selected row passes it. *)
Lemma scope_filters_bind env sub tables q stmt am agg key :
  compile_scope_body env sub tables q = Ok (stmt, am, agg) →
  key ∈ declared_keys q →
  casefold (physical_of (effective_name_map q) key) ∉ ce_cte_names env →
  ∃ candidates table,
    candidate_policies env key = Ok candidates
    ∧ table_by_name tables key = Ok table
    ∧ (table = ss_from stmt ∨ ∃ j, j ∈ ss_joins stmt ∧ sj_right j = table)
    ∧ ∀ p f, p ∈ candidates → f ∈ mandatory_row_filters (gates p) →
        casefold (rf_table f) = casefold (physical_of (effective_name_map q) key) →
        ∃ value col,
          resolve_row_filter f (ce_principal env) = Ok value
          ∧ resolve_column (from_columns table) (rf_column f) = Ok col
          ∧ sa_eq_value (EColumn table col) value ∈ ss_where stmt
          ∧ ∀ cx r, r ∈ selected_rows cx stmt →
              passes cx (sa_eq_value (EColumn table col) value) r = true.
Proof.
  intros H%compile_scope_body_ok Hk Hcte.
  destruct (declared_key_element _ _ _ _ _ key H Hk) as (table & Ht & Hel).
  destruct (scd_filters _ _ _ _ _ H) as (clauses & Hcl & Hin).
  unfold mandatory_filters in Hcl. apply bind_ok in Hcl as (ls & Hls & [= <-]).
  apply map_result_ok in Hls. apply list_elem_of_lookup in Hk as [i Hi].
  destruct (Forall2_lookup_l _ _ _ _ _ Hls Hi) as (ws & Hws & Hkey).
  unfold filters_for_key in Hkey. rewrite bool_decide_false in Hkey by done.
  apply bind_ok in Hkey as (candidates & Hc & Hkey). apply map_result_ok in Hkey.
  exists candidates, table. split_and!; [done..|]. intros p f Hp Hf Hft.
  pose proof (table_filters_complete _ candidates p f Hp Hf Hft) as Hfin.
  apply list_elem_of_lookup in Hfin as [n Hn].
  destruct (Forall2_lookup_l _ _ _ _ _ Hkey Hn) as (w & Hw & Hcf).
  unfold compile_row_filter in Hcf. apply bind_ok in Hcf as (value & Hv & Hcf).
  rewrite Ht in Hcf. cbn [mbind result_bind] in Hcf. apply bind_ok in Hcf as (col & Hcol & [= <-]).
  assert (Hwhere : sa_eq_value (EColumn table col) value ∈ ss_where stmt).
  { apply Hin, elem_of_concat. exists ws. split; by eapply list_elem_of_lookup_2. }
  exists value, col. split_and!; [done..|]. intros cx r Hr. by eapply selected_rows_pass.
Qed.

(** C9. The k-anonymity floor counts real rows: an aggregate scope compiled
    under [min_group_size = k] carries the HAVING, and, without FULL joins and
    with the declared keys holding, whatever set of selected rows a group
    collects, k counted rows come from k distinct rows of the FROM table. *)
Theorem group_floor_counts_base_rows env sub tables q stmt am agg k cx G :
  compile_scope_body env sub tables q = Ok (stmt, am, agg) →
  min_group_size (windows (ce_policy env)) = Some k → is_aggregate_scope q = true →
  validate_table_aliases q = Ok tt → names_distinct tables →
  (∀ j, j ∈ joins q → validate_join j = Ok tt
     ∧ option_forallb condition_ok (js_condition j) = true ∧ js_type j ≠ JoinFull) →
  (∀ j, j ∈ ss_joins stmt → keys_hold cx (sj_right j)) →
  count_floor k ∈ ss_having stmt
  ∧ (k ≤ Z.of_nat (length (filter (λ r, G r : bool) (selected_rows cx stmt))) →
     ∃ bs, bs `sublist_of` base_rows cx (ss_from stmt) ∧ k ≤ Z.of_nat (length bs)
       ∧ ∀ b, b ∈ bs → ∃ r, r ∈ selected_rows cx stmt ∧ G r = true ∧ b `prefix_of` r).
Proof.
  intros H%compile_scope_body_ok Hk Hagg Hal Hd Hj Hkeys.
  destruct (scd_floor _ _ _ _ _ H k Hk Hagg) as [Hfl Hfan]. split; [done|].
  pose proof (scope_elements_nodup _ _ _ _ _ H Hd Hal) as Hnd.
  pose proof (scd_joins _ _ _ _ _ H) as Hjs. apply map_result_ok in Hjs.
  set (blank := [(ss_from stmt, null_row)]).
  assert (Hsj : ∀ sj, sj ∈ ss_joins stmt → ∃ j, j ∈ joins q ∧ compile_join tables j = Ok sj).
  { intros sj [i Hi]%list_elem_of_lookup.
    destruct (Forall2_lookup_r _ _ _ _ _ Hjs Hi) as (j & Hi' & Hc).
    exists j. split; [by eapply list_elem_of_lookup_2|done]. }
  assert (Hfull : ∀ sj, sj ∈ ss_joins stmt → sj_full sj = false).
  { intros sj (j & Hin & Hc)%Hsj. unfold compile_join in Hc. apply bind_ok in Hc as (f & _ & Hc).
    case_bool_decide; [by injection Hc as <-|]. apply bind_ok in Hc as (? & _ & [= <-]). cbn.
    apply bool_decide_eq_false. by apply Hj. }
  assert (Hone : ∀ sj left, sj ∈ ss_joins stmt → sj_right sj ∉ left.*1 →
    (length (matches cx (sj_condition sj) left (sj_right sj)) ≤ 1)%nat).
  { intros sj left Hin Hni. destruct (Hsj sj Hin) as (j & Hin' & Hc).
    destruct (Hj j Hin') as (Hval & Hok & _).
    apply (matches_at_most_one tables j); try done; [|by apply Hfan|by apply Hkeys].
    intros Hon. by eapply validate_join_on. }
  assert (Hrow : ∀ b, b ∈ base_rows cx (ss_from stmt) →
    (length (joins_rows cx (ss_joins stmt) [b] blank) ≤ 1)%nat
    ∧ ∀ r, r ∈ joins_rows cx (ss_joins stmt) [b] blank → b `prefix_of` r).
  { intros b (row & -> & _)%elem_of_map. by apply joins_rows_at_most_one. }
  intros Hcount. unfold selected_rows in *. fold blank in Hcount |- *.
  rewrite joins_rows_flat in * by done. rewrite filter_filter_bool in Hcount.
  destruct (flat_map_filter_count (λ b, joins_rows cx (ss_joins stmt) [b] blank)
    (λ r, G r && forallb (λ w, passes cx w r) (ss_where stmt)) (base_rows cx (ss_from stmt)))
    as (bs & Hs & Hl & Hb); [intros; by apply Hrow|].
  exists bs. split_and!; [done| |].
  - by rewrite Hl.
  - intros b Hbin. destruct (Hb b Hbin) as (r & Hr & HG). apply andb_true_iff in HG as [HG Hw].
    assert (Hbase : b ∈ base_rows cx (ss_from stmt)) by (by eapply elem_of_sublist).
    exists r. split_and!; [|done|by apply Hrow].
    apply elem_of_filter_bool. split; [done|]. apply elem_of_flat_map. eauto.
Qed.

(** A boolean tree with no empty [and] list compiles to an element that is
    TRUE, FALSE or UNKNOWN on a row exactly as the tree is under three-valued
    logic, given what its predicates are. *)
Theorem compile_where_meaning {Q R} tables alias_map (ctx : option (WhereCtx R))
  (w : WhereNode_ (Predicate (Expression_ Q) R)) e :
  where_forallb (λ _, true) no_empty_and w = true →
  compile_where tables alias_map ctx w = Ok e →
  ∀ cx r, truth cx r e
    = where_truth (rendered_truth cx r
        (compile_predicate (compile_expression tables) tables alias_map ctx)) w.
Proof. intros Hw He cx r. by apply compile_where_with_truth. Qed.

(** A bare projection of a column masked by any policy governing its table
    is never the raw column: the output is the adapter's masking of it, with
    the first governing policy's mask, under the column's own name, and on every
    lawful adapter the column stands in it only under a digest, a truncation or
    a bucket. *)
Lemma scope_masks_apply `{DL : !DialectLaws DA} env sub tables q stmt am agg i ref t c candidates p :
  compile_scope_body env sub tables q = Ok (stmt, am, agg) →
  select q !! i = Some (ColumnItem ref) → parse_column_ref ref = Ok (t, c) →
  candidate_policies env t = Ok candidates → p ∈ candidates →
  column_mask p (physical_of (effective_name_map q) t) c ≠ None →
  ∃ f col m e,
    compile_column tables ref = Ok (EColumn f col)
    ∧ column_mask_anywhere (physical_of (effective_name_map q) t) c candidates = Some m
    ∧ column_mask_expr (EColumn f col) m = Ok e ∧ exposes f col e = false
    ∧ ss_columns stmt !! i = Some (ELabel (col_name col) e).
Proof.
  intros H%compile_scope_body_ok Hi Hp Hc Hpin Hm.
  destruct (scd_columns _ _ _ _ _ H) as [m0 Hcols]. unfold build_select_columns in Hcols.
  apply bind_ok in Hcols as (built & Hb & Hcols). injection Hcols as Hcols _.
  apply map_result_ok in Hb. destruct (Forall2_lookup_l _ _ _ _ _ Hb Hi) as ([e names] & Hbe & Hitem).
  destruct (column_mask_anywhere (physical_of (effective_name_map q) t) c candidates) as [m|] eqn:Em.
  2: { exfalso. apply Hm. assert (is_some (column_mask_anywhere
         (physical_of (effective_name_map q) t) c candidates) = false) as Hn by (by rewrite Em).
       rewrite column_mask_anywhere_None in Hn. by apply Hn. }
  cbn in Hitem. unfold compile_bare_item, mask_for_select_ref in Hitem.
  apply bind_ok in Hitem as (colx & Hcol & Hitem). rewrite Hp in Hitem.
  cbn [mbind result_bind] in Hitem. rewrite Hc in Hitem. cbn [mbind result_bind] in Hitem.
  rewrite Em in Hitem. apply bind_ok in Hitem as (e' & He' & Hitem).
  injection Hitem as <- _. pose proof Hcol as Hcol'. unfold compile_column in Hcol'.
  apply bind_ok in Hcol' as ([t' c'] & _ & Hcol'). apply bind_ok in Hcol' as (f & _ & Hcol').
  apply bind_ok in Hcol' as (col & _ & [= <-]).
  exists f, col, m, e'. split_and!; [done..|by eapply mask_hides|].
  rewrite <-Hcols, list_lookup_fmap, Hbe. done.
Qed.

(** The effective row limit never exceeds the policy's ceiling for the kind
    of query, nor what the caller asked for (the policy's default when nothing
    was asked); it is at least one whenever the ceiling is; the only error is a
    limit below one. *)
Theorem clamp_limit_bounds (requested : option Z) (p : Policy) (is_aggregate : bool) :
  let ceiling := if is_aggregate then max_limit_aggregate (caps p) else max_limit (caps p) in
  let asked := default (default_limit (caps p)) requested in
  match clamp_limit requested p is_aggregate with
  | Ok n => n ≤ ceiling ∧ n ≤ asked ∧ (n = ceiling ∨ n = asked) ∧ (1 ≤ ceiling → 1 ≤ n)
  | Raise e => e = QueryValidationError "limit must be >= 1" ∧ asked < 1
  end.
Proof.
  intros ceiling asked. unfold clamp_limit. fold ceiling asked.
  destruct (Z.ltb_spec asked 1); [done|]. lia.
Qed.
End properties.

(** * Concrete inputs *)

(** Values that are integers or NULL. *)
Definition int_eq (x y : option Z) : tri :=
  match x, y with Some a, Some b => Some (a =? b) | _, _ => None end.

Lemma int_eq_sym x y : int_eq x y = Some true → int_eq y x = Some true.
Proof. destruct x, y; cbn; try done. by rewrite Z.eqb_sym. Qed.

Lemma int_eq_trans x y z : int_eq x y = Some true → int_eq y z = Some true → int_eq x z = Some true.
Proof.
  destruct x, y, z; cbn; try done. intros [= ->%Z.eqb_eq] [= ->%Z.eqb_eq]. by rewrite Z.eqb_refl.
Qed.

Definition int_values : SqlValues := {|
  sql_value := option Z; sql_null := None; sql_eq := int_eq;
  sql_literal v := match v with JInt z => Some z | _ => None end;
  sql_eq_sym := int_eq_sym; sql_eq_trans := int_eq_trans;
|}.

Definition key_column (name : string) : SaColumn := MkSaColumn name false false false true (Some PyInt).
Definition plain_column (name : string) : SaColumn := MkSaColumn name true false false false (Some PyInt).

Definition people : SaFrom :=
  FromTable (MkSaTable "people" [key_column "id"; plain_column "salary"; plain_column "tenant"] [] []).
Definition orders : SaFrom :=
  FromTable (MkSaTable "orders" [key_column "id"; plain_column "person_id"] [] []).

Definition shop_tables : sa_tables := [("orders", orders); ("people", people)].

Definition floor_policy (k : Z) : Policy :=
  MkPolicy default_access default_write_policy default_caps (MkWindows 5 1000 3660 (Some k))
    default_disclosure default_execution default_gates.

Definition no_resolver : ConnectionResolver := λ _ _, Raise (NotFoundError "Unknown connection").

Definition shop_env (p : Policy) : CompileEnv := MkCompileEnv p None None no_resolver [] ∅.

Definition no_subquery : nat → StructuredQuery → result sa_stmt := λ _ _, Raise (ValueError "no subquery").

(** [SELECT MIN(people.salary) AS m FROM first JOIN second
     ON orders.person_id = people.id WHERE people.id = 7]. *)
Definition salary_query (first second : string) : StructuredQuery :=
  with_where (WPredicate (value_predicate "people.id" OpEq (JInt 7)))
    (with_joins [MkJoinSpec second None JoinInner (Some ("orders.person_id", "people.id")) [] None None]
       (simple_query first
          [AggregateSelectItem AggMin None (Some (ColumnExpr "people.salary")) false (Some "m")])).

Abbreviation int_row := (string → option Z).

Definition person (id salary : Z) : int_row :=
  λ c, if bool_decide (c = "id") then Some id else if bool_decide (c = "salary") then Some salary else None.

Definition order_of (id person_id : Z) : int_row :=
  λ c, if bool_decide (c = "id") then Some id
       else if bool_decide (c = "person_id") then Some person_id else None.

(** Persons 7 and 8; person 7 placed three orders, person 8 one. *)
Definition shop_rows (f : SaFrom) : list int_row :=
  if decide (f = people) then [person 7 900; person 8 100]
  else [order_of 1 7; order_of 2 7; order_of 3 7; order_of 4 8].

Definition shop : sql_context (SV := int_values) :=
  @MkSqlContext int_values shop_rows (λ _ _, None) (λ _ _, None).

Definition compile_shop (p : Policy) (q : StructuredQuery) : result (sa_select * dict SaExpr * bool) :=
  @compile_scope_body ascii_casefold postgres_adapter (shop_env p) no_subquery shop_tables q.

Definition shop_stmt (q : StructuredQuery) (p : Policy) : sa_select :=
  match compile_shop p q with Ok (s, _, _) => s | Raise _ => MkSaSelect [] people false [] [] [] [] end.

(** The same aggregate over the same rows is refused under [min_group_size]
    when it says FROM people JOIN orders and accepted when it says FROM orders
    JOIN people: the second counts three joined rows, all of them the one
    person whose salary it returns. *)
Theorem group_floor_depends_on_join_order :
  compile_shop (floor_policy 3) (salary_query "people" "orders")
    = Raise (PolicyViolationError "join can match more than one row, which would inflate the count that min_group_size floors")
  ∧ (∃ am, compile_shop (floor_policy 3) (salary_query "orders" "people")
       = Ok (shop_stmt (salary_query "orders" "people") (floor_policy 3), am, true))
  ∧ length (@selected_rows ascii_casefold int_values shop
      (shop_stmt (salary_query "orders" "people") (floor_policy 3))) = 3%nat
  ∧ Forall (λ r, @row_of int_values r people = Some (person 7 900))
      (@selected_rows ascii_casefold int_values shop
         (shop_stmt (salary_query "orders" "people") (floor_policy 3))).
Proof.
  split_and!; [vm_compute; reflexivity|eexists; vm_compute; reflexivity|vm_compute; reflexivity|].
  vm_compute. repeat constructor.
Qed.

Lemma shop_names_distinct : @names_distinct ascii_casefold shop_tables.
Proof.
  assert (Hne : orders ≠ people) by (apply (bool_decide_unpack _); vm_compute; exact I).
  intros n m f. unfold table_by_name, shop_tables; cbn [table_by_name_or_none].
  repeat case_bool_decide; intros Hn Hm; congruence.
Qed.

Lemma shop_keys_hold : @keys_hold ascii_casefold int_values shop people.
Proof.
  intros u i j r1 r2 Hu Hi Hj H. vm_compute in Hu.
  assert (Hid : @sql_eq int_values (r1 "id") (r2 "id") = Some true).
  { apply H. apply list_elem_of_In in Hu as [<-|[]]. by vm_compute. }
  assert (Heq : @sq_rows int_values shop people = [person 7 900; person 8 100])
    by (vm_compute; reflexivity).
  rewrite Heq in Hi, Hj.
  destruct i as [|[|i]], j as [|[|j]]; try done;
    injection Hi as <-; injection Hj as <-; vm_compute in Hid; discriminate Hid.
Qed.

Lemma group_floor_counts_base_rows_witness :
  ∃ bs, bs `sublist_of` @base_rows int_values shop orders ∧ 3 ≤ Z.of_nat (length bs).
Proof.
  destruct (@group_floor_counts_base_rows ascii_casefold postgres_adapter int_values
    (shop_env (floor_policy 3)) no_subquery shop_tables (salary_query "orders" "people")
    (shop_stmt (salary_query "orders" "people") (floor_policy 3))
    (match compile_shop (floor_policy 3) (salary_query "orders" "people") with
     | Ok (_, am, _) => am | _ => [] end) true 3 shop (λ _, true)) as [_ H].
  - vm_compute. reflexivity.
  - reflexivity.
  - reflexivity.
  - vm_compute. reflexivity.
  - exact shop_names_distinct.
  - intros j Hj. apply list_elem_of_In in Hj as [<-|[]].
    split; [vm_compute; reflexivity|split; [reflexivity|discriminate]].
  - intros j Hj. apply list_elem_of_In in Hj as [<-|[]]. exact shop_keys_hold.
  - destruct H as (bs & Hs & Hl & _); [vm_compute; discriminate|]. exists bs. split; assumption.
Defined.

(** A self-join under a filter on a claim, and a masked column. *)
Definition tenant_policy : Policy :=
  MkPolicy (MkAccess true [] [] [] [] false [] [] [("people", [MkColumnMask "salary" HASH None None])])
    default_write_policy default_caps default_windows default_disclosure default_execution
    (MkGates None None ENFORCE None None [] false false false None
       [MkRowFilter "People" "Tenant" JNull (Some "tenant")]).

Definition tenant_principal : Principal := MkPrincipal "alice" ∅ [("tenant", JInt 4)] "api_key" None.

Definition tenant_env : CompileEnv :=
  MkCompileEnv tenant_policy (Some tenant_principal) None no_resolver [] ∅.

Definition self_tables : sa_tables := [("a", FromAlias "a" people); ("b", FromAlias "b" people)].

Definition self_join : StructuredQuery :=
  MkStructuredQuery "people" (Some "a") [ColumnItem "a.id"; ColumnItem "b.salary"] false
    [MkJoinSpec "people" (Some "B") JoinInner (Some ("a.id", "b.id")) [] None None]
    None [] None [] None 0 None None [] [] None None.

Definition self_join_run : result (sa_select * dict SaExpr * bool) :=
  @compile_scope_body ascii_casefold postgres_adapter tenant_env no_subquery self_tables self_join.

Definition self_join_stmt : sa_select :=
  match self_join_run with Ok (s, _, _) => s | Raise _ => MkSaSelect [] people false [] [] [] [] end.

Definition self_join_aliases : dict SaExpr :=
  match self_join_run with Ok (_, am, _) => am | Raise _ => [] end.

Definition either_order : WhereNode :=
  WhereGroup None (Some [WPredicate (value_predicate "orders.id" OpEq (JInt 1));
                         WPredicate (value_predicate "orders.person_id" OpEq (JInt 8))]) None.

Lemma compile_where_meaning_witness :
  ∃ e, @compile_where ascii_casefold postgres_adapter _ _ shop_tables [] None either_order = Ok e
    ∧ @truth ascii_casefold int_values shop [(orders, order_of 1 7)] e = Some true.
Proof.
  eexists. split; [vm_compute; reflexivity|].
  rewrite (@compile_where_meaning ascii_casefold postgres_adapter int_values _ _ shop_tables [] None
    either_order _ eq_refl ltac:(vm_compute; reflexivity) shop).
  vm_compute. reflexivity.
Defined.

(** A validated group with an empty [and] beside its [or] is compiled as a
    conjunction of the [or]'s terms: on a row where one term holds and the other
    does not the tree is TRUE and the element FALSE. *)
Theorem empty_and_turns_or_into_and :
  let w := WhereGroup (Some []) (Some [WPredicate (value_predicate "orders.id" OpEq (JInt 1));
             WPredicate (value_predicate "orders.person_id" OpEq (JInt 8))]) None in
  condition_ok w = true
  ∧ ∃ a b, @compile_where ascii_casefold postgres_adapter _ _ shop_tables [] None w = Ok (EAnd [a; b])
    ∧ @truth ascii_casefold int_values shop [(orders, order_of 1 7)] (EAnd [a; b]) = Some false
    ∧ where_truth (@rendered_truth ascii_casefold int_values _ shop [(orders, order_of 1 7)]
        (@compile_predicate ascii_casefold _ _
           (@compile_expression ascii_casefold postgres_adapter _ shop_tables) shop_tables [] None)) w
      = Some true.
Proof.
  intros w. split; [vm_compute; reflexivity|]. eexists _, _.
  split; [vm_compute; reflexivity|split; vm_compute; reflexivity].
Qed.
