(* ===== verification/Statement.v ===== *)
(** The statement level of [compiler/sqlalchemy_compiler.py]: cte blocks, set
    operations, ranked rows, ORDER BY, LIMIT and OFFSET around the scopes of
    [Compiler], and the recursion that compiles nested queries through the same
    path. What holds of one compiled scope is lifted here to every select of
    the statement, however deep. *)
From S2P Require Export Compiler.
Local Open Scope Z_scope.

(** * The environment *)

(** The arguments of [compile_structured_query] that every recursive call gets
    unchanged. [se_tables] and [se_connections] are the maps schema validation
    fills, keyed by a scope's identity; [se_resolver] is the snapshot handed in,
    if any. *)
Record StatementEnv := MkStatementEnv {
  se_policy : Policy;
  se_principal : option Principal;
  se_connection_id : option string;
  se_resolver : option ConnectionResolver;
  se_connections : option ScopeConnections;
  se_tables : option (list (scope_path * sa_tables));
}.

Definition path_get {A} (path : scope_path) (m : list (scope_path * A)) : option A :=
  snd <$> find (λ e, bool_decide (e.1 = path)) m.

(** [cte_objects]: the compiled blocks by folded name. *)
Abbreviation cte_dict := (dict SaFrom).

Section statement.
Context `{CF : CaseFold} `{DA : DialectAdapter}.
(** The resolver used when no snapshot was handed in: the live registry. *)
Context (live : ConnectionResolver).

Definition scope_env (env : StatementEnv) (path : scope_path) (ctes : option cte_dict) : CompileEnv :=
  MkCompileEnv (se_policy env) (se_principal env) (se_connection_id env)
    (default live (se_resolver env)) (scope_table_connection (se_connections env) path)
    (list_to_set (dict_keys (default [] ctes))).

(** * Names and tables *)

(** The [.name] of an output column: a label, a column's own, a derived one. *)
Definition output_name (e : SaExpr) : string :=
  match e with ELabel n _ => n | EColumn _ c => col_name c | EOutput _ _ n => n | _ => EmptyString end.

(** [list(sub.c)] of a derived table, by position. *)
Definition output_columns (relation : string) (columns : list SaExpr) : list SaExpr :=
  imap (λ i e, EOutput relation i (output_name e)) columns.

Definition computed_columns (columns : list SaExpr) : list SaColumn :=
  map (λ e, MkSaColumn (output_name e) true false false false None) columns.

(** The alias map of a derived table: every column under its name, the last of
    two alike winning; then each bare projection under its written reference,
    by position, unless the key is taken. *)
Definition derived_alias_map (items : list SelectItem) (columns : list SaExpr) : dict SaExpr :=
  foldl (λ m ic, match ic.1 with
                 | ColumnItem ref => if is_some (dict_get ref m) then m else dict_set ref ic.2 m
                 | _ => m
                 end)
    (foldl (λ m c, dict_set (output_name c) c m) [] columns)
    (zip items columns).

(** [_resolve_cte_references]. *)
Definition resolve_cte_references (q : StructuredQuery) (tables : sa_tables)
  (ctes : option cte_dict) : sa_tables :=
  match ctes with
  | None | Some [] => tables
  | Some objects =>
      map (λ e,
        let source_name := casefold (physical_of (effective_name_map q) e.1) in
        match dict_get source_name objects with
        | Some cte =>
            (e.1, if bool_decide (casefold e.1 = source_name) then cte else FromAlias e.1 cte)
        | None => e
        end) tables
  end.

(** * The clauses that belong to the statement *)

Definition order_clause (tables : sa_tables) (alias_map : dict SaExpr) (fallback : bool)
  (orders : list OrderBySpec) : result (list SaExpr) :=
  map_result (λ o,
    resolve_output_ref tables alias_map fallback (ob_col o) ≫= λ col,
    order_by_terms col (ob_dir o) (ob_nulls o)) orders ≫= λ terms,
  Ok (concat terms).

(** [if query.offset: stmt.offset(...)]. *)
Definition offset_clause (q : StructuredQuery) : option Z :=
  if offset q =? 0 then None else Some (offset q).

(** [_RANK_FNS]. *)
Definition rank_fn_name (fn : RankFn) : string :=
  match fn with RankRowNumber => "row_number" | RankRank => "rank" | RankDenseRank => "dense_rank" end.

Definition rank_column (tables : sa_tables) (alias_map : dict SaExpr) (fallback : bool)
  (spec : TopNSpec) : result SaExpr :=
  map_result (resolve_output_ref tables alias_map fallback) (tn_partition_by spec) ≫= λ parts,
  order_clause tables alias_map fallback (tn_order_by spec) ≫= λ orders,
  Ok (ELabel "__rank" (EOver (rank_fn_name (tn_fn spec)) [] parts orders None)).

(** [ranked.c["__rank"]]: SQLAlchemy keys the first column of that name by it
    and suffixes the later ones. *)
Definition rank_key (relation : string) (columns : list SaExpr) : SaExpr :=
  default ENull (find (λ c, String.eqb (output_name c) "__rank") (output_columns relation columns)).

Definition plain_select (columns : list SaExpr) (from : SaFrom) (conditions : list SaExpr) : sa_select :=
  MkSaSelect columns from false [] conditions [] [].

(** [_apply_top_n]: the derived tables it builds, the outer select and its
    alias map. *)
Definition apply_top_n (stmt : sa_select) (q : StructuredQuery) (spec : TopNSpec)
  (tables : sa_tables) (alias_map : dict SaExpr) (is_aggregate : bool) :
  result (list (string * sa_relation) * sa_select * dict SaExpr) :=
  let output_count := length (ss_columns stmt) in
  (if is_aggregate then
     let agg_columns := output_columns "agg" (ss_columns stmt) in
     rank_column tables (derived_alias_map (select q) agg_columns) false spec ≫= λ rank,
     Ok ([("agg", RelSelect stmt)],
         plain_select (agg_columns ++ [rank])
           (FromComputed "agg" (computed_columns (ss_columns stmt))) [])
   else
     rank_column tables alias_map true spec ≫= λ rank, Ok ([], with_columns [rank] stmt))
  ≫= λ '(derived, ranked),
  let outer := firstn output_count (output_columns "ranked" (ss_columns ranked)) in
  Ok (derived ++ [("ranked", RelSelect ranked)],
      plain_select outer (FromComputed "ranked" (computed_columns (ss_columns ranked)))
        [ECompare OpLte (rank_key "ranked" (ss_columns ranked)) (lit_int (tn_n spec))],
      derived_alias_map (select q) outer).

(** The tail of [compile_structured_query], after the scope's own select. *)
Definition finish_select (env : StatementEnv) (tables : sa_tables) (q : StructuredQuery)
  (blocks : list (string * sa_stmt)) (body : sa_select * dict SaExpr * bool) :
  result (sa_stmt * Z) :=
  let '(stmt, alias_map, is_aggregate) := body in
  match top_n q with
  | Some spec => apply_top_n stmt q spec tables alias_map is_aggregate
  | None => Ok ([], stmt, alias_map)
  end ≫= λ '(derived, stmt, alias_map),
  order_clause tables alias_map (negb (is_some (top_n q))) (order_by q) ≫= λ orders,
  clamp_limit (limit q) (se_policy env) is_aggregate ≫= λ lim,
  Ok (MkSaStmt blocks derived stmt orders (Some lim) (offset_clause q), lim).

(** The tail of [_compile_set_operation]: the arms combined, wrapped in a plain
    select that carries the shared ORDER BY, LIMIT and OFFSET. *)
Definition finish_set_operation (env : StatementEnv) (tables : sa_tables) (q : StructuredQuery)
  (blocks : list (string * sa_stmt)) (spec : SetOpSpec)
  (arms : list (sa_select * dict SaExpr * bool)) : result (sa_stmt * Z) :=
  set_operation (so_op spec) (so_all spec) (map (λ a, a.1.1) arms) ≫= λ derived,
  let first_columns := match arms with a :: _ => ss_columns a.1.1 | [] => [] end in
  let columns := output_columns "derived" first_columns in
  order_clause tables (derived_alias_map (select q) columns) false (order_by q) ≫= λ orders,
  clamp_limit (limit q) (se_policy env) (forallb (λ a, a.2) arms) ≫= λ lim,
  Ok (MkSaStmt blocks [("derived", derived)]
        (plain_select columns (FromComputed "derived" (computed_columns first_columns)) [])
        orders (Some lim) (offset_clause q), lim).

(** * The recursion *)

(** [subquery_tables.get(id(...))] at the three places that ask. *)
Definition nested_tables (env : StatementEnv) (path : scope_path) : result sa_tables :=
  match se_tables env with
  | None => Raise (QueryValidationError "IN (subquery) is only supported in a WHERE clause")
  | Some m =>
      match path_get path m with
      | Some t => Ok t
      | None => Raise (QueryValidationError "Subquery was not schema-validated")
      end
  end.

Definition scoped_tables (env : StatementEnv) (path : scope_path) (what : string) : result sa_tables :=
  match path_get path (default [] (se_tables env)) with
  | Some t => Ok t
  | None => Raise (QueryValidationError (what +:+ " was not schema-validated"))
  end.

(** One scope at its place, its nested queries compiled by [compile]. *)
Definition compile_scope (env : StatementEnv) (ctes : option cte_dict) (path : scope_path)
  (compile : scope_path → sa_tables → StructuredQuery → result (sa_stmt * Z))
  (tables : sa_tables) (q : StructuredQuery) : result (sa_select * dict SaExpr * bool) :=
  compile_scope_body (scope_env env path ctes)
    (λ i s,
       nested_tables env (path ++ [InSubquery i]) ≫= λ t,
       compile (path ++ [InSubquery i]) t s ≫= λ r, Ok r.1)
    (resolve_cte_references q tables ctes) q.

(** What [_compile_cte] makes of a compiled body: the cap is stripped unless
    the caller set one, and the block is entered under its folded name. *)
Definition cte_statement (body : StructuredQuery) (st : sa_stmt) : sa_stmt :=
  if is_some (limit body) then st else without_limit st.

Definition cte_element (name : string) (st : sa_stmt) : SaFrom :=
  FromComputed name (computed_columns (ss_columns (sm_select st))).

Section nested.
Context (env : StatementEnv) (path : scope_path).
Context (compile : option cte_dict → scope_path → sa_tables → StructuredQuery → result (sa_stmt * Z)).

(** The loop over [query.ctes]: each block sees the earlier ones. *)
Fixpoint compile_blocks (i : nat) (objects : cte_dict) (specs : list CteSpec) :
  result (cte_dict * list (string * sa_stmt)) :=
  match specs with
  | [] => Ok (objects, [])
  | MkCteSpec name body :: rest =>
      scoped_tables env (path ++ [InCte i]) "cte" ≫= λ t,
      compile (Some objects) (path ++ [InCte i]) t body ≫= λ r,
      let st := cte_statement body r.1 in
      compile_blocks (S i) (dict_set (casefold name) (cte_element name st) objects) rest
        ≫= λ '(objects, blocks), Ok (objects, (name, st) :: blocks)
  end.

(** The loop over the arms after the carrier. *)
Fixpoint compile_arms (ctes : option cte_dict) (k : nat) (arms : list StructuredQuery) :
  result (list (sa_select * dict SaExpr * bool)) :=
  match arms with
  | [] => Ok []
  | a :: rest =>
      scoped_tables env (path ++ [InArm k]) "Set-operation arm" ≫= λ t,
      compile_scope env ctes (path ++ [InArm k]) (compile ctes) t a ≫= λ body,
      compile_arms ctes (S k) rest ≫= λ bodies, Ok (body :: bodies)
  end.
End nested.

(** [compile_structured_query] below its first lines, with [_compile_cte] and
    [_compile_set_operation]: blocks are built only where none were handed in. *)
Fixpoint compile_query (env : StatementEnv) (ctes : option cte_dict) (path : scope_path)
  (tables : sa_tables) (q : StructuredQuery) {struct q} : result (sa_stmt * Z) :=
  match ctes, Ast.ctes q with
  | None, _ :: _ =>
      compile_blocks env path (compile_query env) 0 [] (Ast.ctes q) ≫= λ '(objects, blocks),
      Ok (Some objects, blocks)
  | _, _ => Ok (ctes, [])
  end ≫= λ '(ctes, blocks),
  match set_op q with
  | Some (MkSetOpSpec op all_rows arms) =>
      compile_scope env ctes path (compile_query env ctes) tables q ≫= λ body,
      compile_arms env path (compile_query env) ctes 0 arms ≫= λ bodies,
      finish_set_operation env tables q blocks (MkSetOpSpec op all_rows arms) (body :: bodies)
  | None =>
      compile_scope env ctes path (compile_query env ctes) tables q ≫= λ body,
      finish_select env tables q blocks body
  end.

(** [compile_structured_query]: a snapshot without a map of connections has the
    map derived from it here, once for the whole statement. *)
Definition derive_connections `{UP : UrlParser} (env : StatementEnv) (q : StructuredQuery) :
  result StatementEnv :=
  match se_connections env, se_resolver env with
  | None, Some resolver =>
      match se_connection_id env with
      | None => Raise (QueryValidationError "compile_structured_query: connection_resolver was given without connection_id or an explicit scope_connections map")
      | Some cx =>
          resolve_scope_connections resolver q cx (se_principal env) ≫= λ m,
          Ok (MkStatementEnv (se_policy env) (se_principal env) (se_connection_id env)
                (se_resolver env) (Some m) (se_tables env))
      end
  | _, _ => Ok env
  end.

Definition compile_structured_query `{UP : UrlParser} (env : StatementEnv) (tables : sa_tables)
  (q : StructuredQuery) : result (sa_stmt * Z) :=
  derive_connections env q ≫= λ env, compile_query env None [] tables q.
End statement.

Lemma compile_query_eq `{CF : CaseFold} `{DA : DialectAdapter} live env ctes path tables q :
  compile_query live env ctes path tables q =
  match ctes, Ast.ctes q with
  | None, _ :: _ =>
      compile_blocks env path (compile_query live env) 0 [] (Ast.ctes q) ≫= λ '(objects, blocks),
      Ok (Some objects, blocks)
  | _, _ => Ok (ctes, [])
  end ≫= λ '(ctes, blocks),
  match set_op q with
  | Some (MkSetOpSpec op all_rows arms) =>
      compile_scope live env ctes path (compile_query live env ctes) tables q ≫= λ body,
      compile_arms live env path (compile_query live env) ctes 0 arms ≫= λ bodies,
      finish_set_operation env tables q blocks (MkSetOpSpec op all_rows arms) (body :: bodies)
  | None =>
      compile_scope live env ctes path (compile_query live env ctes) tables q ≫= λ body,
      finish_select env tables q blocks body
  end.
Proof. by destruct q. Qed.

(** * What a statement is made of *)

Definition join_stmts {S} (j : sa_join S) : list S := expr_stmts (sj_condition j).

(** The statements embedded in the elements of a select. *)
Definition select_stmts {S} (s : select_of S) : list S :=
  flat_map expr_stmts (ss_columns s) ++ flat_map join_stmts (ss_joins s)
  ++ flat_map expr_stmts (ss_where s) ++ flat_map expr_stmts (ss_group_by s)
  ++ flat_map expr_stmts (ss_having s).

Definition relation_selects {S} (r : relation_of S) : list (select_of S) :=
  match r with RelSelect s => [s] | RelCompound _ _ arms => arms end.

(** The selects a statement runs itself: its own and its derived tables'. *)
Definition own_selects (st : sa_stmt) : list sa_select :=
  sm_select st :: flat_map (λ d, relation_selects d.2) (sm_derived st).

(** [emits st s]: the select [s] is somewhere in the statement, in a WITH
    block, a derived table, an arm or a nested query, however deep. *)
Inductive emits : sa_stmt → sa_select → Prop :=
| emits_own st s : s ∈ own_selects st → emits st s
| emits_block st name b s : (name, b) ∈ sm_ctes st → emits b s → emits st s
| emits_nested st s' st' s : s' ∈ own_selects st → st' ∈ select_stmts s' → emits st' s → emits st s
| emits_ordered st e st' s : e ∈ sm_order_by st → st' ∈ expr_stmts e → emits st' s → emits st s.

(** Every statement embedded in the element satisfies [P]. *)
Definition embeds (P : sa_stmt → Prop) (e : SaExpr) : Prop := ∀ s, s ∈ expr_stmts e → P s.

(** * Nested statements come from nested queries only *)

Section embedding.
Context `{CF : CaseFold} `{DA : DialectAdapter} `{DL : !DialectLaws DA}.
Context (P : sa_stmt → Prop).

Lemma embeds_list l : (∀ e, e ∈ l → embeds P e) → ∀ s, s ∈ flat_map expr_stmts l → P s.
Proof. intros H s (e & He & Hs)%elem_of_flat_map. by apply (H e). Qed.

Lemma embeds_sub e e' : expr_stmts e' ⊆ expr_stmts e → embeds P e → embeds P e'.
Proof. intros Hs H s Hin. apply H. by apply Hs. Qed.

Lemma embeds_mapped {A} (f : A → result SaExpr) l k :
  map_result f l = Ok k → (∀ x y, x ∈ l → f x = Ok y → embeds P y) → ∀ y, y ∈ k → embeds P y.
Proof. intros Hk H y Hy. destruct (map_result_elem _ _ _ _ Hk Hy) as (x & ? & ?). by eapply H. Qed.

Lemma compile_column_embeds tables ref e : compile_column tables ref = Ok e → embeds P e.
Proof.
  unfold compile_column. intros ([t c] & _ & H)%bind_ok. apply bind_ok in H as (f & _ & H).
  apply bind_ok in H as (col & _ & [= <-]). intros s ?%not_elem_of_nil. done.
Qed.

Lemma scalar_arg_embeds tables a e : resolve_scalar_arg tables a = Ok e → embeds P e.
Proof.
  destruct a; cbn; [apply compile_column_embeds|]. intros [= <-] s ?%not_elem_of_nil. done.
Qed.

Lemma operator_embeds op col val e :
  apply_operator op col val = Ok e → embeds P col → embeds P (sa_operand val) → embeds P e.
Proof.
  intros H Hc Hv. unfold apply_operator in H.
  assert (H2 : ∀ st, st ∈ expr_stmts col ++ expr_stmts (sa_operand val) → P st).
  { intros st [?|?]%elem_of_app; [by apply Hc|by apply Hv]. }
  assert (Hj : ∀ j, embeds P (sa_eq_value col j) ∧ embeds P (sa_neq_value col j)).
  { intros j. unfold sa_eq_value, sa_neq_value. destruct (json_is_none j);
      (split; intros st; cbn; rewrite ?app_nil_r; apply Hc). }
  assert (He : embeds P (sa_eq col val) ∧ embeds P (sa_neq col val)).
  { destruct val as [v|v]; [split; exact H2|apply Hj]. }
  destruct op; try done; try (apply bind_ok in H as (l & _ & H)); try (injection H as <-);
    try apply He; try exact H2; try exact Hc.
  destruct l as [|x [|y l]]; [done|done|]. injection H as <-. exact Hc.
Qed.

(** One predicate: its operands, and the nested queries its context compiles. *)
Lemma compile_predicate_embeds {E Q} (compile_expr : E → result SaExpr) tables am ctx
  (p : Predicate E Q) e :
  (∀ x r, x ∈ predicate_expressions p → compile_expr x = Ok r → embeds P r) →
  (∀ k x, dict_get k am = Some x → embeds P x) →
  (∀ cx q st, ctx = Some cx → q ∈ predicate_subqueries p → wc_compile cx q = Ok st →
     P (without_limit st)) →
  compile_predicate compile_expr tables am ctx p = Ok e → embeds P e.
Proof.
  intros Hx Ham Hctx. unfold compile_predicate.
  assert (Hsub : ∀ op q st, q ∈ predicate_subqueries p → compile_in_subquery ctx op q = Ok st → P st).
  { intros op q st Hq. unfold compile_in_subquery. destruct ctx as [cx|]; [|done].
    destruct (_ && _); [done|]. intros (st' & Hst & [= <-])%bind_ok. by eapply Hctx. }
  destruct (EXISTS_OPS (pr_op p)).
  { destruct (pr_exists_subquery p) as [q|] eqn:Eq; [|done]. unfold compile_exists.
    destruct ctx as [cx|]; [|done]. intros (st & Hst & [= <-])%bind_ok.
    assert (P (without_limit st)).
    { eapply Hctx; [done| |done]. unfold predicate_subqueries. rewrite Eq. set_solver. }
    case_bool_decide; intros s Hs; cbn in Hs; set_solver. }
  intros (target & Ht & H)%bind_ok.
  assert (Htarget : embeds P target).
  { unfold resolve_predicate_target in Ht. destruct (pr_expr p) as [x|] eqn:Ex.
    { eapply Hx; [|done]. unfold predicate_expressions. rewrite Ex. set_solver. }
    destruct (pr_col_fn p) as [call|].
    { apply bind_ok in Ht as (args & Hargs & [= <-]). intros s Hs. cbn in Hs. revert s Hs.
      apply embeds_list. eapply embeds_mapped; [done|]. intros; by eapply scalar_arg_embeds. }
    destruct (pr_col p) as [ref|]; [|done].
    destruct (has_dot ref); [by eapply compile_column_embeds|].
    destruct (dict_get ref am) eqn:Eam; [|done]. injection Ht as <-. by eapply Ham. }
  unfold apply_predicate in H. destruct (pr_value_subquery p) as [q|] eqn:Eq.
  { apply bind_ok in H as (sub & Hs & H).
    assert (P sub) by (eapply Hsub; [|done]; unfold predicate_subqueries; rewrite Eq; set_solver).
    destruct (pr_op p); try done; injection H as <-; intros s Hin; cbn in Hin;
      rewrite ?elem_of_cons, ?elem_of_app in Hin; (destruct Hin; subst; [done || by apply Htarget|]);
      try (by apply Htarget); set_solver. }
  apply bind_ok in H as (val & Hv & H).
  assert (Hval : embeds P (sa_operand val)).
  { destruct (pr_value_col p) as [ref|].
    { apply bind_ok in Hv as (e' & He' & [= <-]). by eapply compile_column_embeds. }
    destruct (pr_value_expr p) as [x|] eqn:Ex.
    { apply bind_ok in Hv as (e' & He' & [= <-]). eapply Hx; [|done].
      unfold predicate_expressions. rewrite Ex. set_solver. }
    injection Hv as <-. intros s ?%not_elem_of_nil. done. }
  by eapply operator_embeds.
Qed.

Lemma compile_where_with_embeds {L} (leaf : L → result SaExpr) w : ∀ e,
  (∀ p r, p ∈ iter_where_predicates w → leaf p = Ok r → embeds P r) →
  compile_where_with leaf w = Ok e → embeds P e.
Proof.
  induction w as [w IH] using where_ind_children. intros e Hl He.
  destruct w as [p|a o n]; [by eapply Hl; [left|]|].
  assert (Hlist : ∀ l es, (∀ c, c ∈ l → c ∈ where_children (WhereGroup a o n)) →
    (∀ c p, c ∈ l → p ∈ iter_where_predicates c → p ∈ iter_where_predicates (WhereGroup a o n)) →
    map_result (compile_where_with leaf) l = Ok es → ∀ s, s ∈ flat_map expr_stmts es → P s).
  { intros l es Hc Hp Hes. apply embeds_list. eapply embeds_mapped; [done|].
    intros c y Hin Hy. eapply (IH c); [by apply Hc| |done]. intros p r Hpin. apply Hl. by eapply Hp. }
  cbn in He. destruct n as [c|].
  { apply bind_ok in He as (e' & He' & [= <-]). change (embeds P e').
    eapply (IH c); [cbn; set_solver| |done]. intros p r Hp. by apply Hl. }
  destruct a as [[|c cs]|].
  - destruct o as [cs|]; cbn in He; [|by injection He as <-; intros s ?%not_elem_of_nil].
    apply bind_ok in He as (es & Hes & [= <-]). intros s Hs. cbn in Hs. revert s Hs.
    eapply Hlist; [| |exact Hes]; [cbn; set_solver|].
    intros c p Hc Hp. apply elem_of_flat_map. eauto.
  - apply bind_ok in He as (e' & He' & He). apply bind_ok in He as (es & Hes & [= <-]).
    intros s Hs. cbn in Hs. apply elem_of_app in Hs as [Hs|Hs].
    + eapply (IH c); [cbn; set_solver| |exact He'|done]. intros p r Hp. apply Hl.
      apply elem_of_app. by left.
    + revert s Hs. eapply Hlist; [| |exact Hes]; [cbn; set_solver|].
      intros d p Hd Hp. apply elem_of_app. right. apply elem_of_flat_map. eauto.
  - destruct o as [cs|]; cbn in He; [|by injection He as <-; intros s ?%not_elem_of_nil].
    apply bind_ok in He as (es & Hes & [= <-]). intros s Hs. cbn in Hs. revert s Hs.
    eapply Hlist; [| |exact Hes]; [cbn; set_solver|].
    intros c p Hc Hp. apply elem_of_flat_map. eauto.
Qed.

Lemma compile_where_embeds {Q R} tables am (ctx : option (WhereCtx R))
  (w : WhereNode_ (Predicate (Expression_ Q) R)) e :
  (∀ p x r, p ∈ iter_where_predicates w → x ∈ predicate_expressions p →
     compile_expression tables x = Ok r → embeds P r) →
  (∀ k x, dict_get k am = Some x → embeds P x) →
  (∀ cx p q st, ctx = Some cx → p ∈ iter_where_predicates w → q ∈ predicate_subqueries p →
     wc_compile cx q = Ok st → P (without_limit st)) →
  compile_where tables am ctx w = Ok e → embeds P e.
Proof.
  intros Hx Ham Hctx. apply compile_where_with_embeds. intros p r Hp.
  apply compile_predicate_embeds; [|done|]; eauto.
Qed.

(** An expression embeds no statement at all: its CASE conditions are compiled
    without a context, and the adapter embeds only what it is handed. *)
Lemma compile_expression_embeds {Q} tables (e : Expression_ Q) : ∀ r,
  compile_expression tables e = Ok r → embeds P r.
Proof.
  induction e as [e IH] using expression_ind_children. intros r H.
  assert (Hnone : ∀ r : SaExpr, expr_stmts r = [] → embeds P r).
  { intros x Hx s Hs. rewrite Hx in Hs. by apply not_elem_of_nil in Hs. }
  destruct e as [ref|l|op x y|fn args|x to|whens els|x part|kind|x u n|fn over arg off buckets];
    cbn in H.
  - by eapply compile_column_embeds.
  - injection H as <-. apply Hnone. by destruct l.
  - apply bind_ok in H as (x' & Hx & H). apply bind_ok in H as (y' & Hy & [= <-]).
    apply IH in Hx, Hy; [|cbn; set_solver..]. intros s Hs.
    destruct op; cbn in Hs; rewrite ?app_nil_r in Hs;
      (apply elem_of_app in Hs as [?|?]; [by apply Hx|by apply Hy]).
  - apply bind_ok in H as (args' & Hargs & H).
    assert (Ha : ∀ s, s ∈ flat_map expr_stmts args' → P s).
    { apply embeds_list. eapply embeds_mapped; [done|]. intros; by eapply IH. }
    destruct (universal_expr_fn fn); [injection H as <-; exact Ha|].
    intros s Hs. apply Ha. eapply function_stmts; [done|done].
  - apply bind_ok in H as (x' & Hx & [= <-]). change (embeds P x').
    eapply (IH x); [cbn; set_solver|done].
  - apply bind_ok in H as (ws & Hws & H).
    assert (Hw : ∀ w, w ∈ ws → embeds P w.1 ∧ embeds P w.2).
    { intros w Hw. destruct (map_result_elem _ _ _ _ Hws Hw) as (b & Hb & Hc).
      apply bind_ok in Hc as (c & Hc & Ht). apply bind_ok in Ht as (t & Ht & [= <-]). split; cbn.
      - eapply compile_where_embeds; [| | |exact Hc]; [|done|done].
        intros p x r' Hp Hx. apply IH. cbn. apply elem_of_app. left. apply elem_of_flat_map.
        exists b. split; [done|]. unfold branch_expressions. apply elem_of_app. left.
        apply elem_of_flat_map. eauto.
      - eapply IH; [|done]. cbn. apply elem_of_app. left. apply elem_of_flat_map. exists b.
        split; [done|]. unfold branch_expressions. set_solver. }
    assert (Hws' : ∀ s, s ∈ flat_map (λ w : SaExpr * SaExpr, expr_stmts w.1 ++ expr_stmts w.2) ws → P s).
    { intros s (w & Hin & Hs)%elem_of_flat_map. destruct (Hw w Hin) as [H1 H2].
      apply elem_of_app in Hs as [?|?]; [by apply H1|by apply H2]. }
    destruct els as [x|].
    + apply bind_ok in H as (x' & Hx & [= <-]). intros s Hs. cbn in Hs.
      apply elem_of_app in Hs as [?|Hs]; [by apply Hws'|]. eapply (IH x); [cbn; set_solver|done|done].
    + injection H as <-. intros s Hs. cbn in Hs. rewrite app_nil_r in Hs. by apply Hws'.
  - apply bind_ok in H as (x' & Hx & H). eapply embeds_sub; [by eapply extract_stmts|].
    eapply (IH x); [cbn; set_solver|done].
  - injection H as <-. apply Hnone, now_stmts.
  - apply bind_ok in H as (x' & Hx & H). eapply embeds_sub; [by eapply date_add_stmts|].
    eapply (IH x); [cbn; set_solver|done].
  - apply bind_ok in H as (args & Hargs & H). apply bind_ok in H as (frame & _ & H).
    apply bind_ok in H as (parts & Hparts & H). apply bind_ok in H as (orders & Ho & [= <-]).
    intros s Hs. cbn [expr_stmts] in Hs. rewrite !flat_map_app, !elem_of_app in Hs.
    destruct Hs as [[Hs|[Hs|Hs]]|[Hs|Hs]].
    + destruct arg as [x|]; [|injection Hargs as <-; by apply not_elem_of_nil in Hs].
      apply bind_ok in Hargs as (x' & Hx & [= <-]). cbn in Hs. rewrite app_nil_r in Hs.
      eapply (IH x); [cbn; set_solver|done|done].
    + destruct fn, buckets; by apply not_elem_of_nil in Hs.
    + destruct off; by apply not_elem_of_nil in Hs.
    + revert s Hs. apply embeds_list. eapply embeds_mapped; [done|].
      intros; by eapply compile_column_embeds.
    + apply elem_of_flat_map in Hs as (o & Hoin & Hs). apply elem_of_concat in Hoin as (ts & Hts & Hoin).
      destruct (map_result_elem _ _ _ _ Ho Hts) as (spec & _ & Hspec).
      apply bind_ok in Hspec as (c & Hc & Hspec). apply order_exact in Hspec as ->.
      apply list_elem_of_singleton in Hoin as ->. by eapply compile_column_embeds.
Qed.
End embedding.

(** ** Numbering the nested queries *)

Definition number_list {E Q R} (f : nat → Q → R) :=
  fix number (n : nat) (l : list (WhereNode_ (Predicate E Q))) : list (WhereNode_ (Predicate E R)) :=
    match l with
    | [] => []
    | c :: cs => number_where f n c :: number (n + length (tree_subqueries c))%nat cs
    end.

Lemma number_where_group {E Q R} (f : nat → Q → R) n a o c :
  number_where f n (WhereGroup (P := Predicate E Q) a o c)
  = WhereGroup (number_list f n <$> a) (number_list f n <$> o) (number_where f n <$> c).
Proof. done. Qed.

Lemma tree_subqueries_group {E Q} (a o : option (list (WhereNode_ (Predicate E Q)))) n :
  tree_subqueries (WhereGroup a o n)
  = match n with
    | Some c => tree_subqueries c
    | None =>
        match a with
        | Some (c :: cs) => flat_map tree_subqueries (c :: cs)
        | _ => match o with Some cs => flat_map tree_subqueries cs | None => [] end
        end
    end.
Proof. by destruct n, a as [[|??]|]. Qed.

(** Numbering replaces the [i]-th nested query of the walk by [f (n + i)] of it
    and touches nothing else. *)
Lemma tree_subqueries_number {E Q R} (f : nat → Q → R) (w : WhereNode_ (Predicate E Q)) : ∀ n,
  tree_subqueries (number_where f n w) = imap (λ i s, f (n + i)%nat s) (tree_subqueries w).
Proof.
  induction w as [w IH] using where_ind_children. intros n. destruct w as [p|a o nt].
  { cbn. unfold tree_subqueries, predicate_subqueries; cbn.
    destruct (pr_value_subquery p), (pr_exists_subquery p); cbn; rewrite ?Nat.add_0_r; done. }
  assert (Hl : ∀ l m, (∀ c, c ∈ l → c ∈ where_children (WhereGroup a o nt)) →
    flat_map tree_subqueries (number_list f m l)
    = imap (λ i s, f (m + i)%nat s) (flat_map tree_subqueries l)).
  { induction l as [|c l IHl]; intros m Hc; [done|]. cbn.
    rewrite imap_app, IH by (apply Hc; set_solver). f_equal.
    rewrite IHl by (intros; apply Hc; set_solver). apply imap_ext. intros; f_equal; lia. }
  rewrite number_where_group, !tree_subqueries_group. destruct nt as [c|]; cbn [fmap option_fmap option_map].
  { apply IH. cbn. set_solver. }
  destruct a as [[|c cs]|]; cbn [fmap option_fmap option_map].
  - destruct o as [cs|]; [|done]. apply Hl. cbn; set_solver.
  - apply (Hl (c :: cs)). cbn; set_solver.
  - destruct o as [cs|]; [|done]. apply Hl. cbn; set_solver.
Qed.

Lemma number_where_expressions {E Q R} (f : nat → Q → R) (w : WhereNode_ (Predicate E Q)) : ∀ n p,
  p ∈ iter_where_predicates (number_where f n w) → ∃ p0, p0 ∈ iter_where_predicates w
    ∧ predicate_expressions p = predicate_expressions p0.
Proof.
  induction w as [w IH] using where_ind_children. intros n p. destruct w as [p0|a o nt].
  { intros ->%list_elem_of_singleton. exists p0. split; [by left|done]. }
  assert (Hl : ∀ l m, (∀ c, c ∈ l → c ∈ where_children (WhereGroup a o nt)) →
    p ∈ flat_map iter_where_predicates (number_list f m l) →
    ∃ p0, p0 ∈ flat_map iter_where_predicates l ∧ predicate_expressions p = predicate_expressions p0).
  { induction l as [|c l IHl]; intros m Hc; [by intros ?%not_elem_of_nil|]. cbn.
    rewrite elem_of_app. intros [Hp|Hp].
    - destruct (IH c (Hc c ltac:(set_solver)) _ _ Hp) as (p0 & ? & ?). exists p0. set_solver.
    - destruct (IHl _ ltac:(intros; apply Hc; set_solver) Hp) as (p0 & ? & ?). exists p0. set_solver. }
  rewrite number_where_group. destruct nt as [c|]; cbn [fmap option_fmap option_map].
  { apply (IH c). cbn. set_solver. }
  destruct a as [[|c cs]|]; cbn [fmap option_fmap option_map].
  - destruct o as [cs|]; [|by intros ?%not_elem_of_nil]. apply Hl. cbn; set_solver.
  - apply (Hl (c :: cs)). cbn; set_solver.
  - destruct o as [cs|]; [|by intros ?%not_elem_of_nil]. apply Hl. cbn; set_solver.
Qed.

Lemma nested_subqueries_trees q :
  nested_subqueries q
  = option_flat_map tree_subqueries (where_ q) ++ option_flat_map tree_subqueries (having q).
Proof.
  unfold nested_subqueries, iter_where_and_having_predicates. rewrite flat_map_app.
  f_equal; [destruct (where_ q) as [w|]|destruct (having q) as [w|]]; cbn; try done;
    unfold tree_subqueries; by rewrite where_flat_map_spec.
Qed.

(** ** One scope *)

Lemma compile_column_element `{CF : CaseFold} tables ref e :
  compile_column tables ref = Ok e → ∃ f c, e = EColumn f c.
Proof.
  unfold compile_column. intros ([t c] & _ & H)%bind_ok. apply bind_ok in H as (f & _ & H).
  apply bind_ok in H as (col & _ & [= <-]). eauto.
Qed.

Lemma alias_entries_elem (built : list (SaExpr * list string)) : ∀ k x,
  dict_get k (alias_entries built) = Some x → x ∈ built.*1.
Proof.
  unfold alias_entries.
  assert (Hn : ∀ (e : SaExpr) names m k x,
    dict_get k (foldl (λ m name, dict_set name e m) m names) = Some x → x = e ∨ dict_get k m = Some x).
  { intros e names. induction names as [|n names IH]; cbn; intros m k x H; [by right|].
    destruct (IH _ _ _ H) as [?|H']; [by left|]. destruct (decide (k = n)) as [->|Hne].
    - rewrite dict_get_set_eq in H'. left. congruence.
    - rewrite dict_get_set_ne in H' by done. by right. }
  assert (H : ∀ (built : list (SaExpr * list string)) m k x,
    dict_get k (foldl (λ m be, foldl (λ m name, dict_set name be.1 m) m be.2) m built) = Some x →
    x ∈ built.*1 ∨ dict_get k m = Some x).
  { intros b. induction b as [|[e ns] b IH]; cbn; intros m k x Hx; [by right|].
    destruct (IH _ _ _ Hx) as [?|Hx']; [set_solver|].
    destruct (Hn _ _ _ _ _ Hx') as [->|?]; [set_solver|by right]. }
  intros k x Hx. destruct (H _ _ _ _ Hx) as [?|[=]]. done.
Qed.

Section scope_embedding.
Context `{CF : CaseFold} `{DA : DialectAdapter} `{DL : !DialectLaws DA}.
Context (P : sa_stmt → Prop).

Lemma select_item_embeds env tables m item e names :
  compile_select_item env tables m item = Ok (e, names) → embeds P e.
Proof.
  destruct item as [ref|fn c arg dist alias|ref g alias|ref d alias|ref alias|ref x alias|call alias
    |ws els alias|x alias|fn over arg off buckets alias]; cbn; unfold compile_bare_item, labelled;
    intros H; try (apply bind_ok in H as (col & Hcol & H));
    try (assert (Hc : embeds P col) by (by eapply compile_column_embeds));
    try (assert (Hc : embeds P col) by (by eapply compile_expression_embeds));
    try (apply bind_ok in H as (e' & He & H)).
  - destruct e' as [mk|].
    + apply bind_ok in H as (e'' & He' & [= <- _]).
      apply compile_column_element in Hcol as (f & c & ->). apply mask_stmts in He'.
      intros s Hs. cbn in Hs. rewrite He' in Hs. by apply not_elem_of_nil in Hs.
    + by injection H as <- _.
  - injection H as <- _. destruct arg as [x|].
    + apply bind_ok in Hcol as (a & Ha & Hcol). apply bind_ok in Hcol as (name & _ & [= <-]).
      apply (compile_expression_embeds P) in Ha. intros s Hs. destruct dist; cbn in Hs;
        rewrite app_nil_r in Hs; by apply Ha.
    + case_bool_decide; [|done]. injection Hcol as <-. intros s Hs. by apply not_elem_of_nil in Hs.
  - injection H as <- _. change (embeds P e'). eapply embeds_sub; [by eapply bucket_stmts|done].
  - injection H as <- _. change (embeds P e'). eapply embeds_sub; [by eapply string_agg_stmts|done].
  - injection H as <- _. change (embeds P e'). eapply embeds_sub; [by eapply array_agg_stmts|done].
  - injection H as <- _. change (embeds P e'). eapply embeds_sub; [by eapply percentile_stmts|done].
  - injection H as <- _. intros s Hs. cbn in Hs. revert s Hs. apply embeds_list.
    eapply embeds_mapped; [done|]. intros; by eapply scalar_arg_embeds.
  - injection H as <- _. exact (compile_expression_embeds P tables (case_as_expression ws els) col Hcol).
  - by injection H as <- _.
  - injection H as <- _.
    exact (compile_expression_embeds P tables (window_as_expression fn over arg off buckets) col Hcol).
Qed.

Lemma output_ref_embeds tables am fallback ref e :
  (∀ k x, dict_get k am = Some x → embeds P x) →
  resolve_output_ref tables am fallback ref = Ok e → embeds P e.
Proof.
  intros Ham. unfold resolve_output_ref. destruct (dict_get ref am) eqn:E.
  - intros [= <-]. by eapply Ham.
  - destruct (_ && _); [|done]. apply compile_column_embeds.
Qed.

Lemma join_embeds tables j sj : compile_join tables j = Ok sj → embeds P (sj_condition sj).
Proof.
  unfold compile_join. intros (right & _ & H)%bind_ok.
  case_bool_decide; [injection H as <-; intros s Hs; by apply not_elem_of_nil in Hs|].
  apply bind_ok in H as (cond & Hc & [= <-]). cbn. destruct (js_condition j) as [w|].
  - eapply compile_where_embeds; [| | |exact Hc]; [|done|done].
    intros p x r _ _. by apply compile_expression_embeds.
  - apply bind_ok in Hc as (cs & Hcs & Hc).
    assert (Hall : ∀ s, s ∈ flat_map expr_stmts cs → P s).
    { apply embeds_list. eapply embeds_mapped; [done|]. intros pair y _ Hy.
      unfold compile_join_pair in Hy.
      repeat match goal with
      | H : (_ ≫= _) = Ok _ |- _ => apply bind_ok in H as (? & _ & H)
      | H : context [let '(_, _) := ?x in _] |- _ => destruct x
      end. injection Hy as <-. intros st Hs. by apply not_elem_of_nil in Hs. }
    destruct cs as [|c [|d cs]]; [done|..]; injection Hc as <-; [|exact Hall].
    intros s Hs. apply Hall. cbn. by rewrite app_nil_r.
Qed.

Lemma mandatory_filters_embed env tables m q ws :
  mandatory_filters env tables m q = Ok ws → ∀ w, w ∈ ws → embeds P w.
Proof.
  unfold mandatory_filters. intros (ls & Hls & [= <-])%bind_ok w (l & Hl & Hw)%elem_of_concat.
  destruct (map_result_elem _ _ _ _ Hls Hl) as (key & _ & Hkey). unfold filters_for_key in Hkey.
  case_bool_decide; [injection Hkey as <-; by apply not_elem_of_nil in Hw|].
  apply bind_ok in Hkey as (candidates & _ & Hkey).
  destruct (map_result_elem _ _ _ _ Hkey Hw) as (f & _ & Hf). unfold compile_row_filter in Hf.
  apply bind_ok in Hf as (value & _ & Hf). apply bind_ok in Hf as (table & _ & Hf).
  apply bind_ok in Hf as (col & _ & [= <-]). unfold sa_eq_value.
  destruct (json_is_none value); intros s Hs; by apply not_elem_of_nil in Hs.
Qed.

Abbreviation all_stmts s := (∀ st, st ∈ select_stmts s → P st).

Lemma all_stmts_where w s : all_stmts s → embeds P w → all_stmts (with_where_clause w s).
Proof.
  intros Hs Hw st. unfold select_stmts; cbn. rewrite flat_map_app; cbn. rewrite app_nil_r.
  rewrite !elem_of_app. intros Hst.
  destruct Hst as [?|[?|[[?|?]|[?|?]]]]; [| | |by apply Hw|..]; apply Hs; unfold select_stmts;
    rewrite !elem_of_app; tauto.
Qed.

Lemma all_stmts_having w s : all_stmts s → embeds P w → all_stmts (with_having_clause w s).
Proof.
  intros Hs Hw st. unfold select_stmts; cbn. rewrite flat_map_app; cbn. rewrite app_nil_r.
  rewrite !elem_of_app. intros Hst.
  destruct Hst as [?|[?|[?|[?|[?|?]]]]]; [..|by apply Hw]; apply Hs; unfold select_stmts;
    rewrite !elem_of_app; tauto.
Qed.

(** A tree whose nested queries sit at [n], [n+1], ... of the scope. *)
Lemma numbered_tree_embeds tables am allow (sub : nat → StructuredQuery → result sa_stmt) n
  (w : WhereNode) e :
  (∀ i s st, tree_subqueries w !! i = Some s → sub (n + i)%nat s = Ok st → P (without_limit st)) →
  (∀ k x, dict_get k am = Some x → embeds P x) →
  compile_where tables am (Some (MkWhereCtx (λ r, r) allow)) (number_where sub n w) = Ok e →
  embeds P e.
Proof.
  intros Hsub Ham He. eapply compile_where_embeds; [| | |exact He].
  - intros p x r _ _. apply compile_expression_embeds.
  - exact Ham.
  - intros cx p r st [= <-] Hp Hr Hst. cbn in Hst. subst r.
    assert (Hin : Ok st ∈ tree_subqueries (number_where sub n w)).
    { unfold tree_subqueries. rewrite where_flat_map_spec. apply elem_of_flat_map. eauto. }
    rewrite tree_subqueries_number in Hin.
    apply elem_of_lookup_imap in Hin as (i & s & Heq & Hs). by eapply Hsub.
Qed.

(** The nested statements of a compiled scope are its nested queries, compiled,
    without their row limits. *)
Lemma scope_body_embeds env sub tables q stmt am agg :
  compile_scope_body env sub tables q = Ok (stmt, am, agg) →
  (∀ i s st, nested_subqueries q !! i = Some s → sub i s = Ok st → P (without_limit st)) →
  all_stmts stmt ∧ ∀ k x, dict_get k am = Some x → embeds P x.
Proof.
  intros H Hsub. unfold compile_scope_body in H. apply bind_ok in H as ([cols m] & Hcols & H).
  apply bind_ok in H as (base & _ & H). apply bind_ok in H as (js & Hjs & H).
  apply bind_ok in H as (s1 & Hs1 & H). apply bind_ok in H as (s2 & Hs2 & H).
  apply bind_ok in H as (groups & Hg & H). apply bind_ok in H as (s3 & Hs3 & H).
  apply bind_ok in H as (s4 & Hs4 & [= <- <- <-]).
  unfold build_select_columns in Hcols. apply bind_ok in Hcols as (built & Hb & [= <- <-]).
  assert (Hbuilt : ∀ e, e ∈ built.*1 → embeds P e).
  { intros e ([e' names] & -> & Hin)%list_elem_of_fmap. cbn.
    destruct (map_result_elem _ _ _ _ Hb Hin) as (item & _ & Hitem). by eapply select_item_embeds. }
  assert (Ham : ∀ k x, dict_get k (alias_entries built) = Some x → embeds P x).
  { intros k x Hx. apply Hbuilt. by eapply alias_entries_elem. }
  split; [|done].
  assert (H1 : all_stmts s1).
  { unfold apply_mandatory_row_filters in Hs1. apply bind_ok in Hs1 as (ws & Hws & [= <-]).
    pose proof (mandatory_filters_embed _ _ _ _ _ Hws) as Hw.
    assert (H0 : all_stmts (MkSaSelect (built.*1) base (distinct q) js [] [] [])).
    { intros st. unfold select_stmts; cbn. rewrite !app_nil_r, elem_of_app. intros [Hst|Hst].
      - revert st Hst. by apply embeds_list.
      - apply elem_of_flat_map in Hst as (sj & Hsj & Hst).
        destruct (map_result_elem _ _ _ _ Hjs Hsj) as (j & _ & Hj). by eapply join_embeds. }
    clear -H0 Hw. revert H0. generalize (MkSaSelect built.*1 base (distinct q) js [] [] []).
    induction ws as [|w ws IH]; intros s H0; [done|]. cbn. apply IH; [set_solver|].
    apply all_stmts_where; [done|]. apply Hw. set_solver. }
  rewrite nested_subqueries_trees in Hsub.
  assert (H2 : all_stmts s2).
  { destruct (where_ q) as [w|]; [|by injection Hs2 as <-].
    apply bind_ok in Hs2 as (e & He & [= <-]). apply all_stmts_where; [done|].
    eapply (numbered_tree_embeds tables []); [|done|exact He].
    intros i s st Hi Hs. eapply Hsub; [|exact Hs]. by apply lookup_app_l_Some. }
  assert (H3 : all_stmts (with_group_clause groups s2)).
  { intros st. unfold select_stmts; cbn. rewrite flat_map_app, !elem_of_app.
    intros Hst. destruct Hst as [?|[?|[?|[[?|Hst]|?]]]]; try (apply H2; unfold select_stmts;
      rewrite !elem_of_app; tauto).
    revert st Hst. apply embeds_list. eapply embeds_mapped; [done|].
    intros ref y _. by apply output_ref_embeds. }
  assert (H4 : all_stmts s3).
  { destruct (having q) as [w|]; [|by injection Hs3 as <-].
    apply bind_ok in Hs3 as (e & He & [= <-]). apply all_stmts_having; [done|].
    eapply numbered_tree_embeds; [|exact Ham|exact He]. intros i s st Hi Hs. eapply Hsub; [|exact Hs].
    rewrite lookup_app_r by lia. by replace (_ + i - _)%nat with i by lia. }
  unfold apply_group_floor in Hs4. destruct (min_group_size _); [|by injection Hs4 as <-].
  destruct (is_aggregate_scope q); [|by injection Hs4 as <-].
  apply bind_ok in Hs4 as (fs & _ & Hs4). destruct (existsb _ fs); [done|]. injection Hs4 as <-.
  apply all_stmts_having; [done|]. intros s Hs. by apply not_elem_of_nil in Hs.
Qed.
End scope_embedding.

(** * The whole statement *)

(** ** Places *)

Section places.
Context `{CF : CaseFold} (root : StructuredQuery).

(** [q] is the scope of [root] at [path]. *)
Definition at_scope (path : scope_path) (q : StructuredQuery) : Prop :=
  ∃ d, MkScope path d q ∈ iter_query_scopes root.

Lemma at_scope_step path q step c :
  at_scope path q → (∀ d, ∃ d', (step, c, d') ∈ scope_children q d) → at_scope (path ++ [step]) c.
Proof.
  intros [d Hd] Hc. destruct (Hc d) as [d' Hd']. exists d'.
  exact (scopes_closed _ _ _ _ _ Hd Hd').
Qed.

Lemma at_scope_cte path q i c :
  at_scope path q → ctes q !! i = Some c → at_scope (path ++ [InCte i]) (cte_query c).
Proof.
  intros H Hi. eapply at_scope_step; [done|]. intros d. eexists. unfold scope_children.
  apply elem_of_app. left. apply elem_of_lookup_imap. eauto.
Qed.

Lemma at_scope_arm path q k a :
  at_scope path q → set_op_arms q !! k = Some a → at_scope (path ++ [InArm k]) a.
Proof.
  intros H Hi. eapply at_scope_step; [done|]. intros d. eexists. unfold scope_children.
  apply elem_of_app. right. apply elem_of_app. left. apply elem_of_lookup_imap. eauto.
Qed.

Lemma at_scope_subquery path q i s :
  at_scope path q → nested_subqueries q !! i = Some s → at_scope (path ++ [InSubquery i]) s.
Proof.
  intros H Hi. eapply at_scope_step; [done|]. intros d. eexists. unfold scope_children.
  apply elem_of_app. right. apply elem_of_app. right. apply elem_of_lookup_imap. eauto.
Qed.

(** A folded name some scope of the statement declares as a cte. *)
Definition declared_somewhere (n : string) : Prop :=
  ∃ path q c, at_scope path q ∧ c ∈ ctes q ∧ casefold (cte_name c) = n.
End places.

(** ** Where every select comes from *)

Section origin.
Context `{CF : CaseFold} `{DA : DialectAdapter} `{DL : !DialectLaws DA}.
Context (live : ConnectionResolver) (env : StatementEnv) (root_tables : sa_tables).
Context (root : StructuredQuery).

(** The tables schema validation resolved for the scope at [path]. *)
Definition tables_at (path : scope_path) (tables : sa_tables) : Prop :=
  (path = [] ∧ tables = root_tables) ∨ path_get path (default [] (se_tables env)) = Some tables.

Lemma nested_tables_at path t : nested_tables env path = Ok t → tables_at path t.
Proof.
  unfold nested_tables, tables_at. destruct (se_tables env) as [l|]; [|done].
  destruct (path_get path l) eqn:E; [|done]. intros [= ->]. right. exact E.
Qed.

Lemma scoped_tables_at path what t : scoped_tables env path what = Ok t → tables_at path t.
Proof.
  unfold scoped_tables, tables_at. destruct (path_get path _); [|done]. intros [= ->]. by right.
Qed.

Definition known_ctes (ctes : option cte_dict) : Prop :=
  ∀ n, n ∈ dict_keys (default [] ctes) → declared_somewhere root n.

(** A select of the statement: the body of a scope, that body with its rank
    added, or a plain select over one derived table. *)
Inductive origin : sa_select → Prop :=
| origin_scope path ctes compile tables q stmt am agg :
    at_scope root path q → tables_at path tables → known_ctes ctes →
    compile_scope live env ctes path compile tables q = Ok (stmt, am, agg) → origin stmt
| origin_ranked path ctes compile tables q stmt am agg rank :
    at_scope root path q → tables_at path tables → known_ctes ctes →
    compile_scope live env ctes path compile tables q = Ok (stmt, am, agg) →
    origin (with_columns [rank] stmt)
| origin_wrapper columns name cols conditions :
    origin (plain_select columns (FromComputed name cols) conditions).

(** Every select is of known origin, and what it embeds carries no row limit. *)
Definition all_origin (st : sa_stmt) : Prop :=
  ∀ s, emits st s → origin s ∧ ∀ st', st' ∈ select_stmts s → sm_limit st' = None.

(** A statement that stands inside another one. *)
Definition nested_ok (st : sa_stmt) : Prop := sm_limit st = None ∧ all_origin st.

Lemma emits_without_limit st s : emits (without_limit st) s → emits st s.
Proof.
  intros H; inversion H; subst; cbn in *;
    solve [by apply emits_own|by eapply emits_block|by eapply emits_nested|by eapply emits_ordered].
Qed.

(** A statement is of known origin when its own selects are and everything they
    embed is. *)
Lemma all_origin_intro st :
  (∀ s, s ∈ own_selects st → origin s ∧ ∀ st', st' ∈ select_stmts s → nested_ok st') →
  (∀ n b, (n, b) ∈ sm_ctes st → all_origin b) →
  (∀ e, e ∈ sm_order_by st → embeds nested_ok e) → all_origin st.
Proof.
  intros Ho Hb He s Hs. destruct Hs as [st s Hs|st n b s Hin Hs|st s' st' s Hown Hst Hs|st e st' s Hin Hst Hs].
  - destruct (Ho s Hs) as [? H]. split; [done|]. intros st' Hst. by apply H.
  - by apply (Hb n b).
  - destruct (Ho s' Hown) as [_ H]. by apply (H st').
  - by apply (He e Hin st').
Qed.

(** What is known of a compiled body. *)
Definition good_body (b : sa_select * dict SaExpr * bool) : Prop :=
  origin b.1.1 ∧ (∀ e, origin (with_columns [e] b.1.1))
  ∧ (∀ st, st ∈ select_stmts b.1.1 → nested_ok st)
  ∧ ∀ k x, dict_get k b.1.2 = Some x → embeds nested_ok x.

Lemma no_stmts_embeds (e : SaExpr) : expr_stmts e = [] → embeds nested_ok e.
Proof. intros H s Hs. rewrite H in Hs. by apply not_elem_of_nil in Hs. Qed.

Lemma output_columns_embed relation columns e :
  e ∈ output_columns relation columns → embeds nested_ok e.
Proof. intros (i & x & -> & _)%elem_of_lookup_imap. by apply no_stmts_embeds. Qed.

Lemma derived_alias_map_embeds items columns :
  (∀ e, e ∈ columns → embeds nested_ok e) →
  ∀ k x, dict_get k (derived_alias_map items columns) = Some x → embeds nested_ok x.
Proof.
  intros Hc.
  assert (H1 : ∀ cs m, (∀ e, e ∈ cs → embeds nested_ok e) →
    (∀ k x, dict_get k m = Some x → embeds nested_ok x) →
    ∀ k x, dict_get k (foldl (λ m c, dict_set (output_name c) c m) m cs) = Some x → embeds nested_ok x).
  { induction cs as [|c cs IH]; intros m Hcs Hm k x; cbn; [apply Hm|]. apply IH; [set_solver|].
    intros k' x'. destruct (decide (k' = output_name c)) as [->|Hne].
    - rewrite dict_get_set_eq. intros [= <-]. apply Hcs. set_solver.
    - rewrite dict_get_set_ne by done. apply Hm. }
  unfold derived_alias_map.
  assert (H2 : ∀ l m, (∀ ic : SelectItem * SaExpr, ic ∈ l → embeds nested_ok ic.2) →
    (∀ k x, dict_get k m = Some x → embeds nested_ok x) →
    ∀ k x, dict_get k (foldl (λ m (ic : SelectItem * SaExpr), match ic.1 with
      | ColumnItem ref => if is_some (dict_get ref m) then m else dict_set ref ic.2 m
      | _ => m end) m l) = Some x → embeds nested_ok x).
  { induction l as [|[i c] l IH]; intros m Hl Hm k x; cbn; [apply Hm|].
    apply IH; [intros; apply Hl; set_solver|].
    destruct i as [ref| | | | | | | | |]; try exact Hm. destruct (is_some _); [exact Hm|].
    intros k' x'. destruct (decide (k' = ref)) as [->|Hne].
    - rewrite dict_get_set_eq. intros [= <-]. apply (Hl (ColumnItem ref, c)). set_solver.
    - rewrite dict_get_set_ne by done. apply Hm. }
  apply H2; [|by apply H1]. intros [i c] Hin%elem_of_zip_r. by apply Hc.
Qed.

Lemma order_clause_embeds tables am fallback orders es :
  (∀ k x, dict_get k am = Some x → embeds nested_ok x) →
  order_clause tables am fallback orders = Ok es → ∀ e, e ∈ es → embeds nested_ok e.
Proof.
  intros Ham. unfold order_clause. intros (ls & Hls & [= <-])%bind_ok e (l & Hl & He)%elem_of_concat.
  destruct (map_result_elem _ _ _ _ Hls Hl) as (o & _ & Ho). apply bind_ok in Ho as (c & Hc & Ho).
  apply order_exact in Ho as ->. apply list_elem_of_singleton in He as ->.
  change (embeds nested_ok c). by eapply output_ref_embeds.
Qed.

Lemma rank_column_embeds tables am fallback spec r :
  (∀ k x, dict_get k am = Some x → embeds nested_ok x) →
  rank_column tables am fallback spec = Ok r → embeds nested_ok r.
Proof.
  intros Ham. unfold rank_column. intros (parts & Hp & H)%bind_ok.
  apply bind_ok in H as (orders & Ho & [= <-]). intros s Hs. cbn in Hs.
  apply elem_of_app in Hs as [Hs|Hs]; revert s Hs; apply embeds_list.
  - eapply embeds_mapped; [done|]. intros ref y _. by apply output_ref_embeds.
  - by eapply order_clause_embeds.
Qed.

Lemma wrapper_stmts columns f conditions :
  (∀ e, e ∈ columns → embeds nested_ok e) → (∀ e, e ∈ conditions → embeds nested_ok e) →
  ∀ st, st ∈ select_stmts (plain_select columns f conditions) → nested_ok st.
Proof.
  intros Hc Hw st. unfold select_stmts; cbn. rewrite !app_nil_r, elem_of_app.
  intros [Hst|Hst]; revert st Hst; by apply embeds_list.
Qed.

Lemma with_columns_stmts rank s :
  (∀ st, st ∈ select_stmts s → nested_ok st) → embeds nested_ok rank →
  ∀ st, st ∈ select_stmts (with_columns [rank] s) → nested_ok st.
Proof.
  intros Hs Hr st. unfold select_stmts; cbn. rewrite flat_map_app; cbn. rewrite app_nil_r.
  rewrite !elem_of_app. intros Hst.
  destruct Hst as [[?|?]|[?|[?|[?|?]]]]; [|by apply Hr|..]; apply Hs; unfold select_stmts;
    rewrite !elem_of_app; tauto.
Qed.

Lemma rank_key_embeds relation columns : embeds nested_ok (rank_key relation columns).
Proof.
  unfold rank_key. destruct (find _ _) as [e|] eqn:E; cbn; [|by apply no_stmts_embeds].
  apply find_some in E as [E _]. apply list_elem_of_In in E. by eapply output_columns_embed.
Qed.

Lemma apply_top_n_origin stmt am agg q spec tables derived outer am' :
  good_body (stmt, am, agg) →
  apply_top_n stmt q spec tables am agg = Ok (derived, outer, am') →
  (∀ s, s ∈ outer :: flat_map (λ d, relation_selects d.2) derived →
     origin s ∧ ∀ st, st ∈ select_stmts s → nested_ok st)
  ∧ ∀ k x, dict_get k am' = Some x → embeds nested_ok x.
Proof.
  intros (Ho & Hr & Hs & Ham) H. cbn in *. unfold apply_top_n in H.
  apply bind_ok in H as ([d ranked] & Hd & H). injection H as <- <- <-.
  assert (Houter : ∀ e, e ∈ firstn (length (ss_columns stmt)) (output_columns "ranked" (ss_columns ranked)) →
    embeds nested_ok e).
  { intros e He. apply (output_columns_embed "ranked" (ss_columns ranked)).
    apply elem_of_take in He as (i & Hi & _). by eapply list_elem_of_lookup_2. }
  split; [|by apply derived_alias_map_embeds].
  assert (Hd' : ∀ s, s ∈ flat_map (λ d, relation_selects d.2) (d ++ [("ranked", RelSelect ranked)]) →
    origin s ∧ ∀ st, st ∈ select_stmts s → nested_ok st).
  { destruct agg; apply bind_ok in Hd as (rank & Hrank & [= <- <-]); intros s Hin.
    - cbn in Hin. apply elem_of_cons in Hin as [->|Hin]; [done|].
      apply list_elem_of_singleton in Hin as ->. split; [apply origin_wrapper|].
      apply wrapper_stmts; [|by intros e ?%not_elem_of_nil].
      intros e [He|Hrk]%elem_of_app; [by eapply output_columns_embed|].
      apply list_elem_of_singleton in Hrk as ->.
      eapply rank_column_embeds; [|done]. apply derived_alias_map_embeds.
      apply output_columns_embed.
    - cbn in Hin. apply list_elem_of_singleton in Hin as ->. split; [done|].
      apply with_columns_stmts; [done|]. by eapply rank_column_embeds. }
  intros s [->|Hin]%elem_of_cons; [|by apply Hd']. split; [apply origin_wrapper|].
  apply wrapper_stmts; [done|]. intros e ->%list_elem_of_singleton. intros st Hst. cbn in Hst.
  rewrite app_nil_r in Hst. by eapply rank_key_embeds.
Qed.

Lemma finish_select_origin tables q blocks body st lim :
  good_body body → (∀ n b, (n, b) ∈ blocks → all_origin b) →
  finish_select env tables q blocks body = Ok (st, lim) → all_origin st.
Proof.
  destruct body as [[stmt am] agg]. intros Hg Hb H. unfold finish_select in H.
  apply bind_ok in H as ([[derived outer] am'] & Hd & H).
  apply bind_ok in H as (orders & Ho & H). apply bind_ok in H as (l & _ & [= <- <-]).
  assert (Hown : (∀ s, s ∈ outer :: flat_map (λ d, relation_selects d.2) derived →
     origin s ∧ ∀ st, st ∈ select_stmts s → nested_ok st)
    ∧ ∀ k x, dict_get k am' = Some x → embeds nested_ok x).
  { destruct (top_n q); [by eapply apply_top_n_origin|]. injection Hd as <- <- <-.
    destruct Hg as (? & _ & ? & ?). split; [|done]. by intros s ->%list_elem_of_singleton. }
  destruct Hown as [Hown Ham]. apply all_origin_intro; [done|done|]. by eapply order_clause_embeds.
Qed.

Lemma finish_set_operation_origin tables q blocks spec bodies st lim :
  (∀ b, b ∈ bodies → good_body b) → (∀ n b, (n, b) ∈ blocks → all_origin b) →
  finish_set_operation env tables q blocks spec bodies = Ok (st, lim) → all_origin st.
Proof.
  intros Hg Hb H. unfold finish_set_operation in H. apply bind_ok in H as (derived & Hd & H).
  apply bind_ok in H as (orders & Ho & H). apply bind_ok in H as (l & _ & [= <- <-]).
  apply compound_exact in Hd as ->. apply all_origin_intro; [|done|].
  - intros s [->|Hin]%elem_of_cons.
    + split; [apply origin_wrapper|]. apply wrapper_stmts; [|by intros e ?%not_elem_of_nil].
      intros e He. by eapply output_columns_embed.
    + cbn in Hin. rewrite app_nil_r in Hin. apply elem_of_map in Hin as (b & -> & Hin).
      by destruct (Hg b Hin) as (? & _ & ? & _).
  - eapply order_clause_embeds; [|done]. apply derived_alias_map_embeds. apply output_columns_embed.
Qed.

(** What is proved of each query by induction: compiled as a statement it has
    only selects of known origin, and so has the body of its scope. *)
Definition compiles_well (q : StructuredQuery) : Prop :=
  ∀ path ctes tables, at_scope root path q → tables_at path tables → known_ctes ctes →
    (∀ st lim, compile_query live env ctes path tables q = Ok (st, lim) → all_origin st)
    ∧ ∀ body, compile_scope live env ctes path (compile_query live env ctes) tables q = Ok body →
        good_body body.

Lemma compile_scope_good q path ctes tables body :
  (∀ c, c ∈ query_children q → compiles_well c) → at_scope root path q → tables_at path tables →
  known_ctes ctes → compile_scope live env ctes path (compile_query live env ctes) tables q = Ok body → good_body body.
Proof.
  intros IH Hp Ht Hk H. destruct body as [[stmt am] agg].
  destruct (scope_body_embeds nested_ok _ _ _ _ _ _ _ H) as [Hs Ham].
  { intros i s st Hi Hsub. apply bind_ok in Hsub as (t & Hnt & Hsub).
    apply bind_ok in Hsub as ([st' lim] & Hst & [= <-]). split; [done|]. intros s' Hs'%emits_without_limit.
    assert (Hc : s ∈ query_children q).
    { unfold query_children. apply list_elem_of_lookup_2 in Hi. set_solver. }
    destruct (IH s Hc (path ++ [InSubquery i]) ctes t (at_scope_subquery _ _ _ _ _ Hp Hi)
      (nested_tables_at _ _ Hnt) Hk) as [H1 _].
    exact (H1 st' lim Hst s' Hs'). }
  split_and!; [by eapply origin_scope| |done|done]. intros e. by eapply origin_ranked.
Qed.

Lemma compile_blocks_good q path : 
  (∀ c, c ∈ query_children q → compiles_well c) → at_scope root path q →
  ∀ specs i objects objects' blocks,
    (∀ j c, specs !! j = Some c → ctes q !! (i + j)%nat = Some c) → known_ctes (Some objects) →
    compile_blocks env path (compile_query live env) i objects specs = Ok (objects', blocks) →
    known_ctes (Some objects') ∧ ∀ n b, (n, b) ∈ blocks → all_origin b.
Proof.
  intros IH Hp. induction specs as [|[name bq] specs IHs]; intros i objects objects' blocks Hi Hk H.
  { cbn in H. injection H as <- <-. split; [done|]. by intros n b ?%not_elem_of_nil. }
  cbn in H. apply bind_ok in H as (t & Hnt & H). apply bind_ok in H as ([st lim] & Hst & H).
  apply bind_ok in H as ([objs bs] & Hr & [= <- <-]). cbn in Hr.
  assert (Hq : ctes q !! i = Some (MkCteSpec name bq)).
  { rewrite <-(Nat.add_0_r i). by apply Hi. }
  assert (Hb : all_origin (cte_statement bq st)).
  { assert (Hc : bq ∈ query_children q).
    { unfold query_children. apply elem_of_app. left. apply elem_of_map. exists (MkCteSpec name bq).
      split; [done|]. by eapply list_elem_of_lookup_2. }
    assert (all_origin st).
    { destruct (IH bq Hc (path ++ [InCte i]) (Some objects) t
        (at_scope_cte _ _ _ _ (MkCteSpec name bq) Hp Hq) (scoped_tables_at _ _ _ Hnt) Hk) as [H1 _]. by eapply H1. }
    unfold cte_statement. destruct (is_some _); [done|]. intros s Hs%emits_without_limit. auto. }
  destruct (IHs (S i) _ _ _ ltac:(intros j c Hj; rewrite Nat.add_succ_comm; by apply Hi)
    ltac:(intros n Hn; cbn in Hn; apply dict_keys_set in Hn as [->|Hn];
          [exists path, q, (MkCteSpec name bq); split_and!; [done|by eapply list_elem_of_lookup_2|done]
          |by apply Hk]) Hr) as [Hk' Hbs].
  split; [done|]. intros n b [[= -> ->]|Hin]%elem_of_cons; [done|by eapply Hbs].
Qed.

Lemma compile_arms_good q path ctes :
  (∀ c, c ∈ query_children q → compiles_well c) → at_scope root path q → known_ctes ctes →
  ∀ arms k bodies, (∀ j a, arms !! j = Some a → set_op_arms q !! (k + j)%nat = Some a) →
    compile_arms live env path (compile_query live env) ctes k arms = Ok bodies →
    ∀ b, b ∈ bodies → good_body b.
Proof.
  intros IH Hp Hk. induction arms as [|a arms IHa]; intros k bodies Hi H.
  { injection H as <-. by intros b ?%not_elem_of_nil. }
  cbn in H. apply bind_ok in H as (t & Hnt & H). apply bind_ok in H as (body & Hb & H).
  apply bind_ok in H as (bs & Hbs & [= <-]).
  assert (Hq : set_op_arms q !! k = Some a) by (rewrite <-(Nat.add_0_r k); by apply Hi).
  intros b [->|Hin]%elem_of_cons.
  - assert (Hc : a ∈ query_children q).
    { unfold query_children. apply list_elem_of_lookup_2 in Hq. set_solver. }
    destruct (IH a Hc (path ++ [InArm k]) ctes t (at_scope_arm _ _ _ _ _ Hp Hq)
      (scoped_tables_at _ _ _ Hnt) Hk) as [_ H2].
    by apply H2.
  - eapply (IHa (S k)); [|exact Hbs|done]. intros j c Hj. rewrite Nat.add_succ_comm. by apply Hi.
Qed.

Lemma compile_query_well q : compiles_well q.
Proof.
  induction q as [q IH] using query_ind_children. intros path ctes tables Hp Ht Hk.
  split; [|intros body; by apply compile_scope_good]. intros st lim H.
  rewrite compile_query_eq in H. apply bind_ok in H as ([ctes' blocks] & Hc & H').
  assert (known_ctes ctes' ∧ ∀ n b, (n, b) ∈ blocks → all_origin b) as [Hk' Hb].
  { destruct ctes as [objects|]; [injection Hc as <- <-; split; [done|by intros n b ?%not_elem_of_nil]|].
    destruct (Ast.ctes q) as [|c cs] eqn:Ec;
      [injection Hc as <- <-; split; [done|by intros n b ?%not_elem_of_nil]|].
    apply bind_ok in Hc as ([objects bs] & Hb & [= <- <-]).
    eapply (compile_blocks_good q path IH Hp (c :: cs) 0 []); [by rewrite Ec| |exact Hb].
    intros n Hn. by apply not_elem_of_nil in Hn. }
  destruct (set_op q) as [[op all_rows arms]|] eqn:Es; apply bind_ok in H' as (body & Hbody & H').
  - apply bind_ok in H' as (bodies & Hbodies & H').
    eapply finish_set_operation_origin; [|exact Hb|exact H'].
    intros b [->|Hin]%elem_of_cons; [by eapply compile_scope_good|].
    eapply (compile_arms_good q path ctes' IH Hp Hk' arms 0); [|exact Hbodies|done].
    intros j a Hj. unfold set_op_arms. by rewrite Es.
  - eapply finish_select_origin; [|exact Hb|exact H']. by eapply compile_scope_good.
Qed.
End origin.

(** ** Row limits *)

Section limits.
Context `{CF : CaseFold} `{DA : DialectAdapter}.
Context (live : ConnectionResolver) (env : StatementEnv).

(** The one limit of a statement: what was asked, or the default, under the
    ceiling of its kind. A response is aggregate only when every arm is. *)
Definition asked_limit (p : Policy) (q : StructuredQuery) : Z := default (default_limit (caps p)) (limit q).

Definition limit_ceiling (p : Policy) (q : StructuredQuery) : Z :=
  if forallb is_aggregate_scope (iter_set_op_arms q) then max_limit_aggregate (caps p)
  else max_limit (caps p).

Lemma compile_scope_aggregate ctes path compile tables q s am agg :
  compile_scope live env ctes path compile tables q = Ok (s, am, agg) → agg = is_aggregate_scope q.
Proof.
  unfold compile_scope, compile_scope_body. intros H.
  repeat match goal with
  | H : (_ ≫= _) = Ok _ |- _ => apply bind_ok in H as (? & _ & H)
  | H : context [let '(_, _) := ?x in _] |- _ => destruct x
  end. by injection H as _ _ <-.
Qed.

Lemma compile_arms_aggregate path ctes compile arms : ∀ k bodies,
  compile_arms live env path compile ctes k arms = Ok bodies →
  forallb (λ b, b.2) bodies = forallb is_aggregate_scope arms.
Proof.
  induction arms as [|a arms IH]; intros k bodies H; cbn in H; [by injection H as <-|].
  apply bind_ok in H as (t & _ & H). apply bind_ok in H as ([[s am] agg] & Hb & H).
  apply bind_ok in H as (bs & Hbs & [= <-]). cbn. by rewrite (compile_scope_aggregate _ _ _ _ _ _ _ _ Hb), (IH _ _ Hbs).
Qed.

Lemma compile_query_limit ctes path tables q st lim :
  compile_query live env ctes path tables q = Ok (st, lim) →
  sm_limit st = Some lim ∧ 1 ≤ asked_limit (se_policy env) q
  ∧ lim = Z.min (asked_limit (se_policy env) q) (limit_ceiling (se_policy env) q).
Proof.
  assert (Hclamp : ∀ agg l, clamp_limit (limit q) (se_policy env) agg = Ok l →
    agg = forallb is_aggregate_scope (iter_set_op_arms q) →
    1 ≤ asked_limit (se_policy env) q
    ∧ l = Z.min (asked_limit (se_policy env) q) (limit_ceiling (se_policy env) q)).
  { intros agg l H ->. unfold clamp_limit in H. unfold limit_ceiling.
    change (default (default_limit (caps (se_policy env))) (limit q)) with (asked_limit (se_policy env) q) in H.
    destruct (Z.ltb_spec (asked_limit (se_policy env) q) 1); [done|]. by injection H as <-. }
  intros H. unfold iter_set_op_arms, set_op_arms in Hclamp.
  rewrite compile_query_eq in H. apply bind_ok in H as ([ctes' blocks] & _ & H).
  destruct (set_op q) as [[op all_rows arms]|] eqn:Es;
    apply bind_ok in H as ([[s am] agg] & Hb & H); apply compile_scope_aggregate in Hb as ->.
  - apply bind_ok in H as (bodies & Hbs & H). apply compile_arms_aggregate in Hbs.
    unfold finish_set_operation in H. apply bind_ok in H as (d & _ & H).
    apply bind_ok in H as (o & _ & H). apply bind_ok in H as (l & Hl & [= <- <-]).
    split; [done|]. eapply Hclamp; [exact Hl|]. cbn. by rewrite Hbs.
  - unfold finish_select in H. apply bind_ok in H as ([[d s'] am'] & _ & H).
    apply bind_ok in H as (o & _ & H). apply bind_ok in H as (l & Hl & [= <- <-]).
    split; [done|]. eapply Hclamp; [exact Hl|]. cbn. by rewrite andb_true_r.
Qed.

(** A block keeps a limit only where its author wrote one. *)
Definition block_limited (c : CteSpec) (b : string * sa_stmt) : Prop :=
  b.1 = cte_name c
  ∧ match limit (cte_query c) with
    | None => sm_limit b.2 = None
    | Some _ => sm_limit b.2 = Some (Z.min (asked_limit (se_policy env) (cte_query c))
                                           (limit_ceiling (se_policy env) (cte_query c)))
    end.

Lemma compile_blocks_limited path specs : ∀ i objects objects' blocks,
  compile_blocks env path (compile_query live env) i objects specs = Ok (objects', blocks) →
  Forall2 block_limited specs blocks.
Proof.
  induction specs as [|[name bq] specs IH]; intros i objects objects' blocks H; cbn in H.
  { injection H as <- <-. constructor. }
  apply bind_ok in H as (t & _ & H). apply bind_ok in H as ([st lim] & Hst & H).
  apply bind_ok in H as ([objs bs] & Hr & [= <- <-]). constructor; [|by eapply IH].
  split; [done|]. cbn. apply compile_query_limit in Hst as (Hs & _ & ->). unfold cte_statement.
  by destruct (limit bq).
Qed.

Lemma compile_query_blocks path tables q st lim :
  compile_query live env None path tables q = Ok (st, lim) → Forall2 block_limited (Ast.ctes q) (sm_ctes st).
Proof.
  rewrite compile_query_eq. intros ([ctes' blocks] & Hc & H)%bind_ok.
  assert (sm_ctes st = blocks) as ->.
  { destruct (set_op q) as [[op all_rows arms]|]; apply bind_ok in H as ([[s am] agg] & _ & H).
    - apply bind_ok in H as (bodies & _ & H). unfold finish_set_operation in H.
      apply bind_ok in H as (d & _ & H). apply bind_ok in H as (o & _ & H).
      by apply bind_ok in H as (l & _ & [= <- <-]).
    - unfold finish_select in H. apply bind_ok in H as ([[d s'] am'] & _ & H).
      apply bind_ok in H as (o & _ & H). by apply bind_ok in H as (l & _ & [= <- <-]). }
  destruct (Ast.ctes q) as [|c cs]; [injection Hc as _ <-; constructor|].
  apply bind_ok in Hc as ([objects bs] & Hb & [= _ <-]). by eapply compile_blocks_limited.
Qed.
End limits.

(** * Properties *)

Section properties.
Context `{CF : CaseFold} `{DA : DialectAdapter} `{DL : !DialectLaws DA} `{SV : SqlValues} `{UP : UrlParser}.

(** What the policies governing scope [q] (found at [path]) require of a select
    that renders it. *)
Record governed_select (live : ConnectionResolver) (env : StatementEnv) (root_tables tables : sa_tables)
  (root : StructuredQuery) (path : scope_path) (q : StructuredQuery) (s : sa_select) : Prop := {
  gs_scope : at_scope root path q;
  gs_tables : ∃ scope_tables ctes, tables_at env root_tables path scope_tables
    ∧ known_ctes root ctes ∧ tables = resolve_cte_references q scope_tables ctes;
  gs_filtered key : key ∈ declared_keys q →
    declared_somewhere root (casefold (physical_of (effective_name_map q) key))
    ∨ ∃ candidates table, candidate_policies (scope_env live env path None) key = Ok candidates
      ∧ table_by_name tables key = Ok table
      ∧ (table = ss_from s ∨ ∃ j, j ∈ ss_joins s ∧ sj_right j = table)
      ∧ ∀ p f, p ∈ candidates → f ∈ mandatory_row_filters (gates p) →
          casefold (rf_table f) = casefold (physical_of (effective_name_map q) key) →
          ∃ value col, resolve_row_filter f (se_principal env) = Ok value
            ∧ resolve_column (from_columns table) (rf_column f) = Ok col
            ∧ sa_eq_value (EColumn table col) value ∈ ss_where s
            ∧ ∀ cx r, r ∈ selected_rows cx s →
                passes cx (sa_eq_value (EColumn table col) value) r = true;
  gs_masked i ref t c candidates p : select q !! i = Some (ColumnItem ref) →
    parse_column_ref ref = Ok (t, c) →
    candidate_policies (scope_env live env path None) t = Ok candidates → p ∈ candidates →
    column_mask p (physical_of (effective_name_map q) t) c ≠ None →
    ∃ f col m e, column_mask_anywhere (physical_of (effective_name_map q) t) c candidates = Some m
      ∧ column_mask_expr (EColumn f col) m = Ok e ∧ exposes f col e = false
      ∧ ss_columns s !! i = Some (ELabel (col_name col) e);
  gs_floor k : min_group_size (windows (se_policy env)) = Some k → is_aggregate_scope q = true →
    count_floor k ∈ ss_having s;
}.

Lemma governed_select_ranked live env rt tables root path q s rank :
  governed_select live env rt tables root path q s →
  governed_select live env rt tables root path q (with_columns [rank] s).
Proof.
  intros [H1 Ht H2 H3 H4]. split; [done|done|exact H2| |exact H4].
  intros i ref t c candidates p Hi Hp Hc Hin Hm.
  destruct (H3 _ _ _ _ _ _ Hi Hp Hc Hin Hm) as (f & col & m & e & ? & ? & ? & Hcol).
  exists f, col, m, e. split_and!; [done..|]. cbn. by apply lookup_app_l_Some.
Qed.

Lemma compile_scope_governed live env rt root path ctes compile tables q s am agg :
  at_scope root path q → tables_at env rt path tables → known_ctes root ctes →
  compile_scope live env ctes path compile tables q = Ok (s, am, agg) →
  governed_select live env rt (resolve_cte_references q tables ctes) root path q s.
Proof.
  intros Hp Ht Hk H. unfold compile_scope in H. split; [done|by exists tables, ctes| | |].
  - intros key Hkey.
    destruct (decide (casefold (physical_of (effective_name_map q) key)
                       ∈ (list_to_set (dict_keys (default [] ctes)) : gset string))) as [Hin|Hin].
    { left. apply Hk. by rewrite elem_of_list_to_set in Hin. }
    right. destruct (scope_filters_bind _ _ _ _ _ _ _ key H Hkey Hin)
      as (candidates & table & Hc & Htn & Hel & Hf). exists candidates, table. by split_and!.
  - intros i ref t c candidates p Hi Hpr Hc Hin Hm.
    destruct (scope_masks_apply _ _ _ _ _ _ _ i ref t c candidates p H Hi Hpr Hc Hin Hm)
      as (f & col & m & e & _ & ? & ? & ? & ?). by exists f, col, m, e.
  - intros k Hm Ha. apply compile_scope_body_ok in H. by destruct (scd_floor _ _ _ _ _ H k Hm Ha).
Qed.

Lemma compiled_governed live env tables q st lim s :
  compile_structured_query live env tables q = Ok (st, lim) → emits st s →
  ∃ env', derive_connections env q = Ok env'
    ∧ ((∃ columns name cols conditions, s = plain_select columns (FromComputed name cols) conditions)
       ∨ ∃ scope_tables path q', governed_select live env' tables scope_tables q path q' s).
Proof.
  unfold compile_structured_query. intros (env' & He & H)%bind_ok Hs. exists env'. split; [done|].
  assert (Hroot : at_scope q [] q) by (exists 0%nat; apply root_in_scopes).
  destruct (compile_query_well live env' tables q q [] None tables Hroot) as [Hw _];
    [by left|intros n Hn; by apply not_elem_of_nil in Hn|].
  destruct (Hw st lim H s Hs) as [Ho _]. destruct Ho as [path ctes compile tbl q' s am agg Hp Ht Hk Hc
    |path ctes compile tbl q' s am agg rank Hp Ht Hk Hc|columns name cols conditions].
  - right. eexists _, path, q'. by eapply compile_scope_governed.
  - right. eexists _, path, q'. eapply governed_select_ranked. by eapply compile_scope_governed.
  - left. by eexists _, _, _, _.
Qed.

(** C2. No select of a compiled statement escapes the policy. Wherever it stands
    (the statement itself, a cte block, an arm of a set operation, a ranked
    derived table, a nested query at any depth), it either only reads a derived
    table of its statement or renders one scope of the query, and then: every
    declared table that is not a cte is filtered by every mandatory row filter
    of every policy governing it; every bare projection of a masked column is
    the adapter's masking of it; and an aggregate carries the group floor. *)
Theorem every_select_governed live env tables q st lim s :
  compile_structured_query live env tables q = Ok (st, lim) → emits st s →
  ∃ env', derive_connections env q = Ok env'
    ∧ ((∃ columns name cols conditions, s = plain_select columns (FromComputed name cols) conditions)
       ∨ ∃ scope_tables path q', governed_select live env' tables scope_tables q path q' s).
Proof. apply compiled_governed. Qed.

(** A row limit is applied once, to the statement: it is what the caller
    asked for (or the policy's default) under the ceiling of the statement's
    kind, the aggregate ceiling only when every arm aggregates. No nested query
    is cut at any depth, and a cte block is cut only where its author wrote a
    limit, then under the same ceilings: a membership test or a total is never
    taken over a truncated set. *)
Theorem limit_applies_once live env tables q st lim :
  compile_structured_query live env tables q = Ok (st, lim) →
  sm_limit st = Some lim
  ∧ 1 ≤ asked_limit (se_policy env) q
  ∧ lim = Z.min (asked_limit (se_policy env) q) (limit_ceiling (se_policy env) q)
  ∧ (∀ s st', emits st s → st' ∈ select_stmts s → sm_limit st' = None)
  ∧ Forall2 (block_limited env) (Ast.ctes q) (sm_ctes st).
Proof.
  unfold compile_structured_query. intros (env' & He & H)%bind_ok.
  assert (Hpol : se_policy env' = se_policy env).
  { unfold derive_connections in He. destruct (se_connections env); [by injection He as <-|].
    destruct (se_resolver env); [|by injection He as <-]. destruct (se_connection_id env); [|done].
    by apply bind_ok in He as (m & _ & [= <-]). }
  destruct (compile_query_limit _ _ _ _ _ _ _ _ H) as (Hl & Ha & Hlim).
  assert (Hroot : at_scope q [] q) by (exists 0%nat; apply root_in_scopes).
  destruct (compile_query_well live env' tables q q [] None tables Hroot) as [Hw _];
    [by left|intros n Hn; by apply not_elem_of_nil in Hn|].
  rewrite Hpol in Ha, Hlim. split_and!; [done..| |].
  - intros s st' Hs Hst. destruct (Hw st lim H s Hs) as [_ Hn]. by apply Hn.
  - apply compile_query_blocks in H. unfold block_limited in *. by rewrite Hpol in H.
Qed.
End properties.

(** * A concrete statement *)

(** [SELECT o.id FROM orders o WHERE o.person_id IN (SELECT p.id FROM people p)]
    with a limit of 50, under the filter on the caller's tenant. *)
Definition tenant_people : StructuredQuery :=
  MkStructuredQuery "people" (Some "p") [ColumnItem "p.id"; ColumnItem "p.salary"] false [] None [] None []
    None 0 None None [] [] None None.

Definition tenant_orders : StructuredQuery :=
  MkStructuredQuery "orders" None [ColumnItem "orders.id"] false []
    (Some (WPredicate (in_subquery "orders.person_id" tenant_people))) [] None []
    (Some 50) 0 None None [] [] None None.

Definition tenant_statement_env : StatementEnv :=
  MkStatementEnv tenant_policy (Some tenant_principal) None None None
    (Some [([InSubquery 0], [("p", FromAlias "p" people)])]).

Definition tenant_run : result (sa_stmt * Z) :=
  @compile_structured_query ascii_casefold postgres_adapter no_resolver host_parser
    tenant_statement_env [("orders", orders)] tenant_orders.

Definition tenant_stmt : sa_stmt :=
  match tenant_run with
  | Ok (st, _) => st
  | Raise _ => MkSaStmt [] [] (MkSaSelect [] people false [] [] [] []) [] None None
  end.

(** The nested statement, found under the statement's WHERE. *)
Definition tenant_nested : sa_stmt := List.hd tenant_stmt (select_stmts (sm_select tenant_stmt)).

Definition tenant_inner : sa_select := sm_select tenant_nested.

Lemma every_select_governed_witness :
  length (ss_where tenant_inner) = 1%nat
  ∧ ((∃ columns name cols conditions, tenant_inner = plain_select columns (FromComputed name cols) conditions)
     ∨ ∃ scope_tables path q', @governed_select ascii_casefold postgres_adapter int_values no_resolver
         tenant_statement_env [("orders", orders)] scope_tables tenant_orders path q' tenant_inner).
Proof.
  split; [vm_compute; reflexivity|].
  destruct (@every_select_governed ascii_casefold postgres_adapter postgres_laws int_values host_parser
    no_resolver tenant_statement_env [("orders", orders)] tenant_orders tenant_stmt 50 tenant_inner)
    as (env' & He & H).
  - vm_compute. reflexivity.
  - apply (emits_nested _ (sm_select tenant_stmt) tenant_nested); [left| |apply emits_own; left].
    apply list_elem_of_In. vm_compute. auto.
  - vm_compute in He. injection He as <-. exact H.
Defined.

Lemma limit_applies_once_witness :
  sm_limit tenant_stmt = Some 50
  ∧ ∀ s st', emits tenant_stmt s → st' ∈ select_stmts s → sm_limit st' = None.
Proof.
  destruct (@limit_applies_once ascii_casefold postgres_adapter postgres_laws host_parser
    no_resolver tenant_statement_env [("orders", orders)] tenant_orders tenant_stmt 50)
    as (H1 & _ & _ & H2 & _); [vm_compute; reflexivity|]. split; [exact H1|exact H2].
Defined.
