(* ===== verification/SchemaValidation.v ===== *)
(** Schema validation: the part of [validation/schema_validation.py] that
    reflects every table a query names and holds every reference against what was
    reflected, scope by scope. The order in which a Python set of names is walked
    is a parameter: no theorem depends on it. *)
From S2P Require Export Statement.
Local Open Scope Z_scope.

(** * Output names *)

Section names.
Context `{CF : CaseFold}.
Implicit Types (tables : sa_tables).

(** [tables[t]] of a reference, by the exact name, then its column. *)
Definition resolve_ref tables (ref : string) : result SaColumn :=
  parse_column_ref ref ≫= λ '(t, c),
  match dict_get t tables with
  | Some f => resolve_column (from_columns f) c
  | None => Raise (BuiltinError "KeyError")
  end.

Definition ref_column (ref : string) : result string := parse_column_ref ref ≫= λ '(_, c), Ok c.

(** [item.alias] when it is a non-empty string, else the computed default. *)
Definition named_or (alias : option string) (default_ : result string) : result string :=
  match alias with Some a => if str_empty a then default_ else Ok a | None => default_ end.

Definition date_bucket_alias tables (ref : string) (g : DateGranularity) (alias : option string) : result string :=
  named_or alias (resolve_ref tables ref ≫= λ col, Ok ("bucket_" +:+ col_name col +:+ "_" +:+ granularity_text g)).

Definition aggregate_alias (fn : AggregateFn) (arg : option Expression) (alias : option string) : result string :=
  named_or alias
    match arg with
    | None => Ok (aggregate_fn_text fn +:+ "_all")
    | Some (ColumnExpr ref) => ref_column ref ≫= λ c, Ok (aggregate_fn_text fn +:+ "_" +:+ c)
    | Some _ => Raise (BuiltinError "AttributeError")
    end.

Definition string_agg_alias (ref : string) (alias : option string) : result string :=
  named_or alias (ref_column ref ≫= λ c, Ok ("string_agg_" +:+ c)).
Definition array_agg_alias (ref : string) (alias : option string) : result string :=
  named_or alias (ref_column ref ≫= λ c, Ok ("array_agg_" +:+ c)).
Definition percentile_cont_alias (ref : string) (alias : option string) : result string :=
  named_or alias (ref_column ref ≫= λ c, Ok ("percentile_cont_" +:+ c)).

Definition scalar_function_alias (call : ScalarFunctionCall) (alias : option string) : result string :=
  named_or alias
    match first_column_arg (sfc_args call) with
    | Some ref => ref_column ref ≫= λ c, Ok (scalar_fn_name (sfc_fn call) +:+ "_" +:+ c)
    | None => Ok (scalar_fn_name (sfc_fn call) +:+ "_result")
    end.

Definition select_item_output_name tables (item : SelectItem) : result string :=
  match item with
  | ColumnItem ref => resolve_ref tables ref ≫= λ col, Ok (col_name col)
  | AggregateSelectItem fn _ arg _ alias => aggregate_alias fn arg alias
  | DateBucketSelectItem ref g alias => date_bucket_alias tables ref g alias
  | StringAggSelectItem ref _ alias => string_agg_alias ref alias
  | ArrayAggSelectItem ref alias => array_agg_alias ref alias
  | PercentileContSelectItem ref _ alias => percentile_cont_alias ref alias
  | ScalarFunctionSelectItem call alias => scalar_function_alias call alias
  | CaseSelectItem _ _ alias | ExpressionSelectItem _ alias | WindowSelectItem _ _ _ _ _ alias => Ok alias
  end.

(** [_select_aliases]: neither bare columns nor windows. *)
Definition rankable_item (item : SelectItem) : bool :=
  match item with ColumnItem _ => false | _ => negb (is_window_item item) end.

Definition select_aliases tables (q : StructuredQuery) : result (list string) :=
  map_result (select_item_output_name tables) (filter (λ i, rankable_item i) (select q)).

Definition groupable_select_aliases tables (q : StructuredQuery) : result (list string) :=
  map_result (λ item, match item with
    | DateBucketSelectItem ref g alias => date_bucket_alias tables ref g alias ≫= λ a, Ok [a]
    | ExpressionSelectItem _ alias => Ok [alias]
    | _ => Ok []
    end) (select q) ≫= λ ls, Ok (concat ls).

(** * One scope against its tables *)

Definition validate_select_columns tables (q : StructuredQuery) : result unit :=
  for_each (λ item,
    raise_if match item with
      | AggregateSelectItem fn (Some col) _ _ _ => bool_decide (col = "*") && negb (bool_decide (fn = AggCount))
      | _ => false
      end (QueryValidationError "Only count(*) is allowed as a star aggregate") ≫= λ _,
    for_each (λ ref, resolve_ref tables ref ≫= λ _, Ok tt) (select_item_column_refs item)) (select q).

(** [_validate_predicate_columns] and [_validate_where_columns]. *)
Definition validate_predicate_columns tables (allow_alias : bool) (p : Pred) : result unit :=
  raise_if match pr_col p with Some c => negb (has_dot c) && negb allow_alias | None => false end
    (QueryValidationError "Column reference must be 'Table.Column'") ≫= λ _,
  for_each (λ ref, resolve_ref tables ref ≫= λ _, Ok tt) (predicate_column_refs p).

Definition validate_where_columns tables (allow_alias : bool) (node : WhereNode) : result unit :=
  for_each (validate_predicate_columns tables allow_alias) (iter_where_predicates node).

(** The two sides of an [on] pair, then every reference of the extra pairs. *)
Definition join_sides (j : JoinSpec) : list string :=
  match js_on j with Some (l, r) => [l; r] | None => [] end ++ concat (js_extra_on j).

Definition validate_join_columns tables (q : StructuredQuery) : result unit :=
  for_each (λ j, for_each (λ ref, resolve_ref tables ref ≫= λ _, Ok tt) (join_sides j)) (joins q) ≫= λ _,
  for_each (λ jw, validate_where_columns tables false jw.2) (iter_join_conditions q).

Definition has_aggregate (q : StructuredQuery) : bool := existsb is_aggregate_item (select q).


Definition validate_group_by tables (q : StructuredQuery) : result unit :=
  groupable_select_aliases tables q ≫= λ groupable,
  for_each (λ ref,
    if has_dot ref then resolve_ref tables ref ≫= λ _, Ok tt
    else raise_if (negb (bool_decide (ref ∈ groupable)))
           (QueryValidationError "group_by reference is not a Table.Column, a date_bucket select alias, or an expression select alias"))
    (group_by q) ≫= λ _,
  raise_if (is_some (having q) && negb (has_aggregate q) && is_nil (group_by q))
    (QueryValidationError "having requires group_by or aggregate select items").

Definition validate_top_n tables (q : StructuredQuery) : result unit :=
  match top_n q with
  | None => Ok tt
  | Some spec =>
      select_aliases tables q ≫= λ aliases,
      let check ref :=
        if negb (is_nil (group_by q)) || has_aggregate q
        then raise_if (negb (bool_decide (ref ∈ group_by q ++ aliases)))
               (QueryValidationError "top_n reference must be a group_by column or a select alias when combined with group_by/aggregate select items")
        else if has_dot ref then resolve_ref tables ref ≫= λ _, Ok tt
        else raise_if (negb (bool_decide (ref ∈ aliases)))
               (QueryValidationError "top_n reference is not a Table.Column or a date_bucket select alias") in
      for_each check (tn_partition_by spec) ≫= λ _, for_each check (map ob_col (tn_order_by spec))
  end.

(** [_iter_date_operands]: the bare columns a date primitive is applied to. *)
Definition date_operand (e : Expression) : list string :=
  match e with
  | ExtractExpr (ColumnExpr col) _ | DateAddExpr (ColumnExpr col) _ _ => [col]
  | _ => []
  end.

Definition iter_date_operands (q : StructuredQuery) : list string :=
  flat_map (λ e, flat_map date_operand (iter_expression_nodes e)) (iter_scope_expressions q)
  ++ flat_map (λ item, match item with DateBucketSelectItem col _ _ => [col] | _ => [] end) (select q).

(** A type that is known and no date, time or interval. *)
Definition known_not_temporal (t : option PyType) : bool :=
  match t with
  | None | Some PyDatetime | Some PyDate | Some PyTime | Some PyTimedelta => false
  | Some _ => true
  end.

Definition validate_date_operands tables (q : StructuredQuery) : result unit :=
  for_each (λ ref,
    resolve_ref tables ref ≫= λ column,
    raise_if (known_not_temporal (col_python_type column)) (QueryValidationError "requires a date/time column"))
    (iter_date_operands q).

(** The checks [_reflect_and_validate_scope] makes once its tables are bound. *)
Definition validate_scope_columns tables (q : StructuredQuery) : result unit :=
  validate_select_columns tables q ≫= λ _,
  validate_join_columns tables q ≫= λ _,
  validate_group_by tables q ≫= λ _,
  validate_date_operands tables q ≫= λ _,
  for_each (validate_where_columns tables false) (iter_scope_case_conditions q) ≫= λ _,
  match where_ q with Some w => validate_where_columns tables false w | None => Ok tt end ≫= λ _,
  match having q with Some w => validate_where_columns tables true w | None => Ok tt end ≫= λ _,
  for_each (λ o, if has_dot (ob_col o) then resolve_ref tables (ob_col o) ≫= λ _, Ok tt else Ok tt) (order_by q) ≫= λ _,
  validate_top_n tables q.

(** * The join graph *)

(** The folded tables a join's condition is about. *)
Definition ref_table (ref : string) : result string := parse_column_ref ref ≫= λ '(t, _), Ok (casefold t).

Definition join_tables (j : JoinSpec) : result (gset string) :=
  match js_on j with
  | Some (l, r) => ref_table l ≫= λ l, ref_table r ≫= λ r, Ok {[l; r]}
  | None =>
      match js_condition j with
      | Some w => map_result ref_table (where_column_refs w) ≫= λ ts, Ok (list_to_set ts)
      | None => Raise (BuiltinError "AssertionError")
      end
  end.

Definition check_extra_pair (sides : gset string) (pair : list string) : result unit :=
  match pair with
  | a :: b :: _ =>
      ref_table a ≫= λ a, ref_table b ≫= λ b,
      raise_if (negb (bool_decide (({[a; b]} : gset string) = sides)))
        (QueryValidationError "extra_on pair must reference the same two tables as `on`")
  | _ => Raise (BuiltinError "IndexError")
  end.

Definition join_graph_step (known : gset string) (j : JoinSpec) : result (gset string) :=
  let joined := casefold (join_key j) in
  if bool_decide (js_type j = JoinCross) then Ok ({[joined]} ∪ known) else
  join_tables j ≫= λ sides,
  raise_if (negb (bool_decide (joined ∈ sides))) (QueryValidationError "Join condition must reference that table") ≫= λ _,
  let others := sides ∖ {[joined]} in
  raise_if (bool_decide (others ∩ known = ∅))
    (QueryValidationError "Join does not connect to the query table graph") ≫= λ _,
  raise_if (negb (bool_decide (others ⊆ known)))
    (QueryValidationError "Join references a table before it is joined") ≫= λ _,
  for_each (check_extra_pair sides) (js_extra_on j) ≫= λ _,
  Ok ({[joined]} ∪ known).

Fixpoint join_graph (known : gset string) (js : list JoinSpec) : result (gset string) :=
  match js with [] => Ok known | j :: js => join_graph_step known j ≫= λ known, join_graph known js end.

Definition from_name (q : StructuredQuery) : string := str_or (from_alias q) (from_table q).

Definition validate_join_graph (q : StructuredQuery) : result unit :=
  join_graph {[casefold (from_name q)]} (joins q) ≫= λ _, Ok tt.
End names.

(** * Reflecting a scope *)

(** The tables reflected so far, by connection and folded physical name. *)
Abbreviation reflections := (list (string * string * SaTable)).

Section reflection.
Context `{CF : CaseFold} `{UP : UrlParser} `{SO : SetOrder}.
(** [get_table_schema] on the engine of a connection: the table as the database
    (or the metadata cache) has it, under a schema qualifier if one is given. *)
Context (reflect : string → string → option string → result SaTable).
Context (registry : ConnectionRegistry).

(** [cross_database_schema_qualifier]: SQL Server names another database of its
    instance; an f-string writes a missing database name as [None]. *)
Definition cross_database_schema_qualifier (d : DatabaseDialect) (db_name : option string) : option string :=
  match d with MSSQL => Some (default "None" db_name +:+ ".dbo") | _ => None end.

Definition registry_get (connection_id : string) : result ConnectionProfile :=
  match dict_get connection_id registry with Some p => Ok p | None => Raise (BuiltinError "KeyError") end.

Definition physical_db_name (connection_id : string) : result (option string) :=
  registry_get connection_id ≫= λ p,
  match make_url (cp_connection_string p) with
  | Some url => Ok (url_database url)
  | None => Raise (BuiltinError "ArgumentError")
  end.

Definition load_table (connection_id table_name table_connection : string) : result SaTable :=
  sanitize_table_name table_name ≫= λ _,
  if bool_decide (table_connection = connection_id) then reflect connection_id table_name None else
  registry_get table_connection ≫= λ other,
  physical_db_name table_connection ≫= λ db,
  match cross_database_schema_qualifier (cp_dialect other) db with
  | None => Raise (QueryValidationError "cross-connection join: no supported same-instance cross-database naming convention")
  | Some schema => reflect connection_id table_name (Some schema)
  end.

(** What one scope is reflected with: the primary connection, the shapes of the
    ctes declared so far, the outer tables the scope declared, and its own
    (folded) table-to-connection map. *)
Record ScopeInput := MkScopeInput {
  si_connection : string;
  si_ctes : dict SaFrom;
  si_correlated : sa_tables;
  si_table_connection : dict string;
}.

(** The names of a scope: FROM, the correlated ones, the joins, and the table of
    every reference. *)
Definition needed_names (si : ScopeInput) (q : StructuredQuery) : result (list string) :=
  map_result (λ r, parse_column_ref (ref_ref r) ≫= λ '(t, _), Ok t) (iter_column_refs q) ≫= λ ref_tables,
  Ok (from_name q :: dict_keys (si_correlated si) ++ map join_key (joins q) ++ ref_tables).

Definition declared_tables (si : ScopeInput) (q : StructuredQuery) : list string :=
  dict_keys (effective_name_map q) ++ map casefold (dict_keys (si_correlated si)).

Definition reflected_table (memo : reflections) (key : string * string) : option SaTable :=
  snd <$> find (λ e : string * string * SaTable, bool_decide (e.1 = key)) memo.

(** Where a name of the scope comes from, when it is not an outer table. *)
Definition source_of (si : ScopeInput) (memo : reflections) (name physical : string) :
  result (SaFrom * reflections) :=
  match dict_get (casefold physical) (si_ctes si) with
  | Some cte => Ok (cte, memo)
  | None =>
      let table_cx := default (si_connection si) (dict_get (casefold name) (si_table_connection si)) in
      match reflected_table memo (table_cx, casefold physical) with
      | Some t => Ok (FromTable t, memo)
      | None =>
          load_table (si_connection si) physical table_cx ≫= λ t,
          Ok (FromTable t, memo ++ [((table_cx, casefold physical), t)])
      end
  end.

(** One turn of the loop over [needed]. *)
Definition bind_name (si : ScopeInput) (q : StructuredQuery) (st : sa_tables * reflections) (name : string) :
  result (sa_tables * reflections) :=
  let '(tables, memo) := st in
  match table_by_name_or_none (si_correlated si) name with
  | Some outer => Ok (dict_set name outer tables, memo)
  | None =>
      match dict_get (casefold name) (effective_name_map q) with
      | None => Raise (BuiltinError "KeyError")
      | Some physical =>
          source_of si memo name physical ≫= λ '(source, memo),
          Ok (dict_set name (if bool_decide (casefold name = casefold physical) then source else FromAlias name source)
                tables, memo)
      end
  end.

Fixpoint bind_names (si : ScopeInput) (q : StructuredQuery) (st : sa_tables * reflections) (names : list string) :
  result (sa_tables * reflections) :=
  match names with [] => Ok st | n :: names => bind_name si q st n ≫= λ st, bind_names si q st names end.

(** [_reflect_and_validate_scope]. *)
Definition reflect_and_validate_scope (si : ScopeInput) (q : StructuredQuery) : result sa_tables :=
  validate_join_graph q ≫= λ _,
  needed_names si q ≫= λ needed,
  raise_if (existsb (λ n, negb (bool_decide (casefold n ∈ declared_tables si q))) needed)
    (QueryValidationError "Column references may only use the query's from table/alias or an explicitly declared join table/alias") ≫= λ _,
  bind_names si q ([], []) (set_order needed) ≫= λ '(tables, _),
  validate_scope_columns tables q ≫= λ _,
  Ok tables.

(** * The statement *)

(** [_reject_cross_connection_nesting]. *)
Definition reject_cross_connection_nesting (q : StructuredQuery) (connection_id : string) : result unit :=
  for_each (λ j, raise_if match js_connection j with
                          | Some cx => negb (bool_decide (cx = connection_id))
                          | None => false
                          end (QueryValidationError "cross-connection subquery: may not join to another connection")) (joins q).

(** [_cte_projection_table]. *)
Fixpoint distinct_names (seen names : list string) : result unit :=
  match names with
  | [] => Ok tt
  | n :: names =>
      if bool_decide (casefold n ∈ seen)
      then Raise (QueryValidationError "cte projects more than one column of a name")
      else distinct_names (casefold n :: seen) names
  end.

Definition cte_projection_table (spec : CteSpec) (body_tables : sa_tables) : result SaFrom :=
  map_result (select_item_output_name body_tables) (select (cte_query spec)) ≫= λ names,
  distinct_names [] names ≫= λ _,
  Ok (FromTable (MkSaTable (cte_name spec) (map (λ n, MkSaColumn n true false false false None) names) [] [])).

(** What the two loops of [validate_schema] fill; [reflected] and [scope_tables]
    hold the same tables. *)
Record SchemaState := MkSchemaState {
  vs_tables : list (scope_path * sa_tables);
  vs_connections : ScopeConnections;
  vs_ctes : dict SaFrom;
  vs_correlated : list (scope_path * sa_tables);
}.

Section statement.
Context (connection_id : string) (principal : option Principal) (resolver : ConnectionResolver).

Definition scope_input (st : SchemaState) (path : scope_path) (table_connection : dict string) : ScopeInput :=
  MkScopeInput connection_id (vs_ctes st) (default [] (path_get path (vs_correlated st))) (casefold_keys table_connection).

(** The turn of a cte: its body, then the shape it presents. *)
Definition cte_turn (st : SchemaState) (i : nat) (spec : CteSpec) : result SchemaState :=
  reject_cross_connection_nesting (cte_query spec) connection_id ≫= λ _,
  resolve_query_table_connections resolver (cte_query spec) connection_id principal (list_to_set (dict_keys (vs_ctes st)))
    ≫= λ tc,
  reflect_and_validate_scope (MkScopeInput connection_id (vs_ctes st) [] (casefold_keys tc)) (cte_query spec) ≫= λ body,
  cte_projection_table spec body ≫= λ shape,
  Ok (MkSchemaState (vs_tables st ++ [([InCte i], body)]) (vs_connections st ++ [([InCte i], casefold_keys tc)])
        (dict_set (casefold (cte_name spec)) shape (vs_ctes st)) (vs_correlated st)).

Fixpoint cte_turns (st : SchemaState) (i : nat) (specs : list CteSpec) : result SchemaState :=
  match specs with [] => Ok st | c :: specs => cte_turn st i c ≫= λ st, cte_turns st (S i) specs end.

(** One declared outer reference of a nested query, against its parent's own names. *)
Definition visible_table (parent : StructuredQuery) (scoped : sa_tables) (ref : string) : result (string * SaFrom) :=
  parse_column_ref ref ≫= λ '(t, c),
  match table_by_name_or_none scoped t with
  | Some outer =>
      if bool_decide (casefold t ∈ map casefold (dict_keys (effective_name_map parent)))
      then resolve_column (from_columns outer) c ≫= λ _, Ok (t, outer)
      else Raise (QueryValidationError "correlate does not name a table of the enclosing query")
  | None => Raise (QueryValidationError "correlate does not name a table of the enclosing query")
  end.

Definition visible_tables (parent : StructuredQuery) (scoped : sa_tables) (child : StructuredQuery) : result sa_tables :=
  map_result (visible_table parent scoped) (correlate child) ≫= λ entries, Ok (list_to_dict entries).

Definition correlated_children (path : scope_path) (parent : StructuredQuery) (scoped : sa_tables) :
  result (list (scope_path * sa_tables)) :=
  map_result (λ ic : nat * StructuredQuery,
    if is_nil (correlate ic.2) then Ok []
    else visible_tables parent scoped ic.2 ≫= λ visible, Ok [(path ++ [InSubquery ic.1], visible)])
    (imap pair (nested_subqueries parent)) ≫= λ ls, Ok (concat ls).

(** The turn of a scope of the walk; a cte's body has had its own. *)
Definition scope_turn (st : SchemaState) (s : Scope) : result SchemaState :=
  if is_some (path_get (sc_path s) (vs_tables st)) then Ok st else
  (if (0 <? sc_depth s)%nat then reject_cross_connection_nesting (sc_query s) connection_id else Ok tt) ≫= λ _,
  resolve_query_table_connections resolver (sc_query s) connection_id principal (list_to_set (dict_keys (vs_ctes st)))
    ≫= λ tc,
  reflect_and_validate_scope (scope_input st (sc_path s) tc) (sc_query s) ≫= λ scoped,
  correlated_children (sc_path s) (sc_query s) scoped ≫= λ correlated,
  Ok (MkSchemaState (vs_tables st ++ [(sc_path s, scoped)]) (vs_connections st ++ [(sc_path s, casefold_keys tc)])
        (vs_ctes st) (vs_correlated st ++ correlated)).

Fixpoint scope_turns (st : SchemaState) (ss : list Scope) : result SchemaState :=
  match ss with [] => Ok st | s :: ss => scope_turn st s ≫= λ st, scope_turns st ss end.

(** * Set operations *)

Inductive type_family := FamBoolean | FamNumeric | FamText | FamTemporal.

#[export] Instance type_family_eq_dec : EqDecision type_family.
Proof. solve_decision. Defined.

Definition python_type_family (t : PyType) : option type_family :=
  match t with
  | PyBool => Some FamBoolean
  | PyInt | PyFloat | PyDecimal => Some FamNumeric
  | PyStr => Some FamText
  | PyDatetime | PyDate | PyTime => Some FamTemporal
  | PyTimedelta | PyOther => None
  end.

Definition cast_target_family (c : CastType) : type_family :=
  match c with
  | CastText => FamText
  | CastInteger | CastNumeric => FamNumeric
  | CastBoolean => FamBoolean
  | CastDate | CastTimestamp => FamTemporal
  end.

Definition literal_family (l : scalar) : option type_family :=
  match l with
  | LNone => None
  | LBool _ => Some FamBoolean
  | LInt _ | LFloat _ => Some FamNumeric
  | LStr _ => Some FamText
  end.

Definition column_ref_type_family (tables : sa_tables) (ref : string) : result (option type_family) :=
  parse_column_ref ref ≫= λ '(t, c),
  Ok match dict_get t tables with
     | None => None
     | Some f => match resolve_column (from_columns f) c with
                 | Ok col => col_python_type col ≫= python_type_family
                 | Raise _ => None
                 end
     end.

Definition select_item_type_family (tables : sa_tables) (item : SelectItem) : result (option type_family) :=
  match item with
  | ColumnItem ref => column_ref_type_family tables ref
  | AggregateSelectItem AggCount _ _ _ _ => Ok (Some FamNumeric)
  | DateBucketSelectItem _ _ _ => Ok (Some FamTemporal)
  | StringAggSelectItem _ _ _ => Ok (Some FamText)
  | ExpressionSelectItem (CastExpr _ to) _ => Ok (Some (cast_target_family to))
  | ExpressionSelectItem (LiteralExpr l) _ => Ok (literal_family l)
  | ExpressionSelectItem (ColumnExpr ref) _ => column_ref_type_family tables ref
  | _ => Ok None
  end.

(** The families seen at one position, arm by arm. *)
Definition position_turn (position : nat) (seen : list type_family) (arm : StructuredQuery * sa_tables) :
  result (list type_family) :=
  match select arm.1 !! position with
  | None => Raise (BuiltinError "IndexError")
  | Some item =>
      select_item_type_family arm.2 item ≫= λ family,
      match family with
      | None => Ok seen
      | Some f =>
          let seen := if bool_decide (f ∈ seen) then seen else seen ++ [f] in
          raise_if (1 <? length seen)%nat (QueryValidationError "set operation arms disagree on the type of a projection") ≫= λ _,
          Ok seen
      end
  end.

Fixpoint position_turns (position : nat) (seen : list type_family) (arms : list (StructuredQuery * sa_tables)) : result unit :=
  match arms with
  | [] => Ok tt
  | a :: arms => position_turn position seen a ≫= λ seen, position_turns position seen arms
  end.

(** The arms of a scope, the carrier first, each with its reflected tables. *)
Definition arms_with_tables (reflected : list (scope_path * sa_tables)) (s : Scope) : list (StructuredQuery * sa_tables) :=
  (sc_query s, default [] (path_get (sc_path s) reflected))
  :: imap (λ i a, (a, default [] (path_get (sc_path s ++ [InArm i]) reflected))) (set_op_arms (sc_query s)).

Definition validate_set_op_arm_types (q : StructuredQuery) (reflected : list (scope_path * sa_tables)) : result unit :=
  for_each (λ s,
    if is_some (set_op (sc_query s)) then
      for_each (λ position, position_turns position [] (arms_with_tables reflected s))
        (seq 0 (length (select (sc_query s))))
    else Ok tt) (iter_query_scopes q).

(** [validate_schema], with both out-parameters. *)
Definition validate_schema (q : StructuredQuery) :
  result (sa_tables * list (scope_path * sa_tables) * ScopeConnections) :=
  cte_turns (MkSchemaState [] [] [] []) 0 (ctes q) ≫= λ st,
  scope_turns st (iter_query_scopes q) ≫= λ st,
  match path_get [] (vs_tables st) with
  | None => Raise (QueryValidationError "internal error: query had no top-level scope to validate")
  | Some outer =>
      validate_set_op_arm_types q (vs_tables st) ≫= λ _,
      Ok (outer, vs_tables st, vs_connections st)
  end.
End statement.
End reflection.
