(* ===== verification/SchemaFacts.v ===== *)
(** What [SchemaValidation] promises: every reference of an accepted statement
    names a column of a table that was reflected, projected by a cte, or handed
    down one level; and the compiler finds the same one. *)
From S2P Require Export SchemaValidation.
Local Open Scope Z_scope.

(** * One scope *)

Section scope_facts.
Context `{CF : CaseFold}.
Implicit Types (tables : sa_tables) (q : StructuredQuery).

Lemma resolve_ref_ok tables ref col : resolve_ref tables ref = Ok col ↔
  ∃ t c f, parse_column_ref ref = Ok (t, c) ∧ dict_get t tables = Some f ∧ resolve_column (from_columns f) c = Ok col.
Proof.
  unfold resolve_ref. rewrite bind_ok. split.
  - intros ([t c] & Hp & H). exists t, c. destruct (dict_get t tables) as [f|]; [by exists f|done].
  - intros (t & c & f & Hp & Hf & Hr). exists (t, c). by rewrite Hf.
Qed.

(** Is a reference held against the tables? *)
Definition resolved tables (ref : string) : Prop := is_ok (resolve_ref tables ref) = true.

Lemma resolve_unit_ok tables ref : (resolve_ref tables ref ≫= λ _, Ok tt) = Ok tt ↔ resolved tables ref.
Proof. unfold resolved. by destruct (resolve_ref tables ref). Qed.

Lemma where_columns_resolved tables b w : validate_where_columns tables b w = Ok tt →
  ∀ ref, ref ∈ where_column_refs w → resolved tables ref.
Proof.
  intros H ref Hr. apply elem_of_flat_map in Hr as (p & Hp & Hr). unfold validate_where_columns in H.
  eapply for_each_ok_elem in H; [|exact Hp]. apply bind_ok_unit in H as [_ H].
  eapply for_each_ok_elem in H; [|exact Hr]. by apply resolve_unit_ok.
Qed.

(** A rank reference is held against the tables only where no grouping turns it
    into the name of an output. *)
Definition held_position q (r : ColumnRef) : bool :=
  match ref_position r with
  | TOP_N_PARTITION | TOP_N_ORDER => is_nil (group_by q) && negb (has_aggregate q)
  | _ => true
  end.

Lemma filter_dotted (l : list string) ref : ref ∈ filter (λ r, has_dot r) l → ref ∈ l ∧ has_dot ref = true.
Proof. rewrite elem_of_filter_bool. tauto. Qed.

Lemma join_columns_resolved tables q r : validate_join_columns tables q = Ok tt →
  ∀ j, j ∈ joins q →
  r ∈ match js_on j with
       | Some (a, b) => [MkColumnRef JOIN_ON a; MkColumnRef JOIN_ON b]
       | None => []
       end
       ++ flat_map (at_position JOIN_EXTRA_ON) (js_extra_on j)
       ++ option_flat_map (λ w, at_position JOIN_CONDITION (where_column_refs w)) (js_condition j) →
  resolved tables (ref_ref r).
Proof.
  intros [Hs Hc]%bind_ok_unit j Hj Hr.
  assert (Hside : ref_ref r ∈ join_sides j → resolved tables (ref_ref r)).
  { intros Hin. eapply for_each_ok_elem in Hs; [|exact Hj]. eapply for_each_ok_elem in Hs; [|exact Hin].
    by apply resolve_unit_ok. }
  apply elem_of_app in Hr as [Hr|[Hr|Hr]%elem_of_app].
  - apply Hside, elem_of_app. left. destruct (js_on j) as [[a b]|]; set_solver.
  - apply Hside, elem_of_app. right. apply elem_of_flat_map in Hr as (l & Hl & [_ Hr]%elem_of_at_position).
    apply elem_of_concat. by exists l.
  - rewrite option_flat_map_list in Hr. apply elem_of_flat_map in Hr as (w & Hw%elem_of_option_list & [_ Hr]%elem_of_at_position).
    eapply where_columns_resolved; [|exact Hr]. eapply (for_each_ok_elem _ _ (j, w)) in Hc; [exact Hc|].
    apply elem_of_flat_map. exists j. split; [done|]. rewrite Hw. set_solver.
Qed.

Lemma top_n_resolved tables q spec ref : validate_top_n tables q = Ok tt → top_n q = Some spec →
  is_nil (group_by q) && negb (has_aggregate q) = true →
  ref ∈ filter (λ r, has_dot r) (tn_partition_by spec ++ map ob_col (tn_order_by spec)) → resolved tables ref.
Proof.
  unfold validate_top_n. intros H Hq Hn [Hin Hdot]%filter_dotted. rewrite Hq in H. apply andb_true_iff in Hn as [Hg Ha].
  apply bind_ok in H as (aliases & _ & H). rewrite Hg in H. apply negb_true_iff in Ha. rewrite Ha in H. cbn in H.
  apply bind_ok_unit in H as [H1 H2]. 
  apply elem_of_app in Hin as [Hin|Hin];
    [eapply for_each_ok_elem in H1; [|exact Hin]; rewrite Hdot in H1
    |eapply for_each_ok_elem in H2; [|exact Hin]; rewrite Hdot in H2]; by apply resolve_unit_ok.
Qed.

(** The rank references of a grouped scope are group columns or outputs. *)
Lemma top_n_grouped tables q spec ref : validate_top_n tables q = Ok tt → top_n q = Some spec →
  is_nil (group_by q) && negb (has_aggregate q) = false →
  ref ∈ tn_partition_by spec ++ map ob_col (tn_order_by spec) →
  ref ∈ group_by q ∨ ∃ aliases, select_aliases tables q = Ok aliases ∧ ref ∈ aliases.
Proof.
  unfold validate_top_n. intros H Hq Hn Hin. rewrite Hq in H.
  assert (Hg : negb (is_nil (group_by q)) || has_aggregate q = true)
    by (apply andb_false_iff in Hn as [-> | ->%negb_false_iff]; [done|by rewrite orb_true_r]).
  apply bind_ok in H as (aliases & Ha & H). rewrite Hg in H. cbn in H. apply bind_ok_unit in H as [H1 H2].
  enough (He : ref ∈ group_by q ++ aliases) by (apply elem_of_app in He as [He|He]; eauto).
  apply elem_of_app in Hin as [Hin|Hin];
    [eapply for_each_ok_elem in H1; [|exact Hin]|eapply for_each_ok_elem in H2; [|exact Hin]];
    by apply raise_if_ok, negb_false_iff, bool_decide_eq_true in H1
    || by apply raise_if_ok, negb_false_iff, bool_decide_eq_true in H2.
Qed.

(** A rank reference of a grouped scope that names one of its outputs. *)
Definition names_output tables q (r : ColumnRef) : Prop :=
  held_position q r = false ∧ ∃ aliases, select_aliases tables q = Ok aliases ∧ ref_ref r ∈ aliases.

(** Every other reference the visitor reports was held against the tables. *)
Lemma scope_columns_resolved tables q r : validate_scope_columns tables q = Ok tt →
  r ∈ iter_column_refs q → resolved tables (ref_ref r) ∨ names_output tables q r.
Proof.
  unfold validate_scope_columns. intros (Hsel & H)%bind_ok_unit.
  apply bind_ok_unit in H as (Hjoin & H). apply bind_ok_unit in H as (Hgroup & H).
  apply bind_ok_unit in H as (_ & H). apply bind_ok_unit in H as (_ & H).
  apply bind_ok_unit in H as (Hw & H). apply bind_ok_unit in H as (Hh & H).
  apply bind_ok_unit in H as (Ho & Ht). unfold iter_column_refs. rewrite !elem_of_app.
  intros Hr.
  assert (Hgrp : ∀ ref, ref ∈ group_by q → has_dot ref = true → resolved tables ref).
  { intros ref Hin Hdot. apply bind_ok in Hgroup as (g & _ & Hgroup). apply bind_ok_unit in Hgroup as [Hgroup _].
    eapply for_each_ok_elem in Hgroup; [|exact Hin]. rewrite Hdot in Hgroup. by apply resolve_unit_ok. }
  destruct Hr as [Hr|[Hr|[Hr|[Hr|[Hr|[Hr|Hr]]]]]]; [left..|].
  - apply elem_of_flat_map in Hr as (item & Hi & Hr). eapply for_each_ok_elem in Hsel; [|exact Hi].
    apply bind_ok_unit in Hsel as [_ Hsel]. apply resolve_unit_ok. eapply for_each_ok_elem in Hsel; [exact Hsel|].
    destruct item; try (by apply elem_of_at_position in Hr as [_ Hr]). cbn. set_solver.
  - apply elem_of_flat_map in Hr as (j & Hj & Hr). by eapply join_columns_resolved.
  - rewrite option_flat_map_list in Hr. apply elem_of_flat_map in Hr as (w & Hq%elem_of_option_list & [_ Hr]%elem_of_at_position).
    rewrite Hq in Hw. by eapply where_columns_resolved.
  - apply elem_of_at_position in Hr as [_ [Hr Hdot]%filter_dotted]. by apply Hgrp.
  - rewrite option_flat_map_list in Hr. apply elem_of_flat_map in Hr as (w & Hq%elem_of_option_list & [_ Hr]%elem_of_at_position).
    rewrite Hq in Hh. by eapply where_columns_resolved.
  - apply elem_of_at_position in Hr as [_ [Hr Hdot]%filter_dotted]. apply elem_of_map in Hr as (o & Hro & Hin).
    eapply for_each_ok_elem in Ho; [|exact Hin]. rewrite <- Hro, Hdot in Ho. by apply resolve_unit_ok.
  - rewrite option_flat_map_list in Hr. apply elem_of_flat_map in Hr as (spec & Hq%elem_of_option_list & Hr).
    assert (Hin : (ref_position r = TOP_N_PARTITION ∨ ref_position r = TOP_N_ORDER)
      ∧ ref_ref r ∈ filter (λ r, has_dot r) (tn_partition_by spec ++ map ob_col (tn_order_by spec))).
    { rewrite filter_app, elem_of_app. apply elem_of_app in Hr as [[? ?]%elem_of_at_position|[? ?]%elem_of_at_position]; eauto. }
    destruct Hin as [Hpos Hin]. destruct (is_nil (group_by q) && negb (has_aggregate q)) eqn:Hn;
      [left; by eapply top_n_resolved|].
    apply filter_dotted in Hin as [Hin Hdot]. destruct (top_n_grouped _ _ _ _ Ht Hq Hn Hin); [left; by apply Hgrp|].
    right. split; [|done]. unfold held_position. by destruct Hpos as [-> | ->].
Qed.
End scope_facts.

(** * What the names of a scope are bound to *)

Section binding.
Context `{CF : CaseFold} `{UP : UrlParser} `{SO : SetOrder}.
Context (reflect : string → string → option string → result SaTable) (registry : ConnectionRegistry).
Context (si : ScopeInput) (q : StructuredQuery).

Definition named (name physical : string) (source : SaFrom) : SaFrom :=
  if bool_decide (casefold name = casefold physical) then source else FromAlias name source.

Definition connection_of (name : string) : string :=
  default (si_connection si) (dict_get (casefold name) (si_table_connection si)).

(** A name of the scope is an outer table it declared; or a cte's shape, or a
    reflected table, under its alias. *)
Inductive binds (memo : reflections) (name : string) (f : SaFrom) : Prop :=
| BindOuter : table_by_name_or_none (si_correlated si) name = Some f → binds memo name f
| BindCte physical cte :
    table_by_name_or_none (si_correlated si) name = None →
    dict_get (casefold name) (effective_name_map q) = Some physical →
    dict_get (casefold physical) (si_ctes si) = Some cte → f = named name physical cte → binds memo name f
| BindTable physical t :
    table_by_name_or_none (si_correlated si) name = None →
    dict_get (casefold name) (effective_name_map q) = Some physical →
    dict_get (casefold physical) (si_ctes si) = None →
    reflected_table memo (connection_of name, casefold physical) = Some t →
    f = named name physical (FromTable t) → binds memo name f.

Lemma named_columns name physical source : from_columns (named name physical source) = from_columns source.
Proof. unfold named. by case_bool_decide. Qed.

Lemma by_name_casefold {A} (d : dict A) n m : casefold n = casefold m →
  table_by_name_or_none d n = table_by_name_or_none d m.
Proof. intros H. induction d as [|[k v] d IH]; cbn; [done|]. by rewrite H, IH. Qed.

(** Two spellings of one name are bound to the same columns. *)
Lemma binds_columns memo n m f g : binds memo n f → binds memo m g → casefold n = casefold m →
  from_columns f = from_columns g.
Proof.
  intros Hf Hg Hc. pose proof (by_name_casefold (si_correlated si) n m Hc) as Ho. unfold connection_of in *.
  destruct Hf as [Hf|p c Ho1 Hp Hcte ->|p t Ho1 Hp Hcte Ht ->], Hg as [Hg|p' c' Ho2 Hp' Hcte' ->|p' t' Ho2 Hp' Hcte' Ht' ->];
    rewrite ?named_columns; unfold connection_of in *; rewrite ?Hc in *; congruence.
Qed.

Lemma reflected_table_app memo ext key t : reflected_table memo key = Some t → reflected_table (memo ++ ext) key = Some t.
Proof.
  unfold reflected_table. induction memo as [|[k v] memo IH]; cbn; [done|]. by destruct (bool_decide _).
Qed.

Lemma binds_mono memo ext name f : binds memo name f → binds (memo ++ ext) name f.
Proof.
  intros [H|p c ???? |p t ???? ?]; [by apply BindOuter|by eapply BindCte|].
  eapply BindTable; eauto using reflected_table_app.
Qed.

(** Everything reflected was loaded under the connection it is filed under. *)
Definition loaded (memo : reflections) : Prop := ∀ cx key t, reflected_table memo (cx, key) = Some t →
  ∃ physical, load_table reflect registry (si_connection si) physical cx = Ok t ∧ casefold physical = key.

Definition bound (st : sa_tables * reflections) : Prop :=
  loaded st.2 ∧ ∀ name f, dict_get name st.1 = Some f → binds st.2 name f.

Lemma loaded_snoc memo cx key t : loaded memo → reflected_table memo (cx, key) = None →
  (∃ physical, load_table reflect registry (si_connection si) physical cx = Ok t ∧ casefold physical = key) →
  loaded (memo ++ [((cx, key), t)]) ∧ reflected_table (memo ++ [((cx, key), t)]) (cx, key) = Some t.
Proof.
  intros Hl Hn Hp.
  assert (Happ : ∀ key', reflected_table (memo ++ [((cx, key), t)]) key'
    = match reflected_table memo key' with
      | Some t => Some t
      | None => if bool_decide ((cx, key) = key') then Some t else None
      end).
  { intros key'. clear Hl Hn. unfold reflected_table. induction memo as [|[k v] memo IH]; cbn; [by case_bool_decide|].
    by destruct (bool_decide (k = key')). }
  split.
  - intros cx' key' t'. rewrite Happ. destruct (reflected_table memo (cx', key')) eqn:E; [intros [= <-]; by eapply Hl|].
    case_bool_decide as Hk; [|done]. by injection Hk as -> ->; intros [= <-].
  - rewrite Happ, Hn. by rewrite bool_decide_true.
Qed.

Lemma bind_name_ok st name st' : bound st → bind_name reflect registry si q st name = Ok st' →
  bound st' ∧ ∀ k, k ∈ dict_keys st'.1 ↔ k = name ∨ k ∈ dict_keys st.1.
Proof.
  destruct st as [tables memo]. intros [Hl Hb] H. cbn [fst snd] in *.
  assert (Hset : ∀ memo' f, loaded memo' → (∀ n g, binds memo n g → binds memo' n g) → binds memo' name f →
    bound (dict_set name f tables, memo') ∧ ∀ k, k ∈ dict_keys (dict_set name f tables) ↔ k = name ∨ k ∈ dict_keys tables).
  { intros memo' f Hl' Hm Hf. split; [|intros k; apply dict_keys_set]. split; [done|]. intros n g. cbn [fst snd].
    destruct (decide (n = name)) as [->|Hne]; [by rewrite dict_get_set_eq; intros [= <-]|].
    rewrite dict_get_set_ne by done. eauto. }
  unfold bind_name in H. destruct (table_by_name_or_none (si_correlated si) name) as [outer|] eqn:Ho.
  { injection H as <-. apply Hset; [done..|by apply BindOuter]. }
  destruct (dict_get (casefold name) (effective_name_map q)) as [physical|] eqn:Hp; [|done].
  apply bind_ok in H as ([source memo'] & Hs & [= <-]). unfold source_of in Hs. fold (connection_of name) in Hs.
  fold (named name physical source). cbn [fst snd].
  destruct (dict_get (casefold physical) (si_ctes si)) as [cte|] eqn:Hc.
  { injection Hs as <- <-. apply Hset; [done..|by eapply BindCte]. }
  destruct (reflected_table memo (connection_of name, casefold physical)) as [t|] eqn:Ht.
  { injection Hs as <- <-. apply Hset; [done..|by eapply BindTable]. }
  apply bind_ok in Hs as (t & Hload & [= <- <-]).
  destruct (loaded_snoc memo (connection_of name) (casefold physical) t Hl Ht) as [Hl' Ht']; [by exists physical|].
  apply Hset; [done|intros n g; apply binds_mono|by eapply BindTable].
Qed.

Lemma bind_names_ok names : ∀ st st', bound st → bind_names reflect registry si q st names = Ok st' →
  bound st' ∧ ∀ k, k ∈ dict_keys st'.1 ↔ k ∈ names ∨ k ∈ dict_keys st.1.
Proof.
  induction names as [|n names IH]; intros st st' Hb H; cbn [bind_names] in H.
  - injection H as <-. split; [done|]. set_solver.
  - apply bind_ok in H as (st1 & H1 & H2). destruct (bind_name_ok _ _ _ Hb H1) as [Hb1 Hk1].
    destruct (IH _ _ Hb1 H2) as [Hb2 Hk2]. split; [done|]. intros k. rewrite Hk2, Hk1, elem_of_cons. tauto.
Qed.

(** What an accepted scope looks like. *)
Record scope_validated (tables : sa_tables) : Prop := {
  sv_graph : validate_join_graph q = Ok tt;
  sv_columns : validate_scope_columns tables q = Ok tt;
  sv_needed : ∃ needed, needed_names si q = Ok needed ∧ ∀ k, k ∈ dict_keys tables ↔ k ∈ needed;
  sv_memo : ∃ memo, loaded memo ∧ ∀ name f, dict_get name tables = Some f → binds memo name f;
}.

Lemma scope_validated_intro tables :
  reflect_and_validate_scope reflect registry si q = Ok tables → scope_validated tables.
Proof.
  unfold reflect_and_validate_scope. intros (Hg & H)%bind_ok_unit. apply bind_ok in H as (needed & Hn & H).
  apply bind_ok_unit in H as (_ & H). apply bind_ok in H as ([tables' memo] & Hb & H).
  apply bind_ok_unit in H as (Hv & [= ->]).
  destruct (bind_names_ok _ ([], []) _ ltac:(split; [intros ???|intros ??]; done) Hb) as [[Hl Hbd] Hk].
  split; [done|done| |by exists memo]. exists needed. split; [done|]. intros k. cbn [fst] in Hk. rewrite Hk.
  rewrite set_order_perm, elem_of_remove_dups. set_solver.
Qed.

(** The compiler's lookup (the first spelling) finds the column the validator's
    (the exact one) found. *)
Lemma by_name_dict_get {A} (d : dict A) t v : dict_get t d = Some v → ∃ k g,
  dict_get k d = Some g ∧ casefold k = casefold t ∧ table_by_name d t = Ok g.
Proof.
  intros H. unfold table_by_name. induction d as [|[k v'] d IH]; [done|]. cbn in H |- *.
  destruct (bool_decide (casefold k = casefold t)) eqn:Ek.
  - apply bool_decide_eq_true in Ek. exists k, v'. by rewrite bool_decide_true.
  - apply bool_decide_eq_false in Ek. case_bool_decide as Htk; [congruence|].
    destruct (IH H) as (k' & g & Hg & Hc & Hb). exists k', g. split; [|done].
    rewrite bool_decide_false; [done|]. congruence.
Qed.

Lemma compile_column_resolves tables ref col : scope_validated tables → resolve_ref tables ref = Ok col →
  ∃ f, compile_column tables ref = Ok (EColumn f col).
Proof.
  intros [_ _ _ (memo & _ & Hb)] (t & c & f & Hp & Hf & Hr)%resolve_ref_ok.
  destruct (by_name_dict_get tables t f Hf) as (k & g & Hg & Hc & Htb). exists g.
  unfold compile_column. rewrite Hp. cbn. rewrite Htb. cbn.
  rewrite (binds_columns memo k t g f), Hr; [done|by apply Hb..|done].
Qed.
End binding.

(** * The walk visits a query before what is nested in it *)

Section order.
Context `{CF : CaseFold}.

Lemma flat_map_split {A B} (f : A → list B) l : ∀ pre x post, flat_map f l = pre ++ x :: post →
  ∃ l1 a l2 pre2 post2, l = l1 ++ a :: l2 ∧ f a = pre2 ++ x :: post2 ∧ pre = flat_map f l1 ++ pre2.
Proof.
  induction l as [|a l IH]; intros pre x post H; cbn in H; [by destruct pre|].
  apply app_eq_inv in H as [(k & Hf & H)|(k & Hf & H)].
  - destruct k as [|y k]; cbn in H.
    + destruct (IH [] x post) as (l1 & b & l2 & p2 & q2 & -> & Hb & Hp); [by rewrite <- H|].
      exists (a :: l1), b, l2, p2, q2. split_and!; [done|done|]. cbn. rewrite <- app_assoc, <- Hp. by rewrite Hf, !app_nil_r.
    + injection H as <- H. exists [], a, l, pre, k. by split_and!.
  - destruct (IH k x post H) as (l1 & b & l2 & p2 & q2 & -> & Hb & ->).
    exists (a :: l1), b, l2, p2, q2. split_and!; [done|done|]. cbn. by rewrite <- app_assoc.
Qed.

Lemma parents_first q : ∀ d pre s post p step, iter_query_scopes_from q d = pre ++ s :: post →
  sc_path s = p ++ [step] → ∃ parent, parent ∈ pre ∧ sc_path parent = p.
Proof.
  induction q as [q IH] using query_ind_children. intros d pre s post p step H Hs.
  rewrite iter_query_scopes_from_eq in H. destruct pre as [|r pre].
  { injection H as <- _. cbn in Hs. by destruct p. }
  injection H as <- H. destruct (flat_map_split _ _ _ _ _ H) as (l1 & [[st c] d'] & l2 & p2 & q2 & Hch & Hf & ->).
  destruct p as [|st' p]; [exists (MkScope [] d q); set_solver|].
  apply map_eq_app in Hf as (p3 & m & Hit & <- & Hm). apply map_eq_cons in Hm as (s3 & q3 & -> & <- & <-).
  cbn in Hs. injection Hs as -> Hs.
  destruct (IH c) with (2 := Hit) (3 := Hs) as (parent & Hp & Hpath).
  { apply (scope_children_query q d st' c d'). rewrite Hch. set_solver. }
  exists (push_step st' parent). split; [|cbn; by rewrite Hpath].
  apply elem_of_cons. right. apply elem_of_app. right. apply elem_of_map. by exists parent.
Qed.
End order.

(** * Handing tables down *)

Section dicts.
Context `{CF : CaseFold} {A : Type}.
Implicit Types (d : dict A) (l : list (string * A)).

Lemma list_to_dict_in l e : e ∈ list_to_dict l → e ∈ l.
Proof.
  unfold list_to_dict. cut (∀ d, e ∈ foldl (λ d e, dict_set e.1 e.2 d) d l → e ∈ l ∨ e ∈ d).
  { intros Hcut He. destruct (Hcut [] He) as [?|Hnil]; [done|by apply not_elem_of_nil in Hnil]. }
  induction l as [|[k v] l IH]; cbn; intros d He; [by right|].
  destruct (IH _ He) as [?|[->|?]%dict_set_in]; set_solver.
Qed.

Lemma list_to_dict_keys l k : k ∈ dict_keys (list_to_dict l) ↔ k ∈ l.*1.
Proof.
  unfold list_to_dict. cut (∀ d, k ∈ dict_keys (foldl (λ d e, dict_set e.1 e.2 d) d l) ↔ k ∈ l.*1 ∨ k ∈ dict_keys d).
  { intros Hcut. rewrite Hcut. unfold dict_keys. set_solver. }
  induction l as [|[k' v] l IH]; cbn -[dict_keys]; intros d; [set_solver|]. rewrite IH, dict_keys_set, elem_of_cons. cbn. tauto.
Qed.

Lemma by_name_in d t v : table_by_name_or_none d t = Some v → ∃ k, (k, v) ∈ d ∧ casefold k = casefold t.
Proof.
  induction d as [|[k w] d IH]; cbn; [done|]. case_bool_decide as Hk.
  - intros [= ->]. exists k. set_solver.
  - intros (k' & ? & ?)%IH. exists k'. set_solver.
Qed.

Lemma by_name_found d t k : k ∈ dict_keys d → casefold k = casefold t → is_Some (table_by_name_or_none d t).
Proof.
  induction d as [|[k' w] d IH]; cbn; [set_solver|]. intros Hk Hc. case_bool_decide; [done|].
  apply IH; [|done]. apply elem_of_cons in Hk as [->|Hk]; [done|exact Hk].
Qed.

(** Entries that agree on a folded name give it one value. *)
Lemma list_to_dict_by_name l t v : (t, v) ∈ l → (∀ k w, (k, w) ∈ l → casefold k = casefold t → w = v) →
  table_by_name_or_none (list_to_dict l) t = Some v.
Proof.
  intros Hin Hall. destruct (by_name_found (list_to_dict l) t t) as [w Hw]; [|done|].
  { apply list_to_dict_keys. apply list_elem_of_fmap. by exists (t, v). }
  rewrite Hw. destruct (by_name_in _ _ _ Hw) as (k & Hk & Hc). f_equal. eapply Hall; [|exact Hc]. by apply list_to_dict_in.
Qed.
End dicts.

(** * The statement *)

Lemma path_get_app {A} path (m k : list (scope_path * A)) :
  path_get path (m ++ k) = match path_get path m with Some x => Some x | None => path_get path k end.
Proof.
  unfold path_get. induction m as [|[p x] m IH]; cbn; [done|]. by destruct (bool_decide (p = path)).
Qed.

Lemma path_get_single {A} path p (x : A) : path_get path [(p, x)] = if bool_decide (p = path) then Some x else None.
Proof. unfold path_get. cbn. by case_bool_decide. Qed.

Lemma path_get_in {A} path (m : list (scope_path * A)) x : path_get path m = Some x → (path, x) ∈ m.
Proof.
  unfold path_get. induction m as [|[p y] m IH]; cbn; [done|].
  case_bool_decide as Hp; cbn; [intros [= ->]; subst; set_solver|intros H; set_solver].
Qed.

Lemma path_get_is_Some {A} path (m : list (scope_path * A)) x : (path, x) ∈ m → is_Some (path_get path m).
Proof.
  unfold path_get. induction m as [|[p y] m IH]; cbn; [set_solver|].
  case_bool_decide as Hp; cbn; [by eauto|]. intros [[= -> ->]|H]%elem_of_cons; [done|by apply IH].
Qed.

Section whole.
Context `{CF : CaseFold} `{UP : UrlParser} `{SO : SetOrder}.
Context (reflect : string → string → option string → result SaTable) (registry : ConnectionRegistry).
Context (connection_id : string) (principal : option Principal) (resolver : ConnectionResolver).
Context (q : StructuredQuery).

Definition single_connection (qq : StructuredQuery) : Prop :=
  ∀ j, j ∈ joins qq → js_connection j = None ∨ js_connection j = Some connection_id.

Lemma reject_nesting_ok qq : reject_cross_connection_nesting qq connection_id = Ok tt → single_connection qq.
Proof.
  intros H j Hj. eapply for_each_ok_elem in H; [|exact Hj]. apply raise_if_ok in H.
  destruct (js_connection j) as [cx|]; [right|by left]. apply negb_false_iff, bool_decide_eq_true in H. by subst.
Qed.

(** The shape a folded cte name stands for. *)
Definition cte_stands_for (tables : list (scope_path * sa_tables)) (k : string) (shape : SaFrom) : Prop :=
  ∃ i spec body, ctes q !! i = Some spec ∧ casefold (cte_name spec) = k
    ∧ path_get [InCte i] tables = Some body ∧ cte_projection_table spec body = Ok shape.

(** The outer tables handed to the nested query at [path]. *)
Definition handed_down (tables : list (scope_path * sa_tables)) (path : scope_path) (visible : sa_tables) : Prop :=
  ∃ pp i parent child ptables, path = pp ++ [InSubquery i] ∧ at_scope q pp parent
    ∧ nested_subqueries parent !! i = Some child ∧ path_get pp tables = Some ptables
    ∧ visible_tables parent ptables child = Ok visible.

(** A nested query that declared outer references of a query that is no cte's body. *)
Definition expects_outer (s : Scope) : Prop :=
  ∃ pp i, sc_path s = pp ++ [InSubquery i] ∧ (∀ k, pp ≠ [InCte k]) ∧ correlate (sc_query s) ≠ [].

(** What an accepted scope was validated with. *)
Record scope_ok (tables : list (scope_path * sa_tables)) (conns : ScopeConnections) (s : Scope)
  (bound_tables : sa_tables) (si : ScopeInput) : Prop := {
  so_single : (0 < sc_depth s)%nat → single_connection (sc_query s);
  so_connection : si_connection si = connection_id;
  so_resolved : ∃ names tc,
    resolve_query_table_connections resolver (sc_query s) connection_id principal names = Ok tc
    ∧ si_table_connection si = casefold_keys tc ∧ path_get (sc_path s) conns = Some (casefold_keys tc);
  so_ctes k shape : dict_get k (si_ctes si) = Some shape → cte_stands_for tables k shape;
  so_outer : (si_correlated si = [] ∧ ¬ expects_outer s) ∨ handed_down tables (sc_path s) (si_correlated si);
  so_validated : scope_validated reflect registry si (sc_query s) bound_tables;
}.

Definition entries_ok (tables : list (scope_path * sa_tables)) (conns : ScopeConnections) : Prop :=
  ∀ path t, path_get path tables = Some t →
    ∃ s si, s ∈ iter_query_scopes q ∧ sc_path s = path ∧ scope_ok tables conns s t si.

Lemma cte_shape_mono tables ext k shape : cte_stands_for tables k shape → cte_stands_for (tables ++ ext) k shape.
Proof.
  intros (i & spec & body & Hi & Hk & Hp & Hs). exists i, spec, body. split_and!; [done|done| |done].
  by rewrite path_get_app, Hp.
Qed.

Lemma handed_down_mono tables ext path v : handed_down tables path v → handed_down (tables ++ ext) path v.
Proof.
  intros (pp & i & parent & child & t & ? & ? & ? & Hp & ?). exists pp, i, parent, child, t.
  split_and!; [done..| |done]. by rewrite path_get_app, Hp.
Qed.

Lemma scope_ok_mono tables ext conns cext s t si :
  scope_ok tables conns s t si → scope_ok (tables ++ ext) (conns ++ cext) s t si.
Proof.
  intros [H1 H2 (names & tc & Hr & Htc & Hp) H4 H5 H6]. split; [done|done| | | |done].
  - exists names, tc. split_and!; [done|done|]. by rewrite path_get_app, Hp.
  - intros k shape Hk. by apply cte_shape_mono, H4.
  - destruct H5 as [H5|H5]; [by left|right; by apply handed_down_mono].
Qed.

Lemma entries_ok_snoc tables conns s t si m : entries_ok tables conns → path_get (sc_path s) tables = None →
  s ∈ iter_query_scopes q → scope_ok (tables ++ [(sc_path s, t)]) (conns ++ [(sc_path s, m)]) s t si →
  entries_ok (tables ++ [(sc_path s, t)]) (conns ++ [(sc_path s, m)]).
Proof.
  intros He Hn Hs Hok path t'. rewrite path_get_app. destruct (path_get path tables) as [t0|] eqn:E.
  - intros [= <-]. destruct (He path t0 E) as (s' & si' & Hs' & Hp' & Hok'). exists s', si'.
    split_and!; [done|done|]. by apply scope_ok_mono.
  - rewrite path_get_single. case_bool_decide as Hp; [|done]. intros [= <-]. exists s, si. by split_and!.
Qed.

(** The tables and the connection maps are filled together. *)
Definition same_paths (tables : list (scope_path * sa_tables)) (conns : ScopeConnections) : Prop := tables.*1 = conns.*1.

Lemma same_paths_get tables conns path : same_paths tables conns →
  path_get path tables = None → path_get path conns = None.
Proof.
  unfold same_paths, path_get. revert conns. induction tables as [|[p t] tables IH]; intros [|[p' m] conns] H; cbn in *; try done.
  injection H as <- H. case_bool_decide; [done|]. by apply IH.
Qed.

Record cte_inv (st : SchemaState) (n : nat) : Prop := {
  ci_entries : entries_ok (vs_tables st) (vs_connections st);
  ci_same : same_paths (vs_tables st) (vs_connections st);
  ci_ctes k shape : dict_get k (vs_ctes st) = Some shape → cte_stands_for (vs_tables st) k shape;
  ci_correlated : vs_correlated st = [];
  ci_paths path : is_Some (path_get path (vs_tables st)) ↔ ∃ k, (k < n)%nat ∧ path = [InCte k];
}.

Lemma cte_turn_ok st i spec st' : cte_inv st i → ctes q !! i = Some spec →
  cte_turn reflect registry connection_id principal resolver st i spec = Ok st' → cte_inv st' (S i).
Proof.
  intros [He Hsame Hc Hcorr Hp] Hi H. unfold cte_turn in H. apply bind_ok_unit in H as [Hrej H].
  apply bind_ok in H as (tc & Htc & H). apply bind_ok in H as (body & Hbody & H).
  apply bind_ok in H as (shape & Hshape & [= <-]).
  destruct (at_scope_cte q [] q i spec (ex_intro _ 0%nat (root_in_scopes q)) Hi) as [d Hs]. cbn in Hs.
  set (s := MkScope [InCte i] d (cte_query spec)) in *.
  assert (Hnone : path_get [InCte i] (vs_tables st) = None).
  { apply eq_None_not_Some. rewrite Hp. intros (k & Hk & [= ->]). lia. }
  set (si := MkScopeInput connection_id (vs_ctes st) [] (casefold_keys tc)).
  split; cbn [vs_tables vs_connections vs_ctes vs_correlated].
  - apply (entries_ok_snoc _ _ s body si); [done|done|done|]. split; cbn.
    + intros _. by apply reject_nesting_ok.
    + done.
    + eexists _, tc. split_and!; [done|done|]. rewrite path_get_app, (same_paths_get _ _ _ Hsame Hnone).
      by rewrite path_get_single, bool_decide_true.
    + intros k sh Hk. by apply cte_shape_mono, Hc.
    + left. split; [done|]. intros (pp & j & Hpp & _). cbn in Hpp. by destruct pp as [|? [|? ?]].
    + by apply scope_validated_intro.
  - unfold same_paths in *. by rewrite !fmap_app, Hsame.
  - intros k sh. destruct (decide (k = casefold (cte_name spec))) as [->|Hne].
    + rewrite dict_get_set_eq. intros [= <-]. exists i, spec, body. split_and!; [done|done| |done].
      by rewrite path_get_app, Hnone, path_get_single, bool_decide_true.
    + rewrite dict_get_set_ne by done. intros Hk. by apply cte_shape_mono, Hc.
  - done.
  - intros path. rewrite path_get_app, path_get_single. destruct (path_get path (vs_tables st)) eqn:E.
    + split; [|by eauto]. intros _. destruct (proj1 (Hp path)) as (k & Hk & ->); [by eauto|]. exists k. split; [lia|done].
    + case_bool_decide as Hpath; [split; [|by eauto]; intros _; exists i; split; [lia|done]|].
      split; [by intros []|]. intros (k & Hk & ->). destruct (decide (k = i)) as [->|Hne]; [done|].
      exfalso. apply eq_None_not_Some in E. apply E, Hp. exists k. split; [lia|done].
Qed.

Lemma cte_turns_ok specs : ∀ st i st', cte_inv st i → (∀ k spec, specs !! k = Some spec → ctes q !! (i + k)%nat = Some spec) →
  cte_turns reflect registry connection_id principal resolver st i specs = Ok st' → cte_inv st' (i + length specs).
Proof.
  induction specs as [|spec specs IH]; intros st i st' Hinv Hl H; cbn [cte_turns] in H.
  - injection H as <-. by rewrite Nat.add_0_r.
  - apply bind_ok in H as (st1 & H1 & H2). cbn [length]. rewrite Nat.add_succ_r. apply (IH st1 (S i)); [|intros k sp Hk|done].
    + eapply cte_turn_ok; [done| |done]. specialize (Hl 0%nat spec eq_refl). by rewrite Nat.add_0_r in Hl.
    + specialize (Hl (S k) sp Hk). by rewrite Nat.add_succ_r in Hl.
Qed.

Lemma correlated_children_ok path parent scoped ls : correlated_children path parent scoped = Ok ls →
  (∀ p v, path_get p ls = Some v → ∃ i child, p = path ++ [InSubquery i] ∧ nested_subqueries parent !! i = Some child
     ∧ visible_tables parent scoped child = Ok v)
  ∧ (∀ i child, nested_subqueries parent !! i = Some child → correlate child ≠ [] →
     is_Some (path_get (path ++ [InSubquery i]) ls)).
Proof.
  unfold correlated_children. intros (kss & Hk & [= <-])%bind_ok. split.
  - intros p v Hp. apply path_get_in, elem_of_concat in Hp as (l & Hl & Hv).
    destruct (map_result_elem _ _ _ _ Hk Hl) as ([i child] & Hic & Hf). cbn [fst snd] in Hf.
    apply elem_of_lookup_imap in Hic as (i' & child' & [= -> ->] & Hi).
    destruct (is_nil (correlate child')); [injection Hf as <-; by apply not_elem_of_nil in Hv|].
    apply bind_ok in Hf as (visible & Hvis & [= <-]). apply list_elem_of_singleton in Hv as [= -> ->]. by exists i', child'.
  - intros i child Hi Hne. apply map_result_ok in Hk.
    destruct (Forall2_lookup_l _ _ _ i (i, child) Hk) as (l & Hl & Hf).
    { rewrite list_lookup_imap, Hi. done. }
    cbn [fst snd] in Hf. destruct (correlate child) as [|r rs] eqn:Er; [done|]. cbn [is_nil] in Hf.
    apply bind_ok in Hf as (visible & _ & [= <-]). apply (path_get_is_Some _ _ visible), elem_of_concat.
    exists [(path ++ [InSubquery i], visible)]. split; [by eapply list_elem_of_lookup_2|set_solver].
Qed.

Record walk_inv (st : SchemaState) (visited : list Scope) : Prop := {
  wi_entries : entries_ok (vs_tables st) (vs_connections st);
  wi_same : same_paths (vs_tables st) (vs_connections st);
  wi_ctes k shape : dict_get k (vs_ctes st) = Some shape → cte_stands_for (vs_tables st) k shape;
  wi_correlated path v : path_get path (vs_correlated st) = Some v → handed_down (vs_tables st) path v;
  wi_paths path : is_Some (path_get path (vs_tables st)) →
    (∃ k, path = [InCte k]) ∨ ∃ s, s ∈ visited ∧ sc_path s = path;
  wi_visited s : s ∈ visited → is_Some (path_get (sc_path s) (vs_tables st));
  wi_handed s i child : s ∈ visited → (∀ k, sc_path s ≠ [InCte k]) → nested_subqueries (sc_query s) !! i = Some child →
    correlate child ≠ [] → is_Some (path_get (sc_path s ++ [InSubquery i]) (vs_correlated st));
}.

(** A nested query is where its parent's walk says it is. *)
Lemma nested_at_path parent s i : parent ∈ iter_query_scopes q → s ∈ iter_query_scopes q →
  sc_path s = sc_path parent ++ [InSubquery i] → nested_subqueries (sc_query parent) !! i = Some (sc_query s).
Proof.
  intros Hp Hs Hpath. destruct (scopes_from_parent q 0 s Hs) as [->|(parent' & step & Hp' & Hc & Hpath')].
  { cbn in Hpath. by destruct (sc_path parent). }
  rewrite Hpath' in Hpath. apply app_inj_2 in Hpath as [Hpp [= ->]]; [|done].
  rewrite (scopes_path_inj q parent' parent Hp' Hp Hpp) in Hc. unfold scope_children in Hc.
  rewrite !elem_of_app, !elem_of_imap in Hc.
  destruct Hc as [(?&?&?&[=])|[(?&?&?&[=])|(j & x & Hx & [= -> -> _])]]. done.
Qed.

(** The outer tables a scope meets are those its parent handed it. *)
Lemma scope_outer_ok st visited post s : walk_inv st visited → iter_query_scopes q = visited ++ s :: post →
  let outer := default [] (path_get (sc_path s) (vs_correlated st)) in
  (outer = [] ∧ ¬ expects_outer s) ∨ handed_down (vs_tables st) (sc_path s) outer.
Proof.
  intros Hinv Hsplit. cbn. destruct (path_get (sc_path s) (vs_correlated st)) as [v|] eqn:E; cbn.
  { right. by eapply wi_correlated. }
  left. split; [done|]. intros (pp & i & Hpath & Hnc & Hcorr).
  destruct (parents_first q 0 visited s post pp (InSubquery i) Hsplit Hpath) as (parent & Hpv & <-).
  assert (Hin : ∀ x, x ∈ visited → x ∈ iter_query_scopes q) by (intros x Hx; rewrite Hsplit; set_solver).
  assert (Hs : s ∈ iter_query_scopes q) by (rewrite Hsplit; set_solver).
  pose proof (wi_handed _ _ Hinv parent i (sc_query s) Hpv Hnc (nested_at_path parent s i (Hin _ Hpv) Hs Hpath) Hcorr) as H.
  rewrite <- Hpath, E in H. by destruct H.
Qed.

Lemma scope_turn_ok st visited post s st' : walk_inv st visited → iter_query_scopes q = visited ++ s :: post →
  scope_turn reflect registry connection_id principal resolver st s = Ok st' → walk_inv st' (visited ++ [s]).
Proof.
  intros Hinv Hsplit H. pose proof Hinv as [He Hsame Hc Hcorr Hp Hv Hh].
  assert (Hin : ∀ x, x ∈ visited → x ∈ iter_query_scopes q) by (intros x Hx; rewrite Hsplit; set_solver).
  assert (Hs : s ∈ iter_query_scopes q) by (rewrite Hsplit; set_solver).
  unfold scope_turn in H. destruct (path_get (sc_path s) (vs_tables st)) as [t|] eqn:E; cbn [is_some] in H.
  { injection H as <-. split; try done.
    - intros path Hsome. destruct (Hp path Hsome) as [?|(x & ? & ?)]; [by left|right]. exists x. set_solver.
    - intros x [Hx| ->%list_elem_of_singleton]%elem_of_app; [by apply Hv|by rewrite E].
    - intros x i child [Hx| ->%list_elem_of_singleton]%elem_of_app; [by apply Hh|].
      intros Hnc. destruct (Hp (sc_path s)) as [[k Hk]|(x & Hx & Hpath)]; [by rewrite E|by edestruct Hnc|].
      pose proof (scopes_path_inj q x s (Hin _ Hx) Hs Hpath) as ->. by apply Hh. }
  apply bind_ok_unit in H as [Hrej H]. apply bind_ok in H as (tc & Htc & H). apply bind_ok in H as (scoped & Hsc & H).
  apply bind_ok in H as (ls & Hls & [= <-]). destruct (correlated_children_ok _ _ _ _ Hls) as [Hls1 Hls2].
  assert (Hself : ∀ k x, path_get (sc_path s) (vs_tables st ++ [(sc_path s, k)]) = Some x ↔ k = x).
  { intros k x. rewrite path_get_app, E, path_get_single, bool_decide_true by done. naive_solver. }
  split; cbn [vs_tables vs_connections vs_ctes vs_correlated].
  - apply (entries_ok_snoc _ _ s scoped (scope_input connection_id st (sc_path s) tc)); [done..|]. split.
    + intros Hd. destruct (sc_depth s) as [|d]; [lia|]. by apply reject_nesting_ok.
    + done.
    + eexists _, tc. split_and!; [done|done|]. rewrite path_get_app, (same_paths_get _ _ _ Hsame E).
      by rewrite path_get_single, bool_decide_true.
    + intros k sh Hk. by apply cte_shape_mono, Hc.
    + destruct (scope_outer_ok st visited post s Hinv Hsplit) as [Ho|Ho]; [by left|right; by apply handed_down_mono].
    + by apply scope_validated_intro.
  - unfold same_paths in *. by rewrite !fmap_app, Hsame.
  - intros k sh Hk. by apply cte_shape_mono, Hc.
  - intros path v. rewrite path_get_app. destruct (path_get path (vs_correlated st)) eqn:Ec.
    + intros [= <-]. by apply handed_down_mono, Hcorr.
    + intros (i & child & -> & Hi & Hvis)%Hls1. exists (sc_path s), i, (sc_query s), child, scoped.
      split_and!; [done| |done|by apply Hself|done]. exists (sc_depth s). by destruct s.
  - intros path. rewrite path_get_app. destruct (path_get path (vs_tables st)) eqn:Ep.
    + intros _. destruct (Hp path) as [?|(x & ? & ?)]; [by rewrite Ep|by left|right]. exists x. set_solver.
    + rewrite path_get_single. case_bool_decide as Hpath; [|by intros []]. intros _. right. exists s. set_solver.
  - intros x Hx. rewrite path_get_app. destruct (path_get (sc_path x) (vs_tables st)) eqn:Ep; [done|].
    apply elem_of_app in Hx as [Hx| ->%list_elem_of_singleton]; [apply Hv in Hx; rewrite Ep in Hx; by destruct Hx|].
    by rewrite path_get_single, bool_decide_true.
  - intros x i child Hx Hnc Hi Hne. rewrite path_get_app.
    destruct (path_get (sc_path x ++ [InSubquery i]) (vs_correlated st)) eqn:Ec; [done|].
    apply elem_of_app in Hx as [Hx| ->%list_elem_of_singleton]; [|by eapply Hls2].
    pose proof (Hh x i child Hx Hnc Hi Hne) as H. rewrite Ec in H. by destruct H.
Qed.

Lemma scope_turns_ok ss : ∀ st visited st', walk_inv st visited → iter_query_scopes q = visited ++ ss →
  scope_turns reflect registry connection_id principal resolver st ss = Ok st' → walk_inv st' (visited ++ ss).
Proof.
  induction ss as [|s ss IH]; intros st visited st' Hinv Hsplit H; cbn [scope_turns] in H.
  - injection H as <-. by rewrite app_nil_r.
  - apply bind_ok in H as (st1 & H1 & H2). pose proof (scope_turn_ok _ _ _ _ _ Hinv Hsplit H1) as Hinv1.
    rewrite (cons_middle s), app_assoc in Hsplit |- *. by apply (IH st1).
Qed.

(** Every scope of an accepted statement, with what it was validated against. *)
Lemma validate_schema_ok outer tables conns :
  validate_schema reflect registry connection_id principal resolver q = Ok (outer, tables, conns) →
  path_get [] tables = Some outer ∧ validate_set_op_arm_types q tables = Ok tt
  ∧ ∀ s, s ∈ iter_query_scopes q → ∃ t si, path_get (sc_path s) tables = Some t ∧ scope_ok tables conns s t si.
Proof.
  unfold validate_schema. intros (st & Hct & H)%bind_ok. apply bind_ok in H as (st' & Hsc & H).
  destruct (path_get [] (vs_tables st')) as [o|] eqn:Eo; [|done].
  apply bind_ok_unit in H as [Hty [= <- <- <-]]. split_and!; [done..|].
  assert (Hc : cte_inv st (0 + length (ctes q))).
  { refine (cte_turns_ok _ (MkSchemaState [] [] [] []) _ _ _ _ Hct); [|done]. split; try done.
    intros path. split; [by intros []|intros (k & ? & _); lia]. }
  assert (Hw : walk_inv st' (iter_query_scopes q)).
  { apply (scope_turns_ok (iter_query_scopes q) st []); [|done|done]. destruct Hc as [? ? ? Hcorr Hp].
    split; [done..| | | |].
    - intros path v. by rewrite Hcorr.
    - intros path (k & _ & ->)%Hp. left. by exists k.
    - intros s Hs. by apply not_elem_of_nil in Hs.
    - intros s i child Hs. by apply not_elem_of_nil in Hs. }
  intros s Hs. destruct (wi_visited _ _ Hw s Hs) as [t Ht]. destruct (wi_entries _ _ Hw _ _ Ht) as (s' & si & Hs' & Hp & Hok).
  rewrite (scopes_path_inj q s' s Hs' Hs Hp) in Hok. by exists t, si.
Qed.
End whole.

(** ** The join graph *)

(** The folded names a scope's joins may refer to before its [i]-th join. *)
Definition joined_before `{CF : CaseFold} (q : StructuredQuery) (i : nat) : gset string :=
  {[casefold (from_name q)]} ∪ list_to_set (map (λ j, casefold (join_key j)) (firstn i (joins q))).

Lemma join_graph_ok `{CF : CaseFold} js : ∀ known known' i j, join_graph known js = Ok known' → js !! i = Some j →
  js_type j ≠ JoinCross →
  ∃ sides, join_tables j = Ok sides ∧ casefold (join_key j) ∈ sides ∧ sides ∖ {[casefold (join_key j)]} ≠ ∅
    ∧ sides ∖ {[casefold (join_key j)]} ⊆ known ∪ list_to_set (map (λ j, casefold (join_key j)) (firstn i js))
    ∧ Forall (λ pair, check_extra_pair sides pair = Ok tt) (js_extra_on j).
Proof.
  induction js as [|j0 js IH]; intros known known' i j H Hi Hcross; [done|]. cbn [join_graph] in H.
  apply bind_ok in H as (known1 & Hstep & H). unfold join_graph_step in Hstep. destruct i as [|i].
  - injection Hi as ->. rewrite bool_decide_false in Hstep by done.
    apply bind_ok in Hstep as (sides & Hs & Hstep). apply bind_ok_unit in Hstep as [H1%raise_if_ok Hstep].
    apply bind_ok_unit in Hstep as [H2%raise_if_ok Hstep]. apply bind_ok_unit in Hstep as [H3%raise_if_ok Hstep].
    apply bind_ok_unit in Hstep as [H4 _]. exists sides.
    apply negb_false_iff, bool_decide_eq_true in H1, H3. apply bool_decide_eq_false in H2.
    split_and!; [done|done|set_solver|set_solver|]. apply Forall_forall. intros pair Hpair.
    eapply for_each_ok_elem in H4; [exact H4|done].
  - destruct (IH known1 known' i j H Hi Hcross) as (sides & ? & ? & ? & Hsub & ?). exists sides.
    split_and!; [done..| |done]. cbn. assert (known1 = {[casefold (join_key j0)]} ∪ known) as ->; [|set_solver].
    destruct (bool_decide _); [by injection Hstep as <-|]. apply bind_ok in Hstep as (? & _ & Hstep).
    by repeat apply bind_ok_unit in Hstep as [_ Hstep]; injection Hstep as <-.
Qed.

(** ** Predicted names *)

(** Where the default name of a projection quotes its column, was it written as
    the database spells it? *)
Definition quotes_column (item : SelectItem) : option string :=
  match item with
  | StringAggSelectItem ref _ alias | ArrayAggSelectItem ref alias | PercentileContSelectItem ref _ alias =>
      match alias with Some a => if str_empty a then Some ref else None | None => Some ref end
  | _ => None
  end.

Definition written_as_reflected `{CF : CaseFold} (tables : sa_tables) (item : SelectItem) : Prop :=
  match quotes_column item with
  | Some ref => ∀ col, resolve_ref tables ref = Ok col → ref_column ref = Ok (col_name col)
  | None => True
  end.

Section predicted.
Context `{CF : CaseFold} `{DA : DialectAdapter}.
Implicit Types (tables : sa_tables).

Lemma named_or_str_or alias d : named_or alias (Ok d) = Ok (str_or alias d).
Proof. destruct alias as [a|]; [|done]. cbn. by destruct (str_empty a). Qed.

Lemma labelled_output (r : result SaExpr) alias e names :
  (r ≫= λ x, labelled x alias) = Ok (e, names) → output_name e = alias ∧ names = [alias].
Proof. by intros (x & _ & [= <- <-])%bind_ok. Qed.

(** Every table of the scope gives the compiler the column it gave the validator. *)
Definition same_columns tables : Prop :=
  ∀ ref col, resolve_ref tables ref = Ok col → ∃ f, compile_column tables ref = Ok (EColumn f col).

(** A label the compiler computes after the column, against the name predicted. *)
Lemma named_output tables ref alias d (name : string → string) (g : SaExpr → result SaExpr) n e names :
  named_or alias d = Ok n →
  (str_or alias EmptyString = EmptyString → ∀ dn c, d = Ok dn → compile_column tables ref = Ok c → name (element_name c) = dn) →
  (compile_column tables ref ≫= λ c, g c ≫= λ x, labelled x (str_or alias (name (element_name c)))) = Ok (e, names) →
  output_name e = n ∧ names = [n].
Proof.
  intros Hn Hd (c & Hc & H)%bind_ok. apply labelled_output in H as [-> ->].
  cut (str_or alias (name (element_name c)) = n); [by intros ->|]. destruct alias as [a|]; cbn in Hn, Hd |- *; [|by apply Hd].
  destruct (str_empty a); [by apply Hd|congruence].
Qed.

Lemma ref_column_bind {A} ref (g : string → result A) :
  (ref_column ref ≫= g) = (parse_column_ref ref ≫= λ '(_, c), g c).
Proof. unfold ref_column. by destruct (parse_column_ref ref) as [[t c]|]. Qed.

Lemma ok_inj {A} (x y : A) : Ok x = Ok y → x = y.
Proof. congruence. Qed.

Lemma quotes_when_unnamed (alias : option string) (ref : string) : str_or alias EmptyString = EmptyString →
  match alias with Some a => if str_empty a then Some ref else None | None => Some ref end = Some ref.
Proof. destruct alias as [[|]|]; cbn; [done|discriminate|done]. Qed.

Lemma star_is_no_ref ref c : ref_column ref = Ok c → ref ∈ star_filtered ref.
Proof. unfold star_filtered. case_bool_decide as H; [subst; vm_compute; discriminate|intros _; left]. Qed.

(** Where the prediction quotes the written spelling. *)
Lemma spelled_output tables ref alias (pre : string) (g : SaExpr → result SaExpr) n e names :
  same_columns tables → (∀ r, r ∈ star_filtered ref → resolved tables r) →
  (str_or alias EmptyString = EmptyString → ∀ col, resolve_ref tables ref = Ok col → ref_column ref = Ok (col_name col)) →
  named_or alias (ref_column ref ≫= λ c, Ok (pre +:+ c)) = Ok n →
  (compile_column tables ref ≫= λ c, g c ≫= λ x, labelled x (str_or alias (pre +:+ element_name c))) = Ok (e, names) →
  output_name e = n ∧ names = [n].
Proof.
  intros Hsame Hres Hw Hn. refine (named_output tables ref alias _ (λ c, pre +:+ c) g n e names Hn _).
  intros Hu dn c (w & Hr & [= <-])%bind_ok Hc. pose proof (Hres ref (star_is_no_ref ref w Hr)) as Hok. unfold resolved in Hok.
  destruct (resolve_ref tables ref) as [col|] eqn:Ecol; [|done]. specialize (Hw Hu col eq_refl).
  destruct (Hsame ref col Ecol) as [f Hf]. rewrite Hf in Hc. injection Hc as <-. cbn. congruence.
Qed.

Lemma predicted_item env tables m item n e names : same_columns tables →
  (∀ ref, ref ∈ select_item_column_refs item → resolved tables ref) → written_as_reflected tables item →
  select_item_output_name tables item = Ok n → compile_select_item env tables m item = Ok (e, names) →
  output_name e = n ∧ n ∈ names.
Proof.
  intros Hsame Hres Hw Hn He.
  assert (Hone : output_name e = n ∧ names = [n] → output_name e = n ∧ n ∈ names) by (intros [? ->]; set_solver).
  assert (Hlab : ∀ (r : result SaExpr) a, a = n → (r ≫= λ x, labelled x a) = Ok (e, names) → output_name e = n ∧ n ∈ names).
  { intros r a -> H. apply Hone. by eapply labelled_output. }
  assert (Halias : ∀ A (r : result A) h alias d, (∀ a, named_or alias d = Ok a → a = n) →
    (r ≫= λ x, alias_or alias d ≫= λ a, labelled (h x) a) = Ok (e, names) → output_name e = n ∧ n ∈ names).
  { intros A r h alias' d Hd (x & _ & H)%bind_ok. apply bind_ok in H as (a & Ha & [= <- <-]). cbn. rewrite (Hd a Ha). set_solver. }
  unfold written_as_reflected in Hw.
  destruct item as [ref|fn st arg dist alias|ref g alias|ref dl alias|ref alias|ref fr alias|call alias|w el alias|x alias|fn ov arg off bk alias];
    cbn [select_item_output_name compile_select_item quotes_column] in *.
  - destruct (resolve_ref tables ref) as [col|] eqn:Hc; [|done]. injection Hn as <-.
    destruct (Hsame ref col Hc) as [f Hf]. unfold compile_bare_item in He. rewrite Hf in He. cbn [element_name mbind result_bind] in He.
    apply bind_ok in He as ([mk|] & _ & He); [apply bind_ok in He as (x & _ & [= <- <-])|injection He as <- <-]; set_solver.
  - eapply (Halias _ _ id); [|exact He]. intros a Ha. unfold aggregate_alias in Hn.
    destruct alias as [b|]; cbn in Ha, Hn; [destruct (str_empty b)|];
      (destruct arg as [[]|]; rewrite ?ref_column_bind in Hn; try discriminate;
       by apply (ok_inj a n); rewrite <- Ha, <- Hn).
  - apply Hone. refine (named_output tables ref alias _ (λ c, "bucket_" +:+ c +:+ "_" +:+ granularity_text g)
      (λ c, date_bucket c g) n e names Hn _ He).
    intros _ dn c (col & Hcol & [= <-])%bind_ok Hc. destruct (Hsame ref col Hcol) as [f Hf]. rewrite Hf in Hc.
    by injection Hc as <-.
  - apply Hone. refine (spelled_output tables ref alias "string_agg_" (λ c, string_agg c dl) n e names Hsame Hres _ Hn He).
    intros Hu. by rewrite (quotes_when_unnamed _ ref Hu) in Hw.
  - apply Hone. refine (spelled_output tables ref alias "array_agg_" array_agg n e names Hsame Hres _ Hn He).
    intros Hu. by rewrite (quotes_when_unnamed _ ref Hu) in Hw.
  - apply Hone. refine (spelled_output tables ref alias "percentile_cont_" (λ c, percentile_cont c fr) n e names Hsame Hres _ Hn He).
    intros Hu. by rewrite (quotes_when_unnamed _ ref Hu) in Hw.
  - eapply (Halias _ _ (EFunc (scalar_fn_name (sfc_fn call)))); [|exact He]. intros a Ha. unfold scalar_function_alias in Hn.
    destruct (first_column_arg (sfc_args call)); rewrite ?ref_column_bind in Hn;
      by apply (ok_inj a n); rewrite <- Ha, <- Hn.
  - injection Hn as <-. by eapply Hlab.
  - injection Hn as <-. by eapply Hlab.
  - injection Hn as <-. by eapply Hlab.
Qed.
End predicted.

(** ** Set operations *)

Lemma position_turns_ok `{CF : CaseFold} position arms : ∀ seen, position_turns position seen arms = Ok tt → (length seen ≤ 1)%nat →
  ∃ seen', seen ⊆ seen' ∧ (length seen' ≤ 1)%nat
    ∧ ∀ arm, arm ∈ arms → ∃ item family, select arm.1 !! position = Some item
        ∧ select_item_type_family arm.2 item = Ok family ∧ ∀ f, family = Some f → f ∈ seen'.
Proof.
  induction arms as [|arm arms IH]; intros seen H Hlen; cbn [position_turns] in H.
  { exists seen. split_and!; [done..|]. intros a Ha. by apply elem_of_nil in Ha. }
  apply bind_ok in H as (seen1 & H1 & H2). unfold position_turn in H1.
  destruct (select arm.1 !! position) as [item|] eqn:Ei; [|done]. apply bind_ok in H1 as (family & Hf & H1).
  assert (Hturn : seen ⊆ seen1 ∧ (length seen1 ≤ 1)%nat ∧ ∀ f, family = Some f → f ∈ seen1).
  { destruct family as [f|]; [|by injection H1 as <-]. apply bind_ok_unit in H1 as [Hl%raise_if_ok [= <-]].
    apply Nat.ltb_ge in Hl. split_and!; [by case_bool_decide; set_solver|done|].
    intros f' [= <-]. case_bool_decide; set_solver. }
  destruct Hturn as (Hsub & Hlen1 & Hfam). destruct (IH seen1 H2 Hlen1) as (seen' & Hs & Hl & Hall).
  exists seen'. split_and!; [by etrans|done|]. intros a [->|Ha]%elem_of_cons; [|by apply Hall].
  exists item, family. split_and!; [done..|]. intros f Hf'. by apply Hs, Hfam.
Qed.

(** * Properties *)

Section properties.
Context `{CF : CaseFold} `{UP : UrlParser} `{SO : SetOrder}.
Context (reflect : string → string → option string → result SaTable) (registry : ConnectionRegistry).
Context (connection_id : string) (principal : option Principal) (resolver : ConnectionResolver).

Definition accepts (q : StructuredQuery) (tables : list (scope_path * sa_tables)) (conns : ScopeConnections) : Prop :=
  ∃ outer, validate_schema reflect registry connection_id principal resolver q = Ok (outer, tables, conns).

(** C4. Every reference of an accepted statement resolves, in every scope and
    position: it names a bound table of its scope and a column that table has,
    and the compiler's lookup, which goes by the first spelling of a table's name
    where the validator went by the exact one, finds that same column. The one
    exception is a rank reference (partition or order of a top-n) of a grouped or
    aggregating scope, which may instead be the name of one of its outputs. *)
Theorem every_reference_resolves q tables conns s r :
  accepts q tables conns → s ∈ iter_query_scopes q → r ∈ iter_column_refs (sc_query s) →
  ∃ t, path_get (sc_path s) tables = Some t
    ∧ ((∃ f col, resolve_ref t (ref_ref r) = Ok col ∧ compile_column t (ref_ref r) = Ok (EColumn f col))
       ∨ names_output t (sc_query s) r).
Proof.
  intros [outer Hv] Hs Hr. destruct (validate_schema_ok _ _ _ _ _ _ _ _ _ Hv) as (_ & _ & Hall).
  destruct (Hall s Hs) as (t & si & Ht & Hok). pose proof (so_validated _ _ _ _ _ _ _ _ _ _ _ Hok) as Hval.
  exists t. split; [done|].
  destruct (scope_columns_resolved t (sc_query s) r (sv_columns _ _ _ _ _ Hval) Hr) as [Hres|Hout]; [left|by right].
  unfold resolved in Hres. destruct (resolve_ref t (ref_ref r)) as [col|] eqn:Ecol; [|done].
  destruct (compile_column_resolves _ _ _ _ _ _ _ Hval Ecol) as [f Hf]. by exists f, col.
Qed.

(** Nothing is bound that does not exist or was not declared: a name of an
    accepted scope stands for an outer table its parent handed down; or for a
    cte of the statement, by the distinct names its body projects; or for the
    table the database has under the declared physical name, reflected through
    the connection the scope's own declaration resolved to. *)
Theorem bound_names_exist q tables conns s t name f :
  accepts q tables conns → s ∈ iter_query_scopes q → path_get (sc_path s) tables = Some t → dict_get name t = Some f →
  (∃ visible, handed_down q tables (sc_path s) visible ∧ table_by_name_or_none visible name = Some f)
  ∨ ∃ physical, dict_get (casefold name) (effective_name_map (sc_query s)) = Some physical
    ∧ ((∃ shape, cte_stands_for q tables (casefold physical) shape ∧ f = named name physical shape)
       ∨ ∃ cx table physical' tc names, load_table reflect registry connection_id physical' cx = Ok table
           ∧ casefold physical' = casefold physical
           ∧ resolve_query_table_connections resolver (sc_query s) connection_id principal names = Ok tc
           ∧ cx = default connection_id (dict_get (casefold name) (casefold_keys tc))
           ∧ f = named name physical (FromTable table)).
Proof.
  intros [outer Hv] Hs Ht Hf. destruct (validate_schema_ok _ _ _ _ _ _ _ _ _ Hv) as (_ & _ & Hall).
  destruct (Hall s Hs) as (t' & si & Ht' & [_ Hcx (names & tc & Htc & Hsi & _) Hctes Houter Hval]).
  rewrite Ht in Ht'. injection Ht' as <-. destruct (sv_memo _ _ _ _ _ Hval) as (memo & Hloaded & Hb).
  destruct (Hb name f Hf) as [Ho|physical cte _ Hp Hcte ->|physical table _ Hp Hcte Hmemo ->].
  - left. destruct Houter as [[Hnil _]|Hd]; [by rewrite Hnil in Ho|]. by exists (si_correlated si).
  - right. exists physical. split; [done|left]. exists cte. split; [by apply Hctes|done].
  - right. exists physical. split; [done|right]. apply Hloaded in Hmemo as (physical' & Hl & Hc).
    rewrite Hcx in Hl. exists (connection_of si name), table, physical', tc, names. split_and!; [done..| |done].
    unfold connection_of. by rewrite Hcx, Hsi.
Qed.

(** A correlated reference reaches exactly one level up: for a nested query
    of a query that is no cte's body, the table a declared reference names is
    one of its parent's own, it has the column, and the nested scope binds the
    name to the very element the compiler finds for it in the parent. *)
Theorem correlation_binds_parent q tables conns parent i child ref :
  accepts q tables conns → parent ∈ iter_query_scopes q → (∀ k, sc_path parent ≠ [InCte k]) →
  nested_subqueries (sc_query parent) !! i = Some child → ref ∈ correlate child →
  ∃ t c f pt ct, parse_column_ref ref = Ok (t, c)
    ∧ path_get (sc_path parent) tables = Some pt ∧ path_get (sc_path parent ++ [InSubquery i]) tables = Some ct
    ∧ casefold t ∈ map casefold (dict_keys (effective_name_map (sc_query parent)))
    ∧ table_by_name pt t = Ok f ∧ table_by_name ct t = Ok f
    ∧ is_ok (resolve_column (from_columns f) c) = true.
Proof.
  intros [outer Hv] Hp Hnc Hi Href. destruct (validate_schema_ok _ _ _ _ _ _ _ _ _ Hv) as (_ & _ & Hall).
  destruct (at_scope_subquery q (sc_path parent) (sc_query parent) i child) as [d Hs]; [exists (sc_depth parent); by destruct parent|done|].
  destruct (Hall _ Hs) as (ct & si & Hct & [_ _ _ _ Houter Hval]). cbn [sc_path sc_query] in *.
  destruct Houter as [[_ Hno]|Hd].
  { exfalso. apply Hno. exists (sc_path parent), i. split_and!; [done|done|]. cbn. intros Hnil. rewrite Hnil in Href. by apply elem_of_nil in Href. }
  destruct Hd as (pp & j & pq & ch & pt & Hpath & Hat & Hj & Hpt & Hvis).
  apply app_inj_2 in Hpath as [Hpp [= <-]]; [|done]. rewrite <- Hpp in *. destruct Hat as [d' Hat].
  pose proof (scopes_path_inj q _ parent Hat Hp eq_refl) as Heq. rewrite <- Heq in *. cbn [sc_query] in *.
  rewrite Hi in Hj. injection Hj as <-. apply bind_ok in Hvis as (entries & Hent & [= Hvis]).
  pose proof Hent as Hent'. apply map_result_ok in Hent. apply list_elem_of_lookup in Href as [n Hn].
  destruct (Forall2_lookup_l _ _ _ _ _ Hent Hn) as ([t f] & Hte & Hvt). unfold visible_table in Hvt.
  apply bind_ok in Hvt as ([t' c] & Hparse & Hvt). destruct (table_by_name_or_none pt t') as [g|] eqn:Eg; [|done].
  case_bool_decide as Hown; [|done]. apply bind_ok in Hvt as (col & Hcol & [= -> ->]).
  exists t, c, f, pt, ct. unfold table_by_name. rewrite Eg, Hcol. split_and!; try done.
  (* every spelling of the name is handed down as the same element *)
  assert (Hsame : table_by_name_or_none (si_correlated si) t = Some f).
  { rewrite <- Hvis. apply list_to_dict_by_name; [by eapply list_elem_of_lookup_2|].
    intros k g [m Hm]%list_elem_of_lookup Hk. destruct (Forall2_lookup_r _ _ _ _ _ Hent Hm) as (ref' & _ & Hr).
    apply bind_ok in Hr as ([k' c'] & _ & Hr). destruct (table_by_name_or_none pt k') as [g'|] eqn:Eg'; [|done].
    case_bool_decide; [|done]. apply bind_ok in Hr as (? & _ & [= -> ->]).
    rewrite (by_name_casefold pt k t Hk) in Eg'. congruence. }
  destruct (sv_memo _ _ _ _ _ Hval) as (memo & _ & Hb).
  assert (Hkey : t ∈ dict_keys ct).
  { destruct (sv_needed _ _ _ _ _ Hval) as (needed & Hn' & Hkeys). apply Hkeys.
    apply bind_ok in Hn' as (refs & _ & [= <-]). rewrite <- Hvis, elem_of_cons, elem_of_app. right; left.
    apply list_to_dict_keys, list_elem_of_fmap. exists (t, f). split; [done|by eapply list_elem_of_lookup_2]. }
  apply dict_get_is_Some in Hkey as [h Hh]. destruct (by_name_dict_get ct t h Hh) as (k & g & Hg & Hc & Htb).
  unfold table_by_name in Htb. destruct (table_by_name_or_none ct t); [|done]. injection Htb as ->.
  destruct (Hb k g Hg) as [Hk|? ? Hk|? ? Hk]; rewrite (by_name_casefold _ k t Hc), Hsame in Hk; congruence.
Qed.

(** The arms of an accepted set operation fit together: at every position
    every arm, the carrier included, has an item, and any two whose type families
    are known there have the same one. *)
Theorem set_op_arms_agree q tables conns s position a b :
  accepts q tables conns → s ∈ iter_query_scopes q → is_some (set_op (sc_query s)) = true →
  (position < length (select (sc_query s)))%nat →
  a ∈ arms_with_tables tables s → b ∈ arms_with_tables tables s →
  ∃ ia ib fa fb, select a.1 !! position = Some ia ∧ select b.1 !! position = Some ib
    ∧ select_item_type_family a.2 ia = Ok fa ∧ select_item_type_family b.2 ib = Ok fb
    ∧ ∀ f g, fa = Some f → fb = Some g → f = g.
Proof.
  intros [outer Hv] Hs Hset Hpos Ha Hb. destruct (validate_schema_ok _ _ _ _ _ _ _ _ _ Hv) as (_ & Hty & _).
  eapply for_each_ok_elem in Hty; [|exact Hs]. rewrite Hset in Hty.
  eapply (for_each_ok_elem _ _ position) in Hty; [|apply elem_of_seq; lia].
  destruct (position_turns_ok _ _ _ Hty) as (seen & _ & Hlen & Hall); [cbn; lia|].
  destruct (Hall a Ha) as (ia & fa & ? & ? & Hfa), (Hall b Hb) as (ib & fb & ? & ? & Hfb).
  exists ia, ib, fa, fb. split_and!; [done..|]. intros f g Hf%Hfa Hg%Hfb. destruct seen as [|x [|]]; [set_solver| |cbn in Hlen; lia].
  apply list_elem_of_singleton in Hf, Hg. congruence.
Qed.

(** The join graph of an accepted scope grows from its FROM table: a join
    that is no cross join is about the joined table and at least one other, and
    only about tables that come before it; its further pairs are about the same
    tables. *)
Theorem joins_connect_backwards q tables conns s i j :
  accepts q tables conns → s ∈ iter_query_scopes q → joins (sc_query s) !! i = Some j → js_type j ≠ JoinCross →
  ∃ sides, join_tables j = Ok sides ∧ casefold (join_key j) ∈ sides ∧ sides ∖ {[casefold (join_key j)]} ≠ ∅
    ∧ sides ∖ {[casefold (join_key j)]} ⊆ joined_before (sc_query s) i
    ∧ Forall (λ pair, check_extra_pair sides pair = Ok tt) (js_extra_on j).
Proof.
  intros [outer Hv] Hs Hj Hcross. destruct (validate_schema_ok _ _ _ _ _ _ _ _ _ Hv) as (_ & _ & Hall).
  destruct (Hall s Hs) as (t & si & _ & Hok).
  pose proof (sv_graph _ _ _ _ _ (so_validated _ _ _ _ _ _ _ _ _ _ _ Hok)) as Hg.
  apply bind_ok in Hg as (known & Hg & _). exact (join_graph_ok _ _ _ _ _ Hg Hj Hcross).
Qed.

(** Nesting does not cross connections: below the outermost query no join of
    an accepted statement names a connection other than the statement's own. *)
Theorem nesting_stays_on_connection q tables conns s j :
  accepts q tables conns → s ∈ iter_query_scopes q → (0 < sc_depth s)%nat → j ∈ joins (sc_query s) →
  js_connection j = None ∨ js_connection j = Some connection_id.
Proof.
  intros [outer Hv] Hs Hd Hj. destruct (validate_schema_ok _ _ _ _ _ _ _ _ _ Hv) as (_ & _ & Hall).
  destruct (Hall s Hs) as (t & si & _ & Hok). exact (so_single _ _ _ _ _ _ _ _ _ _ _ Hok Hd j Hj).
Qed.

(** The names the validator predicts are the names the compiler gives: in an
    accepted scope the output name computed for a select item (for a cte's
    projection, for [top_n]) is the name of the column the compiler builds, and
    one the alias map has. For the default names of string_agg, array_agg and
    percentile_cont the column must be written as the database spells it. *)
Theorem predicted_names_compiled `{DA : DialectAdapter} q tables conns s t item env m n e names :
  accepts q tables conns → s ∈ iter_query_scopes q → path_get (sc_path s) tables = Some t →
  item ∈ select (sc_query s) → written_as_reflected t item →
  select_item_output_name t item = Ok n → compile_select_item env t m item = Ok (e, names) →
  output_name e = n ∧ n ∈ names.
Proof.
  intros [outer Hv] Hs Ht Hitem. destruct (validate_schema_ok _ _ _ _ _ _ _ _ _ Hv) as (_ & _ & Hall).
  destruct (Hall s Hs) as (t' & si & Ht' & Hok). rewrite Ht in Ht'. injection Ht' as <-.
  pose proof (so_validated _ _ _ _ _ _ _ _ _ _ _ Hok) as Hval. apply predicted_item.
  - intros ref col Hcol. by eapply compile_column_resolves.
  - intros ref Href. pose proof (sv_columns _ _ _ _ _ Hval) as Hcols. apply bind_ok_unit in Hcols as [Hsel _].
    eapply for_each_ok_elem in Hsel; [|exact Hitem]. apply bind_ok_unit in Hsel as [_ Hsel].
    apply resolve_unit_ok. by eapply for_each_ok_elem in Hsel; [|exact Href].
Qed.

End properties.
