(* ===== verification/SchemaSample.v ===== *)
(** A statement of a concrete database held against its schema: the witnesses of
    [SchemaFacts], and two places where the code parts from what it says. *)
From S2P Require Export SchemaFacts.
Local Open Scope Z_scope.

#[local] Existing Instances ascii_casefold once_each host_parser.

(** [customers] with its balance, [invoices] with the customer and a note. *)
Definition note_column : SaColumn := MkSaColumn "Note" true false false false (Some PyStr).

Definition desk_tables : dict SaTable :=
  [("customers", MkSaTable "customers" [key_column "id"; plain_column "balance"] [] []);
   ("invoices", MkSaTable "invoices" [key_column "id"; plain_column "customer_id"; note_column] [] [])].

Definition desk_reflect (cx name : string) (schema : option string) : result SaTable :=
  match dict_get (casefold name) desk_tables with
  | Some t => Ok t
  | None => Raise (BuiltinError "NoSuchTableError")
  end.

Definition desk_registry : ConnectionRegistry := [("main", sample_profile "main")].

(** [EXISTS (SELECT invoices.id FROM invoices WHERE invoices.customer_id = outer.id)]. *)
Definition has_invoice (outer_id : string) : WhereNode :=
  WPredicate (exists_subquery
    (with_correlate [outer_id]
      (with_where (WPredicate (column_predicate "invoices.customer_id" OpEq outer_id))
        (simple_query "invoices" [ColumnItem "invoices.id"])))).

Definition note_join : JoinSpec :=
  MkJoinSpec "invoices" (Some "i") JoinInner (Some ("Customers.id", "i.customer_id")) [] None None.

(** Customers with an invoice, joined to them, united with a cte's rows. *)
Definition desk_query : StructuredQuery :=
  with_ctes [MkCteSpec "block" (simple_query "customers" [ColumnItem "customers.balance"])]
    (with_set_op (MkSetOpSpec SetUnion false [simple_query "block" [ColumnItem "block.balance"]; simple_query "invoices" [ColumnItem "invoices.id"]])
      (with_joins [note_join]
        (with_where (has_invoice "customers.id") (simple_query "customers" [ColumnItem "Customers.ID"])))).

Definition desk_run (q : StructuredQuery) :=
  validate_schema desk_reflect desk_registry "main" None sample_live q.

Definition desk_schema (q : StructuredQuery) : list (scope_path * sa_tables) * ScopeConnections :=
  match desk_run q with Ok (_, tables, conns) => (tables, conns) | Raise _ => ([], []) end.

Definition desk_accepts (q : StructuredQuery) : Prop :=
  accepts desk_reflect desk_registry "main" None sample_live q (desk_schema q).1 (desk_schema q).2.

Definition desk_outer : Scope := MkScope [] 0 desk_query.
Definition desk_tables_at (path : scope_path) : sa_tables := default [] (path_get path (desk_schema desk_query).1).

Lemma desk_accepted : desk_accepts desk_query.
Proof. eexists. vm_compute. reflexivity. Qed.

Lemma desk_outer_scope : desk_outer ∈ iter_query_scopes desk_query.
Proof. left. Qed.

Lemma every_reference_resolves_witness :
  ∃ t f, path_get [] (desk_schema desk_query).1 = Some t ∧ resolve_ref t "Customers.id" = Ok (key_column "id")
    ∧ compile_column t "Customers.id" = Ok (EColumn f (key_column "id")).
Proof.
  destruct (every_reference_resolves desk_reflect desk_registry "main" None sample_live desk_query
    (desk_schema desk_query).1 (desk_schema desk_query).2 desk_outer (MkColumnRef JOIN_ON "Customers.id"))
    as (t & Ht & [(f & col & Hr & Hc)|[Hout _]]).
  - exact desk_accepted.
  - exact desk_outer_scope.
  - vm_compute. right. left.
  - exists t, f. split; [exact Ht|]. cbn [ref_ref] in Hr, Hc. vm_compute in Ht. injection Ht as <-.
    vm_compute in Hr. injection Hr as <-. split; [reflexivity|exact Hc].
  - discriminate Hout.
Defined.

(** The alias [i] of the join, bound to the reflected invoices. *)
Definition desk_i : SaFrom :=
  FromAlias "i" (FromTable (MkSaTable "invoices" [key_column "id"; plain_column "customer_id"; note_column] [] [])).

Lemma bound_names_exist_witness :
  (∃ visible, handed_down desk_query (desk_schema desk_query).1 [] visible
     ∧ table_by_name_or_none visible "i" = Some desk_i)
  ∨ ∃ physical, dict_get (casefold "i") (effective_name_map desk_query) = Some physical
    ∧ ((∃ shape, cte_stands_for desk_query (desk_schema desk_query).1 (casefold physical) shape ∧ desk_i = named "i" physical shape)
       ∨ ∃ cx table physical' tc names, load_table desk_reflect desk_registry "main" physical' cx = Ok table
           ∧ casefold physical' = casefold physical
           ∧ resolve_query_table_connections sample_live desk_query "main" None names = Ok tc
           ∧ cx = default "main" (dict_get (casefold "i") (casefold_keys tc))
           ∧ desk_i = named "i" physical (FromTable table)).
Proof.
  apply (bound_names_exist desk_reflect desk_registry "main" None sample_live desk_query
    (desk_schema desk_query).1 (desk_schema desk_query).2 desk_outer (desk_tables_at []) "i" desk_i).
  - exact desk_accepted.
  - exact desk_outer_scope.
  - vm_compute. reflexivity.
  - vm_compute. reflexivity.
Defined.

Definition desk_exists : StructuredQuery :=
  with_correlate ["customers.id"]
    (with_where (WPredicate (column_predicate "invoices.customer_id" OpEq "customers.id"))
      (simple_query "invoices" [ColumnItem "invoices.id"])).

Lemma correlation_binds_parent_witness :
  ∃ t c f pt ct, parse_column_ref "customers.id" = Ok (t, c)
    ∧ path_get [] (desk_schema desk_query).1 = Some pt ∧ path_get [InSubquery 0] (desk_schema desk_query).1 = Some ct
    ∧ casefold t ∈ map casefold (dict_keys (effective_name_map desk_query))
    ∧ table_by_name pt t = Ok f ∧ table_by_name ct t = Ok f
    ∧ is_ok (resolve_column (from_columns f) c) = true.
Proof.
  apply (correlation_binds_parent desk_reflect desk_registry "main" None sample_live desk_query
    (desk_schema desk_query).1 (desk_schema desk_query).2 desk_outer 0 desk_exists "customers.id").
  - exact desk_accepted.
  - exact desk_outer_scope.
  - intros k. discriminate.
  - reflexivity.
  - left.
Defined.

(** The first arm's family is unknown, that of the second is the carrier's. *)
Lemma set_op_arms_agree_witness :
  ∃ (ia ib : SelectItem) fa fb, select desk_query !! 0%nat = Some ia ∧ ia = ColumnItem "Customers.ID" ∧ ib = ColumnItem "invoices.id"
    ∧ fa = Some FamNumeric ∧ fb = Some FamNumeric ∧ (∀ f g, fa = Some f → fb = Some g → f = g).
Proof.
  destruct (set_op_arms_agree desk_reflect desk_registry "main" None sample_live desk_query
    (desk_schema desk_query).1 (desk_schema desk_query).2 desk_outer 0 (desk_query, desk_tables_at [])
    (simple_query "invoices" [ColumnItem "invoices.id"], desk_tables_at [InArm 1]))
    as (ia & ib & fa & fb & Ha & Hb & Hfa & Hfb & H).
  - exact desk_accepted.
  - exact desk_outer_scope.
  - reflexivity.
  - cbn. lia.
  - vm_compute. left.
  - vm_compute. right. right. left.
  - exists ia, ib, fa, fb. vm_compute in Ha, Hb. injection Ha as <-. injection Hb as <-.
    vm_compute in Hfa, Hfb. injection Hfa as <-. injection Hfb as <-. repeat split; exact H.
Defined.

Lemma joins_connect_backwards_witness :
  ∃ sides, join_tables note_join = Ok sides ∧ casefold (join_key note_join) ∈ sides
    ∧ sides ∖ {[casefold (join_key note_join)]} ≠ ∅
    ∧ sides ∖ {[casefold (join_key note_join)]} ⊆ joined_before desk_query 0
    ∧ Forall (λ pair, check_extra_pair sides pair = Ok tt) (js_extra_on note_join).
Proof.
  apply (joins_connect_backwards desk_reflect desk_registry "main" None sample_live desk_query
    (desk_schema desk_query).1 (desk_schema desk_query).2 desk_outer 0 note_join).
  - exact desk_accepted.
  - exact desk_outer_scope.
  - reflexivity.
  - discriminate.
Defined.

(** A cte over the notes joined as a string: what its projection is called. *)
Definition notes_item : SelectItem := StringAggSelectItem "invoices.Note" "," None.
Definition notes_query : StructuredQuery := simple_query "invoices" [notes_item].

Definition notes_compiled : result (SaExpr * list string) :=
  @compile_select_item ascii_casefold postgres_adapter tenant_env
    (default [] (path_get [] (desk_schema notes_query).1)) [] notes_item.

Lemma predicted_names_compiled_witness :
  ∃ e names, notes_compiled = Ok (e, names) ∧ output_name e = "string_agg_Note" ∧ "string_agg_Note" ∈ names.
Proof.
  destruct notes_compiled as [[e names]|x] eqn:E; [|vm_compute in E; discriminate].
  exists e, names. split; [reflexivity|].
  apply (@predicted_names_compiled ascii_casefold host_parser once_each desk_reflect desk_registry "main" None sample_live
    postgres_adapter notes_query (desk_schema notes_query).1 (desk_schema notes_query).2 (MkScope [] 0 notes_query)
    (default [] (path_get [] (desk_schema notes_query).1)) notes_item tenant_env []).
  - eexists. vm_compute. reflexivity.
  - left.
  - vm_compute. reflexivity.
  - left.
  - intros col H. vm_compute in H. injection H as <-. vm_compute. reflexivity.
  - vm_compute. reflexivity.
  - exact E.
Defined.

(** * Where the code parts from what it says *)

(** A correlated EXISTS inside a cte's body, under a policy that lets queries
    nest three deep. *)
Definition deep_policy : Policy :=
  MkPolicy default_access default_write_policy
    (MkCaps 5 false 30 5 10 3 3 3 2 100 1000 50 50 5 10 100 1000 10 5 200)
    default_windows default_disclosure default_execution default_gates.

Definition indebted : StructuredQuery :=
  with_where (has_invoice "customers.id") (simple_query "customers" [ColumnItem "customers.id"]).

Definition indebted_block : StructuredQuery :=
  with_ctes [MkCteSpec "block" indebted] (simple_query "block" [ColumnItem "block.id"]).

Definition deep_policy_admits (q : StructuredQuery) : bool :=
  is_ok (validate_policy (MkEnforcement sample_live None "main" None None) q deep_policy).

(** A correlated EXISTS is refused inside a cte's body, though the policy admits
    it and the same query is accepted outside of one: the scope loop
    ([schema_validation.py:1318]) passes over the bodies, validated before it, and
    so never hands their nested queries the outer tables they declared. *)
Theorem correlated_exists_in_cte_is_refused :
  query_wf indebted_block = true ∧ deep_policy_admits indebted_block = true ∧ is_ok (desk_run indebted) = true
  ∧ desk_run indebted_block = Raise (QueryValidationError
      "Column references may only use the query's from table/alias or an explicitly declared join table/alias").
Proof. split_and!; vm_compute; reflexivity. Qed.

(** [SELECT string_agg(invoices.NOTE, ',') FROM invoices], ranked by a name. *)
Definition notes_ranked (by_name : string) : StructuredQuery :=
  MkStructuredQuery "invoices" None [StringAggSelectItem "invoices.NOTE" "," None] false [] None [] None []
    None 0 (Some (MkTopNSpec [] [MkOrderBySpec by_name SortAsc None] 1 RankRank)) None [] [] None None.

Definition desk_compile (q : StructuredQuery) : result (sa_stmt * Z) :=
  @compile_structured_query ascii_casefold postgres_adapter no_resolver host_parser
    (MkStatementEnv default_policy None None None None (Some (desk_schema q).1))
    (default [] (path_get [] (desk_schema q).1)) q.

(** The default name of an aggregated string quotes the reference as written
    where the compiler ([sqlalchemy_compiler.py:638]) quotes the column as the
    database spells it: the name validation takes for a [top_n] the compiler does
    not know, and the one the compiler knows validation refuses. *)
Theorem predicted_name_keeps_written_case :
  is_ok (desk_run (notes_ranked "string_agg_NOTE")) = true
  ∧ desk_compile (notes_ranked "string_agg_NOTE") = Raise (QueryValidationError "Unknown column or alias")
  ∧ is_ok (desk_run (notes_ranked "string_agg_Note")) = false.
Proof. split_and!; vm_compute; reflexivity. Qed.
