(* ===== verification/Approval.v ===== *)
(** Cost estimates and human approval: [execution/cost_estimation.py] (the
    threshold checks) and [execution/approval.py] (threshold and sensitivity
    triggers, approval tokens), with the catalog lookups of
    [catalog/models.py] and [catalog/loader.py] the triggers read. SHA-256,
    HMAC, base64 and JSON text are parameters with their documented laws. *)
From S2P Require Export PolicyValidation.
From Stdlib Require Export QArith Qround.
From Stdlib Require Import Ascii.
Local Open Scope Z_scope.

(** * Cost estimates *)

Record QueryCostEstimate := MkEstimate {
  estimated_rows : option Z;
  estimated_total_cost : option float64;
}.

(** [a > b] on floats: false when either is a NaN. *)
Definition f64_gt (a b : float64) : bool := SFltb b a.

Definition exceeds {A} (gt : A → A → bool) (value threshold : option A) : bool :=
  match threshold, value with Some t, Some v => gt v t | _, _ => false end.

Definition z_gt (a b : Z) : bool := b <? a.

(** [cost_estimate_violations]. *)
Definition cost_estimate_violations (e : QueryCostEstimate) (p : Policy) : list string :=
  (if exceeds z_gt (estimated_rows e) (max_estimated_rows (gates p))
   then ["estimated rows exceeds max_estimated_rows"] else [])
  ++ (if exceeds f64_gt (estimated_total_cost e) (max_estimated_cost (gates p))
      then ["estimated planner cost exceeds max_estimated_cost"] else []).

(** [enforce_cost_estimate]. *)
Definition enforce_cost_estimate (e : QueryCostEstimate) (p : Policy) : result unit :=
  raise_if (negb (length (cost_estimate_violations e p) =? 0)%nat)
    (CostEstimateExceededError "Query rejected by pre-execution cost estimate").

(** [approval_required_reasons]. *)
Definition approval_required_reasons (e : QueryCostEstimate) (p : Policy) : list string :=
  (if exceeds z_gt (estimated_rows e) (approval_max_estimated_rows (gates p))
   then ["estimated rows exceeds approval threshold"] else [])
  ++ (if exceeds f64_gt (estimated_total_cost e) (approval_max_estimated_cost (gates p))
      then ["estimated planner cost exceeds approval threshold"] else []).

(** * Catalog labels *)

Record TableCatalogEntry := MkTableEntry {
  te_columns : dict SensitivityClass;
  te_sensitivity : SensitivityClass;
}.

(** [SchemaCatalog.connections]: each connection's tables. *)
Abbreviation CatalogStore := (dict (dict TableCatalogEntry)).

Section approval.
Context `{CF : CaseFold}.

(** The first entry whose key folds to the name: [ConnectionCatalog.table] and
    [TableCatalogEntry.column]. *)
Fixpoint ci_first {A} (d : dict A) (name : string) : option A :=
  match d with
  | [] => None
  | (k, v) :: rest => if bool_decide (casefold k = casefold name) then Some v else ci_first rest name
  end.

(** [CatalogStore.get_table]. *)
Definition get_table (store : CatalogStore) (connection_id table_name : string) :
  option TableCatalogEntry :=
  match dict_get connection_id store with
  | None => None
  | Some tables => ci_first tables table_name
  end.

(** The label of one column under one connection's catalog: its own, unless
    that is NONE, else its table's. *)
Definition effective_label (entry : TableCatalogEntry) (column : string) : SensitivityClass :=
  match ci_first (te_columns entry) column with
  | Some s => if bool_decide (s = SENS_NONE) then te_sensitivity entry else s
  | None => te_sensitivity entry
  end.

(** One reason of [sensitivity_approval_reasons], before it is formatted. *)
Record SensitivityHit := MkHit {
  hit_label : SensitivityClass;
  hit_key : string;
  hit_connection : option string;
}.

(** The first candidate connection whose catalog gives a triggering label. *)
Fixpoint first_label (store : CatalogStore) (triggers : list SensitivityClass)
  (candidates : list string) (physical column : string) : option (SensitivityClass * string) :=
  match candidates with
  | [] => None
  | cx :: rest =>
      match get_table store cx physical with
      | None => first_label store triggers rest physical column
      | Some entry =>
          let l := effective_label entry column in
          if bool_decide (l ∈ triggers) then Some (l, cx)
          else first_label store triggers rest physical column
      end
  end.

Definition candidate_connections (table_connection_id connection_id : string) : list string :=
  if bool_decide (table_connection_id = connection_id) then [connection_id]
  else [table_connection_id; connection_id].

(** The body of the reference loop: the hit of one reference, if any. *)
Definition reference_hit (store : CatalogStore) (triggers : list SensitivityClass)
  (connection_id : string) (table_connection : dict string) (cte_names : gset string)
  (name_to_physical : dict string) (r : ColumnRef) : result (option SensitivityHit) :=
  parse_column_ref (ref_ref r) ≫= λ '(t, c),
  let physical := physical_of name_to_physical t in
  if bool_decide (casefold physical ∈ cte_names) then Ok None
  else
    let candidates :=
      candidate_connections (table_connection_id table_connection t connection_id) connection_id in
    Ok (match first_label store triggers candidates physical c with
        | Some (l, cx) => Some (MkHit l (physical +:+ "." +:+ c)
            (if (1 <? length candidates)%nat then Some cx else None))
        | None => None
        end).

(** [hits] with [seen]: a column already reported is not reported again. *)
Definition add_hit (hits : list SensitivityHit) (h : option SensitivityHit) : list SensitivityHit :=
  match h with
  | Some x => if bool_decide (hit_key x ∈ map hit_key hits) then hits else hits ++ [x]
  | None => hits
  end.

(** [sensitivity_approval_reasons]. *)
Definition sensitivity_approval_reasons (store : CatalogStore) (q : StructuredQuery) (p : Policy)
  (connection_id : string) (scs : option ScopeConnections) : result (list SensitivityHit) :=
  let triggers := approval_sensitivities (gates p) in
  if (length triggers =? 0)%nat then Ok []
  else
    map_result (λ s,
      map_result (reference_hit store triggers connection_id
        (scope_table_connection scs (sc_path s)) (declared_cte_names q)
        (effective_name_map (sc_query s))) (iter_column_refs (sc_query s)))
      (iter_query_scopes q) ≫= λ hits,
    Ok (foldl add_hit [] (concat hits)).
End approval.

(** * Approval tokens *)

(** [s.rsplit(".", 1)] when it has a dot. *)
Fixpoint rsplit_dot (s : string) : option (string * string) :=
  match s with
  | EmptyString => None
  | String c s' =>
      match rsplit_dot s' with
      | Some (l, r) => Some (String c l, r)
      | None => if Ascii.eqb c "."%char then Some (EmptyString, s') else None
      end
  end.

(** A payload of texts and integers only. *)
Definition flat_value (v : json) : bool := match v with JStr _ | JInt _ => true | _ => false end.

Definition flat (d : dict json) : bool := forallb (λ e : string * json, flat_value e.2) d.

(** The primitives of the token: HMAC-SHA256 in hex, unpadded URL-safe base64,
    canonical JSON text. A decoder that raises returns [None]. *)
Class TokenPrimitives := {
  sign : string → string → string;
  b64_encode : string → string;
  b64_decode : string → option string;
  json_dumps : dict json → string;
  json_loads : string → option json;
  sign_no_dot payload key : has_dot (sign payload key) = false;
  b64_round_trip s : b64_decode (b64_encode s) = Some s;
  json_round_trip d : flat d = true → ∃ d', json_loads (json_dumps d) = Some (JObj d')
    ∧ ∀ k, dict_get k d' = dict_get k d;
}.

Definition TOKEN_FORMAT_VERSION : Z := 1.
Definition TOKEN_KIND_GRANT : string := "grant".
Definition TOKEN_KIND_PENDING : string := "pending".
Definition DEFAULT_APPROVAL_TTL_SECONDS : Z := 300.

Section tokens.
Context `{TP : TokenPrimitives}.

Definition optional_claim (k : string) (o : option string) : dict json :=
  match o with Some v => [(k, JStr v)] | None => [] end.

(** The payload [issue_approval_token] builds. A clock reading is a rational
    number of seconds; [int] truncates the (positive) expiry. *)
Definition token_payload (fingerprint approver_subject kind : string)
  (connection_id principal_subject : option string) (ttl_seconds : Z) (now : Q) : dict json :=
  [("v", JInt TOKEN_FORMAT_VERSION); ("fp", JStr fingerprint); ("sub", JStr approver_subject);
   ("k", JStr kind); ("exp", JInt (Qfloor (now + inject_Z ttl_seconds)))]
  ++ optional_claim "cx" connection_id ++ optional_claim "sub_bind" principal_subject.

(** [issue_approval_token]. *)
Definition issue_approval_token (fingerprint approver_subject key : string)
  (connection_id principal_subject : option string) (kind : string) (ttl_seconds : Z) (now : Q) :
  result string :=
  if str_empty key
  then Raise (ValueError "APPROVAL_TOKEN_HMAC_KEY is not configured; cannot issue approval tokens")
  else
    let payload_bytes := json_dumps (token_payload fingerprint approver_subject kind connection_id
                           principal_subject ttl_seconds now) in
    Ok (b64_encode payload_bytes +:+ "." +:+ sign payload_bytes key).

(** [payload.get(k) == JStr v], and a claim checked only when carried. *)
Definition claim_is (payload : dict json) (k v : string) : bool :=
  match dict_get k payload with Some (JStr s) => bool_decide (s = v) | _ => false end.

Definition bound_claim_ok (payload : dict json) (k : string) (expected : option string) : bool :=
  match dict_get k payload with
  | None | Some JNull => true
  | Some (JStr s) => bool_decide (expected = Some s)
  | Some _ => false
  end.

(** [payload.get("v") != 1] on JSON values: Python's [True] and [1.0] equal 1. *)
Definition version_ok (payload : dict json) : bool :=
  match dict_get "v" payload with
  | Some (JInt n) => n =? TOKEN_FORMAT_VERSION
  | Some (JBool b) => b
  | Some (JFloat f) => SFeqb f f64_one
  | _ => false
  end.

(** [isinstance(exp, int) and current < exp]: a bool is an int. *)
Definition unexpired (payload : dict json) (now : Q) : bool :=
  match dict_get "exp" payload with
  | Some (JInt n) => negb (Qle_bool (inject_Z n) now)
  | Some (JBool b) => negb (Qle_bool (inject_Z (Z.b2z b)) now)
  | _ => false
  end.

Definition payload_ok (payload : dict json) (fingerprint kind : string)
  (connection_id principal_subject : option string) (now : Q) : bool :=
  version_ok payload && claim_is payload "fp" fingerprint && claim_is payload "k" kind
  && bound_claim_ok payload "cx" connection_id && bound_claim_ok payload "sub_bind" principal_subject
  && unexpired payload now.

(** [verify_approval_token]. *)
Definition verify_approval_token (token fingerprint key : string)
  (connection_id principal_subject : option string) (expected_kind : string) (now : Q) : bool :=
  if str_empty key || str_empty token then false
  else
    match rsplit_dot token with
    | None => false
    | Some (encoded, signature) =>
        match b64_decode encoded with
        | None => false
        | Some payload_bytes =>
            if negb (bool_decide (sign payload_bytes key = signature)) then false
            else match json_loads payload_bytes with
                 | Some (JObj payload) =>
                     payload_ok payload fingerprint expected_kind connection_id principal_subject now
                 | _ => false
                 end
        end
    end.
End tokens.

(** * Helper lemmas *)

Section approval_facts.
Context `{CF : CaseFold}.

Lemma first_label_Some store triggers candidates physical c :
  is_some (first_label store triggers candidates physical c) = true ↔
    ∃ cx entry, cx ∈ candidates ∧ get_table store cx physical = Some entry
      ∧ effective_label entry c ∈ triggers.
Proof.
  induction candidates as [|cx rest IH]; cbn; [split; [done|set_solver]|].
  assert (Hrest : (∃ cx' entry, cx' ∈ rest ∧ get_table store cx' physical = Some entry
      ∧ effective_label entry c ∈ triggers) →
    ∃ cx' entry, cx' ∈ cx :: rest ∧ get_table store cx' physical = Some entry
      ∧ effective_label entry c ∈ triggers) by set_solver.
  destruct (get_table store cx physical) as [entry|] eqn:E.
  - case_bool_decide as Hl; cbn; [split; [|done]; intros _; exists cx, entry; set_solver|].
    rewrite IH. split; [done|]. intros (cx' & e & [->|?]%elem_of_cons & He & Ht); [congruence|].
    by exists cx', e.
  - rewrite IH. split; [done|]. intros (cx' & e & [->|?]%elem_of_cons & He & Ht); [congruence|].
    by exists cx', e.
Qed.

Lemma add_hits_nonempty hits : ∀ acc,
  foldl add_hit acc hits = [] ↔ acc = [] ∧ ∀ h, h ∈ hits → h = None.
Proof.
  induction hits as [|h hits IH]; intros acc; cbn; [set_solver|]. rewrite IH.
  destruct h as [x|]; cbn; [|set_solver]. case_bool_decide as Hk.
  - split; [intros [-> _]; cbn in Hk; by apply not_elem_of_nil in Hk|].
    intros [_ H]. specialize (H (Some x)). set_solver.
  - split; [intros [H _]; by destruct acc|]. intros [_ H]. specialize (H (Some x)). set_solver.
Qed.

Lemma add_hits_nodup hits : ∀ acc,
  NoDup (map hit_key acc) → NoDup (map hit_key (foldl add_hit acc hits)).
Proof.
  induction hits as [|h hits IH]; intros acc Hnd; cbn; [done|]. apply IH.
  destruct h as [x|]; cbn; [|done]. case_bool_decide as Hk; [done|].
  rewrite map_app. apply NoDup_app. split_and!; [done| |apply NoDup_singleton].
  intros k Hin. cbn. set_solver.
Qed.

(** What makes a reference a hit. *)
Definition labelled_reference (store : CatalogStore) (q : StructuredQuery) (p : Policy)
  (connection_id : string) (scs : option ScopeConnections) (s : Scope) (r : ColumnRef) : Prop :=
  ∃ t c cx entry, parse_column_ref (ref_ref r) = Ok (t, c)
    ∧ (casefold (physical_of (effective_name_map (sc_query s)) t) ∉ declared_cte_names q)
    ∧ (cx = connection_id
       ∨ cx = table_connection_id (scope_table_connection scs (sc_path s)) t connection_id)
    ∧ get_table store cx (physical_of (effective_name_map (sc_query s)) t) = Some entry
    ∧ effective_label entry c ∈ approval_sensitivities (gates p).

Lemma candidate_connections_elem a b cx :
  cx ∈ candidate_connections a b ↔ cx = b ∨ cx = a.
Proof. unfold candidate_connections. case_bool_decide; set_solver. Qed.

Lemma reference_hit_Some store q p connection_id scs s r h :
  reference_hit store (approval_sensitivities (gates p)) connection_id
    (scope_table_connection scs (sc_path s)) (declared_cte_names q)
    (effective_name_map (sc_query s)) r = Ok h →
  (h ≠ None) ↔ labelled_reference store q p connection_id scs s r.
Proof.
  unfold reference_hit. intros ([t c] & Hp & H)%bind_ok.
  case_bool_decide as Hc.
  { injection H as <-. split; [done|]. intros (t' & c' & cx & e & Hp' & Hn & _).
    rewrite Hp in Hp'. by simplify_eq. }
  injection H as <-.
  pose proof (first_label_Some store (approval_sensitivities (gates p))
    (candidate_connections (table_connection_id (scope_table_connection scs (sc_path s)) t connection_id)
       connection_id) (physical_of (effective_name_map (sc_query s)) t) c) as Hf.
  destruct (first_label _ _ _ _ _) as [[l cx]|]; cbn in Hf.
  - split; [|done]. intros _. destruct (proj1 Hf eq_refl) as (cx' & e & Hin & He & Ht).
    apply candidate_connections_elem in Hin. by exists t, c, cx', e.
  - split; [done|]. intros (t' & c' & cx & e & Hp' & Hn & Hcx & He & Ht).
    rewrite Hp in Hp'. simplify_eq. exfalso.
    assert (false = true); [|done]. apply Hf. exists cx, e.
    by rewrite candidate_connections_elem.
Qed.
End approval_facts.

(** ** Text *)

Lemma has_dot_cons c s : has_dot (String c s) = (Ascii.eqb c "."%char || has_dot s)%bool.
Proof.
  unfold has_dot. cbn. destruct (Ascii.eqb c "."%char); [done|].
  by destruct (partition_dot s) as [l [r|]].
Qed.

Lemma rsplit_dot_none s : has_dot s = false → rsplit_dot s = None.
Proof.
  induction s as [|c s IH]; [done|]. rewrite has_dot_cons. intros [Hc Hs]%orb_false_iff.
  cbn. by rewrite IH, Hc.
Qed.

Lemma rsplit_dot_app l r : has_dot r = false → rsplit_dot (l +:+ "." +:+ r) = Some (l, r).
Proof.
  intros Hr. induction l as [|c l IH]; cbn.
  - change (rsplit_dot (String "."%char r) = Some (EmptyString, r)). cbn.
    by rewrite rsplit_dot_none.
  - change (rsplit_dot (String c (l +:+ "." +:+ r)) = Some (String c l, r)). cbn [rsplit_dot].
    by rewrite IH.
Qed.

Lemma rsplit_dot_Some s l r : rsplit_dot s = Some (l, r) → s = l +:+ "." +:+ r.
Proof.
  revert l. induction s as [|c s IH]; intros l; cbn; [done|].
  destruct (rsplit_dot s) as [[l' r']|] eqn:E.
  - intros [= <- <-]. rewrite (IH l' eq_refl). done.
  - destruct (Ascii.eqb c "."%char) eqn:Ec; [|done]. intros [= <- <-].
    apply Ascii.eqb_eq in Ec as ->. done.
Qed.

Section token_facts.
Context `{TP : TokenPrimitives}.

Lemma payload_ok_ext d d' fp k cx sub now :
  (∀ key, dict_get key d' = dict_get key d) →
  payload_ok d' fp k cx sub now = payload_ok d fp k cx sub now.
Proof.
  intros H. unfold payload_ok, version_ok, claim_is, bound_claim_ok, unexpired. by rewrite !H.
Qed.

Lemma dict_get_app {A} k (d e : dict A) :
  dict_get k (d ++ e) = match dict_get k d with Some v => Some v | None => dict_get k e end.
Proof. induction d as [|[k' v] d IH]; cbn; [done|]. by case_bool_decide. Qed.

Lemma token_payload_flat fp approver kind cx sub ttl now :
  flat (token_payload fp approver kind cx sub ttl now) = true.
Proof. by destruct cx, sub. Qed.

(** What the payload of an issued token verifies against. *)
Lemma token_payload_ok fp approver kind cx sub ttl now fp' kind' cx' sub' now' :
  payload_ok (token_payload fp approver kind cx sub ttl now) fp' kind' cx' sub' now' = true ↔
    fp' = fp ∧ kind' = kind ∧ (cx = None ∨ cx' = cx) ∧ (sub = None ∨ sub' = sub)
    ∧ (now' < inject_Z (Qfloor (now + inject_Z ttl)))%Q.
Proof.
  set (d := token_payload fp approver kind cx sub ttl now).
  assert (Hoc : ∀ o k, dict_get k (optional_claim k o) = JStr <$> o).
  { intros [v|] k; cbn [optional_claim dict_get]; [|done]. by rewrite bool_decide_true. }
  assert (Hne : ∀ o k k', k ≠ k' → dict_get k (optional_claim k' o) = None).
  { intros [v|] k k' Hk; cbn [optional_claim dict_get]; [|done]. by rewrite bool_decide_false. }
  assert (Hv : dict_get "v" d = Some (JInt 1)) by reflexivity.
  assert (Hfp : dict_get "fp" d = Some (JStr fp)) by reflexivity.
  assert (Hk : dict_get "k" d = Some (JStr kind)) by reflexivity.
  assert (He : dict_get "exp" d = Some (JInt (Qfloor (now + inject_Z ttl)))) by reflexivity.
  assert (Hcx : dict_get "cx" d = JStr <$> cx).
  { change (dict_get "cx" (optional_claim "cx" cx ++ optional_claim "sub_bind" sub) = JStr <$> cx).
    rewrite dict_get_app, Hoc, Hne by done. by destruct cx. }
  assert (Hsub : dict_get "sub_bind" d = JStr <$> sub).
  { change (dict_get "sub_bind" (optional_claim "cx" cx ++ optional_claim "sub_bind" sub) = JStr <$> sub).
    rewrite dict_get_app, Hoc, Hne by done. done. }
  unfold payload_ok, version_ok, claim_is, bound_claim_ok, unexpired.
  rewrite Hv, Hfp, Hk, He, Hcx, Hsub.
  assert (Hlt : ∀ a b : Q, negb (Qle_bool a b) = true ↔ (b < a)%Q).
  { intros a b. rewrite negb_true_iff, <-not_true_iff_false, Qle_bool_iff.
    split; [apply Qnot_le_lt|apply Qlt_not_le]. }
  rewrite !andb_true_iff, Hlt, !bool_decide_eq_true.
  destruct cx as [v|], sub as [w|]; cbn [fmap option_fmap option_map];
    rewrite ?bool_decide_eq_true; naive_solver.
Qed.
End token_facts.

(** * Properties *)

Section properties.
Context `{CF : CaseFold}.

(** The sensitivity trigger is complete and exact: it gives some reason if
    and only if some column reference of some scope (arms, subqueries and cte
    bodies included) reads a real table whose catalog entry, under the query's
    connection or the table's own, gives the column a triggering label; and it
    never reports a column twice. *)
Theorem approval_reasons_exact store q p connection_id scs hits :
  sensitivity_approval_reasons store q p connection_id scs = Ok hits →
  ((hits ≠ []) ↔ ∃ s r, s ∈ iter_query_scopes q ∧ r ∈ iter_column_refs (sc_query s)
     ∧ labelled_reference store q p connection_id scs s r)
  ∧ NoDup (map hit_key hits).
Proof.
  unfold sensitivity_approval_reasons.
  destruct (length (approval_sensitivities (gates p)) =? 0)%nat eqn:El.
  { intros [= <-]. split; [|constructor]. split; [done|].
    intros (s & r & _ & _ & t & c & cx & e & _ & _ & _ & _ & Ht).
    apply Nat.eqb_eq, length_zero_iff_nil in El. rewrite El in Ht. by apply not_elem_of_nil in Ht. }
  intros (ls & Hls & [= <-])%bind_ok. split; [|apply add_hits_nodup; constructor].
  apply map_result_ok in Hls. split.
  - intros Hne. assert (Hex : ¬ ∀ h, h ∈ concat ls → h = None).
    { intros Hall. apply Hne. by apply add_hits_nonempty. }
    destruct (decide (Exists (λ h, is_some h = true) (concat ls))) as [Hx|Hx].
    2: { exfalso. apply Hex. intros h Hh. destruct h as [x|] eqn:Eh; [|done]. exfalso. apply Hx.
         apply Exists_exists. exists (Some x). by split. }
    apply Exists_exists in Hx as (h & Hh & Hsome).
    apply elem_of_concat in Hh as (hs & [i Hi]%list_elem_of_lookup & [j Hj]%list_elem_of_lookup).
    destruct (Forall2_lookup_r _ _ _ _ _ Hls Hi) as (s & Hs & Hrs). apply map_result_ok in Hrs.
    destruct (Forall2_lookup_r _ _ _ _ _ Hrs Hj) as (r & Hr & Hhit).
    exists s, r. split_and!; [by eapply list_elem_of_lookup_2..|].
    apply (reference_hit_Some _ _ _ _ _ _ _ _ Hhit). by intros ->.
  - intros (s & r & [i Hi]%list_elem_of_lookup & [j Hj]%list_elem_of_lookup & Hlab).
    destruct (Forall2_lookup_l _ _ _ _ _ Hls Hi) as (hs & Hhs & Hrs). apply map_result_ok in Hrs.
    destruct (Forall2_lookup_l _ _ _ _ _ Hrs Hj) as (h & Hh & Hhit).
    apply (reference_hit_Some _ _ _ _ _ _ _ _ Hhit) in Hlab. intros Hnil%add_hits_nonempty.
    destruct Hnil as [_ Hnil]. apply Hlab, Hnil, elem_of_concat. exists hs.
    split; by eapply list_elem_of_lookup_2.
Qed.

(** C26. An issued approval token verifies for exactly the fingerprint, kind,
    connection and principal it was issued for, and only before its expiry: a
    pending token is never a grant, and a claim left out binds nothing. *)
Theorem issued_token_verifies_exactly `{TP : TokenPrimitives}
  fp approver key cx sub kind ttl now token fp' cx' sub' kind' now' :
  issue_approval_token fp approver key cx sub kind ttl now = Ok token →
  verify_approval_token token fp' key cx' sub' kind' now' = true ↔
    fp' = fp ∧ kind' = kind ∧ (cx = None ∨ cx' = cx) ∧ (sub = None ∨ sub' = sub)
    ∧ (now' < inject_Z (Qfloor (now + inject_Z ttl)))%Q.
Proof.
  unfold issue_approval_token, verify_approval_token.
  destruct (str_empty key) eqn:Ek; [done|]. intros [= <-].
  set (bytes := json_dumps _). rewrite rsplit_dot_app by apply sign_no_dot.
  assert (Ht : str_empty (b64_encode bytes +:+ "." +:+ sign bytes key) = false).
  { unfold str_empty. apply bool_decide_eq_false. by destruct (b64_encode bytes). }
  rewrite Ht, b64_round_trip, bool_decide_true by done. cbn [orb negb].
  destruct (json_round_trip (token_payload fp approver kind cx sub ttl now)) as (d' & Hd & Hext);
    [by apply token_payload_flat|].
  unfold bytes. rewrite Hd, (payload_ok_ext _ _ _ _ _ _ _ Hext). apply token_payload_ok.
Qed.

(** Whatever token verifies was signed under the configured, non-empty key,
    and its signed payload itself names this fingerprint and this kind, is of
    the current format, has not expired, and is bound to no other connection or
    principal. *)
Theorem verified_token_is_signed `{TP : TokenPrimitives} token fp key cx sub kind now :
  verify_approval_token token fp key cx sub kind now = true →
  key ≠ "" ∧ ∃ encoded payload_bytes payload,
    token = encoded +:+ "." +:+ sign payload_bytes key
    ∧ b64_decode encoded = Some payload_bytes
    ∧ json_loads payload_bytes = Some (JObj payload)
    ∧ dict_get "fp" payload = Some (JStr fp) ∧ dict_get "k" payload = Some (JStr kind)
    ∧ version_ok payload = true ∧ unexpired payload now = true
    ∧ (∀ c, dict_get "cx" payload = Some (JStr c) → cx = Some c)
    ∧ (∀ s, dict_get "sub_bind" payload = Some (JStr s) → sub = Some s).
Proof.
  unfold verify_approval_token. destruct (str_empty key || str_empty token) eqn:Ee; [done|].
  apply orb_false_iff in Ee as [Ek _]. unfold str_empty in Ek. apply bool_decide_eq_false in Ek.
  destruct (rsplit_dot token) as [[enc sig]|] eqn:Er; [|done].
  destruct (b64_decode enc) as [bytes|] eqn:Eb; [|done].
  case_bool_decide as Hs; cbn [negb]; [|done]. subst sig.
  destruct (json_loads bytes) as [[| | | | | |payload]|] eqn:El; try done.
  intros H. split; [done|]. exists enc, bytes, payload.
  unfold payload_ok in H. rewrite !andb_true_iff in H. destruct H as [[[[[Hv Hfp] Hk] Hcx] Hsub] Hexp].
  unfold claim_is in Hfp, Hk. unfold bound_claim_ok in Hcx, Hsub.
  split_and!; [by apply rsplit_dot_Some|done|done| | |done|done| |].
  - destruct (dict_get "fp" payload) as [[]|]; try done. by apply bool_decide_eq_true in Hfp as ->.
  - destruct (dict_get "k" payload) as [[]|]; try done. by apply bool_decide_eq_true in Hk as ->.
  - intros c Hc. rewrite Hc in Hcx. by apply bool_decide_eq_true in Hcx.
  - intros s Hc. rewrite Hc in Hsub. by apply bool_decide_eq_true in Hsub.
Qed.
End properties.

(** * Concrete inputs *)

(** Primitives that can be computed: payloads are numbered by stdpp's encoding
    and written in binary; the signature is the key followed by the payload. *)
Fixpoint positive_text (p : positive) : string :=
  match p with
  | xH => EmptyString
  | xO q => String "0"%char (positive_text q)
  | xI q => String "1"%char (positive_text q)
  end.

Fixpoint text_positive (s : string) : positive :=
  match s with
  | EmptyString => xH
  | String c s' => if Ascii.eqb c "1"%char then xI (text_positive s') else xO (text_positive s')
  end.

Lemma text_positive_text p : text_positive (positive_text p) = p.
Proof. induction p; cbn; congruence. Qed.

Definition flatten (d : dict json) : list (string * (string + Z)) :=
  map (λ e : string * json, (e.1, match e.2 with JInt z => inr z | JStr s => inl s | _ => inl "" end)) d.

Definition unflatten (l : list (string * (string + Z))) : dict json :=
  map (λ e : string * (string + Z), (e.1, match e.2 with inl s => JStr s | inr z => JInt z end)) l.

Lemma unflatten_flatten d : flat d = true → unflatten (flatten d) = d.
Proof.
  induction d as [|[k v] d IH]; [done|]. unfold flat; cbn [forallb].
  intros [Hv Hd]%andb_true_iff. specialize (IH Hd).
  change (unflatten (flatten ((k, v) :: d)))
    with ((k, match match v with JInt z => inr z | JStr s => inl s | _ => inl "" end with
              inl s => JStr s | inr z => JInt z end) :: unflatten (flatten d)).
  rewrite IH. by destruct v.
Qed.

Definition undot (c : ascii) : ascii := if Ascii.eqb c "."%char then "_"%char else c.

Definition toy_sign (payload key : string) : string := string_map undot (key +:+ payload).

Lemma toy_sign_no_dot payload key : has_dot (toy_sign payload key) = false.
Proof.
  unfold toy_sign. induction (key +:+ payload) as [|c s IH]; [done|]. cbn [string_map].
  rewrite has_dot_cons, IH. unfold undot. destruct (Ascii.eqb c "."%char) eqn:E; [done|].
  by rewrite E.
Qed.

Definition toy_dumps (d : dict json) : string := positive_text (encode (flatten d)).

Definition toy_loads (s : string) : option json :=
  l ← decode (A := list (string * (string + Z))) (text_positive s); Some (JObj (unflatten l)).

Lemma toy_round_trip d : flat d = true →
  ∃ d', toy_loads (toy_dumps d) = Some (JObj d') ∧ ∀ k, dict_get k d' = dict_get k d.
Proof.
  intros Hd. exists d. split; [|done]. unfold toy_loads, toy_dumps.
  rewrite text_positive_text, decode_encode. cbn. by rewrite unflatten_flatten.
Qed.

Definition toy_primitives : TokenPrimitives := {|
  sign := toy_sign; b64_encode := λ s, s; b64_decode := Some;
  json_dumps := toy_dumps; json_loads := toy_loads;
  sign_no_dot := toy_sign_no_dot; b64_round_trip := λ s, eq_refl;
  json_round_trip := toy_round_trip;
|}.

Definition toy_token : string :=
  match @issue_approval_token toy_primitives "fp1" "bob" "key" (Some "main") (Some "alice")
          TOKEN_KIND_GRANT 300 0%Q with Ok t => t | Raise _ => "" end.

Lemma issued_token_verifies_exactly_witness :
  @verify_approval_token toy_primitives toy_token "fp1" "key" (Some "main") (Some "alice")
    TOKEN_KIND_GRANT 299%Q = true
  ∧ ¬ @verify_approval_token toy_primitives toy_token "fp2" "key" (Some "main") (Some "alice")
    TOKEN_KIND_GRANT 299%Q = true.
Proof.
  split.
  - apply (@issued_token_verifies_exactly toy_primitives "fp1" "bob" "key" (Some "main")
      (Some "alice") TOKEN_KIND_GRANT 300 0%Q toy_token); [reflexivity|].
    split_and!; [reflexivity|reflexivity|right; reflexivity|right; reflexivity|vm_compute; reflexivity].
  - intros H. apply (@issued_token_verifies_exactly toy_primitives "fp1" "bob" "key" (Some "main")
      (Some "alice") TOKEN_KIND_GRANT 300 0%Q toy_token) in H; [|reflexivity].
    destruct H as [H _]. discriminate H.
Defined.

Lemma verified_token_is_signed_witness :
  ∃ encoded payload_bytes,
    toy_token = encoded +:+ "." +:+ @sign toy_primitives payload_bytes "key".
Proof.
  destruct (@verified_token_is_signed toy_primitives toy_token "fp1" "key" (Some "main")
    (Some "alice") TOKEN_KIND_GRANT 299%Q) as (_ & enc & bytes & _ & H & _);
    [vm_compute; reflexivity|].
  exists enc, bytes. exact H.
Defined.

(** Users' emails are labelled under the joined connection's catalog only. *)
Definition pii_store : CatalogStore :=
  [("archive", [("Users", MkTableEntry [("Email", SENS_PII)] SENS_NONE)])].

Definition pii_policy : Policy :=
  MkPolicy default_access default_write_policy default_caps default_windows default_disclosure
    default_execution
    (MkGates None None ENFORCE None None [SENS_PII] false false false None []).

(** [SELECT o.id FROM orders AS o WHERE o.user_id IN (SELECT users.email FROM users)]. *)
Definition pii_query : StructuredQuery :=
  with_where (WPredicate (in_subquery "orders.user_id" (simple_query "users" [ColumnItem "users.email"])))
    (simple_query "orders" [ColumnItem "orders.id"]).

Definition pii_connections : ScopeConnections := [([InSubquery 0], [("users", "archive")])].

Lemma approval_reasons_exact_witness :
  ∃ s r, s ∈ iter_query_scopes (CF := ascii_casefold) pii_query ∧ r ∈ iter_column_refs (sc_query s).
Proof.
  destruct (@approval_reasons_exact ascii_casefold pii_store pii_query pii_policy "main"
    (Some pii_connections) [MkHit SENS_PII "users.email" (Some "archive")]) as [[H _] _];
    [vm_compute; reflexivity|].
  destruct H as (s & r & Hs & Hr & _); [discriminate|]. exists s, r. split; assumption.
Defined.
