(* ===== verification/WritePath.v ===== *)
(** The governed write path, from proposal to DML: the write AST of
    [write_ast/models.py], its conversion to the read predicate tree,
    [validation/write_policy_validation.py],
    [validation/write_schema_validation.py] and [compiler/write_compiler.py]. *)
From S2P Require Export Compiler.
Local Open Scope Z_scope.

(** * The write filter tree *)

(** [WritePredicate]. *)
Record WritePredicate := MkWritePredicate {
  wpr_col : option string;
  wpr_col_fn : option ScalarFunctionCall;
  wpr_op : CompareOp;
  wpr_value : json;
  wpr_value_col : option string;
}.

(** A leaf of the tree [to_read_where] is given: a write predicate, or a READ
    node, which passes through unchanged. Every leaf of a tree that Pydantic
    parsed is an [LWrite]. *)
Inductive write_leaf :=
| LWrite (p : WritePredicate)
| LRead (node : WhereNode).

(** [WriteWhereNode]; [WriteWhereGroup] is [WhereGroup] at this leaf type. *)
Abbreviation WriteWhereNode := (WhereNode_ write_leaf).

(** The write operators are read operators. *)
Definition widen_op (op : CompareOp) : ReadCompareOp :=
  match op with
  | CEq => OpEq | CNeq => OpNeq | CLt => OpLt | CLte => OpLte | CGt => OpGt | CGte => OpGte
  | CIn => OpIn | CNotIn => OpNotIn | CLike => OpLike | CBetween => OpBetween
  | CIsNull => OpIsNull | CIsNotNull => OpIsNotNull
  end.

(** [_WRITE_VOCABULARY] and [_write_vocabulary]. *)
Definition WRITE_VOCABULARY : list (string * string) :=
  [ ("requires a value, value_col, value_expr, or value_subquery",
     "requires a value or value_col");
    ("at most one of 'value', 'value_col', 'value_expr', or 'value_subquery'",
     "at most one of 'value' or 'value_col'");
    ("exactly one of 'col', 'col_fn', or 'expr'", "exactly one of 'col' or 'col_fn'") ].

Definition write_vocabulary (message : string) : string :=
  foldl (λ m ph, str_replace ph.1 ph.2 m) message WRITE_VOCABULARY.

(** The read predicate a write predicate narrows. *)
Definition widen (p : WritePredicate) : Pred :=
  MkPredicate (wpr_col p) None (wpr_col_fn p) (widen_op (wpr_op p)) (wpr_value p)
    (wpr_value_col p) None None None.

(** [WritePredicate._build_read_predicate]: construct the read predicate, whose
    validators run, and re-raise in the write vocabulary. The [col_fn] model is
    an already validated instance. *)
Definition build_read_predicate (p : WritePredicate) : result Pred :=
  match (validate_col_shape (widen p) ≫= λ _, validate_value_shape (widen p)) with
  | Ok _ => Ok (widen p)
  | Raise (ValueError m) => Raise (ValueError (write_vocabulary m))
  | Raise e => Raise e
  end.

(** [WritePredicate._validate_via_the_read_predicate]. *)
Definition validate_write_predicate (p : WritePredicate) : result unit :=
  match wpr_col p with
  | Some c => require_column_ref c "col" ≫= λ _, Ok tt
  | None => Ok tt
  end ≫= λ _,
  match wpr_value_col p with
  | Some c => require_column_ref c "value_col" ≫= λ _, Ok tt
  | None => Ok tt
  end ≫= λ _,
  build_read_predicate p ≫= λ _, Ok tt.

(** [WritePredicate.as_read_predicate]: the model is frozen, so the predicate
    cached at parse time is the one rebuilt here. *)
Definition as_read_predicate (p : WritePredicate) : result Pred :=
  match build_read_predicate p with
  | Raise (ValueError m) => Raise (QueryValidationError m)
  | r => r
  end.

(** What Pydantic admits at one leaf, and in a whole filter tree. *)
Definition write_leaf_ok (l : write_leaf) : bool :=
  match l with
  | LWrite p =>
      match wpr_col_fn p with Some c => is_ok (validate_scalar_function_call c) | None => true end
      && is_ok (validate_write_predicate p)
  | LRead _ => false
  end.

Definition write_where_wf (w : WriteWhereNode) : bool :=
  where_forallb write_leaf_ok exactly_one_boolean w.

(** [to_read_where]. *)
Fixpoint to_read_where (node : WriteWhereNode) : result WhereNode :=
  match node with
  | WPredicate (LWrite p) => as_read_predicate p ≫= λ r, Ok (WPredicate r)
  | WPredicate (LRead r) => Ok r
  | WhereGroup and_terms or_terms not_terms =>
      match not_terms with
      | Some c => to_read_where c ≫= λ r, Ok (WhereGroup None None (Some r))
      | None =>
          match and_terms with
          | Some l => map_result to_read_where l ≫= λ rs, Ok (WhereGroup (Some rs) None None)
          | None =>
              match or_terms with
              | Some l => map_result to_read_where l ≫= λ rs, Ok (WhereGroup None (Some rs) None)
              | None =>
                  Raise (QueryValidationError "a write filter group set no boolean combinator")
              end
          end
      end
  end.

(** * Statements *)

(** A row maps bare column names to literals. *)
Abbreviation row := (dict json).

Inductive WriteStatement :=
| InsertStatement (table : string) (rows : list row)
| UpdateStatement (table : string) (set_ : row) (where__ : WriteWhereNode)
| DeleteStatement (table : string) (where__ : WriteWhereNode)
| UpsertStatement (table : string) (rows : list row) (conflict_columns update_columns : list string).

Definition write_target_table (s : WriteStatement) : string :=
  match s with
  | InsertStatement t _ | UpdateStatement t _ _ | DeleteStatement t _ | UpsertStatement t _ _ _ => t
  end.

(** [statement.op]. *)
Definition statement_op (s : WriteStatement) : WriteOperation :=
  match s with
  | InsertStatement _ _ => OpInsert
  | UpdateStatement _ _ _ => OpUpdate
  | DeleteStatement _ _ => OpDelete
  | UpsertStatement _ _ _ _ => OpUpsert
  end.

(** [getattr(statement, "where", None)]. *)
Definition statement_where (s : WriteStatement) : option WriteWhereNode :=
  match s with
  | UpdateStatement _ _ w | DeleteStatement _ w => Some w
  | _ => None
  end.

Definition row_columns (r : row) : gset string := list_to_set (dict_keys r).

(** [rows[0]]: the field constraint makes the list non-empty. *)
Definition first_row (rows : list row) : row := default [] (head rows).

Definition ragged (rows : list row) : bool :=
  existsb (λ r, negb (bool_decide (row_columns r = row_columns (first_row rows)))) rows.

(** [InsertStatement._validate_rows]. *)
Definition validate_rows (rows : list row) : result unit :=
  raise_if (length rows =? 0)%nat (ValueError "rows: at least 1 item") ≫= λ _,
  raise_if (existsb (λ r : row, (length r =? 0)%nat) rows)
    (ValueError "Each insert row must set at least one column") ≫= λ _,
  raise_if (ragged rows) (ValueError "All insert rows must set the same set of columns").

(** [UpsertStatement._validate]. *)
Definition validate_upsert (rows : list row) (conflict_columns update_columns : list string) :
  result unit :=
  raise_if (length rows =? 0)%nat (ValueError "rows: at least 1 item") ≫= λ _,
  raise_if (length conflict_columns =? 0)%nat
    (ValueError "conflict_columns: at least 1 item") ≫= λ _,
  raise_if (length update_columns =? 0)%nat (ValueError "update_columns: at least 1 item") ≫= λ _,
  let first := row_columns (first_row rows) in
  raise_if (existsb (λ r : row, (length r =? 0)%nat) rows || ragged rows)
    (ValueError "All upsert rows must set the same non-empty set of columns") ≫= λ _,
  raise_if (existsb (λ c, negb (bool_decide (c ∈ first))) conflict_columns)
    (ValueError "conflict_columns not present in the rows") ≫= λ _,
  raise_if (existsb (λ c, negb (bool_decide (c ∈ first))) update_columns)
    (ValueError "update_columns not present in the rows") ≫= λ _,
  raise_if (existsb (λ c, bool_decide (c ∈ conflict_columns)) update_columns)
    (ValueError "update_columns must not include a conflict column").

(** What the model of each statement admits. *)
Definition validate_write_statement (s : WriteStatement) : result unit :=
  match s with
  | InsertStatement _ rows => validate_rows rows
  | UpdateStatement _ set_ w =>
      raise_if (length set_ =? 0)%nat (ValueError "set: at least 1 item") ≫= λ _,
      raise_if (negb (write_where_wf w)) (ValueError "where")
  | DeleteStatement _ w => raise_if (negb (write_where_wf w)) (ValueError "where")
  | UpsertStatement _ rows cc uc => validate_upsert rows cc uc
  end.

(** * Policy *)

(** [_written_columns]. *)
Definition written_columns (s : WriteStatement) : list string :=
  match s with
  | InsertStatement _ rows | UpsertStatement _ rows _ _ => dict_keys (first_row rows)
  | UpdateStatement _ set_ _ => dict_keys set_
  | DeleteStatement _ _ => []
  end.

(** [validate_write_batch_size]. *)
Definition validate_write_batch_size (count : nat) (p : Policy) : result unit :=
  raise_if (wp_max_batch_size (write p) <? Z.of_nat count)
    (PolicyViolationError "write batch size exceeds max").

Section write_policy.
Context `{CF : CaseFold}.

(** The body of the reference loop of [validate_write_policy]. *)
Definition check_write_ref (p : Policy) (ref : string) : result unit :=
  parse_column_ref ref ≫= λ '(t, c),
  raise_if (negb (column_allowed p t c))
    (PolicyViolationError "Column is not accessible under the active policy") ≫= λ _,
  raise_if (is_some (column_mask p t c))
    (PolicyViolationError "Column is masked by policy and cannot be used to filter a write").

(** The body of its predicate loop. *)
Definition check_write_predicate (p : Policy) (pred : Pred) : result unit :=
  raise_if (is_some (pr_value_subquery pred))
    (QueryValidationError "A subquery predicate is not supported in a write's WHERE clause")
    ≫= λ _,
  raise_if (is_some (pr_expr pred) || is_some (pr_value_expr pred))
    (QueryValidationError
       "A computed expression predicate is not supported in a write's WHERE clause") ≫= λ _,
  for_each (check_write_ref p) (predicate_column_refs pred).

Definition check_write_where (p : Policy) (w : WriteWhereNode) : result unit :=
  to_read_where w ≫= λ read_where,
  enforce_predicate_shape_caps read_where p "write where" ≫= λ _,
  for_each (check_write_predicate p) (iter_where_predicates read_where).

(** [validate_write_policy]. *)
Definition validate_write_policy (s : WriteStatement) (p : Policy) : result unit :=
  raise_if (negb (enabled (access p)))
    (PolicyViolationError "Connection is disabled by policy") ≫= λ _,
  raise_if (negb (wp_enabled (write p)))
    (PolicyViolationError "Writes are not enabled for connection") ≫= λ _,
  raise_if (negb (operation_allowed (write p) (statement_op s)))
    (PolicyViolationError "Write operation is not allowed by policy") ≫= λ _,
  raise_if (negb (table_writable (write p) (write_target_table s)))
    (PolicyViolationError "Table is not writable under the active policy") ≫= λ _,
  for_each (λ column,
    raise_if (negb (write_column_allowed (write p) (write_target_table s) column))
      (PolicyViolationError "Column is not writable under the active policy"))
    (written_columns s) ≫= λ _,
  match statement_where s with
  | Some w => check_write_where p w
  | None => Ok tt
  end.

(** * Schema *)

Definition missing_required (table : SaTable) (provided : gset string) : list string :=
  col_name <$> filter (λ c,
    negb (col_nullable c) && negb (col_default c) && negb (col_server_default c)
    && negb (col_primary_key c) && bool_decide (col_name c ∉ provided)) (st_columns table).

Definition check_write_schema_ref (target : string) (table : SaTable) (ref : string) :
  result unit :=
  parse_column_ref ref ≫= λ '(t, c),
  raise_if (negb (bool_decide (casefold t = casefold target)))
    (QueryValidationError "A write's WHERE may only reference its target table") ≫= λ _,
  resolve_column (st_columns table) c ≫= λ _, Ok tt.

(** [validate_write_schema], over the reflection [load_table]. *)
Definition validate_write_schema (load_table : string → result SaTable) (s : WriteStatement) :
  result SaTable :=
  load_table (write_target_table s) ≫= λ table,
  for_each (λ column, resolve_column (st_columns table) column ≫= λ _, Ok tt) (written_columns s) ≫= λ _,
  match s with
  | InsertStatement _ rows =>
      raise_if (negb (bool_decide (missing_required table (row_columns (first_row rows)) = [])))
        (QueryValidationError "INSERT is missing required column(s)")
  | _ => Ok tt
  end ≫= λ _,
  match statement_where s with
  | Some w =>
      to_read_where w ≫= λ read_where,
      for_each (λ pred,
        for_each (check_write_schema_ref (write_target_table s) table)
          (predicate_column_refs pred))
        (iter_where_predicates read_where)
  | None => Ok tt
  end ≫= λ _,
  Ok table.
End write_policy.

(** * Compilation *)

(** A bound value: the JSON value as it came, or a string parsed as one of the
    types [_coerce_write_value] converts to. *)
Inductive bound_value := BoundRaw (v : json) | BoundParsed (t : PyType) (text : string).

(** What Python's parsers decide: whether a text parses as a value of the type. *)
Record WriteTypes := MkWriteTypes { parses_as : PyType → string → bool }.

Definition parsed_type (t : PyType) : bool :=
  match t with PyDatetime | PyDate | PyTime | PyDecimal => true | _ => false end.

(** [_coerce_write_value]. *)
Definition coerce_write_value (ty : WriteTypes) (column : SaColumn) (value : json) : bound_value :=
  match value with
  | JStr s =>
      match col_python_type column with
      | Some t => if parsed_type t && parses_as ty t s then BoundParsed t s else BoundRaw value
      | None => BoundRaw value
      end
  | _ => BoundRaw value
  end.

(** [key in table.c] is an exact match. *)
Definition column_by_key (table : SaTable) (key : string) : option SaColumn :=
  find (λ c, bool_decide (col_name c = key)) (st_columns table).

(** [_coerce_row]. *)
Definition coerce_row (ty : WriteTypes) (r : row) (table : SaTable) : dict bound_value :=
  map (λ e : string * json,
    (e.1, match column_by_key table e.1 with
          | Some c => coerce_write_value ty c e.2
          | None => BoundRaw e.2
          end)) r.

(** The Core DML statement. *)
Inductive sa_dml :=
| SaInsert (table : SaTable) (rows : list (dict bound_value))
| SaUpdate (table : SaTable) (where__ : SaExpr) (values : dict bound_value)
| SaDelete (table : SaTable) (where__ : SaExpr)
| SaUpsert (table : SaTable) (rows : list (dict bound_value)) (index_elements set_columns : list string).

(** [_UPSERT_COMPILERS]: the dialects with ON CONFLICT. *)
Definition upsert_supported (dialect : string) : bool :=
  bool_decide (dialect = "postgresql") || bool_decide (dialect = "sqlite").

(** [_UPSERT_UNSUPPORTED_MESSAGES], each by its opening words. *)
Definition upsert_unsupported (dialect : string) : string :=
  if bool_decide (dialect = "mysql") then "upsert is not supported on MySQL"
  else if bool_decide (dialect = "snowflake") then "upsert is not supported on Snowflake"
  else if bool_decide (dialect = "bigquery") then "upsert is not supported on BigQuery"
  else "upsert (INSERT ON CONFLICT) is not supported on dialect".

Section write_compiler.
Context `{CF : CaseFold} `{DA : DialectAdapter}.

Definition compile_write_where (target : string) (table : SaTable) (w : WriteWhereNode) :
  result SaExpr :=
  to_read_where w ≫= λ read_where,
  compile_where [(target, FromTable table)] [] None read_where.

(** [compile_write]. *)
Definition compile_write (ty : WriteTypes) (s : WriteStatement) (table : SaTable)
  (dialect : string) : result sa_dml :=
  match s with
  | InsertStatement _ rows => Ok (SaInsert table (map (λ r, coerce_row ty r table) rows))
  | UpdateStatement t set_ w =>
      compile_write_where t table w ≫= λ e, Ok (SaUpdate table e (coerce_row ty set_ table))
  | DeleteStatement t w => compile_write_where t table w ≫= λ e, Ok (SaDelete table e)
  | UpsertStatement _ rows cc uc =>
      if upsert_supported dialect
      then Ok (SaUpsert table (map (λ r, coerce_row ty r table) rows) cc uc)
      else Raise (QueryValidationError (upsert_unsupported dialect))
  end.

(** The condition that selects the rows a statement changes. *)
Definition dml_where (d : sa_dml) : option SaExpr :=
  match d with SaUpdate _ e _ | SaDelete _ e => Some e | _ => None end.
End write_compiler.

(** * Helper lemmas *)

Section write_facts.
Context `{CF : CaseFold}.

(** No group of the tree carries an empty list. *)
Definition no_empty_list {N} (a o : option (list N)) (n : option N) : bool :=
  match a with Some [] => false | _ => true end && match o with Some [] => false | _ => true end.

Definition tight (w : WriteWhereNode) : bool := where_forallb (λ _, true) no_empty_list w.

(** The read tree a parsed write tree stands for. *)
Definition widen_leaf (l : write_leaf) : Pred :=
  match l with
  | LWrite p => widen p
  | LRead _ => MkPredicate None None None OpEq JNull None None None None
  end.

Lemma build_read_predicate_ok p r : build_read_predicate p = Ok r → r = widen p.
Proof.
  unfold build_read_predicate. destruct (validate_col_shape _ ≫= _) as [|[]]; congruence.
Qed.

Lemma as_read_predicate_ok p r : as_read_predicate p = Ok r → r = widen p.
Proof.
  unfold as_read_predicate. intros H. apply build_read_predicate_ok.
  destruct (build_read_predicate p) as [|[]]; congruence.
Qed.

Lemma write_leaf_ok_read l :
  write_leaf_ok l = true → ∃ p, l = LWrite p ∧ as_read_predicate p = Ok (widen p).
Proof.
  destruct l as [p|]; [|done]. cbn. intros [_ H]%andb_true_iff. exists p. split; [done|].
  destruct (validate_write_predicate p) as [u|] eqn:E; [|done].
  unfold validate_write_predicate in E. rewrite !bind_ok_unit in E. destruct E as (_ & _ & E).
  apply bind_ok in E as (r & E & _). unfold as_read_predicate.
  rewrite E. f_equal. by apply build_read_predicate_ok.
Qed.

Lemma map_result_map {A B} (f : A → result B) (g : A → B) l :
  (∀ x, x ∈ l → f x = Ok (g x)) → map_result f l = Ok (map g l).
Proof.
  induction l as [|x l IH]; intros H; [done|]. cbn.
  rewrite H by set_solver. cbn [mbind result_bind]. rewrite IH by set_solver. done.
Qed.

Lemma map_result_total {A B} (f : A → result B) l :
  (∀ x, x ∈ l → ∃ y, f x = Ok y) → ∃ ys, map_result f l = Ok ys.
Proof.
  induction l as [|x l IH]; intros H; [by eexists|]. cbn.
  destruct (H x) as [y ->]; [set_solver|]. destruct IH as [ys ->]; [set_solver|]. by eexists.
Qed.

(** A group of the converted tree sets one field. *)
Lemma to_read_where_group a o n r :
  to_read_where (WhereGroup a o n) = Ok r →
  (∃ c rc, n = Some c ∧ to_read_where c = Ok rc ∧ r = WhereGroup None None (Some rc))
  ∨ (∃ l rs, n = None ∧ a = Some l ∧ map_result to_read_where l = Ok rs
       ∧ r = WhereGroup (Some rs) None None)
  ∨ (∃ l rs, n = None ∧ a = None ∧ o = Some l ∧ map_result to_read_where l = Ok rs
       ∧ r = WhereGroup None (Some rs) None).
Proof.
  cbn [to_read_where]. destruct n as [c|].
  { intros (rc & ? & [= <-])%bind_ok. left. eauto. }
  destruct a as [l|].
  { intros (rs & ? & [= <-])%bind_ok. right. left. exists l, rs. done. }
  destruct o as [l|]; [|done].
  intros (rs & ? & [= <-])%bind_ok. right. right. exists l, rs. done.
Qed.

Lemma leaf_of_group {P} (p : P) a o n :
  leaf_of p (WhereGroup a o n) → ∃ c, c ∈ where_children (WhereGroup a o n) ∧ leaf_of p c.
Proof.
  inversion 1 as [|? ? ? l c -> |? ? ? l c -> |? ? ? c ->]; subst; exists c;
    (split; [cbn; set_solver|done]).
Qed.

(** The walk misses no predicate of a converted tree. *)
Lemma to_read_where_walk w r pred :
  where_forallb write_leaf_ok (λ _ _ _, true) w = true → to_read_where w = Ok r →
  leaf_of pred r → pred ∈ iter_where_predicates r.
Proof.
  revert r. induction w as [w IH] using where_ind_children. intros r Hw Hr Hp.
  destruct w as [l|a o n].
  { destruct (write_leaf_ok_read l Hw) as (p & -> & E). cbn in Hr. rewrite E in Hr.
    injection Hr as <-. inversion Hp; subst. set_solver. }
  apply where_forallb_children in Hw as (_ & Ha & Ho & Hn).
  assert (Hlist : ∀ l rs, map_result to_read_where l = Ok rs →
    (∀ c, c ∈ l → c ∈ where_children (WhereGroup a o n)
        ∧ where_forallb write_leaf_ok (λ _ _ _, true) c = true) →
    ∀ rc, rc ∈ rs → leaf_of pred rc → pred ∈ flat_map (where_flat_map (λ p, [p])) rs).
  { intros l rs Hrs Hl rc Hrc Hleaf. apply elem_of_flat_map. exists rc. split; [done|].
    apply map_result_ok in Hrs. apply list_elem_of_lookup in Hrc as [i Hi].
    destruct (Forall2_lookup_r _ _ _ _ _ Hrs Hi) as (c & Hc & Hcr).
    destruct (Hl c) as [? ?]; [by eapply list_elem_of_lookup_2|]. by apply (IH c). }
  apply to_read_where_group in Hr
    as [(c & rc & -> & Hc & ->)|[(l & rs & -> & -> & Hrs & ->)|(l & rs & -> & -> & -> & Hrs & ->)]].
  - apply leaf_of_group in Hp as (d & ->%list_elem_of_singleton & Hp).
    change (pred ∈ iter_where_predicates rc).
    apply (IH c); [cbn; set_solver|by apply Hn|done|done].
  - apply leaf_of_group in Hp as (d & Hd & Hp). cbn in Hd. rewrite !app_nil_r in Hd.
    pose proof (Hlist l rs Hrs) as Hx. destruct rs as [|r0 rs]; [set_solver|].
    refine (Hx _ _ Hd Hp). intros e He. split; [cbn; set_solver|by eapply Ha].
  - apply leaf_of_group in Hp as (d & Hd & Hp). cbn in Hd. rewrite app_nil_r in Hd.
    refine (Hlist l rs Hrs _ _ Hd Hp). intros e He. split; [cbn; set_solver|by eapply Ho].
Qed.

Lemma where_forallb_weaken {P} (leaf : P → bool) g g' (w : WhereNode_ P) :
  (∀ a o n, g a o n = true → g' a o n = true) →
  where_forallb leaf g w = true → where_forallb leaf g' w = true.
Proof.
  intros Hg. induction w as [w IH] using where_ind_children.
  destruct w as [p|a o n]; [done|]. rewrite !where_forallb_children.
  intros (H & Ha & Ho & Hn). split_and!; [by apply Hg|..].
  - intros l c -> Hc. apply IH; [cbn; set_solver|by eapply Ha].
  - intros l c -> Hc. apply IH; [cbn; set_solver|by eapply Ho].
  - intros c ->. apply IH; [cbn; set_solver|by apply Hn].
Qed.

Lemma write_where_wf_leaves w :
  write_where_wf w = true → where_forallb write_leaf_ok (λ _ _ _, true) w = true.
Proof. by apply where_forallb_weaken. Qed.

(** Converting a tree Pydantic parsed never raises. *)
Lemma to_read_where_total w : write_where_wf w = true → ∃ rw, to_read_where w = Ok rw.
Proof.
  induction w as [w IH] using where_ind_children. intros Hw. destruct w as [l|a o n].
  { destruct (write_leaf_ok_read l Hw) as (p & -> & E). cbn. rewrite E. by eexists. }
  apply where_forallb_children in Hw as (Hg & Ha & Ho & Hn). cbn [to_read_where].
  destruct n as [c|].
  { destruct (IH c) as [rw ->]; [cbn; set_solver|by apply Hn|by eexists]. }
  destruct a as [l|].
  { destruct (map_result_total to_read_where l) as [rs ->]; [|by eexists].
    intros c Hc. apply IH; [cbn; set_solver|by eapply Ha]. }
  destruct o as [l|]; [|done].
  destruct (map_result_total to_read_where l) as [rs ->]; [|by eexists].
  intros c Hc. apply IH; [cbn; set_solver|by eapply Ho].
Qed.

(** ... keeps the tree when no group carries an empty list ... *)
Lemma to_read_where_tight w :
  write_where_wf w = true → tight w = true → to_read_where w = Ok (where_map widen_leaf w).
Proof.
  induction w as [w IH] using where_ind_children. intros Hw Ht. destruct w as [l|a o n].
  { destruct (write_leaf_ok_read l Hw) as (p & -> & E). cbn. by rewrite E. }
  apply where_forallb_children in Hw as (Hg & Ha & Ho & Hn).
  apply where_forallb_children in Ht as (Hgt & Hat & Hot & Hnt).
  unfold exactly_one_boolean in Hg. cbn [to_read_where where_map].
  destruct n as [c|].
  { rewrite IH; [|cbn; set_solver|by apply Hn|by apply Hnt].
    destruct a as [[|? ?]|]; [done|by destruct (non_empty o)|].
    destruct o as [[|? ?]|]; [done..|reflexivity]. }
  destruct a as [[|c l]|]; [done| |].
  - destruct o as [[|? ?]|]; [done..|].
    rewrite (map_result_map _ (where_map widen_leaf)); [done|].
    intros d Hd. apply IH; [cbn; set_solver|by eapply Ha|by eapply Hat].
  - destruct o as [l|]; [|done].
    rewrite (map_result_map _ (where_map widen_leaf)); [done|].
    intros d Hd. apply IH; [cbn; set_solver|by eapply Ho|by eapply Hot].
Qed.

(** ... and invents no predicate. *)
Lemma to_read_where_leaves w r pred :
  where_forallb write_leaf_ok (λ _ _ _, true) w = true → to_read_where w = Ok r →
  leaf_of pred r → ∃ q, leaf_of (LWrite q) w ∧ pred = widen q.
Proof.
  revert r. induction w as [w IH] using where_ind_children. intros r Hw Hr Hp.
  destruct w as [l|a o n].
  { destruct (write_leaf_ok_read l Hw) as (p & -> & E). cbn in Hr. rewrite E in Hr.
    injection Hr as <-. inversion Hp; subst. exists p. split; [constructor|done]. }
  apply where_forallb_children in Hw as (_ & Ha & Ho & Hn).
  assert (Hlist : ∀ l rs d, map_result to_read_where l = Ok rs → d ∈ rs →
    ∃ c, c ∈ l ∧ to_read_where c = Ok d).
  { intros l rs d Hrs [i Hi]%list_elem_of_lookup. apply map_result_ok in Hrs.
    destruct (Forall2_lookup_r _ _ _ _ _ Hrs Hi) as (c & Hc & Hcr).
    exists c. split; [by eapply list_elem_of_lookup_2|done]. }
  apply to_read_where_group in Hr
    as [(c & rc & -> & Hc & ->)|[(l & rs & -> & -> & Hrs & ->)|(l & rs & -> & -> & -> & Hrs & ->)]];
    apply leaf_of_group in Hp as (d & Hd & Hp); cbn in Hd; rewrite ?app_nil_r in Hd.
  - apply list_elem_of_singleton in Hd as ->.
    destruct (IH c) with (r := rc) as (q & ? & ?); [cbn; set_solver|by apply Hn|done..|].
    exists q. split; [by eapply leaf_not|done].
  - destruct (Hlist l rs d Hrs Hd) as (c & Hc & Hcd).
    destruct (IH c) with (r := d) as (q & ? & ?); [cbn; set_solver|by eapply Ha|done..|].
    exists q. split; [by eapply leaf_and|done].
  - destruct (Hlist l rs d Hrs Hd) as (c & Hc & Hcd).
    destruct (IH c) with (r := d) as (q & ? & ?); [cbn; set_solver|by eapply Ho|done..|].
    exists q. split; [by eapply leaf_or|done].
Qed.

Lemma validate_write_statement_where s w :
  validate_write_statement s = Ok tt → statement_where s = Some w → write_where_wf w = true.
Proof.
  destruct s; cbn; intros H Hw; simplify_eq;
    [rewrite bind_ok_unit in H; destruct H as [_ H]|];
    apply raise_if_ok, negb_false_iff in H; done.
Qed.

Lemma validate_write_policy_ok s p :
  validate_write_policy s p = Ok tt ↔
    enabled (access p) = true ∧ wp_enabled (write p) = true
    ∧ operation_allowed (write p) (statement_op s) = true
    ∧ table_writable (write p) (write_target_table s) = true
    ∧ (∀ c, c ∈ written_columns s →
         write_column_allowed (write p) (write_target_table s) c = true)
    ∧ match statement_where s with Some w => check_write_where p w = Ok tt | None => True end.
Proof.
  unfold validate_write_policy. rewrite !bind_ok_unit, !raise_if_ok, for_each_ok, Forall_forall.
  setoid_rewrite raise_if_ok. setoid_rewrite negb_false_iff.
  destruct (statement_where s); naive_solver.
Qed.

Lemma check_write_ref_ok p ref :
  check_write_ref p ref = Ok tt → ∃ t c, parse_column_ref ref = Ok (t, c)
    ∧ column_allowed p t c = true ∧ column_mask p t c = None.
Proof.
  unfold check_write_ref. intros ([t c] & Hp & H)%bind_ok.
  rewrite !bind_ok_unit, !raise_if_ok, negb_false_iff in H. destruct H as [Ha Hm].
  exists t, c. split_and!; [done|done|]. by destruct (column_mask p t c).
Qed.

Lemma ragged_false rows r c :
  ragged rows = false → r ∈ rows → c ∈ dict_keys r → c ∈ dict_keys (first_row rows).
Proof.
  unfold ragged. rewrite existsb_not_elem. intros H Hr Hc.
  specialize (H r Hr). apply negb_false_iff, bool_decide_eq_true in H.
  unfold row_columns in H. apply (elem_of_list_to_set (C := gset string)).
  rewrite <-H. by apply elem_of_list_to_set.
Qed.

End write_facts.

(** * Properties *)

Section properties.
Context `{CF : CaseFold}.

(** The rows a statement writes. *)
Definition statement_rows (s : WriteStatement) : list row :=
  match s with
  | InsertStatement _ rows | UpsertStatement _ rows _ _ => rows
  | UpdateStatement _ set_ _ => [set_]
  | DeleteStatement _ _ => []
  end.

(** A write is accepted exactly when the connection and its write policy
    are enabled, the operation is listed, a listed table folds to the target,
    no written column folds to one denied for the table or for every table, and
    the filter, where there is one, passes its own checks: everything else is
    refused. *)
Theorem write_policy_exact s p :
  validate_write_policy s p = Ok tt ↔
    enabled (access p) = true ∧ wp_enabled (write p) = true
    ∧ statement_op s ∈ wp_allowed_operations (write p)
    ∧ (∃ t, t ∈ wp_allowed_tables (write p) ∧ casefold t = casefold (write_target_table s))
    ∧ (∀ c d, c ∈ written_columns s →
         d ∈ ci_values (wp_denied_write_columns (write p)) (write_target_table s)
             ++ ci_values (wp_denied_write_columns (write p)) "*" →
         casefold d ≠ casefold c)
    ∧ (∀ w, statement_where s = Some w → check_write_where p w = Ok tt).
Proof.
  rewrite validate_write_policy_ok. unfold operation_allowed, table_writable, write_column_allowed.
  rewrite !andb_true_iff, bool_decide_eq_true, ci_mem_true. setoid_rewrite negb_true_iff.
  assert (Hm : ∀ c l, ci_mem c l = false ↔ ∀ d, d ∈ l → casefold d ≠ casefold c).
  { intros c l. rewrite <-not_true_iff_false, ci_mem_true. naive_solver. }
  setoid_rewrite Hm. destruct (statement_where s); naive_solver.
Qed.

(** In a parsed, accepted statement every column of every row is
    write-allowed, although the policy check looks at the first row only; an
    upsert's conflict and update columns are among them and do not overlap. *)
Theorem every_written_cell_allowed s p :
  validate_write_statement s = Ok tt → validate_write_policy s p = Ok tt →
  (∀ r c, r ∈ statement_rows s → c ∈ dict_keys r →
     write_column_allowed (write p) (write_target_table s) c = true)
  ∧ ∀ t rows cc uc, s = UpsertStatement t rows cc uc →
      ∀ c, (c ∈ cc → c ∉ uc)
        ∧ (c ∈ cc ∨ c ∈ uc → write_column_allowed (write p) t c = true).
Proof.
  rewrite validate_write_policy_ok. intros Hs (_ & _ & _ & _ & Hw & _). split.
  - destruct s as [t rows|t set_ w|t w|t rows cc uc]; cbn in *; intros r c Hr Hc.
    + unfold validate_rows in Hs. rewrite !bind_ok_unit, !raise_if_ok in Hs.
      apply Hw. destruct Hs as (_ & _ & ?). by eapply ragged_false.
    + apply list_elem_of_singleton in Hr as ->. by apply Hw.
    + by apply not_elem_of_nil in Hr.
    + unfold validate_upsert in Hs. rewrite !bind_ok_unit, !raise_if_ok, orb_false_iff in Hs.
      apply Hw. destruct Hs as (_ & _ & _ & [_ ?] & _). by eapply ragged_false.
  - intros t rows cc uc -> c. cbn in *. unfold validate_upsert in Hs.
    rewrite !bind_ok_unit, !raise_if_ok in Hs. rewrite !existsb_not_elem in Hs.
    destruct Hs as (_ & _ & _ & _ & Hcc & Huc & Hov). split.
    + intros Hc Hu. specialize (Hov c Hu). by rewrite bool_decide_eq_false in Hov.
    + intros Hc. apply Hw, (elem_of_list_to_set (C := gset string)).
      destruct Hc as [Hc|Hc]; [specialize (Hcc c Hc)|specialize (Huc c Hc)];
        apply negb_false_iff, bool_decide_eq_true in Hcc || apply negb_false_iff, bool_decide_eq_true in Huc;
        done.
Qed.

(** C10. The filter of a parsed, accepted UPDATE or DELETE, as it is compiled,
    stays under the read caps on nesting depth, predicate count and list size;
    no predicate of it carries a subquery or a computed operand, and every
    column it names is readable and unmasked. *)
Theorem write_filter_governed s p w :
  validate_write_statement s = Ok tt → validate_write_policy s p = Ok tt →
  statement_where s = Some w →
  ∃ rw, to_read_where w = Ok rw
    ∧ Z.of_nat (where_depth rw) ≤ max_where_depth (caps p)
    ∧ Z.of_nat (length (iter_where_predicates rw)) ≤ max_where_predicates (caps p)
    ∧ ∀ pred, leaf_of pred rw →
        check_in_list_size pred p = Ok tt
        ∧ pr_value_subquery pred = None ∧ pr_expr pred = None ∧ pr_value_expr pred = None
        ∧ ∀ ref, ref ∈ predicate_column_refs pred → ∃ t c, parse_column_ref ref = Ok (t, c)
            ∧ column_allowed p t c = true ∧ column_mask p t c = None.
Proof.
  rewrite validate_write_policy_ok. intros Hs (_ & _ & _ & _ & _ & Hc) Hw. rewrite Hw in Hc.
  pose proof (validate_write_statement_where s w Hs Hw) as Hwf.
  unfold check_write_where in Hc. apply bind_ok in Hc as (rw & Hrw & Hc).
  apply bind_ok_unit in Hc as [Hcaps Hp].
  unfold enforce_predicate_shape_caps, check_where_depth, check_predicate_count in Hcaps.
  rewrite !bind_ok_unit, !raise_if_ok, !Z.ltb_ge in Hcaps. destruct Hcaps as (Hd & Hn & Hl).
  exists rw. split_and!; [done..|]. intros pred Hleaf.
  pose proof (to_read_where_walk w rw pred (write_where_wf_leaves w Hwf) Hrw Hleaf) as Hin.
  split; [by eapply (for_each_ok_elem _ _ _ Hl)|].
  pose proof (for_each_ok_elem _ _ _ Hp Hin) as H.
  unfold check_write_predicate in H. rewrite !bind_ok_unit, !raise_if_ok, orb_false_iff in H.
  destruct H as (Hsub & [He Hve] & Hrefs).
  split_and!; [by destruct (pr_value_subquery pred)|by destruct (pr_expr pred)
    |by destruct (pr_value_expr pred)|].
  intros ref Href. by apply check_write_ref_ok, (for_each_ok_elem _ _ _ Hrefs).
Qed.

(** Converting the filter Pydantic parsed never raises and only yields the
    caller's own predicates; when no group of it carries an empty list, the
    read tree is the write tree, group by group. *)
Theorem write_filter_converts w :
  write_where_wf w = true →
  ∃ rw, to_read_where w = Ok rw
    ∧ (∀ pred, leaf_of pred rw → ∃ q, leaf_of (LWrite q) w ∧ pred = widen q)
    ∧ (tight w = true → rw = where_map widen_leaf w).
Proof.
  intros Hw. destruct (to_read_where_total w Hw) as [rw Hrw]. exists rw. split_and!; [done| |].
  - intros pred. by apply to_read_where_leaves; [apply write_where_wf_leaves|].
  - intros Ht. pose proof (to_read_where_tight w Hw Ht). congruence.
Qed.

(** Every error a malformed write predicate raises is phrased in the write
    vocabulary: it names none of the read-only fields. *)
Theorem write_errors_in_vocabulary p e :
  build_read_predicate p = Raise e →
  ∃ m, e = ValueError m ∧ str_contains "value_expr" m = false
    ∧ str_contains "value_subquery" m = false ∧ str_contains "'expr'" m = false.
Proof.
  unfold build_read_predicate, validate_col_shape, validate_value_shape, has_any_value, has_value.
  destruct p as [[c|] [f|] op v [vc|]]; destruct op; cbn -[str_contains write_vocabulary];
    try (intros [= <-]; eexists; split; [reflexivity|by vm_compute]);
    destruct v as [|b|z|x|s|[|j1 [|j2 [|j3 l]]]|fs]; cbn -[str_contains write_vocabulary];
    try done; intros [= <-]; eexists; (split; [reflexivity|by vm_compute]).
Qed.

(** A write accepted against the reflected table names only existing
    columns, its filter reads only its own target table, and an INSERT sets
    every required column. *)
Theorem accepted_write_fits_table load s table :
  validate_write_schema load s = Ok table →
  load (write_target_table s) = Ok table
  ∧ (∀ c, c ∈ written_columns s → ∃ col, col ∈ st_columns table ∧ casefold (col_name col) = casefold c)
  ∧ (∀ t rows col, s = InsertStatement t rows → col ∈ st_columns table →
       col_nullable col = false → col_default col = false → col_server_default col = false →
       col_primary_key col = false → col_name col ∈ dict_keys (first_row rows))
  ∧ (∀ w, statement_where s = Some w → ∃ rw, to_read_where w = Ok rw
       ∧ ∀ pred ref, pred ∈ iter_where_predicates rw → ref ∈ predicate_column_refs pred →
         ∃ t c col, parse_column_ref ref = Ok (t, c)
           ∧ casefold t = casefold (write_target_table s)
           ∧ col ∈ st_columns table ∧ casefold (col_name col) = casefold c).
Proof.
  assert (Hres : ∀ c, is_ok (resolve_column (st_columns table) c) = true →
    ∃ col, col ∈ st_columns table ∧ casefold (col_name col) = casefold c).
  { intros c Hc. destruct (resolve_column (st_columns table) c) as [col|] eqn:E; [|done].
    exists col. by apply resolve_column_ok. }
  unfold validate_write_schema. intros (tb & Hl & H)%bind_ok. rewrite !bind_ok_unit in H.
  destruct H as (Hcols & Hins & Hwh & [= ->]). split_and!; [done|..].
  - intros c Hc. apply Hres. pose proof (for_each_ok_elem _ _ _ Hcols Hc) as Hr. cbn in Hr.
    by destruct (resolve_column (st_columns table) c).
  - intros t rows col -> Hcol Hn Hd Hsd Hpk. apply raise_if_ok, negb_false_iff, bool_decide_eq_true in Hins.
    destruct (decide (col_name col ∈ dict_keys (first_row rows))) as [|Hnin]; [done|]. exfalso.
    assert (col_name col ∈ missing_required table (row_columns (first_row rows))) as Hm; [|by rewrite Hins in Hm; apply not_elem_of_nil in Hm].
    unfold missing_required. apply list_elem_of_fmap. exists col. split; [done|].
    apply elem_of_filter_bool. split; [|done].
    rewrite Hn, Hd, Hsd, Hpk. cbn. apply bool_decide_eq_true.
    unfold row_columns. by rewrite elem_of_list_to_set.
  - intros w Hw. rewrite Hw in Hwh. apply bind_ok in Hwh as (rw & Hrw & Hall).
    exists rw. split; [done|]. intros pred ref Hp Hr.
    pose proof (for_each_ok_elem _ _ _ (for_each_ok_elem _ _ _ Hall Hp) Hr) as Hc.
    unfold check_write_schema_ref in Hc. apply bind_ok in Hc as ([t c] & Hpc & Hc).
    rewrite !bind_ok_unit, raise_if_ok, negb_false_iff, bool_decide_eq_true in Hc.
    destruct Hc as [Ht Hc]. apply bind_ok in Hc as (? & Hc & _).
    destruct (Hres c) as (col & ? & ?); [by rewrite Hc|]. by exists t, c, col.
Qed.
End properties.

Section write_compiler_properties.
Context `{CF : CaseFold} `{DA : DialectAdapter} `{SV : SqlValues}.

Lemma where_truth_map {P R} (f : P → R) (leaf : R → tri) (w : WhereNode_ P) :
  where_truth leaf (where_map f w) = where_truth (λ p, leaf (f p)) w.
Proof.
  induction w as [w IH] using where_ind_children. destruct w as [p|a o n]; [done|].
  assert (Hl : ∀ l, (∀ c, c ∈ l → c ∈ where_children (WhereGroup a o n)) →
    map (where_truth leaf) (map (where_map f) l) = map (where_truth (λ p, leaf (f p))) l).
  { induction l as [|c l IHl]; intros H; [done|]. cbn. f_equal; [apply IH, H; set_solver|].
    apply IHl. intros; apply H; set_solver. }
  cbn. destruct n as [c|]; cbn; [by rewrite IH by (cbn; set_solver)|].
  destruct a as [[|c cs]|]; cbn.
  - destruct o as [cs|]; cbn; [|done]. f_equal. apply Hl. cbn. set_solver.
  - rewrite IH by (cbn; set_solver). do 2 f_equal. apply Hl. cbn. set_solver.
  - destruct o as [cs|]; cbn; [|done]. f_equal. apply Hl. cbn. set_solver.
Qed.

Lemma no_empty_list_map {P R} (f : P → R) (w : WhereNode_ P) :
  where_forallb (λ _, true) no_empty_list w = true →
  where_forallb (λ _, true) no_empty_and (where_map f w) = true.
Proof.
  induction w as [w IH] using where_ind_children. destruct w as [p|a o n]; [done|].
  cbn [where_map]. rewrite !where_forallb_children. intros (Hg & Ha & Ho & Hn). split_and!.
  - destruct a as [[|? ?]|]; done.
  - destruct a as [l|]; [|done]. intros l' c [= <-] (d & -> & Hd)%elem_of_map.
    apply IH; [cbn; set_solver|by eapply Ha].
  - destruct o as [l|]; [|done]. intros l' c [= <-] (d & -> & Hd)%elem_of_map.
    apply IH; [cbn; set_solver|by eapply Ho].
  - destruct n as [d|]; [|done]. intros c [= <-]. apply IH; [cbn; set_solver|by apply Hn].
Qed.

(** C11. The WHERE of a compiled UPDATE or DELETE is TRUE on a row exactly when
    the caller's own filter tree is, under three-valued logic over its own
    predicates: provided no group of the parsed filter carries an empty list. *)
Theorem compiled_write_filter_meaning ty s table dialect d w :
  validate_write_statement s = Ok tt → statement_where s = Some w → tight w = true →
  compile_write ty s table dialect = Ok d →
  ∃ e, dml_where d = Some e
    ∧ ∀ cx r, truth cx r e
        = where_truth (λ l, rendered_truth cx r
            (compile_predicate (compile_expression [(write_target_table s, FromTable table)])
               [(write_target_table s, FromTable table)] [] None) (widen_leaf l)) w.
Proof.
  intros Hs Hw Ht Hc. pose proof (validate_write_statement_where s w Hs Hw) as Hwf.
  assert (H : ∃ e, compile_write_where (write_target_table s) table w = Ok e ∧ dml_where d = Some e).
  { destruct s; cbn in Hw; simplify_eq; cbn in Hc; apply bind_ok in Hc as (e & He & [= <-]);
      exists e; done. }
  destruct H as (e & He & Hd). exists e. split; [done|]. intros cx r.
  unfold compile_write_where in He. rewrite (to_read_where_tight w Hwf Ht) in He.
  cbn [mbind result_bind] in He. unfold compile_where in He.
  rewrite (compile_where_with_truth cx r _ _ e (no_empty_list_map widen_leaf w Ht) He).
  apply where_truth_map.
Qed.
End write_compiler_properties.

(** * Concrete inputs *)

Definition writable_policy : Policy :=
  MkPolicy (MkAccess true [] [] [] [("users", ["ssn"])] false [] [] [("users", [MkColumnMask "card" LAST (Some 4) None])])
    (MkWritePolicy true ["Users"] [OpInsert; OpUpdate; OpDelete; OpUpsert]
       [("users", ["role"]); ("*", ["tenant"])] 100 None 50 10)
    default_caps default_windows default_disclosure default_execution default_gates.

Definition id_is (n : Z) : WriteWhereNode :=
  WPredicate (LWrite (MkWritePredicate (Some "users.id") None CEq (JInt n) None)).

Definition sample_filter : WriteWhereNode :=
  WhereGroup None (Some [id_is 1; WhereGroup None None (Some (id_is 2))]) None.

Definition sample_update : WriteStatement :=
  UpdateStatement "users" [("name", JStr "x")] sample_filter.

Definition sample_upsert : WriteStatement :=
  UpsertStatement "users" [[("id", JInt 1); ("name", JStr "x")]; [("name", JStr "y"); ("id", JInt 2)]]
    ["id"] ["name"].

Definition sample_table : SaTable :=
  MkSaTable "users" [MkSaColumn "id" false false false true (Some PyInt); MkSaColumn "name" false false false false (Some PyStr)] [] [].

Lemma every_written_cell_allowed_witness :
  write_column_allowed (CF := ascii_casefold) (write writable_policy) "users" "name" = true.
Proof.
  apply (proj2 (@every_written_cell_allowed ascii_casefold sample_upsert writable_policy
    ltac:(vm_compute; reflexivity) ltac:(vm_compute; reflexivity)) _ _ _ _ eq_refl "name").
  right. apply list_elem_of_In. vm_compute. auto.
Defined.

Lemma write_filter_governed_witness :
  ∃ rw, to_read_where sample_filter = Ok rw
    ∧ Z.of_nat (where_depth rw) ≤ max_where_depth (caps writable_policy).
Proof.
  destruct (@write_filter_governed ascii_casefold sample_update writable_policy sample_filter)
    as (rw & H & Hd & _); [vm_compute; reflexivity..|].
  exists rw. split; assumption.
Defined.

Lemma write_filter_converts_witness :
  to_read_where sample_filter = Ok (where_map widen_leaf sample_filter).
Proof.
  destruct (write_filter_converts sample_filter) as (rw & H & _ & Ht);
    [vm_compute; reflexivity|].
  rewrite <-Ht; [assumption|vm_compute; reflexivity].
Defined.

Lemma write_errors_in_vocabulary_witness :
  ∃ m, build_read_predicate (MkWritePredicate (Some "users.id") None CLt JNull None)
       = Raise (ValueError m) ∧ str_contains "value_expr" m = false.
Proof.
  destruct (write_errors_in_vocabulary (MkWritePredicate (Some "users.id") None CLt JNull None)
    (ValueError "Operator requires a value or value_col")) as (m & [= <-] & H & _);
    [vm_compute; reflexivity|].
  eexists. split; [vm_compute; reflexivity|exact H].
Defined.

Lemma accepted_write_fits_table_witness :
  ∃ rw, to_read_where sample_filter = Ok rw.
Proof.
  destruct (proj2 (proj2 (proj2 (@accepted_write_fits_table ascii_casefold (λ _, Ok sample_table)
    sample_update sample_table ltac:(vm_compute; reflexivity)))) sample_filter eq_refl)
    as (rw & H & _).
  exists rw. exact H.
Defined.

Definition sample_types : WriteTypes := MkWriteTypes (λ _ _, false).

Lemma compiled_write_filter_meaning_witness :
  ∃ e, @compile_write ascii_casefold postgres_adapter sample_types sample_update sample_table "sqlite"
       = Ok (SaUpdate sample_table e [("name", BoundRaw (JStr "x"))]).
Proof.
  destruct (@compiled_write_filter_meaning ascii_casefold postgres_adapter int_values sample_types
    sample_update sample_table "sqlite"
    (match @compile_write ascii_casefold postgres_adapter sample_types sample_update sample_table "sqlite" with
     | Ok d => d | Raise _ => SaInsert sample_table [] end) sample_filter) as (e & He & _);
    [vm_compute; reflexivity..|].
  exists e. vm_compute in He. injection He as <-. vm_compute. reflexivity.
Defined.

(** * A filter that vanishes *)

(** [{"and": [], "or": [{"col": "users.ssn", "op": "eq", "value": "x"}]}]. *)
Definition vanishing_filter : WriteWhereNode :=
  WhereGroup (Some [])
    (Some [WPredicate (LWrite (MkWritePredicate (Some "users.ssn") None CEq (JStr "x") None))]) None.

(** A group with an empty [and] beside a real [or] parses, but its
    conversion keeps the empty [and] and drops the [or]: a DELETE whose only
    predicate names a denied column is accepted with no predicate left, and
    compiles to a condition that is TRUE on every row. *)
Theorem empty_and_drops_the_filter :
  write_where_wf vanishing_filter = true
  ∧ (∃ q, leaf_of (LWrite q) vanishing_filter)
  ∧ @validate_write_policy ascii_casefold
      (DeleteStatement "users" (WhereGroup None
        (Some [WPredicate (LWrite (MkWritePredicate (Some "users.ssn") None CEq (JStr "x") None))])
        None)) writable_policy
    = Raise (PolicyViolationError "Column is not accessible under the active policy")
  ∧ @validate_write_policy ascii_casefold (DeleteStatement "users" vanishing_filter) writable_policy
    = Ok tt
  ∧ ∃ e, @compile_write ascii_casefold postgres_adapter sample_types
           (DeleteStatement "users" vanishing_filter) sample_table "postgresql"
         = Ok (SaDelete sample_table e)
    ∧ ∀ cx r, @truth ascii_casefold int_values cx r e = Some true.
Proof.
  split_and!; [vm_compute; reflexivity| |vm_compute; reflexivity..|].
  - eexists. eapply leaf_or; [reflexivity|by left|constructor].
  - exists (EAnd []). split; [vm_compute; reflexivity|done].
Qed.
