(* ===== verification/WriteExecution.v ===== *)
(** Gated execution of writes: [execution/write_execution.py]. One write runs
    in one transaction (count, cap, approval, mutate, cap again, commit); an
    atomic batch runs every write in one. The database is a state [D] with two
    operations; what other transactions commit meanwhile is an argument. *)
From S2P Require Export WritePath Approval.
Local Open Scope Z_scope.

(** * The database *)

(** What executing a DML statement reports: the new state with the driver's
    row count, one of the errors the code turns into a 4xx (IntegrityError,
    DataError, StatementError), or any other driver error. *)
Inductive db_outcome (D : Type) :=
| DbRan (d : D) (rowcount : option Z)
| DbConstraint
| DbFailed (msg : string).
Arguments DbRan {D} d rowcount.
Arguments DbConstraint {D}.
Arguments DbFailed {D} msg.

Record WriteDb (D : Type) := MkWriteDb {
  db_count : D → SaTable → SaExpr → result Z;
  db_run : D → sa_dml → db_outcome D;
}.
Arguments MkWriteDb {D} _ _.
Arguments db_count {D} _ _ _ _.
Arguments db_run {D} _ _ _.

(** What the service reads besides the statement: the connection and principal,
    the dialect, the reflection, the token key, the clock, the canonical JSON
    dump and SHA-256 of [_model_fingerprint], and whether a concurrency slot
    could be had. *)
Record ExecEnv := MkExecEnv {
  xe_connection_id : string;
  xe_principal : option Principal;
  xe_dialect : string;
  xe_load_table : string → result SaTable;
  xe_types : WriteTypes;
  xe_key : string;
  xe_now : Q;
  xe_dump : WriteStatement → string;
  xe_sha256 : string → string;
  xe_slot : result unit;
}.

(** The audit event: names and counts only, never a value. *)
Record WriteAudit := MkAudit {
  au_op : WriteOperation;
  au_table : string;
  au_columns : list string;
  au_affected_rows : option Z;
  au_rejected : bool;
  au_error : option exn;
}.

(** The result of a committed write. *)
Record WriteResult := MkWriteResult { wr_operation : WriteOperation; wr_table : string; wr_affected_rows : Z }.

(** One write's outcome in a batch: the fields of a committed [WriteResult], or
    an error message with what an approval demand adds. *)
Record WriteBatchItemResult := MkBatchItem {
  br_operation : WriteOperation;
  br_table : string;
  br_affected_rows : option Z;
  br_executed : bool;
  br_error : option string;
  br_approval_fingerprint : option string;
  br_approval_reasons : option (list string);
}.

(** What a call leaves behind. *)
Record Outcome (D R : Type) := MkOutcome { oc_result : R; oc_db : D; oc_audit : list WriteAudit }.
Arguments MkOutcome {D R} _ _ _.
Arguments oc_result {D R} _.
Arguments oc_db {D R} _.
Arguments oc_audit {D R} _.

Definition statement_row_count (s : WriteStatement) : option Z :=
  match s with
  | InsertStatement _ rows | UpsertStatement _ rows _ _ => Some (Z.of_nat (length rows))
  | _ => None
  end.

(** [write_fingerprint]. *)
Definition write_fingerprint (env : ExecEnv) (s : WriteStatement) : string :=
  xe_sha256 env (xe_dump env s).

Definition principal_subject (env : ExecEnv) : option string := subject <$> xe_principal env.

(** [_write_shape] and [_audit]: the column names are those written, sorted by
    the code; the order is not modelled. *)
Definition audit_write (s : WriteStatement) (table : option SaTable) (affected : option Z)
  (error : option exn) : WriteAudit :=
  MkAudit (statement_op s)
    match table with Some t => st_name t | None => write_target_table s end
    (written_columns s) affected (is_some error) error.

Section execution.
Context `{CF : CaseFold} `{DA : DialectAdapter} `{TP : TokenPrimitives} {D : Type}.
Context (env : ExecEnv) (p : Policy) (db : WriteDb D).

(** [_count_affected]. *)
Definition count_affected (d : D) (s : WriteStatement) (table : SaTable) : result Z :=
  match statement_row_count s, statement_where s with
  | Some n, _ => Ok n
  | None, Some w =>
      compile_write_where (write_target_table s) table w ≫= λ e, db_count db d table e
  | None, None => Raise (ValueError "a statement without rows or filter")
  end.

(** [_enforce_write_approval_gate]. *)
Definition enforce_write_approval_gate (s : WriteStatement) (affected : Z) (token : option string) :
  result unit :=
  match wp_require_approval_over_rows (write p) with
  | None => Ok tt
  | Some threshold =>
      if affected <=? threshold then Ok tt
      else if match token with
              | Some t => negb (str_empty t)
                          && verify_approval_token t (write_fingerprint env s) (xe_key env)
                               (Some (xe_connection_id env)) (principal_subject env)
                               TOKEN_KIND_GRANT (xe_now env)
              | None => false
              end
      then Ok tt
      else Raise (ApprovalRequiredError "human approval is required before it runs"
                    (write_fingerprint env s) ["write affects rows over approval threshold"])
  end.

(** The rows a run reports: the statement's own, the driver's count when it has
    one, else the count taken before. *)
Definition actual_rows (s : WriteStatement) (rowcount : option Z) (affected : Z) : Z :=
  match statement_row_count s with
  | Some n => n
  | None =>
      match rowcount with
      | Some n => if 0 <=? n then n else affected
      | None => affected
      end
  end.

(** [_execute_in_transaction]: the state it returns is the one it commits;
    [others] is what other transactions commit between count and mutation. *)
Definition execute_in_transaction (others : D → D) (d : D) (s : WriteStatement) (table : SaTable)
  (dml : sa_dml) (token : option string) : result (Z * D) :=
  let cap := wp_max_affected_rows (write p) in
  count_affected d s table ≫= λ affected,
  raise_if (cap <? affected) (QueryValidationError "write would affect too many rows") ≫= λ _,
  enforce_write_approval_gate s affected token ≫= λ _,
  match db_run db (others d) dml with
  | DbConstraint => Raise (QueryValidationError "the write violates a database constraint")
  | DbFailed msg => Raise (DatabaseError msg)
  | DbRan d' rowcount =>
      let actual := actual_rows s rowcount affected in
      raise_if (cap <? actual) (QueryValidationError "write affected too many rows") ≫= λ _,
      Ok (actual, d')
  end.

(** The validated table and statement, before the database is touched. *)
Definition prepare (s : WriteStatement) : result (SaTable * sa_dml) :=
  validate_write_policy s p ≫= λ _,
  validate_write_schema (xe_load_table env) s ≫= λ table,
  compile_write (xe_types env) s table (xe_dialect env) ≫= λ dml, Ok (table, dml).

(** The table an audit event names: reflected before the failure, or not. *)
Definition audited_table (s : WriteStatement) : option SaTable :=
  match validate_write_policy s p ≫= λ _, validate_write_schema (xe_load_table env) s with
  | Ok t => Some t
  | Raise _ => None
  end.

(** [WriteExecutionService.execute]. A raise inside the transaction rolls it
    back, so only what others committed is left. *)
Definition execute (others : D → D) (d : D) (s : WriteStatement) (token : option string) :
  Outcome D (result WriteResult) :=
  match prepare s with
  | Raise e => MkOutcome (Raise e) d [audit_write s (audited_table s) None (Some e)]
  | Ok (table, dml) =>
      match xe_slot env ≫= λ _, execute_in_transaction others d s table dml token with
      | Raise e => MkOutcome (Raise e) (others d) [audit_write s (Some table) None (Some e)]
      | Ok (n, d') => MkOutcome (Ok (MkWriteResult (statement_op s) (st_name table) n)) d'
                        [audit_write s (Some table) (Some n) None]
      end
  end.

(** ** Batches *)

Definition batch_ok (r : WriteResult) : WriteBatchItemResult :=
  MkBatchItem (wr_operation r) (wr_table r) (Some (wr_affected_rows r)) true None None None.

Definition batch_error (s : WriteStatement) (e : exn) : WriteBatchItemResult :=
  let approval := match e with ApprovalRequiredError _ f rs => Some (f, rs) | _ => None end in
  MkBatchItem (statement_op s) (write_target_table s) None false (Some (public_error_message e))
    (fst <$> approval) (snd <$> approval).

Definition item_of (s : WriteStatement) (r : result WriteResult) : WriteBatchItemResult :=
  match r with Ok res => batch_ok res | Raise e => batch_error s e end.

(** [_execute_batch_item]: a pre-supplied token first; an approval demand gives
    the resolver one chance. *)
Definition execute_batch_item (others : D → D) (d : D) (s : WriteStatement) (tokens : dict string)
  (resolver : option (WriteStatement → exn → option string)) : Outcome D WriteBatchItemResult :=
  let first := execute others d s (dict_get (write_fingerprint env s) tokens) in
  match oc_result first, resolver with
  | Raise (ApprovalRequiredError m f rs), Some resolve =>
      match resolve s (ApprovalRequiredError m f rs) with
      | Some t =>
          let second := execute others (oc_db first) s (Some t) in
          MkOutcome (item_of s (oc_result second)) (oc_db second) (oc_audit first ++ oc_audit second)
      | None => MkOutcome (item_of s (oc_result first)) (oc_db first) (oc_audit first)
      end
  | r, _ => MkOutcome (item_of s r) (oc_db first) (oc_audit first)
  end.

Fixpoint execute_each (others : D → D) (d : D) (ss : list WriteStatement) (tokens : dict string)
  (resolver : option (WriteStatement → exn → option string)) : Outcome D (list WriteBatchItemResult) :=
  match ss with
  | [] => MkOutcome [] d []
  | s :: rest =>
      let one := execute_batch_item others d s tokens resolver in
      let more := execute_each others (oc_db one) rest tokens resolver in
      MkOutcome (oc_result one :: oc_result more) (oc_db more) (oc_audit one ++ oc_audit more)
  end.

(** The items of an atomic batch: the table is named by the statement, and an
    error says nothing of approval. *)
Definition atomic_ok (s : WriteStatement) (n : Z) : WriteBatchItemResult :=
  MkBatchItem (statement_op s) (write_target_table s) (Some n) true None None None.

Definition atomic_error (s : WriteStatement) (e : exn) : WriteBatchItemResult :=
  MkBatchItem (statement_op s) (write_target_table s) None false (Some (public_error_message e))
    None None.

(** One turn of the loop of [_execute_many_atomically]. *)
Definition atomic_step (others : D → D) (d : D) (s : WriteStatement) : result (Z * D) :=
  validate_write_policy s p ≫= λ _,
  validate_write_schema (xe_load_table env) s ≫= λ table,
  count_affected d s table ≫= λ affected,
  raise_if (wp_max_affected_rows (write p) <? affected)
    (QueryValidationError "a write in the atomic batch would affect too many rows") ≫= λ _,
  enforce_write_approval_gate s affected None ≫= λ _,
  compile_write (xe_types env) s table (xe_dialect env) ≫= λ dml,
  match db_run db (others d) dml with
  | DbConstraint => Raise (QueryValidationError "a write in the atomic batch violated a database constraint")
  | DbFailed msg => Raise (DatabaseError msg)
  | DbRan d' _ => Ok (default affected (statement_row_count s), d')
  end.

Fixpoint atomic_steps (others : D → D) (d : D) (ss : list WriteStatement) : result (list Z * D) :=
  match ss with
  | [] => Ok ([], d)
  | s :: rest =>
      atomic_step others d s ≫= λ '(n, d'),
      atomic_steps others d' rest ≫= λ '(ns, d''), Ok (n :: ns, d'')
  end.

(** [_execute_many_atomically]: every policy check up front, then one
    transaction; [rolled_back] is the database without it. *)
Definition execute_atomically (others : D → D) (rolled_back d : D) (ss : list WriteStatement) :
  result (Outcome D (list WriteBatchItemResult)) :=
  for_each (λ s, validate_write_policy s p) ss ≫= λ _,
  Ok (match xe_slot env ≫= λ _, atomic_steps others d ss with
      | Ok (ns, d') =>
          MkOutcome (zip_with atomic_ok ss ns) d'
            (zip_with (λ s n, audit_write s None (Some n) None) ss ns)
      | Raise e => MkOutcome (map (λ s, atomic_error s e) ss) rolled_back []
      end).

(** [execute_many]. *)
Definition execute_many (others : D → D) (rolled_back d : D) (ss : list WriteStatement)
  (tokens : dict string) (resolver : option (WriteStatement → exn → option string))
  (atomic : bool) : result (Outcome D (list WriteBatchItemResult)) :=
  validate_write_batch_size (length ss) p ≫= λ _,
  if atomic then execute_atomically others rolled_back d ss
  else Ok (execute_each others d ss tokens resolver).
End execution.

(** * Properties *)

Section properties.
Context `{CF : CaseFold} `{DA : DialectAdapter} `{TP : TokenPrimitives} {D : Type}.


Lemma approval_gate_ok env p s affected token :
  enforce_write_approval_gate env p s affected token = Ok tt ↔
  ∀ t, wp_require_approval_over_rows (write p) = Some t → t < affected →
    ∃ tok, token = Some tok ∧ str_empty tok = false
      ∧ verify_approval_token tok (write_fingerprint env s) (xe_key env)
          (Some (xe_connection_id env)) (principal_subject env) TOKEN_KIND_GRANT (xe_now env)
        = true.
Proof.
  unfold enforce_write_approval_gate.
  destruct (wp_require_approval_over_rows (write p)) as [t|]; [|by split].
  destruct (Z.leb_spec affected t); [split; [intros _ ? [= <-]; lia|done]|].
  split.
  - intros H' t' [= <-] _. destruct token as [tok|]; [|done].
    destruct (negb (str_empty tok) && _) eqn:E; [|done].
    apply andb_true_iff in E as [E1%negb_true_iff E]. eauto.
  - intros H'. destruct (H' t eq_refl ltac:(lia)) as (tok & -> & -> & ->). done.
Qed.



Lemma batch_item_audited env p (db : WriteDb D) others d s tokens resolver :
  (1 ≤ length (oc_audit (execute_batch_item env p db others d s tokens resolver)))%nat.
Proof.
  assert (H : ∀ d tok, (1 ≤ length (oc_audit (execute env p db others d s tok)))%nat).
  { intros d' tok. unfold execute. destruct (prepare env p s) as [[? ?]|]; cbn; [|lia].
    destruct (xe_slot env ≫= _) as [[? ?]|]; cbn; lia. }
  unfold execute_batch_item. set (o := execute env p db others d s _).
  assert (Ho : (1 ≤ length (oc_audit o))%nat) by apply H.
  destruct (oc_result o) as [|[]]; try done. destruct resolver as [resolve|]; [|done].
  destruct (resolve s _); cbn; [|done]. rewrite length_app. lia.
Qed.

(** The chain of runs a committed atomic batch made. *)
Inductive batch_run (env : ExecEnv) (p : Policy) (db : WriteDb D) (others : D → D) :
  D → list WriteStatement → D → Prop :=
| batch_done d : batch_run env p db others d [] d
| batch_next d s ss table dml affected d1 rowcount d2 :
    prepare env p s = Ok (table, dml) →
    count_affected db d s table = Ok affected →
    affected ≤ wp_max_affected_rows (write p) →
    (∀ t, wp_require_approval_over_rows (write p) = Some t → affected ≤ t) →
    db_run db (others d) dml = DbRan d1 rowcount →
    batch_run env p db others d1 ss d2 →
    batch_run env p db others d (s :: ss) d2.

Lemma atomic_steps_run env p (db : WriteDb D) others ss : ∀ d ns d',
  atomic_steps env p db others d ss = Ok (ns, d') →
  batch_run env p db others d ss d' ∧ length ns = length ss.
Proof.
  induction ss as [|s ss IH]; intros d ns d'; cbn; [intros [= <- <-]; by split; [constructor|]|].
  intros ([n d1] & Hs & H)%bind_ok. apply bind_ok in H as ([ns' d2] & Hr & [= <- <-]).
  destruct (IH _ _ _ Hr) as [Hrun Hlen]. split; [|cbn; by rewrite Hlen].
  unfold atomic_step in Hs. apply bind_ok_unit in Hs as [Hp Hs].
  apply bind_ok in Hs as (table & Ht & Hs). apply bind_ok in Hs as (affected & Hc & Hs).
  rewrite !bind_ok_unit, raise_if_ok, Z.ltb_ge in Hs. destruct Hs as (Hcap & Hg & Hs).
  apply bind_ok in Hs as (dml & Hd & Hs).
  destruct (db_run db (others d) dml) as [d1' rowcount| |] eqn:Er; [|done..].
  injection Hs as _ <-. econstructor; try done.
  - unfold prepare. rewrite Hp. cbn [mbind result_bind]. rewrite Ht. cbn [mbind result_bind].
    by rewrite Hd.
  - intros t Hthr. destruct (Z.leb_spec affected t); [done|].
    destruct (proj1 (approval_gate_ok _ _ _ _ _) Hg t Hthr) as (? & ? & _); [lia|done].
Qed.

(** An atomic batch either commits every write, each accepted, counted
    within the cap and under the approval threshold, or commits none, reports
    one error for every item and writes no audit event; it raises exactly what the policy check of one of
    its writes raises, before anything runs. *)
Theorem atomic_batch_all_or_nothing env p (db : WriteDb D) others rolled_back d ss :
  match execute_atomically env p db others rolled_back d ss with
  | Ok o => (∀ s, s ∈ ss → validate_write_policy s p = Ok tt)
      ∧ ((batch_run env p db others d ss (oc_db o)
          ∧ ∃ ns, length ns = length ss ∧ oc_result o = zip_with atomic_ok ss ns
              ∧ oc_audit o = zip_with (λ s n, audit_write s None (Some n) None) ss ns)
         ∨ (oc_db o = rolled_back ∧ oc_audit o = [] ∧ ∃ e, oc_result o = map (λ s, atomic_error s e) ss))
  | Raise e => ∃ s, s ∈ ss ∧ validate_write_policy s p = Raise e
  end.
Proof.
  unfold execute_atomically.
  destruct (for_each (λ s, validate_write_policy s p) ss) as [[]|e] eqn:Ep; cbn [mbind result_bind];
    [|by apply for_each_raise in Ep].
  rewrite for_each_ok, Forall_forall in Ep. split; [done|].
  destruct (xe_slot env ≫= _) as [[ns d']|e] eqn:Ea; cbn; [left|right; eauto].
  apply bind_ok_unit in Ea as [_ Ea]. apply atomic_steps_run in Ea as [Hrun Hlen].
  split; [done|]. exists ns. by split_and!.
Qed.

(** A batch over [max_batch_size] costs nothing: it raises before any write
    is looked at, and a batch that runs item by item reports one item per write
    and audits at least every one of them. *)
Theorem batch_size_bounded env p (db : WriteDb D) others rolled_back d ss tokens resolver atomic :
  match execute_many env p db others rolled_back d ss tokens resolver atomic with
  | Ok o => Z.of_nat (length ss) ≤ wp_max_batch_size (write p)
      ∧ length (oc_result o) = length ss
      ∧ (atomic = false → (length ss ≤ length (oc_audit o))%nat)
  | Raise e => wp_max_batch_size (write p) < Z.of_nat (length ss)
      ∨ (atomic = true ∧ ∃ s, s ∈ ss ∧ validate_write_policy s p = Raise e)
  end.
Proof.
  unfold execute_many, validate_write_batch_size.
  destruct (Z.ltb_spec (wp_max_batch_size (write p)) (Z.of_nat (length ss))) as [|Hle];
    cbn [raise_if mbind result_bind]; [by left|]. destruct atomic.
  - unfold execute_atomically.
    destruct (for_each _ ss) as [[]|e] eqn:Ep; cbn [mbind result_bind];
      [|right; split; [done|by apply for_each_raise in Ep]].
    destruct (xe_slot env ≫= _) as [[ns d']|e] eqn:Ea; cbn; split_and!; try done;
      [|by rewrite length_map].
    apply bind_ok_unit in Ea as [_ Ea]. apply atomic_steps_run in Ea as [_ Hlen].
    rewrite length_zip_with. lia.
  - split; [done|]. clear Hle. revert d.
    assert (H : ∀ d, length (oc_result (execute_each env p db others d ss tokens resolver)) = length ss
      ∧ (length ss ≤ length (oc_audit (execute_each env p db others d ss tokens resolver)))%nat);
      [|intros d; by destruct (H d)].
    induction ss as [|s ss IH]; intros d; cbn; [done|].
    destruct (IH (oc_db (execute_batch_item env p db others d s tokens resolver))) as [IH1 IH2].
    rewrite length_app, IH1. split; [done|].
    assert (1 ≤ length (oc_audit (execute_batch_item env p db others d s tokens resolver)))%nat
      by apply batch_item_audited. lia.
Qed.
End properties.

(** * Concrete inputs *)

(** A table with [d] matching rows, onto which others insert a thousand. *)
Definition counting_db : WriteDb Z :=
  MkWriteDb (λ d _ _, Ok d) (λ d dml, match dml with SaInsert _ _ => DbRan (d + 1) (Some 1)
                                  | _ => DbRan 0 (Some d) end).

Definition crowd (d : Z) : Z := d + 1000.

Definition write_env : ExecEnv :=
  MkExecEnv "main" None "postgresql" (λ _, Ok sample_table) sample_types "" 0%Q (λ _, "") (λ s, s) (Ok tt).

Definition delete_one : WriteStatement := DeleteStatement "users" (id_is 1).

(** [execute] re-checks the driver's row count against
    [max_affected_rows] and rolls back when others' inserts pushed it over; the
    same single write in an atomic batch does not: it commits 1050 changed rows
    under a cap of 100 and reports the 50 it counted first. *)
Theorem atomic_batch_skips_recheck :
  wp_max_affected_rows (write writable_policy) = 100
  ∧ @execute ascii_casefold postgres_adapter toy_primitives Z write_env writable_policy counting_db
      crowd 50 delete_one None
    = MkOutcome (Raise (QueryValidationError "write affected too many rows")) 1050
        [audit_write delete_one (Some sample_table) None
           (Some (QueryValidationError "write affected too many rows"))]
  ∧ @execute_atomically ascii_casefold postgres_adapter toy_primitives Z write_env writable_policy
      counting_db crowd 1050 50 [delete_one]
    = Ok (MkOutcome [atomic_ok delete_one 50] 0 [audit_write delete_one None (Some 50) None]).
Proof. split_and!; vm_compute; reflexivity. Qed.
