(* ===== verification/QueryShape.v ===== *)
(** The redaction-safe shape of a query that [audit/events.py] persists
    ([normalize_query_shape] and the functions it walks the tree with): operators,
    identifiers and structure, never an operand's value. *)
From S2P Require Export Visitor.
Local Open Scope Z_scope.

(** * The spelling of the closed vocabularies *)

Definition compare_op_text (op : ReadCompareOp) : string :=
  match op with
  | OpEq => "eq" | OpNeq => "neq" | OpLt => "lt" | OpLte => "lte" | OpGt => "gt" | OpGte => "gte"
  | OpIn => "in" | OpNotIn => "not_in" | OpLike => "like" | OpBetween => "between"
  | OpIsNull => "is_null" | OpIsNotNull => "is_not_null" | OpExists => "exists"
  | OpNotExists => "not_exists"
  end.

Definition aggregate_text (fn : AggregateFn) : string :=
  match fn with
  | AggCount => "count" | AggSum => "sum" | AggAvg => "avg" | AggMin => "min" | AggMax => "max"
  | AggStddev => "stddev" | AggVariance => "variance"
  end.

Definition join_type_text (t : JoinType) : string :=
  match t with JoinInner => "inner" | JoinLeft => "left" | JoinFull => "full" | JoinCross => "cross" end.

Definition granularity_name (g : DateGranularity) : string :=
  match g with
  | GranDay => "day" | GranWeek => "week" | GranMonth => "month" | GranQuarter => "quarter"
  | GranYear => "year"
  end.

Definition scalar_fn_text (fn : ScalarFn) : string :=
  match fn with
  | SfCoalesce => "coalesce" | SfLower => "lower" | SfUpper => "upper" | SfTrim => "trim"
  | SfConcat => "concat"
  end.

Definition binary_op_text (op : BinaryOp) : string :=
  match op with BopAdd => "+" | BopSub => "-" | BopMul => "*" | BopDiv => "/" end.

Definition expr_fn_text (fn : ExprFn) : string :=
  match fn with
  | FnCoalesce => "coalesce" | FnLower => "lower" | FnUpper => "upper" | FnTrim => "trim"
  | FnConcat => "concat" | FnAbs => "abs" | FnCeil => "ceil" | FnFloor => "floor"
  | FnRound => "round" | FnLength => "length" | FnNullif => "nullif" | FnReplace => "replace"
  | FnSubstring => "substring"
  end.

Definition cast_text (t : CastType) : string :=
  match t with
  | CastText => "text" | CastInteger => "integer" | CastNumeric => "numeric"
  | CastBoolean => "boolean" | CastDate => "date" | CastTimestamp => "timestamp"
  end.

Definition part_text (p : DatePart) : string :=
  match p with
  | PartYear => "year" | PartQuarter => "quarter" | PartMonth => "month" | PartWeek => "week"
  | PartDay => "day" | PartDayofweek => "dayofweek" | PartDayofyear => "dayofyear"
  | PartHour => "hour" | PartMinute => "minute" | PartSecond => "second"
  end.

Definition unit_text (u : IntervalUnit) : string :=
  match u with
  | UYear => "year" | UMonth => "month" | UWeek => "week" | UDay => "day" | UHour => "hour"
  | UMinute => "minute" | USecond => "second"
  end.

Definition now_text (k : NowKind) : string :=
  match k with NowTimestamp => "timestamp" | NowDate => "date" end.

Definition window_fn_text (fn : WindowFn) : string :=
  match fn with
  | WSum => "sum" | WAvg => "avg" | WMin => "min" | WMax => "max" | WCount => "count"
  | WRowNumber => "row_number" | WRank => "rank" | WDenseRank => "dense_rank" | WNtile => "ntile"
  | WLag => "lag" | WLead => "lead" | WFirstValue => "first_value" | WLastValue => "last_value"
  end.

Definition bound_text (b : WindowBoundKind) : string :=
  match b with
  | UnboundedPreceding => "unbounded_preceding" | Preceding => "preceding"
  | CurrentRow => "current_row" | Following => "following"
  | UnboundedFollowing => "unbounded_following"
  end.

Definition frame_mode_text (m : WindowFrameMode) : string :=
  match m with FrameRows => "rows" | FrameRange => "range" end.

Definition sort_dir_text (d : SortDir) : string :=
  match d with SortAsc => "asc" | SortDesc => "desc" end.

Definition nulls_text (n : NullsOrder) : string :=
  match n with NullsFirst => "first" | NullsLast => "last" end.

Definition rank_text (fn : RankFn) : string :=
  match fn with RankRowNumber => "row_number" | RankRank => "rank" | RankDenseRank => "dense_rank" end.

Definition set_op_text (op : SetOpKind) : string :=
  match op with SetUnion => "union" | SetIntersect => "intersect" | SetExcept => "except" end.

(** * JSON building blocks *)

Definition JText (l : list string) : json := JList (map JStr l).

Definition opt_field {A} (key : string) (f : A → json) (o : option A) : list (string * json) :=
  match o with Some a => [(key, f a)] | None => [] end.

(** [shape[key] = f(x)] for an [x] that is there, where [f] may raise. *)
Definition shape_field {A} (key : string) (f : A → result json) (o : option A) :
  result (list (string * json)) :=
  match o with Some a => f a ≫= λ j, Ok [(key, j)] | None => Ok [] end.

Definition shape_list {A} (f : A → result json) (l : list A) : result json :=
  map_result f l ≫= λ js, Ok (JList js).

Definition order_dump (o : OrderBySpec) : json :=
  JObj [("col", JStr (ob_col o)); ("dir", JStr (sort_dir_text (ob_dir o)));
        ("nulls", match ob_nulls o with Some n => JStr (nulls_text n) | None => JNull end)].

(** The frame's kinds of bound; its offsets are the caller's numbers. *)
Definition frame_shape (f : WindowFrame) : json :=
  JObj [("mode", JStr (frame_mode_text (wf_mode f))); ("start", JStr (bound_text (wb_bound (wf_start f))));
        ("end", JStr (bound_text (wb_bound (wf_end f))))].

(** * Boolean trees, predicates, expressions *)

(** [_where_shape], over what is made of a leaf: an empty list counts as unset. *)
Fixpoint where_shape_with {P} (leaf : P → result json) (w : WhereNode_ P) : result json :=
  match w with
  | WPredicate p => leaf p
  | WhereGroup and_terms or_terms not_terms =>
      match and_terms with
      | Some (c :: cs) =>
          where_shape_with leaf c ≫= λ j, map_result (where_shape_with leaf) cs ≫= λ js,
          Ok (JObj [("and", JList (j :: js))])
      | _ =>
          match or_terms with
          | Some (c :: cs) =>
              where_shape_with leaf c ≫= λ j, map_result (where_shape_with leaf) cs ≫= λ js,
              Ok (JObj [("or", JList (j :: js))])
          | _ =>
              match not_terms with
              | Some c => where_shape_with leaf c ≫= λ j, Ok (JObj [("not", j)])
              | None => Raise (BuiltinError "TypeError")
              end
          end
      end
  end.

(** [_predicate_shape], over the shapes of expressions and of nested queries. *)
Definition predicate_shape_with {E Q} (expr_shape : E → result json) (query_shape : Q → result json)
  (p : Predicate E Q) : result json :=
  let operator := ("operator", JStr (compare_op_text (pr_op p))) in
  match pr_exists_subquery p with
  | Some s => query_shape s ≫= λ j, Ok (JObj [operator; ("exists_subquery", j)])
  | None =>
      match pr_col p, pr_col_fn p, pr_expr p with
      | Some c, _, _ => Ok [("column", JStr c)]
      | None, Some call, _ =>
          Ok [("function", JStr (scalar_fn_text (sfc_fn call)));
              ("columns", JText (scalar_fn_column_refs call))]
      | None, None, Some e => expr_shape e ≫= λ j, Ok [("expression", j)]
      | None, None, None => Raise (BuiltinError "AssertionError")
      end ≫= λ target,
      shape_field "value_expression" expr_shape (pr_value_expr p) ≫= λ value_expr,
      shape_field "value_subquery" query_shape (pr_value_subquery p) ≫= λ value_sub,
      Ok (JObj (operator :: target ++ opt_field "value_column" JStr (pr_value_col p)
                ++ value_expr ++ value_sub))
  end.

(** [_expression_shape]: no literal's value, no shift's amount, no frame offset,
    bucket count or distance. *)
Fixpoint expression_shape {Q} (query_shape : Q → result json) (e : Expression_ Q) : result json :=
  let where_shape :=
    where_shape_with (predicate_shape_with (expression_shape query_shape) query_shape) in
  match e with
  | ColumnExpr col => Ok (JObj [("node", JStr "column"); ("column", JStr col)])
  | LiteralExpr _ => Ok (JObj [("node", JStr "literal")])
  | BinaryOpExpr op l r =>
      expression_shape query_shape l ≫= λ jl, expression_shape query_shape r ≫= λ jr,
      Ok (JObj [("node", JStr "binary_op"); ("operator", JStr (binary_op_text op));
                ("operands", JList [jl; jr])])
  | FunctionExpr fn args =>
      map_result (expression_shape query_shape) args ≫= λ js,
      Ok (JObj [("node", JStr "function"); ("function", JStr (expr_fn_text fn)); ("args", JList js)])
  | CastExpr x to =>
      expression_shape query_shape x ≫= λ j,
      Ok (JObj [("node", JStr "cast"); ("to", JStr (cast_text to)); ("operand", j)])
  | ExtractExpr x part =>
      expression_shape query_shape x ≫= λ j,
      Ok (JObj [("node", JStr "extract"); ("part", JStr (part_text part)); ("operand", j)])
  | NowExpr k => Ok (JObj [("node", JStr "now"); ("kind", JStr (now_text k))])
  | DateAddExpr x unit _ =>
      expression_shape query_shape x ≫= λ j,
      Ok (JObj [("node", JStr "date_add"); ("unit", JStr (unit_text unit)); ("operand", j)])
  | CaseExpr when else_ =>
      map_result (λ b, where_shape (cw_when b)) when ≫= λ conditions,
      map_result (λ b, expression_shape query_shape (cw_then b)) when ≫= λ results,
      shape_field "else" (expression_shape query_shape) else_ ≫= λ else_field,
      Ok (JObj ([("node", JStr "case"); ("branch_count", JInt (Z.of_nat (length when)));
                 ("conditions", JList conditions); ("results", JList results)] ++ else_field))
  | WindowExpr fn over arg _ _ =>
      shape_field "operand" (expression_shape query_shape) arg ≫= λ operand,
      Ok (JObj ([("node", JStr "window"); ("function", JStr (window_fn_text fn));
                 ("partition_by", JText (ws_partition_by over));
                 ("order_by", JText (map ob_col (ws_order_by over)))]
                ++ operand ++ opt_field "frame" frame_shape (ws_frame over)))
  end.

Definition predicate_shape {Q} (query_shape : Q → result json) (p : Predicate_ Q) : result json :=
  predicate_shape_with (expression_shape query_shape) query_shape p.

Definition where_shape {Q} (query_shape : Q → result json) (w : Where_ Q) : result json :=
  where_shape_with (predicate_shape query_shape) w.

(** [_select_shape]. *)
Definition select_shape {Q} (query_shape : Q → result json) (item : SelectItem_ Q) : result json :=
  let alias_field := opt_field "alias" JStr in
  match item with
  | ColumnItem ref => Ok (JObj [("kind", JStr "column"); ("column", JStr ref)])
  | AggregateSelectItem fn col arg _ alias =>
      match arg with
      | None => Ok [("column", match col with Some c => JStr c | None => JNull end)]
      | Some (ColumnExpr c) => Ok [("column", JStr c)]
      | Some e => expression_shape query_shape e ≫= λ j,
                  Ok [("expression", j); ("columns", JText (select_item_column_refs item))]
      end ≫= λ what,
      Ok (JObj ([("kind", JStr "aggregate"); ("function", JStr (aggregate_text fn))]
                ++ what ++ alias_field alias))
  | ExpressionSelectItem e alias =>
      expression_shape query_shape e ≫= λ j,
      Ok (JObj [("kind", JStr "expression"); ("alias", JStr alias); ("expression", j);
                ("columns", JText (select_item_column_refs item))])
  | DateBucketSelectItem col g alias =>
      Ok (JObj ([("kind", JStr "date_bucket"); ("column", JStr col);
                 ("granularity", JStr (granularity_name g))] ++ alias_field alias))
  | StringAggSelectItem col _ alias =>
      Ok (JObj ([("kind", JStr "string_agg"); ("column", JStr col)] ++ alias_field alias))
  | ArrayAggSelectItem col alias =>
      Ok (JObj ([("kind", JStr "array_agg"); ("column", JStr col)] ++ alias_field alias))
  | PercentileContSelectItem col fraction alias =>
      Ok (JObj ([("kind", JStr "percentile_cont"); ("column", JStr col); ("fraction", JFloat fraction)]
                ++ alias_field alias))
  | ScalarFunctionSelectItem call alias =>
      Ok (JObj ([("kind", JStr "scalar_fn"); ("function", JStr (scalar_fn_text (sfc_fn call)));
                 ("columns", JText (select_item_column_refs item))] ++ alias_field alias))
  | CaseSelectItem when _ alias =>
      map_result (λ b, where_shape query_shape (cw_when b)) when ≫= λ conditions,
      Ok (JObj [("kind", JStr "case"); ("alias", JStr alias);
                ("branch_count", JInt (Z.of_nat (length when)));
                ("columns", JText (select_item_column_refs item)); ("conditions", JList conditions)])
  | WindowSelectItem fn over arg _ _ alias =>
      shape_field "expression" (expression_shape query_shape) arg ≫= λ expression,
      Ok (JObj ([("kind", JStr "window"); ("function", JStr (window_fn_text fn)); ("alias", JStr alias);
                 ("columns", JText (select_item_column_refs item))]
                ++ expression ++ opt_field "frame" frame_shape (ws_frame over)))
  end.

(** One entry of the shape's [joins]. *)
Definition join_shape {Q} (query_shape : Q → result json) (j : JoinSpec_ Q) : result json :=
  shape_field "condition" (where_shape query_shape) (js_condition j) ≫= λ condition,
  Ok (JObj ([("table", JStr (js_table j)); ("type", JStr (join_type_text (js_type j)))]
            ++ opt_field "on" (λ on, JText [on.1; on.2]) (js_on j) ++ condition
            ++ match js_connection j with
               | Some c => if str_empty c then [] else [("connection", JStr c)]
               | None => []
               end)).

Definition top_n_shape (t : TopNSpec) : json :=
  JObj [("partition_by", JText (tn_partition_by t)); ("order_by", JList (map order_dump (tn_order_by t)));
        ("n", JInt (tn_n t)); ("function", JStr (rank_text (tn_fn t)))].

Definition set_op_shape {Q} (query_shape : Q → result json) (so : SetOpSpec_ Q) : result json :=
  map_result query_shape (so_arms so) ≫= λ arms,
  Ok (JObj [("op", JStr (set_op_text (so_op so))); ("all", JBool (so_all so)); ("arms", JList arms)]).

Definition cte_shape {Q} (query_shape : Q → result json) (c : CteSpec_ Q) : result json :=
  query_shape (cte_query c) ≫= λ j, Ok (JObj [("name", JStr (cte_name c)); ("query", j)]).

(** [normalize_query_shape]. *)
Fixpoint normalize_query_shape (q : StructuredQuery) : result json :=
  map_result (select_shape normalize_query_shape) (select q) ≫= λ items,
  map_result (join_shape normalize_query_shape) (joins q) ≫= λ js,
  shape_field "where" (where_shape normalize_query_shape) (where_ q) ≫= λ where_field,
  shape_field "having" (where_shape normalize_query_shape) (having q) ≫= λ having_field,
  shape_field "set_op" (set_op_shape normalize_query_shape) (set_op q) ≫= λ set_op_field,
  match ctes q with
  | [] => Ok []
  | specs => map_result (cte_shape normalize_query_shape) specs ≫= λ blocks, Ok [("ctes", JList blocks)]
  end ≫= λ ctes_field,
  Ok (JObj ([("from", JStr (from_table q)); ("select", JList items); ("joins", JList js);
             ("group_by", JText (group_by q)); ("order_by", JList (map order_dump (order_by q)));
             ("offset", JInt (offset q))]
            ++ where_field ++ having_field
            ++ opt_field "requested_limit" JInt (limit q) ++ opt_field "top_n" top_n_shape (top_n q)
            ++ set_op_field
            ++ match correlate q with [] => [] | l => [("correlate", JText l)] end
            ++ ctes_field)).

(** * Redaction *)

(** The query with every operand the caller supplied as data erased: literals,
    predicate values, function arguments, delimiters, shifts, distances, frame
    offsets, the intent. What stays are identifiers, operators and structure,
    and the few numbers the shape keeps on purpose: limit, offset, [top_n]'s [n]
    and a percentile's fraction. *)
Definition redact_call (c : ScalarFunctionCall) : ScalarFunctionCall :=
  MkScalarFunctionCall (sfc_fn c)
    (map (λ a, match a with ColArg col => ColArg col | LiteralArg _ => LiteralArg (LInt 0) end) (sfc_args c)).

Definition redact_bound (b : WindowBound) : WindowBound := MkWindowBound (wb_bound b) None.

Definition redact_over (over : WindowSpec) : WindowSpec :=
  MkWindowSpec (ws_partition_by over) (ws_order_by over)
    ((λ f, MkWindowFrame (wf_mode f) (redact_bound (wf_start f)) (redact_bound (wf_end f))) <$> ws_frame over).

Definition redact_predicate_with {E Q} (re : E → E) (rq : Q → Q) (p : Predicate E Q) : Predicate E Q :=
  MkPredicate (pr_col p) (re <$> pr_expr p) (redact_call <$> pr_col_fn p) (pr_op p) JNull
    (pr_value_col p) (re <$> pr_value_expr p) (rq <$> pr_value_subquery p) (rq <$> pr_exists_subquery p).

Fixpoint redact_expression {Q} (rq : Q → Q) (e : Expression_ Q) : Expression_ Q :=
  match e with
  | ColumnExpr col => ColumnExpr col
  | LiteralExpr _ => LiteralExpr (LInt 0)
  | BinaryOpExpr op l r => BinaryOpExpr op (redact_expression rq l) (redact_expression rq r)
  | FunctionExpr fn args => FunctionExpr fn (map (redact_expression rq) args)
  | CastExpr x to => CastExpr (redact_expression rq x) to
  | CaseExpr when else_ =>
      CaseExpr (map (λ b, MkCaseWhen
                   (where_map (redact_predicate_with (redact_expression rq) rq) (cw_when b))
                   (redact_expression rq (cw_then b))) when)
        (redact_expression rq <$> else_)
  | ExtractExpr x part => ExtractExpr (redact_expression rq x) part
  | NowExpr k => NowExpr k
  | DateAddExpr x unit _ => DateAddExpr (redact_expression rq x) unit 0
  | WindowExpr fn over arg _ _ => WindowExpr fn (redact_over over) (redact_expression rq <$> arg) None None
  end.

Definition redact_where {Q} (rq : Q → Q) (w : Where_ Q) : Where_ Q :=
  where_map (redact_predicate_with (redact_expression rq) rq) w.

Definition redact_branch {Q} (rq : Q → Q) (b : Branch_ Q) : Branch_ Q :=
  MkCaseWhen (redact_where rq (cw_when b)) (redact_expression rq (cw_then b)).

Definition redact_item {Q} (rq : Q → Q) (item : SelectItem_ Q) : SelectItem_ Q :=
  match item with
  | ColumnItem ref => ColumnItem ref
  | AggregateSelectItem fn col arg d alias =>
      AggregateSelectItem fn col (redact_expression rq <$> arg) d alias
  | DateBucketSelectItem col g alias => DateBucketSelectItem col g alias
  | StringAggSelectItem col _ alias => StringAggSelectItem col EmptyString alias
  | ArrayAggSelectItem col alias => ArrayAggSelectItem col alias
  | PercentileContSelectItem col f alias => PercentileContSelectItem col f alias
  | ScalarFunctionSelectItem call alias => ScalarFunctionSelectItem (redact_call call) alias
  | CaseSelectItem when else_ alias =>
      CaseSelectItem (map (redact_branch rq) when) (redact_expression rq <$> else_) alias
  | ExpressionSelectItem e alias => ExpressionSelectItem (redact_expression rq e) alias
  | WindowSelectItem fn over arg _ _ alias =>
      WindowSelectItem fn (redact_over over) (redact_expression rq <$> arg) None None alias
  end.

Definition redact_join {Q} (rq : Q → Q) (j : JoinSpec_ Q) : JoinSpec_ Q :=
  MkJoinSpec (js_table j) (js_alias j) (js_type j) (js_on j) (js_extra_on j)
    (redact_where rq <$> js_condition j) (js_connection j).

Definition redact_set_op {Q} (rq : Q → Q) (so : SetOpSpec_ Q) : SetOpSpec_ Q :=
  MkSetOpSpec (so_op so) (so_all so) (map rq (so_arms so)).

Definition redact_cte {Q} (rq : Q → Q) (c : CteSpec_ Q) : CteSpec_ Q :=
  MkCteSpec (cte_name c) (rq (cte_query c)).

Fixpoint redact (q : StructuredQuery) : StructuredQuery :=
  MkStructuredQuery (from_table q) (from_alias q) (map (redact_item redact) (select q)) (distinct q)
    (map (redact_join redact) (joins q)) (redact_where redact <$> where_ q) (group_by q)
    (redact_where redact <$> having q) (order_by q) (limit q) (offset q) (top_n q)
    (redact_set_op redact <$> set_op q) (correlate q) (map (redact_cte redact) (ctes q)) None (purpose q).

(** ** References survive redaction *)

Lemma redact_call_refs c : scalar_fn_column_refs (redact_call c) = scalar_fn_column_refs c.
Proof.
  unfold scalar_fn_column_refs, redact_call; cbn. induction (sfc_args c) as [|[]]; cbn; [done|..];
    rewrite ?IHl; done.
Qed.

Lemma redact_over_refs over : window_spec_refs (redact_over over) = window_spec_refs over.
Proof. done. Qed.

Lemma where_flat_map_map {P R A} (f : R → list A) (g : P → R) w :
  where_flat_map f (where_map g w) = where_flat_map (λ p, f (g p)) w.
Proof.
  induction w as [w IH] using where_ind_children. destruct w as [p|a o n]; [done|]. cbn.
  assert (Hl : ∀ l, (∀ c, c ∈ l → c ∈ where_children (WhereGroup a o n)) →
    flat_map (where_flat_map f) (map (where_map g) l) = flat_map (where_flat_map (λ p, f (g p))) l).
  { intros l Hl. induction l as [|c l IHl]; [done|]. cbn. rewrite IH by (apply Hl; by left).
    f_equal. apply IHl. intros d Hd. apply Hl. by right. }
  destruct n as [c|]; cbn; [apply IH; cbn; set_solver|].
  destruct a as [[|c cs]|]; cbn; [|rewrite IH by (cbn; set_solver); f_equal; apply Hl; cbn; set_solver|];
    (destruct o as [l|]; cbn; [apply Hl; cbn; set_solver|done]).
Qed.

Lemma redact_direct_refs {E Q} (re : E → E) (rq : Q → Q) p :
  predicate_direct_column_refs (redact_predicate_with re rq p) = predicate_direct_column_refs p.
Proof.
  unfold predicate_direct_column_refs; cbn. f_equal. destruct (pr_col p); [done|].
  destruct (pr_col_fn p) as [c|]; cbn; [apply redact_call_refs|done].
Qed.

(** The refs of what a walk reports for a predicate's expressions. *)
Definition walk_refs {Q} (d : nat) (l : list (Expression_ Q)) : list string :=
  flat_map part_column_refs (flat_map (iter_expression_parts d) l).

Definition branch_parts {Q} (d : nat) (b : Branch_ Q) : list (ExpressionPart Q) :=
  MkPart d (PCondition (cw_when b))
  :: where_flat_map (λ p,
       option_flat_map (iter_expression_parts (S d)) (pr_expr p)
       ++ option_flat_map (iter_expression_parts (S d)) (pr_value_expr p)) (cw_when b)
  ++ iter_expression_parts (S d) (cw_then b).

Lemma where_predicates_map {P R} (g : P → R) w :
  iter_where_predicates (where_map g w) = map g (iter_where_predicates w).
Proof.
  unfold iter_where_predicates. rewrite where_flat_map_map. rewrite where_flat_map_spec.
  unfold iter_where_predicates. induction (where_flat_map _ w) as [|p l IH]; [done|]. cbn. by rewrite IH.
Qed.

Lemma flat_map_map {A B C} (f : B → list C) (g : A → B) l : flat_map f (map g l) = flat_map (λ x, f (g x)) l.
Proof. induction l as [|x l IH]; [done|]. cbn. by rewrite IH. Qed.

Section references.
Context {Q : Type} (rq : Q → Q) (d d' : nat).
Abbreviation same_refs e :=
  (flat_map part_column_refs (iter_expression_parts (S d) (redact_expression rq e))
   = flat_map part_column_refs (iter_expression_parts (S d') e)).

Lemma walk_refs_option o :
  (∀ c, o = Some c → same_refs c) →
  flat_map part_column_refs (option_flat_map (iter_expression_parts (S d)) (redact_expression rq <$> o))
  = flat_map part_column_refs (option_flat_map (iter_expression_parts (S d')) o).
Proof. destruct o as [c|]; cbn; [auto|done]. Qed.

Lemma walk_refs_list l :
  (∀ c, c ∈ l → same_refs c) →
  flat_map part_column_refs (flat_map (iter_expression_parts (S d)) (map (redact_expression rq) l))
  = flat_map part_column_refs (flat_map (iter_expression_parts (S d')) l).
Proof.
  intros Hl. rewrite flat_map_map, !flat_map_flat_map. by apply flat_map_ext_elem.
Qed.

Lemma redact_branch_refs b :
  (∀ c, c ∈ branch_expressions b → same_refs c) →
  flat_map part_column_refs (branch_parts d (redact_branch rq b))
  = flat_map part_column_refs (branch_parts d' b).
Proof.
  intros Hb. unfold branch_parts. cbn [flat_map]. rewrite !flat_map_app. f_equal; [|f_equal].
  - change (flat_map predicate_direct_column_refs (iter_where_predicates (redact_where rq (cw_when b)))
      = flat_map predicate_direct_column_refs (iter_where_predicates (cw_when b))).
    unfold redact_where. rewrite where_predicates_map, flat_map_map.
    apply flat_map_ext_elem. intros p _. apply redact_direct_refs.
  - rewrite !iter_expression_parts_branch. cbn [cw_when redact_branch]. unfold redact_where.
    rewrite where_predicates_map, flat_map_map.
    transitivity (flat_map part_column_refs (flat_map (iter_expression_parts (S d))
      (map (redact_expression rq) (flat_map predicate_expressions (iter_where_predicates (cw_when b)))))).
    + f_equal. f_equal. induction (iter_where_predicates (cw_when b)) as [|p l IH]; [done|]. cbn.
      rewrite map_app, IH. f_equal. unfold predicate_expressions; cbn. rewrite map_app.
      by destruct (pr_expr p), (pr_value_expr p).
    + apply walk_refs_list. intros c Hc. apply Hb. unfold branch_expressions. set_solver.
  - apply Hb. unfold branch_expressions. set_solver.
Qed.
End references.

Lemma redact_expression_refs_at {Q} (rq : Q → Q) (e : Expression_ Q) : ∀ d d',
  flat_map part_column_refs (iter_expression_parts d (redact_expression rq e))
  = flat_map part_column_refs (iter_expression_parts d' e).
Proof.
  induction e as [e IH] using expression_ind_children. intros d d'.
  assert (IH' : ∀ c, c ∈ expression_children e →
    flat_map part_column_refs (iter_expression_parts (S d) (redact_expression rq c))
    = flat_map part_column_refs (iter_expression_parts (S d') c)) by auto.
  clear IH. destruct e as [| |op l r|fn args|x to|when else_|x part|k|x unit amount|fn over arg off b];
    cbn [redact_expression iter_expression_parts flat_map part_value part_column_refs app]; try done.
  - rewrite !flat_map_app. f_equal; apply IH'; cbn; set_solver.
  - by apply walk_refs_list.
  - apply IH'. cbn; set_solver.
  - change (flat_map part_column_refs (flat_map (branch_parts d) (map (redact_branch rq) when)
        ++ option_flat_map (iter_expression_parts (S d)) (redact_expression rq <$> else_))
      = flat_map part_column_refs (flat_map (branch_parts d') when
        ++ option_flat_map (iter_expression_parts (S d')) else_)).
    rewrite !flat_map_app. f_equal.
    + rewrite flat_map_map, !flat_map_flat_map. apply flat_map_ext_elem. intros b Hb.
      apply redact_branch_refs. intros c Hc. apply IH'. cbn. apply elem_of_app. left.
      apply elem_of_flat_map. by exists b.
    + apply walk_refs_option. intros c ->. apply IH'. cbn; set_solver.
  - apply IH'. cbn; set_solver.
  - apply IH'. cbn; set_solver.
  - f_equal. apply walk_refs_option. intros c ->. apply IH'. cbn; set_solver.
Qed.

Lemma redact_expression_refs {Q} (rq : Q → Q) (e : Expression_ Q) :
  expression_column_refs (redact_expression rq e) = expression_column_refs e.
Proof. apply redact_expression_refs_at. Qed.

Lemma redact_item_refs {Q} (rq : Q → Q) (item : SelectItem_ Q) :
  select_item_column_refs (redact_item rq item) = select_item_column_refs item.
Proof.
  destruct item as [ref|fn col [a|] d al|c g al|c dl al|c al|c f al|call al|when else_ al|e al|fn over [a|] o b al];
    cbn;
    rewrite ?redact_expression_refs, ?redact_call_refs; try done.
  - apply redact_call_refs.
  - exact (redact_expression_refs rq (CaseExpr when else_)).
Qed.

(** ** The shape reads nothing that redaction erases *)

(** These walk the nested tree as the definitions do, so they are transparent:
    the recursion over queries below goes through them. *)
Lemma map_result_map_eq {A B} (f : B → result json) (g : A → B) (h : A → result json) :
  (∀ x, f (g x) = h x) → ∀ l, map_result f (map g l) = map_result h l.
Proof.
  intros H. fix IH 1. intros [|x l]; [reflexivity|]. cbn. rewrite H. rewrite IH. reflexivity.
Defined.

Lemma shape_field_map_eq {A B} key (f : B → result json) (g : A → B) (h : A → result json) :
  (∀ x, f (g x) = h x) → ∀ o, shape_field key f (g <$> o) = shape_field key h o.
Proof. intros H [x|]; [|reflexivity]. cbn. rewrite H. reflexivity. Defined.

Lemma where_shape_map_eq {P R} (leaf : R → result json) (g : P → R) (leaf' : P → result json) :
  (∀ p, leaf (g p) = leaf' p) →
  ∀ w, where_shape_with leaf (where_map g w) = where_shape_with leaf' w.
Proof.
  intros H. fix IH 1.
  assert (IHl : ∀ l, map_result (where_shape_with leaf) (map (where_map g) l) = map_result (where_shape_with leaf') l).
  { fix IHl 1. intros [|c l]; [reflexivity|]. cbn. rewrite IH. rewrite IHl. reflexivity. }
  intros [p|a o n]; [apply H|].
  destruct a as [[|c cs]|]; cbn;
    [|rewrite IH; rewrite IHl; reflexivity|];
    (destruct o as [[|c cs]|]; cbn; [|rewrite IH; rewrite IHl; reflexivity|]);
    (destruct n as [c|]; cbn; [rewrite IH; reflexivity|reflexivity]).
Defined.

Lemma redact_call_shape c :
  JText (scalar_fn_column_refs (redact_call c)) = JText (scalar_fn_column_refs c).
Proof. by rewrite redact_call_refs. Qed.

Lemma predicate_shape_redact {E Q} (es : E → result json) (qs : Q → result json) (re : E → E) (rq : Q → Q)
  (p : Predicate E Q) :
  (∀ e, es (re e) = es e) → (∀ q, qs (rq q) = qs q) →
  predicate_shape_with es qs (redact_predicate_with re rq p) = predicate_shape_with es qs p.
Proof.
  intros He Hq. destruct p as [c x call op v vc y s t]. unfold predicate_shape_with, redact_predicate_with. cbn.
  destruct t as [q|]; cbn; [rewrite Hq; reflexivity|].
  rewrite (shape_field_map_eq _ es re es He). rewrite (shape_field_map_eq _ qs rq qs Hq).
  destruct c as [c|]; [reflexivity|]. destruct call as [call|];
    [pose proof (redact_call_shape call) as Hc; cbn in Hc |- *; rewrite Hc; reflexivity|]. cbn.
  destruct x as [x|]; cbn; [rewrite He; reflexivity|reflexivity].
Defined.

Lemma expression_shape_redact {Q} (qs : Q → result json) (rq : Q → Q) :
  (∀ q, qs (rq q) = qs q) → ∀ e, expression_shape qs (redact_expression rq e) = expression_shape qs e.
Proof.
  intros Hq. fix IH 1.
  intros [col|lit|op l r|fn args|x to|when else_|x part|k|x unit amount|fn over arg off b].
  - reflexivity.
  - reflexivity.
  - cbn. rewrite (IH l). rewrite (IH r). reflexivity.
  - cbn. rewrite (map_result_map_eq _ (redact_expression rq) _ IH args). reflexivity.
  - cbn. rewrite (IH x). reflexivity.
  - cbn.
    rewrite (shape_field_map_eq "else" _ (redact_expression rq) _ IH else_).
    pose proof (map_result_map_eq
      (λ b, where_shape_with (predicate_shape_with (expression_shape qs) qs) (cw_when b)) (redact_branch rq) _
      (λ b, where_shape_map_eq _ _ _ (λ p, predicate_shape_redact _ _ _ _ p IH Hq) (cw_when b)) when) as Hw.
    pose proof (map_result_map_eq (λ b, expression_shape qs (cw_then b)) (redact_branch rq) _
      (λ b, IH (cw_then b)) when) as Ht.
    unfold redact_branch, redact_where in Hw, Ht. rewrite Hw. rewrite Ht.
    rewrite length_map. reflexivity.
  - cbn. rewrite (IH x). reflexivity.
  - reflexivity.
  - cbn. rewrite (IH x). reflexivity.
  - cbn. rewrite (shape_field_map_eq "operand" _ (redact_expression rq) _ IH arg).
    destruct over as [pb ob [f|]]; reflexivity.
Defined.

Lemma where_shape_redact {Q} (qs : Q → result json) (rq : Q → Q) :
  (∀ q, qs (rq q) = qs q) → ∀ w, where_shape qs (redact_where rq w) = where_shape qs w.
Proof.
  intros Hq w. apply where_shape_map_eq. intros p.
  apply predicate_shape_redact; [intros e; apply expression_shape_redact; exact Hq|exact Hq].
Defined.

Lemma select_shape_redact {Q} (qs : Q → result json) (rq : Q → Q) :
  (∀ q, qs (rq q) = qs q) → ∀ item, select_shape qs (redact_item rq item) = select_shape qs item.
Proof.
  intros Hq item. pose proof (redact_item_refs rq item) as Hrefs. revert Hrefs.
  destruct item as [ref|fn col arg d al|c g al|c dl al|c al|c f al|call al|when else_ al|e al|fn over arg o b al];
    intros Hrefs; unfold select_shape; cbn [redact_item];
    cbn [redact_item] in Hrefs; try reflexivity.
  - destruct arg as [a|]; [|reflexivity]. cbn [fmap option_fmap option_map] in *. rewrite Hrefs.
    rewrite (expression_shape_redact qs rq Hq a). destruct a; reflexivity.
  - rewrite Hrefs. reflexivity.
  - rewrite Hrefs. rewrite length_map.
    rewrite (map_result_map_eq (λ b, where_shape qs (cw_when b)) (redact_branch rq) _
      (λ b, where_shape_redact qs rq Hq (cw_when b)) when). reflexivity.
  - rewrite Hrefs. rewrite (expression_shape_redact qs rq Hq e). reflexivity.
  - rewrite Hrefs. rewrite (shape_field_map_eq "expression" _ _ _ (expression_shape_redact qs rq Hq) arg).
    destruct over as [pb ob [f|]]; reflexivity.
Defined.

Lemma join_shape_redact {Q} (qs : Q → result json) (rq : Q → Q) :
  (∀ q, qs (rq q) = qs q) → ∀ j, join_shape qs (redact_join rq j) = join_shape qs j.
Proof.
  intros Hq j. unfold join_shape, redact_join. cbn.
  rewrite (shape_field_map_eq "condition" _ _ _ (where_shape_redact qs rq Hq) (js_condition j)). reflexivity.
Defined.

Lemma set_op_shape_redact {Q} (qs : Q → result json) (rq : Q → Q) :
  (∀ q, qs (rq q) = qs q) → ∀ so, set_op_shape qs (redact_set_op rq so) = set_op_shape qs so.
Proof.
  intros Hq so. unfold set_op_shape, redact_set_op. cbn.
  rewrite (map_result_map_eq _ rq _ Hq (so_arms so)). reflexivity.
Defined.

Lemma cte_shape_redact {Q} (qs : Q → result json) (rq : Q → Q) :
  (∀ q, qs (rq q) = qs q) → ∀ c, cte_shape qs (redact_cte rq c) = cte_shape qs c.
Proof. intros Hq c. unfold cte_shape. cbn. rewrite Hq. reflexivity. Defined.

Lemma redact_shape : ∀ q, normalize_query_shape (redact q) = normalize_query_shape q.
Proof.
  fix IH 1. intros [from alias items dist js w gb hv ob lim off tn so cor cs intent purp]. cbn.
  rewrite (map_result_map_eq _ _ _ (select_shape_redact _ redact IH) items).
  rewrite (map_result_map_eq _ _ _ (join_shape_redact _ redact IH) js).
  rewrite (shape_field_map_eq "where" _ _ _ (where_shape_redact _ redact IH) w).
  rewrite (shape_field_map_eq "having" _ _ _ (where_shape_redact _ redact IH) hv).
  rewrite (shape_field_map_eq "set_op" _ _ _ (set_op_shape_redact _ redact IH) so).
  pose proof (map_result_map_eq _ _ _ (cte_shape_redact _ redact IH) cs) as Hctes.
  destruct cs as [|c cs]; [reflexivity|]. cbn in Hctes |- *. rewrite Hctes. reflexivity.
Qed.

(** The persisted shape of a query is redaction-safe: it is the shape of the
    query with every literal, predicate value, function argument, delimiter,
    date shift, frame offset and the caller's intent erased, so nothing of them
    is in it, at any depth of nesting. *)
Theorem shape_is_redacted q : normalize_query_shape (redact q) = normalize_query_shape q.
Proof. apply redact_shape. Qed.
