(* ===== verification/Quota.v ===== *)
(** The per-principal query quota: [execution/quota.py] and its cross-replica
    sibling [execution/redis_quota.py], as two implementations of one interface.
    Both are shown to take the decisions of a limiter that never forgets an
    admission, and that limiter is shown to keep the cap in every position of
    the rolling window. *)
From Stdlib Require Import Sorted.
From stdpp Require Import pretty.
From S2P Require Export Policy Redis.
Local Open Scope Z_scope.

(** [(connection_id, principal_subject)]. *)
Abbreviation QuotaKey := (string * string)%type.

Record QuotaCaps := MkQuotaCaps {
  qc_max_requests : option Z;
  qc_max_response_bytes : option Z;
  qc_window_seconds : Z;
}.

(** [_WindowEntry], with the name that tells one entry object from another. *)
Record WindowEntry := MkWindowEntry { we_id : string; we_ts : Z; we_bytes : Z }.

Definition set_bytes (id : string) (n : Z) (e : WindowEntry) : WindowEntry :=
  if bool_decide (we_id e = id) then MkWindowEntry (we_id e) (we_ts e) n else e.

(** [QuotaReservation]: the handle of the backend that made it. An in-process
    entry object is addressed by its window and its name; the empty reservation
    is the one a Redis outage hands out. *)
Inductive QuotaReservation :=
| ReservedEntry (key : QuotaKey) (id : string)
| ReservedMember (redis_key redis_member : string)
| Unreserved.

(** The checks between the prune and the admission, which both backends make of
    a count, a byte total and the oldest entry. *)
Definition quota_decision (caps : QuotaCaps) (now : Z) (count : Z) (total : Z) (first : option Z) :
  result unit :=
  let retry := retry_after (qc_window_seconds caps) now first in
  raise_if (match qc_max_requests caps with Some m => m <=? count | None => false end)
    (QuotaExceededError "request quota exceeded" "requests" retry) ≫= λ _,
  raise_if (match qc_max_response_bytes caps with Some m => m <=? total | None => false end)
    (QuotaExceededError "response-byte quota exceeded" "bytes" retry).

Definition sum_Z (l : list Z) : Z := foldr Z.add 0 l.

Definition window_decision (caps : QuotaCaps) (now : Z) (entries : list WindowEntry) : result unit :=
  quota_decision caps now (Z.of_nat (length entries)) (sum_Z (we_bytes <$> entries))
    (oldest we_ts entries).

(** [QuotaLimiter], the protocol. [fresh] names the entry or the member an
    admission makes. *)
Class QuotaLimiter (S : Type) := {
  reserve : S → QuotaKey → QuotaCaps → Z → string → S * result QuotaReservation;
  record_bytes : S → QuotaReservation → Z → Z → S;
}.

(** * In process *)

Abbreviation quota_windows := (gmap QuotaKey (list WindowEntry)).

Record InProcessQuotaLimiter := MkInProcessQuota { ip_windows : quota_windows }.

Definition in_process_reserve (st : InProcessQuotaLimiter) (key : QuotaKey) (caps : QuotaCaps)
  (now : Z) (fresh : string) : InProcessQuotaLimiter * result QuotaReservation :=
  let '(entries, w) := prune we_ts (ip_windows st) key (cutoff (qc_window_seconds caps) now) in
  match window_decision caps now entries with
  | Ok _ => (MkInProcessQuota (<[key := entries_of w key ++ [MkWindowEntry fresh now 0]]> w),
             Ok (ReservedEntry key fresh))
  | Raise e => (MkInProcessQuota w, Raise e)
  end.

Definition in_process_record_bytes (st : InProcessQuotaLimiter) (r : QuotaReservation) (n : Z) :
  InProcessQuotaLimiter :=
  match r with
  | ReservedEntry key id =>
      MkInProcessQuota (alter (map (set_bytes id (Z.max 0 n))) key (ip_windows st))
  | _ => st
  end.

#[export] Instance in_process_quota : QuotaLimiter InProcessQuotaLimiter := {|
  reserve := in_process_reserve;
  record_bytes st r n _ := in_process_record_bytes st r n;
|}.

(** * In Redis *)

(** [_keys]: the sorted set of a key's members and the hash of their bytes. *)
Definition quota_zkey (key : QuotaKey) : string := "qg:quota:" +:+ key.1 +:+ ":" +:+ key.2.
Definition quota_hkey (key : QuotaKey) : string := quota_zkey key +:+ ":bytes".

(** [s[:-len(":bytes")]]. *)
Definition drop_bytes_suffix (s : string) : string := String.substring 0 (String.length s - 6) s.

(** The server, and whether it can be reached. *)
Record RedisQuotaLimiter (DB : Type) := MkRedisQuota { rq_db : DB; rq_reachable : bool }.
Arguments MkRedisQuota {DB} _ _.
Arguments rq_db {DB} _.
Arguments rq_reachable {DB} _.

Section redis.
Context {DB : Type} `{RS : !RedisServer DB}.

(** [_RESERVE_SCRIPT], as its three parts: the prune, the reads the caps are
    checked on, and the admission. *)
Definition quota_prune_script (zkey hkey : string) (c now : Z) : script_on DB unit :=
  call now (ZRangeByScore zkey c) ≫= λ aged,
  script_each (λ m, call now (HDel hkey m)) aged ≫= λ _, call now (ZRemRangeByScore zkey c).

(** [oldest[2] and tonumber(oldest[2])]: tables are numbered from one. *)
Definition oldest_ts (reply : list lua_value) : option Z :=
  match reply !! 1%nat with Some (LuaNumber z) => Some z | _ => None end.

Definition quota_read_script (zkey hkey : string) (caps : QuotaCaps) (now : Z) : script_on DB (Z * Z * option Z) :=
  call now (ZFirst zkey) ≫= λ reply,
  let first := oldest_ts (with_scores (lua_nests (DB := DB)) reply) in
  call now (ZCard zkey) ≫= λ count,
  match qc_max_response_bytes caps with
  | Some _ => call now (HVals hkey) ≫= λ vs, mret (count, sum_Z vs, first)
  | None => mret (count, 0, first)
  end.

Definition quota_admit_script (zkey hkey : string) (window now : Z) (member : string) : script_on DB unit :=
  call now (ZAdd zkey now member) ≫= λ _,
  call now (HSet hkey member 0) ≫= λ _,
  call now (Expire zkey window) ≫= λ _, call now (Expire hkey window).

Definition quota_reserve_script (zkey hkey : string) (caps : QuotaCaps) (now : Z) (member : string) :
  script_on DB (result unit) :=
  quota_prune_script zkey hkey (cutoff (qc_window_seconds caps) now) now ≫= λ _,
  quota_read_script zkey hkey caps now ≫= λ '(count, total, first),
  match quota_decision caps now count total first with
  | Raise e => mret (Raise e)
  | Ok _ => quota_admit_script zkey hkey (qc_window_seconds caps) now member ≫= λ _, mret (Ok tt)
  end.

(** [_RECORD_BYTES_SCRIPT]. *)
Definition quota_record_script (zkey hkey member : string) (n now : Z) : script_on DB unit :=
  call now (ZScore zkey member) ≫= λ score,
  match score with Some _ => call now (HSet hkey member n) | None => mret tt end.

(** [RedisQuotaLimiter.reserve]: an outage or a script that stops on an error
    admits, with an empty reservation. *)
Definition redis_reserve (st : RedisQuotaLimiter DB) (key : QuotaKey) (caps : QuotaCaps) (now : Z)
  (fresh : string) : RedisQuotaLimiter DB * result QuotaReservation :=
  if rq_reachable st then
    let '(db, reply) :=
      quota_reserve_script (quota_zkey key) (quota_hkey key) caps now fresh (rq_db st) in
    (MkRedisQuota db true,
     match reply with
     | None => Ok Unreserved
     | Some (Raise e) => Raise e
     | Some (Ok _) => Ok (ReservedMember (quota_hkey key) fresh)
     end)
  else (st, Ok Unreserved).

Definition redis_record_bytes (st : RedisQuotaLimiter DB) (r : QuotaReservation) (n now : Z) :
  RedisQuotaLimiter DB :=
  match r with
  | ReservedMember hkey member =>
      if rq_reachable st then
        MkRedisQuota (quota_record_script (drop_bytes_suffix hkey) hkey member (Z.max 0 n) now (rq_db st)).1 true
      else st
  | _ => st
  end.

#[export] Instance redis_quota : QuotaLimiter (RedisQuotaLimiter DB) := {|
  reserve := redis_reserve; record_bytes := redis_record_bytes;
|}.
End redis.

(** * The policy side *)

Definition resolve_query_quota (p : Policy) : option QuotaCaps :=
  if query_quota_enabled p
  then Some (MkQuotaCaps (max_requests_per_window (execution p))
               (max_response_bytes_per_window (execution p)) (quota_window_seconds (execution p)))
  else None.

(** [enforce_query_quota] over the active limiter. *)
Definition enforce_query_quota `{QL : QuotaLimiter L} (st : L) (p : Policy) (connection_id : string)
  (principal_subject : option string) (now : Z) (fresh : string) :
  L * result (option QuotaReservation) :=
  match resolve_query_quota p, principal_subject with
  | Some caps, Some subject =>
      let '(st, r) := reserve st (connection_id, subject) caps now fresh in (st, Some <$> r)
  | _, _ => (st, Ok None)
  end.

Definition record_query_quota_bytes `{QL : QuotaLimiter L} (st : L) (r : option QuotaReservation)
  (n now : Z) : L :=
  match r with Some r => record_bytes st r n now | None => st end.

(** * Runs *)

(** What callers do: reserve, or attribute bytes to the [i]-th admission. *)
Inductive quota_call :=
| Reserve (key : QuotaKey) (caps : QuotaCaps) (now : Z)
| RecordBytes (i : nat) (n now : Z).

(** A limiter in use: its state, the names drawn so far, the reservations
    handed out. *)
Record quota_use (L : Type) := MkUse {
  qu_limiter : L;
  qu_names : nat;
  qu_held : list QuotaReservation;
}.
Arguments MkUse {L} _ _ _.
Arguments qu_limiter {L} _.
Arguments qu_names {L} _.
Arguments qu_held {L} _.

Definition quota_step `{QL : QuotaLimiter L} (u : quota_use L) (c : quota_call) :
  quota_use L * option (result unit) :=
  match c with
  | Reserve key caps now =>
      let '(st, r) := reserve (qu_limiter u) key caps now (pretty (qu_names u)) in
      match r with
      | Ok h => (MkUse st (S (qu_names u)) (qu_held u ++ [h]), Some (Ok tt))
      | Raise e => (MkUse st (S (qu_names u)) (qu_held u), Some (Raise e))
      end
  | RecordBytes i n now =>
      (match qu_held u !! i with
       | Some h => MkUse (record_bytes (qu_limiter u) h n now) (qu_names u) (qu_held u)
       | None => u
       end, None)
  end.

Fixpoint quota_run `{QL : QuotaLimiter L} (u : quota_use L) (calls : list quota_call) :
  quota_use L * list (option (result unit)) :=
  match calls with
  | [] => (u, [])
  | c :: calls =>
      let '(u, o) := quota_step u c in
      let '(u, os) := quota_run u calls in (u, o :: os)
  end.

Definition fresh_use {L} (st : L) : quota_use L := MkUse st 0 [].

(** Readings never go back, and a key keeps its window length ([W key]). *)
Fixpoint calls_ok (W : QuotaKey → Z) (t : Z) (calls : list quota_call) : Prop :=
  match calls with
  | [] => True
  | Reserve key caps now :: calls =>
      t ≤ now ∧ qc_window_seconds caps = W key ∧ calls_ok W now calls
  | RecordBytes _ _ now :: calls => t ≤ now ∧ calls_ok W now calls
  end.

(** When the [key]'s admissions of a run were, in order. *)
Fixpoint admitted (key : QuotaKey) (calls : list quota_call) (os : list (option (result unit))) : list Z :=
  match calls, os with
  | Reserve k _ now :: calls, Some (Ok _) :: os =>
      if bool_decide (k = key) then now :: admitted key calls os else admitted key calls os
  | _ :: calls, _ :: os => admitted key calls os
  | _, _ => []
  end.

(** * The reference: a limiter that keeps every admission *)

Record QuotaLog := MkQuotaLog { ql_log : quota_windows }.

#[export] Instance log_quota : QuotaLimiter QuotaLog := {|
  reserve st key caps now fresh :=
    let log := entries_of (ql_log st) key in
    match window_decision caps now (in_window we_ts (cutoff (qc_window_seconds caps) now) log) with
    | Ok _ => (MkQuotaLog (<[key := log ++ [MkWindowEntry fresh now 0]]> (ql_log st)),
               Ok (ReservedEntry key fresh))
    | Raise e => (st, Raise e)
    end;
  record_bytes st r n _ :=
    match r with
    | ReservedEntry key id => MkQuotaLog (alter (map (set_bytes id (Z.max 0 n))) key (ql_log st))
    | _ => st
    end;
|}.

(** * Simulation *)

Section simulation.
Context {L1 L2 : Type} {QL1 : QuotaLimiter L1} {QL2 : QuotaLimiter L2}.
Context (W : QuotaKey → Z) (used : QuotaKey → Prop).
Context (R : nat → Z → L1 → L2 → Prop) (Rh : QuotaReservation → QuotaReservation → Prop).

Definition outcomes_match (r1 r2 : result QuotaReservation) : Prop :=
  match r1, r2 with Ok h1, Ok h2 => Rh h1 h2 | Raise e1, Raise e2 => e1 = e2 | _, _ => False end.

Hypothesis reserve_sim : ∀ n t s1 s2 key caps now,
  R n t s1 s2 → t ≤ now → used key → qc_window_seconds caps = W key →
  R (S n) now (reserve s1 key caps now (pretty n)).1 (reserve s2 key caps now (pretty n)).1
  ∧ outcomes_match (reserve s1 key caps now (pretty n)).2 (reserve s2 key caps now (pretty n)).2.

Hypothesis record_sim : ∀ n t s1 s2 h1 h2 b now,
  R n t s1 s2 → t ≤ now → Rh h1 h2 → R n now (record_bytes s1 h1 b now) (record_bytes s2 h2 b now).

Hypothesis later_sim : ∀ n t s1 s2 now, R n t s1 s2 → t ≤ now → R n now s1 s2.

Definition calls_use (calls : list quota_call) : Prop :=
  Forall (λ c, match c with Reserve key _ _ => used key | RecordBytes _ _ _ => True end) calls.

Lemma run_simulates calls : ∀ t n s1 s2 held1 held2,
  calls_ok W t calls → calls_use calls → R n t s1 s2 → Forall2 Rh held1 held2 →
  (quota_run (MkUse s1 n held1) calls).2 = (quota_run (MkUse s2 n held2) calls).2
  ∧ ∃ t', R (qu_names (quota_run (MkUse s1 n held1) calls).1) t'
           (qu_limiter (quota_run (MkUse s1 n held1) calls).1)
           (qu_limiter (quota_run (MkUse s2 n held2) calls).1).
Proof.
  induction calls as [|[key caps now|i b now] calls IH]; intros t n s1 s2 held1 held2 Hok Hu HR Hh.
  - split; [done|by exists t].
  - destruct Hok as (Ht & HW & Hok). apply Forall_cons in Hu as [Hk Hu].
    destruct (reserve_sim n t s1 s2 key caps now HR Ht Hk HW) as [HR' Hm]. cbn.
    destruct (reserve s1 key caps now (pretty n)) as [s1' r1], (reserve s2 key caps now (pretty n)) as [s2' r2].
    cbn in *. destruct r1 as [h1|e1], r2 as [h2|e2]; try done; cbn in Hm.
    + assert (Hh' : Forall2 Rh (held1 ++ [h1]) (held2 ++ [h2])) by (apply Forall2_app; [done|by constructor]).
      specialize (IH now (S n) s1' s2' _ _ Hok Hu HR' Hh').
      do 2 destruct (quota_run _ calls) as [? ?]. cbn in *. destruct IH as [-> ?]. done.
    + subst e2. specialize (IH now (S n) s1' s2' _ _ Hok Hu HR' Hh).
      do 2 destruct (quota_run _ calls) as [? ?]. cbn in *. destruct IH as [-> ?]. done.
  - destruct Hok as (Ht & Hok). apply Forall_cons in Hu as [_ Hu]. cbn.
    destruct (held1 !! i) as [h1|] eqn:H1.
    + destruct (Forall2_lookup_l _ _ _ _ _ Hh H1) as (h2 & -> & Hr).
      specialize (IH now n _ _ _ _ Hok Hu (record_sim n t s1 s2 h1 h2 b now HR Ht Hr) Hh).
      do 2 destruct (quota_run _ calls) as [? ?]. cbn in *. destruct IH as [-> ?]. done.
    + assert (held2 !! i = None) as ->.
      { apply lookup_ge_None. rewrite <- (Forall2_length _ _ _ Hh). by apply lookup_ge_None. }
      specialize (IH now n _ _ _ _ Hok Hu (later_sim n t s1 s2 now HR Ht) Hh).
      do 2 destruct (quota_run _ calls) as [? ?]. cbn in *. destruct IH as [-> ?]. done.
Qed.
End simulation.

(** * The in-process limiter *)

Lemma entries_of_alter (key : QuotaKey) (id : string) (n : Z) (w : quota_windows) (k : QuotaKey) :
  entries_of (alter (map (set_bytes id n)) key w) k
  = if decide (key = k) then map (set_bytes id n) (entries_of w k) else entries_of w k.
Proof.
  unfold entries_of. destruct (decide _) as [->|]; [|by rewrite lookup_alter_ne].
  rewrite lookup_alter_eq. by destruct (w !! k).
Qed.

Lemma set_bytes_ts id n e : we_ts (set_bytes id n e) = we_ts e.
Proof. unfold set_bytes. by case_bool_decide. Qed.

Lemma set_bytes_id id n e : we_id (set_bytes id n e) = we_id e.
Proof. unfold set_bytes. by case_bool_decide. Qed.

Lemma in_window_set_bytes c id n l :
  in_window we_ts c (map (set_bytes id n) l) = map (set_bytes id n) (in_window we_ts c l).
Proof.
  unfold in_window. induction l as [|e l IH]; [done|]. cbn [map].
  rewrite !filter_cons, set_bytes_ts, IH. by destruct (decide _).
Qed.

Lemma before_set_bytes t id n l :
  Forall (λ e, we_ts e ≤ t) l → Forall (λ e, we_ts e ≤ t) (map (set_bytes id n) l).
Proof.
  intros H. apply Forall_map. eapply Forall_impl; [exact H|]. intros e. cbn. by rewrite set_bytes_ts.
Qed.

Lemma before_later t t' (l : list WindowEntry) :
  t ≤ t' → Forall (λ e, we_ts e ≤ t) l → Forall (λ e, we_ts e ≤ t') l.
Proof. intros Ht H. eapply Forall_impl; [exact H|]. cbn. lia. Qed.

Section in_process.
Context (W : QuotaKey → Z) (W_positive : ∀ key, 0 < W key).

(** Each window is the log's, pruned at some past cutoff. *)
Definition ip_rel (t : Z) (log : QuotaLog) (st : InProcessQuotaLimiter) : Prop :=
  ∀ key, Forall (λ e, we_ts e ≤ t) (entries_of (ql_log log) key)
    ∧ ∃ c, c ≤ cutoff (W key) t
        ∧ entries_of (ip_windows st) key = in_window we_ts c (entries_of (ql_log log) key).

Lemma ip_later t log st now : ip_rel t log st → t ≤ now → ip_rel now log st.
Proof.
  intros HR Ht key. destruct (HR key) as (Hb & c & Hc & He). split; [by eapply before_later|].
  exists c. split; [unfold cutoff in *; lia|done].
Qed.

Lemma ip_record_sim t log st h b now :
  ip_rel t log st → t ≤ now → ip_rel now (record_bytes log h b now) (record_bytes st h b now).
Proof.
  intros HR Ht. destruct h as [key id|hkey m|]; cbn; [|by eapply ip_later..].
  intros k. destruct (HR k) as (Hb & c & Hc & He). cbn. rewrite !entries_of_alter.
  assert (c ≤ cutoff (W k) now) by (unfold cutoff in *; lia).
  destruct (decide _) as [->|].
  - split; [by apply before_set_bytes, (before_later t)|]. exists c.
    by rewrite He, in_window_set_bytes.
  - split; [by eapply before_later|]. by exists c.
Qed.

Lemma ip_reserve_sim t log st key caps now fresh :
  ip_rel t log st → t ≤ now → qc_window_seconds caps = W key →
  ip_rel now (reserve log key caps now fresh).1 (reserve st key caps now fresh).1
  ∧ outcomes_match eq (reserve log key caps now fresh).2 (reserve st key caps now fresh).2.
Proof.
  intros HR Ht HW. cbn. unfold in_process_reserve, prune.
  destruct (HR key) as (Hb & c & Hc & He).
  assert (Hprune : in_window we_ts (cutoff (qc_window_seconds caps) now) (entries_of (ip_windows st) key)
    = in_window we_ts (cutoff (qc_window_seconds caps) now) (entries_of (ql_log log) key)).
  { rewrite He. apply in_window_in_window. rewrite HW. unfold cutoff in *. lia. }
  rewrite Hprune. set (entries := in_window we_ts _ (entries_of (ql_log log) key)).
  destruct (window_decision caps now entries) as [[]|e]; cbn; (split; [|done]); intros k; cbn.
  - rewrite !entries_of_insert, !entries_of_store. destruct (decide (key = k)) as [->|].
    + split.
      * apply Forall_app. split; [by eapply before_later|]. repeat constructor. cbn. lia.
      * exists (cutoff (W k) now). split; [done|].
        unfold in_window. rewrite filter_app. rewrite decide_True by done.
        subst entries. rewrite HW. f_equal. rewrite filter_cons_True; [done|]. cbn.
        unfold cutoff. specialize (W_positive k). unfold second. lia.
    + by apply (ip_later t).
  - rewrite entries_of_store. destruct (decide (key = k)) as [->|].
    + split; [by eapply before_later|]. exists (cutoff (W k) now). split; [done|].
      subst entries. by rewrite HW.
    + by apply (ip_later t).
Qed.

Lemma in_process_refines_log calls : ∀ t n log st held,
  calls_ok W t calls → ip_rel t log st →
  (quota_run (MkUse log n held) calls).2 = (quota_run (MkUse st n held) calls).2
  ∧ ∃ t', ip_rel t' (qu_limiter (quota_run (MkUse log n held) calls).1)
                    (qu_limiter (quota_run (MkUse st n held) calls).1).
Proof.
  intros t n log st held Hok HR.
  apply (run_simulates W (λ _, True) (λ _, ip_rel) eq) with (t := t); try done.
  - intros n' t' s1 s2 key caps now ??? HW. by apply (ip_reserve_sim t').
  - intros n' t' s1 s2 h1 h2 b now ?? <-. by apply (ip_record_sim t').
  - intros n' t' s1 s2 now ??. by apply (ip_later t').
  - apply Forall_true. by intros [].
Qed.

Lemma ip_rel_empty t : ip_rel t (MkQuotaLog ∅) (MkInProcessQuota ∅).
Proof. intros key. split; [constructor|]. by exists (cutoff (W key) t). Qed.
End in_process.

(** * What the reference keeps *)

Lemma quota_decision_requests caps now count total first m :
  qc_max_requests caps = Some m → quota_decision caps now count total first = Ok tt → count < m.
Proof.
  intros Hm. unfold quota_decision. rewrite Hm. intros [H _]%bind_ok_unit.
  apply raise_if_ok in H. by apply Z.leb_gt in H.
Qed.

(** The clock reading of a call. *)
Definition call_time (c : quota_call) : Z :=
  match c with Reserve _ _ now | RecordBytes _ _ now => now end.

Definition log_times (u : quota_use QuotaLog) (key : QuotaKey) : list Z :=
  we_ts <$> entries_of (ql_log (qu_limiter u)) key.

Lemma calls_ok_cons W t c calls :
  calls_ok W t (c :: calls) → calls_ok W t [c] ∧ calls_ok W (call_time c) calls.
Proof. destruct c; cbn; tauto. Qed.

Section rolling.
Context (W : QuotaKey → Z) (key : QuotaKey) (m : Z).

Lemma log_record_times log h b now k :
  we_ts <$> entries_of (ql_log (record_bytes log h b now)) k = we_ts <$> entries_of (ql_log log) k.
Proof.
  destruct h as [key' id|hkey member|]; cbn; [|done..]. rewrite entries_of_alter.
  destruct (decide _) as [->|]; [|done]. rewrite <- list_fmap_compose. apply list_fmap_ext.
  intros i e _. cbn. apply set_bytes_ts.
Qed.

(** One call appends the admission it makes to the log. *)
Lemma log_step_times u c :
  log_times (quota_step u c).1 key = log_times u key ++ admitted key [c] [(quota_step u c).2].
Proof.
  destruct u as [log n held], c as [k caps now|i b now]; unfold log_times.
  - cbn. destruct (window_decision caps now _) as [[]|e]; cbn; [|by rewrite app_nil_r].
    rewrite entries_of_insert. case_bool_decide as Hk.
    + subst k. rewrite decide_True by done. by rewrite fmap_app.
    + rewrite decide_False by done. by rewrite app_nil_r.
  - cbn [quota_step qu_held]. rewrite app_nil_r.
    destruct (held !! i) as [h|]; cbn [fst qu_limiter]; [by rewrite log_record_times|done].
Qed.

Lemma log_step_bounded u c t :
  calls_ok W t [c] → (∀ caps now, c = Reserve key caps now → qc_max_requests caps = Some m) →
  Forall (λ x, x ≤ t) (log_times u key) → bounded id (W key) m (log_times u key) →
  Forall (λ x, x ≤ call_time c) (log_times (quota_step u c).1 key)
  ∧ bounded id (W key) m (log_times (quota_step u c).1 key).
Proof.
  intros Hok Hcaps Hb Hbound. rewrite log_step_times.
  assert (Hb' : Forall (λ x, x ≤ call_time c) (log_times u key)).
  { assert (t ≤ call_time c) by (destruct c; apply Hok). eapply Forall_impl; [exact Hb|]. cbn. lia. }
  destruct u as [log n held], c as [k caps now|i b now]; [|cbn; by rewrite app_nil_r].
  cbn in *. destruct Hok as (Ht & HW & _).
  destruct (window_decision caps now _) as [[]|e] eqn:Hd; cbn; [|by rewrite app_nil_r].
  case_bool_decide as Hk; [subst k|by rewrite app_nil_r]. split.
  - apply Forall_app. split; [done|]. apply Forall_singleton. lia.
  - apply (bounded_record id _ _ _ [now] now); [exact Hbound|exact Hb'|by repeat constructor|].
    eapply quota_decision_requests in Hd; [|by eapply Hcaps].
    rewrite in_window_at in Hd by exact (proj1 (Forall_fmap _ _ _) Hb').
    unfold log_times. cbn. rewrite window_at_length_fmap, <- HW. lia.
Qed.

Lemma admitted_cons c calls o os :
  admitted key (c :: calls) (o :: os) = admitted key [c] [o] ++ admitted key calls os.
Proof.
  cbn. destruct c as [k caps now|]; [|done]. destruct o as [[|]|]; try done. by case_bool_decide.
Qed.

End rolling.

Lemma quota_run_app `{QL : QuotaLimiter L} (u : quota_use L) c1 c2 :
  quota_run u (c1 ++ c2)
  = ((quota_run (quota_run u c1).1 c2).1, (quota_run u c1).2 ++ (quota_run (quota_run u c1).1 c2).2).
Proof.
  revert u. induction c1 as [|c c1 IH]; intros u; cbn; [by destruct (quota_run u c2)|].
  destruct (quota_step u c) as [u' o]. rewrite IH.
  destruct (quota_run u' c1) as [u'' os]. cbn. done.
Qed.

Lemma quota_run_one `{QL : QuotaLimiter L} (u : quota_use L) c :
  (quota_run u [c]).2 = [(quota_step u c).2].
Proof. cbn. by destruct (quota_step u c). Qed.

Lemma quota_run_length `{QL : QuotaLimiter L} (u : quota_use L) calls :
  length (quota_run u calls).2 = length calls.
Proof.
  revert u. induction calls as [|c calls IH]; intros u; [done|]. cbn.
  destruct (quota_step u c) as [u' o]. specialize (IH u').
  destruct (quota_run u' calls). cbn in *. by rewrite IH.
Qed.

Definition end_time (t : Z) (calls : list quota_call) : Z := foldl (λ _ c, call_time c) t calls.

Lemma calls_ok_app W t c1 c2 :
  calls_ok W t (c1 ++ c2) → calls_ok W t c1 ∧ calls_ok W (end_time t c1) c2.
Proof.
  revert t. induction c1 as [|c c1 IH]; intros t Hok; [by split|].
  cbn [app] in Hok. apply calls_ok_cons in Hok as [Hc Hok]. destruct (IH _ Hok) as [H1 H2]. split; [|done].
  destruct c; cbn in *; tauto.
Qed.

Section reference.
Context (W : QuotaKey → Z) (key : QuotaKey) (m : Z).

(** What a run keeps of a key's log: no later than now, in order, bounded. *)
Record log_kept (t : Z) (u : quota_use QuotaLog) : Prop := {
  lk_past : Forall (λ x, x ≤ t) (log_times u key);
  lk_order : in_order id (log_times u key);
  lk_bounded : bounded id (W key) m (log_times u key);
}.

Lemma log_kept_empty t : 0 ≤ m → log_kept t (fresh_use (MkQuotaLog ∅)).
Proof.
  intros Hm. assert (Hnil : log_times (fresh_use (MkQuotaLog ∅)) key = []).
  { unfold log_times, entries_of. cbn. by rewrite lookup_empty. }
  split; rewrite Hnil; [constructor|constructor|by apply bounded_nil].
Qed.

Lemma log_kept_run calls : ∀ t u,
  calls_ok W t calls → (∀ caps now, Reserve key caps now ∈ calls → qc_max_requests caps = Some m) →
  log_kept t u → log_kept (end_time t calls) (quota_run u calls).1
    ∧ log_times (quota_run u calls).1 key = log_times u key ++ admitted key calls (quota_run u calls).2.
Proof.
  induction calls as [|c calls IH]; intros t u Hok Hcaps [Hp Ho Hb]; [cbn; by rewrite app_nil_r|].
  apply calls_ok_cons in Hok as [Hc Hok].
  destruct (log_step_bounded W key m u c t Hc) as [Hp' Hb']; [|done..|].
  { intros caps now ->. eapply Hcaps. by left. }
  cbn [quota_run end_time foldl]. pose proof (log_step_times key u c) as Htimes.
  destruct (quota_step u c) as [u' o]. cbn in Hp', Hb', Htimes.
  assert (Hk : log_kept (call_time c) u').
  { split; [done| |done]. rewrite Htimes. eapply in_order_app with (now := call_time c); [done|..].
    - rewrite Htimes in Hp'. by apply Forall_app in Hp' as [? _].
    - destruct c as [k caps now|]; cbn; [|constructor]. destruct o as [[|]|]; [|constructor..].
      case_bool_decide; repeat constructor. }
  destruct (IH (call_time c) u' Hok) as [Hk' Ht']; [intros caps now H; eapply Hcaps; by right|done|].
  destruct (quota_run u' calls) as [u'' os]. cbn [fst snd] in *. split; [exact Hk'|].
  rewrite Ht', Htimes, <- app_assoc. by rewrite (admitted_cons key c calls o os).
Qed.
End reference.

Lemma log_keeps W key m t calls :
  0 ≤ m → calls_ok W t calls →
  (∀ caps now, Reserve key caps now ∈ calls → qc_max_requests caps = Some m) →
  log_kept W key m (end_time t calls) (quota_run (fresh_use (MkQuotaLog ∅)) calls).1
  ∧ log_times (quota_run (fresh_use (MkQuotaLog ∅)) calls).1 key
    = admitted key calls (quota_run (fresh_use (MkQuotaLog ∅)) calls).2.
Proof.
  intros Hm Hok Hcaps.
  destruct (log_kept_run W key m calls t (fresh_use (MkQuotaLog ∅)) Hok Hcaps (log_kept_empty W key m t Hm))
    as [Hk Ht].
  split; [done|]. rewrite Ht. unfold log_times, entries_of. cbn. by rewrite lookup_empty.
Qed.

(** C14. The request quota holds in every position of its rolling window: over any
    run of reservations and byte records on a clock that does not go back, for
    a key whose policy asks for [m] requests, at most [m] of its reservations
    were admitted inside any window of that length. *)
Theorem quota_rolling_bound W key m t calls :
  (∀ k, 0 < W k) → 0 ≤ m → calls_ok W t calls →
  (∀ caps now, Reserve key caps now ∈ calls → qc_max_requests caps = Some m) →
  bounded id (W key) m
    (admitted key calls (quota_run (fresh_use (MkInProcessQuota ∅)) calls).2).
Proof.
  intros HW Hm Hok Hcaps.
  destruct (in_process_refines_log W HW calls t 0 (MkQuotaLog ∅) (MkInProcessQuota ∅) [] Hok
    (ip_rel_empty W t)) as [Heq _].
  destruct (log_keeps W key m t calls Hm Hok Hcaps) as [[_ _ Hb] Ht].
  unfold fresh_use in *. rewrite <- Heq, <- Ht. exact Hb.
Qed.

Definition request_caps (window m : Z) : QuotaCaps := MkQuotaCaps (Some m) None window.

(** A call that admits nothing under [key]. *)
Definition other_key (key : QuotaKey) (c : quota_call) : Prop :=
  match c with Reserve k _ _ => k ≠ key | RecordBytes _ _ _ => True end.

Lemma admitted_other key calls os : Forall (other_key key) calls → admitted key calls os = [].
Proof.
  intros H. revert os. induction H as [|c calls Hc _ IH]; intros os; [done|].
  destruct os as [|o os]; [by destruct c|]. rewrite admitted_cons, IH.
  destruct c as [k caps now|]; [|done]. cbn in *. destruct o as [[|]|]; try done.
  by rewrite bool_decide_eq_false_2.
Qed.

Lemma request_decision window m now entries :
  window_decision (request_caps window m) now entries
  = raise_if (m <=? Z.of_nat (length (we_ts <$> entries)))
      (QuotaExceededError "request quota exceeded" "requests"
         (retry_after window now (oldest id (we_ts <$> entries)))).
Proof.
  unfold window_decision, quota_decision. cbn. rewrite length_fmap, oldest_fmap.
  by destruct (m <=? _).
Qed.

(** What a request under [request_caps] is told, from the key's past times. *)
Lemma log_request u key window m now :
  (quota_step u (Reserve key (request_caps window m) now)).2
  = Some (let inside := in_window id (cutoff window now) (log_times u key) in
          raise_if (m <=? Z.of_nat (length inside))
            (QuotaExceededError "request quota exceeded" "requests" (retry_after window now (oldest id inside)))).
Proof.
  destruct u as [log n held]. cbn. rewrite request_decision, in_window_fmap. unfold log_times. cbn.
  by destruct (m <=? _).
Qed.

(** The reference, refusing for requests and asked again after the hint. *)
Lemma log_retry W key m t u mid now now' msg r :
  1 ≤ m → log_kept W key m t u → t ≤ now →
  calls_ok W now (mid ++ [Reserve key (request_caps (W key) m) now']) → Forall (other_key key) mid →
  (quota_step u (Reserve key (request_caps (W key) m) now)).2
    = Some (Raise (QuotaExceededError msg "requests" r)) →
  now + r * second ≤ now' →
  (quota_step (quota_run (quota_step u (Reserve key (request_caps (W key) m) now)).1 mid).1
     (Reserve key (request_caps (W key) m) now')).2 = Some (Ok tt).
Proof.
  intros Hm Hk Ht Hok Hmid Hrefused Hwait.
  set (u1 := (quota_step u _).1).
  destruct (calls_ok_app _ _ _ _ Hok) as [Hokm Hok'].
  assert (Htimes1 : log_times u1 key = log_times u key).
  { subst u1. rewrite log_step_times, Hrefused. cbn. by rewrite app_nil_r. }
  assert (Hk1 : log_kept W key m now u1).
  { destruct Hk as [Hp Ho Hb]. split; rewrite Htimes1; [|done..]. eapply Forall_impl; [exact Hp|]. cbn. lia. }
  destruct (log_kept_run W key m mid now u1 Hokm) as [_ Ht2]; [|done|].
  { rewrite Forall_forall in Hmid. intros caps n H. by destruct (Hmid _ H). }
  rewrite (admitted_other key mid _ Hmid), app_nil_r, Htimes1 in Ht2.
  rewrite log_request in Hrefused. rewrite log_request, Ht2. clear Ht2 Htimes1 Hk1 u1.
  destruct Hk as [Hp _ Hb]. set (times := log_times u key) in *. cbn zeta in *.
  assert (Hroom : Z.of_nat (length (in_window id (cutoff (W key) now) times)) ≤ m).
  { rewrite in_window_at; [apply Hb|]. eapply Forall_impl; [exact Hp|]. cbn. lia. }
  destruct (in_window id (cutoff (W key) now) times) as [|o inside] eqn:Hin; cbn [length] in *;
    [destruct (Z.leb_spec m (Z.of_nat 0)); [lia|done]|].
  destruct (m <=? _); cbn in Hrefused; [|done]. injection Hrefused as _ <-.
  assert (Hold : o ≤ cutoff (W key) now') by by apply (retry_after_ages_out id (W key) now (o :: inside)).
  assert (Hlater : cutoff (W key) now ≤ cutoff (W key) now').
  { pose proof (retry_after_positive (W key) now (Some o)). unfold cutoff, second in *. cbn in Hwait. lia. }
  rewrite <- (in_window_in_window id _ _ times Hlater), Hin.
  pose proof (in_window_drops_oldest id _ o inside Hold) as Hdrop.
  set (n := length (in_window id (cutoff (W key) now') (o :: inside))) in *.
  destruct (Z.leb_spec m (Z.of_nat n)) as [Hge|]; [lia|done].
Qed.

(** The retry hint is honest. A key under a request cap that is refused with
    hint [r], admits nothing in between and asks again [r] seconds later or more
    is admitted, whatever the other keys and the byte records do meanwhile. *)
Theorem quota_retry_admitted W key m t calls mid now now' msg r os os' o :
  (∀ k, 0 < W k) → 1 ≤ m →
  let ask now := Reserve key (request_caps (W key) m) now in
  calls_ok W t (calls ++ ask now :: mid ++ [ask now']) →
  (∀ caps n, Reserve key caps n ∈ calls → qc_max_requests caps = Some m) →
  Forall (other_key key) mid →
  (quota_run (fresh_use (MkInProcessQuota ∅)) (calls ++ ask now :: mid ++ [ask now'])).2
    = os ++ Some (Raise (QuotaExceededError msg "requests" r)) :: os' ++ [o] →
  length os = length calls → length os' = length mid →
  now + r * second ≤ now' → o = Some (Ok tt).
Proof.
  intros HW Hm ask Hok Hcaps Hmid Hrun Hl Hl' Hwait.
  destruct (in_process_refines_log W HW _ t 0 (MkQuotaLog ∅) (MkInProcessQuota ∅) [] Hok
    (ip_rel_empty W t)) as [Heq _].
  unfold fresh_use in Hrun. rewrite <- Heq in Hrun. fold (fresh_use (MkQuotaLog ∅)) in Hrun. clear Heq.
  destruct (calls_ok_app _ _ _ _ Hok) as [Hok1 Hok2].
  destruct (log_keeps W key m t calls) as [Hk _]; [lia|done..|].
  rewrite quota_run_app in Hrun. cbn [snd] in Hrun.
  apply app_inj_1 in Hrun as [_ Hrun]; [|by rewrite quota_run_length].
  set (u := (quota_run _ calls).1) in *. clearbody u.
  apply calls_ok_cons in Hok2 as [(Ht & _) Hok2].
  pose proof (log_retry W key m (end_time t calls) u mid now now' msg r Hm Hk Ht Hok2 Hmid) as Hlog.
  fold (ask now) (ask now') in Hlog. cbn [quota_run] in Hrun.
  destruct (quota_step u (ask now)) as [u1 o1]. rewrite quota_run_app in Hrun. cbn [snd] in Hrun.
  assert (o1 = Some (Raise (QuotaExceededError msg "requests" r))) as -> by congruence.
  apply (f_equal tail) in Hrun. cbn [tail] in Hrun.
  apply app_inj_1 in Hrun as [_ Hrun]; [|by rewrite quota_run_length].
  cbn [fst snd] in Hlog. specialize (Hlog eq_refl Hwait). rewrite quota_run_one in Hrun.
  injection Hrun as <-. exact Hlog.
Qed.
