(* ===== verification/QuotaRedis.v ===== *)
(** The Redis limiter of [execution/redis_quota.py] takes the decisions of the
    reference of [Quota]: the simulation, through the sorted set and the hash
    its scripts keep under each key. *)
From Stdlib Require Import Sorted.
From stdpp Require Import pretty.
From S2P Require Export Quota.
Local Open Scope Z_scope.

(** * The two collections of a window *)

Definition window_map (f : WindowEntry → Z) (l : list WindowEntry) : gmap string Z :=
  list_to_map (map (λ e, (we_id e, f e)) l : list (string * Z)).

Abbreviation scores := (window_map we_ts).
Abbreviation weights := (window_map we_bytes).

Section collections.
Context (l : list WindowEntry) (distinct_ids : NoDup (we_id <$> l)).

Lemma pairs_keys (f : WindowEntry → Z) : (map (λ e, (we_id e, f e)) l).*1 = we_id <$> l.
Proof. unfold fmap. rewrite map_map. done. Qed.

Lemma window_map_lookup f i x :
  window_map f l !! i = Some x ↔ ∃ e, e ∈ l ∧ we_id e = i ∧ f e = x.
Proof.
  unfold window_map. rewrite <- elem_of_list_to_map by by rewrite pairs_keys.
  rewrite list_elem_of_fmap. naive_solver.
Qed.

Lemma window_map_values f : (map_to_list (window_map f l)).*2 ≡ₚ f <$> l.
Proof.
  unfold window_map. rewrite map_to_list_to_map by by rewrite pairs_keys.
  unfold fmap. by rewrite map_map.
Qed.

Lemma window_map_size f : size (window_map f l) = length l.
Proof.
  rewrite <- length_map_to_list, <- (length_fmap snd), window_map_values. by rewrite length_fmap.
Qed.

Lemma window_map_empty f : window_map f l = ∅ ↔ l = [].
Proof.
  split; [|by intros ->]. intros H. pose proof (window_map_size f) as Hs. rewrite H in Hs.
  rewrite map_size_empty in Hs. by destruct l.
Qed.

Lemma distinct_window c : NoDup (we_id <$> in_window we_ts c l).
Proof.
  eapply sublist_NoDup; [exact distinct_ids|]. apply fmap_sublist. apply sublist_filter.
Qed.
End collections.

Lemma scores_prune c l :
  NoDup (we_id <$> l) → filter (λ ms, c < ms.2) (scores l) = scores (in_window we_ts c l).
Proof.
  intros Hd. apply map_eq. intros i. apply option_eq. intros x.
  rewrite map_lookup_filter_Some, !window_map_lookup by (done || by apply distinct_window).
  setoid_rewrite in_window_elem. cbn. naive_solver.
Qed.

Lemma aged_members c l f :
  NoDup (we_id <$> l) →
  f ∈ (map_to_list (filter (λ ms : string * Z, ms.2 ≤ c) (scores l))).*1
  ↔ ∃ e, e ∈ l ∧ we_id e = f ∧ we_ts e ≤ c.
Proof.
  intros Hd. rewrite list_elem_of_fmap. split.
  - intros ([i x] & -> & H). apply elem_of_map_to_list, map_lookup_filter_Some in H as [H Hx].
    apply window_map_lookup in H as (e & ? & ? & <-); [|done]. by exists e.
  - intros (e & He & <- & Hc). exists (we_id e, we_ts e). split; [done|].
    apply elem_of_map_to_list, map_lookup_filter_Some. split; [|done].
    apply window_map_lookup; [done|]. by exists e.
Qed.

Lemma same_entry l e e' : NoDup (we_id <$> l) → e ∈ l → e' ∈ l → we_id e = we_id e' → e = e'.
Proof.
  intros Hd [i Hi]%list_elem_of_lookup [j Hj]%list_elem_of_lookup Heq.
  assert (i = j) as <-.
  { eapply NoDup_lookup; [exact Hd| |]; rewrite list_lookup_fmap; [by rewrite Hi|]. rewrite Hj. cbn. by rewrite Heq. }
  congruence.
Qed.

Lemma weights_prune c l h :
  NoDup (we_id <$> l) →
  (∀ f, h !! f = if decide (f ∈ (map_to_list (filter (λ ms : string * Z, ms.2 ≤ c) (scores l))).*1)
                 then None else weights l !! f) →
  h = weights (in_window we_ts c l).
Proof.
  intros Hd Hh. apply map_eq. intros i. rewrite Hh. destruct (decide _) as [Haged|Hlive].
  - apply aged_members in Haged as (e & He & <- & Hc); [|done]. symmetry. apply eq_None_not_Some.
    intros [x Hx]. apply window_map_lookup in Hx as (e' & He' & Hid & _); [|by apply distinct_window].
    apply in_window_elem in He' as [Hc' He']. rewrite (same_entry l e' e) in Hc' by done. lia.
  - apply option_eq. intros x. rewrite !window_map_lookup by (done || by apply distinct_window).
    setoid_rewrite in_window_elem. split; [|naive_solver]. intros (e & He & <- & <-).
    exists e. split_and!; try done. apply Z.lt_nge. intros Hc. apply Hlive.
    apply aged_members; [done|]. by exists e.
Qed.

Lemma window_map_snoc f l e :
  we_id e ∉ we_id <$> l → window_map f (l ++ [e]) = <[we_id e := f e]> (window_map f l).
Proof.
  intros He. unfold window_map. rewrite map_app. cbn. rewrite list_to_map_snoc; [done|].
  by rewrite pairs_keys.
Qed.

Lemma weights_set id n l :
  NoDup (we_id <$> l) → id ∈ we_id <$> l → <[id := n]> (weights l) = weights (map (set_bytes id n) l).
Proof.
  intros Hd Hin. apply map_eq. intros i. unfold window_map. rewrite map_map.
  setoid_rewrite set_bytes_id.
  induction l as [|e l IH]; [by apply not_elem_of_nil in Hin|]. cbn in *.
  apply NoDup_cons in Hd as [Hne Hd]. unfold set_bytes at 1. case_bool_decide as He; cbn.
  - subst id. rewrite insert_insert_eq.
    destruct (decide (i = we_id e)) as [->|Hi]; [by rewrite !lookup_insert_eq|].
    rewrite !lookup_insert_ne by done. do 2 f_equal. apply map_ext_in. intros e' He'. f_equal.
    unfold set_bytes. rewrite bool_decide_eq_false_2; [done|]. intros Heq. apply Hne. rewrite <- Heq.
    apply list_elem_of_fmap_2. by apply list_elem_of_In.
  - assert (Hin' : id ∈ we_id <$> l) by (apply elem_of_cons in Hin as [->|]; [by destruct He|done]).
    rewrite insert_insert_ne by congruence.
    destruct (decide (i = we_id e)) as [->|Hi]; [by rewrite !lookup_insert_eq|].
    rewrite !(lookup_insert_ne _ (we_id e)) by congruence. by apply IH.
Qed.

Lemma scores_set id n l : scores (map (set_bytes id n) l) = scores l.
Proof.
  unfold window_map. rewrite map_map. f_equal. apply map_ext. intros e. by rewrite set_bytes_id, set_bytes_ts.
Qed.

Lemma set_bytes_absent id n l : id ∉ we_id <$> l → map (set_bytes id n) l = l.
Proof.
  intros H. induction l as [|e l IH]; [done|]. cbn in *. apply not_elem_of_cons in H as [He H].
  rewrite IH by done. f_equal. unfold set_bytes. by rewrite bool_decide_eq_false_2 by congruence.
Qed.

(** Reading the collections back gives what the in-process checks compute. *)
Lemma first_of_scores l :
  NoDup (we_id <$> l) → in_order we_ts l → min_of (map_to_list (scores l)).*2 = oldest we_ts l.
Proof.
  intros Hd Ho. rewrite (min_of_permutation _ _ (window_map_values l Hd we_ts)).
  rewrite min_of_head; [by destruct l|]. intros x y Hx Hy.
  destruct l as [|e l']; [done|]. cbn in Hx. injection Hx as <-. cbn in Hy.
  apply elem_of_cons in Hy as [->|Hy]; [done|].
  apply list_elem_of_fmap in Hy as (e' & -> & He').
  apply StronglySorted_inv in Ho as [_ Ho]. rewrite Forall_forall in Ho. by apply Ho.
Qed.

Lemma sum_Z_permutation l k : l ≡ₚ k → sum_Z l = sum_Z k.
Proof. unfold sum_Z. induction 1; cbn; lia. Qed.

Lemma total_of_weights l :
  NoDup (we_id <$> l) → sum_Z (map_to_list (weights l)).*2 = sum_Z (we_bytes <$> l).
Proof. intros Hd. apply sum_Z_permutation. by apply window_map_values. Qed.

(** * The scripts *)

Section scripts.
Context (zkey hkey : string) (keys_differ : zkey ≠ hkey).

(** Nothing but the two keys changes. *)
Definition only_two (db db' : Redis) : Prop := ∀ k, zkey ≠ k → hkey ≠ k → db' !! k = db !! k.

(** The window [l] is stored until [d]. *)
Definition window_kept (now d : Z) (l : list WindowEntry) (db : Redis) : Prop :=
  stored now d zkey RZset (scores l) db ∧ stored now d hkey RHash (weights l) db.

Lemma quota_prune_run now d c l db :
  NoDup (we_id <$> l) → window_kept now d l db →
  ∃ db', quota_prune_script zkey hkey c now db = (db', Some tt)
    ∧ only_two db db' ∧ window_kept now d (in_window we_ts c l) db'.
Proof.
  intros Hd [Hz Hh]. unfold quota_prune_script.
  rewrite (script_bind_ok _ _ _ _ _ (ZRANGEBYSCORE_run _ _ _ _ _ Hz c)).
  destruct (HDEL_each now d hkey (map_to_list (filter (λ ms : string * Z, ms.2 ≤ c) (scores l))).*1 _ _ Hh)
    as (h' & db1 & Hrun & Hh1 & Hlook & Hsame1).
  rewrite (script_bind_ok _ _ _ _ _ Hrun). rewrite (weights_prune c l h' Hd Hlook) in Hh1.
  assert (Hz1 : stored now d zkey RZset (scores l) db1) by (eapply stored_eq; [|exact Hz]; by rewrite Hsame1).
  rewrite (ZREMRANGEBYSCORE_run _ _ _ _ _ Hz1 c). rewrite scores_prune by done.
  eexists. split; [done|]. split.
  - intros k ??. by rewrite redis_put_ne, Hsame1.
  - split.
    + eapply stored_put; [exact Hz1|]. rewrite window_map_empty by done. by intros ->.
    + eapply stored_eq; [|exact Hh1]. by rewrite redis_put_ne.
Qed.

Lemma quota_read_run now d caps l db :
  NoDup (we_id <$> l) → in_order we_ts l → window_kept now d l db →
  ∃ count total first, quota_read_script zkey hkey caps now db = (db, Some (count, total, first))
    ∧ quota_decision caps now count total first = window_decision caps now l.
Proof.
  intros Hd Ho [Hz Hh]. unfold quota_read_script.
  rewrite (script_bind_ok _ _ _ _ _ (ZFIRST_run _ _ _ _ _ Hz)).
  rewrite (script_bind_ok _ _ _ _ _ (ZCARD_run _ _ _ _ _ Hz)).
  cbn zeta. rewrite (window_map_size _ Hd).
  assert (Hf : oldest_ts (with_scores false (first_member (scores l))) = oldest we_ts l).
  { rewrite <- first_of_scores, <- first_member_min by done. by destruct (first_member (scores l)) as [[]|]. }
  change (lua_nests (DB := Redis)) with false. rewrite Hf.
  unfold window_decision, quota_decision. destruct (qc_max_response_bytes caps) as [m|].
  - rewrite (script_bind_ok _ _ _ _ _ (HVALS_run _ _ _ _ _ Hh)). do 3 eexists. split; [done|].
    by rewrite total_of_weights.
  - by do 3 eexists.
Qed.

Lemma window_map_ne f l : l ≠ [] → NoDup (we_id <$> l) → window_map f l ≠ ∅.
Proof. intros Hl Hd. by rewrite window_map_empty. Qed.

Lemma quota_admit_run now d window member l db :
  0 < window → NoDup (we_id <$> l) → member ∉ we_id <$> l → window_kept now d l db →
  ∃ db', quota_admit_script zkey hkey window now member db = (db', Some tt)
    ∧ only_two db db'
    ∧ window_kept now (now + window * second) (l ++ [MkWindowEntry member now 0]) db'.
Proof.
  intros HW Hd Hfresh [Hz Hh]. unfold quota_admit_script.
  rewrite (script_bind_ok _ _ _ _ _ (ZADD_run _ _ _ _ _ Hz now member)).
  set (e := MkWindowEntry member now 0).
  assert (Hd' : NoDup (we_id <$> l ++ [e])).
  { rewrite fmap_app. apply NoDup_app. split_and!; [done| |apply NoDup_singleton].
    intros x Hx ->%list_elem_of_singleton. done. }
  change (<[member:=now]> (scores l)) with (<[we_id e := we_ts e]> (scores l)).
  rewrite <- window_map_snoc by done. set (db1 := redis_put now zkey _ RZset db).
  assert (Hh1 : stored now d hkey RHash (weights l) db1).
  { eapply stored_eq; [|exact Hh]. subst db1. by rewrite redis_put_ne. }
  rewrite (script_bind_ok _ _ _ _ _ (HSET_run _ _ _ _ _ member 0 Hh1)).
  change (<[member:=0]> (weights l)) with (<[we_id e := we_bytes e]> (weights l)).
  rewrite <- window_map_snoc by done. set (db2 := redis_put now hkey _ RHash db1).
  rewrite (script_bind_ok (call now (Expire zkey window)) _ db2 (EXPIRE now zkey window db2).1 tt) by done.
  assert (Hne : ∀ f, window_map f (l ++ [e]) ≠ ∅).
  { intros f. apply window_map_ne; [|done]. by destruct l. }
  exists (EXPIRE now hkey window (EXPIRE now zkey window db2).1).1. split; [done|]. split; [|split].
  - intros k ??. by rewrite !EXPIRE_ne; [subst db2 db1; rewrite !redis_put_ne|..].
  - eapply stored_eq; [symmetry; by apply EXPIRE_ne|]. apply stored_expire; [|done..].
    subst db2. rewrite put_get_ne by done. by apply put_get.
  - apply stored_expire; [|done..]. rewrite EXPIRE_get_ne by done. by apply put_get.
Qed.

Lemma quota_reserve_run caps now member db d l :
  0 < qc_window_seconds caps → NoDup (we_id <$> l) → in_order we_ts l → member ∉ we_id <$> l →
  window_kept now d l db →
  let entries := in_window we_ts (cutoff (qc_window_seconds caps) now) l in
  ∃ db', only_two db db'
    ∧ match window_decision caps now entries with
      | Raise e => quota_reserve_script zkey hkey caps now member db = (db', Some (Raise e))
                   ∧ window_kept now d entries db'
      | Ok _ => quota_reserve_script zkey hkey caps now member db = (db', Some (Ok tt))
                ∧ window_kept now (now + qc_window_seconds caps * second)
                    (entries ++ [MkWindowEntry member now 0]) db'
      end.
Proof.
  intros HW Hd Ho Hfresh Hk entries. unfold quota_reserve_script.
  destruct (quota_prune_run now d (cutoff (qc_window_seconds caps) now) l db Hd Hk) as (db1 & Hrun & Hsame & Hk1).
  rewrite (script_bind_ok _ _ _ _ _ Hrun). fold entries in Hk1.
  assert (Hde : NoDup (we_id <$> entries)) by by apply distinct_window.
  destruct (quota_read_run now d caps entries db1 Hde) as (count & total & first & Hread & Hdec);
    [by apply in_order_in_window|done|].
  rewrite (script_bind_ok _ _ _ _ _ Hread). cbn beta iota. rewrite Hdec.
  destruct (window_decision caps now entries) as [[]|e]; [|by exists db1].
  destruct (quota_admit_run now d (qc_window_seconds caps) member entries db1 HW Hde)
    as (db2 & Hadmit & Hsame2 & Hk2); [|done|].
  { intros (e & -> & He)%list_elem_of_fmap. apply in_window_elem in He as [_ He].
    apply Hfresh. by apply list_elem_of_fmap_2. }
  rewrite (script_bind_ok _ _ _ _ _ Hadmit). exists db2. split; [|by split].
  intros k ??. by rewrite Hsame2, Hsame.
Qed.

Lemma quota_record_run now d member n l db :
  NoDup (we_id <$> l) → window_kept now d l db →
  ∃ db', quota_record_script zkey hkey member n now db = (db', Some tt)
    ∧ only_two db db' ∧ window_kept now d (map (set_bytes member n) l) db'.
Proof.
  intros Hd [Hz Hh]. unfold quota_record_script.
  rewrite (script_bind_ok _ _ _ _ _ (ZSCORE_run _ _ _ _ _ Hz member)).
  destruct (decide (member ∈ we_id <$> l)) as [Hin|Hout].
  - assert (∃ x, scores l !! member = Some x) as [x ->].
    { apply list_elem_of_fmap in Hin as (e & -> & He). exists (we_ts e).
      apply window_map_lookup; [done|]. by exists e. }
    rewrite (HSET_run _ _ _ _ _ _ _ Hh). eexists. split; [done|]. split.
    { intros k ??. by rewrite redis_put_ne. }
    split; [rewrite scores_set; eapply stored_eq; [|exact Hz]; by rewrite redis_put_ne|].
    rewrite weights_set by done. eapply stored_put; [exact Hh|].
    rewrite window_map_empty by done. intros ->. by apply not_elem_of_nil in Hin.
  - assert (scores l !! member = None) as ->.
    { apply eq_None_not_Some. intros [x Hx]. apply window_map_lookup in Hx as (e & He & <- & _); [|done].
      apply Hout. by apply list_elem_of_fmap_2. }
    exists db. rewrite set_bytes_absent by done. by repeat split.
Qed.
End scripts.

Lemma ids_set_bytes id n l : we_id <$> map (set_bytes id n) l = we_id <$> l.
Proof. rewrite <- list_fmap_compose. apply list_fmap_ext. intros i e _. apply set_bytes_id. Qed.

Lemma in_order_set_bytes id n l : in_order we_ts l → in_order we_ts (map (set_bytes id n) l).
Proof.
  unfold in_order. induction 1 as [|e l Hl IH He]; cbn; constructor; [done|].
  apply Forall_map. eapply Forall_impl; [exact He|]. intros e'. cbn. by rewrite !set_bytes_ts.
Qed.

(** * The simulation *)

(** The Redis keys of the quota keys in use do not collide. *)
Definition keys_separate (ks : list QuotaKey) : Prop :=
  ∀ k1 k2, k1 ∈ ks → k2 ∈ ks →
    (quota_zkey k1 = quota_zkey k2 → k1 = k2) ∧ quota_zkey k1 ≠ quota_hkey k2.

Lemma length_append s k : String.length (s +:+ k) = (String.length s + String.length k)%nat.
Proof.
  induction s as [|c s IH]; [done|]. change (String c s +:+ k) with (String c (s +:+ k)).
  cbn. by rewrite IH.
Qed.

Lemma substring_append s k : String.substring 0 (String.length s) (s +:+ k) = s.
Proof.
  induction s as [|c s IH]; [by destruct k|]. change (String c s +:+ k) with (String c (s +:+ k)).
  cbn. by rewrite IH.
Qed.

Lemma drop_bytes_hkey key : drop_bytes_suffix (quota_hkey key) = quota_zkey key.
Proof.
  unfold drop_bytes_suffix, quota_hkey. rewrite length_append. change (String.length ":bytes") with 6%nat.
  rewrite Nat.add_sub. apply substring_append.
Qed.

Section redis.
Context (W : QuotaKey → Z) (W_positive : ∀ key, 0 < W key).
Context (ks : list QuotaKey) (separate : keys_separate ks).

(** One key's window as stored: gone, with nothing left in the window, or the
    log pruned at a past cutoff, with a deadline past which all of it has aged. *)
Definition window_stored (t : Z) (key : QuotaKey) (l : list WindowEntry) (db : Redis) : Prop :=
  (gone t (quota_zkey key) db ∧ gone t (quota_hkey key) db ∧ in_window we_ts (cutoff (W key) t) l = [])
  ∨ ∃ c d, let live := in_window we_ts c l in
      c ≤ cutoff (W key) t ∧ live ≠ []
      ∧ db !! quota_zkey key = Some (MkRedisEntry (RZset (scores live)) (Some d))
      ∧ db !! quota_hkey key = Some (MkRedisEntry (RHash (weights live)) (Some d))
      ∧ Forall (λ e, we_ts e ≤ cutoff (W key) d) l.

Record key_rel (n : nat) (t : Z) (l : list WindowEntry) (key : QuotaKey) (db : Redis) : Prop := {
  kr_past : Forall (λ e, we_ts e ≤ t) l;
  kr_order : in_order we_ts l;
  kr_distinct : NoDup (we_id <$> l);
  kr_names : ∀ e, e ∈ l → ∃ i, (i < n)%nat ∧ we_id e = pretty i;
  kr_stored : window_stored t key l db;
}.

Definition rq_rel (n : nat) (t : Z) (log : QuotaLog) (st : RedisQuotaLimiter Redis) : Prop :=
  rq_reachable st = true
  ∧ ∀ key, key ∈ ks → key_rel n t (entries_of (ql_log log) key) key (rq_db st).

Definition handles_match (h1 h2 : QuotaReservation) : Prop :=
  ∃ key id, key ∈ ks ∧ h1 = ReservedEntry key id ∧ h2 = ReservedMember (quota_hkey key) id.

Lemma window_stored_later t key l db now :
  window_stored t key l db → t ≤ now → window_stored now key l db.
Proof.
  intros [(Hz & Hh & Hl)|(c & d & Hc & Hrest)] Ht.
  - left. split_and!; [by eapply gone_later..|].
    rewrite <- (in_window_in_window we_ts (cutoff (W key) t)) by (unfold cutoff; lia). by rewrite Hl.
  - right. exists c, d. split; [unfold cutoff in *; lia|done].
Qed.

Lemma key_rel_later n t l key db now : key_rel n t l key db → t ≤ now → key_rel n now l key db.
Proof.
  intros [Hp Ho Hd Hn Hs] Ht. split; [by eapply before_later|done|done|done|by eapply window_stored_later].
Qed.

Lemma rq_later n t log st now : rq_rel n t log st → t ≤ now → rq_rel n now log st.
Proof. intros [Hr HR] Ht. split; [done|]. intros key Hk. eapply key_rel_later; [by apply HR|done]. Qed.

(** What is stored now: a part of the log that has all of the window. *)
Lemma window_stored_now now key l db :
  window_stored now key l db →
  ∃ c d live, live = in_window we_ts c l ∧ c ≤ cutoff (W key) now
    ∧ window_kept (quota_zkey key) (quota_hkey key) now d live db
    ∧ in_window we_ts (cutoff (W key) now) live = in_window we_ts (cutoff (W key) now) l
    ∧ (live ≠ [] → Forall (λ e, we_ts e ≤ cutoff (W key) d) l).
Proof.
  assert (Hnil : ∀ d, gone now (quota_zkey key) db → gone now (quota_hkey key) db →
    window_kept (quota_zkey key) (quota_hkey key) now d [] db).
  { intros d Hz Hh. by split; unfold stored; rewrite decide_True. }
  intros [(Hz & Hh & Hl)|(c & d & Hc & Hne & Hz & Hh & Hall)].
  - exists (cutoff (W key) now), now, []. rewrite Hl. split_and!; [done|done|by apply Hnil|done|done].
  - set (live := in_window we_ts c l) in *. destruct (decide (now < d)) as [Hlive|Hdead].
    + exists c, d, live. split_and!; [done|done| |by apply in_window_in_window|done].
      split; unfold stored; destruct (decide _) as [Hm|]; try done; exfalso; destruct live; try done;
        apply (f_equal (lookup (we_id w))) in Hm; unfold window_map in Hm; cbn in Hm;
        by rewrite lookup_insert_eq in Hm.
    + assert (Haged : in_window we_ts (cutoff (W key) now) l = []).
      { apply in_window_none. eapply Forall_impl; [exact Hall|]. cbn. unfold cutoff. lia. }
      exists (cutoff (W key) now), now, []. rewrite Haged. split_and!; [done|done| |done|done].
      apply Hnil; unfold gone; [rewrite Hz|rewrite Hh]; cbn; exists d; (split; [done|lia]).
Qed.

(** And back: a pruned window stored is the relation again. *)
Lemma window_kept_stored now d key l db :
  let live := in_window we_ts (cutoff (W key) now) l in
  window_kept (quota_zkey key) (quota_hkey key) now d live db →
  NoDup (we_id <$> l) → (live ≠ [] → Forall (λ e, we_ts e ≤ cutoff (W key) d) l) →
  window_stored now key l db.
Proof.
  intros live [Hz Hh] Hd Hall. destruct (decide (live = [])) as [Hnil|Hne].
  - left. unfold stored in *. rewrite Hnil in *. split_and!; [exact Hz|exact Hh|done].
  - right. exists (cutoff (W key) now), d. fold live. unfold stored in *.
    assert (NoDup (we_id <$> live)) by by apply distinct_window.
    rewrite decide_False in Hz by by apply window_map_ne.
    rewrite decide_False in Hh by by apply window_map_ne.
    split_and!; [done|done|apply Hz|apply Hh|by apply Hall].
Qed.

Lemma other_keys key k' : key ∈ ks → k' ∈ ks → key ≠ k' →
  quota_zkey key ≠ quota_zkey k' ∧ quota_zkey key ≠ quota_hkey k'
  ∧ quota_hkey key ≠ quota_zkey k' ∧ quota_hkey key ≠ quota_hkey k'.
Proof.
  intros H1 H2 Hne. destruct (separate key k' H1 H2) as [Hz Hh]. destruct (separate k' key H2 H1) as [_ Hh'].
  split_and!; [by intros ?%Hz|done|done|]. intros Heq. apply Hne, Hz.
  by rewrite <- !drop_bytes_hkey, Heq.
Qed.

Lemma key_rel_untouched n t l key k' db db' :
  key ∈ ks → k' ∈ ks → key ≠ k' → only_two (quota_zkey key) (quota_hkey key) db db' →
  key_rel n t l k' db → key_rel n t l k' db'.
Proof.
  intros H1 H2 Hne Hsame [Hp Ho Hd Hn Hs]. split; try done.
  destruct (other_keys key k' H1 H2 Hne) as (? & ? & ? & ?).
  destruct Hs as [(Hz & Hh & Hl)|(c & d & Hc & Hlive & Hz & Hh & Hall)]; [left|right; exists c, d];
    unfold gone in *; rewrite !Hsame by done; by split_and!.
Qed.

(** A key's relation after its own reservation, refused and admitted. *)
Lemma key_rel_refused n now d key l db :
  Forall (λ e, we_ts e ≤ now) l → in_order we_ts l → NoDup (we_id <$> l) →
  (∀ e, e ∈ l → ∃ i, (i < n)%nat ∧ we_id e = pretty i) →
  window_kept (quota_zkey key) (quota_hkey key) now d (in_window we_ts (cutoff (W key) now) l) db →
  (in_window we_ts (cutoff (W key) now) l ≠ [] → Forall (λ e, we_ts e ≤ cutoff (W key) d) l) →
  key_rel (S n) now l key db.
Proof.
  intros Hp Ho Hd Hn Hk Hall. split; try done.
  - intros e He. destruct (Hn e He) as (i & ? & ?). exists i. split; [lia|done].
  - by apply (window_kept_stored now d).
Qed.

Lemma key_rel_admitted n now key l db :
  Forall (λ e, we_ts e ≤ now) l → in_order we_ts l → NoDup (we_id <$> l) →
  (∀ e, e ∈ l → ∃ i, (i < n)%nat ∧ we_id e = pretty i) → pretty n ∉ we_id <$> l →
  window_kept (quota_zkey key) (quota_hkey key) now (now + W key * second)
    (in_window we_ts (cutoff (W key) now) l ++ [MkWindowEntry (pretty n) now 0]) db →
  key_rel (S n) now (l ++ [MkWindowEntry (pretty n) now 0]) key db.
Proof.
  intros Hp Ho Hd Hn Hnew Hk.
  assert (Hp' : Forall (λ e, we_ts e ≤ now) (l ++ [MkWindowEntry (pretty n) now 0])).
  { apply Forall_app. split; [done|]. apply Forall_singleton. cbn. lia. }
  assert (Hd' : NoDup (we_id <$> l ++ [MkWindowEntry (pretty n) now 0])).
  { rewrite fmap_app. apply NoDup_app. split_and!; [done| |apply NoDup_singleton].
    intros x Hx ->%list_elem_of_singleton. done. }
  split; [done| |done| |].
  - by apply (in_order_app _ _ _ now); [..|by repeat constructor].
  - intros e [He| ->%list_elem_of_singleton]%elem_of_app; [|exists n; split; [lia|done]].
    destruct (Hn e He) as (i & ? & ?). exists i. split; [lia|done].
  - apply (window_kept_stored now (now + W key * second)); [|done|].
    + rewrite in_window_app. unfold in_window at 2. rewrite filter_cons_True; [done|]. cbn.
      unfold cutoff, second. specialize (W_positive key). lia.
    + intros _. eapply Forall_impl; [exact Hp'|]. cbn. unfold cutoff. lia.
Qed.

Lemma rq_reserve_sim n t log st key caps now :
  rq_rel n t log st → t ≤ now → key ∈ ks → qc_window_seconds caps = W key →
  rq_rel (S n) now (reserve log key caps now (pretty n)).1 (reserve st key caps now (pretty n)).1
  ∧ outcomes_match handles_match (reserve log key caps now (pretty n)).2 (reserve st key caps now (pretty n)).2.
Proof.
  intros [Hr HR] Ht Hk HW. pose proof (key_rel_later _ _ _ _ _ now (HR key Hk) Ht) as [Hp Ho Hd Hn Hs].
  destruct (window_stored_now now key _ _ Hs) as (c & d & live & Hlive & Hc & Hkept & Hin & Hall).
  set (l := entries_of (ql_log log) key) in *.
  assert (Hnew : pretty n ∉ we_id <$> l).
  { intros (e & He & Hel)%list_elem_of_fmap. destruct (Hn e Hel) as (i & Hi & Hid).
    rewrite Hid in He. apply (inj pretty) in He. lia. }
  destruct (quota_reserve_run (quota_zkey key) (quota_hkey key) (proj2 (separate key key Hk Hk))
    caps now (pretty n) (rq_db st) d live) as (db' & Hsame & Hrun).
  { rewrite HW. apply W_positive. }
  { subst live. by apply distinct_window. }
  { subst live. by apply in_order_in_window. }
  { subst live. intros (e & He & Hel)%list_elem_of_fmap. apply Hnew. rewrite He.
    apply list_elem_of_fmap_2. by apply in_window_elem in Hel as [_ ?]. }
  { exact Hkept. }
  assert (Hothers : ∀ k' w, k' ∈ ks → key ≠ k' → entries_of w k' = entries_of (ql_log log) k' →
      key_rel (S n) now (entries_of w k') k' db').
  { intros k' w Hk' Hne ->. eapply key_rel_untouched; [exact Hk|exact Hk'|exact Hne|exact Hsame|].
    destruct (key_rel_later _ _ _ _ _ now (HR k' Hk') Ht) as [? ? ? Hn' ?].
    split; try done. intros e He. destruct (Hn' e He) as (i & ? & ?). exists i. split; [lia|done]. }
  cbn. unfold redis_reserve. rewrite Hr. fold l. rewrite HW, Hin in Hrun. rewrite HW.
  destruct (window_decision caps now (in_window we_ts (cutoff (W key) now) l)) as [[]|e];
    destruct Hrun as [-> Hkept']; cbn; (split; [|cbn; try done; by exists key, (pretty n)]);
    split; try done; intros k' Hk'; cbn;
    (destruct (decide (key = k')) as [<-|Hne];
      [|apply Hothers; [done..|]; rewrite ?entries_of_insert; by rewrite ?decide_False]).
  - rewrite entries_of_insert, decide_True by done. by eapply key_rel_admitted.
  - eapply key_rel_refused; [done..|]. intros Hne. fold l in Hne. rewrite <- Hin in Hne. apply Hall. by intros Hnil; rewrite Hnil in Hne.
Qed.

Lemma rq_record_sim n t log st h1 h2 b now :
  rq_rel n t log st → t ≤ now → handles_match h1 h2 →
  rq_rel n now (record_bytes log h1 b now) (record_bytes st h2 b now).
Proof.
  intros [Hr HR] Ht (key & id & Hk & -> & ->).
  cbn [record_bytes redis_quota redis_record_bytes log_quota]. rewrite Hr, drop_bytes_hkey.
  pose proof (key_rel_later _ _ _ _ _ now (HR key Hk) Ht) as [Hp Ho Hd Hn Hs].
  destruct (window_stored_now now key _ _ Hs) as (c & d & live & Hlive & Hc & Hkept & Hin & Hall).
  set (l := entries_of (ql_log log) key) in *.
  destruct (quota_record_run (quota_zkey key) (quota_hkey key) (proj2 (separate key key Hk Hk))
    now d id (Z.max 0 b) live (rq_db st)) as (db' & -> & Hsame & Hkept').
  { subst live. by apply distinct_window. }
  { exact Hkept. }
  split; [done|]. intros k' Hk'. cbn. rewrite entries_of_alter.
  destruct (decide (key = k')) as [<-|Hne]; [fold l|].
  2: { eapply key_rel_untouched; [exact Hk|exact Hk'|exact Hne|exact Hsame|].
       apply (key_rel_later n t); [by apply HR|done]. }
  split.
  - apply before_set_bytes. exact Hp.
  - by apply in_order_set_bytes.
  - by rewrite ids_set_bytes.
  - intros e' (e & -> & He)%list_elem_of_fmap. rewrite set_bytes_id. by apply Hn.
  - destruct (decide (live = [])) as [Hnil|Hne].
    + left. rewrite in_window_set_bytes, <- Hin, Hnil. rewrite Hnil in Hkept'.
      destruct Hkept' as [Hz Hh]. unfold stored in Hz, Hh. by split_and!.
    + right. exists c, d. cbn. rewrite in_window_set_bytes, <- Hlive.
      assert (Hdl : NoDup (we_id <$> map (set_bytes id (Z.max 0 b)) live)).
      { rewrite ids_set_bytes. subst live. by apply distinct_window. }
      assert (Hne' : map (set_bytes id (Z.max 0 b)) live ≠ []) by by destruct live.
      destruct Hkept' as [Hz Hh]. unfold stored in Hz, Hh.
      rewrite decide_False in Hz by by apply window_map_ne.
      rewrite decide_False in Hh by by apply window_map_ne.
      split_and!; [done|done|apply Hz|apply Hh|]. apply before_set_bytes. by apply Hall.
Qed.

Lemma redis_refines_log calls : ∀ t n log st,
  calls_ok W t calls → calls_use (λ key, key ∈ ks) calls → rq_rel n t log st →
  (quota_run (MkUse log n []) calls).2 = (quota_run (MkUse st n []) calls).2.
Proof.
  intros t n log st Hok Hu HR.
  apply (run_simulates W (λ key, key ∈ ks) rq_rel handles_match) with (t := t); try done.
  - intros n' t' s1 s2 key caps now ????. by apply (rq_reserve_sim n' t').
  - intros n' t' s1 s2 h1 h2 b now ???. by apply (rq_record_sim n' t').
  - intros n' t' s1 s2 now ??. by apply (rq_later n' t').
Qed.

Lemma rq_rel_empty t : rq_rel 0 t (MkQuotaLog ∅) (MkRedisQuota ∅ true).
Proof.
  split; [done|]. intros key _. cbn. unfold entries_of. rewrite lookup_empty. cbn.
  split; [constructor|constructor|constructor|by intros e He%not_elem_of_nil|].
  left. unfold gone. by rewrite !lookup_empty.
Qed.
End redis.

(** * Any server *)

(** What a caller is told of a refusal: its message and the hint, which is the
    whole window when scripts see the score inside a table of its own. *)
Definition told (nests : bool) (caps : QuotaCaps) (r : result unit) : result unit :=
  match r with
  | Raise (QuotaExceededError msg kind hint) =>
      Raise (QuotaExceededError msg kind (if nests then Z.max 1 (qc_window_seconds caps) else hint))
  | r => r
  end.

Definition told_of (nests : bool) (c : quota_call) (o : option (result unit)) : option (result unit) :=
  match c with Reserve _ caps _ => told nests caps <$> o | RecordBytes _ _ _ => o end.

Lemma told_decision (nests : bool) caps now count total first :
  quota_decision caps now count total (if nests then None else first)
  = told nests caps (quota_decision caps now count total first).
Proof.
  assert (Hw : retry_after (qc_window_seconds caps) now None = Z.max 1 (qc_window_seconds caps)).
  { unfold retry_after, ceil_seconds, second. change (default now None) with now. f_equal.
    replace (- (qc_window_seconds caps * 1000000000 - (now - now)))
      with (- qc_window_seconds caps * 1000000000) by lia.
    rewrite Z.div_mul by lia. lia. }
  unfold quota_decision. destruct nests; [rewrite Hw|];
    destruct (match qc_max_requests caps with Some _ => _ | None => _ end); cbn; try done;
    by destruct (match qc_max_response_bytes caps with Some _ => _ | None => _ end).
Qed.

(** The scripts on a server do what they do on the documentation, but for what
    nesting does to the replies, so the limiter does too. *)
Section server.
Context {DB : Type} `{RS : !RedisServer DB}.

(** A script that does what another does on the documentation and replies [h] of
    its reply. *)
Definition follows_as {A B} (h : A → B) (s : script_on DB B) (s' : script A) : Prop :=
  ∀ db, (contents (s db).1, (s db).2) = ((s' (contents db)).1, h <$> (s' (contents db)).2).

Lemma follows_as_id {A} (s : script_on DB A) s' : follows s s' → follows_as id s s'.
Proof. intros H db. rewrite H. by destruct (s' (contents db)) as [? []]. Qed.

Lemma follows_as_ret {A B} (h : A → B) a b : b = h a → follows_as h (mret b) (mret a).
Proof. by intros -> db. Qed.

Lemma follows_as_bind {A B A' B'} (h : A → B) (g : A' → B') (s : script_on DB B) s' f f' :
  follows_as h s s' → (∀ a, follows_as g (f (h a)) (f' a)) → follows_as g (s ≫= f) (s' ≫= f').
Proof.
  intros Hs Hf db. specialize (Hs db). unfold mbind, script_bind.
  destruct (s db) as [db1 r], (s' (contents db)) as [db2 [a|]]; cbn in *; injection Hs as <- ->; cbn;
    [apply Hf|done].
Qed.

Lemma follows_then {A A' B'} (g : A' → B') (s : script_on DB A) s' f f' :
  follows s s' → (∀ a, follows_as g (f a) (f' a)) → follows_as g (s ≫= f) (s' ≫= f').
Proof. intros Hs Hf. eapply follows_as_bind; [by apply follows_as_id|done]. Qed.

Lemma follows_prune zkey hkey c now :
  follows (DB := DB) (quota_prune_script zkey hkey c now) (quota_prune_script zkey hkey c now).
Proof. unfold quota_prune_script. auto 10 with redis_db. Qed.

Abbreviation nests := (lua_nests (DB := DB)).

(** Only the age of the window is lost, never the count or the total. *)
Lemma follows_read zkey hkey caps now :
  follows_as (λ '(count, total, first), (count, total, if nests then None else first))
    (quota_read_script zkey hkey caps now) (quota_read_script zkey hkey caps now).
Proof.
  unfold quota_read_script. apply follows_then; [apply follows_call|intros reply]. cbn zeta.
  apply follows_then; [apply follows_call|intros count].
  assert (Hr : oldest_ts (with_scores nests reply)
    = (if nests then None else oldest_ts (with_scores (lua_nests (DB := Redis)) reply)))
    by by destruct nests, reply as [[]|].
  rewrite Hr. destruct (qc_max_response_bytes caps); [|by apply follows_as_ret].
  apply follows_then; [apply follows_call|intros vs]. by apply follows_as_ret.
Qed.

Lemma follows_admit zkey hkey window now member :
  follows (DB := DB) (quota_admit_script zkey hkey window now member)
    (quota_admit_script zkey hkey window now member).
Proof. unfold quota_admit_script. auto 10 with redis_db. Qed.

Lemma follows_reserve zkey hkey caps now member :
  follows_as (told nests caps) (quota_reserve_script zkey hkey caps now member)
    (quota_reserve_script zkey hkey caps now member).
Proof.
  unfold quota_reserve_script. apply follows_then; [apply follows_prune|intros _].
  eapply follows_as_bind; [apply follows_read|intros [[count total] first]]. cbn beta iota.
  rewrite told_decision. destruct (quota_decision caps now count total first) as [[]|e]; cbn [told].
  - apply follows_then; [apply follows_admit|intros _]. by apply follows_as_ret.
  - destruct e; by apply follows_as_ret.
Qed.

Lemma follows_record zkey hkey member n now :
  follows (DB := DB) (quota_record_script zkey hkey member n now) (quota_record_script zkey hkey member n now).
Proof. unfold quota_record_script. apply follows_bind; [auto with redis_db|]. intros []; auto with redis_db. Qed.

Definition same_server (st : RedisQuotaLimiter DB) (st' : RedisQuotaLimiter Redis) : Prop :=
  rq_reachable st = rq_reachable st' ∧ contents (rq_db st) = rq_db st'.

Lemma server_reserve st st' key caps now fresh :
  same_server st st' →
  same_server (reserve st key caps now fresh).1 (reserve st' key caps now fresh).1
  ∧ (reserve st key caps now fresh).2
    = match (reserve st' key caps now fresh).2 with
      | Ok h => Ok h
      | Raise e => told nests caps (Raise e) ≫= λ _, Raise e
      end.
Proof.
  intros [Hr Hdb]. cbn [reserve redis_quota]. unfold redis_reserve. rewrite <- Hr, <- Hdb.
  destruct (rq_reachable st) eqn:Hreach; cbn [fst snd]; [|split; [by split; congruence|done]].
  pose proof (follows_reserve (quota_zkey key) (quota_hkey key) caps now fresh (rq_db st)) as Hf.
  destruct (quota_reserve_script _ _ _ _ _ (rq_db st)) as [db r].
  destruct (quota_reserve_script _ _ _ _ _ (contents (rq_db st))) as [db' r']. cbn [fst snd] in Hf |- *.
  injection Hf as <- ->. split; [done|]. destruct r' as [[[]|e]|]; cbn; try done. by destruct e.
Qed.

Lemma server_record st st' h b now :
  same_server st st' → same_server (record_bytes st h b now) (record_bytes st' h b now).
Proof.
  intros [Hr Hdb]. destruct h as [| hkey m|]; cbn [record_bytes redis_quota redis_record_bytes]; [done| |done].
  rewrite <- Hr, <- Hdb.
  destruct (rq_reachable st) eqn:Hreach; cbn [fst snd]; [|by split; congruence].
  pose proof (follows_record (drop_bytes_suffix hkey) hkey m (Z.max 0 b) now (rq_db st)) as Hf.
  split; [done|]. cbn [rq_db]. by rewrite <- Hf.
Qed.

Lemma server_runs calls : ∀ n held st st', same_server st st' →
  (quota_run (MkUse st n held) calls).2
  = zip_with (told_of nests) calls (quota_run (MkUse st' n held) calls).2.
Proof.
  induction calls as [|[key caps now|i b now] calls IH]; intros n held st st' Hs; cbn; [done|..].
  - destruct (server_reserve st st' key caps now (pretty n) Hs) as [Hs' Hr].
    cbn [reserve redis_quota] in Hs', Hr.
    destruct (redis_reserve st key caps now (pretty n)) as [st1 r1], (redis_reserve st' key caps now (pretty n)) as [st2 r2].
    cbn [fst snd] in Hs', Hr. subst r1. destruct r2 as [h|e]; cbn.
    + specialize (IH (S n) (held ++ [h]) st1 st2 Hs').
      do 2 destruct (quota_run _ calls) as [? ?]. cbn in *. by rewrite IH.
    + specialize (IH (S n) held st1 st2 Hs').
      destruct e; cbn; do 2 destruct (quota_run _ calls) as [? ?]; cbn in *; by rewrite IH.
  - destruct (held !! i) as [h|].
    + specialize (IH n held _ _ (server_record st st' h b now Hs)). cbn [record_bytes redis_quota] in IH.
      do 2 destruct (quota_run _ calls) as [? ?]. cbn in *. by rewrite IH.
    + specialize (IH n held st st' Hs).
      do 2 destruct (quota_run _ calls) as [? ?]. cbn in *. by rewrite IH.
Qed.
End server.

(** C15. The two quota backends are one limiter: over any run on a clock that does
    not go back, with one window length for each key, keys that do not collide in
    Redis, and a server that answers, does as documented and starts empty, the
    scripts admit and refuse exactly the calls the in-process windows do, with
    the same message and kind. The hint of a refusal is the in-process one if the
    server's scripts see a member and its score side by side; if they see them
    in a table of their own, it is always the whole window. *)
Theorem redis_quota_refines {DB} `{RS : !RedisServer DB} (db : DB) W (ks : list QuotaKey) t calls :
  contents db = ∅ → (∀ k, 0 < W k) → keys_separate ks → calls_ok W t calls →
  calls_use (λ key, key ∈ ks) calls →
  (quota_run (fresh_use (MkRedisQuota db true)) calls).2
  = zip_with (told_of (lua_nests (DB := DB))) calls
      (quota_run (fresh_use (MkInProcessQuota ∅)) calls).2.
Proof.
  intros Hdb HW Hs Hok Hu. unfold fresh_use.
  rewrite (server_runs calls 0 [] (MkRedisQuota db true) (MkRedisQuota ∅ true)) by by split.
  f_equal.
  rewrite <- (redis_refines_log W HW ks Hs calls t 0 (MkQuotaLog ∅)); [|done..|apply rq_rel_empty].
  by destruct (in_process_refines_log W HW calls t 0 (MkQuotaLog ∅) (MkInProcessQuota ∅) [] Hok (ip_rel_empty W t)).
Qed.

(** * A concrete run *)

Definition minute_quota (m : Z) : QuotaCaps := request_caps 60 m.
Definition alice : QuotaKey := ("db", "alice").
Definition bob : QuotaKey := ("db", "bob").

(** Two requests a minute: the third, after two seconds, is refused with a hint
    of 58; bob is served meanwhile; alice is again after the hint. *)
Definition minute_calls : list quota_call :=
  [Reserve alice (minute_quota 2) (100 * second); RecordBytes 0 500 (101 * second);
   Reserve alice (minute_quota 2) (101 * second)].
Definition minute_mid : list quota_call := [Reserve bob (minute_quota 2) (130 * second)].

Lemma minute_calls_ok :
  calls_ok (λ _, 60) 0 (minute_calls ++ Reserve alice (minute_quota 2) (102 * second)
    :: minute_mid ++ [Reserve alice (minute_quota 2) (160 * second)]).
Proof. repeat split; vm_compute; discriminate. Qed.

Lemma minute_caps caps n : Reserve alice caps n ∈ minute_calls → qc_max_requests caps = Some 2.
Proof.
  intros H. repeat (apply elem_of_cons in H as [H|H]; [try discriminate H; by injection H as -> _|]).
  by apply not_elem_of_nil in H.
Qed.

Lemma quota_rolling_bound_witness : bounded id 60 2 [100 * second; 101 * second].
Proof.
  refine (quota_rolling_bound (λ _, 60) alice 2 0 minute_calls _ _ _ _).
  - intros _. reflexivity.
  - discriminate.
  - repeat split; vm_compute; discriminate.
  - exact minute_caps.
Defined.

Lemma quota_retry_admitted_witness :
  102 * second + 58 * second ≤ 160 * second
  ∧ (Some (Ok tt) : option (result unit)) = Some (Ok tt).
Proof.
  split; [vm_compute; discriminate|].
  refine (quota_retry_admitted (λ _, 60) alice 2 0 minute_calls minute_mid (102 * second) (160 * second)
    "request quota exceeded" 58 [Some (Ok tt); None; Some (Ok tt)] [Some (Ok tt)] (Some (Ok tt))
    _ _ _ _ _ _ _ _ _).
  - intros _. reflexivity.
  - discriminate.
  - exact minute_calls_ok.
  - exact minute_caps.
  - constructor; [discriminate|constructor].
  - vm_compute. reflexivity.
  - reflexivity.
  - reflexivity.
  - vm_compute. discriminate.
Defined.

(** The documentation, behind a bridge that nests. *)
#[refine] Instance nesting_server : RedisServer Redis | 100 :=
  {| lua_nests := true; contents db := db; call now A c := documented now c |}.
Proof. intros now A c db. by destruct (documented now c db). Defined.

Definition third_call : list quota_call :=
  minute_calls ++ [Reserve alice (minute_quota 2) (102 * second)].

Definition run_on (RS : RedisServer Redis) (calls : list quota_call) : list (option (result unit)) :=
  (quota_run (QL := @redis_quota Redis RS) (fresh_use (MkRedisQuota ∅ true)) calls).2.

Lemma redis_quota_refines_witness :
  run_on documented_server third_call
    = zip_with (told_of false) third_call (quota_run (fresh_use (MkInProcessQuota ∅)) third_call).2
  ∧ run_on nesting_server third_call
    = zip_with (told_of true) third_call (quota_run (fresh_use (MkInProcessQuota ∅)) third_call).2
  ∧ length (run_on documented_server third_call) = 4%nat.
Proof.
  assert (Hs : keys_separate [alice; bob]).
  { intros k1 k2 H1 H2. apply list_elem_of_In in H1, H2. cbn in H1, H2.
    destruct H1 as [<-|[<-|[]]], H2 as [<-|[<-|[]]]; split; vm_compute; try done; discriminate. }
  split; [|split; [|reflexivity]];
    [refine (@redis_quota_refines Redis documented_server ∅ (λ _, 60) [alice; bob] 0 third_call eq_refl _ Hs _ _)
    |refine (@redis_quota_refines Redis nesting_server ∅ (λ _, 60) [alice; bob] 0 third_call eq_refl _ Hs _ _)];
    try (intros _; reflexivity); try (repeat split; vm_compute; discriminate); repeat constructor.
Defined.

(** The third call, two seconds into the window of the first: 58 seconds to wait,
    the whole minute behind a bridge that nests. *)
Theorem nested_scores_hide_the_countdown :
  let refused hint := Some (Raise (QuotaExceededError "request quota exceeded" "requests" hint)) in
  last (quota_run (fresh_use (MkInProcessQuota ∅)) third_call).2 = Some (refused 58)
  ∧ last (run_on documented_server third_call) = Some (refused 58)
  ∧ last (run_on nesting_server third_call) = Some (refused 60).
Proof. split_and!; vm_compute; reflexivity. Qed.

(** Two principals whose keys do collide: the byte hash of [x] is the request set
    of [x:bytes]. Once [x] has been admitted, the other's script stops on the
    type of the key, which the client takes for an outage: it is admitted
    without a reservation, however often it asks under a cap of one request. *)
Theorem quota_key_collision_fails_open :
  quota_hkey ("db", "x") = quota_zkey ("db", "x:bytes")
  ∧ let ask key now := Reserve key (minute_quota 1) (now * second) in
    let u := (quota_run (fresh_use (MkRedisQuota (∅ : Redis) true))
               [ask ("db", "x") 1; ask ("db", "x:bytes") 2; ask ("db", "x:bytes") 3; ask ("db", "x:bytes") 4]).1 in
    qu_held u = [ReservedMember (quota_hkey ("db", "x")) "0"; Unreserved; Unreserved; Unreserved].
Proof. split; vm_compute; reflexivity. Qed.
