(* ===== verification/Fingerprint.v ===== *)
(** The shape fingerprint of [execution/disclosure_budget.py]: the audited shape
    of a scope, canonicalized (output names and table aliases resolved, volatile
    fields dropped, lists sorted), written as JSON text and hashed. Shown here:
    what a prober can vary without leaving its bucket. *)
From Stdlib Require Import Ascii Sorted.
From stdpp Require Import sorting pretty.
From S2P Require Export QueryShape JsonText.

(** * Canonical shapes *)

(** [_VOLATILE_SHAPE_KEYS] and [_AUTHORED_NAME_KEYS]. *)
Definition VOLATILE_SHAPE_KEYS : list string :=
  ["requested_limit"; "offset"; "n"; "fraction"; "alias"; "name"; "dir"; "nulls"].
Definition AUTHORED_NAME_KEYS : list string := ["alias"; "name"].
Definition ALIAS_REFERENCE_MARKER : string := "#alias".

Section canonical.
Context `{CF : CaseFold} `{FT : FloatText}.

(** [_collect_authored_names]: the names added to the set, in walk order. *)
Fixpoint collect_authored_names (node : json) : list string :=
  match node with
  | JObj fields =>
      flat_map (λ '(key, value),
        match value with
        | JStr s => if bool_decide (key ∈ AUTHORED_NAME_KEYS) then [casefold s] else []
        | _ => collect_authored_names value
        end) fields
  | JList items => flat_map collect_authored_names items
  | _ => []
  end.

(** [_table_alias_map]. *)
Definition add_aliases (mapping : dict string) (scope : StructuredQuery) : dict string :=
  foldl (λ m '(effective, physical), dict_setdefault (casefold effective) (casefold physical) m)
    mapping (effective_name_map scope).

Definition table_alias_map (q : StructuredQuery) : dict string :=
  foldl add_aliases [] (map sc_query (iter_query_scopes q)).

(** The string case of [_canonicalize]. *)
Definition canonical_name (aliases : dict string) (authored : gset string) (node : string) : string :=
  let folded := casefold node in
  if bool_decide (folded ∈ authored) then ALIAS_REFERENCE_MARKER
  else match partition_dot folded with
       | (prefix, Some rest) =>
           if bool_decide (prefix ∈ authored) then ALIAS_REFERENCE_MARKER +:+ "." +:+ rest
           else match dict_get prefix aliases with
                | Some physical => physical +:+ "." +:+ rest
                | None => folded
                end
       | (_, None) => folded
       end.

(** [_canonicalize]; [_sort_key] is [json_dumps]. *)
Fixpoint canonicalize (aliases : dict string) (authored : gset string) (node : json) : json :=
  match node with
  | JObj fields =>
      JObj (flat_map (λ '(key, value),
        if bool_decide (key ∈ VOLATILE_SHAPE_KEYS) then []
        else [(key, canonicalize aliases authored value)]) fields)
  | JList items => JList (sort_on json_dumps (map (canonicalize aliases authored) items))
  | JStr s => JStr (canonical_name aliases authored s)
  | v => v
  end.

Definition canonical_text (aliases : dict string) (authored : gset string) (node : json) : string :=
  json_dumps (canonicalize aliases authored node).

(** [shape_fingerprint]. *)
Definition shape_fingerprint `{!Digest} (q : StructuredQuery) : result string :=
  normalize_query_shape q ≫= λ shape,
  let authored := list_to_set (collect_authored_names shape) in
  Ok (String.substring 0 32 (sha256_hexdigest (canonical_text (table_alias_map q) authored shape))).
End canonical.

Lemma map_flat_map {A B C} (f : B → C) (g : A → list B) l :
  map f (flat_map g l) = flat_map (λ x, map f (g x)) l.
Proof. induction l as [|x l IH]; [done|]. cbn. by rewrite map_app, IH. Qed.

Lemma substring_length n s : (n ≤ String.length s)%nat → String.length (String.substring 0 n s) = n.
Proof.
  revert n. induction s as [|c s IH]; intros [|n] Hn; cbn in *; [done|lia|done|]. rewrite IH; lia.
Qed.

Section fingerprint.
Context `{CF : CaseFold} `{FT : FloatText}.

(** ** The text of a canonical list and of a canonical dict *)

Lemma canonical_text_list aliases authored l1 l2 :
  canonical_text aliases authored <$> l1 ≡ₚ canonical_text aliases authored <$> l2 →
  canonical_text aliases authored (JList l1) = canonical_text aliases authored (JList l2).
Proof.
  intros Hp. unfold canonical_text. cbn. f_equal. f_equal. unfold commas. f_equal.
  apply (sort_on_keys json_dumps). by rewrite <- !list_fmap_compose.
Qed.

Definition text_fields (aliases : dict string) (authored : gset string) (fields : list (string * json)) :
  list (string * string) :=
  flat_map (λ '(key, value), if bool_decide (key ∈ VOLATILE_SHAPE_KEYS) then []
                             else [(key, canonical_text aliases authored value)]) fields.

Lemma text_fields_app aliases authored l k :
  text_fields aliases authored (l ++ k) = text_fields aliases authored l ++ text_fields aliases authored k.
Proof. apply flat_map_app. Qed.

Lemma canonical_text_obj aliases authored f1 f2 :
  text_fields aliases authored f1 = text_fields aliases authored f2 →
  canonical_text aliases authored (JObj f1) = canonical_text aliases authored (JObj f2).
Proof.
  assert (Heq : ∀ f, map (λ '(k, x), (k, json_dumps x))
      (flat_map (λ '(key, value), if bool_decide (key ∈ VOLATILE_SHAPE_KEYS) then []
        else [(key, canonicalize aliases authored value)]) f) = text_fields aliases authored f).
  { unfold text_fields, canonical_text. induction f as [|[key v] f IH]; [done|]. cbn.
    rewrite map_app, IH. by destruct (bool_decide _). }
  intros H. unfold canonical_text. cbn. by rewrite !Heq, H.
Qed.

(** ** Redaction commutes with the scope walk *)

Definition redact_scope (s : Scope) : Scope := MkScope (sc_path s) (sc_depth s) (redact (sc_query s)).

Lemma redact_from_table q : from_table (redact q) = from_table q.
Proof. by destruct q. Qed.
Lemma redact_joins q : map js_table (joins (redact q)) = map js_table (joins q).
Proof. destruct q. cbn. by rewrite map_map. Qed.
Lemma redact_ctes q : ctes (redact q) = map (redact_cte redact) (ctes q).
Proof. by destruct q. Qed.

Lemma redact_predicate_subqueries (re : Expression → Expression) (p : Pred) :
  predicate_subqueries (redact_predicate_with re redact p) = map redact (predicate_subqueries p).
Proof. destruct p as [? ? ? ? ? ? ? [] []]; reflexivity. Qed.

Lemma redact_nested_subqueries q : nested_subqueries (redact q) = map redact (nested_subqueries q).
Proof.
  assert (Hw : ∀ o : option WhereNode,
    flat_map predicate_subqueries (option_flat_map iter_where_predicates (redact_where redact <$> o))
    = map redact (flat_map predicate_subqueries (option_flat_map iter_where_predicates o))).
  { intros [w|]; [|done]. cbn. unfold redact_where. rewrite where_predicates_map, flat_map_map.
    induction (iter_where_predicates w) as [|p l IH]; [done|]. cbn.
    by rewrite redact_predicate_subqueries, IH, map_app. }
  unfold nested_subqueries, iter_where_and_having_predicates.
  destruct q as [? ? ? ? ? w ? h ? ? ? ? ? ? ? ? ?]. cbn [redact where_ having].
  by rewrite !flat_map_app, map_app, !Hw.
Qed.

Lemma redact_set_op_arms q : set_op_arms (redact q) = map redact (set_op_arms q).
Proof. unfold set_op_arms. by destruct q as [? ? ? ? ? ? ? ? ? ? ? ? [] ? ? ? ?]. Qed.

Lemma redact_source_names q : source_names (redact q) = source_names q.
Proof.
  unfold source_names. rewrite redact_from_table. f_equal. rewrite <- !(map_map js_table casefold).
  by rewrite redact_joins.
Qed.

Lemma redact_effective_names q : effective_name_map (redact q) = effective_name_map q.
Proof.
  unfold effective_name_map. destruct q as [f fa ? ? js ? ? ? ? ? ? ? ? ? ? ? ?].
  cbn [redact from_table from_alias joins]. generalize [(casefold (str_or fa f), f)].
  induction js as [|j js IH]; intros m; [done|]. cbn. apply IH.
Qed.

Lemma redact_aggregates q : is_aggregate_scope (redact q) = is_aggregate_scope q.
Proof.
  unfold is_aggregate_scope. destruct q as [? ? items ? ? ? ? ? ? ? ? ? ? ? ? ? ?]. cbn.
  f_equal. induction items as [|i items IH]; [done|]. cbn. rewrite IH. f_equal. by destruct i.
Qed.

(** Where the source names of every block are kept, so are the chain depths. *)
Lemma redact_cte_depths q :
  (∀ c, c ∈ ctes q → cte_source_names (redact (cte_query c)) = cte_source_names (cte_query c)) →
  cte_chain_depths (redact q) = cte_chain_depths q.
Proof.
  intros H. unfold cte_chain_depths. f_equal. rewrite redact_ctes, map_map. apply map_ext_in.
  intros c Hc. cbn. f_equal. apply H. by apply list_elem_of_In.
Qed.

Lemma redact_scopes_from q : ∀ d,
  iter_query_scopes_from (redact q) d = map redact_scope (iter_query_scopes_from q d).
Proof.
  induction q as [q IH] using query_ind_children. intros d.
  rewrite !iter_query_scopes_from_eq. cbn [map]. f_equal.
  assert (Hsrc : ∀ c, c ∈ query_children q → cte_source_names (redact c) = cte_source_names c).
  { intros c Hc. unfold cte_source_names, iter_query_scopes. rewrite (IH c Hc), flat_map_map.
    apply flat_map_ext. intros s. apply redact_source_names. }
  assert (Hdepth : cte_chain_depths (redact q) = cte_chain_depths q).
  { apply redact_cte_depths. intros c Hc. apply Hsrc. unfold query_children.
    apply elem_of_app. left. apply elem_of_map. eauto. }
  assert (Hc : scope_children (redact q) d
               = map (λ '(step, c, d'), (step, redact c, d')) (scope_children q d)).
  { unfold scope_children. rewrite redact_ctes, redact_set_op_arms, redact_nested_subqueries, !map_app.
    assert (Himap : ∀ (A B C : Type) (g : nat → A → B) (h : B → C) l, map h (imap g l) = imap (λ i x, h (g i x)) l).
    { intros A B C g h l. apply fmap_imap. }
    rewrite !Himap. repeat match goal with |- context [map ?f ?l] =>
      change (map f l) with (f <$> l) end.
    rewrite !imap_fmap. f_equal. apply imap_ext. intros i c _. cbn. unfold cte_depth. by rewrite Hdepth. }
  rewrite Hc, flat_map_map, map_flat_map. apply flat_map_ext_elem. intros [[step c] d'] Hin.
  rewrite (IH c) by (by eapply scope_children_query). by rewrite !map_map.
Qed.

Lemma redact_scopes q : iter_query_scopes (redact q) = map redact_scope (iter_query_scopes q).
Proof. apply redact_scopes_from. Qed.

Lemma redact_alias_map q : table_alias_map (redact q) = table_alias_map q.
Proof.
  unfold table_alias_map. rewrite redact_scopes, map_map. generalize (@nil (string * string)).
  induction (iter_query_scopes q) as [|s l IH]; intros m; [done|]. cbn. rewrite <- IH. f_equal.
  unfold add_aliases. cbn. by rewrite redact_effective_names.
Qed.

Context `{DG : !Digest}.

(** A prober who varies literals, amounts and offsets stays in one bucket. *)
Lemma fingerprint_redact q : shape_fingerprint (redact q) = shape_fingerprint q.
Proof. unfold shape_fingerprint. by rewrite redact_shape, redact_alias_map. Qed.

Lemma shape_fingerprint_length q fp : shape_fingerprint q = Ok fp → String.length fp = 32%nat.
Proof.
  unfold shape_fingerprint. intros (shape & _ & [= <-])%bind_ok.
  pose proof (sha256_length (canonical_text (table_alias_map q)
    (list_to_set (collect_authored_names shape)) shape)) as Hlen.
  apply substring_length. lia.
Qed.

(** ** Reordering *)

(** What a prober can rewrite of one scope without asking anything else: the
    order of its lists, sort directions, the row limit and offset, the intent. *)
Record rewritten (q q' : StructuredQuery) : Prop := {
  rw_from : from_table q' = from_table q;
  rw_alias : from_alias q' = from_alias q;
  rw_select : select q' ≡ₚ select q;
  rw_joins : joins q' = joins q;
  rw_where : where_ q' = where_ q;
  rw_group : group_by q' ≡ₚ group_by q;
  rw_having : having q' = having q;
  rw_order : map ob_col (order_by q') ≡ₚ map ob_col (order_by q);
  rw_top : top_n q' = top_n q;
  rw_set_op : set_op q' = set_op q;
  rw_correlate : correlate q' = correlate q;
  rw_ctes : ctes q' = ctes q;
}.

Lemma rewritten_alias_map q q' : rewritten q q' → table_alias_map q' = table_alias_map q.
Proof.
  intros [Hf Ha _ Hj Hw _ Hh _ _ Hso _ Hc]. unfold table_alias_map.
  rewrite !iter_query_scopes_eq. cbn [map foldl sc_query].
  assert (Hadd : ∀ m, add_aliases m q' = add_aliases m q).
  { intros m. unfold add_aliases, effective_name_map. by rewrite Hf, Ha, Hj. }
  assert (Hchild : scope_children q' 0 = scope_children q 0).
  { unfold scope_children, cte_depth, cte_chain_depths, set_op_arms, nested_subqueries,
      iter_where_and_having_predicates. by rewrite Hc, Hso, Hw, Hh. }
  by rewrite Hadd, Hchild.
Qed.

Lemma map_result_perm {A B} (f : A → result B) l l' k :
  l ≡ₚ l' → map_result f l = Ok k → ∃ k', map_result f l' = Ok k' ∧ k ≡ₚ k'.
Proof.
  intros Hp. revert k. induction Hp as [|x l l' _ IH|x y l|l1 l2 l3 _ IH1 _ IH2]; intros k Hk.
  - by exists k.
  - cbn in Hk |- *. apply bind_ok in Hk as (b & -> & (bs & Hbs & [= <-])%bind_ok).
    destruct (IH bs Hbs) as (k' & -> & ?). exists (b :: k'). by split; [|constructor].
  - cbn in Hk |- *. apply bind_ok in Hk as (b & -> & Hk). cbn in Hk.
    apply bind_ok in Hk as (bs & Hbs & [= <-]). apply bind_ok in Hbs as (c & -> & (cs & -> & [= <-])%bind_ok).
    exists (c :: b :: cs). split; [done|constructor].
  - destruct (IH1 k Hk) as (k2 & Hk2 & ?). destruct (IH2 k2 Hk2) as (k3 & ? & ?).
    exists k3. split; [done|]. by transitivity k2.
Qed.

Lemma order_dump_text aliases authored l :
  canonical_text aliases authored <$> map order_dump l
  = (λ c, canonical_text aliases authored (JObj [("col", JStr c)])) <$> map ob_col l.
Proof.
  induction l as [|o l IH]; [done|]. cbn [map]. rewrite !fmap_cons, IH. reflexivity.
Qed.

Lemma collect_text l : flat_map collect_authored_names (map JStr l) = [].
Proof. by induction l. Qed.

Lemma collect_orders l : flat_map collect_authored_names (map order_dump l) = [].
Proof. induction l as [|o l IH]; [done|]. cbn. rewrite IH. by destruct (ob_nulls o). Qed.

(** A shape, by the fields a rewriting reaches. *)
Definition shape_fields (from : string) (items js : list json) (gb : list string) (ob : list OrderBySpec)
  (off : Z) (lim : option Z) (rest1 rest2 : list (string * json)) : json :=
  JObj ([("from", JStr from); ("select", JList items); ("joins", JList js); ("group_by", JText gb);
         ("order_by", JList (map order_dump ob)); ("offset", JInt off)]
        ++ rest1 ++ opt_field "requested_limit" JInt lim ++ rest2).

Lemma collect_obj_app l k :
  collect_authored_names (JObj (l ++ k)) = collect_authored_names (JObj l) ++ collect_authored_names (JObj k).
Proof. apply flat_map_app. Qed.

Lemma collect_shape_fields from items js gb ob off lim rest1 rest2 :
  collect_authored_names (shape_fields from items js gb ob off lim rest1 rest2)
  = flat_map collect_authored_names items ++ flat_map collect_authored_names js
    ++ collect_authored_names (JObj rest1) ++ collect_authored_names (JObj rest2).
Proof.
  unfold shape_fields. rewrite !collect_obj_app.
  assert (collect_authored_names (JObj (opt_field "requested_limit" JInt lim)) = []) as -> by by destruct lim.
  cbn. rewrite collect_text, collect_orders. cbn. by rewrite app_nil_r, <- !app_assoc.
Qed.

Lemma text_shape_fields aliases authored from items items' js gb gb' ob ob' off off' lim lim' rest1 rest2 :
  items' ≡ₚ items → gb' ≡ₚ gb → map ob_col ob' ≡ₚ map ob_col ob →
  canonical_text aliases authored (shape_fields from items' js gb' ob' off' lim' rest1 rest2)
  = canonical_text aliases authored (shape_fields from items js gb ob off lim rest1 rest2).
Proof.
  intros Hi Hg Ho. apply canonical_text_obj. rewrite !text_fields_app. f_equal.
  2: { f_equal. f_equal. by destruct lim, lim'. }
  set (text := canonical_text aliases authored).
  change ([("from", text (JStr from)); ("select", text (JList items')); ("joins", text (JList js));
      ("group_by", text (JList (map JStr gb'))); ("order_by", text (JList (map order_dump ob')))]
    = [("from", text (JStr from)); ("select", text (JList items)); ("joins", text (JList js));
      ("group_by", text (JList (map JStr gb))); ("order_by", text (JList (map order_dump ob)))]).
  subst text. rewrite (canonical_text_list aliases authored items' items) by by rewrite Hi.
  rewrite (canonical_text_list aliases authored (map JStr gb') (map JStr gb)).
  2: { change (map JStr ?l) with (JStr <$> l). by rewrite Hg. }
  rewrite (canonical_text_list aliases authored (map order_dump ob') (map order_dump ob)); [done|].
  by rewrite !order_dump_text, Ho.
Qed.

(** C21. Rewriting a query without asking anything else (its select, group and
    order lists in any order, sort directions, limit and offset, the intent)
    keeps its fingerprint, so it spends the same budget. *)
Theorem fingerprint_ignores_rewriting q q' fp :
  rewritten q q' → shape_fingerprint q = Ok fp → shape_fingerprint q' = Ok fp.
Proof.
  intros Hr. pose proof (rewritten_alias_map q q' Hr) as Hal.
  destruct Hr as [Hf Ha Hsel Hj Hw Hg Hh Ho Ht Hso Hcor Hc].
  unfold shape_fingerprint. rewrite Hal. generalize (table_alias_map q). intros aliases.
  clear Hal. intros (shape & Hs & [= <-])%bind_ok.
  destruct q as [from ? items ? js w gb hv ob lim off tn so cor cs ? ?].
  destruct q' as [? ? items' ? js' w' gb' hv' ob' lim' off' tn' so' cor' cs' ? ?]. cbn in *. simplify_eq.
  apply bind_ok in Hs as (k & Hk & Hs). apply bind_ok in Hs as (jk & Hjk & Hs).
  apply bind_ok in Hs as (wf & Hwf & Hs). apply bind_ok in Hs as (hf & Hhf & Hs).
  apply bind_ok in Hs as (sf & Hsf & Hs). apply bind_ok in Hs as (cf & Hcf & [= <-]).
  destruct (map_result_perm (select_shape normalize_query_shape) items items' k) as (k' & Hk' & Hp); [done..|].
  rewrite Hk', Hjk, Hwf, Hhf, Hsf. cbn [mbind result_bind]. rewrite Hcf. cbn [mbind result_bind].
  set (rest2 := opt_field "top_n" top_n_shape tn ++ _). rewrite !(app_assoc wf hf).
  change (JObj (("from", JStr from) :: ?a :: ?b :: ?c :: ?d :: ?e :: (wf ++ hf) ++ ?r)) with
    (JObj ([("from", JStr from); a; b; c; d; e] ++ (wf ++ hf) ++ r)).
  fold (shape_fields from k' jk gb' ob' off' lim' (wf ++ hf) rest2).
  fold (shape_fields from k jk gb ob off lim (wf ++ hf) rest2).
  assert (list_to_set (C := gset string) (collect_authored_names (shape_fields from k' jk gb' ob' off' lim' (wf ++ hf) rest2))
    = list_to_set (collect_authored_names (shape_fields from k jk gb ob off lim (wf ++ hf) rest2))) as ->.
  { apply leibniz_equiv. rewrite !collect_shape_fields. apply list_to_set_perm.
    by rewrite (Permutation_flat_map collect_authored_names Hp). }
  by rewrite (text_shape_fields _ _ _ k k' jk gb gb' ob ob' off off' lim lim').
Qed.
End fingerprint.

(** * A concrete probe *)


(** [SELECT dept, count( * ) AS alias FROM employees WHERE age > n GROUP BY dept]. *)
Definition probe_items (alias : string) : list SelectItem :=
  [ColumnItem "dept"; AggregateSelectItem AggCount (Some "*") None false (Some alias)].

Definition probe_with (items : list SelectItem) (orders : list OrderBySpec) (lim : option Z) (n : Z) :
  StructuredQuery :=
  MkStructuredQuery "employees" None items false []
    (Some (WPredicate (value_predicate "age" OpGt (JInt n)))) ["dept"] None orders lim 0 None None [] []
    None None.

Definition probe (n : Z) : StructuredQuery := probe_with (probe_items "c") [] None n.

Definition fingerprint_of (q : StructuredQuery) : result string :=
  @shape_fingerprint ascii_casefold sample_floats sample_digest q.

Definition dept_first : StructuredQuery :=
  probe_with (probe_items "c") [MkOrderBySpec "c" SortAsc None; MkOrderBySpec "dept" SortAsc None] (Some 10%Z) 40.
Definition dept_last : StructuredQuery :=
  probe_with (reverse (probe_items "c")) [MkOrderBySpec "dept" SortDesc None; MkOrderBySpec "c" SortDesc (Some NullsFirst)]
    (Some 20%Z) 40.

Lemma fingerprint_ignores_rewriting_witness :
  ∃ fp, fingerprint_of dept_first = Ok fp ∧ fingerprint_of dept_last = Ok fp.
Proof.
  destruct (fingerprint_of dept_first) as [fp|e] eqn:E; [|exfalso; vm_compute in E; discriminate E].
  exists fp. split; [reflexivity|].
  refine (@fingerprint_ignores_rewriting ascii_casefold sample_floats sample_digest dept_first dept_last fp _ E).
  split; try reflexivity; apply Permutation_swap || (cbn; apply perm_swap).
Defined.

(** Renaming the output alias along with its references changes nothing either;
    another column does. *)
Lemma renamed_alias_same_bucket :
  let by_alias a := probe_with (probe_items a) [MkOrderBySpec a SortAsc None] None in
  fingerprint_of (by_alias "c" 40%Z) = fingerprint_of (by_alias "d" 41%Z)
  ∧ fingerprint_of (by_alias "c" 40%Z) ≠ fingerprint_of (probe_with [ColumnItem "dept"] [] None 40%Z).
Proof. split; [reflexivity|vm_compute; discriminate]. Qed.
