(* ===== verification/Disclosure.v ===== *)
(** The cumulative disclosure budget, [execution/disclosure_budget.py]: what a
    query costs, the in-process limiter, and the gate in front of every
    aggregate read. Shown: a refused query spends nothing, and however a caller
    varies the literals of one probe, the answers it gets in any window are at
    most the configured number. *)
From Stdlib Require Import Sorted.
From stdpp Require Import sorting gmultiset.
From S2P Require Export Policy Fingerprint RollingWindow.
Local Open Scope Z_scope.

(** [(connection_id, principal_subject, purpose, table, shape_fingerprint)]. *)
Abbreviation DisclosureKey := (string * string * string * string * string)%type.

Record Charge := MkCharge {
  ch_key : DisclosureKey;
  ch_limit : Z;
  ch_kind : string;
  ch_weight : Z;
}.

Definition KIND_SHAPE : string := "disclosure_shape".
Definition KIND_TABLE : string := "disclosure_table".

(** [rejection_message], its fixed part; nothing of the cap is in it. *)
Definition rejection_message : string := "disclosure budget exceeded".

(** [DisclosureBudgetLimiter], the protocol. *)
Class DisclosureBudgetLimiter (S : Type) :=
  reserve_charges : S → list Charge → Z → Z → S * result unit.

(** * In process *)

Abbreviation disclosure_windows := (gmap DisclosureKey (list Z)).

(** A window is the list of its entries' timestamps. *)
Record InProcessDisclosure := MkInProcessDisclosure {
  dl_windows : disclosure_windows;
  dl_last_sweep : Z;
}.

(** [_sweep]: a key whose newest entry is not after the cutoff goes. *)
Definition sweep (c : Z) (w : disclosure_windows) : disclosure_windows :=
  filter (λ kv, match last kv.2 with Some newest => c <? newest | None => false end = true) w.

(** The first phase of [reserve]: prune and check every charge; the pruned
    windows, with their charges, are what the second phase extends. *)
Fixpoint check_charges (window now : Z) (charges : list Charge) (w : disclosure_windows) :
  disclosure_windows * result (list (Charge * list Z)) :=
  match charges with
  | [] => (w, Ok [])
  | ch :: charges =>
      let '(entries, w) := prune id w (ch_key ch) (cutoff window now) in
      if ch_limit ch <? Z.of_nat (length entries) + ch_weight ch then
        (w, Raise (DisclosureBudgetExceededError rejection_message (ch_kind ch)
                     (retry_after window now (oldest id entries))))
      else let '(w, r) := check_charges window now charges w in
           (w, r ≫= λ pruned, Ok ((ch, entries) :: pruned))
  end.

(** The second phase. *)
Definition record_charges (now : Z) (pruned : list (Charge * list Z)) (w : disclosure_windows) :
  disclosure_windows :=
  foldl (λ w '(ch, entries), <[ch_key ch := entries ++ replicate (Z.to_nat (ch_weight ch)) now]> w) w pruned.

#[export] Instance in_process_disclosure : DisclosureBudgetLimiter InProcessDisclosure :=
  λ st charges window now,
  let due := window * second <? now - dl_last_sweep st in
  let swept := if due then sweep (cutoff window now) (dl_windows st) else dl_windows st in
  let last_sweep := if due then now else dl_last_sweep st in
  let '(w, r) := check_charges window now charges swept in
  match r with
  | Raise e => (MkInProcessDisclosure w last_sweep, Raise e)
  | Ok pruned => (MkInProcessDisclosure (record_charges now pruned w) last_sweep, Ok tt)
  end.

(** * What a query costs *)

(** [sorted] on pairs of strings. *)
Definition pair_le (x y : string * string) : Prop :=
  if decide (x.1 = y.1) then (x.2 ≤ y.2)%string else (x.1 ≤ y.1)%string.
#[export] Instance pair_le_dec : RelDecision pair_le.
Proof. intros x y. unfold pair_le. destruct (decide (x.1 = y.1)); apply _. Defined.

Section costs.
Context `{CF : CaseFold} `{FT : FloatText} `{DG : !Digest}.

(** [[scope.from_table, *(join.table for join in scope.joins)]], folded. *)
Definition scope_tables (q : StructuredQuery) : list string := source_names q.

(** [resolved.get(key, frozenset({key}))]. *)
Definition base_tables (resolved : gmap string (gset string)) (key : string) : gset string :=
  default {[key]} (resolved !! key).

(** [_cte_base_tables]. *)
Definition cte_base_tables (q : StructuredQuery) : gmap string (gset string) :=
  foldl (λ resolved spec,
    <[casefold (cte_name spec) :=
        ⋃ (base_tables resolved <$> flat_map (λ s, scope_tables (sc_query s))
             (iter_query_scopes (cte_query spec)))]> resolved) ∅ (ctes q).

(** The units of one aggregating scope: one per occurrence of a physical table. *)
Definition scope_units (bases : gmap string (gset string)) (scope : StructuredQuery) :
  result (list (string * string)) :=
  shape_fingerprint scope ≫= λ fingerprint,
  Ok (flat_map (λ key, map (λ physical, (physical, fingerprint))
                         (merge_sort String.le (elements (base_tables bases key))))
        (scope_tables scope)).

(** [budgeted_occurrences], as the list of its units; the [Counter] counts them. *)
Definition budgeted_occurrences (q : StructuredQuery) : result (list (string * string)) :=
  let bases := cte_base_tables q in
  let scopes := filter (λ s, is_aggregate_scope s = true) (map sc_query (iter_query_scopes q)) in
  map_result (scope_units bases) scopes ≫= λ units, Ok (concat units).

(** [sorted(Counter(l).items())]. *)
Definition counted `{Countable A} (R : relation A) `{!RelDecision R} (l : list A) : list (A * Z) :=
  map (λ x, (x, Z.of_nat (multiplicity x (list_to_set_disj l : gmultiset A))))
    (merge_sort R (elements (list_to_set l : gset A))).

(** [resolve_disclosure_budget]. *)
Definition resolve_disclosure_budget (p : Policy) : option (option Z * option Z * Z) :=
  if negb (disclosure_budget_enabled p) || negb (is_some (min_group_size (windows p))) then None
  else Some (max_shape_repeats_per_window (disclosure p), max_aggregate_queries_per_window (disclosure p),
             disclosure_budget_window_seconds (disclosure p)).

(** A purpose partitions the budget only when the operator closed the set. *)
Definition budget_purpose (p : Policy) (q : StructuredQuery) : string :=
  match allowed_purposes (access p) with [] => "" | _ => default "" (purpose q) end.

Definition table_charges (cap : option Z) (key : string → string → DisclosureKey)
  (units : list (string * string)) : list Charge :=
  match cap with
  | Some m => map (λ '(table, weight), MkCharge (key table "") m KIND_TABLE weight) (counted String.le units.*1)
  | None => []
  end.

Definition shape_charges (cap : option Z) (key : string → string → DisclosureKey)
  (units : list (string * string)) : list Charge :=
  match cap with
  | Some m =>
      map (λ '((table, fingerprint), weight), MkCharge (key table fingerprint) m KIND_SHAPE weight)
        (counted pair_le units)
  | None => []
  end.

(** The charges [enforce_disclosure_budget] builds. *)
Definition disclosure_charges (p : Policy) (q : StructuredQuery) (connection_id principal_subject : string) :
  result (list Charge) :=
  match resolve_disclosure_budget p with
  | None => Ok []
  | Some (max_shape_repeats, max_aggregate_queries, _) =>
      budgeted_occurrences q ≫= λ units,
      let key table fingerprint :=
        (connection_id, principal_subject, budget_purpose p q, table, fingerprint) in
      Ok (table_charges max_aggregate_queries key units ++ shape_charges max_shape_repeats key units)
  end.

(** [enforce_disclosure_budget] over the active limiter. *)
Definition enforce_disclosure_budget `{DisclosureBudgetLimiter L} (st : L) (q : StructuredQuery) (p : Policy)
  (connection_id : string) (principal_subject : option string) (now : Z) : L * result unit :=
  match principal_subject with
  | None => (st, Ok tt)
  | Some subject =>
      match disclosure_charges p q connection_id subject with
      | Raise e => (st, Raise e)
      | Ok [] => (st, Ok tt)
      | Ok charges => reserve_charges st charges (disclosure_budget_window_seconds (disclosure p)) now
      end
  end.
End costs.

(** * The limiter keeps its windows *)

Section limiter.
Context (W now : Z).

(** What of a key's window is still inside. *)
Definition live (w : disclosure_windows) (key : DisclosureKey) : list Z :=
  in_window id (cutoff W now) (entries_of w key).

Definition fits (w : disclosure_windows) (ch : Charge) : Prop :=
  Z.of_nat (length (live w (ch_key ch))) + ch_weight ch ≤ ch_limit ch.

(** What charges cost one key. *)
Fixpoint weight_of (key : DisclosureKey) (charges : list Charge) : Z :=
  match charges with
  | [] => 0
  | ch :: charges => (if decide (ch_key ch = key) then ch_weight ch else 0) + weight_of key charges
  end.

(** Stored windows are in time order and of the past. *)
Definition windows_ok (t : Z) (w : disclosure_windows) : Prop :=
  ∀ key es, w !! key = Some es → in_order id es ∧ Forall (λ e, e ≤ t) es.

Lemma entries_ok t w key : windows_ok t w → in_order id (entries_of w key) ∧ Forall (λ e, e ≤ t) (entries_of w key).
Proof.
  intros Hw. unfold entries_of. destruct (w !! key) as [es|] eqn:E; cbn.
  - by apply (Hw key).
  - split; constructor.
Qed.

Lemma windows_ok_insert t w key es :
  windows_ok t w → in_order id es → Forall (λ e, e ≤ t) es → windows_ok t (<[key := es]> w).
Proof.
  intros Hw Ho Hp k es' Hk. destruct (decide (key = k)) as [->|Hne].
  - rewrite lookup_insert_eq in Hk. by injection Hk as <-.
  - rewrite lookup_insert_ne in Hk by done. by apply (Hw k).
Qed.

Lemma windows_ok_store t w key es :
  windows_ok t w → in_order id es → Forall (λ e, e ≤ t) es → windows_ok t (store_window key es w).
Proof.
  intros Hw Ho Hp. unfold store_window. destruct es as [|e es]; [|by apply windows_ok_insert].
  intros k es' [_ Hk]%lookup_delete_Some. by apply (Hw k).
Qed.

Lemma windows_ok_later t t' w : windows_ok t w → t ≤ t' → windows_ok t' w.
Proof.
  intros Hw Ht key es Hk. destruct (Hw key es Hk) as [? Hp]. split; [done|].
  eapply Forall_impl; [exact Hp|]. cbn. lia.
Qed.

Lemma in_order_last es newest : in_order id es → last es = Some newest → Forall (λ e, e ≤ newest) es.
Proof.
  intros Ho Hl. induction Ho as [|e es Ho IH He]; [done|].
  destruct es as [|e' es]; [injection Hl as ->; by repeat constructor|].
  change (last (e' :: es) = Some newest) in Hl. specialize (IH Hl). constructor; [|done].
  rewrite Forall_forall in He. apply He. by apply last_Some_elem_of.
Qed.

Lemma sweep_ok t w : windows_ok t w → windows_ok t (sweep (cutoff W now) w).
Proof. intros Hw key es Hk. apply map_lookup_filter_Some in Hk as [Hk _]. by apply (Hw key). Qed.

(** Sweeping at one's own cutoff forgets nothing that is still inside. *)
Lemma sweep_live t w key : windows_ok t w → live (sweep (cutoff W now) w) key = live w key.
Proof.
  intros Hw. unfold live, entries_of. destruct (sweep _ w !! key) as [es|] eqn:F.
  { apply map_lookup_filter_Some in F as [F _]. by rewrite F. }
  apply map_lookup_filter_None in F as [F|Hg]; [by rewrite F|].
  destruct (w !! key) as [es|] eqn:E; [|done]. specialize (Hg es eq_refl). cbn in Hg |- *.
  destruct (Hw key es E) as (Ho & _). destruct (last es) as [newest|] eqn:Hl.
  - symmetry. apply in_window_none. eapply Forall_impl; [by apply in_order_last|]. cbn.
    intros e. apply not_true_is_false, Z.ltb_ge in Hg. unfold id. lia.
  - by apply last_None in Hl as ->.
Qed.

Lemma live_store w key k : live (store_window key (live w key) w) k = live w k.
Proof.
  unfold live. rewrite entries_of_store. destruct (decide (key = k)) as [->|]; [|done].
  by apply in_window_in_window.
Qed.

Lemma check_charges_spec t charges : ∀ w w' r,
  windows_ok t w → check_charges W now charges w = (w', r) →
  windows_ok t w' ∧ (∀ key, live w' key = live w key)
  ∧ match r with
    | Ok pruned => Forall (fits w) charges ∧ pruned = map (λ ch, (ch, live w (ch_key ch))) charges
    | Raise e => ∃ pre ch post, charges = pre ++ ch :: post ∧ Forall (fits w) pre ∧ ¬ fits w ch
        ∧ e = DisclosureBudgetExceededError rejection_message (ch_kind ch)
                (retry_after W now (oldest id (live w (ch_key ch))))
    end.
Proof.
  induction charges as [|ch charges IH]; intros w w' r Hw Hrun; cbn in Hrun.
  { injection Hrun as <- <-. split_and!; [done|done|constructor|done]. }
  unfold prune in Hrun. fold (live w (ch_key ch)) in Hrun.
  set (w1 := store_window (ch_key ch) (live w (ch_key ch)) w) in *.
  assert (Hlive : ∀ key, live w1 key = live w key) by (intros key; apply live_store).
  assert (Hw1 : windows_ok t w1).
  { destruct (entries_ok t w (ch_key ch) Hw) as [Ho Hp]. apply windows_ok_store; [done|by apply in_order_in_window|].
    apply Forall_forall. intros e [_ He]%in_window_elem. by eapply Forall_forall in Hp. }
  destruct (Z.ltb_spec (ch_limit ch) (Z.of_nat (length (live w (ch_key ch))) + ch_weight ch)) as [Hover|Hroom].
  { injection Hrun as <- <-. split_and!; [done..|]. exists [], ch, charges.
    split_and!; [done|constructor|unfold fits; lia|done]. }
  destruct (check_charges W now charges w1) as [w2 r2] eqn:E. injection Hrun as <- <-.
  destruct (IH w1 w2 r2 Hw1 E) as (Hw2 & Hl2 & Hr).
  assert (Hfits : ∀ c, fits w1 c ↔ fits w c) by (intros c; unfold fits; by rewrite Hlive).
  split_and!; [done|by intros key; rewrite Hl2|]. destruct r2 as [pruned|e]; cbn.
  - destruct Hr as [Hf ->]. split.
    + constructor; [done|]. eapply Forall_impl; [exact Hf|]. intros c. apply Hfits.
    + f_equal. apply map_ext. intros c. by rewrite Hlive.
  - destruct Hr as (pre & c & post & -> & Hpre & Hc & ->). exists (ch :: pre), c, post.
    split_and!; [done| |by rewrite <- Hfits|by rewrite Hlive].
    constructor; [done|]. eapply Forall_impl; [exact Hpre|]. intros c'. apply Hfits.
Qed.

Lemma weight_of_absent key charges : key ∉ ch_key <$> charges → weight_of key charges = 0.
Proof.
  induction charges as [|ch charges IH]; [done|]. rewrite fmap_cons. intros [Hne Hin]%not_elem_of_cons.
  cbn. rewrite IH by done. by rewrite decide_False by done.
Qed.

Lemma record_charges_entries w0 charges : ∀ w,
  NoDup (ch_key <$> charges) →
  ∀ key, entries_of (record_charges now (map (λ ch, (ch, live w0 (ch_key ch))) charges) w) key
  = if decide (key ∈ ch_key <$> charges)
    then live w0 key ++ replicate (Z.to_nat (weight_of key charges)) now
    else entries_of w key.
Proof.
  induction charges as [|ch charges IH]; intros w Hd key; [done|].
  apply NoDup_cons in Hd as [Hnew Hd]. rewrite fmap_cons.
  unfold record_charges in *. cbn [map foldl]. rewrite IH by done. clear IH.
  destruct (decide (key ∈ ch_key <$> charges)) as [Hin|Hout].
  - rewrite decide_True by by right. cbn. rewrite decide_False; [done|]. intros Heq. by rewrite Heq in Hnew.
  - rewrite entries_of_insert. cbn. rewrite weight_of_absent by done.
    destruct (decide (ch_key ch = key)) as [<-|Hne].
    + rewrite decide_True by by left. by rewrite Z.add_0_r.
    + rewrite decide_False; [done|]. intros [?|?]%elem_of_cons; [by subst|done].
Qed.
Lemma record_charges_ok t w0 charges : ∀ w,
  windows_ok t w0 → windows_ok now w → t ≤ now →
  windows_ok now (record_charges now (map (λ ch, (ch, live w0 (ch_key ch))) charges) w).
Proof.
  induction charges as [|ch charges IH]; intros w Hw0 Hw Ht; [done|]. cbn. apply IH; [done| |done].
  destruct (entries_ok t w0 (ch_key ch) Hw0) as [Ho Hp].
  assert (Hlive : Forall (λ e, e ≤ now) (live w0 (ch_key ch))).
  { apply Forall_forall. intros e [_ He]%in_window_elem. rewrite Forall_forall in Hp. specialize (Hp e He). lia. }
  assert (Hnew : Forall (λ e, e = now) (replicate (Z.to_nat (ch_weight ch)) now)).
  { apply Forall_forall. by intros e [-> _]%elem_of_replicate. }
  apply windows_ok_insert; [done| |].
  - apply (in_order_app id _ _ now); [by apply in_order_in_window|done|done].
  - apply Forall_app. split; [done|]. eapply Forall_impl; [exact Hnew|]. cbn. lia.
Qed.
End limiter.

Definition add_charge (key : DisclosureKey) (charges : list Charge) (now : Z) : list Z :=
  replicate (Z.to_nat (weight_of key charges)) now.

Lemma add_charge_absent key charges now : key ∉ ch_key <$> charges → add_charge key charges now = [].
Proof. intros H. unfold add_charge. by rewrite weight_of_absent. Qed.

Lemma add_charge_at key charges now : Forall (λ e, e = now) (add_charge key charges now).
Proof. apply Forall_forall. by intros e [-> _]%elem_of_replicate. Qed.

Lemma in_window_all c l : Forall (λ e, c < e) l → in_window id c l = l.
Proof.
  unfold in_window. induction 1 as [|e l He _ IH]; [done|]. by rewrite filter_cons_True, IH.
Qed.

(** What one reservation does, whichever way it ends. *)
Lemma reserve_spec W now t st charges :
  0 < W → windows_ok t (dl_windows st) → t ≤ now → NoDup (ch_key <$> charges) →
  ∃ st' r, reserve_charges st charges W now = (st', r) ∧ windows_ok now (dl_windows st')
    ∧ match r with
      | Ok _ => Forall (fits W now (dl_windows st)) charges
          ∧ ∀ key, live W now (dl_windows st') key = live W now (dl_windows st) key ++ add_charge key charges now
      | Raise e => (∃ pre ch post, charges = pre ++ ch :: post ∧ Forall (fits W now (dl_windows st)) pre
            ∧ ¬ fits W now (dl_windows st) ch
            ∧ e = DisclosureBudgetExceededError rejection_message (ch_kind ch)
                    (retry_after W now (oldest id (live W now (dl_windows st) (ch_key ch)))))
          ∧ ∀ key, live W now (dl_windows st') key = live W now (dl_windows st) key
      end.
Proof.
  intros HW Hok Ht Hd. unfold reserve_charges, in_process_disclosure.
  set (due := (W * second <? now - dl_last_sweep st)).
  set (w0 := if due then _ else _). set (ls := if due then now else _).
  assert (Hok0 : windows_ok t w0) by (subst w0; destruct due; [by apply sweep_ok|done]).
  assert (Hlive0 : ∀ key, live W now w0 key = live W now (dl_windows st) key).
  { intros key. subst w0. destruct due; [by apply (sweep_live W now t)|done]. }
  assert (Hfits : ∀ c, fits W now w0 c ↔ fits W now (dl_windows st) c).
  { intros c. unfold fits. by rewrite Hlive0. }
  destruct (check_charges W now charges w0) as [w1 r] eqn:E.
  destruct (check_charges_spec W now t charges w0 w1 r Hok0 E) as (Hok1 & Hlive1 & Hr).
  destruct r as [pruned|e].
  - destruct Hr as [Hf ->]. eexists _, _. split; [done|]. cbn [dl_windows].
    pose proof (record_charges_entries W now w0 charges w1 Hd) as Hent.
    assert (Hin : ∀ key, in_window id (cutoff W now) (add_charge key charges now) = add_charge key charges now).
    { intros key. apply in_window_all. eapply Forall_impl; [apply add_charge_at|]. cbn.
      intros e ->. unfold cutoff, second. lia. }
    assert (Hlive : ∀ key, live W now (record_charges now (map (λ ch, (ch, live W now w0 (ch_key ch))) charges) w1) key
      = live W now w0 key ++ add_charge key charges now).
    { intros key. unfold live at 1. rewrite Hent. destruct (decide (key ∈ ch_key <$> charges)) as [Hk|Hk].
      - rewrite in_window_app. f_equal; [by apply in_window_in_window|apply Hin].
      - rewrite add_charge_absent by done. rewrite app_nil_r. apply Hlive1. }
    split; [|split].
    + apply (record_charges_ok W now t); [done|by apply (windows_ok_later t)|done].
    + eapply Forall_impl; [exact Hf|]. intros c. apply Hfits.
    + intros key. by rewrite Hlive, Hlive0.
  - destruct Hr as (pre & ch & post & -> & Hpre & Hch & ->). eexists _, _. split; [done|]. cbn [dl_windows].
    split; [by apply (windows_ok_later t)|]. split; [|intros key; by rewrite Hlive1].
    exists pre, ch, post. split_and!; [done| |by rewrite <- Hfits|by rewrite Hlive0].
    eapply Forall_impl; [exact Hpre|]. intros c. apply Hfits.
Qed.

(** A reservation is all or nothing: it succeeds exactly when every charge
    has room in its window; otherwise the error names the kind of the first one
    that has none, with its wait, and not one window has less room for anybody
    at any later time. *)
Theorem reserve_all_or_nothing W now t (st : InProcessDisclosure) charges st' r :
  0 < W → windows_ok t (dl_windows st) → t ≤ now → NoDup (ch_key <$> charges) →
  reserve_charges st charges W now = (st', r) →
  (r = Ok tt ↔ Forall (fits W now (dl_windows st)) charges)
  ∧ (∀ e, r = Raise e →
      (∃ pre ch post, charges = pre ++ ch :: post ∧ Forall (fits W now (dl_windows st)) pre
        ∧ ¬ fits W now (dl_windows st) ch
        ∧ e = DisclosureBudgetExceededError rejection_message (ch_kind ch)
                (retry_after W now (oldest id (live W now (dl_windows st) (ch_key ch)))))
      ∧ ∀ key now', now ≤ now' → live W now' (dl_windows st') key = live W now' (dl_windows st) key).
Proof.
  intros HW Hok Ht Hd Hrun.
  destruct (reserve_spec W now t st charges HW Hok Ht Hd) as (st1 & r1 & Hrun1 & _ & Hr).
  rewrite Hrun in Hrun1. injection Hrun1 as <- <-. destruct r as [[]|e].
  - destruct Hr as [Hf _]. by split.
  - destruct Hr as [Hfirst Hlive]. split.
    + split; [done|]. intros Hf. destruct Hfirst as (pre & ch & post & -> & _ & Hch & _).
      apply Forall_app in Hf as [_ Hf]. by apply Forall_cons in Hf as [? _].
    + intros e' [= <-]. split; [done|]. intros key now' Hnow.
      assert (cutoff W now ≤ cutoff W now') by (unfold cutoff; lia).
      specialize (Hlive key). unfold live in *.
      rewrite <- (in_window_in_window id (cutoff W now)) by done. rewrite Hlive.
      by apply in_window_in_window.
Qed.

(** * Runs *)

Section runs.
Context `{CF : CaseFold} `{FT : FloatText} `{DG : !Digest}.

(** One governed query at the gate. *)
Record disclosure_call := MkDisclosureCall {
  dc_query : StructuredQuery;
  dc_policy : Policy;
  dc_connection : string;
  dc_principal : option string;
  dc_now : Z;
}.

Definition enforce_call `{DisclosureBudgetLimiter L} (st : L) (c : disclosure_call) : L * result unit :=
  enforce_disclosure_budget st (dc_query c) (dc_policy c) (dc_connection c) (dc_principal c) (dc_now c).

Fixpoint disclosure_run `{DisclosureBudgetLimiter L} (st : L) (calls : list disclosure_call) :
  L * list (result unit) :=
  match calls with
  | [] => (st, [])
  | c :: calls =>
      let '(st, o) := enforce_call st c in
      let '(st, os) := disclosure_run st calls in (st, o :: os)
  end.

(** Readings never go back, and one window length is used throughout. *)
Fixpoint disclosure_calls_ok (W t : Z) (calls : list disclosure_call) : Prop :=
  match calls with
  | [] => True
  | c :: calls => t ≤ dc_now c ∧ disclosure_budget_window_seconds (disclosure (dc_policy c)) = W
                  ∧ disclosure_calls_ok W (dc_now c) calls
  end.

(** When the queries [ours] picks were answered. *)
Fixpoint answered (ours : disclosure_call → bool) (calls : list disclosure_call) (os : list (result unit)) : list Z :=
  match calls, os with
  | c :: calls, Ok _ :: os => if ours c then dc_now c :: answered ours calls os else answered ours calls os
  | _ :: calls, _ :: os => answered ours calls os
  | _, _ => []
  end.

(** The charges of a call that carries any. *)
Definition call_charges (c : disclosure_call) : result (list Charge) :=
  match dc_principal c with
  | None => Ok []
  | Some subject => disclosure_charges (dc_policy c) (dc_query c) (dc_connection c) subject
  end.

(** What a run spent on one key. *)
Fixpoint spent (key : DisclosureKey) (calls : list disclosure_call) (os : list (result unit)) : list Z :=
  match calls, os with
  | c :: calls, o :: os =>
      match o, call_charges c with
      | Ok _, Ok charges => add_charge key charges (dc_now c)
      | _, _ => []
      end ++ spent key calls os
  | _, _ => []
  end.
End runs.

(** ** The charges of one query name distinct windows *)

Section charges.
Context `{CF : CaseFold} `{FT : FloatText} `{DG : !Digest}.

Lemma counted_keys `{Countable A} (R : relation A) `{!RelDecision R} (l : list A) :
  (counted R l).*1 ≡ₚ elements (list_to_set (C := gset A) l).
Proof. unfold counted. rewrite map_map. cbn. rewrite map_id. apply merge_sort_Permutation. Qed.

Lemma counted_elem `{Countable A} (R : relation A) `{!RelDecision R} (l : list A) x :
  x ∈ l → ∃ n, 1 ≤ n ∧ (x, n) ∈ counted R l.
Proof.
  intros Hx. eexists. split; [|].
  2: { unfold counted. apply elem_of_map. exists x. split; [done|].
       rewrite merge_sort_Permutation. by apply elem_of_elements, elem_of_list_to_set. }
  assert (0 < multiplicity x (list_to_set_disj l : gmultiset A))%nat; [|lia].
  apply elem_of_multiplicity. by apply elem_of_list_to_set_disj.
Qed.

Lemma charges_keys_distinct key (units : list (string * string)) cap1 cap2 :
  (∀ t f t' f', key t f = key t' f' → t = t' ∧ f = f') →
  (∀ u, u ∈ units → u.2 ≠ "") →
  NoDup (ch_key <$> table_charges cap1 key units ++ shape_charges cap2 key units).
Proof.
  intros Hinj Hne. rewrite fmap_app. apply NoDup_app.
  assert (Ht : ∀ k, k ∈ ch_key <$> table_charges cap1 key units → ∃ t, k = key t "").
  { intros k Hk. destruct cap1 as [m|]; [|by apply not_elem_of_nil in Hk].
    apply list_elem_of_fmap in Hk as (ch & -> & Hch). apply elem_of_map in Hch as ([t n] & -> & _). by exists t. }
  split_and!.
  - destruct cap1 as [m|]; [|constructor]. cbn. unfold counted. rewrite map_map.
    change (map ?f ?l) with (f <$> l). rewrite <- list_fmap_compose. apply NoDup_fmap_2_strong.
    + intros x y _ _ Heq. by apply Hinj in Heq as [? _].
    + rewrite merge_sort_Permutation. apply NoDup_elements.
  - intros k Hk Hk2. apply Ht in Hk as [t ->]. destruct cap2 as [m|]; [|by apply not_elem_of_nil in Hk2].
    apply list_elem_of_fmap in Hk2 as (ch & Heq & Hch). apply elem_of_map in Hch as ([[t' f] n] & -> & Hin).
    cbn in Heq. apply Hinj in Heq as [_ <-]. apply (Hne (t', "")); [|done].
    unfold counted in Hin. apply elem_of_map in Hin as (x & [= <- _] & Hx).
    rewrite merge_sort_Permutation in Hx. by apply elem_of_elements, elem_of_list_to_set in Hx.
  - destruct cap2 as [m|]; [|constructor]. cbn. unfold counted. rewrite map_map.
    change (map ?f ?l) with (f <$> l). rewrite <- list_fmap_compose. apply NoDup_fmap_2_strong.
    + intros [t f] [t' f'] _ _ Heq. by apply Hinj in Heq as [-> ->].
    + rewrite merge_sort_Permutation. apply NoDup_elements.
Qed.

Lemma scope_units_ok bases s us : scope_units bases s = Ok us →
  ∃ fp, shape_fingerprint s = Ok fp
    ∧ ∀ u, u ∈ us ↔ ∃ key, key ∈ scope_tables s ∧ u.1 ∈ base_tables bases key ∧ u.2 = fp.
Proof.
  unfold scope_units. generalize (scope_tables s). intros keys (fp & Hfp & [= <-])%bind_ok.
  exists fp. split; [done|]. intros [t f]. rewrite elem_of_flat_map. apply exist_proper. intros key.
  apply and_iff_compat_l. rewrite elem_of_map. setoid_rewrite merge_sort_Permutation.
  setoid_rewrite elem_of_elements. cbn. split; [by intros (x & [= -> ->] & ?)|intros [? ->]; eauto].
Qed.

Lemma units_fingerprints q units : budgeted_occurrences q = Ok units → ∀ u, u ∈ units → u.2 ≠ "".
Proof.
  unfold budgeted_occurrences. intros (l & Hl & [= <-])%bind_ok u Hu Hempty.
  apply elem_of_concat in Hu as (us & Hus & Hu).
  destruct (map_result_elem _ _ _ us Hl Hus) as (s & _ & Hs).
  apply scope_units_ok in Hs as (fp & Hfp%shape_fingerprint_length & Hunits).
  apply Hunits in Hu as (key & _ & _ & Heq). rewrite Hempty in Heq. by rewrite <- Heq in Hfp.
Qed.

Lemma disclosure_charges_distinct p q c s charges :
  disclosure_charges p q c s = Ok charges → NoDup (ch_key <$> charges).
Proof.
  unfold disclosure_charges. destruct (resolve_disclosure_budget p) as [[[m1 m2] w]|].
  - intros (units & Hu & [= <-])%bind_ok. apply charges_keys_distinct.
    + intros t f t' f' [= -> ->]. done.
    + by apply (units_fingerprints q).
  - intros [= <-]. constructor.
Qed.

(** Every charge of a query names its caller, and its limit is its cap. *)
Lemma disclosure_charges_elem p q c s charges ch :
  disclosure_charges p q c s = Ok charges → ch ∈ charges →
  ∃ table fp, ch_key ch = (c, s, budget_purpose p q, table, fp)
    ∧ (fp ≠ "" → max_shape_repeats_per_window (disclosure p) = Some (ch_limit ch)).
Proof.
  unfold disclosure_charges, resolve_disclosure_budget. destruct (_ || _).
  { intros [= <-] H. by apply not_elem_of_nil in H. }
  intros (units & Hu & [= <-])%bind_ok [Hch|Hch]%elem_of_app.
  - unfold table_charges in Hch. destruct (max_aggregate_queries_per_window _) as [m|]; [|by apply not_elem_of_nil in Hch].
    apply elem_of_map in Hch as ([t n] & -> & _). by exists t, "".
  - unfold shape_charges in Hch. destruct (max_shape_repeats_per_window _) as [m|]; [|by apply not_elem_of_nil in Hch].
    apply elem_of_map in Hch as ([[t f] n] & -> & _). by exists t, f.
Qed.

(** A query with a unit charges that unit's window. *)
Lemma disclosure_charges_unit p q c s m units table fp :
  max_shape_repeats_per_window (disclosure p) = Some m → min_group_size (windows p) ≠ None →
  budgeted_occurrences q = Ok units → (table, fp) ∈ units →
  ∃ charges ch, disclosure_charges p q c s = Ok charges ∧ ch ∈ charges
    ∧ ch_key ch = (c, s, budget_purpose p q, table, fp) ∧ 1 ≤ ch_weight ch.
Proof.
  intros Hm Hk Hu Hin. unfold disclosure_charges, resolve_disclosure_budget, disclosure_budget_enabled.
  rewrite Hm. destruct (min_group_size (windows p)) as [k|]; [|done]. cbn. rewrite Hu. cbn.
  destruct (counted_elem pair_le units (table, fp) Hin) as (n & Hn & Hc).
  eexists _, (MkCharge (c, s, budget_purpose p q, table, fp) m KIND_SHAPE n). split; [done|].
  split_and!; [|done|done]. apply elem_of_app. right. apply elem_of_map. by exists ((table, fp), n).
Qed.

(** ** Probes of one query spend the same units *)

Lemma cte_base_tables_redact q : cte_base_tables (redact q) = cte_base_tables q.
Proof.
  unfold cte_base_tables. rewrite redact_ctes. generalize (∅ : gmap string (gset string)).
  induction (ctes q) as [|c l IH]; intros m; [done|].
  cbn [map foldl redact_cte cte_name cte_query]. rewrite <- IH. f_equal.
  rewrite redact_scopes, flat_map_map. f_equal. f_equal. f_equal.
  apply flat_map_ext. intros s. apply redact_source_names.
Qed.

Lemma scope_units_redact bases s : scope_units bases (redact s) = scope_units bases s.
Proof.
  unfold scope_units, scope_tables. by rewrite fingerprint_redact, redact_source_names.
Qed.

Lemma budgeted_occurrences_redact q : budgeted_occurrences (redact q) = budgeted_occurrences q.
Proof.
  unfold budgeted_occurrences. rewrite cte_base_tables_redact, redact_scopes.
  assert (map sc_query (map redact_scope (iter_query_scopes q)) = map redact (map sc_query (iter_query_scopes q)))
    as -> by by rewrite !map_map.
  f_equal. generalize (map sc_query (iter_query_scopes q)). intros l.
  induction l as [|s l IH]; [done|]. cbn [map]. rewrite !filter_cons, redact_aggregates.
  destruct (decide _); [|exact IH]. cbn [map_result]. by rewrite scope_units_redact, IH.
Qed.

Lemma budget_purpose_redact p q : budget_purpose p (redact q) = budget_purpose p q.
Proof. by destruct q. Qed.

(** ** An aggregating query has a unit *)

Lemma source_names_nonempty q : source_names q ≠ [].
Proof. done. Qed.

Definition bases_ok (m : gmap string (gset string)) : Prop := ∀ k x, m !! k = Some x → x ≠ ∅.

Lemma base_tables_nonempty m k : bases_ok m → base_tables m k ≠ ∅.
Proof.
  intros Hm. unfold base_tables. destruct (m !! k) as [x|] eqn:E; cbn; [by apply (Hm k)|]. set_solver.
Qed.

Lemma cte_base_tables_ok q : bases_ok (cte_base_tables q).
Proof.
  unfold cte_base_tables. assert (H0 : bases_ok ∅) by (intros k x; by rewrite lookup_empty).
  revert H0. generalize (∅ : gmap string (gset string)).
  induction (ctes q) as [|c l IH]; intros m Hm; [done|]. cbn. apply IH. intros k x Hk.
  destruct (decide (casefold (cte_name c) = k)) as [<-|Hne]; [|rewrite lookup_insert_ne in Hk by done; by apply (Hm k)].
  rewrite lookup_insert_eq in Hk. injection Hk as <-. rewrite iter_query_scopes_eq. cbn.
  pose proof (base_tables_nonempty m (casefold (from_table (cte_query c))) Hm). set_solver.
Qed.

Lemma aggregate_has_unit q units s :
  budgeted_occurrences q = Ok units → s ∈ iter_query_scopes q → is_aggregate_scope (sc_query s) = true →
  ∃ table fp, (table, fp) ∈ units.
Proof.
  unfold budgeted_occurrences. intros (l & Hl & [= <-])%bind_ok Hs Ha.
  apply map_result_ok in Hl.
  assert (Hin : sc_query s ∈ filter (λ s, is_aggregate_scope s = true) (map sc_query (iter_query_scopes q))).
  { apply list_elem_of_filter. split; [done|]. apply elem_of_map. by exists s. }
  apply list_elem_of_lookup in Hin as [i Hi]. destruct (Forall2_lookup_l _ _ _ _ _ Hl Hi) as (us & Hus & Hunits).
  apply scope_units_ok in Hunits as (fp & _ & Hunits).
  pose proof (base_tables_nonempty _ (casefold (from_table (sc_query s))) (cte_base_tables_ok q)) as [t Ht]%set_choose_L.
  exists t, fp. apply elem_of_concat. exists us. split; [by eapply list_elem_of_lookup_2|].
  apply Hunits. exists (casefold (from_table (sc_query s))). split_and!; [by left|done|done].
Qed.
End charges.

(** * The budget over a run *)

Section budget.
Context `{CF : CaseFold} `{FT : FloatText} `{DG : !Digest}.
Context (W : Z) (W_positive : 0 < W) (key : DisclosureKey) (m : Z).

(** A gate step is a reservation of what the call costs, or nothing. *)
Lemma enforce_call_spec t (st : InProcessDisclosure) c :
  windows_ok t (dl_windows st) → t ≤ dc_now c →
  disclosure_budget_window_seconds (disclosure (dc_policy c)) = W →
  ∃ st' o, enforce_call st c = (st', o) ∧ windows_ok (dc_now c) (dl_windows st')
    ∧ let new := match o, call_charges c with
                 | Ok _, Ok charges => add_charge key charges (dc_now c) | _, _ => [] end in
      live W (dc_now c) (dl_windows st') key = live W (dc_now c) (dl_windows st) key ++ new
      ∧ ∀ charges, o = Ok tt → call_charges c = Ok charges →
          NoDup (ch_key <$> charges) ∧ Forall (fits W (dc_now c) (dl_windows st)) charges.
Proof.
  intros Hok Ht HW. unfold enforce_call, enforce_disclosure_budget, call_charges. rewrite HW.
  assert (Hstay : windows_ok (dc_now c) (dl_windows st)) by by apply (windows_ok_later t).
  destruct (dc_principal c) as [s|].
  2: { eexists _, _. split_and!; [done..|by rewrite app_nil_r|]. intros charges _ [= <-]. split; constructor. }
  destruct (disclosure_charges (dc_policy c) (dc_query c) (dc_connection c) s) as [charges|e] eqn:E.
  2: { eexists _, _. split_and!; [done..|by rewrite app_nil_r|]. by intros ? [=]. }
  pose proof (disclosure_charges_distinct _ _ _ _ _ E) as Hd.
  destruct charges as [|ch charges].
  { eexists _, _. split_and!; [done..|by rewrite app_nil_r|]. intros charges _ [= <-]. split; constructor. }
  destruct (reserve_spec W (dc_now c) t st (ch :: charges) W_positive Hok Ht Hd) as (st' & r & Hrun & Hok' & Hr).
  exists st', r. split_and!; [done|done|..].
  - destruct r as [[]|e]; [by apply Hr|]. rewrite app_nil_r. by apply Hr.
  - intros charges' -> [= <-]. split; [done|by apply Hr].
Qed.

Lemma weight_of_elem charges ch :
  NoDup (ch_key <$> charges) → ch ∈ charges → weight_of (ch_key ch) charges = ch_weight ch.
Proof.
  induction charges as [|c charges IH]; intros Hd Hin; [by apply not_elem_of_nil in Hin|].
  apply NoDup_cons in Hd as [Hnew Hd]. cbn [weight_of]. apply elem_of_cons in Hin as [->|Hin].
  - rewrite decide_True by done. rewrite weight_of_absent by done. lia.
  - rewrite decide_False, IH by done || (intros Heq; apply Hnew; rewrite Heq; by apply list_elem_of_fmap_2). lia.
Qed.

(** The charges on the key all carry its cap. *)
Definition capped (calls : list disclosure_call) : Prop :=
  ∀ c charges ch, c ∈ calls → call_charges c = Ok charges → ch ∈ charges → ch_key ch = key → ch_limit ch = m.

Lemma run_spends calls : ∀ t (st : InProcessDisclosure) log,
  disclosure_calls_ok W t calls → capped calls → windows_ok t (dl_windows st) →
  Forall (λ e, e ≤ t) log → in_window id (cutoff W t) log = live W t (dl_windows st) key →
  bounded id W m log →
  bounded id W m (log ++ spent key calls (disclosure_run st calls).2).
Proof.
  induction calls as [|c calls IH]; intros t st log Hcalls Hcap Hok Hpast Hlive Hb.
  { cbn. by rewrite app_nil_r. }
  destruct Hcalls as (Ht & HW & Hcalls).
  destruct (enforce_call_spec t st c Hok Ht HW) as (st' & o & Hrun & Hok' & Hlive' & Hfit).
  cbn [disclosure_run]. rewrite Hrun. specialize (IH (dc_now c) st').
  destruct (disclosure_run st' calls) as [st2 os]. cbn [snd spent] in *.
  set (new := match o with Ok _ => _ | Raise _ => _ end) in *. rewrite app_assoc.
  assert (Hpast' : Forall (λ e, e ≤ dc_now c) log) by (eapply Forall_impl; [exact Hpast|]; cbn; lia).
  assert (Hnow : live W (dc_now c) (dl_windows st) key = in_window id (cutoff W (dc_now c)) log).
  { assert (Hle : cutoff W t ≤ cutoff W (dc_now c)) by (unfold cutoff; lia).
    rewrite <- (in_window_in_window id _ _ log Hle), Hlive. unfold live. by rewrite in_window_in_window. }
  assert (Hnew : Forall (λ e, e = dc_now c) new).
  { subst new. destruct o, (call_charges c); try constructor. apply add_charge_at. }
  apply IH; clear IH; [done| |done| | |].
  - intros c' charges ch Hc'. apply (Hcap c'). by right.
  - apply Forall_app. split; [done|]. eapply Forall_impl; [exact Hnew|]. cbn. lia.
  - rewrite Hlive', Hnow, in_window_app. f_equal. apply in_window_all.
    eapply Forall_impl; [exact Hnew|]. cbn. intros e ->. unfold cutoff, second. lia.
  - apply (bounded_record id W m log new (dc_now c)); [done..|].
    rewrite <- in_window_at, <- Hnow by done. specialize (Hb (dc_now c)).
    rewrite <- in_window_at, <- Hnow in Hb by done.
    subst new. destruct o as [[]|e]; [|rewrite Nat.add_0_r; exact Hb].
    destruct (call_charges c) as [charges|e] eqn:E; [|rewrite Nat.add_0_r; exact Hb].
    destruct (Hfit charges eq_refl eq_refl) as [Hd Hf]. unfold add_charge. rewrite length_replicate.
    destruct (decide (key ∈ ch_key <$> charges)) as [Hin|Hout].
    + apply list_elem_of_fmap in Hin as (ch & Hk & Hch). rewrite Forall_forall in Hf. specialize (Hf ch Hch).
      assert (ch_limit ch = m) as Hm by (apply (Hcap c charges); [by left|done..]).
      unfold fits in Hf. rewrite Hk, weight_of_elem by done. rewrite Hk in Hb. lia.
    + rewrite weight_of_absent by done. cbn. lia.
Qed.

(** Queries that each cost the key something are no more than what it was charged. *)
Lemma answered_spent ours calls : ∀ os t,
  (∀ c, c ∈ calls → ours c = true → ∃ charges, call_charges c = Ok charges ∧ 1 ≤ weight_of key charges) →
  (length (window_at id W t (answered ours calls os)) ≤ length (window_at id W t (spent key calls os)))%nat.
Proof.
  induction calls as [|c calls IH]; intros os t Hours; [by destruct os|].
  destruct os as [|o os]; [done|].
  assert (IH' : (length (window_at id W t (answered ours calls os)) ≤ length (window_at id W t (spent key calls os)))%nat).
  { apply IH. intros c' Hc'. apply Hours. by right. }
  cbn [answered spent]. rewrite window_at_app, length_app. destruct o as [[]|e]; [|lia].
  destruct (ours c) eqn:Ho; [|lia]. destruct (Hours c ltac:(by left) Ho) as (charges & -> & Hw).
  unfold add_charge. destruct (Z.to_nat (weight_of key charges)) as [|n] eqn:En; [lia|].
  unfold window_at in *. cbn [replicate]. rewrite (filter_cons _ (dc_now c)), (filter_cons _ (dc_now c) (replicate n _)).
  destruct (decide _); rewrite ?length_cons; lia.
Qed.
End budget.

Section differencing.
Context `{CF : CaseFold} `{FT : FloatText} `{DG : !Digest}.

(** The calls of one caller that send one query, whatever literals they put in it. *)
Definition probes (q : StructuredQuery) (connection_id subject : string) (c : disclosure_call) : Prop :=
  redact (dc_query c) = redact q ∧ dc_connection c = connection_id ∧ dc_principal c = Some subject.

(** A query whose shape cannot be made is not answered. *)
Lemma never_answered `{DisclosureBudgetLimiter L} ours calls : ∀ st : L,
  (∀ c, c ∈ calls → ours c = true → ∃ e, call_charges c = Raise e) →
  answered ours calls (disclosure_run st calls).2 = [].
Proof.
  induction calls as [|c calls IH]; intros st Hours; [done|]. cbn [disclosure_run].
  destruct (enforce_call st c) as [st' o] eqn:E. specialize (IH st').
  destruct (disclosure_run st' calls) as [st2 os]. cbn [snd answered] in *.
  rewrite IH by (intros c' Hc'; apply Hours; by right).
  destruct o as [[]|e]; [|done]. destruct (ours c) eqn:Ho; [|done].
  destruct (Hours c ltac:(by left) Ho) as [e He]. unfold call_charges in He. unfold enforce_call, enforce_disclosure_budget in E.
  destruct (dc_principal c); [|done]. by rewrite He in E.
Qed.

(** C17. Multi-query differencing is bounded: when a caller's policy sets a group
    floor and allows [m] repeats of a shape per window, then however the caller
    varies the literals, amounts and offsets of one aggregate query, in any
    position of the window at most [m] of these probes are answered; whatever
    else it and others ask in between. One window length must be in use. *)
Theorem differencing_is_bounded (p : Policy) q s connection_id subject W m t calls (ours : disclosure_call → bool) :
  0 < W → 0 ≤ m →
  max_shape_repeats_per_window (disclosure p) = Some m → min_group_size (windows p) ≠ None →
  s ∈ iter_query_scopes q → is_aggregate_scope (sc_query s) = true →
  disclosure_calls_ok W t calls →
  (∀ c, c ∈ calls → dc_connection c = connection_id → dc_principal c = Some subject → dc_policy c = p) →
  (∀ c, c ∈ calls → ours c = true → probes q connection_id subject c) →
  bounded id W m (answered ours calls (disclosure_run (MkInProcessDisclosure ∅ 0) calls).2).
Proof.
  intros HW Hm Hcap Hk Hs Ha Hcalls Hpol Hours.
  destruct (budgeted_occurrences q) as [units|e] eqn:Hu.
  - destruct (aggregate_has_unit q units s Hu Hs Ha) as (table & fp & Hin).
    set (key := (connection_id, subject, budget_purpose p q, table, fp)).
    assert (Hfp : fp ≠ "") by by apply (units_fingerprints q units Hu (table, fp)).
    intros u. etransitivity; [apply inj_le, (answered_spent W key)|apply (run_spends W HW key m calls t _ [])];
      [|done| |by intros k es Hes; cbn in Hes; rewrite lookup_empty in Hes|constructor|done|by apply bounded_nil].
    + intros c Hc Ho. destruct (Hours c Hc Ho) as (Hq & Hconn & Hsubj).
      assert (Hp : dc_policy c = p) by by apply Hpol.
      assert (Hunits : budgeted_occurrences (dc_query c) = Ok units).
      { by rewrite <- budgeted_occurrences_redact, Hq, budgeted_occurrences_redact. }
      assert (Hpurpose : budget_purpose p (dc_query c) = budget_purpose p q).
      { by rewrite <- (budget_purpose_redact p q), <- Hq, budget_purpose_redact. }
      destruct (disclosure_charges_unit p (dc_query c) connection_id subject m units table fp)
        as (charges & ch & Hch & Hin' & Hkey & Hw); [done..|].
      exists charges. unfold call_charges. rewrite Hsubj, Hconn, Hp. split; [done|].
      rewrite Hpurpose in Hkey. fold key in Hkey. rewrite <- Hkey.
      rewrite weight_of_elem; [done| |done]. by apply (disclosure_charges_distinct _ _ _ _ _ Hch).
    + intros c charges ch Hc Hcc Hch Hkey. unfold call_charges in Hcc.
      destruct (dc_principal c) as [subj|] eqn:Hsubj; [|injection Hcc as <-; by apply not_elem_of_nil in Hch].
      destruct (disclosure_charges_elem _ _ _ _ _ _ Hcc Hch) as (t' & f' & Hkey' & Hlim).
      rewrite Hkey in Hkey'. unfold key in Hkey'. injection Hkey' as Hconn <- _ _ <-.
      specialize (Hlim Hfp). rewrite (Hpol c Hc (eq_sym Hconn) Hsubj) in Hlim. congruence.
  - rewrite never_answered; [by apply bounded_nil|]. intros c Hc Ho. destruct (Hours c Hc Ho) as (Hq & Hconn & Hsubj).
    exists e. unfold call_charges. rewrite Hsubj, (Hpol c Hc Hconn Hsubj). unfold disclosure_charges.
    rewrite <- budgeted_occurrences_redact, Hq, budgeted_occurrences_redact, Hu.
    unfold resolve_disclosure_budget, disclosure_budget_enabled. rewrite Hcap.
    by destruct (min_group_size (windows p)).
Qed.
End differencing.

(** * A concrete prober *)

(** A group floor of five, [m] repeats of a shape in [window] seconds. *)
Definition budget_policy (window m : Z) : Policy :=
  MkPolicy default_access default_write_policy default_caps (MkWindows 5 1000 3660 (Some 5))
    (MkDisclosure (Some m) None window 10000000) default_execution default_gates.

Definition ask (window m : Z) (connection_id : string) (n at_ : Z) : disclosure_call :=
  MkDisclosureCall (probe n) (budget_policy window m) connection_id (Some "alice") (at_ * second).

Definition run_asks (calls : list disclosure_call) : list (result unit) :=
  (@disclosure_run ascii_casefold sample_floats sample_digest _ _ (MkInProcessDisclosure ∅ 0) calls).2.

(** [age > 40], [> 41], [> 42]: the third of two is refused, whatever else is asked. *)
Definition sliding : list disclosure_call :=
  [ask 3600 2 "hr" 40 1; ask 3600 2 "crm" 40 2; ask 3600 2 "hr" 41 3; ask 3600 2 "hr" 42 4].
Definition on_hr (c : disclosure_call) : bool := bool_decide (dc_connection c = "hr").

Lemma differencing_is_bounded_witness :
  bounded id 3600 2 (answered on_hr sliding (run_asks sliding))
  ∧ answered on_hr sliding (run_asks sliding) = [1 * second; 3 * second].
Proof.
  split; [|vm_compute; reflexivity]. unfold run_asks.
  refine (@differencing_is_bounded ascii_casefold sample_floats sample_digest (budget_policy 3600 2) (probe 0)
    (MkScope [] 0 (probe 0)) "hr" "alice" 3600 2 0 sliding on_hr _ _ _ _ _ _ _ _ _); try reflexivity.
  - discriminate.
  - discriminate.
  - apply root_in_scopes.
  - repeat split; vm_compute; discriminate.
  - intros c Hc _ _. apply list_elem_of_In in Hc. by repeat destruct Hc as [<-|Hc].
  - intros c Hc Ho. apply list_elem_of_In in Hc.
    repeat destruct Hc as [<-|Hc]; try done; vm_compute in Ho; discriminate Ho.
Defined.

Lemma reserve_all_or_nothing_witness :
  let key table : DisclosureKey := ("hr", "alice", "", table, "") in
  let charges := [MkCharge (key "employees") 5 KIND_TABLE 1; MkCharge (key "payroll") 1 KIND_TABLE 2] in
  let st := MkInProcessDisclosure ∅ 0 in
  (reserve_charges st charges 60 (7 * second)).2
    = Raise (DisclosureBudgetExceededError rejection_message KIND_TABLE 60)
  ∧ live 60 (8 * second) (dl_windows (reserve_charges st charges 60 (7 * second)).1) (key "employees") = [].
Proof.
  intros key charges st. split; [vm_compute; reflexivity|].
  destruct (reserve_all_or_nothing 60 (7 * second) 0 st charges
    (reserve_charges st charges 60 (7 * second)).1 (reserve_charges st charges 60 (7 * second)).2)
    as [_ Hr].
  - reflexivity.
  - intros k es Hk. cbn in Hk. by rewrite lookup_empty in Hk.
  - vm_compute. discriminate.
  - apply NoDup_cons. split; [intros H%list_elem_of_singleton; discriminate H|apply NoDup_singleton].
  - vm_compute. reflexivity.
  - destruct (Hr (DisclosureBudgetExceededError rejection_message KIND_TABLE 60)) as [_ Hlive].
    { vm_compute. reflexivity. }
    rewrite (Hlive (key "employees") (8 * second)) by (vm_compute; discriminate). reflexivity.
Defined.

(** The windows of every policy are swept at the cutoff of whichever policy is
    asked under: a query on a connection whose window is a minute makes the hour
    of another forgotten, so a probe capped at one per hour is answered again a
    minute later. Without it the second probe is refused. *)
Theorem sweep_forgets_longer_windows :
  run_asks [ask 3600 1 "hr" 40 3700; ask 3600 1 "hr" 41 3800]
    = [Ok tt; Raise (DisclosureBudgetExceededError rejection_message KIND_SHAPE 3500)]
  ∧ run_asks [ask 3600 1 "hr" 40 3700; ask 60 1 "ops" 40 3761; ask 3600 1 "hr" 41 3800] = [Ok tt; Ok tt; Ok tt].
Proof. split; vm_compute; reflexivity. Qed.

(** An output name equal to any other string of the shape (a keyword of the shape
    itself will do) turns that string into the marker too, so the choice of one
    alias mints fresh buckets: under a cap of one, five probes that differ in a
    literal and in that name are answered, where two with neutral names are not. *)
Definition named_probe (alias : string) (n : Z) : disclosure_call :=
  MkDisclosureCall (probe_with (probe_items alias) [] None n) (budget_policy 3600 1) "hr" (Some "alice")
    (n * second).

Theorem alias_choice_mints_buckets :
  run_asks [named_probe "c" 1; named_probe "d" 2]
    = [Ok tt; Raise (DisclosureBudgetExceededError rejection_message KIND_SHAPE 3599)]
  ∧ run_asks [named_probe "c" 1; named_probe "aggregate" 2; named_probe "count" 3; named_probe "column" 4;
              named_probe "age" 5] = [Ok tt; Ok tt; Ok tt; Ok tt; Ok tt].
Proof. split; vm_compute; reflexivity. Qed.
