(* ===== verification/DisclosureRedis.v ===== *)
(** The cross-replica disclosure budget, [execution/redis_disclosure_budget.py]:
    its keys, its script and its limiter. Shown: distinct budgets have distinct
    keys, all keys of one connection share a cluster slot, the limiter takes the
    decisions of the in-process one, and a server that cannot be asked admits
    nothing. *)
From Stdlib Require Import Ascii Sorted.
From stdpp Require Import pretty.
From S2P Require Export Disclosure Redis.
Local Open Scope Z_scope.

(** * Keys *)

(** [urllib.parse.quote(s, safe="")], on UTF-8 bytes. *)
Definition always_safe (c : ascii) : bool :=
  is_alnum_ c || bool_decide (c ∈ ["."%char; "-"%char; "~"%char]).

Definition hex_upper (n : nat) : ascii :=
  ascii_of_nat (if (n <? 10)%nat then n + 48 else n + 55).

Definition quote_char (c : ascii) : string :=
  if always_safe c then String c ""
  else let n := nat_of_ascii c in String "%" (String (hex_upper (n / 16)) (String (hex_upper (n mod 16)) "")).

Fixpoint quote_text (s : string) : string :=
  match s with "" => "" | String c s => quote_char c +:+ quote_text s end.

Definition key_tag (connection : string) : string := let t := quote_text connection in if str_empty t then "_" else t.

(** [_redis_key]. *)
Definition disclosure_redis_key (key : DisclosureKey) : string :=
  let '(connection, principal, purpose, table, shape) := key in
  "qg:disclosure:{" +:+ key_tag connection +:+ "}:" +:+ quote_text principal +:+ ":" +:+ quote_text purpose
    +:+ ":" +:+ quote_text table +:+ ":" +:+ quote_text shape.

(** The part of a key a Redis cluster hashes: what stands between the first
    opening brace and the first closing one after it, if that is not empty. *)
Fixpoint before_char (c : ascii) (s : string) : option string :=
  match s with
  | "" => None
  | String d s => if bool_decide (d = c) then Some "" else String d <$> before_char c s
  end.

Fixpoint after_char (c : ascii) (s : string) : option string :=
  match s with "" => None | String d s => if bool_decide (d = c) then Some s else after_char c s end.

Definition hashed_part (key : string) : string :=
  match after_char "{" key ≫= before_char "}" with
  | Some tag => if str_empty tag then key else tag
  | None => key
  end.

(** * The script *)

(** The name of one unit of a charge: [member .. ':' .. i .. ':' .. w]. *)
Definition unit_member (member : string) (i w : nat) : string := member +:+ ":" +:+ pretty i +:+ ":" +:+ pretty w.

Record RedisDisclosure (DB : Type) := MkRedisDisclosure {
  rd_db : DB;
  rd_reachable : bool;
  (** How many names [uuid4] gave so far. *)
  rd_names : nat;
}.
Arguments MkRedisDisclosure {DB} _ _ _.
Arguments rd_db {DB} _.
Arguments rd_reachable {DB} _.
Arguments rd_names {DB} _.

Section limiter.
Context {DB : Type} `{RS : !RedisServer DB}.

(** The first loop: the index and wait of the first key that cannot take its
    weight, if one cannot. *)
Fixpoint disclosure_check_script (window now : Z) (i : nat) (charges : list Charge) : script_on DB (option (nat * Z)) :=
  match charges with
  | [] => mret None
  | ch :: charges =>
      let k := disclosure_redis_key (ch_key ch) in
      call now (ZRemRangeByScore k (cutoff window now)) ≫= λ _,
      call now (ZCard k) ≫= λ count,
      if ch_limit ch <? count + ch_weight ch then
        call now (ZRangeFirst k) ≫= λ first,
        match first with Some member => call now (ZScore k member) | None => mret None end ≫= λ oldest,
        mret (Some (i, retry_after window now oldest))
      else disclosure_check_script window now (S i) charges
  end.

(** The second loop. *)
Fixpoint disclosure_record_script (window now : Z) (member : string) (i : nat) (charges : list Charge) : script_on DB unit :=
  match charges with
  | [] => mret tt
  | ch :: charges =>
      let k := disclosure_redis_key (ch_key ch) in
      script_each (λ w, call now (ZAdd k now (unit_member member i w))) (seq 1 (Z.to_nat (ch_weight ch))) ≫= λ _,
      call now (Expire k window) ≫= λ _,
      disclosure_record_script window now member (S i) charges
  end.

(** [_RESERVE_SCRIPT]. *)
Definition disclosure_reserve_script (window now : Z) (member : string) (charges : list Charge) :
  script_on DB (option (nat * Z)) :=
  disclosure_check_script window now 1 charges ≫= λ refused,
  match refused with
  | Some r => mret (Some r)
  | None => disclosure_record_script window now member 1 charges ≫= λ _, mret None
  end.

Definition COULD_NOT_EVALUATE : string :=
  "disclosure budget could not be evaluated, so this aggregate query was refused; retry shortly".

(** [reserve]: an error of Redis, an outage or a script that stops, refuses. *)
#[export] Instance redis_disclosure : DisclosureBudgetLimiter (RedisDisclosure DB) := λ st charges window now,
  match charges with
  | [] => (st, Ok tt)
  | first :: _ =>
      let unevaluated := Raise (DisclosureBudgetExceededError COULD_NOT_EVALUATE (ch_kind first) 1) in
      if rd_reachable st then
        let '(db, reply) := disclosure_reserve_script window now (pretty (rd_names st)) charges (rd_db st) in
        (MkRedisDisclosure db true (S (rd_names st)),
         match reply with
         | None => unevaluated
         | Some None => Ok tt
         | Some (Some (i, retry)) =>
             match charges !! (i - 1)%nat with
             | Some ch => Raise (DisclosureBudgetExceededError rejection_message (ch_kind ch) retry)
             | None => Raise (BuiltinError "IndexError")
             end
         end)
      else (MkRedisDisclosure (rd_db st) false (S (rd_names st)), unevaluated)
  end.
End limiter.

(** * Distinct budgets, distinct keys *)

Lemma hex_upper_code n : (n < 16)%nat →
  nat_of_ascii (hex_upper n) = if (n <? 10)%nat then (n + 48)%nat else (n + 55)%nat.
Proof.
  intros Hn. apply nat_ascii_embedding. do 16 (destruct n as [|n]; [vm_compute; repeat constructor|]). lia.
Qed.

Lemma hex_upper_inj n m : (n < 16)%nat → (m < 16)%nat → hex_upper n = hex_upper m → n = m.
Proof.
  intros Hn Hm H. apply (f_equal nat_of_ascii) in H. rewrite !hex_upper_code in H by done.
  destruct (Nat.ltb_spec n 10), (Nat.ltb_spec m 10); lia.
Qed.

(** What quoting writes: no separator of a key. *)
Definition separator (c : ascii) : Prop := c ∈ [":"%char; "{"%char; "}"%char].

Lemma hex_upper_no_separator n c : separator c → (n < 16)%nat → hex_upper n ≠ c.
Proof.
  intros Hc Hn H. apply (f_equal nat_of_ascii) in H. rewrite hex_upper_code in H by done.
  assert (Hcode : nat_of_ascii c = 58%nat ∨ nat_of_ascii c = 123%nat ∨ nat_of_ascii c = 125%nat).
  { unfold separator in Hc. rewrite !elem_of_cons in Hc. destruct Hc as [->|[->|[->|Hc]]]; [by left|by right;left|by right;right|].
    by apply not_elem_of_nil in Hc. }
  destruct (Nat.ltb_spec n 10); lia.
Qed.

Lemma nibbles c : (nat_of_ascii c / 16 < 16)%nat ∧ (nat_of_ascii c mod 16 < 16)%nat.
Proof.
  pose proof (nat_ascii_bounded c). split; [|by apply Nat.mod_upper_bound].
  apply Nat.Div0.div_lt_upper_bound. lia.
Qed.

Lemma quote_char_no_separator c d : separator d → no_char d (quote_char c) = true.
Proof.
  intros Hd. unfold quote_char, no_char. destruct (always_safe c) eqn:Es; cbn.
  - rewrite bool_decide_eq_true_2; [done|]. intros ->. unfold separator in Hd.
    repeat (apply elem_of_cons in Hd as [->|Hd]; [by vm_compute in Es|]). by apply not_elem_of_nil in Hd.
  - destruct (nibbles c) as [H1 H2]. rewrite !(bool_decide_eq_true_2 (hex_upper _ ≠ d)) by by apply hex_upper_no_separator.
    rewrite bool_decide_eq_true_2; [done|]. intros <-. unfold separator in Hd. set_solver.
Qed.

Lemma quote_no_separator s d : separator d → no_char d (quote_text s) = true.
Proof.
  intros Hd. induction s as [|c s IH]; [done|]. cbn [quote_text]. by rewrite no_char_app, IH, quote_char_no_separator.
Qed.

Lemma quote_char_cons c : ∃ d rest, quote_char c = String d rest ∧ (d = "%"%char ↔ always_safe c = false).
Proof.
  unfold quote_char. destruct (always_safe c) eqn:Es; eexists _, _; (split; [done|]); [|done].
  split; [|done]. by intros ->.
Qed.

Lemma three_chars (a b c d e : ascii) (s t : string) :
  String a (String b (String c s)) = String a (String d (String e t)) → b = d ∧ c = e ∧ s = t.
Proof. by intros [= -> -> ->]. Qed.

Lemma quote_text_inj s t : quote_text s = quote_text t → s = t.
Proof.
  revert t. induction s as [|c s IH]; intros [|d t] H; cbn [quote_text] in H.
  - done.
  - exfalso. destruct (quote_char_cons d) as (e & r & Hd & _). rewrite Hd in H. done.
  - exfalso. destruct (quote_char_cons c) as (e & r & Hc & _). rewrite Hc in H. done.
  - destruct (quote_char_cons c) as (e & r & Hc & Hec), (quote_char_cons d) as (e' & r' & Hd & Hed).
    assert (e = e') as <- by (rewrite Hc, Hd in H; by injection H).
    assert (Hsafe : always_safe c = always_safe d).
    { destruct (always_safe c), (always_safe d); naive_solver. }
    unfold quote_char in *. rewrite <- Hsafe in *. destruct (always_safe c).
    + injection H as -> H. by rewrite (IH t H).
    + rewrite !string_app_cons in H. apply three_chars in H as (H1 & H2 & H3). f_equal; [|by apply IH].
      destruct (nibbles c), (nibbles d). apply hex_upper_inj in H1, H2; try done.
      rewrite <- (ascii_nat_embedding c), <- (ascii_nat_embedding d). f_equal.
      pose proof (Nat.div_mod_eq (nat_of_ascii c) 16) as Ec. pose proof (Nat.div_mod_eq (nat_of_ascii d) 16) as Ed.
      rewrite Ec, Ed at 1. rewrite H1, H2. reflexivity.
Qed.

(** A tag is never empty, and only a blank connection is tagged as [_] is. *)
Lemma key_tag_nonempty c : str_empty (key_tag c) = false.
Proof. unfold key_tag. by destruct (str_empty (quote_text c)) eqn:E. Qed.

Lemma key_tag_no_separator c d : separator d → no_char d (key_tag c) = true.
Proof.
  intros Hd. unfold key_tag. destruct (str_empty _); [|by apply quote_no_separator].
  unfold separator in Hd. rewrite !elem_of_cons in Hd. destruct Hd as [->|[->|[->|Hd]]]; [done..|by apply not_elem_of_nil in Hd].
Qed.

Lemma key_tag_inj c d : c ≠ "" → d ≠ "" → key_tag c = key_tag d → c = d.
Proof.
  assert (Hne : ∀ x, x ≠ "" → str_empty (quote_text x) = false).
  { intros [|a x] Hx; [done|]. cbn. destruct (quote_char_cons a) as (e & r & -> & _). done. }
  intros Hc Hd. unfold key_tag. rewrite !Hne by done. apply quote_text_inj.
Qed.

Definition key_connection (key : DisclosureKey) : string := key.1.1.1.1.

Lemma before_char_app c a x : no_char c a = true → before_char c (a +:+ String c x) = Some a.
Proof.
  induction a as [|d a IH]; intros Ha.
  - change ("" +:+ String c x) with (String c x). cbn. by rewrite bool_decide_eq_true_2.
  - rewrite string_app_cons. cbn. cbn in Ha. apply andb_true_iff in Ha as [Hd%bool_decide_eq_true Ha].
    rewrite bool_decide_eq_false_2 by done. by rewrite IH.
Qed.

(** The rest of a key, after its connection. *)
Definition key_rest (key : DisclosureKey) : string :=
  let '(_, principal, purpose, table, shape) := key in
  quote_text principal +:+ String ":" (quote_text purpose +:+ String ":" (quote_text table +:+ String ":" (quote_text shape))).

Lemma redis_key_parts key :
  disclosure_redis_key key = "qg:disclosure:{" +:+ (key_tag (key_connection key) +:+ String "}" (String ":" (key_rest key))).
Proof. by destruct key as [[[[c p] u] t] s]. Qed.

Lemma colon_separates : separator ":"%char.
Proof. by left. Qed.
Lemma brace_separates : separator "}"%char.
Proof. by right; right; left. Qed.
#[local] Hint Resolve colon_separates brace_separates quote_no_separator key_tag_no_separator : core.

Lemma after_prefix x : after_char "{" ("qg:disclosure:{" +:+ x) = Some x.
Proof. reflexivity. Qed.

Lemma hashed_part_key key : hashed_part (disclosure_redis_key key) = key_tag (key_connection key).
Proof.
  rewrite redis_key_parts. unfold hashed_part.
  rewrite after_prefix. cbn [mbind option_bind].
  rewrite before_char_app by auto. by rewrite key_tag_nonempty.
Qed.

(** Distinct budgets never share a Redis key, whatever text an identity
    provider or an operator put into their parts; and the keys of one connection,
    which one script call touches together, hash to one cluster slot, by a tag
    that is never empty and that no part can close early. *)
Theorem budget_keys_distinct_and_colocated k1 k2 :
  key_connection k1 ≠ "" → key_connection k2 ≠ "" →
  (disclosure_redis_key k1 = disclosure_redis_key k2 → k1 = k2)
  ∧ hashed_part (disclosure_redis_key k1) = key_tag (key_connection k1)
  ∧ (key_connection k1 = key_connection k2 →
       hashed_part (disclosure_redis_key k1) = hashed_part (disclosure_redis_key k2)).
Proof.
  intros Hc1 Hc2. rewrite !hashed_part_key. split_and!; [|done|by intros ->].
  rewrite !redis_key_parts. intros H%string_app_inj_l. apply split_first in H as [Htag H]; [|auto..].
  apply key_tag_inj in Htag; [|done..]. injection H as H.
  destruct k1 as [[[[c1 p1] u1] t1] s1], k2 as [[[[c2 p2] u2] t2] s2]. cbn in *. subst c2.
  apply split_first in H as [->%quote_text_inj H]; [|auto..].
  apply split_first in H as [->%quote_text_inj H]; [|auto..].
  by apply split_first in H as [->%quote_text_inj ->%quote_text_inj]; [|auto..].
Qed.

(** * The simulation *)

Abbreviation rk := disclosure_redis_key.

(** The timestamps a sorted set holds. *)
Definition stamps (m : gmap string Z) : list Z := (map_to_list m).*2.

Lemma stamps_insert m k s : m !! k = None → stamps (<[k := s]> m) ≡ₚ s :: stamps m.
Proof. intros H. unfold stamps. by rewrite map_to_list_insert. Qed.

Lemma stamps_filter c m : stamps (filter (λ ms, c < ms.2) m) ≡ₚ in_window id c (stamps m).
Proof.
  induction m as [|k s m Hk IH] using map_ind; [done|].
  assert (Hperm : in_window id c (stamps (<[k := s]> m)) ≡ₚ in_window id c (s :: stamps m)).
  { unfold in_window. by rewrite stamps_insert. }
  rewrite Hperm. unfold in_window at 1. rewrite filter_cons. unfold id at 1. destruct (decide (c < s)) as [Hs|Hs].
  - rewrite map_filter_insert_True by done. rewrite stamps_insert, IH; [done|]. apply map_lookup_filter_None. by left.
  - rewrite map_filter_insert_not' by (try done; intros ? [=]; congruence). done.
Qed.

Lemma stamps_length m : length (stamps m) = size m.
Proof. unfold stamps. by rewrite length_fmap, length_map_to_list. Qed.

Lemma stamps_nil m : stamps m = [] → m = ∅.
Proof. intros H. apply map_size_empty_inv. by rewrite <- stamps_length, H. Qed.

Lemma in_window_permutation c l k : l ≡ₚ k → in_window id c l ≡ₚ in_window id c k.
Proof. intros H. unfold in_window. by rewrite H. Qed.

(** Names given so far. *)
Definition named_before (n : nat) (m : gmap string Z) : Prop :=
  ∀ k, is_Some (m !! k) → ∃ j rest, (j < n)%nat ∧ k = pretty j +:+ String ":" rest.

Section simulation.
Context (W : Z) (W_positive : 0 < W).

(** The set of [key] is kept until a deadline by which all of it has aged, and
    what of it is inside the window is [L]; [exact_at] when nothing else is. *)
Definition kept_at (now : Z) (n : nat) (key : DisclosureKey) (L : list Z) (db : Redis) (all : bool) : Prop :=
  ∃ m d, stored now d (rk key) RZset m db ∧ named_before n m
    ∧ Forall (λ s, s ≤ cutoff W d) (stamps m)
    ∧ if all then stamps m ≡ₚ L else in_window id (cutoff W now) (stamps m) ≡ₚ L.

Lemma kept_eq now n key L db db' all : db !! rk key = db' !! rk key → kept_at now n key L db all → kept_at now n key L db' all.
Proof. intros Hk (m & d & Hs & ?). exists m, d. split; [by eapply stored_eq|done]. Qed.

Lemma kept_names now n n' key L db all : kept_at now n key L db all → (n ≤ n')%nat → kept_at now n' key L db all.
Proof.
  intros (m & d & Hs & Hn & Ha & Hp) Hle. exists m, d. split_and!; [done| |done|done].
  intros k Hk. destruct (Hn k Hk) as (j & r & ? & ?). exists j, r. split; [lia|done].
Qed.

Lemma kept_relax now n key L db : Forall (λ s, cutoff W now < s) L → kept_at now n key L db true → kept_at now n key L db false.
Proof.
  intros HL (m & d & ? & ? & ? & Hp). exists m, d. split_and!; try done. rewrite (in_window_permutation _ _ _ Hp).
  by rewrite in_window_all.
Qed.

Lemma kept_later t now n key L db : kept_at t n key L db false → t ≤ now →
  kept_at now n key (in_window id (cutoff W now) L) db false.
Proof.
  intros (m & d & Hs & Hn & Ha & Hp) Ht.
  assert (Hlive : in_window id (cutoff W now) (stamps m) ≡ₚ in_window id (cutoff W now) L).
  { rewrite <- (in_window_permutation _ _ _ Hp). rewrite in_window_in_window; [done|unfold cutoff; lia]. }
  unfold stored in Hs. destruct (decide (m = ∅)) as [->|Hne].
  { exists ∅, d. split_and!; try done. unfold stored. rewrite decide_True by done. by eapply gone_later. }
  destruct Hs as [Hs Hd]. destruct (decide (now < d)) as [Hlt|Hge].
  - exists m, d. split_and!; try done. unfold stored. by rewrite decide_False.
  - exists ∅, d. split_and!; [|intros k [? Hk]; by rewrite lookup_empty in Hk|constructor|].
    + unfold stored. rewrite decide_True by done. unfold gone. rewrite Hs. exists d. split; [done|lia].
    + rewrite <- Hlive, (in_window_none id _ (stamps m)); [done|]. eapply Forall_impl; [exact Ha|]. cbn. unfold cutoff, id. lia.
Qed.

(** Pruning a set leaves what is inside the window. *)
Lemma prune_run now n key L db all : kept_at now n key L db all → Forall (λ s, cutoff W now < s) L →
  ∃ db', call now (ZRemRangeByScore (rk key) (cutoff W now)) db = (db', Some tt)
    ∧ (∀ k, k ≠ rk key → db' !! k = db !! k) ∧ kept_at now n key L db' true.
Proof.
  intros (m & d & Hs & Hn & Ha & Hp) HL.
  assert (Hperm : stamps (filter (λ ms, cutoff W now < ms.2) m) ≡ₚ L).
  { rewrite stamps_filter. destruct all; [|done]. rewrite (in_window_permutation _ _ _ Hp). by rewrite in_window_all. }
  eexists. split; [apply (ZREMRANGEBYSCORE_run _ _ _ _ _ Hs)|]. split; [intros k Hk; by apply redis_put_ne|].
  exists (filter (λ ms, cutoff W now < ms.2) m), d. split_and!.
  - eapply stored_put; [exact Hs|]. intros ->. apply map_filter_empty.
  - intros k Hk. apply Hn. destruct Hk as [x Hx]. apply map_lookup_filter_Some in Hx as [Hx _]. by exists x.
  - rewrite stamps_filter. unfold in_window. rewrite !Forall_forall in *. intros x [_ Hx]%list_elem_of_filter. by apply Ha.
  - exact Hperm.
Qed.
Lemma card_run now n key L db : kept_at now n key L db true →
  call now (ZCard (rk key)) db = (db, Some (Z.of_nat (length L))).
Proof.
  intros (m & d & Hs & _ & _ & Hp). rewrite (ZCARD_run _ _ _ _ _ Hs). by rewrite <- Hp, stamps_length.
Qed.

Lemma oldest_run now n key L db : kept_at now n key L db true → in_order id L →
  (call now (ZRangeFirst (rk key)) ≫= λ first,
   match first with Some member => call now (ZScore (rk key) member) | None => mret None end) db
  = (db, Some (oldest id L)).
Proof.
  intros (m & d & Hs & _ & _ & Hp) Ho. rewrite (script_bind_ok _ _ _ _ _ (ZRANGE_0_0_run _ _ _ _ _ Hs)).
  assert (Hmin : min_of (stamps m) = oldest id L).
  { rewrite (min_of_permutation _ _ Hp). unfold oldest. rewrite min_of_head; [by destruct L|].
    intros x y Hx Hy. destruct L as [|e L]; [done|]. injection Hx as ->. apply elem_of_cons in Hy as [->|Hy]; [done|].
    apply StronglySorted_inv in Ho as [_ Ho]. rewrite Forall_forall in Ho. by apply Ho. }
  unfold stamps in Hmin. rewrite <- first_member_min in Hmin. destruct (first_member m) as [[k s]|] eqn:Ef; cbn [fmap option_fmap option_map fst snd] in *.
  - rewrite (ZSCORE_run _ _ _ _ _ Hs). by rewrite (first_member_lookup _ _ _ Ef), Hmin.
  - by rewrite <- Hmin.
Qed.

(** ** The two loops *)

Context (now : Z) (L : DisclosureKey → list Z).
Context (L_inside : ∀ key, Forall (λ s, cutoff W now < s) (L key)).
Context (L_order : ∀ key, in_order id (L key)) (L_past : ∀ key, Forall (λ s, s ≤ now) (L key)).

Definition room (ch : Charge) : Prop := Z.of_nat (length (L (ch_key ch))) + ch_weight ch ≤ ch_limit ch.

Definition charged_keys (charges : list Charge) : list string := map (λ ch, rk (ch_key ch)) charges.

Definition all_kept (n : nat) (charges : list Charge) (db : Redis) (all : bool) : Prop :=
  ∀ ch, ch ∈ charges → kept_at now n (ch_key ch) (L (ch_key ch)) db all.

Lemma all_kept_frame n charges db db' all : (∀ k, k ∈ charged_keys charges → db' !! k = db !! k) →
  all_kept n charges db all → all_kept n charges db' all.
Proof.
  intros Hf Hk ch Hch. eapply kept_eq; [|by apply Hk]. symmetry. apply Hf. apply list_elem_of_fmap. by exists ch.
Qed.

Lemma check_run n charges : ∀ i db, NoDup (charged_keys charges) → all_kept n charges db false →
  ∃ db' r, disclosure_check_script W now i charges db = (db', Some r)
    ∧ (∀ k, k ∉ charged_keys charges → db' !! k = db !! k)
    ∧ all_kept n charges db' (match r with None => true | Some _ => false end)
    ∧ match r with
      | None => Forall room charges
      | Some (j, retry) => ∃ pre ch post, charges = pre ++ ch :: post ∧ j = (i + length pre)%nat ∧ Forall room pre
          ∧ ¬ room ch ∧ retry = retry_after W now (oldest id (L (ch_key ch)))
      end.
Proof.
  induction charges as [|ch charges IH]; intros i db Hd Hk.
  { exists db, None. split_and!; [done|done|by intros ch ?%not_elem_of_nil|constructor]. }
  cbn [charged_keys map] in Hd. apply NoDup_cons in Hd as [Hnew Hd]. cbn [disclosure_check_script].
  destruct (prune_run now n (ch_key ch) _ db false (Hk ch ltac:(left)) (L_inside _)) as (db1 & Hrun & Hsame & Hex).
  rewrite (script_bind_ok _ _ _ _ _ Hrun), (script_bind_ok _ _ _ _ _ (card_run _ _ _ _ _ Hex)).
  assert (Hrest : all_kept n charges db1 false).
  { eapply all_kept_frame; [|intros c Hc; apply Hk; by right]. intros k Hin. apply Hsame. by intros ->. }
  destruct (Z.ltb_spec (ch_limit ch) (Z.of_nat (length (L (ch_key ch))) + ch_weight ch)) as [Hover|Hroom].
  - exists db1, (Some (i, retry_after W now (oldest id (L (ch_key ch))))). split_and!.
    + pose proof (oldest_run _ _ _ _ _ Hex (L_order _)) as Hold. unfold mbind, script_bind in Hold |- *.
      destruct (call now (ZRangeFirst (rk (ch_key ch))) db1) as [db2 [first|]]; [|done]. by rewrite Hold.
    + intros k Hin. apply Hsame. intros ->. apply Hin. left.
    + intros c [->|Hc]%elem_of_cons; [by apply kept_relax|by apply Hrest].
    + exists [], ch, charges. split_and!; [done|cbn; lia|constructor|unfold room; lia|done].
  - destruct (IH (S i) db1 Hd Hrest) as (db2 & r & Hrec & Hsame2 & Hk2 & Hr). exists db2, r. split_and!; [done|..].
    + intros k Hin. apply not_elem_of_cons in Hin as [Hne Hin]. by rewrite Hsame2, Hsame.
    + assert (Hhead : kept_at now n (ch_key ch) (L (ch_key ch)) db2 true) by (eapply kept_eq; [|exact Hex]; by rewrite Hsame2).
      intros c [->|Hc]%elem_of_cons; [|by apply Hk2]. destruct r; [by apply kept_relax|done].
    + destruct r as [[j retry]|]; [|by constructor]. destruct Hr as (pre & c & post & -> & -> & Hpre & Hc & ->).
      exists (ch :: pre), c, post. split_and!; [done|cbn; lia|by constructor|done|done].
Qed.

(** The names a call gives are new, and differ. *)
Lemma pretty_no_colon (n : nat) : no_char ":" (pretty n) = true.
Proof.
  unfold no_char. change (pretty n) with (pretty (N.of_nat n)). apply pretty_N_digits. intros y Hy.
  apply pretty_N_char_digit, andb_true_iff in Hy as [Hy _]. apply bool_decide_eq_true. intros Hc. by rewrite Hc in Hy.
Qed.

Lemma unit_member_named (n i w : nat) : unit_member (pretty n) i w = pretty n +:+ String ":" (pretty i +:+ ":" +:+ pretty w).
Proof. done. Qed.

Lemma unit_member_new (n : nat) m i w : named_before n m → m !! unit_member (pretty n) i w = None.
Proof.
  intros Hn. apply eq_None_not_Some. intros Hk. destruct (Hn _ Hk) as (j & rest & Hj & Heq).
  rewrite unit_member_named in Heq. apply split_first in Heq as [Heq _]; [|apply pretty_no_colon..].
  apply (inj pretty) in Heq. lia.
Qed.

Lemma unit_member_inj member i w w' : unit_member member i w = unit_member member i w' → w = w'.
Proof. unfold unit_member. intros H. do 4 apply string_app_inj_l in H. by apply (inj pretty) in H. Qed.

(** Recording units one by one. *)
Lemma units_run (n i : nat) d k ws : ∀ m db, NoDup ws → stored now d k RZset m db →
  (∀ w, w ∈ ws → m !! unit_member (pretty n) i w = None) →
  ∃ m' db', script_each (λ w, call now (ZAdd k now (unit_member (pretty n) i w))) ws db = (db', Some tt)
    ∧ (m' = m ∧ db' = db ∨ m' ≠ ∅ ∧ redis_get now k db' = Some (RZset m'))
    ∧ stamps m' ≡ₚ stamps m ++ replicate (length ws) now
    ∧ (∀ j, is_Some (m' !! j) → is_Some (m !! j) ∨ ∃ w, j = unit_member (pretty n) i w)
    ∧ ∀ k', k' ≠ k → db' !! k' = db !! k'.
Proof.
  assert (Hgen : ∀ m db, NoDup ws → as_zset (redis_get now k db) = Some m →
    (∀ w, w ∈ ws → m !! unit_member (pretty n) i w = None) →
    ∃ m' db', script_each (λ w, call now (ZAdd k now (unit_member (pretty n) i w))) ws db = (db', Some tt)
      ∧ (m' = m ∧ db' = db ∨ m' ≠ ∅ ∧ redis_get now k db' = Some (RZset m'))
      ∧ stamps m' ≡ₚ stamps m ++ replicate (length ws) now
      ∧ (∀ j, is_Some (m' !! j) → is_Some (m !! j) ∨ ∃ w, j = unit_member (pretty n) i w)
      ∧ ∀ k', k' ≠ k → db' !! k' = db !! k').
  { induction ws as [|w ws IH]; intros m db Hd Hz Hnew.
    { exists m, db. split_and!; [done|by left|by rewrite app_nil_r|by left|done]. }
    apply NoDup_cons in Hd as [Hw Hd]. cbn [script_each].
    set (m1 := <[unit_member (pretty n) i w := now]> m). set (db1 := redis_put now k m1 RZset db).
    assert (Hadd : call now (ZAdd k now (unit_member (pretty n) i w)) db = (db1, Some tt)).
    { cbn. unfold ZADD, read_zset, mbind, script_bind. by rewrite Hz. }
    rewrite (script_bind_ok _ _ _ _ _ Hadd). assert (Hm1 : m1 ≠ ∅) by apply insert_non_empty.
    destruct (IH m1 db1 Hd) as (m' & db' & Hrun & Hend & Hst & Hnm & Hfr).
    { unfold db1. by rewrite put_get. }
    { intros w' Hw'. unfold m1. rewrite lookup_insert_ne; [apply Hnew; by right|]. by intros ->%unit_member_inj. }
    exists m', db'. split_and!; [done| | | |].
    - right. destruct Hend as [[-> ->]|?]; [|done]. split; [done|]. unfold db1. by apply put_get.
    - rewrite Hst. unfold m1. rewrite stamps_insert by (apply Hnew; left). cbn [length replicate].
      by rewrite <- Permutation_middle.
    - intros j Hj. destruct (Hnm j Hj) as [[x Hx]|?]; [|by right]. unfold m1 in Hx.
      destruct (decide (j = unit_member (pretty n) i w)) as [->|Hne]; [by right; exists w|].
      rewrite lookup_insert_ne in Hx by done. left. by exists x.
    - intros k' Hk'. rewrite Hfr by done. unfold db1. by apply redis_put_ne. }
  intros m db Hd Hs Hnew. apply Hgen; [done| |done]. by apply stored_zset with (d := d).
Qed.

Lemma record_run n charges : ∀ i db, NoDup (charged_keys charges) → all_kept n charges db true →
  ∃ db', disclosure_record_script W now (pretty n) i charges db = (db', Some tt)
    ∧ (∀ k, k ∉ charged_keys charges → db' !! k = db !! k)
    ∧ ∀ ch, ch ∈ charges → kept_at now (S n) (ch_key ch) (L (ch_key ch) ++ replicate (Z.to_nat (ch_weight ch)) now) db' true.
Proof.
  induction charges as [|ch charges IH]; intros i db Hd Hk.
  { exists db. split_and!; [done|done|by intros ch ?%not_elem_of_nil]. }
  cbn [charged_keys map] in Hd. apply NoDup_cons in Hd as [Hnew Hd]. cbn [disclosure_record_script].
  destruct (Hk ch ltac:(left)) as (m & d & Hs & Hn & Ha & Hp).
  destruct (units_run n i d (rk (ch_key ch)) (seq 1 (Z.to_nat (ch_weight ch))) m db) as (m' & db1 & Hrun & Hend & Hst & Hnm & Hfr).
  { apply NoDup_seq. }
  { done. }
  { intros w _. by apply unit_member_new. }
  rewrite (script_bind_ok _ _ _ _ _ Hrun).
  rewrite (script_bind_ok (call now (Expire (rk (ch_key ch)) W)) _ db1 (EXPIRE now (rk (ch_key ch)) W db1).1 tt) by done.
  set (db2 := (EXPIRE now (rk (ch_key ch)) W db1).1).
  assert (Hframe : ∀ k, k ≠ rk (ch_key ch) → db2 !! k = db !! k).
  { intros k Hne. unfold db2. rewrite EXPIRE_ne by congruence. by apply Hfr. }
  rewrite length_seq in Hst.
  assert (Hall : Forall (λ s, s ≤ now) (stamps m')).
  { rewrite Hst. apply Forall_app. split; [rewrite Hp; apply L_past|]. apply Forall_replicate. lia. }
  assert (Hkept : kept_at now (S n) (ch_key ch) (L (ch_key ch) ++ replicate (Z.to_nat (ch_weight ch)) now) db2 true).
  { exists m', (now + W * second). split_and!.
    - unfold stored. destruct (decide (m' = ∅)) as [Hm'|Hm'].
      + destruct Hend as [[-> ->]|[? _]]; [|done]. unfold stored in Hs. rewrite decide_True in Hs by done.
        unfold db2, EXPIRE. by rewrite (gone_get _ _ _ Hs).
      + assert (Hget : redis_get now (rk (ch_key ch)) db1 = Some (RZset m')).
        { destruct Hend as [[-> ->]|[_ ?]]; [|done]. rewrite (stored_get _ _ _ _ _ _ Hs). by rewrite decide_False. }
        pose proof (stored_expire now (rk (ch_key ch)) RZset m' W db1 Hget Hm' W_positive) as Hexp.
        unfold stored in Hexp. by rewrite decide_False in Hexp.
    - intros j Hj. destruct (Hnm j Hj) as [Hold|[w ->]].
      + destruct (Hn j Hold) as (x & rest & ? & ?). exists x, rest. split; [lia|done].
      + exists n. eexists. split; [lia|apply unit_member_named].
    - eapply Forall_impl; [exact Hall|]. cbn. intros s. unfold cutoff. lia.
    - rewrite Hst. by rewrite Hp. }
  destruct (IH (S i) db2 Hd) as (db3 & Hrec & Hsame & Hk3).
  { eapply all_kept_frame; [|intros c Hc; apply Hk; by right]. intros k Hin. apply Hframe. by intros ->. }
  exists db3. split_and!; [done| |].
  - intros k Hin. apply not_elem_of_cons in Hin as [Hne Hin]. by rewrite Hsame, Hframe.
  - intros c [->|Hc]%elem_of_cons; [|by apply Hk3]. eapply kept_eq; [|exact Hkept]. symmetry. by apply Hsame.
Qed.
End simulation.

(** ** Against the in-process limiter *)

Lemma first_failure {A} (P : A → Prop) pre x post pre' x' post' :
  pre ++ x :: post = pre' ++ x' :: post' → Forall P pre → ¬ P x → Forall P pre' → ¬ P x' → pre = pre' ∧ x = x'.
Proof.
  revert pre'. induction pre as [|a pre IH]; intros [|b pre'] H Hp Hx Hp' Hx'; cbn in H.
  - by injection H as ->.
  - injection H as -> _. apply Forall_cons in Hp' as [? _]. done.
  - injection H as -> _. apply Forall_cons in Hp as [? _]. done.
  - injection H as -> H. apply Forall_cons in Hp as [_ Hp], Hp' as [_ Hp'].
    by destruct (IH pre' H Hp Hx Hp' Hx') as [-> ->].
Qed.

Section refinement.
Context (W : Z) (W_positive : 0 < W).

Definition named (key : DisclosureKey) : Prop := key_connection key ≠ "".

Lemma redis_keys_differ k1 k2 : named k1 → named k2 → k1 ≠ k2 → rk k1 ≠ rk k2.
Proof. intros H1 H2 Hne Heq. apply Hne. by apply (budget_keys_distinct_and_colocated k1 k2 H1 H2). Qed.

(** Both hold the same windows, under every key in use. *)
Record disclosure_rel (t : Z) (mem : InProcessDisclosure) (st : RedisDisclosure Redis) : Prop := {
  dr_reachable : rd_reachable st = true;
  dr_windows : windows_ok t (dl_windows mem);
  dr_kept key : named key → kept_at W t (rd_names st) key (live W t (dl_windows mem) key) (rd_db st) false;
}.

Lemma live_facts t mem now key : windows_ok t (dl_windows mem) → t ≤ now →
  Forall (λ s, cutoff W now < s) (live W now (dl_windows mem) key)
  ∧ in_order id (live W now (dl_windows mem) key) ∧ Forall (λ s, s ≤ now) (live W now (dl_windows mem) key).
Proof.
  intros Hok Ht. destruct (entries_ok t _ key Hok) as [Ho Hp]. unfold live. split_and!.
  - apply Forall_forall. by intros s [Hs _]%in_window_elem.
  - by apply in_order_in_window.
  - rewrite Forall_forall in Hp. apply Forall_forall. intros s [_ Hs]%in_window_elem. specialize (Hp s Hs). lia.
Qed.

Lemma charged_keys_distinct charges : Forall (λ ch, named (ch_key ch)) charges → NoDup (ch_key <$> charges) →
  NoDup (charged_keys charges).
Proof.
  induction charges as [|ch charges IH]; intros Hn Hd; [constructor|]. apply Forall_cons in Hn as [Hch Hn].
  cbn in Hd |- *. apply NoDup_cons in Hd as [Hnew Hd]. apply NoDup_cons. split; [|by apply IH].
  intros (c & Hc & Hin)%list_elem_of_fmap. rewrite Forall_forall in Hn. apply (redis_keys_differ (ch_key ch) (ch_key c)) in Hc; [done|done|by apply Hn|].
  intros Heq. apply Hnew. rewrite Heq. by apply list_elem_of_fmap_2.
Qed.

(** A key no charge is on keeps what it has. *)
Lemma kept_elsewhere t now n n' mem key charges db db' : named key → Forall (λ ch, named (ch_key ch)) charges →
  key ∉ ch_key <$> charges → (∀ k, k ∉ charged_keys charges → db' !! k = db !! k) → t ≤ now → (n ≤ n')%nat →
  kept_at W t n key (live W t (dl_windows mem) key) db false →
  kept_at W now n' key (live W now (dl_windows mem) key) db' false.
Proof.
  intros Hn Hcs Hout Hfr Ht Hle Hk. apply (kept_later W t now) in Hk; [|done].
  replace (live W now (dl_windows mem) key) with (in_window id (cutoff W now) (live W t (dl_windows mem) key)).
  2: { unfold live. rewrite in_window_in_window; [done|unfold cutoff; lia]. }
  eapply kept_names; [|exact Hle]. eapply kept_eq; [|exact Hk]. symmetry. apply Hfr.
  intros (c & Hc & Hin)%list_elem_of_fmap. rewrite Forall_forall in Hcs.
  apply (redis_keys_differ key (ch_key c)) in Hc; [done|done|by apply Hcs|]. intros ->. apply Hout. by apply list_elem_of_fmap_2.
Qed.

Lemma reserve_sim t now mem st charges : disclosure_rel t mem st → t ≤ now → NoDup (ch_key <$> charges) →
  Forall (λ ch, named (ch_key ch)) charges → charges ≠ [] →
  (reserve_charges mem charges W now).2 = (reserve_charges st charges W now).2
  ∧ disclosure_rel now (reserve_charges mem charges W now).1 (reserve_charges st charges W now).1.
Proof.
  intros [Hreach Hok Hkept] Ht Hd Hn Hne.
  destruct (reserve_spec W now t mem charges W_positive Hok Ht Hd) as (mem' & r & Hmem & Hok' & Hr). rewrite Hmem. cbn [fst snd].
  set (L := live W now (dl_windows mem)) in *. pose proof (charged_keys_distinct charges Hn Hd) as Hdk.
  assert (Hfacts := λ key, live_facts t mem now key Hok Ht).
  assert (Hall : all_kept W now L (rd_names st) charges (rd_db st) false).
  { intros ch Hch. rewrite Forall_forall in Hn. pose proof (kept_later W t now _ _ _ _ (Hkept _ (Hn ch Hch)) Ht) as Hk.
    unfold L, live in *. rewrite in_window_in_window in Hk; [done|unfold cutoff; lia]. }
  destruct (check_run W now L (λ k, proj1 (Hfacts k)) (λ k, proj1 (proj2 (Hfacts k))) (rd_names st) charges 1 (rd_db st) Hdk Hall)
    as (db1 & c & Hcheck & Hfr1 & Hk1 & Hc).
  unfold reserve_charges at 1 2, redis_disclosure. destruct charges as [|c0 charges]; [done|]. rewrite Hreach.
  set (cs := c0 :: charges) in *. unfold disclosure_reserve_script. rewrite (script_bind_ok _ _ _ _ _ Hcheck).
  destruct c as [[j retry]|].
  - destruct Hc as (pre & ch & post & Hsplit & -> & Hpre & Hch & ->). destruct r as [[]|e].
    { exfalso. destruct Hr as [Hf _]. rewrite Hsplit in Hf. apply Forall_app in Hf as [_ Hf].
      apply Forall_cons in Hf as [Hf _]. by apply Hch. }
    destruct Hr as ((pre' & ch' & post' & Hsplit' & Hpre' & Hch' & ->) & Hlive).
    destruct (first_failure (fits W now (dl_windows mem)) pre ch post pre' ch' post') as [<- <-]; [congruence|done..|].
    cbn [mret script_ret fst snd]. replace (1 + length pre - 1)%nat with (length pre) by lia. split.
    { rewrite Hsplit. by rewrite list_lookup_middle. }
    split; [done|done|]. intros key Hkey. cbn [rd_db rd_names]. rewrite Hlive.
    destruct (decide (key ∈ ch_key <$> cs)) as [Hin|Hout].
    + apply list_elem_of_fmap in Hin as (c & -> & Hc). eapply kept_names; [by apply Hk1|lia].
    + eapply kept_elsewhere; [done|exact Hn|exact Hout|exact Hfr1|exact Ht| |by apply Hkept]. lia.
  - destruct r as [[]|e].
    2: { exfalso. destruct Hr as ((pre & ch & post & Hsplit & _ & Hch & _) & _). rewrite Hsplit in Hc.
         apply Forall_app in Hc as [_ Hc]. apply Forall_cons in Hc as [Hc _]. by apply Hch. }
    destruct Hr as [_ Hlive].
    destruct (record_run W W_positive now L (λ k, proj2 (proj2 (Hfacts k))) (rd_names st) cs 1 db1 Hdk Hk1) as (db2 & Hrec & Hfr2 & Hk2).
    rewrite (script_bind_ok _ _ _ _ _ Hrec). cbn [mret script_ret fst snd]. split; [done|].
    split; [done|done|]. intros key Hkey. cbn [rd_db rd_names]. rewrite Hlive.
    destruct (decide (key ∈ ch_key <$> cs)) as [Hin|Hout].
    + apply list_elem_of_fmap in Hin as (c & -> & Hcin). unfold add_charge. rewrite (weight_of_elem cs c Hd Hcin).
      apply kept_relax; [|by apply Hk2]. apply Forall_app. split; [by apply Hfacts|]. apply Forall_replicate.
      unfold cutoff, second. lia.
    + rewrite add_charge_absent, app_nil_r by done.
      eapply kept_elsewhere; [done|exact Hn|exact Hout| |exact Ht| |by apply Hkept]; [|lia].
      intros k Hk. by rewrite Hfr2, Hfr1.
Qed.
End refinement.

(** ** Any server *)

Section server.
Context {DB : Type} `{RS : !RedisServer DB}.

Lemma follows_check window now charges : ∀ i,
  follows (DB := DB) (disclosure_check_script window now i charges) (disclosure_check_script window now i charges).
Proof.
  induction charges as [|ch charges IH]; intros i; cbn [disclosure_check_script]; [apply follows_ret|].
  apply follows_bind; [auto with redis_db|intros _]. apply follows_bind; [auto with redis_db|intros count].
  destruct (ch_limit ch <? count + ch_weight ch); [|apply IH]. apply follows_bind; [auto with redis_db|intros first].
  apply follows_bind; [destruct first; auto with redis_db|intros oldest; apply follows_ret].
Qed.

Lemma follows_record_units window now member charges : ∀ i,
  follows (DB := DB) (disclosure_record_script window now member i charges) (disclosure_record_script window now member i charges).
Proof.
  induction charges as [|ch charges IH]; intros i; cbn [disclosure_record_script]; [apply follows_ret|].
  apply follows_bind; [auto with redis_db|intros _]. apply follows_bind; [auto with redis_db|intros _]. apply IH.
Qed.

Lemma follows_disclosure_reserve window now member charges :
  follows (DB := DB) (disclosure_reserve_script window now member charges) (disclosure_reserve_script window now member charges).
Proof.
  unfold disclosure_reserve_script. apply follows_bind; [apply follows_check|intros [r|]]; [apply follows_ret|].
  apply follows_bind; [apply follows_record_units|intros _; apply follows_ret].
Qed.

Definition same_holder (st : RedisDisclosure DB) (st' : RedisDisclosure Redis) : Prop :=
  rd_reachable st = rd_reachable st' ∧ rd_names st = rd_names st' ∧ contents (rd_db st) = rd_db st'.

Lemma server_reserve_charges st st' charges window now : same_holder st st' →
  (reserve_charges st charges window now).2 = (reserve_charges st' charges window now).2
  ∧ same_holder (reserve_charges st charges window now).1 (reserve_charges st' charges window now).1.
Proof.
  intros (Hr & Hn & Hdb). unfold reserve_charges, redis_disclosure. destruct charges as [|ch charges]; [by split|].
  rewrite <- Hr, <- Hn, <- Hdb. destruct (rd_reachable st); cbn [fst snd]; [|by split].
  pose proof (follows_disclosure_reserve window now (pretty (rd_names st)) (ch :: charges) (rd_db st)) as Hf.
  destruct (disclosure_reserve_script _ _ _ _ (rd_db st)) as [db r]. cbn [fst snd] in Hf. rewrite <- Hf. by split.
Qed.
End server.

Section runs.
Context `{CF : CaseFold} `{FT : FloatText} `{DG : !Digest}.

Lemma enforce_call_cases `{DisclosureBudgetLimiter L} (st : L) c :
  (∃ charges, call_charges c = Ok charges ∧ charges ≠ []
     ∧ enforce_call st c = reserve_charges st charges (disclosure_budget_window_seconds (disclosure (dc_policy c))) (dc_now c))
  ∨ ((∀ charges, call_charges c = Ok charges → charges = [])
     ∧ ∃ o, ∀ (L' : Type) (H' : DisclosureBudgetLimiter L') (st' : L'), enforce_call st' c = (st', o)).
Proof.
  unfold enforce_call, enforce_disclosure_budget, call_charges. destruct (dc_principal c) as [s|].
  - destruct (disclosure_charges _ _ _ s) as [[|ch charges]|e] eqn:E.
    + right. split; [by intros ? [= <-]|]. by eexists.
    + left. by exists (ch :: charges).
    + right. split; [done|]. by eexists.
  - right. split; [by intros ? [= <-]|]. by eexists.
Qed.

Lemma redis_run_sim W calls : 0 < W → ∀ t mem (st : RedisDisclosure Redis),
  disclosure_calls_ok W t calls → (∀ c, c ∈ calls → dc_connection c ≠ "") → disclosure_rel W t mem st →
  (disclosure_run mem calls).2 = (disclosure_run st calls).2.
Proof.
  intros HW. induction calls as [|c calls IH]; intros t mem st Hok Hconn Hrel; [done|].
  destruct Hok as (Ht & Hwin & Hok). cbn [disclosure_run].
  destruct (enforce_call_cases mem c) as [(charges & Hcc & Hne & Hmem)|(_ & o & Ho)].
  - destruct (enforce_call_cases st c) as [(charges' & Hcc' & _ & Hst)|(Hnil & _)]; [|by destruct Hne; apply Hnil].
    rewrite Hcc in Hcc'. injection Hcc' as <-. rewrite Hmem, Hst, Hwin.
    assert (Hfacts : NoDup (ch_key <$> charges) ∧ Forall (λ ch, named (ch_key ch)) charges).
    { unfold call_charges in Hcc. destruct (dc_principal c) as [s|]; [|by injection Hcc as <-]. split.
      - by apply (disclosure_charges_distinct _ _ _ _ _ Hcc).
      - apply Forall_forall. intros ch Hch. destruct (disclosure_charges_elem _ _ _ _ _ _ Hcc Hch) as (tb & f & -> & _).
        unfold named, key_connection. cbn. apply Hconn. by left. }
    destruct (reserve_sim W HW t (dc_now c) mem st charges Hrel Ht (proj1 Hfacts) (proj2 Hfacts) Hne) as [Hsame Hrel'].
    destruct (reserve_charges mem charges W (dc_now c)) as [mem' o], (reserve_charges st charges W (dc_now c)) as [st' o'].
    cbn [fst snd] in *. specialize (IH (dc_now c) mem' st' Hok ltac:(intros c' Hc'; apply Hconn; by right) Hrel').
    destruct (disclosure_run mem' calls), (disclosure_run st' calls). cbn in *. congruence.
  - rewrite !Ho. specialize (IH (dc_now c) mem st Hok ltac:(intros c' Hc'; apply Hconn; by right)).
    destruct (disclosure_run mem calls), (disclosure_run st calls). cbn in *. rewrite IH; [done|].
    destruct Hrel as [Hr Hw Hk]. split; [done|by eapply windows_ok_later|]. intros key Hkey.
    pose proof (kept_later W t (dc_now c) _ _ _ _ (Hk key Hkey) Ht) as Hlater. unfold live in *.
    rewrite in_window_in_window in Hlater; [done|unfold cutoff; lia].
Qed.

Lemma server_runs_same `{RS : !RedisServer DB} calls : ∀ (st : RedisDisclosure DB) st', same_holder st st' →
  (disclosure_run st calls).2 = (disclosure_run st' calls).2.
Proof.
  induction calls as [|c calls IH]; intros st st' Hsame; [done|]. cbn [disclosure_run].
  destruct (enforce_call_cases st c) as [(charges & Hcc & Hne & Hst)|(_ & o & Ho)].
  - destruct (enforce_call_cases st' c) as [(charges' & Hcc' & _ & Hst')|(Hnil & _)]; [|by destruct Hne; apply Hnil].
    rewrite Hcc in Hcc'. injection Hcc' as <-. rewrite Hst, Hst'.
    destruct (server_reserve_charges st st' charges (disclosure_budget_window_seconds (disclosure (dc_policy c))) (dc_now c) Hsame) as [Ho Hs].
    destruct (reserve_charges st charges _ _) as [st1 o], (reserve_charges st' charges _ _) as [st1' o']. cbn [fst snd] in *.
    specialize (IH st1 st1' Hs). destruct (disclosure_run st1 calls), (disclosure_run st1' calls). cbn in *. congruence.
  - rewrite !Ho. specialize (IH st st' Hsame). destruct (disclosure_run st calls), (disclosure_run st' calls). cbn in *. congruence.
Qed.

(** The two disclosure limiters are one: over any run on a clock that does not
    go back, with one window length and connections that have a name, and a Redis
    server that answers, does as documented and starts empty, the script admits
    and refuses exactly the queries the in-process windows do, for the same
    budget and with the same wait. *)
Theorem redis_budget_refines `{RS : !RedisServer DB} (db : DB) W t calls :
  contents db = ∅ → 0 < W → disclosure_calls_ok W t calls → (∀ c, c ∈ calls → dc_connection c ≠ "") →
  (disclosure_run (MkRedisDisclosure db true 0) calls).2 = (disclosure_run (MkInProcessDisclosure ∅ 0) calls).2.
Proof.
  intros Hdb HW Hok Hconn. rewrite (server_runs_same calls _ (MkRedisDisclosure ∅ true 0)) by done.
  symmetry. apply (redis_run_sim W calls HW t); [done..|]. split; [done| |].
  - intros key es H. cbn in H. by rewrite lookup_empty in H.
  - intros key _. exists ∅, 0. split_and!; [|intros k [x H]; by rewrite lookup_empty in H|constructor|].
    + unfold stored. rewrite decide_True by done. unfold gone. cbn [rd_db]. by rewrite lookup_empty.
    + cbn. unfold live, entries_of. by rewrite lookup_empty.
Qed.

(** ** Failing closed *)

(** The members of a key that are still in the window, if it holds a sorted set
    or nothing. *)
Definition in_now (W now : Z) (k : string) (db : Redis) : option (gmap string Z) :=
  filter (λ ms, cutoff W now < ms.2) <$> as_zset (redis_get now k db).

(** The units spent of a budget, and whether a charge on it fits. *)
Definition units_spent (W now : Z) (db : Redis) (ch : Charge) : option Z :=
  (λ z, Z.of_nat (size z)) <$> in_now W now (disclosure_redis_key (ch_key ch)) db.

Definition has_room (W now : Z) (db : Redis) (ch : Charge) : Prop :=
  ∃ n, units_spent W now db ch = Some n ∧ n + ch_weight ch ≤ ch_limit ch.

Section closed.
Context (W now : Z).

Definition same_now (db db' : Redis) : Prop := ∀ k, in_now W now k db' = in_now W now k db.

Lemma is_zset_in_now k db : is_Some (in_now W now k db) ↔ is_Some (as_zset (redis_get now k db)).
Proof. unfold in_now. by rewrite fmap_is_Some. Qed.

Lemma put_zset_get k m db :
  as_zset (redis_get now k (redis_put now k m RZset db)) = Some m.
Proof.
  destruct (decide (m = ∅)) as [->|Hm]; [|by rewrite put_get].
  unfold redis_put. rewrite decide_True by done. unfold redis_get. by rewrite lookup_delete_eq.
Qed.

(** The prune of a key forgets nothing that counts. *)
Lemma prune_now k db :
  match as_zset (redis_get now k db) with
  | Some z => ∃ db', call now (ZRemRangeByScore k (cutoff W now)) db = (db', Some tt) ∧ same_now db db'
      ∧ as_zset (redis_get now k db') = in_now W now k db
  | None => call now (ZRemRangeByScore k (cutoff W now)) db = (db, None)
  end.
Proof.
  cbn [call documented_server documented]. unfold ZREMRANGEBYSCORE, read_zset, mbind, script_bind.
  destruct (as_zset (redis_get now k db)) as [z|] eqn:Hz; [|done].
  eexists. split; [done|]. split.
  - intros k'. unfold in_now. destruct (decide (k = k')) as [<-|Hne]; [|by rewrite put_get_ne].
    rewrite put_zset_get, Hz. cbn. f_equal. apply map_filter_id. intros i x [_ H]%map_lookup_filter_Some. done.
  - rewrite put_zset_get. unfold in_now. by rewrite Hz.
Qed.

Lemma has_room_same db db' ch : same_now db db' → has_room W now db' ch ↔ has_room W now db ch.
Proof. intros H. unfold has_room, units_spent. by rewrite H. Qed.

(** The first loop stops at the first charge that has no room, or whose key
    holds something else. *)
Lemma check_finds charges : ∀ i db, ∃ db' r,
  disclosure_check_script W now i charges db = (db', r) ∧ same_now db db'
  ∧ match r with
    | Some None => Forall (has_room W now db) charges
    | Some (Some (j, _)) => ∃ pre ch post, charges = pre ++ ch :: post ∧ Forall (has_room W now db) pre
        ∧ j = (i + length pre)%nat ∧ is_Some (units_spent W now db ch) ∧ ¬ has_room W now db ch
    | None => ∃ pre ch post, charges = pre ++ ch :: post ∧ Forall (has_room W now db) pre
        ∧ units_spent W now db ch = None
    end.
Proof.
  induction charges as [|ch charges IH]; intros i db; cbn [disclosure_check_script].
  { exists db, (Some None). split; [done|]. split; [by intros k|constructor]. }
  set (k := disclosure_redis_key (ch_key ch)). pose proof (prune_now k db) as Hp.
  assert (Hspent : units_spent W now db ch = (λ z, Z.of_nat (size z)) <$> in_now W now k db) by done.
  destruct (as_zset (redis_get now k db)) as [z|] eqn:Hz.
  2: { exists db, None. split; [unfold mbind, script_bind; by rewrite Hp|]. split; [by intros k'|].
       exists [], ch, charges. split_and!; [done|constructor|]. rewrite Hspent. unfold in_now. by rewrite Hz. }
  destruct Hp as (db1 & Hrun & Hsame & Hz1). rewrite (script_bind_ok _ _ _ _ _ Hrun).
  unfold in_now in Hz1, Hspent. rewrite Hz in Hz1, Hspent. cbn [fmap option_fmap option_map] in Hz1, Hspent.
  set (m := filter _ z) in *.
  assert (Hread : read_zset now k db1 = (db1, Some m)) by (unfold read_zset; by rewrite Hz1).
  rewrite (script_bind_ok _ _ _ db1 (Z.of_nat (size m)))
    by (cbn; unfold ZCARD; by rewrite (script_bind_ok _ _ _ _ _ Hread)).
  destruct (Z.ltb_spec (ch_limit ch) (Z.of_nat (size m) + ch_weight ch)) as [Hlt|Hle].
  - rewrite (script_bind_ok _ _ _ db1 (fst <$> first_member m))
      by (cbn; unfold ZRANGE_0_0; by rewrite (script_bind_ok _ _ _ _ _ Hread)).
    rewrite (script_bind_ok _ _ _ db1 ((fst <$> first_member m) ≫= λ member, m !! member)).
    2: { destruct (fst <$> first_member m) as [member|]; [|done].
         cbn. unfold ZSCORE. by rewrite (script_bind_ok _ _ _ _ _ Hread). }
    eexists db1, _. split; [done|split; [done|]]. cbn beta iota.
    exists [], ch, charges. split_and!; [done|constructor|cbn; lia|by rewrite Hspent|].
    intros (n & Hn & Hroom). rewrite Hspent in Hn. injection Hn as <-. lia.
  - assert (Hroom : has_room W now db ch) by (exists (Z.of_nat (size m)); split; [done|lia]).
    destruct (IH (S i) db1) as (db2 & r & Hr & Hsame2 & Hfind). exists db2, r. split; [done|].
    split; [intros k'; by rewrite Hsame2|]. destruct r as [[[j retry]|]|].
    + destruct Hfind as (pre & c & post & -> & Hpre & -> & Hs & Hno). exists (ch :: pre), c, post.
      split_and!; [done| |cbn; lia| |].
      * constructor; [done|]. eapply Forall_impl; [exact Hpre|]. intros c'. by rewrite has_room_same.
      * revert Hs. unfold units_spent. by rewrite Hsame.
      * by rewrite <- (has_room_same db db1).
    + constructor; [done|]. eapply Forall_impl; [exact Hfind|]. intros c'. by rewrite has_room_same.
    + destruct Hfind as (pre & c & post & -> & Hpre & Hs). exists (ch :: pre), c, post. split_and!; [done| |].
      * constructor; [done|]. eapply Forall_impl; [exact Hpre|]. intros c'. by rewrite has_room_same.
      * revert Hs. unfold units_spent. by rewrite Hsame.
Qed.

(** The second loop runs to its end on keys that hold sorted sets or nothing. *)
Definition zset_at (db : Redis) (k : string) : Prop := is_Some (as_zset (redis_get now k db)).

Lemma zset_at_put k m db k' : zset_at db k' → zset_at (redis_put now k m RZset db) k'.
Proof.
  unfold zset_at. destruct (decide (k = k')) as [<-|Hne]; [by rewrite put_zset_get|by rewrite put_get_ne].
Qed.

Lemma zset_at_expire k seconds db k' : zset_at db k' → zset_at (EXPIRE now k seconds db).1 k'.
Proof.
  unfold zset_at. destruct (decide (k = k')) as [<-|Hne]; [|by rewrite EXPIRE_get_ne].
  unfold EXPIRE. destruct (redis_get now k db) as [v|] eqn:E; cbn [fst]; [|by rewrite E].
  intros Hv. unfold redis_get. rewrite lookup_insert_eq. destruct (expired _ _); [by eexists|exact Hv].
Qed.

Lemma add_units_run {A} k (f : A → string) members db : zset_at db k →
  ∃ db', script_each (λ m, call now (ZAdd k now (f m))) members db = (db', Some tt)
    ∧ ∀ k', zset_at db k' → zset_at db' k'.
Proof.
  revert db. induction members as [|m members IH]; intros db Hk; [by exists db|]. cbn [script_each].
  destruct Hk as [z Hz]. rewrite (script_bind_ok _ _ db (redis_put now k (<[f m := now]> z) RZset db) tt).
  2: { cbn. unfold ZADD, read_zset, mbind, script_bind. by rewrite Hz. }
  destruct (IH (redis_put now k (<[f m := now]> z) RZset db)) as (db' & Hrun & Hkeep); [apply zset_at_put; by eexists|].
  exists db'. split; [done|]. intros k' Hk'. by apply Hkeep, zset_at_put.
Qed.

Lemma record_completes member charges : ∀ i db,
  Forall (λ ch, zset_at db (disclosure_redis_key (ch_key ch))) charges →
  (disclosure_record_script W now member i charges db).2 = Some tt.
Proof.
  induction charges as [|ch charges IH]; intros i db Hall; [done|]. cbn [disclosure_record_script].
  apply Forall_cons in Hall as [Hch Hall].
  destruct (add_units_run _ (unit_member member i) (seq 1 (Z.to_nat (ch_weight ch))) db Hch) as (db1 & Hrun & Hkeep).
  rewrite (script_bind_ok _ _ _ _ _ Hrun).
  set (k := disclosure_redis_key (ch_key ch)).
  rewrite (script_bind_ok (call now (Expire k W)) _ db1 (EXPIRE now k W db1).1 tt) by done.
  apply IH. eapply Forall_impl; [exact Hall|]. intros c Hc. by apply zset_at_expire, Hkeep.
Qed.

Lemma has_room_zset db ch : has_room W now db ch → zset_at db (disclosure_redis_key (ch_key ch)).
Proof.
  intros (n & Hn & _). unfold units_spent in Hn. apply is_zset_in_now.
  destruct (in_now _ _ _ _); [by eexists|done].
Qed.

(** What the whole script replies. *)
Lemma reserve_reply member charges db :
  match (disclosure_reserve_script W now member charges db).2 with
  | Some None => Forall (has_room W now db) charges
  | Some (Some (j, _)) => ∃ pre ch post, charges = pre ++ ch :: post ∧ Forall (has_room W now db) pre
      ∧ j = S (length pre) ∧ is_Some (units_spent W now db ch) ∧ ¬ has_room W now db ch
  | None => ∃ pre ch post, charges = pre ++ ch :: post ∧ Forall (has_room W now db) pre
      ∧ units_spent W now db ch = None
  end.
Proof.
  unfold disclosure_reserve_script. destruct (check_finds charges 1 db) as (db1 & r & Hrun & Hsame & Hr).
  destruct r as [[[j retry]|]|].
  - rewrite (script_bind_ok _ _ _ _ _ Hrun). exact Hr.
  - rewrite (script_bind_ok _ _ _ _ _ Hrun).
    assert (Hz : Forall (λ ch, zset_at db1 (disclosure_redis_key (ch_key ch))) charges).
    { eapply Forall_impl; [exact Hr|]. intros ch Hch. apply has_room_zset. by apply (has_room_same db). }
    pose proof (record_completes member charges 1 db1 Hz) as Hrec.
    unfold mbind, script_bind. destruct (disclosure_record_script _ _ _ _ _ db1) as [db2 o]. cbn in Hrec |- *.
    by subst o.
  - unfold mbind, script_bind. by rewrite Hrun.
Qed.

End closed.

(** C18. The cross-replica budget fails closed: a call that carries charges is
    answered exactly when the server can be reached and, of every charge, the
    units other calls left in its window and its own weight are within its
    limit. If a charge does not fit, the refusal is of the kind of the first that
    does not; if the server cannot be reached, or a key holds something that is
    not a sorted set, the call is refused too, without saying that a budget was
    exhausted. *)
Theorem unanswered_budget_refuses `{RS : !RedisServer DB} (st : RedisDisclosure DB) c charges st' o :
  call_charges c = Ok charges → charges ≠ [] → enforce_call st c = (st', o) →
  let W := disclosure_budget_window_seconds (disclosure (dc_policy c)) in
  let db := contents (rd_db st) in
  (o = Ok tt ↔ rd_reachable st = true ∧ Forall (has_room W (dc_now c) db) charges)
  ∧ (∀ pre ch post, charges = pre ++ ch :: post → Forall (has_room W (dc_now c) db) pre →
       ¬ has_room W (dc_now c) db ch → rd_reachable st = true → is_Some (units_spent W (dc_now c) db ch) →
       ∃ retry, o = Raise (DisclosureBudgetExceededError rejection_message (ch_kind ch) retry))
  ∧ (∀ pre ch post, charges = pre ++ ch :: post → Forall (has_room W (dc_now c) db) pre →
       rd_reachable st = false ∨ units_spent W (dc_now c) db ch = None →
       ∃ kind, o = Raise (DisclosureBudgetExceededError COULD_NOT_EVALUATE kind 1)).
Proof.
  intros Hcc Hne Hrun. destruct (enforce_call_cases st c) as [(charges' & Hcc' & _ & Hst)|(Hnil & _)]; [|by destruct Hne; apply Hnil].
  rewrite Hcc in Hcc'. injection Hcc' as <-. rewrite Hst in Hrun. unfold reserve_charges, redis_disclosure in Hrun.
  destruct charges as [|ch0 charges]; [done|]. set (cs := ch0 :: charges) in *. cbv zeta.
  set (W := disclosure_budget_window_seconds _) in *. set (now := dc_now c) in *.
  destruct (rd_reachable st); [|injection Hrun as <- <-; naive_solver].
  pose proof (reserve_reply W now (pretty (rd_names st)) cs (contents (rd_db st))) as Hreply.
  pose proof (follows_disclosure_reserve W now (pretty (rd_names st)) cs (rd_db st)) as Hf.
  destruct (disclosure_reserve_script W now _ cs (rd_db st)) as [db r]. cbn [fst snd] in Hf. rewrite <- Hf in Hreply.
  cbn [snd] in Hreply. set (D := contents (rd_db st)) in *.
  assert (Hstop : ∀ ch, units_spent W now D ch = None → ¬ has_room W now D ch) by (intros ch Hn (n & Hs & _); congruence).
  assert (Hall : ∀ pre ch post, cs = pre ++ ch :: post → ¬ has_room W now D ch → ¬ Forall (has_room W now D) cs).
  { intros pre ch post -> Hch H%Forall_app. destruct H as [_ [H _]%Forall_cons]. done. }
  destruct r as [[[j retry]|]|]; cbn [snd] in Hrun.
  - destruct Hreply as (pre & ch & post & Hcs & Hpre & -> & Hs & Hno).
    replace (cs !! _) with (Some ch) in Hrun by (rewrite Hcs; cbn; rewrite Nat.sub_0_r; by rewrite list_lookup_middle).
    injection Hrun as <- <-. split; [|split].
    + split; [done|]. intros [_ Hroom]. by destruct (Hall _ _ _ Hcs Hno).
    + intros pre' ch' post' Hcs' Hpre' Hno' _ _. rewrite Hcs in Hcs'.
      destruct (first_failure _ _ _ _ _ _ _ Hcs' Hpre Hno Hpre' Hno') as [_ <-]. eauto.
    + intros pre' ch' post' Hcs' Hpre' [?|Hn]; [done|]. rewrite Hcs in Hcs'.
      destruct (first_failure _ _ _ _ _ _ _ Hcs' Hpre Hno Hpre' (Hstop _ Hn)) as [_ <-].
      rewrite Hn in Hs. by destruct Hs.
  - injection Hrun as <- <-. split; [done|]. split; intros pre' ch' post' Hcs' _.
    + intros Hno'. by destruct (Hall _ _ _ Hcs' Hno').
    + intros [?|Hn]; [done|]. by destruct (Hall _ _ _ Hcs' (Hstop _ Hn)).
  - injection Hrun as <- <-. destruct Hreply as (pre & ch & post & Hcs & Hpre & Hn). split; [|split; [|eauto]].
    + split; [done|]. intros [_ Hroom]. by destruct (Hall _ _ _ Hcs (Hstop _ Hn)).
    + intros pre' ch' post' Hcs' Hpre' Hno' _ Hs. rewrite Hcs in Hcs'.
      destruct (first_failure _ _ _ _ _ _ _ Hcs' Hpre (Hstop _ Hn) Hpre' Hno') as [_ <-].
      rewrite Hn in Hs. by destruct Hs.
Qed.
End runs.

(** * A concrete prober on a server *)

#[local] Existing Instances ascii_casefold sample_floats sample_digest documented_server.

Definition ask_redis (st : RedisDisclosure Redis) (calls : list disclosure_call) : list (result unit) := (disclosure_run st calls).2.

Lemma redis_budget_refines_witness :
  ask_redis (MkRedisDisclosure ∅ true 0) sliding = run_asks sliding
  ∧ last (ask_redis (MkRedisDisclosure ∅ true 0) sliding)
    = Some (Raise (DisclosureBudgetExceededError rejection_message KIND_SHAPE 3597)).
Proof.
  unfold ask_redis, run_asks.
  rewrite (redis_budget_refines (∅ : Redis) 3600 0 sliding).
  - split; [reflexivity|]. vm_compute. reflexivity.
  - reflexivity.
  - reflexivity.
  - repeat split; vm_compute; discriminate.
  - intros c Hc. apply list_elem_of_In in Hc. repeat destruct Hc as [<-|Hc]; try discriminate; destruct Hc.
Defined.

Lemma budget_keys_distinct_and_colocated_witness :
  let k1 : DisclosureKey := ("hr", "a:b", "c", "t", "") in let k2 : DisclosureKey := ("hr", "a", "b:c", "t", "") in
  disclosure_redis_key k1 ≠ disclosure_redis_key k2 ∧ hashed_part (disclosure_redis_key k1) = "hr"
  ∧ hashed_part (disclosure_redis_key k1) = hashed_part (disclosure_redis_key k2).
Proof.
  intros k1 k2. destruct (budget_keys_distinct_and_colocated k1 k2) as (Hinj & Htag & Hsame); [discriminate|discriminate|].
  split; [intros H; specialize (Hinj H); discriminate Hinj|]. split; [rewrite Htag; reflexivity|apply Hsame; reflexivity].
Defined.

Lemma unanswered_budget_refuses_witness :
  let call := ask 3600 2 "hr" 40 1 in
  (enforce_call (MkRedisDisclosure (∅ : Redis) true 0) call).2 = Ok tt
  ∧ ∃ kind, (enforce_call (MkRedisDisclosure (∅ : Redis) false 0) call).2
      = Raise (DisclosureBudgetExceededError COULD_NOT_EVALUATE kind 1).
Proof.
  intros call.
  assert (Hne : is_ok (call_charges call) = true ∧ call_charges call ≠ Ok []).
  { split; [vm_compute; reflexivity|vm_compute; discriminate]. }
  destruct (call_charges call) as [charges|e] eqn:E; [|destruct Hne; discriminate].
  assert (Hcs : charges ≠ []) by (intros ->; apply Hne; reflexivity).
  assert (Hroom : Forall (has_room (disclosure_budget_window_seconds (disclosure (dc_policy call))) (dc_now call) ∅) charges).
  { vm_compute in E. injection E as <-. repeat constructor; exists 0; split; vm_compute; try reflexivity; discriminate. }
  split.
  - destruct (enforce_call (MkRedisDisclosure (∅ : Redis) true 0) call) as [st o] eqn:Er.
    destruct (unanswered_budget_refuses (MkRedisDisclosure (∅ : Redis) true 0) call charges st o E Hcs Er) as [H _].
    apply H. split; [reflexivity|exact Hroom].
  - destruct (enforce_call (MkRedisDisclosure (∅ : Redis) false 0) call) as [st o] eqn:Er.
    destruct (unanswered_budget_refuses (MkRedisDisclosure (∅ : Redis) false 0) call charges st o E Hcs Er) as (_ & _ & H).
    destruct charges as [|ch charges]; [destruct (Hcs eq_refl)|].
    apply (H [] ch charges eq_refl); [constructor|left; reflexivity].
Defined.

(** A blank connection id is tagged as one named [_] is: the two share budgets. *)
Theorem blank_connection_shares_budgets :
  disclosure_redis_key ("", "alice", "", "t", "") = disclosure_redis_key ("_", "alice", "", "t", "").
Proof. reflexivity. Qed.
