(* ===== verification/Concurrency.v ===== *)
(** The concurrency guardrail in process: [execution/concurrency.py] and the
    admission knobs of [execution/admission.py], as a state machine over the
    event loop's interleavings. A call enters the queue-depth tracking, waits for
    a permit of its connection's semaphore, leaves the queue, runs, and gives the
    permit back; every point at which the loop may run somebody else is a step
    of its own. *)
From Stdlib Require Import SpecFloat.
From S2P Require Export Policy.
Local Open Scope Z_scope.

(** * Admission *)

Inductive QueueMode := FAIL_FAST | WAIT | ASYNC.

#[export] Instance QueueMode_eq_dec : EqDecision QueueMode.
Proof. solve_decision. Defined.

Definition reject_unsupported_async_queue_mode (queue_mode : option QueueMode) : result unit :=
  raise_if (bool_decide (queue_mode = Some ASYNC))
    (QueryValidationError "queue_mode='async' is only supported on POST /{connection}/query").

(** Python's [min] and [max] of two floats. *)
Definition float_min (a b : float64) : float64 := if SFltb b a then b else a.
Definition float_max (a b : float64) : float64 := if SFltb a b then b else a.

Definition resolve_wait_seconds (queue_mode : option QueueMode) (requested_wait_seconds : option float64)
  (policy_ceiling_seconds : float64) : float64 :=
  if bool_decide (queue_mode = Some FAIL_FAST) then f64_zero
  else match requested_wait_seconds with
       | None => policy_ceiling_seconds
       | Some requested => float_max f64_zero (float_min requested policy_ceiling_seconds)
       end.

(** * [asyncio.Semaphore] *)

(** A deque of waiters, each with whether its future is done (it has been handed
    a permit and its task has yet to run); the permits left; and, for the
    theorems only, the permits it was made with. *)
Record Semaphore := MkSemaphore {
  sem_capacity : Z;
  sem_value : Z;
  sem_waiters : list (nat * bool);
}.

Definition new_semaphore (n : Z) : Semaphore := MkSemaphore n n [].

Definition locked (s : Semaphore) : bool :=
  (sem_value s =? 0) || match sem_waiters s with [] => false | _ => true end.

(** The first waiter that is not done gets a permit. *)
Fixpoint wake_first (l : list (nat * bool)) : option (list (nat * bool)) :=
  match l with
  | [] => None
  | (i, false) :: l => Some ((i, true) :: l)
  | (i, true) :: l => cons (i, true) <$> wake_first l
  end.

Definition wake_up_next (s : Semaphore) : Semaphore :=
  match wake_first (sem_waiters s) with
  | Some l => MkSemaphore (sem_capacity s) (sem_value s - 1) l
  | None => s
  end.

Definition sem_release (s : Semaphore) : Semaphore :=
  wake_up_next (MkSemaphore (sem_capacity s) (sem_value s + 1) (sem_waiters s)).

Definition drop_waiter (i : nat) (s : Semaphore) : Semaphore :=
  MkSemaphore (sem_capacity s) (sem_value s) (filter (λ w, w.1 ≠ i) (sem_waiters s)).

(** [acquire] when its task first runs: a permit, or a place in the deque. *)
Definition sem_start (i : nat) (s : Semaphore) : Semaphore * bool :=
  if locked s
  then (MkSemaphore (sem_capacity s) (sem_value s) (sem_waiters s ++ [(i, false)]), false)
  else (MkSemaphore (sem_capacity s) (sem_value s - 1) (sem_waiters s), true).

(** ... when it resumes with its future done ... *)
Definition sem_resume (i : nat) (s : Semaphore) : Semaphore :=
  let s := drop_waiter i s in if 0 <? sem_value s then wake_up_next s else s.

(** ... and when it is cancelled while waiting: a permit handed to it goes on. *)
Definition sem_cancel (i : nat) (s : Semaphore) : Semaphore :=
  if bool_decide ((i, true) ∈ sem_waiters s) then sem_release (drop_waiter i s) else drop_waiter i s.

(** * The limiter *)

Record InProcessConcurrency := MkInProcessConcurrency {
  semaphores : gmap string nat;
  queue_depth : gmap string Z;
  queue_depth_by_principal : gmap (string * string) Z;
}.

(** The arguments of [concurrency_slot]. *)
Record SlotCall := MkSlotCall {
  sl_connection : string;
  sl_max_concurrency : Z;
  sl_wait_seconds : float64;
  sl_principal : option string;
  sl_max_queue_depth : option Z;
  sl_max_queue_depth_per_principal : option Z;
}.

Definition over_cap (cap : option Z) (n : Z) : bool :=
  match cap with Some m => m <=? n | None => false end.

Definition enter_queue (l : InProcessConcurrency) (c : SlotCall) : result InProcessConcurrency :=
  let global_depth := default 0 (queue_depth l !! sl_connection c) in
  raise_if (over_cap (sl_max_queue_depth c) global_depth)
    (QueueDepthExceededError "connection queue is already at its configured depth") ≫= λ _,
  let principal_key := (sl_connection c, default "" (sl_principal c)) in
  let principal_depth := default 0 (queue_depth_by_principal l !! principal_key) in
  raise_if (is_some (sl_principal c) && over_cap (sl_max_queue_depth_per_principal c) principal_depth)
    (QueueDepthExceededError "principal already has queries queued on connection") ≫= λ _,
  Ok (MkInProcessConcurrency (semaphores l) (<[sl_connection c := global_depth + 1]> (queue_depth l))
        (if is_some (sl_principal c)
         then <[principal_key := principal_depth + 1]> (queue_depth_by_principal l)
         else queue_depth_by_principal l)).

Definition leave_queue (l : InProcessConcurrency) (c : SlotCall) : InProcessConcurrency :=
  MkInProcessConcurrency (semaphores l)
    (<[sl_connection c := Z.max 0 (default 0 (queue_depth l !! sl_connection c) - 1)]> (queue_depth l))
    (match sl_principal c with
     | Some s =>
         <[(sl_connection c, s) :=
             Z.max 0 (default 0 (queue_depth_by_principal l !! (sl_connection c, s)) - 1)]>
           (queue_depth_by_principal l)
     | None => queue_depth_by_principal l
     end).

(** * Calls in flight *)

(** Where a call is: admitted to the queue, its [acquire] task not yet run;
    waiting in the deque; its [acquire] returned; running its query; over. *)
Inductive phase :=
| Queued (s : nat)
| Waiting (s : nat)
| Acquired (s : nat)
| Holding (s : nat)
| Done (r : result unit).

Record slot_world := MkSlotWorld {
  sw_limiter : InProcessConcurrency;
  sw_objects : list Semaphore;
  sw_calls : list (SlotCall * phase);
}.

Definition empty_slots : slot_world := MkSlotWorld (MkInProcessConcurrency ∅ ∅ ∅) [] [].

(** [self.semaphore(...)]: the cached object, or a new one. *)
Definition get_semaphore (c : SlotCall) (w : slot_world) : nat * slot_world :=
  match semaphores (sw_limiter w) !! sl_connection c with
  | Some s => (s, w)
  | None =>
      let s := length (sw_objects w) in
      let l := sw_limiter w in
      (s, MkSlotWorld (MkInProcessConcurrency (<[sl_connection c := s]> (semaphores l)) (queue_depth l)
                         (queue_depth_by_principal l))
            (sw_objects w ++ [new_semaphore (sl_max_concurrency c)]) (sw_calls w))
  end.

Definition set_limiter (l : InProcessConcurrency) (w : slot_world) : slot_world :=
  MkSlotWorld l (sw_objects w) (sw_calls w).
Definition set_call (i : nat) (c : SlotCall) (p : phase) (w : slot_world) : slot_world :=
  MkSlotWorld (sw_limiter w) (sw_objects w) (<[i := (c, p)]> (sw_calls w)).
Definition update_semaphore (s : nat) (f : Semaphore → Semaphore) (w : slot_world) : slot_world :=
  MkSlotWorld (sw_limiter w) (alter f s (sw_objects w)) (sw_calls w).
Definition add_call (c : SlotCall) (p : phase) (w : slot_world) : slot_world :=
  MkSlotWorld (sw_limiter w) (sw_objects w) (sw_calls w ++ [(c, p)]).

(** Leaving the queue, on the way to [p]. *)
Definition leave (i : nat) (c : SlotCall) (p : phase) (w : slot_world) : slot_world :=
  set_call i c p (set_limiter (leave_queue (sw_limiter w) c) w).

(** What the loop may run next (a policy's [max_concurrency] is not negative, so
    the semaphore can be made), and how a waiting call may be given up: by the
    timeout of [wait_for], or because its own task is cancelled. *)
Inductive slot_event :=
| EvEnter (c : SlotCall)
| EvStart (i : nat)
| EvResume (i : nat)
| EvLeave (i : nat)
| EvAbandon (i : nat) (timed_out : bool)
| EvFinish (i : nat)
| EvReset (connection_id : string).

Definition abandoned (timed_out : bool) : phase :=
  Done (Raise (if timed_out then ConcurrencyLimitError "too many concurrent queries in flight"
               else BuiltinError "CancelledError")).

(** [wait_for] (as CPython 3.11, the version the project runs on, has it) cancels
    the task it makes before it can run when [timeout <= 0]. *)
Definition may_start (c : SlotCall) : bool := negb (SFleb (sl_wait_seconds c) f64_zero).

Definition slot_step (w : slot_world) (ev : slot_event) : option slot_world :=
  match ev with
  | EvEnter c =>
      if sl_max_concurrency c <? 0 then None
      else Some (match enter_queue (sw_limiter w) c with
                 | Raise e => add_call c (Done (Raise e)) w
                 | Ok l => let '(s, w) := get_semaphore c (set_limiter l w) in add_call c (Queued s) w
                 end)
  | EvStart i =>
      match sw_calls w !! i with
      | Some (c, Queued s) =>
          if may_start c then
            sem ← sw_objects w !! s;
            let '(sem, got) := sem_start i sem in
            Some (set_call i c (if got then Acquired s else Waiting s) (update_semaphore s (λ _, sem) w))
          else None
      | _ => None
      end
  | EvResume i =>
      match sw_calls w !! i with
      | Some (c, Waiting s) =>
          sem ← sw_objects w !! s;
          if bool_decide ((i, true) ∈ sem_waiters sem)
          then Some (set_call i c (Acquired s) (update_semaphore s (sem_resume i) w)) else None
      | _ => None
      end
  | EvLeave i =>
      match sw_calls w !! i with
      | Some (c, Acquired s) => Some (leave i c (Holding s) w)
      | _ => None
      end
  | EvAbandon i timed_out =>
      match sw_calls w !! i with
      | Some (c, Queued _) => Some (leave i c (abandoned timed_out) w)
      | Some (c, Waiting s) => Some (leave i c (abandoned timed_out) (update_semaphore s (sem_cancel i) w))
      | _ => None
      end
  | EvFinish i =>
      match sw_calls w !! i with
      | Some (c, Holding s) => Some (set_call i c (Done (Ok tt)) (update_semaphore s sem_release w))
      | _ => None
      end
  | EvReset connection_id =>
      let l := sw_limiter w in
      Some (set_limiter (MkInProcessConcurrency (delete connection_id (semaphores l)) (queue_depth l)
                           (queue_depth_by_principal l)) w)
  end.

(** The worlds a process can be in. *)
Inductive slots_reachable : slot_world → Prop :=
| slots_start : slots_reachable empty_slots
| slots_step w ev w' : slots_reachable w → slot_step w ev = Some w' → slots_reachable w'.

Fixpoint slot_run (w : slot_world) (evs : list slot_event) : option slot_world :=
  match evs with [] => Some w | ev :: evs => w ← slot_step w ev; slot_run w evs end.

(** * Counting *)

Fixpoint count {A} (f : A → bool) (l : list A) : Z :=
  match l with [] => 0 | x :: l => Z.b2z (f x) + count f l end.

Lemma count_app {A} (f : A → bool) l k : count f (l ++ k) = count f l + count f k.
Proof. induction l as [|x l IH]; cbn; lia. Qed.

Lemma count_nonneg {A} (f : A → bool) l : 0 ≤ count f l.
Proof. induction l as [|x l IH]; cbn; [lia|]. destruct (f x); cbn; lia. Qed.

Lemma count_insert {A} (f : A → bool) l i x y :
  l !! i = Some x → count f (<[i := y]> l) = count f l - Z.b2z (f x) + Z.b2z (f y).
Proof.
  revert i. induction l as [|z l IH]; intros [|i] Hi; try done.
  - injection Hi as ->. cbn. lia.
  - change (<[S i := y]> (z :: l)) with (z :: <[i := y]> l). cbn [count]. rewrite (IH i Hi). lia.
Qed.

Lemma count_pos {A} (f : A → bool) l : 0 < count f l ↔ ∃ x, x ∈ l ∧ f x = true.
Proof.
  induction l as [|x l IH]; cbn.
  - split; [lia|]. intros (x & Hx & _). by apply not_elem_of_nil in Hx.
  - pose proof (count_nonneg f l). destruct (f x) eqn:E; cbn.
    + split; [intros _; exists x; split; [by left|done]|lia].
    + rewrite Z.add_0_l, IH. split; intros (y & Hy & ?); exists y; (split; [|done]); [by right|].
      apply elem_of_cons in Hy as [->|]; [congruence|done].
Qed.

Lemma count_le {A} (f g : A → bool) l : (∀ x, x ∈ l → f x = true → g x = true) → count f l ≤ count g l.
Proof.
  induction l as [|x l IH]; intros H; cbn; [lia|].
  assert (count f l ≤ count g l) by (apply IH; intros y Hy; apply H; by right).
  destruct (f x) eqn:E; [rewrite (H x) by (done || by left)|]; cbn; [lia|]. destruct (g x); cbn; lia.
Qed.

Lemma count_ext {A} (f g : A → bool) l : (∀ x, x ∈ l → f x = g x) → count f l = count g l.
Proof.
  induction l as [|x l IH]; intros H; cbn; [done|]. rewrite (H x) by by left.
  rewrite IH; [done|]. intros y Hy. apply H. by right.
Qed.

(** * Semaphores *)

Definition granted (s : Semaphore) : Z := count snd (sem_waiters s).

(** Every permit is free, handed over, or held by one of [held] calls; and no
    waiter sleeps while a permit is free unless one that is awake will wake it. *)
Record sem_ok (held : Z) (s : Semaphore) : Prop := {
  so_value : 0 ≤ sem_value s;
  so_permits : sem_value s + granted s + held = sem_capacity s;
  so_distinct : NoDup (sem_waiters s).*1;
  so_awake : 0 < sem_value s → granted s = 0 → sem_waiters s = [];
}.

Lemma wake_first_keys l l' : wake_first l = Some l' → l'.*1 = l.*1.
Proof.
  revert l'. induction l as [|[i [|]] l IH]; intros l' H; cbn in H; try done.
  - apply fmap_Some in H as (k & Hk & ->). cbn. by rewrite (IH k Hk).
  - by injection H as <-.
Qed.

Lemma wake_first_granted l l' : wake_first l = Some l' → count snd l' = count snd l + 1.
Proof.
  revert l'. induction l as [|[i [|]] l IH]; intros l' H; cbn in H; try done.
  - apply fmap_Some in H as (k & Hk & ->). cbn. rewrite (IH k Hk). lia.
  - injection H as <-. cbn. lia.
Qed.

Lemma wake_first_None l : wake_first l = None → count snd l = Z.of_nat (length l).
Proof.
  induction l as [|[i [|]] l IH]; intros H; cbn in *; [done| |done].
  apply fmap_None in H. rewrite (IH H). lia.
Qed.

(** A free permit to give: waking keeps the books. *)
Lemma wake_up_next_ok held s :
  0 < sem_value s → sem_value s + granted s + held = sem_capacity s → NoDup (sem_waiters s).*1 →
  sem_ok held (wake_up_next s).
Proof.
  intros Hv Hp Hd. unfold wake_up_next, granted in *. destruct (wake_first (sem_waiters s)) as [l|] eqn:E.
  - pose proof (wake_first_granted _ _ E). pose proof (count_nonneg snd (sem_waiters s)).
    split; unfold granted; cbn; [lia|lia|by rewrite (wake_first_keys _ _ E)|lia].
  - split; unfold granted; [lia|done|done|]. intros _ H0. rewrite (wake_first_None _ E) in H0.
    by destruct (sem_waiters s).
Qed.

Lemma drop_waiter_waiters i s w : w ∈ sem_waiters (drop_waiter i s) ↔ w.1 ≠ i ∧ w ∈ sem_waiters s.
Proof. cbn. by rewrite list_elem_of_filter. Qed.

Lemma drop_waiter_distinct i s : NoDup (sem_waiters s).*1 → NoDup (sem_waiters (drop_waiter i s)).*1.
Proof.
  cbn. induction (sem_waiters s) as [|[j b] l IH]; intros Hd; [done|]. apply NoDup_cons in Hd as [Hj Hd].
  rewrite filter_cons. destruct (decide _); cbn; [|by apply IH]. apply NoDup_cons. split; [|by apply IH].
  intros ([j' b'] & -> & Hin)%list_elem_of_fmap. apply Hj. apply list_elem_of_filter in Hin as [_ Hin].
  exact (list_elem_of_fmap_2 fst l (j', b') Hin).
Qed.

(** A distinct waiter that is dropped takes its own mark along. *)
Lemma drop_waiter_granted i b s :
  NoDup (sem_waiters s).*1 → (i, b) ∈ sem_waiters s → granted (drop_waiter i s) = granted s - Z.b2z b.
Proof.
  unfold granted. cbn. induction (sem_waiters s) as [|[j c] l IH]; intros Hd Hin; [by apply not_elem_of_nil in Hin|].
  apply NoDup_cons in Hd as [Hj Hd]. rewrite filter_cons. cbn in Hj.
  destruct (decide (j = i)) as [->|Hne].
  - rewrite decide_False by (intros H; by apply H). apply elem_of_cons in Hin as [[= ->]|Hin].
    2: { destruct Hj. exact (list_elem_of_fmap_2 fst l (i, b) Hin). }
    cbn. assert (filter (λ w : nat * bool, w.1 ≠ i) l = l) as ->; [|lia].
    clear IH Hd. induction l as [|[k d] l IH]; [done|].
    apply not_elem_of_cons in Hj as [Hk Hj]. rewrite filter_cons_True by (cbn in *; congruence). by rewrite IH.
  - rewrite decide_True by done. cbn. apply elem_of_cons in Hin as [[= -> _]|Hin]; [done|].
    rewrite (IH Hd Hin). lia.
Qed.

Lemma sem_start_ok i held s :
  sem_ok held s → i ∉ (sem_waiters s).*1 →
  sem_ok (held + Z.b2z (sem_start i s).2) (sem_start i s).1.
Proof.
  intros [Hv Hp Hd Ha] Hi. unfold sem_start, locked. unfold granted in *.
  destruct (Z.eqb_spec (sem_value s) 0) as [H0|H0]; cbn.
  - split; unfold granted; cbn; [lia|rewrite count_app; cbn; lia| |lia].
    rewrite fmap_app. apply NoDup_app. split_and!; [done| |apply NoDup_singleton].
    intros j Hj ->%list_elem_of_singleton. done.
  - destruct (sem_waiters s) as [|w l] eqn:El; cbn [fst snd Z.b2z].
    + split; unfold granted; cbn; rewrite ?El; cbn; [lia|cbn in Hp; lia|constructor|done].
    + split; unfold granted; cbn [sem_value sem_waiters sem_capacity]; [lia|rewrite count_app; cbn in *; lia| |].
      * rewrite fmap_app. apply NoDup_app. split_and!; [done| |apply NoDup_singleton].
        intros j Hj ->%list_elem_of_singleton. done.
      * intros _ Hg. rewrite count_app in Hg. change (count snd [(i, false)]) with 0 in Hg. exfalso.
        enough (w :: l = []) by done. apply Ha; lia.
Qed.

Lemma sem_release_ok held s : sem_ok held s → sem_ok (held - 1) (sem_release s).
Proof.
  intros [Hv Hp Hd Ha]. unfold sem_release. apply wake_up_next_ok; cbn; [lia| |done].
  unfold granted in *. cbn. lia.
Qed.

Lemma sem_resume_ok i held s :
  sem_ok held s → (i, true) ∈ sem_waiters s → sem_ok (held + 1) (sem_resume i s).
Proof.
  intros [Hv Hp Hd Ha] Hin. unfold sem_resume.
  pose proof (drop_waiter_granted i true s Hd Hin) as Hg. cbn in Hg.
  pose proof (drop_waiter_distinct i s Hd) as Hd'.
  destruct (Z.ltb_spec 0 (sem_value (drop_waiter i s))) as [Hpos|Hz]; cbn in *.
  - apply wake_up_next_ok; [done| |done]. cbn. lia.
  - split; cbn; [done|lia|done|lia].
Qed.

Lemma sem_cancel_ok i b held s :
  sem_ok held s → (i, b) ∈ sem_waiters s → sem_ok held (sem_cancel i s).
Proof.
  intros [Hv Hp Hd Ha] Hin. unfold sem_cancel.
  pose proof (drop_waiter_granted i b s Hd Hin) as Hg. pose proof (drop_waiter_distinct i s Hd) as Hd'.
  case_bool_decide as Hdone.
  - assert (b = true) as ->.
    { apply list_elem_of_lookup in Hin as [k Hk], Hdone as [k' Hk'].
      assert (k = k') as ->; [|congruence]. eapply (NoDup_lookup (sem_waiters s).*1); [done|..];
        rewrite list_lookup_fmap; [by rewrite Hk|by rewrite Hk']. }
    cbn in Hg. unfold sem_release. apply wake_up_next_ok; cbn in *; [lia| |done].
    unfold granted in *. cbn in *. lia.
  - assert (b = false) as -> by by destruct b. cbn in Hg. split; cbn; [done|lia|done|].
    intros Hpos H0. rewrite Z.sub_0_r in Hg. rewrite Hg in H0.
    rewrite (Ha Hpos H0) in Hin. by apply not_elem_of_nil in Hin.
Qed.

(** * The books of a world *)

Definition phase_sem (p : phase) : option nat :=
  match p with Queued s | Waiting s | Acquired s | Holding s => Some s | Done _ => None end.

(** A call that has a permit of semaphore [s]. *)
Definition holds (s : nat) (x : SlotCall * phase) : bool :=
  match x.2 with Acquired s' | Holding s' => bool_decide (s' = s) | _ => false end.

(** A call that counts towards the queue depth. *)
Definition in_queue (p : phase) : bool :=
  match p with Queued _ | Waiting _ | Acquired _ => true | _ => false end.
Definition queued_on (conn : string) (x : SlotCall * phase) : bool :=
  bool_decide (sl_connection x.1 = conn) && in_queue x.2.
Definition queued_for (conn principal : string) (x : SlotCall * phase) : bool :=
  bool_decide (sl_principal x.1 = Some principal) && queued_on conn x.

Definition sems_ok (objects : list Semaphore) (calls : list (SlotCall * phase)) : Prop :=
  ∀ s sem, objects !! s = Some sem →
    sem_ok (count (holds s) calls) sem
    ∧ ∀ i, i ∈ (sem_waiters sem).*1 ↔ ∃ c, calls !! i = Some (c, Waiting s).

Definition refs_ok (objects : list Semaphore) (calls : list (SlotCall * phase)) : Prop :=
  ∀ c p s, (c, p) ∈ calls → phase_sem p = Some s → (s < length objects)%nat.

Definition depths_ok (l : InProcessConcurrency) (calls : list (SlotCall * phase)) : Prop :=
  (∀ conn, default 0 (queue_depth l !! conn) = count (queued_on conn) calls)
  ∧ ∀ conn principal,
      default 0 (queue_depth_by_principal l !! (conn, principal)) = count (queued_for conn principal) calls.

Record world_ok (w : slot_world) : Prop := {
  wo_sems : sems_ok (sw_objects w) (sw_calls w);
  wo_refs : refs_ok (sw_objects w) (sw_calls w);
  wo_cache : ∀ conn s, semaphores (sw_limiter w) !! conn = Some s → (s < length (sw_objects w))%nat;
  wo_depths : depths_ok (sw_limiter w) (sw_calls w);
}.

(** ** One call moves on one semaphore *)

Lemma sems_update objects calls i c p p' s f :
  sems_ok objects calls → calls !! i = Some (c, p) →
  (∀ s', phase_sem p = Some s' → s' = s) → (∀ s', phase_sem p' = Some s' → s' = s) →
  (∀ sem, objects !! s = Some sem → sem_ok (count (holds s) calls) sem →
     (i ∈ (sem_waiters sem).*1 ↔ p = Waiting s) →
     sem_ok (count (holds s) calls - Z.b2z (holds s (c, p)) + Z.b2z (holds s (c, p'))) (f sem)
     ∧ ∀ j, j ∈ (sem_waiters (f sem)).*1 ↔ (j = i ∧ p' = Waiting s) ∨ (j ≠ i ∧ j ∈ (sem_waiters sem).*1)) →
  sems_ok (alter f s objects) (<[i := (c, p')]> calls).
Proof.
  intros Hok Hi Hp Hp' Hf s' sem' Hs'.
  assert (Hlt : (i < length calls)%nat) by by apply lookup_lt_Some in Hi.
  assert (Hlook : ∀ j, (∃ c0, <[i := (c, p')]> calls !! j = Some (c0, Waiting s'))
    ↔ (j = i ∧ p' = Waiting s') ∨ (j ≠ i ∧ ∃ c0, calls !! j = Some (c0, Waiting s'))).
  { intros j. destruct (decide (j = i)) as [->|Hne].
    - rewrite list_lookup_insert_eq by done. split; [intros [c0 [= -> ->]]; by left|].
      intros [[_ ->]|[? _]]; [by exists c|done].
    - rewrite list_lookup_insert_ne by done. split; [by right|]. intros [[? _]|[_ ?]]; done. }
  rewrite (count_insert (holds s') calls i (c, p)) by done.
  destruct (decide (s' = s)) as [->|Hne].
  - rewrite list_lookup_alter_eq in Hs'. apply fmap_Some in Hs' as (sem & Hs & ->).
    destruct (Hok s sem Hs) as [Hsem Hw]. destruct (Hf sem Hs Hsem) as [Hsem' Hw'].
    { rewrite Hw, Hi. split; [by intros [c0 [= _ ->]]|intros ->; by exists c]. }
    split; [exact Hsem'|]. intros j. rewrite Hw', Hlook, Hw. done.
  - rewrite list_lookup_alter_ne in Hs' by done. destruct (Hok s' sem' Hs') as [Hsem Hw].
    assert (Hholds : ∀ q, (∀ s0, phase_sem q = Some s0 → s0 = s) → holds s' (c, q) = false).
    { intros q Hq. unfold holds. cbn. destruct q; try done; case_bool_decide; try done;
        subst; specialize (Hq s' eq_refl); congruence. }
    rewrite !Hholds by done. cbn. split; [by rewrite Z.sub_0_r, Z.add_0_r|].
    intros j. rewrite Hw, Hlook. split.
    + intros [c0 Hj]. right. split; [|by exists c0]. intros ->. rewrite Hi in Hj. injection Hj as <- ->.
      by specialize (Hp s' eq_refl).
    + intros [[-> ->]|[_ ?]]; [by specialize (Hp' s' eq_refl)|done].
Qed.

Lemma refs_update objects calls i c p p' (f : Semaphore → Semaphore) s :
  refs_ok objects calls → calls !! i = Some (c, p) →
  (∀ s', phase_sem p' = Some s' → phase_sem p = Some s') →
  refs_ok (alter f s objects) (<[i := (c, p')]> calls).
Proof.
  intros Hok Hi Hp c0 p0 s0 Hin Hs0. rewrite length_alter.
  apply list_elem_of_lookup in Hin as [j Hj]. destruct (decide (j = i)) as [->|Hne].
  - rewrite list_lookup_insert_eq in Hj by by apply lookup_lt_Some in Hi. injection Hj as <- <-.
    apply (Hok c p); [by eapply list_elem_of_lookup_2|by apply Hp].
  - rewrite list_lookup_insert_ne in Hj by done. apply (Hok c0 p0); [by eapply list_elem_of_lookup_2|done].
Qed.

(** ** Entering and leaving the queue *)

Lemma depths_update l calls i c p p' :
  depths_ok l calls → calls !! i = Some (c, p) → in_queue p = in_queue p' →
  depths_ok l (<[i := (c, p')]> calls).
Proof.
  intros [Hd Hpd] Hi Hq. split.
  - intros conn. rewrite (count_insert _ _ _ _ _ Hi), Hd. unfold queued_on. cbn. rewrite Hq. lia.
  - intros conn s. rewrite (count_insert _ _ _ _ _ Hi), Hpd. unfold queued_for, queued_on. cbn. rewrite Hq. lia.
Qed.

Lemma depths_leave l calls i c p p' :
  depths_ok l calls → calls !! i = Some (c, p) → in_queue p = true → in_queue p' = false →
  depths_ok (leave_queue l c) (<[i := (c, p')]> calls).
Proof.
  intros [Hd Hpd] Hi Hq Hq'.
  assert (Hon : ∀ conn, Z.b2z (queued_on conn (c, p)) ≤ count (queued_on conn) calls).
  { intros conn. destruct (queued_on conn (c, p)) eqn:E; [|apply count_nonneg]. cbn.
    assert (0 < count (queued_on conn) calls); [|lia]. apply count_pos.
    exists (c, p). split; [by eapply list_elem_of_lookup_2|done]. }
  assert (Hfor : ∀ conn s, Z.b2z (queued_for conn s (c, p)) ≤ count (queued_for conn s) calls).
  { intros conn s. destruct (queued_for conn s (c, p)) eqn:E; [|apply count_nonneg]. cbn.
    assert (0 < count (queued_for conn s) calls); [|lia]. apply count_pos.
    exists (c, p). split; [by eapply list_elem_of_lookup_2|done]. }
  split.
  - intros conn. rewrite (count_insert _ _ _ _ _ Hi). specialize (Hon conn). cbn [leave_queue queue_depth].
    assert (queued_on conn (c, p') = false) as -> by (unfold queued_on; cbn; by rewrite Hq', andb_false_r).
    assert (queued_on conn (c, p) = bool_decide (sl_connection c = conn)) as E
      by (unfold queued_on; cbn; by rewrite Hq, andb_true_r).
    rewrite E in *. rewrite <- Hd in *. destruct (decide (sl_connection c = conn)) as [<-|Hne].
    + rewrite bool_decide_true in * by done. rewrite lookup_insert_eq. cbn in *. lia.
    + rewrite bool_decide_false in * by done. rewrite lookup_insert_ne by done. cbn in *. lia.
  - intros conn s. rewrite (count_insert _ _ _ _ _ Hi). specialize (Hfor conn s).
    cbn [leave_queue queue_depth_by_principal].
    assert (queued_for conn s (c, p') = false) as ->
      by (unfold queued_for, queued_on; cbn; by rewrite Hq', !andb_false_r).
    assert (queued_for conn s (c, p) = bool_decide (sl_principal c = Some s) && bool_decide (sl_connection c = conn)) as E
      by (unfold queued_for, queued_on; cbn; by rewrite Hq, andb_true_r).
    rewrite E in *. rewrite <- Hpd in *. destruct (sl_principal c) as [s0|].
    2: { rewrite bool_decide_false by done. cbn. lia. }
    destruct (decide ((sl_connection c, s0) = (conn, s))) as [[= <- <-]|Hne].
    + rewrite !bool_decide_true in * by done. rewrite lookup_insert_eq. cbn in *. lia.
    + rewrite lookup_insert_ne by done.
      assert (bool_decide (Some s0 = Some s) && bool_decide (sl_connection c = conn) = false) as ->.
      { apply andb_false_iff. destruct (decide (s0 = s)) as [->|]; [right|left]; apply bool_decide_false; congruence. }
      cbn. lia.
Qed.

Lemma depths_enter l l' calls c p :
  depths_ok l calls → enter_queue l c = Ok l' → in_queue p = true → depths_ok l' (calls ++ [(c, p)]).
Proof.
  intros [Hd Hpd] Henter Hq. unfold enter_queue in Henter.
  apply bind_ok_unit in Henter as [_ Henter]. apply bind_ok_unit in Henter as [_ [= <-]]. split.
  - intros conn. rewrite count_app. cbn [count queue_depth]. rewrite Z.add_0_r, <- Hd.
    unfold queued_on. cbn. rewrite Hq, andb_true_r. destruct (decide (sl_connection c = conn)) as [<-|Hne].
    + rewrite bool_decide_true, lookup_insert_eq by done. done.
    + rewrite bool_decide_false, lookup_insert_ne by done. cbn. lia.
  - intros conn s. rewrite count_app. cbn [count queue_depth_by_principal]. rewrite Z.add_0_r, <- Hpd.
    unfold queued_for, queued_on. cbn. rewrite Hq, andb_true_r. destruct (sl_principal c) as [s0|]; cbn.
    2: { rewrite bool_decide_false by done. cbn. lia. }
    destruct (decide ((sl_connection c, s0) = (conn, s))) as [[= <- <-]|Hne].
    + rewrite !bool_decide_true, lookup_insert_eq by done. done.
    + rewrite lookup_insert_ne by done.
      assert (bool_decide (Some s0 = Some s) && bool_decide (sl_connection c = conn) = false) as ->.
      { apply andb_false_iff. destruct (decide (s0 = s)) as [->|]; [right|left]; apply bool_decide_false; congruence. }
      cbn. lia.
Qed.

Lemma depths_add_done l calls c r : depths_ok l calls → depths_ok l (calls ++ [(c, Done r)]).
Proof.
  intros [Hd Hpd]. split.
  - intros conn. rewrite count_app, Hd. cbn [count].
    assert (queued_on conn (c, Done r) = false) as -> by (unfold queued_on; cbn; by rewrite andb_false_r).
    cbn. lia.
  - intros conn s. rewrite count_app, Hpd. cbn [count].
    assert (queued_for conn s (c, Done r) = false) as ->
      by (unfold queued_for, queued_on; cbn; by rewrite !andb_false_r).
    cbn. lia.
Qed.

(** ** Adding a call *)

Lemma sems_add objects calls c p :
  sems_ok objects calls → (∀ s, holds s (c, p) = false) → (∀ s, p ≠ Waiting s) →
  sems_ok objects (calls ++ [(c, p)]).
Proof.
  intros Hok Hh Hp s sem Hs. destruct (Hok s sem Hs) as [Hsem Hw]. split.
  - rewrite count_app. cbn. rewrite Hh. by rewrite !Z.add_0_r.
  - intros i. rewrite Hw. split; intros [c0 Hi]; exists c0; [by apply lookup_app_l_Some|].
    apply lookup_app_Some in Hi as [Hi|[_ Hi]]; [done|].
    apply list_elem_of_lookup_2, list_elem_of_singleton in Hi. injection Hi as _ Hi. by destruct (Hp s).
Qed.

Lemma sems_new objects calls n :
  sems_ok objects calls → refs_ok objects calls → 0 ≤ n → sems_ok (objects ++ [new_semaphore n]) calls.
Proof.
  intros Hok Hrefs Hn s sem Hs. apply lookup_app_Some in Hs as [Hs|[Hlen Hs]]; [by apply Hok|].
  assert (s = length objects) as ->.
  { apply lookup_lt_Some in Hs. cbn in Hs. lia. }
  rewrite Nat.sub_diag in Hs. injection Hs as <-.
  assert (H0 : count (holds (length objects)) calls = 0).
  { pose proof (count_nonneg (holds (length objects)) calls).
    destruct (decide (count (holds (length objects)) calls = 0)); [done|].
    destruct (proj1 (count_pos (holds (length objects)) calls)) as ([c p] & Hin & Hh); [lia|].
    unfold holds in Hh. cbn in Hh. exfalso.
    destruct p; try done; apply bool_decide_eq_true in Hh; subst; specialize (Hrefs _ _ _ Hin eq_refl); lia. }
  rewrite H0. split; [split; cbn; unfold granted; cbn; try done; lia || constructor|].
  intros i. cbn. split; [by intros ?%not_elem_of_nil|]. intros [c Hi]. exfalso.
  apply list_elem_of_lookup_2 in Hi. specialize (Hrefs _ _ _ Hi eq_refl). lia.
Qed.

Lemma refs_grow objects objects' calls :
  refs_ok objects calls → (length objects ≤ length objects')%nat → refs_ok objects' calls.
Proof. intros Hok Hle c p s Hin Hs. specialize (Hok c p s Hin Hs). lia. Qed.

Lemma refs_add objects calls c p :
  refs_ok objects calls → (∀ s, phase_sem p = Some s → (s < length objects)%nat) →
  refs_ok objects (calls ++ [(c, p)]).
Proof.
  intros Hok Hp c0 p0 s [Hin|Hin]%elem_of_app Hs; [by apply (Hok c0 p0)|].
  apply list_elem_of_singleton in Hin. injection Hin as -> ->. by apply Hp.
Qed.

(** ** Every step keeps the books *)

Lemma alter_id_same (s : nat) (l : list Semaphore) : alter (λ x, x) s l = l.
Proof. apply list_alter_id. done. Qed.

Lemma sems_set_same objects calls i c p p' s :
  sems_ok objects calls → calls !! i = Some (c, p) →
  (∀ s', phase_sem p = Some s' → s' = s) → (∀ s', phase_sem p' = Some s' → s' = s) →
  (∀ s', p ≠ Waiting s') → (∀ s', p' ≠ Waiting s') → holds s (c, p) = holds s (c, p') →
  sems_ok objects (<[i := (c, p')]> calls).
Proof.
  intros Hok Hi Hp Hp' Hw Hw' Hh. rewrite <- (alter_id_same s objects).
  apply (sems_update _ _ _ _ p); [done..|]. intros sem Hs Hsem Hin. rewrite Hh. split.
  - by replace (count (holds s) calls - _ + _) with (count (holds s) calls) by lia.
  - intros j. split; [|by intros [[_ ?]|[_ ?]]; [destruct (Hw' s)|]].
    intros Hj. right. split; [|done]. intros ->. by apply (Hw s), Hin.
Qed.

Lemma world_ok_enter w c w' :
  world_ok w → slot_step w (EvEnter c) = Some w' → world_ok w'.
Proof.
  intros [Hs Hr Hc Hd] Hstep. cbn in Hstep. destruct (Z.ltb_spec (sl_max_concurrency c) 0); [done|].
  injection Hstep as <-. destruct (enter_queue (sw_limiter w) c) as [l|e] eqn:E.
  2: { split; cbn; [by apply sems_add|by apply refs_add|done|by apply depths_add_done]. }
  assert (Hl : semaphores l = semaphores (sw_limiter w)).
  { unfold enter_queue in E. apply bind_ok_unit in E as [_ E]. by apply bind_ok_unit in E as [_ [= <-]]. }
  unfold get_semaphore. cbn [sw_limiter set_limiter sw_objects]. rewrite Hl.
  pose proof (depths_enter _ _ (sw_calls w) c (Queued 0) Hd E eq_refl) as _.
  destruct (semaphores (sw_limiter w) !! sl_connection c) as [s|] eqn:Hsem; split; cbn.
  - by apply sems_add.
  - apply refs_add; [done|]. intros s' [= <-]. by apply (Hc (sl_connection c)).
  - intros conn s'. rewrite Hl. apply Hc.
  - by apply (depths_enter (sw_limiter w)).
  - apply sems_add; [|done..]. by apply sems_new.
  - apply refs_add; [eapply refs_grow; [done|]|]; rewrite length_app; cbn; [lia|]. intros s' [= <-]. lia.
  - intros conn s'. rewrite length_app. cbn. destruct (decide (sl_connection c = conn)) as [<-|Hne].
    + rewrite lookup_insert_eq. intros [= <-]. lia.
    + rewrite lookup_insert_ne by done. intros Hs'. specialize (Hc conn s' Hs'). lia.
  - destruct (depths_enter _ _ (sw_calls w) c (Queued (length (sw_objects w))) Hd E eq_refl) as [H1 H2].
    split; [apply H1|apply H2].
Qed.

Lemma world_ok_start w i w' : world_ok w → slot_step w (EvStart i) = Some w' → world_ok w'.
Proof.
  intros [Hs Hr Hc Hd] Hstep. cbn in Hstep.
  destruct (sw_calls w !! i) as [[c []]|] eqn:Hi; try done. destruct (may_start c); [|done].
  destruct (sw_objects w !! s) as [sem|] eqn:Hsem; [|done]. cbn in Hstep.
  destruct (sem_start i sem) as [sem' got] eqn:E. injection Hstep as <-.
  split; cbn; [|eapply refs_update; [done|exact Hi|by destruct got; intros ? [= <-]]| |by eapply depths_update; [done|exact Hi|destruct got]].
  2: { intros conn s' Hs'. rewrite length_alter. by apply (Hc conn). }
  eapply sems_update; [done|exact Hi|by intros ? [= <-]|by destruct got; intros ? [= <-]|].
  intros sem0 Hsem0 Hok Hin. rewrite Hsem in Hsem0. injection Hsem0 as <-.
  assert (Hout : i ∉ (sem_waiters sem).*1) by (intros Hx; by apply Hin in Hx).
  pose proof (sem_start_ok i _ sem Hok Hout) as Hok'. rewrite E in Hok'. cbn in Hok'.
  unfold sem_start in E. split.
  - unfold holds at 2 3. destruct got; cbn; [rewrite bool_decide_true by done|];
      cbn in *; by rewrite Z.sub_0_r.
  - intros j. destruct (locked sem); injection E as <- <-; cbn.
    + rewrite fmap_app, elem_of_app. cbn. rewrite list_elem_of_singleton. split.
      * intros [Hj| ->]; [|by left]. right. split; [by intros ->|done].
      * intros [[-> _]|[_ ?]]; [by right|by left].
    + split; [intros Hj; right; split; [by intros ->|done]|]. by intros [[_ ?]|[_ ?]].
Qed.

Lemma drop_keys i s j : j ∈ (sem_waiters (drop_waiter i s)).*1 ↔ j ≠ i ∧ j ∈ (sem_waiters s).*1.
Proof.
  rewrite !list_elem_of_fmap. setoid_rewrite drop_waiter_waiters. split.
  - intros (w & -> & ? & ?). eauto.
  - intros (? & w & -> & ?). eauto.
Qed.

Lemma wake_up_next_keys s : (sem_waiters (wake_up_next s)).*1 = (sem_waiters s).*1.
Proof. unfold wake_up_next. destruct (wake_first _) eqn:E; [by apply wake_first_keys|done]. Qed.

Lemma sem_cancel_keys i s : (sem_waiters (sem_cancel i s)).*1 = (sem_waiters (drop_waiter i s)).*1.
Proof. unfold sem_cancel, sem_release. destruct (bool_decide _); [by rewrite wake_up_next_keys|done]. Qed.

Lemma sem_resume_keys i s : (sem_waiters (sem_resume i s)).*1 = (sem_waiters (drop_waiter i s)).*1.
Proof. unfold sem_resume. destruct (0 <? _); [by rewrite wake_up_next_keys|done]. Qed.

Lemma world_ok_resume w i w' : world_ok w → slot_step w (EvResume i) = Some w' → world_ok w'.
Proof.
  intros [Hs Hr Hc Hd] Hstep. cbn in Hstep.
  destruct (sw_calls w !! i) as [[c []]|] eqn:Hi; try done.
  destruct (sw_objects w !! s) as [sem|] eqn:Hsem; [|done]. cbn in Hstep.
  case_bool_decide as Hdone; [|done]. injection Hstep as <-.
  split; cbn; [|by eapply refs_update; [done|exact Hi|intros ? [= <-]]| |by eapply depths_update; [done|exact Hi|]].
  2: { intros conn s' Hs'. rewrite length_alter. by apply (Hc conn). }
  eapply sems_update; [done|exact Hi|by intros ? [= <-]|by intros ? [= <-]|].
  intros sem0 Hsem0 Hok Hin. rewrite Hsem in Hsem0. injection Hsem0 as <-. split.
  - unfold holds at 2 3. cbn. rewrite bool_decide_true by done. cbn. rewrite Z.sub_0_r.
    by apply sem_resume_ok.
  - intros j. rewrite sem_resume_keys, drop_keys. split; [by right|]. by intros [[_ ?]|?].
Qed.

Lemma world_ok_leave w i w' : world_ok w → slot_step w (EvLeave i) = Some w' → world_ok w'.
Proof.
  intros [Hs Hr Hc Hd] Hstep. cbn in Hstep.
  destruct (sw_calls w !! i) as [[c []]|] eqn:Hi; try done. injection Hstep as <-.
  split; cbn.
  - by apply (sems_set_same _ _ _ _ (Acquired s) _ s); [..|intros ? [= <-]|intros ? [= <-]| | |].
  - rewrite <- (alter_id_same s (sw_objects w)). by eapply refs_update; [done|exact Hi|intros ? [= <-]].
  - done.
  - by eapply depths_leave; [done|exact Hi|..].
Qed.

Lemma world_ok_abandon w i b w' : world_ok w → slot_step w (EvAbandon i b) = Some w' → world_ok w'.
Proof.
  intros [Hs Hr Hc Hd] Hstep. cbn in Hstep.
  destruct (sw_calls w !! i) as [[c []]|] eqn:Hi; try done; injection Hstep as <-; split; cbn.
  - by apply (sems_set_same _ _ _ _ (Queued s) _ s); [..|intros ? [= <-]| | | |].
  - rewrite <- (alter_id_same s (sw_objects w)). by eapply refs_update; [done|exact Hi|].
  - done.
  - by eapply depths_leave; [done|exact Hi|..].
  - eapply sems_update; [done|exact Hi|by intros ? [= <-]|done|].
    intros sem Hsem Hok Hin. unfold holds at 2 3. cbn. rewrite Z.sub_0_r, Z.add_0_r.
    assert (Hw : i ∈ (sem_waiters sem).*1) by by apply Hin.
    apply list_elem_of_fmap in Hw as ([i' d] & -> & Hw). cbn in *. split; [by eapply sem_cancel_ok|].
    intros j. rewrite sem_cancel_keys, drop_keys. split; [by right|]. by intros [[_ ?]|?].
  - by eapply refs_update; [done|exact Hi|].
  - intros conn s' Hs'. rewrite length_alter. by apply (Hc conn).
  - by eapply depths_leave; [done|exact Hi|..].
Qed.

Lemma world_ok_finish w i w' : world_ok w → slot_step w (EvFinish i) = Some w' → world_ok w'.
Proof.
  intros [Hs Hr Hc Hd] Hstep. cbn in Hstep.
  destruct (sw_calls w !! i) as [[c []]|] eqn:Hi; try done. injection Hstep as <-.
  split; cbn; [|by eapply refs_update; [done|exact Hi|]| |by eapply depths_update; [done|exact Hi|]].
  2: { intros conn s' Hs'. rewrite length_alter. by apply (Hc conn). }
  eapply sems_update; [done|exact Hi|by intros ? [= <-]|done|].
  intros sem Hsem Hok Hin. unfold holds at 2 3. cbn. rewrite bool_decide_true by done. cbn. rewrite Z.add_0_r.
  split; [by apply sem_release_ok|]. intros j. unfold sem_release. rewrite wake_up_next_keys. cbn.
  split; [|by intros [[_ ?]|[_ ?]]]. intros Hj. right. split; [|done]. intros ->. by apply Hin in Hj.
Qed.

Lemma reachable_ok w : slots_reachable w → world_ok w.
Proof.
  induction 1 as [|w ev w' _ IH Hstep].
  - split; cbn.
    + by intros s sem Hs.
    + by intros c p s ?%not_elem_of_nil.
    + by intros conn s; rewrite lookup_empty.
    + by split; intros; cbn; rewrite lookup_empty.
  - destruct ev; [by eapply world_ok_enter|by eapply world_ok_start|by eapply world_ok_resume
      |by eapply world_ok_leave|by eapply world_ok_abandon|by eapply world_ok_finish|].
    cbn in Hstep. injection Hstep as <-. destruct IH as [Hs Hr Hc Hd]. split; cbn; try done.
    intros conn s [_ Hs']%lookup_delete_Some. by apply (Hc conn).
Qed.

(** * What the guardrail promises *)

(** Queue depth is exact: in every reachable state the tracked depth of a
    connection, and of a principal on it, is the number of calls that wait there,
    and every semaphore has at most as many calls past it as permits. *)
Theorem slots_books_exact w :
  slots_reachable w →
  (∀ conn, default 0 (queue_depth (sw_limiter w) !! conn) = count (queued_on conn) (sw_calls w))
  ∧ (∀ conn principal, default 0 (queue_depth_by_principal (sw_limiter w) !! (conn, principal))
                       = count (queued_for conn principal) (sw_calls w))
  ∧ (∀ s sem, sw_objects w !! s = Some sem → count (holds s) (sw_calls w) ≤ sem_capacity sem).
Proof.
  intros [Hs _ _ [Hd Hpd]]%reachable_ok. split_and!; [done..|].
  intros s sem Hsem. destruct (Hs s sem Hsem) as [[Hv Hp _ _] _].
  pose proof (count_nonneg snd (sem_waiters sem)). unfold granted in Hp. lia.
Qed.

(** Nothing leaks: when every call is over, every permit of every semaphore
    is back, no deque holds anybody and every depth is zero, whatever mixture of
    timeouts, cancellations and reloads happened on the way. *)
Theorem slots_idle_clean w :
  slots_reachable w → (∀ c p, (c, p) ∈ sw_calls w → ∃ r, p = Done r) →
  (∀ s sem, sw_objects w !! s = Some sem → sem_value sem = sem_capacity sem ∧ sem_waiters sem = [])
  ∧ (∀ conn, default 0 (queue_depth (sw_limiter w) !! conn) = 0)
  ∧ ∀ conn principal, default 0 (queue_depth_by_principal (sw_limiter w) !! (conn, principal)) = 0.
Proof.
  intros Hreach Hdone. apply reachable_ok in Hreach as [Hs _ _ [Hd Hpd]].
  assert (Hzero : ∀ f : SlotCall * phase → bool, (∀ c r, f (c, Done r) = false) → count f (sw_calls w) = 0).
  { intros f Hf. pose proof (count_nonneg f (sw_calls w)).
    destruct (decide (0 < count f (sw_calls w))) as [Hpos|]; [|lia].
    apply count_pos in Hpos as ([c p] & Hin & Hfp). destruct (Hdone c p Hin) as [r ->]. by rewrite Hf in Hfp. }
  split_and!.
  - intros s sem Hsem. destruct (Hs s sem Hsem) as [[Hv Hp _ _] Hw].
    assert (Hnil : sem_waiters sem = []).
    { destruct (sem_waiters sem) as [|x l] eqn:E; [done|]. exfalso.
      destruct (proj1 (Hw x.1) ltac:(by left)) as [c Hi]. apply list_elem_of_lookup_2 in Hi.
      by destruct (Hdone _ _ Hi). }
    rewrite (Hzero (holds s)) in Hp by done. unfold granted in Hp. rewrite Hnil in Hp. cbn in Hp.
    split; [lia|done].
  - intros conn. rewrite Hd. apply Hzero. intros c r. unfold queued_on. cbn. by rewrite andb_false_r.
  - intros conn s. rewrite Hpd. apply Hzero. intros c r. unfold queued_for, queued_on. cbn. by rewrite !andb_false_r.
Qed.

(** ** A waiting call can always get its permit *)

(** How far the calls on semaphore [s] are from being over. *)
Definition remaining (s : nat) (x : SlotCall * phase) : nat :=
  match x.2 with
  | Waiting s' => if bool_decide (s' = s) then 3 else 0
  | Acquired s' => if bool_decide (s' = s) then 2 else 0
  | Holding s' => if bool_decide (s' = s) then 1 else 0
  | _ => 0
  end.

Lemma sum_of_insert {A} (f : A → nat) l i x y :
  l !! i = Some x → (sum_of f (<[i := y]> l) + f x = sum_of f l + f y)%nat.
Proof.
  revert i. induction l as [|z l IH]; intros [|i] Hi; try done.
  - injection Hi as ->. unfold sum_of. cbn. lia.
  - change (<[S i := y]> (z :: l)) with (z :: <[i := y]> l). specialize (IH i Hi). unfold sum_of in *. cbn. lia.
Qed.

Lemma sleeper_has_waker w s sem i :
  slots_reachable w → sw_objects w !! s = Some sem → 0 < sem_capacity sem →
  (i, false) ∈ sem_waiters sem →
  ∃ j c p, sw_calls w !! j = Some (c, p) ∧ j ≠ i
    ∧ ((p = Waiting s ∧ (j, true) ∈ sem_waiters sem) ∨ p = Acquired s ∨ p = Holding s).
Proof.
  intros Hreach Hsem Hcap Hi. pose proof (reachable_ok w Hreach) as [Hs _ _ _].
  destruct (Hs s sem Hsem) as [[Hv Hp Hd Ha] Hw].
  destruct (decide (0 < granted sem)) as [Hg|Hg].
  - apply count_pos in Hg as ([j b] & Hj & Hb). cbn in Hb. subst b.
    destruct (proj1 (Hw j) (list_elem_of_fmap_2 fst _ _ Hj)) as [c Hc]. exists j, c, (Waiting s).
    split_and!; [done| |by left]. intros ->.
    apply list_elem_of_lookup in Hi as [k Hk], Hj as [k' Hk'].
    assert (k = k') as ->; [|congruence]. eapply (NoDup_lookup (sem_waiters sem).*1); [done|..];
      rewrite list_lookup_fmap; [by rewrite Hk|by rewrite Hk'].
  - assert (H0 : granted sem = 0) by (pose proof (count_nonneg snd (sem_waiters sem)); unfold granted in *; lia).
    destruct (decide (0 < count (holds s) (sw_calls w))) as [Hh|Hh].
    + apply count_pos in Hh as ([c p] & Hin & Hh). apply list_elem_of_lookup in Hin as [j Hj].
      exists j, c, p. split_and!; [done| |].
      * intros ->. destruct (proj1 (Hw i) (list_elem_of_fmap_2 fst _ _ Hi)) as [c' Hc']. rewrite Hj in Hc'.
        by injection Hc' as -> ->.
      * unfold holds in Hh. cbn in Hh. destruct p; try done; apply bool_decide_eq_true in Hh; subst; auto.
    + pose proof (count_nonneg (holds s) (sw_calls w)).
      rewrite Ha in Hi by lia. by apply not_elem_of_nil in Hi.
Qed.

(** The steps that only let calls that have been granted a permit go on. *)
Definition goes_on (ev : slot_event) : Prop :=
  match ev with EvResume _ | EvLeave _ | EvFinish _ => True | _ => False end.

(** No permit is lost on a sleeper: from every reachable state a call that
    waits on a semaphore that was made with any permits still gets one, if only
    the calls that have theirs resume and finish; nobody needs to time out. *)
Theorem waiter_can_proceed w i c s sem :
  slots_reachable w → sw_calls w !! i = Some (c, Waiting s) →
  sw_objects w !! s = Some sem → 0 < sem_capacity sem →
  ∃ evs w', Forall goes_on evs ∧ slot_run w evs = Some w' ∧ sw_calls w' !! i = Some (c, Acquired s).
Proof.
  remember (sum_of (remaining s) (sw_calls w)) as n eqn:Hn. revert w sem Hn.
  induction n as [n IH] using lt_wf_ind. intros w sem -> Hreach Hi Hsem Hcap.
  destruct (reachable_ok w Hreach) as [Hs _ _ _]. destruct (Hs s sem Hsem) as [_ Hw].
  destruct (list_elem_of_fmap_1 fst (sem_waiters sem) i) as ([i' [|]] & Heq & Hin);
    [by apply Hw; exists c|cbn in Heq; subst i'..].
  { eexists [EvResume i], _. split; [by repeat constructor|]. cbn. rewrite Hi, Hsem. cbn.
    rewrite bool_decide_true by done. split; [done|]. cbn. rewrite list_lookup_insert_eq; [done|].
    by apply lookup_lt_Some in Hi. }
  destruct (sleeper_has_waker w s sem i Hreach Hsem Hcap Hin) as (j & cj & p & Hj & Hne & Hp).
  assert (Hgo : ∀ ev w1 sem1 p1, goes_on ev → slot_step w ev = Some w1 →
    sw_calls w1 = <[j := (cj, p1)]> (sw_calls w) → sw_objects w1 !! s = Some sem1 →
    sem_capacity sem1 = sem_capacity sem → (remaining s (cj, p1) < remaining s (cj, p))%nat →
    ∃ evs w', Forall goes_on evs ∧ slot_run w evs = Some w' ∧ sw_calls w' !! i = Some (c, Acquired s)).
  { intros ev w1 sem1 p1 Hev Hstep Hcalls Hobj Hcap1 Hless.
    pose proof (sum_of_insert (remaining s) _ _ _ (cj, p1) Hj) as Hsum. rewrite <- Hcalls in Hsum.
    destruct (IH (sum_of (remaining s) (sw_calls w1)) ltac:(lia) w1 sem1) as (evs & w' & Hevs & Hrun & Hend);
      [done|by eapply slots_step| |done|lia|].
    { rewrite Hcalls. by rewrite list_lookup_insert_ne. }
    exists (ev :: evs), w'. split; [by constructor|]. cbn. rewrite Hstep. by split. }
  assert (Hcapacity : ∀ s0, sem_capacity (wake_up_next s0) = sem_capacity s0).
  { intros s0. unfold wake_up_next. by destruct (wake_first _). }
  destruct Hp as [[-> Hdone]|[->| ->]].
  - apply (Hgo (EvResume j) (set_call j cj (Acquired s) (update_semaphore s (sem_resume j) w)) (sem_resume j sem) (Acquired s)).
    + done.
    + cbn. rewrite Hj, Hsem. cbn. by rewrite bool_decide_true.
    + done.
    + cbn. by rewrite list_lookup_alter_eq, Hsem.
    + unfold sem_resume. destruct (0 <? _); [by rewrite Hcapacity|done].
    + unfold remaining. cbn. rewrite !bool_decide_true by done. lia.
  - apply (Hgo (EvLeave j) (leave j cj (Holding s) w) sem (Holding s)); [done|cbn; by rewrite Hj|done|done|done|].
    unfold remaining. cbn. rewrite !bool_decide_true by done. lia.
  - apply (Hgo (EvFinish j) (set_call j cj (Done (Ok tt)) (update_semaphore s sem_release w)) (sem_release sem) (Done (Ok tt))).
    + done.
    + cbn. by rewrite Hj.
    + done.
    + cbn. by rewrite list_lookup_alter_eq, Hsem.
    + unfold sem_release. by rewrite Hcapacity.
    + unfold remaining. cbn. rewrite bool_decide_true by done. lia.
Qed.

(** ** One connection *)

Lemma run_reachable w evs w' : slots_reachable w → slot_run w evs = Some w' → slots_reachable w'.
Proof.
  revert w. induction evs as [|ev evs IH]; intros w Hw Hrun; cbn in Hrun; [by injection Hrun as <-|].
  destruct (slot_step w ev) as [w1|] eqn:E; [|done]. apply (IH w1); [by eapply slots_step|done].
Qed.

(** A call that is past the semaphore on connection [conn]. *)
Definition runs_on (conn : string) (x : SlotCall * phase) : bool :=
  bool_decide (sl_connection x.1 = conn) && match x.2 with Acquired _ | Holding _ => true | _ => false end.

(** While its semaphore is not reset, a connection's calls all use the cached one,
    which was made with the cap they all ask for. *)
Definition on_cached (conn : string) (m : Z) (w : slot_world) : Prop :=
  (∀ s, semaphores (sw_limiter w) !! conn = Some s → ∃ sem, sw_objects w !! s = Some sem ∧ sem_capacity sem = m)
  ∧ ∀ c p s, (c, p) ∈ sw_calls w → sl_connection c = conn → phase_sem p = Some s →
      semaphores (sw_limiter w) !! conn = Some s.

Lemma enter_queue_semaphores l c l' : enter_queue l c = Ok l' → semaphores l' = semaphores l.
Proof. unfold enter_queue. intros [_ H]%bind_ok_unit. by apply bind_ok_unit in H as [_ [= <-]]. Qed.

Lemma elem_of_insert_call (calls : list (SlotCall * phase)) i x y : x ∈ <[i := y]> calls → x = y ∨ x ∈ calls.
Proof.
  intros [j Hj]%list_elem_of_lookup. destruct (decide (j = i)) as [->|Hne].
  - apply list_lookup_insert_Some in Hj as [(_ & <- & _)|[? _]]; [by left|done].
  - rewrite list_lookup_insert_ne in Hj by done. right. by eapply list_elem_of_lookup_2.
Qed.

Lemma on_cached_set conn m w l f s i c p p' :
  on_cached conn m w → semaphores l = semaphores (sw_limiter w) → (∀ sem, sem_capacity (f sem) = sem_capacity sem) →
  sw_calls w !! i = Some (c, p) → (∀ s', phase_sem p' = Some s' → phase_sem p = Some s') →
  on_cached conn m (set_call i c p' (set_limiter l (update_semaphore s f w))).
Proof.
  intros [H1 H2] Hl Hf Hi Hp. split; cbn; rewrite Hl.
  - intros s0 Hs0. destruct (H1 s0 Hs0) as (sem & Hsem & Hm). destruct (decide (s = s0)) as [->|Hne].
    + exists (f sem). by rewrite list_lookup_alter_eq, Hsem, Hf.
    + exists sem. by rewrite list_lookup_alter_ne.
  - intros c0 p0 s0 [[= -> ->]|Hin]%elem_of_insert_call Hconn Hs0; [|by apply (H2 c0 p0)].
    apply (H2 c p); [by eapply list_elem_of_lookup_2|done|by apply Hp].
Qed.

Lemma wake_capacity s : sem_capacity (wake_up_next s) = sem_capacity s.
Proof. unfold wake_up_next. by destruct (wake_first _). Qed.

Lemma on_cached_enter conn m w c w' :
  on_cached conn m w → slot_step w (EvEnter c) = Some w' →
  (sl_connection c = conn → sl_max_concurrency c = m) → on_cached conn m w'.
Proof.
  intros Hoc Hstep Hcap. cbn in Hstep.
  destruct (Z.ltb_spec (sl_max_concurrency c) 0); [done|]. injection Hstep as <-.
  destruct Hoc as [H1 H2]. destruct (enter_queue (sw_limiter w) c) as [l|e] eqn:E.
  2: { split; cbn; [done|]. intros c0 p0 s0 [Hin|Hin%list_elem_of_singleton]%elem_of_app Hconn Hs0;
         [by apply (H2 c0 p0)|by injection Hin as -> ->]. }
  apply enter_queue_semaphores in E. unfold get_semaphore. cbn [sw_limiter set_limiter sw_objects]. rewrite E.
  destruct (semaphores (sw_limiter w) !! sl_connection c) as [s|] eqn:Hsem; split; cbn; rewrite ?E.
  + done.
  + intros c0 p0 s0 [Hin|Hin%list_elem_of_singleton]%elem_of_app Hconn Hs0; [by apply (H2 c0 p0)|].
    injection Hin as -> ->. injection Hs0 as <-. by rewrite <- Hconn.
  + intros s0. destruct (decide (sl_connection c = conn)) as [Heq|Hne].
    * rewrite Heq, lookup_insert_eq. intros [= <-]. exists (new_semaphore (sl_max_concurrency c)).
      rewrite lookup_app_r, Nat.sub_diag by done. split; [done|]. cbn. by apply Hcap.
    * rewrite lookup_insert_ne by done. intros Hs0. destruct (H1 s0 Hs0) as (sem & ? & ?). exists sem.
      split; [by apply lookup_app_l_Some|done].
  + intros c0 p0 s0 [Hin|Hin%list_elem_of_singleton]%elem_of_app Hconn Hs0.
    * pose proof (H2 c0 p0 s0 Hin Hconn Hs0) as Hcached. destruct (decide (sl_connection c = conn)) as [Heq|Hne].
      { rewrite Heq in Hsem. congruence. }
      by rewrite lookup_insert_ne.
    * injection Hin as -> ->. injection Hs0 as <-. by rewrite Hconn, lookup_insert_eq.
Qed.

Lemma on_cached_start conn m w i w' :
  on_cached conn m w → slot_step w (EvStart i) = Some w' → on_cached conn m w'.
Proof.
  intros Hoc Hstep. cbn in Hstep.
  destruct (sw_calls w !! i) as [[c []]|] eqn:Hi; try done. destruct (may_start c); [|done].
  destruct (sw_objects w !! s) as [sem|] eqn:Hsem; [|done]. cbn in Hstep.
  destruct (sem_start i sem) as [sem' got] eqn:E. injection Hstep as <-.
  destruct Hoc as [H1 H2]. split; cbn.
  + intros s0 Hs0. destruct (H1 s0 Hs0) as (sem0 & Hsem0 & Hm). destruct (decide (s = s0)) as [->|Hne].
    * exists sem'. rewrite list_lookup_alter_eq, Hsem. split; [done|]. rewrite Hsem in Hsem0. injection Hsem0 as ->.
      unfold sem_start in E. destruct (locked sem0); by injection E as <- <-.
    * exists sem0. by rewrite list_lookup_alter_ne.
  + intros c0 p0 s0 [[= -> ->]|Hin]%elem_of_insert_call Hconn Hs0; [|by apply (H2 c0 p0)].
    apply (H2 c (Queued s)); [by eapply list_elem_of_lookup_2|done|by destruct got].
Qed.

Lemma on_cached_step conn m w ev w' :
  on_cached conn m w → world_ok w → slot_step w ev = Some w' →
  (∀ c, ev = EvEnter c → sl_connection c = conn → sl_max_concurrency c = m) → ev ≠ EvReset conn →
  on_cached conn m w'.
Proof.
  intros Hoc Hok Hstep Hcap Hreset. destruct ev as [c|i|i|i|i b|i|conn'].
  - apply (on_cached_enter conn m w c); [done|exact Hstep|by apply Hcap].
  - by apply (on_cached_start conn m w i).
  - cbn in Hstep. destruct (sw_calls w !! i) as [[c []]|] eqn:Hi; try done.
    destruct (sw_objects w !! s) as [sem|] eqn:Hsem; [|done]. cbn in Hstep. case_bool_decide; [|done].
    injection Hstep as <-. apply (on_cached_set conn m w (sw_limiter w) _ _ _ _ (Waiting s)); try done.
    intros sem0. unfold sem_resume. destruct (0 <? _); [by rewrite wake_capacity|done].
  - cbn in Hstep. destruct (sw_calls w !! i) as [[c []]|] eqn:Hi; try done. injection Hstep as <-.
    pose proof (on_cached_set conn m w (leave_queue (sw_limiter w) c) (λ x, x) s i c (Acquired s) (Holding s)) as H.
    unfold update_semaphore in H. rewrite alter_id_same in H. by apply H.
  - cbn in Hstep. destruct (sw_calls w !! i) as [[c []]|] eqn:Hi; try done; injection Hstep as <-.
    + pose proof (on_cached_set conn m w (leave_queue (sw_limiter w) c) (λ x, x) s i c (Queued s) (abandoned b)) as H.
      unfold update_semaphore in H. rewrite alter_id_same in H. by apply H.
    + apply (on_cached_set conn m w (leave_queue (sw_limiter w) c) _ _ _ _ (Waiting s)); try done.
      intros sem0. unfold sem_cancel, sem_release. destruct (bool_decide _); [by rewrite wake_capacity|done].
  - cbn in Hstep. destruct (sw_calls w !! i) as [[c []]|] eqn:Hi; try done. injection Hstep as <-.
    apply (on_cached_set conn m w (sw_limiter w) _ _ _ _ (Holding s)); try done.
    intros sem0. unfold sem_release. by rewrite wake_capacity.
  - cbn in Hstep. injection Hstep as <-. destruct Hoc as [H1 H2]. split; cbn.
    + intros s0 [_ Hs0]%lookup_delete_Some. by apply H1.
    + intros c0 p0 s0 Hin Hconn Hs0. rewrite lookup_delete_ne by congruence. by apply (H2 c0 p0).
Qed.

Lemma on_cached_run conn m evs : ∀ w w',
  on_cached conn m w → slots_reachable w → slot_run w evs = Some w' →
  (∀ c, EvEnter c ∈ evs → sl_connection c = conn → sl_max_concurrency c = m) → EvReset conn ∉ evs →
  on_cached conn m w'.
Proof.
  induction evs as [|ev evs IH]; intros w w' Hoc Hw Hrun Hcap Hreset; cbn in Hrun; [by injection Hrun as <-|].
  destruct (slot_step w ev) as [w1|] eqn:E; [|done]. apply not_elem_of_cons in Hreset as [Hne Hreset].
  apply (IH w1); [|by eapply slots_step|done| |done].
  - eapply on_cached_step; [done|by apply reachable_ok|done| |congruence]. intros c ->. apply Hcap. by left.
  - intros c Hc. apply Hcap. by right.
Qed.

(** C16. One connection never runs more queries than its cap: when every call on
    it asks for the cap [m] and no configuration reload resets it, in whatever
    order calls enter, wait, time out, are cancelled and finish, at most [m] of
    them are past the semaphore. *)
Theorem connection_never_over_capacity conn m evs w :
  0 ≤ m → slot_run empty_slots evs = Some w →
  (∀ c, EvEnter c ∈ evs → sl_connection c = conn → sl_max_concurrency c = m) → EvReset conn ∉ evs →
  count (runs_on conn) (sw_calls w) ≤ m.
Proof.
  intros Hm Hrun Hcap Hreset.
  assert (Hw : slots_reachable w) by (eapply run_reachable; [apply slots_start|done]).
  assert (Hoc : on_cached conn m w).
  { apply (on_cached_run conn m evs empty_slots); [|apply slots_start|done..]. split; cbn.
    - intros s. by rewrite lookup_empty.
    - by intros c p s ?%not_elem_of_nil. }
  destruct Hoc as [H1 H2]. destruct (decide (0 < count (runs_on conn) (sw_calls w))) as [Hpos|]; [|lia].
  apply count_pos in Hpos as ([c p] & Hin & Hrn). unfold runs_on in Hrn. cbn in Hrn.
  apply andb_true_iff in Hrn as [Hconn%bool_decide_eq_true Hp].
  assert (∃ s, phase_sem p = Some s) as [s Hs] by (destruct p; try done; by eexists).
  pose proof (H2 c p s Hin Hconn Hs) as Hcached. destruct (H1 s Hcached) as (sem & Hsem & Hcapm).
  apply reachable_ok in Hw as [Hso _ _ _]. destruct (Hso s sem Hsem) as [[Hv Hpm _ _] _].
  assert (count (runs_on conn) (sw_calls w) ≤ count (holds s) (sw_calls w)).
  { apply count_le. intros [c' p'] Hin' Hr. unfold runs_on in Hr. cbn in Hr.
    apply andb_true_iff in Hr as [Hconn'%bool_decide_eq_true Hp']. unfold holds. cbn.
    destruct p' as [| |s'|s'|]; try done; specialize (H2 c' _ s' Hin' Hconn' eq_refl);
      apply bool_decide_eq_true; congruence. }
  pose proof (count_nonneg snd (sem_waiters sem)). unfold granted in Hpm. lia.
Qed.

(** ** No time at all *)

Lemma SFltb_irrefl f : SFltb f f = false.
Proof.
  unfold SFltb, SFcompare. destruct f as [[]|[]| |[] m e]; try done; rewrite Z.compare_refl, ?Pos.compare_cont_refl;
    by rewrite ?Pos.compare_refl.
Qed.

(** A caller cannot ask to wait longer than the operator's ceiling, and never
    less than no time, whatever float it sends, not-a-number included. *)
Theorem resolve_wait_within_ceiling mode requested ceiling :
  SFltb ceiling f64_zero = false →
  SFltb ceiling (resolve_wait_seconds mode requested ceiling) = false
  ∧ SFltb (resolve_wait_seconds mode requested ceiling) f64_zero = false.
Proof.
  intros Hc. unfold resolve_wait_seconds. case_bool_decide; [by split|].
  destruct requested as [r|]; [|by rewrite SFltb_irrefl].
  unfold float_max, float_min. destruct (SFltb ceiling r) eqn:Hr.
  - destruct (SFltb f64_zero ceiling); rewrite ?SFltb_irrefl; by split.
  - destruct (SFltb f64_zero r) eqn:Hpos; [|by split]. split; [done|].
    unfold SFltb in *. destruct r as [[]|[]| |[] m e]; done.
Qed.

(** A call with no time to wait never gets to ask for a permit. *)
Lemma no_time_never_runs w :
  slots_reachable w →
  ∀ i c p, sw_calls w !! i = Some (c, p) → may_start c = false → (∃ s, p = Queued s) ∨ ∃ e, p = Done (Raise e).
Proof.
  assert (Hset : ∀ (calls : list (SlotCall * phase)) (i j : nat) (c c0 : SlotCall) (p p0 p1 : phase),
    calls !! j = Some (c0, p0) → (may_start c0 = false → ∃ e, p1 = Done (Raise e)) →
    (∀ i c p, calls !! i = Some (c, p) → may_start c = false → (∃ s, p = Queued s) ∨ ∃ e, p = Done (Raise e)) →
    <[j := (c0, p1)]> calls !! i = Some (c, p) → may_start c = false → (∃ s, p = Queued s) ∨ ∃ e, p = Done (Raise e)).
  { intros calls i j c c0 p p0 p1 Hj Hp1 IH Hi Hc. apply list_lookup_insert_Some in Hi as [(-> & [= -> ->] & _)|[_ Hi]];
      [right; by apply Hp1|by apply (IH i c)]. }
  assert (Hadd : ∀ (calls : list (SlotCall * phase)) (i : nat) (c c0 : SlotCall) (p p1 : phase),
    ((∃ s, p1 = Queued s) ∨ ∃ e, p1 = Done (Raise e)) →
    (∀ i c p, calls !! i = Some (c, p) → may_start c = false → (∃ s, p = Queued s) ∨ ∃ e, p = Done (Raise e)) →
    (calls ++ [(c0, p1)]) !! i = Some (c, p) → may_start c = false → (∃ s, p = Queued s) ∨ ∃ e, p = Done (Raise e)).
  { intros calls i c c0 p p1 Hp1 IH Hi Hc. apply lookup_app_Some in Hi as [Hi|[_ Hi]]; [by apply (IH i c)|].
    apply list_elem_of_lookup_2, list_elem_of_singleton in Hi. by injection Hi as -> ->. }
  induction 1 as [|w ev w' _ IH Hstep]; [done|]. intros i c p Hi Hc.
  destruct ev as [c0|j|j|j|j b|j|conn]; cbn in Hstep.
  - destruct (sl_max_concurrency c0 <? 0); [done|]. injection Hstep as <-.
    destruct (enter_queue (sw_limiter w) c0) as [l|e]; [|by eapply Hadd; [right; by exists e|exact IH|exact Hi|]].
    unfold get_semaphore in Hi. cbn in Hi. destruct (semaphores l !! _); cbn in Hi;
      by eapply Hadd; [left; by eexists|exact IH|exact Hi|].
  - destruct (sw_calls w !! j) as [[c0 []]|] eqn:Hj; try done. destruct (may_start c0) eqn:Hm; [|done].
    destruct (sw_objects w !! s); [|done]. cbn in Hstep. destruct (sem_start j s0). injection Hstep as <-.
    by eapply Hset; [exact Hj| |exact IH|exact Hi|]; [rewrite Hm|].
  - destruct (sw_calls w !! j) as [[c0 []]|] eqn:Hj; try done. destruct (sw_objects w !! s); [|done]. cbn in Hstep.
    case_bool_decide; [|done]. injection Hstep as <-.
    eapply Hset; [exact Hj| |exact IH|exact Hi|done]. intros Hm. by destruct (IH j c0 _ Hj Hm) as [[? ?]|[? ?]].
  - destruct (sw_calls w !! j) as [[c0 []]|] eqn:Hj; try done. injection Hstep as <-.
    eapply Hset; [exact Hj| |exact IH|exact Hi|done]. intros Hm. by destruct (IH j c0 _ Hj Hm) as [[? ?]|[? ?]].
  - destruct (sw_calls w !! j) as [[c0 []]|] eqn:Hj; try done; injection Hstep as <-;
      (eapply Hset; [exact Hj|intros _; by eexists|exact IH|exact Hi|done]).
  - destruct (sw_calls w !! j) as [[c0 []]|] eqn:Hj; try done. injection Hstep as <-.
    eapply Hset; [exact Hj| |exact IH|exact Hi|done]. intros Hm. by destruct (IH j c0 _ Hj Hm) as [[? ?]|[? ?]].
  - injection Hstep as <-. by apply (IH i c).
Qed.

(** Failing fast is failing always: a call that asks not to wait is never
    given a permit, however many are free; all that can happen to it is an
    error. *)
Theorem fail_fast_never_runs w i c p requested ceiling :
  slots_reachable w → sw_calls w !! i = Some (c, p) →
  sl_wait_seconds c = resolve_wait_seconds (Some FAIL_FAST) requested ceiling →
  ∀ s, p ≠ Waiting s ∧ p ≠ Acquired s ∧ p ≠ Holding s ∧ p ≠ Done (Ok tt).
Proof.
  intros Hw Hi Hwait s. assert (Hm : may_start c = false) by (unfold may_start; by rewrite Hwait).
  by destruct (no_time_never_runs w Hw i c p Hi Hm) as [[s' ->]|[e ->]].
Qed.

(** * A concrete schedule *)

Definition slot_call (wait : float64) : SlotCall := MkSlotCall "db" 1 wait (Some "alice") (Some 2) None.
Definition patient : SlotCall := slot_call f64_ten.
Definition hasty : SlotCall := slot_call (resolve_wait_seconds (Some FAIL_FAST) None f64_ten).

(** One permit: the first call runs, the second waits in the deque, the third
    finds the queue at its depth of two once a fourth is in it. *)
Definition busy_events : list slot_event :=
  [EvEnter patient; EvStart 0; EvLeave 0; EvEnter patient; EvStart 1; EvEnter patient; EvEnter patient].
Definition busy : slot_world := default empty_slots (slot_run empty_slots busy_events).

Lemma busy_reachable : slots_reachable busy.
Proof. apply (run_reachable empty_slots busy_events); [apply slots_start|reflexivity]. Qed.

Lemma busy_phases :
  sw_calls busy = [(patient, Holding 0); (patient, Waiting 0); (patient, Queued 0);
    (patient, Done (Raise (QueueDepthExceededError "connection queue is already at its configured depth")))].
Proof. reflexivity. Qed.

Lemma slots_books_exact_witness :
  default 0 (queue_depth (sw_limiter busy) !! "db") = count (queued_on "db") (sw_calls busy)
  ∧ count (queued_on "db") (sw_calls busy) = 2.
Proof. split; [|reflexivity]. exact (proj1 (slots_books_exact busy busy_reachable) "db"). Defined.

Lemma connection_never_over_capacity_witness : count (runs_on "db") (sw_calls busy) ≤ 1.
Proof.
  refine (connection_never_over_capacity "db" 1 busy_events busy _ _ _ _).
  - discriminate.
  - reflexivity.
  - intros c Hc _. apply list_elem_of_In in Hc. by repeat destruct Hc as [[= <-]|Hc].
  - intros H. apply list_elem_of_In in H. by repeat destruct H as [[=]|H].
Defined.

Lemma waiter_can_proceed_witness :
  ∃ evs w', Forall goes_on evs ∧ slot_run busy evs = Some w' ∧ sw_calls w' !! 1%nat = Some (patient, Acquired 0).
Proof.
  refine (waiter_can_proceed busy 1 patient 0 (MkSemaphore 1 0 [(1%nat, false)]) busy_reachable _ _ _).
  - reflexivity.
  - reflexivity.
  - reflexivity.
Defined.

(** All over: the first finished, the second was served, the third timed out. *)
Definition over_events : list slot_event :=
  busy_events ++ [EvFinish 0; EvResume 1; EvLeave 1; EvStart 2; EvAbandon 2 true; EvFinish 1].
Definition over : slot_world := default empty_slots (slot_run empty_slots over_events).

Lemma slots_idle_clean_witness :
  sw_objects over = [MkSemaphore 1 1 []] ∧ default 0 (queue_depth (sw_limiter over) !! "db") = 0.
Proof.
  split; [reflexivity|].
  refine (proj1 (proj2 (slots_idle_clean over _ _)) "db").
  - apply (run_reachable empty_slots over_events); [apply slots_start|reflexivity].
  - intros c p H. apply list_elem_of_In in H. vm_compute in H.
    repeat (destruct H as [H|H]; [injection H as _ <-; eexists; reflexivity|]). destruct H.
Defined.

Lemma resolve_wait_within_ceiling_witness :
  SFltb f64_ten (resolve_wait_seconds (Some WAIT) (Some S754_nan) f64_ten) = false
  ∧ resolve_wait_seconds (Some WAIT) (Some f64_one) f64_ten = f64_one.
Proof. split; [apply resolve_wait_within_ceiling; reflexivity|reflexivity]. Defined.

(** On an idle connection with its permit free. *)
Lemma fail_fast_never_runs_witness :
  let w := default empty_slots (slot_run empty_slots [EvEnter hasty]) in
  slot_step w (EvStart 0) = None
  ∧ (slot_step w (EvAbandon 0 true) ≫= λ w, sw_calls w !! 0%nat)
    = Some (hasty, Done (Raise (ConcurrencyLimitError "too many concurrent queries in flight")))
  ∧ ∀ s, Queued 0 ≠ Holding s.
Proof.
  intros w. split; [reflexivity|]. split; [reflexivity|]. intros s.
  refine (proj1 (proj2 (proj2 (fail_fast_never_runs w 0 hasty (Queued 0) None f64_ten _ _ _ s)))).
  - apply (run_reachable empty_slots [EvEnter hasty]); [apply slots_start|reflexivity].
  - reflexivity.
  - reflexivity.
Defined.
