(* ===== verification/ConcurrencyRedis.v ===== *)
(** The cross-replica concurrency limiter, [execution/redis_concurrency.py]:
    slots and queue places as members of sorted sets, each with a lease. Shown:
    however the replicas' calls interleave, the slots granted, not released and
    inside their lease are at most the capacity; an acquisition tries at least
    once and ends by its deadline, whatever the others do to the slots while it
    sleeps; a waiter is admitted exactly when both queues
    have room. *)
From S2P Require Export DisclosureRedis.
Local Open Scope Z_scope.

(** Leases and clock readings are nanoseconds, as in [RollingWindow]. *)
Definition slot_key (connection_id : string) : string := "querygate:concurrency:" +:+ connection_id.
Definition queue_key (connection_id : string) : string := "querygate:queue:" +:+ connection_id.
Definition queue_principal_key (connection_id principal : string) : string :=
  "querygate:queue:" +:+ connection_id +:+ ":" +:+ principal.

Definition FAIL_OPEN_TOKEN : string := "__querygate_fail_open__".
Definition QUEUE_DEPTH_UNKNOWN : Z := -1.

(** [math.ceil(lease_seconds * 2000)] milliseconds. *)
Definition two_leases_ms (lease : Z) : Z := - (- (lease * 2) / 1000000).

Section scripts.
Context {DB : Type} `{RS : !RedisServer DB}.
Context (lease : Z).

(** What the scripts do to one set: drop the members past their lease and count
    the rest; add a member and set the key's deadline. *)
Definition live_count (k : string) (now : Z) : script_on DB Z :=
  call now (ZRemRangeByScore k (now - lease)) ≫= λ _, call now (ZCard k).

Definition enter_one (k : string) (now : Z) (token : string) : script_on DB unit :=
  call now (ZAdd k now token) ≫= λ _, call now (PExpire k (two_leases_ms lease)).

(** [_ACQUIRE_SCRIPT]. *)
Definition acquire_script (k : string) (cap now : Z) (token : string) : script_on DB bool :=
  live_count k now ≫= λ n,
  if n <? cap then enter_one k now token ≫= λ _, mret true else mret false.

(** [_QUEUE_ENTER_SCRIPT]: was the waiter admitted, and the depth. *)
Definition cap_met (cap : option Z) (count : Z) : bool := match cap with Some n => (0 <=? n) && (n <=? count) | None => false end.

Definition queue_enter_script (k : string) (pk : option string) (max_global max_principal : option Z) (now : Z) (token : string) :
  script_on DB (bool * Z) :=
  live_count k now ≫= λ global,
  match pk with Some pk => live_count pk now | None => mret 0 end ≫= λ principal,
  if cap_met max_global global then mret (false, global)
  else if is_some pk && cap_met max_principal principal then mret (false, global)
  else enter_one k now token ≫= λ _,
       match pk with Some pk => enter_one pk now token | None => mret tt end ≫= λ _,
       mret (true, global + 1).

(** [_QUEUE_LEAVE_SCRIPT]. *)
Definition queue_leave_script (k : string) (pk : option string) (now : Z) (token : string) : script_on DB Z :=
  call now (ZRem k token) ≫= λ _,
  match pk with Some pk => call now (ZRem pk token) | None => mret tt end ≫= λ _,
  call now (ZCard k).

(** * The limiter *)

(** A reading of both clocks, and whether the server can be reached then. *)
Record reading := MkReading { rd_wall : Z; rd_monotonic : Z; rd_up : bool }.

(** What a script replies, unless Redis fails. *)
Definition reply {A} (up : bool) (s : script_on DB A) (db : DB) : DB * option A := if up then s db else (db, None).

(** The loop of [acquire], over the readings it takes; [None] while it waits.
    While it sleeps after its [i]-th attempt, other requests and replicas use the
    server: [meanwhile i] is what they leave. *)
Fixpoint redis_acquire (fail_open : bool) (connection_id : string) (cap deadline : Z) (token : string)
  (meanwhile : nat → DB → DB) (readings : list reading) (db : DB) : DB * option (result string) :=
  match readings with
  | [] => (db, None)
  | r :: readings =>
      let '(db, acquired) := reply (rd_up r) (acquire_script (slot_key connection_id) cap (rd_wall r) token) db in
      match acquired with
      | None => (db, Some (if fail_open then Ok FAIL_OPEN_TOKEN else Raise (BuiltinError "RedisError")))
      | Some true => (db, Some (Ok token))
      | Some false =>
          if deadline <=? rd_monotonic r then (db, Some (Raise (BuiltinError "TimeoutError")))
          else redis_acquire fail_open connection_id cap deadline token (λ i, meanwhile (S i)) readings
                 (meanwhile 0%nat db)
      end
  end.

Definition redis_release (connection_id token : string) (r : reading) (db : DB) : DB :=
  if bool_decide (token = FAIL_OPEN_TOKEN) then db
  else (reply (rd_up r) (call (rd_wall r) (ZRem (slot_key connection_id) token)) db).1.

Definition principal_key (connection_id : string) (principal : option string) : option string :=
  queue_principal_key connection_id <$> principal.

(** [redis_enter_queue]: [None] is a full queue. *)
Definition redis_enter_queue (fail_open : bool) (connection_id : string) (principal : option string)
  (max_queue_depth max_queue_depth_per_principal : option Z) (token : string) (r : reading) (db : DB) :
  DB * result (option (string * Z)) :=
  let '(db, admitted) := reply (rd_up r) (queue_enter_script (queue_key connection_id) (principal_key connection_id principal)
    max_queue_depth max_queue_depth_per_principal (rd_wall r) token) db in
  (db, match admitted with
       | None => if fail_open then Ok (Some (FAIL_OPEN_TOKEN, QUEUE_DEPTH_UNKNOWN)) else Raise (BuiltinError "RedisError")
       | Some (true, depth) => Ok (Some (token, depth))
       | Some (false, _) => Ok None
       end).

Definition redis_leave_queue (connection_id : string) (principal : option string) (token : string) (r : reading) (db : DB) : DB * Z :=
  if bool_decide (token = FAIL_OPEN_TOKEN) then (db, QUEUE_DEPTH_UNKNOWN) else
  let '(db, depth) := reply (rd_up r) (queue_leave_script (queue_key connection_id) (principal_key connection_id principal)
    (rd_wall r) token) db in
  (db, default QUEUE_DEPTH_UNKNOWN depth).

(** * Every replica's calls on one connection's slots *)

(** An attempt of some acquisition, or the release of a token, at a wall time. *)
Inductive lease_event := Try (token : string) (now : Z) | Leave (token : string) (now : Z).
Definition event_time (e : lease_event) : Z := match e with Try _ n | Leave _ n => n end.

(** The tokens granted and not released, with the time of the grant. *)
Definition lease_step (k : string) (cap : Z) (st : DB * gmap string Z) (e : lease_event) : DB * gmap string Z :=
  match e with
  | Try token now =>
      let '(db, r) := acquire_script k cap now token st.1 in
      (db, match r with Some true => <[token := now]> st.2 | _ => st.2 end)
  | Leave token now => ((call now (ZRem k token) st.1).1, delete token st.2)
  end.

Definition lease_run (k : string) (cap : Z) (st : DB * gmap string Z) (events : list lease_event) : DB * gmap string Z :=
  foldl (lease_step k cap) st events.
End scripts.

(** Clocks agree and do not go back. *)
Fixpoint in_time (t : Z) (events : list lease_event) : Prop :=
  match events with [] => True | e :: events => t ≤ event_time e ∧ in_time (event_time e) events end.

Definition last_time (t : Z) (events : list lease_event) : Z := foldl (λ _ e, event_time e) t events.

(** * The slots stay within the capacity *)

Section one_set.
Context (lease : Z) (lease_positive : 0 < lease) (k : string).

Lemma two_leases_enough : lease ≤ two_leases_ms lease * 1000000.
Proof using lease_positive. unfold two_leases_ms. pose proof (Z.mul_div_le (- (lease * 2)) 1000000). lia. Qed.

Lemma live_count_run now d m db : stored now d k RZset m db →
  let live := filter (λ ms, now - lease < ms.2) m in
  ∃ db', live_count lease k now db = (db', Some (Z.of_nat (size live))) ∧ stored now d k RZset live db'
    ∧ ∀ k', k ≠ k' → db' !! k' = db !! k'.
Proof.
  intros Hm live. unfold live_count.
  rewrite (script_bind_ok _ _ _ _ _ (ZREMRANGEBYSCORE_run _ _ _ _ _ Hm (now - lease))). fold live.
  assert (H1 : stored now d k RZset live (redis_put now k live RZset db)).
  { eapply stored_put; [exact Hm|]. intros ->. unfold live. by rewrite map_filter_empty. }
  rewrite (ZCARD_run _ _ _ _ _ H1). eexists. split; [done|]. split; [done|]. intros k' Hne. by rewrite redis_put_ne.
Qed.

Lemma enter_one_run now d m token db : stored now d k RZset m db →
  ∃ db', enter_one lease k now token db = (db', Some tt)
    ∧ stored now (now + two_leases_ms lease * 1000000) k RZset (<[token := now]> m) db'
    ∧ ∀ k', k ≠ k' → db' !! k' = db !! k'.
Proof.
  intros Hm. unfold enter_one. rewrite (script_bind_ok _ _ _ _ _ (ZADD_run _ _ _ _ _ Hm now token)).
  set (db2 := redis_put _ _ (<[token := now]> m) _ _).
  assert (Hne : <[token := now]> m ≠ ∅) by apply insert_non_empty.
  exists (PEXPIRE now k (two_leases_ms lease) db2).1. split; [done|].
  assert (Hget : redis_get now k db2 = Some (RZset (<[token := now]> m))) by by apply put_get.
  unfold PEXPIRE. rewrite Hget. cbn. split.
  - unfold stored. rewrite decide_False by done. cbn. rewrite lookup_insert_eq. split; [done|].
    pose proof two_leases_enough. lia.
  - intros k' Hk. rewrite lookup_insert_ne by done. unfold db2. by rewrite redis_put_ne.
Qed.
End one_set.

Section capacity.
Context (lease : Z) (lease_positive : 0 < lease) (k : string) (cap : Z) (cap_nonneg : 0 ≤ cap).

(** The stored set is within the capacity, and has every slot still leased, until
    after that lease. *)
Definition slots_ok (t : Z) (st : Redis * gmap string Z) : Prop :=
  ∃ m d, stored t d k RZset m st.1 ∧ Z.of_nat (size m) ≤ cap
    ∧ ∀ token s, st.2 !! token = Some s → s ≤ t ∧ (t - lease < s → m !! token = Some s ∧ s + lease ≤ d).

Lemma slots_ok_later t t' st : t ≤ t' → slots_ok t st → slots_ok t' st.
Proof.
  intros Ht (m & d & Hm & Hsize & Hheld). destruct (decide (m = ∅)) as [->|Hne].
  - exists ∅, d. split_and!; [|done|].
    + unfold stored in *. rewrite decide_True in * by done. by eapply gone_later.
    + intros token s Hs. destruct (Hheld token s Hs) as [? H]. split; [lia|]. intros Hlive.
      destruct H as [H _]; [lia|]. by rewrite lookup_empty in H.
  - destruct (Z.lt_ge_cases t' d) as [Hd|Hd].
    + exists m, d. split_and!; [|done|].
      * unfold stored in *. rewrite decide_False in * by done. by destruct Hm.
      * intros token s Hs. destruct (Hheld token s Hs) as [? H]. split; [lia|]. intros Hlive. apply H. lia.
    + exists ∅, d. split_and!; [|by rewrite map_size_empty|].
      * unfold stored in *. rewrite decide_False in Hm by done. rewrite decide_True by done.
        unfold gone. destruct Hm as [-> _]. by exists d.
      * intros token s Hs. destruct (Hheld token s Hs) as [? H]. split; [lia|]. intros Hlive.
        destruct H as [_ H]; lia.
Qed.

Lemma acquire_run now d m token db : stored now d k RZset m db →
  let live := filter (λ ms, now - lease < ms.2) m in
  ∃ db', (if Z.of_nat (size live) <? cap
          then acquire_script lease k cap now token db = (db', Some true)
               ∧ stored now (now + two_leases_ms lease * 1000000) k RZset (<[token := now]> live) db'
          else acquire_script lease k cap now token db = (db', Some false) ∧ stored now d k RZset live db').
Proof.
  intros Hm live. unfold acquire_script.
  destruct (live_count_run lease k now d m db Hm) as (db1 & Hrun & H1 & _). rewrite (script_bind_ok _ _ _ _ _ Hrun).
  fold live in H1 |- *. destruct (_ <? cap); [|by exists db1].
  destruct (enter_one_run lease lease_positive k now d live token db1 H1) as (db2 & Hrun2 & H2 & _).
  rewrite (script_bind_ok _ _ _ _ _ Hrun2). by exists db2.
Qed.

Lemma slot_step_ok t st e : slots_ok t st → t ≤ event_time e → slots_ok (event_time e) (lease_step lease k cap st e).
Proof.
  intros Hok Ht. apply (slots_ok_later _ _ _ Ht) in Hok. clear Ht t. destruct Hok as (m & d & Hm & Hsize & Hheld).
  destruct e as [token now|token now]; cbn [event_time lease_step] in *.
  - destruct (acquire_run now d m token st.1 Hm) as [db' Hrun].
    set (live := filter _ m) in *. assert (Hlive : (size live ≤ size m)%nat) by apply map_subseteq_size, map_filter_subseteq.
    assert (Hin : ∀ token' s, m !! token' = Some s → now - lease < s → live !! token' = Some s)
      by (intros ????; by apply map_lookup_filter_Some).
    destruct (Z.ltb_spec (Z.of_nat (size live)) cap) as [Hroom|Hfull]; destruct Hrun as [-> Hs].
    + do 2 eexists. split; [exact Hs|]. cbn [snd]. split.
      * destruct (live !! token) eqn:E; [rewrite map_size_insert_Some by (by eexists)|rewrite map_size_insert_None by done]; lia.
      * intros token' s. destruct (decide (token' = token)) as [->|Hne].
        -- rewrite !lookup_insert_eq. intros [= <-]. split; [lia|]. intros _. split; [done|].
           pose proof (two_leases_enough lease lease_positive). lia.
        -- rewrite !lookup_insert_ne by done. intros Hs'. destruct (Hheld _ _ Hs') as [Hle H]. split; [done|].
           intros Hl. destruct (H Hl) as [Hm' _]. split; [by apply Hin|]. pose proof (two_leases_enough lease lease_positive). lia.
    + exists live, d. split; [done|]. split; [lia|]. intros token' s Hs'. destruct (Hheld _ _ Hs') as [Hle H].
      split; [done|]. intros Hl. destruct (H Hl) as [Hm' Hd]. split; [by apply Hin|done].
  - exists (delete token m), d. split; [|split].
    + change (call now (ZRem k token) st.1) with (call (DB := Redis) now (ZRem k token) st.1).
      rewrite (ZREM_run _ _ _ _ _ Hm). eapply stored_put; [exact Hm|]. intros ->. by rewrite delete_empty.
    + assert ((size (delete token m) ≤ size m)%nat) by apply map_subseteq_size, delete_subseteq. lia.
    + intros token' s Hs. cbn [snd] in Hs. apply lookup_delete_Some in Hs as [Hne Hs]. destruct (Hheld _ _ Hs) as [Hle H]. split; [done|].
      intros Hl. rewrite lookup_delete_ne by done. by apply H.
Qed.

Lemma slot_run_ok events : ∀ t st, slots_ok t st → in_time t events →
  slots_ok (last_time t events) (lease_run lease k cap st events).
Proof.
  induction events as [|e events IH]; intros t st Hok Htime; [done|]. destruct Htime as [Ht Htime].
  apply (IH (event_time e)); [|done]. by apply (slot_step_ok t).
Qed.

Lemma slots_ok_bound t st : slots_ok t st → Z.of_nat (size (filter (λ ts, t - lease < ts.2) st.2)) ≤ cap.
Proof.
  intros (m & d & _ & Hsize & Hheld). assert ((size (filter (λ ts, (t - lease < ts.2)%Z) st.2) ≤ size m)%nat); [|lia].
  apply map_subseteq_size, map_subseteq_spec. intros token s [Hs Hl]%map_lookup_filter_Some.
  by apply (Hheld token s Hs).
Qed.
End capacity.

(** ** Any server *)

Section server.
Context {DB : Type} `{RS : !RedisServer DB}.

Lemma follows_live_count lease k now : follows (DB := DB) (live_count lease k now) (live_count lease k now).
Proof. unfold live_count. apply follows_bind; auto with redis_db. Qed.

Lemma follows_enter_one lease k now token : follows (DB := DB) (enter_one lease k now token) (enter_one lease k now token).
Proof. unfold enter_one. apply follows_bind; auto with redis_db. Qed.

Lemma follows_acquire lease k cap now token :
  follows (DB := DB) (acquire_script lease k cap now token) (acquire_script lease k cap now token).
Proof.
  unfold acquire_script. apply follows_bind; [apply follows_live_count|intros n].
  destruct (n <? cap); [|apply follows_ret]. apply follows_bind; [apply follows_enter_one|intros _; apply follows_ret].
Qed.

Lemma follows_slot_run lease k cap events : ∀ (st : DB * gmap string Z) (st' : Redis * gmap string Z),
  contents st.1 = st'.1 → st.2 = st'.2 → (lease_run lease k cap st events).2 = (lease_run lease k cap st' events).2.
Proof.
  induction events as [|e events IH]; intros [db held] [db' held'] Hdb Hheld; [done|]. cbn [fst snd] in *. subst.
  apply IH; destruct e as [token now|token now]; cbn [lease_step fst snd].
  - pose proof (follows_acquire lease k cap now token db) as Hf.
    destruct (acquire_script _ _ _ _ _ db) as [? ?]. cbn [fst snd] in Hf. by rewrite <- Hf.
  - by rewrite <- (follows_call now (ZRem k token) db).
  - pose proof (follows_acquire lease k cap now token db) as Hf.
    destruct (acquire_script _ _ _ _ _ db) as [? ?]. cbn [fst snd] in Hf. by rewrite <- Hf.
  - done.
Qed.

(** C19. The capacity holds across replicas: however their attempts and releases
    on a connection interleave, on clocks that agree and do not go back and a
    Redis server that does as documented and starts empty, the slots granted,
    not released and still inside their lease are at most the capacity. *)
Theorem slots_within_capacity lease cap connection_id t events (db : DB) :
  0 < lease → 0 ≤ cap → contents db = ∅ → in_time t events →
  let held := (lease_run lease (slot_key connection_id) cap (db, ∅) events).2 in
  Z.of_nat (size (filter (λ slot, last_time t events - lease < slot.2) held)) ≤ cap.
Proof.
  intros Hlease Hcap Hdb Htime. cbv zeta. rewrite (follows_slot_run _ _ _ _ _ (∅, ∅)) by done.
  apply (slots_ok_bound lease (slot_key connection_id)). apply slot_run_ok; [done|done| |done].
  exists ∅, 0. split; [|split].
  - unfold stored, gone. rewrite decide_True by done. cbn [fst]. by rewrite lookup_empty.
  - by rewrite map_size_empty.
  - intros token s H. cbn in H. by rewrite lookup_empty in H.
Qed.
End server.

(** * Waiting for a slot *)

Definition within_lease (lease now : Z) (m : gmap string Z) : gmap string Z := filter (λ ms, now - lease < ms.2) m.

Section waiting.
Context {DB : Type} `{RS : !RedisServer DB}.

(** The slots taken and inside their lease, if the key holds a sorted set or
    nothing. *)
Definition slots_in (lease now : Z) (k : string) (db : Redis) : option (gmap string Z) :=
  within_lease lease now <$> as_zset (redis_get now k db).

Lemma pexpire_get now k v ms db : 0 < ms → redis_get now k db = Some v →
  redis_get now k (PEXPIRE now k ms db).1 = Some v.
Proof.
  intros Hms Hv. unfold PEXPIRE. cbn [fst]. rewrite Hv. unfold redis_get. rewrite lookup_insert_eq.
  unfold expired. cbn [re_expires]. by rewrite (proj2 (Z.leb_gt _ _)) by lia.
Qed.

(** One attempt: it is granted exactly when the slots taken are fewer than the
    capacity, and then it has taken one. *)
Lemma acquire_attempt lease cap now k token db :
  match slots_in lease now k db with
  | None => (acquire_script lease k cap now token db).2 = None
  | Some m =>
      (acquire_script lease k cap now token db).2 = Some (Z.of_nat (size m) <? cap)
      ∧ (0 < lease → slots_in lease now k (acquire_script lease k cap now token db).1
                     = Some (if Z.of_nat (size m) <? cap then <[token := now]> m else m))
  end.
Proof.
  unfold slots_in, acquire_script, live_count. pose proof (put_zset_get now k) as Hput.
  destruct (as_zset (redis_get now k db)) as [z|] eqn:Hz.
  2: { unfold mbind, script_bind. cbn. unfold ZREMRANGEBYSCORE, read_zset, mbind, script_bind. by rewrite Hz. }
  cbn [fmap option_fmap option_map]. set (m := within_lease lease now z).
  assert (Hidem : within_lease lease now m = m)
    by (apply map_filter_id; intros i x [_ H]%map_lookup_filter_Some; exact H).
  set (db1 := redis_put now k m RZset db). specialize (Hput m db). fold db1 in Hput.
  assert (Hcount : (call now (ZRemRangeByScore k (now - lease)) ≫= λ _, call now (ZCard k)) db
                   = (db1, Some (Z.of_nat (size m)))).
  { rewrite (script_bind_ok _ _ db db1 tt).
    - cbn [call documented_server documented]. unfold ZCARD, read_zset, mbind, script_bind. by rewrite Hput.
    - cbn [call documented_server documented]. unfold ZREMRANGEBYSCORE, read_zset, mbind, script_bind. by rewrite Hz. }
  rewrite (script_bind_ok _ _ _ _ _ Hcount). destruct (Z.of_nat (size m) <? cap).
  2: { split; [done|]. intros _. cbn [mret script_ret fst]. rewrite Hput. cbn. by rewrite Hidem. }
  unfold enter_one. set (m' := <[token := now]> m). set (db2 := redis_put now k m' RZset db1).
  assert (Hadd : call now (ZAdd k now token) db1 = (db2, Some tt)).
  { cbn [call documented_server documented]. unfold ZADD, read_zset, mbind, script_bind. by rewrite Hput. }
  assert (Hrun : (call now (ZAdd k now token) ≫= λ _, call now (PExpire k (two_leases_ms lease))) db1
                 = ((PEXPIRE now k (two_leases_ms lease) db2).1, Some tt))
    by (by rewrite (script_bind_ok _ _ _ _ _ Hadd)).
  rewrite (script_bind_ok _ _ _ _ _ Hrun). split; [done|]. intros Hlease. cbn [mret script_ret fst].
  rewrite (pexpire_get now k (RZset m')).
  - cbn. f_equal. apply map_filter_id. intros i x. unfold m'.
    intros [[<- <-]|[_ [_ Hx]%map_lookup_filter_Some]]%lookup_insert_Some; [cbn; lia|exact Hx].
  - pose proof (two_leases_enough lease Hlease). lia.
  - unfold db2. apply put_get. unfold m'. apply insert_non_empty.
Qed.

Lemma server_attempt lease cap now k token (db : DB) :
  match slots_in lease now k (contents db) with
  | None => (acquire_script lease k cap now token db).2 = None
  | Some m =>
      (acquire_script lease k cap now token db).2 = Some (Z.of_nat (size m) <? cap)
      ∧ (0 < lease → slots_in lease now k (contents (acquire_script lease k cap now token db).1)
                     = Some (if Z.of_nat (size m) <? cap then <[token := now]> m else m))
  end.
Proof.
  pose proof (acquire_attempt lease cap now k token (contents db)) as H.
  by rewrite <- (follows_acquire lease k cap now token db) in H.
Qed.

(** The database an attempt finds: what the ones before it and everyone else
    left. *)
Fixpoint db_at (lease cap : Z) (k token : string) (meanwhile : nat → DB → DB) (readings : list reading)
  (db : DB) (j : nat) : DB :=
  match j, readings with
  | S j, r :: readings =>
      db_at lease cap k token (λ i, meanwhile (S i)) readings
        (meanwhile 0%nat (acquire_script lease k cap (rd_wall r) token db).1) j
  | _, _ => db
  end.

(** C20. An acquisition ends, whatever other requests and replicas do to the slots
    between its attempts: it tries at least once and, at the latest at the first
    reading past its deadline, has an answer. Every attempt before the last was
    in time, reached the server and found all slots taken. The last decides: with
    fewer slots taken than the capacity it takes one and returns its token; with
    all taken and the deadline past it times out; and if the server cannot be
    reached, or the key holds something else, it does what the deployment chose
    for an outage. *)
Theorem acquire_ends_by_deadline lease fail_open connection_id cap deadline token readings n r :
  ∀ meanwhile (db : DB),
  readings !! n = Some r → deadline ≤ rd_monotonic r →
  let k := slot_key connection_id in
  let found j rj := slots_in lease (rd_wall rj) k (contents (db_at lease cap k token meanwhile readings db j)) in
  let '(db', answer) := redis_acquire lease fail_open connection_id cap deadline token meanwhile readings db in
  ∃ j rj, (j ≤ n)%nat ∧ readings !! j = Some rj
    ∧ (∀ i ri, (i < j)%nat → readings !! i = Some ri →
         rd_up ri = true ∧ rd_monotonic ri < deadline
         ∧ ∃ m, found i ri = Some m ∧ cap ≤ Z.of_nat (size m))
    ∧ match (if rd_up rj then found j rj else None) with
      | None => answer = Some (if fail_open then Ok FAIL_OPEN_TOKEN else Raise (BuiltinError "RedisError"))
      | Some m =>
          (Z.of_nat (size m) < cap ∧ answer = Some (Ok token)
             ∧ (0 < lease → slots_in lease (rd_wall rj) k (contents db') = Some (<[token := rd_wall rj]> m)))
          ∨ (cap ≤ Z.of_nat (size m) ∧ deadline ≤ rd_monotonic rj
             ∧ answer = Some (Raise (BuiltinError "TimeoutError")))
      end.
Proof.
  revert n. induction readings as [|r0 readings IH]; intros n meanwhile db Hn Hdl; [done|].
  cbn [redis_acquire]. cbv zeta. set (k := slot_key connection_id).
  pose proof (server_attempt lease cap (rd_wall r0) k token db) as Ha.
  unfold reply. destruct (rd_up r0) eqn:Hup.
  2: { exists 0%nat, r0. rewrite Hup. split_and!; [lia|done|intros; lia|done]. }
  destruct (acquire_script lease k cap (rd_wall r0) token db) as [db1 got] eqn:E. cbn [fst snd] in Ha.
  destruct (slots_in lease (rd_wall r0) k (contents db)) as [m|] eqn:Hm.
  2: { subst got. exists 0%nat, r0. rewrite Hup. cbn [db_at]. rewrite Hm. split_and!; [lia|done|intros; lia|done]. }
  destruct Ha as [-> Hafter]. destruct (Z.ltb_spec (Z.of_nat (size m)) cap) as [Hlt|Hge].
  { exists 0%nat, r0. rewrite Hup. cbn [db_at]. rewrite Hm. split_and!; [lia|done|intros; lia|left; by split_and!]. }
  destruct (Z.leb_spec deadline (rd_monotonic r0)) as [Hpast|Hyet].
  { exists 0%nat, r0. rewrite Hup. cbn [db_at]. rewrite Hm. split_and!; [lia|done|intros; lia|right; by split_and!]. }
  destruct n as [|n]; [injection Hn as ->; lia|].
  specialize (IH n (λ i, meanwhile (S i)) (meanwhile 0%nat db1) Hn Hdl). cbv zeta in IH. fold k in IH.
  destruct (redis_acquire _ _ _ _ _ _ _ _ _) as [db' answer]. destruct IH as (j & rj & Hj & Hrj & Hbefore & Hlast).
  exists (S j), rj. split; [lia|]. split; [done|]. cbn [db_at]. rewrite E. cbn [fst]. split; [|exact Hlast].
  intros [|i] ri Hi Hri.
  - injection Hri as <-. split_and!; [done|done|]. exists m. by split.
  - apply (Hbefore i); [lia|done].
Qed.
End waiting.

(** * The queue *)

Lemma queue_keys_differ connection_id principal : queue_key connection_id ≠ queue_principal_key connection_id principal.
Proof.
  unfold queue_key, queue_principal_key. intros H. apply (f_equal String.length) in H. rewrite !string_length_app in H. cbn in H. lia.
Qed.

(** The waiters [m] are stored under [k]. *)
Definition queued (now : Z) (k : string) (m : gmap string Z) (db : Redis) : Prop := ∃ d, stored now d k RZset m db.

Definition waiters (m : gmap string Z) : Z := Z.of_nat (size m).

Section queue.
Context (lease : Z) (lease_positive : 0 < lease) (connection_id : string) (now : Z).
Implicit Types (db : Redis) (m pm : gmap string Z).

Lemma queued_same k m db db' : (∀ k', k' = k → db' !! k' = db !! k') → queued now k m db → queued now k m db'.
Proof. intros Hk [d H]. exists d. eapply stored_eq; [|exact H]. by rewrite Hk. Qed.

Lemma queue_enter_run principal mg mp token m pm db :
  queued now (queue_key connection_id) m db →
  (∀ p, principal = Some p → queued now (queue_principal_key connection_id p) pm db) →
  let live := within_lease lease now m in let plive := within_lease lease now pm in
  let full := cap_met mg (waiters live) || is_some principal && cap_met mp (waiters plive) in
  let entered (s : gmap string Z) := if full then s else <[token := now]> s in
  ∃ db', queue_enter_script lease (queue_key connection_id) (principal_key connection_id principal) mg mp now token db
           = (db', Some (negb full, if full then waiters live else waiters live + 1))
    ∧ queued now (queue_key connection_id) (entered live) db'
    ∧ (∀ p, principal = Some p → queued now (queue_principal_key connection_id p) (entered plive) db').
Proof using lease_positive.
  intros [d Hm] Hpm live plive full entered. unfold queue_enter_script.
  destruct (live_count_run lease _ now d m db Hm) as (db1 & Hrun1 & Hm1 & Hsame1).
  rewrite (script_bind_ok _ _ _ _ _ Hrun1). change (filter _ m) with live in *. change (Z.of_nat (size live)) with (waiters live).
  unfold principal_key. destruct principal as [p|]; cbn [fmap option_fmap option_map is_some andb] in *.
  - pose proof (queue_keys_differ connection_id p) as Hdiff. destruct (Hpm p eq_refl) as [pd Hp].
    assert (Hp1 : stored now pd (queue_principal_key connection_id p) RZset pm db1) by (eapply stored_eq; [|exact Hp]; by rewrite Hsame1).
    destruct (live_count_run lease _ now pd pm db1 Hp1) as (db2 & Hrun2 & Hp2 & Hsame2).
    rewrite (script_bind_ok _ _ _ _ _ Hrun2). change (filter _ pm) with plive in *. change (Z.of_nat (size plive)) with (waiters plive).
    assert (Hm2 : stored now d (queue_key connection_id) RZset live db2) by (eapply stored_eq; [|exact Hm1]; by rewrite Hsame2).
    assert (Hfull : ∀ b, full = b → b = true → ∃ db', (db2, Some (false, waiters live)) = (db', Some (negb full, if full then waiters live else waiters live + 1))
       ∧ queued now (queue_key connection_id) (entered live) db'
       ∧ (∀ p', Some p = Some p' → queued now (queue_principal_key connection_id p') (entered plive) db')).
    { intros b Hb ->. exists db2. subst entered. cbn beta. rewrite Hb. split; [done|]. split; [by exists d|]. intros p' [= <-]. by exists pd. }
    destruct (cap_met mg (waiters live)) eqn:Hg; [by apply (Hfull true)|].
    destruct (cap_met mp (waiters plive)) eqn:Hpo; [by apply (Hfull true)|]. clear Hfull.
    assert (Hf : full = false) by reflexivity. subst entered. cbn beta. rewrite Hf.
    destruct (enter_one_run lease lease_positive _ now d live token db2 Hm2) as (db3 & Hrun3 & Hm3 & Hsame3).
    rewrite (script_bind_ok _ _ _ _ _ Hrun3).
    assert (Hp3 : stored now pd (queue_principal_key connection_id p) RZset plive db3) by (eapply stored_eq; [|exact Hp2]; by rewrite Hsame3).
    destruct (enter_one_run lease lease_positive _ now pd plive token db3 Hp3) as (db4 & Hrun4 & Hp4 & Hsame4).
    rewrite (script_bind_ok _ _ _ _ _ Hrun4). exists db4. split; [done|]. split.
    + eexists. eapply stored_eq; [|exact Hm3]. by rewrite Hsame4.
    + intros p' [= <-]. by eexists.
  - rewrite (script_bind_ok (mret 0) _ db1 db1 0) by done. subst full entered. cbn beta. rewrite orb_false_r.
    destruct (cap_met mg (waiters live)).
    { exists db1. split; [done|]. split; [by exists d|done]. }
    destruct (enter_one_run lease lease_positive _ now d live token db1 Hm1) as (db2 & Hrun2 & Hm2 & _).
    rewrite (script_bind_ok _ _ _ _ _ Hrun2). exists db2. split; [done|]. split; [by eexists|done].
Qed.

Lemma remove_run k m token db : queued now k m db →
  ∃ db', call now (ZRem k token) db = (db', Some tt) ∧ queued now k (delete token m) db' ∧ ∀ k', k ≠ k' → db' !! k' = db !! k'.
Proof.
  intros [d Hm]. rewrite (ZREM_run _ _ _ _ _ Hm). eexists. split; [done|]. split.
  - exists d. eapply stored_put; [exact Hm|]. intros ->. by rewrite delete_empty.
  - intros k' Hne. by rewrite redis_put_ne.
Qed.

Lemma queue_leave_run principal token m pm db :
  queued now (queue_key connection_id) m db →
  (∀ p, principal = Some p → queued now (queue_principal_key connection_id p) pm db) →
  ∃ db', queue_leave_script (queue_key connection_id) (principal_key connection_id principal) now token db
           = (db', Some (waiters (delete token m)))
    ∧ queued now (queue_key connection_id) (delete token m) db'
    ∧ (∀ p, principal = Some p → queued now (queue_principal_key connection_id p) (delete token pm) db').
Proof.
  intros Hm Hpm. unfold queue_leave_script. destruct (remove_run _ m token db Hm) as (db1 & Hrun1 & Hm1 & Hsame1).
  rewrite (script_bind_ok _ _ _ _ _ Hrun1). unfold principal_key.
  destruct principal as [p|]; cbn [fmap option_fmap option_map].
  - pose proof (queue_keys_differ connection_id p) as Hdiff.
    assert (Hp1 : queued now (queue_principal_key connection_id p) pm db1).
    { eapply queued_same; [|by apply Hpm]. intros k' ->. by apply Hsame1. }
    destruct (remove_run _ pm token db1 Hp1) as (db2 & Hrun2 & Hp2 & Hsame2). rewrite (script_bind_ok _ _ _ _ _ Hrun2).
    assert (Hm2 : queued now (queue_key connection_id) (delete token m) db2).
    { eapply queued_same; [|exact Hm1]. intros k' ->. by apply Hsame2. }
    destruct Hm2 as [d Hm2]. rewrite (ZCARD_run _ _ _ _ _ Hm2). exists db2. split; [done|]. split; [by exists d|]. by intros p' [= <-].
  - rewrite (script_bind_ok (mret tt) _ db1 db1 tt) by done. destruct Hm1 as [d Hm1]. rewrite (ZCARD_run _ _ _ _ _ Hm1).
    exists db1. split; [done|]. split; [by exists d|done].
Qed.
End queue.

Section queue_server.
Context {DB : Type} `{RS : !RedisServer DB}.

Lemma follows_queue_enter lease k pk mg mp now token :
  follows (DB := DB) (queue_enter_script lease k pk mg mp now token) (queue_enter_script lease k pk mg mp now token).
Proof.
  unfold queue_enter_script. apply follows_bind; [apply follows_live_count|intros global].
  apply follows_bind; [destruct pk; [apply follows_live_count|apply follows_ret]|intros principal].
  destruct (cap_met mg global); [apply follows_ret|]. destruct (_ && _); [apply follows_ret|].
  apply follows_bind; [apply follows_enter_one|intros _].
  apply follows_bind; [destruct pk; [apply follows_enter_one|apply follows_ret]|intros _; apply follows_ret].
Qed.

Lemma follows_queue_leave k pk now token :
  follows (DB := DB) (queue_leave_script k pk now token) (queue_leave_script k pk now token).
Proof.
  unfold queue_leave_script. apply follows_bind; [auto with redis_db|intros _].
  apply follows_bind; [destruct pk; auto with redis_db|intros _; auto with redis_db].
Qed.

(** Queue admission is exact: on a server that answers and does as documented,
    a waiter is turned away exactly when the connection's waiters inside their
    lease have reached the global cap, or the caller's the per-principal one.
    Admitted, it is added to both sets and told the depth it made; turned away,
    it is in neither; and leaving gives back the place and the depth before. *)
Theorem queue_admission_exact lease fail_open connection_id principal mg mp token now mono mono' m pm (db : DB) :
  0 < lease → token ≠ FAIL_OPEN_TOKEN →
  queued now (queue_key connection_id) m (contents db) →
  (∀ p, principal = Some p → queued now (queue_principal_key connection_id p) pm (contents db)) →
  m !! token = None → pm !! token = None →
  let live := within_lease lease now m in let plive := within_lease lease now pm in
  let full := cap_met mg (waiters live) || is_some principal && cap_met mp (waiters plive) in
  let entered (s : gmap string Z) := if full then s else <[token := now]> s in
  let '(db', r) := redis_enter_queue lease fail_open connection_id principal mg mp token (MkReading now mono true) db in
  r = Ok (if full then None else Some (token, waiters live + 1))
  ∧ queued now (queue_key connection_id) (entered live) (contents db')
  ∧ (∀ p, principal = Some p → queued now (queue_principal_key connection_id p) (entered plive) (contents db'))
  ∧ let '(db'', depth) := redis_leave_queue connection_id principal token (MkReading now mono' true) db' in
    depth = waiters live ∧ queued now (queue_key connection_id) live (contents db'')
    ∧ ∀ p, principal = Some p → queued now (queue_principal_key connection_id p) plive (contents db'').
Proof.
  intros Hlease Htok Hm Hpm Hfresh Hpfresh live plive full entered. unfold redis_enter_queue. cbn [rd_up rd_wall reply].
  pose proof (follows_queue_enter lease (queue_key connection_id) (principal_key connection_id principal) mg mp now token db) as Hf.
  destruct (queue_enter_run lease Hlease connection_id now principal mg mp token m pm _ Hm Hpm) as (db1 & Hrun & Hm1 & Hp1).
  fold live plive in Hrun, Hm1, Hp1. fold full in Hrun, Hm1, Hp1. fold (entered live) in Hm1. fold (entered plive) in Hp1.
  destruct (queue_enter_script lease _ _ mg mp now token db) as [db' r]. rewrite Hrun in Hf. cbn [fst snd] in Hf. injection Hf as <- ->.
  assert (Hback : ∀ s, s !! token = None → delete token (entered (within_lease lease now s)) = within_lease lease now s).
  { intros s Hs. assert (Hn : within_lease lease now s !! token = None) by (apply map_lookup_filter_None; by left).
    subst entered. cbn beta. destruct full; [by apply delete_id|by rewrite delete_insert_id]. }
  split; [by destruct full|]. split; [done|]. split; [done|].
  unfold redis_leave_queue. rewrite bool_decide_eq_false_2 by done. cbn [rd_up rd_wall reply].
  pose proof (follows_queue_leave (queue_key connection_id) (principal_key connection_id principal) now token db') as Hf.
  destruct (queue_leave_run connection_id now principal token _ _ _ Hm1 Hp1) as (db2 & Hrun2 & Hm2 & Hp2).
  destruct (queue_leave_script _ _ now token db') as [db'' depth]. rewrite Hrun2 in Hf. cbn [fst snd] in Hf. injection Hf as <- ->.
  fold live in Hback. unfold live, plive in *. rewrite !Hback in * by done. by split_and!.
Qed.
End queue_server.

(** * Concrete replicas *)

#[local] Existing Instance documented_server.

(** Two replicas share one slot; the lease is a second. *)
Definition rivals : list lease_event :=
  [Try "r1" 0; Try "r2" (5 * 10 ^ 8); Leave "r1" (6 * 10 ^ 8); Try "r2" (7 * 10 ^ 8); Try "r1" (9 * 10 ^ 8)].

Lemma slots_within_capacity_witness :
  let held := (lease_run (10 ^ 9) (slot_key "hr") 1 (∅ : Redis, ∅) rivals).2 in
  Z.of_nat (size (filter (λ slot, last_time 0 rivals - 10 ^ 9 < slot.2) held)) ≤ 1
  ∧ held = {["r2" := 7 * 10 ^ 8]}.
Proof.
  intros held. split; [apply (slots_within_capacity (10 ^ 9) 1 "hr" 0 rivals (∅ : Redis))|vm_compute; reflexivity];
    [lia|lia|reflexivity|repeat split; vm_compute; discriminate].
Defined.

(** The lease is what bounds the slots, not the queries: one that outlives its
    lease keeps running while another holds its slot. *)
Lemma lease_can_be_outlived :
  map_to_list (lease_run (10 ^ 9) (slot_key "hr") 1 (∅ : Redis, ∅) [Try "r1" 0; Try "r2" (2 * 10 ^ 9)]).2
    = [("r1", 0); ("r2", 2 * 10 ^ 9)].
Proof. vm_compute. reflexivity. Qed.

(** A database whose only slot is taken. *)
Definition one_taken : Redis := (acquire_script (10 ^ 9) (slot_key "hr") 1 0 "r1" ∅).1.

(** [r1] leaves and [r3] takes the slot before the second attempt of [r2]. *)
Definition passed_over (i : nat) (db : Redis) : Redis :=
  if bool_decide (i = 0%nat)
  then (acquire_script (10 ^ 9) (slot_key "hr") 1 2 "r3" (call 2 (ZRem (slot_key "hr") "r1") db).1).1
  else db.

Definition three_polls : list reading := [MkReading 1 1 true; MkReading 3 2 true; MkReading 5 4 true].

Lemma acquire_ends_by_deadline_witness :
  (redis_acquire (10 ^ 9) true "hr" 1 3 "r2" passed_over three_polls one_taken).2
    = Some (Raise (BuiltinError "TimeoutError")).
Proof.
  pose proof (acquire_ends_by_deadline (10 ^ 9) true "hr" 1 3 "r2" three_polls 2 (MkReading 5 4 true)
    passed_over one_taken eq_refl ltac:(vm_compute; discriminate)) as H. cbv zeta in H.
  destruct (redis_acquire (10 ^ 9) true "hr" 1 3 "r2" passed_over three_polls one_taken) as [db' answer].
  destruct H as (j & rj & Hj & Hrj & _ & Hlast).
  do 3 (destruct j as [|j]; [injection Hrj as <-; vm_compute in Hlast; destruct Hlast as [(Hlt & _)|(_ & Hdl & Ha)];
    [discriminate Hlt|first [exact Ha|destruct Hdl; reflexivity]]|]). lia.
Defined.

Lemma queue_admission_exact_witness :
  let m : gmap string Z := {["w1" := 0]} in
  let db : Redis := {[queue_key "hr" := MkRedisEntry (RZset m) (Some (2 * 10 ^ 9))]} in
  (redis_enter_queue (10 ^ 9) true "hr" None (Some 1) None "w2" (MkReading 5 5 true) db).2 = Ok None
  ∧ (redis_enter_queue (10 ^ 9) true "hr" None (Some 2) None "w2" (MkReading 5 5 true) db).2 = Ok (Some ("w2", 2)).
Proof.
  intros m db.
  pose proof (λ cap, queue_admission_exact (10 ^ 9) true "hr" None (Some cap) None "w2" 5 5 5 m ∅ db) as H.
  assert (Hall : ∀ cap, let '(db', r) := redis_enter_queue (10 ^ 9) true "hr" None (Some cap) None "w2" (MkReading 5 5 true) db in
    r = Ok (if (0 <=? cap) && (cap <=? 1) then None else Some ("w2", 2))).
  { intros cap. specialize (H cap). cbv zeta in H. destruct (redis_enter_queue _ _ _ _ _ _ _ _ _) as [db' r].
    destruct H as [-> _]; [reflexivity|discriminate| |discriminate|reflexivity|reflexivity|].
    - exists (2 * 10 ^ 9). split; reflexivity.
    - cbn [is_some andb]. rewrite orb_false_r. reflexivity. }
  split.
  - specialize (Hall 1). destruct (redis_enter_queue _ _ _ _ _ _ _ _ _) as [db' r]. exact Hall.
  - specialize (Hall 2). destruct (redis_enter_queue _ _ _ _ _ _ _ _ _) as [db' r]. exact Hall.
Defined.

(** The key of a principal's waiters on a connection can be that of another
    connection's: the separator is not escaped. *)
Theorem queue_keys_collide : queue_principal_key "hr" "payroll" = queue_key "hr:payroll".
Proof. reflexivity. Qed.

(** The two keys of the queue scripts hash to different slots of a cluster. *)
Theorem queue_keys_span_slots :
  hashed_part (queue_key "hr") ≠ hashed_part (queue_principal_key "hr" "alice").
Proof. vm_compute. discriminate. Qed.
