(* ===== verification/ReadService.v ===== *)
(** The one seam every read goes through: [execution/service.py]. A read is
    admitted (quota, slot), validated, compiled, estimated, approved and charged
    before its statement reaches the database; its rows are capped and one audit
    event says what happened. What time and other tasks may change meanwhile, the
    live registry above all, is an argument per moment. *)
From stdpp Require Import pretty.
From S2P Require Export JsonText Statement SchemaFacts Approval QueryShape Quota Disclosure Concurrency Effects.
Local Open Scope Z_scope.

(** * Rows *)

(** A value of a row: text, something [json.dumps] knows, or something it writes
    as [str] of it. *)
Inductive cell := CStr (s : string) | CJson (v : json) | COther (text : string).
Abbreviation row := (list (string * cell)).

Definition clean_row_values (r : row) : row :=
  map (λ '(k, v), (k, match v with CStr s => CStr (strip s) | _ => v end)) r.

Section rows.
Context `{FT : FloatText}.

Definition cell_text (v : cell) : string :=
  match v with
  | CStr s | COther s => json_string ascii_only s
  | CJson v => json_dumps_default v
  end.

(** [json.dumps(row, default=str)]. *)
Definition row_text (r : row) : string :=
  "{" +:+ spaced (map (λ '(k, v), json_string ascii_only k +:+ ": " +:+ cell_text v) r) +:+ "}".

Definition row_bytes (r : row) : Z := Z.of_nat (String.length (row_text r)).

(** The loop of [_cap_response_bytes]: the rows that still fit. *)
Fixpoint cap_rows (max_bytes total : Z) (first : bool) (rows : list row) : list row * bool :=
  match rows with
  | [] => ([], false)
  | r :: rows =>
      let separator_bytes := if first then 0 else 2 in
      if max_bytes <? total + separator_bytes + row_bytes r then ([], true)
      else let '(kept, hit) := cap_rows max_bytes (total + (separator_bytes + row_bytes r)) false rows in
           (r :: kept, hit)
  end.

Definition cap_response_bytes (rows : list row) (max_bytes : Z) : list row * bool :=
  if max_bytes <=? 0 then (rows, false) else cap_rows max_bytes 2 true rows.

(** [json.dumps(rows, default=str)]. *)
Definition rows_text (rows : list row) : string := "[" +:+ spaced (map row_text rows) +:+ "]".
Definition response_size (rows : list row) : Z := Z.of_nat (String.length (rows_text rows)).
End rows.

(** * Moments *)

(** When the registry and policy store are read: a reload may come between. *)
Inductive moment := AtStart | AtCompile | AtScopes | AtSnapshot | AfterSnapshot.

(** What the database makes of a statement: rows, a refusal of the statement
    itself, another driver error; or the call is cancelled while it runs. *)
Inductive read_outcome :=
| DbRows (rows : list row)
| DbRefused
| DbStopped (msg : string)
| DbCancelled.

(** What the service is built with and what it meets. *)
Record ReadEnv := MkReadEnv {
  re_connection_id : string;
  re_principal : option Principal;
  re_template_id : option string;
  re_live : moment → ConnectionResolver;
  (** What schema validation reads: the registry, and the reflection of a table
      over a connection, which is database I/O. *)
  re_registry : ConnectionRegistry;
  re_reflect : string → string → option string → result SaTable;
  re_fingerprint : StructuredQuery → string;
  re_catalog : CatalogStore;
  re_token_key : string;
  re_token_clock : Q;
  (** The concurrency slot, and the session. *)
  re_slot : result unit;
  re_session : result unit;
  re_estimate : sa_stmt → option QueryCostEstimate;
  re_run : sa_stmt → read_outcome;
  (** Whether the dialect can render the statement as text ([_compile_to_text]). *)
  re_text : sa_stmt → result unit;
  (** The limiters' clock when each is asked, and the name of a reservation. *)
  re_reserve_clock : Z;
  re_charge_clock : Z;
  re_record_clock : Z;
  re_fresh : string;
}.

Definition principal_of (env : ReadEnv) : option string := subject <$> re_principal env.

(** * State *)

(** The audit event: what [audit_query] is given of the decision, without times. *)
Record ReadAudit := MkReadAudit {
  ra_operation : string;
  ra_shape : json;
  ra_purpose : option string;
  ra_row_count : option Z;
  ra_response_bytes : option Z;
  ra_truncated : option bool;
  ra_policy_decision : option string;
  ra_error_category : option string;
  ra_rejection : option exn;
  ra_masked_columns : list string;
}.

(** The limiters, every statement handed to the database, and the audit trail. *)
Record ReadState (L B : Type) := MkReadState {
  rs_quota : L;
  rs_budget : B;
  rs_ran : list sa_stmt;
  rs_audit : list ReadAudit;
}.
Arguments MkReadState {L B} _ _ _ _.
Arguments rs_quota {L B} _.
Arguments rs_budget {L B} _.
Arguments rs_ran {L B} _.
Arguments rs_audit {L B} _.

(** The local variables of [execute] its handlers read. *)
Record locals := MkLocals {
  lc_policy : option Policy;
  lc_validated : bool;
  lc_quota : option QuotaReservation;
}.
Definition no_locals : locals := MkLocals None false None.

(** What [except Exception] catches: not a cancellation. *)
Definition is_exception (e : exn) : bool := negb (bool_decide (e = BuiltinError "CancelledError")).

(** [classify_rejection]. *)
Definition classify_rejection (e : exn) : string :=
  match e with
  | QueueFullError _ _ => "queue_full"
  | ConcurrencyLimitError _ | QueueDepthExceededError _ | CapacityTimeoutError _ _ => "concurrency"
  | CostEstimateExceededError _ => "cost_estimate"
  | QuotaExceededError _ _ _ | DisclosureBudgetExceededError _ _ _ => "quota"
  | ApprovalRequiredError _ _ _ => "approval_required"
  | AdHocQueryNotPermittedError _ => "templates_only"
  | PolicyViolationError _ => "policy"
  | ValueError _ | QueryValidationError _ | ConfigValidationError _ => "schema"
  | NotFoundError _ | DatabaseError _ | BuiltinError _ => "db_error"
  end.

Definition error_category (e : exn) : string :=
  match e with NotFoundError _ => "not_found" | _ => classify_rejection e end.

(** [int(x)] of a float: toward zero; an infinity and a NaN raise. *)
Definition int_of_float (f : float64) : result Z :=
  match f with
  | S754_zero _ => Ok 0
  | S754_infinity _ => Raise (BuiltinError "OverflowError")
  | S754_nan => Raise (ValueError "cannot convert float NaN to integer")
  | S754_finite sign m e =>
      let n := if 0 <=? e then Z.pos m * 2 ^ e else Z.pos m / 2 ^ (- e) in
      Ok (if sign then - n else n)
  end.

(** * Resolving connections *)

#[export] Instance actor_eq_dec : EqDecision Actor.
Proof.
  unfold EqDecision, Decision. fix IH 1. intros [s d] [s' d'].
  destruct (decide (s = s')) as [->|]; [|right; congruence].
  destruct d as [a|], d' as [a'|]; try (right; congruence); [|by left].
  destruct (IH a a') as [->|]; [by left|right; congruence].
Defined.
#[export] Instance principal_eq_dec : EqDecision Principal.
Proof. solve_decision. Defined.

(** The distinct connections of the maps, but the primary. *)
Definition secondary_connections (scs : ScopeConnections) (primary : string) : list string :=
  remove_dups (base.filter (λ c, c ≠ primary) (flat_map (λ e, e.2.*2) scs)).

(** [_snapshot_connection_resolver]: each of them read once; another principal,
    or a connection outside the snapshot, is read live. *)
Definition snapshot_resolver (snapshot : dict (ConnectionProfile * Policy)) (mine : option Principal)
  (live : ConnectionResolver) : ConnectionResolver :=
  λ target principal,
  if bool_decide (principal = mine) then
    match dict_get target snapshot with Some found => Ok found | None => live target principal end
  else live target principal.

Definition take_snapshot (live : ConnectionResolver) (principal : option Principal) (ids : list string) :
  result (dict (ConnectionProfile * Policy)) :=
  map_result (λ c, live c principal ≫= λ found, Ok (c, found)) ids.

(** * Validation and compilation *)

Section service.
Context `{CF : CaseFold} `{UP : UrlParser} `{SO : SetOrder} `{DA : DialectAdapter} `{FT : FloatText} `{DG : Digest} `{TP : TokenPrimitives}.

(** What [_validate_and_compile] returns, but the table names and the dialect. *)
Record Compiled := MkCompiled {
  cd_stmt : sa_stmt;
  cd_limit : Z;
  cd_policy : Policy;
  cd_connections : ScopeConnections;
  cd_resolver : ConnectionResolver;
}.

Definition get_policy (env : ReadEnv) (t : moment) : result Policy :=
  re_live env t (re_connection_id env) (re_principal env) ≫= λ '(_, policy), Ok policy.

Definition reject_ad_hoc_query_when_templates_only (env : ReadEnv) (p : Policy) : result unit :=
  raise_if (templates_only (gates p) && negb (is_some (re_template_id env)))
    (AdHocQueryNotPermittedError "This connection accepts curated query templates only.").

Definition statement_env (env : ReadEnv) (p : Policy) (scope_tables : list (scope_path * sa_tables))
  (scs : ScopeConnections) (resolver : ConnectionResolver) : StatementEnv :=
  MkStatementEnv p (re_principal env) (Some (re_connection_id env)) (Some resolver) (Some scs) (Some scope_tables).

Definition validate_and_compile (env : ReadEnv) (q : StructuredQuery) : result Compiled :=
  get_policy env AtCompile ≫= λ policy,
  reject_ad_hoc_query_when_templates_only env policy ≫= λ _,
  validate_structural_caps q policy ≫= λ _,
  resolve_scope_connections (re_live env AtScopes) q (re_connection_id env) (re_principal env) ≫= λ early,
  take_snapshot (re_live env AtSnapshot) (re_principal env) (secondary_connections early (re_connection_id env))
    ≫= λ snapshot,
  let resolver := snapshot_resolver snapshot (re_principal env) (re_live env AfterSnapshot) in
  validate_policy (MkEnforcement (re_live env AfterSnapshot) (Some resolver) (re_connection_id env)
                     (re_principal env) (Some early)) q policy ≫= λ policy,
  validate_schema (re_reflect env) (re_registry env) (re_connection_id env) (re_principal env) resolver q ≫= λ '(tables, scope_tables, scs),
  compile_structured_query (re_live env AfterSnapshot) (statement_env env policy scope_tables scs resolver) tables q
    ≫= λ '(stmt, limit),
  Ok (MkCompiled stmt limit policy scs resolver).

(** * Gates *)

(** The hard cost gate; OBSERVE only records. *)
Definition cost_gate (p : Policy) (estimate : option QueryCostEstimate) : result unit :=
  match estimate with
  | Some e => if cost_estimation_enabled p
              then match cost_estimation_mode (gates p) with ENFORCE => enforce_cost_estimate e p | _ => Ok tt end
              else Ok tt
  | None => Ok tt
  end.

(** [repr] of a connection id: letters, digits, [_] and [-], and the newline its
    pattern lets pass at the end. *)
Fixpoint id_repr_chars (s : string) : string :=
  match s with
  | "" => ""
  | String c s => (if (Ascii.nat_of_ascii c =? 10)%nat then "\n" else String c "") +:+ id_repr_chars s
  end.

(** One sensitivity reason, as text. *)
Definition hit_reason (h : SensitivityHit) : string :=
  "references " +:+ sensitivity_text (hit_label h) +:+ "-labelled column " +:+ hit_key h
  +:+ match hit_connection h with Some cx => " (connection '" +:+ id_repr_chars cx +:+ "')" | None => "" end.

Definition approval_reasons (env : ReadEnv) (c : Compiled) (estimate : option QueryCostEstimate)
  (q : StructuredQuery) : result (list string) :=
  sensitivity_approval_reasons (re_catalog env) q (cd_policy c) (re_connection_id env) (Some (cd_connections c))
    ≫= λ hits,
  Ok (map hit_reason hits
      ++ match estimate with Some e => approval_required_reasons e (cd_policy c) | None => [] end).

(** [_enforce_approval_gate]. *)
Definition enforce_approval_gate (env : ReadEnv) (c : Compiled) (estimate : option QueryCostEstimate)
  (q : StructuredQuery) (token : option string) : result unit :=
  if negb (approval_gate_enabled (cd_policy c)) then Ok tt else
  approval_reasons env c estimate q ≫= λ reasons,
  match reasons with
  | [] => Ok tt
  | _ =>
      let fingerprint := re_fingerprint env q in
      if verify_approval_token (default "" token) fingerprint (re_token_key env) (Some (re_connection_id env))
           (principal_of env) TOKEN_KIND_GRANT (re_token_clock env)
      then Ok tt
      else Raise (ApprovalRequiredError "This query requires human approval before it can run" fingerprint reasons)
  end.

(** * Execution *)

Context {L B : Type} `{QL : QuotaLimiter L} `{DBL : DisclosureBudgetLimiter B}.

Abbreviation call := (eff (ReadState L B * locals)).

Definition set_quota (st : L) : ReadState L B * locals → ReadState L B * locals :=
  λ '(s, l), (MkReadState st (rs_budget s) (rs_ran s) (rs_audit s), l).
Definition set_budget (st : B) : ReadState L B * locals → ReadState L B * locals :=
  λ '(s, l), (MkReadState (rs_quota s) st (rs_ran s) (rs_audit s), l).
Definition add_statement (stmt : sa_stmt) : ReadState L B * locals → ReadState L B * locals :=
  λ '(s, l), (MkReadState (rs_quota s) (rs_budget s) (rs_ran s ++ [stmt]) (rs_audit s), l).
Definition add_audit (e : ReadAudit) : ReadState L B * locals → ReadState L B * locals :=
  λ '(s, l), (MkReadState (rs_quota s) (rs_budget s) (rs_ran s) (rs_audit s ++ [e]), l).
Definition set_locals (f : locals → locals) : ReadState L B * locals → ReadState L B * locals :=
  λ '(s, l), (s, f l).

(** [enforce_query_quota] and [enforce_disclosure_budget], on the state. *)
Definition reserve_quota (env : ReadEnv) (p : Policy) : call (option QuotaReservation) := λ sl,
  let '(st, r) := enforce_query_quota (rs_quota sl.1) p (re_connection_id env) (principal_of env)
                    (re_reserve_clock env) (re_fresh env) in
  (set_quota st sl, r).

Definition charge_budget (env : ReadEnv) (p : Policy) (q : StructuredQuery) : call unit := λ sl,
  let '(st, r) := enforce_disclosure_budget (rs_budget sl.1) q p (re_connection_id env) (principal_of env)
                    (re_charge_clock env) in
  (set_budget st sl, r).

Definition record_bytes_of (env : ReadEnv) (n : Z) : call unit := λ sl,
  (set_quota (record_query_quota_bytes (rs_quota sl.1) (lc_quota sl.2) n (re_record_clock env)) sl, Ok tt).

(** [await session.execute(stmt)]: a statement the database refuses is the
    caller's mistake. *)
Definition run_statement (env : ReadEnv) (stmt : sa_stmt) : call (list row) :=
  modify (add_statement stmt) ≫= λ _,
  match re_run env stmt with
  | DbRows rows => mret rows
  | DbRefused => raise_e (QueryValidationError "the database could not execute this query as expressed")
  | DbStopped msg => raise_e (DatabaseError msg)
  | DbCancelled => raise_e (BuiltinError "CancelledError")
  end.

Definition estimate_for (env : ReadEnv) (c : Compiled) : option QueryCostEstimate :=
  if estimate_needed (cd_policy c) then re_estimate env (cd_stmt c) else None.

(** The gates of the open session, in order, then the statement. *)
Definition gated_rows (env : ReadEnv) (q : StructuredQuery) (token : option string) (c : Compiled) : call (list row) :=
  lift (re_session env) ≫= λ _,
  lift (cost_gate (cd_policy c) (estimate_for env c)) ≫= λ _,
  lift (enforce_approval_gate env c (estimate_for env c) q token) ≫= λ _,
  charge_budget env (cd_policy c) q ≫= λ _,
  run_statement env (cd_stmt c).

(** [scope_connections] at the arm of that position. *)
Definition arm_connections (scs : ScopeConnections) (i : nat) : dict string :=
  scope_table_connection (Some scs) match i with 0%nat => [] | S i => [InArm i] end.

(** [purpose=] of every audit event. *)
Definition audited_purpose (q : StructuredQuery) (p : option Policy) : option string :=
  match p with
  | Some p => match allowed_purposes (access p) with [] => None | _ => purpose q end
  | None => None
  end.

Definition audit_operation (env : ReadEnv) : string :=
  match re_template_id env with
  | Some t => if str_empty t then "execute_structured_query" else "run_query_template"
  | None => "execute_structured_query"
  end.

(** [StructuredQueryResult], without times and ids. *)
Record ReadResult := MkReadResult {
  rr_rows : list row;
  rr_row_count : Z;
  rr_truncated : bool;
  rr_limit : Z;
  rr_offset : Z;
}.

(** The rows of the answer, from those of the database. *)
Definition shaped_rows (c : Compiled) (raw : list row) : list row * bool :=
  let rows := map clean_row_values raw in
  let '(kept, byte_cap_hit) := cap_response_bytes rows (max_response_bytes (disclosure (cd_policy c))) in
  (kept, (cd_limit c <=? Z.of_nat (length rows)) || byte_cap_hit).

Definition masks_env (env : ReadEnv) (c : Compiled) : CompileEnv :=
  MkCompileEnv (cd_policy c) (re_principal env) (Some (re_connection_id env)) (cd_resolver c) [] ∅.

(** The body of the slot. *)
Definition run_admitted (env : ReadEnv) (q : StructuredQuery) (shape : json) (token : option string) : call ReadResult :=
  lift (validate_and_compile env q) ≫= λ c,
  modify (set_locals (λ l, MkLocals (Some (cd_policy c)) true (lc_quota l))) ≫= λ _,
  lift (re_text env (cd_stmt c)) ≫= λ _,
  gated_rows env q token c ≫= λ raw,
  let '(rows, truncated) := shaped_rows c raw in
  let response_bytes := response_size rows in
  record_bytes_of env response_bytes ≫= λ _,
  lift (applied_column_masks (masks_env env c) (arm_connections (cd_connections c)) q) ≫= λ masked,
  modify (add_audit (MkReadAudit (audit_operation env) shape (audited_purpose q (Some (cd_policy c)))
            (Some (Z.of_nat (length rows))) (Some response_bytes) (Some truncated) (Some "allowed") None None masked))
    ≫= λ _,
  mret (MkReadResult rows (Z.of_nat (length rows)) truncated (cd_limit c) (offset q)).

(** The handler of [ConcurrencyLimitError] and its subclasses. *)
Definition capacity_error (p : Policy) (e : exn) : result exn :=
  match e with
  | ConcurrencyLimitError msg | CapacityTimeoutError msg _ | QueueFullError msg _ =>
      int_of_float (concurrency_wait_seconds (execution p)) ≫= λ n, Ok (CapacityTimeoutError msg (Z.max 1 n))
  | QueueDepthExceededError msg =>
      int_of_float (concurrency_wait_seconds (execution p)) ≫= λ n, Ok (QueueFullError msg (Z.max 1 n))
  | e => Ok e
  end.

(** The policy [retry_after_seconds] is read from: the local, narrowed or not. *)
Definition shed {A} (p0 : Policy) (m : call A) : call A :=
  catch m (λ e, ask (λ sl, default p0 (lc_policy sl.2)) ≫= λ p, lift (capacity_error p e) ≫= raise_e).

(** The outer [except Exception]. *)
Definition audit_failure (env : ReadEnv) (q : StructuredQuery) (shape : json) {A} (e : exn) : call A :=
  if is_exception e then
    ask snd ≫= λ l,
    modify (add_audit (MkReadAudit (audit_operation env) shape (audited_purpose q (lc_policy l)) None None None
      (Some (if lc_validated l then "allowed"
             else if bool_decide (error_category e ∈ ["policy"; "schema"; "not_found"; "quota"]) then "denied"
             else "unknown"))
      (Some (error_category e)) (Some e) [])) ≫= λ _,
    raise_e e
  else raise_e e.

Definition run_gated (env : ReadEnv) (q : StructuredQuery) (shape : json) (token : option string)
  (reserved : option QuotaReservation) : call ReadResult :=
  lift (get_policy env AtStart) ≫= λ policy,
  modify (set_locals (λ _, MkLocals (Some policy) false None)) ≫= λ _,
  match reserved with Some r => mret (Some r) | None => reserve_quota env policy end ≫= λ r,
  modify (set_locals (λ l, MkLocals (lc_policy l) (lc_validated l) r)) ≫= λ _,
  shed policy (lift (re_slot env) ≫= λ _, run_admitted env q shape token).

(** [execute]: the state after, the result, and the reservation an approval
    demand hands to a retry. The shape is computed before anything is caught. *)
Definition execute_read (env : ReadEnv) (s : ReadState L B) (q : StructuredQuery) (token : option string)
  (reserved : option QuotaReservation) : ReadState L B * result ReadResult * option QuotaReservation :=
  match normalize_query_shape q with
  | Raise e => (s, Raise e, None)
  | Ok shape =>
      let '((s, l), r) := catch (run_gated env q shape token reserved) (audit_failure env q shape) (s, no_locals) in
      (s, r, lc_quota l)
  end.

(** * Explain and verdict *)

(** [explain]: what would run, from the slot, without a session. *)
Definition explain_read (env : ReadEnv) (q : StructuredQuery) : result Compiled :=
  get_policy env AtStart ≫= λ _, re_slot env ≫= λ _, validate_and_compile env q ≫= λ c,
  re_text env (cd_stmt c) ≫= λ _, Ok c.

Record VerdictResult := MkVerdict {
  vr_allowed : bool;
  vr_reason : option string;
  vr_message : option string;
  vr_plan : option sa_stmt;
}.

Definition not_available : VerdictResult :=
  MkVerdict false (Some "not-available-to-you")
    (Some "This query is not available to you under your effective policy.") None.

Definition verdict_audit (q : StructuredQuery) (shape : json) (p : option Policy) (decision : option string)
  (e : option exn) : ReadAudit :=
  MkReadAudit "query_verdict" shape (audited_purpose q p) None None None decision (error_category <$> e) e [].

Definition verdict_gated (env : ReadEnv) (q : StructuredQuery) (shape : json) : call VerdictResult :=
  lift (get_policy env AtStart) ≫= λ policy,
  modify (set_locals (λ _, MkLocals (Some policy) false None)) ≫= λ _,
  reserve_quota env policy ≫= λ _,
  lift (re_slot env) ≫= λ _,
  match validate_and_compile env q with
  | Raise e =>
      if is_exception e then
        modify (add_audit (verdict_audit q shape (Some policy) (Some "denied") (Some e))) ≫= λ _, mret not_available
      else raise_e e
  | Ok c =>
      (if verdict_include_plan (gates policy) then lift (re_text env (cd_stmt c)) else mret tt) ≫= λ _,
      modify (add_audit (verdict_audit q shape (Some policy) (Some "allowed") None)) ≫= λ _,
      mret (MkVerdict true None None (if verdict_include_plan (gates policy) then Some (cd_stmt c) else None))
  end.

Definition verdict (env : ReadEnv) (s : ReadState L B) (q : StructuredQuery) : ReadState L B * result VerdictResult :=
  match normalize_query_shape q with
  | Raise e => (s, Raise e)
  | Ok shape =>
      let '((s, _), r) := catch (verdict_gated env q shape) (λ e,
        if is_exception e
        then ask snd ≫= λ l, modify (add_audit (verdict_audit q shape (lc_policy l) None (Some e))) ≫= λ _, raise_e e
        else raise_e e) (s, no_locals) in
      (s, r)
  end.

(** * Batches *)

(** [BatchQueryItemResult]: an answer, or an error with what an approval demand
    adds. *)
Record BatchItem := MkBatchItem {
  bi_result : option ReadResult;
  bi_error : option string;
  bi_approval_fingerprint : option string;
  bi_approval_reasons : option (list string);
}.

Definition batch_error_item (e : exn) : BatchItem :=
  let approval := match e with ApprovalRequiredError _ f rs => Some (f, rs) | _ => None end in
  MkBatchItem None (Some (public_error_message e)) (fst <$> approval) (snd <$> approval).

Definition item_or_stop (r : result ReadResult) : result BatchItem :=
  match r with
  | Ok res => Ok (MkBatchItem (Some res) None None None)
  | Raise e => if is_exception e then Ok (batch_error_item e) else Raise e
  end.

(** [_execute_batch_item]: an approval demand gives the resolver one chance, and
    the retry, in what the service then meets ([again]), keeps the reservation. *)
Definition execute_batch_item_read (env again : ReadEnv) (tokens : dict string)
  (resolver : option (StructuredQuery → exn → option string)) (s : ReadState L B) (q : StructuredQuery) :
  ReadState L B * result BatchItem :=
  let '(s, r, reservation) := execute_read env s q (dict_get (re_fingerprint env q) tokens) None in
  match r, resolver with
  | Raise (ApprovalRequiredError m f rs), Some resolve =>
      match resolve q (ApprovalRequiredError m f rs) with
      | Some token =>
          let '(s, r, _) := execute_read again s q (Some token) reservation in (s, item_or_stop r)
      | None => (s, item_or_stop r)
      end
  | _, _ => (s, item_or_stop r)
  end.

(** [execute_many], each query with what its attempts meet. *)
Fixpoint execute_many_read (tokens : dict string) (resolver : option (StructuredQuery → exn → option string))
  (s : ReadState L B) (queries : list (ReadEnv * ReadEnv * StructuredQuery)) :
  ReadState L B * result (list BatchItem) :=
  match queries with
  | [] => (s, Ok [])
  | (env, again, q) :: queries =>
      match execute_batch_item_read env again tokens resolver s q with
      | (s, Ok item) =>
          let '(s, r) := execute_many_read tokens resolver s queries in
          (s, r ≫= λ items, Ok (item :: items))
      | (s, Raise e) => (s, Raise e)
      end
  end.
End service.

(** * Triples *)

(** From [P], [m] returns in [Q] or raises in [R]. *)
Definition triple {S A} (P : S → Prop) (m : eff S A) (Q : A → S → Prop) (R : exn → S → Prop) : Prop :=
  ∀ s, P s → match m s with (s', Ok a) => Q a s' | (s', Raise e) => R e s' end.

Create HintDb triple_db.

Section triples.
Context {S : Type}.

Lemma triple_ret {A} (Q : A → S → Prop) R a : triple (Q a) (mret a) Q R.
Proof. by intros s Hs. Qed.

Lemma triple_bind {A B} (P : S → Prop) (m : eff S A) (Q : A → S → Prop) (f : A → eff S B) (Q' : B → S → Prop) R :
  triple P m Q R → (∀ a, triple (Q a) (f a) Q' R) → triple P (m ≫= f) Q' R.
Proof.
  intros Hm Hf s Hs. specialize (Hm s Hs). unfold mbind, eff_bind. destruct (m s) as [s' [a|e]]; [|done].
  by apply (Hf a).
Qed.

Lemma triple_lift {A} (P : S → Prop) (r : result A) R :
  (∀ e s, P s → R e s) → triple P (lift r) (λ a s, P s ∧ r = Ok a) R.
Proof. intros HR s Hs. cbn. destruct r as [a|e]; [done|by apply HR]. Qed.

Lemma triple_conseq {A} (P P' : S → Prop) (m : eff S A) (Q Q' : A → S → Prop) (R R' : exn → S → Prop) :
  triple P' m Q' R' → (∀ s, P s → P' s) → (∀ a s, Q' a s → Q a s) → (∀ e s, R' e s → R e s) → triple P m Q R.
Proof.
  intros Hm HP HQ HR s Hs. specialize (Hm s (HP s Hs)). destruct (m s) as [s' [a|e]]; [by apply HQ|by apply HR].
Qed.

Lemma triple_modify (P : S → Prop) (f : S → S) (Q : S → Prop) R :
  (∀ s, P s → Q (f s)) → triple P (modify f) (λ _, Q) R.
Proof. intros H s Hs. by apply H. Qed.
End triples.
#[export] Hint Resolve triple_ret triple_lift : triple_db.

(** * What a statement that reaches the database went through *)

Section facts.
Context `{CF : CaseFold} `{UP : UrlParser} `{SO : SetOrder} `{DA : DialectAdapter} `{FT : FloatText} `{DG : Digest} `{TP : TokenPrimitives}.
Context {L B : Type} `{QL : QuotaLimiter L} `{DBL : DisclosureBudgetLimiter B}.
Implicit Types (env : ReadEnv) (q : StructuredQuery) (s : ReadState L B).

(** Every gate in front of a statement, on the state the call started from. *)
Record admitted env s q (token : option string) (reserved : option QuotaReservation) (c : Compiled) : Prop := {
  ad_quota : ∃ policy, get_policy env AtStart = Ok policy
    ∧ (reserved = None → is_ok (enforce_query_quota (rs_quota s) policy (re_connection_id env) (principal_of env)
                                  (re_reserve_clock env) (re_fresh env)).2 = true);
  ad_slot : re_slot env = Ok tt;
  ad_compiled : validate_and_compile env q = Ok c;
  ad_session : re_session env = Ok tt;
  ad_cost e : estimate_for env c = Some e → cost_estimation_enabled (cd_policy c) = true →
    cost_estimation_mode (gates (cd_policy c)) = ENFORCE → cost_estimate_violations e (cd_policy c) = [];
  ad_approval : approval_gate_enabled (cd_policy c) = true →
    approval_reasons env c (estimate_for env c) q = Ok []
    ∨ verify_approval_token (default "" token) (re_fingerprint env q) (re_token_key env)
        (Some (re_connection_id env)) (principal_of env) TOKEN_KIND_GRANT (re_token_clock env) = true;
  ad_budget : (enforce_disclosure_budget (rs_budget s) q (cd_policy c) (re_connection_id env) (principal_of env)
                 (re_charge_clock env)).2 = Ok tt;
}.

Lemma cost_gate_ok p estimate e : cost_gate p estimate = Ok tt → estimate = Some e →
  cost_estimation_enabled p = true → cost_estimation_mode (gates p) = ENFORCE → cost_estimate_violations e p = [].
Proof.
  unfold cost_gate. intros H -> Hon Hmode. rewrite Hon, Hmode in H. unfold enforce_cost_estimate in H.
  apply raise_if_ok, negb_false_iff, Nat.eqb_eq in H. by apply length_zero_iff_nil in H.
Qed.

Lemma approval_gate_passed env c estimate q token : enforce_approval_gate env c estimate q token = Ok tt →
  approval_gate_enabled (cd_policy c) = true →
  approval_reasons env c estimate q = Ok []
  ∨ verify_approval_token (default "" token) (re_fingerprint env q) (re_token_key env)
      (Some (re_connection_id env)) (principal_of env) TOKEN_KIND_GRANT (re_token_clock env) = true.
Proof.
  unfold enforce_approval_gate. intros H Hon. rewrite Hon in H. cbn [negb] in H.
  apply bind_ok in H as (reasons & Hr & H). destruct reasons as [|r rs]; [by left|right].
  by destruct (verify_approval_token _ _ _ _ _ _ _).
Qed.

(** The gates seen so far by a call that has not run anything. *)
Record standing s (st : ReadState L B) : Prop := {
  sd_budget : rs_budget st = rs_budget s;
  sd_ran : rs_ran st = rs_ran s;
  sd_audit : rs_audit st = rs_audit s;
}.

(** How a call in flight may end: nothing was run, or one admitted statement;
    and no event was written. *)
Definition ran_gated env s q token reserved (st : ReadState L B) : Prop :=
  rs_audit st = rs_audit s
  ∧ (rs_ran st = rs_ran s ∨ ∃ c, admitted env s q token reserved c ∧ rs_ran st = rs_ran s ++ [cd_stmt c]).

Lemma standing_gated env s q token reserved st : standing s st → ran_gated env s q token reserved st.
Proof. intros [_ Hr Ha]. split; [done|by left]. Qed.
Hint Resolve standing_gated : core.

Lemma gated_rows_triple env s q token reserved c : 
  (∃ policy, get_policy env AtStart = Ok policy
    ∧ (reserved = None → is_ok (enforce_query_quota (rs_quota s) policy (re_connection_id env) (principal_of env)
                                  (re_reserve_clock env) (re_fresh env)).2 = true)) →
  re_slot env = Ok tt → validate_and_compile env q = Ok c →
  triple (λ sl, standing s sl.1) (gated_rows (L := L) env q token c)
    (λ raw sl, rs_audit sl.1 = rs_audit s ∧ admitted env s q token reserved c
               ∧ rs_ran sl.1 = rs_ran s ++ [cd_stmt c] ∧ re_run env (cd_stmt c) = DbRows raw)
    (λ _ sl, ran_gated env s q token reserved sl.1).
Proof.
  intros Hq Hslot Hc. unfold gated_rows.
  eapply triple_bind; [apply triple_lift; by eauto|intros []].
  eapply triple_bind; [apply triple_lift; intros ?? []; by eauto|intros []].
  eapply triple_bind; [apply triple_lift; intros ?? [[] _]; by eauto|intros []].
  intros [st l] [[[Hst Hsess] Hcost] Happ]. destruct Hst as [Hb Hr Ha]. cbn [fst] in *.
  unfold mbind at 1, eff_bind, charge_budget. cbn [fst]. rewrite Hb.
  destruct (enforce_disclosure_budget (rs_budget s) q (cd_policy c) (re_connection_id env) (principal_of env)
              (re_charge_clock env)) as [b r] eqn:Eb.
  destruct r as [[]|e]; cbn; [|split; [done|by left]].
  assert (Had : admitted env s q token reserved c).
  { split; try done; [intros e; by apply cost_gate_ok|by apply approval_gate_passed|by rewrite Eb]. }
  unfold run_statement, mbind, eff_bind. cbn. rewrite Hr.
  destruct (re_run env (cd_stmt c)); cbn; [done|split; [done|right; by exists c]..].
Qed.

(** The answer to rows the database returned, and its audit event. *)
Definition answer q (c : Compiled) (raw : list row) : ReadResult :=
  let '(rows, truncated) := shaped_rows c raw in
  MkReadResult rows (Z.of_nat (length rows)) truncated (cd_limit c) (offset q).

Definition answer_event env q (shape : json) (c : Compiled) (res : ReadResult) (masked : list string) : ReadAudit :=
  MkReadAudit (audit_operation env) shape (audited_purpose q (Some (cd_policy c))) (Some (rr_row_count res))
    (Some (response_size (rr_rows res))) (Some (rr_truncated res)) (Some "allowed") None None masked.

(** How a call returns: one admitted statement was run, its rows are the answer,
    and one event says so. *)
Record answered_read env s q shape token reserved (res : ReadResult) (st : ReadState L B) : Prop := {
  an_run : ∃ c raw masked, admitted env s q token reserved c ∧ rs_ran st = rs_ran s ++ [cd_stmt c]
    ∧ re_run env (cd_stmt c) = DbRows raw ∧ res = answer q c raw
    ∧ applied_column_masks (masks_env env c) (arm_connections (cd_connections c)) q = Ok masked
    ∧ rs_audit st = rs_audit s ++ [answer_event env q shape c res masked];
}.

Lemma run_admitted_triple env s q shape token reserved :
  (∃ policy, get_policy env AtStart = Ok policy
    ∧ (reserved = None → is_ok (enforce_query_quota (rs_quota s) policy (re_connection_id env) (principal_of env)
                                  (re_reserve_clock env) (re_fresh env)).2 = true)) →
  re_slot env = Ok tt →
  triple (λ sl, standing s sl.1) (run_admitted (L := L) (B := B) env q shape token)
    (λ res sl, answered_read env s q shape token reserved res sl.1)
    (λ _ sl, ran_gated env s q token reserved sl.1).
Proof.
  intros Hq Hslot. unfold run_admitted.
  eapply triple_bind; [apply triple_lift; by eauto|intros c].
  eapply triple_bind.
  { apply (triple_modify _ _ (λ sl, standing s sl.1 ∧ validate_and_compile env q = Ok c)). by intros [st l]. }
  intros _ sl [Hst Hc]. revert sl Hst.
  eapply triple_bind; [apply triple_lift; by eauto|]. intros [] sl [Hst _]. revert sl Hst.
  eapply triple_bind; [by apply gated_rows_triple|]. intros raw.
  destruct (shaped_rows c raw) as [rows truncated] eqn:Es. cbn zeta.
  intros [st l] (Ha & Had & Hr & Hrun). cbn [fst] in *.
  unfold mbind, eff_bind, record_bytes_of, set_quota, lift, modify, add_audit, mret, eff_ret. cbn [fst snd].
  destruct (applied_column_masks _ _ _) as [masked|e] eqn:Em; cbn [fst snd rs_audit rs_ran].
  - split. exists c, raw, masked. unfold answer, answer_event. rewrite Es. cbn. by rewrite Ha.
  - split; [done|right; by exists c].
Qed.

Lemma shed_triple {A} p0 s (m : eff (ReadState L B * locals) A) P Q (R : ReadState L B → Prop) :
  triple P m Q (λ _ sl, R sl.1) → triple P (shed p0 m) Q (λ _ sl, R sl.1).
Proof.
  intros Hm sl Hsl. specialize (Hm sl Hsl). unfold shed, catch. destruct (m sl) as [sl' [a|e]]; [done|].
  unfold mbind, eff_bind, ask, lift, raise_e. by destruct (capacity_error _ e).
Qed.

Lemma run_gated_triple env s q shape token reserved :
  triple (λ sl, sl.1 = s) (run_gated (L := L) (B := B) env q shape token reserved)
    (λ res sl, answered_read env s q shape token reserved res sl.1)
    (λ _ sl, ran_gated env s q token reserved sl.1).
Proof.
  unfold run_gated. eapply triple_bind.
  { apply triple_lift. intros e sl Heq. apply standing_gated. rewrite Heq. by split. }
  intros policy. eapply triple_bind.
  { apply (triple_modify _ _ (λ sl, sl.1 = s ∧ get_policy env AtStart = Ok policy)). by intros [st l]. }
  intros []. eapply (triple_bind _ _ (λ _ sl, standing s sl.1 ∧ ∃ policy, get_policy env AtStart = Ok policy
    ∧ (reserved = None → is_ok (enforce_query_quota (rs_quota s) policy (re_connection_id env) (principal_of env)
                                  (re_reserve_clock env) (re_fresh env)).2 = true))).
  { intros [st l] [Heq Hp]. cbn in Heq. subst st. destruct reserved as [r|]; cbn; [split; [by split|by exists policy]|].
    unfold reserve_quota. cbn [fst].
    destruct (enforce_query_quota (rs_quota s) policy _ _ _ _) as [l' [r|e]] eqn:Eq; cbn; [|split; [done|by left]].
    split; [by split|]. exists policy. split; [done|]. intros _. by rewrite Eq. }
  intros r. eapply triple_bind.
  { apply (triple_modify _ _ (λ sl, standing s sl.1 ∧ ∃ policy, get_policy env AtStart = Ok policy
      ∧ (reserved = None → is_ok (enforce_query_quota (rs_quota s) policy (re_connection_id env) (principal_of env)
                                  (re_reserve_clock env) (re_fresh env)).2 = true))). by intros [st l]. }
  intros []. apply (shed_triple policy s _ _ _ (ran_gated env s q token reserved)).
  eapply triple_bind; [apply triple_lift; intros ?? []; by eauto|intros []].
  intros sl [[Hst Hq] Hslot]. by apply run_admitted_triple.
Qed.

(** What [execute] leaves: an answer with its event; or an error, after nothing
    or one admitted statement, with one event that carries it, unless the call
    was cancelled. *)
Lemma execute_read_spec env s q token reserved : 
  let '(st, r, _) := execute_read (L := L) env s q token reserved in
  match r with
  | Ok res => ∃ shape, normalize_query_shape q = Ok shape ∧ answered_read env s q shape token reserved res st
  | Raise e =>
      (rs_ran st = rs_ran s ∨ ∃ c, admitted env s q token reserved c ∧ rs_ran st = rs_ran s ++ [cd_stmt c])
      ∧ (is_exception e = false ∧ rs_audit st = rs_audit s
         ∨ normalize_query_shape q = Raise e ∧ st = s
         ∨ ∃ ev, rs_audit st = rs_audit s ++ [ev] ∧ ra_rejection ev = Some e
                 ∧ ra_row_count ev = None ∧ ra_masked_columns ev = [])
  end.
Proof.
  unfold execute_read. destruct (normalize_query_shape q) as [shape|e] eqn:Eshape; [|split; [by left|by eauto]].
  pose proof (run_gated_triple env s q shape token reserved (s, no_locals) eq_refl) as Hrun.
  unfold catch. destruct (run_gated env q shape token reserved (s, no_locals)) as [[st l] [res|e]]; cbn [fst] in Hrun.
  { by exists shape. }
  destruct Hrun as [Ha Hr]. unfold audit_failure. destruct (is_exception e) eqn:Ee.
  - unfold mbind, eff_bind, ask, modify, raise_e, add_audit. cbn. split; [done|]. right; right. rewrite Ha. by eexists.
  - cbn. split; [done|by left].
Qed.

End facts.
