(* ===== verification/ReadFacts.v ===== *)
(** What [ReadService] promises: nothing reaches the database ungated, what does
    is governed, every read is audited, answers are bounded, and a verdict says
    nothing but yes or no. *)
From S2P Require Export ReadService.
Local Open Scope Z_scope.

Section facts.
Context `{CF : CaseFold} `{UP : UrlParser} `{SO : SetOrder} `{DA : DialectAdapter} `{FT : FloatText} `{DG : Digest} `{TP : TokenPrimitives}.
Context {L B : Type} `{QL : QuotaLimiter L} `{DBL : DisclosureBudgetLimiter B}.
Implicit Types (env : ReadEnv) (q : StructuredQuery) (s : ReadState L B).

(** C5. Nothing reaches the database ungated: a call of [execute] hands over at
    most one statement, and only when, in the states and policies it met, the
    quota admitted the caller, a slot was had, the query was validated and
    compiled, the hard cost gate was passed, every approval trigger was answered
    by a token for this very query, connection and principal, and the disclosure
    budget was charged. *)
Theorem no_ungated_statement env s q token reserved st r kept :
  execute_read env s q token reserved = (st, r, kept) →
  rs_ran st = rs_ran s ∨ ∃ c, admitted env s q token reserved c ∧ rs_ran st = rs_ran s ++ [cd_stmt c].
Proof.
  intros Hrun. pose proof (execute_read_spec env s q token reserved) as H. rewrite Hrun in H.
  destruct r as [res|e]; [|by destruct H]. destruct H as (shape & _ & [(c & raw & masked & Hc & Hr & _)]).
  right. by exists c.
Qed.

(** C6. Every read is audited: an answer leaves exactly one event, which allows
    it and names its row count, its size and the masked columns of the policy it
    was compiled under; an error leaves exactly one event, which carries it,
    unless the call was cancelled (or the shape of the query cannot be taken). *)
Theorem every_read_audited env s q token reserved st r kept :
  execute_read env s q token reserved = (st, r, kept) →
  match r with
  | Ok res => ∃ shape c masked, rs_audit st = rs_audit s ++ [answer_event env q shape c res masked]
      ∧ validate_and_compile env q = Ok c
      ∧ applied_column_masks (masks_env env c) (arm_connections (cd_connections c)) q = Ok masked
  | Raise e => is_exception e = true → is_ok (normalize_query_shape q) = true →
      ∃ ev, rs_audit st = rs_audit s ++ [ev] ∧ ra_rejection ev = Some e
  end.
Proof.
  intros Hrun. pose proof (execute_read_spec env s q token reserved) as H. rewrite Hrun in H.
  destruct r as [res|e].
  - destruct H as (shape & _ & [(c & raw & masked & Hc & Hr & _ & _ & Hm & Ha)]). exists shape, c, masked.
    split; [done|]. split; [|done]. apply Hc.
  - destruct H as [_ [[He _]|[[Hs _]|(ev & Ha & He & _)]]]; intros He' Hs'; [congruence|by rewrite Hs in Hs'|by exists ev].
Qed.

(** ** What is run is governed *)

(** The stages of [_validate_and_compile] an accepted query went through. *)
Lemma validate_and_compile_ok env q c : validate_and_compile env q = Ok c →
  ∃ policy early snapshot tables scope_tables,
    get_policy env AtCompile = Ok policy
    ∧ (templates_only (gates policy) = true → re_template_id env ≠ None)
    ∧ resolve_scope_connections (re_live env AtScopes) q (re_connection_id env) (re_principal env) = Ok early
    ∧ cd_resolver c = snapshot_resolver snapshot (re_principal env) (re_live env AfterSnapshot)
    ∧ validate_policy (MkEnforcement (re_live env AfterSnapshot) (Some (cd_resolver c)) (re_connection_id env)
                         (re_principal env) (Some early)) q policy = Ok (cd_policy c)
    ∧ validate_schema (re_reflect env) (re_registry env) (re_connection_id env) (re_principal env) (cd_resolver c) q = Ok (tables, scope_tables, cd_connections c)
    ∧ compile_structured_query (re_live env AfterSnapshot)
        (statement_env env (cd_policy c) scope_tables (cd_connections c) (cd_resolver c)) tables q
      = Ok (cd_stmt c, cd_limit c).
Proof.
  unfold validate_and_compile. intros (policy & Hp & H)%bind_ok. apply bind_ok_unit in H as [Ht H].
  apply bind_ok in H as (? & _ & H). apply bind_ok in H as (early & He & H).
  apply bind_ok in H as (snapshot & _ & H). cbv zeta in H.
  apply bind_ok in H as (policy' & Hv & H). apply bind_ok in H as ([[tables scope_tables] scs] & Hs & H).
  apply bind_ok in H as ([stmt limit] & Hc & [= <-]).
  exists policy, early, snapshot, tables, scope_tables. cbn. split_and!; try done.
  intros Hon Hn. apply raise_if_ok in Ht. by rewrite Hon, Hn in Ht.
Qed.

(** ** The size of an answer *)

Lemma spaced_snoc l x : l ≠ [] → spaced (l ++ [x]) = spaced l +:+ ", " +:+ x.
Proof.
  induction l as [|y l IH]; [done|]. intros _. destruct l as [|z l].
  - cbn. by rewrite ?string_app_nil_r.
  - change (spaced ((y :: z :: l) ++ [x])) with (y +:+ ", " +:+ spaced ((z :: l) ++ [x])).
    rewrite IH by done. change (spaced (y :: z :: l)) with (y +:+ ", " +:+ spaced (z :: l)).
    by rewrite !string_app_assoc.
Qed.

Lemma response_size_snoc rows r :
  response_size (rows ++ [r]) = response_size rows + (match rows with [] => 0 | _ => 2 end) + row_bytes r.
Proof.
  unfold response_size, rows_text, row_bytes. rewrite map_app. destruct rows as [|r0 rows].
  - cbn [app map]. change (spaced [row_text r]) with (row_text r).
    rewrite !string_length_app. change (String.length (spaced (map row_text []))) with 0%nat. cbn. lia.
  - change (map row_text [r]) with [row_text r]. rewrite spaced_snoc by done. rewrite !string_length_app. cbn [String.length]. lia.
Qed.

Lemma cap_rows_spec max_bytes rows : ∀ kept0 kept hit,
  cap_rows max_bytes (response_size kept0) (match kept0 with [] => true | _ => false end) rows = (kept, hit) →
  (kept0 = [] ∨ response_size kept0 ≤ max_bytes) →
  ∃ dropped, rows = kept ++ dropped ∧ (kept0 ++ kept = [] ∨ response_size (kept0 ++ kept) ≤ max_bytes)
    ∧ (hit = false ↔ dropped = [])
    ∧ ∀ r rest, dropped = r :: rest → max_bytes < response_size ((kept0 ++ kept) ++ [r]).
Proof.
  induction rows as [|r rows IH]; intros kept0 kept hit Hcap H0; cbn [cap_rows] in Hcap.
  { injection Hcap as <- <-. exists []. rewrite !app_nil_r. split_and!; done. }
  assert (Hsize : response_size kept0 + (if match kept0 with [] => true | _ => false end then 0 else 2) + row_bytes r
                  = response_size (kept0 ++ [r])) by (rewrite response_size_snoc; by destruct kept0).
  rewrite Hsize in Hcap. destruct (Z.ltb_spec max_bytes (response_size (kept0 ++ [r]))) as [Hover|Hfits].
  - injection Hcap as <- <-. exists (r :: rows). rewrite app_nil_r. split_and!; try done. by intros ?? [= <- <-].
  - replace (response_size kept0 + ((if match kept0 with [] => true | _ => false end then 0 else 2) + row_bytes r))
      with (response_size (kept0 ++ [r])) in Hcap by lia.
    replace false with (match kept0 ++ [r] with [] => true | _ => false end) in Hcap at 1 by by destruct kept0.
    destruct (cap_rows _ _ _ rows) as [kept' hit'] eqn:Hrec. injection Hcap as <- <-.
    destruct (IH (kept0 ++ [r]) kept' hit' Hrec) as (dropped & -> & Hb & Hhit & Hd); [by right|].
    exists dropped. rewrite <- app_assoc in Hb, Hd. by split_and!.
Qed.

(** The size of an answer: under a positive cap the rows returned are the
    longest prefix of the database's rows whose serialized list fits the cap, or
    none; and the cap counts as hit exactly when a row was left out. *)
Theorem response_capped rows max_bytes kept hit :
  0 < max_bytes → cap_response_bytes rows max_bytes = (kept, hit) →
  ∃ dropped, rows = kept ++ dropped ∧ (kept = [] ∨ response_size kept ≤ max_bytes)
    ∧ (hit = false ↔ dropped = [])
    ∧ ∀ r rest, dropped = r :: rest → max_bytes < response_size (kept ++ [r]).
Proof.
  intros Hmax Hcap. unfold cap_response_bytes in Hcap. destruct (Z.leb_spec max_bytes 0); [lia|].
  apply (cap_rows_spec max_bytes rows []); [exact Hcap|by left].
Qed.

(** ** Verdicts *)

(** C7. A verdict is yes or no: it runs no statement and charges no disclosure
    budget; it says yes exactly for what would compile; a denial is the same
    answer whatever was denied and why; an error is the caller's quota, slot or
    connection, a cancellation, or, of a query it would have allowed and whose
    plan is to be shown, the failure to render the plan: never a reason of
    validation. *)
Theorem verdict_hides_reasons env s q st r :
  is_ok (normalize_query_shape q) = true → verdict env s q = (st, r) →
  rs_ran st = rs_ran s ∧ rs_budget st = rs_budget s
  ∧ (∀ v, r = Ok v → (v = not_available ∧ is_ok (validate_and_compile env q) = false)
      ∨ (vr_allowed v = true ∧ is_ok (validate_and_compile env q) = true))
  ∧ (∀ e, r = Raise e → get_policy env AtStart = Raise e ∨ re_slot env = Raise e
      ∨ (∃ policy, get_policy env AtStart = Ok policy
          ∧ (enforce_query_quota (rs_quota s) policy (re_connection_id env) (principal_of env)
               (re_reserve_clock env) (re_fresh env)).2 = Raise e)
      ∨ (is_exception e = false ∧ validate_and_compile env q = Raise e)
      ∨ (∃ policy c, get_policy env AtStart = Ok policy ∧ verdict_include_plan (gates policy) = true
          ∧ validate_and_compile env q = Ok c ∧ re_text env (cd_stmt c) = Raise e)).
Proof.
  unfold verdict. destruct (normalize_query_shape q) as [shape|]; [|done]. intros _.
  unfold catch, verdict_gated, lift, modify, ask, raise_e, mbind, eff_bind, mret, eff_ret, reserve_quota, set_locals, set_quota, add_audit.
  cbn [fst snd].
  assert (Hexn : ∀ (e e0 : exn), Raise (A := VerdictResult) e = Raise e0 → e0 = e) by congruence.
  destruct (get_policy env AtStart) as [policy|e] eqn:Hp; cbn [fst snd].
  2: { destruct (is_exception e); cbn; intros [= <- <-]; (split_and!; [done..|intros ? <-%Hexn; by left]). }
  destruct (enforce_query_quota (rs_quota s) policy _ _ _ _) as [l' [rv|e]] eqn:Eq; cbn [fst snd].
  2: { destruct (is_exception e); cbn; intros [= <- <-];
       (split_and!; [done..|intros ? <-%Hexn; right; right; left; exists policy; by rewrite Eq]). }
  destruct (re_slot env) as [[]|e]; cbn [fst snd].
  2: { destruct (is_exception e); cbn; intros [= <- <-]; (split_and!; [done..|intros ? <-%Hexn; by right; left]). }
  destruct (validate_and_compile env q) as [c|e]; cbn [fst snd].
  - destruct (verdict_include_plan (gates policy)) eqn:Epl; [destruct (re_text env (cd_stmt c)) as [[]|e] eqn:Et|];
      cbn [fst snd]; try (destruct (is_exception e)); cbn; intros [= <- <-]; cbn; (split_and!; [done|done| |]); try done;
      try (intros v [= <-]; by right).
    1,2: intros ? <-%Hexn; right; right; right; right; by exists policy, c.
  - destruct (is_exception e) eqn:He; cbn; rewrite ?He; cbn; intros [= <- <-]; cbn; (split_and!; [done|done| |]); try done.
    + intros v [= <-]. by left.
    + intros ? <-%Hexn. by right; right; right; left.
Qed.
(** C3. From the question to the database: whatever statement a read runs was
    compiled from a query the policy engine accepted, under the policy it
    returned; and every select of that statement, at any depth, only reads a
    derived table of the statement or carries the row filters, the masks and the
    group floor that the policies governing its scope require. *)
Theorem run_statement_governed `{DL : !DialectLaws DA} `{SV : SqlValues} env s q token reserved st r kept stmt sel :
  execute_read env s q token reserved = (st, r, kept) → rs_ran st = rs_ran s ++ [stmt] → emits stmt sel →
  ∃ c p0 early tables scope_tables,
    validate_and_compile env q = Ok c ∧ get_policy env AtCompile = Ok p0
    ∧ validate_policy (MkEnforcement (re_live env AfterSnapshot) (Some (cd_resolver c)) (re_connection_id env)
                         (re_principal env) (Some early)) q p0 = Ok (cd_policy c)
    ∧ ((∃ columns name cols conditions, sel = plain_select columns (FromComputed name cols) conditions)
       ∨ ∃ tables' path q', governed_select (re_live env AfterSnapshot)
           (statement_env env (cd_policy c) scope_tables (cd_connections c) (cd_resolver c)) tables tables' q path q' sel).
Proof.
  intros Hrun Hst Hs. pose proof (execute_read_spec env s q token reserved) as H. rewrite Hrun in H.
  assert (Hc : ∃ c, validate_and_compile env q = Ok c ∧ stmt = cd_stmt c).
  { assert (Hc : ∃ c, admitted env s q token reserved c ∧ rs_ran st = rs_ran s ++ [cd_stmt c]).
    { destruct r as [res|e].
      - destruct H as (shape & _ & [(c & raw & masked & Hc & Hr & _)]). by exists c.
      - destruct H as [[Hr|Hr] _]; [|done]. rewrite Hr in Hst.
        apply (f_equal length) in Hst. rewrite length_app in Hst. cbn in Hst. lia. }
    destruct Hc as (c & Hc & Hr). exists c. split; [apply Hc|]. rewrite Hr in Hst. by apply app_inj_tail in Hst as [_ ->]. }
  destruct Hc as (c & Hc & ->).
  destruct (validate_and_compile_ok env q c Hc) as (p0 & early & snapshot & tables & scope_tables & Hp & _ & _ & _ & Hv & _ & Hcomp).
  exists c, p0, early, tables, scope_tables. split_and!; [done..|].
  by destruct (compiled_governed _ _ _ _ _ _ _ Hcomp Hs) as (env' & [= <-] & Hg).
Qed.

(** ** Retries *)

(** The quota state a call that reserves nothing leaves. *)
Definition only_recorded env (l0 : L) (r : QuotaReservation) (st : ReadState L B) : Prop :=
  rs_quota st = l0 ∨ ∃ n, rs_quota st = record_query_quota_bytes l0 (Some r) n (re_record_clock env).

Lemma gated_rows_quota env q token c (l0 : L) r :
  triple (λ sl, rs_quota sl.1 = l0 ∧ lc_quota sl.2 = Some r) (gated_rows (L := L) (B := B) env q token c)
    (λ _ sl, rs_quota sl.1 = l0 ∧ lc_quota sl.2 = Some r) (λ _ sl, only_recorded env l0 r sl.1).
Proof.
  unfold gated_rows. eapply triple_bind; [apply triple_lift; intros ?? [? _]; by left|intros []].
  eapply triple_bind; [apply triple_lift; intros ?? [[? _] _]; by left|intros []].
  eapply triple_bind; [apply triple_lift; intros ?? [[[? _] _] _]; by left|intros []].
  intros [st l] [[[[Hq Hl] _] _] _]. cbn [fst snd] in *.
  unfold charge_budget, run_statement, mbind, eff_bind. cbn [fst].
  destruct (enforce_disclosure_budget _ _ _ _ _ _) as [b [[]|e]]; cbn; [|by left].
  destruct (re_run env (cd_stmt c)); cbn; [done|by left..].
Qed.

Lemma run_admitted_quota env q shape token (l0 : L) r :
  triple (λ sl, rs_quota sl.1 = l0 ∧ lc_quota sl.2 = Some r) (run_admitted (L := L) (B := B) env q shape token)
    (λ _ sl, only_recorded env l0 r sl.1) (λ _ sl, only_recorded env l0 r sl.1).
Proof.
  unfold run_admitted. eapply triple_bind; [apply triple_lift; intros ?? [? _]; by left|intros c].
  eapply triple_bind; [apply (triple_modify _ _ (λ sl, rs_quota sl.1 = l0 ∧ lc_quota sl.2 = Some r)); by intros [st l] [[? ?] _]|].
  intros []. eapply triple_bind; [apply triple_lift; intros ?? [? _]; by left|].
  intros [] sl [Hsl _]. revert sl Hsl. eapply triple_bind; [apply gated_rows_quota|]. intros raw.
  destruct (shaped_rows c raw) as [rows truncated]. cbn zeta. intros [st l] [Hq Hl]. cbn [fst snd] in *.
  unfold mbind, eff_bind, record_bytes_of, set_quota, lift, modify, add_audit, mret, eff_ret. cbn [fst snd].
  rewrite Hl, Hq. destruct (applied_column_masks _ _ _); cbn; right; by eexists.
Qed.

(** An approved retry is not charged again: a call that brings the
    reservation of the attempt the approval interrupted leaves the quota as it
    is, but for the response bytes it records against that reservation. *)
Theorem retry_not_recharged env s q token r st res kept :
  execute_read env s q token (Some r) = (st, res, kept) →
  rs_quota st = rs_quota s ∨ ∃ n, rs_quota st = record_query_quota_bytes (rs_quota s) (Some r) n (re_record_clock env).
Proof.
  unfold execute_read. destruct (normalize_query_shape q) as [shape|e]; [|intros [= <- _ _]; by left].
  assert (Hrun : triple (λ sl, rs_quota sl.1 = rs_quota s)
    (run_gated (L := L) (B := B) env q shape token (Some r))
    (λ _ sl, only_recorded env (rs_quota s) r sl.1) (λ _ sl, only_recorded env (rs_quota s) r sl.1)).
  { unfold run_gated. eapply triple_bind; [apply triple_lift; intros ??; by left|intros policy].
    eapply triple_bind; [apply (triple_modify _ _ (λ sl, rs_quota sl.1 = rs_quota s)); by intros [? ?] [? _]|intros []].
    eapply (triple_bind _ _ (λ x sl, rs_quota sl.1 = rs_quota s ∧ x = Some r)); [by intros sl Hsl|intros x].
    eapply triple_bind.
    { apply (triple_modify _ _ (λ sl, rs_quota sl.1 = rs_quota s ∧ lc_quota sl.2 = Some r)). by intros [? ?] [? ->]. }
    intros []. apply (shed_triple policy s _ _ _ (only_recorded env (rs_quota s) r)).
    eapply triple_bind; [apply triple_lift; intros ?? [? _]; by left|intros []].
    intros sl [Hsl _]. by apply run_admitted_quota. }
  specialize (Hrun (s, no_locals) eq_refl). unfold catch.
  destruct (run_gated env q shape token (Some r) (s, no_locals)) as [[st' l] [a|e]]; cbn [fst] in Hrun.
  - by intros [= <- _ _].
  - unfold audit_failure, mbind, eff_bind, ask, modify, raise_e, add_audit.
    destruct (is_exception e); cbn; by intros [= <- _ _].
Qed.
End facts.
