(* ===== verification/ReadSample.v ===== *)
(** A read of a concrete connection, in full: the witnesses of [ReadFacts], and
    what a refusal of an ad hoc query is recorded as. *)
From S2P Require Export ReadFacts.
Local Open Scope Z_scope.

#[local] Existing Instances ascii_casefold once_each postgres_adapter int_values host_parser toy_primitives sample_floats sample_digest.

(** Ids of people are labelled; one request per window, and answers of at most
    40 bytes. *)
Definition read_policy (curated : bool) : Policy :=
  MkPolicy (access tenant_policy) default_write_policy default_caps default_windows (MkDisclosure None None 3600 40)
    (MkExecution 30 8 f64_ten None None false (Some 1) None 60)
    (MkGates None None ENFORCE None None [SENS_PII] false true curated None (mandatory_row_filters (gates tenant_policy))).

Definition read_live (curated : bool) : ConnectionResolver := λ cx _, Ok (sample_profile cx, read_policy curated).

(** The tables the database has. *)
Definition read_reflect (cx name : string) (schema : option string) : result SaTable :=
  match dict_get (casefold name) shop_tables with
  | Some (FromTable t) => Ok t
  | _ => Raise (BuiltinError "NoSuchTableError")
  end.

Definition read_registry : ConnectionRegistry := [("main", sample_profile "main")].

Definition three_rows : list row :=
  [[("id", CJson (JInt 7))]; [("id", CStr " a ")]; [("id", COther "2026-01-01 00:00:00")]; [("id", CJson JNull)]].

Definition read_env (curated : bool) (run : sa_stmt → read_outcome) : ReadEnv :=
  MkReadEnv "main" (Some tenant_principal) None (λ _, read_live curated) read_registry read_reflect (λ _, "fp1")
    [("main", [("orders", MkTableEntry [("id", SENS_PII)] SENS_NONE)])] "key" 1%Q (Ok tt) (Ok tt)
    (λ _, None) run (λ _, Ok tt) 0 0 0 "r1".

Definition read_start : ReadState InProcessQuotaLimiter InProcessDisclosure :=
  MkReadState (MkInProcessQuota ∅) (MkInProcessDisclosure ∅ 0) [] [].

Definition sample_env : ReadEnv := read_env false (λ _, DbRows three_rows).

Definition approved_run := execute_read sample_env read_start tenant_orders (Some toy_token) None.
Definition asked_run := execute_read sample_env read_start tenant_orders None None.

Definition approved_answer : ReadResult :=
  MkReadResult [[("id", CJson (JInt 7))]; [("id", CStr "a")]] 2 true 50 0.

Definition approved_compiled : Compiled :=
  match validate_and_compile sample_env tenant_orders with
  | Ok c => c
  | Raise _ => MkCompiled tenant_stmt 0 default_policy [] no_resolver
  end.

Lemma approved_run_answers :
  approved_run.1.2 = Ok approved_answer ∧ rs_ran approved_run.1.1 = [cd_stmt approved_compiled].
Proof. split; vm_compute; reflexivity. Qed.

(** An unapproved statement is not run, the approved one is. *)
Lemma no_ungated_statement_witness :
  rs_ran asked_run.1.1 = [] ∧ ∃ c, admitted sample_env read_start tenant_orders (Some toy_token) None c
    ∧ rs_ran approved_run.1.1 = [cd_stmt c].
Proof.
  split; [vm_compute; reflexivity|].
  destruct (no_ungated_statement sample_env read_start tenant_orders (Some toy_token) None approved_run.1.1
              approved_run.1.2 approved_run.2) as [H|(c & Hc & H)].
  - vm_compute. reflexivity.
  - apply (f_equal length) in H. vm_compute in H. discriminate.
  - exists c. split; [exact Hc|exact H].
Defined.

Lemma every_read_audited_witness :
  (∃ shape c masked, rs_audit approved_run.1.1 = [answer_event sample_env tenant_orders shape c approved_answer masked])
  ∧ ∃ ev, rs_audit asked_run.1.1 = [ev] ∧ is_some (ra_rejection ev) = true.
Proof.
  split.
  - assert (H := every_read_audited sample_env read_start tenant_orders (Some toy_token) None approved_run.1.1
      (Ok approved_answer) approved_run.2).
    destruct H as (shape & c & masked & H & _); [vm_compute; reflexivity|]. exists shape, c, masked. exact H.
  - assert (H := every_read_audited sample_env read_start tenant_orders None None asked_run.1.1
      asked_run.1.2 asked_run.2).
    destruct asked_run.1.2 as [a|e] eqn:E; [vm_compute in E; discriminate|].
    destruct H as (ev & H & Hr); [vm_compute in E |- *; injection E as <-; reflexivity..|].
    exists ev. split; [exact H|rewrite Hr; reflexivity].
Defined.

Lemma run_statement_governed_witness :
  ∃ c p0 early tables scope_tables,
    validate_policy (MkEnforcement (re_live sample_env AfterSnapshot) (Some (cd_resolver c)) "main"
                       (Some tenant_principal) (Some early)) tenant_orders p0 = Ok (cd_policy c)
    ∧ ((∃ columns name cols conditions,
          sm_select (cd_stmt approved_compiled) = plain_select columns (FromComputed name cols) conditions)
       ∨ ∃ tables' path q', governed_select (re_live sample_env AfterSnapshot)
           (statement_env sample_env (cd_policy c) scope_tables (cd_connections c) (cd_resolver c))
           tables tables' tenant_orders path q' (sm_select (cd_stmt approved_compiled))).
Proof.
  destruct (@run_statement_governed _ _ _ _ _ _ _ _ _ _ _ postgres_laws _ sample_env read_start tenant_orders (Some toy_token) None
              approved_run.1.1 approved_run.1.2 approved_run.2 (cd_stmt approved_compiled)
              (sm_select (cd_stmt approved_compiled))) as (c & p0 & early & tables & scope_tables & _ & _ & Hv & Hg).
  - vm_compute. reflexivity.
  - vm_compute. reflexivity.
  - apply emits_own. left.
  - exists c, p0, early, tables, scope_tables. split; [exact Hv|exact Hg].
Defined.

Lemma response_capped_witness :
  ∃ dropped, map clean_row_values three_rows = rr_rows approved_answer ++ dropped ∧ dropped ≠ [].
Proof.
  destruct (response_capped (map clean_row_values three_rows) 40 (rr_rows approved_answer) true)
    as (dropped & Heq & _ & Hhit & _); [lia|vm_compute; reflexivity|].
  exists dropped. split; [exact Heq|]. intros H. apply Hhit in H. discriminate.
Defined.

(** The batch's second attempt, after the quota of one request is used up. *)
Definition retried_run := execute_read sample_env asked_run.1.1 tenant_orders (Some toy_token) asked_run.2.

Lemma retry_not_recharged_witness :
  is_ok retried_run.1.2 = true
  ∧ is_ok (execute_read sample_env asked_run.1.1 tenant_orders (Some toy_token) None).1.2 = false
  ∧ (rs_quota retried_run.1.1 = rs_quota asked_run.1.1
     ∨ ∃ n, rs_quota retried_run.1.1
         = record_query_quota_bytes (rs_quota asked_run.1.1) (Some (ReservedEntry ("main", "alice") "r1")) n 0).
Proof.
  split; [vm_compute; reflexivity|]. split; [vm_compute; reflexivity|].
  apply (retry_not_recharged sample_env asked_run.1.1 tenant_orders (Some toy_token)
           (ReservedEntry ("main", "alice") "r1") retried_run.1.1 retried_run.1.2 retried_run.2).
  vm_compute. reflexivity.
Defined.

Definition verdict_run := verdict sample_env read_start tenant_orders.
Definition denied_run := verdict (read_env true (λ _, DbRefused)) read_start tenant_orders.

Lemma verdict_hides_reasons_witness :
  (∃ v, verdict_run.2 = Ok v ∧ vr_allowed v = true) ∧ denied_run.2 = Ok not_available ∧ rs_ran denied_run.1 = [].
Proof.
  split; [by eexists; vm_compute|]. split; [vm_compute; reflexivity|].
  destruct (verdict_hides_reasons (read_env true (λ _, DbRefused)) read_start tenant_orders denied_run.1 denied_run.2)
    as [H _]; [vm_compute; reflexivity|vm_compute; reflexivity|exact H].
Defined.

(** A query the connection refuses because it takes curated templates only is a
    policy refusal; [service.py:1068] does not name its category, so that the
    audit calls the decision [unknown]. *)
Theorem templates_only_refusal_is_unknown :
  let '(st, r, _) := execute_read (read_env true (λ _, DbRefused)) read_start tenant_orders None None in
  r = Raise (AdHocQueryNotPermittedError "This connection accepts curated query templates only.")
  ∧ (λ ev, (ra_policy_decision ev, ra_error_category ev)) <$> rs_audit st = [(Some "unknown", Some "templates_only")].
Proof. vm_compute. split; reflexivity. Qed.
