(* ===== verification/Scopes.v ===== *)
(** The scope vocabulary of [core/scopes.py]: the constants, the catalog that
    publishes them and the role bundles. Shown: the catalog lists every constant
    once, a bundle grants only scopes of the catalog, every scope is in a bundle,
    and the bundles keep the duties apart that the code separates. *)
From S2P Require Export Ast.

Definition ADMIN_RELOAD_CONFIG_SCOPE : string := "admin:reload-config".
Definition ADMIN_CONFIG_READ_SCOPE : string := "admin:config:read".
Definition ADMIN_CONFIG_WRITE_SCOPE : string := "admin:config:write".
Definition ADMIN_CONFIG_APPROVE_SCOPE : string := "admin:config:approve".
Definition ADMIN_CONNECTIONS_READ_SCOPE : string := "admin:connections:read".
Definition ADMIN_CONNECTIONS_TEST_SCOPE : string := "admin:connections:test".
Definition ADMIN_OBSERVABILITY_READ_SCOPE : string := "admin:observability:read".
Definition ADMIN_AUDIT_WORM_SEARCH_SCOPE : string := "admin:audit:worm-search".
Definition ADMIN_METRICS_READ_SCOPE : string := "admin:metrics:read".
Definition ADMIN_SHAPES_READ_SCOPE : string := "admin:shapes:read".
Definition CATALOG_GENERATE_SCOPE : string := "catalog:generate".
Definition CATALOG_AUTHOR_SCOPE : string := "catalog:author".
Definition CATALOG_REVIEW_SCOPE : string := "catalog:review".
Definition CATALOG_EDIT_SCOPE : string := "catalog:edit".
Definition CATALOG_APPROVE_SCOPE : string := "catalog:approve".
Definition CATALOG_REJECT_SCOPE : string := "catalog:reject".
Definition CATALOG_PUBLISH_SCOPE : string := "catalog:publish".
Definition CATALOG_ROLLBACK_SCOPE : string := "catalog:rollback".
Definition CATALOG_EXPORT_SCOPE : string := "catalog:export".
Definition CATALOG_DELETE_SCOPE : string := "catalog:delete".
Definition QUERY_APPROVE_SCOPE : string := "query:approve".
Definition QUERY_CANCEL_SCOPE : string := "query:cancel".
Definition ADMIN_IDENTITY_READ_SCOPE : string := "admin:identity:read".
Definition ADMIN_IDENTITY_WRITE_SCOPE : string := "admin:identity:write".

Record ScopeInfo := MkScopeInfo { si_scope : string; si_category : string; si_gates : string }.

Record RoleBundle := MkRoleBundle { rb_name : string; rb_purpose : string; rb_scopes : list string }.

(** What the published metadata, the reference document and the checks share. *)
Definition SCOPE_CATALOG : list ScopeInfo :=
  [MkScopeInfo ADMIN_RELOAD_CONFIG_SCOPE "Admin · Config"
     "Hot-reload connections/policy/catalog from disk";
   MkScopeInfo ADMIN_CONFIG_READ_SCOPE "Admin · Config"
     "Read config-governance versions and history";
   MkScopeInfo ADMIN_CONFIG_WRITE_SCOPE "Admin · Config"
     "Stage/apply/roll back config-governance versions";
   MkScopeInfo ADMIN_CONFIG_APPROVE_SCOPE "Admin · Config"
     "Approve/reject a staged config version (four-eyes; not the author)";
   MkScopeInfo ADMIN_CONNECTIONS_READ_SCOPE "Admin · Connections"
     "Read per-connection operational health/status";
   MkScopeInfo ADMIN_CONNECTIONS_TEST_SCOPE "Admin · Connections"
     "Trigger an immediate live connection probe";
   MkScopeInfo ADMIN_OBSERVABILITY_READ_SCOPE "Admin · Observability"
     "Read aggregated query/rejection/pressure trends";
   MkScopeInfo ADMIN_METRICS_READ_SCOPE "Admin · Observability"
     "Scrape the raw Prometheus /metrics endpoint";
   MkScopeInfo ADMIN_AUDIT_WORM_SEARCH_SCOPE "Admin · Observability"
     "Search the durable WORM (S3 Object Lock) compliance audit archive";
   MkScopeInfo ADMIN_SHAPES_READ_SCOPE "Admin · Observability"
     "Read observed query shapes and draft a template from one";
   MkScopeInfo CATALOG_GENERATE_SCOPE "Catalog governance"
     "Generate draft catalog entries for review";
   MkScopeInfo CATALOG_AUTHOR_SCOPE "Catalog governance"
     "Author a curated catalog entry (quarantined until published)";
   MkScopeInfo CATALOG_REVIEW_SCOPE "Catalog governance"
     "Review pending catalog proposals";
   MkScopeInfo CATALOG_EDIT_SCOPE "Catalog governance"
     "Edit a pending catalog proposal";
   MkScopeInfo CATALOG_APPROVE_SCOPE "Catalog governance"
     "Approve a catalog proposal";
   MkScopeInfo CATALOG_REJECT_SCOPE "Catalog governance"
     "Reject a catalog proposal";
   MkScopeInfo CATALOG_PUBLISH_SCOPE "Catalog governance"
     "Publish an approved catalog proposal live";
   MkScopeInfo CATALOG_ROLLBACK_SCOPE "Catalog governance"
     "Roll back the published catalog to an earlier version";
   MkScopeInfo CATALOG_EXPORT_SCOPE "Catalog governance"
     "Export the catalog (backup / data portability)";
   MkScopeInfo CATALOG_DELETE_SCOPE "Catalog governance"
     "Delete catalog content (retention/deletion)";
   MkScopeInfo QUERY_APPROVE_SCOPE "Query approval"
     "Grant an approval token for a query that tripped the human-in-the-loop gate";
   MkScopeInfo QUERY_CANCEL_SCOPE "Query cancellation"
     "Cancel another principal's in-flight async query (self-cancellation needs no scope)";
   MkScopeInfo ADMIN_IDENTITY_READ_SCOPE "Admin · Identity"
     "List sign-in providers, local accounts, active sessions, and issued device tokens";
   MkScopeInfo ADMIN_IDENTITY_WRITE_SCOPE "Admin · Identity"
     "Manage local accounts and revoke a person's sessions and device tokens"].

Definition ALL_SCOPES : list string := map si_scope SCOPE_CATALOG.

Definition ROLE_BUNDLES : list RoleBundle :=
  [MkRoleBundle "Analyst"
     "Runs structured queries. Carries no authorization scope; table/column access is resolved from policy.yaml by identity (`sub`/claim)."
     [];
   MkRoleBundle "Operator"
     "Day-2 operations: reload config, check connection health, read trends and scrape Prometheus metrics."
     [ADMIN_RELOAD_CONFIG_SCOPE; ADMIN_CONNECTIONS_READ_SCOPE; ADMIN_CONNECTIONS_TEST_SCOPE; ADMIN_OBSERVABILITY_READ_SCOPE; ADMIN_METRICS_READ_SCOPE];
   MkRoleBundle "Config Governor"
     "Authors governed config changes (stage/apply/rollback) and reloads."
     [ADMIN_CONFIG_READ_SCOPE; ADMIN_CONFIG_WRITE_SCOPE; ADMIN_RELOAD_CONFIG_SCOPE];
   MkRoleBundle "Config Approver"
     "Reviews and approves/rejects staged config changes (four-eyes). Kept separate from the authoring role so an author cannot approve their own change when require_config_approvals is enabled."
     [ADMIN_CONFIG_READ_SCOPE; ADMIN_CONFIG_APPROVE_SCOPE];
   MkRoleBundle "Catalog Author"
     "Proposes catalog content for review (kept quarantined until published)."
     [CATALOG_GENERATE_SCOPE; CATALOG_AUTHOR_SCOPE];
   MkRoleBundle "Catalog Admin"
     "Governs the catalog review queue and what is published live."
     [CATALOG_REVIEW_SCOPE; CATALOG_EDIT_SCOPE; CATALOG_APPROVE_SCOPE; CATALOG_REJECT_SCOPE; CATALOG_PUBLISH_SCOPE; CATALOG_ROLLBACK_SCOPE];
   MkRoleBundle "Catalog Data Steward"
     "Backup/restore and retention of catalog content."
     [CATALOG_EXPORT_SCOPE; CATALOG_DELETE_SCOPE];
   MkRoleBundle "Identity Administrator"
     "Manages who can sign in: local accounts, active sessions, and issued device tokens. Deliberately separate from the config roles — minting an account is a different privilege from changing what a connection exposes."
     [ADMIN_IDENTITY_READ_SCOPE; ADMIN_IDENTITY_WRITE_SCOPE];
   MkRoleBundle "Query Approver"
     "Reviews and approves individual queries that trip the in-query human-in-the-loop gate (sensitive/expensive reads). Kept separate from the querying role so an agent cannot approve its own read."
     [QUERY_APPROVE_SCOPE];
   MkRoleBundle "Query Operator"
     "Steps in to cancel another principal's stuck or runaway async query. A caller can always cancel their own query without this scope."
     [QUERY_CANCEL_SCOPE];
   MkRoleBundle "Compliance Auditor"
     "Searches the durable WORM audit archive for a security/compliance review. Kept separate from the Operator bundle: this reaches a long-retention copy an Operator's day-2 observability access does not need."
     [ADMIN_AUDIT_WORM_SEARCH_SCOPE];
   MkRoleBundle "Access Narrower"
     "Reads the observed query shapes a principal actually runs and drafts curated templates from them, ahead of switching that principal to templates_only (TODO.md item 195). Kept separate from the Operator bundle: a shape names one principal's exact tables, columns and predicates, which day-2 dashboard access does not need. The bundle grants no ability to install a template — that stays a config change."
     [ADMIN_SHAPES_READ_SCOPE]].

Definition role_bundle_scopes (name : string) : option (list string) :=
  rb_scopes <$> List.find (λ b, bool_decide (rb_name b = name)) ROLE_BUNDLES.

(** * What the vocabulary promises *)

Definition scope_constants : list string :=
  [ADMIN_RELOAD_CONFIG_SCOPE;
   ADMIN_CONFIG_READ_SCOPE;
   ADMIN_CONFIG_WRITE_SCOPE;
   ADMIN_CONFIG_APPROVE_SCOPE;
   ADMIN_CONNECTIONS_READ_SCOPE;
   ADMIN_CONNECTIONS_TEST_SCOPE;
   ADMIN_OBSERVABILITY_READ_SCOPE;
   ADMIN_AUDIT_WORM_SEARCH_SCOPE;
   ADMIN_METRICS_READ_SCOPE;
   ADMIN_SHAPES_READ_SCOPE;
   CATALOG_GENERATE_SCOPE;
   CATALOG_AUTHOR_SCOPE;
   CATALOG_REVIEW_SCOPE;
   CATALOG_EDIT_SCOPE;
   CATALOG_APPROVE_SCOPE;
   CATALOG_REJECT_SCOPE;
   CATALOG_PUBLISH_SCOPE;
   CATALOG_ROLLBACK_SCOPE;
   CATALOG_EXPORT_SCOPE;
   CATALOG_DELETE_SCOPE;
   QUERY_APPROVE_SCOPE;
   QUERY_CANCEL_SCOPE;
   ADMIN_IDENTITY_READ_SCOPE;
   ADMIN_IDENTITY_WRITE_SCOPE].

Definition grants_both (a b : string) (r : RoleBundle) : bool :=
  bool_decide (a ∈ rb_scopes r) && bool_decide (b ∈ rb_scopes r).

(** The pairs of duties the comments keep apart: authoring and approving a
    configuration, operating and reading the archive or a person's shapes,
    proposing and publishing catalog content, and running the configuration and
    the accounts. *)
Definition separated_duties : list (string * string) :=
  [(ADMIN_CONFIG_WRITE_SCOPE, ADMIN_CONFIG_APPROVE_SCOPE); (CATALOG_AUTHOR_SCOPE, CATALOG_PUBLISH_SCOPE);
   (CATALOG_GENERATE_SCOPE, CATALOG_APPROVE_SCOPE); (ADMIN_OBSERVABILITY_READ_SCOPE, ADMIN_AUDIT_WORM_SEARCH_SCOPE);
   (ADMIN_OBSERVABILITY_READ_SCOPE, ADMIN_SHAPES_READ_SCOPE); (ADMIN_CONFIG_WRITE_SCOPE, ADMIN_IDENTITY_WRITE_SCOPE);
   (QUERY_APPROVE_SCOPE, QUERY_CANCEL_SCOPE)].

(** The scope vocabulary is closed and consistent: the catalog lists every
    constant exactly once, every bundle has its own name and grants only scopes
    of the catalog, every scope is granted by some bundle, and no bundle grants
    two scopes of duties the code separates. *)
Theorem scope_vocabulary_consistent :
  NoDup ALL_SCOPES ∧ ALL_SCOPES ≡ₚ scope_constants
  ∧ NoDup (map rb_name ROLE_BUNDLES)
  ∧ (∀ r s, r ∈ ROLE_BUNDLES → s ∈ rb_scopes r → s ∈ ALL_SCOPES)
  ∧ (∀ s, s ∈ ALL_SCOPES → ∃ r, r ∈ ROLE_BUNDLES ∧ s ∈ rb_scopes r)
  ∧ (∀ r a b, r ∈ ROLE_BUNDLES → (a, b) ∈ separated_duties → grants_both a b r = false).
Proof.
  split_and!.
  - by apply (bool_decide_unpack _); vm_compute.
  - by apply (bool_decide_unpack _); vm_compute.
  - by apply (bool_decide_unpack _); vm_compute.
  - intros r s Hr Hs. assert (H : forallb (λ r, forallb (λ s, bool_decide (s ∈ ALL_SCOPES)) (rb_scopes r)) ROLE_BUNDLES = true)
      by (vm_compute; reflexivity).
    rewrite forallb_elem in H. specialize (H r Hr). rewrite forallb_elem in H. by eapply bool_decide_eq_true_1, H.
  - intros s Hs. assert (H : forallb (λ s, existsb (λ r, bool_decide (s ∈ rb_scopes r)) ROLE_BUNDLES) ALL_SCOPES = true)
      by (vm_compute; reflexivity).
    rewrite forallb_elem in H. specialize (H s Hs). apply existsb_elem in H as (r & Hr & H). exists r. split; [done|].
    by apply bool_decide_eq_true in H.
  - intros r a b Hr Hd. assert (H : forallb (λ r, forallb (λ d, negb (grants_both d.1 d.2 r)) separated_duties) ROLE_BUNDLES = true)
      by (vm_compute; reflexivity).
    rewrite forallb_elem in H. specialize (H r Hr). rewrite forallb_elem in H. specialize (H (a, b) Hd). by apply negb_true_iff in H.
Qed.

Lemma bundle_scopes_known name s : s ∈ default [] (role_bundle_scopes name) → s ∈ ALL_SCOPES.
Proof.
  unfold role_bundle_scopes. destruct (List.find _ ROLE_BUNDLES) as [r|] eqn:E; cbn; [|by intros ?%not_elem_of_nil].
  intros Hs. apply List.find_some in E as [Hr _]. apply list_elem_of_In in Hr.
  assert (H : forallb (λ r, forallb (λ s, bool_decide (s ∈ ALL_SCOPES)) (rb_scopes r)) ROLE_BUNDLES = true)
    by (vm_compute; reflexivity).
  rewrite forallb_elem in H. specialize (H r Hr). rewrite forallb_elem in H. by eapply bool_decide_eq_true_1, H.
Qed.
