(* ===== verification/Identity.v ===== *)
(** Claims and what they earn: [identity/claims.py], the rules and providers of
    [identity/models.py], [identity/mapping.py] and the loader's check of
    [identity/config_store.py]. Shown: the scopes of a claim set are exactly what
    the matching rules grant, whatever their order, and scopes of the catalog. *)
From Stdlib Require Import Ascii.
From stdpp Require Import pretty.
From S2P Require Export Scopes Policy JsonText.

(** A step of a sign-in: its value, or the category of its failure (the text that
    is audited and, in the device flow, the error code sent). *)
Inductive outcome (A : Type) :=
| Done (a : A)
| Failed (category : string).
Arguments Done {A} a.
Arguments Failed {A} category.

#[export] Instance outcome_ret : MRet outcome := @Done.
#[export] Instance outcome_bind : MBind outcome := λ A B f r, match r with Done a => f a | Failed c => Failed c end.

Definition fail_if (b : bool) (category : string) : outcome unit := if b then Failed category else Done tt.

Lemma outcome_bind_done {A B} (r : outcome A) (f : A → outcome B) b : r ≫= f = Done b ↔ ∃ a, r = Done a ∧ f a = Done b.
Proof. destruct r; cbn; naive_solver. Qed.

Lemma fail_if_done b c u : fail_if b c = Done u ↔ b = false.
Proof. destruct b, u; cbn; naive_solver. Qed.

(** [hmac.compare_digest] on text: a TypeError, which no handler of the sign-in
    routes expects, when either side is not ASCII. *)
Definition compare_digest (a b : string) : outcome bool :=
  if isascii a && isascii b then Done (bool_decide (a = b)) else Failed "TypeError".

Lemma compare_digest_true a b : compare_digest a b = Done true → a = b.
Proof. unfold compare_digest. destruct (_ && _); [|done]. intros [= H]. by apply bool_decide_eq_true in H. Qed.

(** * Reading claims *)

Definition MAX_CLAIM_PATH_DEPTH : nat := 8.
Definition MAX_CLAIM_VALUES : nat := 512.

(** [_walk], from a node on; an absent value is [JNull]. *)
Fixpoint walk_from (node : json) (segments : list string) : json :=
  match segments with
  | [] => node
  | segment :: segments =>
      match node with
      | JObj fields => match dict_get segment fields with Some v => walk_from v segments | None => JNull end
      | _ => JNull
      end
  end.

Definition path_segments (path : string) : list string :=
  List.filter (λ s, negb (str_empty s)) (split_on "."%char path).

Definition walk (claims : dict json) (path : string) : json :=
  let segments := path_segments path in
  if (length segments =? 0)%nat || (MAX_CLAIM_PATH_DEPTH <? length segments)%nat then JNull
  else walk_from (JObj claims) segments.

Section claims.
Context `{FT : FloatText}.

(** What one value contributes: text as it is, a number as [str] writes it. *)
Definition claim_text (v : json) : option string :=
  match v with
  | JStr s => Some s
  | JInt z => Some (pretty z)
  | JFloat f => Some (float_repr f)
  | _ => None
  end.

Definition claim_values (claims : dict json) (path : string) : list string :=
  match walk claims path with
  | JList items => take MAX_CLAIM_VALUES (omap claim_text items)
  | node => option_list (claim_text node)
  end.

Definition claim_scalar (claims : dict json) (path : string) : option string :=
  match walk claims path with
  | JStr s => if str_empty s then None else Some s
  | node => claim_text node
  end.

(** * Rules *)

Record ClaimRule := MkClaimRule {
  cr_provider : string;
  cr_claim : string;
  cr_equals : option string;
  cr_any_of : list string;
  cr_grant_scopes : list string;
  cr_grant_roles : list string;
  cr_description : string;
}.

(** The validators of [ClaimRule]. *)
Definition validate_claim_rule (r : ClaimRule) : result unit :=
  raise_if (negb (forallb (λ s, bool_decide (s ∈ ALL_SCOPES)) (cr_grant_scopes r)))
    (ValueError "Unknown QueryGate scope(s) in grant_scopes") ≫= λ _,
  raise_if (negb (forallb (λ n, is_some (role_bundle_scopes n)) (cr_grant_roles r)))
    (ValueError "Unknown role bundle(s) in grant_roles") ≫= λ _,
  raise_if (str_empty (cr_claim r)) (ValueError "A claim rule needs a `claim`.") ≫= λ _,
  raise_if (Bool.eqb (negb (is_some (cr_equals r))) (length (cr_any_of r) =? 0)%nat)
    (ValueError "must set exactly one of `equals` or `any_of`.") ≫= λ _,
  raise_if ((length (cr_grant_scopes r) =? 0)%nat && (length (cr_grant_roles r) =? 0)%nat)
    (ValueError "grants nothing").

Definition match_values (r : ClaimRule) : list string :=
  match cr_equals r with Some v => [v] | None => cr_any_of r end.

Definition granted_scopes (r : ClaimRule) : gset string :=
  list_to_set (cr_grant_scopes r ++ flat_map (λ n, default [] (role_bundle_scopes n)) (cr_grant_roles r)).

(** * The mapping *)

Definition MAX_RULES : Z := 2048.

Record IdentityMappingStore := MkMapping {
  im_rules : list ClaimRule;
  im_by_provider : dict (list ClaimRule);
}.

Definition index_rule (by_provider : dict (list ClaimRule)) (r : ClaimRule) : dict (list ClaimRule) :=
  dict_set (cr_provider r) (default [] (dict_get (cr_provider r) by_provider) ++ [r]) by_provider.

Definition mapping_store (rules : list ClaimRule) : result IdentityMappingStore :=
  if (MAX_RULES <? Z.of_nat (length rules))%Z then Raise (ValueError "identity mapping has too many rules")
  else Ok (MkMapping rules (foldl index_rule [] rules)).

(** [from_rules], on rules already parsed. *)
Definition from_rules (rules : list ClaimRule) : result IdentityMappingStore :=
  for_each validate_claim_rule rules ≫= λ _, mapping_store rules.

Definition candidate_rules (s : IdentityMappingStore) (provider_id : string) : list ClaimRule :=
  default [] (dict_get provider_id (im_by_provider s)) ++ default [] (dict_get "*" (im_by_provider s)).

Definition matched_value (r : ClaimRule) (claims : dict json) : option string :=
  let held := claim_values claims (cr_claim r) in
  if (length held =? 0)%nat then None else List.find (λ v, bool_decide (v ∈ held)) (match_values r).

Definition scopes_for (s : IdentityMappingStore) (provider_id : string) (claims : dict json) : gset string :=
  foldl (λ granted r, if is_some (matched_value r claims) then granted ∪ granted_scopes r else granted) ∅
    (candidate_rules s provider_id).

Record Explanation := MkExplanation {
  ex_claim : string;
  ex_matched_value : string;
  ex_provider : string;
  ex_granted_scopes : gset string;
  ex_description : string;
}.

Definition explain (s : IdentityMappingStore) (provider_id : string) (claims : dict json) : list Explanation :=
  omap (λ r, (λ v, MkExplanation (cr_claim r) v (cr_provider r) (granted_scopes r) (cr_description r))
               <$> matched_value r claims) (candidate_rules s provider_id).

(** * Providers *)

Inductive ProviderKind := KindOidc | KindLocal | KindDev.

#[export] Instance provider_kind_eq_dec : EqDecision ProviderKind.
Proof. solve_decision. Defined.

(** What sign-in uses of a profile. *)
Record IdentityProviderProfile := MkProvider {
  ip_id : string;
  ip_kind : ProviderKind;
  ip_enabled : bool;
  ip_client_id : string;
  ip_issuer : string;
  ip_subject_claim : string;
  ip_subject_prefix : string;
  ip_email_claim : string;
  ip_name_claim : string;
  ip_id_token_algorithms : list string;
  ip_allowed_email_domains : list string;
}.

Definition principal_subject (p : IdentityProviderProfile) (claims : dict json) : string :=
  ip_subject_prefix p +:+ default "" (claim_scalar claims (ip_subject_claim p)).

(** The subject of a local account, [api/sso_routes.py: local_login]. *)
Definition local_subject (p : IdentityProviderProfile) (username : string) : string := ip_subject_prefix p +:+ username.

Definition oidc_like (p : IdentityProviderProfile) : bool :=
  bool_decide (ip_kind p ∈ [KindOidc; KindDev]) && ip_enabled p.

(** The checks of [from_dict] on the providers it loaded. *)
Definition check_subject_namespaces (providers : list IdentityProviderProfile) : result unit :=
  let prefixes := map ip_subject_prefix (List.filter oidc_like providers) in
  raise_if ((1 <? length prefixes)%nat
            && (existsb str_empty prefixes || negb (bool_decide (NoDup prefixes))))
    (ValueError "More than one OIDC identity provider is enabled") ≫= λ _,
  raise_if (1 <? length (List.filter (λ p, bool_decide (ip_kind p = KindLocal)) providers))%nat
    (ValueError "At most one kind=local identity provider may be configured").

Definition check_mapping_providers (providers : list IdentityProviderProfile) (s : IdentityMappingStore) : result unit :=
  raise_if (negb (forallb (λ r, bool_decide (cr_provider r = "*") || bool_decide (cr_provider r ∈ map ip_id providers)) (im_rules s)))
    (ValueError "identity mapping references unconfigured provider(s)").

Record IdentityConfigStore := MkIdentity {
  ic_providers : list IdentityProviderProfile;
  ic_session_ttl : Z;
  ic_session_idle_timeout : Z;
  ic_login_flow_ttl : Z;
  ic_default_landing_path : string;
  ic_mapping : IdentityMappingStore;
}.

Definition get_enabled (s : IdentityConfigStore) (provider_id : string) : option IdentityProviderProfile :=
  List.find (λ p, bool_decide (ip_id p = provider_id) && ip_enabled p) (ic_providers s).

Definition local_provider (s : IdentityConfigStore) : option IdentityProviderProfile :=
  List.find (λ p, bool_decide (ip_kind p = KindLocal) && ip_enabled p) (ic_providers s).

(** * What a claim set earns *)

Lemma index_rules_get p rules : ∀ d,
  default [] (dict_get p (foldl index_rule d rules))
  = default [] (dict_get p d) ++ List.filter (λ r, bool_decide (cr_provider r = p)) rules.
Proof.
  induction rules as [|r rules IH]; intros d; cbn; [by rewrite app_nil_r|]. rewrite IH. unfold index_rule.
  destruct (decide (cr_provider r = p)) as [<-|Hne].
  - rewrite dict_get_set_eq, bool_decide_eq_true_2 by done. cbn. by rewrite <- app_assoc.
  - rewrite dict_get_set_ne, bool_decide_eq_false_2 by congruence. done.
Qed.

Lemma candidate_rules_elem rules s p r : mapping_store rules = Ok s →
  r ∈ candidate_rules s p ↔ r ∈ rules ∧ (cr_provider r = p ∨ cr_provider r = "*").
Proof.
  unfold mapping_store. destruct (_ <? _)%Z; [done|]. intros [= <-]. unfold candidate_rules. cbn [im_by_provider].
  rewrite !index_rules_get. cbn. rewrite elem_of_app, !list_elem_of_In, !List.filter_In, !bool_decide_eq_true. tauto.
Qed.

Definition rule_matches (r : ClaimRule) (claims : dict json) : Prop :=
  ∃ v, v ∈ match_values r ∧ v ∈ claim_values claims (cr_claim r).

Lemma matched_value_spec r claims : is_some (matched_value r claims) = true ↔ rule_matches r claims.
Proof.
  unfold matched_value, rule_matches. destruct (claim_values claims (cr_claim r)) as [|h held] eqn:E; cbn [length Nat.eqb].
  - split; [done|]. by intros (v & _ & ?%not_elem_of_nil).
  - destruct (List.find _ _) as [v|] eqn:Ef; cbn; split; try done.
    + intros _. apply List.find_some in Ef as [Hv Hh]. exists v. by rewrite list_elem_of_In, <- (bool_decide_eq_true (v ∈ _)).
    + intros (v & Hv & Hh). apply list_elem_of_In in Hv. pose proof (List.find_none _ _ Ef v Hv) as Hn.
      by apply bool_decide_eq_false in Hn.
Qed.

Lemma scopes_for_elem s p claims x :
  x ∈ scopes_for s p claims ↔ ∃ r, r ∈ candidate_rules s p ∧ rule_matches r claims ∧ x ∈ granted_scopes r.
Proof.
  unfold scopes_for. generalize (candidate_rules s p). intros l.
  cut (∀ acc : gset string, x ∈ foldl (λ granted r, if is_some (matched_value r claims) then granted ∪ granted_scopes r else granted) acc l
    ↔ x ∈ acc ∨ ∃ r, r ∈ l ∧ rule_matches r claims ∧ x ∈ granted_scopes r).
  { intros ->. rewrite elem_of_empty. naive_solver. }
  induction l as [|r l IH]; intros acc; cbn; [split; [auto|by intros [?|(r & ?%not_elem_of_nil & _)]]|].
  rewrite IH. setoid_rewrite elem_of_cons. pose proof (matched_value_spec r claims) as Hm.
  destruct (is_some (matched_value r claims)).
  - rewrite elem_of_union. assert (rule_matches r claims) by by apply Hm. naive_solver.
  - assert (¬ rule_matches r claims) by (intros H; by apply Hm in H). naive_solver.
Qed.

Lemma granted_scopes_known r x : validate_claim_rule r = Ok tt → x ∈ granted_scopes r → x ∈ ALL_SCOPES.
Proof.
  unfold validate_claim_rule, granted_scopes. intros H. result_inv. rewrite elem_of_list_to_set, elem_of_app, elem_of_flat_map.
  intros [Hx|(n & _ & Hx)]; [|by eapply bundle_scopes_known].
  apply negb_false_iff in H0. rewrite forallb_elem in H0. by eapply bool_decide_eq_true_1, H0.
Qed.

(** The scopes of a claim set are exactly what the rules of its provider, or of
    any provider, grant when one of their values is among those the claim holds:
    nothing without a match, nothing but scopes of the catalog, the same whatever
    the order of the rules, and the explanation accounts for every one. *)
Theorem mapping_exact rules s p claims :
  from_rules rules = Ok s →
  (∀ x, x ∈ scopes_for s p claims ↔
     ∃ r, r ∈ rules ∧ (cr_provider r = p ∨ cr_provider r = "*") ∧ rule_matches r claims ∧ x ∈ granted_scopes r)
  ∧ scopes_for s p claims ⊆ list_to_set ALL_SCOPES
  ∧ scopes_for s p claims = ⋃ (ex_granted_scopes <$> explain s p claims)
  ∧ (∀ rules' s', rules' ≡ₚ rules → from_rules rules' = Ok s' → scopes_for s' p claims = scopes_for s p claims).
Proof.
  intros Hs.
  assert (Hexact : ∀ rules s, from_rules rules = Ok s → ∀ x, x ∈ scopes_for s p claims ↔
     ∃ r, r ∈ rules ∧ (cr_provider r = p ∨ cr_provider r = "*") ∧ rule_matches r claims ∧ x ∈ granted_scopes r).
  { clear. intros rules s Hs x. unfold from_rules in Hs. result_inv. rewrite scopes_for_elem.
    setoid_rewrite candidate_rules_elem; [|done]. naive_solver. }
  split; [by apply Hexact|]. split; [|split].
  - intros x Hx. apply (Hexact rules s Hs) in Hx as (r & Hr & _ & _ & Hx). apply elem_of_list_to_set.
    unfold from_rules in Hs. apply bind_ok_unit in Hs as [Hs _]. eapply granted_scopes_known; [|exact Hx].
    by eapply for_each_ok_elem.
  - apply set_eq. intros x. rewrite scopes_for_elem, elem_of_union_list. unfold explain. split.
    + intros (r & Hr & Hm & Hx). apply matched_value_spec in Hm. destruct (matched_value r claims) as [v|] eqn:Ev; [|done].
      eexists. split; [|exact Hx]. apply list_elem_of_fmap. exists (MkExplanation (cr_claim r) v (cr_provider r) (granted_scopes r) (cr_description r)).
      split; [done|]. apply list_elem_of_omap. exists r. by rewrite Ev.
    + intros (g & (e & -> & He)%list_elem_of_fmap & Hx). apply list_elem_of_omap in He as (r & Hr & He).
      destruct (matched_value r claims) as [v|] eqn:Ev; [|done]. injection He as <-. exists r. split; [done|].
      split; [|done]. apply matched_value_spec. by rewrite Ev.
  - intros rules' s' Hp Hs'. apply set_eq. intros x. rewrite (Hexact rules s Hs), (Hexact rules' s' Hs').
    by setoid_rewrite Hp.
Qed.

End claims.

(** * Concrete claims *)

#[local] Existing Instance sample_floats.

Definition governor_rule : ClaimRule :=
  MkClaimRule "okta" "groups" None ["qg-governors"; "qg-admins"] [] ["Config Governor"] "".
Definition everywhere_rule : ClaimRule := MkClaimRule "*" "realm_access.roles" (Some "approver") [] [QUERY_APPROVE_SCOPE] [] "".

Definition governor_claims : dict json :=
  [("sub", JStr "u1"); ("groups", JList [JStr "staff"; JStr "qg-admins"]); ("realm_access", JObj [("roles", JStr "approver")])].

Lemma mapping_exact_witness :
  ∃ s, from_rules [governor_rule; everywhere_rule] = Ok s
    ∧ scopes_for s "okta" governor_claims ⊆ list_to_set ALL_SCOPES
    ∧ ADMIN_CONFIG_WRITE_SCOPE ∈ scopes_for s "okta" governor_claims
    ∧ bool_decide (scopes_for s "entra" governor_claims = {[ QUERY_APPROVE_SCOPE ]}) = true
    ∧ scopes_for s "okta" [("sub", JStr "u1")] = ∅.
Proof.
  destruct (from_rules [governor_rule; everywhere_rule]) as [s|e] eqn:E; [|discriminate E]. exists s. split; [reflexivity|].
  destruct (mapping_exact _ s "okta" governor_claims E) as (Hexact & Hknown & _). split; [exact Hknown|]. split; [|split].
  - apply Hexact. exists governor_rule. split; [left|]. split; [left; reflexivity|]. split.
    + exists "qg-admins". split; [right; left|]. vm_compute. right. left.
    + apply elem_of_list_to_set. vm_compute. right. left.
  - injection E as <-. vm_compute. reflexivity.
  - injection E as <-. vm_compute. reflexivity.
Defined.

(** ** Subjects of two providers *)

Definition provider_with (id prefix claim : string) (kind : ProviderKind) : IdentityProviderProfile :=
  MkProvider id kind true "querygate" "https://idp.example" claim prefix "email" "name" ["RS256"] [].

(** Prefixes that are distinct and not empty do not keep two providers apart: one
    may continue the other. *)
Theorem distinct_prefixes_can_collide :
  let a := provider_with "a" "corp" "sub" KindOidc in let b := provider_with "b" "corp-eu" "sub" KindOidc in
  check_subject_namespaces [a; b] = Ok tt
  ∧ principal_subject a [("sub", JStr "-eu7")] = principal_subject b [("sub", JStr "7")].
Proof. split; reflexivity. Qed.

(** Local accounts are left out of the check: with one OIDC provider and no
    prefix, whoever that provider calls by the name of a local account is it. *)
Theorem local_accounts_share_the_namespace :
  let a := provider_with "okta" "" "preferred_username" KindOidc in let b := provider_with "local" "" "" KindLocal in
  check_subject_namespaces [a; b] = Ok tt
  ∧ principal_subject a [("preferred_username", JStr "root")] = local_subject b "root".
Proof. split; reflexivity. Qed.
