(* ===== verification/BoundedStore.v ===== *)
(** The in-process stores of [identity/]: a dict of records under a key of the
    record's own, where each write first drops what has expired and, when the
    store is full, the oldest record. *)
From S2P Require Export Prelude.
Local Open Scope Z_scope.

Section store.
Context {A : Type} (key : A → string) (age : A → Z) (expired : Z → A → bool) (max_entries : positive).
Implicit Types (d : dict A) (x : A).

(** [_prune]. *)
Definition prune (now : Z) d : dict A := List.filter (λ e, negb (expired now e.2)) d.

(** [min(d.values(), key=age)]: the first of the smallest. *)
Definition oldest d : option A :=
  foldl (λ best e, match best with Some b => if age e.2 <? age b then Some e.2 else best | None => Some e.2 end) None d.

Definition make_room d : dict A :=
  if Z.pos max_entries <=? Z.of_nat (length d)
  then match oldest d with Some x => dict_pop (key x) d | None => d end
  else d.

(** [put] (of sessions, [create]). *)
Definition bounded_put (now : Z) x d : dict A := dict_set (key x) x (make_room (prune now d)).

(** Every record is under its own key, once, and the store is within its bound. *)
Definition well_keyed d : Prop := NoDup (dict_keys d) ∧ ∀ k x, (k, x) ∈ d → key x = k.
Definition store_ok d : Prop := well_keyed d ∧ Z.of_nat (length d) ≤ Z.pos max_entries.

Lemma filter_well_keyed (f : string * A → bool) d : well_keyed d → well_keyed (List.filter f d).
Proof.
  intros [Hd Hk]. split; [by apply dict_filter_NoDup|]. intros k x H.
  apply Hk. by apply elem_of_lfilter in H as [H _].
Qed.

Lemma filter_length_le {B} (f : B → bool) (l : list B) : (length (List.filter f l) ≤ length l)%nat.
Proof. induction l as [|x l IH]; cbn; [done|]. destruct (f x); cbn; lia. Qed.

Lemma pop_well_keyed k d : well_keyed d → well_keyed (dict_pop k d).
Proof. apply filter_well_keyed. Qed.

Lemma pop_length_lt k d : k ∈ dict_keys d → (length (dict_pop k d) < length d)%nat.
Proof.
  unfold dict_keys, dict_pop. induction d as [|[j x] d IH]; cbn; [by intros ?%not_elem_of_nil|].
  intros [->|H]%elem_of_cons.
  - rewrite bool_decide_eq_true_2 by done. cbn. pose proof (filter_length_le (λ e, negb (bool_decide (e.1 = j))) d). lia.
  - specialize (IH H). destruct (negb _); cbn; lia.
Qed.

Lemma oldest_elem d x : oldest d = Some x → ∃ k, (k, x) ∈ d.
Proof.
  unfold oldest. cut (∀ best, foldl (λ best e, match best with Some b => if age e.2 <? age b then Some e.2 else best | None => Some e.2 end) best d = Some x →
    best = Some x ∨ ∃ k, (k, x) ∈ d).
  { intros H Hx. destruct (H None Hx); naive_solver. }
  induction d as [|[k y] d IH]; intros best H; cbn in H; [by left|].
  apply IH in H as [H|[j H]]; [|right; exists j; by right].
  destruct best as [b|]; [destruct (age y <? age b)|]; [|by left|]; injection H as <-; right; exists k; left.
Qed.

Lemma oldest_None d : oldest d = None → d = [].
Proof.
  unfold oldest. destruct d as [|[k y] d]; [done|]. cbn. intros H. exfalso.
  cut (∀ b, foldl (λ best e, match best with Some b => if age e.2 <? age b then Some e.2 else best | None => Some e.2 end) (Some b) d ≠ None).
  { intros Hn. by apply (Hn y). }
  clear H. induction d as [|[j z] d IH]; intros b; cbn; [done|]. destruct (age z <? age b); apply IH.
Qed.

Lemma make_room_ok d : store_ok d → well_keyed (make_room d) ∧ Z.of_nat (length (make_room d)) < Z.pos max_entries.
Proof.
  intros [Hw Hl]. unfold make_room. destruct (Z.leb_spec (Z.pos max_entries) (Z.of_nat (length d))) as [Hfull|]; [|done].
  destruct (oldest d) as [x|] eqn:E.
  - split; [by apply pop_well_keyed|]. apply oldest_elem in E as [k Hk]. rewrite (proj2 Hw _ _ Hk).
    pose proof (pop_length_lt k d ltac:(by apply (list_elem_of_fmap_2 fst) in Hk)). lia.
  - apply oldest_None in E as ->. cbn in Hfull. lia.
Qed.

Lemma make_room_sub d e : e ∈ make_room d → e ∈ d.
Proof.
  unfold make_room. destruct (_ <=? _); [|done]. destruct (oldest d); [|done]. by intros [? _]%dict_pop_elem.
Qed.

Lemma prune_elem now d e : e ∈ prune now d ↔ e ∈ d ∧ expired now e.2 = false.
Proof. unfold prune. by rewrite elem_of_lfilter, negb_true_iff. Qed.

Lemma prune_ok now d : store_ok d → store_ok (prune now d).
Proof.
  intros [Hw Hl]. split; [by apply filter_well_keyed|].
  pose proof (filter_length_le (λ e, negb (expired now e.2)) d). unfold prune. lia.
Qed.

Lemma dict_set_length k x d : (length (dict_set k x d) ≤ S (length d))%nat.
Proof. induction d as [|[j y] d IH]; cbn; [done|]. case_bool_decide; cbn; lia. Qed.

Lemma set_well_keyed x d : well_keyed d → well_keyed (dict_set (key x) x d).
Proof.
  intros [Hd Hk]. split; [by apply dict_set_NoDup|]. intros k y H. apply dict_set_in in H as [[= -> ->]|H]; auto.
Qed.

Lemma pop_ok k d : store_ok d → store_ok (dict_pop k d).
Proof.
  intros [Hw Hl]. split; [by apply pop_well_keyed|].
  pose proof (filter_length_le (λ e, negb (bool_decide (e.1 = k))) d). unfold dict_pop. lia.
Qed.

Lemma put_ok now x d : store_ok d → store_ok (bounded_put now x d).
Proof.
  intros H. apply (prune_ok now), make_room_ok in H as [Hw Hl]. split; [by apply set_well_keyed|].
  unfold bounded_put. pose proof (dict_set_length (key x) x (make_room (prune now d))). lia.
Qed.

Lemma put_elem now x d e : e ∈ bounded_put now x d → e = (key x, x) ∨ e ∈ d ∧ expired now e.2 = false.
Proof. intros [->|H]%dict_set_in; [by left|]. right. by apply make_room_sub, prune_elem in H. Qed.

Lemma bounded_put_get now x d : dict_get (key x) (bounded_put now x d) = Some x.
Proof. apply dict_get_set_eq. Qed.

Lemma empty_ok : store_ok [].
Proof. split; [split; [constructor|by intros ?? ?%not_elem_of_nil]|]. cbn. lia. Qed.

(** A store that does not fill up forgets nothing that has not expired. *)
Lemma put_keeps now x d k y :
  store_ok d → Z.of_nat (length d) < Z.pos max_entries → (k, y) ∈ d → expired now y = false → k ≠ key x →
  dict_get k (bounded_put now x d) = Some y.
Proof.
  intros [Hw Hl] Hroom Hy Hexp Hne. unfold bounded_put. rewrite dict_get_set_ne by done. unfold make_room.
  pose proof (filter_length_le (λ e, negb (expired now e.2)) d). rewrite (proj2 (Z.leb_gt _ _)) by (unfold prune; lia).
  apply dict_in_get; [by apply filter_well_keyed|]. by apply prune_elem.
Qed.
End store.
