(* ===== verification/Sessions.v ===== *)
(** Browser sign-in: the login flows and sessions of [identity/sessions.py], the
    authorization-code exchange of [identity/oidc.py] and the callback of
    [api/sso_routes.py] that joins them. Shown: a session comes of one stored,
    unexpired flow, used once, and of a token verified for it; a session that is
    answered was created, is not over and was not revoked. *)
From Stdlib Require Import Ascii.
From S2P Require Export Identity BoundedStore.
Local Open Scope Z_scope.

(** Clock readings and durations are microseconds. *)
Definition second_us : Z := 1000000.

(** * Records *)

Definition SESSION_TOKEN_PREFIX : string := "qgs_".
Definition DEVICE_TOKEN_PREFIX : string := "qgd_".
Definition MAX_SESSION_CLAIMS_BYTES : Z := 16 * 1024.
Definition STRIPPED_CLAIMS : list string := ["nonce"; "at_hash"; "c_hash"; "s_hash"; "cnf"].

Definition token_digest `{Digest} (token : string) : string := sha256_hexdigest token.

Section sanitize.
Context `{FT : FloatText}.

Definition sanitize_claims (claims : dict json) : result (dict json) :=
  let kept := List.filter (λ e, negb (bool_decide (e.1 ∈ STRIPPED_CLAIMS))) claims in
  raise_if (MAX_SESSION_CLAIMS_BYTES <? Z.of_nat (String.length (json_dumps_default (JObj kept))))
    (ValueError "The identity provider returned a claim set larger than QueryGate will retain") ≫= λ _, Ok kept.
End sanitize.

Record LoginFlow := MkFlow {
  lf_flow_id : string;
  lf_provider_id : string;
  lf_state : string;
  lf_nonce : string;
  lf_code_verifier : string;
  lf_redirect_uri : string;
  lf_return_to : string;
  lf_created_at : Z;
  lf_expires_at : Z;
}.

Definition flow_expired (now : Z) (f : LoginFlow) : bool := lf_expires_at f <=? now.

Record SsoSession := MkSession {
  ss_session_digest : string;
  ss_subject : string;
  ss_provider_id : string;
  ss_auth_method : string;
  ss_csrf_token : string;
  ss_display_name : string;
  ss_email : string;
  ss_claims : dict json;
  ss_created_at : Z;
  ss_expires_at : Z;
  ss_last_seen_at : Z;
}.

Definition session_expired (idle_timeout now : Z) (s : SsoSession) : bool :=
  (ss_expires_at s <=? now) || ((0 <? idle_timeout) && (idle_timeout <? now - ss_last_seen_at s)).

(** * The in-process stores *)

Abbreviation LoginFlows := (dict LoginFlow).

Definition put_flow (max_entries : positive) (now : Z) (f : LoginFlow) (flows : LoginFlows) : LoginFlows :=
  bounded_put lf_flow_id lf_created_at flow_expired max_entries now f flows.

Definition consume_flow (now : Z) (flow_id : string) (flows : LoginFlows) : LoginFlows * option LoginFlow :=
  (dict_pop flow_id flows,
   f ← dict_get flow_id flows; if flow_expired now f then None else Some f).

Abbreviation Sessions := (dict SsoSession).

Definition create_session (max_entries : positive) (idle_timeout now : Z) (s : SsoSession) (sessions : Sessions) : Sessions :=
  bounded_put ss_session_digest ss_last_seen_at (session_expired idle_timeout) max_entries now s sessions.

Definition get_session (idle_timeout now : Z) (digest : string) (sessions : Sessions) : Sessions * option SsoSession :=
  match dict_get digest sessions with
  | None => (sessions, None)
  | Some s => if session_expired idle_timeout now s then (dict_pop digest sessions, None) else (sessions, Some s)
  end.

Definition seen (at_ : Z) (s : SsoSession) : SsoSession :=
  MkSession (ss_session_digest s) (ss_subject s) (ss_provider_id s) (ss_auth_method s) (ss_csrf_token s)
    (ss_display_name s) (ss_email s) (ss_claims s) (ss_created_at s) (ss_expires_at s) at_.

Definition touch_session (digest : string) (seen_at : Z) (sessions : Sessions) : Sessions :=
  match dict_get digest sessions with Some s => dict_set digest (seen seen_at s) sessions | None => sessions end.

Definition delete_session (digest : string) (sessions : Sessions) : Sessions := dict_pop digest sessions.

Definition delete_for_subject (subject : string) (sessions : Sessions) : Sessions * nat :=
  (List.filter (λ e, negb (bool_decide (ss_subject e.2 = subject))) sessions,
   length (List.filter (λ e, bool_decide (ss_subject e.2 = subject)) sessions)).

(** * The authorization-code exchange *)

Record ProviderMetadata := MkMetadata {
  pm_id_token_signing_algs : list string;
  pm_code_challenge_methods : list string;
}.

Definition ALLOWED_ID_TOKEN_ALGORITHMS : list string :=
  ["RS256"; "RS384"; "RS512"; "ES256"; "ES384"; "ES512"; "PS256"; "PS384"; "PS512"].
Definition CALLBACK_PATH : string := "/api/v1/auth/sso/callback".
Definition MAX_TOKEN_RESPONSE_BYTES : Z := 512 * 1024.

(** What the token endpoint answered: its status, the size of the body and the
    body, if it is JSON. *)
Record http_response := MkResponse { hr_status : Z; hr_size : Z; hr_json : option json }.

(** The network and PyJWT: the metadata of an issuer, the answer of the token
    endpoint to a form (no answer is an HTTP error), and the claims of a verified
    token. [jwt_decode token algorithms audience issuer required] succeeds only
    on a token signed under one of the algorithms. *)
Class Idp := {
  discover : string → option ProviderMetadata;
  token_endpoint : IdentityProviderProfile → dict string → option http_response;
  jwt_alg : string → string;
  jwt_decode : string → list string → string → string → list string → option (dict json);
  jwt_alg_listed token algorithms audience issuer required claims :
    jwt_decode token algorithms audience issuer required = Some claims → jwt_alg token ∈ algorithms;
}.

Section exchange.
Context `{FT : FloatText} `{DG : !Digest} `{SL : StrLower} `{IDP : Idp}.

(** [rstrip("/")]. *)
Fixpoint rstrip_slash (s : string) : string :=
  match s with
  | "" => ""
  | String c s => let r := rstrip_slash s in if str_empty r && bool_decide (c = "/"%char) then "" else String c r
  end.

Definition redirect_uri_for (base_url : string) : string := rstrip_slash base_url +:+ CALLBACK_PATH.

(** [build_authorization_request], given the random values it draws; the URL is
    made of the flow and the provider. *)
Definition build_authorization_request (provider : IdentityProviderProfile) (metadata : ProviderMetadata)
  (base_url return_to : string) (ttl now : Z) (flow_id state nonce verifier : string) : outcome LoginFlow :=
  fail_if (negb (length (pm_code_challenge_methods metadata) =? 0)%nat && negb (bool_decide ("S256" ∈ pm_code_challenge_methods metadata)))
    "pkce_unsupported" ≫= λ _,
  Done (MkFlow flow_id (ip_id provider) state nonce verifier (redirect_uri_for base_url) return_to now (now + ttl)).

Definition allowed_algorithms (provider : IdentityProviderProfile) (metadata : ProviderMetadata) : list string :=
  let configured := List.filter (λ a, bool_decide (a ∈ ALLOWED_ID_TOKEN_ALGORITHMS)) (ip_id_token_algorithms provider) in
  if (length (pm_id_token_signing_algs metadata) =? 0)%nat then configured
  else List.filter (λ a, bool_decide (a ∈ pm_id_token_signing_algs metadata)) configured.

Definition verify_id_token (id_token : string) (provider : IdentityProviderProfile) (metadata : ProviderMetadata)
  (nonce : option string) : outcome (dict json) :=
  let algorithms := allowed_algorithms provider metadata in
  if (length algorithms =? 0)%nat then Failed "no_acceptable_algorithm" else
  match jwt_decode id_token algorithms (ip_client_id provider) (ip_issuer provider)
          ["exp"; "iat"; "iss"; "aud"; ip_subject_claim provider] with
  | None => Failed "id_token_invalid"
  | Some claims =>
      match nonce, dict_get "nonce" claims with
      | None, _ => Done true
      | Some n, Some (JStr token_nonce) => compare_digest token_nonce n
      | Some _, _ => Done false
      end ≫= λ nonce_ok,
      fail_if (negb nonce_ok) "nonce_mismatch" ≫= λ _,
      fail_if (match dict_get "azp" claims with Some (JStr azp) => negb (bool_decide (azp = ip_client_id provider)) | _ => false end)
        "azp_mismatch" ≫= λ _,
      fail_if (negb (is_some (claim_scalar claims (ip_subject_claim provider)))) "missing_subject" ≫= λ _,
      Done claims
  end.

(** [email.rpartition("@")[2]]. *)
Definition email_domain (email : string) : string := List.last (split_on "@"%char email) "".

Definition enforce_email_domain (provider : IdentityProviderProfile) (claims : dict json) : outcome unit :=
  if (length (ip_allowed_email_domains provider) =? 0)%nat then Done tt else
  let email := str_lower (default "" (claim_scalar claims (ip_email_claim provider))) in
  fail_if (bool_decide (dict_get "email_verified" claims = Some (JBool false))) "email_unverified" ≫= λ _,
  let domain := email_domain email in
  fail_if (str_empty domain || negb (bool_decide (domain ∈ ip_allowed_email_domains provider))) "email_domain_not_allowed".

Definition exchange_form (provider : IdentityProviderProfile) (flow : LoginFlow) (code : string) : dict string :=
  [("grant_type", "authorization_code"); ("code", code); ("redirect_uri", lf_redirect_uri flow);
   ("client_id", ip_client_id provider); ("code_verifier", lf_code_verifier flow)].

Definition redeem_code (provider : IdentityProviderProfile) (flow : LoginFlow) (code : string) : outcome (dict json) :=
  match token_endpoint provider (exchange_form provider flow code) with
  | None => Failed "token_endpoint_unreachable"
  | Some response =>
      fail_if (negb (hr_status response =? 200)) "token_exchange_failed" ≫= λ _,
      fail_if (MAX_TOKEN_RESPONSE_BYTES <? hr_size response) "token_response_too_large" ≫= λ _,
      match hr_json response with Some (JObj payload) => Done payload | _ => Failed "token_response_invalid" end
  end.

Definition complete_authorization (provider : IdentityProviderProfile) (metadata : ProviderMetadata) (flow : LoginFlow)
  (code state : string) : outcome (dict json) :=
  compare_digest state (lf_state flow) ≫= λ state_ok,
  fail_if (negb state_ok) "state_mismatch" ≫= λ _,
  fail_if (negb (bool_decide (lf_provider_id flow = ip_id provider))) "provider_mismatch" ≫= λ _,
  redeem_code provider flow code ≫= λ token_response,
  match dict_get "id_token" token_response with
  | Some (JStr id_token) =>
      if str_empty id_token then Failed "missing_id_token" else
      verify_id_token id_token provider metadata (Some (lf_nonce flow)) ≫= λ claims,
      enforce_email_domain provider claims ≫= λ _, Done claims
  | _ => Failed "missing_id_token"
  end.

(** * The routes *)

Record SsoState := MkSso { so_flows : LoginFlows; so_sessions : Sessions }.

Definition MAX_FLOWS : positive := 4096.
Definition MAX_SESSIONS : positive := 20000.

(** [establish_session], given the random values it draws. *)
Definition establish_session (store : IdentityConfigStore) (provider_id subject : string) (claims : dict json)
  (auth_method display_name email token csrf : string) (now : Z) (sessions : Sessions) : result (Sessions * SsoSession) :=
  sanitize_claims claims ≫= λ kept,
  let s := MkSession (token_digest token) subject provider_id auth_method csrf display_name email kept now
             (now + ic_session_ttl store) now in
  Ok (create_session MAX_SESSIONS (ic_session_idle_timeout store) now s sessions, s).

(** [is_safe_relative_path]: [urlsplit] drops tabs and line breaks first, and what
    starts with one slash has neither a scheme nor a host. *)
Fixpoint drop_breaks (s : string) : string :=
  match s with
  | "" => ""
  | String c s => if bool_decide (nat_of_ascii c ∈ [9%nat; 10%nat; 13%nat]) then drop_breaks s else String c (drop_breaks s)
  end.

Definition is_safe_relative_path (value : string) : bool :=
  String.prefix "/" value && negb (String.prefix "//" value) && negb (String.prefix "/\" value)
  && string_forall (λ c, negb (bool_decide (c = "\"%char)) && negb (bool_decide (nat_of_ascii c ∈ [10%nat; 13%nat]))) value
  && negb (String.prefix "//" (drop_breaks value)).

Definition safe_return_to (candidate : string) (store : IdentityConfigStore) : string :=
  if negb (str_empty candidate) && is_safe_relative_path candidate then candidate else ic_default_landing_path store.

(** [sso_login], from a provider that was found to the flow it stores. *)
Definition sso_login (store : IdentityConfigStore) (provider_id return_to base_url : string) (now : Z)
  (flow_id state nonce verifier : string) (st : SsoState) : SsoState * outcome LoginFlow :=
  match get_enabled store provider_id with
  | None => (st, Failed "Unknown identity provider.")
  | Some profile =>
      if bool_decide (ip_kind profile = KindLocal) then (st, Failed "That provider does not use a redirect-based sign-in.") else
      match discover (ip_issuer profile) with
      | None => (st, Failed "discovery_failed")
      | Some metadata =>
          match build_authorization_request profile metadata base_url (safe_return_to return_to store)
                  (ic_login_flow_ttl store) now flow_id state nonce verifier with
          | Failed c => (st, Failed c)
          | Done flow => (MkSso (put_flow MAX_FLOWS now flow (so_flows st)) (so_sessions st), Done flow)
          end
      end
  end.

(** What the browser is told: the session and where to go, or the category of the
    failure, which is also what is audited. *)
Definition sso_callback (store : IdentityConfigStore) (cookie code state error : string) (now : Z) (token csrf : string)
  (st : SsoState) : SsoState * outcome (SsoSession * string) :=
  let '(flows, flow) := if str_empty cookie then (so_flows st, None) else consume_flow now cookie (so_flows st) in
  let st := MkSso flows (so_sessions st) in
  if negb (str_empty error) then (st, Failed "provider_denied") else
  match flow with
  | None => (st, Failed "no_login_flow")
  | Some flow =>
      if str_empty code then (st, Failed "missing_code") else
      match get_enabled store (lf_provider_id flow) with
      | None => (st, Failed "provider_removed")
      | Some profile =>
          match discover (ip_issuer profile) with
          | None => (st, Failed "discovery_failed")
          | Some metadata =>
              match complete_authorization profile metadata flow code state with
              | Failed c => (st, Failed c)
              | Done claims =>
                  match establish_session store (ip_id profile) (principal_subject profile claims) claims "oidc"
                          (default "" (claim_scalar claims (ip_name_claim profile)))
                          (default "" (claim_scalar claims (ip_email_claim profile))) token csrf now (so_sessions st) with
                  | Raise _ => (st, Failed "claims_too_large")
                  | Ok (sessions, s) => (MkSso flows sessions, Done (s, lf_return_to flow))
                  end
              end
          end
      end
  end.
End exchange.

(** * The stores *)

Section stores.
Context (max_entries : positive).

(** What happens to a store of flows: a write, or a callback's read. *)
Inductive flow_event := PutFlow (f : LoginFlow) (now : Z) | ConsumeFlow (flow_id : string) (now : Z).

Definition flow_step (flows : LoginFlows) (e : flow_event) : LoginFlows * option LoginFlow :=
  match e with
  | PutFlow f now => (put_flow max_entries now f flows, None)
  | ConsumeFlow flow_id now => consume_flow now flow_id flows
  end.

Definition flow_run (events : list flow_event) : LoginFlows * list (option LoginFlow) :=
  foldl (λ st e, let '(flows, r) := flow_step st.1 e in (flows, st.2 ++ [r])) ([], []) events.

Definition is_put (flow_id : string) (e : flow_event) : bool :=
  match e with PutFlow f _ => bool_decide (lf_flow_id f = flow_id) | _ => false end.
Definition is_grant (flow_id : string) (r : option LoginFlow) : bool :=
  match r with Some f => bool_decide (lf_flow_id f = flow_id) | None => false end.
Definition count_of {A} (f : A → bool) (l : list A) : nat := length (List.filter f l).

Lemma count_of_app {A} (f : A → bool) l k : count_of f (l ++ k) = (count_of f l + count_of f k)%nat.
Proof. unfold count_of. by rewrite List.filter_app, length_app. Qed.

(** The flow [f] was stored before the [i]th event. *)
Definition stored_before (events : list flow_event) (i : nat) (f : LoginFlow) : Prop :=
  ∃ j now, (j < i)%nat ∧ events !! j = Some (PutFlow f now).

(** The [i]th event is the callback [f] answers, in time. *)
Definition answers (events : list flow_event) (i : nat) (f : LoginFlow) : Prop :=
  ∃ now, events !! i = Some (ConsumeFlow (lf_flow_id f) now) ∧ now < lf_expires_at f ∧ stored_before events i f.

Record flow_run_ok (events : list flow_event) (st : LoginFlows * list (option LoginFlow)) : Prop := {
  fr_store : store_ok lf_flow_id max_entries st.1;
  fr_length : length st.2 = length events;
  fr_count flow_id : (count_of (is_grant flow_id) st.2 + (if bool_decide (flow_id ∈ dict_keys st.1) then 1 else 0)
                      ≤ count_of (is_put flow_id) events)%nat;
  fr_stored k f : (k, f) ∈ st.1 → stored_before events (length events) f;
  fr_answers i f : st.2 !! i = Some (Some f) → answers events i f;
}.

Lemma stored_before_snoc events e i f : stored_before events i f → stored_before (events ++ [e]) i f.
Proof. intros (j & now & Hj & H). exists j, now. split; [done|]. by apply lookup_app_l_Some. Qed.

Lemma answers_snoc events e i f : answers events i f → answers (events ++ [e]) i f.
Proof.
  intros (now & H & Hexp & Hst). exists now. split; [by apply lookup_app_l_Some|]. split; [done|]. by apply stored_before_snoc.
Qed.

Lemma stored_before_last events e f : stored_before events (length events) f → stored_before (events ++ [e]) (length (events ++ [e])) f.
Proof.
  intros (j & now & Hj & H). exists j, now. rewrite length_app. split; [cbn; lia|]. by apply lookup_app_l_Some.
Qed.

Lemma flow_put_ok events flows results f now :
  flow_run_ok events (flows, results) →
  flow_run_ok (events ++ [PutFlow f now]) (put_flow max_entries now f flows, results ++ [None]).
Proof.
  intros [Hok Hlen Hcount Hin Hres]. cbn [fst snd] in *. split; cbn [fst snd].
  - by apply put_ok.
  - by rewrite !length_app, Hlen.
  - intros id. rewrite !count_of_app. specialize (Hcount id). pose proof (Nat.le_trans _ _ _ (Nat.le_add_r _ _) Hcount) as Hle. unfold count_of at 2 4. cbn.
    destruct (decide (lf_flow_id f = id)) as [Hid|Hid].
    + rewrite (bool_decide_eq_true_2 (lf_flow_id f = id)) by done. cbn. destruct (bool_decide (id ∈ dict_keys (put_flow _ _ _ _))); lia.
    + rewrite (bool_decide_eq_false_2 (lf_flow_id f = id)) by done. cbn.
      destruct (bool_decide (id ∈ dict_keys (put_flow _ _ _ _))) eqn:Hk; [|lia].
      apply bool_decide_eq_true in Hk. rewrite (bool_decide_eq_true_2 (id ∈ dict_keys flows)) in Hcount; [lia|].
      apply list_elem_of_fmap in Hk as ([k g] & -> & Hg). apply put_elem in Hg as [[= -> ->]|[Hg _]]; [done|].
      by apply (list_elem_of_fmap_2 fst) in Hg.
  - intros k g Hg. apply put_elem in Hg as [[= -> ->]|[Hg _]]; [|by eapply stored_before_last, Hin].
    exists (length events), now. rewrite length_app. split; [cbn; lia|]. by rewrite list_lookup_middle.
  - intros i g Hi. apply lookup_app_Some in Hi as [Hi|[_ Hi]]; [by apply answers_snoc, Hres|].
    by apply list_lookup_singleton_Some in Hi as [_ Hi].
Qed.

Lemma consume_flow_some now id flows f :
  store_ok lf_flow_id max_entries flows → (consume_flow now id flows).2 = Some f →
  (id, f) ∈ flows ∧ lf_flow_id f = id ∧ now < lf_expires_at f.
Proof.
  intros [[_ Hk] _] H. cbn in H. destruct (dict_get id flows) as [g|] eqn:Hg; [|done]. cbn in H.
  destruct (flow_expired now g) eqn:He; [done|]. injection H as ->. apply dict_get_Some in Hg.
  split; [done|]. split; [by apply Hk|]. unfold flow_expired in He. lia.
Qed.

Lemma flow_consume_ok events flows results id now :
  flow_run_ok events (flows, results) →
  flow_run_ok (events ++ [ConsumeFlow id now]) (dict_pop id flows, results ++ [(consume_flow now id flows).2]).
Proof.
  intros [Hok Hlen Hcount Hin Hres]. cbn [fst snd] in *. pose proof (λ f, consume_flow_some now id flows f Hok) as Hr.
  revert Hr. generalize (consume_flow now id flows).2. intros r Hr. split; cbn [fst snd].
  - by apply pop_ok.
  - by rewrite !length_app, Hlen.
  - intros id'. rewrite !count_of_app. specialize (Hcount id'). pose proof (Nat.le_trans _ _ _ (Nat.le_add_r _ _) Hcount) as Hle. unfold count_of at 2 4. cbn.
    assert (Hkeys : id' ∈ dict_keys (dict_pop id flows) → id' ∈ dict_keys flows ∧ id' ≠ id).
    { intros ([k g] & -> & Hg)%list_elem_of_fmap. apply dict_pop_elem in Hg as [Hg Hne]. split; [|done].
      by apply (list_elem_of_fmap_2 fst) in Hg. }
    destruct (is_grant id' r) eqn:Hgr.
    + unfold is_grant in Hgr. destruct r as [f|]; [|done]. apply bool_decide_eq_true in Hgr as <-.
      destruct (Hr f eq_refl) as (Hf & Hid & _).
      rewrite (bool_decide_eq_true_2 (lf_flow_id f ∈ dict_keys flows)) in Hcount.
      * cbn. rewrite (bool_decide_eq_false_2 (lf_flow_id f ∈ dict_keys (dict_pop id flows))); [lia|]. intros Hk. apply Hkeys in Hk as [_ Hk]. congruence.
      * rewrite Hid. by apply (list_elem_of_fmap_2 fst) in Hf.
    + cbn. destruct (bool_decide (id' ∈ dict_keys (dict_pop id flows))) eqn:Hk; [apply bool_decide_eq_true in Hk|lia]. rewrite bool_decide_eq_true_2 in Hcount; [lia|]. by apply Hkeys.
  - intros k g Hg. apply dict_pop_elem in Hg as [Hg _]. by eapply stored_before_last, Hin.
  - intros i g Hi. apply lookup_app_Some in Hi as [Hi|[Hge Hi]]; [by apply answers_snoc, Hres|].
    apply list_lookup_singleton_Some in Hi as [Hi0 Hi]. destruct (Hr g Hi) as (Hg & <- & Hexp).
    replace i with (length events) by lia. exists now. split; [by rewrite list_lookup_middle|]. split; [done|].
    by eapply stored_before_snoc, Hin.
Qed.

(** A login flow is used once: in any run of the store, a flow is handed to a
    callback at most as often as it was stored, and only to one that names it,
    before it expires; and the store stays within its bound. *)
Theorem login_flow_single_use events :
  let '(flows, results) := flow_run events in
  (∀ flow_id, count_of (is_grant flow_id) results ≤ count_of (is_put flow_id) events)%nat
  ∧ (∀ i f, results !! i = Some (Some f) → answers events i f)
  ∧ Z.of_nat (length flows) ≤ Z.pos max_entries.
Proof.
  assert (H : flow_run_ok events (flow_run events)).
  { unfold flow_run. induction events as [|e events IH] using rev_ind.
    - split; cbn; [by apply empty_ok|done|intros; by rewrite bool_decide_eq_false_2 by apply not_elem_of_nil
        |by intros ?? ?%not_elem_of_nil|done].
    - rewrite foldl_snoc. destruct (foldl _ _ events) as [flows results].
      destruct e as [f now|id now]; [by apply flow_put_ok|by apply flow_consume_ok]. }
  destruct (flow_run events) as [flows results]. destruct H as [[_ Hl] _ Hcount _ Hres]. split_and!; [|exact Hres|exact Hl].
  intros id. etrans; [|exact (Hcount id)]. apply Nat.le_add_r.
Qed.
End stores.

(** * A session that is answered is one that should be *)

Section sessions.
Context (max_entries : positive).

(** What happens to the session store; the idle timeout is what the
    configuration says at that moment. *)
Inductive session_event :=
| CreateSession (s : SsoSession) (idle_timeout now : Z)
| GetSession (digest : string) (idle_timeout now : Z)
| TouchSession (digest : string) (now : Z)
| DeleteSession (digest : string)
| DeleteForSubject (subject : string).

Definition session_step (sessions : Sessions) (e : session_event) : Sessions * option SsoSession :=
  match e with
  | CreateSession s idle now => (create_session max_entries idle now s sessions, None)
  | GetSession digest idle now => get_session idle now digest sessions
  | TouchSession digest now => (touch_session digest now sessions, None)
  | DeleteSession digest => (delete_session digest sessions, None)
  | DeleteForSubject subject => ((delete_for_subject subject sessions).1, None)
  end.

Definition session_run (events : list session_event) : Sessions := foldl (λ st e, (session_step st e).1) [] events.

(** Everything but the time it was last seen at. *)
Definition same_session (a b : SsoSession) : Prop := seen 0 a = seen 0 b.

Definition revokes (s : SsoSession) (e : session_event) : Prop :=
  e = DeleteSession (ss_session_digest s) ∨ e = DeleteForSubject (ss_subject s).

(** Created by an event, and by none after it revoked. *)
Definition live_in (events : list session_event) (s : SsoSession) : Prop :=
  ∃ before s0 idle now after, events = before ++ CreateSession s0 idle now :: after ∧ same_session s0 s
    ∧ ∀ e, e ∈ after → ¬ revokes s e.

Definition sessions_ok (events : list session_event) (sessions : Sessions) : Prop :=
  store_ok ss_session_digest max_entries sessions ∧ ∀ k s, (k, s) ∈ sessions → live_in events s.

Lemma live_in_snoc events s e : live_in events s → ¬ revokes s e → live_in (events ++ [e]) s.
Proof.
  intros (before & s0 & idle & now & after & -> & Hs & Hafter) He. exists before, s0, idle, now, (after ++ [e]).
  rewrite <- app_assoc. split; [done|]. split; [done|]. intros e' [He'|<-%list_elem_of_singleton]%elem_of_app; auto.
Qed.

Lemma live_in_new events s idle now : live_in (events ++ [CreateSession s idle now]) s.
Proof. exists events, s, idle, now, []. split; [done|]. split; [done|]. by intros e ?%not_elem_of_nil. Qed.

Lemma live_in_same events s s' : same_session s s' → live_in events s → live_in events s'.
Proof.
  intros Hss (before & s0 & idle & now & after & -> & Hs & Hafter). exists before, s0, idle, now, after.
  split; [done|]. split; [unfold same_session in *; congruence|]. intros e He Hr. apply (Hafter e He). unfold revokes in *.
  unfold same_session in Hss. destruct s, s'. cbn in *. injection Hss as -> -> _. exact Hr.
Qed.

Lemma same_session_seen now s : same_session s (seen now s).
Proof. done. Qed.

Lemma replace_session_ok events sessions digest now s :
  sessions_ok events sessions → dict_get digest sessions = Some s → sessions_ok events (dict_set digest (seen now s) sessions).
Proof.
  intros [[[Hd Hk] Hl] Hlive] Hs. pose proof (dict_get_Some _ _ _ Hs) as Hin. pose proof (Hk _ _ Hin) as Hkey.
  assert (Hkeys : dict_keys (dict_set digest (seen now s) sessions) = dict_keys sessions).
  { rewrite dict_set_keys, bool_decide_eq_true_2; [done|]. apply dict_get_is_Some. by eexists. }
  split.
  - split; [split|].
    + by rewrite Hkeys.
    + intros k x [[= -> ->]|H]%dict_set_in; [exact Hkey|by apply Hk].
    + rewrite <- (length_fmap fst). change (_.*1) with (dict_keys (dict_set digest (seen now s) sessions)).
      rewrite Hkeys. unfold dict_keys. by rewrite length_fmap.
  - intros k x [[= -> ->]|H]%dict_set_in; [|by eapply Hlive]. eapply live_in_same; [apply same_session_seen|by eapply Hlive].
Qed.

Lemma sub_sessions_ok events e sessions sessions' :
  sessions_ok events sessions → store_ok ss_session_digest max_entries sessions' →
  (∀ k s, (k, s) ∈ sessions' → (k, s) ∈ sessions ∧ ¬ revokes s e) → sessions_ok (events ++ [e]) sessions'.
Proof.
  intros [_ Hlive] Hok Hsub. split; [done|]. intros k s Hs. destruct (Hsub k s Hs) as [Hin He].
  by eapply live_in_snoc, He; eapply Hlive.
Qed.

Lemma session_step_ok events sessions e : sessions_ok events sessions → sessions_ok (events ++ [e]) (session_step sessions e).1.
Proof.
  intros H. pose proof H as [Hok Hlive]. destruct e as [s idle now|digest idle now|digest now|digest|subject]; cbn [session_step fst].
  - split; [by apply put_ok|]. intros k x [[= -> ->]|[Hx _]]%put_elem; [apply live_in_new|].
    eapply live_in_snoc; [by eapply Hlive|]. by intros [?|?].
  - unfold get_session. destruct (dict_get digest sessions) as [s|]; [destruct (session_expired idle now s)|];
      eapply sub_sessions_ok; try exact H; try (by apply pop_ok); try done.
    + intros k x [Hx _]%dict_pop_elem. split; [done|]. by intros [?|?].
    + intros k x Hx. split; [done|]. by intros [?|?].
    + intros k x Hx. split; [done|]. by intros [?|?].
  - assert (Hn : sessions_ok (events ++ [TouchSession digest now]) sessions).
    { eapply sub_sessions_ok; [exact H|exact Hok|]. intros k x Hx. split; [done|]. by intros [?|?]. }
    unfold touch_session. destruct (dict_get digest sessions) eqn:E; [|done]. by apply replace_session_ok.
  - eapply sub_sessions_ok; [exact H|by apply pop_ok|]. intros k x [Hx Hne]%dict_pop_elem. split; [done|].
    intros [[= ->]|?]; [|done]. apply Hne. destruct Hok as [[_ Hk] _]. symmetry. by apply Hk.
  - eapply sub_sessions_ok; [exact H| |].
    + destruct Hok as [Hw Hl]. split; [by apply filter_well_keyed|].
      pose proof (filter_length_le (λ e, negb (bool_decide (ss_subject e.2 = subject))) sessions). cbn [fst delete_for_subject]. lia.
    + intros k x Hx. apply elem_of_lfilter in Hx as [Hx Hne]. split; [done|].
      intros [?|[= ->]]; [done|]. by rewrite bool_decide_eq_true_2 in Hne.
Qed.

Lemma session_run_ok events : sessions_ok events (session_run events).
Proof.
  unfold session_run. induction events as [|e events IH] using rev_ind; [|rewrite foldl_snoc; by apply session_step_ok].
  split; [by apply empty_ok|]. by intros ?? ?%not_elem_of_nil.
Qed.

(** A session that is answered is one that should be: after any run of the
    store, what a lookup by digest answers was created under that digest, has
    been revoked by no later deletion, of it or of its person, is not past its
    expiry nor idle for longer than the timeout in force; and the store stays
    within its bound. *)
Theorem answered_session_is_live events digest idle_timeout now s :
  (get_session idle_timeout now digest (session_run events)).2 = Some s →
  live_in events s ∧ ss_session_digest s = digest ∧ now < ss_expires_at s
  ∧ (0 < idle_timeout → now - ss_last_seen_at s ≤ idle_timeout)
  ∧ Z.of_nat (length (session_run events)) ≤ Z.pos max_entries.
Proof.
  destruct (session_run_ok events) as [[[_ Hk] Hl] Hlive]. unfold get_session.
  destruct (dict_get digest (session_run events)) as [s'|] eqn:E; [|done]. destruct (session_expired _ _ _) eqn:He; [done|].
  intros [= ->]. apply dict_get_Some in E. split; [by eapply Hlive|]. split; [by apply Hk|].
  unfold session_expired in He. apply orb_false_iff in He as [He Hidle]. split; [lia|]. split; [lia|done].
Qed.
End sessions.

(** * Signing in *)

Section sign_in.
Context `{FT : FloatText} `{DG : !Digest} `{SL : StrLower} `{IDP : Idp}.

Lemma verify_id_token_done id_token provider metadata nonce claims :
  verify_id_token id_token provider metadata (Some nonce) = Done claims →
  jwt_decode id_token (allowed_algorithms provider metadata) (ip_client_id provider) (ip_issuer provider)
    ["exp"; "iat"; "iss"; "aud"; ip_subject_claim provider] = Some claims
  ∧ dict_get "nonce" claims = Some (JStr nonce) ∧ is_Some (claim_scalar claims (ip_subject_claim provider)).
Proof.
  unfold verify_id_token. destruct (_ =? 0)%nat; [done|]. destruct (jwt_decode _ _ _ _ _) as [c|]; [|done].
  intros H. apply outcome_bind_done in H as ([] & Hn & H); [|by apply outcome_bind_done in H as (? & H & _); apply fail_if_done in H].
  apply outcome_bind_done in H as (_ & _ & H). apply outcome_bind_done in H as (_ & _ & H).
  apply outcome_bind_done in H as (u1 & Hs & H). apply fail_if_done, negb_false_iff in Hs. injection H as ->.
  split; [done|]. split; [|by destruct (claim_scalar _ _)].
  destruct (dict_get "nonce" claims) as [[| | | |n| |]|]; try done. by apply compare_digest_true in Hn as ->.
Qed.

Lemma allowed_algorithms_asymmetric provider metadata a :
  a ∈ allowed_algorithms provider metadata → a ∈ ALLOWED_ID_TOKEN_ALGORITHMS.
Proof.
  unfold allowed_algorithms. intros H.
  assert (Ha : a ∈ List.filter (λ a, bool_decide (a ∈ ALLOWED_ID_TOKEN_ALGORITHMS)) (ip_id_token_algorithms provider)).
  { destruct (_ =? 0)%nat; [done|]. by apply elem_of_lfilter in H as [H _]. }
  apply elem_of_lfilter in Ha as [_ Ha]. by apply bool_decide_eq_true in Ha.
Qed.

Lemma enforce_email_domain_done provider claims u :
  enforce_email_domain provider claims = Done u → ip_allowed_email_domains provider ≠ [] →
  email_domain (str_lower (default "" (claim_scalar claims (ip_email_claim provider)))) ∈ ip_allowed_email_domains provider.
Proof.
  unfold enforce_email_domain. intros H Hne. destruct (ip_allowed_email_domains provider) as [|d ds]; [done|]. cbn [length Nat.eqb] in H.
  apply outcome_bind_done in H as (_ & _ & H). apply fail_if_done, orb_false_iff in H as [_ H].
  apply negb_false_iff in H. by apply bool_decide_eq_true in H.
Qed.

(** What a completed exchange proves of the claims it returns. *)
Record exchanged (provider : IdentityProviderProfile) (metadata : ProviderMetadata) (flow : LoginFlow) (code state : string)
  (claims : dict json) : Prop := {
  ex_state : state = lf_state flow;
  ex_provider_id : ip_id provider = lf_provider_id flow;
  ex_token : ∃ response payload id_token,
    token_endpoint provider (exchange_form provider flow code) = Some response ∧ hr_status response = 200
    ∧ hr_json response = Some (JObj payload) ∧ dict_get "id_token" payload = Some (JStr id_token)
    ∧ jwt_decode id_token (allowed_algorithms provider metadata) (ip_client_id provider) (ip_issuer provider)
        ["exp"; "iat"; "iss"; "aud"; ip_subject_claim provider] = Some claims
    ∧ jwt_alg id_token ∈ ALLOWED_ID_TOKEN_ALGORITHMS;
  ex_nonce : dict_get "nonce" claims = Some (JStr (lf_nonce flow));
  ex_subject : is_Some (claim_scalar claims (ip_subject_claim provider));
  ex_email : ip_allowed_email_domains provider ≠ [] →
    email_domain (str_lower (default "" (claim_scalar claims (ip_email_claim provider)))) ∈ ip_allowed_email_domains provider;
}.

Lemma complete_authorization_done provider metadata flow code state claims :
  complete_authorization provider metadata flow code state = Done claims → exchanged provider metadata flow code state claims.
Proof.
  unfold complete_authorization, redeem_code. intros H. apply outcome_bind_done in H as ([] & Hst & H); [|done].
  apply compare_digest_true in Hst. apply outcome_bind_done in H as (_ & _ & H).
  apply outcome_bind_done in H as (u2 & Hp & H). apply fail_if_done, negb_false_iff, bool_decide_eq_true in Hp.
  apply outcome_bind_done in H as (payload & Hr & H). destruct (token_endpoint _ _) as [response|] eqn:Et; [|done].
  apply outcome_bind_done in Hr as (u3 & Hs & Hr). apply fail_if_done, negb_false_iff, Z.eqb_eq in Hs.
  apply outcome_bind_done in Hr as (_ & _ & Hr). destruct (hr_json response) as [[| | | | | |p]|] eqn:Ej; try done. injection Hr as ->.
  destruct (dict_get "id_token" payload) as [[| | | |id_token| |]|] eqn:Ei; try done. destruct (str_empty id_token); [done|].
  apply outcome_bind_done in H as (c & Hv & H). apply outcome_bind_done in H as ([] & He & H). injection H as ->.
  apply verify_id_token_done in Hv as (Hd & Hn & Hsub). split; try done.
  - exists response, payload, id_token. split_and!; try done. by eapply allowed_algorithms_asymmetric, jwt_alg_listed.
  - by apply (enforce_email_domain_done _ _ ()).
Qed.

Lemma get_enabled_id store id profile : get_enabled store id = Some profile → ip_enabled profile = true ∧ ip_id profile = id.
Proof. unfold get_enabled. intros [_ H]%List.find_some. apply andb_true_iff in H as [H ?]. by apply bool_decide_eq_true in H. Qed.

Lemma sanitize_claims_ok claims kept k : sanitize_claims claims = Ok kept → k ∈ STRIPPED_CLAIMS → dict_get k kept = None.
Proof.
  unfold sanitize_claims. intros H Hk. result_inv. apply dict_get_None. intros ([j v] & -> & Hin)%list_elem_of_fmap.
  apply elem_of_lfilter in Hin as [_ Hin]. cbn in Hin. by rewrite bool_decide_eq_true_2 in Hin.
Qed.

(** C29. A browser is signed in only by completing a flow it holds: one stored under
    its cookie and not expired, which is spent, for a provider that is enabled,
    with the flow's own state, a token the provider gave for the flow's code
    verifier, signed under an asymmetric algorithm and carrying the flow's nonce,
    from a permitted mail domain. The session stored is that provider's subject,
    under the digest of the token the browser gets, without the claims of the
    exchange itself, until the configured expiry. *)
Theorem sign_in_sound store cookie code state error now token csrf st st' s return_to :
  sso_callback store cookie code state error now token csrf st = (st', Done (s, return_to)) →
  ∃ flow profile metadata claims sub,
    dict_get cookie (so_flows st) = Some flow ∧ now < lf_expires_at flow ∧ dict_get cookie (so_flows st') = None
    ∧ return_to = lf_return_to flow
    ∧ get_enabled store (lf_provider_id flow) = Some profile ∧ ip_enabled profile = true
    ∧ exchanged profile metadata flow code state claims
    ∧ claim_scalar claims (ip_subject_claim profile) = Some sub ∧ ss_subject s = ip_subject_prefix profile +:+ sub
    ∧ ss_provider_id s = ip_id profile ∧ (∀ k, k ∈ STRIPPED_CLAIMS → dict_get k (ss_claims s) = None)
    ∧ dict_get (token_digest token) (so_sessions st') = Some s
    ∧ ss_expires_at s = now + ic_session_ttl store.
Proof.
  unfold sso_callback. destruct (str_empty cookie) eqn:Hcookie.
  { destruct (negb (str_empty error)); by intros [= _ ?]. }
  unfold consume_flow. destruct (negb (str_empty error)); [by intros [= _ ?]|].
  destruct (dict_get cookie (so_flows st)) as [flow|] eqn:Ef; cbn [mbind option_bind]; [|by intros [= _ ?]].
  destruct (flow_expired now flow) eqn:Hexp; [by intros [= _ ?]|]. destruct (str_empty code); [by intros [= _ ?]|].
  destruct (get_enabled store (lf_provider_id flow)) as [profile|] eqn:Eg; [|by intros [= _ ?]].
  destruct (discover (ip_issuer profile)) as [metadata|]; [|by intros [= _ ?]].
  destruct (complete_authorization profile metadata flow code state) as [claims|] eqn:Ec; [|by intros [= _ ?]].
  unfold establish_session. destruct (sanitize_claims claims) as [kept|] eqn:Es; cbn [mbind result_bind]; [|by intros [= _ ?]].
  intros [= <- <- <-]. apply complete_authorization_done in Ec as Hex. destruct (ex_subject _ _ _ _ _ _ Hex) as [sub Hsub].
  exists flow, profile, metadata, claims, sub. cbn [so_flows so_sessions ss_subject ss_provider_id ss_claims ss_expires_at].
  destruct (get_enabled_id _ _ _ Eg) as [Hen _]. unfold flow_expired in Hexp. split_and!; try done; try lia.
  - rewrite dict_get_pop. by rewrite bool_decide_eq_true_2.
  - unfold principal_subject. by rewrite Hsub.
  - intros k Hk. by eapply sanitize_claims_ok.
  - refine (bounded_put_get ss_session_digest ss_last_seen_at _ MAX_SESSIONS now (MkSession _ _ _ _ _ _ _ _ _ _ _) _).
Qed.
End sign_in.

(** * Where the browser goes next *)

(** How a browser reads a location relative to a page: tabs and line breaks are
    dropped, and two slashes of either kind at the front name another host. *)
Definition leaves_site (location : string) : bool :=
  match drop_breaks location with
  | String a (String b _) => bool_decide (a ∈ ["/"%char; "\"%char]) && bool_decide (b ∈ ["/"%char; "\"%char])
  | _ => false
  end.

Lemma drop_breaks_forall f s : string_forall f s = true → string_forall f (drop_breaks s) = true.
Proof.
  induction s as [|c s IH]; cbn; [done|]. intros [Hc Hs]%andb_true_iff. case_bool_decide; [by apply IH|]. cbn. by rewrite Hc, IH.
Qed.

(** The location a sign-in ends on stays on the site. *)
Theorem return_path_stays_on_site candidate store :
  is_safe_relative_path (ic_default_landing_path store) = true →
  let path := safe_return_to candidate store in
  leaves_site path = false ∧ ∃ rest, path = String "/" rest.
Proof.
  intros Hdefault path.
  assert (Hsafe : is_safe_relative_path path = true).
  { unfold path, safe_return_to. destruct (negb _ && _) eqn:E; [|done]. by apply andb_true_iff in E as [_ E]. }
  clearbody path. unfold is_safe_relative_path in Hsafe. rewrite !andb_true_iff in Hsafe. destruct Hsafe as [[[[Hslash _] _] Hclean] Hhost].
  destruct path as [|c path]; [done|]. assert (c = "/"%char) as ->.
  { cbn [String.prefix] in Hslash. by destruct (ascii_dec "/" c) as [<-|]. }
  split; [|by eexists]. apply drop_breaks_forall in Hclean. unfold leaves_site.
  change (drop_breaks (String "/" path)) with (String "/" (drop_breaks path)) in *. destruct (drop_breaks path) as [|b rest]; [done|].
  rewrite andb_false_iff. right. apply bool_decide_eq_false. intros [->|[->|?%not_elem_of_nil]%elem_of_cons]%elem_of_cons; [| |done].
  - destruct rest; discriminate Hhost.
  - discriminate Hclean.
Qed.

(** * A concrete sign-in *)

Section sample.
#[local] Existing Instances sample_floats sample_digest.

#[local] Instance ascii_lower : StrLower := {| str_lower := string_map ascii_lower_char |}.

(** A provider that gives one token, for the verifier [v1], and signs RS256. *)
Definition okta_token : string := "header.payload.signature".
Definition okta_claims : dict json :=
  [("sub", JStr "u1"); ("nonce", JStr "n1"); ("email", JStr "Ada@Example.com"); ("at_hash", JStr "x")].

#[local, refine] Instance okta : Idp := {|
  discover issuer := Some (MkMetadata ["RS256"] ["S256"]);
  token_endpoint p form :=
    if bool_decide (dict_get "code_verifier" form = Some "v1")
    then Some (MkResponse 200 100 (Some (JObj [("id_token", JStr okta_token)]))) else Some (MkResponse 400 10 None);
  jwt_alg token := "RS256";
  jwt_decode token algorithms audience issuer required :=
    if bool_decide (token = okta_token) && bool_decide ("RS256" ∈ algorithms) then Some okta_claims else None;
|}.
Proof.
  intros token algorithms audience issuer required claims. destruct (bool_decide (token = okta_token)); [|done].
  destruct (bool_decide ("RS256" ∈ algorithms)) eqn:E; [|done]. intros _. by apply bool_decide_eq_true in E.
Defined.

Definition okta_profile : IdentityProviderProfile :=
  MkProvider "okta" KindOidc true "querygate" "https://okta.example" "sub" "okta|" "email" "name" ["HS256"; "RS256"] ["example.com"].
Definition okta_store : IdentityConfigStore :=
  MkIdentity [okta_profile] (28800 * second_us) (3600 * second_us) (600 * second_us) "/admin/" (MkMapping [] []).

Definition started : SsoState :=
  (sso_login okta_store "okta" "//evil.example" "https://qg.example/" 0 "f1" "s1" "n1" "v1" (MkSso [] [])).1.

Definition signed_in (state : string) (now : Z) : SsoState * outcome (SsoSession * string) :=
  sso_callback okta_store "f1" "code" state "" now "qgs_token" "qgc_1" started.

Lemma sign_in_sound_witness :
  match (signed_in "s1" (5 * second_us)).2 with
  | Done (s, return_to) =>
      ss_subject s = "okta|u1" ∧ return_to = "/admin/"
      ∧ (∃ flow, dict_get "f1" (so_flows started) = Some flow ∧ return_to = lf_return_to flow)
  | Failed _ => False
  end
  ∧ (signed_in "forged" (5 * second_us)).2 = Failed "state_mismatch"
  ∧ (signed_in "s1" (601 * second_us)).2 = Failed "no_login_flow".
Proof.
  split; [|split; vm_compute; reflexivity].
  destruct (signed_in "s1" (5 * second_us)) as [st' [[s return_to]|c]] eqn:E; [|vm_compute in E; discriminate E].
  destruct (sign_in_sound okta_store "f1" "code" "s1" "" (5 * second_us) "qgs_token" "qgc_1" started st' s return_to E)
    as (flow & _ & _ & _ & _ & Hf & _ & _ & Hr & _).
  vm_compute in E. injection E as <- <- <-. split; [reflexivity|]. split; [reflexivity|]. exists flow. split; [exact Hf|exact Hr].
Defined.

Definition ada : SsoSession :=
  MkSession "d1" "ada" "okta" "oidc" "qgc_1" "" "" [] 0 (3600 * second_us) 0.
Definition ada_events : list session_event := [CreateSession ada (600 * second_us) 0; TouchSession "d1" (500 * second_us)].

Lemma answered_session_is_live_witness :
  live_in ada_events (seen (500 * second_us) ada)
  ∧ (get_session (600 * second_us) (1000 * second_us) "d1" (session_run 10 (ada_events ++ [DeleteForSubject "ada"]))).2 = None
  ∧ (get_session (600 * second_us) (1200 * second_us) "d1" (session_run 10 ada_events)).2 = None.
Proof.
  split; [|split; vm_compute; reflexivity].
  destruct (answered_session_is_live 10 ada_events "d1" (600 * second_us) (1000 * second_us) (seen (500 * second_us) ada)) as [H _].
  - vm_compute. reflexivity.
  - exact H.
Defined.

(** Only an explicit [false] counts as unverified: a provider that leaves the
    claim out, or sends it as text, passes the check for verified mail. *)
Theorem unverified_email_passes :
  enforce_email_domain okta_profile [("email", JStr "eve@example.com")] = Done tt
  ∧ enforce_email_domain okta_profile [("email", JStr "eve@example.com"); ("email_verified", JStr "false")] = Done tt.
Proof. split; vm_compute; reflexivity. Qed.
End sample.
