(* ===== verification/DeviceGrant.v ===== *)
(** The device authorization grant of [identity/device.py] over either store, the
    in-process one or the one of [identity/redis_sessions.py], and the bearer
    tokens it issues ([identity/authenticators.py]). Shown: however the requests
    of the replicas interleave, a token never carries a scope its approver did not
    hold or the client did not ask for; in process, a device code yields at most
    one token, which the Redis store does not keep. *)
From Stdlib Require Import Ascii.
From stdpp Require Import sorting.
From S2P Require Export Sessions.
Local Open Scope Z_scope.

(** * Records *)

Inductive GrantStatus := GrantPending | GrantApproved | GrantDenied.

#[export] Instance grant_status_eq_dec : EqDecision GrantStatus.
Proof. solve_decision. Defined.

Record DeviceGrant := MkGrant {
  dg_device_code_digest : string;
  dg_user_code : string;
  dg_client_name : string;
  dg_requested_scopes : list string;
  dg_status : GrantStatus;
  dg_subject : string;
  dg_provider_id : string;
  dg_granted_scopes : list string;
  dg_approver_claims : dict json;
  dg_interval : Z;
  dg_created_at : Z;
  dg_expires_at : Z;
  dg_last_polled_at : option Z;
}.

Definition grant_expired (now : Z) (g : DeviceGrant) : bool := dg_expires_at g <=? now.

Record IssuedToken := MkToken {
  it_token_digest : string;
  it_subject : string;
  it_provider_id : string;
  it_client_name : string;
  it_scopes : list string;
  it_approver_claims : dict json;
  it_created_at : Z;
  it_expires_at : Z;
}.

Definition token_expired (now : Z) (t : IssuedToken) : bool := it_expires_at t <=? now.

Definition MAX_PENDING_GRANTS : positive := 4096.
Definition MAX_ISSUED_TOKENS : positive := 20000.
Definition MAX_CLIENT_NAME_LENGTH : nat := 64.
Definition USER_CODE_GROUP : nat := 4.

(** * User codes and names *)

(** The letters and digits of [value.upper()]. *)
Class UserCodeText := code_characters : string → string.

Fixpoint code_groups (n : nat) (s : string) : string :=
  match s with
  | "" => ""
  | String c s =>
      match n with
      | O => String "-" (String c (code_groups (USER_CODE_GROUP - 1) s))
      | S n => String c (code_groups n s)
      end
  end.

Definition normalize_user_code `{UserCodeText} (value : string) : string := code_groups USER_CODE_GROUP (code_characters value).

(** [s[:n]], on the characters of a UTF-8 text. *)
Fixpoint take_chars (n : nat) (s : string) : string :=
  match s with
  | "" => ""
  | String c s =>
      if (128 <=? nat_of_ascii c)%nat && (nat_of_ascii c <? 192)%nat then String c (take_chars n s)
      else match n with O => "" | S n => String c (take_chars n s) end
  end.

Definition clean_client_name (name : string) : string :=
  take_chars MAX_CLIENT_NAME_LENGTH (strip (if str_empty name then "unnamed client" else name)).

(** [sorted(set(l))]. *)
Definition sorted_set (l : list string) : list string := sort_on (λ s, s) (remove_dups l).

(** * Stores of grants *)

(** What the flow uses of a store, and what it relies on: a grant that is found was
    put, under the digest of its device code, and has not expired. *)
Class DeviceGrantStore (S : Type) := {
  grant_put : Z → DeviceGrant → S → S;
  by_device_code : Z → string → S → S * option DeviceGrant;
  by_user_code : Z → string → S → S * option DeviceGrant;
  grant_delete : Z → string → S → S;
  holds : S → string → DeviceGrant → Prop;
  holds_put now g s k g' : holds (grant_put now g s) k g' → k = dg_device_code_digest g ∧ g' = g ∨ holds s k g';
  holds_delete now code s k g : holds (grant_delete now code s) k g → holds s k g;
  holds_by_device_code now code s k g : holds (by_device_code now code s).1 k g → holds s k g;
  holds_by_user_code now code s k g : holds (by_user_code now code s).1 k g → holds s k g;
  by_device_code_found now code s g :
    (by_device_code now code s).2 = Some g → holds s code g ∧ now < dg_expires_at g;
  by_user_code_found now code s g :
    (by_user_code now code s).2 = Some g → (∃ k, holds s k g) ∧ now < dg_expires_at g;
}.

(** ** In process *)

Record InProcessGrants := MkInProcessGrants { ig_grants : dict DeviceGrant; ig_by_user_code : dict string }.

Definition in_process_delete (code : string) (s : InProcessGrants) : InProcessGrants :=
  match dict_get code (ig_grants s) with
  | Some g => MkInProcessGrants (dict_pop code (ig_grants s)) (dict_pop (dg_user_code g) (ig_by_user_code s))
  | None => s
  end.

(** [_prune]: every expired grant goes, with the entry of its user code. *)
Definition prune_grants (now : Z) (s : InProcessGrants) : InProcessGrants :=
  MkInProcessGrants (prune grant_expired now (ig_grants s))
    (foldl (λ codes e, dict_pop (dg_user_code e.2) codes) (ig_by_user_code s)
       (List.filter (λ e, grant_expired now e.2) (ig_grants s))).

Definition in_process_put (now : Z) (g : DeviceGrant) (s : InProcessGrants) : InProcessGrants :=
  let s := prune_grants now s in
  let s := if Z.pos MAX_PENDING_GRANTS <=? Z.of_nat (length (ig_grants s))
           then match oldest dg_created_at (ig_grants s) with
                | Some o => in_process_delete (dg_device_code_digest o) s
                | None => s
                end
           else s in
  MkInProcessGrants (dict_set (dg_device_code_digest g) g (ig_grants s))
    (dict_set (dg_user_code g) (dg_device_code_digest g) (ig_by_user_code s)).

Definition in_process_by_device_code (now : Z) (code : string) (s : InProcessGrants) : InProcessGrants * option DeviceGrant :=
  match dict_get code (ig_grants s) with
  | Some g => if grant_expired now g then (in_process_delete code s, None) else (s, Some g)
  | None => (s, None)
  end.

Definition in_process_by_user_code (now : Z) (user_code : string) (s : InProcessGrants) : InProcessGrants * option DeviceGrant :=
  match dict_get user_code (ig_by_user_code s) with
  | Some digest => if str_empty digest then (s, None) else in_process_by_device_code now digest s
  | None => (s, None)
  end.

Definition in_process_holds (s : InProcessGrants) (k : string) (g : DeviceGrant) : Prop := (k, g) ∈ ig_grants s.

Lemma in_process_delete_elem code s e : e ∈ ig_grants (in_process_delete code s) → e ∈ ig_grants s.
Proof. unfold in_process_delete. destruct (dict_get _ _); [|done]. cbn. by intros [? _]%dict_pop_elem. Qed.

Lemma in_process_put_elem now g s e :
  e ∈ ig_grants (in_process_put now g s) → e = (dg_device_code_digest g, g) ∨ e ∈ ig_grants s.
Proof.
  unfold in_process_put. cbn [ig_grants]. intros [->|H]%dict_set_in; [by left|]. right.
  assert (Hp : e ∈ ig_grants (prune_grants now s)).
  { destruct (_ <=? _); [|done]. destruct (oldest _ _); [|done]. by apply in_process_delete_elem in H. }
  by apply prune_elem in Hp as [? _].
Qed.

Lemma in_process_lookup_state now code s e : e ∈ ig_grants (in_process_by_device_code now code s).1 → e ∈ ig_grants s.
Proof.
  unfold in_process_by_device_code. destruct (dict_get code _); [|done]. destruct (grant_expired _ _); [|done].
  apply in_process_delete_elem.
Qed.

Lemma in_process_found now code s g : (in_process_by_device_code now code s).2 = Some g →
  (code, g) ∈ ig_grants s ∧ now < dg_expires_at g.
Proof.
  unfold in_process_by_device_code. destruct (dict_get code _) as [g'|] eqn:E; [|done].
  destruct (grant_expired now g') eqn:He; [done|]. intros [= ->]. apply dict_get_Some in E. unfold grant_expired in He.
  split; [done|lia].
Qed.

#[export, refine] Instance in_process_grants : DeviceGrantStore InProcessGrants := {|
  grant_put := in_process_put;
  by_device_code := in_process_by_device_code;
  by_user_code := in_process_by_user_code;
  grant_delete _ := in_process_delete;
  holds := in_process_holds;
|}.
Proof.
  - by intros now g s k g' [[= -> ->]|H]%in_process_put_elem; [left|right].
  - by intros _ code s k g H%in_process_delete_elem.
  - by intros now code s k g H%in_process_lookup_state.
  - intros now code s k g H. unfold in_process_by_user_code in H. destruct (dict_get code _) as [d|]; [|done].
    destruct (str_empty d); [done|]. by apply in_process_lookup_state in H.
  - intros now code s g H. by apply in_process_found.
  - intros now code s g H. unfold in_process_by_user_code in H. destruct (dict_get code _) as [d|]; [|done].
    destruct (str_empty d); [done|]. apply in_process_found in H as [H ?]. split; [by exists d|done].
Defined.

(** ** In Redis *)

(** Documents under [qgsso:grant:{digest}] and digests under [qgsso:ucode:{code}],
    each with the time its key goes. *)
Record RedisGrants := MkRedisGrants { rg_docs : gmap string (DeviceGrant * Z); rg_codes : gmap string (string * Z) }.

(** [_ttl]: whole seconds, at least one. *)
Definition redis_deadline (now expires_at : Z) : Z := now + Z.max 1 (Z.quot (expires_at - now) second_us) * second_us.

Definition live_key {A} (now : Z) (k : string) (m : gmap string (A * Z)) : option A :=
  match m !! k with Some (a, deadline) => if deadline <=? now then None else Some a | None => None end.

Definition redis_grant_put (now : Z) (g : DeviceGrant) (s : RedisGrants) : RedisGrants :=
  let d := redis_deadline now (dg_expires_at g) in
  MkRedisGrants (<[dg_device_code_digest g := (g, d)]> (rg_docs s)) (<[dg_user_code g := (dg_device_code_digest g, d)]> (rg_codes s)).

Definition redis_grant_delete (now : Z) (code : string) (s : RedisGrants) : RedisGrants :=
  MkRedisGrants (delete code (rg_docs s))
    (match live_key now code (rg_docs s) with
     | Some g => if str_empty (dg_user_code g) then rg_codes s else delete (dg_user_code g) (rg_codes s)
     | None => rg_codes s
     end).

Definition redis_by_device_code (now : Z) (code : string) (s : RedisGrants) : RedisGrants * option DeviceGrant :=
  match live_key now code (rg_docs s) with
  | Some g => if grant_expired now g then (redis_grant_delete now code s, None) else (s, Some g)
  | None => (s, None)
  end.

Definition redis_by_user_code (now : Z) (user_code : string) (s : RedisGrants) : RedisGrants * option DeviceGrant :=
  match live_key now user_code (rg_codes s) with
  | Some digest => redis_by_device_code now digest s
  | None => (s, None)
  end.

Definition redis_holds (s : RedisGrants) (k : string) (g : DeviceGrant) : Prop := ∃ d, rg_docs s !! k = Some (g, d).

Lemma redis_delete_holds now code s k g : redis_holds (redis_grant_delete now code s) k g → redis_holds s k g.
Proof. intros (d & H). cbn in H. apply lookup_delete_Some in H as [_ H]. by exists d. Qed.

Lemma redis_lookup_state now code s k g : redis_holds (redis_by_device_code now code s).1 k g → redis_holds s k g.
Proof.
  unfold redis_by_device_code. destruct (live_key _ _ _); [|done]. destruct (grant_expired _ _); [|done]. apply redis_delete_holds.
Qed.

Lemma redis_found now code s g : (redis_by_device_code now code s).2 = Some g → redis_holds s code g ∧ now < dg_expires_at g.
Proof.
  unfold redis_by_device_code, live_key. destruct (rg_docs s !! code) as [[g' d]|] eqn:E; [|done].
  destruct (d <=? now); [done|]. destruct (grant_expired now g') eqn:He; [done|]. intros [= ->].
  unfold grant_expired in He. split; [by exists d|lia].
Qed.

#[export, refine] Instance redis_grants : DeviceGrantStore RedisGrants := {|
  grant_put := redis_grant_put;
  by_device_code := redis_by_device_code;
  by_user_code := redis_by_user_code;
  grant_delete := redis_grant_delete;
  holds := redis_holds;
|}.
Proof.
  - intros now g s k g' (d & H). cbn in H. destruct (decide (dg_device_code_digest g = k)) as [<-|Hne].
    + rewrite lookup_insert_eq in H. injection H as -> _. by left.
    + rewrite lookup_insert_ne in H by done. right. by exists d.
  - exact redis_delete_holds.
  - exact redis_lookup_state.
  - intros now code s k g. unfold redis_by_user_code. destruct (live_key _ _ _); [|done]. apply redis_lookup_state.
  - exact redis_found.
  - intros now code s g. unfold redis_by_user_code. destruct (live_key _ _ _) as [k|]; [|done].
    intros [H ?]%redis_found. split; [by exists k|done].
Defined.

(** * Issued tokens *)

Abbreviation Tokens := (dict IssuedToken).

Definition put_token (now : Z) (t : IssuedToken) (tokens : Tokens) : Tokens :=
  bounded_put it_token_digest it_expires_at token_expired MAX_ISSUED_TOKENS now t tokens.

Definition get_token (now : Z) (digest : string) (tokens : Tokens) : Tokens * option IssuedToken :=
  match dict_get digest tokens with
  | None => (tokens, None)
  | Some t => if token_expired now t then (dict_pop digest tokens, None) else (tokens, Some t)
  end.

Definition delete_tokens_for_subject (subject : string) (tokens : Tokens) : Tokens * nat :=
  (List.filter (λ e, negb (bool_decide (it_subject e.2 = subject))) tokens,
   length (List.filter (λ e, bool_decide (it_subject e.2 = subject)) tokens)).

(** * The flow *)

(** The person who approves, as their session and the mapping say. *)
Record Approver := MkApprover {
  ap_subject : string;
  ap_scopes : gset string;
  ap_provider_id : string;
  ap_claims : dict json;
}.

Definition with_status (status : GrantStatus) (g : DeviceGrant) : DeviceGrant :=
  MkGrant (dg_device_code_digest g) (dg_user_code g) (dg_client_name g) (dg_requested_scopes g) status (dg_subject g)
    (dg_provider_id g) (dg_granted_scopes g) (dg_approver_claims g) (dg_interval g) (dg_created_at g) (dg_expires_at g)
    (dg_last_polled_at g).

Definition polled (at_ : Z) (g : DeviceGrant) : DeviceGrant :=
  MkGrant (dg_device_code_digest g) (dg_user_code g) (dg_client_name g) (dg_requested_scopes g) (dg_status g) (dg_subject g)
    (dg_provider_id g) (dg_granted_scopes g) (dg_approver_claims g) (dg_interval g) (dg_created_at g) (dg_expires_at g)
    (Some at_).

Definition requested_or_all (g : DeviceGrant) (a : Approver) : gset string :=
  if (length (dg_requested_scopes g) =? 0)%nat then ap_scopes a else list_to_set (dg_requested_scopes g).

Definition approved_by (a : Approver) (g : DeviceGrant) : DeviceGrant :=
  MkGrant (dg_device_code_digest g) (dg_user_code g) (dg_client_name g) (dg_requested_scopes g) GrantApproved (ap_subject a)
    (ap_provider_id a) (sort_on (λ s, s) (elements (requested_or_all g a ∩ ap_scopes a))) (ap_claims a) (dg_interval g)
    (dg_created_at g) (dg_expires_at g) (dg_last_polled_at g).

Section flow.
Context `{DG : !Digest} `{UC : UserCodeText} {S : Type} `{GS : !DeviceGrantStore S}.

Record DeviceState := MkDevice { ds_grants : S; ds_tokens : Tokens }.

(** [start_device_authorization], given the codes it draws. *)
Definition start_device_authorization (client_name : string) (requested_scopes : list string) (ttl interval : Z)
  (device_code user_code : string) (now : Z) (st : DeviceState) : DeviceState * DeviceGrant :=
  let g := MkGrant (token_digest device_code) user_code (clean_client_name client_name) (sorted_set requested_scopes)
             GrantPending "" "" [] [] interval now (now + ttl) None in
  (MkDevice (grant_put now g (ds_grants st)) (ds_tokens st), g).

(** The requests that act on a grant: each first reads it, and what it then does
    is a function of what it read. *)
Inductive device_request :=
| Approve (user_code : string) (approver : Approver)
| Deny (user_code : string)
| Redeem (device_code : string) (token_ttl : Z) (access_token : string).

Definition read_grant (r : device_request) (now : Z) (st : DeviceState) : DeviceState * option DeviceGrant :=
  let '(grants, g) := match r with
                      | Approve user_code _ | Deny user_code => by_user_code now (normalize_user_code user_code) (ds_grants st)
                      | Redeem device_code _ _ => by_device_code now (token_digest device_code) (ds_grants st)
                      end in
  (MkDevice grants (ds_tokens st), g).

(** What a request answers: a grant, or a token. *)
Inductive device_answer := Resolved (g : DeviceGrant) | Issued (t : IssuedToken).

Definition mint (g : DeviceGrant) (access_token : string) (token_ttl now : Z) : IssuedToken :=
  MkToken (token_digest access_token) (dg_subject g) (dg_provider_id g) (dg_client_name g) (dg_granted_scopes g)
    (dg_approver_claims g) now (now + token_ttl).

Definition put_grant (now : Z) (g : DeviceGrant) (st : DeviceState) : DeviceState :=
  MkDevice (grant_put now g (ds_grants st)) (ds_tokens st).
Definition delete_grant (now : Z) (code : string) (st : DeviceState) : DeviceState :=
  MkDevice (grant_delete now code (ds_grants st)) (ds_tokens st).

(** The rest of [approve_device_grant], [deny_device_grant] and
    [redeem_device_code], after the read. *)
Definition act_on_grant (r : device_request) (g : option DeviceGrant) (now : Z) (st : DeviceState) : DeviceState * outcome device_answer :=
  match r, g with
  | Approve _ a, Some g =>
      if bool_decide (dg_status g = GrantPending)
      then (put_grant now (approved_by a g) st, Done (Resolved (approved_by a g)))
      else (st, Failed "already_resolved")
  | Deny _, Some g => (put_grant now (with_status GrantDenied g) st, Done (Resolved (with_status GrantDenied g)))
  | Approve _ _, None | Deny _, None => (st, Failed "invalid_user_code")
  | Redeem _ _ _, None => (st, Failed "expired_token")
  | Redeem device_code token_ttl access_token, Some g =>
      match dg_status g with
      | GrantDenied => (delete_grant now (token_digest device_code) st, Failed "access_denied")
      | GrantPending =>
          (put_grant now (polled now g) st,
           Failed (match dg_last_polled_at g with
                   | Some t => if now - t <? dg_interval g then "slow_down" else "authorization_pending"
                   | None => "authorization_pending"
                   end))
      | GrantApproved =>
          let st := delete_grant now (token_digest device_code) st in
          let t := mint g access_token token_ttl now in
          (MkDevice (ds_grants st) (put_token now t (ds_tokens st)), Done (Issued t))
      end
  end.

(** A request served in one go: in process nothing runs between the read and the
    rest, since no call of the in-process stores suspends. *)
Definition serve (r : device_request) (now : Z) (st : DeviceState) : DeviceState * outcome device_answer :=
  let '(st, g) := read_grant r now st in act_on_grant r g now st.

(** ** Interleaved *)

(** The requests in flight, with the grant each has read. *)
Inductive device_event :=
| Started (client_name : string) (requested_scopes : list string) (ttl interval : Z) (device_code user_code : string) (now : Z)
| Reads (task : nat) (r : device_request) (now : Z)
| Acts (task : nat) (now : Z).

Record DeviceWorld := MkWorld { dw_state : DeviceState; dw_tasks : gmap nat (device_request * option DeviceGrant) }.

Definition device_step (w : DeviceWorld) (e : device_event) : DeviceWorld :=
  match e with
  | Started name scopes ttl interval device_code user_code now =>
      MkWorld (start_device_authorization name scopes ttl interval device_code user_code now (dw_state w)).1 (dw_tasks w)
  | Reads task r now =>
      let '(st, g) := read_grant r now (dw_state w) in MkWorld st (<[task := (r, g)]> (dw_tasks w))
  | Acts task now =>
      match dw_tasks w !! task with
      | Some (r, g) => MkWorld (act_on_grant r g now (dw_state w)).1 (delete task (dw_tasks w))
      | None => w
      end
  end.

Definition device_run (w : DeviceWorld) (events : list device_event) : DeviceWorld := foldl device_step w events.

(** * A token only narrows *)

Definition fresh_world (s : S) : DeviceWorld := MkWorld (MkDevice s []) ∅.

(** A client's request for a grant, with the codes drawn for it. *)
Record ClientAsk := MkAsk {
  ca_client_name : string;
  ca_scopes : list string;
  ca_ttl : Z;
  ca_interval : Z;
  ca_device_code : string;
  ca_user_code : string;
  ca_at : Z;
}.

Definition ask_event (q : ClientAsk) : device_event :=
  Started (ca_client_name q) (ca_scopes q) (ca_ttl q) (ca_interval q) (ca_device_code q) (ca_user_code q) (ca_at q).

(** The grant is the one of this request. *)
Record stems_from (q : ClientAsk) (g : DeviceGrant) : Prop := {
  sf_device_code : dg_device_code_digest g = token_digest (ca_device_code q);
  sf_user_code : dg_user_code g = ca_user_code q;
  sf_client_name : dg_client_name g = clean_client_name (ca_client_name q);
  sf_scopes : dg_requested_scopes g = sorted_set (ca_scopes q);
  sf_expires_at : dg_expires_at g = ca_at q + ca_ttl q;
}.

Section narrowing.
Context (s0 : S).

(** This person approved this request: their approval found its grant before it
    expired, still pending, and was carried out. *)
Definition consented (events : list device_event) (q : ClientAsk) (a : Approver) : Prop :=
  ∃ before task now after typed read_at g, events = before ++ Acts task now :: after
    ∧ Reads task (Approve typed a) read_at ∈ before ∧ read_at < ca_at q + ca_ttl q
    ∧ dw_tasks (device_run (fresh_world s0) before) !! task = Some (Approve typed a, Some g)
    ∧ stems_from q g ∧ dg_status g = GrantPending.

(** A poll with the device code of this request drew this token. *)
Definition collected (events : list device_event) (q : ClientAsk) (digest : string) : Prop :=
  ∃ task device_code ttl access read_at, Reads task (Redeem device_code ttl access) read_at ∈ events
    ∧ token_digest device_code = token_digest (ca_device_code q) ∧ digest = token_digest access.

(** The scopes [l] are the approver's, and the client's if it named any. *)
Definition narrowed (requested : list string) (a : Approver) (l : list string) : Prop :=
  ∀ x, x ∈ l → x ∈ ap_scopes a ∧ (requested ≠ [] → x ∈ requested).

Definition justified (events : list device_event) (g : DeviceGrant) : Prop :=
  ∃ q, ask_event q ∈ events ∧ stems_from q g
  ∧ (dg_status g = GrantApproved → ∃ a, consented events q a ∧ dg_subject g = ap_subject a ∧ dg_provider_id g = ap_provider_id a
       ∧ dg_approver_claims g = ap_claims a ∧ narrowed (ca_scopes q) a (dg_granted_scopes g)).

Definition token_justified (events : list device_event) (t : IssuedToken) : Prop :=
  ∃ q a, ask_event q ∈ events ∧ consented events q a ∧ collected events q (it_token_digest t)
    ∧ it_client_name t = clean_client_name (ca_client_name q) ∧ it_subject t = ap_subject a ∧ it_provider_id t = ap_provider_id a
    ∧ it_approver_claims t = ap_claims a ∧ narrowed (ca_scopes q) a (it_scopes t).

(** What a request in flight has read. *)
Definition read_ok (events : list device_event) (task : nat) (r : device_request) (g : DeviceGrant) : Prop :=
  justified events g ∧ (∃ now, Reads task r now ∈ events ∧ now < dg_expires_at g)
  ∧ ∀ device_code ttl access, r = Redeem device_code ttl access → dg_device_code_digest g = token_digest device_code.

Record world_ok (events : list device_event) (w : DeviceWorld) : Prop := {
  wo_grants k g : holds (ds_grants (dw_state w)) k g → k = dg_device_code_digest g ∧ justified events g;
  wo_tasks task r g : dw_tasks w !! task = Some (r, Some g) → read_ok events task r g;
  wo_tokens k t : (k, t) ∈ ds_tokens (dw_state w) → k = it_token_digest t ∧ token_justified events t;
}.

Lemma consented_mono events e q a : consented events q a → consented (events ++ [e]) q a.
Proof.
  intros (before & task & now & after & typed & read_at & g & -> & H). exists before, task, now, (after ++ [e]), typed, read_at, g.
  split; [by rewrite <- app_assoc|exact H].
Qed.

Lemma collected_mono events e q d : collected events q d → collected (events ++ [e]) q d.
Proof. unfold collected. setoid_rewrite elem_of_app. naive_solver. Qed.

Lemma justified_mono events e g : justified events g → justified (events ++ [e]) g.
Proof.
  intros (q & Hq & Hs & Hc). exists q. split; [apply elem_of_app; by left|]. split; [done|]. intros H.
  destruct (Hc H) as (a & Hcon & ?). exists a. split; [by apply consented_mono|done].
Qed.

Lemma token_justified_mono events e t : token_justified events t → token_justified (events ++ [e]) t.
Proof.
  intros (q & a & Hq & Ha & Hc & H). exists q, a. split; [apply elem_of_app; by left|].
  split; [by apply consented_mono|]. split; [by apply collected_mono|done].
Qed.

Lemma read_ok_mono events e task r g : read_ok events task r g → read_ok (events ++ [e]) task r g.
Proof.
  intros (Hj & (now & Hn & Hlt) & Hc). split; [by apply justified_mono|]. split; [|done].
  exists now. split; [apply elem_of_app; by left|done].
Qed.

Lemma elem_of_sorted_set x l : x ∈ sorted_set l ↔ x ∈ l.
Proof. unfold sorted_set, sort_on. rewrite merge_sort_Permutation. apply elem_of_remove_dups. Qed.

Lemma approved_narrowed q a g : stems_from q g → narrowed (ca_scopes q) a (dg_granted_scopes (approved_by a g)).
Proof.
  intros Hq x Hx. unfold approved_by in Hx. cbn [dg_granted_scopes] in Hx. unfold sort_on in Hx. rewrite merge_sort_Permutation in Hx.
  apply elem_of_elements, elem_of_intersection in Hx as [Hr Ha]. split; [done|]. intros Hne. unfold requested_or_all in Hr.
  rewrite (sf_scopes q g Hq) in Hr. destruct (ca_scopes q) as [|y l] eqn:El; [done|].
  assert (Hy : y ∈ sorted_set (y :: l)) by (apply elem_of_sorted_set; left).
  destruct (sorted_set (y :: l)) as [|z m] eqn:Es; [by apply not_elem_of_nil in Hy|]. cbn [length Nat.eqb] in Hr.
  apply elem_of_list_to_set in Hr. by rewrite <- Es, elem_of_sorted_set in Hr.
Qed.

(** What acting on a grant that was read leaves in the stores is justified. *)
Lemma act_on_grant_ok events task r g now st :
  (∀ g', g = Some g' → read_ok events task r g') →
  (∀ g' q user_code a, g = Some g' → r = Approve user_code a → dg_status g' = GrantPending → stems_from q g' → consented events q a) →
  (∀ k g', holds (ds_grants st) k g' → k = dg_device_code_digest g' ∧ justified events g') →
  (∀ k t, (k, t) ∈ ds_tokens st → k = it_token_digest t ∧ token_justified events t) →
  (∀ k g', holds (ds_grants (act_on_grant r g now st).1) k g' → k = dg_device_code_digest g' ∧ justified events g')
  ∧ (∀ k t, (k, t) ∈ ds_tokens (act_on_grant r g now st).1 → k = it_token_digest t ∧ token_justified events t).
Proof.
  intros Hg Hr Hst Htok.
  assert (Hput : ∀ g0, justified events g0 →
    (∀ k g', holds (ds_grants (put_grant now g0 st)) k g' → k = dg_device_code_digest g' ∧ justified events g')
    ∧ (∀ k t, (k, t) ∈ ds_tokens (put_grant now g0 st) → k = it_token_digest t ∧ token_justified events t)).
  { intros g0 Hg0. split; [|done]. intros k g' [[-> ->]|H]%holds_put; auto. }
  assert (Hdel : ∀ code k g', holds (ds_grants (delete_grant now code st)) k g' → k = dg_device_code_digest g' ∧ justified events g')
    by (intros code k g' H%holds_delete; auto).
  destruct r as [user_code a|user_code|device_code ttl access], g as [g|]; cbn [act_on_grant fst]; try (by split).
  - destruct (Hg g eq_refl) as ((q & Hq & Hs & _) & _). case_bool_decide as Hp; [|by split]. apply Hput. exists q.
    split; [done|]. split; [by destruct Hs|]. intros _. exists a.
    split; [by eapply Hr|]. split_and!; try done. exact (approved_narrowed q a g Hs).
  - destruct (Hg g eq_refl) as ((q & Hq & Hs & _) & _). apply Hput. exists q. split; [done|]. split; [by destruct Hs|done].
  - destruct (Hg g eq_refl) as ((q & Hq & Hs & Hcon) & (read_at & Hread & _) & Hcode). destruct (dg_status g) eqn:Es; cbn [fst].
    + apply Hput. exists q. split; [done|]. split; [by destruct Hs|]. cbn. by rewrite Es.
    + split; [apply Hdel|]. intros k t [[= -> ->]|[H _]]%put_elem; [|by apply Htok]. split; [done|].
      destruct (Hcon eq_refl) as (a & Hc & H). exists q, a. split; [done|]. split; [done|]. split; [|split; [by apply sf_client_name|done]].
      exists task, device_code, ttl, access, read_at. split; [done|]. split; [|done].
      rewrite <- (Hcode device_code ttl access eq_refl). by apply sf_device_code.
    + split; [apply Hdel|done].
Qed.

Lemma read_grant_ok events r now st g :
  (∀ k g', holds (ds_grants st) k g' → k = dg_device_code_digest g' ∧ justified events g') → (read_grant r now st).2 = Some g →
  justified events g ∧ now < dg_expires_at g
  ∧ ∀ device_code ttl access, r = Redeem device_code ttl access → dg_device_code_digest g = token_digest device_code.
Proof.
  intros Hst. unfold read_grant. destruct r as [u a|u|d ttl acc];
    [pose proof (by_user_code_found now (normalize_user_code u) (ds_grants st)) as Hf; destruct (by_user_code _ _ _)
    |pose proof (by_user_code_found now (normalize_user_code u) (ds_grants st)) as Hf; destruct (by_user_code _ _ _)
    |pose proof (by_device_code_found now (token_digest d) (ds_grants st)) as Hf; destruct (by_device_code _ _ _)];
    cbn in *; intros ->.
  - destruct (Hf g eq_refl) as [[k Hk] Hlt]. by destruct (Hst k g Hk).
  - destruct (Hf g eq_refl) as [[k Hk] Hlt]. by destruct (Hst k g Hk).
  - destruct (Hf g eq_refl) as [Hk Hlt]. destruct (Hst _ g Hk) as [Hd Hj]. split; [done|]. split; [done|].
    by intros device_code ttl' access [= <- _ _].
Qed.

Lemma read_grant_state r now st :
  (∀ k g, holds (ds_grants (read_grant r now st).1) k g → holds (ds_grants st) k g) ∧ ds_tokens (read_grant r now st).1 = ds_tokens st.
Proof.
  unfold read_grant. destruct r as [u a|u|d ttl acc];
    [pose proof (holds_by_user_code now (normalize_user_code u) (ds_grants st)) as Hf; destruct (by_user_code _ _ _)
    |pose proof (holds_by_user_code now (normalize_user_code u) (ds_grants st)) as Hf; destruct (by_user_code _ _ _)
    |pose proof (holds_by_device_code now (token_digest d) (ds_grants st)) as Hf; destruct (by_device_code _ _ _)];
    cbn in *; by split.
Qed.

Lemma device_step_ok events e : world_ok events (device_run (fresh_world s0) events) →
  world_ok (events ++ [e]) (device_step (device_run (fresh_world s0) events) e).
Proof.
  set (w := device_run (fresh_world s0) events). intros [Hg Ht Htok].
  assert (Hg' : ∀ k g, holds (ds_grants (dw_state w)) k g → k = dg_device_code_digest g ∧ justified (events ++ [e]) g).
  { intros k g H. destruct (Hg k g H). split; [done|by apply justified_mono]. }
  assert (Htok' : ∀ k t, (k, t) ∈ ds_tokens (dw_state w) → k = it_token_digest t ∧ token_justified (events ++ [e]) t).
  { intros k t H. destruct (Htok k t H). split; [done|by apply token_justified_mono]. }
  assert (Ht' : ∀ task r g, dw_tasks w !! task = Some (r, Some g) → read_ok (events ++ [e]) task r g)
    by (intros task r g H; by apply read_ok_mono, Ht).
  destruct e as [name l ttl interval code user_code now|task r now|task now]; cbn [device_step].
  - split; cbn [dw_state dw_tasks start_device_authorization fst ds_grants ds_tokens]; [|exact Ht'|exact Htok'].
    intros k g' [[-> ->]|H]%holds_put; [|by apply Hg']. split; [done|]. exists (MkAsk name l ttl interval code user_code now).
    split; [apply elem_of_app; right; left|]. by split.
  - destruct (read_grant_state r now (dw_state w)) as [Hs Hsame]. pose proof (read_grant_ok (events ++ [Reads task r now]) r now (dw_state w)) as Hread.
    destruct (read_grant r now (dw_state w)) as [st g]. cbn [fst snd] in *. split; cbn [dw_state dw_tasks].
    + intros k g' H. by apply Hg', Hs.
    + intros task' r' g' [[<- [= <- ->]]|[_ H]]%lookup_insert_Some; [|by apply Ht'].
      destruct (Hread g' Hg' eq_refl) as (Hj & Hlt & Hc). split; [done|]. split; [|done]. exists now.
      split; [apply elem_of_app; right; left|done].
    + intros k t' H. rewrite Hsame in H. by apply Htok'.
  - destruct (dw_tasks w !! task) as [[r g]|] eqn:E; [|by split].
    destruct (act_on_grant_ok (events ++ [Acts task now]) task r g now (dw_state w)) as [Hg2 Htok2]; [| |exact Hg'|exact Htok'|].
    + intros g' ->. by apply Ht'.
    + intros g' q u a -> -> Hp Hq. destruct (Ht _ _ _ E) as (_ & (read_at & Hread & Hlt) & _).
      exists events, task, now, [], u, read_at, g'. split; [done|]. split; [done|].
      split; [by rewrite <- (sf_expires_at q g' Hq)|]. by split_and!.
    + split; cbn [dw_state dw_tasks]; [exact Hg2| |exact Htok2].
      intros task' r' g' [_ H]%lookup_delete_Some. by apply Ht'.
Qed.

Lemma device_run_ok events : (∀ k g, ¬ holds s0 k g) → world_ok events (device_run (fresh_world s0) events).
Proof.
  intros Hs. induction events as [|e events IH] using rev_ind.
  - split; cbn; [by intros k g ?%Hs|done|by intros ?? ?%not_elem_of_nil].
  - unfold device_run at 1. rewrite foldl_snoc. by apply device_step_ok.
Qed.
End narrowing.
End flow.

(** * The bearer *)

Definition DEVICE_TOKEN_AUTH_METHOD : string := "sso_device_token".

Section bearer.
Context `{FT : FloatText} `{DG : !Digest}.

(** [DeviceTokenAuthenticator.authenticate]. *)
Definition authenticate_device_token (mapping : IdentityMappingStore) (credential : option string) (now : Z) (tokens : Tokens) :
  Tokens * option Principal :=
  match credential with
  | None => (tokens, None)
  | Some c =>
      if str_empty c || negb (String.prefix DEVICE_TOKEN_PREFIX c) then (tokens, None) else
      let '(tokens, t) := get_token now (token_digest c) tokens in
      (tokens,
       (λ t, MkPrincipal (it_subject t)
               (list_to_set (it_scopes t) ∩ scopes_for mapping (it_provider_id t) (it_approver_claims t))
               (it_approver_claims t) DEVICE_TOKEN_AUTH_METHOD None) <$> t)
  end.

Context `{UC : UserCodeText} {S : Type} `{GS : !DeviceGrantStore S}.

(** C31. A device token only narrows. Over either store, however the requests of
    all replicas interleave between their reads and writes, the bearer of a token
    traces back to one request of a client: a poll with its device code drew this
    very token, and a person approved it, their approval finding its grant
    pending and not expired and being carried out. The bearer acts as that
    person, and holds a scope only if the person held it when approving, the
    client asked for it (when it named any) and what the person's claims map to
    now still includes it; and never after the token expires. *)
Theorem device_token_only_narrows (s : S) events mapping credential now p :
  (∀ k g, ¬ holds s k g) →
  let w := device_run (fresh_world s) events in
  (authenticate_device_token mapping (Some credential) now (ds_tokens (dw_state w))).2 = Some p →
  auth_method p = DEVICE_TOKEN_AUTH_METHOD
  ∧ ∃ q a t, ask_event q ∈ events ∧ consented s events q a ∧ collected events q (token_digest credential)
    ∧ subject p = ap_subject a ∧ claims p = ap_claims a
    ∧ (∀ x, x ∈ scopes p → x ∈ ap_scopes a ∧ (ca_scopes q ≠ [] → x ∈ ca_scopes q)
                            ∧ x ∈ scopes_for mapping (ap_provider_id a) (ap_claims a))
    ∧ (token_digest credential, t) ∈ ds_tokens (dw_state w) ∧ now < it_expires_at t.
Proof.
  intros Hs w. destruct (device_run_ok s events Hs) as [_ _ Htok]. fold w in Htok.
  unfold authenticate_device_token, get_token. set (c := credential). destruct (_ || _); [done|].
  destruct (dict_get (token_digest c) _) as [t|] eqn:E; [|done]. destruct (token_expired now t) eqn:He; [done|].
  intros [= <-]. apply dict_get_Some in E.
  destruct (Htok _ _ E) as [Hd (q & a & Hask & Hcon & Hcol & _ & Hsub & Hprov & Hclaims & Hn)].
  cbn [subject scopes claims auth_method]. split; [done|]. exists q, a, t. rewrite Hd. split_and!; try done.
  - intros x [Hx Hlive]%elem_of_intersection. apply elem_of_list_to_set in Hx. destruct (Hn x Hx) as [Ha Hreq].
    rewrite Hprov, Hclaims in Hlive. by split_and!.
  - by rewrite <- Hd.
  - unfold token_expired in He. lia.
Qed.
End bearer.

(** * One token per code, in process *)

Section single_use.
Context `{DG : !Digest} `{UC : UserCodeText}.

Inductive device_call :=
| CallStart (client_name : string) (requested_scopes : list string) (ttl interval : Z) (device_code user_code : string) (now : Z)
| CallServe (r : device_request) (now : Z).

(** The digest of the device code a call gave a token for. *)
Definition issued_code (r : device_request) (o : outcome device_answer) : option string :=
  match r, o with Redeem device_code _ _, Done (Issued _) => Some (token_digest device_code) | _, _ => None end.

Section any_store.
Context {S : Type} `{GS : !DeviceGrantStore S}.

Definition call_step (st : @DeviceState S) (c : device_call) : @DeviceState S * option string :=
  match c with
  | CallStart name scopes ttl interval device_code user_code now =>
      ((start_device_authorization name scopes ttl interval device_code user_code now st).1, None)
  | CallServe r now => let '(st, o) := serve r now st in (st, issued_code r o)
  end.

Definition call_run (s : S) (calls : list device_call) : @DeviceState S * list (option string) :=
  foldl (λ acc c, let '(st, r) := call_step acc.1 c in (st, acc.2 ++ [r])) (MkDevice s [], []) calls.
End any_store.

Definition starts (digest : string) (c : device_call) : bool :=
  match c with CallStart _ _ _ _ device_code _ _ => bool_decide (token_digest device_code = digest) | _ => false end.
Definition issues (digest : string) (r : option string) : bool := bool_decide (r = Some digest).

Abbreviation keyed s := (well_keyed dg_device_code_digest (ig_grants s)).
Abbreviation codes s := (dict_keys (ig_grants s)).

Lemma in_process_delete_keys code s : keyed s →
  keyed (in_process_delete code s) ∧ ∀ k, k ∈ codes (in_process_delete code s) → k ∈ codes s ∧ k ≠ code.
Proof.
  intros H. unfold in_process_delete. destruct (dict_get code _) as [g|] eqn:E; cbn [ig_grants].
  - split; [by apply pop_well_keyed|]. intros k ([k' g'] & -> & [Hin Hne]%dict_pop_elem)%list_elem_of_fmap.
    split; [|done]. by apply (list_elem_of_fmap_2 fst) in Hin.
  - split; [done|]. intros k Hk. split; [done|]. intros ->. by apply dict_get_None in E.
Qed.

Lemma in_process_put_keys now g s : keyed s →
  keyed (in_process_put now g s) ∧ ∀ k, k ∈ codes (in_process_put now g s) → k = dg_device_code_digest g ∨ k ∈ codes s.
Proof.
  intros H. split.
  - unfold in_process_put. cbn [ig_grants]. apply set_well_keyed. assert (Hp : keyed (prune_grants now s)) by by apply filter_well_keyed.
    destruct (_ <=? _); [|done]. destruct (oldest _ _); [|done]. by apply in_process_delete_keys.
  - intros k ([k' g'] & -> & [[= -> ->]|Hin]%in_process_put_elem)%list_elem_of_fmap; [by left|right].
    by apply (list_elem_of_fmap_2 fst) in Hin.
Qed.

Lemma in_process_lookup_keys now code s : keyed s →
  keyed (in_process_by_device_code now code s).1 ∧ ∀ k, k ∈ codes (in_process_by_device_code now code s).1 → k ∈ codes s.
Proof.
  intros H. unfold in_process_by_device_code. destruct (dict_get code _); [|done]. destruct (grant_expired _ _); [|done].
  cbn [fst]. destruct (in_process_delete_keys code s H) as [Hk Hsub]. split; [done|]. intros k Hin. by apply Hsub.
Qed.

(** A read leaves no new key, and what it finds is there under its own. *)
Lemma read_grant_keys r now (st : @DeviceState InProcessGrants) : keyed (ds_grants st) →
  let '(st', g) := read_grant r now st in
  keyed (ds_grants st') ∧ (∀ k, k ∈ codes (ds_grants st') → k ∈ codes (ds_grants st))
  ∧ ∀ g', g = Some g' → dg_device_code_digest g' ∈ codes (ds_grants st)
      ∧ ∀ device_code ttl access, r = Redeem device_code ttl access → dg_device_code_digest g' = token_digest device_code.
Proof.
  intros H.
  assert (Hd : ∀ code, let '(s', g) := in_process_by_device_code now code (ds_grants st) in
    keyed s' ∧ (∀ k, k ∈ codes s' → k ∈ codes (ds_grants st))
    ∧ ∀ g', g = Some g' → dg_device_code_digest g' ∈ codes (ds_grants st) ∧ dg_device_code_digest g' = code).
  { intros code. destruct (in_process_lookup_keys now code _ H) as [Hk Hsub].
    pose proof (in_process_found now code (ds_grants st)) as Hf. destruct (in_process_by_device_code _ _ _) as [s' g].
    cbn [fst snd] in *. split_and!; [done|done|]. intros g' ->. destruct (Hf g' eq_refl) as [Hin _].
    rewrite (proj2 H _ _ Hin). split; [|done]. by apply (list_elem_of_fmap_2 fst) in Hin. }
  assert (Hu : ∀ u, let '(s', g) := in_process_by_user_code now u (ds_grants st) in
    keyed s' ∧ (∀ k, k ∈ codes s' → k ∈ codes (ds_grants st)) ∧ ∀ g', g = Some g' → dg_device_code_digest g' ∈ codes (ds_grants st)).
  { intros u. unfold in_process_by_user_code. destruct (dict_get u _) as [code|]; [|done]. destruct (str_empty code); [done|].
    specialize (Hd code). destruct (in_process_by_device_code _ _ _). naive_solver. }
  unfold read_grant. destruct r as [u a|u|code ttl acc]; cbn [by_user_code by_device_code in_process_grants].
  - specialize (Hu (normalize_user_code u)). destruct (in_process_by_user_code _ _ _). cbn [ds_grants]. naive_solver.
  - specialize (Hu (normalize_user_code u)). destruct (in_process_by_user_code _ _ _). cbn [ds_grants]. naive_solver.
  - specialize (Hd (token_digest code)). destruct (in_process_by_device_code _ _ _). cbn [ds_grants]. naive_solver.
Qed.

Lemma in_process_found_again now code s g : (in_process_by_device_code now code s).2 = Some g →
  (in_process_by_device_code now code s).1 = s.
Proof.
  unfold in_process_by_device_code. destruct (dict_get code _); [|done]. by destruct (grant_expired _ _).
Qed.

(** One call: no key appears that was not started, and a code that yields a token
    had its key, which is gone. *)
Lemma call_step_keys st c : keyed (ds_grants st) →
  let '(st', r) := call_step st c in
  keyed (ds_grants st')
  ∧ (∀ k, k ∈ codes (ds_grants st') → k ∈ codes (ds_grants st) ∨ starts k c = true)
  ∧ ∀ k, r = Some k → k ∈ codes (ds_grants st) ∧ k ∉ codes (ds_grants st').
Proof.
  intros H. destruct c as [name l ttl interval code user_code now|r now]; cbn [call_step starts].
  - cbn [start_device_authorization fst ds_grants grant_put in_process_grants].
    edestruct in_process_put_keys as [Hk Hsub]; [exact H|]. split; [exact Hk|]. split; [|done].
    intros k [->|?]%Hsub; [right|by left]. cbn. by rewrite bool_decide_eq_true_2.
  - unfold serve. pose proof (read_grant_keys r now st H) as Hr. destruct (read_grant r now st) as [st1 g].
    destruct Hr as (Hk1 & Hsub1 & Hfound).
    assert (Hput : ∀ g1, dg_device_code_digest g1 ∈ codes (ds_grants st) → ∀ k, k ∈ codes (ds_grants (put_grant now g1 st1)) → k ∈ codes (ds_grants st)).
    { intros g1 Hg1 k Hin. cbn in Hin. edestruct in_process_put_keys as [_ Hs]; [exact Hk1|]. apply Hs in Hin as [->|?]; auto. }
    assert (Hkp : ∀ g1, keyed (ds_grants (put_grant now g1 st1))) by (intros g1; by apply in_process_put_keys).
    destruct r as [u a|u|code ttl acc], g as [g|]; cbn [act_on_grant issued_code]; try (split; [done|]; split; [by auto|done]).
    + case_bool_decide; (split; [done|]; split; [|done]); intros k Hin; left; [|by apply Hsub1].
      eapply (Hput (approved_by a g)); [exact (proj1 (Hfound g eq_refl))|exact Hin].
    + split; [done|]. split; [|done]. intros k Hin. left. eapply (Hput (with_status GrantDenied g)); [exact (proj1 (Hfound g eq_refl))|exact Hin].
    + destruct (Hfound g eq_refl) as [Hin Hcode]. specialize (Hcode _ _ _ eq_refl).
      destruct (in_process_delete_keys (token_digest code) _ Hk1) as [Hkd Hd].
      destruct (dg_status g); cbn [delete_grant ds_grants grant_delete in_process_grants].
      * split; [done|]. split; [|done]. intros k Hk. left. eapply (Hput (polled now g)); [exact Hin|exact Hk].
      * split; [exact Hkd|]. split; [intros k Hk; left; by apply Hsub1, Hd|]. intros k [= <-]. rewrite <- Hcode at 1.
        split; [done|]. intros Hk. by apply Hd in Hk as [_ Hk].
      * split; [exact Hkd|]. split; [intros k Hk; left; by apply Hsub1, Hd|done].
Qed.

(** In process, a device code yields at most one token: whatever the order of
    starts, approvals, denials and polls, the tokens issued for a code are at
    most as many as the sign-ins started with it. *)
Theorem device_code_single_use calls device_code :
  (count_of (issues (token_digest device_code)) (call_run (MkInProcessGrants [] []) calls).2
   ≤ count_of (starts (token_digest device_code)) calls)%nat.
Proof.
  set (d := token_digest device_code).
  cut (let '(st, results) := call_run (MkInProcessGrants [] []) calls in keyed (ds_grants st)
    ∧ (count_of (issues d) results + (if bool_decide (d ∈ codes (ds_grants st)) then 1 else 0) ≤ count_of (starts d) calls)%nat).
  { destruct (call_run _ calls) as [st results]. cbn [snd]. intros [_ H]. etrans; [|exact H]. apply Nat.le_add_r. }
  unfold call_run. induction calls as [|c calls IH] using rev_ind.
  { cbn. split; [split; [constructor|by intros ?? ?%not_elem_of_nil]|]. by rewrite bool_decide_eq_false_2 by apply not_elem_of_nil. }
  rewrite foldl_snoc. destruct (foldl _ _ calls) as [st results]. destruct IH as [Hk Hcount]. cbn [fst snd].
  pose proof (call_step_keys st c Hk) as Hstep. destruct (call_step st c) as [st' r]. destruct Hstep as (Hk' & Hsub & Hissue).
  split; [exact Hk'|]. rewrite !count_of_app. specialize (Hsub d). specialize (Hissue d). unfold count_of at 2 4. cbn [List.filter].
  unfold issues at 2. destruct (decide (r = Some d)) as [->|Hr].
  - rewrite (bool_decide_eq_true_2 (Some d = Some d)) by done. destruct (Hissue eq_refl) as [Hin Hout].
    rewrite (bool_decide_eq_true_2 (d ∈ codes (ds_grants st))) in Hcount by done.
    rewrite (bool_decide_eq_false_2 (d ∈ codes (ds_grants st'))) by done. cbn [length]. lia.
  - rewrite (bool_decide_eq_false_2 (r = Some d)) by done. cbn [length].
    destruct (decide (d ∈ codes (ds_grants st'))) as [Hin|Hout].
    + rewrite (bool_decide_eq_true_2 (d ∈ codes (ds_grants st'))) by done. destruct (Hsub Hin) as [Hold|Hs].
      * rewrite (bool_decide_eq_true_2 (d ∈ codes (ds_grants st))) in Hcount by done. lia.
      * rewrite Hs. cbn [length]. lia.
    + rewrite (bool_decide_eq_false_2 (d ∈ codes (ds_grants st'))) by done. lia.
Qed.
End single_use.

(** * A concrete client *)

Section sample.
#[local] Existing Instances sample_floats sample_digest.

Definition ascii_upper_char (c : ascii) : ascii :=
  let n := nat_of_ascii c in if (97 <=? n)%nat && (n <=? 122)%nat then ascii_of_nat (n - 32) else c.
#[local] Instance ascii_codes : UserCodeText := λ s,
  String.string_of_list_ascii (List.filter (λ c, is_alnum_ c && negb (bool_decide (c = "_"%char))) (String.list_ascii_of_string (string_map ascii_upper_char s))).

Definition ada_approver (held : list string) : Approver :=
  MkApprover "ada" (list_to_set held) "okta" governor_claims.
Definition cli_start : device_event :=
  Started "cli" [QUERY_APPROVE_SCOPE; ADMIN_IDENTITY_WRITE_SCOPE] (600 * second_us) (5 * second_us) "dc" "CDFG-HJKM" 0.
Definition ada_approves : device_request := Approve "cdfghjkm" (ada_approver [QUERY_APPROVE_SCOPE; ADMIN_CONFIG_READ_SCOPE]).
Definition poll (access : string) : device_request := Redeem "dc" (3600 * second_us) access.

Definition fresh_redis : @DeviceWorld RedisGrants := fresh_world (MkRedisGrants ∅ ∅).

Definition cli_events : list device_event :=
  [cli_start; Reads 0 ada_approves 1; Acts 0 1; Reads 1 (poll "qgd_1") (10 * second_us); Acts 1 (10 * second_us)].

Definition cli_mapping : IdentityMappingStore :=
  MkMapping [everywhere_rule] (foldl index_rule [] [everywhere_rule]).

Lemma device_token_only_narrows_witness :
  let w := device_run fresh_redis cli_events in
  match (authenticate_device_token cli_mapping (Some "qgd_1") (20 * second_us) (ds_tokens (dw_state w))).2 with
  | Some p =>
      subject p = "ada" ∧ bool_decide (scopes p = {[ QUERY_APPROVE_SCOPE ]}) = true
      ∧ ∃ q a t, ask_event q ∈ cli_events ∧ consented (MkRedisGrants ∅ ∅) cli_events q a
          ∧ collected cli_events q (token_digest "qgd_1") ∧ (token_digest "qgd_1", t) ∈ ds_tokens (dw_state w)
  | None => False
  end.
Proof.
  intros w.
  destruct (authenticate_device_token cli_mapping (Some "qgd_1") (20 * second_us) (ds_tokens (dw_state w))).2 as [p|] eqn:E;
    [|vm_compute in E; discriminate E].
  destruct (device_token_only_narrows (MkRedisGrants ∅ ∅) cli_events cli_mapping "qgd_1" (20 * second_us) p)
    as (_ & q & a & t & Hask & Hcon & Hcol & _ & _ & _ & Hin & _).
  - intros k g (d & H). discriminate H.
  - exact E.
  - split; [|split].
    + vm_compute in E. injection E as <-. reflexivity.
    + vm_compute in E. injection E as <-. vm_compute. reflexivity.
    + exists q, a, t. split; [exact Hask|]. split; [exact Hcon|]. split; [exact Hcol|exact Hin].
Defined.

(** Over Redis the delete does not say whether it removed anything: two polls that
    both read the approved grant both mint, so one code yields two tokens. *)
Theorem racing_polls_mint_two_tokens :
  length (ds_tokens (dw_state (device_run fresh_redis
    [cli_start; Reads 0 ada_approves 1; Acts 0 1; Reads 1 (poll "qgd_1") 2; Reads 2 (poll "qgd_2") 2; Acts 1 3; Acts 2 3]))) = 2%nat.
Proof. vm_compute. reflexivity. Qed.

Definition grant_status (w : @DeviceWorld RedisGrants) : option GrantStatus :=
  dg_status <$> (redis_by_device_code 9 (token_digest "dc") (ds_grants (dw_state w))).2.

(** And a poll that read the pending grant writes it back whole: a denial, or an
    approval, made in between is undone. *)
Theorem poll_undoes_denial :
  grant_status (device_run fresh_redis [cli_start; Reads 1 (poll "qgd_1") 1; Reads 0 (Deny "CDFG-HJKM") 2; Acts 0 2]) = Some GrantDenied
  ∧ grant_status (device_run fresh_redis [cli_start; Reads 1 (poll "qgd_1") 1; Reads 0 (Deny "CDFG-HJKM") 2; Acts 0 2; Acts 1 3])
    = Some GrantPending.
Proof. split; vm_compute; reflexivity. Qed.
End sample.
