(* ===== verification/LocalLogin.v ===== *)
(** The built-in accounts: password verifiers ([identity/passwords.py]), one-time
    codes ([identity/totp.py]), accounts ([identity/local_store.py]) and the login
    that joins them ([identity/local_auth.py]). Shown: a verifier accepts its own
    password and, short of a collision, no other; codes have six digits and are
    never accepted twice; guessing in sequence is throttled; a failure does not
    tell which part was wrong. *)
From Stdlib Require Import Ascii Sorted.
From stdpp Require Import pretty.
From S2P Require Export Sessions.
Local Open Scope Z_scope.

(** * Password verifiers *)

Definition SCHEME : string := "scrypt".
Definition DEFAULT_N : Z := 2 ^ 16.
Definition DEFAULT_R : Z := 8.
Definition DEFAULT_P : Z := 1.
Definition MAX_N : Z := 2 ^ 20.
Definition MAX_PASSWORD_BYTES : Z := 1024.
Definition MIN_PASSWORD_LENGTH : Z := 12.

Record ScryptParams := MkScrypt { sp_n : Z; sp_r : Z; sp_p : Z }.
Definition default_params : ScryptParams := MkScrypt DEFAULT_N DEFAULT_R DEFAULT_P.

(** [ScryptParams.validate]. *)
Definition validate_params (p : ScryptParams) : result ScryptParams :=
  raise_if ((sp_n p <? 2 ^ 12) || (MAX_N <? sp_n p) || negb (Z.land (sp_n p) (sp_n p - 1) =? 0))
    (ValueError "scrypt N must be a power of two between 2^12 and 2^20.") ≫= λ _,
  raise_if (negb ((1 <=? sp_r p) && (sp_r p <=? 32)) || negb ((1 <=? sp_p p) && (sp_p p <=? 16)))
    (ValueError "scrypt r must be 1-32 and p must be 1-16.") ≫= λ _, Ok p.

(** [hashlib.scrypt], base64 (strict on decoding) and [int] of a text, with what
    the verifiers rely on: a derived key is not empty, encoding is undone by
    decoding and writes no dollar, and [int] undoes [str]. *)
Class Passwords := {
  scrypt : string → string → ScryptParams → string;
  scrypt_nonempty pw salt p : scrypt pw salt p ≠ "";
  b64encode : string → string;
  b64decode : string → option string;
  b64_round_trip s : b64decode (b64encode s) = Some s;
  b64_no_dollar s : string_forall (λ c, bool_decide (c ≠ "$"%char)) (b64encode s) = true;
  int_of_text : string → option Z;
  int_of_pretty z : int_of_text (pretty z) = Some z;
}.

Section passwords.
Context `{PW : Passwords}.

Definition derive (password salt : string) (p : ScryptParams) : result string :=
  raise_if (MAX_PASSWORD_BYTES <? Z.of_nat (String.length password)) (ValueError "Password is too long.") ≫= λ _,
  Ok (scrypt password salt p).

Definition verifier_text (p : ScryptParams) (salt digest : string) : string :=
  SCHEME +:+ String "$" (pretty (sp_n p) +:+ String "$" (pretty (sp_r p) +:+ String "$" (pretty (sp_p p)
    +:+ String "$" (b64encode salt +:+ String "$" (b64encode digest))))).

(** [hash_password], given the salt it draws. *)
Definition hash_password (password salt : string) (params : option ScryptParams) : result string :=
  validate_params (default default_params params) ≫= λ p,
  derive password salt p ≫= λ digest, Ok (verifier_text p salt digest).

Definition parse_verifier (verifier : string) : result (ScryptParams * string * string) :=
  match split_on "$"%char verifier with
  | [scheme; n; r; p; salt; digest] =>
      raise_if (negb (bool_decide (scheme = SCHEME))) (ValueError "Stored password verifier is not in the expected scrypt format.") ≫= λ _,
      let malformed := ValueError "Stored password verifier is malformed." in
      match int_of_text n, int_of_text r, int_of_text p, b64decode salt, b64decode digest with
      | Some n, Some r, Some p, Some salt, Some digest =>
          match validate_params (MkScrypt n r p) with
          | Raise _ => Raise malformed
          | Ok params => raise_if (str_empty salt || str_empty digest) malformed ≫= λ _, Ok (params, salt, digest)
          end
      | _, _, _, _, _ => Raise malformed
      end
  | _ => Raise (ValueError "Stored password verifier is not in the expected scrypt format.")
  end.

Definition verify_password (password verifier : string) : bool :=
  match parse_verifier verifier with
  | Ok (params, salt, expected) =>
      match derive password salt params with Ok candidate => bool_decide (candidate = expected) | Raise _ => false end
  | Raise _ => false
  end.

(** Python orders tuples lexicographically. *)
Definition params_lt (a b : ScryptParams) : bool :=
  (sp_n a <? sp_n b) || ((sp_n a =? sp_n b) && ((sp_r a <? sp_r b) || ((sp_r a =? sp_r b) && (sp_p a <? sp_p b)))).

Definition needs_rehash (verifier : string) (params : option ScryptParams) : result bool :=
  validate_params (default default_params params) ≫= λ target,
  match parse_verifier verifier with Ok (stored, _, _) => Ok (params_lt stored target) | Raise _ => Ok true end.

Lemma split_on_clean c a : string_forall (λ d, bool_decide (d ≠ c)) a = true → split_on c a = [a].
Proof.
  induction a as [|d a IH]; cbn; [done|]. intros [Hd Ha]%andb_true_iff. apply bool_decide_eq_true in Hd.
  by rewrite bool_decide_eq_false_2, IH.
Qed.

Lemma decimal_no_dollar (z : Z) : string_forall (λ c, bool_decide (c ≠ "$"%char)) (pretty z) = true.
Proof.
  eapply string_forall_impl; [|apply (pretty_Z_decimal z)]. intros c Hc. apply bool_decide_eq_true. by intros ->.
Qed.

Lemma parse_verifier_text p salt digest :
  is_ok (validate_params p) = true → salt ≠ "" → digest ≠ "" → parse_verifier (verifier_text p salt digest) = Ok (p, salt, digest).
Proof.
  intros Hp Hs Hd. unfold parse_verifier, verifier_text.
  rewrite !split_on_app, !split_on_clean by (apply decimal_no_dollar || apply b64_no_dollar || reflexivity). cbn [app].
  rewrite bool_decide_eq_true_2 by done. cbn [raise_if negb mbind result_bind]. rewrite !int_of_pretty, !b64_round_trip.
  assert (Hv : validate_params p = Ok p).
  { destruct (validate_params p) as [q|e] eqn:E; [|done]. f_equal. unfold validate_params in E. by result_inv. }
  destruct p as [n r q]. cbn [sp_n sp_r sp_p]. rewrite Hv. unfold str_empty. rewrite !bool_decide_eq_false_2 by done. done.
Qed.

(** A stored verifier is one password's: it accepts the password it was made of,
    under whatever valid parameters and salt; another password only if the two
    derive the same key; none that is longer than the limit; and it asks to be
    made again only for stronger parameters. *)
Theorem verifier_is_its_passwords password salt params verifier :
  hash_password password salt params = Ok verifier → salt ≠ "" →
  verify_password password verifier = true
  ∧ (∀ other, verify_password other verifier = true →
       scrypt other salt (default default_params params) = scrypt password salt (default default_params params)
       ∧ Z.of_nat (String.length other) ≤ MAX_PASSWORD_BYTES)
  ∧ needs_rehash verifier params = Ok false.
Proof.
  unfold hash_password, needs_rehash. intros H Hsalt. apply bind_ok in H as (p & Hp & H). apply bind_ok in H as (digest & Hd & H). injection H as <-.
  assert (p = default default_params params) as -> by (unfold validate_params in Hp; by result_inv).
  set (p := default default_params params) in *.
  pose proof Hd as Hd'. unfold derive in Hd'. apply bind_ok_unit in Hd' as [Hlen [= <-]].
  assert (Hparse := parse_verifier_text p salt (scrypt password salt p) ltac:(by rewrite Hp) Hsalt (scrypt_nonempty _ _ _)).
  unfold verify_password. rewrite Hparse. split; [|split].
  - rewrite Hd. by apply bool_decide_eq_true.
  - intros other. unfold derive. destruct (Z.ltb_spec MAX_PASSWORD_BYTES (Z.of_nat (String.length other))); [done|].
    cbn [raise_if mbind result_bind]. intros Ho%bool_decide_eq_true. by split.
  - rewrite Hp. cbn [mbind result_bind]. unfold params_lt. f_equal. rewrite !Z.ltb_irrefl, !Z.eqb_refl. done.
Qed.

Context `{SL : StrLower}.

Definition check_password_policy (password username : string) : result unit :=
  raise_if (Z.of_nat (String.length password) <? MIN_PASSWORD_LENGTH) (ValueError "Password must be at least 12 characters.") ≫= λ _,
  raise_if (MAX_PASSWORD_BYTES <? Z.of_nat (String.length password)) (ValueError "Password is too long.") ≫= λ _,
  raise_if (bool_decide (str_lower (strip password) = str_lower (strip username))) (ValueError "Password must not be the username.").
End passwords.

(** * One-time codes *)

Definition DIGITS : nat := 6.
Definition STEP : Z := 30 * second_us.
Definition DEFAULT_DRIFT_STEPS : Z := 1.

(** [hmac.new(key, message, sha1).digest()] gives twenty bytes; the key a secret in
    base32 stands for, if it does; and whether a text that is not ASCII is six
    digits for [isdigit]. *)
Class Totp := {
  hmac_sha1 : list Z → list Z → list Z;
  hmac_sha1_length key message : length (hmac_sha1 key message) = 20%nat;
  hmac_sha1_bytes key message b : b ∈ hmac_sha1 key message → 0 ≤ b < 256;
  b32decode_secret : string → option (list Z);
  six_digits_elsewhere : string → bool;
}.

Section totp.
Context `{TP : Totp}.

Definition decode_secret (secret : string) : outcome (list Z) :=
  match b32decode_secret secret with
  | Some raw => if (length raw <? 10)%nat then Failed "TotpError" else Done raw
  | None => Failed "TotpError"
  end.

(** [struct.pack(">Q", n)] and [struct.unpack(">I", ...)]. *)
Fixpoint big_endian (bytes : nat) (n : Z) : list Z :=
  match bytes with O => [] | S bytes => big_endian bytes (n / 256) ++ [n mod 256] end.
Definition of_big_endian (l : list Z) : Z := foldl (λ acc b, acc * 256 + b) 0 l.

(** [s.zfill(n)], on a text without a sign. *)
Definition zfill (n : nat) (s : string) : string := String.concat "" (replicate (n - String.length s) "0") +:+ s.

Definition truncate (digest : list Z) : Z :=
  let offset := Z.land (List.last digest 0) 15 in
  Z.land (of_big_endian (take 4 (drop (Z.to_nat offset) digest))) (2 ^ 31 - 1).

Definition totp_code (secret : string) (counter : Z) : outcome string :=
  decode_secret secret ≫= λ key,
  Done (zfill DIGITS (pretty (truncate (hmac_sha1 key (big_endian 8 counter)) mod 10 ^ Z.of_nat DIGITS))).

(** [len(candidate) == 6 and candidate.isdigit()]. *)
Definition is_code (candidate : string) : bool :=
  if isascii candidate then (String.length candidate =? DIGITS)%nat && string_forall is_decimal candidate
  else six_digits_elsewhere candidate.

(** The loop over the steps of the drift window, from a step on. *)
Fixpoint match_step (secret candidate : string) (last_consumed : option Z) (counter : Z) (steps : nat) : outcome (option Z) :=
  match steps with
  | O => Done None
  | S steps =>
      let next := match_step secret candidate last_consumed (counter + 1) steps in
      if (counter <? 0) || match last_consumed with Some l => counter <=? l | None => false end then next
      else totp_code secret counter ≫= λ code : string,
           compare_digest code candidate ≫= λ same : bool,
           if same then Done (Some counter) else next
  end.

(** [verify_totp]: the step the code belongs to, if it is valid. *)
Definition verify_totp (secret code : string) (now drift_steps : Z) (last_consumed : option Z) : outcome (option Z) :=
  let candidate := str_replace " " "" (strip code) in
  if negb (is_code candidate) then Done None
  else match_step secret candidate last_consumed (now / STEP - drift_steps) (Z.to_nat (2 * drift_steps + 1)).

Lemma match_step_spec secret candidate last steps : ∀ counter c,
  match_step secret candidate last counter steps = Done (Some c) →
  0 ≤ c ∧ counter ≤ c < counter + Z.of_nat steps ∧ (∀ l, last = Some l → l < c) ∧ totp_code secret c = Done candidate.
Proof.
  induction steps as [|steps IH]; intros counter c; cbn [match_step]; [done|].
  destruct (Z.ltb_spec counter 0); cbn [orb].
  { intros H'. apply IH in H'. split_and!; try lia; naive_solver. }
  destruct (match last with Some l => counter <=? l | None => false end) eqn:El.
  { intros H'. apply IH in H'. split_and!; try lia; naive_solver. }
  destruct (totp_code secret counter) as [code|] eqn:Ec; cbn; [|done].
  destruct (compare_digest code candidate) as [[]|] eqn:Es; cbn; [| |done].
  - intros [= <-]. apply compare_digest_true in Es as ->. split_and!; try lia; [|done]. intros l ->. lia.
  - intros H'. apply IH in H'. split_and!; try lia; naive_solver.
Qed.

Lemma of_big_endian_nonneg l : (∀ b, b ∈ l → 0 ≤ b) → 0 ≤ of_big_endian l.
Proof.
  unfold of_big_endian. cut (∀ acc, 0 ≤ acc → (∀ b, b ∈ l → 0 ≤ b) → 0 ≤ foldl (λ acc b, acc * 256 + b) acc l).
  { intros H Hl. apply H; [done|exact Hl]. }
  induction l as [|b l IH]; intros acc Hacc Hl; cbn; [done|]. apply IH.
  - assert (0 ≤ b) by (apply Hl; left). lia.
  - intros b' Hb'. apply Hl. by right.
Qed.

Lemma truncate_range key message : 0 ≤ truncate (hmac_sha1 key message) < 2 ^ 31.
Proof.
  unfold truncate. set (x := of_big_endian _). assert (Hx : 0 ≤ x).
  { apply of_big_endian_nonneg. intros b Hb. apply (hmac_sha1_bytes key message b).
    apply elem_of_take in Hb as (i & Hb & _). rewrite lookup_drop in Hb. by apply list_elem_of_lookup_2 in Hb. }
  change (2 ^ 31 - 1) with (Z.ones 31). rewrite Z.land_ones by lia. apply Z.mod_pos_bound. lia.
Qed.

(** The four bytes that make a code are always there. *)
Lemma truncate_bytes key message :
  length (take 4 (drop (Z.to_nat (Z.land (List.last (hmac_sha1 key message) 0) 15)) (hmac_sha1 key message))) = 4%nat.
Proof.
  rewrite length_take, length_drop, hmac_sha1_length. change 15 with (Z.ones 4). rewrite Z.land_ones by lia.
  pose proof (Z.mod_pos_bound (List.last (hmac_sha1 key message) 0) (2 ^ 4) ltac:(lia)). lia.
Qed.
End totp.

(** * Accounts *)

Record LocalUser := MkUser {
  lu_username : string;
  lu_display_name : string;
  lu_email : string;
  lu_groups : list string;
  lu_password_verifier : string;
  lu_totp_secret : string;
  lu_disabled : bool;
  lu_must_change_password : bool;
}.

Definition mfa_enabled (u : LocalUser) : bool := negb (str_empty (lu_totp_secret u)).

(** [LocalUser.claims]. *)
Definition user_claims (u : LocalUser) : dict json :=
  [("sub", JStr (lu_username u)); ("preferred_username", JStr (lu_username u));
   ("name", JStr (if str_empty (lu_display_name u) then lu_username u else lu_display_name u));
   ("email", JStr (lu_email u)); ("groups", JList (map JStr (lu_groups u)));
   ("amr", JList (JStr "pwd" :: if mfa_enabled u then [JStr "otp"] else []))].

Section accounts.
Context `{SL : StrLower}.

Definition user_key (u : LocalUser) : string := str_lower (lu_username u).
Definition account_key (username : string) : string := str_lower (strip username).

(** [LocalUserStore]: accounts under their keys. *)
Definition get_user (username : string) (store : dict LocalUser) : option LocalUser := dict_get (account_key username) store.
Definition with_user (u : LocalUser) (store : dict LocalUser) : dict LocalUser := dict_set (user_key u) u store.
Definition without_user (username : string) (store : dict LocalUser) : dict LocalUser := dict_pop (account_key username) store.

(** [from_dict], on accounts already parsed. *)
Definition load_users (users : list LocalUser) : result (dict LocalUser) :=
  foldl (λ store u, store ≫= λ store,
    raise_if (is_some (dict_get (user_key u) store)) (ValueError "Duplicate local username (case-insensitive)") ≫= λ _,
    Ok (dict_set (user_key u) u store)) (Ok []) users.
End accounts.

(** * Attempts *)

Definition MAX_TRACKED_ACCOUNTS : positive := 50000.

(** Times are readings of the monotonic clock, which is positive. *)
Record AttemptRecord := MkAttempt {
  at_failures : Z;
  at_locked_until : Z;
  at_last_totp_counter : option Z;
  at_updated_at : Z;
}.
Definition no_attempts : AttemptRecord := MkAttempt 0 0 None 0.

Abbreviation Attempts := (dict AttemptRecord).

Definition attempt_of (key : string) (attempts : Attempts) : AttemptRecord := default no_attempts (dict_get key attempts).

(** [_record] and what its caller does to it: a new record may push out the one
    that was touched least recently. *)
Definition oldest_attempt (attempts : Attempts) : option string :=
  fst <$> foldl (λ best e, match best with
                           | Some b => if at_updated_at e.2 <? at_updated_at b.2 then Some e else best
                           | None => Some e
                           end) None attempts.

Definition update_record (max_entries : positive) (key : string) (now : Z) (f : AttemptRecord → AttemptRecord) (attempts : Attempts) :
  Attempts :=
  let attempts := match dict_get key attempts with
                  | Some _ => attempts
                  | None => if Z.pos max_entries <=? Z.of_nat (length attempts)
                            then match oldest_attempt attempts with Some k => dict_pop k attempts | None => attempts end
                            else attempts
                  end in
  let r := attempt_of key attempts in
  dict_set key (f (MkAttempt (at_failures r) (at_locked_until r) (at_last_totp_counter r) now)) attempts.

Definition lockout_remaining (key : string) (now : Z) (attempts : Attempts) : Z :=
  match dict_get key attempts with Some r => Z.max 0 (at_locked_until r - now) | None => 0 end.

Definition failed_once (threshold lockout now : Z) (r : AttemptRecord) : AttemptRecord :=
  if (0 <? threshold) && (threshold <=? at_failures r + 1)
  then MkAttempt 0 (now + lockout) (at_last_totp_counter r) (at_updated_at r)
  else MkAttempt (at_failures r + 1) (at_locked_until r) (at_last_totp_counter r) (at_updated_at r).

Section attempts.
Context (max_entries : positive).

Definition record_failure (key : string) (threshold lockout now : Z) (attempts : Attempts) : Attempts * Z :=
  let locks := (0 <? threshold) && (threshold <=? at_failures (attempt_of key attempts) + 1) in
  (update_record max_entries key now (failed_once threshold lockout now) attempts, if locks then lockout else 0).

Definition record_success (key : string) (now : Z) (attempts : Attempts) : Attempts :=
  update_record max_entries key now (λ r, MkAttempt 0 0 (at_last_totp_counter r) (at_updated_at r)) attempts.

Definition spent (counter : Z) (r : AttemptRecord) : bool :=
  match at_last_totp_counter r with Some l => counter <=? l | None => false end.

Definition consume_totp_counter (key : string) (counter now : Z) (attempts : Attempts) : Attempts * bool :=
  let fresh := negb (spent counter (attempt_of key attempts)) in
  (update_record max_entries key now
     (λ r, if fresh then MkAttempt (at_failures r) (at_locked_until r) (Some counter) (at_updated_at r) else r) attempts, fresh).

(** * The login *)

(** What an attempt presents, and what the deployment asks. *)
Record LoginAttempt := MkLogin { la_username : string; la_password : string; la_totp_code : option string }.
Record LoginSettings := MkSettings { ls_threshold : Z; ls_lockout : Z; ls_require_mfa : bool }.

Context `{PW : Passwords} `{TP : Totp} `{SL : StrLower}.
Context (dummy_verifier : string).

Record PendingLogin := MkPending { pl_key : string; pl_user : option LocalUser; pl_password_ok : bool; pl_code : option string }.

(** The first half, up to the first suspension: the lockout is consulted and the
    account read; the password is then checked on a thread. *)
Definition login_begin (store : dict LocalUser) (a : LoginAttempt) (now : Z) (attempts : Attempts) : outcome PendingLogin :=
  let key := account_key (la_username a) in
  fail_if (str_empty key) "missing_username" ≫= λ _,
  fail_if (0 <? lockout_remaining key now attempts) "locked_out" ≫= λ _,
  let user := get_user key store in
  let verifier := match user with
                  | Some u => if str_empty (lu_password_verifier u) then dummy_verifier else lu_password_verifier u
                  | None => dummy_verifier
                  end in
  Done (MkPending key user (verify_password (la_password a) verifier) (la_totp_code a)).

(** [_fail]. *)
Definition fail_login (key : string) (s : LoginSettings) (now : Z) (category : string) (attempts : Attempts) :
  Attempts * outcome (LocalUser * bool) :=
  let '(attempts, locked_for) := record_failure key (ls_threshold s) (ls_lockout s) now attempts in
  (attempts, Failed (if 0 <? locked_for then "locked_out" else category)).

(** The second half, in one piece: who it is and whether a code was used. *)
Definition login_finish (s : LoginSettings) (p : PendingLogin) (wall now : Z) (attempts : Attempts) :
  Attempts * outcome (LocalUser * bool) :=
  let refuse category attempts := fail_login (pl_key p) s now category attempts in
  match pl_user p with
  | None => refuse "invalid_credentials" attempts
  | Some user =>
      if lu_disabled user || str_empty (lu_password_verifier user) || negb (pl_password_ok p)
      then refuse "invalid_credentials" attempts
      else if mfa_enabled user then
        if match pl_code p with Some c => str_empty c | None => true end then refuse "mfa_required" attempts else
        match verify_totp (lu_totp_secret user) (default "" (pl_code p)) wall DEFAULT_DRIFT_STEPS None with
        | Failed c => (attempts, Failed c)
        | Done None => refuse "invalid_mfa_code" attempts
        | Done (Some counter) =>
            let '(attempts, fresh) := consume_totp_counter (pl_key p) counter now attempts in
            if fresh then (record_success (pl_key p) now attempts, Done (user, true)) else refuse "replayed_mfa_code" attempts
        end
      else if ls_require_mfa s then refuse "mfa_not_enrolled" attempts
      else (record_success (pl_key p) now attempts, Done (user, false))
  end.

(** [authenticate_local_user] with nothing in between. *)
Definition authenticate_local_user (s : LoginSettings) (store : dict LocalUser) (a : LoginAttempt) (wall now : Z) (attempts : Attempts) :
  Attempts * outcome (LocalUser * bool) :=
  match login_begin store a now attempts with
  | Failed c => (attempts, Failed c)
  | Done p => login_finish s p wall now attempts
  end.

(** What the caller of the endpoint is told. *)
Definition GENERIC_FAILURE_MESSAGE : string := "Sign-in failed. Check your username, password, and code.".
Definition failure_message (category : string) : string :=
  if bool_decide (category = "locked_out") then "Too many failed sign-in attempts. Try again later." else GENERIC_FAILURE_MESSAGE.
End attempts.

(** ** One record *)

Definition touched (now : Z) (r : AttemptRecord) : AttemptRecord :=
  MkAttempt (at_failures r) (at_locked_until r) (at_last_totp_counter r) now.

Section records.
Context (max_entries : positive).

Lemma attempt_of_set key r attempts : attempt_of key (dict_set key r attempts) = r.
Proof. unfold attempt_of. by rewrite dict_get_set_eq. Qed.

Lemma attempt_of_set_ne k key r attempts : k ≠ key → attempt_of k (dict_set key r attempts) = attempt_of k attempts.
Proof. intros H. unfold attempt_of. by rewrite dict_get_set_ne. Qed.

Lemma update_record_own key now f attempts :
  attempt_of key (update_record max_entries key now f attempts) = f (touched now (attempt_of key attempts)).
Proof.
  unfold update_record. rewrite attempt_of_set. unfold touched. do 2 f_equal; unfold attempt_of;
    (destruct (dict_get key attempts) eqn:E; [by rewrite E|];
     destruct (_ <=? _); [|by rewrite E]; destruct (oldest_attempt _); [|by rewrite E]; rewrite dict_get_pop, E; by case_bool_decide).
Qed.

(** There is room for a record of the key: no other is pushed out. *)
Definition has_room (key : string) (attempts : Attempts) : Prop :=
  key ∈ dict_keys attempts ∨ Z.of_nat (length attempts) < Z.pos max_entries.

Lemma update_record_room key now f attempts : has_room key attempts →
  update_record max_entries key now f attempts = dict_set key (f (touched now (attempt_of key attempts))) attempts.
Proof.
  intros [Hin|Hl]; unfold update_record.
  - apply dict_get_is_Some in Hin as [r ->]. done.
  - destruct (dict_get key attempts); [done|]. by rewrite (proj2 (Z.leb_gt _ _)).
Qed.

Lemma update_record_keys key now f attempts : has_room key attempts →
  dict_keys (update_record max_entries key now f attempts)
  = if bool_decide (key ∈ dict_keys attempts) then dict_keys attempts else dict_keys attempts ++ [key].
Proof. intros H. rewrite update_record_room by done. apply dict_set_keys. Qed.

Lemma update_record_has_room key now f attempts : has_room key attempts → has_room key (update_record max_entries key now f attempts).
Proof.
  intros H. left. rewrite update_record_keys by done. case_bool_decide; [done|]. apply elem_of_app. right. left.
Qed.

Lemma update_record_other k key now f attempts : has_room key attempts → k ≠ key →
  attempt_of k (update_record max_entries key now f attempts) = attempt_of k attempts.
Proof. intros H Hne. rewrite update_record_room by done. by apply attempt_of_set_ne. Qed.
End records.

Lemma count_of_cons {A} (f : A → bool) x l : count_of f (x :: l) = ((if f x then 1 else 0) + count_of f l)%nat.
Proof. unfold count_of. cbn. by destruct (f x). Qed.

(** * Guessing is throttled *)

Section throttle.
Context (max_entries : positive) `{PW : Passwords} `{TP : Totp} `{SL : StrLower} (dummy_verifier : string).
Context (s : LoginSettings) (store : dict LocalUser).

(** A refusal counts one failure, unless the code was one that cannot be read. *)
Lemma login_finish_refused p wall now attempts attempts' c :
  login_finish max_entries s p wall now attempts = (attempts', Failed c) →
  (∃ r, at_failures r = at_failures (attempt_of (pl_key p) attempts)
        ∧ at_locked_until r = at_locked_until (attempt_of (pl_key p) attempts)
        ∧ attempt_of (pl_key p) attempts' = failed_once (ls_threshold s) (ls_lockout s) now r)
  ∨ attempts' = attempts ∧ pl_password_ok p = true.
Proof.
  assert (Hfail : ∀ category a o, fail_login max_entries (pl_key p) s now category a = (attempts', o) →
    at_failures (attempt_of (pl_key p) a) = at_failures (attempt_of (pl_key p) attempts) →
    at_locked_until (attempt_of (pl_key p) a) = at_locked_until (attempt_of (pl_key p) attempts) →
    ∃ r, at_failures r = at_failures (attempt_of (pl_key p) attempts)
        ∧ at_locked_until r = at_locked_until (attempt_of (pl_key p) attempts)
        ∧ attempt_of (pl_key p) attempts' = failed_once (ls_threshold s) (ls_lockout s) now r).
  { intros category a o H Hf Hl. unfold fail_login, record_failure in H. injection H as <- _.
    exists (touched now (attempt_of (pl_key p) a)). rewrite update_record_own. by split_and!. }
  unfold login_finish. destruct (pl_user p) as [user|]; [|intros H; left; by eapply Hfail].
  destruct (lu_disabled user || str_empty (lu_password_verifier user) || negb (pl_password_ok p)) eqn:Ebad; [intros H; left; by eapply Hfail|].
  apply orb_false_iff in Ebad as [_ Hok]. apply negb_false_iff in Hok.
  destruct (mfa_enabled user).
  - destruct (match pl_code p with Some c => str_empty c | None => true end); [intros H; left; by eapply Hfail|].
    destruct (verify_totp _ _ _ _ _) as [[counter|]|cat]; [|intros H; left; by eapply Hfail|intros [= <- <-]; by right].
    unfold consume_totp_counter. destruct (negb _); [done|]. intros H. left. eapply Hfail; [exact H|..]; by rewrite update_record_own.
  - destruct (ls_require_mfa s); [intros H; left; by eapply Hfail|done].
Qed.

(** A wrong password is always counted. *)
Lemma login_finish_wrong p wall now attempts :
  pl_password_ok p = false → ∃ c, (login_finish max_entries s p wall now attempts).2 = Failed c.
Proof.
  intros H. unfold login_finish. destruct (pl_user p) as [u|]; [rewrite H, !orb_true_r|]; unfold fail_login;
    destruct (record_failure _ _ _ _ _ _); by eexists.
Qed.

Record attempt_at := MkAt { aa_attempt : LoginAttempt; aa_wall : Z; aa_now : Z }.

(** The attempts one after the other: the account each is on, whether it had a
    wrong password compared, and what it answered. *)
Fixpoint login_run (l : list attempt_at) (attempts : Attempts) :
  list (string * bool * outcome (LocalUser * bool)) :=
  match l with
  | [] => []
  | a :: l =>
      let compared := match login_begin dummy_verifier store (aa_attempt a) (aa_now a) attempts with
                      | Done p => negb (pl_password_ok p)
                      | Failed _ => false
                      end in
      let '(attempts, o) := authenticate_local_user max_entries dummy_verifier s store (aa_attempt a) (aa_wall a) (aa_now a) attempts in
      (account_key (la_username (aa_attempt a)), compared, o) :: login_run l attempts
  end.

Fixpoint attempts_in_order (t : Z) (l : list attempt_at) : Prop :=
  match l with [] => True | a :: l => t ≤ aa_now a ∧ attempts_in_order (aa_now a) l end.
Definition last_attempt (t : Z) (l : list attempt_at) : Z := foldl (λ _ a, aa_now a) t l.

Context (Hthreshold : 0 < ls_threshold s) (Hlockout : 0 < ls_lockout s) (key : string) (t0 : Z).

(** [w] wrong passwords were compared, and [n] lockouts imposed, each after the
    one before was over. *)
Definition throttled (t w : Z) (attempts : Attempts) : Prop :=
  let r := attempt_of key attempts in
  ∃ n, 0 ≤ n ∧ w ≤ ls_threshold s * n + at_failures r ∧ 0 ≤ at_failures r < ls_threshold s
    ∧ at_locked_until r ≤ t + ls_lockout s
    ∧ (0 < n → t0 + n * ls_lockout s ≤ at_locked_until r ∧ (0 < at_failures r → at_locked_until r ≤ t)).

Lemma throttled_later t t' w attempts : t ≤ t' → throttled t w attempts → throttled t' w attempts.
Proof. intros Ht (n & H1 & H2 & H3 & H4 & H5). exists n. split_and!; lia. Qed.

Lemma throttled_bound t w attempts : t0 ≤ t → throttled t w attempts → w ≤ ls_threshold s * ((t - t0) / ls_lockout s + 1).
Proof.
  intros Ht (n & Hn & Hw & Hf & Hl & Hlock). set (q := (t - t0) / ls_lockout s).
  assert (Hq : 0 ≤ q) by (apply Z.div_pos; lia).
  destruct (decide (0 < n)) as [Hpos|]; [|nia]. destruct (Hlock Hpos) as [Hlow Hhigh].
  destruct (decide (0 < at_failures (attempt_of key attempts))) as [Hpf|Hz].
  - specialize (Hhigh Hpf). assert (n ≤ q) by (apply Z.div_le_lower_bound; [done|lia]). nia.
  - assert (n - 1 ≤ q) by (apply Z.div_le_lower_bound; [done|lia]). nia.
Qed.

Lemma throttled_failure t now w attempts attempts' r : t0 ≤ t → t ≤ now →
  throttled t w attempts → at_locked_until (attempt_of key attempts) ≤ now →
  at_failures r = at_failures (attempt_of key attempts) → at_locked_until r = at_locked_until (attempt_of key attempts) →
  attempt_of key attempts' = failed_once (ls_threshold s) (ls_lockout s) now r → throttled now (w + 1) attempts'.
Proof.
  intros Ht0 Ht (n & Hn & Hw & Hf & Hl & Hlock) Hopen Hrf Hrl Hr. unfold throttled. rewrite Hr. unfold failed_once.
  rewrite (proj2 (Z.ltb_lt 0 (ls_threshold s))) by done. cbn [andb]. rewrite Hrf, Hrl.
  destruct (Z.leb_spec (ls_threshold s) (at_failures (attempt_of key attempts) + 1)); cbn [at_failures at_locked_until].
  - exists (n + 1). split_and!; nia.
  - exists n. split_and!; lia.
Qed.

Lemma login_begin_done a now attempts p : login_begin dummy_verifier store a now attempts = Done p →
  pl_key p = account_key (la_username a) ∧ (0 ≤ now → at_locked_until (attempt_of (pl_key p) attempts) ≤ now).
Proof.
  unfold login_begin. intros H. apply outcome_bind_done in H as (u1 & _ & H).
  apply outcome_bind_done in H as (u2 & Hl & H). injection H as <-. split; [done|]. intros Hnow. cbn [pl_key].
  apply fail_if_done in Hl. unfold lockout_remaining in Hl. unfold attempt_of.
  destruct (dict_get _ attempts); cbn in *; [|done]. apply Z.ltb_ge in Hl. lia.
Qed.

Lemma throttled_finish t w attempts p wall now attempts' c : t0 ≤ t → t ≤ now → pl_key p = key →
  at_locked_until (attempt_of key attempts) ≤ now → throttled t w attempts →
  login_finish max_entries s p wall now attempts = (attempts', Failed c) →
  throttled now (w + if pl_password_ok p then 0 else 1) attempts'.
Proof.
  intros Ht0 Ht Hk Hopen Hthr Hf. apply login_finish_refused in Hf as [(r & Hr1 & Hr2 & Hr3)|[-> ->]].
  - rewrite Hk in Hr1, Hr2, Hr3. pose proof (throttled_failure _ _ _ _ _ _ Ht0 Ht Hthr Hopen Hr1 Hr2 Hr3) as H.
    destruct (pl_password_ok p); [|done].
    destruct H as (n & H1 & H2 & H3). exists n. split; [done|split; [lia|exact H3]].
  - rewrite Z.add_0_r. exact (throttled_later _ _ _ _ Ht Hthr).
Qed.

End throttle.

(** * A code is used once *)

Section replay.
Context (max_entries : positive) `{PW : Passwords} `{TP : Totp} `{SL : StrLower} (s : LoginSettings).

(** The second halves of any logins, as they come: the accounts they are for
    and the steps of the codes accepted. *)
Record finish_at := MkFinish { fa_login : PendingLogin; fa_wall : Z; fa_now : Z }.

Definition code_step (f : finish_at) : option Z :=
  match pl_user (fa_login f) with
  | Some user => match verify_totp (lu_totp_secret user) (default "" (pl_code (fa_login f))) (fa_wall f) DEFAULT_DRIFT_STEPS None with
                 | Done c => c
                 | Failed _ => None
                 end
  | None => None
  end.

Fixpoint accepted_codes (l : list finish_at) (attempts : Attempts) : list (string * Z) :=
  match l with
  | [] => []
  | f :: l =>
      let '(attempts, o) := login_finish max_entries s (fa_login f) (fa_wall f) (fa_now f) attempts in
      match o, code_step f with
      | Done (_, true), Some c => [(pl_key (fa_login f), c)]
      | _, _ => []
      end ++ accepted_codes l attempts
  end.

Definition last_code (key : string) (attempts : Attempts) : option Z := at_last_totp_counter (attempt_of key attempts).

Context (all : list string) (Hroom : Z.of_nat (length all) ≤ Z.pos max_entries).

Lemma all_has_room key attempts : key ∈ all → NoDup (dict_keys attempts) → dict_keys attempts ⊆ all → has_room max_entries key attempts.
Proof.
  intros Hk Hnd Hsub. destruct (decide (key ∈ dict_keys attempts)) as [|Hnew]; [by left|]. right.
  assert (Hlen : (length (key :: dict_keys attempts) ≤ length all)%nat).
  { apply submseteq_length, NoDup_submseteq; [by constructor|]. intros k [->|H]%elem_of_cons; [done|by apply Hsub]. }
  cbn in Hlen. unfold dict_keys in Hlen. rewrite length_map in Hlen. lia.
Qed.

Definition tidy (attempts : Attempts) : Prop := NoDup (dict_keys attempts) ∧ dict_keys attempts ⊆ all.

Lemma update_record_tidy key now f attempts : key ∈ all → tidy attempts → tidy (update_record max_entries key now f attempts).
Proof.
  intros Hk [Hnd Hsub]. rewrite update_record_room by by apply all_has_room. split; [by apply dict_set_NoDup|].
  rewrite dict_set_keys. case_bool_decide; [done|]. intros k [Hin|Heq%list_elem_of_singleton]%elem_of_app; [by apply Hsub|by subst].
Qed.

Lemma update_record_last k key now f attempts : key ∈ all → tidy attempts →
  last_code k (update_record max_entries key now f attempts)
  = if bool_decide (k = key) then at_last_totp_counter (f (touched now (attempt_of key attempts))) else last_code k attempts.
Proof.
  intros Hk [Hnd Hsub]. unfold last_code. case_bool_decide as E; [subst; by rewrite update_record_own|].
  rewrite update_record_other; [done| |done]. by apply all_has_room.
Qed.

(** What leaves the last code alone. *)
Lemma update_record_keeps k key now f attempts : key ∈ all → tidy attempts →
  (∀ r, at_last_totp_counter (f r) = at_last_totp_counter r) →
  last_code k (update_record max_entries key now f attempts) = last_code k attempts.
Proof.
  intros Hk Ht Hf. rewrite update_record_last by done. case_bool_decide as E; [|done]. subst. by rewrite Hf.
Qed.

Lemma failed_once_last threshold lockout now r : at_last_totp_counter (failed_once threshold lockout now r) = at_last_totp_counter r.
Proof. unfold failed_once. by destruct (_ && _). Qed.

(** A second half keeps the store tidy, moves no last code back, and accepts a
    code only past the last one. *)
Record step_ok (f : finish_at) (attempts attempts' : Attempts) (o : outcome (LocalUser * bool)) : Prop := {
  so_tidy : tidy attempts';
  so_forward k c : last_code k attempts = Some c → ∃ c', last_code k attempts' = Some c' ∧ c ≤ c';
  so_code user : o = Done (user, true) → ∃ c, code_step f = Some c ∧ last_code (pl_key (fa_login f)) attempts' = Some c
                   ∧ (∀ c0, last_code (pl_key (fa_login f)) attempts = Some c0 → c0 < c);
}.

Lemma step_refused f category attempts base attempts' o : pl_key (fa_login f) ∈ all → tidy base →
  (∀ k, last_code k base = last_code k attempts) →
  fail_login max_entries (pl_key (fa_login f)) s (fa_now f) category base = (attempts', o) → step_ok f attempts attempts' o.
Proof.
  intros Hk Ht Hbase H. unfold fail_login, record_failure in H. injection H as <- <-. split; [by apply update_record_tidy| |done].
  intros k c Hc. exists c. split; [|lia]. rewrite update_record_keeps; [by rewrite Hbase|done|done|]. intros r. apply failed_once_last.
Qed.

Lemma step_plain f user attempts : pl_key (fa_login f) ∈ all → tidy attempts →
  step_ok f attempts (record_success max_entries (pl_key (fa_login f)) (fa_now f) attempts) (Done (user, false)).
Proof.
  intros Hk Ht. split; [by apply update_record_tidy| |done]. intros k c Hc. exists c. split; [|lia].
  unfold record_success. by rewrite update_record_keeps.
Qed.

Lemma spent_false counter key attempts : spent counter (attempt_of key attempts) = false ↔ (∀ c, last_code key attempts = Some c → c < counter).
Proof.
  unfold spent, last_code. destruct (at_last_totp_counter _) as [l|]; [|by split]. rewrite Z.leb_gt.
  split; [by intros H c [= <-]|intros H; by apply H].
Qed.

Lemma step_code f user counter attempts : pl_key (fa_login f) ∈ all → tidy attempts → code_step f = Some counter →
  spent counter (attempt_of (pl_key (fa_login f)) attempts) = false →
  step_ok f attempts (record_success max_entries (pl_key (fa_login f)) (fa_now f)
    (consume_totp_counter max_entries (pl_key (fa_login f)) counter (fa_now f) attempts).1) (Done (user, true)).
Proof.
  intros Hk Ht Hcode Hs. pose proof (proj1 (spent_false _ _ _) Hs) as Hlt. unfold consume_totp_counter. rewrite Hs. cbn [fst negb].
  assert (Ht' := update_record_tidy (pl_key (fa_login f)) (fa_now f)
    (λ r, MkAttempt (at_failures r) (at_locked_until r) (Some counter) (at_updated_at r)) attempts Hk Ht).
  assert (Hlast : ∀ k, last_code k (record_success max_entries (pl_key (fa_login f)) (fa_now f)
    (update_record max_entries (pl_key (fa_login f)) (fa_now f)
       (λ r, MkAttempt (at_failures r) (at_locked_until r) (Some counter) (at_updated_at r)) attempts))
    = if bool_decide (k = pl_key (fa_login f)) then Some counter else last_code k attempts).
  { intros k. unfold record_success. rewrite update_record_keeps by done. by rewrite update_record_last. }
  split; [by apply update_record_tidy| |].
  - intros k c Hc. rewrite Hlast. case_bool_decide as E; [|by exists c]. subst. exists counter. split; [done|]. apply Hlt in Hc. lia.
  - intros u _. exists counter. rewrite Hlast, bool_decide_eq_true_2 by done. by split_and!.
Qed.

Lemma login_finish_step f attempts attempts' o : pl_key (fa_login f) ∈ all → tidy attempts →
  login_finish max_entries s (fa_login f) (fa_wall f) (fa_now f) attempts = (attempts', o) → step_ok f attempts attempts' o.
Proof.
  intros Hk Ht. unfold login_finish. assert (Hrefuse := λ category, step_refused f category attempts attempts attempts' o Hk Ht (λ k, eq_refl)).
  destruct (pl_user (fa_login f)) as [user|] eqn:Eu; [|apply Hrefuse].
  destruct (lu_disabled user || str_empty (lu_password_verifier user) || negb (pl_password_ok (fa_login f))); [apply Hrefuse|].
  destruct (mfa_enabled user).
  - destruct (match pl_code (fa_login f) with Some c => str_empty c | None => true end); [apply Hrefuse|].
    destruct (verify_totp _ _ _ _ _) as [[counter|]|cat] eqn:Ev; [|apply Hrefuse|].
    + destruct (spent counter (attempt_of (pl_key (fa_login f)) attempts)) eqn:Es.
      * unfold consume_totp_counter. rewrite Es. cbn [negb]. apply step_refused; [done|by apply update_record_tidy|].
        intros k. by rewrite update_record_keeps.
      * assert (Hstep := step_code f user counter attempts Hk Ht ltac:(unfold code_step; by rewrite Eu, Ev) Es).
        unfold consume_totp_counter in *. rewrite Es in *. by intros [= <- <-].
    + intros [= <- <-]. split; [done| |done]. intros k c Hc. by exists c.
  - destruct (ls_require_mfa s); [apply Hrefuse|]. intros [= <- <-]. by apply step_plain.
Qed.

Lemma accepted_codes_later l : ∀ attempts, tidy attempts → (∀ f, f ∈ l → pl_key (fa_login f) ∈ all) →
  (∀ k c c0, (k, c) ∈ accepted_codes l attempts → last_code k attempts = Some c0 → c0 < c)
  ∧ StronglySorted (λ x y, x.1 = y.1 → x.2 < y.2) (accepted_codes l attempts).
Proof.
  induction l as [|f l IH]; intros attempts Ht Hall; cbn [accepted_codes].
  { split; [|constructor]. by intros k c c0 ?%not_elem_of_nil. }
  destruct (login_finish max_entries s (fa_login f) (fa_wall f) (fa_now f) attempts) as [attempts' o] eqn:E.
  apply login_finish_step in E as [Ht' Hfwd Hcode]; [|apply Hall; left|done].
  destruct (IH attempts' Ht' ltac:(intros g Hg; apply Hall; by right)) as [Hlater Hsorted].
  assert (Hskip : ∀ k c c0, (k, c) ∈ accepted_codes l attempts' → last_code k attempts = Some c0 → c0 < c).
  { intros k c c0 Hin H0. destruct (Hfwd k c0 H0) as (c' & H' & Hle). specialize (Hlater k c c' Hin H'). lia. }
  destruct o as [[user []]|cat]; [|by split..].
  destruct (Hcode user eq_refl) as (c & -> & Hc & Hlt). cbn [app]. split.
  - intros k c1 c0 [[= -> ->]|Hin]%elem_of_cons; [apply Hlt|by apply Hskip].
  - constructor; [done|]. apply Forall_forall. intros [k c1] Hin. cbn [fst snd]. intros <-. by eapply Hlater.
Qed.
End replay.

(** * Guessing among other logins *)

Section guessing.
Context (max_entries : positive) `{PW : Passwords} `{TP : Totp} `{SL : StrLower} (dummy_verifier : string).
Context (s : LoginSettings) (store : dict LocalUser).
Context (all : list string) (Hroom : Z.of_nat (length all) ≤ Z.pos max_entries).

(** A login on another account leaves the record of this one. *)
Lemma update_record_elsewhere k key now f attempts : key ∈ all → tidy all attempts → k ≠ key →
  attempt_of k (update_record max_entries key now f attempts) = attempt_of k attempts.
Proof using Hroom. intros Hk [Hnd Hsub] Hne. apply update_record_other; [|done]. by eapply all_has_room. Qed.

Lemma login_finish_elsewhere key p wall now attempts attempts' o :
  pl_key p ∈ all → tidy all attempts → key ≠ pl_key p →
  login_finish max_entries s p wall now attempts = (attempts', o) →
  attempt_of key attempts' = attempt_of key attempts.
Proof using Hroom.
  intros Hk Ht Hne. unfold login_finish, fail_login, record_failure, record_success.
  assert (Hone : ∀ f base, tidy all base → attempt_of key base = attempt_of key attempts →
    attempt_of key (update_record max_entries (pl_key p) now f base) = attempt_of key attempts).
  { intros f base Hb <-. by apply update_record_elsewhere. }
  assert (Hdone : ∀ f base (o' : outcome (LocalUser * bool)), tidy all base → attempt_of key base = attempt_of key attempts →
    (update_record max_entries (pl_key p) now f base, o') = (attempts', o) → attempt_of key attempts' = attempt_of key attempts).
  { intros f base o' Hb Hbase [= <- _]. by apply Hone. }
  destruct (pl_user p) as [user|]; [|by apply Hdone].
  destruct (_ || _); [by apply Hdone|]. destruct (mfa_enabled user).
  - destruct (match pl_code p with Some c => str_empty c | None => true end); [by apply Hdone|].
    destruct (verify_totp _ _ _ _ _) as [[counter|]|c]; [|by apply Hdone|by intros [= <- _]].
    unfold consume_totp_counter.
    assert (Hmid : ∀ f, tidy all (update_record max_entries (pl_key p) now f attempts))
      by (intros f; by apply update_record_tidy).
    destruct (negb _); apply Hdone; try apply Hmid; by apply Hone.
  - destruct (ls_require_mfa s); by apply Hdone.
Qed.

Context (Hthreshold : 0 < ls_threshold s) (Hlockout : 0 < ls_lockout s) (key : string) (t0 : Z).

Definition tries (r : string * bool * outcome (LocalUser * bool)) : bool := bool_decide (r.1.1 = key) && r.1.2.

Lemma login_run_throttled l : ∀ t w attempts,
  0 ≤ t0 → t0 ≤ t → attempts_in_order t l → (∀ a, a ∈ l → account_key (la_username (aa_attempt a)) ∈ all) →
  (∀ b o, (key, b, o) ∈ login_run max_entries dummy_verifier s store l attempts → ∃ c, o = Failed c) →
  tidy all attempts → throttled s key t0 t w attempts →
  w + Z.of_nat (count_of tries (login_run max_entries dummy_verifier s store l attempts))
  ≤ ls_threshold s * ((last_attempt t l - t0) / ls_lockout s + 1).
Proof using Hroom Hthreshold Hlockout.
  induction l as [|a l IH]; intros t w attempts H0 Ht0 Hord Hkey Hfail Htidy Hthr.
  { cbn. rewrite Z.add_0_r. by eapply throttled_bound. }
  destruct Hord as [Ht Hord]. cbn [login_run] in *.
  change (last_attempt t (a :: l)) with (last_attempt (aa_now a) l). unfold authenticate_local_user in *.
  assert (Hall : account_key (la_username (aa_attempt a)) ∈ all) by (apply Hkey; left).
  assert (Hrest : ∀ a, a ∈ l → account_key (la_username (aa_attempt a)) ∈ all) by (intros a' Ha'; apply Hkey; by right).
  destruct (login_begin dummy_verifier store (aa_attempt a) (aa_now a) attempts) as [p|c] eqn:Eb.
  2: { rewrite count_of_cons. unfold tries at 1. cbn [fst snd]. rewrite andb_false_r.
       apply IH; try done; [lia| |by eapply throttled_later]. intros b o Hb. apply (Hfail b). by right. }
  apply login_begin_done in Eb as [Hp Hopen].
  destruct (login_finish max_entries s p (aa_wall a) (aa_now a) attempts) as [attempts' o] eqn:Ef.
  assert (Htidy' : tidy all attempts').
  { rewrite <- Hp in Hall. exact (so_tidy _ _ _ _ _ (login_finish_step max_entries s all Hroom (MkFinish p (aa_wall a) (aa_now a)) attempts attempts' o Hall Htidy Ef)). }
  assert (Hlater : ∀ b o, (key, b, o) ∈ login_run max_entries dummy_verifier s store l attempts' → ∃ c, o = Failed c)
    by (intros b o' Hb; apply (Hfail b); by right).
  rewrite count_of_cons. unfold tries at 1. cbn [fst snd]. case_bool_decide as Hk; cbn [andb].
  - rewrite Hk in Hp, Hfail. rewrite Hp in Hopen. destruct (Hfail _ _ (list_elem_of_here _ _)) as [c ->].
    assert (Hthr' : throttled s key t0 (aa_now a) (w + if pl_password_ok p then 0 else 1) attempts').
    { eapply throttled_finish; [done..|exact Ht0|exact Ht|exact Hp|apply Hopen; lia|exact Hthr|exact Ef]. }
    specialize (IH (aa_now a) _ attempts' H0 ltac:(lia) Hord Hrest Hlater Htidy' Hthr').
    destruct (pl_password_ok p); cbn [negb] in *; lia.
  - apply IH; try done; [lia|]. assert (Hthr' : throttled s key t0 (aa_now a) w attempts) by (by eapply throttled_later).
    clear Hthr.
    unfold throttled in *. rewrite (login_finish_elsewhere key p (aa_wall a) (aa_now a) attempts attempts' o); [done| | | |done].
    + by rewrite Hp.
    + done.
    + rewrite Hp. congruence.
Qed.
End guessing.

(** C30. Guessing at an account in sequence is throttled, whatever else is tried in
    between: with the lockout on, on a clock that does not go back, and while the
    store has room for a record of every account tried, an account that starts
    without a record has, until an attempt on it succeeds, at most [threshold]
    wrong passwords compared for every lockout period that passes, and
    [threshold] more, with whatever passwords and codes. *)
Theorem guessing_is_throttled max_entries `{PW : Passwords} `{TP : Totp} `{SL : StrLower} dummy_verifier s store accounts attempts key t0 l :
  0 < ls_threshold s → 0 < ls_lockout s → 0 ≤ t0 → dict_get key attempts = None → attempts_in_order t0 l →
  Z.of_nat (length accounts) ≤ Z.pos max_entries → tidy accounts attempts →
  (∀ a, a ∈ l → account_key (la_username (aa_attempt a)) ∈ accounts) →
  (∀ b o, (key, b, o) ∈ login_run max_entries dummy_verifier s store l attempts → ∃ c, o = Failed c) →
  Z.of_nat (count_of (tries key) (login_run max_entries dummy_verifier s store l attempts))
  ≤ ls_threshold s * ((last_attempt t0 l - t0) / ls_lockout s + 1).
Proof.
  intros Ht Hl H0 Hnew Hord Hroom Htidy Hkey Hfail.
  apply (login_run_throttled max_entries dummy_verifier s store accounts Hroom Ht Hl key t0 l t0 0 attempts
    H0 (Z.le_refl _) Hord Hkey Hfail Htidy).
  unfold throttled, attempt_of. rewrite Hnew. exists 0. cbn. split_and!; lia.
Qed.

(** A one-time code is used once: whatever logins finish, in whatever order and
    for whatever accounts, as long as the store has room for the accounts, the
    steps of the codes accepted for an account only increase; and a code that is
    accepted is the one the account's secret gives for a step at most one away
    from the present one. *)
Theorem one_time_codes_are_spent max_entries `{PW : Passwords} `{TP : Totp} `{SL : StrLower} s l accounts :
  Z.of_nat (length accounts) ≤ Z.pos max_entries → (∀ f, f ∈ l → pl_key (fa_login f) ∈ accounts) →
  StronglySorted (λ x y, x.1 = y.1 → x.2 < y.2) (accepted_codes max_entries s l [])
  ∧ (∀ f c user, pl_user (fa_login f) = Some user → code_step f = Some c →
       totp_code (lu_totp_secret user) c = Done (str_replace " " "" (strip (default "" (pl_code (fa_login f)))))
       ∧ 0 ≤ c ∧ Z.abs (c - fa_wall f / STEP) ≤ 1).
Proof.
  intros Hroom Hall. split.
  - refine (proj2 (accepted_codes_later max_entries s accounts Hroom l [] _ Hall)). split; [constructor|]. by intros k ?%not_elem_of_nil.
  - intros f c user Hu. unfold code_step. rewrite Hu. destruct (verify_totp _ _ _ _ _) as [o|] eqn:E; [|done]. intros ->.
    unfold verify_totp in E. destruct (is_code _); [|done]. cbn [negb] in E.
    apply match_step_spec in E as (Hc & Hr & _ & Hcode). unfold DEFAULT_DRIFT_STEPS in Hr. split_and!; [done|done|lia].
Qed.

(** * The failures *)

Section failures.
Context (max_entries : positive) `{PW : Passwords} `{TP : Totp} `{SL : StrLower} (dummy_verifier : string).

(** A login that has not shown the password learns nothing of the account: the
    answer and the store it leaves are those for an account that does not exist. *)
Lemma refusal_is_uniform s p wall now attempts : pl_password_ok p = false →
  login_finish max_entries s p wall now attempts
  = login_finish max_entries s (MkPending (pl_key p) None (pl_password_ok p) (pl_code p)) wall now attempts.
Proof. intros H. unfold login_finish. destruct (pl_user p); [rewrite H, !orb_true_r|]; reflexivity. Qed.

(** Who signs in: an enabled account, by its own password; under its second
    factor if it has one, and one it must have if the deployment asks. *)
Record signed_in_as (s : LoginSettings) (store : dict LocalUser) (a : LoginAttempt) (wall now : Z) (attempts : Attempts)
  (user : LocalUser) (used_mfa : bool) : Prop := {
  si_account : get_user (account_key (la_username a)) store = Some user;
  si_open : lockout_remaining (account_key (la_username a)) now attempts ≤ 0;
  si_enabled : lu_disabled user = false;
  si_password : lu_password_verifier user ≠ "" ∧ verify_password (la_password a) (lu_password_verifier user) = true;
  si_factor : used_mfa = mfa_enabled user;
  si_code : mfa_enabled user = true → ∃ code step, la_totp_code a = Some code ∧ code ≠ ""
              ∧ verify_totp (lu_totp_secret user) code wall DEFAULT_DRIFT_STEPS None = Done (Some step);
  si_required : ls_require_mfa s = true → mfa_enabled user = true;
}.

Lemma fail_login_failed key s now category attempts : ∃ c, (fail_login max_entries key s now category attempts).2 = Failed c.
Proof. unfold fail_login. destruct (record_failure _ _ _ _ _ _). by eexists. Qed.

Lemma login_finish_done s p wall now attempts attempts' user used :
  login_finish max_entries s p wall now attempts = (attempts', Done (user, used)) →
  pl_user p = Some user ∧ lu_disabled user = false ∧ lu_password_verifier user ≠ "" ∧ pl_password_ok p = true ∧ used = mfa_enabled user
  ∧ (mfa_enabled user = true → ∃ code step, pl_code p = Some code ∧ code ≠ ""
       ∧ verify_totp (lu_totp_secret user) code wall DEFAULT_DRIFT_STEPS None = Done (Some step))
  ∧ (ls_require_mfa s = true → mfa_enabled user = true).
Proof.
  assert (Hno : ∀ category a, fail_login max_entries (pl_key p) s now category a ≠ (attempts', Done (user, used))).
  { intros category a E. destruct (fail_login_failed (pl_key p) s now category a) as [c Hc]. by rewrite E in Hc. }
  unfold login_finish. destruct (pl_user p) as [u|] eqn:Eu; [|by intros ?%Hno].
  destruct (lu_disabled u || str_empty (lu_password_verifier u) || negb (pl_password_ok p)) eqn:Ebad; [by intros ?%Hno|].
  apply orb_false_iff in Ebad as [[Hd Hv]%orb_false_iff Hok]. apply negb_false_iff in Hok. apply bool_decide_eq_false in Hv.
  destruct (mfa_enabled u) eqn:Em.
  - destruct (pl_code p) as [code|]; [|by intros ?%Hno]. destruct (str_empty code) eqn:Ec; [by intros ?%Hno|].
    destruct (verify_totp _ _ _ _ _) as [[step|]|cat] eqn:Et; [|by intros ?%Hno|done].
    unfold consume_totp_counter. destruct (negb (spent _ _)); [|by intros ?%Hno]. intros [= _ <- <-].
    rewrite Em. split_and!; try done. intros _. exists code, step. split_and!; [done|by apply bool_decide_eq_false in Ec|done].
  - destruct (ls_require_mfa s); [by intros ?%Hno|]. intros [= _ <- <-]. rewrite Em. by split_and!.
Qed.

Lemma authenticate_local_user_done s store a wall now attempts attempts' user used :
  authenticate_local_user max_entries dummy_verifier s store a wall now attempts = (attempts', Done (user, used)) →
  signed_in_as s store a wall now attempts user used.
Proof.
  unfold authenticate_local_user. destruct (login_begin _ _ _ _ _) as [p|c] eqn:Eb; [|done]. intros H.
  apply login_finish_done in H as (Hu & Hd & Hv & Hok & Hm & Hcode & Hreq). unfold login_begin in Eb.
  apply outcome_bind_done in Eb as (u1 & _ & Eb). apply outcome_bind_done in Eb as (u2 & Hl & Eb). injection Eb as <-.
  cbn [pl_user pl_password_ok pl_code] in *. apply fail_if_done, Z.ltb_ge in Hl. rewrite Hu in Hok.
  unfold str_empty in Hok. rewrite bool_decide_eq_false_2 in Hok by done. by split.
Qed.

(** Without a code, an account with a second factor is refused. *)
Lemma enrolled_needs_code s store username password user wall now attempts :
  get_user (account_key username) store = Some user → mfa_enabled user = true →
  ∃ c, (authenticate_local_user max_entries dummy_verifier s store (MkLogin username password None) wall now attempts).2 = Failed c.
Proof.
  intros Hu Hm. unfold authenticate_local_user, login_begin. cbn [la_username la_password la_totp_code].
  destruct (fail_if _ "missing_username"); cbn; [|by eexists]. destruct (fail_if _ "locked_out"); cbn; [|by eexists].
  rewrite Hu. unfold login_finish. cbn [pl_user pl_code pl_key pl_password_ok]. rewrite Hm.
  destruct (_ || _); unfold fail_login; destruct (record_failure _ _ _ _ _ _); by eexists.
Qed.
End failures.

(** * Concrete logins *)

Section sample.
Fixpoint bits (s : string) : string :=
  match s with
  | "" => ""
  | String (Ascii.Ascii a b c d e f g h) s =>
      foldr (λ (x : bool) (t : string), String (if x then "1" else "0")%char t) (bits s) [a; b; c; d; e; f; g; h]
  end.
Fixpoint unbits (s : string) : option string :=
  match s with
  | "" => Some ""
  | String a (String b (String c (String d (String e (String f (String g (String h s))))))) =>
      let x c := bool_decide (c = "1"%char) in
      String (Ascii.Ascii (x a) (x b) (x c) (x d) (x e) (x f) (x g) (x h)) <$> unbits s
  | _ => None
  end.

(** A decimal text, after an optional minus. *)
Fixpoint read_digits (acc : N) (s : string) : N :=
  match s with "" => acc | String c s => read_digits (acc * 10 + (N_of_ascii c - 48)) s end.
Definition read_int (s : string) : option Z :=
  Some match s with
       | String c rest => if bool_decide (c = "-"%char) then - Z.of_N (read_digits 0 rest) else Z.of_N (read_digits 0 s)
       | "" => 0
       end.

Lemma read_digits_go x : ∀ s, read_digits 0 (pretty_N_go x s) = read_digits x s.
Proof.
  induction (N.lt_wf_0 x) as [x _ IH]; intros s. destruct (decide (0 < x)%N) as [Hx|Hx].
  - rewrite pretty_N_go_step by done. rewrite IH by (apply N.div_lt; lia). cbn [read_digits]. f_equal.
    assert (Hm := N.mod_lt x 10 ltac:(lia)).
    assert (Hc : (N_of_ascii (pretty_N_char (x mod 10)) - 48 = x mod 10)%N).
    { revert Hm. generalize (x mod 10)%N as y. intros y Hy.
      destruct y as [|[[[p|p|]|[p|p|]|]|[[p|p|]|[p|p|]|]|]]; first [reflexivity|lia|destruct p; first [reflexivity|lia]]. }
    rewrite Hc, N.mul_comm. symmetry. apply N.div_mod. lia.
  - assert (x = 0%N) as -> by lia. by rewrite pretty_N_go_0.
Qed.

Lemma read_digits_pretty (x : N) : read_digits 0 (pretty x) = x.
Proof. unfold pretty, pretty_N. case_decide; [by subst|]. by rewrite read_digits_go. Qed.

Lemma read_int_pos p : read_int (pretty (N.pos p)) = Some (Z.pos p).
Proof.
  unfold read_int. f_equal.
  assert (Hz : Z.of_N (read_digits 0 (pretty (N.pos p))) = Z.pos p) by by rewrite read_digits_pretty.
  assert (Hd := pretty_N_digits (λ c, negb (bool_decide (c = "-"%char))) (N.pos p)).
  destruct (pretty (N.pos p)) as [|c rest]; [done|]. case_bool_decide as Hc; [|done]. exfalso. cbn [string_forall] in Hd.
  rewrite bool_decide_eq_true_2 in Hd by done. discriminate Hd. intros y Hy.
  destruct y as [|[[[q|q|]|[q|q|]|]|[[q|q|]|[q|q|]|]|]]; first [reflexivity|lia|destruct q; first [reflexivity|lia]].
Qed.

Lemma read_int_pretty z : read_int (pretty z) = Some z.
Proof.
  destruct z as [|p|p]; [reflexivity|exact (read_int_pos p)|].
  change (pretty (Z.neg p)) with (String "-" (pretty (N.pos p))). unfold read_int. rewrite bool_decide_eq_true_2 by done.
  by rewrite read_digits_pretty.
Qed.

Lemma bits_round_trip s : unbits (bits s) = Some s.
Proof.
  induction s as [|[a b c d e f g h] s IH]; [done|]. cbn [bits foldr unbits]. rewrite IH. cbn [fmap option_fmap option_map].
  by destruct a, b, c, d, e, f, g, h.
Qed.

Lemma bits_no_dollar s : string_forall (λ c, bool_decide (c ≠ "$"%char)) (bits s) = true.
Proof. induction s as [|[a b c d e f g h] s IH]; [done|]. cbn [bits foldr string_forall]. rewrite IH. by destruct a, b, c, d, e, f, g, h. Qed.

#[local, refine] Instance sample_passwords : Passwords := {|
  scrypt pw salt p := "k" +:+ salt +:+ pw;
  b64encode := bits;
  b64decode := unbits;
  b64_round_trip := bits_round_trip;
  b64_no_dollar := bits_no_dollar;
  int_of_text := read_int;
  int_of_pretty := read_int_pretty;
|}.
Proof. done. Defined.

#[local, refine] Instance sample_totp : Totp := {|
  hmac_sha1 key message := List.last message 0 mod 256 :: replicate 19 0;
  b32decode_secret secret := Some (replicate (String.length secret) 7);
  six_digits_elsewhere code := true;
|}.
Proof.
  - done.
  - intros key message b [->|H]%elem_of_cons; [apply Z.mod_pos_bound; lia|]. apply elem_of_replicate in H as [-> _]. lia.
Defined.

#[local] Instance lower_ascii : StrLower := {| str_lower := string_map ascii_lower_char |}.

Lemma verifier_is_its_passwords_witness :
  match hash_password "correct horse battery" "salt" None with
  | Ok verifier => verify_password "correct horse battery" verifier = true ∧ needs_rehash verifier None = Ok false
                   ∧ verify_password "correct horse" verifier = false ∧ verify_password "x" "scrypt$1$8$1$0$0" = false
  | Raise _ => False
  end.
Proof.
  destruct (hash_password "correct horse battery" "salt" None) as [verifier|e] eqn:E; [|vm_compute in E; discriminate E].
  destruct (verifier_is_its_passwords "correct horse battery" "salt" None verifier E ltac:(discriminate)) as (H1 & _ & H3).
  split; [exact H1|]. split; [exact H3|]. vm_compute in E. injection E as <-. split; vm_compute; reflexivity.
Defined.

(** ** Two accounts *)

Definition verifier_of (password salt : string) : string := default "" ((λ r : result string, match r with Ok v => Some v | Raise _ => None end) (hash_password password salt None)).
Definition ada_account : LocalUser := MkUser "Ada" "" "ada@example.com" ["eng"] (verifier_of "ada's password" "s1") "" false false.
Definition bob_account : LocalUser := MkUser "bob" "Bob" "" [] (verifier_of "bob's password" "s2") "JBSWY3DPEHPK3PXP" false false.
Definition accounts : dict LocalUser := with_user bob_account (with_user ada_account []).
Definition nobody : string := verifier_of "nobody's password" "s0".
Definition three_strikes : LoginSettings := MkSettings 3 (60 * second_us) false.

Definition guess (t : Z) : attempt_at := MkAt (MkLogin " ADA " "guess" None) t t.
Definition guesses : list attempt_at := map (λ n, guess (Z.of_nat n * 10 * second_us)) (seq 1 12).

(** Bob is tried as well. *)
Definition with_bob : list attempt_at :=
  guesses ++ [MkAt (MkLogin "bob" "guess" None) (130 * second_us) (130 * second_us); guess (140 * second_us)].

Lemma guessing_is_throttled_witness :
  Z.of_nat (count_of (tries "ada") (login_run 10 nobody three_strikes accounts with_bob []))
    ≤ 3 * ((140 * second_us - 10 * second_us) / (60 * second_us) + 1)
  ∧ map (λ r : string * bool * outcome (LocalUser * bool), r.1) (login_run 10 nobody three_strikes accounts with_bob [])
    = [("ada", true); ("ada", true); ("ada", true); ("ada", false); ("ada", false); ("ada", false); ("ada", false);
       ("ada", false); ("ada", true); ("ada", true); ("ada", true); ("ada", false); ("bob", true); ("ada", false)].
Proof.
  split; [|vm_compute; reflexivity].
  refine (guessing_is_throttled 10 nobody three_strikes accounts ["ada"; "bob"] [] "ada" (10 * second_us) with_bob
    _ _ _ eq_refl _ _ _ _ _); [done..| |done| | |].
  - vm_compute. intuition discriminate.
  - split; [constructor|]. intros k Hk. by apply not_elem_of_nil in Hk.
  - intros a Ha. apply list_elem_of_In, in_app_or in Ha as [(n & <- & _)%in_map_iff|Ha].
    + apply list_elem_of_here.
    + destruct Ha as [<-|[<-|[]]]; vm_compute; [right; left|left].
  - intros b o Ho. apply list_elem_of_In in Ho.
    assert (Hall : forallb (λ r : string * bool * outcome (LocalUser * bool), match r.2 with Failed _ => true | Done _ => false end)
      (login_run 10 nobody three_strikes accounts with_bob []) = true) by (vm_compute; reflexivity).
    rewrite List.forallb_forall in Hall. specialize (Hall _ Ho). destruct o; [discriminate Hall|by eexists].
Defined.

(** Bob signs in twice with one code. *)
Definition bob_login (code : string) : PendingLogin := MkPending "bob" (Some bob_account) true (Some code).
Definition bob_logins : list finish_at :=
  map (λ e : string * Z, MkFinish (bob_login e.1) e.2 e.2)
    [("772160", 300 * second_us); ("772160", 310 * second_us); ("549376", 320 * second_us); ("772 160", 320 * second_us)].

Lemma one_time_codes_are_spent_witness :
  StronglySorted (λ x y, x.1 = y.1 → x.2 < y.2) (accepted_codes 10 three_strikes bob_logins [])
  ∧ accepted_codes 10 three_strikes bob_logins [] = [("bob", 10); ("bob", 11)].
Proof.
  split; [|vm_compute; reflexivity].
  refine (proj1 (one_time_codes_are_spent 10 three_strikes bob_logins ["bob"] _ _)); [done|].
  intros f Hf. apply list_elem_of_In, in_map_iff in Hf as (e & <- & _). apply list_elem_of_singleton. reflexivity.
Defined.

(** ** Where the login falls short *)

(** The lock is consulted before the password is checked, and not after: guesses
    already under way when it falls are all compared, and the right one signs
    in and lifts it. *)
Theorem guesses_in_flight_escape_the_lock :
  let begun pw := login_begin nobody accounts (MkLogin "ada" pw None) second_us [] in
  let finish attempts p := match p with Done p => (login_finish 10 three_strikes p 0 (2 * second_us) attempts).1 | Failed _ => attempts end in
  let locked := foldl finish [] (map begun ["1"; "2"; "3"; "4"; "5"; "6"]) in
  lockout_remaining "ada" (2 * second_us) locked = 60 * second_us
  ∧ (login_begin nobody accounts (MkLogin "ada" "ada's password" None) (2 * second_us) locked = Failed "locked_out")
  ∧ match begun "ada's password" with
    | Done p => (login_finish 10 three_strikes p 0 (2 * second_us) locked).2 = Done (ada_account, false)
                ∧ lockout_remaining "ada" (2 * second_us) (login_finish 10 three_strikes p 0 (2 * second_us) locked).1 = 0
    | Failed _ => False
    end.
Proof. vm_compute. by split_and!. Qed.

(** A code of digits that are not ASCII is a TypeError in the comparison, reached
    only with the right password, and not counted. *)
Theorem wide_digits_tell_the_password :
  let answer pw := authenticate_local_user 10 nobody three_strikes accounts (MkLogin "bob" pw (Some "１２３４５６")) (300 * second_us) second_us [] in
  (answer "bob's password").2 = Failed "TypeError" ∧ (answer "bob's password").1 = []
  ∧ (answer "a guess").2 = Failed "invalid_credentials".
Proof. vm_compute. by split_and!. Qed.
End sample.
