(* ===== verification/Authentication.v ===== *)
(** Who may call: the authenticators of [core/auth.py], [core/jwt_auth.py] and
    [identity/authenticators.py], the credential kinds a surface accepts
    ([core/auth_policy.py]), the checks [core/config.py] makes of the settings,
    and how the two transports put them together ([api/auth.py],
    [mcp/auth.py]). Shown: what each transport's answer stands for. *)
From stdpp Require Import pretty.
From S2P Require Export DeviceGrant.
Local Open Scope Z_scope.

(** * Claims as text *)

(** [repr] of a list or an object. *)
Class JsonRepr := { json_repr : json → string }.

Definition truthy (v : json) : bool :=
  match v with
  | JNull => false
  | JBool b => b
  | JInt z => negb (z =? 0)
  | JFloat f => match f with SpecFloat.S754_zero _ => false | _ => true end
  | JStr s => negb (str_empty s)
  | JList l => negb (length l =? 0)%nat
  | JObj fields => negb (length fields =? 0)%nat
  end.

Definition claim_of (k : string) (claims : dict json) : json := default JNull (dict_get k claims).

Section text.
Context `{FT : FloatText} `{JR : JsonRepr}.

Definition py_str (v : json) : string :=
  match v with
  | JNull => "None"
  | JBool b => if b then "True" else "False"
  | JInt z => pretty z
  | JFloat f => float_repr f
  | JStr s => s
  | JList _ | JObj _ => json_repr v
  end.

(** [s.split()]. *)
Fixpoint take_word (s : string) : string * string :=
  match s with
  | "" => ("", "")
  | String c r => if bool_decide (lstrip s = s) then let '(w, rest) := take_word r in (String c w, rest) else ("", s)
  end.
Fixpoint words_of (fuel : nat) (s : string) : list string :=
  match fuel with
  | O => []
  | S fuel => let s := lstrip s in if str_empty s then [] else let '(w, rest) := take_word s in w :: words_of fuel rest
  end.
Definition split_words (s : string) : list string := words_of (String.length s) s.

(** ** [core/jwt_auth.py] *)

Definition _MAX_ACT_DEPTH : nat := 16.

(** The subjects [_extract_actor] walks past, and the chain it makes of them. *)
Fixpoint act_subjects (depth : nat) (act : json) : list string :=
  match depth, act with
  | S depth, JObj fields =>
      let sub := claim_of "sub" fields in
      if truthy sub then py_str sub :: act_subjects depth (claim_of "act" fields) else []
  | _, _ => []
  end.
Definition extract_actor (act : json) : option Actor :=
  fold_right (λ sub actor, Some (MkActor sub actor)) None (act_subjects _MAX_ACT_DEPTH act).

Definition extract_scopes (claims : dict json) (scopes_claim : string) : list string :=
  match claim_of scopes_claim claims with
  | JStr s => split_words s
  | JList l => map py_str l
  | _ => []
  end.
End text.

(** * The settings *)

Inductive Environment := Production | Staging | Development | Localhost.

#[export] Instance environment_eq_dec : EqDecision Environment.
Proof. solve_decision. Defined.

(** What authentication and the validator read of [AppConfig]; whether the cookie
    flag was given is [model_fields_set]. *)
Record AppConfig := MkConfig {
  cf_environment : Environment;
  cf_hardened_image : bool;
  cf_api_v1_prefix : string;
  cf_api_keys : list string;
  cf_api_key_subject : string;
  cf_api_key_scopes : list string;
  cf_mcp_enabled : bool;
  cf_mcp_api_keys : list string;
  cf_mcp_api_key_subject : string;
  cf_mcp_api_key_scopes : list string;
  cf_jwt_enabled : bool;
  cf_jwt_jwks_url : string;
  cf_jwt_subject_claim : string;
  cf_jwt_scopes_claim : string;
  cf_jwt_act_claim : string;
  cf_jwt_mapping_provider_id : string;
  cf_mcp_oauth_resource_server_enabled : bool;
  cf_mcp_resource_identifier : string;
  cf_mcp_authorization_servers : list string;
  cf_mcp_required_scopes : list string;
  cf_sso_enabled : bool;
  cf_local_idp_enabled : bool;
  cf_sso_device_grant_enabled : bool;
  cf_dev_idp_enabled : bool;
  cf_sso_session_cookie_secure : bool;
  cf_sso_session_cookie_secure_given : bool;
  cf_sso_session_cookie_samesite : string;
  cf_console_auth_methods : list string;
  cf_rest_auth_methods : list string;
  cf_mcp_auth_methods : list string;
}.

(** The settings of the other parts, as the validator reads them. *)
Record OtherConfig := MkOther {
  oc_concurrency_redis : bool;
  oc_concurrency_redis_url : string;
  oc_vault_enabled : bool;
  oc_vault_addr : string;
  oc_vault_token : string;
  oc_credential_lease_refresh_enabled : bool;
  oc_credential_lease_check_interval_seconds : Z;
  oc_credential_lease_refresh_margin_seconds : Z;
  oc_semantic_memory_refresh_enabled : bool;
  oc_semantic_memory_usage_signals_enabled : bool;
  oc_semantic_memory_learning_enabled : bool;
  oc_catalog_file : option string;
}.

Definition is_local (c : AppConfig) : bool := bool_decide (cf_environment c ∈ [Localhost; Development]).
Definition is_hardened_image (c : AppConfig) : bool := cf_hardened_image c.

(** ** [core/auth_policy.py] *)

Definition API_KEY_METHOD : string := "api_key".
Definition JWT_METHOD : string := "jwt".
Definition ANONYMOUS_METHOD : string := "anonymous".
Definition SSO_SESSION_METHOD : string := "sso_session".
Definition DEVICE_TOKEN_METHOD : string := "sso_device_token".
Definition CALLER_AUTH_METHODS : gset string :=
  list_to_set [API_KEY_METHOD; JWT_METHOD; ANONYMOUS_METHOD; SSO_SESSION_METHOD; DEVICE_TOKEN_METHOD].
Definition SHARED_SECRET_METHODS : gset string := list_to_set [API_KEY_METHOD; ANONYMOUS_METHOD].

Inductive Surface := Console | Rest | Mcp.

#[export] Instance surface_eq_dec : EqDecision Surface.
Proof. solve_decision. Defined.

Definition validate_methods (configured : list string) (field : string) : result (list string) :=
  let methods := List.filter (λ m, negb (str_empty m)) (map strip configured) in
  raise_if (negb (forallb (λ m, bool_decide (m ∈ CALLER_AUTH_METHODS)) methods))
    (ValueError (field +:+ " names unknown authentication method(s)")) ≫= λ _, Ok methods.

Definition default_methods (s : Surface) (sso_enabled : bool) : gset string :=
  if bool_decide (s = Console) && sso_enabled then CALLER_AUTH_METHODS ∖ SHARED_SECRET_METHODS else CALLER_AUTH_METHODS.

Definition resolve_allowed (configured : list string) (s : Surface) (sso_enabled : bool) : gset string :=
  let methods : gset string := list_to_set configured in
  if bool_decide (methods = ∅) then default_methods s sso_enabled else methods.

(** [AuthMethodPolicy.check]: the refusal that becomes a 403. *)
Definition check_method (allowed : gset string) (p : Principal) : outcome Principal :=
  fail_if (negb (bool_decide (auth_method p ∈ allowed))) "method_not_permitted" ≫= λ _, Done p.

Definition surface_for_path (path api_v1_prefix : string) : Surface :=
  if String.prefix (rstrip_slash api_v1_prefix +:+ "/admin") path then Console else Rest.

(** ** [AppConfig._validate_production_auth] *)

Definition missing_text (o : option string) : bool := match o with Some s => str_empty s | None => true end.
Definition none_given {A} (l : list A) : bool := (length l =? 0)%nat.

Definition with_cookie_default (c : AppConfig) : AppConfig :=
  if is_local c && cf_sso_enabled c && negb (cf_sso_session_cookie_secure_given c)
  then MkConfig (cf_environment c) (cf_hardened_image c) (cf_api_v1_prefix c) (cf_api_keys c) (cf_api_key_subject c)
    (cf_api_key_scopes c) (cf_mcp_enabled c) (cf_mcp_api_keys c) (cf_mcp_api_key_subject c) (cf_mcp_api_key_scopes c)
    (cf_jwt_enabled c) (cf_jwt_jwks_url c) (cf_jwt_subject_claim c) (cf_jwt_scopes_claim c) (cf_jwt_act_claim c)
    (cf_jwt_mapping_provider_id c) (cf_mcp_oauth_resource_server_enabled c) (cf_mcp_resource_identifier c)
    (cf_mcp_authorization_servers c) (cf_mcp_required_scopes c) (cf_sso_enabled c) (cf_local_idp_enabled c)
    (cf_sso_device_grant_enabled c) (cf_dev_idp_enabled c) false (cf_sso_session_cookie_secure_given c)
    (cf_sso_session_cookie_samesite c) (cf_console_auth_methods c) (cf_rest_auth_methods c) (cf_mcp_auth_methods c)
  else c.

Section config.
Context `{SL : StrLower}.

Definition validate_credentials (c : AppConfig) : result unit :=
  raise_if (bool_decide (cf_environment c = Production) && none_given (cf_api_keys c) && negb (cf_jwt_enabled c))
    (ValueError "API_KEYS or JWT_ENABLED must be set when ENVIRONMENT=production") ≫= λ _,
  raise_if (bool_decide (cf_environment c = Production) && cf_mcp_enabled c && none_given (cf_mcp_api_keys c) && negb (cf_jwt_enabled c))
    (ValueError "MCP_API_KEYS or JWT_ENABLED must be set when ENVIRONMENT=production and MCP_ENABLED=true") ≫= λ _,
  raise_if (cf_jwt_enabled c && str_empty (cf_jwt_jwks_url c)) (ValueError "JWT_JWKS_URL must be set when JWT_ENABLED=true") ≫= λ _,
  if cf_mcp_oauth_resource_server_enabled c then
    raise_if (negb (cf_jwt_enabled c)) (ValueError "JWT_ENABLED must be true when MCP_OAUTH_RESOURCE_SERVER_ENABLED=true") ≫= λ _,
    raise_if (str_empty (cf_mcp_resource_identifier c))
      (ValueError "MCP_RESOURCE_IDENTIFIER must be set when MCP_OAUTH_RESOURCE_SERVER_ENABLED=true") ≫= λ _,
    raise_if (none_given (cf_mcp_authorization_servers c))
      (ValueError "MCP_AUTHORIZATION_SERVERS must list at least one issuer when MCP_OAUTH_RESOURCE_SERVER_ENABLED=true")
  else Ok tt.

Definition validate_sign_in (c : AppConfig) : result unit :=
  raise_if (cf_local_idp_enabled c && negb (cf_sso_enabled c)) (ValueError "SSO_ENABLED must be true when LOCAL_IDP_ENABLED=true") ≫= λ _,
  raise_if (cf_sso_device_grant_enabled c && negb (cf_sso_enabled c))
    (ValueError "SSO_ENABLED must be true when SSO_DEVICE_GRANT_ENABLED=true") ≫= λ _,
  raise_if (cf_dev_idp_enabled c && negb (cf_sso_enabled c)) (ValueError "SSO_ENABLED must be true when DEV_IDP_ENABLED=true") ≫= λ _,
  raise_if (cf_dev_idp_enabled c && negb (is_local c))
    (ValueError "DEV_IDP_ENABLED=true is only permitted when ENVIRONMENT is local") ≫= λ _,
  raise_if (cf_sso_enabled c && negb (bool_decide (str_lower (cf_sso_session_cookie_samesite c) ∈ ["lax"; "strict"])))
    (ValueError "SSO_SESSION_COOKIE_SAMESITE must be 'lax' or 'strict'") ≫= λ _,
  raise_if (bool_decide (cf_environment c = Production) && cf_sso_enabled c && negb (cf_sso_session_cookie_secure c))
    (ValueError "SSO_SESSION_COOKIE_SECURE must not be disabled when ENVIRONMENT=production").

Definition validate_other (o : OtherConfig) : result unit :=
  raise_if (oc_concurrency_redis o && str_empty (oc_concurrency_redis_url o))
    (ValueError "CONCURRENCY_REDIS_URL must be set when CONCURRENCY_BACKEND=redis") ≫= λ _,
  raise_if (oc_vault_enabled o && str_empty (oc_vault_addr o)) (ValueError "VAULT_ADDR must be set when VAULT_ENABLED=true") ≫= λ _,
  raise_if (oc_vault_enabled o && str_empty (oc_vault_token o)) (ValueError "VAULT_TOKEN must be set when VAULT_ENABLED=true") ≫= λ _,
  raise_if (oc_credential_lease_refresh_enabled o && negb (oc_vault_enabled o))
    (ValueError "VAULT_ENABLED must be true when CREDENTIAL_LEASE_REFRESH_ENABLED=true") ≫= λ _,
  raise_if (oc_credential_lease_refresh_enabled o
            && (oc_credential_lease_refresh_margin_seconds o <=? oc_credential_lease_check_interval_seconds o))
    (ValueError "CREDENTIAL_LEASE_CHECK_INTERVAL_SECONDS must be smaller than CREDENTIAL_LEASE_REFRESH_MARGIN_SECONDS") ≫= λ _,
  raise_if (oc_semantic_memory_refresh_enabled o && missing_text (oc_catalog_file o))
    (ValueError "CATALOG_FILE must be set when SEMANTIC_MEMORY_REFRESH_ENABLED=true") ≫= λ _,
  raise_if (oc_semantic_memory_usage_signals_enabled o && missing_text (oc_catalog_file o))
    (ValueError "CATALOG_FILE must be set when SEMANTIC_MEMORY_USAGE_SIGNALS_ENABLED=true") ≫= λ _,
  raise_if (oc_semantic_memory_learning_enabled o && missing_text (oc_catalog_file o))
    (ValueError "CATALOG_FILE must be set when SEMANTIC_MEMORY_LEARNING_ENABLED=true").

Definition validate_config (c : AppConfig) (o : OtherConfig) : result AppConfig :=
  validate_credentials c ≫= λ _,
  let c := with_cookie_default c in
  validate_methods (cf_console_auth_methods c) "CONSOLE_AUTH_METHODS" ≫= λ _,
  validate_methods (cf_rest_auth_methods c) "REST_AUTH_METHODS" ≫= λ _,
  validate_methods (cf_mcp_auth_methods c) "MCP_AUTH_METHODS" ≫= λ _,
  validate_sign_in c ≫= λ _,
  validate_other o ≫= λ _, Ok c.
End config.

(** * The authenticators *)

(** [PyJWKClient] and [jwt.decode] under the settings: the claims of a token that
    verifies. *)
Class JwtVerifier := { jwks_verify : string → option (dict json) }.

Fixpoint drop_chars (n : nat) (s : string) : string :=
  match n, s with S n, String _ s => drop_chars n s | _, _ => s end.

Definition extract_bearer_token (authorization : option string) : option string :=
  h ← authorization;
  if negb (String.prefix "Bearer " h) then None
  else let token := strip (drop_chars 7 h) in if str_empty token then None else Some token.

(** [ApiKeyAuthenticator]. *)
Definition authenticate_api_key (api_keys : list string) (key_subject : string) (key_scopes : list string) (bearer : option string) :
  option Principal :=
  b ← bearer;
  if bool_decide (b ∈ List.filter (λ k, negb (str_empty k)) api_keys)
  then Some (MkPrincipal key_subject (list_to_set key_scopes) [] API_KEY_METHOD None) else None.

Definition authenticate_anonymous : Principal := MkPrincipal "anonymous-dev" ∅ [] ANONYMOUS_METHOD None.

(** [CompositeAuthenticator]. *)
Fixpoint first_match {A} (authenticators : list (A → option Principal)) (credential : A) : option Principal :=
  match authenticators with
  | [] => None
  | a :: authenticators => match a credential with Some p => Some p | None => first_match authenticators credential end
  end.

Section authenticators.
Context `{FT : FloatText} `{JR : JsonRepr} `{JV : JwtVerifier} `{DG : !Digest}.

(** [JwtAuthenticator], as [build_jwt_authenticator] sets it up. *)
Definition authenticate_jwt (c : AppConfig) (mapping : IdentityMappingStore) (bearer : option string) : option Principal :=
  b ← bearer;
  if str_empty b then None else
  claims ← jwks_verify b;
  let sub := claim_of (cf_jwt_subject_claim c) claims in
  if negb (truthy sub) then None else
  let provider_id := if cf_sso_enabled c then cf_jwt_mapping_provider_id c else "" in
  let mapped := if str_empty provider_id then ∅ else scopes_for mapping provider_id claims in
  Some (MkPrincipal (py_str sub) (list_to_set (extract_scopes claims (cf_jwt_scopes_claim c)) ∪ mapped) claims JWT_METHOD
          (extract_actor (claim_of (cf_jwt_act_claim c) claims))).

(** [SessionCookieAuthenticator]: [CsrfMismatchError] is a failure. *)
Definition authenticate_session (store : IdentityConfigStore) (cookie csrf : option string) (now : Z) (sessions : Sessions) :
  Sessions * outcome (option Principal) :=
  match cookie with
  | None => (sessions, Done None)
  | Some c =>
      if negb (String.prefix SESSION_TOKEN_PREFIX c) then (sessions, Done None) else
      match get_session (ic_session_idle_timeout store) now (token_digest c) sessions with
      | (sessions, None) => (sessions, Done None)
      | (sessions, Some s) =>
          match csrf with
          | None => (sessions, Failed "csrf_mismatch")
          | Some t =>
              if str_empty t then (sessions, Failed "csrf_mismatch") else
              match compare_digest t (ss_csrf_token s) with
              | Failed c => (sessions, Failed c)
              | Done false => (sessions, Failed "csrf_mismatch")
              | Done true =>
                  (touch_session (ss_session_digest s) now sessions,
                   Done (Some (MkPrincipal (ss_subject s) (scopes_for (ic_mapping store) (ss_provider_id s) (ss_claims s))
                                 (ss_claims s) SSO_SESSION_METHOD None)))
              end
          end
      end
  end.

(** * [api/auth.py] *)

Definition rest_anonymous (c : AppConfig) : bool :=
  negb (is_hardened_image c) && is_local c && none_given (cf_api_keys c) && negb (cf_jwt_enabled c) && negb (cf_sso_enabled c).

Definition build_authenticator (c : AppConfig) (mapping : IdentityMappingStore) : list (option string → option Principal) :=
  [authenticate_api_key (cf_api_keys c) (cf_api_key_subject c) (cf_api_key_scopes c)]
  ++ (if cf_jwt_enabled c then [authenticate_jwt c mapping] else [])
  ++ (if rest_anonymous c then [λ _ : option string, Some authenticate_anonymous] else []).

Record Request := MkRequest {
  rq_path : string;
  rq_cookie : option string;
  rq_csrf : option string;
  rq_authorization : option string;
}.

Record AuthState := MkAuth { au_sessions : Sessions; au_tokens : Tokens }.

Definition rest_allowed (c : AppConfig) (path : string) : gset string :=
  let s := surface_for_path path (cf_api_v1_prefix c) in
  resolve_allowed (if bool_decide (s = Console) then cf_console_auth_methods c else cf_rest_auth_methods c) s (cf_sso_enabled c).

(** The device token, when the header carries one. *)
Definition try_device_token (c : AppConfig) (mapping : IdentityMappingStore) (token : option string) (now : Z) (tokens : Tokens) :
  Tokens * option Principal :=
  if cf_sso_enabled c && cf_sso_device_grant_enabled c then authenticate_device_token mapping token now tokens else (tokens, None).

Definition nonempty_text (o : option string) : option string := s ← o; if str_empty s then None else Some s.

(** [_get_current_principal]. *)
Definition get_current_principal (c : AppConfig) (store : IdentityConfigStore) (r : Request) (now : Z) (st : AuthState) :
  AuthState * outcome Principal :=
  let '(sessions, by_cookie) :=
    if cf_sso_enabled c then authenticate_session store (nonempty_text (rq_cookie r)) (rq_csrf r) now (au_sessions st)
    else (au_sessions st, Done None) in
  match by_cookie with
  | Failed e => (MkAuth sessions (au_tokens st), Failed e)
  | Done (Some p) => (MkAuth sessions (au_tokens st), check_method (rest_allowed c (rq_path r)) p)
  | Done None =>
      let token := extract_bearer_token (rq_authorization r) in
      let '(tokens, by_device) := try_device_token c (ic_mapping store) token now (au_tokens st) in
      (MkAuth sessions tokens,
       match by_device with
       | Some p => check_method (rest_allowed c (rq_path r)) p
       | None =>
           match first_match (build_authenticator c (ic_mapping store)) token with
           | Some p => check_method (rest_allowed c (rq_path r)) p
           | None => Failed "Bearer token required."
           end
       end)
  end.

(** * [mcp/auth.py] *)

Definition mcp_anonymous (c : AppConfig) : bool :=
  is_local c && none_given (cf_mcp_api_keys c) && negb (cf_jwt_enabled c) && negb (cf_sso_enabled c).

Definition mcp_authenticator (c : AppConfig) (mapping : IdentityMappingStore) : list (option string → option Principal) :=
  [authenticate_api_key (cf_mcp_api_keys c) (cf_mcp_api_key_subject c) (cf_mcp_api_key_scopes c)]
  ++ (if cf_jwt_enabled c then [authenticate_jwt c mapping] else [])
  ++ (if mcp_anonymous c then [λ _ : option string, Some authenticate_anonymous] else []).

Definition token_audiences (p : Principal) : list string :=
  match claim_of "aud" (claims p) with
  | JStr s => [s]
  | JList l => omap (λ v, match v with JStr s => Some s | _ => None end) l
  | _ => []
  end.

Definition missing_scopes (c : AppConfig) (held : gset string) : gset string := list_to_set (cf_mcp_required_scopes c) ∖ held.

Definition authorize_resource_server (c : AppConfig) (p : Principal) : outcome Principal :=
  fail_if (bool_decide (auth_method p = JWT_METHOD) && negb (bool_decide (cf_mcp_resource_identifier c ∈ token_audiences p)))
    "INVALID_TOKEN" ≫= λ _,
  fail_if (negb (bool_decide (missing_scopes c (scopes p) = ∅))) "INSUFFICIENT_SCOPE" ≫= λ _, Done p.

(** [MCPAuthMiddleware.__call__], for a request over HTTP or a websocket. *)
Definition mcp_authenticate (c : AppConfig) (store : IdentityConfigStore) (authorization : option string) (now : Z) (st : AuthState) :
  AuthState * outcome Principal :=
  let token := extract_bearer_token authorization in
  let '(tokens, by_device) := try_device_token c (ic_mapping store) token now (au_tokens st) in
  let found := match by_device with Some p => Some p | None => first_match (mcp_authenticator c (ic_mapping store)) token end in
  (MkAuth (au_sessions st) tokens,
   match found with
   | None => Failed "UNAUTHENTICATED"
   | Some p =>
       check_method (resolve_allowed (cf_mcp_auth_methods c) Mcp (cf_sso_enabled c)) p ≫= λ p,
       if cf_mcp_oauth_resource_server_enabled c then authorize_resource_server c p else Done p
   end).
End authenticators.

(** * What an answer stands for *)

Section evidence.
Context `{FT : FloatText} `{JR : JsonRepr} `{JV : JwtVerifier} `{DG : !Digest}.
Context (c : AppConfig) (store : IdentityConfigStore) (now : Z) (st : AuthState).

(** What a bearer credential proves on a transport with these keys. *)
Inductive bearer_evidence (api_keys : list string) (key_subject : string) (key_scopes : list string) (anonymous : bool)
  (authorization : option string) : Principal → Prop :=
| EvDevice token t :
    cf_sso_enabled c = true → cf_sso_device_grant_enabled c = true → extract_bearer_token authorization = Some token →
    String.prefix DEVICE_TOKEN_PREFIX token = true → dict_get (token_digest token) (au_tokens st) = Some t → now < it_expires_at t →
    bearer_evidence api_keys key_subject key_scopes anonymous authorization
      (MkPrincipal (it_subject t)
         (list_to_set (it_scopes t) ∩ scopes_for (ic_mapping store) (it_provider_id t) (it_approver_claims t))
         (it_approver_claims t) DEVICE_TOKEN_METHOD None)
| EvKey key :
    key ∈ api_keys → key ≠ "" → extract_bearer_token authorization = Some key →
    bearer_evidence api_keys key_subject key_scopes anonymous authorization
      (MkPrincipal key_subject (list_to_set key_scopes) [] API_KEY_METHOD None)
| EvJwt token jwt_claims p :
    cf_jwt_enabled c = true → extract_bearer_token authorization = Some token → jwks_verify token = Some jwt_claims →
    truthy (claim_of (cf_jwt_subject_claim c) jwt_claims) = true → claims p = jwt_claims →
    subject p = py_str (claim_of (cf_jwt_subject_claim c) jwt_claims) → auth_method p = JWT_METHOD →
    bearer_evidence api_keys key_subject key_scopes anonymous authorization p
| EvAnonymous :
    anonymous = true → bearer_evidence api_keys key_subject key_scopes anonymous authorization authenticate_anonymous.

Lemma api_key_evidence api_keys key_subject key_scopes anonymous authorization p :
  authenticate_api_key api_keys key_subject key_scopes (extract_bearer_token authorization) = Some p →
  bearer_evidence api_keys key_subject key_scopes anonymous authorization p.
Proof.
  unfold authenticate_api_key. destruct (extract_bearer_token authorization) as [b|] eqn:E; cbn [mbind option_bind]; [|done].
  case_bool_decide as Hb; [|done]. intros [= <-]. apply elem_of_lfilter in Hb as [Hb Hne]. apply (EvKey _ _ _ _ _ b); [done| |done].
  apply negb_true_iff, bool_decide_eq_false in Hne. done.
Qed.

Lemma jwt_evidence api_keys key_subject key_scopes anonymous authorization p :
  cf_jwt_enabled c = true → authenticate_jwt c (ic_mapping store) (extract_bearer_token authorization) = Some p →
  bearer_evidence api_keys key_subject key_scopes anonymous authorization p.
Proof.
  intros Hj. unfold authenticate_jwt. destruct (extract_bearer_token authorization) as [b|] eqn:E; cbn [mbind option_bind]; [|done].
  destruct (str_empty b); [done|]. destruct (jwks_verify b) as [jwt_claims|] eqn:Ev; cbn [mbind option_bind]; [|done].
  destruct (truthy _) eqn:Et; cbn [negb]; [|done]. intros [= <-]. by apply (EvJwt _ _ _ _ _ b jwt_claims).
Qed.

Lemma device_evidence api_keys key_subject key_scopes anonymous authorization tokens p :
  try_device_token c (ic_mapping store) (extract_bearer_token authorization) now (au_tokens st) = (tokens, Some p) →
  bearer_evidence api_keys key_subject key_scopes anonymous authorization p.
Proof.
  unfold try_device_token. destruct (cf_sso_enabled c && cf_sso_device_grant_enabled c) eqn:Eon; [|done].
  apply andb_true_iff in Eon as [Hsso Hdev]. unfold authenticate_device_token.
  destruct (extract_bearer_token authorization) as [b|] eqn:E; [|done].
  destruct (str_empty b || negb (String.prefix DEVICE_TOKEN_PREFIX b)) eqn:Ep; [done|].
  apply orb_false_iff in Ep as [_ Hp]. apply negb_false_iff in Hp. unfold get_token.
  destruct (dict_get (token_digest b) (au_tokens st)) as [t|] eqn:Et; [|done].
  destruct (token_expired now t) eqn:Ex; [done|]. cbn [fmap option_fmap option_map]. intros [= <- <-].
  apply (EvDevice _ _ _ _ _ b t); try done. unfold token_expired in Ex. lia.
Qed.

(** The chain of a transport: its keys, the tokens of the identity provider, and
    the bypass if it is open. *)
Lemma chain_evidence api_keys key_subject key_scopes (anonymous : bool) authorization p :
  first_match ([authenticate_api_key api_keys key_subject key_scopes]
               ++ (if cf_jwt_enabled c then [authenticate_jwt c (ic_mapping store)] else [])
               ++ (if anonymous then [λ _ : option string, Some authenticate_anonymous] else [])) (extract_bearer_token authorization) = Some p →
  bearer_evidence api_keys key_subject key_scopes anonymous authorization p.
Proof.
  cbn [app first_match]. destruct (authenticate_api_key _ _ _ _) as [q|] eqn:Ek; [intros [= <-]; by apply api_key_evidence|].
  destruct (cf_jwt_enabled c) eqn:Ej; cbn [app first_match].
  - destruct (authenticate_jwt _ _ _) as [q|] eqn:Et; [intros [= <-]; by apply jwt_evidence|].
    destruct anonymous eqn:Ea; cbn [first_match]; [intros [= <-]; by constructor|done].
  - destruct anonymous eqn:Ea; cbn [first_match]; [intros [= <-]; by constructor|done].
Qed.

(** A browser's: a live session of which it holds the token and the CSRF token. *)
Definition session_evidence (r : Request) (p : Principal) : Prop :=
  ∃ cookie s, cf_sso_enabled c = true ∧ rq_cookie r = Some cookie ∧ String.prefix SESSION_TOKEN_PREFIX cookie = true
    ∧ dict_get (token_digest cookie) (au_sessions st) = Some s ∧ session_expired (ic_session_idle_timeout store) now s = false
    ∧ rq_csrf r = Some (ss_csrf_token s) ∧ ss_csrf_token s ≠ ""
    ∧ p = MkPrincipal (ss_subject s) (scopes_for (ic_mapping store) (ss_provider_id s) (ss_claims s)) (ss_claims s) SSO_SESSION_METHOD None.

Lemma session_evidence_intro r sessions p : cf_sso_enabled c = true →
  authenticate_session store (nonempty_text (rq_cookie r)) (rq_csrf r) now (au_sessions st) = (sessions, Done (Some p)) →
  session_evidence r p.
Proof.
  intros Hsso. unfold authenticate_session, nonempty_text. destruct (rq_cookie r) as [cookie|] eqn:Ec; cbn [mbind option_bind]; [|done].
  destruct (str_empty cookie); [done|]. destruct (String.prefix SESSION_TOKEN_PREFIX cookie) eqn:Ep; cbn [negb]; [|done].
  unfold get_session. destruct (dict_get (token_digest cookie) (au_sessions st)) as [s|] eqn:Es; [|done].
  destruct (session_expired _ now s) eqn:Ex; [done|]. destruct (rq_csrf r) as [t|] eqn:Et; [|done].
  destruct (str_empty t) eqn:Ee; [done|]. destruct (compare_digest t (ss_csrf_token s)) as [[]|] eqn:Eq; [|done|done].
  apply compare_digest_true in Eq as ->. intros [= <- <-]. exists cookie, s. split_and!; try done. by apply bool_decide_eq_false in Ee.
Qed.

Lemma check_method_done allowed p q : check_method allowed p = Done q → q = p ∧ auth_method p ∈ allowed.
Proof.
  unfold check_method. intros H. apply outcome_bind_done in H as (u & Hf & [= <-]). apply fail_if_done in Hf.
  apply negb_false_iff, bool_decide_eq_true in Hf. done.
Qed.

Definition rest_evidence (r : Request) (p : Principal) : Prop :=
  session_evidence r p
  ∨ bearer_evidence (cf_api_keys c) (cf_api_key_subject c) (cf_api_key_scopes c) (rest_anonymous c) (rq_authorization r) p.

Definition mcp_evidence (authorization : option string) (p : Principal) : Prop :=
  bearer_evidence (cf_mcp_api_keys c) (cf_mcp_api_key_subject c) (cf_mcp_api_key_scopes c) (mcp_anonymous c) authorization p.

Lemma get_current_principal_done r st' p : get_current_principal c store r now st = (st', Done p) →
  rest_evidence r p ∧ auth_method p ∈ rest_allowed c (rq_path r).
Proof.
  unfold get_current_principal.
  destruct (if cf_sso_enabled c then _ else _) as [sessions by_cookie] eqn:Es.
  destruct by_cookie as [[q|]|e]; [| |done].
  - intros [= _ H]. apply check_method_done in H as [-> Hm]. split; [left|done].
    destruct (cf_sso_enabled c) eqn:Esso; [|done]. by eapply session_evidence_intro.
  - destruct (try_device_token _ _ _ _ _) as [tokens [q|]] eqn:Ed.
    + intros [= _ H]. apply check_method_done in H as [-> Hm]. split; [right; by eapply device_evidence|done].
    + destruct (first_match _ _) as [q|] eqn:Ef; [|done]. intros [= _ H]. apply check_method_done in H as [-> Hm].
      split; [right; by apply chain_evidence|done].
Qed.

Lemma mcp_authenticate_done authorization st' p : mcp_authenticate c store authorization now st = (st', Done p) →
  mcp_evidence authorization p ∧ auth_method p ∈ resolve_allowed (cf_mcp_auth_methods c) Mcp (cf_sso_enabled c)
  ∧ (cf_mcp_oauth_resource_server_enabled c = true → authorize_resource_server c p = Done p).
Proof.
  unfold mcp_authenticate. destruct (try_device_token _ _ _ _ _) as [tokens by_device] eqn:Ed.
  assert (Hev : ∀ q, match by_device with Some p => Some p | None => first_match (mcp_authenticator c (ic_mapping store)) (extract_bearer_token authorization) end = Some q →
    mcp_evidence authorization q).
  { intros q. destruct by_device as [q'|]; [intros [= <-]; by eapply device_evidence|]. apply chain_evidence. }
  destruct (match by_device with Some p => _ | None => _ end) as [q|]; [|done]. intros [= _ H].
  apply outcome_bind_done in H as (q' & Hm & H). apply check_method_done in Hm as [-> Hm].
  destruct (cf_mcp_oauth_resource_server_enabled c).
  - assert (Hq : p = q); [|subst; split_and!; [by apply Hev|done|done]].
    unfold authorize_resource_server in H. apply outcome_bind_done in H as (u1 & _ & H).
    apply outcome_bind_done in H as (u2 & _ & H). by injection H.
  - injection H as <-. split_and!; [by apply Hev|done|done].
Qed.
End evidence.

Lemma list_to_set_nil_inv (l : list string) : (list_to_set l : gset string) = ∅ ↔ l = [].
Proof. destruct l as [|x l]; [by split|]. split; [|done]. intros H. exfalso. cut (x ∈ (list_to_set (x :: l) : gset string)); [rewrite H|]; set_solver. Qed.

Lemma anonymous_evidence `{FT : FloatText} `{JR : JsonRepr} `{JV : JwtVerifier} `{DG : !Digest} c store now st keys sub scs anonymous authorization p :
  bearer_evidence c store now st keys sub scs anonymous authorization p → auth_method p = ANONYMOUS_METHOD → anonymous = true.
Proof. intros H. destruct H as [| |? ? ? _ _ _ _ _ _ Hm|]; [done|done|rewrite Hm; done|done]. Qed.

(** C27. Whom the REST API answers is known, and by what: a caller is let in only
    as the person of a live session of which the request carries both tokens, of
    an unexpired device token, under a configured key, or under a token the
    identity provider signed; by a kind of credential the surface accepts; on the
    console of a deployment with sign-in, by default, never under a shared
    secret; and anonymously only outside the shipped image, on a local deployment
    where nothing else is configured. *)
Theorem rest_caller_is_known `{FT : FloatText} `{JR : JsonRepr} `{JV : JwtVerifier} `{DG : !Digest} c store now st r st' p :
  get_current_principal c store r now st = (st', Done p) →
  rest_evidence c store now st r p
  ∧ auth_method p ∈ rest_allowed c (rq_path r)
  ∧ (surface_for_path (rq_path r) (cf_api_v1_prefix c) = Console → cf_sso_enabled c = true → cf_console_auth_methods c = [] →
       auth_method p ∉ SHARED_SECRET_METHODS)
  ∧ (auth_method p = ANONYMOUS_METHOD → is_hardened_image c = false ∧ is_local c = true ∧ cf_api_keys c = []
       ∧ cf_jwt_enabled c = false ∧ cf_sso_enabled c = false).
Proof.
  intros H. apply get_current_principal_done in H as [Hev Hm]. split; [done|]. split; [done|]. split.
  - intros Hs Hsso Hnone. assert (Hr : rest_allowed c (rq_path r) = CALLER_AUTH_METHODS ∖ SHARED_SECRET_METHODS).
    { unfold rest_allowed. rewrite Hs, Hsso. cbn [bool_decide decide decide_rel]. rewrite bool_decide_eq_true_2, Hnone by done. reflexivity. }
    rewrite Hr in Hm. set_solver.
  - intros Ha. destruct Hev as [(cookie & s & Hev)|Hev]; [destruct Hev as (_ & _ & _ & _ & _ & _ & _ & ->); discriminate Ha|].
    pose proof (anonymous_evidence _ _ _ _ _ _ _ _ _ _ Hev Ha) as Hr. unfold rest_anonymous in Hr.
    apply andb_true_iff in Hr as [[[[Hh Hl]%andb_true_iff Hk]%andb_true_iff Hj]%andb_true_iff Hs].
    apply negb_true_iff in Hh, Hj, Hs. split_and!; try done. by destruct (cf_api_keys c).
Qed.

(** What the validator leaves is what it was given, but for the cookie flag. *)
Lemma validate_config_ok `{SL : StrLower} c o c' : validate_config c o = Ok c' → c' = with_cookie_default c ∧ validate_credentials c = Ok tt.
Proof. unfold validate_config. intros H. apply bind_ok_unit in H as [Hc H]. split; [|done]. by result_inv. Qed.

Lemma with_cookie_default_keeps c :
  cf_environment (with_cookie_default c) = cf_environment c ∧ cf_jwt_enabled (with_cookie_default c) = cf_jwt_enabled c
  ∧ cf_mcp_enabled (with_cookie_default c) = cf_mcp_enabled c
  ∧ cf_mcp_oauth_resource_server_enabled (with_cookie_default c) = cf_mcp_oauth_resource_server_enabled c
  ∧ cf_mcp_resource_identifier (with_cookie_default c) = cf_mcp_resource_identifier c.
Proof. unfold with_cookie_default. by destruct (_ && _). Qed.

Lemma resource_server_needs_jwt c : validate_credentials c = Ok tt → cf_mcp_oauth_resource_server_enabled c = true →
  cf_jwt_enabled c = true ∧ cf_mcp_resource_identifier c ≠ "".
Proof.
  unfold validate_credentials. intros H Hrs. rewrite Hrs in H.
  do 3 apply bind_ok_unit in H as [_ H]. apply bind_ok_unit in H as [Hj H]. apply bind_ok_unit in H as [Hi _].
  apply raise_if_ok in Hj, Hi. split; [by apply negb_false_iff|]. by apply bool_decide_eq_false in Hi.
Qed.

(** C28. Whom the MCP transport answers, under settings the validator accepts: a
    caller under a device token, a configured key or a token of the identity
    provider, by a kind of credential the surface accepts; and anyone, without a
    credential, on a local deployment that has no MCP key, no identity provider
    and no sign-in, if the surface accepts that. A resource server answers no
    one anonymously, no token that was not issued for it, and no one without
    every required scope; a production deployment answers no one anonymously. *)
Theorem mcp_caller_is_known `{SL : StrLower} `{FT : FloatText} `{JR : JsonRepr} `{JV : JwtVerifier} `{DG : !Digest}
  given other c store now st authorization st' p :
  validate_config given other = Ok c → mcp_authenticate c store authorization now st = (st', Done p) →
  mcp_evidence c store now st authorization p
  ∧ auth_method p ∈ resolve_allowed (cf_mcp_auth_methods c) Mcp (cf_sso_enabled c)
  ∧ (cf_mcp_oauth_resource_server_enabled c = true →
       auth_method p ≠ ANONYMOUS_METHOD ∧ list_to_set (cf_mcp_required_scopes c) ⊆ scopes p
       ∧ (auth_method p = JWT_METHOD → cf_mcp_resource_identifier c ∈ token_audiences p ∧ cf_mcp_resource_identifier c ≠ ""))
  ∧ (auth_method p = ANONYMOUS_METHOD →
       is_local c = true ∧ none_given (cf_mcp_api_keys c) = true ∧ cf_jwt_enabled c = false ∧ cf_sso_enabled c = false)
  ∧ (cf_environment c = Production → auth_method p ≠ ANONYMOUS_METHOD).
Proof.
  intros Hv H. apply validate_config_ok in Hv as [Hc Hv]. destruct (with_cookie_default_keeps given) as (He & Hj & _ & Hrs & Hid).
  rewrite <-Hc in He, Hj, Hrs, Hid. apply mcp_authenticate_done in H as (Hev & Hm & Hauth).
  assert (Hanon : auth_method p = ANONYMOUS_METHOD →
    is_local c = true ∧ none_given (cf_mcp_api_keys c) = true ∧ cf_jwt_enabled c = false ∧ cf_sso_enabled c = false).
  { intros Ha. pose proof (anonymous_evidence _ _ _ _ _ _ _ _ _ _ Hev Ha) as Hb. unfold mcp_anonymous in Hb.
    apply andb_true_iff in Hb as [[[Hl Hk]%andb_true_iff Hb]%andb_true_iff Hs]. by rewrite negb_true_iff in Hb, Hs. }
  split; [done|]. split; [done|]. split; [|split; [done|]].
  - intros Hon. destruct (resource_server_needs_jwt given Hv ltac:(congruence)) as [Hjwt Hne].
    specialize (Hauth Hon). unfold authorize_resource_server in Hauth. apply outcome_bind_done in Hauth as (u1 & Haud & Hauth).
    apply outcome_bind_done in Hauth as (u2 & Hsc & _). apply fail_if_done in Haud, Hsc. apply negb_false_iff, bool_decide_eq_true in Hsc.
    split; [|split].
    + intros Ha. destruct (Hanon Ha) as (_ & _ & Hb & _). congruence.
    + unfold missing_scopes in Hsc. set_solver.
    + intros Hjm. rewrite bool_decide_eq_true_2 in Haud by done. apply negb_false_iff, bool_decide_eq_true in Haud. split; [done|congruence].
  - intros Hprod Ha. destruct (Hanon Ha) as [Hl _]. unfold is_local in Hl. rewrite Hprod in Hl. by vm_compute in Hl.
Qed.

(** * Concrete settings *)

Section sample.
#[local] Existing Instances sample_floats sample_digest.
#[local] Instance ascii_case : StrLower := {| str_lower := string_map ascii_lower_char |}.
#[local] Instance no_repr : JsonRepr := {| json_repr v := "" |}.
#[local] Instance one_token : JwtVerifier :=
  {| jwks_verify t := if bool_decide (t = "jwt1")
       then Some [("sub", JStr "u1"); ("scope", JStr "query:approve  query:cancel"); ("aud", JList [JStr "https://qg/mcp"]);
                  ("act", JObj [("sub", JStr "agent"); ("act", JObj [("sub", JInt 7)])])] else None |}.

(** The settings of the image, but for a few. *)
Definition image_config (e : Environment) (hardened : bool) (keys mcp_keys : list string) (jwt rs : bool) (rest_methods : list string) : AppConfig :=
  MkConfig e hardened "/api/v1" keys "api-key-client" [] true mcp_keys "mcp-service-account" [] jwt (if jwt then "https://idp/jwks" else "")
    "sub" "scope" "act" "" rs "https://qg/mcp" ["https://idp"] ["query:approve"] false false false false true false "lax" [] rest_methods [].
Definition quiet : OtherConfig := MkOther false "" false "" "" false 60 300 false false false None.
Definition no_identity : IdentityConfigStore := MkIdentity [] (28800 * second_us) 0 (600 * second_us) "/" (MkMapping [] []).
Definition asks (authorization : option string) : Request := MkRequest "/api/v1/query" None None authorization.

Lemma rest_caller_is_known_witness :
  match get_current_principal (image_config Localhost true ["k1"] [] false false []) no_identity (asks (Some "Bearer k1")) 0 (MkAuth [] []) with
  | (_, Done p) => auth_method p = API_KEY_METHOD ∧ (auth_method p = ANONYMOUS_METHOD → is_hardened_image (image_config Localhost true ["k1"] [] false false []) = false)
  | _ => False
  end
  ∧ (get_current_principal (image_config Localhost true ["k1"] [] false false []) no_identity (asks None) 0 (MkAuth [] [])).2
    = Failed "Bearer token required.".
Proof.
  split; [|vm_compute; reflexivity].
  destruct (get_current_principal (image_config Localhost true ["k1"] [] false false []) no_identity (asks (Some "Bearer k1")) 0 (MkAuth [] []))
    as [st' [p|e]] eqn:E; [|vm_compute in E; discriminate E].
  destruct (rest_caller_is_known _ _ _ _ _ _ _ E) as (_ & _ & _ & Ha). split; [vm_compute in E; injection E as _ <-; reflexivity|].
  intros H. exact (proj1 (Ha H)).
Defined.

Lemma mcp_caller_is_known_witness :
  match validate_config (image_config Production true ["k1"] [] true true []) quiet with
  | Ok c => match mcp_authenticate c no_identity (Some "Bearer jwt1") 0 (MkAuth [] []) with
            | (_, Done p) => subject p = "u1" ∧ actor_chain <$> actor p = Some ["agent"; "7"]
                             ∧ (auth_method p = JWT_METHOD → cf_mcp_resource_identifier c ∈ token_audiences p)
            | _ => False
            end
  | Raise _ => False
  end.
Proof.
  destruct (validate_config (image_config Production true ["k1"] [] true true []) quiet) as [c|e] eqn:Ev; [|vm_compute in Ev; discriminate Ev].
  assert (Hc : c = image_config Production true ["k1"] [] true true []) by (vm_compute in Ev; by injection Ev as <-).
  destruct (mcp_authenticate c no_identity (Some "Bearer jwt1") 0 (MkAuth [] [])) as [st' [p|e]] eqn:E; [|subst c; vm_compute in E; discriminate E].
  destruct (mcp_caller_is_known _ _ _ _ _ _ _ _ _ Ev E) as (_ & _ & Hrs & _).
  assert (Hon : cf_mcp_oauth_resource_server_enabled c = true) by (subst c; reflexivity).
  destruct (Hrs Hon) as (_ & _ & Haud). split; [|split].
  - subst c. vm_compute in E. injection E as _ <-. reflexivity.
  - subst c. vm_compute in E. injection E as _ <-. reflexivity.
  - intros H. exact (proj1 (Haud H)).
Defined.

(** ** Where the two transports differ *)

(** The shipped image refuses a request without a credential over REST and
    answers it over MCP. *)
Theorem hardened_image_answers_mcp_anonymously :
  let c := image_config Localhost true ["the generated admin key"] [] false false [] in
  validate_config c quiet = Ok c ∧ is_hardened_image c = true
  ∧ (get_current_principal c no_identity (asks None) 0 (MkAuth [] [])).2 = Failed "Bearer token required."
  ∧ (mcp_authenticate c no_identity None 0 (MkAuth [] [])).2 = Done authenticate_anonymous.
Proof. vm_compute. by split_and!. Qed.

(** A method of blanks passes the validator, which looks at it stripped, and makes
    an allowlist that admits no kind of credential. *)
Theorem blank_method_locks_everyone_out :
  let c := image_config Localhost false ["k1"] [] false false [" "] in
  validate_config c quiet = Ok c ∧ (∀ p, auth_method p ∈ CALLER_AUTH_METHODS → auth_method p ∉ rest_allowed c "/api/v1/query").
Proof.
  split; [vm_compute; reflexivity|]. intros p Hp Hr.
  assert (E : rest_allowed (image_config Localhost false ["k1"] [] false false [" "]) "/api/v1/query" = {[" "]}) by (vm_compute; reflexivity).
  rewrite E in Hr. apply elem_of_singleton in Hr. rewrite Hr in Hp. by vm_compute in Hp.
Qed.
End sample.
