(* ===== verification/IdentityAdmin.v ===== *)
(** Signing in with a built-in account, changing its password, and administering
    accounts: the local routes of [api/sso_routes.py] and those of
    [api/admin_identity_routes.py], over the accounts ([identity/local_store.py]),
    the attempts, the sessions and the issued tokens. Shown: accounts stay valid
    under their own keys, whoever administers them, and where revocation falls
    short of what it says. *)
From Stdlib Require Import Ascii.
From stdpp Require Import sorting.
From S2P Require Export Authentication LocalLogin.
Local Open Scope Z_scope.

(** * Valid accounts *)

Definition MAX_GROUPS_PER_USER : nat := 256.
Definition MAX_USERS : Z := 10000.

Definition is_alnum (c : ascii) : bool := is_alnum_ c && negb (bool_decide (c = "_"%char)).
Definition one_of (chars : string) (c : ascii) : bool := negb (string_forall (λ d, bool_decide (d ≠ c)) chars).

(** Python's [$] also matches before one final line break. *)
Fixpoint chop_newline (s : string) : string :=
  match s with
  | "" => ""
  | String c r => if str_empty r && bool_decide (nat_of_ascii c = 10%nat) then "" else String c (chop_newline r)
  end.

(** [^[A-Za-z0-9][...]{0,127}$]. *)
Definition named (extra : string) (s : string) : bool :=
  match chop_newline s with
  | "" => false
  | String c r => is_alnum c && string_forall (λ d, is_alnum d || one_of extra d) r && (String.length r <=? 127)%nat
  end.
Definition username_ok : string → bool := named "._@+-".
Definition group_ok : string → bool := named " ._@:/-".

(** The validators of [LocalUser]. *)
Definition validate_user (u : LocalUser) : outcome LocalUser :=
  fail_if (negb (username_ok (lu_username u))) "Local username must be 1-128 chars of letters, digits, and . _ @ + -" ≫= λ _,
  fail_if (MAX_GROUPS_PER_USER <? length (lu_groups u))%nat "A local user may have at most 256 groups." ≫= λ _,
  fail_if (negb (forallb group_ok (lu_groups u))) "Invalid local group name" ≫= λ _, Done u.

Definition user_valid (u : LocalUser) : Prop :=
  username_ok (lu_username u) = true ∧ (length (lu_groups u) ≤ MAX_GROUPS_PER_USER)%nat ∧ forallb group_ok (lu_groups u) = true.

(** [PublicLocalUser]: there is no field for a verifier or a secret. *)
Record PublicLocalUser := MkPublic {
  pu_username : string;
  pu_display_name : string;
  pu_email : string;
  pu_groups : list string;
  pu_disabled : bool;
  pu_mfa_enabled : bool;
  pu_must_change_password : bool;
}.
Definition to_public (u : LocalUser) : PublicLocalUser :=
  MkPublic (lu_username u) (lu_display_name u) (lu_email u) (lu_groups u) (lu_disabled u) (mfa_enabled u) (lu_must_change_password u).

(** * The state the routes share *)

Record IdentityWorld := MkIdentityWorld {
  iw_users : dict LocalUser;
  iw_attempts : Attempts;
  iw_sessions : Sessions;
  iw_tokens : Tokens;
}.

Definition with_users (users : dict LocalUser) (w : IdentityWorld) : IdentityWorld :=
  MkIdentityWorld users (iw_attempts w) (iw_sessions w) (iw_tokens w).

Definition issued_before (a b : IssuedToken) : Prop := it_created_at a ≤ it_created_at b.
#[export] Instance issued_before_dec a b : Decision (issued_before a b).
Proof. unfold issued_before. apply _. Defined.

Section routes.
Context `{FT : FloatText} `{JR : JsonRepr} `{DG : !Digest} `{PW : Passwords} `{TP : Totp} `{SL : StrLower}.

(** What a checker raises becomes a 400. *)
Definition or_bad_request {A} (r : result A) : outcome A :=
  match r with Ok a => Done a | Raise (ValueError m) => Failed m | Raise _ => Failed "Internal Server Error" end.

(** [LocalUserStore.__init__] on what [with_user] makes. *)
Definition store_user (u : LocalUser) (users : dict LocalUser) : outcome (dict LocalUser) :=
  fail_if (MAX_USERS <? Z.of_nat (length (with_user u users))) "users file holds more than 10000 accounts." ≫= λ _,
  Done (with_user u users).

(** [LocalUserFileRepository.update]: the updater runs on what the file holds, under
    its lock; a failure leaves it as it was. *)
Definition update_users {A} (updater : dict LocalUser → outcome (dict LocalUser * A)) (w : IdentityWorld) : IdentityWorld * outcome A :=
  match updater (iw_users w) with
  | Done (users, a) => (with_users users w, Done a)
  | Failed c => (w, Failed c)
  end.

(** The updaters that change one account. *)
Definition change_user {A} (username : string) (change : LocalUser → outcome LocalUser) (answer : LocalUser → A)
  (users : dict LocalUser) : outcome (dict LocalUser * A) :=
  match get_user username users with
  | None => Failed "Unknown account."
  | Some u => change u ≫= λ u, store_user u users ≫= λ users, Done (users, answer u)
  end.

Definition require_scope (p : Principal) (scope : string) : outcome unit :=
  fail_if (negb (bool_decide (scope ∈ scopes p))) ("Missing required scope: '" +:+ scope +:+ "'").

(** [str(x or other)]. *)
Definition text_or (v : json) (other : string) : string := if truthy v then py_str v else other.
Definition local_subject_of (p : Principal) : string := text_or (claim_of "preferred_username" (claims p)) "".

(** ** Local accounts *)

Record CreateLocalUserRequest := MkCreate {
  cr_username : string; cr_password : string; cr_display_name : string; cr_email : string;
  cr_groups : list string; cr_must_change_password : bool;
}.

Definition create_user (p : Principal) (r : CreateLocalUserRequest) (salt : string) (w : IdentityWorld) :
  IdentityWorld * outcome PublicLocalUser :=
  match require_scope p ADMIN_IDENTITY_WRITE_SCOPE ≫= λ _,
        or_bad_request (check_password_policy (cr_password r) (cr_username r)) ≫= λ _,
        or_bad_request (hash_password (cr_password r) salt None) ≫= λ verifier,
        validate_user (MkUser (cr_username r) (cr_display_name r) (cr_email r) (cr_groups r) verifier "" false (cr_must_change_password r)) with
  | Failed c => (w, Failed c)
  | Done u =>
      update_users (λ users,
        fail_if (is_some (get_user (lu_username u) users)) "That account already exists." ≫= λ _,
        store_user u users ≫= λ users, Done (users, to_public u)) w
  end.

Record UpdateLocalUserRequest := MkUpdate {
  up_display_name : option string; up_email : option string; up_groups : option (list string);
  up_disabled : option bool; up_password : option string; up_must_change_password : option bool; up_mfa_enabled : option bool;
}.

(** The changes a request asks for; [verifier] is of its password. *)
Definition apply_changes (r : UpdateLocalUserRequest) (verifier : option string) (u : LocalUser) : LocalUser :=
  MkUser (lu_username u) (default (lu_display_name u) (up_display_name r)) (default (lu_email u) (up_email r))
    (default (lu_groups u) (up_groups r)) (default (lu_password_verifier u) verifier)
    (if bool_decide (up_mfa_enabled r = Some false) then "" else lu_totp_secret u)
    (default (lu_disabled u) (up_disabled r))
    (match verifier with
     | Some _ => default true (up_must_change_password r)
     | None => default (lu_must_change_password u) (up_must_change_password r)
     end).

Definition hash_given (password : option string) (salt : string) : outcome (option string) :=
  match password with None => Done None | Some pw => or_bad_request (hash_password pw salt None) ≫= λ v, Done (Some v) end.

Definition update_user (p : Principal) (username : string) (r : UpdateLocalUserRequest) (salt : string) (w : IdentityWorld) :
  IdentityWorld * outcome PublicLocalUser :=
  match require_scope p ADMIN_IDENTITY_WRITE_SCOPE ≫= λ _,
        fail_if (bool_decide (up_disabled r = Some true) && bool_decide (str_lower (local_subject_of p) = str_lower username))
          "You cannot disable your own account." ≫= λ _,
        match up_password r with None => Done tt | Some pw => or_bad_request (check_password_policy pw username) end ≫= λ _,
        fail_if (bool_decide (up_mfa_enabled r = Some true)) "Enrol a second factor with POST /users/{username}/mfa." with
  | Failed c => (w, Failed c)
  | Done _ =>
      match update_users (change_user username (λ u, hash_given (up_password r) salt ≫= λ v, validate_user (apply_changes r v u)) to_public) w with
      | (w, Failed c) => (w, Failed c)
      | (w, Done public) =>
          (MkIdentityWorld (iw_users w) (iw_attempts w) (delete_for_subject (pu_username public) (iw_sessions w)).1 (iw_tokens w), Done public)
      end
  end.

Definition delete_user (p : Principal) (username : string) (w : IdentityWorld) : IdentityWorld * outcome unit :=
  match require_scope p ADMIN_IDENTITY_WRITE_SCOPE ≫= λ _,
        fail_if (bool_decide (str_lower (local_subject_of p) = str_lower username)) "You cannot delete your own account." with
  | Failed c => (w, Failed c)
  | Done _ =>
      match update_users (λ users, match get_user username users with
                                   | None => Failed "Unknown account."
                                   | Some u => Done (without_user username users, lu_username u)
                                   end) w with
      | (w, Failed c) => (w, Failed c)
      | (w, Done removed) =>
          (MkIdentityWorld (iw_users w) (iw_attempts w) (delete_for_subject removed (iw_sessions w)).1
             (delete_tokens_for_subject removed (iw_tokens w)).1, Done tt)
      end
  end.

Definition with_totp_secret (secret : string) (u : LocalUser) : LocalUser :=
  MkUser (lu_username u) (lu_display_name u) (lu_email u) (lu_groups u) (lu_password_verifier u) secret (lu_disabled u) (lu_must_change_password u).

Definition enrol_mfa (p : Principal) (username secret : string) (w : IdentityWorld) : IdentityWorld * outcome (string * string) :=
  match require_scope p ADMIN_IDENTITY_WRITE_SCOPE with
  | Failed c => (w, Failed c)
  | Done _ => update_users (change_user username (λ u, Done (with_totp_secret secret u)) (λ u, (lu_username u, secret))) w
  end.

Definition revoke_access (p : Principal) (revoked : string) (w : IdentityWorld) : IdentityWorld * outcome (nat * nat) :=
  match require_scope p ADMIN_IDENTITY_WRITE_SCOPE with
  | Failed c => (w, Failed c)
  | Done _ =>
      let '(sessions, n) := delete_for_subject revoked (iw_sessions w) in
      let '(tokens, m) := delete_tokens_for_subject revoked (iw_tokens w) in
      (MkIdentityWorld (iw_users w) (iw_attempts w) sessions tokens, Done (n, m))
  end.

(** ** Signing in and out *)

Context (dummy_verifier : string).

Definition sign_out (digest : string) (w : IdentityWorld) : IdentityWorld :=
  MkIdentityWorld (iw_users w) (iw_attempts w) (delete_session digest (iw_sessions w)) (iw_tokens w).

(** [local_login], with its password check in one piece. *)
Definition local_login (store : IdentityConfigStore) (local_idp_enabled : bool) (s : LoginSettings) (a : LoginAttempt)
  (wall now : Z) (token csrf : string) (w : IdentityWorld) : IdentityWorld * outcome SsoSession :=
  match local_provider store with
  | Some provider =>
      if negb local_idp_enabled then (w, Failed "Local sign-in is not enabled on this deployment.") else
      let '(attempts, o) := authenticate_local_user MAX_TRACKED_ACCOUNTS dummy_verifier s (iw_users w) a wall now (iw_attempts w) in
      let w := MkIdentityWorld (iw_users w) attempts (iw_sessions w) (iw_tokens w) in
      match o with
      | Failed c => (w, Failed c)
      | Done (user, _) =>
          match establish_session store (ip_id provider) (local_subject provider (lu_username user)) (user_claims user) "local_password"
                  (if str_empty (lu_display_name user) then lu_username user else lu_display_name user) (lu_email user)
                  token csrf wall (iw_sessions w) with
          | Raise _ => (w, Failed "Internal Server Error")
          | Ok (sessions, session) => (MkIdentityWorld (iw_users w) (iw_attempts w) sessions (iw_tokens w), Done session)
          end
      end
  | None => (w, Failed "Local sign-in is not enabled on this deployment.")
  end.

(** [_authenticated_session]: the session of the cookie, under its CSRF token. *)
Definition authenticated_session (store : IdentityConfigStore) (cookie csrf : option string) (now : Z) (w : IdentityWorld) :
  IdentityWorld * outcome SsoSession :=
  match nonempty_text cookie with
  | None => (w, Failed "Not signed in.")
  | Some cookie =>
      let '(sessions, s) := get_session (ic_session_idle_timeout store) now (token_digest cookie) (iw_sessions w) in
      (MkIdentityWorld (iw_users w) (iw_attempts w) sessions (iw_tokens w),
       match s with
       | None => Failed "Not signed in."
       | Some s =>
           let presented := default "" csrf in
           fail_if (str_empty presented) "Missing or invalid CSRF token." ≫= λ _,
           compare_digest presented (ss_csrf_token s) ≫= λ same : bool,
           fail_if (negb same) "Missing or invalid CSRF token." ≫= λ _, Done s
       end)
  end.

(** [logout] answers the same without a session. *)
Definition logout (store : IdentityConfigStore) (cookie csrf : option string) (now : Z) (w : IdentityWorld) : IdentityWorld * outcome unit :=
  match authenticated_session store cookie csrf now w with
  | (w, Done s) => (sign_out (ss_session_digest s) w, Done tt)
  | (w, Failed c) => (w, if bool_decide (c = "Not signed in.") then Done tt else Failed c)
  end.

Definition changed_password (verifier : string) (u : LocalUser) : LocalUser :=
  MkUser (lu_username u) (lu_display_name u) (lu_email u) (lu_groups u) verifier (lu_totp_secret u) (lu_disabled u) false.

(** [change_own_password], from the session on. *)
Definition change_own_password (store : IdentityConfigStore) (s : LoginSettings) (session : SsoSession) (current new salt : string)
  (wall now : Z) (w : IdentityWorld) : IdentityWorld * outcome PublicLocalUser :=
  match local_provider store with
  | Some provider =>
      if negb (bool_decide (ss_provider_id session = ip_id provider)) then (w, Failed "This account is managed by your identity provider.") else
      let username := text_or (claim_of "preferred_username" (ss_claims session)) (ss_subject session) in
      let '(attempts, o) := authenticate_local_user MAX_TRACKED_ACCOUNTS dummy_verifier
        (MkSettings (ls_threshold s) (ls_lockout s) false) (iw_users w) (MkLogin username current None) wall now (iw_attempts w) in
      let w := MkIdentityWorld (iw_users w) attempts (iw_sessions w) (iw_tokens w) in
      match o ≫= λ _, or_bad_request (check_password_policy new username) ≫= λ _, or_bad_request (hash_password new salt None) with
      | Failed c => (w, Failed c)
      | Done verifier => update_users (change_user username (λ u, Done (changed_password verifier u)) to_public) w
      end
  | None => (w, Failed "This account is managed by your identity provider.")
  end.

(** The tokens issued in a person's name, oldest first. *)
Definition my_tokens (session : SsoSession) (now : Z) (w : IdentityWorld) : IdentityWorld * list IssuedToken :=
  let tokens := prune token_expired now (iw_tokens w) in
  (MkIdentityWorld (iw_users w) (iw_attempts w) (iw_sessions w) tokens,
   merge_sort issued_before (List.filter (λ t, bool_decide (it_subject t = ss_subject session)) (map snd tokens))).

Definition revoke_my_token (session : SsoSession) (digest : string) (now : Z) (w : IdentityWorld) : IdentityWorld * outcome unit :=
  let '(tokens, found) := get_token now digest (iw_tokens w) in
  let w := MkIdentityWorld (iw_users w) (iw_attempts w) (iw_sessions w) tokens in
  match found with
  | None => (w, Failed "Unknown token.")
  | Some t =>
      if negb (bool_decide (it_subject t = ss_subject session)) then (w, Failed "Unknown token.")
      else (MkIdentityWorld (iw_users w) (iw_attempts w) (iw_sessions w) (dict_pop digest tokens), Done tt)
  end.
End routes.

(** * Any course of requests *)

Section requests.
Context `{FT : FloatText} `{JR : JsonRepr} `{DG : !Digest} `{PW : Passwords} `{TP : Totp} `{SL : StrLower}.
Context (dummy_verifier : string) (store : IdentityConfigStore).

Inductive identity_request :=
| RCreate (p : Principal) (r : CreateLocalUserRequest) (salt : string)
| RUpdate (p : Principal) (username : string) (r : UpdateLocalUserRequest) (salt : string)
| RDelete (p : Principal) (username : string)
| REnrol (p : Principal) (username secret : string)
| RRevoke (p : Principal) (revoked : string)
| RLogin (enabled : bool) (s : LoginSettings) (a : LoginAttempt) (wall now : Z) (token csrf : string)
| RLogout (cookie csrf : option string) (now : Z)
| RPassword (s : LoginSettings) (session : SsoSession) (current new salt : string) (wall now : Z)
| RRevokeOwn (session : SsoSession) (digest : string) (now : Z).

Definition identity_step (w : IdentityWorld) (r : identity_request) : IdentityWorld :=
  match r with
  | RCreate p r salt => (create_user p r salt w).1
  | RUpdate p username r salt => (update_user p username r salt w).1
  | RDelete p username => (delete_user p username w).1
  | REnrol p username secret => (enrol_mfa p username secret w).1
  | RRevoke p revoked => (revoke_access p revoked w).1
  | RLogin enabled s a wall now token csrf => (local_login dummy_verifier store enabled s a wall now token csrf w).1
  | RLogout cookie csrf now => (logout store cookie csrf now w).1
  | RPassword s session current new salt wall now => (change_own_password dummy_verifier store s session current new salt wall now w).1
  | RRevokeOwn session digest now => (revoke_my_token session digest now w).1
  end.

Definition users_ok (users : dict LocalUser) : Prop :=
  well_keyed user_key users ∧ (∀ k u, (k, u) ∈ users → user_valid u) ∧ Z.of_nat (length users) ≤ MAX_USERS.

Lemma validate_user_done u u' : validate_user u = Done u' → u' = u ∧ user_valid u.
Proof.
  unfold validate_user. intros H. apply outcome_bind_done in H as (u1 & H1 & H). apply outcome_bind_done in H as (u2 & H2 & H).
  apply outcome_bind_done in H as (u3 & H3 & [= <-]). apply fail_if_done in H1, H2, H3. apply negb_false_iff in H1, H3.
  split; [done|]. unfold user_valid. split_and!; [done| |done]. by apply Nat.ltb_ge.
Qed.

Lemma store_user_ok u users users' : user_valid u → users_ok users → store_user u users = Done users' → users_ok users'.
Proof.
  intros Hu (Hk & Hv & Hl) H. apply outcome_bind_done in H as (x & Hx & [= <-]). apply fail_if_done in Hx.
  split_and!; [by apply (set_well_keyed user_key)| |by apply Z.ltb_ge].
  intros k v [[= _ ->]|Hin]%dict_set_in; [done|by eapply Hv].
Qed.

Lemma get_user_valid username users u : users_ok users → get_user username users = Some u → user_valid u.
Proof. intros (_ & Hv & _) H. apply dict_get_Some in H. by eapply Hv. Qed.

Lemma change_user_ok {A} username change (answer : LocalUser → A) users users' a :
  (∀ u u', user_valid u → change u = Done u' → user_valid u') → users_ok users →
  change_user username change answer users = Done (users', a) → users_ok users'.
Proof.
  intros Hc Hok. unfold change_user. destruct (get_user username users) as [u|] eqn:E; [|done]. intros H.
  apply outcome_bind_done in H as (u' & Hu & H). apply outcome_bind_done in H as (s & Hs & [= <- _]).
  eapply store_user_ok; [|done|exact Hs]. eapply Hc; [|exact Hu]. by eapply get_user_valid.
Qed.

Lemma without_user_ok username users : users_ok users → users_ok (without_user username users).
Proof.
  intros (Hk & Hv & Hl). split_and!; [by apply (pop_well_keyed user_key)| |].
  - intros k u [Hin _]%dict_pop_elem. by eapply Hv.
  - unfold without_user, dict_pop. pose proof (filter_length_le (λ e : string * LocalUser, negb (bool_decide (e.1 = account_key username))) users). lia.
Qed.

(** An update leaves the accounts alone, or leaves what its updater makes of them. *)
Lemma update_users_ok {A} (updater : dict LocalUser → outcome (dict LocalUser * A)) w :
  (∀ users a, updater (iw_users w) = Done (users, a) → users_ok users) → users_ok (iw_users w) →
  users_ok (iw_users (update_users updater w).1).
Proof. intros Hu Hok. unfold update_users. destruct (updater (iw_users w)) as [[users a]|c] eqn:E; [by eapply Hu|done]. Qed.

(** ** What a request does to the accounts *)

Definition requester (r : identity_request) : option Principal :=
  match r with
  | RCreate p _ _ | RUpdate p _ _ _ | RDelete p _ | REnrol p _ _ | RRevoke p _ => Some p
  | _ => None
  end.

Inductive account_change (users : dict LocalUser) : dict LocalUser → Prop :=
| Stores u users' : (users_ok users → user_valid u) → store_user u users = Done users' → account_change users users'
| Removes username : account_change users (without_user username users).

(** The owner of an account, by its password. *)
Definition owner_request (w : IdentityWorld) (r : identity_request) : Prop :=
  ∃ s session current new salt wall now user,
    r = RPassword s session current new salt wall now
    ∧ signed_in_as (MkSettings (ls_threshold s) (ls_lockout s) false) (iw_users w)
        (MkLogin (text_or (claim_of "preferred_username" (ss_claims session)) (ss_subject session)) current None)
        wall now (iw_attempts w) user false.

Lemma update_users_cases {A} (updater : dict LocalUser → outcome (dict LocalUser * A)) w :
  (∀ users a, updater (iw_users w) = Done (users, a) → account_change (iw_users w) users) →
  iw_users (update_users updater w).1 = iw_users w ∨ account_change (iw_users w) (iw_users (update_users updater w).1).
Proof. intros H. unfold update_users. destruct (updater (iw_users w)) as [[users a]|c] eqn:E; [right; by eapply H|by left]. Qed.

Lemma change_user_change {A} username change (answer : LocalUser → A) users users' a :
  (∀ u u', change u = Done u' → user_valid u → user_valid u') →
  change_user username change answer users = Done (users', a) → account_change users users'.
Proof.
  intros Hc. unfold change_user. destruct (get_user username users) as [u|] eqn:E; [|done]. intros H.
  apply outcome_bind_done in H as (u' & Hu & H). apply outcome_bind_done in H as (s & Hs & [= <- _]).
  eapply Stores; [|exact Hs]. intros Hok. eapply Hc; [exact Hu|]. by eapply get_user_valid.
Qed.

Lemma require_scope_done p scope u : require_scope p scope = Done u → scope ∈ scopes p.
Proof. unfold require_scope. intros H%fail_if_done. by apply negb_false_iff, bool_decide_eq_true in H. Qed.

Definition accounts_after (w : IdentityWorld) (r : identity_request) (w' : IdentityWorld) : Prop :=
  iw_users w' = iw_users w
  ∨ account_change (iw_users w) (iw_users w')
    ∧ ((∃ p, requester r = Some p ∧ ADMIN_IDENTITY_WRITE_SCOPE ∈ scopes p) ∨ owner_request w r).

(** A route that asks for the scope, and then updates. *)
Lemma accounts_admin w r w' p : requester r = Some p → ADMIN_IDENTITY_WRITE_SCOPE ∈ scopes p →
  iw_users w' = iw_users w ∨ account_change (iw_users w) (iw_users w') → accounts_after w r w'.
Proof. intros Hr Hp [H|H]; [by left|]. right. split; [done|]. left. by exists p. Qed.

Lemma create_user_accounts p r salt w : accounts_after w (RCreate p r salt) (create_user p r salt w).1.
Proof.
  unfold create_user. destruct (_ ≫= _) as [u|c] eqn:E; [|by left].
  apply outcome_bind_done in E as (u1 & Hp & E). apply require_scope_done in Hp.
  apply outcome_bind_done in E as (u2 & _ & E). apply outcome_bind_done in E as (v & _ & E). apply validate_user_done in E as [-> Hu].
  eapply accounts_admin; [done|done|]. apply update_users_cases. intros users a H.
  apply outcome_bind_done in H as (u3 & _ & H). apply outcome_bind_done in H as (s & Hs & [= <- _]). by eapply Stores.
Qed.

Lemma update_user_accounts p username r salt w : accounts_after w (RUpdate p username r salt) (update_user p username r salt w).1.
Proof.
  unfold update_user. destruct (_ ≫= _) as [u|c] eqn:E; [|by left].
  apply outcome_bind_done in E as (u1 & Hp & _). apply require_scope_done in Hp.
  eapply accounts_admin; [done|done|].
  set (updater := change_user username _ to_public).
  assert (Hc : iw_users (update_users updater w).1 = iw_users w ∨ account_change (iw_users w) (iw_users (update_users updater w).1)).
  { apply update_users_cases. intros users a. apply change_user_change. intros x x' Hx _.
    apply outcome_bind_done in Hx as (v & _ & Hx). apply validate_user_done in Hx as [-> Hx]. done. }
  destruct (update_users updater w) as [w' [public|c]]; exact Hc.
Qed.

Lemma delete_user_accounts p username w : accounts_after w (RDelete p username) (delete_user p username w).1.
Proof.
  unfold delete_user. destruct (_ ≫= _) as [u|c] eqn:E; [|by left].
  apply outcome_bind_done in E as (u1 & Hp & _). apply require_scope_done in Hp. eapply accounts_admin; [done|done|].
  set (updater := λ users : dict LocalUser, match get_user username users with None => _ | Some u => _ end).
  assert (Hc : iw_users (update_users updater w).1 = iw_users w ∨ account_change (iw_users w) (iw_users (update_users updater w).1)).
  { apply update_users_cases. intros users a. unfold updater. destruct (get_user username (iw_users w)); [|done]. intros [= <- _]. constructor. }
  destruct (update_users updater w) as [w' [removed|c]]; exact Hc.
Qed.

Lemma enrol_mfa_accounts p username secret w : accounts_after w (REnrol p username secret) (enrol_mfa p username secret w).1.
Proof.
  unfold enrol_mfa. destruct (require_scope _ _) as [u|c] eqn:E; [|by left]. apply require_scope_done in E.
  eapply accounts_admin; [done|done|]. apply update_users_cases. intros users a. apply change_user_change. intros x x' [= <-] Hx. exact Hx.
Qed.

Lemma change_own_password_accounts s session current new salt wall now w :
  accounts_after w (RPassword s session current new salt wall now)
    (change_own_password dummy_verifier store s session current new salt wall now w).1.
Proof.
  unfold change_own_password. destruct (local_provider store) as [provider|]; [|by left].
  destruct (negb _); [by left|].
  destruct (authenticate_local_user _ _ _ _ _ _ _ _) as [attempts [[user used]|c]] eqn:Ea; [|by left].
  cbn [mbind outcome_bind]. destruct (_ ≫= _) as [verifier|c]; [|by left].
  apply authenticate_local_user_done in Ea. pose proof (si_factor _ _ _ _ _ _ _ _ Ea) as Hm.
  assert (Hused : used = false).
  { rewrite Hm. destruct (mfa_enabled user) eqn:E; [|done]. destruct (si_code _ _ _ _ _ _ _ _ Ea E) as (code & step & H & _). done. }
  rewrite Hused in Ea.
  match goal with |- accounts_after _ _ (update_users ?f ?w').1 => destruct (update_users_cases f w') as [H|H] end.
  - intros users a. apply change_user_change. intros x x' [= <-] Hx. exact Hx.
  - by left.
  - right. split; [exact H|]. right. by exists s, session, current, new, salt, wall, now, user.
Qed.

Lemma identity_step_accounts w r : accounts_after w r (identity_step w r).
Proof.
  destruct r; cbn [identity_step].
  - apply create_user_accounts.
  - apply update_user_accounts.
  - apply delete_user_accounts.
  - apply enrol_mfa_accounts.
  - left. unfold revoke_access. destruct (require_scope _ _); [|done]. destruct (delete_for_subject _ _), (delete_tokens_for_subject _ _). done.
  - left. unfold local_login. destruct (local_provider store); [|done]. destruct (negb enabled); [done|].
    destruct (authenticate_local_user _ _ _ _ _ _ _ _) as [attempts [[user used]|c]]; [|done].
    destruct (establish_session _ _ _ _ _ _ _ _ _ _ _) as [[sessions session]|e]; done.
  - left. unfold logout, authenticated_session. destruct (nonempty_text cookie); [|done].
    destruct (get_session _ _ _ _) as [sessions o]. by destruct (match o with Some _ => _ | None => _ end).
  - apply change_own_password_accounts.
  - left. unfold revoke_my_token. destruct (get_token _ _ _) as [tokens [t|]]; [|done]. by destruct (negb _).
Qed.
End requests.

(** Accounts stay valid: whatever requests come, from whomever and in whatever
    order, every account of the file is one the file may hold, under its own key
    in lower case, and there are no more than the file may hold. *)
Theorem accounts_stay_valid `{FT : FloatText} `{JR : JsonRepr} `{DG : !Digest} `{PW : Passwords} `{TP : Totp} `{SL : StrLower}
  dummy_verifier store w requests :
  users_ok (iw_users w) → users_ok (iw_users (foldl (identity_step dummy_verifier store) w requests)).
Proof.
  revert w. induction requests as [|r requests IH]; intros w Hw; cbn [foldl]; [done|]. apply IH.
  destruct (identity_step_accounts dummy_verifier store w r) as [->|[Hc _]]; [done|].
  destruct Hc as [u users' Hu Hs|username]; [|by apply without_user_ok]. eapply store_user_ok; [by apply Hu|done|exact Hs].
Qed.

(** Nobody else changes an account: a request that leaves the accounts other
    than it found them comes from a holder of the scope that administers them, or
    from somebody who gave the password of the account, which is enabled and has
    no second factor; and it stores one account or removes one. *)
Theorem accounts_need_authority `{FT : FloatText} `{JR : JsonRepr} `{DG : !Digest} `{PW : Passwords} `{TP : Totp} `{SL : StrLower}
  dummy_verifier store w r :
  iw_users (identity_step dummy_verifier store w r) ≠ iw_users w →
  account_change (iw_users w) (iw_users (identity_step dummy_verifier store w r))
  ∧ ((∃ p, requester r = Some p ∧ ADMIN_IDENTITY_WRITE_SCOPE ∈ scopes p) ∨ owner_request w r).
Proof. intros H. by destruct (identity_step_accounts dummy_verifier store w r) as [|Hc]. Qed.

(** A local sign-in is sound: a session is opened only for an enabled account
    that is not locked, by its own password and, if it has one, its second
    factor; the session carries the account's name under the provider's prefix,
    is found under the token, and changes no account. *)
Theorem local_sign_in_sound `{FT : FloatText} `{DG : !Digest} `{PW : Passwords} `{TP : Totp} `{SL : StrLower}
  dummy_verifier store enabled s a wall now token csrf w w' session :
  local_login dummy_verifier store enabled s a wall now token csrf w = (w', Done session) →
  ∃ provider user,
    local_provider store = Some provider ∧ enabled = true
    ∧ signed_in_as s (iw_users w) a wall now (iw_attempts w) user (mfa_enabled user)
    ∧ ss_subject session = ip_subject_prefix provider +:+ lu_username user
    ∧ ss_provider_id session = ip_id provider ∧ ss_auth_method session = "local_password"
    ∧ ss_expires_at session = wall + ic_session_ttl store
    ∧ dict_get (token_digest token) (iw_sessions w') = Some session
    ∧ iw_users w' = iw_users w ∧ iw_tokens w' = iw_tokens w.
Proof.
  unfold local_login. destruct (local_provider store) as [provider|]; [|done]. destruct enabled; [|done]. cbn [negb].
  destruct (authenticate_local_user _ _ _ _ _ _ _ _) as [attempts [[user used]|c]] eqn:Ea; [|done].
  apply authenticate_local_user_done in Ea. pose proof (si_factor _ _ _ _ _ _ _ _ Ea) as ->.
  unfold establish_session. destruct (sanitize_claims _) as [kept|e]; cbn [mbind result_bind]; [|done].
  intros [= <- <-]. exists provider, user. split_and!; try done.
  exact (bounded_put_get ss_session_digest ss_last_seen_at (session_expired (ic_session_idle_timeout store)) MAX_SESSIONS wall
    (MkSession (token_digest token) (local_subject provider (lu_username user)) _ _ _ _ _ kept _ _ _) _).
Qed.

(** A person with a second factor cannot change their password: the route checks
    the current one without a code, and the login asks for a code. *)
Theorem enrolled_cannot_change_password `{FT : FloatText} `{JR : JsonRepr} `{PW : Passwords} `{TP : Totp} `{SL : StrLower}
  dummy_verifier store s session current new salt wall now w user :
  get_user (account_key (text_or (claim_of "preferred_username" (ss_claims session)) (ss_subject session))) (iw_users w) = Some user →
  mfa_enabled user = true →
  ∃ c, (change_own_password dummy_verifier store s session current new salt wall now w).2 = Failed c.
Proof.
  intros Hu Hm. unfold change_own_password. destruct (local_provider store); [|by eexists]. destruct (negb _); [by eexists|].
  pose proof (enrolled_needs_code MAX_TRACKED_ACCOUNTS dummy_verifier (MkSettings (ls_threshold s) (ls_lockout s) false) (iw_users w)
    _ current user wall now (iw_attempts w) Hu Hm) as [c Hc].
  destruct (authenticate_local_user _ _ _ _ _ _ _ _) as [attempts o]. cbn [snd] in Hc. subst o. by eexists.
Qed.

(** * Concrete requests *)

Section sample.
#[local] Existing Instances sample_floats sample_digest sample_passwords sample_totp lower_ascii.
#[local] Instance no_repr : JsonRepr := {| json_repr v := "" |}.

Definition built_in : IdentityProviderProfile := MkProvider "local" KindLocal true "" "" "sub" "local|" "email" "name" [] [].
Definition built_in_store : IdentityConfigStore :=
  MkIdentity [built_in] (28800 * second_us) 0 (600 * second_us) "/" (MkMapping [] []).
Definition admin_named (name : string) : Principal :=
  MkPrincipal name {[ADMIN_IDENTITY_WRITE_SCOPE]} [("preferred_username", JStr name)] "sso_session" None.
Definition root : Principal := admin_named "root".
Definition create_ada : CreateLocalUserRequest := MkCreate "Ada" "ada's password" "" "" ["eng"] false.
Definition empty_world : IdentityWorld := MkIdentityWorld [] [] [] [].
Definition with_ada : IdentityWorld := (create_user root create_ada "s1" empty_world).1.
Definition ada_login (password : string) : identity_request :=
  RLogin true three_strikes (MkLogin "ada" password None) 0 second_us "qgs_ada" "qgc_ada".
Definition disable : UpdateLocalUserRequest := MkUpdate None None None (Some true) None None None.

Lemma accounts_stay_valid_witness :
  let w := foldl (identity_step nobody built_in_store) empty_world
             [RCreate root create_ada "s1"; ada_login "a guess"; ada_login "ada's password"; RUpdate root "ADA" disable "s2"] in
  users_ok (iw_users w) ∧ map (λ e : string * LocalUser, (e.1, lu_disabled e.2)) (iw_users w) = [("ada", true)].
Proof.
  split; [|vm_compute; reflexivity]. apply accounts_stay_valid. split_and!; [split; [constructor|]| |done]; by intros ? ? ?%not_elem_of_nil.
Defined.

Lemma accounts_need_authority_witness :
  let own := RPassword three_strikes (MkSession "d" "local|Ada" "local" "local_password" "c" "" "" [("preferred_username", JStr "Ada")] 0 0 0)
               "ada's password" "another password" "s3" 0 second_us in
  owner_request with_ada own
  ∧ iw_users (identity_step nobody built_in_store with_ada (RDelete (MkPrincipal "x" ∅ [] "api_key" None) "ada")) = iw_users with_ada.
Proof.
  split; [|vm_compute; reflexivity].
  match goal with |- owner_request _ ?own => destruct (accounts_need_authority nobody built_in_store with_ada own) as [_ [(p & Hp & _)|H]] end.
  - intros H. vm_compute in H. discriminate H.
  - discriminate Hp.
  - exact H.
Defined.

Lemma local_sign_in_sound_witness :
  match local_login nobody built_in_store true three_strikes (MkLogin " ADA" "ada's password" None) 0 second_us "qgs_ada" "qgc_ada" with_ada with
  | (_, Done session) => ss_subject session = "local|Ada" ∧ ss_auth_method session = "local_password"
  | _ => False
  end
  ∧ (local_login nobody built_in_store true three_strikes (MkLogin "ada" "a guess" None) 0 second_us "qgs_ada" "qgc_ada" with_ada).2
    = Failed "invalid_credentials".
Proof.
  split; [|vm_compute; reflexivity].
  destruct (local_login nobody built_in_store true three_strikes (MkLogin " ADA" "ada's password" None) 0 second_us "qgs_ada" "qgc_ada" with_ada)
    as [w' [session|c]] eqn:E; [|vm_compute in E; discriminate E].
  destruct (local_sign_in_sound _ _ _ _ _ _ _ _ _ _ _ _ E) as (_ & _ & _ & _ & _ & _ & _ & Hm & _).
  split; [vm_compute in E; injection E as _ <-; reflexivity|exact Hm].
Defined.

(** ** Where revocation and the guards fall short *)

(** Sessions are revoked under the username, and stored under the subject: the
    session of a disabled person goes on. *)
Theorem disabled_account_keeps_its_session :
  let w := identity_step nobody built_in_store with_ada (ada_login "ada's password") in
  let w' := identity_step nobody built_in_store w (RUpdate root "ada" disable "s2") in
  map (λ e : string * LocalUser, lu_disabled e.2) (iw_users w') = [true]
  ∧ (authenticate_session built_in_store (Some "qgs_ada") (Some "qgc_ada") (60 * second_us) (iw_sessions w')).2
    = Done (Some (MkPrincipal "local|Ada" ∅ (user_claims (MkUser "Ada" "" "" ["eng"] "" "" false false)) SSO_SESSION_METHOD None)).
Proof. vm_compute. by split. Qed.

(** The guards compare a name as it was written, and the store strips it. *)
Theorem padded_name_passes_the_guard :
  delete_user (admin_named "Ada") "ada" with_ada = (with_ada, Failed "You cannot delete your own account.")
  ∧ (delete_user (admin_named "Ada") "ada " with_ada).2 = Done tt
  ∧ iw_users (delete_user (admin_named "Ada") "ada " with_ada).1 = [].
Proof. vm_compute. by split_and!. Qed.

(** A username that ends in a line break passes the pattern; the account cannot be
    found again, and creating it twice overwrites it. *)
Theorem line_break_account_is_lost :
  let eve := MkCreate (String "e" (String (ascii_of_nat 10) "")) "eve's password" "" "" [] false in
  let w := (create_user root eve "s1" empty_world).1 in
  length (iw_users w) = 1%nat ∧ get_user (cr_username eve) (iw_users w) = None
  ∧ is_ok (match (create_user root eve "s2" w).2 with Done p => Ok p | Failed c => Raise (ValueError c) end) = true
  ∧ length (iw_users (create_user root eve "s2" w).1) = 1%nat.
Proof. vm_compute. by split_and!. Qed.
End sample.
