(* ===== verification/ConfigGovernance.v ===== *)
(** Governed configuration: the versions of [admin/store.py], and staging, review,
    application and rollback as [admin/service.py] runs them against the reload of
    [config_reload.py]. Shown: one version is active, contents and reviews never
    change hands, and a version takes effect only after the reviews it needs. *)
From Stdlib Require Import Ascii.
From stdpp Require Import pretty sorting.
From S2P Require Export Policy JsonText Scopes.
Local Open Scope Z_scope.

(** * Versions *)

(** The four governed documents. *)
Record Documents := MkDocuments {
  dc_connections : string;
  dc_policy : string;
  dc_catalog : option string;
  dc_templates : option string;
}.

#[export] Instance documents_eq_dec : EqDecision Documents.
Proof. solve_decision. Defined.

Inductive ConfigVersionStatus := Staged | Active | Inactive.
Inductive ConfigApprovalDecision := Approves | Rejects.

#[export] Instance version_status_eq_dec : EqDecision ConfigVersionStatus.
Proof. solve_decision. Defined.
#[export] Instance approval_decision_eq_dec : EqDecision ConfigApprovalDecision.
Proof. solve_decision. Defined.

Record ConfigApprovalRecord := MkApproval {
  ca_approver : string;
  ca_decision : ConfigApprovalDecision;
  ca_at : Z;
  ca_content_fingerprint : string;
  ca_note : option string;
}.

(** Ids are numbers, whose decimal texts name the directories. *)
Record ConfigVersion := MkVersion {
  cv_id : Z;
  cv_status : ConfigVersionStatus;
  cv_created_at : Z;
  cv_created_by : string;
  cv_description : option string;
  cv_approvals : list ConfigApprovalRecord;
  cv_documents : Documents;
  cv_applied_at : option Z;
  cv_applied_by : option string;
  cv_previous_active : option Z;
}.

(** What the updates of [model_copy] make of a version. *)
Definition with_approvals (approvals : list ConfigApprovalRecord) (v : ConfigVersion) : ConfigVersion :=
  MkVersion (cv_id v) (cv_status v) (cv_created_at v) (cv_created_by v) (cv_description v) approvals (cv_documents v)
    (cv_applied_at v) (cv_applied_by v) (cv_previous_active v).
Definition deactivated (v : ConfigVersion) : ConfigVersion :=
  MkVersion (cv_id v) Inactive (cv_created_at v) (cv_created_by v) (cv_description v) (cv_approvals v) (cv_documents v)
    (cv_applied_at v) (cv_applied_by v) (cv_previous_active v).
Definition activated (now : Z) (actor : string) (previous : option Z) (v : ConfigVersion) : ConfigVersion :=
  MkVersion (cv_id v) Active (cv_created_at v) (cv_created_by v) (cv_description v) (cv_approvals v) (cv_documents v)
    (Some now) (Some actor) previous.

(** * [ConfigVersionStore] *)

(** The directories, each with its manifest and contents or, when a crash came
    between the two, without a manifest; and the pointer. *)
Record VersionStore := MkStore { vs_versions : gmap Z (option ConfigVersion); vs_current : option Z }.

Definition unknown_version (id : Z) : exn := NotFoundError ("Unknown config version: '" +:+ pretty id +:+ "'").

Definition read_manifest (id : Z) (s : VersionStore) : result ConfigVersion :=
  match vs_versions s !! id with Some (Some v) => Ok v | _ => Raise (unknown_version id) end.

Definition write_manifest (v : ConfigVersion) (s : VersionStore) : VersionStore :=
  MkStore (<[cv_id v := Some v]> (vs_versions s)) (vs_current s).

Definition next_id (s : VersionStore) : Z := map_fold (λ id _ m, Z.max id m) 0 (vs_versions s) + 1.

(** [file_paths]: that the directory is there is all that is asked. *)
Definition file_paths (id : Z) (s : VersionStore) : result Z :=
  match vs_versions s !! id with Some _ => Ok id | None => Raise (unknown_version id) end.

Definition get_active_version (s : VersionStore) : result (option ConfigVersion) :=
  match vs_current s with None => Ok None | Some id => read_manifest id s ≫= λ v, Ok (Some v) end.

Definition version_before (a b : ConfigVersion) : Prop := cv_id a ≤ cv_id b.
#[export] Instance version_before_dec a b : Decision (version_before a b).
Proof. unfold version_before. apply _. Defined.

Fixpoint read_all (ids : list Z) (s : VersionStore) : result (list ConfigVersion) :=
  match ids with [] => Ok [] | id :: ids => read_manifest id s ≫= λ v, read_all ids s ≫= λ vs, Ok (v :: vs) end.
Definition list_versions (s : VersionStore) : result (list ConfigVersion) :=
  read_all (map fst (map_to_list (vs_versions s))) s ≫= λ vs, Ok (merge_sort version_before vs).

Definition BOOTSTRAP_ACTOR : string := "system:bootstrap".

Definition bootstrap_if_empty (docs : Documents) (now : Z) (s : VersionStore) : result (VersionStore * ConfigVersion) :=
  get_active_version s ≫= λ active,
  match active with
  | Some v => Ok (s, v)
  | None =>
      let id := next_id s in
      let v := MkVersion id Active now BOOTSTRAP_ACTOR (Some "Bootstrapped from the deployment's configured files.") []
                 docs (Some now) (Some BOOTSTRAP_ACTOR) None in
      Ok (MkStore (<[id := Some v]> (vs_versions s)) (Some id), v)
  end.

Definition create_staged_version (docs : Documents) (description : option string) (actor : string) (now : Z) (s : VersionStore) :
  VersionStore * ConfigVersion :=
  let v := MkVersion (next_id s) Staged now actor description [] docs None None None in (write_manifest v s, v).

Definition add_approval (id : Z) (approver : string) (decision : ConfigApprovalDecision) (fingerprint : string)
  (note : option string) (now : Z) (s : VersionStore) : result (VersionStore * ConfigVersion) :=
  read_manifest id s ≫= λ v,
  raise_if (negb (bool_decide (cv_status v = Staged))) (PolicyViolationError "Only a staged version can be reviewed") ≫= λ _,
  raise_if (bool_decide (approver = cv_created_by v))
    (PolicyViolationError "A config version's author cannot approve or reject their own change (four-eyes separation of duties)") ≫= λ _,
  let others := List.filter (λ a, negb (bool_decide (ca_approver a = approver))) (cv_approvals v) in
  let v := with_approvals (others ++ [MkApproval approver decision now fingerprint note]) v in
  Ok (write_manifest v s, v).

Definition mark_active (id : Z) (actor : string) (now : Z) (s : VersionStore) : result (VersionStore * ConfigVersion) :=
  read_manifest id s ≫= λ v,
  match vs_current s with
  | Some previous =>
      if bool_decide (previous = id) then Ok s
      else read_manifest previous s ≫= λ p, Ok (write_manifest (deactivated p) s)
  | None => Ok s
  end ≫= λ s',
  let v := activated now actor (vs_current s) v in
  Ok (MkStore (vs_versions (write_manifest v s')) (Some id), v).

(** * [_version_fingerprint] *)

Section governance.
Context `{DG : Digest}.

(** Each document with its length in front; a missing one is unlike an empty one. *)
Definition frame_document (o : option string) : string :=
  match o with
  | None => String (ascii_of_nat 0) ("none" +:+ String (ascii_of_nat 0) "")
  | Some s => String (ascii_of_nat 1) (pretty (Z.of_nat (String.length s)) +:+ String (ascii_of_nat 2) s)
  end.
Definition version_text (d : Documents) : string :=
  frame_document (Some (dc_connections d)) +:+ frame_document (Some (dc_policy d))
  +:+ frame_document (dc_catalog d) +:+ frame_document (dc_templates d).
Definition version_fingerprint (d : Documents) : string := sha256_hexdigest (version_text d).

(** [_count_valid_approvals]: the number of distinct reviewers who approve these contents. *)
Definition valid_approvers (v : ConfigVersion) : list string :=
  remove_dups (map ca_approver (List.filter (λ a,
    bool_decide (ca_decision a = Approves) && bool_decide (ca_content_fingerprint a = version_fingerprint (cv_documents v)))
    (cv_approvals v))).
Definition count_valid_approvals (v : ConfigVersion) : Z := Z.of_nat (length (valid_approvers v)).
End governance.

(** * The service *)

(** [validate_candidate_content], which runs the loaders over the four texts and
    reads YAML, and whether the loaders of a reload accept them. *)
Class ConfigLoaders := {
  candidate_errors : Documents → list string;
  loads : Documents → bool;
}.

Record ConfigAudit := MkConfigAudit {
  au_action : string;
  au_outcome : string;
  au_principal : string;
  au_version : option Z;
  au_previous : option Z;
  au_draft : option string;
  au_error_category : option string;
}.

(** An [apply] that passed its checks and waits for the reload: who asked for what,
    and the name the operation was given. *)
Record PendingApply := MkPendingApply { pa_id : Z; pa_actor : string; pa_action : string }.

(** Where a reload reads from. *)
Inductive source := FromDisk | FromVersion (id : Z).

(** The store and the audit trail last; the documents in force, the lock of the
    reload with the apply that holds it, the applies under way and what a probe
    of the lease monitor saw are of one process. *)
Record GovState := MkGov {
  gs_store : VersionStore;
  gs_audit : list ConfigAudit;
  gs_live : Documents;
  gs_lock : option nat;
  gs_tasks : gmap nat PendingApply;
  gs_probe : option source;
}.

Definition set_store (s : VersionStore) (g : GovState) : GovState :=
  MkGov s (gs_audit g) (gs_live g) (gs_lock g) (gs_tasks g) (gs_probe g).
Definition log_change (e : ConfigAudit) (g : GovState) : GovState :=
  MkGov (gs_store g) (gs_audit g ++ [e]) (gs_live g) (gs_lock g) (gs_tasks g) (gs_probe g).
Definition set_live (d : Documents) (g : GovState) : GovState :=
  MkGov (gs_store g) (gs_audit g) d (gs_lock g) (gs_tasks g) (gs_probe g).
Definition set_lock (l : option nat) (g : GovState) : GovState :=
  MkGov (gs_store g) (gs_audit g) (gs_live g) l (gs_tasks g) (gs_probe g).
Definition set_tasks (t : gmap nat PendingApply) (g : GovState) : GovState :=
  MkGov (gs_store g) (gs_audit g) (gs_live g) (gs_lock g) t (gs_probe g).
Definition set_probe (o : option source) (g : GovState) : GovState :=
  MkGov (gs_store g) (gs_audit g) (gs_live g) (gs_lock g) (gs_tasks g) o.

(** What a request submits: a document left out is inherited. *)
Record Submitted := MkSubmitted {
  sb_connections : option string;
  sb_policy : option string;
  sb_catalog : option string;
  sb_templates : option string;
}.

Definition inherit (s : Submitted) (active : Documents) : Documents :=
  MkDocuments (default (dc_connections active) (sb_connections s)) (default (dc_policy active) (sb_policy s))
    (match sb_catalog s with Some c => Some c | None => dc_catalog active end)
    (match sb_templates s with Some t => Some t | None => dc_templates active end).

(** What a reload from a version installs: a version staged before templates were
    governed takes the deployment's. *)
Definition installed (disk docs : Documents) : Documents :=
  MkDocuments (dc_connections docs) (dc_policy docs) (dc_catalog docs)
    (match dc_templates docs with Some t => Some t | None => dc_templates disk end).

Section service.
Context `{DG : Digest} `{CL : ConfigLoaders} (require_config_approvals : Z) (disk : Documents).

Definition log_as (p : Principal) (action outcome : string) (version previous : option Z) (error : option string) : GovState → GovState :=
  log_change (MkConfigAudit action outcome (subject p) version previous None error).

(** [_bootstrap] and [_resolve_candidate], on a service state. *)
Definition bootstrap (now : Z) (g : GovState) : result (GovState * ConfigVersion) :=
  bootstrap_if_empty disk now (gs_store g) ≫= λ '(s, v), Ok (set_store s g, v).

Definition stage (p : Principal) (submitted : Submitted) (description : option string) (now : Z) (g : GovState) : GovState * result ConfigVersion :=
  match bootstrap now g with
  | Raise e => (g, Raise e)
  | Ok (g, active) =>
      let docs := inherit submitted (cv_documents active) in
      match candidate_errors docs with
      | [] =>
          let '(s, v) := create_staged_version docs description (subject p) now (gs_store g) in
          (log_as p "stage" "success" (Some (cv_id v)) None None (set_store s g), Ok v)
      | errors => (log_as p "stage" "rejected" None None (Some "validation") g, Raise (ConfigValidationError (String.concat "; " errors)))
      end
  end.

Definition review (p : Principal) (id : Z) (decision : ConfigApprovalDecision) (note : option string) (now : Z) (g : GovState) :
  GovState * result ConfigVersion :=
  match read_manifest id (gs_store g) with
  | Raise e => (g, Raise e)
  | Ok v =>
      let action := match decision with Approves => "approve" | Rejects => "reject" end in
      match add_approval id (subject p) decision (version_fingerprint (cv_documents v)) note now (gs_store g) with
      | Ok (s, v) => (log_as p action "success" (Some id) None None (set_store s g), Ok v)
      | Raise (PolicyViolationError m) =>
          (log_as p action "rejected" (Some id) None (Some "separation_of_duties") g, Raise (PolicyViolationError m))
      | Raise e => (g, Raise e)
      end
  end.

(** [apply], up to where it waits for the lock of the reload. *)
Definition apply_begin (task : nat) (p : Principal) (id : Z) (g : GovState) : GovState * result unit :=
  match read_manifest id (gs_store g) with
  | Raise e => (g, Raise e)
  | Ok v =>
      let action := if bool_decide (cv_status v = Inactive) then "rollback" else "apply" in
      match candidate_errors (cv_documents v) with
      | [] =>
          if bool_decide (action = "apply") && (0 <? require_config_approvals) && (count_valid_approvals v <? require_config_approvals)
          then (log_as p action "rejected" (Some id) None (Some "insufficient_approvals") g, Raise (PolicyViolationError "required approvals"))
          else (set_tasks (<[task := MkPendingApply id (subject p) action]> (gs_tasks g)) g, Ok tt)
      | errors => (log_as p action "rejected" (Some id) None (Some "validation") g, Raise (ConfigValidationError (String.concat "; " errors)))
      end
  end.

(** The documents a reload reads, at the moment it reads them. *)
Definition source_documents (src : source) (s : VersionStore) : option Documents :=
  match src with
  | FromDisk => Some disk
  | FromVersion id => match read_manifest id s with Ok v => Some (installed disk (cv_documents v)) | Raise _ => None end
  end.

(** An apply takes the lock, loads its version and puts it in force; what a loader
    raises ends it. *)
Definition apply_install (task : nat) (g : GovState) : GovState :=
  match gs_tasks g !! task, gs_lock g with
  | Some t, None =>
      match source_documents (FromVersion (pa_id t)) (gs_store g) with
      | Some d => if loads d then set_lock (Some task) (set_live d g) else set_tasks (delete task (gs_tasks g)) g
      | None => set_tasks (delete task (gs_tasks g)) g
      end
  | _, _ => g
  end.

(** It then disposes of the engines of connections that changed, which may raise;
    if not, it leaves the lock and marks the version, without another pause. *)
Definition apply_finish (task : nat) (disposed : bool) (now : Z) (g : GovState) : GovState * result unit :=
  match gs_tasks g !! task with
  | Some t =>
      if negb (bool_decide (gs_lock g = Some task)) then (g, Ok tt) else
      let g := set_lock None (set_tasks (delete task (gs_tasks g)) g) in
      if negb disposed then (g, Raise (BuiltinError "Exception")) else
      match mark_active (pa_id t) (pa_actor t) now (gs_store g) with
      | Ok (s, v) => (log_change (MkConfigAudit (pa_action t) "success" (pa_actor t) (Some (pa_id t)) (cv_previous_active v) None None) (set_store s g), Ok tt)
      | Raise e => (g, Raise e)
      end
  | None => (g, Ok tt)
  end.

(** ** The other reloads *)

(** [POST /admin/reload-config]; a start of the process reads the same files. *)
Definition reload_from_disk (g : GovState) : GovState :=
  match gs_lock g with None => if loads disk then set_live disk g else g | Some _ => g end.
Definition restart (g : GovState) : GovState := MkGov (gs_store g) (gs_audit g) disk None ∅ None.

(** [CredentialLeaseMonitor]: [_evaluate] on a thread, and the reload that follows. *)
Definition current_source (s : VersionStore) : source := match vs_current s with None => FromDisk | Some id => FromVersion id end.
Definition lease_probe (g : GovState) : GovState := set_probe (Some (current_source (gs_store g))) g.
Definition lease_reload (g : GovState) : GovState :=
  match gs_probe g, gs_lock g with
  | Some src, None =>
      let g := set_probe None g in
      match source_documents src (gs_store g) with
      | Some d => if loads d
                  then log_change (MkConfigAudit "lease_refresh" "success" "system:credential-lease-monitor" None None None None) (set_live d g) else g
      | None => g
      end
  | _, _ => g
  end.

(** ** Courses of events *)

Inductive gov_event :=
| Stage (p : Principal) (submitted : Submitted) (description : option string) (now : Z)
| Review (p : Principal) (id : Z) (decision : ConfigApprovalDecision) (note : option string) (now : Z)
| ApplyBegin (task : nat) (p : Principal) (id : Z)
| ApplyInstall (task : nat)
| ApplyFinish (task : nat) (disposed : bool) (now : Z)
| ReloadFromDisk
| LeaseProbe
| LeaseReload
| Restart.

Definition gov_step (g : GovState) (e : gov_event) : GovState :=
  match e with
  | Stage p submitted description now => (stage p submitted description now g).1
  | Review p id decision note now => (review p id decision note now g).1
  | ApplyBegin task p id => if bool_decide (gs_tasks g !! task = None) then (apply_begin task p id g).1 else g
  | ApplyInstall task => apply_install task g
  | ApplyFinish task disposed now => (apply_finish task disposed now g).1
  | ReloadFromDisk => reload_from_disk g
  | LeaseProbe => lease_probe g
  | LeaseReload => lease_reload g
  | Restart => restart g
  end.

Definition no_versions : VersionStore := MkStore ∅ None.
Definition started : GovState := MkGov no_versions [] disk None ∅ None.
Definition gov_run (events : list gov_event) : GovState := foldl gov_step started events.
End service.

(** * The store *)

Lemma next_id_fresh s id : is_Some (vs_versions s !! id) → id < next_id s.
Proof.
  unfold next_id. intros H. enough (id ≤ map_fold (λ id _ m, Z.max id m) 0 (vs_versions s)) by lia. revert H.
  apply (map_fold_weak_ind (λ m (d : gmap Z (option ConfigVersion)), is_Some (d !! id) → id ≤ m)).
  - rewrite lookup_empty. by intros [? ?].
  - intros i x d r _ IH [y Hy]. destruct (decide (i = id)) as [->|Hne]; [lia|].
    rewrite lookup_insert_ne in Hy by done. specialize (IH ltac:(by eexists)). lia.
Qed.

Lemma next_id_new s : vs_versions s !! next_id s = None.
Proof.
  destruct (vs_versions s !! next_id s) eqn:E; [|done]. pose proof (next_id_fresh s (next_id s) ltac:(by eexists)). lia.
Qed.

Lemma read_manifest_ok id s v : read_manifest id s = Ok v ↔ vs_versions s !! id = Some (Some v).
Proof. unfold read_manifest. destruct (vs_versions s !! id) as [[w|]|]; naive_solver. Qed.

Section store.
Context `{DG : Digest} (disk : Documents).

(** What is on record of the reviews of a version: one decision for each reviewer,
    of these contents, and none by the author. *)
Definition reviews_ok (v : ConfigVersion) : Prop :=
  NoDup (map ca_approver (cv_approvals v))
  ∧ ∀ a, a ∈ cv_approvals v → ca_approver a ≠ cv_created_by v ∧ ca_content_fingerprint a = version_fingerprint (cv_documents v).

Record versions_ok (s : VersionStore) : Prop := {
  vo_ids id v : vs_versions s !! id = Some (Some v) → cv_id v = id;
  vo_active id v : vs_versions s !! id = Some (Some v) → (cv_status v = Active ↔ vs_current s = Some id);
  vo_current id : vs_current s = Some id → ∃ v, vs_versions s !! id = Some (Some v);
  vo_reviews id v : vs_versions s !! id = Some (Some v) → reviews_ok v;
}.

(** What the operations do to the store, and the version they put in force. *)
Inductive store_move (s : VersionStore) : option Z → VersionStore → Prop :=
| MoveBootstrap now s' v : bootstrap_if_empty disk now s = Ok (s', v) → store_move s None s'
| MoveStage docs description actor now : store_move s None (create_staged_version docs description actor now s).1
| MoveReview id approver decision note now v s' v' :
    read_manifest id s = Ok v →
    add_approval id approver decision (version_fingerprint (cv_documents v)) note now s = Ok (s', v') → store_move s None s'
| MoveActivate id actor now s' v : mark_active id actor now s = Ok (s', v) → store_move s (Some id) s'.

Definition quiet_moves : VersionStore → VersionStore → Prop := rtc (λ s s', store_move s None s').

(** A version keeps its contents and its author, and never waits again once it
    has been in force. *)
Definition kept (s s' : VersionStore) : Prop :=
  ∀ id v, vs_versions s !! id = Some (Some v) →
  ∃ v', vs_versions s' !! id = Some (Some v') ∧ cv_documents v' = cv_documents v ∧ cv_created_by v' = cv_created_by v
    ∧ (cv_status v ≠ Staged → cv_status v' ≠ Staged).

Lemma kept_refl s : kept s s.
Proof. intros id v H. by exists v. Qed.

Lemma kept_trans s1 s2 s3 : kept s1 s2 → kept s2 s3 → kept s1 s3.
Proof.
  intros H12 H23 id v H. destruct (H12 id v H) as (v2 & H2 & Hd2 & Ha2 & Hs2).
  destruct (H23 id v2 H2) as (v3 & H3 & Hd3 & Ha3 & Hs3). exists v3. split_and!; [done|congruence|congruence|auto].
Qed.

(** Writing a version over itself. *)
Lemma write_lookup v s id w : vs_versions (write_manifest v s) !! id = Some (Some w) ↔
  (id = cv_id v ∧ w = v) ∨ (id ≠ cv_id v ∧ vs_versions s !! id = Some (Some w)).
Proof.
  unfold write_manifest. cbn [vs_versions]. destruct (decide (id = cv_id v)) as [->|Hne].
  - rewrite lookup_insert_eq. naive_solver.
  - rewrite lookup_insert_ne by done. naive_solver.
Qed.

Lemma write_kept v w s : vs_versions s !! cv_id w = Some (Some v) →
  cv_documents w = cv_documents v → cv_created_by w = cv_created_by v → (cv_status v ≠ Staged → cv_status w ≠ Staged) →
  kept s (write_manifest w s).
Proof.
  intros Hv Hd Ha Hs id u Hu. destruct (decide (id = cv_id w)) as [->|Hne].
  - exists w. rewrite write_lookup. assert (u = v) as -> by congruence. split_and!; auto.
  - exists u. rewrite write_lookup. split_and!; auto.
Qed.

Lemma insert_new_kept id v s c : vs_versions s !! id = None → kept s (MkStore (<[id := Some v]> (vs_versions s)) c).
Proof.
  intros Hn k u Hu. exists u. cbn [vs_versions]. rewrite lookup_insert_ne by congruence. by split_and!.
Qed.

Lemma kept_current s s' c : kept s s' → kept s (MkStore (vs_versions s') c).
Proof. done. Qed.

(** A version the store does not have yet. *)
Lemma new_version_ok s v c : versions_ok s → vs_versions s !! cv_id v = None → reviews_ok v →
  (cv_status v = Active ↔ c = Some (cv_id v)) → (c = vs_current s ∨ vs_current s = None ∧ c = Some (cv_id v)) →
  versions_ok (MkStore (<[cv_id v := Some v]> (vs_versions s)) c).
Proof.
  intros [Hid Hact Hcur Hrev] Hnew Hv Hst Hc.
  assert (Hl : ∀ id w, <[cv_id v := Some v]> (vs_versions s) !! id = Some (Some w) ↔
    (id = cv_id v ∧ w = v) ∨ (id ≠ cv_id v ∧ vs_versions s !! id = Some (Some w))).
  { intros id w. apply (write_lookup v s). }
  split; cbn [vs_versions vs_current].
  - intros id w [[-> ->]|[_ H]]%Hl; [done|by apply Hid].
  - intros id w [[-> ->]|[Hne H]]%Hl; [done|]. rewrite (Hact _ _ H). destruct Hc as [->|[-> ->]]; [done|]. split; congruence.
  - intros id H. destruct Hc as [->|[_ ->]].
    + destruct (Hcur id H) as [w Hw]. exists w. apply Hl. right. split; [congruence|done].
    + injection H as <-. exists v. apply Hl. by left.
  - intros id w [[-> ->]|[_ H]]%Hl; [done|by eapply Hrev].
Qed.

Lemma reviews_none id st at_ by_ description docs a b c : reviews_ok (MkVersion id st at_ by_ description [] docs a b c).
Proof. split; [constructor|]. by intros x ?%not_elem_of_nil. Qed.

Lemma bootstrap_move s now s' v : versions_ok s → bootstrap_if_empty disk now s = Ok (s', v) →
  versions_ok s' ∧ kept s s' ∧ vs_versions s' !! cv_id v = Some (Some v) ∧ vs_current s' = Some (cv_id v).
Proof.
  intros Hok. unfold bootstrap_if_empty, get_active_version. destruct (vs_current s) as [id|] eqn:Ec.
  - destruct (read_manifest id s) as [w|] eqn:Er; cbn [mbind result_bind]; [|done]. intros [= <- <-].
    apply read_manifest_ok in Er. pose proof (vo_ids _ Hok _ _ Er) as ->. split_and!; [done|apply kept_refl|done|done].
  - cbn [mbind result_bind]. intros [= <- <-]. cbn [cv_id vs_versions vs_current]. split_and!; [|apply insert_new_kept, next_id_new|by rewrite lookup_insert_eq|done].
    refine (new_version_ok s (MkVersion (next_id s) Active _ _ _ _ _ _ _ _) (Some (next_id s)) Hok (next_id_new s) (reviews_none _ _ _ _ _ _ _ _ _) _ _);
      [done|by right].
Qed.

Lemma stage_move s docs description actor now : versions_ok s →
  versions_ok (create_staged_version docs description actor now s).1 ∧ kept s (create_staged_version docs description actor now s).1.
Proof.
  intros Hok. split; [|apply insert_new_kept, next_id_new].
  refine (new_version_ok s (MkVersion (next_id s) Staged _ _ _ _ _ _ _ _) (vs_current s) Hok (next_id_new s) (reviews_none _ _ _ _ _ _ _ _ _) _ _);
    [|by left].
  cbn [cv_status cv_id]. split; [done|]. intros H. destruct (vo_current _ Hok _ H) as [v Hv]. by rewrite next_id_new in Hv.
Qed.

Lemma rewrite_ok s v w : versions_ok s → vs_versions s !! cv_id w = Some (Some v) → cv_status w = cv_status v → reviews_ok w →
  versions_ok (write_manifest w s).
Proof.
  intros [Hid Hact Hcur Hrev] Hv Hs Hw. split.
  - intros id u [[-> ->]|[_ H]]%write_lookup; [done|by apply Hid].
  - intros id u [[-> ->]|[_ H]]%write_lookup; [rewrite Hs; by apply Hact|by apply Hact].
  - intros id H. destruct (Hcur id H) as [u Hu]. destruct (decide (id = cv_id w)) as [->|Hne].
    + exists w. apply write_lookup. by left.
    + exists u. apply write_lookup. by right.
  - intros id u [[-> ->]|[_ H]]%write_lookup; [done|by eapply Hrev].
Qed.

(** A review replaces the reviewer's earlier one. *)
Lemma add_approval_done id approver decision fp note now s s' v' :
  add_approval id approver decision fp note now s = Ok (s', v') →
  ∃ v, read_manifest id s = Ok v ∧ cv_status v = Staged ∧ approver ≠ cv_created_by v
    ∧ v' = with_approvals (List.filter (λ a, negb (bool_decide (ca_approver a = approver))) (cv_approvals v)
                           ++ [MkApproval approver decision now fp note]) v
    ∧ s' = write_manifest v' s.
Proof.
  unfold add_approval. intros H. apply bind_ok in H as (v & Hv & H). apply bind_ok_unit in H as [Hst H]. apply bind_ok_unit in H as [Ha H].
  injection H as <- <-. exists v. apply raise_if_ok in Hst, Ha. apply negb_false_iff, bool_decide_eq_true in Hst.
  apply bool_decide_eq_false in Ha. by split_and!.
Qed.

Lemma NoDup_map_filter {A} (f : A → string) (p : A → bool) l : NoDup (map f l) → NoDup (map f (List.filter p l)).
Proof.
  induction l as [|x l IH]; cbn; [done|]. intros [Hx Hl]%NoDup_cons. destruct (p x); cbn; [|by apply IH].
  constructor; [|by apply IH]. intros (y & Hxy & [Hy _]%elem_of_lfilter)%elem_of_map. apply Hx, elem_of_map. by exists y.
Qed.

Lemma review_move s id approver decision note now v s' v' : versions_ok s → read_manifest id s = Ok v →
  add_approval id approver decision (version_fingerprint (cv_documents v)) note now s = Ok (s', v') → versions_ok s' ∧ kept s s'.
Proof.
  intros Hok Hv H. apply add_approval_done in H as (v0 & Hv0 & Hst & Ha & Hv' & ->). assert (v0 = v) as -> by congruence.
  apply read_manifest_ok in Hv. pose proof (vo_ids _ Hok _ _ Hv) as Hid. destruct (vo_reviews _ Hok _ _ Hv) as [Hnd Hrev].
  assert (Hl : vs_versions s !! cv_id v' = Some (Some v)) by (rewrite Hv'; cbn [cv_id with_approvals]; by rewrite Hid).
  split.
  - eapply rewrite_ok; [done|exact Hl|by rewrite Hv'|]. rewrite Hv'. split; cbn [cv_approvals cv_created_by cv_documents with_approvals].
    + rewrite map_app. apply NoDup_app. split_and!; [by apply NoDup_map_filter| |apply NoDup_singleton].
      intros x (a & Hxa & [_ Hx]%elem_of_lfilter)%elem_of_map Hxb%list_elem_of_singleton.
      apply negb_true_iff, bool_decide_eq_false in Hx. cbn in Hxb. congruence.
    + intros a [[H _]%elem_of_lfilter| ->%list_elem_of_singleton]%elem_of_app; [by apply Hrev|]. by split.
  - eapply write_kept; [exact Hl|by rewrite Hv'..].
Qed.

Lemma mark_active_done id actor now s s' v : mark_active id actor now s = Ok (s', v) → versions_ok s →
  ∃ w, vs_versions s !! id = Some (Some w) ∧ v = activated now actor (vs_current s) w ∧ vs_current s' = Some id
    ∧ (∀ k u, vs_versions s' !! k = Some (Some u) ↔
         (k = id ∧ u = v)
         ∨ (k ≠ id ∧ vs_current s = Some k ∧ ∃ p, vs_versions s !! k = Some (Some p) ∧ u = deactivated p)
         ∨ (k ≠ id ∧ vs_current s ≠ Some k ∧ vs_versions s !! k = Some (Some u))).
Proof.
  unfold mark_active. intros H Hok. apply bind_ok in H as (w & Hw & H). apply read_manifest_ok in Hw.
  pose proof (vo_ids _ Hok _ _ Hw) as Hid. apply bind_ok in H as (s1 & Hs1 & [= <- <-]).
  exists w. split; [done|]. split; [done|]. split; [done|]. intros k u.
  etransitivity; [exact (write_lookup (activated now actor (vs_current s) w) s1 k u)|]. cbn [cv_id activated]. rewrite Hid.
  destruct (vs_current s) as [previous|] eqn:Ec; [|injection Hs1 as <-; naive_solver].
  case_bool_decide as Hp; [injection Hs1 as <-; subst previous; naive_solver|].
  apply bind_ok in Hs1 as (p & Hpm & [= <-]). apply read_manifest_ok in Hpm. pose proof (vo_ids _ Hok _ _ Hpm) as Hpid.
  rewrite write_lookup. cbn [cv_id deactivated]. rewrite Hpid. split.
  - intros [[-> ->]|(Hne & [[-> ->]|[Hk Hu]])]; [by left|right; left|right; right]; [|by split_and!; try congruence].
    split_and!; try done. by exists p.
  - intros [[-> ->]|[(Hne & [= ->] & p' & Hp' & ->)|(Hne & Hc & Hu)]]; [by left|right|right].
    + split; [done|]. left. split; [done|]. congruence.
    + split; [done|]. right. split; [|done]. congruence.
Qed.

Lemma activate_move s id actor now s' v : versions_ok s → mark_active id actor now s = Ok (s', v) → versions_ok s' ∧ kept s s'.
Proof.
  intros Hok H. destruct (mark_active_done _ _ _ _ _ _ H Hok) as (w & Hw & Hv & Hc & Hl). pose proof Hok as [Hid Hact Hcur Hrev].
  split; [split|].
  - intros k u [[-> ->]|[(_ & _ & p & Hp & ->)|(_ & _ & Hu)]]%Hl; [rewrite Hv; exact (Hid _ _ Hw)|exact (Hid _ _ Hp)|by apply Hid].
  - intros k u Hu. rewrite Hc. apply Hl in Hu as [[-> ->]|[(Hne & _ & p & Hp & ->)|(Hne & Hcu & Hu)]]; [by rewrite Hv| |].
    + cbn. split; [done|]. congruence.
    + rewrite (Hact _ _ Hu). split; congruence.
  - intros k. rewrite Hc. intros [= <-]. exists v. apply Hl. by left.
  - intros k u [[-> ->]|[(_ & _ & p & Hp & ->)|(_ & _ & Hu)]]%Hl; [rewrite Hv; exact (Hrev _ _ Hw)|exact (Hrev _ _ Hp)|by eapply Hrev].
  - intros k u Hu. destruct (decide (k = id)) as [->|Hne].
    + exists v. assert (u = w) as -> by congruence. split; [apply Hl; by left|]. by rewrite Hv.
    + destruct (decide (vs_current s = Some k)) as [Hcu|Hcu].
      * exists (deactivated u). split; [apply Hl; right; left; split_and!; [done|done|by exists u]|]. by split_and!.
      * exists u. split; [apply Hl; right; right; by split_and!|]. by split_and!.
Qed.

Lemma store_move_ok s a s' : versions_ok s → store_move s a s' → versions_ok s' ∧ kept s s'.
Proof.
  intros Hok [now s1 v H|docs description actor now|id approver decision note now v s1 v' Hv H|id actor now s1 v H].
  - apply bootstrap_move in H as (H1 & H2 & _); [|done]. by split.
  - by apply stage_move.
  - by eapply review_move.
  - by eapply activate_move.
Qed.

Lemma quiet_moves_ok s s' : quiet_moves s s' → versions_ok s → versions_ok s' ∧ kept s s'.
Proof.
  induction 1 as [s|s1 s2 s3 H12 _ IH]; intros Hok; [split; [done|apply kept_refl]|].
  destruct (store_move_ok _ _ _ Hok H12) as [Hok2 Hk]. destruct (IH Hok2) as [Hok3 Hk']. split; [done|by eapply kept_trans].
Qed.

(** The version a deployment starts with: its own files. *)
Definition bootstrapped (v : ConfigVersion) : Prop := cv_created_by v = BOOTSTRAP_ACTOR ∧ cv_documents v = disk.

Definition same_content (v v' : ConfigVersion) : Prop := cv_documents v' = cv_documents v ∧ cv_created_by v' = cv_created_by v.

(** A version that does not wait did not before, or was put in force now, or is the
    deployment's first. *)
Lemma in_force_origin s a s' id v' : versions_ok s → store_move s a s' → vs_versions s' !! id = Some (Some v') → cv_status v' ≠ Staged →
  (∃ v, vs_versions s !! id = Some (Some v) ∧ same_content v v' ∧ (cv_status v ≠ Staged ∨ a = Some id)) ∨ bootstrapped v'.
Proof.
  intros Hok H Hv' Hst.
  destruct H as [now s1 w H|docs description actor now|k approver decision note now w s1 w' Hw H|k actor now s1 w H].
  - revert H. unfold bootstrap_if_empty. intros H. apply bind_ok in H as (active & _ & H).
    destruct active; injection H as <- _; [left; exists v'; split; [done|split; [done|by left]]|]. cbn [vs_versions] in Hv'.
    apply lookup_insert_Some in Hv' as [[_ [= <-]]|[_ Hv']]; [by right|left; exists v'; split; [done|split; [done|by left]]].
  - left. unfold create_staged_version in Hv'. apply write_lookup in Hv' as [[_ ->]|[_ Hv']]; [done|].
    exists v'. split; [done|split; [done|by left]].
  - left. apply add_approval_done in H as (w0 & Hw0 & Hst0 & _ & Hw' & ->). apply read_manifest_ok in Hw0.
    apply write_lookup in Hv' as [[_ ->]|[_ Hv']]; [by rewrite Hw' in Hst|]. exists v'. split; [done|split; [done|by left]].
  - left. destruct (mark_active_done _ _ _ _ _ _ H Hok) as (w0 & Hw0 & Hw & _ & Hl).
    apply Hl in Hv' as [[-> ->]|[(_ & Hc & p & Hp & ->)|(_ & _ & Hv')]].
    + exists w0. rewrite Hw. split; [done|split; [done|by right]].
    + exists p. split; [done|]. split; [done|]. left. apply (vo_active _ Hok _ _ Hp) in Hc. by rewrite Hc.
    + exists v'. split; [done|split; [done|by left]].
Qed.

Lemma quiet_origin s s' id v' : quiet_moves s s' → versions_ok s → vs_versions s' !! id = Some (Some v') → cv_status v' ≠ Staged →
  (∃ v, vs_versions s !! id = Some (Some v) ∧ same_content v v' ∧ cv_status v ≠ Staged) ∨ bootstrapped v'.
Proof.
  induction 1 as [s|s1 s2 s3 H12 _ IH]; intros Hok Hv' Hst; [left; by exists v'|].
  destruct (store_move_ok _ _ _ Hok H12) as [Hok2 _].
  destruct (IH Hok2 Hv' Hst) as [(v2 & Hv2 & [Hd Ha] & Hst2)|?]; [|by right].
  destruct (in_force_origin _ _ _ _ _ Hok H12 Hv2 Hst2) as [(v1 & Hv1 & [Hd1 Ha1] & [Hst1|[=]])|[Hb1 Hb2]].
  - left. exists v1. split_and!; [done|split; congruence|done].
  - right. split; congruence.
Qed.
End store.

(** * Runs *)

Section runs.
Context `{DG : Digest} `{CL : ConfigLoaders} (required : Z) (disk : Documents).
Local Abbreviation step := (gov_step required disk).
Local Abbreviation run := (gov_run required disk).

Lemma bootstrap_quiet now g g' v : bootstrap disk now g = Ok (g', v) →
  ∃ s', bootstrap_if_empty disk now (gs_store g) = Ok (s', v) ∧ g' = set_store s' g ∧ quiet_moves disk (gs_store g) s'.
Proof.
  unfold bootstrap. intros H. apply bind_ok in H as ([s' w] & H & [= <- <-]). exists s'. split_and!; [done|done|].
  eapply rtc_once, MoveBootstrap, H.
Qed.

Lemma stage_quiet p submitted description now g : quiet_moves disk (gs_store g) (gs_store (stage disk p submitted description now g).1).
Proof.
  unfold stage. destruct (bootstrap disk now g) as [[g' active]|e] eqn:E; [|apply rtc_refl].
  apply bootstrap_quiet in E as (s' & _ & -> & Hq). destruct (candidate_errors _); [|exact Hq].
  unfold quiet_moves. etransitivity; [exact Hq|]. apply rtc_once. exact (MoveStage disk s' _ description (subject p) now).
Qed.

Lemma review_quiet p id decision note now g : quiet_moves disk (gs_store g) (gs_store (review p id decision note now g).1).
Proof.
  unfold review. destruct (read_manifest id (gs_store g)) as [v|e] eqn:Er; [|apply rtc_refl].
  destruct (add_approval _ _ _ _ _ _ _) as [[s' v']|e] eqn:Ea; [apply rtc_once; by eapply MoveReview|]. destruct e; apply rtc_refl.
Qed.

(** The applies under way, and the store, after a step. *)
Inductive step_effect (g : GovState) (e : gov_event) : Prop :=
| EffectQuiet : quiet_moves disk (gs_store g) (gs_store (step g e)) → step_effect g e
| EffectActivates task now t : e = ApplyFinish task true now → gs_tasks g !! task = Some t →
    store_move disk (gs_store g) (Some (pa_id t)) (gs_store (step g e)) → step_effect g e.

Lemma gov_step_effect g e : step_effect g e.
Proof.
  destruct e as [p submitted description now|p id decision note now|task p id|task|task disposed now| | | |].
  - apply EffectQuiet, stage_quiet.
  - apply EffectQuiet, review_quiet.
  - apply EffectQuiet. cbn [gov_step]. case_bool_decide; [|apply rtc_refl]. unfold apply_begin.
    destruct (read_manifest _ _); [|apply rtc_refl]. destruct (candidate_errors _); [|apply rtc_refl]. destruct (_ && _); apply rtc_refl.
  - apply EffectQuiet. cbn [gov_step]. unfold apply_install. destruct (gs_tasks g !! task); [|apply rtc_refl].
    destruct (gs_lock g); [apply rtc_refl|]. destruct (source_documents _ _ _) as [d|]; [destruct (loads d)|]; apply rtc_refl.
  - destruct (gs_tasks g !! task) as [t|] eqn:Et; [|apply EffectQuiet; cbn [gov_step]; unfold apply_finish; rewrite Et; apply rtc_refl].
    destruct (bool_decide (gs_lock g = Some task)) eqn:El;
      [|apply EffectQuiet; cbn [gov_step]; unfold apply_finish; rewrite Et, El; apply rtc_refl].
    destruct disposed; [|apply EffectQuiet; cbn [gov_step]; unfold apply_finish; rewrite Et, El; apply rtc_refl].
    destruct (mark_active (pa_id t) (pa_actor t) now (gs_store g)) as [[s' v]|err] eqn:Em.
    + eapply EffectActivates; [done|done|]. cbn [gov_step]. unfold apply_finish. rewrite Et, El. cbn. rewrite Em. by eapply MoveActivate.
    + apply EffectQuiet. cbn [gov_step]. unfold apply_finish. rewrite Et, El. cbn. rewrite Em. apply rtc_refl.
  - apply EffectQuiet. cbn [gov_step]. unfold reload_from_disk. destruct (gs_lock g); [apply rtc_refl|]. destruct (loads disk); apply rtc_refl.
  - apply EffectQuiet, rtc_refl.
  - apply EffectQuiet. cbn [gov_step]. unfold lease_reload. destruct (gs_probe g) as [src|]; [|apply rtc_refl].
    destruct (gs_lock g); [apply rtc_refl|]. cbn [gs_store set_probe]. destruct (source_documents _ _ _) as [d|]; [destruct (loads d)|]; apply rtc_refl.
  - apply EffectQuiet, rtc_refl.
Qed.

Lemma gov_step_ok g e : versions_ok (gs_store g) → versions_ok (gs_store (step g e)) ∧ kept (gs_store g) (gs_store (step g e)).
Proof.
  intros Hok. destruct (gov_step_effect g e) as [Hq|task now t _ _ Hm]; [by eapply quiet_moves_ok|by eapply store_move_ok].
Qed.

Lemma gov_run_snoc events e : run (events ++ [e]) = step (run events) e.
Proof. unfold gov_run. by rewrite foldl_app. Qed.

Lemma gov_run_ok events : versions_ok (gs_store (run events)).
Proof.
  induction events as [|e events IH] using rev_ind.
  - split; cbn; intros id; try (intros v; rewrite lookup_empty; done).
  - rewrite gov_run_snoc. by apply gov_step_ok.
Qed.

Lemma gov_run_kept events later : kept (gs_store (run events)) (gs_store (run (events ++ later))).
Proof.
  induction later as [|e later IH] using rev_ind; [rewrite app_nil_r; apply kept_refl|].
  rewrite app_assoc, gov_run_snoc. eapply kept_trans; [exact IH|]. apply gov_step_ok, gov_run_ok.
Qed.

(** ** Applies under way *)

(** What an apply was started on: a version that had been in force, or one with the
    reviews it needs. *)
Definition fit_to_apply (w : ConfigVersion) : Prop := cv_status w = Inactive ∨ required ≤ count_valid_approvals w.

Lemma apply_begin_tasks task p id g k t : gs_tasks (apply_begin required task p id g).1 !! k = Some t →
  gs_tasks g !! k = Some t
  ∨ k = task ∧ pa_id t = id ∧ ∃ w, vs_versions (gs_store g) !! id = Some (Some w) ∧ fit_to_apply w.
Proof.
  unfold apply_begin. destruct (read_manifest id (gs_store g)) as [v|e] eqn:Er; [|by left]. apply read_manifest_ok in Er.
  destruct (candidate_errors _); [|by left].
  destruct (bool_decide _ && (0 <? required) && (count_valid_approvals v <? required)) eqn:Eb; [by left|]. cbn.
  rewrite lookup_insert_Some. intros [[<- <-]|[_ H]]; [right|by left]. split_and!; [done|done|]. exists v. split; [done|].
  unfold fit_to_apply. destruct (decide (cv_status v = Inactive)) as [Hi|Hi]; [by left|right].
  rewrite (bool_decide_eq_false_2 (cv_status v = Inactive)) in Eb by done. cbn iota in Eb. rewrite bool_decide_eq_true_2 in Eb by done.
  assert (0 ≤ count_valid_approvals v) by (unfold count_valid_approvals; lia). lia.
Qed.

Lemma gov_step_tasks g e k t : gs_tasks (step g e) !! k = Some t →
  gs_tasks g !! k = Some t
  ∨ ∃ task p w, e = ApplyBegin task p (pa_id t) ∧ vs_versions (gs_store g) !! pa_id t = Some (Some w) ∧ fit_to_apply w
      ∧ gs_store (step g e) = gs_store g.
Proof.
  destruct e as [p submitted description now|p id decision note now|task p id|task|task disposed now| | | |]; cbn [gov_step].
  - unfold stage. destruct (bootstrap disk now g) as [[g' active]|e] eqn:E; [|by left].
    apply bootstrap_quiet in E as (s' & _ & -> & _). destruct (candidate_errors _); by left.
  - unfold review. destruct (read_manifest id (gs_store g)); [|by left].
    destruct (add_approval _ _ _ _ _ _ _) as [[s' v']|e]; [by left|]. destruct e; by left.
  - case_bool_decide; [|by left]. intros H'. apply apply_begin_tasks in H' as [H'|(_ & <- & w & H')]; [by left|right].
    exists task, p, w. destruct H' as [Hw Hf]. split_and!; [done|done|done|]. unfold apply_begin.
    destruct (read_manifest _ _); [|done]. destruct (candidate_errors _); [|done]. by destruct (_ && _).
  - unfold apply_install. destruct (gs_tasks g !! task); [|by left]. destruct (gs_lock g); [by left|].
    destruct (source_documents _ _ _) as [d|]; [destruct (loads d); [by left|]|]; cbn; rewrite lookup_delete_Some; intros [_ H']; by left.
  - unfold apply_finish. destruct (gs_tasks g !! task); [|by left]. destruct (negb (bool_decide (gs_lock g = Some task))); [by left|].
    destruct (negb disposed); [cbn; rewrite lookup_delete_Some; intros [_ H']; by left|].
    destruct (mark_active _ _ _ _) as [[s' v]|e]; cbn; rewrite lookup_delete_Some; intros [_ H']; by left.
  - unfold reload_from_disk. destruct (gs_lock g); [by left|]. destruct (loads disk); by left.
  - by left.
  - unfold lease_reload. destruct (gs_probe g) as [src|]; [|by left]. destruct (gs_lock g); [by left|]. cbn [gs_store set_probe].
    destruct (source_documents _ _ _) as [d|]; [destruct (loads d)|]; by left.
  - cbn. by rewrite lookup_empty.
Qed.

(** ** The documents in force *)

(** Applies alone, each of which disposes of its engines. *)
Definition only_applies (e : gov_event) : Prop :=
  match e with
  | Stage _ _ _ _ | Review _ _ _ _ _ | ApplyBegin _ _ _ | ApplyInstall _ | LeaseProbe => True
  | ApplyFinish _ disposed _ => disposed = true
  | ReloadFromDisk | LeaseReload | Restart => False
  end.

Definition live_of (id : Z) (g : GovState) : Prop := source_documents disk (FromVersion id) (gs_store g) = Some (gs_live g).

(** What is in force: the apply that holds the lock, or the active version, or
    what the process started with. *)
Record in_force (g : GovState) : Prop := {
  if_locked task : gs_lock g = Some task → ∃ t, gs_tasks g !! task = Some t ∧ live_of (pa_id t) g;
  if_active id : gs_lock g = None → vs_current (gs_store g) = Some id → live_of id g;
  if_started : gs_lock g = None → vs_current (gs_store g) = None → gs_live g = disk;
}.

Lemma live_of_kept id g s' : kept (gs_store g) s' → live_of id g → live_of id (set_store s' g).
Proof.
  unfold live_of, source_documents. intros Hk. destruct (read_manifest id (gs_store g)) as [v|] eqn:E; [|done].
  apply read_manifest_ok in E. destruct (Hk _ _ E) as (v' & Hv' & Hd & _). cbn [gs_store set_store gs_live].
  apply read_manifest_ok in Hv'. by rewrite Hv', Hd.
Qed.

Lemma installed_disk : installed disk disk = disk.
Proof. unfold installed. by destruct disk as [c p k [t|]]. Qed.

(** The store moves on, and all else stays. *)
Lemma in_force_kept g s' : in_force g → kept (gs_store g) s' → vs_current s' = vs_current (gs_store g) → in_force (set_store s' g).
Proof.
  intros [Hl Ha Hs] Hk Hc. split; cbn [gs_lock gs_tasks set_store gs_store gs_live].
  - intros task Ht. destruct (Hl task Ht) as (t & H & Hv). exists t. split; [done|]. by apply live_of_kept.
  - intros id Hn H. apply live_of_kept; [done|]. apply Ha; [done|congruence].
  - intros Hn H. apply Hs; [done|congruence].
Qed.

Lemma in_force_log e g : in_force g → in_force (log_change e g).
Proof. by intros [Hl Ha Hs]. Qed.

Lemma in_force_bootstrap now g g' v : in_force g → versions_ok (gs_store g) → bootstrap disk now g = Ok (g', v) → in_force g'.
Proof.
  intros Hf Hok H. apply bootstrap_quiet in H as (s' & H & -> & Hq). destruct (quiet_moves_ok _ _ _ Hq Hok) as [_ Hk].
  destruct (vs_current (gs_store g)) as [id|] eqn:Ec.
  - apply in_force_kept; [done|done|]. revert H. unfold bootstrap_if_empty, get_active_version. rewrite Ec.
    destruct (read_manifest id (gs_store g)); cbn; [|done]. by intros [= <- _].
  - destruct Hf as [Hl Ha Hs]. split; cbn [gs_lock gs_tasks set_store gs_store gs_live].
    + intros task Ht. destruct (Hl task Ht) as (t & H' & Hv). exists t. split; [done|]. by apply live_of_kept.
    + intros id Hn Hid. revert H. unfold bootstrap_if_empty, get_active_version. rewrite Ec. cbn [mbind result_bind]. intros [= <- _].
      injection Hid as <-. unfold live_of, source_documents, read_manifest. cbn [gs_store set_store gs_live vs_versions].
      rewrite lookup_insert_eq. cbn [cv_documents]. by rewrite installed_disk, (Hs Hn Ec).
    + intros Hn Hc. revert H. unfold bootstrap_if_empty, get_active_version. rewrite Ec. cbn [mbind result_bind]. by intros [= <- _].
Qed.

Lemma mark_active_defined g task t now : versions_ok (gs_store g) → live_of (pa_id t) g →
  gs_tasks g !! task = Some t → ∃ s' v, mark_active (pa_id t) (pa_actor t) now (gs_store g) = Ok (s', v).
Proof.
  intros Hok Hl _. unfold live_of, source_documents in Hl. destruct (read_manifest (pa_id t) (gs_store g)) as [v|] eqn:E; [|done].
  unfold mark_active. rewrite E. cbn [mbind result_bind]. destruct (vs_current (gs_store g)) as [previous|] eqn:Ec; cbn [mbind result_bind]; [|by eexists _, _].
  case_bool_decide; cbn [mbind result_bind]; [by eexists _, _|]. destruct (vo_current _ Hok _ Ec) as [p Hp].
  apply read_manifest_ok in Hp. rewrite Hp. cbn [mbind result_bind]. by eexists _, _.
Qed.

Lemma in_force_finish g task now : in_force g → versions_ok (gs_store g) → in_force (apply_finish task true now g).1.
Proof.
  intros Hf Hok. unfold apply_finish. destruct (gs_tasks g !! task) as [t|] eqn:Et; [|done].
  destruct (bool_decide (gs_lock g = Some task)) eqn:El; cbn [negb]; [|done]. apply bool_decide_eq_true in El.
  destruct (if_locked _ Hf _ El) as (t' & Ht' & Hlive). assert (t' = t) as -> by congruence.
  destruct (mark_active_defined g task t now Hok Hlive Et) as (s' & v & Hm). cbn [gs_store set_lock set_tasks]. rewrite Hm.
  apply in_force_log. destruct (store_move_ok disk _ _ _ Hok (MoveActivate disk _ _ _ _ _ _ Hm)) as [_ Hk].
  destruct (mark_active_done _ _ _ _ _ _ Hm Hok) as (w & _ & _ & Hc & _).
  split; cbn [gs_lock gs_tasks set_store gs_store gs_live set_lock set_tasks]; [done| |congruence].
  intros id _ Hid. assert (id = pa_id t) as -> by congruence. exact (live_of_kept _ g s' Hk Hlive).
Qed.

Lemma in_force_step g e : only_applies e → in_force g → versions_ok (gs_store g) → in_force (step g e).
Proof.
  intros He Hf Hok. destruct e as [p submitted description now|p id decision note now|task p id|task|task disposed now| | | |]; cbn [gov_step]; try done.
  - unfold stage. destruct (bootstrap disk now g) as [[g' active]|e] eqn:E; [|done].
    assert (Hf' := in_force_bootstrap _ _ _ _ Hf Hok E). apply bootstrap_quiet in E as (s' & _ & -> & Hq).
    destruct (quiet_moves_ok _ _ _ Hq Hok) as [Hok' _].
    destruct (candidate_errors _); [|by apply in_force_log]. apply in_force_log. apply in_force_kept; [done| |done].
    exact (proj2 (stage_move s' _ description (subject p) now Hok')).
  - unfold review. destruct (read_manifest id (gs_store g)) as [v|e] eqn:Er; [|done].
    destruct (add_approval _ _ _ _ _ _ _) as [[s' v']|e] eqn:Ea; [|destruct e; first [exact Hf|by apply in_force_log]]. apply in_force_log.
    destruct (review_move _ _ _ _ _ _ _ _ _ Hok Er Ea) as [_ Hk]. apply in_force_kept; [done|done|].
    by apply add_approval_done in Ea as (v0 & _ & _ & _ & _ & ->).
  - case_bool_decide as Hnew; [|done]. unfold apply_begin. destruct (read_manifest _ _); [|done].
    destruct (candidate_errors _); [|by apply in_force_log]. destruct (_ && _); [by apply in_force_log|].
    destruct Hf as [Hl Ha Hs]. split; [|exact Ha|exact Hs]. intros k Hk. destruct (Hl k Hk) as (t & Ht & Hv). exists t. split; [|done].
    cbn. rewrite lookup_insert_ne; [done|]. intros ->. congruence.
  - unfold apply_install. destruct (gs_tasks g !! task) as [t|] eqn:Et; [|done]. destruct (gs_lock g) as [|] eqn:El; [done|].
    assert (Hdel : in_force (set_tasks (delete task (gs_tasks g)) g)).
    { destruct Hf as [Hl Ha Hs]. split; [|exact Ha|exact Hs]. intros k Hk. cbn in Hk. congruence. }
    destruct (source_documents disk (FromVersion (pa_id t)) (gs_store g)) as [d|] eqn:Ed; [|done]. destruct (loads d); [|done].
    split; cbn [gs_lock gs_tasks gs_store gs_live set_lock set_live]; [|done..]. intros k [= <-]. exists t. by split.
  - cbn in He. subst disposed. by apply in_force_finish.
  - unfold lease_probe. by destruct Hf as [Hl Ha Hs].
Qed.

Lemma in_force_run events : Forall only_applies events → in_force (run events).
Proof.
  induction events as [|e events IH] using rev_ind; intros H; [by split|].
  rewrite gov_run_snoc. apply Forall_app in H as [H He]. apply in_force_step; [by apply Forall_singleton|by apply IH|apply gov_run_ok].
Qed.

(** ** Who reviewed *)

(** No review on record that was not there before. *)
Definition no_new_reviews (s s' : VersionStore) : Prop := ∀ id v' r, vs_versions s' !! id = Some (Some v') → r ∈ cv_approvals v' →
  ∃ v, vs_versions s !! id = Some (Some v) ∧ r ∈ cv_approvals v.

Lemma no_new_reviews_refl s : no_new_reviews s s.
Proof. intros id v r. eauto. Qed.

Lemma bootstrap_no_new now s s' v : bootstrap_if_empty disk now s = Ok (s', v) → no_new_reviews s s'.
Proof.
  intros H id v' r Hv' Hr. unfold bootstrap_if_empty in H. apply bind_ok in H as (active & _ & H).
  destruct active; injection H as <- _; [eauto|]. cbn [vs_versions] in Hv'.
  apply lookup_insert_Some in Hv' as [[_ [= <-]]|[_ Hv']]; [by apply not_elem_of_nil in Hr|eauto].
Qed.

Lemma stage_no_new docs description actor now s : no_new_reviews s (create_staged_version docs description actor now s).1.
Proof. intros id v' r [[_ ->]|[_ Hv']]%write_lookup Hr; [by apply not_elem_of_nil in Hr|eauto]. Qed.

Lemma activate_no_new id actor now s s' v : versions_ok s → mark_active id actor now s = Ok (s', v) → no_new_reviews s s'.
Proof.
  intros Hok H k v' r Hv' Hr. destruct (mark_active_done _ _ _ _ _ _ H Hok) as (w & Hw & Hv & _ & Hl).
  apply Hl in Hv' as [[-> ->]|[(_ & _ & p & Hp & ->)|(_ & _ & Hv')]]; [|eauto..]. rewrite Hv in Hr. eauto.
Qed.

Lemma review_new id approver decision fp note now s s' w k v' r : versions_ok s → add_approval id approver decision fp note now s = Ok (s', w) →
  vs_versions s' !! k = Some (Some v') → r ∈ cv_approvals v' →
  (∃ v, vs_versions s !! k = Some (Some v) ∧ r ∈ cv_approvals v) ∨ k = id ∧ r = MkApproval approver decision now fp note.
Proof.
  intros Hok H Hv' Hr. apply add_approval_done in H as (v & Hv & _ & _ & Hw & ->). apply read_manifest_ok in Hv.
  pose proof (vo_ids _ Hok _ _ Hv) as Hid. assert (Hwid : cv_id w = id) by (by rewrite Hw).
  apply write_lookup in Hv' as [[-> ->]|[_ Hv']]; [|left; eauto]. rewrite Hwid. rewrite Hw in Hr. cbn [cv_approvals with_approvals] in Hr.
  apply elem_of_app in Hr as [[Hr _]%elem_of_lfilter| ->%list_elem_of_singleton]; [left; eauto|by right].
Qed.

Lemma gov_step_reviews g e k v' r : versions_ok (gs_store g) → vs_versions (gs_store (step g e)) !! k = Some (Some v') → r ∈ cv_approvals v' →
  (∃ v, vs_versions (gs_store g) !! k = Some (Some v) ∧ r ∈ cv_approvals v)
  ∨ ∃ p note now, e = Review p k (ca_decision r) note now ∧ subject p = ca_approver r.
Proof.
  intros Hok Hv' Hr. destruct e as [p submitted description now|p id decision note now|task p id|task|task disposed now| | | |]; cbn [gov_step] in Hv'.
  - left. unfold stage in Hv'. destruct (bootstrap disk now g) as [[g' active]|e] eqn:E; [|eauto].
    apply bootstrap_quiet in E as (s' & Hb & -> & _). destruct (candidate_errors _).
    + apply (stage_no_new _ _ _ _ _ _ _ _ Hv') in Hr as (v1 & Hv1 & Hr). exact (bootstrap_no_new _ _ _ _ Hb _ _ _ Hv1 Hr).
    + exact (bootstrap_no_new _ _ _ _ Hb _ _ _ Hv' Hr).
  - unfold review in Hv'. destruct (read_manifest id (gs_store g)) as [v|e]; [|left; eauto].
    destruct (add_approval _ _ _ _ _ _ _) as [[s' w]|e] eqn:Ea; [|left; destruct e; eauto].
    destruct (review_new _ _ _ _ _ _ _ _ _ _ _ _ Hok Ea Hv' Hr) as [H|[-> ->]]; [by left|right]. by exists p, note, now.
  - left. case_bool_decide; [|eauto]. revert Hv'. unfold apply_begin. destruct (read_manifest _ _); [|eauto].
    destruct (candidate_errors _); [|eauto]. destruct (_ && _); eauto.
  - left. revert Hv'. unfold apply_install. destruct (gs_tasks g !! task); [|eauto].
    destruct (gs_lock g); [eauto|]. destruct (source_documents _ _ _) as [d|]; [destruct (loads d)|]; eauto.
  - left. unfold apply_finish in Hv'. destruct (gs_tasks g !! task) as [t|]; [|eauto].
    destruct (negb (bool_decide (gs_lock g = Some task))); [eauto|]. destruct (negb disposed); [eauto|].
    destruct (mark_active _ _ _ _) as [[s' w]|e] eqn:Em; [|eauto]. exact (activate_no_new _ _ _ _ _ _ Hok Em _ _ _ Hv' Hr).
  - left. revert Hv'. unfold reload_from_disk. destruct (gs_lock g); [eauto|]. destruct (loads disk); eauto.
  - left. eauto.
  - left. revert Hv'. unfold lease_reload. destruct (gs_probe g) as [src|]; [|eauto].
    destruct (gs_lock g); [eauto|]. cbn [gs_store set_probe]. destruct (source_documents _ _ _) as [d|]; [destruct (loads d)|]; eauto.
  - left. eauto.
Qed.

Lemma reviews_recorded events id v r : vs_versions (gs_store (run events)) !! id = Some (Some v) → r ∈ cv_approvals v →
  ∃ p note now, Review p id (ca_decision r) note now ∈ events ∧ subject p = ca_approver r.
Proof.
  revert v. induction events as [|e events IH] using rev_ind; intros v; [unfold gov_run; cbn; by rewrite lookup_empty|].
  rewrite gov_run_snoc. intros Hv Hr. destruct (gov_step_reviews _ _ _ _ _ (gov_run_ok events) Hv Hr) as [(w & Hw & Hr')|(p & note & now & -> & Hp)].
  - destruct (IH w Hw Hr') as (p & note & now & H & Hp). exists p, note, now. split; [|done]. apply elem_of_app. by left.
  - exists p, note, now. split; [|done]. apply elem_of_app. right. by apply list_elem_of_singleton.
Qed.

Lemma valid_approvers_recorded v r : reviews_ok v → r ∈ valid_approvers v →
  r ≠ cv_created_by v ∧ ∃ a, a ∈ cv_approvals v ∧ ca_approver a = r ∧ ca_decision a = Approves.
Proof.
  intros [_ Hrev]. unfold valid_approvers. rewrite elem_of_remove_dups, elem_of_map.
  intros (a & -> & [Ha Hd]%elem_of_lfilter). apply andb_true_iff in Hd as [Hd%bool_decide_eq_true _].
  split; [by apply Hrev|]. by exists a.
Qed.

(** ** The theorems *)

(** This version was reviewed: its application was asked for when the store had
    it with valid approvals, of these very contents, by at least the required
    number of people, all different and none its author, each of whom had sent
    one in. *)
Definition reviewed_version (events : list gov_event) (id : Z) (v : ConfigVersion) : Prop :=
  ∃ earlier task p later w, events = earlier ++ ApplyBegin task p id :: later
    ∧ vs_versions (gs_store (run earlier)) !! id = Some (Some w) ∧ same_content w v
    ∧ NoDup (valid_approvers w) ∧ required ≤ Z.of_nat (length (valid_approvers w))
    ∧ ∀ r, r ∈ valid_approvers w →
        r ≠ cv_created_by v ∧ ∃ q note now, Review q id Approves note now ∈ earlier ∧ subject q = r.

Definition cleared (events : list gov_event) (id : Z) (v : ConfigVersion) : Prop :=
  bootstrapped disk v ∨ reviewed_version events id v.

Lemma cleared_mono events e id v v' : cleared events id v → same_content v v' → cleared (events ++ [e]) id v'.
Proof.
  intros [[Hb Hd]|(earlier & task & p & later & w & -> & Hw & [Hwd Hwa] & Hnd & Hn & Hr)] [Hd' Ha']; [left; split; congruence|right].
  exists earlier, task, p, (later ++ [e]), w. rewrite <- app_assoc. split_and!; [done|done|split; congruence|done|done|].
  intros r Hin. destruct (Hr r Hin). split; [congruence|done].
Qed.

(** All that can come in force. *)
Record all_cleared (events : list gov_event) : Prop := {
  ac_versions id v : vs_versions (gs_store (run events)) !! id = Some (Some v) → cv_status v ≠ Staged → cleared events id v;
  ac_tasks k t : gs_tasks (run events) !! k = Some t →
    ∃ v, vs_versions (gs_store (run events)) !! pa_id t = Some (Some v) ∧ cleared events (pa_id t) v;
  ac_probe id : gs_probe (run events) = Some (FromVersion id) →
    ∃ v, vs_versions (gs_store (run events)) !! id = Some (Some v) ∧ cleared events id v;
  ac_live : gs_live (run events) = disk ∨ ∃ id v, vs_versions (gs_store (run events)) !! id = Some (Some v)
    ∧ gs_live (run events) = installed disk (cv_documents v) ∧ cleared events id v;
}.

Lemma source_version id s d : source_documents disk (FromVersion id) s = Some d →
  ∃ v, vs_versions s !! id = Some (Some v) ∧ d = installed disk (cv_documents v).
Proof.
  unfold source_documents. destruct (read_manifest id s) as [v|] eqn:E; [|done]. apply read_manifest_ok in E.
  intros [= <-]. by exists v.
Qed.

(** What a step can put in force, and what a probe can name. *)
Lemma gov_step_live g e :
  gs_live (step g e) = gs_live g ∨ gs_live (step g e) = disk
  ∨ (∃ k t, gs_tasks g !! k = Some t ∧ source_documents disk (FromVersion (pa_id t)) (gs_store g) = Some (gs_live (step g e)))
  ∨ ∃ src, gs_probe g = Some src ∧ source_documents disk src (gs_store g) = Some (gs_live (step g e)).
Proof.
  destruct e as [p submitted description now|p id decision note now|task p id|task|task disposed now| | | |]; cbn [gov_step].
  - left. unfold stage. destruct (bootstrap disk now g) as [[g' active]|e] eqn:E; [|done].
    apply bootstrap_quiet in E as (s' & _ & -> & _). by destruct (candidate_errors _).
  - left. unfold review. destruct (read_manifest id (gs_store g)); [|done].
    destruct (add_approval _ _ _ _ _ _ _) as [[s' v']|e]; [done|]. by destruct e.
  - left. case_bool_decide; [|done]. unfold apply_begin. destruct (read_manifest _ _); [|done].
    destruct (candidate_errors _); [|done]. by destruct (_ && _).
  - unfold apply_install. destruct (gs_tasks g !! task) as [t|] eqn:Et; [|by left]. destruct (gs_lock g); [by left|].
    destruct (source_documents disk (FromVersion (pa_id t)) (gs_store g)) as [d|] eqn:Ed; [|by left].
    destruct (loads d); [|by left]. right; right; left. by exists task, t.
  - left. unfold apply_finish. destruct (gs_tasks g !! task); [|done]. destruct (negb (bool_decide (gs_lock g = Some task))); [done|].
    destruct (negb disposed); [done|]. by destruct (mark_active _ _ _ _) as [[s' v]|e].
  - unfold reload_from_disk. destruct (gs_lock g); [by left|]. destruct (loads disk); [right; by left|by left].
  - by left.
  - unfold lease_reload. destruct (gs_probe g) as [src|] eqn:Ep; [|by left]. destruct (gs_lock g); [by left|]. cbn [gs_store set_probe].
    destruct (source_documents disk src (gs_store g)) as [d|] eqn:Ed; [|by left]. destruct (loads d); [|by left].
    right; right; right. by exists src.
  - right; by left.
Qed.

Lemma gov_step_probe g e src : gs_probe (step g e) = Some src →
  gs_probe g = Some src ∨ e = LeaseProbe ∧ src = current_source (gs_store g).
Proof.
  destruct e as [p submitted description now|p id decision note now|task p id|task|task disposed now| | | |]; cbn [gov_step].
  - unfold stage. destruct (bootstrap disk now g) as [[g' active]|e] eqn:E; [|by left].
    apply bootstrap_quiet in E as (s' & _ & -> & _). destruct (candidate_errors _); by left.
  - unfold review. destruct (read_manifest id (gs_store g)); [|by left].
    destruct (add_approval _ _ _ _ _ _ _) as [[s' v']|e]; [by left|]. destruct e; by left.
  - case_bool_decide; [|by left]. unfold apply_begin. destruct (read_manifest _ _); [|by left].
    destruct (candidate_errors _); [|by left]. destruct (_ && _); by left.
  - unfold apply_install. destruct (gs_tasks g !! task); [|by left]. destruct (gs_lock g); [by left|].
    destruct (source_documents _ _ _) as [d|]; [destruct (loads d)|]; by left.
  - unfold apply_finish. destruct (gs_tasks g !! task); [|by left]. destruct (negb (bool_decide (gs_lock g = Some task))); [by left|].
    destruct (negb disposed); [by left|]. destruct (mark_active _ _ _ _) as [[s' v]|e]; by left.
  - unfold reload_from_disk. destruct (gs_lock g); [by left|]. destruct (loads disk); by left.
  - intros [= <-]. by right.
  - unfold lease_reload. destruct (gs_probe g) as [src'|] eqn:Ep; [|intros H; rewrite Ep in H; by left].
    destruct (gs_lock g); [rewrite Ep; by left|]. cbn [gs_store set_probe].
    destruct (source_documents _ _ _) as [d|]; [destruct (loads d)|]; by intros [=].
  - done.
Qed.

Lemma fit_cleared events e task p id w : all_cleared events → e = ApplyBegin task p id →
  vs_versions (gs_store (run events)) !! id = Some (Some w) → fit_to_apply w → cleared (events ++ [e]) id w.
Proof.
  intros Hc -> Hw [Hi|Hn].
  - eapply cleared_mono; [apply (ac_versions _ Hc _ _ Hw); by rewrite Hi|done].
  - right. exists events, task, p, [], w. split_and!; [done|done|done|apply NoDup_remove_dups|exact Hn|].
    intros r Hr. destruct (valid_approvers_recorded w r (vo_reviews _ (gov_run_ok events) _ _ Hw) Hr) as (Hne & a & Ha & <- & Hd).
    split; [done|]. rewrite <-Hd. by eapply reviews_recorded.
Qed.

Lemma step_cleared events e : all_cleared events → all_cleared (events ++ [e]).
Proof.
  intros Hc. pose proof (gov_run_ok events) as Hok. destruct (gov_step_ok (run events) e Hok) as [_ Hkept].
  assert (Hlater : ∀ id v, vs_versions (gs_store (run events)) !! id = Some (Some v) → cleared events id v →
    ∃ v', vs_versions (gs_store (step (run events) e)) !! id = Some (Some v') ∧ cv_documents v' = cv_documents v
      ∧ cleared (events ++ [e]) id v').
  { intros id v Hv Hcl. destruct (Hkept _ _ Hv) as (v' & Hv' & Hd & Ha & _). exists v'. split_and!; [done|done|].
    by eapply cleared_mono. }
  split; rewrite ?gov_run_snoc.
  - intros id v' Hv' Hst. destruct (gov_step_effect (run events) e) as [Hq|task now t He Ht Hm].
    + destruct (quiet_origin _ _ _ _ _ Hq Hok Hv' Hst) as [(v & Hv & Hsame & Hs)|?]; [|by left].
      eapply cleared_mono; [by eapply ac_versions|done].
    + destruct (in_force_origin _ _ _ _ _ _ Hok Hm Hv' Hst) as [(v & Hv & Hsame & [Hs|[= Hid]])|?]; [| |by left].
      * eapply cleared_mono; [by eapply ac_versions|done].
      * destruct (ac_tasks _ Hc _ _ Ht) as (w & Hw & Hcl). rewrite Hid in Hw, Hcl. assert (w = v) as -> by congruence.
        by eapply cleared_mono.
  - intros k t Ht. destruct (gov_step_tasks _ _ _ _ Ht) as [Hold|(task & p & w & He & Hw & Hf & Hsame)].
    + destruct (ac_tasks _ Hc _ _ Hold) as (v & Hv & Hcl). destruct (Hlater _ _ Hv Hcl) as (v' & ? & _ & ?). by exists v'.
    + exists w. rewrite Hsame. split; [done|]. by eapply fit_cleared.
  - intros id Hp. assert (∃ v, vs_versions (gs_store (run events)) !! id = Some (Some v) ∧ cleared events id v) as (v & Hv & Hcl).
    { destruct (gov_step_probe _ _ _ Hp) as [Hold|[_ Hsrc]]; [by apply (ac_probe _ Hc)|].
      unfold current_source in Hsrc. destruct (vs_current (gs_store (run events))) as [cur|] eqn:Ecur; [|done]. injection Hsrc as ->.
      destruct (vo_current _ Hok _ Ecur) as [v Hv]. exists v. split; [done|]. apply (ac_versions _ Hc _ _ Hv).
      apply (vo_active _ Hok _ _ Hv) in Ecur. by rewrite Ecur. }
    destruct (Hlater _ _ Hv Hcl) as (v' & ? & _ & ?). by exists v'.
  - assert (Hfrom : ∀ id v, vs_versions (gs_store (run events)) !! id = Some (Some v) → cleared events id v →
      gs_live (step (run events) e) = installed disk (cv_documents v) →
      ∃ id v, vs_versions (gs_store (step (run events) e)) !! id = Some (Some v)
        ∧ gs_live (step (run events) e) = installed disk (cv_documents v) ∧ cleared (events ++ [e]) id v).
    { intros id v Hv Hcl Hlive. destruct (Hlater _ _ Hv Hcl) as (v' & Hv' & Hd & Hcl'). exists id, v'. by rewrite Hd. }
    destruct (gov_step_live (run events) e) as [Hl|[Hl|[(k & t & Ht & Hsrc)|(src & Hp & Hsrc)]]].
    + destruct (ac_live _ Hc) as [Hd|(id & v & Hv & Hlive & Hcl)]; [left; congruence|right].
      apply (Hfrom id v Hv Hcl). congruence.
    + by left.
    + right. destruct (source_version _ _ _ Hsrc) as (v & Hv & Hlive). destruct (ac_tasks _ Hc _ _ Ht) as (w & Hw & Hcl).
      assert (w = v) as -> by congruence. by apply (Hfrom _ v Hv Hcl).
    + destruct src as [|id]; [left; by injection Hsrc|right]. destruct (source_version _ _ _ Hsrc) as (v & Hv & Hlive).
      destruct (ac_probe _ Hc _ Hp) as (w & Hw & Hcl). assert (w = v) as -> by congruence. by apply (Hfrom _ v Hv Hcl).
Qed.

Lemma run_cleared events : all_cleared events.
Proof.
  induction events as [|e events IH] using rev_ind; [|by apply step_cleared].
  split; [|done|done|by left]. intros id v. unfold gov_run. cbn. by rewrite lookup_empty.
Qed.

(** C32. Nothing comes in force unreviewed. However stagings, reviews,
    applications, reloads, lease refreshes and restarts interleave, and whatever
    of them fails half-way, the documents in force are the deployment's own or
    those of a reviewed version: when its application was asked for, at least the
    required number of people, all different and none its author, had sent in
    approvals of these very contents that stood. And a version that has left the
    staged state is the deployment's first or was reviewed so. *)
Theorem applied_after_review events :
  let g := run events in
  (gs_live g = disk
   ∨ ∃ id v, vs_versions (gs_store g) !! id = Some (Some v) ∧ gs_live g = installed disk (cv_documents v)
       ∧ reviewed_version events id v)
  ∧ ∀ id v, vs_versions (gs_store g) !! id = Some (Some v) → cv_status v ≠ Staged →
      bootstrapped disk v ∨ reviewed_version events id v.
Proof.
  intros g. pose proof (run_cleared events) as Hc. split; [|exact (ac_versions _ Hc)].
  destruct (ac_live _ Hc) as [?|(id & v & Hv & Hlive & [[_ Hd]|Hr])]; [by left| |right; by exists id, v].
  left. unfold g. by rewrite Hlive, Hd, installed_disk.
Qed.

(** However operations interleave, exactly the version the pointer names is active;
    what a version holds and who wrote it never change, and once it has been in
    force it is never again open to review. *)
Theorem versions_stand (events later : list gov_event) id v : vs_versions (gs_store (run events)) !! id = Some (Some v) →
  (cv_status v = Active ↔ vs_current (gs_store (run events)) = Some id) ∧
  ∃ v', vs_versions (gs_store (run (events ++ later))) !! id = Some (Some v')
    ∧ cv_documents v' = cv_documents v ∧ cv_created_by v' = cv_created_by v ∧ (cv_status v ≠ Staged → cv_status v' ≠ Staged).
Proof. intros Hv. split; [by apply vo_active; [apply gov_run_ok|]|]. by apply gov_run_kept. Qed.

(** While documents only reach the process through applications whose engines are
    disposed of, what is in force between two applications is the active version. *)
Theorem live_is_active events : Forall only_applies events → gs_lock (run events) = None →
  match vs_current (gs_store (run events)) with
  | None => gs_live (run events) = disk
  | Some id => ∃ v, vs_versions (gs_store (run events)) !! id = Some (Some v) ∧ gs_live (run events) = installed disk (cv_documents v)
  end.
Proof.
  intros H Hl. pose proof (in_force_run events H) as [_ Ha Hs]. destruct (vs_current (gs_store (run events))) as [id|]; [|by apply Hs].
  specialize (Ha id Hl eq_refl). unfold live_of, source_documents in Ha.
  destruct (read_manifest id (gs_store (run events))) as [v|] eqn:E; [|done]. exists v. apply read_manifest_ok in E. split; [done|congruence].
Qed.
End runs.

(** * Contents and their text *)

Lemma app_same_length (a b x y : string) : String.length a = String.length b → a +:+ x = b +:+ y → a = b ∧ x = y.
Proof.
  revert b. induction a as [|c a IH]; intros [|d b] Hl H; try done. injection H as <- H. injection Hl as Hl.
  destruct (IH b Hl H) as [-> ->]. done.
Qed.

Lemma frame_splits a b x y : frame_document a +:+ x = frame_document b +:+ y → a = b ∧ x = y.
Proof.
  destruct a as [a|], b as [b|]; cbn [frame_document]; intros H; try done.
  - injection H as H. rewrite <-!string_app_assoc in H. cbn in H. apply split_first in H as [Hl H].
    + apply (inj pretty) in Hl. apply app_same_length in H as [-> ->]; [done|]. lia.
    + eapply string_forall_impl; [|apply pretty_Z_decimal]. intros c Hc. apply bool_decide_eq_true. by intros ->.
    + eapply string_forall_impl; [|apply pretty_Z_decimal]. intros c Hc. apply bool_decide_eq_true. by intros ->.
  - by injection H.
Qed.

(** The text that is fingerprinted tells any two sets of documents apart, whatever
    the documents hold, a missing one from an empty one included. *)
Theorem version_text_injective d d' : version_text d = version_text d' → d = d'.
Proof.
  destruct d as [c p k t], d' as [c' p' k' t']. unfold version_text. cbn [dc_connections dc_policy dc_catalog dc_templates].
  intros H. apply frame_splits in H as [[= ->] H]. apply frame_splits in H as [[= ->] H]. apply frame_splits in H as [-> H].
  rewrite <-(string_app_nil_r (frame_document t)), <-(string_app_nil_r (frame_document t')) in H.
  by apply frame_splits in H as [-> _].
Qed.

(** ** Versions without a manifest *)

Lemma read_all_torn ids id s : id ∈ ids → vs_versions s !! id = Some None → ∃ e, read_all ids s = Raise e.
Proof.
  intros Hin Ht. induction ids as [|k ids IH]; [by apply not_elem_of_nil in Hin|]. cbn [read_all].
  destruct (read_manifest k s) as [v|e] eqn:E; cbn [mbind result_bind]; [|by eexists].
  apply elem_of_cons in Hin as [->|Hin]; [unfold read_manifest in E; by rewrite Ht in E|].
  destruct (IH Hin) as [e ->]. by exists e.
Qed.

(** A process that dies between writing the contents of a version and its manifest
    leaves a directory no listing gets past, then or after more versions. *)
Theorem torn_version_blocks_listing s id : vs_versions s !! id = Some None →
  (∃ e, list_versions s = Raise e) ∧
  ∀ docs description actor now, ∃ e, list_versions (create_staged_version docs description actor now s).1 = Raise e.
Proof.
  assert (H : ∀ t, vs_versions t !! id = Some None → ∃ e, list_versions t = Raise e).
  { intros t Ht. unfold list_versions. destruct (read_all_torn (map fst (map_to_list (vs_versions t))) id t) as [e He]; [|done|].
    - apply elem_of_map. exists (id, None). split; [done|]. by apply elem_of_map_to_list.
    - rewrite He. by exists e. }
  intros Ht. split; [by apply H|]. intros docs description actor now. apply H.
  cbn [create_staged_version fst write_manifest vs_versions cv_id]. rewrite lookup_insert_ne; [done|]. intros <-. by rewrite next_id_new in Ht.
Qed.

(** * A sample deployment *)

#[local] Existing Instances sample_digest.
#[local] Instance sample_loaders : ConfigLoaders :=
  {| candidate_errors d := if bool_decide (dc_policy d = "") then ["policy: empty"] else []; loads d := negb (bool_decide (dc_policy d = "")) |}.

Definition lax_files : Documents := MkDocuments "main" "lax" None None.
Definition strict_version : Documents := MkDocuments "main" "strict" None None.
Definition person (name : string) : Principal := MkPrincipal name ∅ [] "session" None.

(** Ann proposes a stricter policy, Bob approves it. *)
Definition reviewed : list gov_event :=
  [Stage (person "ann") (MkSubmitted None (Some "strict") None None) None 1; Review (person "bob") 2 Approves None 2].
Definition taken_up : list gov_event := reviewed ++ [ApplyBegin 0 (person "ann") 2; ApplyInstall 0].
Definition applied : list gov_event := taken_up ++ [ApplyFinish 0 true 5].

Definition waiting_version : ConfigVersion := MkVersion 2 Staged 1 "ann" None [MkApproval "bob" Approves 2 (version_fingerprint strict_version) None]
  strict_version None None None.

(** The version in force is the one Bob approved. *)
Lemma applied_after_review_witness :
  gs_live (gov_run 1 lax_files applied) = strict_version
  ∧ ∃ id v, cv_documents v = strict_version ∧ reviewed_version 1 lax_files applied id v.
Proof.
  assert (Hs : gs_live (gov_run 1 lax_files applied) = strict_version) by (vm_compute; reflexivity).
  split; [exact Hs|].
  assert (Hv : vs_versions (gs_store (gov_run 1 lax_files applied)) !! 2
    = Some (Some (activated 5 "ann" (Some 1) waiting_version))) by (vm_compute; reflexivity).
  destruct (applied_after_review 1 lax_files applied) as [_ H].
  destruct (H _ _ Hv) as [[Hb _]|Hr]; [clear; discriminate 1|clear -Hb; discriminate Hb|].
  exists 2, (activated 5 "ann" (Some 1) waiting_version). split; [reflexivity|exact Hr].
Defined.

Lemma versions_stand_witness :
  cv_status waiting_version = Active ↔ vs_current (gs_store (gov_run 1 lax_files taken_up)) = Some 2.
Proof.
  refine (proj1 (versions_stand 1 lax_files taken_up [] 2 waiting_version _)). vm_compute. reflexivity.
Defined.

Lemma live_is_active_witness : gs_live (gov_run 1 lax_files applied) = strict_version.
Proof.
  assert (Hl : gs_lock (gov_run 1 lax_files applied) = None) by (vm_compute; reflexivity).
  pose proof (live_is_active 1 lax_files applied ltac:(repeat constructor) Hl) as H. clear Hl.
  assert (E : vs_current (gs_store (gov_run 1 lax_files applied)) = Some 2) by (vm_compute; reflexivity).
  rewrite E in H. destruct H as (v & Hv & ->). assert (Some (Some v) = Some (Some (activated 5 "ann" (Some 1) waiting_version))) as [= ->]; [|done].
  rewrite <-Hv. vm_compute. reflexivity.
Defined.

Lemma version_text_injective_witness : lax_files = lax_files.
Proof. exact (version_text_injective lax_files lax_files eq_refl). Defined.

(** A probe of the lease monitor that ran before an application names the version
    that was active then; its reload puts that version back in force, and the
    stricter one goes on being the active one. *)
Theorem lease_reload_reverts_application :
  let g := gov_run 1 lax_files (reviewed ++ [LeaseProbe; ApplyBegin 0 (person "ann") 2; ApplyInstall 0; ApplyFinish 0 true 5; LeaseReload]) in
  gs_live (gov_run 1 lax_files applied) = strict_version ∧ vs_current (gs_store g) = Some 2 ∧ gs_live g = lax_files.
Proof. vm_compute. repeat split. Qed.

(** When an engine cannot be disposed of, the documents are in force all the same:
    the version stays staged, the one before stays active and nothing is audited. *)
Theorem failed_disposal_leaves_documents :
  let g := gov_run 1 lax_files (taken_up ++ [ApplyFinish 0 false 5]) in
  gs_live g = strict_version ∧ vs_current (gs_store g) = Some 1 ∧ gs_lock g = None
  ∧ map au_action (gs_audit g) = ["stage"; "approve"].
Proof. vm_compute. repeat split. Qed.

(** After a restart the deployment's own files are in force while the pointer still
    names the applied version. *)
Theorem restart_reverts_application :
  let g := gov_run 1 lax_files (applied ++ [Restart]) in gs_live g = lax_files ∧ vs_current (gs_store g) = Some 2.
Proof. vm_compute. repeat split. Qed.

(** The first version of a deployment, once another one has been staged, cannot be
    applied again for want of reviews, though it is the active one. *)
Theorem active_version_cannot_be_reapplied :
  (apply_begin 1 0 (person "ann") 1 (gov_run 1 lax_files reviewed)).2 = Raise (PolicyViolationError "required approvals").
Proof. vm_compute. reflexivity. Qed.
