(* ===== verification/ConfigDrafts.v ===== *)
(** Changes to the configuration before they are staged: the dry run and the preview,
    change sets carried from one deployment to another, and the drafts kept encrypted
    on the server ([admin/service.py], [admin/draft_store.py]). Shown: what a check
    says of a change set is what staging it does, a preview tells a caller who may not
    read nothing of what is in force, and a draft is given only to who saved it. *)
From Stdlib Require Import Ascii.
From stdpp Require Import pretty sorting.
From S2P Require Export ConfigGovernance.
Local Open Scope Z_scope.

(** * Dry runs *)

Inductive Document := ConnectionsDoc | PolicyDoc | CatalogDoc | TemplatesDoc.
#[export] Instance document_eq_dec : EqDecision Document.
Proof. solve_decision. Defined.

Definition _DOCUMENT_ORDER : list Document := [ConnectionsDoc; PolicyDoc; CatalogDoc; TemplatesDoc].

Definition document_of (d : Documents) (x : Document) : option string :=
  match x with
  | ConnectionsDoc => Some (dc_connections d) | PolicyDoc => Some (dc_policy d)
  | CatalogDoc => dc_catalog d | TemplatesDoc => dc_templates d
  end.
Definition submitted_of (s : Submitted) (x : Document) : option string :=
  match x with
  | ConnectionsDoc => sb_connections s | PolicyDoc => sb_policy s | CatalogDoc => sb_catalog s | TemplatesDoc => sb_templates s
  end.

Inductive Change := Changed | Unchanged | SubmittedDoc | Inherited.
#[export] Instance change_eq_dec : EqDecision Change.
Proof. solve_decision. Defined.

Record ConfigPreview := MkPreview {
  cp_valid : bool;
  cp_errors : list string;
  cp_documents : list (Document * Change);
  cp_ready_to_stage : bool;
}.

(** A change set; its documents are those of the four names that it has. *)
Record ConfigChangeSetBundle := MkBundle {
  cb_base_version_id : option Z;
  cb_base_fingerprint : option string;
  cb_created_at : Z;
  cb_description : option string;
  cb_documents : Submitted;
}.
Definition contains_connections (b : ConfigChangeSetBundle) : bool := bool_decide (is_Some (sb_connections (cb_documents b))).

Inductive ImportWarning := NoBaseFingerprint | ActiveVersionChanged | HasConnections.

Record ConfigChangeSetImportCheck := MkImportCheck {
  ic_valid : bool;
  ic_errors : list string;
  ic_documents : list (Document * Change);
  ic_stale_base : bool;
  ic_base_conflict_documents : list Document;
  ic_contains_connections : bool;
  ic_ready_to_stage : bool;
  ic_warnings : list ImportWarning;
}.


Section checks.
Context `{DG : Digest} `{CL : ConfigLoaders} (disk : Documents) (config_bundle_max_bytes : Z).

Definition outcome_of (errors : list string) : string := if is_nil errors then "success" else "rejected".
Definition category_of (errors : list string) : option string := if is_nil errors then None else Some "validation".

(** [validate], for a caller who is audited. *)
Definition validate (p : Principal) (s : Submitted) (now : Z) (g : GovState) : GovState * result (list string) :=
  match bootstrap disk now g with
  | Raise e => (g, Raise e)
  | Ok (g, active) =>
      let errors := candidate_errors (inherit s (cv_documents active)) in
      (log_as p "validate" (outcome_of errors) None None (category_of errors) g, Ok errors)
  end.

Definition change (can_compare : bool) (submitted resolved active : option string) : Change :=
  if negb can_compare then if bool_decide (is_Some submitted) then SubmittedDoc else Inherited
  else if bool_decide (resolved = active) then Unchanged else Changed.

Definition preview (p : Principal) (s : Submitted) (now : Z) (g : GovState) : GovState * result ConfigPreview :=
  match bootstrap disk now g with
  | Raise e => (g, Raise e)
  | Ok (g, active) =>
      let resolved := inherit s (cv_documents active) in
      let errors := candidate_errors resolved in
      let can_compare := bool_decide (ADMIN_CONFIG_READ_SCOPE ∈ scopes p) in
      let documents := map (λ x, (x, change can_compare (submitted_of s x) (document_of resolved x) (document_of (cv_documents active) x)))
                         _DOCUMENT_ORDER in
      (log_as p "preview" (outcome_of errors) None None (category_of errors) g,
       Ok (MkPreview (is_nil errors) errors documents
             (is_nil errors && existsb (λ '(_, c), bool_decide (c = Changed) || bool_decide (c = SubmittedDoc)) documents)))
  end.

(** * Change sets *)

Definition export_change_set (p : Principal) (s : Submitted) (description : option string) (now : Z) (g : GovState) :
  GovState * result ConfigChangeSetBundle :=
  match bootstrap disk now g with
  | Raise e => (g, Raise e)
  | Ok (g, active) =>
      (log_as p "export" "success" (Some (cv_id active)) None None g,
       Ok (MkBundle (Some (cv_id active)) (Some (version_fingerprint (cv_documents active))) now description s))
  end.

Definition total_bytes (s : Submitted) : Z :=
  Z.of_nat (sum_list_with (λ x, default 0%nat (String.length <$> submitted_of s x)) _DOCUMENT_ORDER).

Definition base_conflicts (b : ConfigChangeSetBundle) (active : ConfigVersion) (st : VersionStore) : list Document :=
  match cb_base_version_id b with
  | Some id =>
      match read_manifest id st with
      | Ok base => List.filter (λ x, negb (bool_decide (document_of (cv_documents base) x = document_of (cv_documents active) x))) _DOCUMENT_ORDER
      | Raise _ => []
      end
  | None => []
  end.

Definition import_change_set (p : Principal) (b : ConfigChangeSetBundle) (now : Z) (g : GovState) :
  GovState * result ConfigChangeSetImportCheck :=
  match bootstrap disk now g with
  | Raise e => (g, Raise e)
  | Ok (g, active) =>
      let s := cb_documents b in
      let errors := if config_bundle_max_bytes <? total_bytes s then ["change set is too large"]
                    else candidate_errors (inherit s (cv_documents active)) in
      let '(stale, conflicts, warnings) :=
        match cb_base_fingerprint b with
        | None => (false, [], [NoBaseFingerprint])
        | Some f => if bool_decide (f = version_fingerprint (cv_documents active)) then (false, [], [])
                    else (true, base_conflicts b active (gs_store g), [ActiveVersionChanged])
        end in
      let documents := map (λ x, (x, if bool_decide (is_Some (submitted_of s x)) then SubmittedDoc else Inherited)) _DOCUMENT_ORDER in
      (log_as p "import" (outcome_of errors) (cb_base_version_id b) None (category_of errors) g,
       Ok (MkImportCheck (is_nil errors) errors documents stale conflicts (contains_connections b)
             (is_nil errors && existsb (λ x, bool_decide (is_Some (submitted_of s x))) _DOCUMENT_ORDER)
             (warnings ++ if contains_connections b then [HasConnections] else [])))
  end.
End checks.

(** * [DraftStore] *)

(** A manifest the store can read, with the times its texts give, if they give any. *)
Record DraftManifest := MkManifest {
  dm_id : string;
  dm_principal_id : string;
  dm_description : option string;
  dm_created_at : option Z;
  dm_expires_at : option Z;
  dm_contains_connections : bool;
}.

(** The files of a draft: a manifest that reads as nothing is [Some None]. *)
Record DraftDir := MkDraftDir { dd_manifest : option (option DraftManifest); dd_bundle : option string }.
Notation DraftFiles := (gmap string DraftDir).

Record DraftSummary := MkSummary {
  ds_id : string;
  ds_description : option string;
  ds_created_at : Z;
  ds_expires_at : Z;
  ds_contains_connections : bool;
}.

(** The cipher of the [cryptography] package and the JSON of a bundle. *)
Class DraftCodec := {
  fernet_encrypt : string → Z → string → string;
  fernet_decrypt : string → string → option string;
  bundle_json : ConfigChangeSetBundle → string;
  bundle_of_json : string → option ConfigChangeSetBundle;
  fernet_round_trip key nonce text : fernet_decrypt key (fernet_encrypt key nonce text) = Some text;
  bundle_round_trip b : bundle_of_json (bundle_json b) = Some b;
}.

Definition unknown_draft (id : string) : exn := NotFoundError ("Unknown draft: '" +:+ id +:+ "'").
Definition invalid_isoformat : exn := ValueError "Invalid isoformat string".
Definition fromisoformat (o : option Z) : result Z := match o with Some t => Ok t | None => Raise invalid_isoformat end.

Definition all_draft_ids (f : DraftFiles) : list string :=
  map fst (List.filter (λ '(_, d), bool_decide (is_Some (dd_manifest d))) (map_to_list f)).

Definition read_manifest_raw (id : string) (f : DraftFiles) : option DraftManifest := f !! id ≫= λ d, mjoin (dd_manifest d).

(** [_prune_expired]; what it removed before it raised is gone. *)
Fixpoint prune_ids (ids : list string) (now : Z) (f : DraftFiles) : DraftFiles * result unit :=
  match ids with
  | [] => (f, Ok tt)
  | id :: ids =>
      match read_manifest_raw id f with
      | None => prune_ids ids now f
      | Some m =>
          match fromisoformat (dm_expires_at m) with
          | Raise e => (f, Raise e)
          | Ok expires => prune_ids ids now (if expires <=? now then delete id f else f)
          end
      end
  end.
Definition prune_expired (now : Z) (f : DraftFiles) : DraftFiles * result unit := prune_ids (all_draft_ids f) now f.

Definition owned_manifest (id principal_id : string) (now : Z) (f : DraftFiles) : result DraftManifest :=
  match read_manifest_raw id f with
  | None => Raise (unknown_draft id)
  | Some m =>
      fromisoformat (dm_expires_at m) ≫= λ expires,
      if (expires <=? now) || negb (bool_decide (dm_principal_id m = principal_id)) then Raise (unknown_draft id) else Ok m
  end.

Definition summary (m : DraftManifest) : result DraftSummary :=
  fromisoformat (dm_created_at m) ≫= λ created, fromisoformat (dm_expires_at m) ≫= λ expires,
  Ok (MkSummary (dm_id m) (dm_description m) created expires (dm_contains_connections m)).

Definition owned_by (principal_id : string) (f : DraftFiles) : list DraftManifest :=
  List.filter (λ m, bool_decide (dm_principal_id m = principal_id)) (omap (λ id, read_manifest_raw id f) (all_draft_ids f)).

(** Newest first, and of one age as they were found. *)
Definition newer (a b : DraftSummary) : Prop := ds_created_at b ≤ ds_created_at a.
#[export] Instance newer_dec a b : Decision (newer a b).
Proof. unfold newer. apply _. Defined.

Fixpoint summaries (l : list DraftManifest) : result (list DraftSummary) :=
  match l with [] => Ok [] | m :: l => summary m ≫= λ s, summaries l ≫= λ ss, Ok (s :: ss) end.

Section drafts.
Context `{DG : Digest} `{DC : DraftCodec} (encryption_key : string).

(** [_derive_fernet]: the digest names the key. *)
Definition derive_fernet : string := sha256_hexdigest encryption_key.

(** [save]; the name is the one [uuid4] gives, and the nonce is the cipher's. *)
Definition save (principal_id : string) (b : ConfigChangeSetBundle) (description : option string) (retention max_drafts : Z)
  (now : Z) (draft_id : string) (nonce : Z) (f : DraftFiles) : DraftFiles * result DraftSummary :=
  match prune_expired now f with
  | (f, Raise e) => (f, Raise e)
  | (f, Ok _) =>
      if max_drafts <=? Z.of_nat (length (owned_by principal_id f))
      then (f, Raise (ConfigValidationError "you already have as many saved drafts as the limit allows"))
      else
        let m := MkManifest draft_id principal_id description (Some now) (Some (now + retention)) (contains_connections b) in
        (<[draft_id := MkDraftDir (Some (Some m)) (Some (fernet_encrypt derive_fernet nonce (bundle_json b)))]> f, summary m)
  end.

Definition list_for_principal (principal_id : string) (now : Z) (f : DraftFiles) : DraftFiles * result (list DraftSummary) :=
  match prune_expired now f with
  | (f, Raise e) => (f, Raise e)
  | (f, Ok _) => (f, summaries (owned_by principal_id f) ≫= λ l, Ok (merge_sort newer l))
  end.

Definition load (id principal_id : string) (now : Z) (f : DraftFiles) : result ConfigChangeSetBundle :=
  owned_manifest id principal_id now f ≫= λ _,
  match f !! id ≫= dd_bundle with
  | None => Raise (unknown_draft id)
  | Some encrypted =>
      match fernet_decrypt derive_fernet encrypted with
      | None => Raise (unknown_draft id)
      | Some text => match bundle_of_json text with Some b => Ok b | None => Raise (BuiltinError "ValidationError") end
      end
  end.

Definition delete_draft_files (id principal_id : string) (now : Z) (f : DraftFiles) : DraftFiles * result unit :=
  match owned_manifest id principal_id now f with Raise e => (f, Raise e) | Ok _ => (delete id f, Ok tt) end.
End drafts.

(** ** The service over it *)

Section draft_service.
Context `{DG : Digest} `{DC : DraftCodec} (encryption_key : string) (retention max_drafts : Z).

Definition ServiceDisabledError : exn := BuiltinError "ServiceDisabledError".
Definition enabled : bool := negb (bool_decide (encryption_key = "")).

Definition log_draft (p : Principal) (action outcome : string) (draft : option string) (error : option string) : GovState → GovState :=
  log_change (MkConfigAudit action outcome (subject p) None None draft error).
Definition is_config_validation (e : exn) : bool := match e with ConfigValidationError _ => true | _ => false end.
Definition is_not_found (e : exn) : bool := match e with NotFoundError _ => true | _ => false end.

Definition save_draft (p : Principal) (b : ConfigChangeSetBundle) (now : Z) (draft_id : string) (nonce : Z) (g : GovState) (f : DraftFiles) :
  GovState * DraftFiles * result DraftSummary :=
  if negb enabled then (g, f, Raise ServiceDisabledError) else
  match save encryption_key (subject p) b (cb_description b) retention max_drafts now draft_id nonce f with
  | (f, Raise e) => (if is_config_validation e then log_draft p "save_draft" "rejected" None (Some "validation") g else g, f, Raise e)
  | (f, Ok s) => (log_draft p "save_draft" "success" (Some (ds_id s)) None g, f, Ok s)
  end.

Definition list_my_drafts (p : Principal) (now : Z) (f : DraftFiles) : DraftFiles * result (list DraftSummary) :=
  if negb enabled then (f, Raise ServiceDisabledError) else list_for_principal (subject p) now f.

Definition load_draft (p : Principal) (id : string) (now : Z) (g : GovState) (f : DraftFiles) : GovState * result ConfigChangeSetBundle :=
  if negb enabled then (g, Raise ServiceDisabledError) else
  match load encryption_key id (subject p) now f with
  | Raise e => (if is_not_found e then log_draft p "load_draft" "rejected" (Some id) (Some "not_found") g else g, Raise e)
  | Ok b => (log_draft p "load_draft" "success" (Some id) None g, Ok b)
  end.

Definition delete_draft (p : Principal) (id : string) (now : Z) (g : GovState) (f : DraftFiles) : GovState * DraftFiles * result unit :=
  if negb enabled then (g, f, Raise ServiceDisabledError) else
  match delete_draft_files id (subject p) now f with
  | (f, Raise e) => (if is_not_found e then log_draft p "delete_draft" "rejected" (Some id) (Some "not_found") g else g, f, Raise e)
  | (f, Ok _) => (log_draft p "delete_draft" "success" (Some id) None g, f, Ok tt)
  end.

Inductive draft_event :=
| SaveDraft (p : Principal) (b : ConfigChangeSetBundle) (now : Z) (draft_id : string) (nonce : Z)
| ListDrafts (p : Principal) (now : Z)
| LoadDraft (p : Principal) (id : string) (now : Z)
| DeleteDraft (p : Principal) (id : string) (now : Z).

Definition draft_step (st : GovState * DraftFiles) (e : draft_event) : GovState * DraftFiles :=
  let '(g, f) := st in
  match e with
  | SaveDraft p b now id nonce => (save_draft p b now id nonce g f).1
  | ListDrafts p now => (g, (list_my_drafts p now f).1)
  | LoadDraft p id now => ((load_draft p id now g f).1, f)
  | DeleteDraft p id now => (delete_draft p id now g f).1
  end.
Definition draft_run (g : GovState) (events : list draft_event) : GovState * DraftFiles := foldl draft_step (g, ∅) events.
End draft_service.

(** * What a check of a change set says *)

Section check_facts.
Context `{DG : Digest} `{CL : ConfigLoaders} (disk : Documents) (limit : Z).

Lemma bootstrap_versions now g g' active : versions_ok (gs_store g) → bootstrap disk now g = Ok (g', active) →
  versions_ok (gs_store g') ∧ vs_versions (gs_store g') !! cv_id active = Some (Some active) ∧ vs_current (gs_store g') = Some (cv_id active)
  ∧ g' = set_store (gs_store g') g.
Proof.
  unfold bootstrap. intros Hok H. apply bind_ok in H as ([s' w] & H & [= <- <-]).
  destruct (bootstrap_move _ _ _ _ _ Hok H) as (H1 & _ & H2 & H3). by split_and!.
Qed.

Lemma bootstrap_again now now' g g' active : versions_ok (gs_store g) → bootstrap disk now g = Ok (g', active) →
  bootstrap disk now' g' = Ok (g', active).
Proof.
  intros Hok H. destruct (bootstrap_versions _ _ _ _ Hok H) as (_ & Hv & Hc & _). unfold bootstrap, bootstrap_if_empty, get_active_version.
  rewrite Hc. apply read_manifest_ok in Hv. rewrite Hv. cbn. f_equal. f_equal. by destruct g'.
Qed.

(** A change set exported and imported again while the same version is active is
    never called stale, and within the size limit it is found valid exactly when
    staging the same documents there succeeds, with the same errors when it fails. *)
Theorem import_foretells_staging p q r s description t1 t2 t3 g g1 b check description' :
  versions_ok (gs_store g) → total_bytes s ≤ limit →
  export_change_set disk p s description t1 g = (g1, Ok b) →
  (import_change_set disk limit q b t2 g1).2 = Ok check →
  ic_stale_base check = false ∧ ic_base_conflict_documents check = []
  ∧ match (stage disk r (cb_documents b) description' t3 g1).2 with
    | Ok v => ic_errors check = [] ∧ cv_documents v = inherit s (default disk (cv_documents <$> (match get_active_version (gs_store g1) with Ok o => o | Raise _ => None end)))
    | Raise e => ic_errors check ≠ [] ∧ e = ConfigValidationError (String.concat "; " (ic_errors check))
    end.
Proof.
  intros Hok Hsize He Hi. unfold export_change_set in He. destruct (bootstrap disk t1 g) as [[g' active]|e] eqn:Eb; [|done].
  injection He as <- <-. pose proof (bootstrap_versions _ _ _ _ Hok Eb) as (_ & Hv & Hc & _).
  assert (Hb : ∀ t, bootstrap disk t (log_as p "export" "success" (Some (cv_id active)) None None g')
    = Ok (log_as p "export" "success" (Some (cv_id active)) None None g', active)).
  { intros t. pose proof (bootstrap_again t1 t g g' active Hok Eb) as H. revert H. unfold bootstrap. cbn [gs_store log_as log_change].
    destruct (bootstrap_if_empty disk t (gs_store g')) as [[s' w]|]; cbn; [|done]. intros [= Hs ->].
    f_equal. f_equal. rewrite <-Hs. done. }
  unfold import_change_set in Hi. rewrite Hb in Hi. cbn [cb_documents cb_base_fingerprint] in Hi.
  rewrite bool_decide_eq_true_2 in Hi by done. destruct (Z.ltb_spec limit (total_bytes s)); [lia|].
  injection Hi as <-. cbn [ic_stale_base ic_base_conflict_documents ic_errors cb_documents]. split; [done|]. split; [done|].
  unfold stage. rewrite Hb. destruct (candidate_errors (inherit s (cv_documents active))) as [|x errors]; cbn; [|done].
  split; [done|]. unfold get_active_version. cbn. rewrite Hc. apply read_manifest_ok in Hv. by rewrite Hv.
Qed.

(** What a preview answers a caller without the reading scope depends on what the
    caller submitted and on whether the result loads, and on nothing else of the
    documents in force. *)
Theorem preview_tells_no_contents p s t t' g g' active active' g1 g1' :
  ADMIN_CONFIG_READ_SCOPE ∉ scopes p →
  bootstrap disk t g = Ok (g1, active) → bootstrap disk t' g' = Ok (g1', active') →
  candidate_errors (inherit s (cv_documents active)) = candidate_errors (inherit s (cv_documents active')) →
  (preview disk p s t g).2 = (preview disk p s t' g').2.
Proof.
  intros Hp Hb Hb' He. unfold preview. rewrite Hb, Hb', He. rewrite bool_decide_eq_false_2 by done. done.
Qed.

(** A stale change set names exactly the documents in which the version it was made
    on, where that is still at hand, and the active version differ. *)
Theorem conflicts_are_the_differences b active st base id x : cb_base_version_id b = Some id → read_manifest id st = Ok base →
  x ∈ base_conflicts b active st ↔ document_of (cv_documents base) x ≠ document_of (cv_documents active) x.
Proof.
  intros Hb Hr. unfold base_conflicts. rewrite Hb, Hr, elem_of_lfilter, negb_true_iff, bool_decide_eq_false.
  split; [by intros [_ H]|]. intros H. split; [|done]. destruct x; cbn; set_solver.
Qed.
End check_facts.

(** * Drafts *)

Section draft_facts.
Context `{DG : Digest} `{DC : DraftCodec} (key : string) (retention max_drafts : Z).
Local Abbreviation run := (draft_run key retention max_drafts).

(** A draft as [save] leaves it. *)
Definition saved_dir (owner : string) (b : ConfigChangeSetBundle) (t : Z) (id : string) (nonce : Z) : DraftDir :=
  MkDraftDir (Some (Some (MkManifest id owner (cb_description b) (Some t) (Some (t + retention)) (contains_connections b))))
    (Some (fernet_encrypt (derive_fernet key) nonce (bundle_json b))).

Definition all_saved (f : DraftFiles) : Prop := ∀ id d, f !! id = Some d → ∃ owner b t nonce, d = saved_dir owner b t id nonce.

Lemma read_saved f id owner b t nonce : f !! id = Some (saved_dir owner b t id nonce) →
  read_manifest_raw id f = Some (MkManifest id owner (cb_description b) (Some t) (Some (t + retention)) (contains_connections b)).
Proof. unfold read_manifest_raw. by intros ->. Qed.

Lemma in_all_draft_ids f id : all_saved f → id ∈ all_draft_ids f ↔ is_Some (f !! id).
Proof.
  intros Hf. unfold all_draft_ids. rewrite elem_of_map. split.
  - intros ([k d] & -> & [H _]%elem_of_lfilter). apply elem_of_map_to_list in H. by exists d.
  - intros [d Hd]. exists (id, d). split; [done|]. apply elem_of_lfilter. split; [by apply elem_of_map_to_list|].
    destruct (Hf id d Hd) as (owner & b & t & nonce & ->). done.
Qed.

(** What is left is what has not expired. *)
Lemma prune_ids_saved ids now f : all_saved f → ∃ f', prune_ids ids now f = (f', Ok tt) ∧ f' ⊆ f
  ∧ ∀ id owner b t nonce, f !! id = Some (saved_dir owner b t id nonce) →
      (now < t + retention → f' !! id = Some (saved_dir owner b t id nonce)) ∧ (id ∈ ids → t + retention ≤ now → f' !! id = None).
Proof.
  revert f. induction ids as [|k ids IH]; intros f Hf; cbn [prune_ids].
  { exists f. split_and!; [done|done|]. intros id owner b t nonce H. split; [done|]. by intros ?%not_elem_of_nil. }
  destruct (read_manifest_raw k f) as [m|] eqn:Er.
  - unfold read_manifest_raw in Er. destruct (f !! k) as [d|] eqn:Ek; [|done].
    destruct (Hf k d Ek) as (owner & b & t & nonce & ->). injection Er as <-. cbn [dm_expires_at fromisoformat].
    destruct (Z.leb_spec (t + retention) now).
    + destruct (IH (delete k f)) as (f' & Hp & Hsub & Hl).
      { intros id d [_ H']%lookup_delete_Some. by apply Hf. }
      exists f'. split_and!; [done|transitivity (delete k f); [done|apply delete_subseteq]|].
      intros id o b' t' n' Hid. destruct (decide (id = k)) as [->|Hne].
      * assert (t' = t) as -> by (unfold saved_dir in *; congruence). split; [lia|]. intros _ _.
        apply (lookup_weaken_None _ _ _ (lookup_delete_eq f k) Hsub).
      * destruct (Hl id o b' t' n') as [H1 H2]; [by rewrite lookup_delete_ne|]. split; [done|].
        intros [->|Hin]%elem_of_cons; [done|by apply H2].
    + destruct (IH f Hf) as (f' & Hp & Hsub & Hl). exists f'. split_and!; [done|done|].
      intros id o b' t' n' Hid. destruct (Hl id o b' t' n' Hid) as [H1 H2]. split; [done|].
      intros [->|Hin]%elem_of_cons; [|by apply H2]. assert (t' = t) as -> by (unfold saved_dir in *; congruence). lia.
  - destruct (IH f Hf) as (f' & Hp & Hsub & Hl). exists f'. split_and!; [done|done|].
    intros id o b' t' n' Hid. destruct (Hl id o b' t' n' Hid) as [H1 H2]. split; [done|].
    intros [->|Hin]%elem_of_cons; [|by apply H2]. by rewrite (read_saved _ _ _ _ _ _ Hid) in Er.
Qed.

Lemma prune_saved now f : all_saved f → ∃ f', prune_expired now f = (f', Ok tt) ∧ f' ⊆ f ∧ all_saved f'
  ∧ ∀ id owner b t nonce, f !! id = Some (saved_dir owner b t id nonce) →
      f' !! id = if now <? t + retention then Some (saved_dir owner b t id nonce) else None.
Proof.
  intros Hf. destruct (prune_ids_saved (all_draft_ids f) now f Hf) as (f' & Hp & Hsub & Hl).
  exists f'. split_and!; [done|done| |].
  - intros id d Hd. by eapply Hf, lookup_weaken.
  - intros id owner b t nonce H. destruct (Hl id owner b t nonce H) as [H1 H2]. destruct (Z.ltb_spec now (t + retention)); [by apply H1|].
    apply H2; [|lia]. apply in_all_draft_ids; [done|]. rewrite H. by eexists.
Qed.

(** ** How many *)

Definition owner_of (pid : string) (x : string * DraftDir) : option DraftManifest :=
  mjoin (dd_manifest x.2) ≫= λ m, if bool_decide (dm_principal_id m = pid) then Some m else None.

Lemma owned_by_alt pid f : owned_by pid f = omap (owner_of pid) (map_to_list f).
Proof.
  unfold owned_by, all_draft_ids. assert (H : ∀ x, x ∈ map_to_list f → f !! x.1 = Some x.2).
  { intros [id d]. apply elem_of_map_to_list. }
  induction (map_to_list f) as [|[id d] l IH]; [done|]. cbn [List.filter omap list_omap map fst]. pose proof (H (id, d) ltac:(by left)) as Hd. cbn in Hd.
  specialize (IH ltac:(intros x Hx; apply H; by right)). unfold owner_of at 1. cbn [snd]. destruct (dd_manifest d) as [[m|]|] eqn:Em; cbn.
  - unfold read_manifest_raw at 1. rewrite Hd. cbn. rewrite Em. cbn. case_bool_decide; cbn; by rewrite IH.
  - unfold read_manifest_raw at 1. rewrite Hd. cbn. rewrite Em. cbn. exact IH.
  - exact IH.
Qed.

Lemma owned_by_subseteq pid f f' : f' ⊆ f → (length (owned_by pid f') ≤ length (owned_by pid f))%nat.
Proof.
  intros Hsub. rewrite !owned_by_alt. apply map_to_list_submseteq, submseteq_Permutation in Hsub as [k Hk].
  rewrite Hk. change (list_omap ?g) with (omap g). rewrite omap_app, length_app. lia.
Qed.

Lemma owned_by_insert pid id d f : (length (owned_by pid (<[id := d]> f))
  ≤ length (owned_by pid f) + (if bool_decide (is_Some (owner_of pid (id, d))) then 1 else 0))%nat.
Proof.
  rewrite <-insert_delete_eq. pose proof (owned_by_subseteq pid _ _ (delete_subseteq f id)) as Hle. revert Hle.
  rewrite !owned_by_alt, map_to_list_insert by apply lookup_delete_eq. cbn. destruct (owner_of pid (id, d)) as [m|]; cbn; lia.
Qed.

(** ** Steps *)

(** A step drops drafts, and may then save one. *)
Lemma draft_step_files g f e : all_saved f → ∃ f', f' ⊆ f ∧ ((draft_step key retention max_drafts (g, f) e).2 = f'
  ∨ ∃ p b t id nonce, e = SaveDraft p b t id nonce ∧ Z.of_nat (length (owned_by (subject p) f')) < max_drafts
      ∧ (draft_step key retention max_drafts (g, f) e).2 = <[id := saved_dir (subject p) b t id nonce]> f').
Proof.
  intros Hf. destruct e as [p b t id nonce|p t|p id t|p id t]; cbn [draft_step].
  - unfold save_draft. destruct (enabled key); cbn [negb]; [|exists f; split; [done|by left]].
    unfold save. destruct (prune_saved t f Hf) as (f' & -> & Hsub & _ & _). exists f'. split; [done|].
    destruct (Z.leb_spec max_drafts (Z.of_nat (length (owned_by (subject p) f')))); [by left|right]. by exists p, b, t, id, nonce.
  - unfold list_my_drafts, list_for_principal. destruct (enabled key); cbn [negb]; [|exists f; split; [done|by left]].
    destruct (prune_saved t f Hf) as (f' & -> & Hsub & _ & _). exists f'. split; [done|by left].
  - exists f. split; [done|by left].
  - unfold delete_draft, delete_draft_files. destruct (enabled key); cbn [negb]; [|exists f; split; [done|by left]].
    destruct (owned_manifest id (subject p) t f); [exists (delete id f)|exists f]; (split; [apply delete_subseteq || done|by left]).
Qed.

Lemma insert_all_saved f id owner b t nonce : all_saved f → all_saved (<[id := saved_dir owner b t id nonce]> f).
Proof. intros Hf k d [[<- <-]|[_ H]]%lookup_insert_Some; [by eexists _, _, _, _|by apply Hf]. Qed.

Lemma run_snoc g events e : run g (events ++ [e]) = draft_step key retention max_drafts (run g events) e.
Proof. unfold draft_run. by rewrite foldl_app. Qed.

Lemma saved_dir_inj owner b t id nonce owner' b' t' nonce' :
  saved_dir owner b t id nonce = saved_dir owner' b' t' id nonce' → owner = owner' ∧ b = b' ∧ t = t'.
Proof.
  intros [= Ho _ Ht _ Hc Henc]. split_and!; [done| |done].
  apply (f_equal (fernet_decrypt (derive_fernet key))) in Henc. rewrite !fernet_round_trip in Henc. injection Henc as Hj.
  apply (f_equal bundle_of_json) in Hj. rewrite !bundle_round_trip in Hj. by injection Hj.
Qed.

(** Whatever the store holds was saved. *)
Lemma run_saved g events : all_saved (run g events).2 ∧
  ∀ id owner b t nonce, (run g events).2 !! id = Some (saved_dir owner b t id nonce) →
  ∃ p nonce', SaveDraft p b t id nonce' ∈ events ∧ subject p = owner.
Proof.
  induction events as [|e events [Hf IH]] using rev_ind;
    [unfold draft_run; cbn; split; intros id ?; by rewrite lookup_empty|].
  rewrite run_snoc. destruct (run g events) as [g' f]. cbn [snd] in Hf, IH.
  destruct (draft_step_files g' f e Hf) as (f' & Hsub & H). assert (Hf' : all_saved f') by (intros id d Hd; by eapply Hf, lookup_weaken).
  assert (IH' : ∀ id owner b t nonce, f' !! id = Some (saved_dir owner b t id nonce) → ∃ p nonce', SaveDraft p b t id nonce' ∈ events ++ [e] ∧ subject p = owner).
  { intros id owner b t nonce Hd. eapply lookup_weaken in Hd; [|exact Hsub]. destruct (IH _ _ _ _ _ Hd) as (p & n & Hin & Hp).
    exists p, n. split; [|done]. apply elem_of_app. by left. }
  destruct H as [->|(p & b & t & id & nonce & -> & _ & ->)]; [done|]. split; [by apply insert_all_saved|].
  intros k owner b' t' nonce' [[<- Heq]|[_ H]]%lookup_insert_Some; [|by eapply IH'].
  apply saved_dir_inj in Heq as (<- & <- & <-).
  exists p, nonce. split; [|done]. apply elem_of_app. right. by apply list_elem_of_singleton.
Qed.

(** At no time are there more drafts of one person than the limit. *)
Theorem drafts_bounded g events pid : 0 ≤ max_drafts → Z.of_nat (length (owned_by pid (run g events).2)) ≤ max_drafts.
Proof.
  intros Hmax. induction events as [|e events IH] using rev_ind; [done|].
  pose proof (proj1 (run_saved g events)) as Hf. rewrite run_snoc. destruct (run g events) as [g' f]. cbn [snd] in Hf, IH.
  destruct (draft_step_files g' f e Hf) as (f' & Hsub & H). pose proof (owned_by_subseteq pid f f' Hsub).
  destruct H as [->|(p & b & t & id & nonce & -> & Hn & ->)]; [lia|].
  pose proof (owned_by_insert pid id (saved_dir (subject p) b t id nonce) f') as Hins. revert Hins.
  destruct (decide (subject p = pid)) as [<-|Hne]; [destruct (bool_decide _); lia|].
  unfold owner_of. cbn. rewrite (bool_decide_eq_false_2 (subject p = pid)) by done. cbn. lia.
Qed.

Lemma load_saved f id owner b t nonce pid now : f !! id = Some (saved_dir owner b t id nonce) →
  load key id pid now f = if (t + retention <=? now) || negb (bool_decide (owner = pid)) then Raise (unknown_draft id) else Ok b.
Proof.
  intros H. unfold load, owned_manifest. rewrite (read_saved _ _ _ _ _ _ H). cbn [dm_expires_at fromisoformat mbind result_bind dm_principal_id].
  destruct (_ || _); [done|]. cbn [mbind result_bind]. rewrite H. cbn. by rewrite fernet_round_trip, bundle_round_trip.
Qed.

(** A draft is handed only to the person who saved it, as it was saved and before it
    expires; every other request has the same answer, whether the draft is somebody
    else's, has expired or never was. *)
Theorem draft_is_private g events p id now : key ≠ "" →
  match (load_draft key p id now (run g events).1 (run g events).2).2 with
  | Ok b => ∃ q t nonce, SaveDraft q b t id nonce ∈ events ∧ subject q = subject p ∧ now < t + retention
  | Raise e => e = unknown_draft id
  end.
Proof.
  intros Hk. destruct (run_saved g events) as [Hf Hs]. destruct (run g events) as [g' f]. cbn [fst snd] in Hf, Hs |- *.
  unfold load_draft, enabled. rewrite bool_decide_eq_false_2 by done. cbn [negb].
  destruct (f !! id) as [d|] eqn:Hd.
  - destruct (Hf id d Hd) as (owner & b & t & nonce & ->). rewrite (load_saved _ _ _ _ _ _ _ _ Hd).
    destruct (Z.leb_spec (t + retention) now); cbn; [done|]. case_bool_decide as Ho; cbn; [|done].
    destruct (Hs _ _ _ _ _ Hd) as (q & n & Hin & Hq). exists q, t, n. split_and!; [done|congruence|lia].
  - unfold load, owned_manifest, read_manifest_raw. rewrite Hd. done.
Qed.

(** What a later event may do to a draft. *)
Definition spares (owner id : string) (deadline : Z) (e : draft_event) : Prop :=
  match e with
  | SaveDraft _ _ t k _ => k ≠ id ∧ t < deadline
  | ListDrafts _ t => t < deadline
  | LoadDraft _ _ _ => True
  | DeleteDraft p k _ => k = id → subject p ≠ owner
  end.

Lemma spared_step g f e id owner b t nonce : all_saved f → spares owner id (t + retention) e →
  f !! id = Some (saved_dir owner b t id nonce) → (draft_step key retention max_drafts (g, f) e).2 !! id = Some (saved_dir owner b t id nonce).
Proof.
  intros Hf He H. destruct e as [p b' t' k n|p t'|p k t'|p k t']; cbn [draft_step spares] in He |- *.
  - unfold save_draft, save. destruct (enabled key); [|done]. cbn [negb]. destruct He as [Hne Ht].
    destruct (prune_saved t' f Hf) as (f' & -> & _ & _ & Hl). specialize (Hl _ _ _ _ _ H). destruct (Z.ltb_spec t' (t + retention)); [|lia].
    destruct (max_drafts <=? _); cbn; [done|]. by rewrite lookup_insert_ne.
  - unfold list_my_drafts, list_for_principal. destruct (enabled key); [|done]. cbn [negb].
    destruct (prune_saved t' f Hf) as (f' & -> & _ & _ & Hl). specialize (Hl _ _ _ _ _ H). by destruct (Z.ltb_spec t' (t + retention)); [|lia].
  - done.
  - unfold delete_draft, delete_draft_files. destruct (enabled key); [|done]. cbn [negb].
    destruct (owned_manifest k (subject p) t' f) as [m|e] eqn:Eo; cbn [fst snd]; [|done].
    destruct (decide (k = id)) as [->|Hne]; [|by rewrite lookup_delete_ne]. exfalso. revert Eo. unfold owned_manifest.
    rewrite (read_saved _ _ _ _ _ _ H). cbn. rewrite (bool_decide_eq_false_2 (owner = subject p)) by (intros ->; by apply He).
    by rewrite orb_true_r.
Qed.

Lemma spared_run g f events id owner b t nonce : all_saved f → Forall (spares owner id (t + retention)) events →
  f !! id = Some (saved_dir owner b t id nonce) →
  (foldl (draft_step key retention max_drafts) (g, f) events).2 !! id = Some (saved_dir owner b t id nonce).
Proof.
  revert g f. induction events as [|e events IH]; intros g f Hf H Hd; [done|]. apply Forall_cons in H as [He H]. cbn [foldl].
  pose proof (spared_step g f e _ _ _ _ _ Hf He Hd) as Hd'. destruct (draft_step_files g f e Hf) as (f' & Hsub & Hstep).
  assert (all_saved (draft_step key retention max_drafts (g, f) e).2) as Hf2.
  { assert (Hf' : all_saved f') by (intros k d ?; by eapply Hf, lookup_weaken). destruct Hstep as [->|(? & ? & ? & ? & ? & _ & _ & ->)]; [done|].
    by apply insert_all_saved. }
  destruct (draft_step key retention max_drafts (g, f) e) as [g2 f2]. by apply IH.
Qed.

(** A draft that was saved comes back to whoever saved it, as it was, until it
    expires or they delete it, whatever others save, list, load or delete. *)
Theorem draft_comes_back g before after p q b t id nonce now s : key ≠ "" →
  (save_draft key retention max_drafts q b t id nonce (run g before).1 (run g before).2).2 = Ok s →
  Forall (spares (subject q) id (t + retention)) after → now < t + retention → subject p = subject q →
  let st := run g (before ++ SaveDraft q b t id nonce :: after) in (load_draft key p id now st.1 st.2).2 = Ok b.
Proof.
  intros Hk Hs Ha Hnow Hp. cbv zeta. unfold draft_run. rewrite foldl_app. cbn [foldl]. fold (run g before).
  pose proof (proj1 (run_saved g before)) as Hf. destruct (run g before) as [g1 f1]. cbn [fst snd] in Hs, Hf. cbn [draft_step].
  assert (Hd : ∃ g2 f2, (save_draft key retention max_drafts q b t id nonce g1 f1).1 = (g2, f2) ∧ all_saved f2
    ∧ f2 !! id = Some (saved_dir (subject q) b t id nonce)).
  { revert Hs. unfold save_draft, enabled. rewrite bool_decide_eq_false_2 by done. cbn [negb]. unfold save.
    destruct (prune_saved t f1 Hf) as (f' & -> & _ & Hf' & _). destruct (max_drafts <=? _); cbn; [done|]. intros _. eexists _, _.
    split; [done|]. split; [exact (insert_all_saved _ id (subject q) b t nonce Hf')|]. by rewrite lookup_insert_eq. }
  destruct Hd as (g2 & f2 & -> & Hf2 & Hd). pose proof (spared_run g2 f2 after _ _ _ _ _ Hf2 Ha Hd) as Hend.
  destruct (foldl _ (g2, f2) after) as [g3 f3]. cbn [fst snd] in Hend |- *. unfold load_draft, enabled. rewrite bool_decide_eq_false_2 by done.
  cbn [negb]. rewrite (load_saved _ _ _ _ _ _ _ _ Hend), Hp. destruct (Z.leb_spec (t + retention) now); [lia|].
  by rewrite bool_decide_eq_true_2.
Qed.
End draft_facts.

(** ** Manifests by other hands *)

Lemma prune_stops ids now f id m : id ∈ ids → read_manifest_raw id f = Some m → dm_expires_at m = None →
  ∃ f', prune_ids ids now f = (f', Raise invalid_isoformat).
Proof.
  revert f. induction ids as [|k ids IH]; intros f Hin Hm He; [by apply not_elem_of_nil in Hin|]. cbn [prune_ids].
  apply elem_of_cons in Hin as [<-|Hin]; [rewrite Hm; rewrite He; by eexists|].
  destruct (read_manifest_raw k f) as [m'|] eqn:Ek; [|by apply IH]. destruct (dm_expires_at m') as [t|] eqn:Et; cbn [fromisoformat]; [|by eexists].
  apply IH; [done| |done]. destruct (t <=? now); [|done]. unfold read_manifest_raw. rewrite lookup_delete_ne; [exact Hm|]. intros ->. congruence.
Qed.

(** One manifest whose date reads as none stops every save and every listing, of
    whomever. *)
Theorem bad_date_stops_everyone `{DG : Digest} `{DC : DraftCodec} key f id m encrypted pid b description retention limit now name nonce :
  f !! id = Some (MkDraftDir (Some (Some m)) encrypted) → dm_expires_at m = None →
  (save key pid b description retention limit now name nonce f).2 = Raise invalid_isoformat
  ∧ (list_for_principal pid now f).2 = Raise invalid_isoformat.
Proof.
  intros Hd He. destruct (prune_stops (all_draft_ids f) now f id m) as [f' Hp]; [|unfold read_manifest_raw; by rewrite Hd|done|].
  - unfold all_draft_ids. apply elem_of_map. exists (id, MkDraftDir (Some (Some m)) encrypted). split; [done|].
    apply elem_of_lfilter. split; [by apply elem_of_map_to_list|done].
  - unfold save, list_for_principal, prune_expired. by rewrite Hp.
Qed.

(** Who may propose a version is shown all of it, what it inherits included. *)
Theorem staging_shows_inherited `{DG : Digest} `{CL : ConfigLoaders} disk p now g g1 active :
  ADMIN_CONFIG_READ_SCOPE ∉ scopes p → bootstrap disk now g = Ok (g1, active) → candidate_errors (cv_documents active) = [] →
  ∃ v, (stage disk p (MkSubmitted None None None None) None now g).2 = Ok v ∧ cv_documents v = cv_documents active.
Proof.
  intros _ Hb He. unfold stage. rewrite Hb.
  assert (inherit (MkSubmitted None None None None) (cv_documents active) = cv_documents active) as Hi by (by destruct (cv_documents active)).
  rewrite Hi, He. cbn. by eexists.
Qed.

(** * A sample *)

(** Bundles as bit strings. *)
Fixpoint bits (p : positive) : string := match p with xH => "" | xO p => String "0" (bits p) | xI p => String "1" (bits p) end.
Fixpoint unbits (s : string) : positive :=
  match s with EmptyString => xH | String c s => if bool_decide (c = "1"%char) then xI (unbits s) else xO (unbits s) end.
Lemma unbits_bits p : unbits (bits p) = p.
Proof. by induction p as [p IH|p IH|]; cbn; rewrite ?IH. Qed.

#[local] Instance submitted_eq_dec : EqDecision Submitted.
Proof. solve_decision. Defined.
#[local] Instance submitted_countable : Countable Submitted :=
  inj_countable' (λ s, (sb_connections s, sb_policy s, sb_catalog s, sb_templates s)) (λ '(a, b, c, d), MkSubmitted a b c d) (λ s, match s with MkSubmitted _ _ _ _ => eq_refl end).
#[local] Instance bundle_eq_dec : EqDecision ConfigChangeSetBundle.
Proof. solve_decision. Defined.
#[local] Instance bundle_countable : Countable ConfigChangeSetBundle :=
  inj_countable' (λ b, (cb_base_version_id b, cb_base_fingerprint b, cb_created_at b, cb_description b, cb_documents b))
    (λ '(a, b, c, d, e), MkBundle a b c d e) (λ b, match b with MkBundle _ _ _ _ _ => eq_refl end).

Lemma sealed_text text : Some (String.substring 7 (String.length ("sealed:" +:+ text) - 7) ("sealed:" +:+ text)) = Some text.
Proof.
  f_equal. rewrite string_length_app. replace (String.length "sealed:" + String.length text - 7)%nat with (String.length text) by (cbn; lia).
  change (String.substring 0 (String.length text) text = text). induction text as [|c text IH]; [done|]. cbn. by rewrite IH.
Qed.
Lemma bundle_text (b : ConfigChangeSetBundle) : decode (unbits (bits (encode b))) = Some b.
Proof. by rewrite unbits_bits, decode_encode. Qed.

#[local] Instance sample_codec : DraftCodec := {|
  fernet_encrypt _ _ text := "sealed:" +:+ text;
  fernet_decrypt _ sealed := Some (String.substring 7 (String.length sealed - 7) sealed);
  bundle_json b := bits (encode b);
  bundle_of_json s := decode (unbits s);
  fernet_round_trip _ _ text := sealed_text text;
  bundle_round_trip b := bundle_text b;
|}.
#[local] Existing Instances sample_digest sample_loaders.

Definition writer (name : string) : Principal := MkPrincipal name {[ADMIN_CONFIG_WRITE_SCOPE]} [] "session" None.
Definition tightening : Submitted := MkSubmitted None (Some "strict") None None.
Definition a_bundle : ConfigChangeSetBundle := MkBundle None None 0 None tightening.
Definition two_days : list draft_event :=
  [ListDrafts (writer "ben") 5; SaveDraft (writer "ben") a_bundle 6 "d2" 0; LoadDraft (writer "ben") "d1" 7; DeleteDraft (writer "ben") "d1" 8].

Lemma import_foretells_staging_witness :
  ∃ check, (import_change_set lax_files 100 (writer "ben") (MkBundle (Some 1) (Some (version_fingerprint lax_files)) 1 None tightening) 2
    (export_change_set lax_files (writer "ann") tightening None 1 (started lax_files)).1).2 = Ok check ∧ ic_stale_base check = false.
Proof.
  pose proof (import_foretells_staging lax_files 100 (writer "ann") (writer "ben") (writer "ann") tightening None 1 2 3 (started lax_files)
    (export_change_set lax_files (writer "ann") tightening None 1 (started lax_files)).1
    (MkBundle (Some 1) (Some (version_fingerprint lax_files)) 1 None tightening)
    (MkImportCheck true [] [(ConnectionsDoc, Inherited); (PolicyDoc, SubmittedDoc); (CatalogDoc, Inherited); (TemplatesDoc, Inherited)] false [] false true [])
    None) as H. eexists. split; [vm_compute; reflexivity|]. refine (proj1 (H _ _ _ _)); [|vm_compute; discriminate|vm_compute; reflexivity|vm_compute; reflexivity].
  exact (gov_run_ok 0 lax_files []).
Defined.

Lemma draft_is_private_witness :
  match (load_draft "key" (writer "ben") "d1" 9 (draft_run "key" 100 2 (started lax_files) (SaveDraft (writer "ann") a_bundle 4 "d1" 0 :: two_days)).1
    (draft_run "key" 100 2 (started lax_files) (SaveDraft (writer "ann") a_bundle 4 "d1" 0 :: two_days)).2).2 with Ok _ => False | Raise e => e = unknown_draft "d1" end.
Proof.
  pose proof (draft_is_private "key" 100 2 (started lax_files) (SaveDraft (writer "ann") a_bundle 4 "d1" 0 :: two_days) (writer "ben") "d1" 9
    ltac:(done)) as H.
  destruct (load_draft _ _ _ _ _ _).2 eqn:E; [|exact H]. vm_compute in E. discriminate E.
Defined.

Lemma draft_comes_back_witness :
  (let st := draft_run "key" 100 2 (started lax_files) ([] ++ SaveDraft (writer "ann") a_bundle 4 "d1" 0 :: two_days) in
   load_draft "key" (writer "ann") "d1" 9 st.1 st.2).2 = Ok a_bundle.
Proof.
  refine (draft_comes_back "key" 100 2 (started lax_files) [] two_days (writer "ann") (writer "ann") a_bundle 4 "d1" 0 9
    (MkSummary "d1" None 4 104 false) _ _ _ _ _); [done|vm_compute; reflexivity| |lia|done].
  repeat constructor; cbn; try done.
Defined.

Lemma drafts_bounded_witness : Z.of_nat (length (owned_by "ben" (draft_run "key" 100 2 (started lax_files) two_days).2)) ≤ 2.
Proof. exact (drafts_bounded "key" 100 2 (started lax_files) two_days "ben" ltac:(lia)). Defined.
