(* ===== verification/SchemaMemory.v ===== *)
(** What the catalog remembers of a schema: snapshots, their fingerprints and the
    differences between two of them ([catalog/schema_memory.py]). Shown: the order in
    which a driver reports tables, columns, keys and indexes does not matter, a
    difference names exactly what changed, and a rename is suggested only when no
    other pair could be meant. *)
From Stdlib Require Import Ascii.
From stdpp Require Import sorting.
From S2P Require Export JsonText.

(** * Orders *)

(** Python's order of pairs and of tuples. *)
Definition pair_le {A B} (R : A → A → Prop) (S : B → B → Prop) (x y : A * B) : Prop :=
  x.1 ≠ y.1 ∧ R x.1 y.1 ∨ x.1 = y.1 ∧ S x.2 y.2.
Fixpoint list_le {A} (R : A → A → Prop) (l k : list A) : Prop :=
  match l, k with
  | [], _ => True
  | _ :: _, [] => False
  | x :: l, y :: k => x ≠ y ∧ R x y ∨ x = y ∧ list_le R l k
  end.
Definition bool_le (a b : bool) : Prop := a = true → b = true.

Section orders.
Context {A B : Type} `{EqDecision A} `{EqDecision B} (R : A → A → Prop) (S : B → B → Prop).
Context `{!RelDecision R} `{!RelDecision S} `{!Total R} `{!Total S} `{!Transitive R} `{!Transitive S}
  `{!AntiSymm (=) R} `{!AntiSymm (=) S}.

#[export] Instance pair_le_dec : RelDecision (pair_le R S).
Proof. intros x y. unfold pair_le. apply _. Defined.
#[export] Instance pair_le_total : Total (pair_le R S).
Proof.
  intros [a b] [c d]. unfold pair_le. cbn. destruct (decide (a = c)) as [->|Hne].
  - destruct (total S b d); [left|right]; by right.
  - destruct (total R a c); [left|right]; left; by split.
Qed.
#[export] Instance pair_le_trans : Transitive (pair_le R S).
Proof.
  intros [a b] [c d] [e f]. unfold pair_le. cbn. intros [[H1 H2]|[-> H2]] [[H3 H4]|[-> H4]]; [|by left|by left|right; split; [done|by trans d]].
  left. split; [|by trans c]. intros ->. apply H1. by apply (anti_symm R).
Qed.
#[export] Instance pair_le_anti_symm : AntiSymm (=) (pair_le R S).
Proof.
  intros [a b] [c d]. unfold pair_le. cbn. intros [[H1 H2]|[-> H2]] [[H3 H4]|[H3 H4]]; try (exfalso; congruence).
  - destruct H1. by apply (anti_symm R).
  - f_equal. by apply (anti_symm S).
Qed.

#[export] Instance list_le_dec : RelDecision (list_le R).
Proof.
  intros l. induction l as [|x l IH]; intros [|y k]; cbn; apply _.
Defined.
#[export] Instance list_le_total : Total (list_le R).
Proof.
  intros l. induction l as [|x l IH]; intros [|y k]; cbn; [by left|by left|by right|].
  destruct (decide (x = y)) as [->|Hne].
  - destruct (IH k); [left|right]; by right.
  - destruct (total R x y); [left|right]; left; by split.
Qed.
#[export] Instance list_le_trans : Transitive (list_le R).
Proof.
  intros l. induction l as [|x l IH]; intros [|y k] [|z m]; cbn; try done.
  intros [[H1 H2]|[-> H2]] [[H3 H4]|[-> H4]]; [|by left|by left|right; split; [done|by eapply IH]].
  left. split; [|by trans y]. intros ->. apply H1. by apply (anti_symm R).
Qed.
#[export] Instance list_le_anti_symm : AntiSymm (=) (list_le R).
Proof.
  intros l. induction l as [|x l IH]; intros [|y k]; cbn; try done.
  intros [[H1 H2]|[-> H2]] [[H3 H4]|[H3 H4]]; try done.
  - destruct H1. by apply (anti_symm R).
  - f_equal. by apply IH.
Qed.
End orders.
#[export] Existing Instances pair_le_dec pair_le_total pair_le_trans pair_le_anti_symm list_le_dec list_le_total list_le_trans list_le_anti_symm.

#[export] Instance bool_le_dec : RelDecision bool_le.
Proof. intros [] []; unfold bool_le; [left|right|left|left]; naive_solver. Defined.
#[export] Instance bool_le_total : Total bool_le.
Proof. intros [] []; unfold bool_le; naive_solver. Qed.
#[export] Instance bool_le_trans : Transitive bool_le.
Proof. intros [] [] []; unfold bool_le; naive_solver. Qed.
#[export] Instance bool_le_anti_symm : AntiSymm (=) bool_le.
Proof. intros [] []; unfold bool_le; naive_solver. Qed.

(** [sorted(l, key=k)] on keys of any ordered kind. *)
Definition by_key {A K} (k : A → K) (R : K → K → Prop) (x y : A) : Prop := R (k x) (k y).
#[export] Instance by_key_dec {A K} (k : A → K) R `{!RelDecision R} : RelDecision (by_key k R).
Proof. intros x y. unfold by_key. apply _. Defined.
#[export] Instance by_key_total {A K} (k : A → K) R `{!Total R} : Total (by_key k R).
Proof. intros x y. apply (total R). Qed.
#[export] Instance by_key_trans {A K} (k : A → K) R `{!Transitive R} : Transitive (by_key k R).
Proof. intros x y z. unfold by_key. by apply transitivity. Qed.
Definition sort_by {A K} (k : A → K) (R : K → K → Prop) `{!RelDecision R} (l : list A) : list A := merge_sort (by_key k R) l.

(** The sorted keys depend on the keys alone. *)
Lemma sort_by_keys {A K} (k : A → K) R `{!RelDecision R} `{!Total R} `{!Transitive R} `{!AntiSymm (=) R} (l1 l2 : list A) :
  k <$> l1 ≡ₚ k <$> l2 → k <$> sort_by k R l1 = k <$> sort_by k R l2.
Proof.
  intros Hp. unfold sort_by.
  assert (Hk : ∀ l, StronglySorted R (k <$> merge_sort (by_key k R) l)).
  { intros l. pose proof (StronglySorted_merge_sort (by_key k R) l) as Hs.
    induction Hs as [|x l' Hl IH Hx]; cbn; constructor; [done|]. by apply Forall_fmap. }
  apply (StronglySorted_unique R); [apply Hk..|]. by rewrite !merge_sort_Permutation.
Qed.

(** Where a key names one element, the order of the list does not matter. *)
Lemma sort_by_permutation {A K} (k : A → K) R `{!RelDecision R} `{!Total R} `{!Transitive R} `{!AntiSymm (=) R} (l1 l2 : list A) :
  (∀ x y, x ∈ l1 → y ∈ l1 → k x = k y → x = y) → l1 ≡ₚ l2 → sort_by k R l1 = sort_by k R l2.
Proof.
  intros Hin Hp. assert (Heq : k <$> sort_by k R l1 = k <$> sort_by k R l2) by (apply (sort_by_keys k R l1 l2); by rewrite Hp).
  assert (Hin' : ∀ x y, x ∈ sort_by k R l1 → y ∈ sort_by k R l2 → k x = k y → x = y).
  { intros x y. unfold sort_by. rewrite !merge_sort_Permutation, <-Hp. apply Hin. }
  revert Hin' Heq. generalize (sort_by k R l1) (sort_by k R l2). clear.
  intros l. induction l as [|x l IH]; intros [|y l'] Hin Heq; try done.
  cbn in Heq. injection Heq as Hxy Heq. f_equal; [apply Hin; [by left|by left|done]|].
  apply IH; [|done]. intros ?????. apply Hin; [by right..|done].
Qed.

(** * Snapshots *)

Record ObservedForeignKey := MkObservedFK { ofk_column : string; ofk_to_table : string; ofk_to_column : string }.
Record ObservedIndex := MkObservedIndex { oi_columns : list string; oi_unique : bool }.
Record ObservedColumn := MkObservedColumn {
  oc_name : string;
  oc_data_type : string;
  oc_nullable : bool;
  oc_primary_key : bool;
  oc_comment_fingerprint : option string;
}.
Record ObservedTable := MkObservedTable {
  ot_name : string;
  ot_columns : list ObservedColumn;
  ot_foreign_keys : list ObservedForeignKey;
  ot_indexes : list ObservedIndex;
  ot_comment_fingerprint : option string;
}.
Record ObservedSchemaSnapshot := MkSnapshot {
  os_connection_id : string;
  os_tables : list ObservedTable;
  os_fingerprint : string;
}.

#[export] Instance observed_fk_eq_dec : EqDecision ObservedForeignKey.
Proof. solve_decision. Defined.
#[export] Instance observed_index_eq_dec : EqDecision ObservedIndex.
Proof. solve_decision. Defined.
#[export] Instance observed_column_eq_dec : EqDecision ObservedColumn.
Proof. solve_decision. Defined.
#[export] Instance observed_table_eq_dec : EqDecision ObservedTable.
Proof. solve_decision. Defined.

(** The length constraints of the models, in characters. *)
Definition sized (most : Z) (s : string) : bool := (1 <=? char_count s)%Z && (char_count s <=? most)%Z.

(** The orders of names, keys and indexes. *)
Abbreviation name_le := (pair_le String.le String.le).
Abbreviation foreign_key_le := (pair_le String.le (pair_le String.le String.le)).
Abbreviation index_le := (pair_le (list_le String.le) bool_le).

Section snapshots.
Context `{CF : CaseFold} `{SL : StrLower} `{FT : FloatText} `{DG : Digest}.

Definition distinct_folded (names : list string) : bool := bool_decide (NoDup (map casefold names)).

Definition column_ok (c : ObservedColumn) : bool := sized 256 (oc_name c) && sized 1000 (oc_data_type c).
Definition foreign_key_ok (k : ObservedForeignKey) : bool := sized 256 (ofk_column k) && sized 256 (ofk_to_table k) && sized 256 (ofk_to_column k).
Definition index_ok (i : ObservedIndex) : bool :=
  Nat.leb 1 (length (oi_columns i)) && Nat.leb (length (oi_columns i)) 2000 && forallb (sized 256) (oi_columns i).
Definition observed_table_ok (t : ObservedTable) : bool :=
  sized 256 (ot_name t) && forallb column_ok (ot_columns t) && Nat.leb (length (ot_columns t)) 2000
  && forallb foreign_key_ok (ot_foreign_keys t) && Nat.leb (length (ot_foreign_keys t)) 4000
  && forallb index_ok (ot_indexes t) && Nat.leb (length (ot_indexes t)) 2000
  && distinct_folded (map oc_name (ot_columns t)).

Definition text_fingerprint (value : option string) : option string := sha256_hexdigest <$> value.

Definition json_of_option (o : option string) : json := match o with Some s => JStr s | None => JNull end.
Definition column_json (c : ObservedColumn) : json :=
  JObj [("name", JStr (oc_name c)); ("data_type", JStr (oc_data_type c)); ("nullable", JBool (oc_nullable c));
        ("primary_key", JBool (oc_primary_key c)); ("comment_fingerprint", json_of_option (oc_comment_fingerprint c))].
Definition foreign_key_json (k : ObservedForeignKey) : json :=
  JObj [("column", JStr (ofk_column k)); ("to_table", JStr (ofk_to_table k)); ("to_column", JStr (ofk_to_column k))].
Definition index_json (i : ObservedIndex) : json := JObj [("columns", JList (map JStr (oi_columns i))); ("unique", JBool (oi_unique i))].
Definition table_json (t : ObservedTable) : json :=
  JObj [("name", JStr (ot_name t)); ("columns", JList (map column_json (ot_columns t)));
        ("foreign_keys", JList (map foreign_key_json (ot_foreign_keys t))); ("indexes", JList (map index_json (ot_indexes t)));
        ("comment_fingerprint", json_of_option (ot_comment_fingerprint t))].

Definition canonical_payload (connection_id : string) (tables : list ObservedTable) : json :=
  JObj [("format_version", JInt 1); ("connection_id", JStr connection_id); ("tables", JList (map table_json tables))].
Definition payload_fingerprint (payload : json) : string := "sha256:" +:+ sha256_hexdigest (json_dumps payload).

(** The model's validators: an empty fingerprint is filled in, another must agree. *)
Definition snapshot_fingerprint (connection_id : string) (tables : list ObservedTable) : string :=
  payload_fingerprint (canonical_payload connection_id tables).
Definition snapshot_ok (connection_id : string) (tables : list ObservedTable) : bool :=
  sized 100 connection_id && forallb observed_table_ok tables && Nat.leb (length tables) 5000 && distinct_folded (map ot_name tables).
Definition validate_snapshot (connection_id : string) (tables : list ObservedTable) (fingerprint : string) : result ObservedSchemaSnapshot :=
  let expected := snapshot_fingerprint connection_id tables in
  if negb (snapshot_ok connection_id tables) || negb (str_empty fingerprint) && negb (bool_decide (fingerprint = expected))
  then Raise (ValueError "schema snapshot") else Ok (MkSnapshot connection_id tables expected).

(** ** From what a driver reflects *)

(** The parts of [sa.Table] that are read. *)
Record ReflectedColumn := MkReflectedColumn {
  rc_name : string; rc_type : string; rc_nullable : bool; rc_primary_key : bool; rc_comment : option string }.
Record ReflectedTable := MkReflectedTable {
  rt_name : string;
  rt_columns : list ReflectedColumn;
  rt_foreign_keys : list (string * string);
  rt_indexes : list (list string * bool);
  rt_comment : option string;
}.

Definition name_key (name : string) : string * string := (str_lower name, name).

Definition observe_column (c : ReflectedColumn) : ObservedColumn :=
  MkObservedColumn (rc_name c) (rc_type c) (rc_nullable c) (rc_primary_key c) (text_fingerprint (rc_comment c)).

(** The last two parts of the dotted target. *)
Definition observe_foreign_key (k : string * string) : result ObservedForeignKey :=
  match rev (split_on "."%char k.2) with
  | column :: table :: _ => Ok (MkObservedFK k.1 table column)
  | _ => Raise (BuiltinError "IndexError")
  end.
Definition foreign_key_key (k : ObservedForeignKey) : string * (string * string) := (ofk_column k, (ofk_to_table k, ofk_to_column k)).
Definition index_key (i : ObservedIndex) : list string * bool := (oi_columns i, oi_unique i).

Definition observe_table (t : ReflectedTable) : result ObservedTable :=
  map_result observe_foreign_key (rt_foreign_keys t) ≫= λ keys,
  Ok (MkObservedTable (rt_name t)
        (map observe_column (sort_by (λ c, name_key (rc_name c)) name_le (rt_columns t)))
        (sort_by foreign_key_key foreign_key_le keys)
        (sort_by index_key index_le (map (λ '(cols, u), MkObservedIndex cols u) (rt_indexes t)))
        (text_fingerprint (rt_comment t))).

Definition from_tables (connection_id : string) (tables : list ReflectedTable) : result ObservedSchemaSnapshot :=
  map_result observe_table (sort_by (λ t, name_key (rt_name t)) name_le tables) ≫= λ tables,
  validate_snapshot connection_id tables "".
End snapshots.

(** * Differences *)

Inductive SchemaChangeKind :=
| TableAdded | TableRemoved | ColumnAdded | ColumnRemoved | ColumnChanged | RelationshipsChanged | IndexesChanged | CommentChanged.
#[export] Instance change_kind_eq_dec : EqDecision SchemaChangeKind.
Proof. solve_decision. Defined.

(** [_column_signature], which is also what a change shows of a column. *)
Definition ColumnSignature : Type := string * bool * bool * option string.
Definition column_signature (c : ObservedColumn) : ColumnSignature :=
  (oc_data_type c, oc_nullable c, oc_primary_key c, oc_comment_fingerprint c).

Record SchemaChange := MkChange {
  sc_kind : SchemaChangeKind;
  sc_table : string;
  sc_column : option string;
  sc_before : option ColumnSignature;
  sc_after : option ColumnSignature;
}.
Record PossibleRename := MkRename { pr_from_name : string; pr_to_name : string; pr_table : option string }.
Record SchemaDiff := MkDiff {
  sd_before_fingerprint : string;
  sd_after_fingerprint : string;
  sd_changed : bool;
  sd_changes : list SchemaChange;
  sd_possible_renames : list PossibleRename;
}.

(** The elements of one list whose names the other lacks, or has. *)
Definition not_in {A} (name : A → string) (l k : list A) : list A := List.filter (λ x, negb (bool_decide (name x ∈ map name k))) l.
Definition find_name {A} (name : A → string) (n : string) (l : list A) : option A := List.find (λ x, bool_decide (name x = n)) l.
Definition in_both {A} (name : A → string) (l k : list A) : list (A * A) :=
  omap (λ x, (λ y, (x, y)) <$> find_name name (name x) k) l.

Section diffs.
Context `{SL : StrLower}.

Definition table_signature (t : ObservedTable) :=
  (map (λ c, (str_lower (oc_name c), column_signature c)) (ot_columns t), ot_foreign_keys t, ot_indexes t, ot_comment_fingerprint t).

(** Pairs that have each other's signature and share it with no one else. *)
Definition unique_rename_pairs {A S} `{!EqDecision S} (name : A → string) (signature : A → S) (removed added : list A) : list (string * string) :=
  omap (λ old,
    match List.filter (λ y, bool_decide (signature old = signature y)) added with
    | [y] => match List.filter (λ x, bool_decide (signature x = signature y)) removed with
             | [_] => Some (name old, name y)
             | _ => None
             end
    | _ => None
    end) removed.

Definition by_lower {A} (name : A → string) (l : list A) : list A := sort_on (λ x, str_lower (name x)) l.

Definition column_changes (old new : ObservedTable) : list SchemaChange :=
  map (λ c, MkChange ColumnRemoved (ot_name old) (Some (oc_name c)) None None) (by_lower oc_name (not_in oc_name (ot_columns old) (ot_columns new)))
  ++ map (λ c, MkChange ColumnAdded (ot_name old) (Some (oc_name c)) None None) (by_lower oc_name (not_in oc_name (ot_columns new) (ot_columns old)))
  ++ omap (λ '(c, d), if bool_decide (column_signature c = column_signature d) then None
                      else Some (MkChange ColumnChanged (ot_name old) (Some (oc_name c)) (Some (column_signature c)) (Some (column_signature d))))
       (by_lower (λ p, oc_name p.1) (in_both oc_name (ot_columns old) (ot_columns new))).

Definition change_if (b : bool) (kind : SchemaChangeKind) (table : string) : list SchemaChange :=
  if b then [MkChange kind table None None None] else [].

Definition table_changes (old new : ObservedTable) : list SchemaChange :=
  column_changes old new
  ++ change_if (negb (bool_decide (ot_foreign_keys old = ot_foreign_keys new))) RelationshipsChanged (ot_name old)
  ++ change_if (negb (bool_decide (ot_indexes old = ot_indexes new))) IndexesChanged (ot_name old)
  ++ change_if (negb (bool_decide (ot_comment_fingerprint old = ot_comment_fingerprint new))) CommentChanged (ot_name old).

Definition column_renames (old new : ObservedTable) : list PossibleRename :=
  map (λ '(a, b), MkRename a b (Some (ot_name old)))
    (unique_rename_pairs oc_name column_signature (not_in oc_name (ot_columns old) (ot_columns new)) (not_in oc_name (ot_columns new) (ot_columns old))).

(** The order of a set of names is taken to be that of the snapshot. *)
Definition diff_schema_snapshots (before after : ObservedSchemaSnapshot) : result SchemaDiff :=
  if negb (bool_decide (os_connection_id before = os_connection_id after))
  then Raise (ValueError "schema snapshots must belong to the same connection")
  else
    let removed := not_in ot_name (os_tables before) (os_tables after) in
    let added := not_in ot_name (os_tables after) (os_tables before) in
    let both := by_lower (λ p, ot_name p.1) (in_both ot_name (os_tables before) (os_tables after)) in
    Ok (MkDiff (os_fingerprint before) (os_fingerprint after) (negb (bool_decide (os_fingerprint before = os_fingerprint after)))
          (map (λ t, MkChange TableRemoved (ot_name t) None None None) (by_lower ot_name removed)
           ++ map (λ t, MkChange TableAdded (ot_name t) None None None) (by_lower ot_name added)
           ++ both ≫= λ '(old, new), table_changes old new)
          (map (λ '(a, b), MkRename a b None) (unique_rename_pairs ot_name table_signature removed added)
           ++ both ≫= λ '(old, new), column_renames old new)).
End diffs.

(** * What a snapshot depends on *)

Lemma map_result_permutation {A B} (f : A → result B) l1 l2 k1 : l1 ≡ₚ l2 → map_result f l1 = Ok k1 →
  ∃ k2, map_result f l2 = Ok k2 ∧ k1 ≡ₚ k2.
Proof.
  intros Hp. revert k1. induction Hp as [|x l1 l2 _ IH|x y l|l1 l2 l3 _ IH1 _ IH2]; intros k1 H.
  - by exists k1.
  - cbn in H |- *. apply bind_ok in H as (b & Hb & H). apply bind_ok in H as (k & Hk & [= <-]).
    destruct (IH k Hk) as (k2 & H2 & Hp2). rewrite Hb. cbn. rewrite H2. exists (b :: k2). split; [done|by constructor].
  - cbn in H |- *. apply bind_ok in H as (b & Hb & H). apply bind_ok in H as (k & Hk & [= <-]). apply bind_ok in Hk as (c & Hc & Hk).
    apply bind_ok in Hk as (m & Hm & [= <-]). rewrite Hc. cbn. rewrite Hb. cbn. rewrite Hm. cbn. eexists. split; [done|constructor].
  - destruct (IH1 k1 H) as (k2 & H2 & Hp2). destruct (IH2 k2 H2) as (k3 & H3 & Hp3). exists k3. split; [done|by trans k2].
Qed.

Section reflection.
Context `{CF : CaseFold} `{SL : StrLower} `{FT : FloatText} `{DG : Digest}.

(** One table reported twice, its parts in any order. *)
Record same_reflection (t u : ReflectedTable) : Prop := {
  sr_name : rt_name t = rt_name u;
  sr_columns : rt_columns t ≡ₚ rt_columns u;
  sr_keys : rt_foreign_keys t ≡ₚ rt_foreign_keys u;
  sr_indexes : rt_indexes t ≡ₚ rt_indexes u;
  sr_comment : rt_comment t = rt_comment u;
}.

Definition names_columns (t : ReflectedTable) : Prop := NoDup (map rc_name (rt_columns t)).

Lemma named_once {A} (name : A → string) (l : list A) x y : NoDup (map name l) → x ∈ l → y ∈ l → name x = name y → x = y.
Proof.
  intros Hnd Hx Hy Hxy. apply list_elem_of_lookup in Hx as [i Hi], Hy as [j Hj]. assert (i = j) as ->; [|congruence].
  eapply (NoDup_lookup (name <$> l)); [done|rewrite list_lookup_fmap, Hi; done|]. by rewrite list_lookup_fmap, Hj, Hxy.
Qed.

Lemma sort_by_name {A} (name : A → string) (l1 l2 : list A) : NoDup (map name l1) → l1 ≡ₚ l2 →
  sort_by (λ x, name_key (name x)) name_le l1 = sort_by (λ x, name_key (name x)) name_le l2.
Proof.
  intros Hnd Hp. apply sort_by_permutation; [apply _..| |done]. intros x y Hx Hy [= _ Hxy]. by eapply named_once.
Qed.

Lemma observe_same t u o : names_columns t → same_reflection t u → observe_table t = Ok o → observe_table u = Ok o.
Proof.
  intros Hn [Hname Hcols Hkeys Hix Hcom] H. unfold observe_table in *. apply bind_ok in H as (keys & Hk & [= <-]).
  destruct (map_result_permutation _ _ _ _ Hkeys Hk) as (keys' & -> & Hp). cbn. rewrite Hname, Hcom. do 2 f_equal.
  - f_equal. symmetry. by apply sort_by_name.
  - symmetry. apply sort_by_permutation; [apply _..| |done]. by intros [] [] _ _ [= -> -> ->].
  - symmetry. apply sort_by_permutation; [apply _..| |by rewrite Hix]. by intros [] [] _ _ [= -> ->].
Qed.

(** Whatever order a driver reports tables, columns, keys and indexes in, the
    snapshot is the same, and so is its fingerprint. *)
Theorem reflection_order_irrelevant connection_id ts ts' us s : NoDup (map rt_name ts) → Forall names_columns ts →
  ts ≡ₚ ts' → Forall2 same_reflection ts' us →
  from_tables connection_id ts = Ok s → from_tables connection_id us = Ok s.
Proof.
  intros Hnd Hcols Hp H2 H. unfold from_tables in *. apply bind_ok in H as (os & Hos & H).
  assert (Hs : ∀ l, sort_by (λ t, name_key (rt_name t)) name_le l ≡ₚ l) by (intros l; apply merge_sort_Permutation).
  destruct (map_result_permutation _ _ ts' _ (Permutation_trans (Hs ts) Hp) Hos) as (os' & Hos' & Hp').
  assert (Hus : map_result observe_table us = Ok os').
  { assert (Hc : Forall names_columns ts') by (by rewrite <-Hp). clear -H2 Hos' Hc. revert os' Hos'.
    induction H2 as [|t u ts' us Htu _ IH]; intros os' H; [done|]. cbn in H |- *. apply bind_ok in H as (o & Ho & H).
    apply bind_ok in H as (os & Hos & [= <-]). apply Forall_cons in Hc as [Ht Hc].
    rewrite (observe_same _ _ _ Ht Htu Ho). cbn. by rewrite (IH Hc os Hos). }
  destruct (map_result_permutation _ _ (sort_by (λ t, name_key (rt_name t)) name_le us) _ (Permutation_sym (Hs us)) Hus) as (os'' & Hus' & Hp'').
  rewrite Hus'. cbn. enough (os'' = os) as -> by done.
  assert (Hnames : ∀ l o, map_result observe_table l = Ok o → map ot_name o = map rt_name l).
  { clear. intros l. induction l as [|t l IH]; intros o H; cbn in H; [by injection H as <-|]. apply bind_ok in H as (x & Hx & H).
    apply bind_ok in H as (xs & Hxs & [= <-]). cbn. rewrite (IH _ Hxs). f_equal. unfold observe_table in Hx. by apply bind_ok in Hx as (? & _ & [= <-]). }
  assert (Hno : NoDup (map ot_name os)) by (rewrite (Hnames _ _ Hos); change (NoDup (rt_name <$> sort_by (λ t, name_key (rt_name t)) name_le ts)); by rewrite Hs).
  assert (Hpp : os ≡ₚ os'') by (by rewrite Hp', Hp'').
  symmetry. apply (fmap_key_inj ot_name).
  { intros x y Hx Hy. rewrite <-Hpp in Hy. intros Hxy. by apply (named_once ot_name os). }
  change (map ot_name os = map ot_name os''). rewrite (Hnames _ _ Hos), (Hnames _ _ Hus').
  assert (Hk : (λ t, name_key (rt_name t)) <$> sort_by (λ t, name_key (rt_name t)) name_le ts
    = (λ t, name_key (rt_name t)) <$> sort_by (λ t, name_key (rt_name t)) name_le us).
  { apply sort_by_keys; [apply _..|]. rewrite Hp. clear -H2. induction H2 as [|t u ts us Htu _ IH]; cbn; [done|]. by rewrite (sr_name _ _ Htu), IH. }
  apply (f_equal (map snd)) in Hk. change (map ?f (map ?g ?l)) with (f <$> (g <$> l)) in Hk. by rewrite <-!list_fmap_compose in Hk.
Qed.
End reflection.

(** * What a difference says *)

(** What is unlike between two snapshots, as a change names it. *)
Inductive unlike (before after : list ObservedTable) : SchemaChange → Prop :=
| UnlikeRemoved t : t ∈ before → ot_name t ∉ map ot_name after → unlike before after (MkChange TableRemoved (ot_name t) None None None)
| UnlikeAdded u : u ∈ after → ot_name u ∉ map ot_name before → unlike before after (MkChange TableAdded (ot_name u) None None None)
| UnlikeColumnRemoved t u c : t ∈ before → u ∈ after → ot_name t = ot_name u →
    c ∈ ot_columns t → oc_name c ∉ map oc_name (ot_columns u) →
    unlike before after (MkChange ColumnRemoved (ot_name t) (Some (oc_name c)) None None)
| UnlikeColumnAdded t u c : t ∈ before → u ∈ after → ot_name t = ot_name u →
    c ∈ ot_columns u → oc_name c ∉ map oc_name (ot_columns t) →
    unlike before after (MkChange ColumnAdded (ot_name t) (Some (oc_name c)) None None)
| UnlikeColumn t u c d : t ∈ before → u ∈ after → ot_name t = ot_name u →
    c ∈ ot_columns t → d ∈ ot_columns u → oc_name c = oc_name d → column_signature c ≠ column_signature d →
    unlike before after (MkChange ColumnChanged (ot_name t) (Some (oc_name c)) (Some (column_signature c)) (Some (column_signature d)))
| UnlikeKeys t u : t ∈ before → u ∈ after → ot_name t = ot_name u → ot_foreign_keys t ≠ ot_foreign_keys u →
    unlike before after (MkChange RelationshipsChanged (ot_name t) None None None)
| UnlikeIndexes t u : t ∈ before → u ∈ after → ot_name t = ot_name u → ot_indexes t ≠ ot_indexes u →
    unlike before after (MkChange IndexesChanged (ot_name t) None None None)
| UnlikeComment t u : t ∈ before → u ∈ after → ot_name t = ot_name u → ot_comment_fingerprint t ≠ ot_comment_fingerprint u →
    unlike before after (MkChange CommentChanged (ot_name t) None None None).

Lemma elem_of_not_in {A} (name : A → string) l k x : x ∈ not_in name l k ↔ x ∈ l ∧ name x ∉ map name k.
Proof. unfold not_in. by rewrite elem_of_lfilter, negb_true_iff, bool_decide_eq_false. Qed.

Lemma find_name_spec {A} (name : A → string) n l x : NoDup (map name l) → find_name name n l = Some x ↔ x ∈ l ∧ name x = n.
Proof.
  intros Hnd. unfold find_name. split.
  - intros [Hin Hx]%List.find_some. apply list_elem_of_In in Hin. by apply bool_decide_eq_true in Hx.
  - intros [Hin Hx]. destruct (List.find _ l) as [y|] eqn:E.
    + apply List.find_some in E as [Hy Hn]. apply list_elem_of_In in Hy. apply bool_decide_eq_true in Hn.
      f_equal. by apply (named_once name l y x); [..|congruence].
    + apply list_elem_of_In in Hin. apply (List.find_none _ _ E) in Hin. by apply bool_decide_eq_false in Hin.
Qed.

Lemma elem_of_in_both {A} (name : A → string) l k x y : NoDup (map name k) →
  (x, y) ∈ in_both name l k ↔ x ∈ l ∧ y ∈ k ∧ name x = name y.
Proof.
  intros Hnd. unfold in_both. rewrite list_elem_of_omap. split.
  - intros (z & Hz & H). apply fmap_Some in H as (w & Hw & [= -> ->]). apply find_name_spec in Hw as [Hw Hn]; [|done]. by split_and!.
  - intros (Hx & Hy & Hn). exists x. split; [done|]. apply fmap_Some. exists y. split; [|done]. by apply find_name_spec.
Qed.

Section diff_facts.
Context `{SL : StrLower}.

Lemma elem_of_by_lower {A} (name : A → string) l x : x ∈ by_lower name l ↔ x ∈ l.
Proof. unfold by_lower. by rewrite sort_on_permutation. Qed.

Lemma elem_of_change_if b kind t c : c ∈ change_if b kind t ↔ b = true ∧ c = MkChange kind t None None None.
Proof. destruct b; cbn; [rewrite list_elem_of_singleton; naive_solver|]. split; [by intros ?%not_elem_of_nil|by intros [? _]]. Qed.

Lemma elem_of_column_changes old new c : NoDup (map oc_name (ot_columns new)) →
  c ∈ column_changes old new ↔
  (∃ x, x ∈ ot_columns old ∧ oc_name x ∉ map oc_name (ot_columns new) ∧ c = MkChange ColumnRemoved (ot_name old) (Some (oc_name x)) None None)
  ∨ (∃ x, x ∈ ot_columns new ∧ oc_name x ∉ map oc_name (ot_columns old) ∧ c = MkChange ColumnAdded (ot_name old) (Some (oc_name x)) None None)
  ∨ (∃ x y, x ∈ ot_columns old ∧ y ∈ ot_columns new ∧ oc_name x = oc_name y ∧ column_signature x ≠ column_signature y
       ∧ c = MkChange ColumnChanged (ot_name old) (Some (oc_name x)) (Some (column_signature x)) (Some (column_signature y))).
Proof.
  intros Hnd. unfold column_changes. rewrite !elem_of_app, !elem_of_map, list_elem_of_omap.
  setoid_rewrite elem_of_by_lower. setoid_rewrite elem_of_not_in. split.
  - intros [(x & -> & H1 & H2)|[(x & -> & H1 & H2)|([x y] & Hxy & H)]]; [left; by exists x|right; left; by exists x|right; right].
    apply elem_of_in_both in Hxy as (Hx & Hy & Hn); [|done]. revert H. case_bool_decide; [done|]. intros [= <-]. by exists x, y.
  - intros [(x & H1 & H2 & ->)|[(x & H1 & H2 & ->)|(x & y & Hx & Hy & Hn & Hs & ->)]]; [left; by exists x|right; left; by exists x|right; right].
    exists (x, y). split; [by apply elem_of_in_both|]. by rewrite bool_decide_eq_false_2.
Qed.

(** Of two snapshots of a connection with unambiguous names, the difference lists
    exactly what is unlike in them: tables and columns that came or went, columns of
    another type, nullability, key or comment, and tables of other keys, indexes or
    comment. *)
Lemma changes_exact before after d c :
  NoDup (map ot_name (os_tables after)) → Forall (λ t, NoDup (map oc_name (ot_columns t))) (os_tables after) →
  diff_schema_snapshots before after = Ok d →
  c ∈ sd_changes d ↔ unlike (os_tables before) (os_tables after) c.
Proof.
  intros Hnd Hcols H. unfold diff_schema_snapshots in H. destruct (negb _); [done|]. injection H as <-. cbn [sd_changes].
  rewrite !elem_of_app, !elem_of_map, list_elem_of_bind. setoid_rewrite elem_of_by_lower. setoid_rewrite elem_of_not_in.
  assert (Hc : ∀ u, u ∈ os_tables after → NoDup (map oc_name (ot_columns u))) by (by apply Forall_forall).
  split.
  - intros [(t & -> & Ht & Hn)|[(u & -> & Hu & Hn)|([t u] & H & Htu)]]; [by constructor|by constructor|].
    apply elem_of_in_both in Htu as (Ht & Hu & Hn); [|done]. unfold table_changes in H.
    rewrite !elem_of_app, elem_of_column_changes, !elem_of_change_if, !negb_true_iff, !bool_decide_eq_false in H by auto.
    destruct H as [[(x & H1 & H2 & ->)|[(x & H1 & H2 & ->)|(x & y & Hx & Hy & Hxy & Hs & ->)]]|[[H1 ->]|[[H1 ->]|[H1 ->]]]];
      [by eapply UnlikeColumnRemoved|by eapply UnlikeColumnAdded|by eapply UnlikeColumn|by eapply UnlikeKeys|by eapply UnlikeIndexes|by eapply UnlikeComment].
  - assert (Hboth : ∀ t u, t ∈ os_tables before → u ∈ os_tables after → ot_name t = ot_name u → c ∈ table_changes t u →
      ∃ p, c ∈ (let '(old, new) := p in table_changes old new) ∧ p ∈ in_both ot_name (os_tables before) (os_tables after)).
    { intros t u Ht Hu Hn Hin. exists (t, u). split; [done|]. by apply elem_of_in_both. }
    intros H. destruct H as [t Ht Hn|u Hu Hn|t u x Ht Hu Hn Hx Hnx|t u x Ht Hu Hn Hx Hnx|t u x y Ht Hu Hn Hx Hy Hxy Hs|t u Ht Hu Hn Hd|t u Ht Hu Hn Hd|t u Ht Hu Hn Hd];
      [left; by exists t|right; left; by exists u|..]; right; right; apply (Hboth t u Ht Hu Hn); unfold table_changes;
      rewrite !elem_of_app, elem_of_column_changes, !elem_of_change_if, !negb_true_iff, !bool_decide_eq_false by auto; [left..|right|right|right].
    + left. by exists x.
    + right; left. by exists x.
    + right; right. by exists x, y.
    + by left.
    + right; by left.
    + right; by right.
Qed.

Lemma elem_of_unique_rename_pairs {A S} `{!EqDecision S} (name : A → string) (signature : A → S) removed added p :
  p ∈ unique_rename_pairs name signature removed added →
  ∃ old new, p = (name old, name new) ∧ old ∈ removed ∧ new ∈ added ∧ signature old = signature new
    ∧ (∀ y, y ∈ added → signature y = signature old → y = new) ∧ (∀ x, x ∈ removed → signature x = signature new → x = old).
Proof.
  unfold unique_rename_pairs. rewrite list_elem_of_omap. intros (old & Hold & H).
  destruct (List.filter _ added) as [|new [|]] eqn:Ea; try done.
  destruct (List.filter (λ x, bool_decide (signature x = signature new)) removed) as [|x [|]] eqn:Er; try done. injection H as <-.
  assert (Hnew : ∀ y, y ∈ added ∧ signature old = signature y ↔ y = new).
  { intros y. pose proof (elem_of_lfilter (λ y, bool_decide (signature old = signature y)) added y) as E.
    rewrite Ea, bool_decide_eq_true, list_elem_of_singleton in E. by symmetry. }
  assert (Hx : ∀ z, z ∈ removed ∧ signature z = signature new ↔ z = x).
  { intros z. pose proof (elem_of_lfilter (λ x, bool_decide (signature x = signature new)) removed z) as E.
    rewrite Er, bool_decide_eq_true, list_elem_of_singleton in E. by symmetry. }
  destruct (proj2 (Hnew new) eq_refl) as [Hin Hs]. assert (old = x) as <- by (by apply Hx).
  exists old, new. split_and!; [done..| |].
  - intros y Hy Hsy. apply Hnew. by split.
  - intros z Hz Hsz. by apply Hx.
Qed.

(** A rename is suggested of a table that went to one that came only when the two
    look alike in everything but the name, and neither looks like any other table that
    went or came. *)
Theorem renames_are_unambiguous before after d r : diff_schema_snapshots before after = Ok d → r ∈ sd_possible_renames d → pr_table r = None →
  ∃ old new, pr_from_name r = ot_name old ∧ pr_to_name r = ot_name new
    ∧ old ∈ os_tables before ∧ ot_name old ∉ map ot_name (os_tables after)
    ∧ new ∈ os_tables after ∧ ot_name new ∉ map ot_name (os_tables before)
    ∧ table_signature old = table_signature new
    ∧ (∀ y, y ∈ os_tables after → ot_name y ∉ map ot_name (os_tables before) → table_signature y = table_signature old → y = new)
    ∧ (∀ x, x ∈ os_tables before → ot_name x ∉ map ot_name (os_tables after) → table_signature x = table_signature new → x = old).
Proof.
  intros H Hr Hn. unfold diff_schema_snapshots in H. destruct (negb _); [done|]. injection H as <-. cbn [sd_possible_renames] in Hr.
  apply elem_of_app in Hr as [Hr|Hr].
  - apply elem_of_map in Hr as ([a b] & -> & Hab). apply elem_of_unique_rename_pairs in Hab as (old & new & [= -> ->] & Ho & Hnw & Hs & Hu1 & Hu2).
    apply elem_of_not_in in Ho as [Ho Ho'], Hnw as [Hnw Hnw']. exists old, new. cbn. split_and!; try done.
    + intros y Hy Hy' Hsy. apply Hu1; [by apply elem_of_not_in|done].
    + intros x Hx Hx' Hsx. apply Hu2; [by apply elem_of_not_in|done].
  - apply list_elem_of_bind in Hr as ([t u] & Hr & _). apply elem_of_map in Hr as ([a b] & -> & _). done.
Qed.
End diff_facts.
