(* ===== verification/CatalogModels.v ===== *)
(** The semantic catalog: its entries with their provenance, quarantined proposals,
    generation records, version history and usage signals ([catalog/models.py]), and
    the store that reads them ([catalog/loader.py]). Every validator of the models is
    here; [catalog_ok] is what the root model accepts. *)
From Stdlib Require Import Ascii.
From S2P Require Export Policy SchemaMemory.
Local Open Scope Z_scope.

(** * Provenance *)

Inductive KnowledgeSourceClass := ObservedSource | InferredSource | VerifiedSource | LearnedSource | ManualSource.
Inductive CatalogEntryStatus := DraftEntry | VerifiedEntry | RejectedEntry | StaleEntry | ArchivedEntry.
Inductive CatalogDraftObjectType := TableObject | ColumnObject | RelationshipObject.
Inductive CatalogEvidenceKind := ManualEvidence | SchemaEvidence | ModelEvidence | UsageEvidence | ImportEvidence.

#[export] Instance source_class_eq_dec : EqDecision KnowledgeSourceClass.
Proof. solve_decision. Defined.
#[export] Instance entry_status_eq_dec : EqDecision CatalogEntryStatus.
Proof. solve_decision. Defined.
#[export] Instance object_type_eq_dec : EqDecision CatalogDraftObjectType.
Proof. solve_decision. Defined.
#[export] Instance evidence_kind_eq_dec : EqDecision CatalogEvidenceKind.
Proof. solve_decision. Defined.

(** [CatalogPrecedence] and [_PRECEDENCE]. *)
Definition precedence (c : KnowledgeSourceClass) : Z :=
  match c with
  | LearnedSource => 100 | InferredSource => 200 | ObservedSource => 300 | VerifiedSource | ManualSource => 400
  end.

Record CatalogEvidence := MkEvidence { ev_kind : CatalogEvidenceKind; ev_reference : string }.

(** [str.isalnum] of every character but ["._:/-"]; beyond ASCII it asks Unicode. *)
Class ReferenceText := {
  redaction_safe : string → bool;
  redaction_safe_ascii s : isascii s = true → redaction_safe s =
    string_forall (λ c, is_alnum_ c && negb (bool_decide (c = "_"%char)) || existsb (Ascii.eqb c) ["."; "_"; ":"; "/"; "-"]%char) s;
}.

Record CatalogEntryProvenance := MkProvenance {
  pv_entry_id : string;
  pv_catalog_version : Z;
  pv_source_class : KnowledgeSourceClass;
  pv_source_evidence : list CatalogEvidence;
  pv_confidence : option float64;
  pv_status : CatalogEntryStatus;
  pv_schema_fingerprint : string;
  pv_created_by : option string;
  pv_approved_by : option string;
  pv_created_at : option Z;
  pv_approved_at : option Z;
  pv_model_id : option string;
  pv_prompt_template_version : option string;
}.

Definition UNBOUND : string := "urn:querygate:catalog:unbound".

(** The defaults of the model under what [_bind_provenance] fills in. *)
Definition bound_provenance (entry_id : string) (catalog_version : Z) (schema_fingerprint : string) : CatalogEntryProvenance :=
  MkProvenance entry_id catalog_version VerifiedSource [MkEvidence ManualEvidence "catalog.yaml"] (Some f64_one) VerifiedEntry
    schema_fingerprint None None None None None None.

Definition opt_sized (most : Z) (o : option string) : bool := match o with Some s => sized most s | None => true end.
Definition is_none {A} (o : option A) : bool := match o with None => true | Some _ => false end.

Section provenance.
Context `{RT : ReferenceText}.

Definition evidence_ok (e : CatalogEvidence) : bool := sized 256 (ev_reference e) && redaction_safe (ev_reference e).

Definition confidence_ok (o : option float64) : bool :=
  match o with Some f => SFleb f64_zero f && SFleb f f64_one | None => true end.

(** The field constraints and [_validate_state]. *)
Definition provenance_ok (p : CatalogEntryProvenance) : bool :=
  sized 160 (pv_entry_id p) && (1 <=? pv_catalog_version p)
  && Nat.leb 1 (length (pv_source_evidence p)) && Nat.leb (length (pv_source_evidence p)) 20 && forallb evidence_ok (pv_source_evidence p)
  && confidence_ok (pv_confidence p) && sized 80 (pv_schema_fingerprint p)
  && opt_sized 160 (pv_created_by p) && opt_sized 160 (pv_approved_by p) && opt_sized 160 (pv_model_id p) && opt_sized 80 (pv_prompt_template_version p)
  && negb (bool_decide (pv_status p = VerifiedEntry) && negb (bool_decide (pv_source_class p = VerifiedSource ∨ pv_source_class p = ObservedSource)))
  && negb (bool_decide (pv_source_class p = InferredSource ∨ pv_source_class p = LearnedSource) && is_none (pv_confidence p))
  && negb (negb (bool_decide (pv_source_class p = InferredSource)) && negb (is_none (pv_model_id p) && is_none (pv_prompt_template_version p))).
End provenance.

(** [replacement_decision]: whether, and why. *)
Definition replacement_decision (existing candidate : CatalogEntryProvenance) (field_name : string) (value_changes : bool) : bool * string :=
  if negb value_changes then (true, "value is unchanged")
  else if bool_decide (field_name = "sensitivity") then (false, "sensitivity labels are never changed by semantic-memory merging")
  else if bool_decide (pv_status existing = VerifiedEntry)
          && (negb (bool_decide (pv_source_class candidate = VerifiedSource)) || negb (bool_decide (pv_status candidate = VerifiedEntry)))
  then (false, "a draft or non-verified source cannot overwrite human-verified knowledge")
  else if negb (bool_decide (pv_status candidate = VerifiedEntry)) then (false, "candidate status is not publishable")
  else if precedence (pv_source_class candidate) <? precedence (pv_source_class existing)
  then (false, "candidate source has lower precedence than existing knowledge")
  else (true, "candidate meets the documented status and precedence rules").

Definition agent_visible (p : CatalogEntryProvenance) : bool :=
  negb (bool_decide (pv_status p = RejectedEntry ∨ pv_status p = ArchivedEntry)).

(** * Entries *)

Record RelationshipHint := MkRelationship {
  rh_to_table : string;
  rh_column : string;
  rh_to_column : string;
  rh_description : option string;
  rh_provenance : CatalogEntryProvenance;
}.
Record ColumnCatalogEntry := MkColumnEntry {
  ce_description : option string;
  ce_aliases : list string;
  ce_sensitivity : SensitivityClass;
  ce_allow_samples : bool;
  ce_provenance : CatalogEntryProvenance;
}.
Record TableCatalogEntry := MkTableEntry {
  te_description : option string;
  te_aliases : list string;
  te_sensitivity : SensitivityClass;
  te_default_aggregation : option string;
  te_allow_samples : bool;
  te_relationships : list RelationshipHint;
  te_columns : dict ColumnCatalogEntry;
  te_provenance : CatalogEntryProvenance;
}.

Section entries.
Context `{CF : CaseFold} `{RT : ReferenceText}.

Definition relationship_identity (r : RelationshipHint) : string * string * string :=
  (casefold (rh_column r), casefold (rh_to_table r), casefold (rh_to_column r)).

Definition only_verified_protects (s : SensitivityClass) (samples : bool) (p : CatalogEntryProvenance) : bool :=
  bool_decide (pv_source_class p = VerifiedSource) || bool_decide (s = SENS_NONE) && negb samples.

Definition column_entry_ok (c : ColumnCatalogEntry) : bool :=
  provenance_ok (ce_provenance c) && only_verified_protects (ce_sensitivity c) (ce_allow_samples c) (ce_provenance c).

Definition table_entry_ok (t : TableCatalogEntry) : bool :=
  provenance_ok (te_provenance t) && forallb (λ r, provenance_ok (rh_provenance r)) (te_relationships t)
  && forallb (λ e, column_entry_ok e.2) (te_columns t)
  && bool_decide (NoDup (map relationship_identity (te_relationships t)))
  && distinct_folded (dict_keys (te_columns t))
  && only_verified_protects (te_sensitivity t) (te_allow_samples t) (te_provenance t).

(** The first entry whose name folds to the same text. *)
Fixpoint cf_find {A} (name : string) (d : dict A) : option (string * A) :=
  match d with [] => None | (k, v) :: d => if bool_decide (casefold k = casefold name) then Some (k, v) else cf_find name d end.
Definition casefold_lookup {A} (d : dict A) (name : string) : option string := fst <$> cf_find name d.
Definition column_of (t : TableCatalogEntry) (name : string) : option ColumnCatalogEntry := snd <$> cf_find name (te_columns t).
End entries.

(** * Proposals *)

Record CatalogDraftTarget := MkTarget {
  tg_connection_id : string;
  tg_object_type : CatalogDraftObjectType;
  tg_table : string;
  tg_column : option string;
  tg_to_table : option string;
  tg_to_column : option string;
}.
#[export] Instance target_eq_dec : EqDecision CatalogDraftTarget.
Proof. solve_decision. Defined.

(** A truthy optional text. *)
Definition given (o : option string) : bool := match o with Some s => negb (str_empty s) | None => false end.

Definition target_ok (t : CatalogDraftTarget) : bool :=
  sized 100 (tg_connection_id t) && sized 128 (tg_table t) && opt_sized 128 (tg_column t) && opt_sized 128 (tg_to_table t) && opt_sized 128 (tg_to_column t)
  && match tg_object_type t with
     | TableObject => negb (given (tg_column t) || given (tg_to_table t) || given (tg_to_column t))
     | ColumnObject => negb (is_none (tg_column t)) && is_none (tg_to_table t) && is_none (tg_to_column t)
     | RelationshipObject => negb (is_none (tg_column t)) && negb (is_none (tg_to_table t)) && negb (is_none (tg_to_column t))
     end.

Record CatalogDraftContent := MkContent {
  ct_description : option string;
  ct_aliases : list string;
  ct_default_aggregation : option string;
}.
#[export] Instance content_eq_dec : EqDecision CatalogDraftContent.
Proof. solve_decision. Defined.

Definition invalid : exn := BuiltinError "ValidationError".

Section content.
Context `{CF : CaseFold}.

Definition content_ok (c : CatalogDraftContent) : bool :=
  opt_sized 2000 (ct_description c) && forallb (sized 100) (ct_aliases c) && Nat.leb (length (ct_aliases c)) 20
  && opt_sized 500 (ct_default_aggregation c)
  && negb (is_none (ct_description c) && is_nil (ct_aliases c) && is_none (ct_default_aggregation c))
  && distinct_folded (ct_aliases c).

(** Construction strips the texts before it measures them. *)
Definition make_content (description : option string) (aliases : list string) (default_aggregation : option string) : result CatalogDraftContent :=
  let c := MkContent (strip <$> description) (map strip aliases) (strip <$> default_aggregation) in
  if content_ok c then Ok c else Raise invalid.
End content.

Inductive ProposalReviewStatus := PendingReview | ApprovedReview | RejectedReview | PublishedReview.
Inductive ProposalReviewAction := EditedAction | ApprovedAction | RejectedAction | PublishedAction | RolledBackAction.
#[export] Instance review_status_eq_dec : EqDecision ProposalReviewStatus.
Proof. solve_decision. Defined.
#[export] Instance review_action_eq_dec : EqDecision ProposalReviewAction.
Proof. solve_decision. Defined.

Record ProposalReviewEvent := MkReviewEvent { re_action : ProposalReviewAction; re_actor : string; re_occurred_at : Z; re_reason : option string }.

Record CatalogDraftProposal := MkProposal {
  pp_proposal_id : string;
  pp_generation_id : string;
  pp_target : CatalogDraftTarget;
  pp_content : CatalogDraftContent;
  pp_provenance : CatalogEntryProvenance;
  pp_review_status : ProposalReviewStatus;
  pp_review_history : list ProposalReviewEvent;
  pp_published_entry_id : option string;
  pp_published_version_id : option string;
}.

Definition review_event_ok (e : ProposalReviewEvent) : bool := sized 160 (re_actor e) && opt_sized 500 (re_reason e).

(** [_quarantine_inferred_content] and the checks the operations repeat. *)
Definition content_fits_target (target : CatalogDraftTarget) (content : CatalogDraftContent) : bool :=
  negb (negb (bool_decide (tg_object_type target = TableObject)) && negb (is_none (ct_default_aggregation content)))
  && negb (bool_decide (tg_object_type target = RelationshipObject) && negb (is_nil (ct_aliases content))).

Section proposals.
Context `{CF : CaseFold} `{RT : ReferenceText}.

Definition proposal_ok (p : CatalogDraftProposal) : bool :=
  sized 160 (pp_proposal_id p) && sized 120 (pp_generation_id p) && target_ok (pp_target p) && content_ok (pp_content p)
  && provenance_ok (pp_provenance p) && forallb review_event_ok (pp_review_history p) && Nat.leb (length (pp_review_history p)) 50
  && opt_sized 160 (pp_published_entry_id p) && opt_sized 40 (pp_published_version_id p)
  && bool_decide (pv_entry_id (pp_provenance p) = pp_proposal_id p)
  && bool_decide (pv_source_class (pp_provenance p) = InferredSource ∨ pv_source_class (pp_provenance p) = LearnedSource
                  ∨ pv_source_class (pp_provenance p) = ManualSource)
  && bool_decide (pv_status (pp_provenance p) = DraftEntry ∨ pv_status (pp_provenance p) = StaleEntry)
  && content_fits_target (pp_target p) (pp_content p)
  && (if bool_decide (pp_review_status p = PublishedReview)
      then negb (is_none (pp_published_entry_id p)) && negb (is_none (pp_published_version_id p))
      else is_none (pp_published_entry_id p) && is_none (pp_published_version_id p))
  && (negb (bool_decide (pp_review_status p = RejectedReview))
      || existsb (λ e, bool_decide (re_action e = RejectedAction) && given (re_reason e)) (pp_review_history p)).
End proposals.

(** * History *)

Inductive CatalogVersionAction := PublishVersion | RollbackVersion.
Inductive CatalogVersionStatus := ActiveVersion | RevertedVersion.
Inductive ChangeKind := CreatedEntry | UpdatedEntry | RemovedEntry.
#[export] Instance version_action_eq_dec : EqDecision CatalogVersionAction.
Proof. solve_decision. Defined.
#[export] Instance catalog_version_status_eq_dec : EqDecision CatalogVersionStatus.
Proof. solve_decision. Defined.
#[export] Instance entry_change_kind_eq_dec : EqDecision ChangeKind.
Proof. solve_decision. Defined.

Record CatalogVersionChange := MkVersionChange {
  vc_target : CatalogDraftTarget;
  vc_change : ChangeKind;
  vc_before : option CatalogDraftContent;
  vc_after : option CatalogDraftContent;
}.
(** The model admits exactly one change to a record. *)
Record CatalogVersionRecord := MkVersionRecord {
  vr_version_id : string;
  vr_action : CatalogVersionAction;
  vr_status : CatalogVersionStatus;
  vr_actor : string;
  vr_occurred_at : Z;
  vr_proposal_id : option string;
  vr_rolled_back_version_id : option string;
  vr_change : CatalogVersionChange;
}.
Record CatalogGenerationRecord := MkGeneration {
  gr_generation_id : string;
  gr_connection_id : string;
  gr_provider_mode : string;
  gr_provider_id : string;
  gr_prompt_template_version : string;
  gr_schema_fingerprint : string;
  gr_input_fingerprint : string;
  gr_proposal_ids : list string;
  gr_created_by : option string;
  gr_created_at : option Z;
}.

Inductive CatalogUsageSignalKind := TableUsed | ColumnUsed | RelationshipUsed.
#[export] Instance signal_kind_eq_dec : EqDecision CatalogUsageSignalKind.
Proof. solve_decision. Defined.

Record CatalogUsageSignal := MkSignal {
  us_signal_id : string;
  us_connection_id : string;
  us_principal_partition : string;
  us_target : CatalogDraftTarget;
  us_kind : CatalogUsageSignalKind;
  us_schema_fingerprint : string;
  us_observed_at : Z;
  us_evidence : CatalogEvidence;
}.

Definition object_type_for (k : CatalogUsageSignalKind) : CatalogDraftObjectType :=
  match k with TableUsed => TableObject | ColumnUsed => ColumnObject | RelationshipUsed => RelationshipObject end.

(** ["sha256:"] and lowercase hexadecimal digits. *)
Definition sha256_text (s : string) : bool :=
  String.prefix "sha256:" s && string_forall is_hex (String.substring 7 (String.length s - 7) s).

Section history.
Context `{CF : CaseFold} `{RT : ReferenceText}.

Definition version_change_ok (c : CatalogVersionChange) : bool :=
  target_ok (vc_target c)
  && match vc_before c with Some b => content_ok b | None => true end && match vc_after c with Some a => content_ok a | None => true end
  && match vc_change c with
     | CreatedEntry => is_none (vc_before c) && negb (is_none (vc_after c))
     | RemovedEntry => negb (is_none (vc_before c)) && is_none (vc_after c)
     | UpdatedEntry => true
     end.

Definition version_record_ok (r : CatalogVersionRecord) : bool :=
  sized 40 (vr_version_id r) && sized 160 (vr_actor r) && opt_sized 160 (vr_proposal_id r) && opt_sized 40 (vr_rolled_back_version_id r)
  && version_change_ok (vr_change r)
  && match vr_action r with PublishVersion => negb (is_none (vr_proposal_id r)) | RollbackVersion => negb (is_none (vr_rolled_back_version_id r)) end.

Definition generation_ok (r : CatalogGenerationRecord) : bool :=
  sized 120 (gr_generation_id r) && sized 100 (gr_connection_id r)
  && bool_decide (gr_provider_mode r = "manual" ∨ gr_provider_mode r = "usage-learner")
  && sized 160 (gr_provider_id r) && sized 80 (gr_prompt_template_version r) && sized 80 (gr_schema_fingerprint r)
  && (char_count (gr_input_fingerprint r) =? 71) && sha256_text (gr_input_fingerprint r)
  && forallb (sized 160) (gr_proposal_ids r) && Nat.leb (length (gr_proposal_ids r)) 200 && bool_decide (NoDup (gr_proposal_ids r))
  && opt_sized 160 (gr_created_by r).

Definition signal_ok (s : CatalogUsageSignal) : bool :=
  sized 160 (us_signal_id s) && sized 100 (us_connection_id s) && sized 80 (us_principal_partition s) && sha256_text (us_principal_partition s)
  && target_ok (us_target s) && sized 80 (us_schema_fingerprint s) && evidence_ok (us_evidence s)
  && bool_decide (tg_connection_id (us_target s) = us_connection_id s)
  && bool_decide (tg_object_type (us_target s) = object_type_for (us_kind s))
  && bool_decide (ev_kind (us_evidence s) = UsageEvidence).
End history.

(** * The catalog *)

Record SchemaCatalog := MkCatalog {
  cg_version : Z;
  cg_connections : dict (dict TableCatalogEntry);
  cg_schema_snapshots : dict ObservedSchemaSnapshot;
  cg_draft_proposals : list CatalogDraftProposal;
  cg_generation_records : list CatalogGenerationRecord;
  cg_version_history : list CatalogVersionRecord;
  cg_usage_signals : list CatalogUsageSignal;
}.

Section catalog.
Context `{CF : CaseFold} `{SL : StrLower} `{FT : FloatText} `{DG : Digest} `{RT : ReferenceText}.

Definition table_entry_ids (t : TableCatalogEntry) : list string :=
  pv_entry_id (te_provenance t) :: map (λ e, pv_entry_id (ce_provenance e.2)) (te_columns t)
  ++ map (λ r, pv_entry_id (rh_provenance r)) (te_relationships t).
Definition entry_ids (c : SchemaCatalog) : list string :=
  (cg_connections c ≫= λ '(_, tables), tables ≫= λ '(_, t), table_entry_ids t)
  ++ map (λ p, pv_entry_id (pp_provenance p)) (cg_draft_proposals c).

Definition proposal_ids (c : SchemaCatalog) : list string := map pp_proposal_id (cg_draft_proposals c).
Definition generation_ids (c : SchemaCatalog) : list string := map gr_generation_id (cg_generation_records c).
Definition version_ids (c : SchemaCatalog) : list string := map vr_version_id (cg_version_history c).

Definition find_by {A} (id : A → string) (key : string) (l : list A) : option A := List.find (λ x, bool_decide (id x = key)) l.
Definition get_draft_proposal (c : SchemaCatalog) (id : string) : option CatalogDraftProposal := find_by pp_proposal_id id (cg_draft_proposals c).
Definition get_generation_record (c : SchemaCatalog) (id : string) : option CatalogGenerationRecord := find_by gr_generation_id id (cg_generation_records c).
Definition get_version_record (c : SchemaCatalog) (id : string) : option CatalogVersionRecord := find_by vr_version_id id (cg_version_history c).

Definition mem (x : string) (l : list string) : bool := bool_decide (x ∈ l).

Definition generation_refs_ok (c : SchemaCatalog) (r : CatalogGenerationRecord) : bool :=
  forallb (λ id, match get_draft_proposal c id with Some p => bool_decide (pp_generation_id p = gr_generation_id r) | None => false end)
    (gr_proposal_ids r).
Definition proposal_refs_ok (c : SchemaCatalog) (p : CatalogDraftProposal) : bool :=
  match get_generation_record c (pp_generation_id p) with Some r => mem (pp_proposal_id p) (gr_proposal_ids r) | None => false end
  && match pp_published_version_id p with Some v => mem v (version_ids c) | None => true end.
Definition version_refs_ok (c : SchemaCatalog) (r : CatalogVersionRecord) : bool :=
  match vr_proposal_id r with Some id => mem id (proposal_ids c) | None => true end
  && match vr_rolled_back_version_id r with Some id => mem id (version_ids c) | None => true end.

(** The models of the parts, and [_snapshot_keys_match_connections]. *)
Definition parts_ok (c : SchemaCatalog) : bool :=
  forallb (λ '(_, tables), forallb (λ e, table_entry_ok e.2) tables && distinct_folded (dict_keys tables)) (cg_connections c)
  && forallb (λ e, is_ok (validate_snapshot (os_connection_id e.2) (os_tables e.2) (os_fingerprint e.2))) (cg_schema_snapshots c)
  && forallb proposal_ok (cg_draft_proposals c) && forallb generation_ok (cg_generation_records c)
  && forallb version_record_ok (cg_version_history c) && (Z.of_nat (length (cg_version_history c)) <=? 2000)
  && forallb signal_ok (cg_usage_signals c) && (Z.of_nat (length (cg_usage_signals c)) <=? 50000).

Definition catalog_ok (c : SchemaCatalog) : bool :=
  ((cg_version c =? 1) || (cg_version c =? 2)) && parts_ok c
  && (negb (cg_version c =? 1)
      || is_nil (cg_schema_snapshots c) && is_nil (cg_draft_proposals c) && is_nil (cg_generation_records c) && is_nil (cg_usage_signals c))
  && bool_decide (NoDup (map us_signal_id (cg_usage_signals c)))
  && forallb (λ '(k, s), bool_decide (k = os_connection_id s)) (cg_schema_snapshots c)
  && bool_decide (NoDup (List.filter (λ i, negb (bool_decide (i = UNBOUND))) (entry_ids c)))
  && bool_decide (NoDup (proposal_ids c)) && bool_decide (NoDup (generation_ids c))
  && forallb (generation_refs_ok c) (cg_generation_records c) && forallb (proposal_refs_ok c) (cg_draft_proposals c)
  && bool_decide (NoDup (version_ids c)) && forallb (version_refs_ok c) (cg_version_history c).

(** [CatalogStore.replace]: the entries of a store are bound already. *)
Definition replace (c : SchemaCatalog) : result SchemaCatalog := if catalog_ok c then Ok c else Raise invalid.

(** ** [CatalogStore] *)

Definition unit_separated (l : list string) : string := String.concat (String (ascii_of_nat 31) "") l.
Definition stable_entry_id (parts : list string) : string :=
  "urn:querygate:catalog:" +:+ String.substring 0 32 (sha256_hexdigest (unit_separated (map casefold parts))).

Definition tables_of (c : SchemaCatalog) (connection_id : string) : dict TableCatalogEntry := default [] (dict_get connection_id (cg_connections c)).
Definition get_table (c : SchemaCatalog) (connection_id name : string) : option TableCatalogEntry := snd <$> cf_find name (tables_of c connection_id).
Definition get_schema_snapshot (c : SchemaCatalog) (connection_id : string) : option ObservedSchemaSnapshot := dict_get connection_id (cg_schema_snapshots c).
Definition current_fingerprint (c : SchemaCatalog) (connection_id : string) : string :=
  match get_schema_snapshot c connection_id with Some s => os_fingerprint s | None => "untracked" end.
Definition iter_draft_proposals (c : SchemaCatalog) (connection_id : string) : list CatalogDraftProposal :=
  List.filter (λ p, bool_decide (tg_connection_id (pp_target p) = connection_id)) (cg_draft_proposals c).
Definition iter_usage_signals (c : SchemaCatalog) (connection_id : string) : list CatalogUsageSignal :=
  List.filter (λ s, bool_decide (us_connection_id s = connection_id)) (cg_usage_signals c).

(** The proposal a record comes from, its own or that of the version it took back. *)
Definition source_proposal (c : SchemaCatalog) (r : CatalogVersionRecord) : option string :=
  match vr_proposal_id r, vr_rolled_back_version_id r with
  | Some id, _ => Some id
  | None, Some v => get_version_record c v ≫= vr_proposal_id
  | None, None => None
  end.
Definition iter_version_history (c : SchemaCatalog) (connection_id : string) : list CatalogVersionRecord :=
  List.filter (λ r,
    match source_proposal c r ≫= get_draft_proposal c with
    | Some p => bool_decide (tg_connection_id (pp_target p) = connection_id)
    | None => false
    end) (rev (cg_version_history c)).

(** ** [visible_relationships] *)

Definition visible_relationships (t : TableCatalogEntry) (policy : Policy) (from_table : option string) : list RelationshipHint :=
  List.filter (λ r,
    agent_visible (rh_provenance r) && table_allowed policy (rh_to_table r)
    && match from_table with Some f => column_allowed policy f (rh_column r) | None => true end
    && column_allowed policy (rh_to_table r) (rh_to_column r)) (te_relationships t).
End catalog.
