(* ===== verification/CatalogGovernance.v ===== *)
(** Governed changes to the catalog ([catalog/governance.py]): manual proposals, edits,
    approval and rejection, publication into an entry, rollback, export and import,
    and deletion, each from the stored catalog to the one to be stored. What they keep
    is shown in [CatalogFacts] and [CatalogPublish]. *)
From Stdlib Require Import Ascii.
From stdpp Require Import pretty sorting.
From S2P Require Export CatalogModels Scopes.
Local Open Scope Z_scope.

Definition CatalogGovernanceError : exn := BuiltinError "CatalogGovernanceError".
Definition unknown_proposal (id : string) : exn := NotFoundError ("Unknown catalog proposal: '" +:+ id +:+ "'").
Definition unknown_catalog_version (id : string) : exn := NotFoundError ("Unknown catalog version: '" +:+ id +:+ "'").
Definition _BULK_LIMIT : nat := 50.

Record CatalogGovernanceUpdate := MkUpdate {
  up_store : SchemaCatalog;
  up_outcome : string;
  up_proposal_id : option string;
  up_proposal_ids : list string;
  up_version_id : option string;
  up_entry_id : option string;
  up_rolled_back_version_id : option string;
}.

(** Writing to the durable record. *)
Definition set_tables (connection_id : string) (t : dict TableCatalogEntry) (c : SchemaCatalog) : SchemaCatalog :=
  MkCatalog (cg_version c) (dict_set connection_id t (cg_connections c)) (cg_schema_snapshots c) (cg_draft_proposals c) (cg_generation_records c)
    (cg_version_history c) (cg_usage_signals c).
Definition set_proposals (l : list CatalogDraftProposal) (c : SchemaCatalog) : SchemaCatalog :=
  MkCatalog (cg_version c) (cg_connections c) (cg_schema_snapshots c) l (cg_generation_records c) (cg_version_history c) (cg_usage_signals c).
Definition set_generations (l : list CatalogGenerationRecord) (c : SchemaCatalog) : SchemaCatalog :=
  MkCatalog (cg_version c) (cg_connections c) (cg_schema_snapshots c) (cg_draft_proposals c) l (cg_version_history c) (cg_usage_signals c).
Definition set_versions (l : list CatalogVersionRecord) (c : SchemaCatalog) : SchemaCatalog :=
  MkCatalog (cg_version c) (cg_connections c) (cg_schema_snapshots c) (cg_draft_proposals c) (cg_generation_records c) l (cg_usage_signals c).
Definition set_snapshots (d : dict ObservedSchemaSnapshot) (c : SchemaCatalog) : SchemaCatalog :=
  MkCatalog (cg_version c) (cg_connections c) d (cg_draft_proposals c) (cg_generation_records c) (cg_version_history c) (cg_usage_signals c).

Definition on_proposal (id : string) (f : CatalogDraftProposal → CatalogDraftProposal) (c : SchemaCatalog) : SchemaCatalog :=
  set_proposals (map (λ p, if bool_decide (pp_proposal_id p = id) then f p else p) (cg_draft_proposals c)) c.

Definition log_event (e : ProposalReviewEvent) (p : CatalogDraftProposal) : CatalogDraftProposal :=
  MkProposal (pp_proposal_id p) (pp_generation_id p) (pp_target p) (pp_content p) (pp_provenance p) (pp_review_status p)
    (pp_review_history p ++ [e]) (pp_published_entry_id p) (pp_published_version_id p).
Definition with_status (s : ProposalReviewStatus) (p : CatalogDraftProposal) : CatalogDraftProposal :=
  MkProposal (pp_proposal_id p) (pp_generation_id p) (pp_target p) (pp_content p) (pp_provenance p) s
    (pp_review_history p) (pp_published_entry_id p) (pp_published_version_id p).
Definition with_content (content : CatalogDraftContent) (p : CatalogDraftProposal) : CatalogDraftProposal :=
  MkProposal (pp_proposal_id p) (pp_generation_id p) (pp_target p) content (pp_provenance p) (pp_review_status p)
    (pp_review_history p) (pp_published_entry_id p) (pp_published_version_id p).
Definition as_published (entry_id version_id : string) (p : CatalogDraftProposal) : CatalogDraftProposal :=
  MkProposal (pp_proposal_id p) (pp_generation_id p) (pp_target p) (pp_content p) (pp_provenance p) PublishedReview
    (pp_review_history p) (Some entry_id) (Some version_id).

(** * Entries as a publication sees them *)

Inductive ContentField := DescriptionField | AliasesField | AggregationField.
#[export] Instance content_field_eq_dec : EqDecision ContentField.
Proof. solve_decision. Defined.
Definition _CONTENT_FIELDS : list ContentField := [DescriptionField; AliasesField; AggregationField].
Definition field_name (f : ContentField) : string :=
  match f with DescriptionField => "description" | AliasesField => "aliases" | AggregationField => "default_aggregation" end.

Record Entity := MkEntity {
  en_description : option string;
  en_aliases : list string;
  en_default_aggregation : option string;
  en_provenance : CatalogEntryProvenance;
}.
Definition table_entity (t : TableCatalogEntry) : Entity := MkEntity (te_description t) (te_aliases t) (te_default_aggregation t) (te_provenance t).
Definition column_entity (c : ColumnCatalogEntry) : Entity := MkEntity (ce_description c) (ce_aliases c) None (ce_provenance c).
Definition relationship_entity (r : RelationshipHint) : Entity := MkEntity (rh_description r) [] None (rh_provenance r).

(** A falsy value is no value. *)
Definition entity_has (e : Entity) (f : ContentField) : bool :=
  match f with
  | DescriptionField => given (en_description e) | AliasesField => negb (is_nil (en_aliases e)) | AggregationField => given (en_default_aggregation e)
  end.
Definition touched_fields (c : CatalogDraftContent) : list ContentField :=
  List.filter (λ f, match f with
    | DescriptionField => negb (is_none (ct_description c)) | AliasesField => negb (is_nil (ct_aliases c))
    | AggregationField => negb (is_none (ct_default_aggregation c)) end) _CONTENT_FIELDS.

Definition value_changes (e : Entity) (c : CatalogDraftContent) (f : ContentField) : bool :=
  match f with
  | DescriptionField => negb (bool_decide ((if entity_has e DescriptionField then en_description e else None) = ct_description c))
  | AliasesField => negb (bool_decide (sort_on (λ s, s) (en_aliases e) = sort_on (λ s, s) (ct_aliases c)))
  | AggregationField => negb (bool_decide ((if entity_has e AggregationField then en_default_aggregation e else None) = ct_default_aggregation c))
  end.

Definition no_entity : Entity := MkEntity None [] None (bound_provenance UNBOUND 2 "untracked").

(** The values of some fields, the others absent. *)
Definition pick (fields : list ContentField) (description : option string) (aliases : list string) (aggregation : option string) :
  option string * list string * option string :=
  (if bool_decide (DescriptionField ∈ fields) then description else None,
   if bool_decide (AliasesField ∈ fields) then aliases else [],
   if bool_decide (AggregationField ∈ fields) then aggregation else None).

(** Writing the content of a proposal over an entry. *)
Definition write_fields (fields : list ContentField) (c : CatalogDraftContent) (p : CatalogEntryProvenance) (e : Entity) : Entity :=
  MkEntity (if bool_decide (DescriptionField ∈ fields) then ct_description c else en_description e)
    (if bool_decide (AliasesField ∈ fields) then ct_aliases c else en_aliases e)
    (if bool_decide (AggregationField ∈ fields) then ct_default_aggregation c else en_default_aggregation e) p.

Definition table_with (e : Entity) (t : TableCatalogEntry) : TableCatalogEntry :=
  MkTableEntry (en_description e) (en_aliases e) (te_sensitivity t) (en_default_aggregation e) (te_allow_samples t) (te_relationships t) (te_columns t)
    (en_provenance e).
Definition table_with_columns (d : dict ColumnCatalogEntry) (t : TableCatalogEntry) : TableCatalogEntry :=
  MkTableEntry (te_description t) (te_aliases t) (te_sensitivity t) (te_default_aggregation t) (te_allow_samples t) (te_relationships t) d (te_provenance t).
Definition table_with_relationships (l : list RelationshipHint) (t : TableCatalogEntry) : TableCatalogEntry :=
  MkTableEntry (te_description t) (te_aliases t) (te_sensitivity t) (te_default_aggregation t) (te_allow_samples t) l (te_columns t) (te_provenance t).
Definition column_with (e : Entity) (c : ColumnCatalogEntry) : ColumnCatalogEntry :=
  MkColumnEntry (en_description e) (en_aliases e) (ce_sensitivity c) (ce_allow_samples c) (en_provenance e).
Definition relationship_with (target : CatalogDraftTarget) (e : Entity) : RelationshipHint :=
  MkRelationship (default "" (tg_to_table target)) (default "" (tg_column target)) (default "" (tg_to_column target)) (en_description e) (en_provenance e).

Section governance.
Context `{CF : CaseFold} `{SL : StrLower} `{FT : FloatText} `{DG : Digest} `{RT : ReferenceText}.

Definition column_name (t : CatalogDraftTarget) : string := default "" (tg_column t).
Definition is_target_relationship (t : CatalogDraftTarget) (r : RelationshipHint) : bool :=
  bool_decide (relationship_identity r = (casefold (column_name t), casefold (default "" (tg_to_table t)), casefold (default "" (tg_to_column t)))).

(** [_resolve_entity]: the entry itself, if it is there, and the id it must have. *)
Definition target_entry_id (t : CatalogDraftTarget) : string :=
  stable_entry_id ([tg_connection_id t; "table"; tg_table t] ++
    match tg_object_type t with
    | TableObject => []
    | ColumnObject => ["column"; column_name t]
    | RelationshipObject => ["relationship"; column_name t; default "" (tg_to_table t); default "" (tg_to_column t)]
    end).
Definition entity_in (table : TableCatalogEntry) (t : CatalogDraftTarget) : option Entity :=
  match tg_object_type t with
  | TableObject => Some (table_entity table)
  | ColumnObject => column_entity <$> column_of table (column_name t)
  | RelationshipObject => relationship_entity <$> List.find (is_target_relationship t) (te_relationships table)
  end.
Definition resolve_entity (c : SchemaCatalog) (t : CatalogDraftTarget) : option Entity :=
  get_table c (tg_connection_id t) (tg_table t) ≫= λ table, entity_in table t.

(** ** [_plan_publish] *)

Record PublishPlan := MkPlan {
  pl_target : CatalogDraftTarget;
  pl_entry_id : string;
  pl_change_kind : ChangeKind;
  pl_before : option CatalogDraftContent;
  pl_merged_fields : list ContentField;
  pl_table_key : string;
  pl_conflicts : list ContentField;
}.

Definition probe_provenance : CatalogEntryProvenance := bound_provenance UNBOUND 2 "untracked".

Definition field_conflicts (e : option Entity) (content : CatalogDraftContent) (f : ContentField) : bool :=
  match e with
  | None => false
  | Some e =>
      let changed := value_changes e content f in
      (bool_decide (pv_status (en_provenance e) = VerifiedEntry) && entity_has e f && changed)
      || negb (replacement_decision (en_provenance e) probe_provenance (field_name f) changed).1
  end.

Definition content_before (e : option Entity) (touched : list ContentField) : result (option CatalogDraftContent) :=
  match e with
  | None => Ok None
  | Some e =>
      match List.filter (entity_has e) touched with
      | [] => Ok None
      | had => let '(d, a, g) := pick had (en_description e) (en_aliases e) (en_default_aggregation e) in
               make_content d a g ≫= λ c, Ok (Some c)
      end
  end.

Definition plan_publish (c : SchemaCatalog) (p : CatalogDraftProposal) : result PublishPlan :=
  let target := pp_target p in
  let e := resolve_entity c target in
  let touched := touched_fields (pp_content p) in
  content_before e touched ≫= λ before,
  Ok (MkPlan target (target_entry_id target) (match e with Some _ => UpdatedEntry | None => CreatedEntry end) before
        (List.filter (λ f, negb (field_conflicts e (pp_content p) f)) touched)
        (default (tg_table target) (casefold_lookup (tables_of c (tg_connection_id target)) (tg_table target)))
        (List.filter (field_conflicts e (pp_content p)) touched)).

(** ** Proposals *)

Definition require_proposal (c : SchemaCatalog) (id connection_id : string) : result CatalogDraftProposal :=
  match get_draft_proposal c id with
  | Some p => if bool_decide (tg_connection_id (pp_target p) = connection_id) then Ok p else Raise (unknown_proposal id)
  | None => Raise (unknown_proposal id)
  end.

Definition object_json (o : CatalogDraftObjectType) : json :=
  JStr (match o with TableObject => "table" | ColumnObject => "column" | RelationshipObject => "relationship" end).
Definition target_json (t : CatalogDraftTarget) : json :=
  JObj [("connection_id", JStr (tg_connection_id t)); ("object_type", object_json (tg_object_type t)); ("table", JStr (tg_table t));
        ("column", json_of_option (tg_column t)); ("to_table", json_of_option (tg_to_table t)); ("to_column", json_of_option (tg_to_column t))].
Definition content_json (c : CatalogDraftContent) : json :=
  JObj [("description", json_of_option (ct_description c)); ("aliases", JList (map JStr (ct_aliases c)));
        ("default_aggregation", json_of_option (ct_default_aggregation c))].

(** The time enters as its text. *)
Definition manual_digest (connection_id : string) (t : CatalogDraftTarget) (content : CatalogDraftContent) (isoformat : Z → string) (now : Z) : string :=
  sha256_hexdigest (json_dumps (JObj [("connection_id", JStr connection_id); ("target", target_json t); ("content", content_json content);
    ("created_at", JStr (isoformat now))])).

Definition manual_target_exists (s : ObservedSchemaSnapshot) (t : CatalogDraftTarget) : bool :=
  let table name := List.find (λ u, bool_decide (casefold (ot_name u) = casefold name)) (os_tables s) in
  let has_column (u : option ObservedTable) (name : option string) :=
    match u, name with
    | Some u, Some n => existsb (λ c, bool_decide (casefold (oc_name c) = casefold n)) (ot_columns u)
    | _, _ => false
    end in
  match table (tg_table t) with
  | None => false
  | Some u =>
      match tg_object_type t with
      | TableObject => true
      | ColumnObject => has_column (Some u) (tg_column t)
      | RelationshipObject => has_column (Some u) (tg_column t) && has_column (table (default "" (tg_to_table t))) (tg_to_column t)
      end
  end.

Definition create_manual_proposal (isoformat : Z → string) (c : SchemaCatalog) (connection_id : string) (target : CatalogDraftTarget)
  (content : CatalogDraftContent) (actor : string) (now : Z) : result CatalogGovernanceUpdate :=
  raise_if (negb (bool_decide (tg_connection_id target = connection_id))) CatalogGovernanceError ≫= λ _,
  raise_if (negb (content_fits_target target content)) CatalogGovernanceError ≫= λ _,
  raise_if (match get_schema_snapshot c connection_id with Some s => negb (manual_target_exists s target) | None => false end) CatalogGovernanceError ≫= λ _,
  let fingerprint := current_fingerprint c connection_id in
  let digest := manual_digest connection_id target content isoformat now in
  let proposal_id := "urn:querygate:catalog:manual:" +:+ String.substring 0 32 digest in
  let generation_id := "manual:" +:+ String.substring 0 32 digest in
  raise_if (mem proposal_id (proposal_ids c)) CatalogGovernanceError ≫= λ _,
  let provenance := MkProvenance proposal_id (cg_version c) ManualSource [MkEvidence ManualEvidence "manual:admin-ui"] (Some f64_one) DraftEntry
    fingerprint (Some actor) None (Some now) None None None in
  let proposal := MkProposal proposal_id generation_id target content provenance PendingReview [] None None in
  let record := MkGeneration generation_id connection_id "manual" "human-author" "manual-authoring-v1" fingerprint ("sha256:" +:+ digest)
    [proposal_id] (Some actor) (Some now) in
  replace (set_generations (cg_generation_records c ++ [record]) (set_proposals (cg_draft_proposals c ++ [proposal]) c)) ≫= λ c,
  Ok (MkUpdate c "manual_created" (Some proposal_id) [] None None None).

Definition proposal_update (id outcome : string) (c : SchemaCatalog) : result CatalogGovernanceUpdate :=
  replace c ≫= λ c, Ok (MkUpdate c outcome (Some id) [] None None None).

Definition edit_proposal (c : SchemaCatalog) (id connection_id actor : string) (content : CatalogDraftContent) (now : Z) : result CatalogGovernanceUpdate :=
  require_proposal c id connection_id ≫= λ p,
  raise_if (negb (bool_decide (pp_review_status p = PendingReview))) CatalogGovernanceError ≫= λ _,
  raise_if (negb (content_fits_target (pp_target p) content)) CatalogGovernanceError ≫= λ _,
  proposal_update id "edited" (on_proposal id (λ p, log_event (MkReviewEvent EditedAction actor now None) (with_content content p)) c).

Definition approved (actor : string) (now : Z) (p : CatalogDraftProposal) : CatalogDraftProposal :=
  log_event (MkReviewEvent ApprovedAction actor now None) (with_status ApprovedReview p).
Definition rejected (actor reason : string) (now : Z) (p : CatalogDraftProposal) : CatalogDraftProposal :=
  log_event (MkReviewEvent RejectedAction actor now (Some (strip reason))) (with_status RejectedReview p).

Definition is_stale (p : CatalogDraftProposal) : bool := bool_decide (pv_status (pp_provenance p) = StaleEntry).

Definition approve_proposal (c : SchemaCatalog) (id connection_id actor : string) (now : Z) : result CatalogGovernanceUpdate :=
  require_proposal c id connection_id ≫= λ p,
  raise_if (negb (bool_decide (pp_review_status p = PendingReview))) CatalogGovernanceError ≫= λ _,
  raise_if (is_stale p) CatalogGovernanceError ≫= λ _,
  proposal_update id "approved" (on_proposal id (approved actor now) c).

Definition rejectable (p : CatalogDraftProposal) : bool := bool_decide (pp_review_status p = PendingReview ∨ pp_review_status p = ApprovedReview).

Definition reject_proposal (c : SchemaCatalog) (id connection_id actor reason : string) (now : Z) : result CatalogGovernanceUpdate :=
  raise_if (str_empty (strip reason)) CatalogGovernanceError ≫= λ _,
  require_proposal c id connection_id ≫= λ p,
  raise_if (negb (rejectable p)) CatalogGovernanceError ≫= λ _,
  proposal_update id "rejected" (on_proposal id (rejected actor reason now) c).

(** ** Several at once *)

Definition bulk_sizes (ids : list string) : result unit :=
  raise_if (is_nil ids) CatalogGovernanceError ≫= λ _,
  raise_if (Nat.ltb _BULK_LIMIT (length ids)) CatalogGovernanceError ≫= λ _,
  raise_if (negb (bool_decide (NoDup ids))) CatalogGovernanceError.

Definition bulk_precheck (c : SchemaCatalog) (ids : list string) (connection_id : string) (allowed : CatalogDraftProposal → bool) : result unit :=
  bulk_sizes ids ≫= λ _,
  for_each (λ id, require_proposal c id connection_id ≫= λ p, raise_if (negb (allowed p)) CatalogGovernanceError) ids.

Definition on_proposals (ids : list string) (f : CatalogDraftProposal → CatalogDraftProposal) (c : SchemaCatalog) : SchemaCatalog :=
  set_proposals (map (λ p, if mem (pp_proposal_id p) ids then f p else p) (cg_draft_proposals c)) c.

Definition bulk_update (ids : list string) (outcome : string) (c : SchemaCatalog) : result CatalogGovernanceUpdate :=
  replace c ≫= λ c, Ok (MkUpdate c outcome None ids None None None).

Definition bulk_approve_proposals (c : SchemaCatalog) (ids : list string) (connection_id actor : string) (now : Z) : result CatalogGovernanceUpdate :=
  bulk_precheck c ids connection_id (λ p, bool_decide (pp_review_status p = PendingReview)) ≫= λ _,
  raise_if (existsb (λ id, match get_draft_proposal c id with Some p => is_stale p | None => false end) ids) CatalogGovernanceError ≫= λ _,
  bulk_update ids "bulk_approved" (on_proposals ids (approved actor now) c).

Definition bulk_reject_proposals (c : SchemaCatalog) (ids : list string) (connection_id actor reason : string) (now : Z) : result CatalogGovernanceUpdate :=
  raise_if (str_empty (strip reason)) CatalogGovernanceError ≫= λ _,
  bulk_precheck c ids connection_id rejectable ≫= λ _,
  bulk_update ids "bulk_rejected" (on_proposals ids (rejected actor reason now) c).

(** ** Publication *)

Record ProposalPublishPreview := MkPublishPreview {
  pr_proposal_id : string;
  pr_visible_to_principal : bool;
  pr_would_conflict : bool;
  pr_conflicting_fields : list ContentField;
  pr_change_kind : option ChangeKind;
}.

Definition target_visible (policy : Policy) (t : CatalogDraftTarget) : bool :=
  table_allowed policy (tg_table t)
  && match tg_object_type t with
     | TableObject => true
     | ColumnObject => column_allowed policy (tg_table t) (column_name t)
     | RelationshipObject =>
         table_allowed policy (default "" (tg_to_table t)) && column_allowed policy (tg_table t) (column_name t)
         && column_allowed policy (default "" (tg_to_table t)) (default "" (tg_to_column t))
     end.

Definition preview_publish (c : SchemaCatalog) (id connection_id : string) (policy : Policy) : result ProposalPublishPreview :=
  require_proposal c id connection_id ≫= λ p,
  if negb (target_visible policy (pp_target p)) then Ok (MkPublishPreview id false false [] None)
  else plan_publish c p ≫= λ plan,
       Ok (MkPublishPreview id true (negb (is_nil (pl_conflicts plan))) (pl_conflicts plan)
             (if is_nil (pl_conflicts plan) then Some (pl_change_kind plan) else None)).

(** A table that is only named by what is published into it gets the defaults. *)
Definition fresh_table (c : SchemaCatalog) (connection_id table_key : string) : TableCatalogEntry :=
  MkTableEntry None [] SENS_NONE None false [] []
    (bound_provenance (stable_entry_id [connection_id; "table"; table_key]) (cg_version c) (current_fingerprint c connection_id)).

Definition published_provenance (c : SchemaCatalog) (plan : PublishPlan) (p : CatalogDraftProposal) (actor : string) (now : Z) : CatalogEntryProvenance :=
  MkProvenance (pl_entry_id plan) (cg_version c) VerifiedSource [MkEvidence ImportEvidence ("proposal:" +:+ pp_proposal_id p)] (Some f64_one) VerifiedEntry
    (current_fingerprint c (tg_connection_id (pp_target p))) (pv_created_by (pp_provenance p)) (Some actor) (pv_created_at (pp_provenance p)) (Some now) None None.

(** The first entry that satisfies a test replaced, or a new one at the end. *)
Fixpoint replace_first {A} (test : A → bool) (f : option A → A) (l : list A) : list A :=
  match l with
  | [] => [f None]
  | x :: l => if test x then f (Some x) :: l else x :: replace_first test f l
  end.

Definition write_entry (plan : PublishPlan) (content : CatalogDraftContent) (provenance : CatalogEntryProvenance) (t : TableCatalogEntry) : TableCatalogEntry :=
  let target := pl_target plan in
  let write e := write_fields (pl_merged_fields plan) content provenance e in
  match tg_object_type target with
  | TableObject => table_with (write (table_entity t)) t
  | ColumnObject =>
      let '(key, old) := default (column_name target, MkColumnEntry None [] SENS_NONE false provenance) (cf_find (column_name target) (te_columns t)) in
      table_with_columns (dict_set key (column_with (write (column_entity old)) old) (te_columns t)) t
  | RelationshipObject =>
      table_with_relationships (replace_first (is_target_relationship target)
        (λ old, relationship_with target (write (match old with Some r => relationship_entity r | None => no_entity end))) (te_relationships t)) t
  end.

Definition next_version_id (c : SchemaCatalog) : string := pretty (Z.of_nat (length (cg_version_history c)) + 1).

Definition publishable (c : SchemaCatalog) (p : CatalogDraftProposal) : result unit :=
  raise_if (negb (bool_decide (pp_review_status p = ApprovedReview))) CatalogGovernanceError ≫= λ _,
  raise_if (is_stale p) CatalogGovernanceError ≫= λ _,
  raise_if (match get_schema_snapshot c (tg_connection_id (pp_target p)) with
            | Some s => negb (bool_decide (pv_schema_fingerprint (pp_provenance p) = os_fingerprint s))
            | None => false
            end) CatalogGovernanceError.

Definition publish_proposal (c : SchemaCatalog) (id connection_id actor : string) (now : Z) : result CatalogGovernanceUpdate :=
  require_proposal c id connection_id ≫= λ p,
  publishable c p ≫= λ _,
  plan_publish c p ≫= λ plan,
  raise_if (negb (is_nil (pl_conflicts plan))) CatalogGovernanceError ≫= λ _,
  raise_if (is_nil (pl_merged_fields plan)) CatalogGovernanceError ≫= λ _,
  let tables := tables_of c connection_id in
  let table := default (fresh_table c connection_id (pl_table_key plan)) (dict_get (pl_table_key plan) tables) in
  let table' := write_entry plan (pp_content p) (published_provenance c plan p actor now) table in
  let version_id := next_version_id c in
  let '(d, a, g) := pick (pl_merged_fields plan) (ct_description (pp_content p)) (ct_aliases (pp_content p)) (ct_default_aggregation (pp_content p)) in
  make_content d a g ≫= λ after,
  let record := MkVersionRecord version_id PublishVersion ActiveVersion actor now (Some id) None
    (MkVersionChange (pl_target plan) (pl_change_kind plan) (pl_before plan) (Some after)) in
  let c' := set_versions (cg_version_history c ++ [record]) (set_tables connection_id (dict_set (pl_table_key plan) table' tables) c) in
  let c' := on_proposal id (λ p, log_event (MkReviewEvent PublishedAction actor now None) (as_published (pl_entry_id plan) version_id p)) c' in
  replace c' ≫= λ c', Ok (MkUpdate c' "published" (Some id) [] (Some version_id) (Some (pl_entry_id plan)) None).

(** ** Rollback *)

Definition remove_entry (t : CatalogDraftTarget) (table_key : string) (table : TableCatalogEntry) (tables : dict TableCatalogEntry) :
  result (dict TableCatalogEntry) :=
  match tg_object_type t with
  | TableObject =>
      raise_if (negb (is_nil (te_columns table) && is_nil (te_relationships table))) CatalogGovernanceError ≫= λ _,
      Ok (dict_pop table_key tables)
  | ColumnObject =>
      match casefold_lookup (te_columns table) (column_name t) with
      | Some k => Ok (dict_set table_key (table_with_columns (dict_pop k (te_columns table)) table) tables)
      | None => Ok tables
      end
  | RelationshipObject =>
      Ok (dict_set table_key
            (table_with_relationships (List.filter (λ r, negb (is_target_relationship t r)) (te_relationships table)) table) tables)
  end.

(** Every content field is dropped, and what the record remembers put back. *)
Definition restored (before : option CatalogDraftContent) (e : Entity) : Entity :=
  match before with
  | Some b => MkEntity (ct_description b) (ct_aliases b) (ct_default_aggregation b) (en_provenance e)
  | None => MkEntity None [] None (en_provenance e)
  end.

Definition restore_entry (t : CatalogDraftTarget) (before : option CatalogDraftContent) (table : TableCatalogEntry) : TableCatalogEntry :=
  match tg_object_type t with
  | TableObject => table_with (restored before (table_entity table)) table
  | ColumnObject =>
      match cf_find (column_name t) (te_columns table) with
      | Some (k, old) => table_with_columns (dict_set k (column_with (restored before (column_entity old)) old) (te_columns table)) table
      | None => table
      end
  | RelationshipObject =>
      table_with_relationships (replace_first (is_target_relationship t)
        (λ old, match old with
                | Some r => MkRelationship (rh_to_table r) (rh_column r) (rh_to_column r) (en_description (restored before (relationship_entity r))) (rh_provenance r)
                | None => relationship_with t no_entity
                end) (te_relationships table)) table
  end.

Definition reverse_change (change : CatalogVersionChange) : CatalogVersionChange :=
  match vc_change change with
  | CreatedEntry => MkVersionChange (vc_target change) RemovedEntry (vc_after change) None
  | _ => MkVersionChange (vc_target change) UpdatedEntry (vc_after change) (vc_before change)
  end.

Definition revert_record (version_id : string) (r : CatalogVersionRecord) : CatalogVersionRecord :=
  if bool_decide (vr_version_id r = version_id)
  then MkVersionRecord (vr_version_id r) (vr_action r) RevertedVersion (vr_actor r) (vr_occurred_at r) (vr_proposal_id r) (vr_rolled_back_version_id r) (vr_change r)
  else r.

Definition rollback_version (c : SchemaCatalog) (version_id connection_id actor : string) (now : Z) : result CatalogGovernanceUpdate :=
  match get_version_record c version_id with
  | None => Raise (unknown_catalog_version version_id)
  | Some record =>
      raise_if (negb (bool_decide (vr_action record = PublishVersion))) CatalogGovernanceError ≫= λ _,
      raise_if (negb (bool_decide (vr_status record = ActiveVersion))) CatalogGovernanceError ≫= λ _,
      let change := vr_change record in
      let target := vc_target change in
      raise_if (negb (bool_decide (tg_connection_id target = connection_id))) (unknown_catalog_version version_id) ≫= λ _,
      let tables := tables_of c connection_id in
      match cf_find (tg_table target) tables with
      | None => Raise CatalogGovernanceError
      | Some (table_key, table) =>
          match entity_in table target with
          | None => Raise CatalogGovernanceError
          | Some e =>
              raise_if (negb (bool_decide (pv_entry_id (en_provenance e) = target_entry_id target))
                        || negb (bool_decide (pv_approved_at (en_provenance e) = Some (vr_occurred_at record)))) CatalogGovernanceError ≫= λ _,
              (if bool_decide (vc_change change = CreatedEntry) then remove_entry target table_key table tables
               else Ok (dict_set table_key (restore_entry target (vc_before change) table) tables)) ≫= λ tables,
              let new_version_id := next_version_id c in
              let rollback_record := MkVersionRecord new_version_id RollbackVersion ActiveVersion actor now None (Some version_id) (reverse_change change) in
              let c' := set_versions (map (revert_record version_id) (cg_version_history c ++ [rollback_record])) (set_tables connection_id tables c) in
              let c' := match vr_proposal_id record with
                        | Some id => on_proposal id (log_event (MkReviewEvent RolledBackAction actor now None)) c'
                        | None => c'
                        end in
              replace c' ≫= λ c', Ok (MkUpdate c' "rolled_back" None [] (Some new_version_id) None (Some version_id))
          end
      end
  end.

(** ** Backup and restore *)

Record CatalogExportBundle := MkBundle {
  xb_connection_id : string;
  xb_exported_at : Z;
  xb_catalog_version : Z;
  xb_tables : dict TableCatalogEntry;
  xb_schema_snapshot : option ObservedSchemaSnapshot;
  xb_draft_proposals : list CatalogDraftProposal;
  xb_generation_records : list CatalogGenerationRecord;
  xb_version_history : list CatalogVersionRecord;
}.

(** The models of the parts, and [_content_matches_connection]. *)
Definition bundle_ok (b : CatalogExportBundle) : bool :=
  sized 100 (xb_connection_id b) && (1 <=? xb_catalog_version b) && forallb (λ e, table_entry_ok e.2) (xb_tables b)
  && match xb_schema_snapshot b with
     | Some s => is_ok (validate_snapshot (os_connection_id s) (os_tables s) (os_fingerprint s)) && bool_decide (os_connection_id s = xb_connection_id b)
     | None => true
     end
  && forallb (λ p, proposal_ok p && bool_decide (tg_connection_id (pp_target p) = xb_connection_id b)) (xb_draft_proposals b)
  && forallb (λ r, generation_ok r && bool_decide (gr_connection_id r = xb_connection_id b)) (xb_generation_records b)
  && forallb (λ r, version_record_ok r && bool_decide (tg_connection_id (vc_target (vr_change r)) = xb_connection_id b)) (xb_version_history b).

Definition export_connection `{SO : SetOrder} (c : SchemaCatalog) (connection_id : string) (now : Z) : CatalogExportBundle :=
  let proposals := iter_draft_proposals c connection_id in
  MkBundle connection_id now (cg_version c) (tables_of c connection_id) (get_schema_snapshot c connection_id) proposals
    (omap (get_generation_record c) (set_order (map pp_generation_id proposals))) (iter_version_history c connection_id).

(** The first of the id and its suffixed forms that is not taken: one more candidate
    than there are ids in the way. *)
Definition imported_ids (id : string) (n : nat) : list string :=
  id :: map (λ k, id +:+ ":imported-" +:+ pretty (N.of_nat k)) (seq 1 n).
Definition free_generation_id (taken : list string) (id : string) : string :=
  default id (List.find (λ x, negb (mem x taken)) (imported_ids id (length taken))).

(** [generation_id_map], in the order of the bundle. *)
Definition generation_id_map (surviving : list string) (records : list CatalogGenerationRecord) : dict string :=
  foldl (λ m r, dict_set (gr_generation_id r) (free_generation_id (surviving ++ map snd m) (gr_generation_id r)) m) [] records.
Definition version_id_map (existing : nat) (history : list CatalogVersionRecord) : dict string :=
  foldl (λ m '(i, r), dict_set (vr_version_id r) (pretty (Z.of_nat existing + Z.of_nat i + 1)) m) [] (imap pair history).

(** [d.get(k, k)]. *)
Definition renamed (m : dict string) (k : string) : string := default k (dict_get k m).

Definition rename_generation (gm : dict string) (r : CatalogGenerationRecord) : CatalogGenerationRecord :=
  MkGeneration (renamed gm (gr_generation_id r)) (gr_connection_id r) (gr_provider_mode r) (gr_provider_id r) (gr_prompt_template_version r)
    (gr_schema_fingerprint r) (gr_input_fingerprint r) (gr_proposal_ids r) (gr_created_by r) (gr_created_at r).
Definition rename_version (vm : dict string) (r : CatalogVersionRecord) : CatalogVersionRecord :=
  MkVersionRecord (renamed vm (vr_version_id r)) (vr_action r) (vr_status r) (vr_actor r) (vr_occurred_at r) (vr_proposal_id r)
    (renamed vm <$> vr_rolled_back_version_id r) (vr_change r).
Definition rename_proposal (gm vm : dict string) (p : CatalogDraftProposal) : CatalogDraftProposal :=
  MkProposal (pp_proposal_id p) (renamed gm (pp_generation_id p)) (pp_target p) (pp_content p) (pp_provenance p) (pp_review_status p)
    (pp_review_history p) (pp_published_entry_id p) (renamed vm <$> pp_published_version_id p).

(** What other connections have in the record. *)
Definition other_generations (c : SchemaCatalog) (connection_id : string) : list CatalogGenerationRecord :=
  List.filter (λ r, negb (bool_decide (gr_connection_id r = connection_id))) (cg_generation_records c).
Definition other_proposals (c : SchemaCatalog) (connection_id : string) : list CatalogDraftProposal :=
  List.filter (λ p, negb (bool_decide (tg_connection_id (pp_target p) = connection_id))) (cg_draft_proposals c).
Definition other_versions (c : SchemaCatalog) (connection_id : string) : list CatalogVersionRecord :=
  List.filter (λ r, negb (bool_decide (tg_connection_id (vc_target (vr_change r)) = connection_id))) (cg_version_history c).

Definition import_connection (c : SchemaCatalog) (b : CatalogExportBundle) (connection_id : string) : result CatalogGovernanceUpdate :=
  raise_if (negb (bool_decide (xb_connection_id b = connection_id))) CatalogGovernanceError ≫= λ _,
  let surviving := other_generations c connection_id in
  let gm := generation_id_map (map gr_generation_id surviving) (xb_generation_records b) in
  let vm := version_id_map (length (cg_version_history c)) (xb_version_history b) in
  replace (MkCatalog (cg_version c) (dict_set connection_id (xb_tables b) (cg_connections c))
    (match xb_schema_snapshot b with
     | Some s => dict_set connection_id s (cg_schema_snapshots c)
     | None => dict_pop connection_id (cg_schema_snapshots c)
     end)
    (other_proposals c connection_id ++ map (rename_proposal gm vm) (xb_draft_proposals b))
    (surviving ++ map (rename_generation gm) (xb_generation_records b))
    (other_versions c connection_id ++ map (rename_version vm) (xb_version_history b))
    (cg_usage_signals c)) ≫= λ c, Ok (MkUpdate c "imported" None [] None None None).

(** ** Deletion *)

(** The versions that go with a proposal. *)
Definition require_deletable_proposal (c : SchemaCatalog) (p : CatalogDraftProposal) : result (list string) :=
  match pp_review_status p with
  | RejectedReview => Ok []
  | PublishedReview =>
      match pp_published_version_id p with
      | Some v =>
          raise_if (str_empty v || match get_version_record c v with Some r => negb (bool_decide (vr_status r = RevertedVersion)) | None => true end)
            CatalogGovernanceError ≫= λ _,
          Ok (v :: map vr_version_id (List.filter (λ r, bool_decide (vr_rolled_back_version_id r = Some v))
                                        (iter_version_history c (tg_connection_id (pp_target p)))))
      | None => Raise CatalogGovernanceError
      end
  | _ => Raise CatalogGovernanceError
  end.

Definition forget_proposals (ids : list string) (r : CatalogGenerationRecord) : CatalogGenerationRecord :=
  MkGeneration (gr_generation_id r) (gr_connection_id r) (gr_provider_mode r) (gr_provider_id r) (gr_prompt_template_version r)
    (gr_schema_fingerprint r) (gr_input_fingerprint r) (List.filter (λ id, negb (mem id ids)) (gr_proposal_ids r)) (gr_created_by r) (gr_created_at r).

Definition without (ids versions : list string) (c : SchemaCatalog) : SchemaCatalog :=
  set_generations (map (forget_proposals ids) (cg_generation_records c))
    (set_versions (List.filter (λ r, negb (mem (vr_version_id r) versions)) (cg_version_history c))
      (set_proposals (List.filter (λ p, negb (mem (pp_proposal_id p) ids)) (cg_draft_proposals c)) c)).

Definition delete_proposal (c : SchemaCatalog) (id connection_id : string) : result CatalogGovernanceUpdate :=
  require_proposal c id connection_id ≫= λ p,
  require_deletable_proposal c p ≫= λ versions,
  replace (without [id] versions c) ≫= λ c, Ok (MkUpdate c "deleted" (Some id) [] None None None).

Definition bulk_delete_proposals (c : SchemaCatalog) (ids : list string) (connection_id : string) : result CatalogGovernanceUpdate :=
  bulk_sizes ids ≫= λ _,
  map_result (λ id, require_proposal c id connection_id ≫= require_deletable_proposal c) ids ≫= λ versions,
  replace (without ids (concat versions) c) ≫= λ c, Ok (MkUpdate c "bulk_deleted" None ids None None None).

Definition delete_version_record (c : SchemaCatalog) (version_id connection_id : string) : result CatalogGovernanceUpdate :=
  match get_version_record c version_id with
  | None => Raise (unknown_catalog_version version_id)
  | Some r =>
      raise_if (negb (bool_decide (tg_connection_id (vc_target (vr_change r)) = connection_id))) (unknown_catalog_version version_id) ≫= λ _,
      raise_if (negb (bool_decide (vr_action r = RollbackVersion))) CatalogGovernanceError ≫= λ _,
      replace (set_versions (List.filter (λ r, negb (bool_decide (vr_version_id r = version_id))) (cg_version_history c)) c) ≫= λ c,
      Ok (MkUpdate c "deleted" None [] (Some version_id) None None)
  end.
End governance.
