(* ===== verification/CatalogRefresh.v ===== *)
(** The refresh of what the catalog knows of a schema ([catalog/refresh.py]): a new
    snapshot replaces the old one, and of the entries and proposals it makes stale
    exactly those its difference touches. Shown: no entry of a column that went or
    changed is left standing, and nothing but provenance is written. *)
From Stdlib Require Import Ascii.
From S2P Require Export CatalogGovernance.
Local Open Scope Z_scope.

Record CatalogRefreshUpdate := MkRefresh {
  ru_store : SchemaCatalog;
  ru_connection_id : string;
  ru_before_fingerprint : option string;
  ru_after_fingerprint : string;
  ru_diff : option SchemaDiff;
  ru_stale_entry_ids : list string;
}.

(** What [_changed_objects] returns; sets of names as lists. *)
Record ChangedObjects := MkChanged {
  co_removed_tables : list string;
  co_table_entries : list string;
  co_columns : list (string * string);
}.
Definition nothing_changed : ChangedObjects := MkChanged [] [] [].

(** [re.findall] of identifiers; [word] is the one being read, reversed. *)
Fixpoint identifiers (word s : string) : list string :=
  let done := if str_empty word then [] else [String.rev word] in
  match s with
  | EmptyString => done
  | String c s =>
      if is_alpha_ c || negb (str_empty word) && is_alnum_ c then identifiers (String c word) s
      else done ++ identifiers "" s
  end.

(** [_mark_or_rebind]: the entry after, and whether it has just gone stale. *)
Definition mark_or_rebind (affected : bool) (fingerprint : string) (p : CatalogEntryProvenance) : CatalogEntryProvenance :=
  let with_state status fp := MkProvenance (pv_entry_id p) (pv_catalog_version p) (pv_source_class p) (pv_source_evidence p) (pv_confidence p)
    status fp (pv_created_by p) (pv_approved_by p) (pv_created_at p) (pv_approved_at p) (pv_model_id p) (pv_prompt_template_version p) in
  match pv_status p with
  | RejectedEntry | ArchivedEntry => p
  | StaleEntry => p
  | status => if affected then with_state StaleEntry (pv_schema_fingerprint p) else with_state status fingerprint
  end.
Definition goes_stale (affected : bool) (p : CatalogEntryProvenance) : list string :=
  if affected && negb (bool_decide (pv_status p = RejectedEntry ∨ pv_status p = ArchivedEntry ∨ pv_status p = StaleEntry))
  then [pv_entry_id p] else [].

(** Entries under another provenance. *)
Definition rebind_relationship (f : CatalogEntryProvenance → CatalogEntryProvenance) (r : RelationshipHint) : RelationshipHint :=
  MkRelationship (rh_to_table r) (rh_column r) (rh_to_column r) (rh_description r) (f (rh_provenance r)).
Definition rebind_column (f : CatalogEntryProvenance → CatalogEntryProvenance) (c : ColumnCatalogEntry) : ColumnCatalogEntry :=
  MkColumnEntry (ce_description c) (ce_aliases c) (ce_sensitivity c) (ce_allow_samples c) (f (ce_provenance c)).
Definition rebind_table (f : CatalogEntryProvenance → CatalogEntryProvenance) (columns : dict ColumnCatalogEntry) (rels : list RelationshipHint)
  (t : TableCatalogEntry) : TableCatalogEntry :=
  MkTableEntry (te_description t) (te_aliases t) (te_sensitivity t) (te_default_aggregation t) (te_allow_samples t) rels columns (f (te_provenance t)).
Definition rebind_proposal (f : CatalogEntryProvenance → CatalogEntryProvenance) (p : CatalogDraftProposal) : CatalogDraftProposal :=
  MkProposal (pp_proposal_id p) (pp_generation_id p) (pp_target p) (pp_content p) (f (pp_provenance p)) (pp_review_status p)
    (pp_review_history p) (pp_published_entry_id p) (pp_published_version_id p).

(** The upgrade of a catalog of the first version. *)
Definition as_version_2 (p : CatalogEntryProvenance) : CatalogEntryProvenance :=
  MkProvenance (pv_entry_id p) 2 (pv_source_class p) (pv_source_evidence p) (pv_confidence p) (pv_status p) (pv_schema_fingerprint p)
    (pv_created_by p) (pv_approved_by p) (pv_created_at p) (pv_approved_at p) (pv_model_id p) (pv_prompt_template_version p).
Definition upgrade_table (t : TableCatalogEntry) : TableCatalogEntry :=
  rebind_table as_version_2 (map (λ '(k, c), (k, rebind_column as_version_2 c)) (te_columns t)) (map (rebind_relationship as_version_2) (te_relationships t)) t.
Definition upgrade (c : SchemaCatalog) : SchemaCatalog :=
  if cg_version c =? 1
  then MkCatalog 2 (map (λ '(k, tables), (k, map (λ '(n, t), (n, upgrade_table t)) tables)) (cg_connections c)) (cg_schema_snapshots c)
         (cg_draft_proposals c) (cg_generation_records c) (cg_version_history c) (cg_usage_signals c)
  else c.

Section refresh.
Context `{CF : CaseFold} `{SL : StrLower} `{FT : FloatText} `{DG : Digest} `{RT : ReferenceText}.

Definition changed_objects (d : SchemaDiff) : ChangedObjects :=
  MkChanged
    (omap (λ c, match sc_kind c with TableRemoved => Some (casefold (sc_table c)) | _ => None end) (sd_changes d))
    (omap (λ c, match sc_kind c with CommentChanged | IndexesChanged => Some (casefold (sc_table c)) | _ => None end) (sd_changes d))
    (omap (λ c, match sc_kind c, sc_column c with
                | ColumnRemoved, Some n | ColumnChanged, Some n => if str_empty n then None else Some (casefold (sc_table c), casefold n)
                | RelationshipsChanged, _ => Some (casefold (sc_table c), "*")
                | _, _ => None
                end) (sd_changes d)).

Definition column_changed (o : ChangedObjects) (table column : string) : bool := bool_decide ((casefold table, column) ∈ co_columns o).
Definition table_removed (o : ChangedObjects) (table : string) : bool := mem (casefold table) (co_removed_tables o).

Definition relationship_affected (o : ChangedObjects) (from_table column to_table to_column : string) : bool :=
  table_removed o from_table || table_removed o to_table || column_changed o from_table "*"
  || column_changed o from_table (casefold column) || column_changed o to_table (casefold to_column).

Definition aggregation_references_changed_column (o : ChangedObjects) (aggregation : option string) (table : string) : bool :=
  match aggregation with
  | Some a =>
      existsb (λ '(t, c), bool_decide (t = casefold table) && negb (bool_decide (c = "*")) && mem c (map casefold (identifiers "" a))) (co_columns o)
  | None => false
  end.

Definition column_affected (o : ChangedObjects) (table column : string) : bool := table_removed o table || column_changed o table (casefold column).
Definition table_affected (o : ChangedObjects) (name : string) (t : TableCatalogEntry) : bool :=
  table_removed o name || mem (casefold name) (co_table_entries o) || aggregation_references_changed_column o (te_default_aggregation t) name.
Definition hint_affected (o : ChangedObjects) (table : string) (r : RelationshipHint) : bool :=
  relationship_affected o table (rh_column r) (rh_to_table r) (rh_to_column r).
Definition target_affected (o : ChangedObjects) (t : CatalogDraftTarget) : bool :=
  match tg_object_type t with
  | TableObject => table_removed o (tg_table t) || mem (casefold (tg_table t)) (co_table_entries o)
  | ColumnObject => column_affected o (tg_table t) (column_name t)
  | RelationshipObject => relationship_affected o (tg_table t) (column_name t) (default "" (tg_to_table t)) (default "" (tg_to_column t))
  end.

(** One table, and the ids that go stale in it. *)
Definition refresh_table (o : ChangedObjects) (fp name : string) (t : TableCatalogEntry) : TableCatalogEntry :=
  rebind_table (mark_or_rebind (table_affected o name t) fp)
    (map (λ '(n, c), (n, rebind_column (mark_or_rebind (column_affected o name n) fp) c)) (te_columns t))
    (map (λ r, rebind_relationship (mark_or_rebind (hint_affected o name r) fp) r) (te_relationships t)) t.
Definition stale_in_table (o : ChangedObjects) (name : string) (t : TableCatalogEntry) : list string :=
  goes_stale (table_affected o name t) (te_provenance t)
  ++ (te_columns t ≫= λ '(n, c), goes_stale (column_affected o name n) (ce_provenance c))
  ++ (te_relationships t ≫= λ r, goes_stale (hint_affected o name r) (rh_provenance r)).

Definition refreshed (o : ChangedObjects) (s : ObservedSchemaSnapshot) (c : SchemaCatalog) : SchemaCatalog :=
  let fp := os_fingerprint s in
  MkCatalog (cg_version c)
    (map (λ '(k, tables), (k, if bool_decide (k = os_connection_id s) then map (λ '(n, t), (n, refresh_table o fp n t)) tables else tables))
       (cg_connections c))
    (dict_set (os_connection_id s) s (cg_schema_snapshots c))
    (map (λ p, if bool_decide (tg_connection_id (pp_target p) = os_connection_id s)
               then rebind_proposal (mark_or_rebind (target_affected o (pp_target p)) fp) p else p) (cg_draft_proposals c))
    (cg_generation_records c) (cg_version_history c) (cg_usage_signals c).
Definition stale_ids (o : ChangedObjects) (s : ObservedSchemaSnapshot) (c : SchemaCatalog) : list string :=
  sort_on (λ i, i) (remove_dups
    ((tables_of c (os_connection_id s) ≫= λ '(n, t), stale_in_table o n t)
     ++ (iter_draft_proposals c (os_connection_id s) ≫= λ p, goes_stale (target_affected o (pp_target p)) (pp_provenance p)))).

Definition refresh_catalog_schema (c : SchemaCatalog) (s : ObservedSchemaSnapshot) : result CatalogRefreshUpdate :=
  let id := os_connection_id s in
  match get_schema_snapshot c id with
  | None =>
      replace (refreshed nothing_changed s (upgrade c)) ≫= λ c',
      Ok (MkRefresh c' id None (os_fingerprint s) None (stale_ids nothing_changed s (upgrade c)))
  | Some previous =>
      diff_schema_snapshots previous s ≫= λ d,
      if bool_decide (os_fingerprint previous = os_fingerprint s)
      then Ok (MkRefresh c id (Some (os_fingerprint previous)) (os_fingerprint s) (Some d) [])
      else
        let o := changed_objects d in
        replace (refreshed o s (upgrade c)) ≫= λ c',
        Ok (MkRefresh c' id (Some (os_fingerprint previous)) (os_fingerprint s) (Some d) (stale_ids o s (upgrade c)))
  end.
End refresh.

(** * What a refresh leaves standing *)

(** What the catalog says of a connection: each entry and proposal with what it is about. *)
Definition entry_targets (connection_id name : string) (t : TableCatalogEntry) : list (CatalogDraftTarget * CatalogEntryProvenance) :=
  (MkTarget connection_id TableObject name None None None, te_provenance t)
  :: map (λ '(n, c), (MkTarget connection_id ColumnObject name (Some n) None None, ce_provenance c)) (te_columns t)
  ++ map (λ r, (MkTarget connection_id RelationshipObject name (Some (rh_column r)) (Some (rh_to_table r)) (Some (rh_to_column r)), rh_provenance r))
       (te_relationships t).
Definition known (c : SchemaCatalog) (connection_id : string) : list (CatalogDraftTarget * CatalogEntryProvenance) :=
  (tables_of c connection_id ≫= λ '(n, t), entry_targets connection_id n t)
  ++ map (λ p, (pp_target p, pp_provenance p)) (iter_draft_proposals c connection_id).

Definition trusted (p : CatalogEntryProvenance) : Prop := pv_status p = VerifiedEntry ∨ pv_status p = DraftEntry.

Section standing.
Context `{CF : CaseFold} (before after : list ObservedTable).

Definition table_stands (table : string) (alike : ObservedTable → ObservedTable → Prop) : Prop :=
  ∀ t, t ∈ before → casefold (ot_name t) = casefold table → ∃ u, u ∈ after ∧ ot_name u = ot_name t ∧ alike t u.
Definition has_alike (column : string) (t u : ObservedTable) : Prop :=
  ∀ x, x ∈ ot_columns t → casefold (oc_name x) = casefold column →
  ∃ y, y ∈ ot_columns u ∧ oc_name y = oc_name x ∧ column_signature y = column_signature x.

(** What an entry is about is in the new snapshot as it was in the old one. *)
Definition target_stands (t : CatalogDraftTarget) : Prop :=
  match tg_object_type t with
  | TableObject => table_stands (tg_table t) (λ x u, ot_indexes u = ot_indexes x ∧ ot_comment_fingerprint u = ot_comment_fingerprint x)
  | ColumnObject => table_stands (tg_table t) (has_alike (column_name t))
  | RelationshipObject =>
      table_stands (tg_table t) (λ x u, has_alike (column_name t) x u ∧ ot_foreign_keys u = ot_foreign_keys x)
      ∧ table_stands (default "" (tg_to_table t)) (has_alike (default "" (tg_to_column t)))
  end.
End standing.

Section refresh_facts.
Context `{CF : CaseFold} `{SL : StrLower} `{FT : FloatText} `{DG : Digest} `{RT : ReferenceText}.

Lemma snapshot_names id tables : snapshot_ok id tables = true →
  NoDup (map ot_name tables) ∧ Forall (λ t, NoDup (map oc_name (ot_columns t))) tables
  ∧ ∀ t x, t ∈ tables → x ∈ ot_columns t → oc_name x ≠ "".
Proof.
  unfold snapshot_ok, distinct_folded. rewrite !andb_true_iff, forallb_elem, bool_decide_eq_true. intros [[[_ Ht] _] Hnd].
  split_and!; [by apply (NoDup_fmap_1 casefold)|apply Forall_forall|]; intros t.
  - intros Hin. specialize (Ht t Hin). unfold observed_table_ok, distinct_folded in Ht. rewrite !andb_true_iff, bool_decide_eq_true in Ht.
    destruct Ht as [_ Ht]. by apply (NoDup_fmap_1 casefold).
  - intros x Hin Hx. specialize (Ht t Hin). unfold observed_table_ok in Ht. rewrite !andb_true_iff, forallb_elem in Ht.
    destruct Ht as [[[[[[[_ Hc] _] _] _] _] _] _]. specialize (Hc x Hx). unfold column_ok, sized in Hc. intros E. by rewrite E in Hc.
Qed.

Lemma mark_trusted a fp p : trusted (mark_or_rebind a fp p) → a = false ∧ pv_schema_fingerprint (mark_or_rebind a fp p) = fp.
Proof. unfold trusted, mark_or_rebind. destruct (pv_status p) eqn:E, a; cbn; rewrite ?E; intros [H|H]; done. Qed.

Section unaffected.
Context (before after : list ObservedTable) (d : SchemaDiff).
Context (Hd : ∀ c, c ∈ sd_changes d ↔ unlike before after c) (Hnames : ∀ t x, t ∈ before → x ∈ ot_columns t → oc_name x ≠ "").
Abbreviation o := (changed_objects d).

Lemma kept_table t : t ∈ before → table_removed o (ot_name t) = false → ∃ u, u ∈ after ∧ ot_name u = ot_name t.
Proof.
  intros Ht Hr. destruct (decide (ot_name t ∈ map ot_name after)) as [(u & Hu & Hin)%elem_of_map|Hn]; [by exists u|]. exfalso.
  apply bool_decide_eq_false in Hr. apply Hr. cbn. apply list_elem_of_omap. eexists. split; [apply Hd; by apply (UnlikeRemoved _ _ t)|done].
Qed.

Lemma kept_column t u column : t ∈ before → u ∈ after → ot_name u = ot_name t → column_changed o (ot_name t) (casefold column) = false →
  has_alike column t u.
Proof.
  intros Ht Hu Hn Hc x Hx Hfold. apply bool_decide_eq_false in Hc.
  assert (Hin : ∀ k b a, k = ColumnRemoved ∨ k = ColumnChanged → MkChange k (ot_name t) (Some (oc_name x)) b a ∈ sd_changes d → False).
  { intros k b a Hk H. apply Hc. cbn. apply list_elem_of_omap. eexists. split; [exact H|]. specialize (Hnames t x Ht Hx).
    destruct Hk as [-> | ->]; cbn; unfold str_empty; rewrite bool_decide_eq_false_2, Hfold by done; done. }
  destruct (decide (oc_name x ∈ map oc_name (ot_columns u))) as [(y & Hy & Hyu)%elem_of_map|Hno].
  - destruct (decide (column_signature x = column_signature y)) as [Hs|Hs]; [by exists y|]. exfalso.
    eapply (Hin ColumnChanged); [by right|]. apply Hd. by apply (UnlikeColumn _ _ t u x y).
  - exfalso. eapply (Hin ColumnRemoved); [by left|]. apply Hd. by apply (UnlikeColumnRemoved _ _ t u x).
Qed.

Lemma kept_keys t u : t ∈ before → u ∈ after → ot_name u = ot_name t → column_changed o (ot_name t) "*" = false →
  ot_foreign_keys u = ot_foreign_keys t.
Proof.
  intros Ht Hu Hn Hc. destruct (decide (ot_foreign_keys t = ot_foreign_keys u)) as [|Hne]; [done|]. exfalso.
  apply bool_decide_eq_false in Hc. apply Hc. cbn. apply list_elem_of_omap. eexists. split; [apply Hd; by apply (UnlikeKeys _ _ t u)|done].
Qed.

Lemma kept_entry t u : t ∈ before → u ∈ after → ot_name u = ot_name t → mem (casefold (ot_name t)) (co_table_entries o) = false →
  ot_indexes u = ot_indexes t ∧ ot_comment_fingerprint u = ot_comment_fingerprint t.
Proof.
  intros Ht Hu Hn Hm. apply bool_decide_eq_false in Hm.
  assert (Hin : ∀ k, k = IndexesChanged ∨ k = CommentChanged → MkChange k (ot_name t) None None None ∈ sd_changes d → False).
  { intros k Hk H. apply Hm. cbn. apply list_elem_of_omap. eexists. split; [exact H|]. by destruct Hk as [-> | ->]. }
  destruct (decide (ot_indexes t = ot_indexes u)), (decide (ot_comment_fingerprint t = ot_comment_fingerprint u)); try done; exfalso;
    [eapply (Hin CommentChanged); [by right|]|eapply (Hin IndexesChanged); [by left|]..]; apply Hd; by econstructor.
Qed.

Lemma folded_removed t table : casefold (ot_name t) = casefold table → table_removed o table = table_removed o (ot_name t).
Proof. unfold table_removed. by intros ->. Qed.
Lemma folded_changed t table column : casefold (ot_name t) = casefold table → column_changed o table column = column_changed o (ot_name t) column.
Proof. unfold column_changed. by intros ->. Qed.

Lemma unaffected_stands t : target_affected o t = false → target_stands before after t.
Proof.
  unfold target_affected, target_stands, column_affected, relationship_affected.
  destruct (tg_object_type t); rewrite ?orb_false_iff.
  - intros [H1 H2] x Hx Hf. rewrite (folded_removed x) in H1 by done. rewrite <-Hf in H2.
    destruct (kept_table x Hx H1) as (u & Hu & Hn). exists u. split_and!; [done..| |]; by apply (kept_entry x u).
  - intros [H1 H2] x Hx Hf. rewrite (folded_removed x) in H1 by done. rewrite (folded_changed x) in H2 by done.
    destruct (kept_table x Hx H1) as (u & Hu & Hn). exists u. split_and!; [done..|]. by apply kept_column.
  - intros [[[[H1 H2] H3] H4] H5]. split; intros x Hx Hf.
    + rewrite (folded_removed x) in H1 by done. rewrite (folded_changed x) in H3, H4 by done.
      destruct (kept_table x Hx H1) as (u & Hu & Hn). exists u. split_and!; [done..|by apply kept_column|by apply kept_keys].
    + rewrite (folded_removed x) in H2 by done. rewrite (folded_changed x) in H5 by done.
      destruct (kept_table x Hx H2) as (u & Hu & Hn). exists u. split_and!; [done..|]. by apply kept_column.
Qed.
End unaffected.

(** An entry after a refresh is one of before, marked or rebound. *)
Lemma known_refreshed o s c t p : (t, p) ∈ known (refreshed o s c) (os_connection_id s) →
  ∃ a q, p = mark_or_rebind a (os_fingerprint s) q ∧ (a = false → target_affected o t = false).
Proof.
  unfold known. rewrite elem_of_app, list_elem_of_bind, elem_of_map. intros [([n u] & H & Hin)|(pr & [= -> ->] & Hin)].
  - assert (∃ w, u = refresh_table o (os_fingerprint s) n w) as [w ->].
    { unfold tables_of in Hin. cbn in Hin. induction (cg_connections c) as [|[k tables] l IH]; cbn in Hin; [by apply not_elem_of_nil in Hin|].
      destruct (decide (k = os_connection_id s)) as [->|Hne].
      - rewrite !bool_decide_eq_true_2 in Hin by done. cbn in Hin. apply elem_of_map in Hin as ([m w] & [= -> ->] & _). by exists w.
      - rewrite (bool_decide_eq_false_2 (_ = k)) in Hin by congruence. by apply IH. }
    unfold entry_targets in H. rewrite elem_of_cons, elem_of_app, !elem_of_map in H. destruct H as [[= -> ->]|[([m e] & [= -> ->] & He)|(r & [= -> ->] & Hr)]].
    + cbn. eexists _, _. split; [done|]. unfold table_affected. rewrite !orb_false_iff. by intros [[-> ->] _].
    + cbn in He. apply elem_of_map in He as ([m' e'] & [= -> ->] & _). cbn. eexists _, _. split; [done|]. exact id.
    + cbn in Hr. apply elem_of_map in Hr as (r' & -> & _). cbn. eexists _, _. split; [done|]. exact id.
  - unfold iter_draft_proposals in Hin. apply elem_of_lfilter in Hin as [Hin Hc]. cbn in Hin. apply elem_of_map in Hin as (q & -> & _).
    revert Hc. destruct (bool_decide (tg_connection_id (pp_target q) = _)) eqn:Hq; cbn; [intros _|rewrite Hq; done]. eexists _, _. split; [done|]. by intros ->.
Qed.

(** After a refresh that found the schema different, whatever the catalog still
    trusts of the connection, an entry or a proposal, is bound to the new snapshot, and
    every table, column and key it is about is in the new snapshot as it was in the old
    one: nothing about a changed object is left standing. *)
Theorem refresh_leaves_nothing_outdated c s u previous t p :
  catalog_ok c = true → snapshot_ok (os_connection_id s) (os_tables s) = true →
  get_schema_snapshot c (os_connection_id s) = Some previous → os_fingerprint previous ≠ os_fingerprint s →
  refresh_catalog_schema c s = Ok u →
  (t, p) ∈ known (ru_store u) (os_connection_id s) → trusted p →
  target_stands (os_tables previous) (os_tables s) t ∧ pv_schema_fingerprint p = os_fingerprint s.
Proof.
  intros Hok Hs Hprev Hne H Hin Ht. unfold refresh_catalog_schema in H. rewrite Hprev in H. apply bind_ok in H as (d & Hd & H).
  rewrite bool_decide_eq_false_2 in H by done. apply bind_ok in H as (c' & Hc' & [= <-]). cbn [ru_store] in Hin.
  unfold replace in Hc'. destruct (catalog_ok (refreshed _ _ _)); [|done]. injection Hc' as <-.
  destruct (known_refreshed _ _ _ _ _ Hin) as (a & q & -> & Ha). apply mark_trusted in Ht as [-> Hfp]. split; [|done].
  destruct (snapshot_names _ _ Hs) as (Hnd & Hcols & _).
  assert (Hnames : ∀ x y, x ∈ os_tables previous → y ∈ ot_columns x → oc_name y ≠ "").
  { assert (Hv : is_ok (validate_snapshot (os_connection_id previous) (os_tables previous) (os_fingerprint previous)) = true).
    { unfold catalog_ok, parts_ok in Hok. rewrite !andb_true_iff, forallb_elem in Hok. destruct_and? Hok.
      apply dict_get_Some in Hprev. match goal with H : forallb (λ e, is_ok _) _ = true |- _ => rewrite forallb_elem in H; exact (H _ Hprev) end. }
    unfold validate_snapshot in Hv. destruct (snapshot_ok (os_connection_id previous) (os_tables previous)) eqn:E; [|done].
    by apply (snapshot_names _ _ E). }
  apply (unaffected_stands _ _ d); [|done|by apply Ha]. intros ch. by eapply changes_exact.
Qed.
End refresh_facts.
