(* ===== verification/CatalogLearning.v ===== *)
(** Where proposals come from when nobody writes them by hand: batches prepared offline
    ([catalog/providers.py], [catalog/generation.py]), and what usage suggests
    ([catalog/usage.py], [catalog/learning.py]). Shown: a learned proposal has the
    recent evidence of several callers for it and tells nobody what is already
    verified or waiting; whatever is generated waits for review; a batch handed in
    again changes nothing. *)
From Stdlib Require Import Ascii.
From Stdlib.Floats Require Import SpecFloat.
From stdpp Require Import pretty sorting.
From S2P Require Export CatalogRefresh.
Local Open Scope Z_scope.

(** * Batches *)

Record ManualDraftSuggestion := MkSuggestion { sg_target : CatalogDraftTarget; sg_content : CatalogDraftContent; sg_confidence : float64 }.
Record ManualDraftBatch := MkBatch {
  mb_generation_id : string;
  mb_connection_id : string;
  mb_schema_fingerprint : string;
  mb_provider_id : string;
  mb_prompt_template_version : string;
  mb_created_by : option string;
  mb_created_at : option Z;
  mb_suggestions : list ManualDraftSuggestion;
}.
Record SemanticGenerationRequest := MkGenerationRequest {
  sq_generation_id : string;
  sq_connection_id : string;
  sq_snapshot : ObservedSchemaSnapshot;
  sq_purpose : string;
  sq_max_proposals : Z;
}.
Record CatalogGenerationUpdate := MkGenerated {
  gu_store : SchemaCatalog;
  gu_outcome : string;
  gu_generation_id : string;
  gu_added_proposal_ids : list string;
}.

(** [_SafeId], after its surrounding space is gone. *)
Definition safe_id (s : string) : bool :=
  sized 120 s
  && match s with
     | String c s => is_alnum_ c && negb (Ascii.eqb c "_") && string_forall (λ c, is_alnum_ c || existsb (Ascii.eqb c) ["."; ":"; "-"]%char) s
     | EmptyString => false
     end.

Section generation.
Context `{CF : CaseFold} `{SL : StrLower} `{FT : FloatText} `{DG : Digest} `{RT : ReferenceText}.

Definition batch_ok (b : ManualDraftBatch) : bool :=
  safe_id (mb_generation_id b) && sized 100 (mb_connection_id b) && sized 80 (mb_schema_fingerprint b) && safe_id (mb_provider_id b)
  && sized 80 (mb_prompt_template_version b) && opt_sized 160 (mb_created_by b)
  && forallb (λ s, target_ok (sg_target s) && content_ok (sg_content s) && SFleb f64_zero (sg_confidence s) && SFleb (sg_confidence s) f64_one) (mb_suggestions b)
  && Nat.leb 1 (length (mb_suggestions b)) && Nat.leb (length (mb_suggestions b)) 200
  && forallb (λ s, bool_decide (tg_connection_id (sg_target s) = mb_connection_id b)) (mb_suggestions b).

Definition generation_request_ok (r : SemanticGenerationRequest) : bool :=
  safe_id (sq_generation_id r) && sized 100 (sq_connection_id r) && mem (sq_purpose r) ["onboarding"; "refresh"; "correction"]
  && (1 <=? sq_max_proposals r) && (sq_max_proposals r <=? 200) && bool_decide (os_connection_id (sq_snapshot r) = sq_connection_id r).

(** [ManualSemanticMemoryProvider.generate]: the batch itself, if it is for the request. *)
Definition manual_generate (b : ManualDraftBatch) (r : SemanticGenerationRequest) : result ManualDraftBatch :=
  raise_if (negb (bool_decide (mb_generation_id b = sq_generation_id r))) (ValueError "manual batch generation_id does not match the request") ≫= λ _,
  raise_if (negb (bool_decide (mb_connection_id b = sq_connection_id r))) (ValueError "manual batch connection does not match the request") ≫= λ _,
  raise_if (negb (bool_decide (mb_schema_fingerprint b = os_fingerprint (sq_snapshot r))))
    (ValueError "manual batch was produced for a different schema fingerprint") ≫= λ _,
  raise_if (sq_max_proposals r <? Z.of_nat (length (mb_suggestions b))) (ValueError "manual batch exceeds the request proposal limit") ≫= λ _,
  Ok b.

(** Sixteen bytes of a digest, as proposals and generations are named. *)
Definition short_digest (payload : json) : string := String.substring 0 32 (sha256_hexdigest (json_dumps payload)).

Definition suggestion_json (s : ManualDraftSuggestion) : json :=
  JObj [("target", target_json (sg_target s)); ("content", content_json (sg_content s)); ("confidence", JFloat (sg_confidence s))].
Definition snapshot_json (s : ObservedSchemaSnapshot) : json :=
  JObj [("format_version", JInt 1); ("connection_id", JStr (os_connection_id s)); ("tables", JList (map table_json (os_tables s)));
        ("fingerprint", JStr (os_fingerprint s))].
Definition request_json (r : SemanticGenerationRequest) : json :=
  JObj [("generation_id", JStr (sq_generation_id r)); ("connection_id", JStr (sq_connection_id r)); ("snapshot", snapshot_json (sq_snapshot r));
        ("purpose", JStr (sq_purpose r)); ("max_proposals", JInt (sq_max_proposals r))].
Definition input_fingerprint (isoformat : Z → string) (r : SemanticGenerationRequest) (b : ManualDraftBatch) : string :=
  payload_fingerprint (JObj [("request", request_json r); ("provider_mode", JStr "manual"); ("provider_id", JStr (mb_provider_id b));
    ("prompt_template_version", JStr (mb_prompt_template_version b)); ("created_by", json_of_option (mb_created_by b));
    ("created_at", json_of_option (isoformat <$> mb_created_at b)); ("suggestions", JList (map suggestion_json (mb_suggestions b)))]).

Definition draft_id (generation_id : string) (s : ManualDraftSuggestion) : string :=
  "urn:querygate:catalog:draft:" +:+ short_digest (JObj [("generation_id", JStr generation_id); ("suggestion", suggestion_json s)]).

Definition draft_of (c : SchemaCatalog) (r : SemanticGenerationRequest) (b : ManualDraftBatch) (s : ManualDraftSuggestion) : CatalogDraftProposal :=
  let id := draft_id (sq_generation_id r) s in
  MkProposal id (sq_generation_id r) (sg_target s) (sg_content s)
    (MkProvenance id (cg_version c) InferredSource [MkEvidence ImportEvidence ("generation:" +:+ sq_generation_id r)] (Some (sg_confidence s)) DraftEntry
       (os_fingerprint (sq_snapshot r)) (mb_created_by b) None (mb_created_at b) None (Some (mb_provider_id b)) (Some (mb_prompt_template_version b)))
    PendingReview [] None None.

(** Construction runs the validators of the model. *)
Definition quarantine (proposals : list CatalogDraftProposal) (record : CatalogGenerationRecord) (c : SchemaCatalog) : result CatalogGenerationUpdate :=
  replace (set_generations (cg_generation_records c ++ [record]) (set_proposals (cg_draft_proposals c ++ proposals) c)) ≫= λ c,
  Ok (MkGenerated c "generated" (gr_generation_id record) (map pp_proposal_id proposals)).

Definition generate_catalog_drafts (isoformat : Z → string) (c : SchemaCatalog) (r : SemanticGenerationRequest) (b : ManualDraftBatch) :
  result CatalogGenerationUpdate :=
  match get_schema_snapshot c (sq_connection_id r) with
  | None => Raise (ValueError "draft generation requires a persisted schema snapshot")
  | Some s =>
      raise_if (negb (bool_decide (os_fingerprint s = os_fingerprint (sq_snapshot r))))
        (ValueError "draft generation request does not use the current schema snapshot") ≫= λ _,
      manual_generate b r ≫= λ b,
      raise_if (negb (forallb (λ s, manual_target_exists (sq_snapshot r) (sg_target s)) (mb_suggestions b)))
        (ValueError "draft target is absent from the schema snapshot") ≫= λ _,
      let fp := input_fingerprint isoformat r b in
      match get_generation_record c (sq_generation_id r) with
      | Some record =>
          raise_if (negb (bool_decide (gr_input_fingerprint record = fp))) (ValueError "generation idempotency key was reused with different input") ≫= λ _,
          Ok (MkGenerated c "idempotent" (sq_generation_id r) [])
      | None =>
          let proposals := map (draft_of c r b) (mb_suggestions b) in
          raise_if (negb (forallb proposal_ok proposals)) invalid ≫= λ _,
          raise_if (negb (bool_decide (NoDup (map pp_proposal_id proposals)))) (ValueError "manual batch contains duplicate semantic proposals") ≫= λ _,
          let record := MkGeneration (sq_generation_id r) (sq_connection_id r) "manual" (mb_provider_id b) (mb_prompt_template_version b)
            (os_fingerprint (sq_snapshot r)) fp (map pp_proposal_id proposals) (mb_created_by b) (mb_created_at b) in
          quarantine proposals record c
      end
  end.
End generation.

(** * Usage signals *)

Definition kind_value (k : CatalogUsageSignalKind) : string :=
  match k with TableUsed => "table_used" | ColumnUsed => "column_used" | RelationshipUsed => "relationship_used" end.
Definition _MAX_USAGE_SIGNALS : nat := 50000.

Record CatalogUsageRecordUpdate := MkUsageRecord {
  uu_store : SchemaCatalog;
  uu_outcome : string;
  uu_recorded_signal_ids : list string;
  uu_duplicate_signal_ids : list string;
}.

(** [InProcessUsageSignalBuffer]. *)
Definition SignalBuffer : Type := dict (list CatalogUsageSignal).
Definition enqueue (max_size : nat) (s : CatalogUsageSignal) (b : SignalBuffer) : SignalBuffer :=
  let bucket := default [] (dict_get (us_connection_id s) b) in
  dict_set (us_connection_id s) ((if Nat.leb max_size (length bucket) then tail bucket else bucket) ++ [s]) b.
Definition drain (connection_id : string) (b : SignalBuffer) : SignalBuffer * list CatalogUsageSignal :=
  match dict_get connection_id b with
  | None | Some [] => (b, [])
  | Some bucket => (dict_set connection_id [] b, bucket)
  end.

Section usage.
Context `{CF : CaseFold} `{SL : StrLower} `{FT : FloatText} `{DG : Digest} `{RT : ReferenceText}.

Definition hash_principal_partition (subject : option string) : string :=
  "sha256:" +:+ sha256_hexdigest (if given subject then default "" subject else "anonymous").

Definition build_usage_signal (connection_id : string) (principal_subject : option string) (target : CatalogDraftTarget) (kind : CatalogUsageSignalKind)
  (schema_fingerprint evidence_reference : string) (observed_at : Z) : result CatalogUsageSignal :=
  let partition := hash_principal_partition principal_subject in
  let identity := unit_separated [connection_id; partition; kind_value kind; tg_table target; default "" (tg_column target);
    default "" (tg_to_table target); default "" (tg_to_column target); evidence_reference] in
  let s := MkSignal ("urn:querygate:catalog:usage:" +:+ String.substring 0 32 (sha256_hexdigest identity)) connection_id partition target kind
    schema_fingerprint observed_at (MkEvidence UsageEvidence evidence_reference) in
  if signal_ok s then Ok s else Raise invalid.

Definition should_emit_signal (c : SchemaCatalog) (connection_id : string) (target : CatalogDraftTarget) : bool :=
  let verified p := bool_decide (pv_status p = VerifiedEntry) in
  match get_table c connection_id (tg_table target) with
  | None => true
  | Some t =>
      match tg_object_type target with
      | TableObject => verified (te_provenance t)
      | ColumnObject => match (if given (tg_column target) then column_of t (column_name target) else None) with Some e => verified (ce_provenance e) | None => true end
      | RelationshipObject => match List.find (is_target_relationship target) (te_relationships t) with Some r => verified (rh_provenance r) | None => true end
      end
  end.

(** [record_usage_signals]: those not there yet, in order, then only the last of all. *)
Fixpoint append_signals (ids : list string) (signals : list CatalogUsageSignal) : list CatalogUsageSignal * list string :=
  match signals with
  | [] => ([], [])
  | s :: signals =>
      if mem (us_signal_id s) ids then let '(new, dup) := append_signals ids signals in (new, us_signal_id s :: dup)
      else let '(new, dup) := append_signals (us_signal_id s :: ids) signals in (s :: new, dup)
  end.
Definition set_signals (l : list CatalogUsageSignal) (c : SchemaCatalog) : SchemaCatalog :=
  MkCatalog (cg_version c) (cg_connections c) (cg_schema_snapshots c) (cg_draft_proposals c) (cg_generation_records c) (cg_version_history c) l.

Definition record_usage_signals (c : SchemaCatalog) (signals : list CatalogUsageSignal) : result CatalogUsageRecordUpdate :=
  let '(new, dup) := append_signals (map us_signal_id (cg_usage_signals c)) signals in
  let all := cg_usage_signals c ++ new in
  if is_nil new then Ok (MkUsageRecord c "no_op" [] dup)
  else replace (set_signals (drop (length all - _MAX_USAGE_SIGNALS) all) c) ≫= λ c, Ok (MkUsageRecord c "recorded" (map us_signal_id new) dup).
End usage.

(** * Learning *)

(** [defaultdict(list)]: groups in the order of their first members. *)
Fixpoint add_to_group {A K} `{EqDecision K} (key : K) (x : A) (groups : list (K * list A)) : list (K * list A) :=
  match groups with
  | [] => [(key, [x])]
  | (k, xs) :: groups => if bool_decide (k = key) then (k, xs ++ [x]) :: groups else (k, xs) :: add_to_group key x groups
  end.
Definition group_by {A K} `{EqDecision K} (key : A → K) (l : list A) : list (K * list A) :=
  foldl (λ groups x, add_to_group (key x) x groups) [] l.

Abbreviation RelationshipKey := (string * string * (string * string))%type.
Abbreviation key_order := (pair_le (pair_le String.le String.le) (pair_le String.le String.le)).

Definition MIN_DISTINCT_PRINCIPALS : Z := 3.
Definition FULL_CONFIDENCE_SUPPORT : Z := 8.
Definition CONFLICT_MARGIN : Z := 2.
(** Thirty days of microseconds. *)
Definition SIGNAL_TTL : Z := 30 * 86400 * 1000000.
(** [0.6]. *)
Definition MIN_CONFIDENCE : float64 := S754_finite false 5404319552844595 (-53).

(** [min(1.0, support / 8)], of integers that doubles hold. *)
Definition float_of_Z (n : Z) : float64 := binary_normalize 53 1024 n 0 false.
Definition support_confidence (support : Z) : float64 :=
  let f := SFdiv 53 1024 (float_of_Z support) (float_of_Z FULL_CONFIDENCE_SUPPORT) in
  if SFltb f f64_one then f else f64_one.

Definition support_of (signals : list CatalogUsageSignal) : Z := Z.of_nat (length (remove_dups (map us_principal_partition signals))).

Section learning.
Context `{CF : CaseFold} `{SL : StrLower} `{FT : FloatText} `{DG : Digest} `{RT : ReferenceText}.

Definition relationship_key (t : CatalogDraftTarget) : RelationshipKey :=
  ((casefold (tg_table t), casefold (column_name t)), (casefold (default "" (tg_to_table t)), casefold (default "" (tg_to_column t)))).

Definition existing_relationship_provenance (c : SchemaCatalog) (connection_id : string) (t : CatalogDraftTarget) : option CatalogEntryProvenance :=
  get_table c connection_id (tg_table t) ≫= λ table, rh_provenance <$> List.find (is_target_relationship t) (te_relationships table).

Definition has_open_proposal (c : SchemaCatalog) (connection_id : string) (t : CatalogDraftTarget) : bool :=
  existsb (λ p, bool_decide (tg_object_type (pp_target p) = RelationshipObject) && bool_decide (relationship_key (pp_target p) = relationship_key t)
                && rejectable p) (iter_draft_proposals c connection_id).

(** The evidence that counts: of joins, under the schema of now, and recent. *)
Definition counts (fingerprint : string) (now : Z) (s : CatalogUsageSignal) : bool :=
  bool_decide (us_kind s = RelationshipUsed) && bool_decide (us_schema_fingerprint s = fingerprint) && negb (us_observed_at s <? now - SIGNAL_TTL).

Definition Evidence : Type := RelationshipKey * list CatalogUsageSignal.

(** Of the targets of one column, the first, if it leads. *)
Definition leader (rivals : list Evidence) : option Evidence :=
  match sort_by (λ e, - support_of e.2) Z.le rivals with
  | [e] => Some e
  | e :: f :: _ => if CONFLICT_MARGIN <=? support_of e.2 - support_of f.2 then Some e else None
  | [] => None
  end.
Definition qualifies (e : Evidence) : bool :=
  negb (support_of e.2 <? MIN_DISTINCT_PRINCIPALS) && negb (SFltb (support_confidence (support_of e.2)) MIN_CONFIDENCE).
Definition qualifying (c : SchemaCatalog) (connection_id fingerprint : string) (now : Z) : list Evidence :=
  let grouped := group_by (λ s, relationship_key (us_target s)) (List.filter (counts fingerprint now) (iter_usage_signals c connection_id)) in
  List.filter qualifies (sort_by fst key_order (omap (λ '(_, rivals), leader rivals) (group_by (λ e, e.1.1) grouped))).

Definition evidence_json (e : Evidence) : json :=
  JObj [("table", JStr e.1.1.1); ("column", JStr e.1.1.2); ("to_table", JStr e.1.2.1); ("to_column", JStr e.1.2.2); ("support", JInt (support_of e.2))].
Definition learned_generation_id (connection_id fingerprint : string) (evidence : list Evidence) : string :=
  "usage-learner:" +:+ short_digest (JObj [("connection_id", JStr connection_id); ("schema_fingerprint", JStr fingerprint);
    ("relationships", JList (map evidence_json evidence))]).

(** The target of the first signal; a group has one. *)
Definition evidence_target (e : Evidence) : option CatalogDraftTarget := us_target <$> head e.2.
Definition unknown_yet (c : SchemaCatalog) (connection_id : string) (t : CatalogDraftTarget) : bool :=
  negb (match existing_relationship_provenance c connection_id t with Some p => bool_decide (pv_status p = VerifiedEntry) | None => false end)
  && negb (has_open_proposal c connection_id t).

Definition learned_proposal (c : SchemaCatalog) (connection_id generation_id fingerprint : string) (now : Z) (e : Evidence) (t : CatalogDraftTarget) :
  result CatalogDraftProposal :=
  let support := support_of e.2 in
  let id := "urn:querygate:catalog:draft:" +:+ short_digest (JObj [("generation_id", JStr generation_id);
    ("relationship", JList [JStr e.1.1.1; JStr e.1.1.2; JStr e.1.2.1; JStr e.1.2.2])]) in
  make_content (Some ("Frequently used join observed across " +:+ pretty support +:+ " independent callers.")) [] None ≫= λ content,
  let p := MkProposal id generation_id t content
    (MkProvenance id (cg_version c) LearnedSource [MkEvidence UsageEvidence ("usage:" +:+ connection_id +:+ ":" +:+ generation_id)]
       (Some (support_confidence support)) DraftEntry fingerprint None None (Some now) None None None) PendingReview [] None None in
  if proposal_ok p then Ok p else Raise invalid.

Definition generate_learned_relationship_proposals (c : SchemaCatalog) (connection_id : string) (now : Z) : result CatalogGenerationUpdate :=
  match get_schema_snapshot c connection_id with
  | None => Raise (ValueError "usage-based learning requires a persisted schema snapshot")
  | Some s =>
      let evidence := qualifying c connection_id (os_fingerprint s) now in
      if is_nil evidence then Ok (MkGenerated c "no_evidence" "" []) else
      let generation_id := learned_generation_id connection_id (os_fingerprint s) evidence in
      match get_generation_record c generation_id with
      | Some _ => Ok (MkGenerated c "idempotent" generation_id [])
      | None =>
          let selected := omap (λ e, evidence_target e ≫= λ t, if unknown_yet c connection_id t then Some (e, t) else None) evidence in
          if is_nil selected then Ok (MkGenerated c "no_evidence" "" []) else
          map_result (λ '(e, t), learned_proposal c connection_id generation_id (os_fingerprint s) now e t) selected ≫= λ proposals,
          quarantine proposals (MkGeneration generation_id connection_id "usage-learner" "usage-learner" "usage-learner-v1" (os_fingerprint s)
            (payload_fingerprint (JList (map evidence_json evidence))) (map pp_proposal_id proposals) None (Some now)) c
      end
  end.
End learning.

(** * What is learned *)

Lemma add_to_group_elem {A K} `{EqDecision K} (key : K) (x : A) groups k xs y : (k, xs) ∈ add_to_group key x groups → y ∈ xs →
  y = x ∧ k = key ∨ ∃ ys, (k, ys) ∈ groups ∧ y ∈ ys.
Proof.
  induction groups as [|[k' ys] groups IH]; cbn.
  - intros H Hy. apply list_elem_of_singleton in H as [= -> ->]. apply list_elem_of_singleton in Hy. by left.
  - case_bool_decide as Hk; rewrite elem_of_cons; intros [[= -> ->]|H] Hy.
    + apply elem_of_app in Hy as [Hy|Hy]; [right; exists ys; split; [by left|done]|apply list_elem_of_singleton in Hy; by left].
    + right. exists xs. split; [by right|done].
    + right. exists ys. split; [by left|done].
    + destruct (IH H Hy) as [?|(zs & Hz & ?)]; [by left|]. right. exists zs. split; [by right|done].
Qed.

(** A group has members of the list, of its key. *)
Lemma group_by_elem {A K} `{EqDecision K} (key : A → K) l k xs x : (k, xs) ∈ group_by key l → x ∈ xs → x ∈ l ∧ key x = k.
Proof.
  unfold group_by. enough (H : ∀ groups, (k, xs) ∈ foldl (λ groups x, add_to_group (key x) x groups) groups l → x ∈ xs →
    (x ∈ l ∧ key x = k) ∨ ∃ ys, (k, ys) ∈ groups ∧ x ∈ ys).
  { intros H1 H2. destruct (H [] H1 H2) as [?|(ys & ?%not_elem_of_nil & _)]; done. }
  induction l as [|z l IH]; intros groups H Hx; cbn in H; [right; by exists xs|].
  destruct (IH _ H Hx) as [[? ?]|(ys & H1 & H2)]; [left; split; [by right|done]|].
  destruct (add_to_group_elem _ _ _ _ _ _ H1 H2) as [[-> ->]|?]; [left; split; [by left|done]|by right].
Qed.

Section learned.
Context `{CF : CaseFold} `{SL : StrLower} `{FT : FloatText} `{DG : Digest} `{RT : ReferenceText}.

Lemma leader_elem rivals e : leader rivals = Some e → e ∈ rivals.
Proof.
  unfold leader. destruct (sort_by (λ e, - support_of e.2) Z.le rivals) as [|f [|g l]] eqn:E; [done|intros [= ->]|destruct (_ <=? _); [intros [= ->]|done]];
    (assert (H : e ∈ sort_by (λ e, - support_of e.2) Z.le rivals) by (rewrite E; by left)); unfold sort_by in H; by rewrite merge_sort_Permutation in H.
Qed.

(** Three callers and a confidence of six tenths are five callers. *)
Lemma qualifies_five e : qualifies e = true → 5 ≤ support_of e.2.
Proof.
  unfold qualifies, MIN_DISTINCT_PRINCIPALS. rewrite andb_true_iff, !negb_true_iff, Z.ltb_ge. intros [H1 H2].
  destruct (decide (support_of e.2 = 3)) as [E|]; [rewrite E in H2; by vm_compute in H2|].
  destruct (decide (support_of e.2 = 4)) as [E|]; [rewrite E in H2; by vm_compute in H2|lia].
Qed.

Lemma qualifying_evidence c connection_id fp now e : e ∈ qualifying c connection_id fp now →
  5 ≤ support_of e.2 ∧ ∀ s, s ∈ e.2 → s ∈ iter_usage_signals c connection_id ∧ counts fp now s = true ∧ relationship_key (us_target s) = e.1.
Proof.
  unfold qualifying. intros [H Hq]%elem_of_lfilter. split; [by apply qualifies_five|]. unfold sort_by in H. rewrite merge_sort_Permutation in H.
  apply list_elem_of_omap in H as ([k rivals] & Hr & He). apply leader_elem in He. destruct e as [key signals].
  destruct (group_by_elem _ _ _ _ _ Hr He) as [Hin _]. intros s Hs. cbn in Hs |- *.
  destruct (group_by_elem _ _ _ _ _ Hin Hs) as [Hl <-]. by apply elem_of_lfilter in Hl as [? ?].
Qed.

Lemma quarantine_store proposals record c u : quarantine proposals record c = Ok u →
  gu_store u = set_generations (cg_generation_records c ++ [record]) (set_proposals (cg_draft_proposals c ++ proposals) c).
Proof.
  unfold quarantine, replace. intros H. apply bind_ok in H as (c' & Hc & [= <-]). destruct (catalog_ok _); [|done]. by injection Hc as <-.
Qed.

(** What a learned proposal rests on. *)
Definition well_founded_proposal (c : SchemaCatalog) (connection_id : string) (now : Z) (p : CatalogDraftProposal) : Prop :=
  pp_review_status p = PendingReview ∧ pv_status (pp_provenance p) = DraftEntry ∧ pv_source_class (pp_provenance p) = LearnedSource
  ∧ unknown_yet c connection_id (pp_target p) = true
  ∧ ∃ s signals, get_schema_snapshot c connection_id = Some s ∧ pv_schema_fingerprint (pp_provenance p) = os_fingerprint s
    ∧ 5 ≤ support_of signals
    ∧ ∀ e, e ∈ signals → e ∈ iter_usage_signals c connection_id ∧ us_kind e = RelationshipUsed ∧ us_schema_fingerprint e = os_fingerprint s
        ∧ now - SIGNAL_TTL ≤ us_observed_at e ∧ relationship_key (us_target e) = relationship_key (pp_target p).

(** Learning adds to the catalog nothing but proposals that wait for review, each
    of a join neither verified nor under review, which at least five different callers
    used within thirty days under the schema of now; and without such evidence it adds
    nothing. *)
Theorem learned_has_evidence c connection_id now u : generate_learned_relationship_proposals c connection_id now = Ok u →
  ∃ proposals, cg_draft_proposals (gu_store u) = cg_draft_proposals c ++ proposals
    ∧ cg_connections (gu_store u) = cg_connections c ∧ gu_added_proposal_ids u = map pp_proposal_id proposals
    ∧ Forall (well_founded_proposal c connection_id now) proposals.
Proof.
  unfold generate_learned_relationship_proposals. destruct (get_schema_snapshot c connection_id) as [s|] eqn:Hs; [|done].
  destruct (is_nil (qualifying _ _ _ _)); [intros [= <-]; exists []; by rewrite app_nil_r|].
  destruct (get_generation_record _ _); [intros [= <-]; exists []; by rewrite app_nil_r|].
  destruct (is_nil (omap _ _)); [intros [= <-]; exists []; by rewrite app_nil_r|].
  intros H. apply bind_ok in H as (proposals & Hp & H). exists proposals. rewrite (quarantine_store _ _ _ _ H).
  split_and!; [done|done|unfold quarantine in H; by apply bind_ok in H as (? & _ & [= <-])|].
  apply Forall_forall. intros p Hin. apply (map_result_elem _ _ _ p) in Hp; [|done]. destruct Hp as ([e t] & Het & Hlp).
  apply list_elem_of_omap in Het as (e' & He & Ht). destruct (evidence_target e') as [t'|] eqn:Htg; [|done]. cbn in Ht.
  destruct (unknown_yet _ _ _) eqn:Hu; [|done]. injection Ht as -> ->.
  unfold learned_proposal in Hlp. apply bind_ok in Hlp as (content & _ & Hlp). destruct (proposal_ok _); [|done]. injection Hlp as <-.
  destruct (qualifying_evidence _ _ _ _ _ He) as [H5 Hall]. unfold well_founded_proposal. cbn. split_and!; [done..|].
  exists s, e.2. split_and!; [done..|]. unfold evidence_target in Htg. destruct e.2 as [|z signals] eqn:Es; [done|]. cbn in Htg. injection Htg as <-.
  destruct (Hall z ltac:(by left)) as (_ & _ & Hz). intros x Hx. destruct (Hall x Hx) as (H1 & H2 & H3).
  unfold counts in H2. rewrite !andb_true_iff, !bool_decide_eq_true, negb_true_iff, Z.ltb_ge in H2. destruct H2 as [[H2 H4] H6].
  split_and!; [done..|congruence].
Qed.
End learned.
