(* ===== verification/CatalogAdmin.v ===== *)
(** The catalog under administration: the router of [api/catalog_governance_routes.py]
    over the operations of [CatalogGovernance] and [CatalogLearning], the repository that
    persists what they return ([catalog/repository.py]), and the monitors that refresh
    and learn beside it, as steps of one state; the theorems are in [CatalogFacts]. *)
From S2P Require Export CatalogLearning.
Local Open Scope Z_scope.

Record CatalogAudit := MkCatalogAudit {
  ca_action : string;
  ca_outcome : string;
  ca_principal : string;
  ca_connection_id : string;
  ca_proposal_id : option string;
  ca_proposal_count : option Z;
  ca_version_id : option string;
  ca_entry_id : option string;
  ca_error_category : option string;
}.

(** The catalog file, which the process-wide store always equals, the audit trail and
    the buffer of usage signals. *)
Record CatalogWorld := MkCatalogWorld {
  cw_catalog : SchemaCatalog;
  cw_audit : list CatalogAudit;
  cw_buffer : SignalBuffer;
}.

Inductive catalog_answer :=
| Updated (u : CatalogGovernanceUpdate)
| Generated (u : CatalogGenerationUpdate)
| Status (code : Z).

Inductive CatalogRequest :=
| CreateProposal (object_type : CatalogDraftObjectType) (table : string) (column to_table to_column : option string)
    (description : option string) (aliases : list string) (default_aggregation : option string)
| EditProposal (id : string) (description : option string) (aliases : list string) (default_aggregation : option string)
| ApproveProposal (id : string)
| RejectProposal (id reason : string)
| BulkApprove (ids : list string)
| BulkReject (ids : list string) (reason : string)
| PublishProposal (id : string)
| RollBack (version_id : string)
| ImportConnection (b : CatalogExportBundle)
| DeleteProposal (id : string)
| BulkDelete (ids : list string)
| DeleteVersion (version_id : string)
| GenerateDrafts (b : ManualDraftBatch) (purpose : string) (max_proposals : Z)
| LearnNow.

Definition scope_of (r : CatalogRequest) : string :=
  match r with
  | CreateProposal _ _ _ _ _ _ _ _ => CATALOG_AUTHOR_SCOPE
  | EditProposal _ _ _ _ => CATALOG_EDIT_SCOPE
  | ApproveProposal _ | BulkApprove _ => CATALOG_APPROVE_SCOPE
  | RejectProposal _ _ | BulkReject _ _ => CATALOG_REJECT_SCOPE
  | PublishProposal _ => CATALOG_PUBLISH_SCOPE
  | RollBack _ => CATALOG_ROLLBACK_SCOPE
  | ImportConnection _ => CATALOG_EXPORT_SCOPE
  | DeleteProposal _ | BulkDelete _ | DeleteVersion _ => CATALOG_DELETE_SCOPE
  | GenerateDrafts _ _ _ | LearnNow => CATALOG_GENERATE_SCOPE
  end.
Definition action_of (r : CatalogRequest) : string :=
  match r with
  | CreateProposal _ _ _ _ _ _ _ _ => "manual_create" | EditProposal _ _ _ _ => "edit" | ApproveProposal _ => "approve" | BulkApprove _ => "bulk_approve"
  | RejectProposal _ _ => "reject" | BulkReject _ _ => "bulk_reject" | PublishProposal _ => "publish" | RollBack _ => "rollback"
  | ImportConnection _ => "import" | DeleteProposal _ => "delete_proposal" | BulkDelete _ => "bulk_delete" | DeleteVersion _ => "delete_version"
  | GenerateDrafts _ _ _ => "generate" | LearnNow => "learn"
  end.
(** The proposal a route names. *)
Definition named_proposal (r : CatalogRequest) : option string :=
  match r with
  | EditProposal id _ _ _ | ApproveProposal id | RejectProposal id _ | PublishProposal id | DeleteProposal id => Some id
  | _ => None
  end.

Definition persist_catalog (c : SchemaCatalog) (w : CatalogWorld) : CatalogWorld := MkCatalogWorld c (cw_audit w) (cw_buffer w).
Definition log_catalog (a : CatalogAudit) (w : CatalogWorld) : CatalogWorld := MkCatalogWorld (cw_catalog w) (cw_audit w ++ [a]) (cw_buffer w).
Definition set_buffer (b : SignalBuffer) (w : CatalogWorld) : CatalogWorld := MkCatalogWorld (cw_catalog w) (cw_audit w) b.

Section routes.
Context `{CF : CaseFold} `{SL : StrLower} `{FT : FloatText} `{DG : Digest} `{RT : ReferenceText}.
(** What the registry knows, whether a catalog file is configured, and how a time reads. *)
Context (known_connection : string → bool) (has_catalog_file : bool) (isoformat : Z → string).

(** [require_scope], [_require_known_connection] and [_repository]. *)
Definition refusal_status (p : Principal) (scope connection : string) : option Z :=
  if negb (bool_decide (scope ∈ scopes p)) then Some 403
  else if negb (known_connection connection) then Some 404
  else if negb has_catalog_file then Some 400 else None.

Definition refusal (p : Principal) (connection action category : string) (id : option string) : CatalogAudit :=
  MkCatalogAudit action "rejected" (subject p) connection id None None None (Some category).

(** [_run_mutation]. *)
Definition run_mutation (p : Principal) (connection : string) (r : CatalogRequest) (mutator : SchemaCatalog → result CatalogGovernanceUpdate)
  (w : CatalogWorld) : CatalogWorld * catalog_answer :=
  match refusal_status p (scope_of r) connection with
  | Some code => (w, Status code)
  | None =>
      match mutator (cw_catalog w) with
      | Ok u =>
          (log_catalog (MkCatalogAudit (action_of r) "success" (subject p) connection
             (match up_proposal_id u with Some id => if str_empty id then named_proposal r else Some id | None => named_proposal r end)
             (if is_nil (up_proposal_ids u) then None else Some (Z.of_nat (length (up_proposal_ids u)))) (up_version_id u) (up_entry_id u) None)
             (persist_catalog (up_store u) w), Updated u)
      | Raise (NotFoundError _) => (log_catalog (refusal p connection (action_of r) "not_found" (named_proposal r)) w, Status 404)
      | Raise e =>
          if bool_decide (e = CatalogGovernanceError)
          then (log_catalog (refusal p connection (action_of r) "validation" (named_proposal r)) w, Status 409)
          else (w, Status 500)
      end
  end.

(** The two routes that generate; a [ValidationError] is a [ValueError]. *)
Definition run_generation (p : Principal) (connection : string) (r : CatalogRequest) (generator : SchemaCatalog → result CatalogGenerationUpdate)
  (w : CatalogWorld) : CatalogWorld * catalog_answer :=
  match refusal_status p (scope_of r) connection with
  | Some code => (w, Status code)
  | None =>
      match generator (cw_catalog w) with
      | Ok u =>
          (log_catalog (MkCatalogAudit (action_of r) "success" (subject p) connection None (Some (Z.of_nat (length (gu_added_proposal_ids u)))) None None None)
             (persist_catalog (gu_store u) w), Generated u)
      | Raise e =>
          match e with
          | ValueError _ => (log_catalog (refusal p connection (action_of r) "validation" None) w, Status 422)
          | _ => if bool_decide (e = CatalogGovernanceError ∨ e = invalid)
                 then (log_catalog (refusal p connection (action_of r) "validation" None) w, Status 422)
                 else (w, Status 500)
          end
      end
  end.

Definition generate_in (connection : string) (b : ManualDraftBatch) (purpose : string) (max_proposals : Z) (c : SchemaCatalog) : result CatalogGenerationUpdate :=
  match get_schema_snapshot c connection with
  | None => Raise CatalogGovernanceError
  | Some s =>
      let r := MkGenerationRequest (mb_generation_id b) connection s purpose max_proposals in
      raise_if (negb (generation_request_ok r)) invalid ≫= λ _, generate_catalog_drafts isoformat c r b
  end.

(** What a handler refuses itself comes after its first two tests, and leaves no trace. *)
Definition malformed (p : Principal) (connection : string) (r : CatalogRequest) (w : CatalogWorld) : CatalogWorld * catalog_answer :=
  match refusal_status p (scope_of r) connection with Some 403 => (w, Status 403) | Some 404 => (w, Status 404) | _ => (w, Status 422) end.

(** A body the model refuses answers 422 before the handler runs. *)
Definition body_ok (r : CatalogRequest) : bool :=
  match r with
  | EditProposal _ d a g => is_ok (make_content d a g)
  | RejectProposal _ reason => sized 500 reason
  | BulkApprove ids | BulkDelete ids => Nat.leb 1 (length ids) && Nat.leb (length ids) 50
  | BulkReject ids reason => Nat.leb 1 (length ids) && Nat.leb (length ids) 50 && sized 500 reason
  | ImportConnection b => bundle_ok b
  | GenerateDrafts b _ n => batch_ok b && (1 <=? n) && (n <=? 200)
  | _ => true
  end.

Definition handle (p : Principal) (connection : string) (r : CatalogRequest) (now : Z) (w : CatalogWorld) : CatalogWorld * catalog_answer :=
  let actor := subject p in
  let run m := run_mutation p connection r m w in
  match r with
  | CreateProposal o table column to_table to_column d a g =>
      let target := MkTarget connection o table column to_table to_column in
      match make_content d a g with
      | Ok content =>
          if target_ok target then run (λ cat, create_manual_proposal isoformat cat connection target content actor now)
          else malformed p connection r w
      | Raise _ => malformed p connection r w
      end
  | EditProposal id d a g => run (λ c, make_content d a g ≫= λ content, edit_proposal c id connection actor content now)
  | ApproveProposal id => run (λ c, approve_proposal c id connection actor now)
  | RejectProposal id reason => run (λ c, reject_proposal c id connection actor reason now)
  | BulkApprove ids => run (λ c, bulk_approve_proposals c ids connection actor now)
  | BulkReject ids reason => run (λ c, bulk_reject_proposals c ids connection actor reason now)
  | PublishProposal id => run (λ c, publish_proposal c id connection actor now)
  | RollBack v => run (λ c, rollback_version c v connection actor now)
  | ImportConnection b => run (λ c, import_connection c b connection)
  | DeleteProposal id => run (λ c, delete_proposal c id connection)
  | BulkDelete ids => run (λ c, bulk_delete_proposals c ids connection)
  | DeleteVersion v => run (λ c, delete_version_record c v connection)
  | GenerateDrafts b purpose n =>
      if bool_decide (mb_connection_id b = connection) then run_generation p connection r (generate_in connection b purpose n) w
      else malformed p connection r w
  | LearnNow => run_generation p connection r (λ c, generate_learned_relationship_proposals c connection now) w
  end.
Definition catalog_request (p : Principal) (connection : string) (r : CatalogRequest) (now : Z) (w : CatalogWorld) : CatalogWorld * catalog_answer :=
  if body_ok r then handle p connection r now w else (w, Status 422).

(** ** Reading *)

Record ProposalListItem := MkListItem {
  pi_proposal_id : string;
  pi_generation_id : string;
  pi_target : CatalogDraftTarget;
  pi_content : CatalogDraftContent;
  pi_review_status : ProposalReviewStatus;
  pi_schema_status : CatalogEntryStatus;
  pi_source_class : KnowledgeSourceClass;
  pi_confidence : option float64;
  pi_created_at : option Z;
  pi_published_entry_id : option string;
  pi_published_version_id : option string;
}.
Definition list_item (p : CatalogDraftProposal) : ProposalListItem :=
  MkListItem (pp_proposal_id p) (pp_generation_id p) (pp_target p) (pp_content p) (pp_review_status p) (pv_status (pp_provenance p))
    (pv_source_class (pp_provenance p)) (pv_confidence (pp_provenance p)) (pv_created_at (pp_provenance p)) (pp_published_entry_id p)
    (pp_published_version_id p).

(** A version, with the names of the fields it touched and not their content. *)
Record CatalogVersionSummary := MkVersionSummary {
  vs_record_id : string;
  vs_action : CatalogVersionAction;
  vs_status : CatalogVersionStatus;
  vs_actor : string;
  vs_occurred_at : Z;
  vs_proposal_id : option string;
  vs_rolled_back_version_id : option string;
  vs_target : CatalogDraftTarget;
  vs_fields_changed : list string;
}.
Definition version_summary (r : CatalogVersionRecord) : CatalogVersionSummary :=
  MkVersionSummary (vr_version_id r) (vr_action r) (vr_status r) (vr_actor r) (vr_occurred_at r) (vr_proposal_id r) (vr_rolled_back_version_id r)
    (vc_target (vr_change r))
    (match (match vc_after (vr_change r) with Some a => Some a | None => vc_before (vr_change r) end) with
     | Some c => map field_name (touched_fields c)
     | None => []
     end).

(** Reads need the scope of reviewers, and no configured file. *)
Definition catalog_read {A} (p : Principal) (scope connection : string) (r : result A) : A + Z :=
  if negb (bool_decide (scope ∈ scopes p)) then inr 403
  else if negb (known_connection connection) then inr 404
  else match r with Ok a => inl a | Raise (NotFoundError _) => inr 404 | Raise _ => inr 500 end.

Definition list_proposals (p : Principal) (connection : string) (status : option ProposalReviewStatus) (w : CatalogWorld) : list ProposalListItem + Z :=
  catalog_read p CATALOG_REVIEW_SCOPE connection
    (Ok (map list_item (List.filter (λ q, match status with Some s => bool_decide (pp_review_status q = s) | None => true end)
                          (iter_draft_proposals (cw_catalog w) connection)))).
Definition get_proposal (p : Principal) (connection id : string) (w : CatalogWorld) : (ProposalListItem * list ProposalReviewEvent) + Z :=
  catalog_read p CATALOG_REVIEW_SCOPE connection
    (require_proposal (cw_catalog w) id connection ≫= λ q, Ok (list_item q, pp_review_history q)).
(** The policy is that of the principal to be tested. *)
Definition preview_as (p : Principal) (connection id : string) (policy : Policy) (w : CatalogWorld) : ProposalPublishPreview + Z :=
  catalog_read p CATALOG_REVIEW_SCOPE connection (preview_publish (cw_catalog w) id connection policy).
Definition list_versions_of (p : Principal) (connection : string) (w : CatalogWorld) : list CatalogVersionSummary + Z :=
  catalog_read p CATALOG_REVIEW_SCOPE connection (Ok (map version_summary (iter_version_history (cw_catalog w) connection))).
Definition get_version (p : Principal) (connection version_id : string) (w : CatalogWorld) : CatalogVersionRecord + Z :=
  catalog_read p CATALOG_REVIEW_SCOPE connection
    (match get_version_record (cw_catalog w) version_id with
     | Some r => if bool_decide (tg_connection_id (vc_target (vr_change r)) = connection) then Ok r else Raise (unknown_catalog_version version_id)
     | None => Raise (unknown_catalog_version version_id)
     end).
Definition export_to `{SO : SetOrder} (p : Principal) (connection : string) (now : Z) (w : CatalogWorld) : CatalogWorld * (CatalogExportBundle + Z) :=
  match catalog_read p CATALOG_EXPORT_SCOPE connection (Ok (export_connection (cw_catalog w) connection now)) with
  | inl b => (log_catalog (MkCatalogAudit "export" "success" (subject p) connection None None None None None) w, inl b)
  | inr code => (w, inr code)
  end.

(** ** The monitors *)

(** [CatalogRefreshMonitor.refresh_once], on what it has scanned; a failure is logged. *)
Definition refresh_once (s : ObservedSchemaSnapshot) (w : CatalogWorld) : CatalogWorld :=
  match refresh_catalog_schema (cw_catalog w) s with Ok u => persist_catalog (ru_store u) w | Raise _ => w end.

(** [CatalogUsageLearningMonitor.run_once]: two updates of the file, the second only if
    the first went through. *)
Definition learn_once (connection_id : string) (now : Z) (w : CatalogWorld) : CatalogWorld :=
  let '(b, drained) := drain connection_id (cw_buffer w) in
  let w := set_buffer b w in
  match (if is_nil drained then Ok (cw_catalog w) else record_usage_signals (cw_catalog w) drained ≫= λ u, Ok (uu_store u)) with
  | Raise _ => w
  | Ok c =>
      let w := persist_catalog c w in
      match generate_learned_relationship_proposals c connection_id now with Ok u => persist_catalog (gu_store u) w | Raise _ => w end
  end.

(** ** Courses of events *)

Inductive catalog_event :=
| Submit (p : Principal) (connection : string) (r : CatalogRequest) (now : Z)
| SchemaScanned (s : ObservedSchemaSnapshot)
| CatalogUsed (buffer_size : nat) (s : CatalogUsageSignal)
| LearningCycle (connection_id : string) (now : Z).

Definition catalog_step (w : CatalogWorld) (e : catalog_event) : CatalogWorld :=
  match e with
  | Submit p connection r now => (catalog_request p connection r now w).1
  | SchemaScanned s => refresh_once s w
  | CatalogUsed n s => set_buffer (enqueue n s (cw_buffer w)) w
  | LearningCycle id now => learn_once id now w
  end.
Definition catalog_run (c : SchemaCatalog) (events : list catalog_event) : CatalogWorld := foldl catalog_step (MkCatalogWorld c [] []) events.
End routes.
