(* ===== verification/CatalogFacts.v ===== *)
(** What the administration of the catalog keeps: who approved what is published,
    what a publication leaves alone, and what a rollback undoes. *)
From stdpp Require Import pretty sorting.
From S2P Require Export CatalogAdmin.
Local Open Scope Z_scope.

(** The guards of an operation that went through. *)
Ltac guards H := rewrite ?bind_ok_unit, ?raise_if_ok, ?negb_false_iff, ?bool_decide_eq_true in H.

(** * Where accepted proposals come from *)

Definition accepted (p : CatalogDraftProposal) : Prop := pp_review_status p = ApprovedReview ∨ pp_review_status p = PublishedReview.
(** One proposal, as a reviewer reads it. *)
Definition same_proposal (p q : CatalogDraftProposal) : Prop :=
  pp_proposal_id p = pp_proposal_id q ∧ pp_target p = pp_target q ∧ pp_content p = pp_content q.
Definition reviewable (p : CatalogDraftProposal) : Prop := pp_review_status p = PendingReview ∧ is_stale p = false.

Section facts.
Context `{CF : CaseFold} `{SL : StrLower} `{FT : FloatText} `{DG : Digest} `{RT : ReferenceText}.

(** From one catalog to the next, what is accepted was accepted before, or waited and
    has a name that the step approves. *)
Definition moved (A : string → Prop) (c c' : SchemaCatalog) : Prop :=
  catalog_ok c' = true ∧ ∀ q, q ∈ cg_draft_proposals c' → accepted q →
  ∃ p, p ∈ cg_draft_proposals c ∧ same_proposal p q ∧ (accepted p ∨ reviewable p ∧ A (pp_proposal_id p)).

Lemma replace_ok c c' : replace c = Ok c' ↔ c' = c ∧ catalog_ok c = true.
Proof. unfold replace. destruct (catalog_ok c); naive_solver. Qed.

Lemma catalog_ids c : catalog_ok c = true → NoDup (proposal_ids c).
Proof. unfold catalog_ok. rewrite !andb_true_iff, !bool_decide_eq_true. tauto. Qed.

Lemma moved_refl A c : catalog_ok c = true → moved A c c.
Proof. intros H. split; [done|]. intros q Hq Ha. exists q. split_and!; [done..|by left]. Qed.

Lemma moved_map A g c c' : catalog_ok c' = true → cg_draft_proposals c' = map g (cg_draft_proposals c) →
  (∀ p, p ∈ cg_draft_proposals c → accepted (g p) → same_proposal p (g p) ∧ (accepted p ∨ reviewable p ∧ A (pp_proposal_id p))) → moved A c c'.
Proof.
  intros Hok Heq Hg. split; [done|]. rewrite Heq. intros q (p & -> & Hp)%elem_of_map Ha. exists p. split; [done|by apply Hg].
Qed.

Lemma moved_incl A c c' : catalog_ok c' = true → (∀ q, q ∈ cg_draft_proposals c' → accepted q → q ∈ cg_draft_proposals c) → moved A c c'.
Proof. intros Hok Hin. split; [done|]. intros q Hq Ha. exists q. split_and!; [by apply Hin|done..|by left]. Qed.

(** A name finds the one proposal that has it. *)
Lemma found_proposal c id p : get_draft_proposal c id = Some p → p ∈ cg_draft_proposals c ∧ pp_proposal_id p = id.
Proof.
  intros [Hin Hid]%List.find_some. apply list_elem_of_In in Hin. by apply bool_decide_eq_true in Hid.
Qed.
Lemma the_proposal c id p q : catalog_ok c = true → get_draft_proposal c id = Some p → q ∈ cg_draft_proposals c → pp_proposal_id q = id → q = p.
Proof.
  intros Hok [Hp Hid]%found_proposal Hq Hqid. apply (named_once pp_proposal_id (cg_draft_proposals c)); [by apply catalog_ids|done..|congruence].
Qed.
Lemma require_found c id connection p : require_proposal c id connection = Ok p →
  get_draft_proposal c id = Some p ∧ tg_connection_id (pp_target p) = connection.
Proof. unfold require_proposal. destruct (get_draft_proposal c id); [|done]. case_bool_decide; [|done]. naive_solver. Qed.

(** The changes of one proposal, and of several. *)
Lemma moved_on_proposal A c c' id f : catalog_ok c' = true → cg_draft_proposals c' = cg_draft_proposals (on_proposal id f c) →
  (∀ p, p ∈ cg_draft_proposals c → pp_proposal_id p = id → accepted (f p) → same_proposal p (f p) ∧ (accepted p ∨ reviewable p ∧ A id)) → moved A c c'.
Proof.
  intros Hok Heq Hf. apply (moved_map A (λ p, if bool_decide (pp_proposal_id p = id) then f p else p)); [done..|]. intros p Hp.
  case_bool_decide as Hid; [rewrite Hid; by apply Hf|]. intros Ha. split; [done|by left].
Qed.
Lemma moved_on_proposals A c c' ids f : catalog_ok c' = true → cg_draft_proposals c' = cg_draft_proposals (on_proposals ids f c) →
  (∀ p, p ∈ cg_draft_proposals c → pp_proposal_id p ∈ ids → accepted (f p) →
    same_proposal p (f p) ∧ (accepted p ∨ reviewable p ∧ A (pp_proposal_id p))) → moved A c c'.
Proof.
  intros Hok Heq Hf. apply (moved_map A (λ p, if mem (pp_proposal_id p) ids then f p else p)); [done..|]. intros p Hp.
  unfold mem. case_bool_decide; [by apply Hf|]. intros Ha. split; [done|by left].
Qed.

Abbreviation nobody := (λ _ : string, False).

Lemma proposal_update_store id outcome c u : proposal_update id outcome c = Ok u → up_store u = c ∧ catalog_ok c = true.
Proof. unfold proposal_update. intros H. apply bind_ok in H as (c' & Hc & [= <-]). by apply replace_ok in Hc as [-> ?]. Qed.
Lemma bulk_update_store ids outcome c u : bulk_update ids outcome c = Ok u → up_store u = c ∧ catalog_ok c = true.
Proof. unfold bulk_update. intros H. apply bind_ok in H as (c' & Hc & [= <-]). by apply replace_ok in Hc as [-> ?]. Qed.

Lemma edit_moved c id connection actor content now u : catalog_ok c = true →
  edit_proposal c id connection actor content now = Ok u → moved nobody c (up_store u).
Proof.
  intros Hok H. unfold edit_proposal in H. apply bind_ok in H as (p & [Hp _]%require_found & H). guards H. destruct H as (Hs & _ & H).
  apply proposal_update_store in H as [-> Hok']. eapply moved_on_proposal; [done|done|]. intros q Hq Hid.
  rewrite (the_proposal c id p q) by done. unfold accepted. cbn. rewrite Hs. by intros [?|?].
Qed.

Lemma approve_moved c id connection actor now u : catalog_ok c = true →
  approve_proposal c id connection actor now = Ok u → moved (λ i, i = id) c (up_store u).
Proof.
  intros Hok H. unfold approve_proposal in H. apply bind_ok in H as (p & [Hp _]%require_found & H). guards H. destruct H as (Hs & Hst & H).
  apply proposal_update_store in H as [-> Hok']. eapply moved_on_proposal; [done|done|]. intros q Hq Hid _.
  rewrite (the_proposal c id p q) by done. split; [done|]. right. by split.
Qed.

Lemma reject_moved c id connection actor reason now u : catalog_ok c = true →
  reject_proposal c id connection actor reason now = Ok u → moved nobody c (up_store u).
Proof.
  intros Hok H. unfold reject_proposal in H. guards H. destruct H as [_ H]. apply bind_ok in H as (p & _ & H). guards H. destruct H as [_ H].
  apply proposal_update_store in H as [-> Hok']. eapply moved_on_proposal; [done|done|]. unfold accepted. by intros q _ _ [?|?].
Qed.

Lemma bulk_allowed c ids connection allowed id p : bulk_precheck c ids connection allowed = Ok tt → id ∈ ids → get_draft_proposal c id = Some p →
  allowed p = true.
Proof.
  unfold bulk_precheck. rewrite bind_ok_unit, for_each_ok. intros [_ H] Hid Hp. rewrite Forall_forall in H. specialize (H id Hid).
  apply bind_ok in H as (q & [Hq _]%require_found & H). guards H. congruence.
Qed.

Lemma found_again c p : catalog_ok c = true → p ∈ cg_draft_proposals c → get_draft_proposal c (pp_proposal_id p) = Some p.
Proof.
  intros Hok Hp. destruct (get_draft_proposal c (pp_proposal_id p)) as [q|] eqn:E; [f_equal; symmetry; by eapply the_proposal|].
  unfold get_draft_proposal, find_by in E. apply list_elem_of_In in Hp. apply (List.find_none _ _ E) in Hp. by apply bool_decide_eq_false in Hp.
Qed.

Lemma bulk_approve_moved c ids connection actor now u : catalog_ok c = true →
  bulk_approve_proposals c ids connection actor now = Ok u → moved (λ i, i ∈ ids) c (up_store u).
Proof.
  intros Hok H. unfold bulk_approve_proposals in H. guards H. destruct H as (Hpre & Hst & H).
  apply bulk_update_store in H as [-> Hok']. eapply moved_on_proposals; [done|done|]. intros p Hp Hid _. split; [done|]. right.
  pose proof (found_again c p Hok Hp) as Hg. split; [|done]. split.
  - pose proof (bulk_allowed _ _ _ _ _ _ Hpre Hid Hg) as Ha. by apply bool_decide_eq_true in Ha.
  - destruct (is_stale p) eqn:Es; [|done]. exfalso. rewrite existsb_not_elem in Hst. specialize (Hst _ Hid). cbn in Hst. rewrite Hg in Hst. congruence.
Qed.

Lemma bulk_reject_moved c ids connection actor reason now u : catalog_ok c = true →
  bulk_reject_proposals c ids connection actor reason now = Ok u → moved nobody c (up_store u).
Proof.
  intros Hok H. unfold bulk_reject_proposals in H. guards H. destruct H as (_ & _ & H).
  apply bulk_update_store in H as [-> Hok']. eapply moved_on_proposals; [done|done|]. unfold accepted. by intros q _ _ [?|?].
Qed.

Lemma create_moved iso c connection target content actor now u : 
  create_manual_proposal iso c connection target content actor now = Ok u → moved nobody c (up_store u).
Proof.
  intros H. unfold create_manual_proposal in H. guards H. destruct H as (_ & _ & _ & _ & H).
  apply bind_ok in H as (c' & [-> Hok]%replace_ok & [= <-]). apply moved_incl; [done|]. cbn. intros q [Hq| ->%list_elem_of_singleton]%elem_of_app; [done|].
  by intros [?|?].
Qed.

(** [publish_proposal] opened: what it found, and the record it leaves. *)
Record published (c : SchemaCatalog) (id connection actor : string) (now : Z) (u : CatalogGovernanceUpdate)
  (p : CatalogDraftProposal) (plan : PublishPlan) (after : CatalogDraftContent) : Prop := {
  pb_found : get_draft_proposal c id = Some p;
  pb_connection : tg_connection_id (pp_target p) = connection;
  pb_approved : pp_review_status p = ApprovedReview;
  pb_plan : plan_publish c p = Ok plan;
  pb_conflicts : pl_conflicts plan = [];
  pb_after : (let '(d, a, g) := pick (pl_merged_fields plan) (ct_description (pp_content p)) (ct_aliases (pp_content p)) (ct_default_aggregation (pp_content p)) in
              make_content d a g) = Ok after;
  pb_ok : catalog_ok (up_store u) = true;
  pb_store : up_store u =
    on_proposal id (λ p, log_event (MkReviewEvent PublishedAction actor now None) (as_published (pl_entry_id plan) (next_version_id c) p))
      (set_versions (cg_version_history c ++ [MkVersionRecord (next_version_id c) PublishVersion ActiveVersion actor now (Some id) None
                       (MkVersionChange (pl_target plan) (pl_change_kind plan) (pl_before plan) (Some after))])
        (set_tables connection (dict_set (pl_table_key plan)
           (write_entry plan (pp_content p) (published_provenance c plan p actor now)
             (default (fresh_table c connection (pl_table_key plan)) (dict_get (pl_table_key plan) (tables_of c connection))))
           (tables_of c connection)) c));
}.

Lemma publish_inv c id connection actor now u : publish_proposal c id connection actor now = Ok u →
  ∃ p plan after, published c id connection actor now u p plan after.
Proof.
  unfold publish_proposal. intros H. apply bind_ok in H as (p & Hp & H). apply require_found in Hp as [Hp Hconn].
  rewrite bind_ok_unit in H. destruct H as [Hpub H]. apply bind_ok in H as (plan & Hplan & H). guards H. destruct H as (Hconf & _ & H).
  destruct (pick _ _ _ _) as [[d a] g] eqn:Epick. apply bind_ok in H as (after & Hafter & H). apply bind_ok in H as (c' & Hc & [= <-]).
  apply replace_ok in Hc as [-> Hok]. exists p, plan, after. unfold publishable in Hpub. guards Hpub.
  constructor; try done; [by destruct Hpub|by destruct (pl_conflicts plan)|by rewrite Epick].
Qed.

Lemma publish_moved c id connection actor now u : catalog_ok c = true →
  publish_proposal c id connection actor now = Ok u → moved nobody c (up_store u).
Proof.
  intros Hok H. apply publish_inv in H as (p & plan & after & H). pose proof (pb_ok _ _ _ _ _ _ _ _ _ H) as Hok'.
  rewrite (pb_store _ _ _ _ _ _ _ _ _ H) in *. eapply moved_on_proposal; [done|done|]. intros q Hq Hid _.
  rewrite (the_proposal c id p q); [|done|apply (pb_found _ _ _ _ _ _ _ _ _ H)|done..]. split; [done|].
  left. left. apply (pb_approved _ _ _ _ _ _ _ _ _ H).
Qed.

Lemma rollback_moved c v connection actor now u :
  rollback_version c v connection actor now = Ok u → moved nobody c (up_store u).
Proof.
  unfold rollback_version. destruct (get_version_record c v) as [r|]; [|done]. intros H. guards H. destruct H as (_ & _ & _ & H).
  destruct (cf_find _ _) as [[k t]|]; [|done]. destruct (entity_in _ _); [|done]. guards H. destruct H as [_ H].
  apply bind_ok in H as (tables & _ & H). apply bind_ok in H as (c' & [-> Hok]%replace_ok & [= <-]). cbn [up_store].
  destruct (vr_proposal_id r) as [id|]; [|by apply moved_incl]. eapply moved_on_proposal; [done|done|].
  intros p _ _ Ha. split; [done|by left].
Qed.

Lemma delete_moved c id connection u : delete_proposal c id connection = Ok u → moved nobody c (up_store u).
Proof.
  unfold delete_proposal. intros H. apply bind_ok in H as (p & _ & H). apply bind_ok in H as (vs & _ & H).
  apply bind_ok in H as (c' & [-> Hok]%replace_ok & [= <-]). apply moved_incl; [done|]. cbn. by intros q [Hq _]%elem_of_lfilter.
Qed.
Lemma bulk_delete_moved c ids connection u : bulk_delete_proposals c ids connection = Ok u → moved nobody c (up_store u).
Proof.
  unfold bulk_delete_proposals. intros H. rewrite bind_ok_unit in H. destruct H as [_ H]. apply bind_ok in H as (vs & _ & H).
  apply bind_ok in H as (c' & [-> Hok]%replace_ok & [= <-]). apply moved_incl; [done|]. cbn. by intros q [Hq _]%elem_of_lfilter.
Qed.
Lemma delete_version_moved c v connection u : delete_version_record c v connection = Ok u → moved nobody c (up_store u).
Proof.
  unfold delete_version_record. destruct (get_version_record c v); [|done]. intros H. guards H. destruct H as (_ & _ & H).
  apply bind_ok in H as (c' & [-> Hok]%replace_ok & [= <-]). by apply moved_incl.
Qed.

(** Generated and learned proposals wait; a refresh leaves reviews alone. *)
Lemma quarantine_moved proposals record c u : quarantine proposals record c = Ok u → Forall (λ p, pp_review_status p = PendingReview) proposals →
  moved nobody c (gu_store u).
Proof.
  intros H Hp. rewrite (quarantine_store _ _ _ _ H). unfold quarantine in H. apply bind_ok in H as (c' & [-> Hok]%replace_ok & _).
  apply moved_incl; [done|]. cbn. intros q [Hq|Hq]%elem_of_app Ha; [done|]. rewrite Forall_forall in Hp. specialize (Hp q Hq). destruct Ha; congruence.
Qed.

Lemma generate_moved iso connection b purpose n c u : catalog_ok c = true →
  generate_in iso connection b purpose n c = Ok u → moved nobody c (gu_store u).
Proof.
  unfold generate_in. intros Hok H. destruct (get_schema_snapshot c connection) as [s|]; [|done]. guards H. destruct H as [_ H].
  unfold generate_catalog_drafts in H. destruct (get_schema_snapshot _ _); [|done]. guards H. destruct H as [_ H].
  apply bind_ok in H as (b' & _ & H). guards H. destruct H as [_ H]. destruct (get_generation_record _ _).
  - guards H. destruct H as [_ [= <-]]. by apply moved_refl.
  - guards H. destruct H as (_ & _ & H). eapply quarantine_moved; [exact H|]. apply Forall_forall. by intros p (s' & -> & _)%elem_of_map.
Qed.

Lemma learn_moved connection now c u : catalog_ok c = true →
  generate_learned_relationship_proposals c connection now = Ok u → moved nobody c (gu_store u).
Proof.
  unfold generate_learned_relationship_proposals. intros Hok H. destruct (get_schema_snapshot c connection); [|done].
  destruct (is_nil _); [injection H as <-; by apply moved_refl|]. destruct (get_generation_record _ _); [injection H as <-; by apply moved_refl|].
  destruct (is_nil _); [injection H as <-; by apply moved_refl|]. apply bind_ok in H as (ps & Hps & H). eapply quarantine_moved; [exact H|].
  apply Forall_forall. intros p Hp. apply (map_result_elem _ _ _ p) in Hps; [|done]. destruct Hps as ([e t] & _ & Hl). unfold learned_proposal in Hl.
  apply bind_ok in Hl as (content & _ & Hl). destruct (proposal_ok _); [|done]. by injection Hl as <-.
Qed.

Lemma refresh_moved s c u : catalog_ok c = true → refresh_catalog_schema c s = Ok u → moved nobody c (ru_store u).
Proof.
  intros Hok H. assert (Hr : ∀ o, catalog_ok (refreshed o s (upgrade c)) = true → moved nobody c (refreshed o s (upgrade c))).
  { intros o Hok'. apply (moved_map _ (λ p, if bool_decide (tg_connection_id (pp_target p) = os_connection_id s)
      then rebind_proposal (mark_or_rebind (target_affected o (pp_target p)) (os_fingerprint s)) p else p)); [done| |].
    - unfold refreshed, upgrade. by destruct (cg_version c =? 1).
    - intros p _ Ha. case_bool_decide; (split; [done|by left]). }
  unfold refresh_catalog_schema in H. destruct (get_schema_snapshot _ _).
  - apply bind_ok in H as (d & _ & H). case_bool_decide; [injection H as <-; by apply moved_refl|].
    apply bind_ok in H as (c' & [-> Hok']%replace_ok & [= <-]). by apply Hr.
  - apply bind_ok in H as (c' & [-> Hok']%replace_ok & [= <-]). by apply Hr.
Qed.

Lemma record_moved signals c u : catalog_ok c = true → record_usage_signals c signals = Ok u → moved nobody c (uu_store u).
Proof.
  intros Hok H. unfold record_usage_signals in H. destruct (append_signals _ _) as [new dup]. destruct (is_nil new); [injection H as <-; by apply moved_refl|].
  apply bind_ok in H as (c' & [-> Hok']%replace_ok & [= <-]). by apply moved_incl.
Qed.

(** ** Courses *)

Section courses.
Context (known_connection : string → bool) (has_catalog_file : bool) (isoformat : Z → string).
Abbreviation request := (catalog_request known_connection has_catalog_file isoformat).
Abbreviation run := (catalog_run known_connection has_catalog_file isoformat).
Abbreviation step := (catalog_step known_connection has_catalog_file isoformat).

(** The events that approve a proposal: a request of a holder of the scope. *)
Definition approves (e : catalog_event) (id : string) : Prop :=
  match e with
  | Submit p _ (ApproveProposal i) _ => i = id ∧ CATALOG_APPROVE_SCOPE ∈ scopes p
  | Submit p _ (BulkApprove ids) _ => id ∈ ids ∧ CATALOG_APPROVE_SCOPE ∈ scopes p
  | _ => False
  end.
Definition imports (e : catalog_event) : bool := match e with Submit _ _ (ImportConnection _) _ => true | _ => false end.

Lemma admitted_scope p scope connection : refusal_status known_connection has_catalog_file p scope connection = None → scope ∈ scopes p.
Proof. unfold refusal_status. case_bool_decide; [done|]. cbn. done. Qed.

Lemma run_mutation_moved A p connection r mutator w : catalog_ok (cw_catalog w) = true →
  (∀ u, scope_of r ∈ scopes p → mutator (cw_catalog w) = Ok u → moved A (cw_catalog w) (up_store u)) →
  moved A (cw_catalog w) (cw_catalog (run_mutation known_connection has_catalog_file p connection r mutator w).1).
Proof.
  intros Hok Hm. unfold run_mutation. destruct (refusal_status _ _ _ _ _) eqn:Ea; [by apply moved_refl|]. apply admitted_scope in Ea.
  destruct (mutator (cw_catalog w)) as [u|e]; [by apply Hm|]. destruct e; try (by apply moved_refl); cbn; try case_bool_decide; by apply moved_refl.
Qed.
Lemma run_generation_moved A p connection r generator w : catalog_ok (cw_catalog w) = true →
  (∀ u, generator (cw_catalog w) = Ok u → moved A (cw_catalog w) (gu_store u)) →
  moved A (cw_catalog w) (cw_catalog (run_generation known_connection has_catalog_file p connection r generator w).1).
Proof.
  intros Hok Hm. unfold run_generation. destruct (refusal_status _ _ _ _ _) eqn:Ea; [by apply moved_refl|].
  destruct (generator (cw_catalog w)) as [u|e]; [by apply Hm|]. destruct e; try (by apply moved_refl); cbn; try case_bool_decide; by apply moved_refl.
Qed.
Lemma malformed_same p connection r w : (malformed known_connection has_catalog_file p connection r w).1 = w.
Proof. unfold malformed. repeat case_match; done. Qed.

Lemma moved_weaken (A B : string → Prop) c c' : (∀ i, A i → B i) → moved A c c' → moved B c c'.
Proof. intros Himp [Hok H]. split; [done|]. intros q Hq Ha. destruct (H q Hq Ha) as (p & ? & ? & [?|[? ?]]); exists p; naive_solver. Qed.
Lemma moved_trans A c1 c2 c3 : moved nobody c1 c2 → moved A c2 c3 → (∀ i, ¬ A i) → moved A c1 c3.
Proof.
  intros [_ H1] [Hok H2] Hno. split; [done|]. intros q Hq Ha. destruct (H2 q Hq Ha) as (p & Hp & (E1 & E2 & E3) & [Hpa|[_ []%Hno]]).
  destruct (H1 p Hp Hpa) as (p0 & Hp0 & (E4 & E5 & E6) & [H0|[_ []]]). exists p0. split_and!; [done|split_and!; congruence|by left].
Qed.

Lemma learn_once_moved id now w : catalog_ok (cw_catalog w) = true → moved nobody (cw_catalog w) (cw_catalog (learn_once id now w)).
Proof.
  intros Hok. unfold learn_once. destruct (drain _ _) as [b drained]. cbn [set_buffer cw_catalog].
  assert (Hc : ∀ c, (if is_nil drained then Ok (cw_catalog w) else record_usage_signals (cw_catalog w) drained ≫= λ u, Ok (uu_store u)) = Ok c →
    moved nobody (cw_catalog w) c).
  { intros c. destruct (is_nil drained); [intros [= <-]; by apply moved_refl|]. intros H. apply bind_ok in H as (u & Hu & [= <-]). by eapply record_moved. }
  destruct (if is_nil drained then _ else _) as [c|e]; [|by apply moved_refl]. specialize (Hc c eq_refl).
  destruct (generate_learned_relationship_proposals c id now) as [u|e] eqn:Eu; [|done]. cbn. eapply moved_trans; [exact Hc| |by intros ? []].
  destruct Hc as [Hok' _]. by eapply learn_moved.
Qed.

Lemma step_moved w e : catalog_ok (cw_catalog w) = true → imports e = false → moved (approves e) (cw_catalog w) (cw_catalog (step w e)).
Proof.
  intros Hok Hi. assert (Hnone : ∀ c, moved nobody (cw_catalog w) c → moved (approves e) (cw_catalog w) c) by (intros c; by apply moved_weaken).
  destruct e as [p connection r now|s|n s|id now]; cbn [catalog_step].
  - unfold catalog_request. destruct (body_ok r); [|by apply moved_refl]. destruct r; try done; cbn [handle];
      try (apply run_mutation_moved; [done|]; intros u Hscope Hu).
    + destruct (make_content _ _ _); [|rewrite malformed_same; by apply moved_refl].
      destruct (target_ok _); [|rewrite malformed_same; by apply moved_refl].
      apply run_mutation_moved; [done|]. intros u _ Hu. apply Hnone. by eapply create_moved.
    + apply bind_ok in Hu as (content & _ & Hu). apply Hnone. by eapply edit_moved.
    + apply approve_moved in Hu; [|done]. eapply moved_weaken; [|exact Hu]. by intros i ->.
    + apply Hnone. by eapply reject_moved.
    + apply bulk_approve_moved in Hu; [|done]. eapply moved_weaken; [|exact Hu]. by intros i Hin.
    + apply Hnone. by eapply bulk_reject_moved.
    + apply Hnone. by eapply publish_moved.
    + apply Hnone. by eapply rollback_moved.
    + apply Hnone. by eapply delete_moved.
    + apply Hnone. by eapply bulk_delete_moved.
    + apply Hnone. by eapply delete_version_moved.
    + case_bool_decide; [|rewrite malformed_same; by apply moved_refl]. apply run_generation_moved; [done|]. intros u Hu. apply Hnone. by eapply generate_moved.
    + apply run_generation_moved; [done|]. intros u Hu. apply Hnone. by eapply learn_moved.
  - unfold refresh_once. destruct (refresh_catalog_schema _ _) eqn:E; [|by apply moved_refl]. apply Hnone. by eapply refresh_moved.
  - by apply moved_refl.
  - apply Hnone. by apply learn_once_moved.
Qed.

(** Everything accepted was approved as it stands. *)
Definition approved_in (c0 : SchemaCatalog) (events : list catalog_event) (q : CatalogDraftProposal) : Prop :=
  ∃ earlier e later p, events = earlier ++ e :: later ∧ approves e (pp_proposal_id q)
    ∧ get_draft_proposal (cw_catalog (run c0 earlier)) (pp_proposal_id q) = Some p ∧ reviewable p ∧ same_proposal p q.

Lemma run_approved c0 events : catalog_ok c0 = true → Forall (λ p, ¬ accepted p) (cg_draft_proposals c0) → Forall (λ e, imports e = false) events →
  catalog_ok (cw_catalog (run c0 events)) = true ∧ ∀ q, q ∈ cg_draft_proposals (cw_catalog (run c0 events)) → accepted q → approved_in c0 events q.
Proof.
  intros Hok H0. induction events as [|e events IH] using rev_ind; intros Hi.
  - split; [done|]. intros q Hq Ha. rewrite Forall_forall in H0. by destruct (H0 q Hq).
  - apply Forall_app in Hi as [Hi He]. rewrite Forall_singleton in He. destruct (IH Hi) as [Hok1 H1]. unfold catalog_run in *. rewrite foldl_app. cbn [foldl].
    destruct (step_moved (foldl step (MkCatalogWorld c0 [] []) events) e Hok1 He) as [Hok2 H2]. split; [done|]. intros q Hq Ha.
    destruct (H2 q Hq Ha) as (p & Hp & Hpq & [Hpa|[Hrev Happ]]); pose proof Hpq as (E1 & E2 & E3).
    + destruct (H1 p Hp Hpa) as (earlier & e' & later & p0 & -> & Hap & Hg & Hr & (F1 & F2 & F3)).
      exists earlier, e', (later ++ [e]), p0. rewrite <-E1. split_and!; [by rewrite <-app_assoc|done..|split_and!; congruence].
    + exists events, e, [], p. rewrite <-E1. split_and!; [done|done|by apply found_again|done..].
Qed.

(** C37. When no backup is imported, a publication succeeds only for a principal with
    the scope to publish, and only of a proposal that an earlier request, of a
    principal with the scope to approve, approved with the very target and content it
    has now, while it waited and was not stale; it leaves one version record, of that
    proposal and target. *)
Theorem published_was_approved c0 events p connection id now u :
  catalog_ok c0 = true → Forall (λ p, ¬ accepted p) (cg_draft_proposals c0) → Forall (λ e, imports e = false) events →
  let w := run c0 events in
  (request p connection (PublishProposal id) now w).2 = Updated u →
  CATALOG_PUBLISH_SCOPE ∈ scopes p
  ∧ ∃ q r, get_draft_proposal (cw_catalog w) id = Some q ∧ approved_in c0 events q
    ∧ cg_version_history (up_store u) = cg_version_history (cw_catalog w) ++ [r]
    ∧ vr_proposal_id r = Some id ∧ vc_target (vr_change r) = pp_target q.
Proof.
  cbv zeta. intros Hok H0 Hi H. unfold catalog_request in H. cbn [body_ok handle] in H. unfold run_mutation in H.
  destruct (refusal_status _ _ _ _ _) eqn:Ea; [done|]. apply admitted_scope in Ea. split; [exact Ea|].
  destruct (publish_proposal _ _ _ _ _) as [u'|e] eqn:Ep; [|destruct e; try done; cbn in H; revert H; case_bool_decide; done].
  injection H as ->. apply publish_inv in Ep as (q & plan & after & Hpub). destruct Hpub as [Hq _ Hap Hplan _ _ _ Hst].
  exists q. eexists. split_and!; [done| |rewrite Hst; done|done|].
  - destruct (run_approved c0 events Hok H0 Hi) as [_ Hall]. apply found_proposal in Hq as [Hin _]. apply Hall; [done|by left].
  - cbn. unfold plan_publish in Hplan. apply bind_ok in Hplan as (before & _ & [= <-]). done.
Qed.
End courses.
End facts.
