(* ===== verification/CatalogPublish.v ===== *)
(** What a publication and a rollback do to the entries: verified knowledge and every
    protection survive the one, and the other takes a creation back exactly. *)
From stdpp Require Import pretty sorting.
From S2P Require Export CatalogFacts.
Local Open Scope Z_scope.

(** What an entry says that was verified, it goes on saying. *)
Record keeps_values (e e' : Entity) : Prop := {
  kv_description : entity_has e DescriptionField = true → en_description e' = en_description e;
  kv_aliases : entity_has e AliasesField = true → en_aliases e' ≡ₚ en_aliases e;
  kv_aggregation : entity_has e AggregationField = true → en_default_aggregation e' = en_default_aggregation e;
}.
Definition keeps_verified (e e' : Entity) : Prop := pv_status (en_provenance e) = VerifiedEntry → keeps_values e e'.

#[export] Instance keeps_values_refl : Reflexive keeps_values.
Proof. by intros e. Qed.
#[export] Instance keeps_verified_refl : Reflexive keeps_verified.
Proof. by intros e _. Qed.
#[export] Hint Resolve keeps_verified_refl : core.

Lemma replace_first_lookup {A} (test : A → bool) f l i x : l !! i = Some x →
  replace_first test f l !! i = Some x ∨ List.find test l = Some x ∧ replace_first test f l !! i = Some (f (Some x)).
Proof.
  revert i. induction l as [|y l IH]; intros [|i] H; cbn in *; [done..| |].
  - injection H as ->. destruct (test x); [right|left]; done.
  - destruct (test y); [by left|]. by apply IH.
Qed.
Lemma replace_first_absent {A} (test : A → bool) f l : List.find test l = None → replace_first test f l = l ++ [f None].
Proof. induction l as [|y l IH]; cbn; [done|]. destruct (test y); [done|]. intros H. by rewrite IH. Qed.

Lemma filter_app_last {A} (test : A → bool) l x : List.find test l = None → test x = true → List.filter (λ y, negb (test y)) (l ++ [x]) = l.
Proof.
  intros H Hx. induction l as [|y l IH]; cbn in *; [by rewrite Hx|]. destruct (test y); [done|]. cbn. by rewrite IH.
Qed.

Lemma dict_set_same {A} k (v : A) d : dict_get k d = Some v → dict_set k v d = d.
Proof. induction d as [|[j w] d IH]; cbn; [done|]. case_bool_decide as Hj; [intros [= ->]; done|intros H; by rewrite IH]. Qed.
Lemma dict_set_set {A} k (v w : A) d : dict_set k v (dict_set k w d) = dict_set k v d.
Proof.
  induction d as [|[j x] d IH]; cbn; [by rewrite bool_decide_eq_true_2|]. case_bool_decide as Hj; cbn; [by rewrite bool_decide_eq_true_2|].
  rewrite bool_decide_eq_false_2 by done. by rewrite IH.
Qed.
Lemma dict_pop_absent {A} k (d : dict A) : dict_get k d = None → dict_pop k d = d.
Proof.
  unfold dict_pop. induction d as [|[j w] d IH]; cbn; [done|]. case_bool_decide as Hj; [done|]. intros H. rewrite bool_decide_eq_false_2 by congruence.
  cbn. by rewrite IH.
Qed.
Lemma dict_pop_set_fresh {A} k (v : A) d : dict_get k d = None → dict_pop k (dict_set k v d) = d.
Proof.
  induction d as [|[j w] d IH]; cbn; [by rewrite bool_decide_eq_true_2|]. case_bool_decide as Hj; [done|].
  intros H. unfold dict_pop. cbn. rewrite bool_decide_eq_false_2 by congruence. cbn. f_equal. by apply IH.
Qed.

Section entries.
Context `{CF : CaseFold} `{SL : StrLower} `{FT : FloatText} `{DG : Digest} `{RT : ReferenceText}.

Lemma cf_find_get {A} n (d : dict A) k v : cf_find n d = Some (k, v) → dict_get k d = Some v ∧ casefold k = casefold n.
Proof.
  induction d as [|[j w] d IH]; cbn; [done|]. case_bool_decide as Hj; [intros [= -> ->]; by rewrite bool_decide_eq_true_2|].
  intros H. destruct (IH H) as [H1 H2]. rewrite bool_decide_eq_false_2 by congruence. done.
Qed.
Lemma cf_find_none {A} n (d : dict A) k : cf_find n d = None → casefold k = casefold n → dict_get k d = None.
Proof.
  induction d as [|[j w] d IH]; cbn; [done|]. case_bool_decide as Hj; [done|]. intros H Hk. rewrite bool_decide_eq_false_2 by congruence. by apply IH.
Qed.
Lemma cf_find_set {A} n (d : dict A) k v w : cf_find n d = Some (k, v) → cf_find n (dict_set k w d) = Some (k, w).
Proof.
  induction d as [|[j x] d IH]; cbn; [done|]. case_bool_decide as Hj.
  - intros [= -> ->]. rewrite bool_decide_eq_true_2 by done. cbn. by rewrite bool_decide_eq_true_2.
  - intros H. pose proof (cf_find_get _ _ _ _ H) as [_ Hk]. rewrite bool_decide_eq_false_2 by congruence. cbn. rewrite bool_decide_eq_false_2 by done. by apply IH.
Qed.
Lemma cf_find_set_new {A} n (d : dict A) w : cf_find n d = None → cf_find n (dict_set n w d) = Some (n, w).
Proof.
  induction d as [|[j x] d IH]; cbn; [by rewrite bool_decide_eq_true_2|]. case_bool_decide as Hj; [done|].
  intros H. rewrite bool_decide_eq_false_2 by congruence. cbn. rewrite bool_decide_eq_false_2 by done. by apply IH.
Qed.

Lemma sort_on_same_names (l k : list string) : sort_on (λ s, s) l = sort_on (λ s, s) k → k ≡ₚ l.
Proof. intros H. rewrite <-(sort_on_permutation (λ s, s) l), <-(sort_on_permutation (λ s, s) k). by rewrite H. Qed.

(** Writing fields none of which conflicts. *)
Lemma write_keeps fields content p e : (∀ f, f ∈ fields → field_conflicts (Some e) content f = false) → keeps_verified e (write_fields fields content p e).
Proof.
  intros Hf Hv. assert (Hc : ∀ f, f ∈ fields → entity_has e f = true → value_changes e content f = false).
  { intros f Hin Hh. specialize (Hf f Hin). unfold field_conflicts in Hf. rewrite bool_decide_eq_true_2, Hh in Hf by done.
    by destruct (value_changes e content f). }
  split; cbn; intros Hh; case_bool_decide as Hin; try done; specialize (Hc _ Hin Hh); cbn in Hh, Hc; rewrite ?Hh in Hc;
    apply negb_false_iff, bool_decide_eq_true in Hc; [done|by apply sort_on_same_names|done].
Qed.

Lemma plan_fields c p plan f : plan_publish c p = Ok plan → f ∈ pl_merged_fields plan →
  field_conflicts (resolve_entity c (pp_target p)) (pp_content p) f = false.
Proof.
  unfold plan_publish. intros H. apply bind_ok in H as (before & _ & [= <-]). cbn. intros [_ Hf]%elem_of_lfilter. by apply negb_true_iff in Hf.
Qed.
Lemma plan_target c p plan : plan_publish c p = Ok plan → pl_target plan = pp_target p
  ∧ pl_table_key plan = default (tg_table (pp_target p)) (casefold_lookup (tables_of c (tg_connection_id (pp_target p))) (tg_table (pp_target p)))
  ∧ (pl_change_kind plan = CreatedEntry → resolve_entity c (pp_target p) = None).
Proof.
  unfold plan_publish. intros H. apply bind_ok in H as (before & _ & [= <-]). split_and!; [done..|]. cbn. by destruct (resolve_entity _ _).
Qed.

(** What a table keeps when something is written into it. *)
Record table_keeps (t t' : TableCatalogEntry) : Prop := {
  tk_sensitivity : te_sensitivity t' = te_sensitivity t;
  tk_samples : te_allow_samples t' = te_allow_samples t;
  tk_values : keeps_verified (table_entity t) (table_entity t');
  tk_columns col e : dict_get col (te_columns t) = Some e → ∃ e', dict_get col (te_columns t') = Some e'
    ∧ ce_sensitivity e' = ce_sensitivity e ∧ ce_allow_samples e' = ce_allow_samples e ∧ keeps_verified (column_entity e) (column_entity e');
  tk_relationships i r : te_relationships t !! i = Some r → ∃ r', te_relationships t' !! i = Some r'
    ∧ relationship_identity r' = relationship_identity r ∧ keeps_verified (relationship_entity r) (relationship_entity r');
}.
Lemma table_keeps_refl t : table_keeps t t.
Proof. split; naive_solver. Qed.

Lemma write_entry_keeps plan content p t :
  (∀ f, f ∈ pl_merged_fields plan → field_conflicts (entity_in t (pl_target plan)) content f = false) → table_keeps t (write_entry plan content p t).
Proof.
  intros Hf. unfold write_entry, entity_in in *. destruct (tg_object_type (pl_target plan)).
  - pose proof (write_keeps (pl_merged_fields plan) content p (table_entity t) Hf) as Hk.
    split; cbn; [done..| | |]; [exact Hk|naive_solver|naive_solver].
  - unfold column_of in Hf. destruct (cf_find _ (te_columns t)) as [[key old]|] eqn:E; cbn [default from_option].
    + pose proof (cf_find_get _ _ _ _ E) as [Hg _]. split; cbn; [done..| |naive_solver]. intros col e He. destruct (decide (col = key)) as [->|Hne].
      * rewrite Hg in He. injection He as <-. rewrite dict_get_set_eq. eexists. split_and!; [done..|].
        intros Hv. destruct (write_keeps _ _ p _ Hf Hv) as [H1 H2 _]. by split.
      * rewrite dict_get_set_ne by congruence. naive_solver.
    + split; cbn; [done..| |naive_solver]. intros col e He. destruct (decide (col = column_name (pl_target plan))) as [->|Hne].
      * by rewrite (cf_find_none _ _ _ E) in He.
      * rewrite dict_get_set_ne by congruence. naive_solver.
  - split; cbn; [done..|naive_solver|]. intros i r Hi.
    destruct (replace_first_lookup (is_target_relationship (pl_target plan))
      (λ old, relationship_with (pl_target plan) (write_fields (pl_merged_fields plan) content p match old with Some r => relationship_entity r | None => no_entity end))
      _ _ _ Hi) as [H|[Hfind H]]; [exists r; by split_and!|]. rewrite Hfind in Hf. eexists. split; [exact H|].
    apply List.find_some in Hfind as [_ Ht]. unfold is_target_relationship in Ht. apply bool_decide_eq_true in Ht. split; [by rewrite Ht|].
    intros Hv. destruct (write_keeps _ _ p _ Hf Hv) as [H1 _ _]. by split.
Qed.

Lemma tables_of_set c conn connection tables : tables_of (set_tables connection tables c) conn = if bool_decide (conn = connection) then tables else tables_of c conn.
Proof.
  unfold tables_of, set_tables. cbn. case_bool_decide as H; [by rewrite H, dict_get_set_eq|by rewrite dict_get_set_ne by congruence].
Qed.

Lemma published_tables c id connection actor now u p plan after : published c id connection actor now u p plan after → ∀ conn,
  tables_of (up_store u) conn = if bool_decide (conn = connection) then
    dict_set (pl_table_key plan) (write_entry plan (pp_content p) (published_provenance c plan p actor now)
      (default (fresh_table c connection (pl_table_key plan)) (dict_get (pl_table_key plan) (tables_of c connection)))) (tables_of c connection)
  else tables_of c conn.
Proof. intros H conn. rewrite (pb_store _ _ _ _ _ _ _ _ _ H). apply (tables_of_set c). Qed.

(** C38. A publication never takes a table, a column or a relationship out of the
    catalog, never touches the sensitivity or the sampling of any, and keeps every
    value of every verified entry, aliases up to their order. *)
Theorem publish_keeps_verified c id connection actor now u conn name t :
  publish_proposal c id connection actor now = Ok u → dict_get name (tables_of c conn) = Some t →
  ∃ t', dict_get name (tables_of (up_store u) conn) = Some t' ∧ table_keeps t t'.
Proof.
  intros H Ht. apply publish_inv in H as (p & plan & after & H). rewrite (published_tables _ _ _ _ _ _ _ _ _ H).
  case_bool_decide as Hc; [subst conn|by exists t; split; [|apply table_keeps_refl]].
  destruct (decide (name = pl_table_key plan)) as [->|Hne]; [|rewrite dict_get_set_ne by congruence; by exists t; split; [|apply table_keeps_refl]].
  rewrite dict_get_set_eq, Ht. eexists. split; [done|]. pose proof (pb_plan _ _ _ _ _ _ _ _ _ H) as Hplan.
  apply write_entry_keeps. intros f Hin. pose proof (plan_fields _ _ _ _ Hplan Hin) as Hf. cbn [default from_option].
  destruct (plan_target _ _ _ Hplan) as (-> & Hkey & _). unfold resolve_entity, get_table in Hf.
  rewrite (pb_connection _ _ _ _ _ _ _ _ _ H) in *. unfold casefold_lookup in Hkey.
  destruct (cf_find _ (tables_of c connection)) as [[k v]|] eqn:E; cbn in Hkey, Hf.
  - rewrite Hkey in Ht. pose proof (cf_find_get _ _ _ _ E) as [Hg _]. rewrite Hg in Ht. injection Ht as ->. done.
  - rewrite Hkey in Ht. by rewrite (cf_find_none _ _ _ E) in Ht.
Qed.

(** ** Rollback *)

(** The record of a publication is the one its version names. *)
Lemma published_record c id connection actor now u p plan after : catalog_ok c = true → published c id connection actor now u p plan after →
  get_version_record (up_store u) (next_version_id c) =
    Some (MkVersionRecord (next_version_id c) PublishVersion ActiveVersion actor now (Some id) None
            (MkVersionChange (pl_target plan) (pl_change_kind plan) (pl_before plan) (Some after))).
Proof.
  intros Hok H. pose proof (pb_ok _ _ _ _ _ _ _ _ _ H) as Hok'. rewrite (pb_store _ _ _ _ _ _ _ _ _ H) in *.
  assert (Hnd : NoDup (version_ids c ++ [next_version_id c])).
  { unfold catalog_ok in Hok'. rewrite !andb_true_iff, !bool_decide_eq_true in Hok'. destruct_and? Hok'.
    match goal with H : NoDup (version_ids _) |- _ => unfold version_ids in H; cbn in H; rewrite map_app in H; exact H end. }
  apply NoDup_app in Hnd as (_ & Hno & _). unfold get_version_record, find_by. cbn.
  assert (Hnone : ∀ r, r ∈ cg_version_history c → vr_version_id r ≠ next_version_id c).
  { intros r Hr Heq. apply (Hno (vr_version_id r)); [apply elem_of_map; by exists r|rewrite Heq; by left]. }
  clear -Hnone. induction (cg_version_history c) as [|r l IH]; cbn [List.find app].
  - cbn. by rewrite bool_decide_eq_true_2.
  - rewrite bool_decide_eq_false_2 by (apply Hnone; by left). apply IH. intros s Hs. apply Hnone. by right.
Qed.

(** Taking out of a table what a publication put there. *)
Lemma remove_written plan content p key t tables : entity_in t (pl_target plan) = None → dict_get key tables = Some t →
  remove_entry (pl_target plan) key (write_entry plan content p t) (dict_set key (write_entry plan content p t) tables) = Ok tables.
Proof.
  intros He Hk. unfold entity_in, remove_entry, write_entry in *. destruct (tg_object_type (pl_target plan)); [done| |].
  - unfold column_of in He. destruct (cf_find _ (te_columns t)) as [[k old]|] eqn:E; [done|]. cbn [default from_option te_columns table_with_columns].
    unfold casefold_lookup. rewrite cf_find_set_new by done. cbn [fmap option_fmap option_map fst].
    rewrite dict_pop_set_fresh by (by apply (cf_find_none _ _ _ E)). rewrite dict_set_set. f_equal. destruct t; cbn. by apply dict_set_same.
  - destruct (List.find _ (te_relationships t)) eqn:E; [done|]. cbn [te_relationships table_with_relationships].
    rewrite replace_first_absent by done. rewrite filter_app_last; [|done|].
    + rewrite dict_set_set. f_equal. destruct t; cbn. by apply dict_set_same.
    + unfold is_target_relationship. by apply bool_decide_eq_true_2.
Qed.

Lemma undo_entry c plan content p key t0 t' tables :
  pl_table_key plan = default (tg_table (pl_target plan)) (casefold_lookup tables (tg_table (pl_target plan))) →
  key = pl_table_key plan → t0 = default (fresh_table c (tg_connection_id (pl_target plan)) key) (dict_get key tables) → t' = write_entry plan content p t0 →
  (snd <$> cf_find (tg_table (pl_target plan)) tables) ≫= (λ t, entity_in t (pl_target plan)) = None →
  tg_object_type (pl_target plan) = TableObject ∨ is_Some (cf_find (tg_table (pl_target plan)) tables) →
  cf_find (tg_table (pl_target plan)) (dict_set key t' tables) = Some (key, t')
  ∧ remove_entry (pl_target plan) key t' (dict_set key t' tables) = Ok tables.
Proof.
  unfold casefold_lookup. intros Hkey -> -> -> Hnone Hwhere. destruct (cf_find (tg_table (pl_target plan)) tables) as [[k t]|] eqn:E; cbn in Hkey, Hnone.
  - rewrite Hkey. pose proof (cf_find_get _ _ _ _ E) as [Hg _]. rewrite Hg. cbn. split; [by apply (cf_find_set _ _ _ t)|by apply remove_written].
  - rewrite Hkey. pose proof (cf_find_none _ _ _ E eq_refl) as Hg. rewrite Hg. cbn [default from_option].
    split; [by apply cf_find_set_new|]. destruct Hwhere as [Ho|[? ?]]; [|done]. unfold remove_entry, write_entry. rewrite Ho. cbn.
    f_equal. by apply dict_pop_set_fresh.
Qed.

(** Rolling back at once a publication that created an entry, in a table the
    catalog has or of a table, puts every table of every connection back as it was. *)
Theorem rollback_undoes_creation c id connection actor now u p v actor' now' u' :
  catalog_ok c = true → publish_proposal c id connection actor now = Ok u → up_version_id u = Some v →
  get_draft_proposal c id = Some p → resolve_entity c (pp_target p) = None →
  (tg_object_type (pp_target p) = TableObject ∨ is_Some (get_table c connection (tg_table (pp_target p)))) →
  rollback_version (up_store u) v connection actor' now' = Ok u' →
  ∀ conn, tables_of (up_store u') conn = tables_of c conn.
Proof.
  intros Hok Hpub Hv Hp Hnone Hwhere Hroll conn.
  assert (v = next_version_id c) as ->.
  { unfold publish_proposal in Hpub. apply bind_ok in Hpub as (p0 & _ & Hpub). apply bind_ok in Hpub as ([] & _ & Hpub).
    apply bind_ok in Hpub as (plan0 & _ & Hpub). guards Hpub. destruct Hpub as (_ & _ & Hpub). destruct (pick _ _ _ _) as [[d a] g].
    apply bind_ok in Hpub as (after & _ & Hpub). apply bind_ok in Hpub as (c' & _ & [= <-]). cbn in Hv. congruence. }
  apply publish_inv in Hpub as (q & plan & after & H). pose proof (pb_found _ _ _ _ _ _ _ _ _ H) as Hq. rewrite Hp in Hq. injection Hq as <-.
  destruct (plan_target _ _ _ (pb_plan _ _ _ _ _ _ _ _ _ H)) as (Ht & Hkey & _). pose proof (pb_connection _ _ _ _ _ _ _ _ _ H) as Hconn.
  assert (Hkind : pl_change_kind plan = CreatedEntry).
  { pose proof (pb_plan _ _ _ _ _ _ _ _ _ H) as Hplan. unfold plan_publish in Hplan. rewrite Hnone in Hplan. cbn in Hplan. by injection Hplan as <-. }
  unfold rollback_version in Hroll. rewrite (published_record _ _ _ _ _ _ _ _ _ Hok H), Hkind in Hroll. cbn [vr_action vr_status vr_change vr_proposal_id vc_target vc_change vr_occurred_at] in Hroll.
  rewrite Ht in Hroll. guards Hroll. destruct Hroll as (_ & _ & _ & Hroll).
  rewrite (published_tables _ _ _ _ _ _ _ _ _ H), bool_decide_eq_true_2 in Hroll by done. rewrite Hconn in Hkey.
  set (t0 := default (fresh_table c connection (pl_table_key plan)) (dict_get (pl_table_key plan) (tables_of c connection))) in *.
  set (t' := write_entry plan (pp_content p) (published_provenance c plan p actor now) t0) in *.
  unfold resolve_entity, get_table in *. rewrite Hconn in Hnone.
  destruct (undo_entry c plan (pp_content p) (published_provenance c plan p actor now) (pl_table_key plan) t0 t' (tables_of c connection)) as [Hfind Hrem];
    [by rewrite Ht|done|by rewrite Ht, Hconn|done|by rewrite Ht| |].
  { rewrite Ht. destruct Hwhere as [?|[x Hx]]; [by left|right]. destruct (cf_find _ _); [done|done]. }
  rewrite Ht in Hfind, Hrem. rewrite Hfind in Hroll. destruct (entity_in t' _); [|done]. guards Hroll. destruct Hroll as [_ Hroll].
  rewrite bool_decide_eq_true_2 in Hroll by done. rewrite Hrem in Hroll. cbn [mbind result_bind] in Hroll.
  apply bind_ok in Hroll as (c' & [-> _]%replace_ok & [= <-]). cbn [up_store]. change (tables_of (set_tables connection (tables_of c connection) (up_store u)) conn = tables_of c conn).
  rewrite tables_of_set. case_bool_decide as Hc; [by rewrite Hc|]. rewrite (published_tables _ _ _ _ _ _ _ _ _ H). by rewrite bool_decide_eq_false_2.
Qed.
End entries.
