(* ===== verification/CatalogSearch.v ===== *)
(** The search of the catalog an agent runs ([catalog/retrieval.py]): candidates from
    the visible part only, texts that would echo a hidden name withheld, a fixed order
    and a budget of bytes. Shown: an answer names nothing the policy hides, stays within
    its bounds, and depends on nothing hidden but the set of names to be withheld. *)
From Stdlib Require Import Ascii.
From stdpp Require Import sorting.
From S2P Require Export CatalogGovernance.
Local Open Scope Z_scope.

Inductive CatalogFreshness := CurrentKnowledge | StaleKnowledge | UntrackedKnowledge.

(** A citation: status and precedence, and the rest when asked for. *)
Record CatalogCitation := MkCitation {
  ct_status : CatalogEntryStatus;
  ct_precedence : Z;
  ct_full : option (CatalogEntryProvenance * CatalogFreshness);
}.
Record CatalogSearchHit := MkHit {
  sh_object_type : CatalogDraftObjectType;
  sh_table : string;
  sh_column : option string;
  sh_to_table : option string;
  sh_to_column : option string;
  sh_description : option string;
  sh_aliases : list string;
  sh_sensitivity : option SensitivityClass;
  sh_score : Z;
  sh_citation : CatalogCitation;
}.
Record CatalogSearchResponse := MkSearchResponse {
  sr_query : string;
  sr_results : list CatalogSearchHit;
  sr_truncated : bool;
  sr_max_results : Z;
  sr_max_response_bytes : Z;
}.

(** [_TOKEN_RE.finditer]; [word] is the one being read, reversed. *)
Fixpoint words (word s : string) : list string :=
  let done := if str_empty word then [] else [String.rev word] in
  match s with
  | EmptyString => done
  | String c s => if is_alnum_ c then words (String c word) s else done ++ words "" s
  end.

(** [re.sub(r"[^a-z0-9]+", "_", s).strip("_")]: the words of lower letters and digits,
    joined. *)
Definition is_lower_alnum (c : ascii) : bool :=
  let n := nat_of_ascii c in (48 <=? n)%nat && (n <=? 57)%nat || (97 <=? n)%nat && (n <=? 122)%nat.
Fixpoint lower_words (word s : string) : list string :=
  let done := if str_empty word then [] else [String.rev word] in
  match s with
  | EmptyString => done
  | String c s => if is_lower_alnum c then lower_words (String c word) s else done ++ lower_words "" s
  end.

Definition object_type_text (o : CatalogDraftObjectType) : string :=
  match o with TableObject => "table" | ColumnObject => "column" | RelationshipObject => "relationship" end.
Definition status_text (s : CatalogEntryStatus) : string :=
  match s with DraftEntry => "draft" | VerifiedEntry => "verified" | RejectedEntry => "rejected" | StaleEntry => "stale" | ArchivedEntry => "archived" end.
Definition source_class_text (s : KnowledgeSourceClass) : string :=
  match s with
  | ObservedSource => "observed" | InferredSource => "inferred" | VerifiedSource => "verified" | LearnedSource => "learned" | ManualSource => "manual"
  end.
Definition evidence_kind_text (k : CatalogEvidenceKind) : string :=
  match k with
  | ManualEvidence => "manual" | SchemaEvidence => "schema" | ModelEvidence => "model" | UsageEvidence => "usage" | ImportEvidence => "import"
  end.
Definition freshness_text (f : CatalogFreshness) : string :=
  match f with CurrentKnowledge => "current" | StaleKnowledge => "stale" | UntrackedKnowledge => "untracked" end.

(** What a search may look at: an entry or a relationship, with what it is about. *)
Record Exposed := MkExposed {
  ex_target : CatalogDraftTarget;
  ex_entity : Entity;
  ex_sensitivity : option SensitivityClass;
}.

(** By score, best first, then kind and names. *)
Abbreviation hit_order := (pair_le Z.le (pair_le String.le (pair_le String.le (pair_le String.le String.le)))).

Section search.
Context `{CF : CaseFold} `{SL : StrLower} `{FT : FloatText} `{DG : Digest} `{RT : ReferenceText}.

Definition tokens (value : string) : list string := map casefold (words "" value).
Definition normalized_identifier (value : string) : string := String.concat "_" (lower_words "" (casefold value)).

Definition common (a b : list string) : Z := Z.of_nat (length (List.filter (λ t, mem t b) (remove_dups a))).
Definition score (query_tokens identifiers text : list string) : Z :=
  5 * common query_tokens (identifiers ≫= tokens) + common query_tokens (text ≫= tokens).

(** ** Texts that may be shown *)

Definition fenced (s : string) : string := "_" +:+ normalized_identifier s +:+ "_".
Definition echoes (hidden : list string) (value : string) : bool :=
  existsb (λ t, mem t hidden) (tokens value) || existsb (λ i, str_contains (fenced i) (fenced value)) hidden.
Definition policy_safe_catalog_text (hidden : list string) (value : option string) : option string :=
  match value with Some v => if echoes hidden v then None else Some v | None => None end.
Definition policy_safe_catalog_aliases (hidden : list string) (values : list string) : list string :=
  List.filter (λ v, negb (echoes hidden v)) values.

Definition policy_hidden_identifier_tokens (c : SchemaCatalog) (connection_id : string) (policy : Policy) : list string :=
  let tables := tables_of c connection_id in
  let columns := tables ≫= λ '(t, e), map (λ col, (t, col)) (dict_keys (te_columns e)) in
  let shown '(t, col) := table_allowed policy t && column_allowed policy t col in
  let visible := map (λ p, casefold p.2) (List.filter shown columns) in
  map casefold (denied_tables (access policy))
  ++ map casefold (List.filter (λ t, negb (table_allowed policy t)) (dict_keys tables))
  ++ List.filter (λ n, negb (mem n visible))
       (map casefold (denied_columns (access policy) ≫= snd) ++ map (λ p, casefold p.2) (List.filter (λ p, negb (shown p)) columns)).

(** ** Citations *)

Definition freshness (p : CatalogEntryProvenance) (current : option string) : CatalogFreshness :=
  if bool_decide (pv_status p = StaleEntry) then StaleKnowledge
  else if bool_decide (pv_schema_fingerprint p = "untracked") || is_none current then UntrackedKnowledge
  else if negb (bool_decide (Some (pv_schema_fingerprint p) = current)) then StaleKnowledge else CurrentKnowledge.
Definition resolve_citation (p : CatalogEntryProvenance) (current : option string) (verbose : bool) : CatalogCitation :=
  MkCitation (pv_status p) (precedence (pv_source_class p)) (if verbose then Some (p, freshness p current) else None).

(** ** Candidates *)

(** The visible part, in the order of the catalog. *)
Definition exposed_in (policy : Policy) (connection_id name : string) (t : TableCatalogEntry) : list Exposed :=
  (if agent_visible (te_provenance t) then [MkExposed (MkTarget connection_id TableObject name None None None) (table_entity t) (Some (te_sensitivity t))] else [])
  ++ map (λ '(n, e), MkExposed (MkTarget connection_id ColumnObject name (Some n) None None) (column_entity e) (Some (ce_sensitivity e)))
       (List.filter (λ '(n, e), column_allowed policy name n && agent_visible (ce_provenance e)) (te_columns t))
  ++ map (λ r, MkExposed (MkTarget connection_id RelationshipObject name (Some (rh_column r)) (Some (rh_to_table r)) (Some (rh_to_column r)))
                 (relationship_entity r) None)
       (visible_relationships t policy (Some name)).
Definition exposed (c : SchemaCatalog) (connection_id : string) (policy : Policy) : list Exposed :=
  List.filter (λ e, table_allowed policy e.1) (tables_of c connection_id) ≫= λ '(name, t), exposed_in policy connection_id name t.

(** [_table_hit], [_column_hit] and [_relationship_hit]. *)
Definition search_names (t : CatalogDraftTarget) : list string :=
  match tg_object_type t with
  | TableObject => [tg_table t]
  | ColumnObject => [tg_table t; column_name t; tg_table t +:+ "." +:+ column_name t]
  | RelationshipObject => [tg_table t; column_name t; default "" (tg_to_table t); default "" (tg_to_column t)]
  end.
Definition search_text (t : CatalogDraftTarget) (description aggregation : option string) : list string :=
  default "" description ::
  match tg_object_type t with TableObject => [default "" aggregation] | ColumnObject => [] | RelationshipObject => ["join relationship"] end.
Definition hit (query_tokens hidden : list string) (current : option string) (verbose : bool) (x : Exposed) : option CatalogSearchHit :=
  let t := ex_target x in
  let aliases := policy_safe_catalog_aliases hidden (en_aliases (ex_entity x)) in
  let description := policy_safe_catalog_text hidden (en_description (ex_entity x)) in
  let n := score query_tokens (search_names t ++ aliases)
             (search_text t description (policy_safe_catalog_text hidden (en_default_aggregation (ex_entity x)))) in
  if n =? 0 then None
  else Some (MkHit (tg_object_type t) (tg_table t) (tg_column t) (tg_to_table t) (tg_to_column t) description aliases (ex_sensitivity x) n
               (resolve_citation (en_provenance (ex_entity x)) current verbose)).

Definition hit_key (h : CatalogSearchHit) : Z * (string * (string * (string * string))) :=
  (- sh_score h, (object_type_text (sh_object_type h), (casefold (sh_table h), (casefold (default "" (sh_column h)), casefold (default "" (sh_to_table h)))))).

(** ** The answer *)

Definition citation_json (c : CatalogCitation) : json :=
  match ct_full c with
  | None => JObj [("status", JStr (status_text (ct_status c))); ("precedence", JInt (ct_precedence c))]
  | Some (p, f) =>
      JObj [("entry_id", JStr (pv_entry_id p)); ("source_class", JStr (source_class_text (pv_source_class p)));
        ("source_evidence", JList (map (λ e, JObj [("kind", JStr (evidence_kind_text (ev_kind e)));
           ("reference_fingerprint", JStr ("sha256:" +:+ sha256_hexdigest (ev_reference e)))]) (pv_source_evidence p)));
        ("status", JStr (status_text (pv_status p))); ("confidence", match pv_confidence p with Some x => JFloat x | None => JNull end);
        ("precedence", JInt (ct_precedence c)); ("catalog_version", JInt (pv_catalog_version p)); ("schema_fingerprint", JStr (pv_schema_fingerprint p));
        ("freshness", JStr (freshness_text f))]
  end.
Definition hit_json (h : CatalogSearchHit) : json :=
  JObj [("object_type", JStr (object_type_text (sh_object_type h))); ("table", JStr (sh_table h)); ("column", json_of_option (sh_column h));
    ("to_table", json_of_option (sh_to_table h)); ("to_column", json_of_option (sh_to_column h)); ("description", json_of_option (sh_description h));
    ("aliases", JList (map JStr (sh_aliases h))); ("sensitivity", json_of_option (sensitivity_text <$> sh_sensitivity h)); ("score", JInt (sh_score h));
    ("citation", citation_json (sh_citation h))].
Definition response_json (r : CatalogSearchResponse) : json :=
  JObj [("query", JStr (sr_query r)); ("results", JList (map hit_json (sr_results r))); ("result_count", JInt (Z.of_nat (length (sr_results r))));
    ("truncated", JBool (sr_truncated r)); ("max_results", JInt (sr_max_results r)); ("max_response_bytes", JInt (sr_max_response_bytes r))].
Definition response_bytes (r : CatalogSearchResponse) : Z := Z.of_nat (String.length (json_dumps_default (response_json r))).

(** The longest prefix of the hits that fits: what is taken, and whether it stopped short. *)
Fixpoint select_hits (fits : list CatalogSearchHit → bool) (selected hits : list CatalogSearchHit) : list CatalogSearchHit * bool :=
  match hits with
  | [] => (selected, false)
  | h :: hits => if fits (selected ++ [h]) then select_hits fits (selected ++ [h]) hits else (selected, true)
  end.

Definition search_refusal (query : string) (max_results max_response_bytes : Z) : option string :=
  if str_empty query then Some "catalog search query must not be empty"
  else if 256 <? char_count query then Some "catalog search query must be 256 characters or fewer"
  else if negb ((1 <=? max_results) && (max_results <=? 20)) then Some "catalog search max_results must be between 1 and 20"
  else if max_response_bytes <? 512 then Some "catalog search max_response_bytes must be at least 512"
  else if is_nil (tokens query) then Some "catalog search query must contain a searchable word"
  else if max_response_bytes <? response_bytes (MkSearchResponse query [] false max_results max_response_bytes)
  then Some "catalog search response byte budget is too small for its envelope" else None.

(** What is made of the visible part. *)
Definition answer_search (visible : list Exposed) (hidden : list string) (current : option string) (query : string)
  (max_results max_response_bytes : Z) (verbose : bool) : CatalogSearchResponse :=
  let candidates := sort_by hit_key hit_order (omap (hit (tokens query) hidden current verbose) visible) in
  let fits results := response_bytes (MkSearchResponse query results true max_results max_response_bytes) <=? max_response_bytes in
  let '(selected, cut) := select_hits fits [] (take (Z.to_nat max_results) candidates) in
  MkSearchResponse query selected (cut || (max_results <? Z.of_nat (length candidates))) max_results max_response_bytes.

Definition search_catalog (c : SchemaCatalog) (connection_id : string) (policy : Policy) (query : string) (max_results max_response_bytes : Z)
  (verbose : bool) : result CatalogSearchResponse :=
  let query := strip query in
  match search_refusal query max_results max_response_bytes with
  | Some m => Raise (ValueError m)
  | None =>
      Ok (answer_search (exposed c connection_id policy) (policy_hidden_identifier_tokens c connection_id policy)
            (os_fingerprint <$> get_schema_snapshot c connection_id) query max_results max_response_bytes verbose)
  end.
End search.

(** * What an answer gives away *)

Section answers.
Context `{CF : CaseFold} `{SL : StrLower} `{FT : FloatText} `{DG : Digest} `{RT : ReferenceText}.

(** [false] is a byte longer than [true]. *)
Lemma truncated_bytes query results n b :
  response_bytes (MkSearchResponse query results false n b) = response_bytes (MkSearchResponse query results true n b) + 1.
Proof.
  unfold response_bytes, response_json. cbn [json_dumps_default map spaced String.concat sr_query sr_results sr_truncated sr_max_results sr_max_response_bytes].
  cbn [json_dumps_with]. rewrite !string_length_app. change (String.length "true") with 4%nat. change (String.length "false") with 5%nat. lia.
Qed.

Lemma select_hits_spec fits hits : ∀ selected, let r := select_hits fits selected hits in
  (∃ more, r.1 = selected ++ more ∧ ∀ h, h ∈ more → h ∈ hits) ∧ (length r.1 ≤ length selected + length hits)%nat
  ∧ (r.1 = selected ∨ fits r.1 = true).
Proof.
  induction hits as [|h hits IH]; intros selected; cbn [select_hits].
  - split_and!; [exists []; rewrite app_nil_r; split; [done|by intros ? ?%not_elem_of_nil]|cbn; lia|by left].
  - destruct (fits (selected ++ [h])) eqn:E; [|split_and!; [exists []; rewrite app_nil_r; split; [done|by intros ? ?%not_elem_of_nil]|cbn; lia|by left]].
    destruct (IH (selected ++ [h])) as ((more & Hm & Hin) & Hlen & Hfit). split_and!.
    + exists (h :: more). rewrite Hm, <-app_assoc. split; [done|]. intros x [->|Hx]%elem_of_cons; [by left|right; by apply Hin].
    + rewrite length_app in Hlen. cbn in *. lia.
    + right. destruct Hfit as [->|?]; done.
Qed.

(** What the policy shows of one entry. *)
Definition shown_target (policy : Policy) (t : CatalogDraftTarget) : Prop :=
  table_allowed policy (tg_table t) = true
  ∧ (∀ col, tg_column t = Some col → column_allowed policy (tg_table t) col = true)
  ∧ ∀ u, tg_to_table t = Some u → table_allowed policy u = true ∧ ∀ col, tg_to_column t = Some col → column_allowed policy u col = true.

Lemma exposed_shown c connection_id policy x : x ∈ exposed c connection_id policy →
  shown_target policy (ex_target x) ∧ agent_visible (en_provenance (ex_entity x)) = true.
Proof.
  unfold exposed. rewrite list_elem_of_bind. intros ([name t] & Hx & [_ Hn]%elem_of_lfilter). cbn in Hn.
  unfold exposed_in in Hx. rewrite !elem_of_app, !elem_of_map in Hx. destruct Hx as [Hx|[([n e] & -> & He)|(r & -> & Hr)]].
  - destruct (agent_visible (te_provenance t)) eqn:E; [|by apply not_elem_of_nil in Hx]. apply list_elem_of_singleton in Hx as ->. by split; [split_and!|].
  - apply elem_of_lfilter in He as [_ [Hc Hv]%andb_true_iff]. split; [split_and!; cbn; [done|by intros ? [= <-]|done]|done].
  - unfold visible_relationships in Hr. apply elem_of_lfilter in Hr as [_ H]. rewrite !andb_true_iff in H. destruct H as [[[Hv Ht] Hc] Htc].
    split; [split_and!; cbn; [done|by intros ? [= <-]|]|done]. intros u [= <-]. split; [done|]. by intros ? [= <-].
Qed.

(** Every hit of an answer is about a table the policy allows, and a column, a joined
    table and a column of it that it allows too; no text of it echoes a hidden name; there
    are at most as many hits as asked for, and the answer is at most one byte over its
    budget. *)
Theorem search_answers_safely c connection_id policy query n b verbose r : search_catalog c connection_id policy query n b verbose = Ok r →
  (∀ h, h ∈ sr_results r →
     shown_target policy (MkTarget connection_id (sh_object_type h) (sh_table h) (sh_column h) (sh_to_table h) (sh_to_column h))
     ∧ ct_status (sh_citation h) ≠ RejectedEntry ∧ ct_status (sh_citation h) ≠ ArchivedEntry
     ∧ ∀ text, text ∈ option_list (sh_description h) ++ sh_aliases h → echoes (policy_hidden_identifier_tokens c connection_id policy) text = false)
  ∧ Z.of_nat (length (sr_results r)) ≤ n ∧ response_bytes r ≤ b + 1.
Proof.
  unfold search_catalog. destruct (search_refusal (strip query) n b) eqn:Eref; [done|]. intros [= <-]. unfold answer_search.
  set (hidden := policy_hidden_identifier_tokens c connection_id policy). set (candidates := sort_by hit_key hit_order _).
  set (fits := λ results, response_bytes _ <=? b).
  pose proof (select_hits_spec fits (take (Z.to_nat n) candidates) []) as H. cbv zeta in H.
  destruct (select_hits fits [] (take (Z.to_nat n) candidates)) as [selected cut]. cbn [fst app] in H. destruct H as ((more & -> & Hin) & Hlen & Hfit).
  cbn [sr_results]. split_and!.
  - intros h Hh. apply Hin in Hh. assert (Hc : h ∈ candidates) by (by eapply elem_of_take in Hh as (i & ? & _); eapply list_elem_of_lookup_2).
    unfold candidates, sort_by in Hc. rewrite merge_sort_Permutation in Hc. apply list_elem_of_omap in Hc as (x & Hx & Hhit).
    apply exposed_shown in Hx as [Hs Hv]. unfold hit in Hhit. destruct (_ =? 0); [done|]. injection Hhit as <-. cbn.
    unfold agent_visible in Hv. apply negb_true_iff, bool_decide_eq_false in Hv. split_and!; [exact Hs|by intros ?; apply Hv; left|by intros ?; apply Hv; right|].
    intros text. rewrite elem_of_app. unfold policy_safe_catalog_text, policy_safe_catalog_aliases. intros [Ht|[_ Ht]%elem_of_lfilter].
    + destruct (en_description _) as [d|]; [|by apply not_elem_of_nil in Ht]. destruct (echoes hidden d) eqn:Ed; [by apply not_elem_of_nil in Ht|].
      by apply list_elem_of_singleton in Ht as ->.
    + by apply negb_true_iff in Ht.
  - rewrite length_take in Hlen. unfold search_refusal in Eref. repeat case_match; try done.
    match goal with H : negb _ = false |- _ => apply negb_false_iff, andb_true_iff in H as [H1%Z.leb_le _] end. cbn in Hlen. lia.
  - assert (Hbytes : response_bytes (MkSearchResponse (strip query) more true n b) ≤ b).
    { destruct Hfit as [->|Hf%Z.leb_le]; [|exact Hf]. unfold search_refusal in Eref. repeat case_match; try done.
      match goal with H : (b <? response_bytes _) = false |- _ => apply Z.ltb_ge in H; rewrite truncated_bytes in H; lia end. }
    destruct (cut || _); [lia|]. rewrite truncated_bytes. lia.
Qed.

(** ** What it depends on *)

Lemma existsb_same {A} (f : A → bool) l k : (∀ x, x ∈ l ↔ x ∈ k) → existsb f l = existsb f k.
Proof. intros H. apply eq_true_iff_eq. rewrite !existsb_elem. by setoid_rewrite H. Qed.

Lemma echoes_same hidden hidden' v : (∀ x, x ∈ hidden ↔ x ∈ hidden') → echoes hidden v = echoes hidden' v.
Proof.
  intros H. unfold echoes. f_equal; [|by apply existsb_same]. apply eq_true_iff_eq. rewrite !existsb_elem. unfold mem.
  setoid_rewrite bool_decide_eq_true. by setoid_rewrite H.
Qed.

(** The visible entries, the names to be withheld and the version of the schema are all
    an answer is made of. *)
Lemma answers_alike c c' connection_id policy query n b verbose :
  exposed c connection_id policy = exposed c' connection_id policy →
  (∀ x, x ∈ policy_hidden_identifier_tokens c connection_id policy ↔ x ∈ policy_hidden_identifier_tokens c' connection_id policy) →
  os_fingerprint <$> get_schema_snapshot c connection_id = os_fingerprint <$> get_schema_snapshot c' connection_id →
  search_catalog c connection_id policy query n b verbose = search_catalog c' connection_id policy query n b verbose.
Proof.
  intros Hex Hhid Hfp. unfold search_catalog. destruct (search_refusal _ _ _); [done|]. apply f_equal. rewrite <-Hex, <-Hfp. unfold answer_search.
  set (hidden := policy_hidden_identifier_tokens c connection_id policy) in *. set (hidden' := policy_hidden_identifier_tokens c' connection_id policy) in *.
  set (current := os_fingerprint <$> _).
  assert (Ht : ∀ o, policy_safe_catalog_text hidden o = policy_safe_catalog_text hidden' o).
  { intros [v|]; [|done]. cbn. by rewrite (echoes_same _ _ v Hhid). }
  assert (Ha : ∀ l, policy_safe_catalog_aliases hidden l = policy_safe_catalog_aliases hidden' l).
  { intros l. unfold policy_safe_catalog_aliases. apply filter_ext. intros v. by rewrite (echoes_same _ _ v Hhid). }
  assert (Hh : omap (hit (tokens (strip query)) hidden current verbose) (exposed c connection_id policy)
    = omap (hit (tokens (strip query)) hidden' current verbose) (exposed c connection_id policy)).
  { generalize (exposed c connection_id policy). intros l. induction l as [|x l IH]; cbn; [done|].
    assert (hit (tokens (strip query)) hidden current verbose x = hit (tokens (strip query)) hidden' current verbose x) as ->
      by (unfold hit; by rewrite !Ht, Ha). by rewrite IH. }
  by rewrite Hh.
Qed.

(** ** What may change unseen *)

(** Nobody is shown this column of a table: the policy denies it, or its entry was
    rejected or archived. *)
Definition column_unseen (policy : Policy) (name col : string) (e : ColumnCatalogEntry) : Prop :=
  column_allowed policy name col = false ∨ pv_status (ce_provenance e) ∈ [RejectedEntry; ArchivedEntry].
Definition relationship_unseen (policy : Policy) (name : string) (r : RelationshipHint) : Prop :=
  table_allowed policy (rh_to_table r) = false ∨ column_allowed policy name (rh_column r) = false
  ∨ column_allowed policy (rh_to_table r) (rh_to_column r) = false ∨ pv_status (rh_provenance r) ∈ [RejectedEntry; ArchivedEntry].

(** A change to the entry of a table of this name: to all that is said of a column that
    is unseen before and after, to a relationship that is, or to what is said of the table
    itself while its own entry is rejected or archived. *)
Inductive entry_change (policy : Policy) (name : string) : TableCatalogEntry → TableCatalogEntry → Prop :=
  | column_changed d a s g b rs p cols cols' col e e' :
      column_unseen policy name col e → column_unseen policy name col e' →
      entry_change policy name (MkTableEntry d a s g b rs (cols ++ (col, e) :: cols') p) (MkTableEntry d a s g b rs (cols ++ (col, e') :: cols') p)
  | relationship_added d a s g b rs rs' r cols p :
      relationship_unseen policy name r →
      entry_change policy name (MkTableEntry d a s g b (rs ++ rs') cols p) (MkTableEntry d a s g b (rs ++ r :: rs') cols p)
  | unseen_table_changed d a s g b p d' a' s' g' b' p' rs cols :
      pv_status p ∈ [RejectedEntry; ArchivedEntry] → pv_status p' ∈ [RejectedEntry; ArchivedEntry] →
      entry_change policy name (MkTableEntry d a s g b rs cols p) (MkTableEntry d' a' s' g' b' rs cols p').

(** A change to the tables: one of those, or to all that is said of a table the policy
    denies and of its columns, or a denied table more, if the policy itself names it and
    each of its columns. *)
Inductive tables_change (policy : Policy) : dict TableCatalogEntry → dict TableCatalogEntry → Prop :=
  | entry_changed before name t t' after :
      entry_change policy name t t' → tables_change policy (before ++ (name, t) :: after) (before ++ (name, t') :: after)
  | denied_table_changed before name t t' after :
      table_allowed policy name = false → dict_keys (te_columns t) = dict_keys (te_columns t') →
      tables_change policy (before ++ (name, t) :: after) (before ++ (name, t') :: after)
  | denied_table_added before name t after :
      table_allowed policy name = false → casefold name ∈ map casefold (denied_tables (access policy)) →
      (∀ col, col ∈ dict_keys (te_columns t) → casefold col ∈ map casefold (denied_columns (access policy) ≫= snd)) →
      tables_change policy (before ++ after) (before ++ (name, t) :: after).

(** Other connections, proposals, signals and versions may be what they will. *)
Definition hidden_change (policy : Policy) (connection_id : string) (c c' : SchemaCatalog) : Prop :=
  tables_change policy (tables_of c connection_id) (tables_of c' connection_id)
  ∧ os_fingerprint <$> get_schema_snapshot c connection_id = os_fingerprint <$> get_schema_snapshot c' connection_id.

Lemma not_agent_visible p : pv_status p ∈ [RejectedEntry; ArchivedEntry] → agent_visible p = false.
Proof. unfold agent_visible. intros H. apply negb_false_iff, bool_decide_eq_true. set_solver. Qed.

Lemma column_unseen_dropped policy name col e : column_unseen policy name col e →
  column_allowed policy name col && agent_visible (ce_provenance e) = false.
Proof. intros [->|H%not_agent_visible]; [done|]. rewrite H. apply andb_false_r. Qed.

Lemma entry_change_exposed policy connection_id name t t' : entry_change policy name t t' →
  exposed_in policy connection_id name t = exposed_in policy connection_id name t'.
Proof.
  intros []; unfold exposed_in, visible_relationships; cbn.
  - rewrite !List.filter_app. cbn. by rewrite !column_unseen_dropped.
  - rewrite !List.filter_app. cbn [List.filter].
    match goal with H : relationship_unseen _ _ _ |- context [if ?b then _ else _] =>
      lazymatch b with context [r] => assert (b = false) as -> end end; [|done].
    match goal with H : relationship_unseen _ _ _ |- _ => destruct H as [->|[->|[->|H%not_agent_visible]]] end;
      rewrite ?H, ?andb_false_r, ?andb_false_l; done.
  - by rewrite !not_agent_visible.
Qed.

Lemma tables_change_exposed policy connection_id c c' : tables_change policy (tables_of c connection_id) (tables_of c' connection_id) →
  exposed c connection_id policy = exposed c' connection_id policy.
Proof.
  unfold exposed. generalize (tables_of c connection_id), (tables_of c' connection_id). intros l l' [before name t t' after H|before name t t' after H _|before name t after H _ _];
    rewrite !List.filter_app, !bind_app; f_equal; cbn; [|by rewrite H..].
  destruct (table_allowed policy name); [|done]. cbn. by rewrite (entry_change_exposed _ _ _ _ _ H).
Qed.

(** The names to be withheld depend on the names of tables and columns only. *)
Lemma hidden_names_same policy connection_id c c' :
  map (prod_map id (dict_keys ∘ te_columns)) (tables_of c connection_id) = map (prod_map id (dict_keys ∘ te_columns)) (tables_of c' connection_id) →
  policy_hidden_identifier_tokens c connection_id policy = policy_hidden_identifier_tokens c' connection_id policy.
Proof.
  unfold policy_hidden_identifier_tokens. generalize (tables_of c connection_id), (tables_of c' connection_id). intros l l' H.
  assert (Hk : dict_keys l = dict_keys l').
  { apply (f_equal (map fst)) in H. rewrite !map_map in H. exact H. }
  assert (Hc : (l ≫= λ '(t, e), map (λ col, (t, col)) (dict_keys (te_columns e))) = (l' ≫= λ '(t, e), map (λ col, (t, col)) (dict_keys (te_columns e)))).
  { clear Hk. revert l' H. induction l as [|[t e] l IH]; intros [|[t' e'] l'] [=]; [done|]. cbn. subst. f_equal; [congruence|auto]. }
  by rewrite Hk, Hc.
Qed.

Lemma entry_change_columns policy name t t' : entry_change policy name t t' → dict_keys (te_columns t) = dict_keys (te_columns t').
Proof. intros []; cbn; [|done..]. unfold dict_keys. by rewrite !map_app. Qed.

Lemma tables_change_hidden policy connection_id c c' : tables_change policy (tables_of c connection_id) (tables_of c' connection_id) →
  ∀ x, x ∈ policy_hidden_identifier_tokens c connection_id policy ↔ x ∈ policy_hidden_identifier_tokens c' connection_id policy.
Proof.
  intros H. inversion H as [before name t t' after Ht E E'|before name t t' after _ Ht E E'|before name t after Hn Hd Hcs E E']; intros x.
  1,2: rewrite (hidden_names_same policy connection_id c c'); [done|]; rewrite <-E, <-E', !map_app; cbn; unfold compose; cbn;
    first [by rewrite (entry_change_columns _ _ _ _ Ht)|by rewrite Ht].
  unfold policy_hidden_identifier_tokens. cbv zeta. set (shown := λ '(t, col), table_allowed policy t && column_allowed policy t col).
  rewrite <-E, <-E', !bind_app. cbn [mbind list_bind].
  set (cols := before ≫= _). set (cols' := after ≫= _). set (news := map _ (dict_keys (te_columns t))).
  assert (Hnews : ∀ p, p ∈ news → shown p = false ∧ casefold p.2 ∈ map casefold (denied_columns (access policy) ≫= snd)).
  { intros p (col & -> & Hc)%elem_of_map. cbn. rewrite Hn. auto. }
  assert (Hnone : List.filter shown news = []).
  { destruct (List.filter shown news) as [|p ps] eqn:Ep; [done|]. assert (Hp : p ∈ List.filter shown news) by (rewrite Ep; left).
    apply elem_of_lfilter in Hp as [Hp H1]. apply Hnews in Hp as [H2 _]. congruence. }
  rewrite !List.filter_app, Hnone. cbn [app]. rewrite !map_app.
  set (seen := map _ (List.filter shown cols) ++ _). set (named := map casefold (denied_columns _ ≫= snd)) in *.
  unfold dict_keys. rewrite !map_app. cbn [map fst]. rewrite !List.filter_app. cbn [List.filter]. rewrite Hn. cbn [negb]. rewrite !map_app.
  cbn [map]. rewrite !elem_of_app, !elem_of_cons.
  set (hidden := List.filter _ (map _ (List.filter _ news))). assert (Hnew : x ∈ hidden → x ∈ List.filter (λ n, negb (mem n seen)) named).
  { intros [(p & -> & [Hp _]%elem_of_lfilter)%elem_of_map Hs]%elem_of_lfilter. apply elem_of_lfilter. split; [by apply Hnews|done]. }
  assert (x = casefold name → x ∈ map casefold (denied_tables (access policy))) by (by intros ->). tauto.
Qed.

(** C39. Catalogs that differ by changes to what a caller is not shown answer its every
    search alike. Such a change, made or undone, is of what is said of a table the policy
    denies and of its columns, of a column it denies, of a relationship it denies an end
    of, or of entries rejected or archived; or adds a denied table, when the policy
    itself names it and its columns. Any number of them, and any difference elsewhere in
    the catalog, under the same version of the schema, leaves every result, its rank and
    the size of the answer as they were. *)
Theorem search_depends_on_visible c c' connection_id policy query n b verbose :
  rtsc (hidden_change policy connection_id) c c' →
  search_catalog c connection_id policy query n b verbose = search_catalog c' connection_id policy query n b verbose.
Proof.
  assert (H : ∀ c c', hidden_change policy connection_id c c' →
    search_catalog c connection_id policy query n b verbose = search_catalog c' connection_id policy query n b verbose).
  { intros ? ? [Ht Hf]. apply answers_alike; [by apply tables_change_exposed|by apply tables_change_hidden|done]. }
  induction 1 as [|? ? ? [Hs|Hs] _ IH]; [done|..]; apply H in Hs; congruence.
Qed.

End answers.
