(* ===== verification/CatalogSample.v ===== *)
(** A small catalog on which the theorems are applied, and courses of it that do less
    than the code's comments say. *)
From Stdlib Require Import Ascii.
From Stdlib.Floats Require Import SpecFloat.
From stdpp Require Import pretty.
From S2P Require Export CatalogPublish CatalogSearch.
Local Open Scope Z_scope.

#[local] Existing Instances ascii_casefold sample_digest sample_floats.
#[local] Instance lower_in_ascii : StrLower := {| str_lower := string_map ascii_lower_char |}.
#[local] Instance ascii_references : ReferenceText := {|
  redaction_safe := string_forall (λ c, is_alnum_ c && negb (bool_decide (c = "_"%char)) || existsb (Ascii.eqb c) ["."; "_"; ":"; "/"; "-"]%char);
  redaction_safe_ascii s _ := eq_refl;
|}.

Definition orders : TableCatalogEntry :=
  MkTableEntry (Some "Orders placed") [] SENS_NONE None false [] [("total", MkColumnEntry None [] SENS_NONE false (bound_provenance "e:total" 2 "untracked"))]
    (bound_provenance "e:orders" 2 "untracked").
Definition shop : SchemaCatalog := MkCatalog 2 [("main", [("orders", orders)])] [] [] [] [] [].

Definition with_scopes (name : string) (l : list string) : Principal := MkPrincipal name (list_to_set l) [] "session" None.
Definition author : Principal := with_scopes "ann" [CATALOG_AUTHOR_SCOPE; CATALOG_EDIT_SCOPE].
Definition reviewer : Principal := with_scopes "bob" [CATALOG_APPROVE_SCOPE; CATALOG_PUBLISH_SCOPE; CATALOG_ROLLBACK_SCOPE; CATALOG_EXPORT_SCOPE; CATALOG_DELETE_SCOPE].

Abbreviation request := (catalog_request (λ c, bool_decide (c = "main")) true pretty).
Abbreviation run := (catalog_run (λ c, bool_decide (c = "main")) true pretty).

Definition propose_column (column text : string) (now : Z) : catalog_event :=
  Submit author "main" (CreateProposal ColumnObject "orders" (Some column) None None (Some text) [] None) now.
Definition propose_table (table : string) (description : option string) (aliases : list string) (now : Z) : catalog_event :=
  Submit author "main" (CreateProposal TableObject table None None None description aliases None) now.
Definition by_reviewer (r : CatalogRequest) (now : Z) : catalog_event := Submit reviewer "main" r now.

(** The proposals a course leaves, by their place. *)
Definition proposed (events : list catalog_event) (i : nat) : string :=
  default "" (pp_proposal_id <$> (cg_draft_proposals (cw_catalog (run shop events)) !! i)).

Definition first_proposal : string := Eval vm_compute in proposed [propose_column "status" "Where the order is" 1] 0.
Definition approved_column : list catalog_event :=
  [propose_column "status" "Where the order is" 1; by_reviewer (ApproveProposal first_proposal) 2].
Definition published_column : list catalog_event := approved_column ++ [by_reviewer (PublishProposal first_proposal) 3].

Definition outcome (a : catalog_answer) : string :=
  match a with Updated u => up_outcome u | Generated u => gu_outcome u | Status n => pretty n end.
Definition outcomes (events : list catalog_event) : list string :=
  map snd (foldl (λ '(w, l) e, match e with
    | Submit p c r now => let '(w, a) := request p c r now w in (w, l ++ [(tt, outcome a)])
    | _ => (catalog_step (λ c, bool_decide (c = "main")) true pretty w e, l)
    end) (MkCatalogWorld shop [] [], []) events).2.

Example sample_course : outcomes published_column = ["manual_created"; "approved"; "published"].
Proof. vm_compute. reflexivity. Qed.

(** ** The theorems applied *)

Lemma shop_ok : catalog_ok shop = true.
Proof. vm_compute. reflexivity. Qed.

Lemma published_was_approved_witness : CATALOG_PUBLISH_SCOPE ∈ scopes reviewer
  ∧ ∃ q, get_draft_proposal (cw_catalog (run shop approved_column)) first_proposal = Some q
      ∧ approved_in (λ c, bool_decide (c = "main")) true pretty shop approved_column q.
Proof.
  destruct (request reviewer "main" (PublishProposal first_proposal) 3 (run shop approved_column)).2 as [u|u|n] eqn:E;
    [|exfalso; vm_compute in E; discriminate E..].
  destruct (published_was_approved (λ c, bool_decide (c = "main")) true pretty shop approved_column reviewer "main" first_proposal 3 u
    shop_ok ltac:(constructor) ltac:(repeat constructor) E) as (Hs & q & _ & Hq & Ha & _). split; [exact Hs|]. exists q. split; [exact Hq|exact Ha].
Defined.

Definition before_publication : SchemaCatalog := Eval vm_compute in cw_catalog (run shop approved_column).
Definition publication : result CatalogGovernanceUpdate := Eval vm_compute in publish_proposal before_publication first_proposal "main" "bob" 3.

Lemma publish_keeps_verified_witness : ∃ t', te_sensitivity t' = te_sensitivity orders ∧ te_description t' = te_description orders.
Proof.
  destruct publication as [u|e] eqn:E; [|exfalso; vm_compute in E; discriminate E].
  assert (Hp : publish_proposal before_publication first_proposal "main" "bob" 3 = Ok u) by (rewrite <-E; vm_compute; reflexivity).
  destruct (publish_keeps_verified before_publication first_proposal "main" "bob" 3 u "main" "orders" orders Hp ltac:(vm_compute; reflexivity))
    as (t' & _ & Hk). exists t'. split; [exact (tk_sensitivity _ _ Hk)|].
  exact (kv_description _ _ (tk_values _ _ Hk eq_refl) eq_refl).
Defined.

Lemma rollback_undoes_creation_witness : ∃ u u', publish_proposal before_publication first_proposal "main" "bob" 3 = Ok u
  ∧ rollback_version (up_store u) "1" "main" "bob" 4 = Ok u' ∧ tables_of (up_store u') "main" = [("orders", orders)].
Proof.
  destruct publication as [u|e] eqn:E; [|exfalso; vm_compute in E; discriminate E].
  assert (Hp : publish_proposal before_publication first_proposal "main" "bob" 3 = Ok u) by (rewrite <-E; vm_compute; reflexivity).
  assert (Hv : up_version_id u = Some "1") by (vm_compute in E; injection E as <-; reflexivity).
  assert (Hr : is_ok (rollback_version (up_store u) "1" "main" "bob" 4) = true) by (vm_compute in E; injection E as <-; vm_compute; reflexivity).
  destruct (rollback_version (up_store u) "1" "main" "bob" 4) as [u'|e] eqn:Er; [|exfalso; clear -Hr; discriminate Hr].
  destruct (get_draft_proposal before_publication first_proposal) as [p|] eqn:Eg; [|exfalso; vm_compute in Eg; discriminate Eg].
  assert (Hcat : catalog_ok before_publication = true) by (vm_compute; reflexivity).
  assert (Hn : resolve_entity before_publication (pp_target p) = None) by (vm_compute in Eg; injection Eg as <-; vm_compute; reflexivity).
  assert (Ht : is_Some (get_table before_publication "main" (tg_table (pp_target p)))) by (vm_compute in Eg; injection Eg as <-; eexists; vm_compute; reflexivity).
  exists u, u'. split; [exact Hp|]. split; [exact Er|].
  exact (rollback_undoes_creation before_publication first_proposal "main" "bob" 3 u p "1" "bob" 4 u' Hcat Hp Hv Eg Hn (or_intror Ht) Er "main").
Defined.

(** A schema whose column changes its type. *)
Definition reflected (type : string) : ReflectedTable :=
  MkReflectedTable "orders" [MkReflectedColumn "total" type false false None; MkReflectedColumn "client_id" "INTEGER" false false None] [] [] None.
Definition clients : ReflectedTable := MkReflectedTable "clients" [MkReflectedColumn "id" "INTEGER" false true None] [] [] None.
Definition no_snapshot : ObservedSchemaSnapshot := MkSnapshot "main" [] "".
Definition snapshot_of (type : string) : ObservedSchemaSnapshot :=
  match from_tables "main" [reflected type; clients] with Ok s => s | Raise _ => no_snapshot end.
Definition schema_before : ObservedSchemaSnapshot := Eval vm_compute in snapshot_of "INTEGER".
Definition schema_after : ObservedSchemaSnapshot := Eval vm_compute in snapshot_of "VARCHAR".
Definition tracked : SchemaCatalog := Eval vm_compute in set_snapshots [("main", schema_before)] shop.

Lemma refresh_leaves_nothing_outdated_witness : ∃ u, refresh_catalog_schema tracked schema_after = Ok u
  ∧ target_stands (os_tables schema_before) (os_tables schema_after) (MkTarget "main" TableObject "orders" None None None)
  ∧ ru_stale_entry_ids u = ["e:total"].
Proof.
  destruct (refresh_catalog_schema tracked schema_after) as [u|e] eqn:E; [|exfalso; vm_compute in E; discriminate E].
  assert (Hok : catalog_ok tracked = true) by (vm_compute; reflexivity).
  assert (Hs : snapshot_ok "main" (os_tables schema_after) = true) by (vm_compute; reflexivity).
  assert (Hne : os_fingerprint schema_before ≠ os_fingerprint schema_after) by (vm_compute; clear; discriminate 1).
  assert (Hk : ∃ p, (MkTarget "main" TableObject "orders" None None None, p) ∈ known (ru_store u) "main" ∧ trusted p).
  { vm_compute in E. injection E as <-. eexists. split; [vm_compute; left|left; reflexivity]. }
  destruct Hk as (p & Hin & Ht). exists u. split; [reflexivity|]. split.
  - exact (proj1 (refresh_leaves_nothing_outdated tracked schema_after u schema_before _ p Hok Hs eq_refl Hne E Hin Ht)).
  - vm_compute in E. injection E as <-. reflexivity.
Defined.

(** Five callers join the orders to the clients. *)
Definition joined : CatalogDraftTarget := MkTarget "main" RelationshipObject "orders" (Some "client_id") (Some "clients") (Some "id").
Definition signal_of (caller : string) : list CatalogUsageSignal :=
  match build_usage_signal "main" (Some caller) joined RelationshipUsed (os_fingerprint schema_before) ("admission:" +:+ caller) 5 with
  | Ok s => [s] | Raise _ => [] end.
Definition used : SchemaCatalog := Eval vm_compute in set_signals (["a"; "b"; "c"; "d"; "e"] ≫= signal_of) tracked.

Lemma learned_has_evidence_witness : ∃ u proposals, generate_learned_relationship_proposals used "main" 10 = Ok u
  ∧ length proposals = 1%nat ∧ Forall (well_founded_proposal used "main" 10) proposals.
Proof.
  destruct (generate_learned_relationship_proposals used "main" 10) as [u|e] eqn:E; [|exfalso; vm_compute in E; discriminate E].
  destruct (learned_has_evidence used "main" 10 u E) as (proposals & Hp & _ & Hadded & Hall). exists u, proposals. split; [reflexivity|]. split; [|exact Hall].
  apply (f_equal length) in Hadded. rewrite map_length in Hadded. rewrite <-Hadded. vm_compute in E. injection E as <-. reflexivity.
Defined.

(** ** What the courses show *)

(** The proposal a further event adds, approved and published. *)
Definition carried_through (events : list catalog_event) (e : catalog_event) (now : Z) : list catalog_event :=
  let id := proposed (events ++ [e]) (length (cg_draft_proposals (cw_catalog (run shop events)))) in
  events ++ [e; by_reviewer (ApproveProposal id) (now + 1); by_reviewer (PublishProposal id) (now + 2)].

Definition after_deletion : list catalog_event := Eval vm_compute in
  carried_through (carried_through [] (propose_column "status" "x" 1) 1 ++ [by_reviewer (RollBack "1") 5]) (propose_column "city" "x" 11) 11
  ++ [by_reviewer (DeleteVersion "2") 21].
Definition after_deletion_again : list catalog_event := Eval vm_compute in carried_through after_deletion (propose_column "zip" "x" 31) 31.

(** A version is named after the length of the history: once a rollback record has
    been deleted, the name of the next publication is taken, and it fails without an
    audit event. *)
Theorem deletion_blocks_publication :
  last (outcomes after_deletion) = Some "deleted" ∧ last (outcomes after_deletion_again) = Some "500"
  ∧ (ca_action <$> last (cw_audit (run shop after_deletion_again))) = Some "approve".
Proof. vm_compute. repeat split. Qed.

(** Taking back an update drops every field of the entry and restores those the
    publication wrote: a description it never touched is lost. *)
Theorem rollback_forgets_untouched_fields :
  let events := carried_through [] (propose_table "orders" None ["purchases"] 1) 1 ++ [by_reviewer (RollBack "1") 5] in
  last (outcomes events) = Some "rolled_back"
  ∧ te_description orders = Some "Orders placed"
  ∧ (te_description <$> get_table (cw_catalog (run shop events)) "main" "orders") = Some None.
Proof. vm_compute. repeat split. Qed.

(** Publishing a column of a table the catalog lacks makes an entry of the table, which
    nobody proposed and which is marked verified. *)
Theorem column_publication_verifies_table :
  let events := carried_through [] (Submit author "main" (CreateProposal ColumnObject "clients" (Some "name") None None (Some "x") [] None) 1) 1 in
  ((λ t, pv_status (te_provenance t)) <$> get_table (cw_catalog (run shop events)) "main" "clients") = Some VerifiedEntry.
Proof. vm_compute. reflexivity. Qed.

(** A backup that carries an approved proposal: an import admits it, and it can be
    published though nobody here approved it. *)
Definition forged_proposal : CatalogDraftProposal :=
  MkProposal "p" "g" (MkTarget "main" ColumnObject "orders" (Some "status") None None) (MkContent (Some "x") [] None)
    (MkProvenance "p" 2 ManualSource [MkEvidence ManualEvidence "manual:admin-ui"] (Some f64_one) DraftEntry "untracked" None None None None None None)
    ApprovedReview [] None None.
Definition forged_backup : CatalogExportBundle :=
  MkBundle "main" 0 2 [("orders", orders)] None [forged_proposal]
    [MkGeneration "g" "main" "manual" "x" "x" "untracked" ("sha256:" +:+ sha256_hexdigest "") ["p"] None None] [].
Theorem import_bypasses_approval :
  outcomes [by_reviewer (ImportConnection forged_backup) 1; by_reviewer (PublishProposal "p") 2] = ["imported"; "published"].
Proof. vm_compute. reflexivity. Qed.

(** A proposal with fifty events on record is valid, and nothing can be done with it:
    no edit, no approval, no rejection, so no deletion either. *)
Definition worn_out : SchemaCatalog :=
  MkCatalog 2 [] [] [MkProposal "p" "g" (pp_target forged_proposal) (pp_content forged_proposal) (pp_provenance forged_proposal) PendingReview
      (repeat (MkReviewEvent EditedAction "ann" 1 None) 50) None None]
    [MkGeneration "g" "main" "manual" "x" "x" "untracked" ("sha256:" +:+ sha256_hexdigest "") ["p"] None None] [] [].
Theorem fifty_edits_freeze_a_proposal : catalog_ok worn_out = true
  ∧ approve_proposal worn_out "p" "main" "bob" 2 = Raise invalid
  ∧ reject_proposal worn_out "p" "main" "bob" "no" 2 = Raise invalid
  ∧ delete_proposal worn_out "p" "main" = Raise CatalogGovernanceError.
Proof. vm_compute. repeat split. Qed.

(** Three callers are called enough, but the confidence asked for takes five. *)
Theorem three_callers_are_not_enough : support_confidence 3 = S754_finite false 6755399441055744 (-54) ∧
  map (λ n, negb (SFltb (support_confidence n) MIN_CONFIDENCE)) [3; 4; 5; 8] = [false; false; true; true].
Proof. vm_compute. repeat split. Qed.

(** ** Searches *)

Definition deny_table (name : string) : Policy :=
  MkPolicy (MkAccess true [] [name] [] [] false [] [] []) default_write_policy default_caps default_windows default_disclosure default_execution default_gates.
Definition described (text : string) : TableCatalogEntry :=
  MkTableEntry (Some text) [] SENS_NONE None false [] [] (bound_provenance "e:secrets" 2 "untracked").
Definition with_secret (text : string) : SchemaCatalog := MkCatalog 2 [("main", [("orders", orders); ("secrets", described text)])] [] [] [] [] [].

Definition found (r : result CatalogSearchResponse) : list (string * option string) :=
  match r with Ok r => map (λ h, (sh_table h, sh_description h)) (sr_results r) | Raise _ => [] end.

Lemma search_answers_safely_witness : ∃ r, search_catalog (with_secret "orders of the board") "main" (deny_table "secrets") "orders" 5 16384 false = Ok r
  ∧ length (sr_results r) = 2%nat ∧ response_bytes r ≤ 16385.
Proof.
  destruct (search_catalog (with_secret "orders of the board") "main" (deny_table "secrets") "orders" 5 16384 false) as [r|e] eqn:E;
    [|exfalso; vm_compute in E; discriminate E].
  destruct (search_answers_safely _ _ _ _ _ _ _ _ E) as (_ & _ & Hb). exists r. split; [reflexivity|]. split; [|exact Hb].
  vm_compute in E. injection E as <-. reflexivity.
Defined.

(** The denied table is added, its text rewritten, and the orders are said to join it. *)
Definition to_secrets : RelationshipHint := MkRelationship "secrets" "id" "order_id" (Some "kept for the board") (bound_provenance "e:hint" 2 "untracked").
Definition orders_to_secrets : TableCatalogEntry :=
  MkTableEntry (te_description orders) (te_aliases orders) (te_sensitivity orders) (te_default_aggregation orders) (te_allow_samples orders)
    (to_secrets :: te_relationships orders) (te_columns orders) (te_provenance orders).
Definition joined_to_secret : SchemaCatalog :=
  MkCatalog 2 [("main", [("orders", orders_to_secrets); ("secrets", described "nothing")])] [] [] [] [] [].
Definition orders_alone : SchemaCatalog := MkCatalog 2 [("main", [("orders", orders)])] [] [] [] [] [].

Lemma search_depends_on_visible_witness :
  search_catalog orders_alone "main" (deny_table "secrets") "orders" 5 16384 false
  = search_catalog joined_to_secret "main" (deny_table "secrets") "orders" 5 16384 false
  ∧ found (search_catalog joined_to_secret "main" (deny_table "secrets") "orders" 5 16384 false) ≠ [].
Proof.
  split; [|vm_compute; discriminate].
  apply (search_depends_on_visible orders_alone joined_to_secret "main" (deny_table "secrets") "orders" 5 16384 false).
  apply rtc_l with (with_secret "orders of the board"); [left; split; [|reflexivity]|].
  { apply (denied_table_added (deny_table "secrets") [("orders", orders)] "secrets" (described "orders of the board") []);
      [vm_compute; reflexivity|vm_compute; left|intros ? []%elem_of_nil]. }
  apply rtc_l with (with_secret "nothing"); [left; split; [|reflexivity]|].
  { apply (denied_table_changed (deny_table "secrets") [("orders", orders)] "secrets" (described "orders of the board") (described "nothing") []); vm_compute; reflexivity. }
  apply rtc_once. left. split; [|reflexivity].
  apply (entry_changed (deny_table "secrets") [] "orders" orders orders_to_secrets [("secrets", described "nothing")]).
  apply (relationship_added (deny_table "secrets") "orders" _ _ _ _ _ [] (te_relationships orders) to_secrets). left. vm_compute. reflexivity.
Defined.

Definition one_table (text : string) : SchemaCatalog :=
  MkCatalog 2 [("main", [("orders", MkTableEntry (Some text) [] SENS_NONE None false [] [] (bound_provenance "e:orders" 2 "untracked"))])] [] [] [] [] [].
Definition long_text : string := Eval vm_compute in String.concat " " (repeat "Everything there is to know about this table." 8).
Definition tight_budget : Z := Eval vm_compute in
  match search_catalog (one_table long_text) "main" (deny_table "secrets") "orders" 5 999 false with Ok r => response_bytes r - 1 | Raise _ => 0 end.

(** The budget is measured with [true] for the flag of truncation, the shorter of the
    two: an answer can be a byte too long. *)
Theorem answer_exceeds_budget : 512 ≤ tight_budget ∧
  match search_catalog (one_table long_text) "main" (deny_table "secrets") "orders" 5 tight_budget false with
  | Ok r => response_bytes r = tight_budget + 1 ∧ length (sr_results r) = 1%nat
  | Raise _ => False
  end.
Proof. vm_compute. repeat split; discriminate. Qed.

(** A hidden name without a letter or digit of ASCII is not looked for in the texts of
    others: here the three bytes of one such character. *)
Definition foreign_name : string := String (ascii_of_nat 233) (String (ascii_of_nat 161) (String (ascii_of_nat 167) "")).
Theorem foreign_names_are_echoed : table_allowed (deny_table foreign_name) foreign_name = false ∧
  found (search_catalog (one_table ("orders of " +:+ foreign_name)) "main" (deny_table foreign_name) "orders" 5 16384 false)
  = [("orders", Some ("orders of " +:+ foreign_name))].
Proof. vm_compute. repeat split. Qed.
