(* ===== verification/ObservedShapes.v ===== *)
(** Observed query shapes ([admin/observed_shapes.py]): a query reduced to a skeleton
    with a typed slot for every value, the identity of a skeleton, the bounded store
    that counts them and the template drafted from one. Shown: nothing kept of a
    query depends on its values; a draft bound to the values replays the query; the
    store stays within its bound, and as long as it evicted nothing its counts are
    exact. *)
From Stdlib Require Import Ascii.
From stdpp Require Import pretty sorting.
From S2P Require Export TemplateFacts SchemaMemory Effects.
Local Open Scope Z_scope.

Definition SkeletonizationError : exn := BuiltinError "SkeletonizationError".

(** [query.model_dump(mode="json", exclude_none=True)], a dict. *)
Class QueryDump := query_dump : StructuredQuery → list (string * json).

Definition _LITERAL_KEYS : list string :=
  ["value"; "literal"; "delimiter"; "amount"; "fraction"; "buckets"; "offset"; "limit"; "n"].
Definition _DROPPED_KEYS : list string := ["intent"].
Definition _ALIAS_KEYS : list string := ["alias"; "from_alias"; "name"].

Definition is_literal_key (k : string) : bool := bool_decide (k ∈ _LITERAL_KEYS).
Definition is_dropped_key (k : string) : bool := bool_decide (k ∈ _DROPPED_KEYS).
Definition is_alias_key (k : string) : bool := bool_decide (k ∈ _ALIAS_KEYS).

(** * Slots *)

(** The type of a slot for a value, and whether it takes a list. *)
Fixpoint param_type_of (value : json) : result (ParameterType * bool) :=
  match value with
  | JList [] => Raise SkeletonizationError
  | JList items =>
      map_result (λ item, fst <$> param_type_of item) items ≫= λ types,
      match remove_dups types with
      | [t] => Ok (t, true)
      | _ => Raise SkeletonizationError
      end
  | JBool _ => Ok (PBoolean, false)
  | JInt _ => Ok (PInteger, false)
  | JFloat _ => Ok (PNumber, false)
  | JStr _ => Ok (PString, false)
  | JNull | JObj _ => Raise SkeletonizationError
  end.

(** [_NON_IDENTIFIER.sub("_", stem)]: a run of other characters becomes one. *)
Fixpoint underscore_runs (in_run : bool) (s : string) : string :=
  match s with
  | EmptyString => EmptyString
  | String c s =>
      if is_alnum_ c then String c (underscore_runs false s)
      else if in_run then underscore_runs true s else String "_" (underscore_runs true s)
  end.
Fixpoint drop_leading (c : ascii) (s : string) : string :=
  match s with
  | EmptyString => EmptyString
  | String d s' => if bool_decide (d = c) then drop_leading c s' else s
  end.
Definition strip_char (c : ascii) (s : string) : string := String.rev (drop_leading c (String.rev (drop_leading c s))).

Definition base_name (hint : option string) : string :=
  match hint with
  | None => "param"
  | Some hint =>
      if str_empty hint then "param" else
      let stem := strip_char "_" (underscore_runs false (default "" (last (split_on "."%char hint)))) in
      if str_empty stem || negb (is_identifier true stem) then "param" else stem
  end.

(** [_ParameterAllocator]. *)
Record Allocator := MkAllocator { al_used : dict Z; al_parameters : list TemplateParameter }.
Definition new_allocator : Allocator := MkAllocator [] [].

Definition observed_parameter (name : string) (t : ParameterType) (is_list : bool) (hint : option string) : TemplateParameter :=
  let description := match hint with
    | Some h => if str_empty h then "Observed value." else "Observed value at " +:+ h +:+ "."
    | None => "Observed value."
    end in
  MkParameter name t true (Some description) JNull is_list None None None None.

(** A name for the next slot on [hint]: the stem, numbered from its second use. *)
Definition name_slot (hint : option string) (t : ParameterType) (is_list : bool) : eff Allocator string := λ a,
  let stem := base_name hint in
  let seen := default 0 (dict_get stem (al_used a)) in
  let name := if seen =? 0 then stem else stem +:+ "_" +:+ pretty (seen + 1) in
  (MkAllocator (dict_set stem (seen + 1) (al_used a)) (al_parameters a ++ [observed_parameter name t is_list hint]), Ok name).

Definition allocate (hint : option string) (value : json) : eff Allocator string :=
  lift (param_type_of value) ≫= λ '(t, is_list), name_slot hint t is_list.

(** * Skeletons *)

Definition param_slot (name : string) : json := JObj [("param", JStr name)].

(** The column a dict names for itself, or that of the enclosing one. *)
Definition local_hint (hint : option string) (fields : list (string * json)) : option string :=
  match dict_get "col" fields with Some (JStr s) => Some s | _ => hint end.
Definition slot_hint (hint : option string) (key : string) : option string :=
  if bool_decide (key ∈ ["value"; "literal"]) then hint else Some key.

(** [_walk]. *)
Fixpoint _walk (hint : option string) (node : json) : eff Allocator json :=
  match node with
  | JObj fields =>
      let local := local_hint hint fields in
      collect_each (λ '(key, value),
        if is_dropped_key key then mret []
        else if is_literal_key key then
          if json_is_none value then mret []
          else allocate (slot_hint local key) value ≫= λ name, mret [(key, param_slot name)]
        else _walk local value ≫= λ out, mret [(key, out)]) fields ≫= λ out, mret (JObj out)
  | JList items => collect_each (λ item, _walk hint item ≫= λ out, mret [out]) items ≫= λ out, mret (JList out)
  | _ => mret node
  end.

(** [isinstance(value, dict) and set(value) == {"param"}]. *)
Definition only_param (value : json) : bool :=
  match value with JObj fields => bool_decide (remove_dups (dict_keys fields) = ["param"]) | _ => false end.

Fixpoint assert_no_literal_survived (node : json) : result unit :=
  match node with
  | JObj fields =>
      for_each (λ '(key, value),
        raise_if (is_dropped_key key) SkeletonizationError ≫= λ _,
        if is_literal_key key then raise_if (negb (only_param value)) SkeletonizationError
        else assert_no_literal_survived value) fields
  | JList items => for_each assert_no_literal_survived items
  | _ => Ok tt
  end.

Definition skeletonize_dump (dumped : json) : result (json * list TemplateParameter) :=
  let '(allocator, walked) := _walk None dumped new_allocator in
  walked ≫= λ sk, assert_no_literal_survived sk ≫= λ _, Ok (sk, al_parameters allocator).

Definition skeletonize `{QueryDump} (query : StructuredQuery) : result (json * list TemplateParameter) :=
  skeletonize_dump (JObj (query_dump query)).

(** * The identity of a skeleton *)

Definition next_token (mapping : dict string) : string := "#" +:+ pretty (Z.of_nat (length mapping) + 1).

(** [_collect_aliases]. *)
Fixpoint collect_aliases (node : json) (mapping : dict string) : dict string :=
  match node with
  | JObj fields =>
      foldl (λ mapping '(key, value),
        match value with
        | JStr alias => if is_alias_key key then dict_setdefault alias (next_token mapping) mapping else mapping
        | _ => collect_aliases value mapping
        end) mapping fields
  | JList items => foldl (λ mapping item, collect_aliases item mapping) mapping items
  | _ => mapping
  end.

(** [_canonicalize_aliases], after every alias was collected: its [setdefault] finds
    them all and leaves the mapping as it is. *)
Fixpoint canonicalize_aliases (mapping : dict string) (node : json) : json :=
  match node with
  | JObj fields =>
      JObj (map (λ '(key, value),
        (key, match value with
              | JStr alias =>
                  if is_alias_key key then JStr (default (next_token mapping) (dict_get alias mapping))
                  else canonicalize_aliases mapping value
              | _ => canonicalize_aliases mapping value
              end)) fields)
  | JList items => JList (map (canonicalize_aliases mapping) items)
  | JStr s => JStr (default s (dict_get s mapping))
  | _ => node
  end.

Definition shape_text `{FloatText} (sk : json) : string := json_dumps (canonicalize_aliases (collect_aliases sk []) sk).
Definition shape_hash `{FloatText} `{Digest} (sk : json) : string := String.substring 0 32 (sha256_hexdigest (shape_text sk)).

(** * Shapes and the store *)

(** Times are clock readings. *)
Record ObservedShape := MkShape {
  ob_shape_hash : string;
  ob_connection_id : string;
  ob_principal_id : option string;
  ob_skeleton : json;
  ob_parameters : list TemplateParameter;
  ob_occurrences : Z;
  ob_first_seen : Z;
  ob_last_seen : Z;
}.

(** [x or y] on texts. *)
Definition or_text (x : option string) (y : string) : string :=
  match x with Some s => if str_empty s then y else s | None => y end.

Definition fields_of (v : json) : list (string * json) := match v with JObj fields => fields | _ => [] end.

Definition to_template_draft `{CaseFold} (shape : ObservedShape) (template_id : string) (description : option string) : result QueryTemplate :=
  validate_template
    (MkTemplate template_id (ob_connection_id shape)
       (Some (or_text description ("Drafted from an observed query shape (" +:+ pretty (ob_occurrences shape) +:+ " occurrences).")))
       (ob_parameters shape) (fields_of (ob_skeleton shape))).

(** [InProcessObservedShapeStore]; each method runs under its lock. *)
Record ShapeStore := MkShapeStore {
  st_max_entries : Z;
  st_shapes : dict ObservedShape;
  st_evicted_total : Z;
  st_skeletonization_failures : Z;
  st_enabled : bool;
}.
Definition with_shapes (shapes : dict ObservedShape) (evicted : Z) (s : ShapeStore) : ShapeStore :=
  MkShapeStore (st_max_entries s) shapes evicted (st_skeletonization_failures s) (st_enabled s).

Definition new_shape_store (max_entries : Z) (enabled : bool) : result ShapeStore :=
  raise_if (max_entries <? 1) (ValueError "max_entries must be >= 1") ≫= λ _, Ok (MkShapeStore max_entries [] 0 0 enabled).

Definition shape_key (digest connection_id : string) (principal_id : option string) : string :=
  digest +:+ ":" +:+ connection_id +:+ ":" +:+ default "" principal_id.

(** [while len(shapes) > max_entries: shapes.popitem(last=False)], counting. *)
Fixpoint evict_oldest (max_entries : Z) (shapes : dict ObservedShape) (evicted : Z) : dict ObservedShape * Z :=
  match shapes with
  | [] => ([], evicted)
  | e :: rest => if max_entries <? Z.of_nat (length shapes) then evict_oldest max_entries rest (evicted + 1) else (shapes, evicted)
  end.

Section store.
Context `{QD : QueryDump} `{FT : FloatText} `{DG : Digest}.

(** [record] once the query is a skeleton. *)
Definition record_skeleton (sk : json) (parameters : list TemplateParameter) (connection_id : string) (principal_id : option string)
  (now : Z) (s : ShapeStore) : ShapeStore * ObservedShape :=
  let digest := shape_hash sk in
  let key := shape_key digest connection_id principal_id in
  match dict_get key (st_shapes s) with
  | Some e =>
      let e := MkShape (ob_shape_hash e) (ob_connection_id e) (ob_principal_id e) (ob_skeleton e) (ob_parameters e)
                 (ob_occurrences e + 1) (ob_first_seen e) now in
      (with_shapes (dict_pop key (st_shapes s) ++ [(key, e)]) (st_evicted_total s) s, e)
  | None =>
      let e := MkShape digest connection_id principal_id sk parameters 1 now now in
      let '(shapes, evicted) := evict_oldest (st_max_entries s) (dict_set key e (st_shapes s)) (st_evicted_total s) in
      (with_shapes shapes evicted s, e)
  end.

Definition record_query (query : StructuredQuery) (connection_id : string) (principal_id : option string) (now : Z) :
  eff ShapeStore (option ObservedShape) := λ s,
  if negb (st_enabled s) then (s, Ok None) else
  match skeletonize query with
  | Raise e =>
      (MkShapeStore (st_max_entries s) (st_shapes s) (st_evicted_total s) (st_skeletonization_failures s + 1) (st_enabled s), Raise e)
  | Ok (sk, parameters) =>
      let '(s, e) := record_skeleton sk parameters connection_id principal_id now s in (s, Ok (Some e))
  end.

(** [_record_observed_shape] of the service: whatever is raised is dropped. *)
Definition _record_observed_shape (query : StructuredQuery) (connection_id : string) (principal_id : option string) (now : Z)
  (s : ShapeStore) : ShapeStore := (record_query query connection_id principal_id now s).1.

Definition wanted (connection_id principal_id : option string) (e : ObservedShape) : bool :=
  match connection_id with Some c => bool_decide (ob_connection_id e = c) | None => true end
  && match principal_id with Some p => bool_decide (ob_principal_id e = Some p) | None => true end.

(** [(-occurrences, first_seen)]. *)
Definition usage_key (e : ObservedShape) : Z * Z := (- ob_occurrences e, ob_first_seen e).

Definition list_shapes (connection_id principal_id : option string) (s : ShapeStore) : list ObservedShape :=
  sort_by usage_key (pair_le Z.le Z.le) (List.filter (wanted connection_id principal_id) (map snd (st_shapes s))).

Definition get_shape (hash : string) (connection_id principal_id : option string) (s : ShapeStore) : option ObservedShape :=
  List.find (λ e, bool_decide (ob_shape_hash e = hash) && wanted connection_id principal_id e) (map snd (st_shapes s)).

Definition clear_shapes (s : ShapeStore) : ShapeStore := MkShapeStore (st_max_entries s) [] 0 0 (st_enabled s).

Record ObservedShapeCounters := MkShapeCounters {
  ct_max_entries : Z;
  ct_evicted_total : Z;
  ct_skeletonization_failures : Z;
  ct_backend_healthy : bool;
}.
Definition shape_counters (s : ShapeStore) : ObservedShapeCounters :=
  MkShapeCounters (st_max_entries s) (st_evicted_total s) (st_skeletonization_failures s) true.

(** [build_observed_shape_report]: whether it is enabled, the shapes, the counters. *)
Definition build_observed_shape_report (connection_id principal_id : option string) (s : ShapeStore) :
  bool * list ObservedShape * ObservedShapeCounters :=
  (st_enabled s, if st_enabled s then list_shapes connection_id principal_id s else [], shape_counters s).

(** [observability_observed_shape_draft], past its scope check. *)
Definition observed_shape_draft `{CaseFold} (hash template_id : string) (connection_id principal_id description : option string) (s : ShapeStore) :
  result QueryTemplate :=
  raise_if (negb (st_enabled s)) (NotFoundError "Observed-shape recording is disabled.") ≫= λ _,
  match get_shape hash connection_id principal_id s with
  | None => Raise (NotFoundError "Unknown observed shape: ")
  | Some shape =>
      match to_template_draft shape template_id description with
      | Raise (ValueError _) => Raise (QueryValidationError "Invalid template draft: ")
      | r => r
      end
  end.

(** What happens to the store. *)
Inductive shape_event :=
| Completed (query : StructuredQuery) (connection_id : string) (principal_id : option string) (now : Z)
| Cleared.
Definition shape_step (s : ShapeStore) (e : shape_event) : ShapeStore :=
  match e with
  | Completed query connection_id principal_id now => _record_observed_shape query connection_id principal_id now s
  | Cleared => clear_shapes s
  end.
Definition shape_run (s : ShapeStore) (events : list shape_event) : ShapeStore := foldl shape_step s events.
End store.

(** * Nothing kept depends on a value *)

(** The fields of the query AST whose content is a caller's value: of a predicate,
    of a literal expression, the delimiter of a string aggregation, the amount of
    a date shift, the fraction of a percentile, the buckets and offset of a window
    call, the offset of a frame bound, the offset and limit of a query, and the
    number of a top-n. Its free text is the intent. *)
Definition value_fields : list string :=
  ["value"; "literal"; "delimiter"; "amount"; "fraction"; "buckets"; "offset"; "limit"; "n"].
Definition is_value_field (k : string) : bool := bool_decide (k ∈ value_fields).
Definition is_free_text (k : string) : bool := bool_decide (k = "intent").

Lemma literal_keys k : is_literal_key k = is_value_field k.
Proof. reflexivity. Qed.

Lemma dropped_keys k : is_dropped_key k = is_free_text k.
Proof. unfold is_dropped_key, is_free_text. apply bool_decide_ext. apply list_elem_of_singleton. Qed.

(** A slot stands in every value field, and there is no free text. *)
Definition is_slot (v : json) : bool := match v with JObj [(k, JStr _)] => bool_decide (k = "param") | _ => false end.
Fixpoint slots_only (node : json) : bool :=
  match node with
  | JObj fields =>
      forallb (λ '(key, value), negb (is_free_text key) && if is_value_field key then is_slot value else slots_only value) fields
  | JList items => forallb slots_only items
  | _ => true
  end.

(** What of an object's fields is not free text nor an absent value. *)
Definition shown (e : string * json) : bool := negb (is_free_text e.1) && negb (is_value_field e.1 && json_is_none e.2).

(** Dumps that differ in nothing but the free text, and in values for which a slot has
    the same type. *)
Inductive same_but_values : json → json → Prop :=
| same_leaf v : match v with JList _ | JObj _ => False | _ => True end → same_but_values v v
| same_list l k : Forall2 same_but_values l k → same_but_values (JList l) (JList k)
| same_object fs gs :
    Forall2 (λ e g, e.1 = g.1 ∧
      (is_value_field e.1 = true ∧ param_type_of e.2 = param_type_of g.2
       ∨ is_value_field e.1 = false ∧ same_but_values e.2 g.2)) (List.filter shown fs) (List.filter shown gs) →
    same_but_values (JObj fs) (JObj gs).

Section walking.
Context {S A B : Type}.
Implicit Types (f g : A → eff S (list B)).

Lemma collect_each_ext f g l k :
  Forall2 (λ x y, ∀ s, f x s = g y s) l k → ∀ s, collect_each f l s = collect_each g k s.
Proof.
  induction 1 as [|x y l k Hxy _ IH]; intros s; [done|]. cbn. unfold mbind, eff_bind. rewrite Hxy.
  destruct (g y s) as [s' [ys|e]]; [|done]. by rewrite IH.
Qed.

Lemma collect_each_filter f (keep : A → bool) l s :
  (∀ x s, x ∈ l → keep x = false → f x s = (s, Ok [])) → collect_each f l s = collect_each f (List.filter keep l) s.
Proof.
  revert s. induction l as [|x l IH]; intros s H; [done|]. assert (Hl := λ x s Hx, H x s (list_elem_of_further _ _ _ Hx)).
  cbn [List.filter]. destruct (keep x) eqn:E; cbn; unfold mbind, eff_bind; [destruct (f x s) as [s' [ys|e]]; [|done]; by rewrite IH|].
  rewrite H by (done || left). rewrite IH by done. by destruct (collect_each f _ s) as [s' [ys|e]].
Qed.
End walking.

Definition walk_field (local : option string) : string * json → eff Allocator (list (string * json)) := λ '(key, value),
  if is_dropped_key key then mret []
  else if is_literal_key key then
    if json_is_none value then mret []
    else allocate (slot_hint local key) value ≫= λ name, mret [(key, param_slot name)]
  else _walk local value ≫= λ out, mret [(key, out)].

Lemma walk_object hint fields s :
  _walk hint (JObj fields) s = (collect_each (walk_field (local_hint hint fields)) (List.filter shown fields) ≫= λ out, mret (JObj out)) s.
Proof.
  cbn [_walk]. unfold mbind at 1 4, eff_bind. rewrite <-(collect_each_filter (walk_field _) shown); [done|].
  intros [k v] s' _ H. unfold shown in H. cbn in *. rewrite <- dropped_keys, <- literal_keys in H.
  destruct (is_dropped_key k); [done|]. destruct (is_literal_key k); [|done].
  by destruct (json_is_none v).
Qed.

Lemma allocate_type hint v v' s : param_type_of v = param_type_of v' → allocate hint v s = allocate hint v' s.
Proof. unfold allocate. by intros ->. Qed.

Lemma local_hint_shown hint fields : local_hint hint fields = local_hint hint (List.filter shown fields).
Proof.
  unfold local_hint. enough (dict_get "col" fields = dict_get "col" (List.filter shown fields)) as -> by done.
  induction fields as [|[k v] fields IH]; [done|]. cbn. destruct (bool_decide_reflect ("col" = k)) as [<-|Hk].
  - done.
  - destruct (shown _); cbn; [by rewrite bool_decide_eq_false_2|done].
Qed.

Lemma walk_same d : ∀ d' hint s, same_but_values d d' → _walk hint d s = _walk hint d' s.
Proof.
  induction d as [v Hv|l IH|fs IH] using json_nested_ind; intros d' hint s H.
  - inversion H; subst; done.
  - inversion H as [? Hv|? k Hk|]; subst; [done|]. cbn. unfold mbind at 1 3, eff_bind.
    rewrite (collect_each_ext _ (λ item, _walk hint item ≫= λ out, mret [out]) l k); [done|].
    eapply Forall2_impl_elem; [exact Hk|]. intros x y Hx _ Hxy s'. unfold mbind, eff_bind. by rewrite (IH x Hx y).
  - inversion H as [? Hv| |? gs Hgs]; subst; [done|]. rewrite !walk_object, (local_hint_shown hint fs), (local_hint_shown hint gs).
    assert (local_hint hint (List.filter shown fs) = local_hint hint (List.filter shown gs)) as ->.
    { unfold local_hint. clear -Hgs. induction Hgs as [|[k v] [k' v'] l l' [Hk Hv] _ IHl]; [done|]. cbn in *. subst k'.
      case_bool_decide as Hc; [|done]. subst k. destruct Hv as [[[=] _]|[_ Hv]]. by inversion Hv. }
    unfold mbind, eff_bind. rewrite (collect_each_ext _ (walk_field (local_hint hint (List.filter shown gs))) _ (List.filter shown gs)); [done|].
    eapply Forall2_impl_elem; [exact Hgs|]. intros [k v] [k' v'] Hx Hy [Hk Hv] s'. cbn in *. subst k'.
    apply elem_of_lfilter in Hx as [Hin Hx], Hy as [_ Hy]. unfold shown in Hx, Hy. cbn in Hx, Hy.
    rewrite <- dropped_keys, <- literal_keys in *.
    destruct (is_dropped_key k); [done|]. destruct Hv as [[Hl Ht]|[Hl Hv]]; rewrite Hl in *; cbn in Hx, Hy.
    + destruct (json_is_none v), (json_is_none v'); try done. unfold mbind, eff_bind. by rewrite (allocate_type _ v v').
    + unfold mbind, eff_bind. by rewrite (IH k v Hin v').
Qed.

(** Nothing but slots is left where the values were. *)
Lemma collect_slots {X Y S} (f : X → eff S (list Y)) (ok : Y → bool) l :
  (∀ x s s' ys, x ∈ l → f x s = (s', Ok ys) → forallb ok ys = true) →
  ∀ s s' out, collect_each f l s = (s', Ok out) → forallb ok out = true.
Proof.
  induction l as [|x l IH]; intros Hf s s' out H; cbn in H; [by injection H as <- <-|].
  apply eff_bind_ok in H as (s1 & ys & Hx & H). apply eff_bind_ok in H as (s2 & zs & Hl & H). injection H as <- <-.
  rewrite forallb_app. apply andb_true_iff. split; [by eapply (Hf x); [left|]|].
  eapply IH; [|exact Hl]. intros y a a' ws Hy. apply Hf. by right.
Qed.

Lemma walk_slots d : ∀ hint s s' sk, _walk hint d s = (s', Ok sk) → slots_only sk = true.
Proof.
  induction d as [v Hv|l IH|fs IH] using json_nested_ind; intros hint s s' sk H.
  - by destruct v; try done; injection H as <- <-.
  - cbn in H. apply eff_bind_ok in H as (a1 & out & H & [= <- <-]). cbn. eapply collect_slots; [|exact H].
    intros x a a' ys Hx Hw. apply eff_bind_ok in Hw as (b & o & Hw & [= <- <-]). cbn. by rewrite (IH x Hx _ _ _ _ Hw).
  - apply (eff_bind_ok (collect_each (walk_field (local_hint hint fs)) fs)) in H as (a1 & out & H & [= <- <-]).
    cbn [slots_only]. eapply collect_slots; [|exact H]. intros [k v] a a' ys Hx Hw. unfold walk_field in Hw.
    destruct (is_dropped_key k) eqn:Hd; [by injection Hw as <- <-|].
    destruct (is_literal_key k) eqn:Hl; [destruct (json_is_none v); [by injection Hw as <- <-|]|];
      apply eff_bind_ok in Hw as (b & o & Hw & [= <- <-]); cbn; rewrite <- dropped_keys, <- literal_keys, Hd, Hl; cbn.
    + done.
    + by rewrite (IH k v Hx _ _ _ _ Hw).
Qed.

(** * A draft replays the query *)

(** The values a query holds, in the order of the walk; the query less its free text;
    whether an object of it could be taken for a slot. *)
Fixpoint literal_values (node : json) : list json :=
  match node with
  | JObj fields =>
      flat_map (λ '(key, value),
        if is_dropped_key key then []
        else if is_literal_key key then if json_is_none value then [] else [value]
        else literal_values value) fields
  | JList items => flat_map literal_values items
  | _ => []
  end.
Fixpoint without_free_text (node : json) : json :=
  match node with
  | JObj fields =>
      JObj (flat_map (λ '(key, value),
        if is_dropped_key key then []
        else if is_literal_key key then if json_is_none value then [] else [(key, value)]
        else [(key, without_free_text value)]) fields)
  | JList items => JList (map without_free_text items)
  | _ => node
  end.
Fixpoint has_param_key (node : json) : bool :=
  match node with
  | JObj fields => existsb (λ '(key, value), bool_decide (key = "param") || (negb (is_literal_key key) && has_param_key value)) fields
  | JList items => existsb has_param_key items
  | _ => false
  end.

Definition slot_for (p : TemplateParameter) (v : json) : Prop :=
  ∃ name hint t is_list, p = observed_parameter name t is_list hint ∧ param_type_of v = Ok (t, is_list).

(** A stretch of the walk: from [a] to [a'] it allocated slots for the values [vs], left
    no literal in [out], and whatever fills its slots with [vs] makes it [ks]. *)
Definition walked {Y} (chk : Y → result unit) (sub : dict json → Y → result Y) (a a' : Allocator) (out : list Y) (vs : list json) (ks : list Y) : Prop :=
  ∃ ps, al_parameters a' = al_parameters a ++ ps ∧ Forall2 slot_for ps vs ∧ for_each chk out = Ok tt
    ∧ ∀ resolved, Forall2 (λ p v, dict_get (tp_name p) resolved = Some v) ps vs → map_result (sub resolved) out = Ok ks.

Section walked.
Context {Y : Type} (chk : Y → result unit) (sub : dict json → Y → result Y).
Notation W := (walked chk sub).

Lemma walked_nil a : W a a [] [] [].
Proof. exists []. rewrite app_nil_r. split_and!; [done|constructor|done|done]. Qed.

Lemma walked_app a1 a2 a3 o1 o2 v1 v2 k1 k2 : W a1 a2 o1 v1 k1 → W a2 a3 o2 v2 k2 → W a1 a3 (o1 ++ o2) (v1 ++ v2) (k1 ++ k2).
Proof.
  intros (p1 & E1 & S1 & C1 & R1) (p2 & E2 & S2 & C2 & R2). exists (p1 ++ p2). split_and!.
  - by rewrite E2, E1, app_assoc.
  - by apply Forall2_app.
  - by rewrite for_each_app, C1.
  - intros r H. apply Forall2_app_inv in H as [H1 H2]; [|by eapply Forall2_length]. apply map_result_app; auto.
Qed.

Lemma collect_walked {X} (f : X → eff Allocator (list Y)) (vals : X → list json) (keep : X → list Y) l a a' out :
  (∀ x a a' ys, x ∈ l → f x a = (a', Ok ys) → W a a' ys (vals x) (keep x)) →
  collect_each f l a = (a', Ok out) → W a a' out (flat_map vals l) (flat_map keep l).
Proof.
  revert a out. induction l as [|x l IH]; intros a out Hf H; cbn in H.
  - injection H as <- <-. apply walked_nil.
  - apply eff_bind_ok in H as (a1 & ys & Hx & H). apply eff_bind_ok in H as (a2 & zs & Hl & H). injection H as <- <-.
    eapply walked_app; [eapply Hf; [left|exact Hx]|]. apply IH; [|done]. intros. eapply Hf; [by right|done].
Qed.
End walked.

Lemma allocated hint v a a' name : allocate hint v a = (a', Ok name) →
  ∃ p, al_parameters a' = al_parameters a ++ [p] ∧ tp_name p = name ∧ slot_for p v.
Proof.
  unfold allocate. intros H. apply eff_bind_ok in H as (a1 & [t is_list] & Ht & H). unfold lift in Ht. injection Ht as <- Ht.
  unfold name_slot in H. injection H as <- <-. eexists. split; [done|]. split; [done|]. by do 4 eexists.
Qed.

Definition field_sub (resolved : dict json) : string * json → result (string * json) :=
  λ '(k, v), substitute resolved v ≫= λ v, Ok (k, v).
Definition field_check : string * json → result unit := λ '(key, value),
  raise_if (is_dropped_key key) SkeletonizationError ≫= λ _,
  if is_literal_key key then raise_if (negb (only_param value)) SkeletonizationError else assert_no_literal_survived value.

Lemma walked_fields_keys hint fields a a' out : collect_each (walk_field hint) fields a = (a', Ok out) → dict_keys out ⊆ dict_keys fields.
Proof.
  revert a out. induction fields as [|[k v] fields IH]; intros a out H; cbn -[walk_field] in H; [injection H as <- <-; done|].
  apply eff_bind_ok in H as (a1 & ys & Hx & H). apply eff_bind_ok in H as (a2 & zs & Hl & H). injection H as <- <-.
  apply IH in Hl. unfold dict_keys in *. rewrite fmap_app. assert (ys.*1 ⊆ [k]); [|set_solver].
  unfold walk_field in Hx. destruct (is_dropped_key k); [injection Hx as <- <-; set_solver|].
  destruct (is_literal_key k); [destruct (json_is_none v); [injection Hx as <- <-; set_solver|]|];
    apply eff_bind_ok in Hx as (? & ? & _ & Hx); injection Hx as <- <-; set_solver.
Qed.

Lemma no_placeholder fields : "param" ∉ dict_keys fields → placeholder fields = None.
Proof. unfold dict_keys. destruct fields as [|[k []] []]; try done. cbn. intros H. rewrite bool_decide_eq_false_2; [done|]. set_solver. Qed.

Lemma walk_walked d : ∀ hint a a' sk, has_param_key d = false → _walk hint d a = (a', Ok sk) →
  walked assert_no_literal_survived substitute a a' [sk] (literal_values d) [without_free_text d].
Proof.
  induction d as [v Hv|l IH|fs IH] using json_nested_ind; intros hint a a' sk Hp H.
  - assert (a' = a ∧ sk = v ∧ literal_values v = [] ∧ without_free_text v = v) as (-> & -> & -> & ->) by (destruct v; try done; injection H as <- <-; done).
    exists []. rewrite app_nil_r. split_and!; [done|constructor|by destruct v|]. intros r _. by destruct v.
  - cbn in H. apply eff_bind_ok in H as (a1 & out & H & [= <- <-]). cbn in Hp.
    apply (collect_walked assert_no_literal_survived substitute _ literal_values (λ x, [without_free_text x])) in H as (ps & E & Hs & C & R).
    + exists ps. split_and!; [done|done|cbn; by rewrite C|]. intros r Hr. cbn. rewrite (R r Hr). cbn.
      by rewrite flat_map_single.
    + intros x b b' ys Hx Hw. apply eff_bind_ok in Hw as (b1 & o & Hw & [= <- <-]). eapply IH; [done| |exact Hw].
      by eapply existsb_not_elem in Hp.
  - apply (eff_bind_ok (collect_each (walk_field (local_hint hint fs)) fs)) in H as (a1 & out & H & [= <- <-]).
    pose proof (walked_fields_keys _ _ _ _ _ H) as Hk. cbn in Hp. pose proof (proj1 (existsb_not_elem _ _) Hp) as Hn.
    assert (placeholder out = None) as Hph.
    { apply no_placeholder. intros [[k v] [Hkv Hin]]%Hk%list_elem_of_fmap. cbn in Hkv. subst k. by specialize (Hn _ Hin). }
    assert (walked field_check field_sub a a1 out (literal_values (JObj fs)) (fields_of (without_free_text (JObj fs)))) as (ps & E & Hs & C & R).
    { eapply collect_walked; [|exact H]. cbn beta. clear H.
      intros [k v] b b' ys Hx Hw. specialize (Hn _ Hx). cbn in Hn. apply orb_false_iff in Hn as [_ Hn]. unfold walk_field in Hw.
      destruct (is_dropped_key k) eqn:Hd; [injection Hw as <- <-; apply walked_nil|].
      destruct (is_literal_key k) eqn:Hl; [destruct (json_is_none v); [injection Hw as <- <-; apply walked_nil|]|].
      * apply eff_bind_ok in Hw as (b1 & name & Ha & [= <- <-]). apply allocated in Ha as (p & Hp' & <- & Hsl).
        exists [p]. split_and!; [done|by repeat constructor|cbn; by rewrite Hd, Hl|].
        intros r Hr. apply Forall2_cons in Hr as [Hr _]. unfold param_slot. cbn. rewrite bool_decide_eq_true_2 by done. by rewrite Hr.
      * apply eff_bind_ok in Hw as (b1 & o & Hw & [= <- <-]). eapply IH in Hw as (ps & E & Hs & C & R); [|done|exact Hn].
        exists ps. cbn in C. split_and!; [done|done|cbn; rewrite Hd, Hl; exact C|].
        intros r Hr. specialize (R r Hr). cbn in R |- *. by destruct (substitute r o); [injection R as ->|]. }
    exists ps. split_and!; [done|exact Hs| |]; [change (for_each field_check out ≫= (λ _, Ok tt) = Ok tt); by rewrite C|].
    intros r Hr. cbn. rewrite Hph. change (map_result _ out) with (map_result (field_sub r) out). by rewrite (R r Hr).
Qed.

(** What a slot drafted from a value takes back: scalars and lists of them, numbers
    finite. *)
Definition bindable_scalar (v : json) : bool :=
  match v with JList _ | JObj _ | JNull => false | JFloat f => float_isfinite f | _ => true end.
Definition bindable (v : json) : bool := match v with JList l => forallb bindable_scalar l | _ => bindable_scalar v end.

Lemma scalar_fits name hint t t' is_list v : bindable_scalar v = true → param_type_of v = Ok (t, t') →
  fits_slot (observed_parameter name t is_list hint) v.
Proof.
  intros Hb Ht. unfold fits_slot, not_allowed. cbn. split; [|done]. unfold slot_type_error. cbn.
  destruct v; try done; injection Ht as <- <-; try done. cbn in Hb |- *. by rewrite Hb.
Qed.

Lemma remove_dups_single {A} `{EqDecision A} (l : list A) t x : remove_dups l = [t] → x ∈ l → x = t.
Proof. intros H Hx. apply elem_of_remove_dups in Hx. rewrite H in Hx. by apply list_elem_of_singleton in Hx. Qed.

Lemma slot_accepts p v : slot_for p v → bindable v = true → validate_parameter_value p v = Ok v.
Proof.
  intros (name & hint & t & is_list & -> & Ht) Hb. apply validate_parameter_value_ok. split; [done|]. unfold fits_parameter. cbn.
  destruct v as [|b|z|f|s|l|fs]; try (injection Ht as <- <-; by eapply scalar_fits); [done| |done].
  destruct l as [|x l]; [done|]. cbn [param_type_of] in Ht. apply bind_ok in Ht as (types & Htypes & Ht).
  destruct (remove_dups types) as [|t1 [|]] eqn:E; try done. injection Ht as <- <-. exists (x :: l). split_and!; [done|done|].
  apply Forall_forall. intros y Hy. cbn in Hb. pose proof (proj1 (forallb_elem bindable_scalar (x :: l)) Hb y Hy) as Hby.
  apply map_result_ok, list_elem_of_lookup in Hy as [i Hi] || apply list_elem_of_lookup in Hy as [i Hi].
  apply map_result_ok in Htypes. destruct (Forall2_lookup_l _ _ _ _ _ Htypes Hi) as (ty & Hty & Hf).
  apply list_elem_of_lookup_2 in Hty. apply (remove_dups_single _ t1) in Hty; [|done]. subst ty.
  destruct (param_type_of y) as [[ty b]|] eqn:Ey; [|done]. injection Hf as ->. by eapply scalar_fits.
Qed.

Lemma combine_supplied {A} (names : list string) (vs : list A) : length names = length vs → NoDup names →
  dict_keys (combine names vs) = names ∧ Forall2 (λ n v, dict_get n (combine names vs) = Some v) names vs.
Proof.
  intros Hl Hn. assert (Hk : dict_keys (combine names vs) = names).
  { unfold dict_keys. clear Hn. revert vs Hl. induction names as [|n names IH]; intros [|v vs] Hl; try done. cbn. f_equal. apply IH. by injection Hl. }
  split; [done|]. apply Forall2_same_length_lookup. split; [done|]. intros i n v Hi Hv. apply dict_in_get; [by rewrite Hk|].
  apply list_elem_of_lookup. exists i. clear -Hi Hv. revert vs i Hi Hv. induction names as [|m names IH]; intros [|w vs] [|i] Hi Hv; try done.
  - by injection Hi as ->; injection Hv as ->.
  - by apply IH.
Qed.

Section replay.
Context `{CF : CaseFold} `{QD : QueryDump} `{QM : QueryModel}.

Lemma drafted shape template_id description t : to_template_draft shape template_id description = Ok t →
  qt_parameters t = ob_parameters shape ∧ qt_query t = fields_of (ob_skeleton shape) ∧ NoDup (map tp_name (ob_parameters shape)).
Proof.
  unfold to_template_draft, validate_template. cbn. intros H. result_inv. split_and!; [done..|].
  match goal with H : has_duplicates _ = false |- _ => rename H into Hd end.
  unfold has_duplicates in Hd. apply negb_false_iff, bool_decide_eq_true in Hd. by apply (NoDup_fmap_1 casefold).
Qed.

Lemma resolve_supplied t vs : NoDup (map tp_name (qt_parameters t)) → Forall2 (λ p v, slot_for p v ∧ bindable v = true) (qt_parameters t) vs →
  let supplied := combine (map tp_name (qt_parameters t)) vs in resolve_parameters t supplied = Ok (list_to_dict supplied).
Proof.
  intros Hn Hs supplied. assert (Hl : length (map tp_name (qt_parameters t)) = length vs) by (rewrite length_map; by eapply Forall2_length).
  destruct (combine_supplied _ vs Hl Hn) as [Hk Hg]. unfold resolve_parameters, supplied. rewrite Hk.
  rewrite (proj2 (forallb_elem _ _)) by (intros; by apply bool_decide_eq_true). cbn.
  enough (map_result (λ p, resolve_parameter (combine (map tp_name (qt_parameters t)) vs) p ≫= λ v, Ok (tp_name p, v)) (qt_parameters t)
    = Ok (combine (map tp_name (qt_parameters t)) vs)) as -> by done.
  apply map_result_ok. clear Hk Hn supplied. set (d := combine _ _) in Hg |- * at 1. clearbody d. revert vs Hs Hl Hg.
  induction (qt_parameters t) as [|p ps IH]; intros vs Hs Hl Hg; cbn; [inversion Hs; subst; constructor|].
  apply Forall2_cons_inv_l in Hs as (v & vs' & [Hp Hb] & Hs & ->). apply Forall2_cons in Hg as [Hv Hg]. cbn. constructor; [|apply IH; auto].
  unfold resolve_parameter. rewrite Hv. by rewrite slot_accepts.
Qed.

(** C36. A template drafted from a shape and bound to the values of a query that
    has this very skeleton and these very slots, as one that differs from the
    recorded query only in values of the same types has, is that query less its
    free text. (Other queries of the shape's identity are spelt with other
    aliases or have values of other types.) *)
Theorem draft_replays_query shape template_id description t q q' :
  skeletonize q = Ok (ob_skeleton shape, ob_parameters shape) → has_param_key (JObj (query_dump q)) = false →
  forallb bindable (literal_values (JObj (query_dump q))) = true →
  to_template_draft shape template_id description = Ok t →
  query_validate (without_free_text (JObj (query_dump q))) = Some q' →
  bind_template t (combine (map tp_name (qt_parameters t)) (literal_values (JObj (query_dump q)))) = Ok q'.
Proof.
  intros Hsk Hp Hb Ht Hq. apply drafted in Ht as (Hps & Hqt & Hn). unfold skeletonize, skeletonize_dump in Hsk.
  destruct (_walk None _ new_allocator) as [a [sk|]] eqn:Hw; [|done]. cbn in Hsk. apply bind_ok in Hsk as ([] & _ & [= Hsk Hpp]).
  destruct (walk_walked _ _ _ _ _ Hp Hw) as (ps & E & Hs & _ & R). cbn in E. rewrite <-E, Hpp in Hs, R. 
  assert (Hall : Forall2 (λ p v, slot_for p v ∧ bindable v = true) (qt_parameters t) (literal_values (JObj (query_dump q)))).
  { rewrite Hps. eapply Forall2_impl_elem; [exact Hs|]. intros p v _ Hv Hsl. split; [done|]. by apply (proj1 (forallb_elem _ _) Hb). }
  unfold bind_template. rewrite resolve_supplied by (done || by rewrite Hps). cbn [mbind result_bind].
  set (supplied := combine _ _). assert (Hr : map_result (substitute (list_to_dict supplied)) [sk] = Ok [without_free_text (JObj (query_dump q))]).
  { apply R. rewrite <-Hps. subst supplied. assert (Hl : length (map tp_name (qt_parameters t)) = length (literal_values (JObj (query_dump q)))) by (rewrite length_map; by eapply Forall2_length).
    rewrite <-Hps in Hn. destruct (combine_supplied _ _ Hl Hn) as [Hk Hg]. apply Forall2_fmap_l in Hg. eapply Forall2_impl; [exact Hg|].
    intros p v Hv. apply list_to_dict_in_unique; [by rewrite <-Hk in Hn|by apply dict_get_Some]. }
  unfold skeleton. rewrite Hqt, <-Hsk. assert (JObj (fields_of sk) = sk) as ->.
  { apply (eff_bind_ok (collect_each _ (query_dump q))) in Hw as (? & ? & _ & Hw). by injection Hw as <- <-. }
  apply map_result_ok in Hr. apply Forall2_cons in Hr as [Hr _]. rewrite Hr. cbn [mbind result_bind]. by rewrite Hq.
Qed.
End replay.

Section kept.
Context `{QueryDump} `{FloatText} `{Digest}.

Definition kept_slots (shapes : dict ObservedShape) : Prop := ∀ k e, (k, e) ∈ shapes → slots_only (ob_skeleton e) = true.

Lemma evict_oldest_elem max shapes : ∀ evicted x, x ∈ (evict_oldest max shapes evicted).1 → x ∈ shapes.
Proof.
  induction shapes as [|e rest IH]; intros evicted x; cbn; [done|]. destruct (max <? _); [|done]. intros Hx%IH. by right.
Qed.

Lemma record_query_slots q connection_id principal_id now s :
  kept_slots (st_shapes s) → kept_slots (st_shapes (record_query q connection_id principal_id now s).1).
Proof.
  intros Hs. unfold record_query. destruct (negb (st_enabled s)); [done|]. unfold skeletonize, skeletonize_dump.
  destruct (_walk None _ new_allocator) as [a [sk|e]] eqn:Hw; [|done]. cbn [mbind result_bind].
  destruct (assert_no_literal_survived sk); [|done]. cbn [mbind result_bind]. apply walk_slots in Hw. unfold record_skeleton.
  destruct (dict_get _ (st_shapes s)) as [e|] eqn:Hg; cbn [fst].
  - apply dict_get_Some in Hg. intros k x. cbn [st_shapes with_shapes]. rewrite elem_of_app, list_elem_of_singleton.
    intros [[Hx _]%dict_pop_elem|[= -> ->]]; [by eapply Hs|]. exact (Hs _ _ Hg).
  - pose proof (evict_oldest_elem (st_max_entries s)) as He. destruct (evict_oldest _ _ _) as [shapes evicted] eqn:Ev. cbn.
    intros k x Hx. specialize (He _ _ (k, x) ltac:(rewrite Ev; exact Hx)). apply dict_set_in in He as [[= -> ->]|Hin]; [done|by eapply Hs].
Qed.
End kept.

(** C35. A recording forgets the values. Whatever completed before, every shape kept
    has a typed slot in each field of the AST that carries a caller's value, and
    no intent; and of two queries that differ only in values of the same slot
    types and in their intent, the store is left the same and answers the same.
    Aliases and names of outputs, tables and blocks, which callers also write,
    are kept. *)
Theorem recording_forgets_values `{QueryDump} `{FloatText} `{Digest} max enabled s0 events :
  new_shape_store max enabled = Ok s0 →
  let s := shape_run s0 events in
  (∀ k e, (k, e) ∈ st_shapes s → slots_only (ob_skeleton e) = true)
  ∧ ∀ q q' connection_id principal_id now,
      same_but_values (JObj (query_dump q)) (JObj (query_dump q')) →
      record_query q connection_id principal_id now s = record_query q' connection_id principal_id now s.
Proof.
  intros Hnew s. split.
  - unfold new_shape_store in Hnew. destruct (max <? 1); [done|]. injection Hnew as <-.
    induction events as [|e events IH] using rev_ind; [by intros k e H'%not_elem_of_nil|].
    subst s. unfold shape_run in *. rewrite foldl_app. destruct e; [by apply record_query_slots|by intros k e H'%not_elem_of_nil].
  - intros q q' connection_id principal_id now Hs. unfold record_query, skeletonize, skeletonize_dump.
    by rewrite (walk_same _ _ None new_allocator Hs).
Qed.

(** * What the identity of a shape leaves out *)

(** A renaming of every text; the texts other than aliases; the names of the slots. *)
Fixpoint rename_texts (ρ : string → string) (node : json) : json :=
  match node with
  | JObj fields => JObj (map (λ '(key, value), (key, rename_texts ρ value)) fields)
  | JList items => JList (map (rename_texts ρ) items)
  | JStr s => JStr (ρ s)
  | _ => node
  end.
Fixpoint plain_texts (node : json) : list string :=
  match node with
  | JObj fields =>
      flat_map (λ '(key, value),
        match value with JStr s => if is_alias_key key then [] else [s] | _ => plain_texts value end) fields
  | JList items => flat_map plain_texts items
  | JStr s => [s]
  | _ => []
  end.
Fixpoint slot_names (node : json) : list string :=
  match node with
  | JObj fields => match placeholder fields with Some name => [name] | None => flat_map (λ '(_, value), slot_names value) fields end
  | JList items => flat_map slot_names items
  | _ => []
  end.
Definition aliases_of (sk : json) : list string := dict_keys (collect_aliases sk []).

Section renaming.
Context (ρ : string → string) `{!Inj (=) (=) ρ}.

Definition rename_keys (m : dict string) : dict string := map (λ e, (ρ e.1, e.2)) m.

Lemma rename_keys_get m s : dict_get (ρ s) (rename_keys m) = dict_get s m.
Proof.
  induction m as [|[k v] m IH]; [done|]. cbn. change (map _ m) with (rename_keys m). rewrite IH. destruct (bool_decide_reflect (s = k)) as [->|H].
  - by rewrite bool_decide_eq_true_2.
  - rewrite bool_decide_eq_false_2; [done|]. by intros ?%(inj ρ).
Qed.
Lemma rename_keys_set m k v : dict_set (ρ k) v (rename_keys m) = rename_keys (dict_set k v m).
Proof.
  induction m as [|[j w] m IH]; [done|]. cbn. destruct (bool_decide_reflect (k = j)) as [->|H].
  - by rewrite bool_decide_eq_true_2.
  - rewrite bool_decide_eq_false_2 by (by intros ?%(inj ρ)). cbn. f_equal. exact IH.
Qed.

Lemma setdefault_rename a t m : dict_setdefault (ρ a) t (rename_keys m) = rename_keys (dict_setdefault a t m).
Proof. unfold dict_setdefault. rewrite rename_keys_get. destruct (dict_get a m); [done|]. apply rename_keys_set. Qed.
Lemma next_token_rename m : next_token (rename_keys m) = next_token m.
Proof. unfold next_token, rename_keys. by rewrite length_map. Qed.

Lemma collect_rename d : ∀ m, collect_aliases (rename_texts ρ d) (rename_keys m) = rename_keys (collect_aliases d m).
Proof.
  induction d as [v Hv|l IH|fs IH] using json_nested_ind; intros m; [by destruct v|..].
  - cbn. revert m. induction l as [|x l IHl]; intros m; [done|]. cbn. rewrite IH by left. apply IHl. intros. apply IH. by right.
  - cbn. revert m. induction fs as [|[k v] fs IHl]; intros m; [done|]. cbn.
    assert (IHv := IH k v ltac:(left)). assert (IHr : ∀ k v, (k, v) ∈ fs → ∀ m, collect_aliases (rename_texts ρ v) (rename_keys m) = rename_keys (collect_aliases v m))
      by (intros; eapply IH; by right). specialize (IHl IHr). rewrite <-IHl. f_equal. destruct v; cbn in *; try apply IHv.
    destruct (is_alias_key k); [by rewrite next_token_rename, setdefault_rename|done].
Qed.

Lemma canonicalize_rename m d : (∀ s, s ∈ plain_texts d → s ∉ dict_keys m → ρ s = s) →
  canonicalize_aliases (rename_keys m) (rename_texts ρ d) = canonicalize_aliases m d.
Proof.
  assert (Hs : ∀ s, (s ∉ dict_keys m → ρ s = s) → default (ρ s) (dict_get (ρ s) (rename_keys m)) = default s (dict_get s m)).
  { intros s H. rewrite rename_keys_get. destruct (dict_get s m) eqn:E; [done|]. cbn. by apply H, dict_get_None. }
  induction d as [v Hv|l IH|fs IH] using json_nested_ind; intros H.
  - destruct v; try done. cbn. rewrite Hs; [done|]. apply H. left.
  - cbn. f_equal. rewrite map_map. apply map_ext_in. intros x Hx%list_elem_of_In. apply IH; [done|]. intros s Hsx. apply H. cbn.
    apply elem_of_flat_map. eauto.
  - cbn. f_equal. rewrite map_map. apply map_ext_in. intros [k v] Hx%list_elem_of_In. cbn. f_equal.
    assert (Hv : ∀ s, s ∈ match v with JStr s => if is_alias_key k then [] else [s] | _ => plain_texts v end → s ∉ dict_keys m → ρ s = s).
    { intros s Hsx. apply H. cbn. apply elem_of_flat_map. by exists (k, v). }
    specialize (IH k v Hx). destruct v; cbn in *; try (by apply IH). 
    destruct (is_alias_key k); [by rewrite rename_keys_get, next_token_rename|]. apply IH. cbn. intros s'. apply Hv.
Qed.
End renaming.

(** Output aliases and the names of ctes, however they are chosen, leave the identity of
    a shape as it is, as long as no slot goes by the name of one. *)
Theorem shape_hash_ignores_aliases `{FloatText} `{Digest} ρ `{!Inj (=) (=) ρ} sk :
  (∀ s, s ∈ plain_texts sk → s ∉ aliases_of sk ∨ s ∈ slot_names sk → ρ s = s) →
  shape_hash (rename_texts ρ sk) = shape_hash sk.
Proof.
  intros Hr. unfold shape_hash, shape_text. pose proof (collect_rename ρ sk []) as Hc. cbn in Hc. rewrite Hc.
  rewrite canonicalize_rename; [done|done|]. intros s Hs Ha. apply Hr; [done|]. by left.
Qed.

(** * Counts *)

Section counting.
Context `{QD : QueryDump} `{FT : FloatText} `{DG : Digest}.

(** The key a query is recorded under, and how often it was since the last reset. *)
Definition key_of_query (query : StructuredQuery) (connection_id : string) (principal_id : option string) : option string :=
  match skeletonize query with Ok (sk, _) => Some (shape_key (shape_hash sk) connection_id principal_id) | Raise _ => None end.
Definition count_event (key : string) (n : Z) (e : shape_event) : Z :=
  match e with
  | Cleared => 0
  | Completed query connection_id principal_id _ => if bool_decide (key_of_query query connection_id principal_id = Some key) then n + 1 else n
  end.
Definition times_recorded (key : string) (events : list shape_event) : Z := foldl (count_event key) 0 events.

Definition times_counted (n : Z) : option Z := if n =? 0 then None else Some n.

Lemma evict_oldest_spec max d n : 0 ≤ max → let '(d', n') := evict_oldest max d n in
  d' `suffix_of` d ∧ Z.of_nat (length d') ≤ max ∧ n ≤ n' ∧ (n' = n → d' = d).
Proof.
  intros Hm. revert n. induction d as [|e d IH]; intros n; cbn [evict_oldest]; [split_and!; done || cbn; lia|].
  destruct (Z.ltb_spec max (Z.of_nat (length (e :: d)))) as [Hlt|Hge]; [|split_and!; done || lia].
  specialize (IH (n + 1)). destruct (evict_oldest max d (n + 1)) as [d' n']. destruct IH as (Hs & Hl & Hn & _).
  split_and!; [by apply suffix_cons_r|done|lia|lia].
Qed.

(** What the store keeps true: within its bound, one entry per key, and exact counts as
    long as nothing was evicted since the last reset. *)
Definition store_counts (max : Z) (events : list shape_event) (s : ShapeStore) : Prop :=
  st_max_entries s = max ∧ st_enabled s = true ∧ Z.of_nat (length (st_shapes s)) ≤ max ∧ NoDup (dict_keys (st_shapes s)) ∧ 0 ≤ st_evicted_total s
  ∧ (∀ key, 0 ≤ times_recorded key events)
  ∧ (st_evicted_total s = 0 → ∀ key, ob_occurrences <$> dict_get key (st_shapes s) = times_counted (times_recorded key events)).

Lemma times_snoc key events e : times_recorded key (events ++ [e]) = count_event key (times_recorded key events) e.
Proof. unfold times_recorded. by rewrite foldl_app. Qed.

Lemma dict_get_last {A} key j (x : A) d : j ∉ dict_keys d → dict_get key (d ++ [(j, x)]) = if bool_decide (key = j) then Some x else dict_get key d.
Proof.
  unfold dict_keys. induction d as [|[i y] d IH]; intros H; cbn; [done|]. cbn in H. apply not_elem_of_cons in H as [Hi H].
  rewrite IH by done. destruct (bool_decide_reflect (key = i)) as [->|]; [|done]. by rewrite bool_decide_eq_false_2.
Qed.

Lemma pop_last_keys {A} j (x : A) d : NoDup (dict_keys d) → NoDup (dict_keys (dict_pop j d ++ [(j, x)])) ∧ j ∉ dict_keys (dict_pop j d).
Proof.
  intros H. assert (Hj : j ∉ dict_keys (dict_pop j d)).
  { intros [[k y] [Hk Hin]]%list_elem_of_fmap. apply dict_pop_elem in Hin as [_ Hne]. cbn in *. by subst. }
  split; [|done]. unfold dict_keys in *. rewrite fmap_app. apply NoDup_app. split_and!; [by apply dict_filter_NoDup|set_solver|by repeat constructor; set_solver].
Qed.

Lemma pop_length {A} j (d : dict A) : (length (dict_pop j d) + (if bool_decide (is_Some (dict_get j d)) then 1 else 0) ≤ length d)%nat.
Proof.
  unfold dict_pop. induction d as [|[k x] d IH]; [done|]. cbn. destruct (bool_decide_reflect (j = k)) as [<-|H].
  - rewrite bool_decide_eq_true_2 by done. cbn. revert IH. destruct (bool_decide (is_Some (dict_get j d))); lia.
  - rewrite (bool_decide_eq_false_2 (k = j)) by done. cbn. lia.
Qed.

Lemma counts_completed max events s q c p now : 1 ≤ max → store_counts max events s →
  store_counts max (events ++ [Completed q c p now]) (_record_observed_shape q c p now s).
Proof.
  intros Hmax (Hm & He & Hl & Hd & Hn & Ht & Hc). unfold _record_observed_shape, record_query. rewrite He. cbn [negb].
  assert (Ht' : ∀ key, 0 ≤ times_recorded key (events ++ [Completed q c p now])).
  { intros key. rewrite times_snoc. cbn. specialize (Ht key). case_bool_decide; lia. }
  assert (Hk : ∀ key, times_recorded key (events ++ [Completed q c p now]) =
    if bool_decide (key_of_query q c p = Some key) then times_recorded key events + 1 else times_recorded key events) by (intros; by rewrite times_snoc).
  unfold key_of_query in Hk. destruct (skeletonize q) as [[sk ps]|e].
  2:{ split_and!; try done. cbn. intros Hz key. rewrite Hk, bool_decide_eq_false_2 by done. by apply Hc. }
  unfold record_skeleton. set (j := shape_key _ c p) in *. destruct (dict_get j (st_shapes s)) as [e|] eqn:Ej; cbn [fst].
  - destruct (pop_last_keys j (MkShape (ob_shape_hash e) (ob_connection_id e) (ob_principal_id e) (ob_skeleton e) (ob_parameters e) (ob_occurrences e + 1) (ob_first_seen e) now) _ Hd) as [Hd' Hj].
    split_and!; [done|done| |exact Hd'|done|done|].
    + cbn. rewrite length_app. cbn. pose proof (pop_length j (st_shapes s)) as Hp. rewrite Ej, bool_decide_eq_true_2 in Hp by done. lia.
    + cbn. intros Hz key. specialize (Hc Hz). rewrite dict_get_last, dict_get_pop, Hk by done. pose proof (Hc key) as Hck. destruct (bool_decide_reflect (key = j)) as [->|Hne].
      * rewrite bool_decide_eq_true_2 by done. rewrite Ej in Hck. cbn in *. unfold times_counted in *. specialize (Ht j).
        destruct (Z.eqb_spec (times_recorded j events) 0); [done|]. destruct (Z.eqb_spec (times_recorded j events + 1) 0); [lia|]. injection Hck as ->. done.
      * rewrite (bool_decide_eq_false_2 (Some j = Some key)) by congruence. done.
  - set (e := MkShape _ _ _ _ _ _ _ _). pose proof (evict_oldest_spec (st_max_entries s) (dict_set j e (st_shapes s)) (st_evicted_total s) ltac:(lia)) as He'.
    destruct (evict_oldest _ _ _) as [d' n']. destruct He' as ([pre Hpre] & Hl' & Hn' & Hsame). cbn [fst].
    split_and!; [done|done|cbn; lia| |cbn; lia|done|].
    + cbn. pose proof (dict_set_NoDup j e _ Hd) as Hds. rewrite Hpre in Hds. unfold dict_keys in *. rewrite fmap_app in Hds. by apply NoDup_app in Hds as (_ & _ & Hds).
    + cbn. intros Hz key. rewrite Hsame by lia. assert (Hz0 : st_evicted_total s = 0) by lia. specialize (Hc Hz0). rewrite Hk. pose proof (Hc key) as Hck. destruct (bool_decide_reflect (key = j)) as [->|Hne].
      * rewrite bool_decide_eq_true_2, dict_get_set_eq by done. rewrite Ej in Hck. cbn in *. unfold times_counted in *.
        by destruct (Z.eqb_spec (times_recorded j events) 0) as [->|].
      * rewrite dict_get_set_ne by done. by rewrite (bool_decide_eq_false_2 (Some j = Some key)) by congruence.
Qed.

(** However queries complete and whenever the record is reset, the store holds at most
    its bound, one entry a key; and while it evicted nothing, exactly the keys recorded,
    each with the number of its recordings. *)
Theorem shapes_counted max s0 events : new_shape_store max true = Ok s0 →
  let s := shape_run s0 events in
  Z.of_nat (length (st_shapes s)) ≤ max ∧ NoDup (dict_keys (st_shapes s))
  ∧ (st_evicted_total s = 0 → ∀ key, ob_occurrences <$> dict_get key (st_shapes s) = times_counted (times_recorded key events)).
Proof.
  intros H. unfold new_shape_store in H. result_inv. enough (Hs : store_counts max events (shape_run (MkShapeStore max [] 0 0 true) events)).
  { by destruct Hs as (_ & _ & ? & ? & _ & _ & ?). }
  assert (Hmax : 1 ≤ max) by (match goal with H : (max <? 1) = false |- _ => apply Z.ltb_ge in H end; lia).
  induction events as [|e events IH] using rev_ind; [split_and!; done || cbn; try constructor; lia|].
  unfold shape_run in *. rewrite foldl_app. cbn. destruct e as [q c p now|]; [by apply counts_completed|].
  destruct IH as (Hm & He & _). split_and!; [done|done|cbn; lia|constructor|done|..]; cbn; intros; rewrite ?times_snoc; done.
Qed.
End counting.

(** * Samples *)

(** The dump of the queries [sample_model] reads, with the free text it leaves out. *)
#[local] Instance shape_sample_dump : QueryDump := λ q,
  [("from", JStr (from_table q));
   ("select", JList (map (λ item, match item with ColumnItem ref => JStr ref | _ => JNull end) (select q)))]
  ++ match limit q with Some n => [("limit", JInt n)] | None => [] end
  ++ match intent q with Some t => [("intent", JStr t)] | None => [] end.

Definition shape_sample_query (n : Z) (why : string) : StructuredQuery :=
  MkStructuredQuery "customers" None [ColumnItem "customers.id"] false [] None [] None [] (Some n) 0 None None [] [] None (Some why).

Definition sample_shape : ObservedShape :=
  MkShape "h" "main" None
    (JObj [("from", JStr "customers"); ("select", JList [JStr "customers.id"]); ("limit", param_slot "limit")])
    [observed_parameter "limit" PInteger false (Some "limit")] 3 0 5.

Lemma recording_forgets_values_witness :
  let store := @shape_run shape_sample_dump sample_floats sample_digest (MkShapeStore 2 [] 0 0 true)
                 [Completed (shape_sample_query 5 "how many") "main" None 1] in
  let record q := @record_query shape_sample_dump sample_floats sample_digest q "main" None 9 store in
  (∀ k e, (k, e) ∈ st_shapes store → slots_only (ob_skeleton e) = true)
  ∧ record (shape_sample_query 10 "who owes us") = record (shape_sample_query 99 "")
  ∧ length (st_shapes store) = 1%nat ∧ is_ok (record (shape_sample_query 10 "")).2 = true.
Proof.
  intros store record.
  destruct (@recording_forgets_values shape_sample_dump sample_floats sample_digest 2 true (MkShapeStore 2 [] 0 0 true)
    [Completed (shape_sample_query 5 "how many") "main" None 1] eq_refl) as [Hslots Hsame].
  split; [exact Hslots|]. split; [|split; vm_compute; reflexivity]. apply Hsame.
  apply same_object. cbn. repeat apply Forall2_cons_2; try apply Forall2_nil_2; split; try reflexivity; cbn;
    [right; split; [reflexivity|by constructor]|right; split; [reflexivity|by repeat constructor]|left; by split].
Defined.

Lemma draft_replays_query_witness :
  ∃ t, @to_template_draft ascii_casefold sample_shape "recent" None = Ok t
    ∧ @bind_template sample_model t [("limit", JInt 10)] = Ok (MkStructuredQuery "customers" None [ColumnItem "customers.id"] false [] None [] None [] (Some 10) 0 None None [] [] None None).
Proof.
  destruct (@to_template_draft ascii_casefold sample_shape "recent" None) as [t|e] eqn:E; [|vm_compute in E; discriminate].
  exists t. split; [reflexivity|].
  assert (H : map tp_name (qt_parameters t) = ["limit"]) by (vm_compute in E; injection E as <-; reflexivity).
  pose proof (@draft_replays_query ascii_casefold shape_sample_dump sample_model sample_shape "recent" None t (shape_sample_query 10 "who owes us")
    (MkStructuredQuery "customers" None [ColumnItem "customers.id"] false [] None [] None [] (Some 10) 0 None None [] [] None None)
    ltac:(vm_compute; reflexivity) ltac:(vm_compute; reflexivity) ltac:(vm_compute; reflexivity) E ltac:(vm_compute; reflexivity)) as Hb.
  rewrite H in Hb. exact Hb.
Defined.

Lemma shapes_counted_witness :
  let s := @shape_run shape_sample_dump sample_floats sample_digest (MkShapeStore 2 [] 0 0 true)
             [Completed (shape_sample_query 1 "") "main" None 1; Cleared; Completed (shape_sample_query 10 "") "main" None 9; Completed (shape_sample_query 20 "why") "main" None 12] in
  Z.of_nat (length (st_shapes s)) ≤ 2 ∧ map ob_occurrences (map snd (st_shapes s)) = [2].
Proof.
  intros s. split; [|vm_compute; reflexivity].
  apply (@shapes_counted shape_sample_dump sample_floats sample_digest 2 (MkShapeStore 2 [] 0 0 true)). reflexivity.
Defined.

Lemma shape_hash_ignores_aliases_witness :
  let sk name := JObj [("select", JList [JObj [("col", JStr "o.total"); ("alias", JStr name)]]); ("order_by", JList [JStr name]); ("limit", param_slot "limit")] in
  @shape_hash sample_floats sample_digest (sk "t") = @shape_hash sample_floats sample_digest (sk "x").
Proof.
  intros sk. set (swap := λ s : string, if bool_decide (s = "x") then "t" else if bool_decide (s = "t") then "x" else s).
  assert (Hi : Inj (=) (=) swap).
  { intros a b. unfold swap. repeat case_bool_decide; congruence. }
  change (sk "t") with (rename_texts swap (sk "x")). apply (@shape_hash_ignores_aliases sample_floats sample_digest swap Hi).
  intros s Hs Hor. unfold swap. case_bool_decide as Hx; [|case_bool_decide as Ht; [|done]]; subst s; exfalso.
  - destruct Hor as [Hor|Hor]; [apply Hor; vm_compute; left|]. vm_compute in Hor. apply elem_of_cons in Hor as [?|Hor]; [discriminate|]. by apply not_elem_of_nil in Hor.
  - vm_compute in Hs. repeat (apply elem_of_cons in Hs as [?|Hs]; [discriminate|]). by apply not_elem_of_nil in Hs.
Defined.

(** * Where it falls short *)

Definition predicate_on (col : string) (v : json) : json := JObj [("col", JStr col); ("op", JStr "eq"); ("value", v)].
Definition where_dump (preds : list json) : json := JObj [("from", JStr "orders"); ("where", JList preds)].

(** The numbered name of one stem is the plain name of another: two slots of one name, so
    that no draft of the shape is accepted. So it is with stems that differ in case. *)
Theorem slot_names_collide : ∀ preds,
  preds = [predicate_on "o.status" (JInt 1); predicate_on "o.status_2" (JInt 2); predicate_on "p.status" (JInt 3)]
  ∨ preds = [predicate_on "o.Status" (JInt 1); predicate_on "o.status" (JInt 2)] →
  ∃ sk ps, skeletonize_dump (where_dump preds) = Ok (sk, ps)
    ∧ @to_template_draft ascii_casefold (MkShape "h" "main" None sk ps 1 0 0) "t" None = Raise (ValueError "duplicate parameter names").
Proof. intros preds [->| ->]; eexists _, _; split; vm_compute; reflexivity. Qed.

(** The alias of a table still counts where a column is reached through it, and an
    output alias where a slot has its name. *)
Theorem table_alias_mints_shapes :
  let by_table a := JObj [("from", JStr "orders"); ("from_alias", JStr a); ("select", JList [JStr (a +:+ ".id")])] in
  let by_output a := JObj [("select", JList [JObj [("col", JStr "o.total"); ("alias", JStr a)]]); ("where", JList [JObj [("col", JStr "o.status"); ("value", param_slot "status")]])] in
  @shape_text sample_floats (by_table "o") ≠ @shape_text sample_floats (by_table "p")
  ∧ @shape_text sample_floats (by_output "status") ≠ @shape_text sample_floats (by_output "s").
Proof. split; vm_compute; discriminate. Qed.

(** A nested list is given a slot of its scalars' type, which then takes no list of lists. *)
Theorem nested_list_slot_is_unbindable :
  ∃ name p, param_type_of (JList [JList [JInt 1]]) = Ok (PInteger, true)
    ∧ slot_for p (JList [JList [JInt 1]]) ∧ tp_name p = name
    ∧ validate_parameter_value p (JList [JList [JInt 1]]) = Raise (QueryValidationError "must be an integer").
Proof.
  exists "p", (observed_parameter "p" PInteger true None). split_and!; [reflexivity| |reflexivity|reflexivity].
  by exists "p", None, PInteger, true.
Qed.
