(* ===== verification/AccessDiffFacts.v ===== *)
(** What [AccessDiff] promises a reviewer, and the changes it does not see. *)
From Stdlib Require Import Ascii.
From stdpp Require Import pretty sorting.
From S2P Require Export AccessDiff.
Local Open Scope Z_scope.

Lemma sort_by_perm {A K} (k : A → K) R `{!RelDecision R} (l : list A) : sort_by k R l ≡ₚ l.
Proof. apply merge_sort_Permutation. Qed.

Section facts.
Context `{CF : CaseFold} `{SO : SetOrder} `{FT : FloatText}.

(** * Display names *)

Definition folded_in (names : list string) (d : dict string) : Prop :=
  (∀ n, n ∈ names → casefold n ∈ dict_keys d) ∧ ∀ k v, (k, v) ∈ d → casefold v = k ∧ v ∈ names.

Lemma setdefault_folds name names d : folded_in names d → folded_in (names ++ [name]) (dict_setdefault (casefold name) name d).
Proof.
  intros [Hk Hv]. unfold dict_setdefault. destruct (dict_get (casefold name) d) as [v|] eqn:E; split.
  - intros n [Hn| ->%list_elem_of_singleton]%elem_of_app; [by apply Hk|]. apply dict_get_Some in E. by apply (list_elem_of_fmap_2 fst) in E.
  - intros k w Hw. destruct (Hv k w Hw). split; [done|]. apply elem_of_app. by left.
  - intros n Hn. apply dict_keys_set. apply elem_of_app in Hn as [Hn| ->%list_elem_of_singleton]; [right; by apply Hk|by left].
  - intros k w [[= -> ->]|Hw]%dict_set_in; [split; [done|]; apply elem_of_app; right; left|].
    destruct (Hv k w Hw). split; [done|]. apply elem_of_app. by left.
Qed.

Definition folds (l : list string) : dict string := foldl (λ d name, dict_setdefault (casefold name) name d) [] l.

Lemma folds_names l : folded_in l (folds l).
Proof.
  induction l as [|x l IH] using rev_ind.
  - split; [intros n Hn; by apply not_elem_of_nil in Hn|intros k v Hv; by apply not_elem_of_nil in Hv].
  - unfold folds in *. rewrite foldl_app. by apply setdefault_folds.
Qed.

Lemma dedupe_elem names d : d ∈ _dedupe_casefold names → d ∈ names.
Proof.
  unfold _dedupe_casefold. rewrite elem_of_map. intros ([k v] & -> & He). rewrite sort_on_permutation in He.
  destruct (folds_names (set_order names)) as [_ Hv]. destruct (Hv k v He) as [_ Hin]. cbn. rewrite set_order_perm in Hin.
  by apply elem_of_remove_dups.
Qed.


(** * Silence *)


















(** * Reported grants *)

(** What a loosening within a connection stands for. *)
Definition grant (a c : Policy) (ch : SemanticAccessChange) : Prop :=
  match ac_category ch with
  | TableAccess => ∃ t, ac_object ch = Some t ∧ table_allowed a t = false ∧ table_allowed c t = true
  | ColumnAccess => ∃ t n, ac_object ch = Some (t +:+ "." +:+ n) ∧ table_allowed a t = true ∧ table_allowed c t = true
      ∧ column_allowed a t n = false ∧ column_allowed c t n = true
  | ColumnMasking => ∃ t n, ac_object ch = Some (t +:+ "." +:+ n) ∧ is_Some (column_mask a t n) ∧ column_mask c t n = None
  | MandatoryFilter => ∃ f, f ∈ mandatory_row_filters (gates a) ∧ ac_object ch = filter_object f
      ∧ ∀ g, g ∈ mandatory_row_filters (gates c) → _filter_key g ≠ _filter_key f
  | PurposeAccess => match ac_object ch with
      | None => allowed_purposes (access a) ≠ [] ∧ allowed_purposes (access c) = []
      | Some p => p ∉ allowed_purposes (access a) ∧ p ∈ allowed_purposes (access c)
          ∨ is_Some (dict_get p (purpose_policies (access a))) ∧ dict_get p (purpose_policies (access c)) = None
      end
  | Guardrail => ∃ field, ac_object ch = Some field ∧
      (field = "approval_sensitivities" ∧ (length (approval_sensitivities (gates c)) < length (approval_sensitivities (gates a)))%nat
       ∨ ∃ x y px py, (field, x) ∈ guardrails a ∧ (field, y) ∈ guardrails c
           ∧ _guardrail_perm field x = Ok px ∧ _guardrail_perm field y = Ok py ∧ SFltb px py = true)
  | ConnectionVisibility | JoinGroup => False
  end.

Lemma in_flat_map {A B} (f : A → list B) l y : y ∈ flat_map f l → ∃ x, x ∈ l ∧ y ∈ f x.
Proof. apply elem_of_flat_map. Qed.

Lemma table_grant connection bp before ap after ch : Add ch ∈ (_diff_tables connection bp before ap after).1 → ac_direction ch = Loosening → grant before after ch.
Proof.
  unfold _diff_tables. cbn. intros [H|(t & _ & H)%in_flat_map]%elem_of_app Hl.
  - destruct (Bool.eqb _ _); [by apply not_elem_of_nil in H|]. by apply list_elem_of_singleton in H.
  - unfold diff_table in H. destruct (table_allowed before t) eqn:Eb, (table_allowed after t) eqn:Ea; cbn in H; try (by apply not_elem_of_nil in H);
      apply list_elem_of_singleton in H as [= ->]; [done|]. by exists t.
Qed.

Lemma column_grant connection bp before ap after ch : Add ch ∈ _diff_columns connection (_diff_tables connection bp before ap after).2 before after →
  ac_direction ch = Loosening → grant before after ch.
Proof.
  unfold _diff_columns. intros [(t & Ht & (n & _ & H)%in_flat_map)%in_flat_map|H]%elem_of_app Hl.
  - rewrite sort_on_permutation in Ht. cbn in Ht. apply elem_of_lfilter in Ht as [_ Ht]. apply andb_true_iff in Ht as [Hb Ha]. unfold diff_column in H.
    destruct (column_allowed before t n) eqn:Eb, (column_allowed after t n) eqn:Ea; cbn in H; try (by apply not_elem_of_nil in H);
      apply list_elem_of_singleton in H as [= ->]; [done|]. by exists t, n.
  - destruct (Bool.eqb _ _); [by apply not_elem_of_nil in H|]. by apply list_elem_of_singleton in H.
Qed.

Lemma filter_at_None p key : filter_at p key = None → ∀ g, g ∈ mandatory_row_filters (gates p) → _filter_key g ≠ key.
Proof.
  unfold filter_at. intros H g Hg Hk. apply last_None in H. assert (Hin : g ∈ List.filter (λ f, bool_decide (_filter_key f = key)) (mandatory_row_filters (gates p))).
  { apply elem_of_lfilter. split; [done|]. by apply bool_decide_eq_true. }
  rewrite H in Hin. by apply not_elem_of_nil in Hin.
Qed.

Lemma filter_grant connection before after ch : Add ch ∈ _diff_mandatory_filters connection before after → ac_direction ch = Loosening → grant before after ch.
Proof.
  intros (key & _ & H)%in_flat_map Hl. unfold diff_filter in H.
  destruct (filter_at before key) as [b|] eqn:Eb, (filter_at after key) as [f|] eqn:Ef; [destruct (filter_changed b f)| | |]; try (by apply not_elem_of_nil in H);
    apply list_elem_of_singleton in H as [= ->]; try done.
  unfold filter_at in Eb. apply last_Some_elem_of, elem_of_lfilter in Eb as [Hin Hk]. apply bool_decide_eq_true in Hk. subst key.
  exists b. split_and!; [done|done|]. by apply filter_at_None.
Qed.

Lemma mask_grant connection bp before ap after ch : Add ch ∈ _diff_masks connection bp before ap after → ac_direction ch = Loosening → grant before after ch.
Proof.
  unfold _diff_masks. intros [H|(t & _ & (n & _ & H)%in_flat_map)%in_flat_map]%elem_of_app Hl.
  - destruct (_ || _); [by apply list_elem_of_singleton in H|by apply not_elem_of_nil in H].
  - unfold diff_mask in H. destruct (column_mask before t n) as [b|] eqn:Eb, (column_mask after t n) as [f|] eqn:Ef; [destruct (mask_eq b f)| | |];
      try (by apply not_elem_of_nil in H); apply list_elem_of_singleton in H as [= ->]; try done.
    exists t, n. by rewrite Eb, Ef.
Qed.

Lemma purpose_grant connection before after ch : Add ch ∈ _diff_purposes connection before after → ac_direction ch = Loosening → grant before after ch.
Proof.
  unfold _diff_purposes. intros H Hl. apply elem_of_app in H as [H|H].
  - destruct (allowed_purposes (access before)) as [|x l] eqn:Eb, (allowed_purposes (access after)) as [|y k] eqn:Ea; cbn in H; try (by apply not_elem_of_nil in H);
      apply list_elem_of_singleton in H as [= ->]; [done|]. unfold grant. cbn. by rewrite Eb, Ea.
  - apply elem_of_app in H as [(p & [= ->] & _)%elem_of_map|H]; [done|]. apply elem_of_app in H as [(p & [= ->] & Hp)%elem_of_map|(p & _ & H)%in_flat_map].
    + left. unfold sorted_difference in Hp. rewrite sort_on_permutation in Hp. apply elem_of_remove_dups, elem_of_lfilter in Hp as [Hp Hn].
      split; [|done]. by apply negb_true_iff, bool_decide_eq_false in Hn.
    + unfold diff_delta in H. destruct (dict_get p (purpose_policies (access before))) as [b|] eqn:Eb, (dict_get p (purpose_policies (access after))) as [f|] eqn:Ef;
        [destruct (delta_eq b f)| | |]; try (by apply not_elem_of_nil in H); apply list_elem_of_singleton in H as [= ->]; try done.
      right. by rewrite Eb, Ef.
Qed.

Lemma guardrail_names_agree a c i x y : guardrails a !! i = Some x → guardrails c !! i = Some y → x.1 = y.1.
Proof.
  assert (H : map fst (guardrails a) = map fst (guardrails c)) by reflexivity.
  intros Hx Hy. assert (Hx' := f_equal (fmap fst) Hx). assert (Hy' := f_equal (fmap fst) Hy). rewrite <-!list_lookup_fmap in Hx', Hy'.
  change (fst <$> guardrails a) with (map fst (guardrails a)) in Hx'. rewrite H in Hx'. change (fst <$> guardrails c) with (map fst (guardrails c)) in Hy'. by rewrite Hx' in Hy'; injection Hy' as ->.
Qed.

Lemma guardrail_grant connection before after l ch : _diff_guardrails connection before after = Ok l → Add ch ∈ l → ac_direction ch = Loosening → grant before after ch.
Proof.
  unfold _diff_guardrails. intros H Hin Hl. apply bind_ok in H as (es & Hes & [= <-]). apply elem_of_app in Hin as [(e & He & Hin)%elem_of_concat|Hin].
  - apply (map_result_elem _ _ _ _ Hes) in He as ([x y] & Hxy & Hd). apply list_elem_of_lookup in Hxy as [i Hi].
    assert (Hx : guardrails before !! i = Some x ∧ guardrails after !! i = Some y).
    { clear -Hi. revert i Hi. generalize (guardrails before) (guardrails after). induction l as [|u l IH]; intros [|v k] [|i] Hi; try done; [by injection Hi as -> ->|exact (IH k i Hi)]. }
    destruct Hx as [Hx Hy]. pose proof (guardrail_names_agree _ _ _ _ _ Hx Hy) as Hn. unfold diff_guardrail in Hd.
    destruct (guardrail_eq x.2 y.2); [injection Hd as <-; by apply not_elem_of_nil in Hin|].
    apply bind_ok in Hd as (px & Hpx & Hd). apply bind_ok in Hd as (py & Hpy & [= <-]). apply list_elem_of_singleton in Hin as [= ->]. cbn [ac_direction] in Hl.
    destruct (SFltb px py) eqn:Elt; [|by destruct (SFltb py px)]. exists x.1. split; [done|]. right. exists x.2, y.2, px, py. destruct x, y. cbn in *. subst.
    split_and!; [by eapply list_elem_of_lookup_2|by eapply list_elem_of_lookup_2|done|done|done].
  - unfold diff_approval_sensitivities in Hin. case_bool_decide; [by apply not_elem_of_nil in Hin|]. apply list_elem_of_singleton in Hin as [= ->]. cbn [ac_direction] in Hl.
    exists "approval_sensitivities". split; [done|]. left. split; [done|]. destruct (Nat.ltb_spec (length (approval_sensitivities (gates before))) (length (approval_sensitivities (gates after)))); [done|].
    by destruct (Nat.ltb_spec (length (approval_sensitivities (gates after))) (length (approval_sensitivities (gates before)))).
Qed.

Lemma present_grant connection ap a cp c l ch : diff_present connection ap a cp c = Ok l → Add ch ∈ l → ac_direction ch = Loosening →
  _baseline_visible cp c = true ∧ (if _baseline_visible ap a then grant a c ch else ac_category ch = ConnectionVisibility).
Proof.
  unfold diff_present. intros H Hin Hl. destruct (_baseline_visible ap a) eqn:Va, (_baseline_visible cp c) eqn:Vc; cbn [Bool.eqb andb] in H.
  - split; [done|]. apply bind_ok in H as (g & Hg & H). destruct (_diff_tables connection ap a cp c) as [tables both] eqn:Et. injection H as <-.
    apply elem_of_app in Hin as [Hin|Hin]; [by eapply guardrail_grant|].
    apply elem_of_app in Hin as [Hin|Hin]; [eapply (table_grant connection ap a cp c); [by rewrite Et|done]|].
    apply elem_of_app in Hin as [Hin|Hin]; [eapply (column_grant connection ap a cp c); [by rewrite Et|done]|].
    apply elem_of_app in Hin as [Hin|Hin]; [by eapply filter_grant|].
    apply elem_of_app in Hin as [Hin|Hin]; [by eapply mask_grant|].
    apply elem_of_app in Hin as [Hin|Hin]; [by eapply purpose_grant|].
    unfold _diff_join_group in Hin. destruct (text_eq _ _); [by apply not_elem_of_nil in Hin|]. by apply list_elem_of_singleton in Hin as [= ->].
  - injection H as <-. by apply list_elem_of_singleton in Hin as [= ->].
  - injection H as <-. by apply list_elem_of_singleton in Hin as [= ->].
  - injection H as <-. by apply not_elem_of_nil in Hin.
Qed.

Section contexts.
Context (model_validate : raw_policy → result Policy) (model_dump : Policy → raw_policy).
Notation policy_of := (policy_of model_validate model_dump).
Notation compute := (compute_access_diff model_validate model_dump).
Notation diff_connection := (_diff_connection model_validate model_dump).



(** Every change is filed under the connection compared. *)
Ltac entry_cases :=
  repeat match goal with
  | H : _ ∈ flat_map _ _ |- _ => apply in_flat_map in H as (? & _ & H)
  | H : _ ∈ map _ _ |- _ => apply elem_of_map in H as (? & H & _)
  | H : _ ∈ _ ++ _ |- _ => apply elem_of_app in H as [H|H]
  | H : _ ∈ [] |- _ => exfalso; by apply not_elem_of_nil in H
  | H : _ ∈ [_] |- _ => apply list_elem_of_singleton in H
  | H : Add _ = Add _ |- _ => injection H as ->
  | H : Add _ = Note _ |- _ => discriminate H
  | H : Add _ = purpose_change _ _ _ _ _ _ |- _ => injection H as ->
  | H : Add _ = visibility_change _ _ _ _ _ |- _ => injection H as ->
  | H : Add _ ∈ match ?x with _ => _ end |- _ => destruct x
  end; try done.

Lemma guardrail_connection connection before after l ch : _diff_guardrails connection before after = Ok l → Add ch ∈ l → ac_connection ch = connection.
Proof.
  unfold _diff_guardrails. intros H Hin. apply bind_ok in H as (es & Hes & [= <-]). apply elem_of_app in Hin as [(e & He & Hin)%elem_of_concat|Hin].
  - apply (map_result_elem _ _ _ _ Hes) in He as ([x y] & _ & Hd). unfold diff_guardrail in Hd.
    destruct (guardrail_eq x.2 y.2); [injection Hd as <-; entry_cases|].
    apply bind_ok in Hd as (px & Hpx & Hd). apply bind_ok in Hd as (py & Hpy & [= <-]). entry_cases.
  - unfold diff_approval_sensitivities in Hin. entry_cases.
Qed.

Lemma entry_connection active candidate principal connection l ch : diff_connection active candidate principal connection = Ok l → Add ch ∈ l → ac_connection ch = connection.
Proof.
  unfold _diff_connection. intros H Hin. destruct (dict_get connection (lc_registry active)) as [ap|], (dict_get connection (lc_registry candidate)) as [cp|].
  - apply bind_ok in H as (a & _ & H). apply bind_ok in H as (c & _ & H). unfold diff_present in H. 
    destruct (_baseline_visible ap a && _baseline_visible cp c); [|injection H as <-; entry_cases].
    apply bind_ok in H as (g & Hg & H). unfold _diff_tables in H. injection H as <-. apply elem_of_app in Hin as [Hin|Hin]; [entry_cases|].
    apply elem_of_app in Hin as [Hin|Hin]; [by eapply guardrail_connection|].
    unfold _diff_columns, _diff_mandatory_filters, _diff_masks, _diff_purposes, _diff_join_group, diff_table, diff_column, diff_filter, diff_mask, diff_delta in Hin.
    entry_cases.
  - apply bind_ok in H as (a & _ & [= <-]). entry_cases.
  - apply bind_ok in H as (c & _ & [= <-]). entry_cases.
  - injection H as <-. entry_cases.
Qed.

(** A loosening stands for a grant on a connection the candidate shows its callers. *)
Definition stands_for_grant (active candidate : LoadedConfigContext) (principal : option Principal) (ch : SemanticAccessChange) : Prop :=
  ∃ cp c, dict_get (ac_connection ch) (lc_registry candidate) = Some cp ∧ policy_of candidate (ac_connection ch) principal = Ok c ∧ _baseline_visible cp c = true
  ∧ match dict_get (ac_connection ch) (lc_registry active) with
    | None => ac_category ch = ConnectionVisibility
    | Some ap => ∃ a, policy_of active (ac_connection ch) principal = Ok a ∧ if _baseline_visible ap a then grant a c ch else ac_category ch = ConnectionVisibility
    end.

Lemma compute_entry active candidate principal max_changes d ch : compute active candidate principal max_changes = Ok d → ch ∈ ad_changes d →
  ∃ connection l, diff_connection active candidate principal connection = Ok l ∧ Add ch ∈ l.
Proof.
  intros H Hin. unfold compute_access_diff in H. set (over := match principal with None => _ | _ => _ end) in H.
  apply bind_ok in H as (parts & Hp & [= <-]). cbn [ad_changes] in Hin.
  assert (Hc : ch ∈ sort_by change_key change_le (changes_of (over ++ concat parts))).
  { destruct (_ <? _) in Hin; [|done]. unfold first_of in Hin. apply list_elem_of_lookup in Hin as [i Hi]. apply lookup_take_Some in Hi as [Hi _]. by eapply list_elem_of_lookup_2. }
  rewrite sort_by_perm in Hc. apply list_elem_of_omap in Hc as ([c|r] & Hin' & [= ->]). apply elem_of_app in Hin' as [Hin'|Hin'].
  - subst over. destruct principal; [by apply not_elem_of_nil in Hin'|]. destruct (overrides_eq _ _); [by apply not_elem_of_nil in Hin'|]. by apply list_elem_of_singleton in Hin'.
  - apply elem_of_concat in Hin' as (l & Hl & Hch). apply (map_result_elem _ _ _ _ Hp) in Hl as (connection & _ & Hd). by exists connection, l.
Qed.

(** Whatever a difference reports as a loosening lets callers do what they could not. *)
Theorem reported_grants_are_real active candidate principal max_changes d ch :
  compute active candidate principal max_changes = Ok d → ch ∈ ad_changes d → ac_direction ch = Loosening → stands_for_grant active candidate principal ch.
Proof.
  intros H Hin Hl. destruct (compute_entry _ _ _ _ _ _ H Hin) as (connection & l & Hd & Hch).
  rewrite <-(entry_connection _ _ _ _ _ _ Hd Hch) in Hd. unfold stands_for_grant. unfold _diff_connection in Hd.
  destruct (dict_get _ (lc_registry active)) as [ap|], (dict_get _ (lc_registry candidate)) as [cp|].
  - apply bind_ok in Hd as (a & Ha & Hd). apply bind_ok in Hd as (c & Hc & Hd). destruct (present_grant _ _ _ _ _ _ _ Hd Hch Hl) as [Hv Hg].
    exists cp, c. split_and!; [done|done|done|]. by exists a.
  - apply bind_ok in Hd as (a & Ha & [= <-]). apply list_elem_of_singleton in Hch; injection Hch as Hch. by rewrite Hch in Hl.
  - apply bind_ok in Hd as (c & Hc & [= <-]). apply list_elem_of_singleton in Hch; injection Hch as Hch. rewrite Hch in Hl. cbn in Hl.
    exists cp, c. destruct (_baseline_visible cp c) eqn:Vc; [|done]. split_and!; [done|done|done|by rewrite Hch].
  - injection Hd as <-. by apply not_elem_of_nil in Hch.
Qed.

(** * Shortened lists and pages *)

Lemma sorted_parts {A} (R : A → A → Prop) l n x y : StronglySorted R l → x ∈ take n l → y ∈ drop n l → R x y.
Proof.
  revert n. induction l as [|z l IH]; intros [|n] Hs Hx Hy; cbn in Hx, Hy; try (by apply not_elem_of_nil in Hx).
  apply StronglySorted_inv in Hs as [Hs Hz]. apply elem_of_cons in Hx as [->|Hx]; [|by apply (IH n)].
  rewrite Forall_forall in Hz. apply Hz. rewrite <-(take_drop n l). apply elem_of_app. by right.
Qed.

Lemma changes_sorted active candidate principal max_changes d : compute active candidate principal max_changes = Ok d →
  ad_truncated d = false → StronglySorted (by_key change_key change_le) (ad_changes d).
Proof.
  intros H Ht. unfold compute_access_diff in H. apply bind_ok in H as (parts & Hp & [= <-]). cbn [ad_changes ad_truncated] in Ht |- *. rewrite Ht.
  apply StronglySorted_merge_sort; apply _.
Qed.

(** A list cut at a bound is the front of the whole list, says that it was cut, and
    loses no change to one of a lesser direction: no loosening goes while a tightening
    stays. *)
Theorem truncation_keeps_loosening active candidate principal small large d whole :
  compute active candidate principal large = Ok whole → ad_truncated whole = false → 0 ≤ small →
  compute active candidate principal small = Ok d →
  ad_changes d = first_of small (ad_changes whole)
  ∧ (ad_truncated d = true → TruncatedAt small ∈ ad_incomplete_reasons d)
  ∧ ∀ kept lost, kept ∈ ad_changes d → lost ∈ drop (Z.to_nat small) (ad_changes whole) →
      direction_priority (ac_direction kept) ≤ direction_priority (ac_direction lost).
Proof.
  intros Hw Ht Hs Hd. pose proof (changes_sorted _ _ _ _ _ Hw Ht) as Hsort. unfold compute_access_diff in Hw, Hd.
  apply bind_ok in Hw as (parts & Hp & [= <-]). apply bind_ok in Hd as (parts' & Hp' & [= <-]). rewrite Hp in Hp'. injection Hp' as <-.
  cbn [ad_changes ad_truncated ad_incomplete_reasons] in *. rewrite Ht in Hsort |- *. set (l := sort_by change_key change_le _) in *.
  assert (Hfront : (if small <? Z.of_nat (length l) then first_of small l else l) = first_of small l).
  { destruct (Z.ltb_spec small (Z.of_nat (length l))); [done|]. unfold first_of. by rewrite take_ge by lia. }
  rewrite Hfront. split_and!; [done| |].
  - intros ->. unfold note_reason. case_bool_decide; [done|]. apply elem_of_app. right. left.
  - intros kept lost Hk Hl. pose proof (sorted_parts _ _ _ _ _ Hsort Hk Hl) as Hle. unfold by_key, pair_le, change_key in Hle. cbn [fst snd] in Hle. 
    destruct Hle as [[_ ?]|[-> _]]; lia.
Qed.

(** A principal no configuration names is met by the baseline. *)
Theorem unnamed_principal_is_baseline active candidate who max_changes d :
  subject who ∉ configured_principals active candidate → compute active candidate None max_changes = Ok d →
  ∃ d', compute active candidate (Some who) max_changes = Ok d' ∧ ad_changes d' = ad_changes d ∧ ad_truncated d' = ad_truncated d.
Proof.
  intros Hn H. unfold configured_principals in Hn. rewrite sort_on_permutation, elem_of_remove_dups in Hn.
  assert (Hp : ∀ c connection, c = active ∨ c = candidate → policy_of c connection (Some who) = policy_of c connection None).
  { intros c connection Hc. unfold AccessDiff.policy_of, store_get.
    assert (dict_get (subject who) (ps_principal_overrides (lc_policies c)) = None) as ->; [|done].
    apply dict_get_None. destruct Hc as [->| ->]; set_solver. }
  assert (Hd : ∀ connection, diff_connection active candidate (Some who) connection = diff_connection active candidate None connection).
  { intros connection. unfold _diff_connection. by rewrite !Hp by auto. }
  unfold compute_access_diff in H |- *. apply bind_ok in H as (parts & Hparts & [= <-]).
  assert (map_result (diff_connection active candidate (Some who)) (connection_ids active candidate) = Ok parts) as ->.
  { rewrite <-Hparts. clear -Hd. induction (connection_ids active candidate) as [|c l IH]; [done|]. cbn. by rewrite Hd, IH. }
  cbn [mbind result_bind]. eexists. split; [done|]. cbn [ad_changes ad_truncated].
  assert (∀ over rest, changes_of over = [] → changes_of (over ++ rest) = changes_of rest) as Hover.
  { intros over rest Ho. unfold changes_of in *. by rewrite omap_app, Ho. }
  rewrite !Hover; [done|by destruct (overrides_eq _ _)|done].
Qed.
End contexts.

(** All pages, one after the other from an offset on. *)
Fixpoint all_pages (fuel : nat) (configured : list string) (offset max_principals : Z) : list string :=
  let '(page, next) := page_of configured offset max_principals in
  page ++ match next, fuel with Some offset, S fuel => all_pages fuel configured offset max_principals | _, _ => [] end.

(** Following the offsets from the first page evaluates every configured principal once. *)
Theorem pages_cover_everyone configured max_principals : 1 ≤ max_principals →
  all_pages (length configured) configured 0 max_principals = configured.
Proof.
  intros Hm. assert (H : ∀ fuel offset, 0 ≤ offset → (length configured ≤ Z.to_nat offset + fuel)%nat →
    all_pages fuel configured offset max_principals = drop (Z.to_nat offset) configured).
  { induction fuel as [|fuel IH]; intros offset Ho Hf; cbn [all_pages]; unfold page_of; rewrite Z.max_l by done;
      destruct (Z.ltb_spec (offset + max_principals) (Z.of_nat (length configured))) as [Hlt|Hge].
    - lia.
    - rewrite app_nil_r. unfold first_of. apply take_ge. rewrite length_drop. lia.
    - rewrite IH by lia. unfold first_of. rewrite Z2Nat.inj_add, <-drop_drop by lia. apply take_drop.
    - rewrite app_nil_r. unfold first_of. apply take_ge. rewrite length_drop. lia. }
  rewrite H by (done || cbn; lia). done.
Qed.
End facts.
