(* ===== verification/AccessDiffSample.v ===== *)
(** Two configurations of one connection, compared: the theorems of [AccessDiffFacts]
    applied, and changes that open access and that the comparison passes over. *)
From Stdlib Require Import Ascii.
From S2P Require Export AccessDiffFacts.
Local Open Scope Z_scope.

#[local] Existing Instance ascii_casefold.
#[local] Existing Instance once_each.
#[local] Existing Instance sample_floats.

Definition no_validation (raw : raw_policy) : result Policy := Raise (ValueError "no override").
Definition no_dump (p : Policy) : raw_policy := ∅.

Definition main_profile : ConnectionProfile := MkProfile "main" "postgresql://db/x" POSTGRESQL true None ["users"] None.
Definition context_of (p : Policy) : LoadedConfigContext := MkContext [("main", main_profile)] (MkPolicyStore p [] []).
Definition compare (a c : Policy) : result SemanticAccessDiff := compute_access_diff no_validation no_dump (context_of a) (context_of c) None 500.
Definition silent : SemanticAccessDiff := MkDiff [] [] false.

Definition with_rules (f : PolicyAccess → PolicyAccess) (p : Policy) : Policy :=
  MkPolicy (f (access p)) (write p) (caps p) (windows p) (disclosure p) (execution p) (gates p).
Definition access_rules (allowed denied : list string) (allowed_columns : dict (list string)) (masks : dict (list ColumnMask)) : PolicyAccess → PolicyAccess :=
  λ a, MkAccess (enabled a) allowed denied allowed_columns (denied_columns a) (require_explicit_allowlist a) (allowed_purposes a) (purpose_policies a) masks.
Definition with_gates (sensitivities : list SensitivityClass) (group : option string) (filters : list MandatoryRowFilter) (p : Policy) : Policy :=
  let g := gates p in
  MkPolicy (access p) (write p) (caps p) (windows p) (disclosure p) (execution p)
    (MkGates (max_estimated_rows g) (max_estimated_cost g) (cost_estimation_mode g) (approval_max_estimated_rows g) (approval_max_estimated_cost g)
       sensitivities (log_query_literals g) (verdict_include_plan g) (templates_only g) group filters).

(** * Witnesses *)



Definition opened : SemanticAccessChange := MkChange TableAccess "main" (Some "USERS") ChangeAdded Loosening (Some "denied") (Some "allowed").

Lemma reported_grants_are_real_witness :
  let a := with_rules (access_rules [] ["USERS"] [] []) default_policy in
  compare a default_policy = Ok (MkDiff [opened] [] false)
  ∧ stands_for_grant no_validation no_dump (context_of a) (context_of default_policy) None opened.
Proof.
  intros a. assert (H : compare a default_policy = Ok (MkDiff [opened] [] false)) by (vm_compute; reflexivity). split; [exact H|].
  apply (@reported_grants_are_real ascii_casefold once_each sample_floats no_validation no_dump (context_of a) (context_of default_policy) None 500 (MkDiff [opened] [] false) opened H); [left|reflexivity].
Defined.

Lemma truncation_keeps_loosening_witness :
  let a := with_rules (access_rules [] ["users"] [] []) default_policy in
  let c := with_rules (access_rules [] ["orders"] [] []) default_policy in
  let cut := compute_access_diff no_validation no_dump (context_of a) (context_of c) None 1 in
  match compare a c, cut with
  | Ok whole, Ok d => length (ad_changes whole) = 2%nat ∧ ad_changes d = first_of 1 (ad_changes whole) ∧ map ac_direction (ad_changes d) = [Loosening]
  | _, _ => False
  end.
Proof.
  intros a c cut. destruct (compare a c) as [whole|] eqn:Ew; [|vm_compute in Ew; discriminate]. destruct cut as [d|] eqn:Ed; [|vm_compute in Ed; discriminate].
  assert (Ht : ad_truncated whole = false) by (vm_compute in Ew; injection Ew as <-; reflexivity).
  destruct (@truncation_keeps_loosening ascii_casefold once_each sample_floats no_validation no_dump (context_of a) (context_of c) None 1 500 d whole Ew Ht ltac:(lia) Ed) as (Hd & _).
  split; [vm_compute in Ew; injection Ew as <-; reflexivity|]. split; [exact Hd|]. vm_compute in Ed. injection Ed as <-. reflexivity.
Defined.

Lemma unnamed_principal_is_baseline_witness :
  let a := with_rules (access_rules [] ["USERS"] [] []) default_policy in
  ∃ d', compute_access_diff no_validation no_dump (context_of a) (context_of default_policy) (Some (analysis_principal "eve")) 500 = Ok d'
    ∧ ad_changes d' = [opened].
Proof.
  intros a. assert (H : compare a default_policy = Ok (MkDiff [opened] [] false)) by (vm_compute; reflexivity).
  destruct (@unnamed_principal_is_baseline ascii_casefold once_each sample_floats no_validation no_dump (context_of a) (context_of default_policy) (analysis_principal "eve") 500
    (MkDiff [opened] [] false) ltac:(vm_compute; apply not_elem_of_nil) H) as (d' & Hd & Hc & _).
  exists d'. split; [exact Hd|exact Hc].
Defined.

Lemma pages_cover_everyone_witness : all_pages 3 ["a"; "b"; "c"] 0 2 = ["a"; "b"; "c"].
Proof. apply (pages_cover_everyone ["a"; "b"; "c"] 2). lia. Defined.

(** * What the comparison passes over *)

(** A connection whose profile lists no table. *)
Definition unlisted (p : Policy) : LoadedConfigContext :=
  MkContext [("main", MkProfile "main" "postgresql://db/x" POSTGRESQL true None [] None)] (MkPolicyStore p [] []).

(** Dropping the list of a table's columns opens all its other columns; so does
    dropping an empty list for all tables. Nothing is reported, nor any gap. *)
Theorem dropped_column_list_is_silent : ∀ before,
  before = with_rules (access_rules [] [] [("users", ["id"])] []) default_policy
  ∨ before = with_rules (access_rules [] [] [("*", [])] []) default_policy →
  compare before default_policy = Ok silent ∧ column_allowed before "users" "ssn" = false ∧ column_allowed default_policy "users" "ssn" = true.
Proof. intros before [->| ->]; split_and!; vm_compute; reflexivity. Qed.

(** Columns are compared on the tables a configuration names: lifting the denial of
    a column for all tables, where no table is named, is silent too. *)
Theorem wildcard_denial_is_silent :
  let before := with_rules (λ a, MkAccess (enabled a) [] [] [] [("*", ["ssn"])] (require_explicit_allowlist a) (allowed_purposes a)
    (purpose_policies a) (column_masks a)) default_policy in
  let compare_open p q := compute_access_diff no_validation no_dump (unlisted p) (unlisted q) None 500 in
  compare_open before default_policy = Ok silent ∧ compare_open default_policy before = Ok silent
  ∧ column_allowed before "users" "ssn" = false ∧ column_allowed default_policy "users" "ssn" = true.
Proof. cbn zeta. split_and!; vm_compute; reflexivity. Qed.

(** Of two filters on one column only the last counts: removing the other is silent. *)
Theorem shadowed_filter_removal_is_silent :
  let tenant := MkRowFilter "users" "region" JNull (Some "region") in
  let fixed := MkRowFilter "users" "region" (JStr "eu") None in
  compare (with_gates [] None [fixed; tenant] default_policy) (with_gates [] None [tenant] default_policy) = Ok silent.
Proof. vm_compute. reflexivity. Qed.

(** Opening a connection to writes is silent. *)
Theorem write_opening_is_silent :
  let p := default_policy in
  let open := MkPolicy (access p) (MkWritePolicy true ["users"] [OpInsert; OpUpdate; OpDelete] [] 1000000 None 50 10) (caps p) (windows p) (disclosure p) (execution p) (gates p) in
  compare p open = Ok silent ∧ table_writable (write p) "users" = false ∧ table_writable (write open) "users" = true.
Proof. cbn zeta. split_and!; vm_compute; reflexivity. Qed.

(** The comparison reads the join group of the profile; what joins are held against is
    that of the policy, when it has one. *)
Theorem policy_join_group_is_silent :
  let joined := with_gates [] (Some "everything") [] default_policy in
  compare default_policy joined = Ok silent
  ∧ resolved_join_group main_profile default_policy = "main" ∧ resolved_join_group main_profile joined = "everything".
Proof. cbn zeta. split_and!; vm_compute; reflexivity. Qed.

(** Labels that need approval are compared by number: exchanging one for another is
    reported as neutral, though queries of the first no longer need it. *)
Theorem exchanged_label_is_neutral :
  match compare (with_gates [SENS_PII] None [] default_policy) (with_gates [SENS_INTERNAL] None [] default_policy) with
  | Ok d => map ac_direction (ad_changes d) = [Neutral] | Raise _ => False end.
Proof. vm_compute. reflexivity. Qed.
