(* ===== verification/PolicyTemplates.v ===== *)
(** Policy templates ([admin/templates.py]): fixed patches built from typed parameters
    and merged into a draft of the policy document. Shown: the merge leaves everything
    else of the draft alone, and within the section it writes it only restricts, but
    where two table lists have nothing in common; and where a section that was open to
    the defaults hides them. The sentences that explain a patch are left out, and so is
    YAML: reading and writing a document are arguments. *)
From Stdlib Require Import Ascii.
From S2P Require Export PolicyLoader.
Local Open Scope Z_scope.

Definition _CAP_FIELDS : list string := ["max_joins"; "max_where_depth"; "max_limit"; "max_limit_aggregate"; "timeout_seconds"].

(** * Parameters *)

Definition bad_parameter : exn := ConfigValidationError "Template parameter ".

Definition _require_str (params : dict json) (name : string) : result string :=
  match dict_get name params with
  | Some (JStr s) => if str_empty (strip s) then Raise bad_parameter else Ok (strip s)
  | _ => Raise bad_parameter
  end.

Definition stripped_item (v : json) : result string :=
  match v with JStr s => if str_empty (strip s) then Raise bad_parameter else Ok (strip s) | _ => Raise bad_parameter end.
Definition _require_str_list (params : dict json) (name : string) : result (list string) :=
  match dict_get name params with
  | Some (JList (v :: l)) => map_result stripped_item (v :: l)
  | _ => Raise bad_parameter
  end.

Definition _optional_int (params : dict json) (name : string) (dflt : Z) : result Z :=
  match dict_get name params with
  | None => Ok dflt
  | Some (JInt z) => Ok z
  | Some _ => Raise bad_parameter
  end.

(** * Templates *)

(** A patch: the fields it has of a section. A filter is a table, a column, a claim. *)
Record Patch := MkPatch {
  pt_enabled : option bool;
  pt_caps : dict Z;
  pt_allowed_tables : option (list string);
  pt_denied_columns : dict (list string);
  pt_filters : list (string * string * string);
}.

(** The default section, or that of a connection. *)
Inductive PatchScope := DefaultSection | ConnectionSection (id : string).

Definition _build_deny_by_default (params : dict json) : result (PatchScope * Patch) :=
  Ok (DefaultSection, MkPatch (Some false) [] None [] []).

Definition _build_reporting_only (params : dict json) : result (PatchScope * Patch) :=
  _require_str params "connection" ≫= λ connection,
  _require_str_list params "allowed_tables" ≫= λ tables,
  _optional_int params "max_limit" 100 ≫= λ max_limit,
  Ok (ConnectionSection connection,
      MkPatch None [("max_joins", 2); ("max_where_depth", 2); ("max_limit", max_limit); ("max_limit_aggregate", Z.min (max_limit * 10) 1000)]
        (Some tables) [] []).

Definition _build_customer_support (params : dict json) : result (PatchScope * Patch) :=
  _require_str params "connection" ≫= λ connection,
  _require_str_list params "allowed_tables" ≫= λ tables,
  _require_str params "pii_table" ≫= λ pii_table,
  _require_str_list params "pii_columns" ≫= λ pii_columns,
  Ok (ConnectionSection connection, MkPatch None [("max_joins", 2); ("max_limit", 50)] (Some tables) [(pii_table, pii_columns)] []).

Definition _build_tenant_isolated (params : dict json) : result (PatchScope * Patch) :=
  _require_str params "connection" ≫= λ connection,
  _require_str params "table" ≫= λ table,
  _require_str params "tenant_column" ≫= λ tenant_column,
  _require_str params "tenant_claim" ≫= λ tenant_claim,
  Ok (ConnectionSection connection, MkPatch None [] None [] [(table, tenant_column, tenant_claim)]).

Definition _build_bounded_analytics (params : dict json) : result (PatchScope * Patch) :=
  _require_str params "connection" ≫= λ connection,
  _optional_int params "max_joins" 3 ≫= λ max_joins,
  _optional_int params "max_limit_aggregate" 500 ≫= λ max_limit_aggregate,
  _optional_int params "timeout_seconds" 15 ≫= λ timeout_seconds,
  Ok (ConnectionSection connection,
      MkPatch None [("max_joins", max_joins); ("max_limit_aggregate", max_limit_aggregate); ("timeout_seconds", timeout_seconds)] None [] []).

Inductive TemplateParameterType := StringParameter | IntegerParameter (dflt : Z) | StringListParameter.

(** A definition: its id, its parameters (those with a default are optional), its builder. *)
Record _TemplateDef := MkTemplateDef {
  td_id : string;
  td_parameters : list (string * TemplateParameterType);
  td_build : dict json → result (PatchScope * Patch);
}.
Definition _TEMPLATES : list _TemplateDef :=
  [MkTemplateDef "deny-by-default" [] _build_deny_by_default;
   MkTemplateDef "reporting-only" [("connection", StringParameter); ("allowed_tables", StringListParameter); ("max_limit", IntegerParameter 100)]
     _build_reporting_only;
   MkTemplateDef "customer-support"
     [("connection", StringParameter); ("allowed_tables", StringListParameter); ("pii_table", StringParameter); ("pii_columns", StringListParameter)]
     _build_customer_support;
   MkTemplateDef "tenant-isolated"
     [("connection", StringParameter); ("table", StringParameter); ("tenant_column", StringParameter); ("tenant_claim", StringParameter)]
     _build_tenant_isolated;
   MkTemplateDef "bounded-analytics"
     [("connection", StringParameter); ("max_joins", IntegerParameter 3); ("max_limit_aggregate", IntegerParameter 500); ("timeout_seconds", IntegerParameter 15)]
     _build_bounded_analytics].

(** * Merging *)

(** [_mapping]. *)
Definition _mapping (value : option json) : dict json := match value with Some (JObj fields) => fields | _ => [] end.

Section merge.
Context `{CF : CaseFold}.

(** What Python raises on a document of the wrong shape. *)
Definition wrong_shape : exn := BuiltinError "TypeError".

(** [min(current, template)]: the first unless the second is less. *)
Definition min_cap (current : json) (template : Z) : result json :=
  match current with
  | JInt z => Ok (if template <? z then JInt template else current)
  | JBool b => Ok (if template <? Z.b2z b then JInt template else current)
  | JFloat f =>
      match f with
      | S754_nan => Ok current
      | S754_infinity s => Ok (if s then current else JInt template)
      | S754_zero _ => Ok (if template <? 0 then JInt template else current)
      | S754_finite s m e =>
          let n := if s then Z.neg m else Z.pos m in
          Ok (if (if 0 <=? e then template <? n * 2 ^ e else template * 2 ^ (- e) <? n) then JInt template else current)
      end
  | _ => Raise wrong_shape
  end.

Definition merge_cap (patch : Patch) (existing : dict json) (field : string) : result (dict json) :=
  match dict_get field (pt_caps patch) with
  | None => Ok existing
  | Some template =>
      match dict_get field existing with
      | None | Some JNull => Ok (dict_set field (JInt template) existing)
      | Some current => min_cap current template ≫= λ merged, Ok (dict_set field merged existing)
      end
  end.

Definition _merge_cap_fields (patch : Patch) (existing : dict json) : result (dict json) := fold_result (merge_cap patch) _CAP_FIELDS existing.

(** [value or []], where a document should hold a list; anything else that is not
    falsy is malformed, and the document no policy. *)
Definition list_or_empty (v : option json) : result (list json) :=
  match v with
  | None | Some JNull | Some (JBool false) | Some (JInt 0) | Some (JStr EmptyString) | Some (JObj []) => Ok []
  | Some (JList l) => Ok l
  | _ => Raise wrong_shape
  end.
Definition text_item (v : json) : result string := match v with JStr s => Ok s | _ => Raise wrong_shape end.
Definition list_of_texts (l : list string) : json := JList (map JStr l).

Definition _merge_allowed_tables (patch : Patch) (existing : dict json) : result (dict json) :=
  match pt_allowed_tables patch with
  | None => Ok existing
  | Some template =>
      list_or_empty (dict_get "allowed_tables" existing) ≫= λ items,
      map_result text_item items ≫= λ current,
      let merged := if is_nil current then template
                    else List.filter (λ t, bool_decide (casefold t ∈ map casefold template)) current in
      Ok (dict_set "allowed_tables" (list_of_texts merged) existing)
  end.

(** [canonical]: of keys with one folding the last. *)
Definition canonical_keys_of (current : dict json) : dict string := foldl (λ d k, dict_set (casefold k) k d) [] (dict_keys current).

Definition is_text (x : string) (v : json) : bool := match v with JStr s => bool_decide (s = x) | _ => false end.
Definition append_missing (l : list json) (x : string) : list json := if existsb (is_text x) l then l else l ++ [JStr x].

Definition merge_denied (state : dict string * dict json) (entry : string * list string) : result (dict string * dict json) :=
  let '(canonical, current) := state in
  let canonical := dict_setdefault (casefold entry.1) entry.1 canonical in
  let key := default entry.1 (dict_get (casefold entry.1) canonical) in
  match dict_get key current with None => Ok [] | Some (JList l) => Ok l | Some _ => Raise wrong_shape end ≫= λ columns,
  Ok (canonical, dict_set key (JList (foldl append_missing columns entry.2)) current).

Definition _merge_denied_columns (patch : Patch) (existing : dict json) : result (dict json) :=
  match pt_denied_columns patch with
  | [] => Ok existing
  | denied =>
      let current := _mapping (dict_get "denied_columns" existing) in
      fold_result merge_denied denied (canonical_keys_of current, current) ≫= λ state,
      Ok (dict_set "denied_columns" (JObj state.2) existing)
  end.

Definition filter_document (f : string * string * string) : json :=
  JObj [("table", JStr f.1.1); ("column", JStr f.1.2); ("from_claim", JStr f.2)].
(** [(f.get("table"), f.get("column"))] of the filters that are dicts. *)
Definition filter_keys_of (current : list json) : list (json * json) :=
  omap (λ f, match f with
             | JObj fields => Some (default JNull (dict_get "table" fields), default JNull (dict_get "column" fields))
             | _ => None
             end) current.

Definition same_texts (key : json * json) (table column : string) : bool :=
  match key with (JStr t, JStr c) => bool_decide (t = table) && bool_decide (c = column) | _ => false end.
Definition append_filter (state : list json * list (json * json)) (f : string * string * string) : list json * list (json * json) :=
  let '(current, keys) := state in
  if existsb (λ k, same_texts k f.1.1 f.1.2) keys then state
  else (current ++ [filter_document f], keys ++ [(JStr f.1.1, JStr f.1.2)]).

Definition _merge_mandatory_row_filters (patch : Patch) (existing : dict json) : result (dict json) :=
  match pt_filters patch with
  | [] => Ok existing
  | filters =>
      list_or_empty (dict_get "mandatory_row_filters" existing) ≫= λ current,
      Ok (dict_set "mandatory_row_filters" (JList (foldl append_filter (current, filter_keys_of current) filters).1) existing)
  end.

Definition merge_enabled (patch : Patch) (section : dict json) : dict json :=
  match pt_enabled patch with Some false => dict_set "enabled" (JBool false) section | _ => section end.

(** A connection's section, patched. *)
Definition merge_section (patch : Patch) (section : dict json) : result (dict json) :=
  _merge_cap_fields patch section ≫= λ s,
  _merge_allowed_tables patch s ≫= λ s,
  _merge_denied_columns patch s ≫= λ s,
  _merge_mandatory_row_filters patch s ≫= λ s,
  Ok (merge_enabled patch s).

Definition apply_patch (scope : PatchScope) (patch : Patch) (document : dict json) : result (dict json) :=
  match scope with
  | DefaultSection => Ok (dict_set "default" (JObj (merge_enabled patch (_mapping (dict_get "default" document)))) document)
  | ConnectionSection id =>
      let connections := map (λ '(k, v), (k, _mapping (Some v))) (_mapping (dict_get "connections" document)) in
      merge_section patch (default [] (dict_get id connections)) ≫= λ section,
      Ok (dict_set "connections" (JObj (map (λ '(k, s), (k, JObj s)) (dict_set id section connections))) document)
  end.

Section yaml.
Context (safe_load : string → result json) (safe_dump : json → string).

Definition render_template (template_id : string) (params : option (dict json)) (policy_yaml : option string) : result string :=
  match List.find (λ t, bool_decide (td_id t = template_id)) _TEMPLATES with
  | None => Raise (ConfigValidationError "Unknown policy template: ")
  | Some template =>
      td_build template (default [] params) ≫= λ '(scope, patch),
      match policy_yaml with
      | Some text => if str_empty (strip text) then Ok [] else safe_load text ≫= λ v, Ok (_mapping (Some v))
      | None => Ok []
      end ≫= λ document,
      apply_patch scope patch document ≫= λ document,
      Ok (safe_dump (JObj document))
  end.
End yaml.
End merge.

(** * What the merge keeps *)

Section facts.
Context `{CF : CaseFold}.

(** How a section reads: its cap, whether a table is open to it, what it denies. *)
Definition section_int (section : dict json) (field : string) : option Z :=
  match dict_get field section with Some (JInt z) => Some z | _ => None end.
Definition section_tables (section : dict json) : list string :=
  match dict_get "allowed_tables" section with Some (JList l) => omap (λ v, match v with JStr s => Some s | _ => None end) l | _ => [] end.
Definition section_opens (section : dict json) (t : string) : Prop :=
  section_tables section = [] ∨ ∃ t', t' ∈ section_tables section ∧ casefold t' = casefold t.
Definition section_denies (section : dict json) (key : string) : list json :=
  match dict_get key (_mapping (dict_get "denied_columns" section)) with Some (JList l) => l | _ => [] end.
Definition section_filters (section : dict json) : list json :=
  match dict_get "mandatory_row_filters" section with Some (JList l) => l | _ => [] end.

Definition section_fields : list string := _CAP_FIELDS ++ ["allowed_tables"; "denied_columns"; "mandatory_row_filters"; "enabled"].

(** No step touches a field that is not its own. *)
Lemma merge_cap_other patch s f s' k : merge_cap patch s f = Ok s' → k ≠ f → dict_get k s' = dict_get k s.
Proof.
  unfold merge_cap. intros H Hk. destruct (dict_get f (pt_caps patch)) as [z|]; [|by injection H as <-].
  destruct (dict_get f s) as [v|]; [destruct v|]; try (apply bind_ok in H as (m & _ & H)); injection H as <-; by rewrite dict_get_set_ne.
Qed.

Lemma caps_other patch s s' k : _merge_cap_fields patch s = Ok s' → k ∉ _CAP_FIELDS → dict_get k s' = dict_get k s.
Proof.
  intros H Hk. unfold _merge_cap_fields in H. eapply (fold_result_inv (λ s', dict_get k s' = dict_get k s)); [|done|exact H].
  intros s1 f s2 Hf H1 Hm. rewrite (merge_cap_other _ _ _ _ k Hm); [done|]. by intros ->.
Qed.

Lemma tables_other patch s s' k : _merge_allowed_tables patch s = Ok s' → k ≠ "allowed_tables" → dict_get k s' = dict_get k s.
Proof.
  unfold _merge_allowed_tables. intros H Hk. destruct (pt_allowed_tables patch); [|by injection H as <-].
  apply bind_ok in H as (items & _ & H). apply bind_ok in H as (current & _ & [= <-]). by rewrite dict_get_set_ne.
Qed.
Lemma denied_other patch s s' k : _merge_denied_columns patch s = Ok s' → k ≠ "denied_columns" → dict_get k s' = dict_get k s.
Proof.
  unfold _merge_denied_columns. intros H Hk. destruct (pt_denied_columns patch); [by injection H as <-|].
  apply bind_ok in H as (st & _ & [= <-]). by rewrite dict_get_set_ne.
Qed.
Lemma filters_other patch s s' k : _merge_mandatory_row_filters patch s = Ok s' → k ≠ "mandatory_row_filters" → dict_get k s' = dict_get k s.
Proof.
  unfold _merge_mandatory_row_filters. intros H Hk. destruct (pt_filters patch); [by injection H as <-|].
  apply bind_ok in H as (st & _ & [= <-]). by rewrite dict_get_set_ne.
Qed.
Lemma enabled_other patch s k : k ≠ "enabled" → dict_get k (merge_enabled patch s) = dict_get k s.
Proof. intros Hk. unfold merge_enabled. destruct (pt_enabled patch) as [[]|]; [done|by rewrite dict_get_set_ne|done]. Qed.

Lemma cap_lowered patch s f s' z : merge_cap patch s f = Ok s' → section_int s f = Some z →
  ∃ z', section_int s' f = Some z' ∧ z' ≤ z ∧ ∀ t, dict_get f (pt_caps patch) = Some t → z' ≤ t.
Proof.
  unfold merge_cap, section_int. intros H Hz. destruct (dict_get f s) as [[]|] eqn:E; try done. injection Hz as ->.
  destruct (dict_get f (pt_caps patch)) as [t|]; [|injection H as <-; rewrite E; exists z; split_and!; done].
  apply bind_ok in H as (m & Hm & [= <-]). rewrite dict_get_set_eq. cbn in Hm. injection Hm as <-.
  destruct (Z.ltb_spec t z); eexists; (split; [done|]); split; try lia; intros ? [= ->]; lia.
Qed.

Lemma caps_lowered patch s s' f z : _merge_cap_fields patch s = Ok s' → section_int s f = Some z →
  ∃ z', section_int s' f = Some z' ∧ z' ≤ z.
Proof.
  unfold _merge_cap_fields. intros H Hz. eapply (fold_result_inv (λ s', ∃ z', section_int s' f = Some z' ∧ z' ≤ z)); [|by exists z|exact H].
  intros s1 g s2 _ (z1 & Hz1 & Hle) Hm. destruct (decide (f = g)) as [<-|Hne].
  - destruct (cap_lowered _ _ _ _ _ Hm Hz1) as (z2 & Hz2 & Hle2 & _). exists z2. split; [done|lia].
  - exists z1. split; [|done]. unfold section_int in *. by rewrite (merge_cap_other _ _ _ _ f Hm).
Qed.

Lemma texts_read l : omap (λ v, match v with JStr s => Some s | _ => None end) (map JStr l) = l.
Proof. induction l as [|x l IH]; cbn; [done|]. by rewrite IH. Qed.
Lemma text_items items l : map_result text_item items = Ok l → omap (λ v, match v with JStr s => Some s | _ => None end) items = l.
Proof.
  rewrite map_result_ok. induction 1 as [|v x items l Hx _ IH]; [done|]. cbn. destruct v; try done. injection Hx as ->. by rewrite IH.
Qed.

Lemma list_or_empty_read section items : list_or_empty (dict_get "allowed_tables" section) = Ok items →
  section_tables section = omap (λ v, match v with JStr s => Some s | _ => None end) items.
Proof.
  unfold list_or_empty, section_tables. destruct (dict_get _ section) as [[|[]|[]|f|[]|l|[]]|]; intros [= <-]; done.
Qed.

(** The tables of a patch that restricts: unless the two lists have nothing in common,
    a table open to the new section was open to the old one and is in the patch. *)
Lemma tables_narrowed patch s s' template t : _merge_allowed_tables patch s = Ok s' → pt_allowed_tables patch = Some template →
  section_tables s' ≠ [] → section_opens s' t → section_opens s t ∧ casefold t ∈ map casefold template.
Proof.
  unfold _merge_allowed_tables. intros H Hp Hne [?|(t' & Ht' & Hc)]; [done|]. rewrite Hp in H. apply bind_ok in H as (items & Hi & H). apply bind_ok in H as (current & Hc' & [= <-]).
  apply list_or_empty_read in Hi. apply text_items in Hc'. unfold section_tables in Ht' at 1. rewrite dict_get_set_eq in Ht'. cbn in Ht'. rewrite texts_read in Ht'.
  destruct current as [|x l]; cbn [is_nil] in Ht'.
  - split; [left; by rewrite Hi, Hc'|]. rewrite <-Hc. apply elem_of_map. by exists t'.
  - apply elem_of_lfilter in Ht' as [Ht' Hin]. apply bool_decide_eq_true in Hin. split; [right; exists t'; by rewrite Hi, Hc'|by rewrite <-Hc].
Qed.

Definition denied_at (current : dict json) (key : string) : list json := match dict_get key current with Some (JList l) => l | _ => [] end.

Lemma append_missing_keeps cs l v : v ∈ l → v ∈ foldl append_missing l cs.
Proof. revert l. induction cs as [|c cs IH]; intros l H; [done|]. apply IH. unfold append_missing. destruct (existsb _ _); [done|]. apply elem_of_app. by left. Qed.
Lemma append_missing_adds cs l c : c ∈ cs → JStr c ∈ foldl append_missing l cs.
Proof.
  revert l. induction cs as [|x cs IH]; intros l H; [by apply not_elem_of_nil in H|]. apply elem_of_cons in H as [->|H]; [|by apply IH].
  cbn. apply append_missing_keeps. unfold append_missing. destruct (existsb (is_text x) l) eqn:E; [|apply elem_of_app; right; left].
  apply existsb_elem in E as (v & Hv & Hx). destruct v; try done. apply bool_decide_eq_true in Hx. by subst.
Qed.

Lemma denied_kept entry st st' key v : merge_denied st entry = Ok st' → v ∈ denied_at st.2 key → v ∈ denied_at st'.2 key.
Proof.
  destruct st as [canonical current]. unfold merge_denied. intros H Hv. apply bind_ok in H as (columns & Hc & [= <-]). cbn in Hv |- *.
  set (k := default _ _) in *. unfold denied_at in *. destruct (decide (key = k)) as [->|Hne]; [|by rewrite dict_get_set_ne].
  rewrite dict_get_set_eq. destruct (dict_get k current) as [[]|]; try done; try (by apply not_elem_of_nil in Hv). injection Hc as ->. by apply append_missing_keeps.
Qed.

(** What was denied stays denied, under the same key. *)
Lemma denied_columns_kept patch s s' key v : _merge_denied_columns patch s = Ok s' → v ∈ section_denies s key → v ∈ section_denies s' key.
Proof.
  unfold _merge_denied_columns. intros H Hv. destruct (pt_denied_columns patch) as [|d ds]; [by injection H as <-|].
  apply bind_ok in H as (st & Hst & [= <-]). unfold section_denies. rewrite dict_get_set_eq.
  change (v ∈ denied_at st.2 key). refine (fold_result_inv (λ st : dict string * dict json, v ∈ denied_at st.2 key) _ _ _ _ _ _ Hst); [|exact Hv].
  intros st1 x st2 _ H1 H2. by eapply denied_kept.
Qed.

Lemma append_filter_prefix fs st : st.1 `prefix_of` (foldl append_filter st fs).1.
Proof.
  revert st. induction fs as [|f fs IH]; intros st; [done|]. cbn. etrans; [|apply IH]. destruct st as [l ks]. unfold append_filter. cbn.
  destruct (existsb _ _); [done|]. by apply prefix_app_r.
Qed.

Lemma filters_kept patch s s' : _merge_mandatory_row_filters patch s = Ok s' → section_filters s `prefix_of` section_filters s'.
Proof.
  unfold _merge_mandatory_row_filters. intros H. destruct (pt_filters patch) as [|f fs]; [by injection H as <-|].
  apply bind_ok in H as (current & Hc & [= <-]). unfold section_filters. rewrite dict_get_set_eq.
  assert (match dict_get "mandatory_row_filters" s with Some (JList l) => l | _ => [] end = current) as ->.
  { destruct (dict_get _ s) as [[|[]|[]|?|[]|?|[]]|]; by simplify_eq/=. }
  apply (append_filter_prefix (f :: fs) (current, filter_keys_of current)).
Qed.

(** What a section may still do once patched: no cap is higher, no table opens (unless
    the lists of tables have nothing in common), what is denied and filtered stays so,
    it is not enabled, and its other fields are as they were. *)
Record restricts (s s' : dict json) : Prop := {
  rs_caps f z : section_int s f = Some z → f ∈ _CAP_FIELDS → ∃ z', section_int s' f = Some z' ∧ z' ≤ z;
  rs_tables : section_tables s' ≠ [] → ∀ t, section_opens s' t → section_opens s t;
  rs_denied key v : v ∈ section_denies s key → v ∈ section_denies s' key;
  rs_filters : section_filters s `prefix_of` section_filters s';
  rs_enabled : dict_get "enabled" s' = dict_get "enabled" s ∨ dict_get "enabled" s' = Some (JBool false);
  rs_others k : k ∉ section_fields → dict_get k s' = dict_get k s;
}.

(** A field whose reading only looks at [k] is read alike where [k] is. *)
Lemma denies_same s s' key : dict_get "denied_columns" s' = dict_get "denied_columns" s → section_denies s' key = section_denies s key.
Proof. unfold section_denies. by intros ->. Qed.

Lemma merge_restricts patch s s' : merge_section patch s = Ok s' → restricts s s'.
Proof.
  unfold merge_section. intros H. apply bind_ok in H as (s1 & H1 & H). apply bind_ok in H as (s2 & H2 & H). apply bind_ok in H as (s3 & H3 & H).
  apply bind_ok in H as (s4 & H4 & [= <-]).
  assert (Hcap : ∀ k, k ∉ _CAP_FIELDS → dict_get k s1 = dict_get k s) by (intros k Hk; by apply (caps_other patch)).
  assert (Hlater : ∀ k, k ∉ ["allowed_tables"; "denied_columns"; "mandatory_row_filters"; "enabled"] → dict_get k (merge_enabled patch s4) = dict_get k s1).
  { intros k Hk. rewrite enabled_other by set_solver. rewrite (filters_other _ _ _ _ H4), (denied_other _ _ _ _ H3), (tables_other _ _ _ _ H2) by set_solver. done. }
  assert (Ht : dict_get "allowed_tables" (merge_enabled patch s4) = dict_get "allowed_tables" s2).
  { rewrite enabled_other by done. by rewrite (filters_other _ _ _ _ H4), (denied_other _ _ _ _ H3). }
  assert (Hd : dict_get "denied_columns" (merge_enabled patch s4) = dict_get "denied_columns" s3).
  { rewrite enabled_other by done. by rewrite (filters_other _ _ _ _ H4). }
  assert (Hf : dict_get "mandatory_row_filters" (merge_enabled patch s4) = dict_get "mandatory_row_filters" s4) by (by rewrite enabled_other).
  constructor.
  - intros f z Hz Hfield. destruct (caps_lowered _ _ _ _ _ H1 Hz) as (z' & Hz' & Hle). exists z'. split; [|done]. unfold section_int in *.
    rewrite Hlater; [done|]. unfold _CAP_FIELDS in Hfield. set_solver.
  - unfold section_opens, section_tables. rewrite Ht. intros Hne t Ho.
    assert (Hs : dict_get "allowed_tables" s1 = dict_get "allowed_tables" s) by (apply Hcap; unfold _CAP_FIELDS; set_solver). rewrite <-Hs.
    destruct (pt_allowed_tables patch) as [template|] eqn:Ep.
    + by destruct (tables_narrowed patch s1 s2 template t H2 Ep Hne Ho).
    + unfold _merge_allowed_tables in H2. rewrite Ep in H2. by injection H2 as ->.
  - intros key v Hv. rewrite (denies_same s3) by done. apply (denied_columns_kept patch s2 s3 key v H3).
    rewrite (denies_same s1) by (by apply (tables_other patch)). rewrite (denies_same s) by (apply Hcap; unfold _CAP_FIELDS; set_solver). done.
  - unfold section_filters at 2. rewrite Hf. change (section_filters s `prefix_of` section_filters s4).
    assert (section_filters s = section_filters s3) as ->; [|by apply (filters_kept patch)]. unfold section_filters.
    rewrite (denied_other _ _ _ _ H3), (tables_other _ _ _ _ H2), Hcap by (done || unfold _CAP_FIELDS; set_solver). done.
  - unfold merge_enabled. assert (He : dict_get "enabled" s4 = dict_get "enabled" s).
    { rewrite (filters_other _ _ _ _ H4), (denied_other _ _ _ _ H3), (tables_other _ _ _ _ H2), Hcap by (done || unfold _CAP_FIELDS; set_solver). done. }
    destruct (pt_enabled patch) as [[]|]; [by left|right; apply dict_get_set_eq|by left].
  - intros k Hk. unfold section_fields in Hk. rewrite Hlater by set_solver. apply Hcap. set_solver.
Qed.

Lemma mapping_get (l : dict json) k : dict_get k (map (λ '(k, v), (k, _mapping (Some v))) l) = (λ v, _mapping (Some v)) <$> dict_get k l.
Proof. induction l as [|[j v] l IH]; [done|]. cbn. case_bool_decide; [done|exact IH]. Qed.
Lemma objects_get (l : dict (dict json)) k : dict_get k (map (λ '(k, s), (k, JObj s)) l) = JObj <$> dict_get k l.
Proof. induction l as [|[j v] l IH]; [done|]. cbn. case_bool_decide; [done|exact IH]. Qed.

(** The section of a connection in a document. *)
Definition section_of (document : dict json) (id : string) : dict json := _mapping (dict_get id (_mapping (dict_get "connections" document))).

(** C34. A template for a connection restricts that connection's section and leaves those of
    the others, and the rest of the document, as they are. *)
Theorem template_only_restricts id patch document document' : apply_patch (ConnectionSection id) patch document = Ok document' →
  restricts (section_of document id) (section_of document' id)
  ∧ (∀ other, other ≠ id → section_of document' other = section_of document other)
  ∧ ∀ k, k ≠ "connections" → dict_get k document' = dict_get k document.
Proof.
  unfold apply_patch. intros H. apply bind_ok in H as (s & Hs & [= <-]). unfold section_of. rewrite dict_get_set_eq. cbn [_mapping]. split_and!.
  - rewrite objects_get, dict_get_set_eq. cbn [fmap option_fmap option_map _mapping]. apply (merge_restricts patch). rewrite <-Hs. f_equal.
    rewrite mapping_get. destruct (dict_get id (_mapping (dict_get "connections" document))); reflexivity.
  - intros other Hne. rewrite objects_get, dict_get_set_ne, mapping_get by done. by destruct (dict_get other _).
  - intros k Hk. by rewrite dict_get_set_ne.
Qed.
End facts.

(** * Samples *)

#[local] Existing Instance ascii_casefold.

Definition texts (l : list string) : json := JList (map JStr l).
Definition desk_document : dict json :=
  [("connections", JObj [("desk", JObj [("max_joins", JInt 1); ("allowed_tables", texts ["Orders"; "users"])]); ("other", JObj [])])].
Definition support_params : dict json :=
  [("connection", JStr "desk"); ("allowed_tables", texts ["orders"]); ("pii_table", JStr "orders"); ("pii_columns", texts ["ssn"])].

Lemma template_only_restricts_witness :
  match _build_customer_support support_params with
  | Ok (ConnectionSection id, patch) =>
      match apply_patch (ConnectionSection id) patch desk_document with
      | Ok document => section_int (section_of document "desk") "max_joins" = Some 1 ∧ section_tables (section_of document "desk") = ["Orders"]
          ∧ section_denies (section_of document "desk") "orders" = [JStr "ssn"] ∧ restricts (section_of desk_document id) (section_of document id)
      | Raise _ => False
      end
  | _ => False
  end.
Proof.
  destruct (_build_customer_support support_params) as [[[|id] patch]|] eqn:E; [vm_compute in E; discriminate| |vm_compute in E; discriminate].
  destruct (apply_patch (ConnectionSection id) patch desk_document) as [document|] eqn:Ed;
    [|vm_compute in E; injection E as <- <-; vm_compute in Ed; discriminate].
  pose proof (proj1 (template_only_restricts id patch desk_document document Ed)) as Hr.
  assert (Hx : section_int (section_of document "desk") "max_joins" = Some 1 ∧ section_tables (section_of document "desk") = ["Orders"]
    ∧ section_denies (section_of document "desk") "orders" = [JStr "ssn"]).
  { vm_compute in E. injection E as <- <-. vm_compute in Ed. injection Ed as <-. split_and!; reflexivity. }
  destruct Hx as (H1 & H2 & H3). split; [exact H1|]. split; [exact H2|]. split; [exact H3|exact Hr].
Defined.

(** * Where a template opens what was closed *)

(** Lists of tables with nothing in common leave an empty list, which opens every table. *)
Theorem disjoint_lists_open_everything :
  let document := [("connections", JObj [("desk", JObj [("allowed_tables", texts ["payroll"])])])] in
  let params := [("connection", JStr "desk"); ("allowed_tables", texts ["orders"])] in
  match _build_reporting_only params with
  | Ok (scope, patch) =>
      match apply_patch scope patch document with
      | Ok document' => ¬ section_opens (section_of document "desk") "salaries" ∧ section_opens (section_of document' "desk") "salaries"
      | Raise _ => False
      end
  | Raise _ => False
  end.
Proof.
  vm_compute. split; [|by left]. intros [[=]|(t & Ht & Hc)]. apply list_elem_of_singleton in Ht. subst t. discriminate Hc.
Qed.

(** What the store makes of a connection: its section over the default one. *)
Definition raw_of (section : dict json) : raw_policy := list_to_map section.
Definition effective (document : dict json) (id : string) : raw_policy :=
  dict_merge (raw_of (_mapping (dict_get "default" document))) (raw_of (section_of document id)).

(** A connection that left a field to the default section gets one of its own, which
    takes its place: a lower cap is raised, a filter on every connection is lost. *)
Theorem template_hides_the_default :
  let floor := JObj [("table", JStr "orders"); ("column", JStr "region"); ("value", JStr "eu")] in
  let document := [("default", JObj [("max_limit", JInt 10); ("mandatory_row_filters", JList [floor])])] in
  let after build params := match build params with Ok (scope, patch) => match apply_patch scope patch document with Ok d => d | Raise _ => [] end | Raise _ => [] end in
  let reporting := after _build_reporting_only [("connection", JStr "desk"); ("allowed_tables", texts ["orders"])] in
  let tenant := after _build_tenant_isolated [("connection", JStr "desk"); ("table", JStr "orders"); ("tenant_column", JStr "tenant"); ("tenant_claim", JStr "t")] in
  effective document "desk" !! "max_limit" = Some (JInt 10) ∧ effective reporting "desk" !! "max_limit" = Some (JInt 100)
  ∧ effective document "desk" !! "mandatory_row_filters" = Some (JList [floor])
  ∧ effective tenant "desk" !! "mandatory_row_filters" = Some (JList [filter_document ("orders", "tenant", "t")]).
Proof. cbn zeta. split_and!; vm_compute; reflexivity. Qed.

(** Of two keys that differ in case the patch goes to the last, and a lookup to the first. *)
Theorem casing_twins_swallow_denial :
  let document := [("connections", JObj [("desk", JObj [("denied_columns", JObj [("Users", texts ["a"]); ("users", texts ["b"])])])])] in
  match apply_patch (ConnectionSection "desk") (MkPatch None [] None [("users", ["ssn"])] []) document with
  | Ok document' => map fst (_mapping (dict_get "denied_columns" (section_of document' "desk"))) = ["Users"; "users"]
      ∧ section_denies (section_of document' "desk") "Users" = [JStr "a"] ∧ section_denies (section_of document' "desk") "users" = [JStr "b"; JStr "ssn"]
      ∧ ci_values [("Users", ["a"]); ("users", ["b"; "ssn"])] "users" = ["a"]
  | Raise _ => False
  end.
Proof. vm_compute. split_and!; reflexivity. Qed.
