(* ===== verification/WritePreview.v ===== *)
(** The dry run of a governed write: [execution/write_preview.py], with the
    batch of previews [run_structured_writes] makes ([mcp/tools/write.py]). A
    preview counts the rows in a transaction, may run the statement in it to show
    the difference, and rolls it back. *)
From S2P Require Export WriteExecution Effects.
From S2P Require Import JsonText.
Local Open Scope Z_scope.

(** * The session *)

(** The committed database and the one this transaction sees. *)
Record Session (D : Type) := MkSession { ss_committed : D; ss_working : D }.
Arguments MkSession {D} _ _.
Arguments ss_committed {D} _.
Arguments ss_working {D} _.

(** A row as the driver returns it, by column name. *)
Abbreviation db_row := (dict bound_value).

(** The two reads of a difference, beside the count and the run of [WriteDb]:
    [SELECT ... WHERE ... LIMIT n] and [SELECT ... WHERE pk IN (keys)]. *)
Record PreviewDb (D : Type) := MkPreviewDb {
  pd_write : WriteDb D;
  pd_select : D → SaTable → SaExpr → Z → result (list db_row);
  pd_select_keys : D → SaTable → string → list bound_value → result (list db_row);
}.
Arguments MkPreviewDb {D} _ _ _.
Arguments pd_write {D} _.
Arguments pd_select {D} _ _ _ _ _.
Arguments pd_select_keys {D} _ _ _ _ _.

(** [_MASKED]. *)
Definition MASKED : bound_value := BoundRaw (JStr "***MASKED***").

Record RowDiff := MkRowDiff { rd_before : option db_row; rd_after : option db_row }.

Record WriteDiff := MkWriteDiff { wd_rows : list RowDiff; wd_truncated : bool; wd_row_limit : Z }.

(** [sql] is the text of the statement it names, bind placeholders for values. *)
Record WritePreview := MkWritePreview {
  wv_operation : WriteOperation;
  wv_table : string;
  wv_affected_rows : Z;
  wv_within_affected_cap : bool;
  wv_max_affected_rows : Z;
  wv_sql : sa_dml;
  wv_executed : bool;
  wv_diff : option WriteDiff;
}.

#[export] Instance bound_value_eq_dec : EqDecision bound_value.
Proof. solve_decision. Defined.

Section session.
Context {D : Type}.

Definition session_rollback : eff (Session D) unit :=
  modify (λ s, MkSession (ss_committed s) (ss_committed s)).

(** [session_scope]: a transaction begins; an exception rolls it back, and
    closing the session discards what was not committed. *)
Definition session_scope {A} (body : eff (Session D) A) : eff (Session D) A := λ s,
  let '(s', r) := body (MkSession (ss_committed s) (ss_committed s)) in
  (MkSession (ss_committed s') (ss_committed s'), r).

Definition session_fetch {A} (q : D → result A) : eff (Session D) A :=
  λ s, (s, q (ss_working s)).

Definition session_execute (db : WriteDb D) (dml : sa_dml) : eff (Session D) unit := λ s,
  match db_run db (ss_working s) dml with
  | DbRan d _ => (MkSession (ss_committed s) d, Ok tt)
  | DbConstraint => (s, Raise (BuiltinError "IntegrityError"))
  | DbFailed msg => (s, Raise (DatabaseError msg))
  end.

(** What other transactions commit meanwhile: seen by this one, which has
    written nothing yet. *)
Definition session_meanwhile (others : D → D) : eff (Session D) unit :=
  modify (λ s, MkSession (others (ss_committed s)) (others (ss_working s))).
End session.

(** * The preview *)

(** [r[pk.name]]. *)
Definition row_key (pk : string) (r : db_row) : result bound_value :=
  match dict_get pk r with Some v => Ok v | None => Raise (BuiltinError "KeyError") end.

(** [after_by_key.get(key, {})]: the comprehension keeps the last row of a key. *)
Definition row_by_key (rows : list (bound_value * db_row)) (key : bound_value) : db_row :=
  default [] (snd <$> List.find (λ e, bool_decide (e.1 = key)) (rev rows)).

(** [{**b, **set_values}]. *)
Definition row_overlay (b set_values : db_row) : db_row :=
  foldl (λ r e, dict_set e.1 e.2 r) b set_values.

(** [table.primary_key.columns]. *)
Definition primary_key (table : SaTable) : list string :=
  col_name <$> List.filter col_primary_key (st_columns table).

Section preview.
Context `{CF : CaseFold} `{DA : DialectAdapter} {D : Type}.
Context (env : ExecEnv) (p : Policy) (db : PreviewDb D).

(** [_mask_row]. *)
Definition mask_row (table_name : string) (r : db_row) : db_row :=
  map (λ e, (e.1, if is_some (column_mask p table_name e.1) then MASKED else e.2)) r.

(** [_insert_diff]. *)
Definition insert_diff (rows : list row) (table : SaTable) : WriteDiff :=
  let limit := wp_max_diff_rows (write p) in
  MkWriteDiff
    (map (λ r, MkRowDiff None (Some (mask_row (st_name table) (coerce_row (xe_types env) r table))))
       (take (Z.to_nat limit) rows))
    (limit <? Z.of_nat (length rows)) limit.

(** The two ways [_mutation_diff] finds what an UPDATE leaves of the rows before:
    by running it and reading the rows back by key, or by applying the SET. *)
Definition run_and_read_back (table : SaTable) (dml : sa_dml) (pk : string) (before : list db_row) :
  eff (Session D) (list RowDiff) :=
  lift (map_result (row_key pk) before) ≫= λ keys,
  session_execute (pd_write db) dml ≫= λ _,
  session_fetch (λ d, pd_select_keys db d table pk keys) ≫= λ found,
  lift (map_result (row_key pk) found) ≫= λ found_keys,
  let after_by_key := zip found_keys found in
  mret (zip_with (λ b k,
    MkRowDiff (Some (mask_row (st_name table) b))
      (Some (mask_row (st_name table) (row_by_key after_by_key k)))) before keys).

Definition apply_set (table : SaTable) (set_ : row) (before : list db_row) : list RowDiff :=
  let set_values := coerce_row (xe_types env) set_ table in
  map (λ b, MkRowDiff (Some (mask_row (st_name table) b))
              (Some (mask_row (st_name table) (row_overlay b set_values)))) before.

(** [_mutation_diff]. *)
Definition mutation_diff (s : WriteStatement) (w : WriteWhereNode) (table : SaTable) (dml : sa_dml)
  (within_cap : bool) : eff (Session D) WriteDiff :=
  let limit := wp_max_diff_rows (write p) in
  lift (compile_write_where (write_target_table s) table w) ≫= λ e,
  session_fetch (λ d, pd_select db d table e (limit + 1)) ≫= λ found,
  let truncated := limit <? Z.of_nat (length found) in
  let before := take (Z.to_nat limit) found in
  match s with
  | UpdateStatement _ set_ _ =>
      match primary_key table, within_cap, before with
      | [pk], true, _ :: _ => run_and_read_back table dml pk before
      | _, _, _ => mret (apply_set table set_ before)
      end
  | _ => mret (map (λ r, MkRowDiff (Some (mask_row (st_name table) r)) None) before)
  end ≫= λ rows,
  mret (MkWriteDiff rows truncated limit).

(** The counted branch of [preview]: an UPDATE or a DELETE, in its session. *)
Definition preview_mutation (others : D → D) (s : WriteStatement) (w : WriteWhereNode)
  (table : SaTable) (dml : sa_dml) (include_diff : bool) :
  eff (Session D) (Z * option WriteDiff) :=
  let max_rows := wp_max_affected_rows (write p) in
  lift (compile_write_where (write_target_table s) table w) ≫= λ e,
  session_scope
    (session_fetch (λ d, db_count (pd_write db) d table e) ≫= λ affected,
     session_meanwhile others ≫= λ _,
     (if include_diff
      then mutation_diff s w table dml (affected <=? max_rows) ≫= λ d, mret (Some d)
      else mret None) ≫= λ diff,
     session_rollback ≫= λ _,
     mret (affected, diff)).

(** [WritePreviewService.preview]. *)
Definition preview (others : D → D) (s : WriteStatement) (include_diff : bool) :
  eff (Session D) WritePreview :=
  lift (prepare env p s) ≫= λ '(table, dml),
  let max_rows := wp_max_affected_rows (write p) in
  match s, statement_where s with
  | InsertStatement _ rows, _ =>
      mret (Z.of_nat (length rows), if include_diff then Some (insert_diff rows table) else None)
  | UpsertStatement _ rows _ _, _ => mret (Z.of_nat (length rows), None)
  | _, Some w => preview_mutation others s w table dml include_diff
  | _, None => raise_e (BuiltinError "AttributeError")
  end ≫= λ '(affected, diff),
  mret (MkWritePreview (statement_op s) (st_name table) affected (affected <=? max_rows) max_rows
          dml false diff).

(** The preview mode of [run_structured_writes]. *)
Definition preview_batch (others : D → D) (writes : list WriteStatement) (include_diff : bool) :
  eff (Session D) (list WritePreview) :=
  lift (validate_write_batch_size (length writes) p) ≫= λ _,
  collect_each (λ s, preview others s include_diff ≫= λ v, mret [v]) writes.
End preview.

(** * Properties *)

Lemma lift_bind {S A B} (r : result A) (f : A → eff S B) s :
  (lift r ≫= f) s = match r with Ok a => f a s | Raise e => (s, Raise e) end.
Proof. by destruct r. Qed.

(** ** What a session keeps *)

Section keeps.
Context {D : Type}.

(** Code that leaves the committed database alone. *)
Definition keeps {A} (m : eff (Session D) A) : Prop :=
  ∀ s, ss_committed (m s).1 = ss_committed s.

Lemma keeps_ret {A} (a : A) : keeps (mret a).
Proof. done. Qed.

Lemma keeps_lift {A} (r : result A) : keeps (lift r).
Proof. done. Qed.

Lemma keeps_fetch {A} (q : D → result A) : keeps (session_fetch q).
Proof. done. Qed.

Lemma keeps_rollback : keeps session_rollback.
Proof. done. Qed.

Lemma keeps_execute (db : WriteDb D) dml : keeps (session_execute db dml).
Proof. intros s. unfold session_execute. by destruct (db_run db _ dml). Qed.

Lemma keeps_bind {A B} (m : eff (Session D) A) (f : A → eff (Session D) B) :
  keeps m → (∀ a, keeps (f a)) → keeps (m ≫= f).
Proof.
  intros Hm Hf s. specialize (Hm s). unfold mbind, eff_bind.
  destruct (m s) as [s' [a|e]]; [by rewrite Hf|done].
Qed.
End keeps.

Lemma session_scope_inv {D A} (body : eff (Session D) A) s s' r :
  session_scope body s = (s', r) →
  ∃ s1, body (MkSession (ss_committed s) (ss_committed s)) = (s1, r)
    ∧ ss_committed s' = ss_committed s1.
Proof. unfold session_scope. destruct (body _) as [s1 r1]. intros [= <- <-]. eauto. Qed.

Create HintDb session.
#[export] Hint Resolve keeps_ret keeps_lift keeps_fetch keeps_rollback keeps_execute keeps_bind
  : session.

Section properties.
Context `{CF : CaseFold} `{DA : DialectAdapter} {D : Type}.

Lemma keeps_mutation_diff env p (db : PreviewDb D) s w table dml b :
  keeps (mutation_diff env p db s w table dml b).
Proof.
  unfold mutation_diff. apply keeps_bind; [auto with session|intros e].
  apply keeps_bind; [auto with session|intros found].
  apply keeps_bind; [|auto with session].
  assert (H : ∀ pk rows, keeps (run_and_read_back p db table dml pk rows)).
  { intros pk rows. unfold run_and_read_back. repeat (apply keeps_bind; auto with session; intros ?). }
  destruct s; auto with session.
  repeat case_match; auto with session.
Qed.

(** A preview leaves the committed database as others left it. *)
Lemma preview_keeps env p (db : PreviewDb D) others s b st st' r :
  preview env p db others s b st = (st', r) →
  ss_committed st' = ss_committed st ∨ ss_committed st' = others (ss_committed st).
Proof.
  unfold preview. rewrite lift_bind.
  destruct (prepare env p s) as [[table dml]|e]; [|intros [= <- _]; by left].
  assert (Hm : ∀ w st st' r, preview_mutation env p db others s w table dml b st = (st', r) →
    ss_committed st' = ss_committed st ∨ ss_committed st' = others (ss_committed st)).
  { clear. intros w st st' r. unfold preview_mutation. rewrite lift_bind.
    destruct (compile_write_where _ table w) as [e|e]; [|intros [= <- _]; by left].
    unfold session_scope. cbn [ss_committed]. unfold mbind at 1, eff_bind at 1, session_fetch at 1.
    cbn [ss_working]. destruct (db_count _ _ table e) as [n|e']; [|intros [= <- _]; by left].
    unfold mbind at 1, eff_bind at 1, session_meanwhile at 1, modify at 1. cbn [ss_committed ss_working].
    set (body := (if b then _ else _) ≫= _). set (s0 := MkSession _ _).
    assert (Hk : keeps body).
    { apply keeps_bind; [|auto with session].
      destruct b; [apply keeps_bind; [apply keeps_mutation_diff|auto with session]|auto with session]. }
    specialize (Hk s0). destruct (body s0) as [s1 r1]. cbn in Hk.
    intros [= <- _]. right. exact Hk. }
  unfold mbind, eff_bind. destruct (_ st) as [s1 [[n d]|e]] eqn:E; intros [= <- _];
    (destruct s; cbn [statement_where] in E;
      [injection E as <- _; by left|by eapply Hm|by eapply Hm|injection E as <- _; by left]).
Qed.

(** A batch of previews commits nothing: whatever it returns or raises, and
    with every UPDATE whose difference was asked for really run, the committed
    database is the one the other transactions alone would have left. *)
Theorem previews_commit_nothing env p (db : PreviewDb D) others writes b st :
  ∃ n, (n ≤ length writes)%nat
    ∧ ss_committed (preview_batch env p db others writes b st).1
      = Nat.iter n others (ss_committed st).
Proof.
  unfold preview_batch. rewrite lift_bind.
  destruct (validate_write_batch_size _ p) as [[]|e]; [|by exists 0%nat; split; [lia|]].
  revert st. induction writes as [|s writes IH]; intros st; [by exists 0%nat|].
  cbn [collect_each length]. unfold mbind, eff_bind, mret, eff_ret.
  destruct (preview env p db others s b st) as [st1 [v|e]] eqn:E; apply preview_keeps in E.
  - destruct (IH st1) as (n & Hn & H). unfold mbind, eff_bind, mret, eff_ret in H.
    destruct (collect_each _ writes st1) as [st2 r2].
    assert (H2 : ss_committed st2 = Nat.iter n others (ss_committed st1)) by exact H.
    destruct E as [E|E]; rewrite E in H2.
    + exists n. split; [lia|]. by destruct r2.
    + exists (S n). split; [lia|]. rewrite Nat.iter_succ_r. by destruct r2.
  - destruct E as [E|E]; [exists 0%nat|exists 1%nat]; (split; [lia|exact E]).
Qed.

(** ** What a preview promises of the run *)

(** The preview without a difference, as a pure function of the database. *)
Lemma preview_plain env p (db : PreviewDb D) others s d :
  (preview env p db others s false (MkSession d d)).2
  = (prepare env p s ≫= λ '(table, dml),
     count_affected (pd_write db) d s table ≫= λ affected,
     Ok (MkWritePreview (statement_op s) (st_name table) affected
           (affected <=? wp_max_affected_rows (write p)) (wp_max_affected_rows (write p))
           dml false None)).
Proof.
  unfold preview. rewrite lift_bind.
  destruct (prepare env p s) as [[table dml]|e]; [|done].
  destruct s; cbn [statement_where]; try done;
    unfold preview_mutation, count_affected; cbn [statement_row_count statement_where];
    unfold mbind, eff_bind, lift, result_bind;
    destruct (compile_write_where _ _ _) as [e|e]; try done;
    cbn; unfold session_scope, session_fetch; cbn; by destruct (db_count _ _ table e).
Qed.

(** What a preview with a difference answers beside it is the plain preview. *)
Definition without_diff (v : WritePreview) : WritePreview :=
  MkWritePreview (wv_operation v) (wv_table v) (wv_affected_rows v) (wv_within_affected_cap v)
    (wv_max_affected_rows v) (wv_sql v) (wv_executed v) None.

Lemma preview_beside_diff env p (db : PreviewDb D) others s b st v :
  (preview env p db others s b st).2 = Ok v →
  (preview env p db others s false st).2 = Ok (without_diff v).
Proof.
  unfold preview. rewrite !lift_bind. destruct (prepare env p s) as [[table dml]|e]; [|done].
  assert (Hm : ∀ w n o, (preview_mutation env p db others s w table dml b st).2 = Ok (n, o) →
    (preview_mutation env p db others s w table dml false st).2 = Ok (n, None)).
  { intros w n o. unfold preview_mutation. rewrite !lift_bind.
    destruct (compile_write_where _ table w) as [e|e]; [|done].
    unfold session_scope, session_fetch, session_meanwhile, session_rollback, modify, mbind, eff_bind, mret,
      eff_ret. cbn [ss_working ss_committed].
    destruct (db_count _ _ table e) as [n'|e']; [|done]. cbn.
    destruct b; [|by intros [= -> _]].
    destruct (mutation_diff _ _ _ _ _ _ _ _ _) as [s1 [d|e']]; cbn; [by intros [= -> _]|done]. }
  unfold mbind, eff_bind.
  destruct s; cbn [statement_where]; try (by intros [= <-]);
    destruct (preview_mutation _ _ _ _ _ _ _ _ b st) as [s1 [[n o]|e]] eqn:E; try done;
    intros [= <-];
    specialize (Hm _ n o (f_equal snd E));
    destruct (preview_mutation _ _ _ _ _ _ _ _ false st) as [s2 r2]; cbn in Hm; by rewrite Hm.
Qed.

Lemma plain_preview_predicts `{TP : TokenPrimitives} env p (db : PreviewDb D) others others' s d token :
  let o := execute env p (pd_write db) others' d s token in
  match (preview env p db others s false (MkSession d d)).2 with
  | Raise _ => ∃ e, oc_result o = Raise e
  | Ok v =>
      (wv_within_affected_cap v = false → ∃ e, oc_result o = Raise e)
      ∧ ∀ r, oc_result o = Ok r →
          wv_operation v = wr_operation r ∧ wv_table v = wr_table r
          ∧ ∃ rowcount, db_run (pd_write db) (others' d) (wv_sql v) = DbRan (oc_db o) rowcount
              ∧ wr_affected_rows r = actual_rows s rowcount (wv_affected_rows v)
  end.
Proof.
  cbn zeta. rewrite preview_plain. unfold execute, execute_in_transaction.
  destruct (prepare env p s) as [[table dml]|e]; cbn [mbind result_bind oc_result]; [|eauto].
  destruct (xe_slot env) as [[]|e]; cbn [mbind result_bind].
  2: { destruct (count_affected _ _ _ _); cbn; [|eauto]. split; [eauto|done]. }
  destruct (count_affected (pd_write db) d s table) as [n|e]; cbn [mbind result_bind oc_result];
    [|eauto].
  cbn [wv_within_affected_cap wv_operation wv_table wv_sql wv_affected_rows]. split.
  - intros H%Z.leb_gt. apply Z.ltb_lt in H. rewrite H. cbn. eauto.
  - intros r. destruct (wp_max_affected_rows (write p) <? n); cbn [raise_if mbind result_bind]; [done|].
    destruct (enforce_write_approval_gate _ _ _ _ _) as [[]|]; cbn [mbind result_bind]; [|done].
    destruct (db_run (pd_write db) (others' d) dml) as [d' rowcount| |] eqn:Er; [|done..].
    destruct (wp_max_affected_rows (write p) <? actual_rows s rowcount n);
      cbn [raise_if mbind result_bind oc_result oc_db]; [done|].
    intros [= <-]. cbn. eauto.
Qed.

(** C13. A preview, with its difference or without, promises the run of the same
    write on the same database: if it raises, so does the run, unless only the
    difference asked for could not be had; if it says the write is over the cap,
    the run is refused; and a run that commits is of the table and the statement
    the preview shows, and reports the driver's own count or else the rows the
    preview counted. *)
Theorem preview_predicts_execution `{TP : TokenPrimitives} env p (db : PreviewDb D) others others' s
  (b : bool) d token :
  let o := execute env p (pd_write db) others' d s token in
  match (preview env p db others s b (MkSession d d)).2 with
  | Raise _ => (∃ e, oc_result o = Raise e)
      ∨ (b = true ∧ is_ok (preview env p db others s false (MkSession d d)).2 = true)
  | Ok v =>
      (wv_within_affected_cap v = false → ∃ e, oc_result o = Raise e)
      ∧ ∀ r, oc_result o = Ok r →
          wv_operation v = wr_operation r ∧ wv_table v = wr_table r
          ∧ ∃ rowcount, db_run (pd_write db) (others' d) (wv_sql v) = DbRan (oc_db o) rowcount
              ∧ wr_affected_rows r = actual_rows s rowcount (wv_affected_rows v)
  end.
Proof.
  pose proof (plain_preview_predicts env p db others others' s d token) as H. cbn zeta in H |- *.
  destruct (preview env p db others s b (MkSession d d)).2 as [v|e] eqn:E.
  - apply preview_beside_diff in E. by rewrite E in H.
  - destruct b; [|rewrite E in H; by left].
    destruct (preview env p db others s false (MkSession d d)).2; [by right|by left].
Qed.

(** ** What a difference shows *)

Lemma mask_row_hides p table_name r k c :
  (k, c) ∈ mask_row p table_name r → is_Some (column_mask p table_name k) → c = MASKED.
Proof.
  unfold mask_row. intros ([k' c'] & [= -> ->] & _)%list_elem_of_fmap [m ->]. done.
Qed.

(** A row of a difference: both sides went through the masks. *)
Definition row_diff_masked (p : Policy) (table_name : string) (rd : RowDiff) : Prop :=
  ∀ r, rd_before rd = Some r ∨ rd_after rd = Some r → ∃ raw, r = mask_row p table_name raw.

Definition diff_ok (p : Policy) (table_name : string) (w : WriteDiff) : Prop :=
  wd_row_limit w = wp_max_diff_rows (write p)
  ∧ (length (wd_rows w) ≤ Z.to_nat (wp_max_diff_rows (write p)))%nat
  ∧ Forall (row_diff_masked p table_name) (wd_rows w).

Lemma masked_both p t b a :
  row_diff_masked p t (MkRowDiff (Some (mask_row p t b)) (Some (mask_row p t a))).
Proof. intros r [[= <-]|[= <-]]; eauto. Qed.

Lemma insert_diff_ok env p rows table : diff_ok p (st_name table) (insert_diff env p rows table).
Proof.
  unfold insert_diff, diff_ok. cbn. split; [done|]. rewrite length_map, length_take. split; [lia|].
  apply Forall_map, Forall_forall. intros r _ r' [[=]|[= <-]]. eauto.
Qed.

Lemma run_and_read_back_ok p (db : PreviewDb D) table dml pk before st st' rows :
  run_and_read_back p db table dml pk before st = (st', Ok rows) →
  length rows = length before ∧ Forall (row_diff_masked p (st_name table)) rows.
Proof.
  unfold run_and_read_back. rewrite eff_bind_ok. intros (s1 & keys & [= <- Hk] & H).
  rewrite eff_bind_ok in H. destruct H as (s2 & [] & _ & H).
  rewrite eff_bind_ok in H. destruct H as (s3 & found & _ & H).
  rewrite eff_bind_ok in H. destruct H as (s4 & fk & _ & [= _ <-]).
  apply map_result_ok, Forall2_length in Hk. split; [rewrite length_zip_with; lia|].
  apply Forall_zip_with_fst with (P := λ _, True); [by apply Forall_true|].
  apply Forall_true. intros k b _. apply masked_both.
Qed.

Lemma mutation_diff_ok env p (db : PreviewDb D) s w table dml b st st' wd :
  mutation_diff env p db s w table dml b st = (st', Ok wd) → diff_ok p (st_name table) wd.
Proof.
  unfold mutation_diff. rewrite eff_bind_ok. intros (s1 & e & _ & H).
  rewrite eff_bind_ok in H. destruct H as (s2 & found & _ & H).
  rewrite eff_bind_ok in H. destruct H as (s3 & rows & Hr & [= _ <-]).
  unfold diff_ok. cbn [wd_row_limit wd_rows]. split; [done|].
  set (before := take _ found) in Hr.
  assert (Hb : (length before ≤ Z.to_nat (wp_max_diff_rows (write p)))%nat)
    by (unfold before; rewrite length_take; lia).
  clearbody before.
  assert (Hset : ∀ set_, (length (apply_set env p table set_ before) ≤ Z.to_nat (wp_max_diff_rows (write p)))%nat
    ∧ Forall (row_diff_masked p (st_name table)) (apply_set env p table set_ before)).
  { intros set_. unfold apply_set. rewrite length_map. split; [lia|].
    apply Forall_map, Forall_true. intros r. apply masked_both. }
  assert (Hdel : ∀ f : db_row → RowDiff, (∀ r, row_diff_masked p (st_name table) (f r)) →
    (length (map f before) ≤ Z.to_nat (wp_max_diff_rows (write p)))%nat
    ∧ Forall (row_diff_masked p (st_name table)) (map f before)).
  { intros f Hf. rewrite length_map. split; [lia|]. by apply Forall_map, Forall_true. }
  destruct s as [t r|t set_ w'|t w'|t r cc uc].
  - injection Hr as _ <-. apply Hdel. intros r' r'' [[= <-]|[=]]. eauto.
  - destruct (primary_key table) as [|pk []], b, before as [|b0 before'] eqn:Eb;
      try (injection Hr as _ <-; exact (Hset set_)).
    apply run_and_read_back_ok in Hr as [Hl Hf]. split; [by rewrite Hl|done].
  - injection Hr as _ <-. apply Hdel. intros r' r'' [[= <-]|[=]]. eauto.
  - injection Hr as _ <-. apply Hdel. intros r' r'' [[= <-]|[=]]. eauto.
Qed.

(** A difference is bounded and masked: it has at most [max_diff_rows] rows,
    and on either side of every one of them a column the read policy masks is
    the fixed mark, whichever way the rows were found. *)
Theorem diff_bounded_and_masked env p (db : PreviewDb D) others s b st st' v w :
  preview env p db others s b st = (st', Ok v) → wv_diff v = Some w →
  (length (wd_rows w) ≤ Z.to_nat (wp_max_diff_rows (write p)))%nat
  ∧ wv_executed v = false
  ∧ ∀ rd r k c, rd ∈ wd_rows w → rd_before rd = Some r ∨ rd_after rd = Some r →
      (k, c) ∈ r → is_Some (column_mask p (wv_table v) k) → c = MASKED.
Proof.
  intros H Hw. enough (Hd : diff_ok p (wv_table v) w ∧ wv_executed v = false).
  { destruct Hd as [(_ & Hl & Hf) He]. split_and!; [done..|]. intros rd r k c Hrd Hr Hk Hm.
    rewrite Forall_forall in Hf. destruct (Hf _ Hrd _ Hr) as [raw ->]. by eapply mask_row_hides. }
  unfold preview in H. apply eff_bind_ok in H as (s1 & [table dml] & _ & H).
  apply eff_bind_ok in H as (s2 & [n d] & Hd & [= _ <-]). cbn in Hw |- *. subst d. split; [|done].
  assert (Hm : ∀ w0, preview_mutation env p db others s w0 table dml b s1 = (s2, Ok (n, Some w)) →
    diff_ok p (st_name table) w).
  { intros w0 Hm. unfold preview_mutation in Hm. apply eff_bind_ok in Hm as (s3 & e & _ & Hm).
    apply session_scope_inv in Hm as (s4 & E & _). apply eff_bind_ok in E as (s5 & n5 & _ & E).
    apply eff_bind_ok in E as (s6 & u6 & _ & E). apply eff_bind_ok in E as (s7 & d7 & E & E').
    apply eff_bind_ok in E' as (s8 & u8 & _ & [= _ _ ->]). destruct b; [|done].
    apply eff_bind_ok in E as (s9 & d9 & E & [= _ <-]). by eapply mutation_diff_ok. }
  destruct s; cbn [statement_where] in Hd; [|by eapply Hm|by eapply Hm|].
  - destruct b; cbn in Hd; [injection Hd as _ _ <-; apply insert_diff_ok|done].
  - done.
Qed.
End properties.

(** ** When the statement is run at all *)

Section runs.
Context `{CF : CaseFold} `{DA : DialectAdapter} {D : Type}.
Variables (env : ExecEnv) (p : Policy) (count : D → SaTable → SaExpr → result Z).
Variables (select : D → SaTable → SaExpr → Z → result (list db_row))
  (select_keys : D → SaTable → string → list bound_value → result (list db_row)).

Definition db_running (run : D → sa_dml → db_outcome D) : PreviewDb D :=
  MkPreviewDb (MkWriteDb count run) select select_keys.

Lemma mutation_diff_run_free run run' s w table dml b st :
  (statement_op s = OpUpdate → b = false) →
  mutation_diff env p (db_running run) s w table dml b st
  = mutation_diff env p (db_running run') s w table dml b st.
Proof.
  intros Hb. unfold mutation_diff. destruct s; try done. rewrite (Hb eq_refl).
  by destruct (primary_key table) as [|? []].
Qed.

(** A preview runs the statement only for the difference of an UPDATE within
    the cap: in every other case, and above all over the cap, what it answers is
    the same whatever running the statement would do. *)
Theorem over_cap_never_runs run run' others s b st :
  (∀ table dml w e n, prepare env p s = Ok (table, dml) → statement_where s = Some w →
     compile_write_where (write_target_table s) table w = Ok e →
     count (ss_committed st) table e = Ok n →
     statement_op s = OpUpdate → b = true → wp_max_affected_rows (write p) < n) →
  preview env p (db_running run) others s b st = preview env p (db_running run') others s b st.
Proof.
  intros Hcap. unfold preview. rewrite !lift_bind.
  destruct (prepare env p s) as [[table dml]|e] eqn:Ep; [|done].
  assert (Hm : ∀ w, statement_where s = Some w →
    preview_mutation env p (db_running run) others s w table dml b st
    = preview_mutation env p (db_running run') others s w table dml b st).
  { intros w Hw. unfold preview_mutation. rewrite !lift_bind.
    destruct (compile_write_where _ table w) as [e|e] eqn:Ew; [|done].
    unfold session_scope, session_fetch, mbind, eff_bind. cbn [ss_committed ss_working pd_write db_running db_count].
    destruct (count _ table e) as [n|e'] eqn:Ec; [|done].
    unfold session_meanwhile, modify. destruct b; [|done].
    rewrite (mutation_diff_run_free run run'); [done|]. intros Hop.
    apply Z.leb_gt. by eapply Hcap. }
  unfold mbind, eff_bind. destruct s; cbn [statement_where] in *; try done; by rewrite Hm.
Qed.
End runs.

(** ** The two ways to the rows after *)

(** A reference table: its rows in order, and which of them a condition holds
    of. An UPDATE overlays the rows it selects. *)
Definition has_key (pk : string) (keys : list bound_value) (r : db_row) : bool :=
  match dict_get pk r with Some k => bool_decide (k ∈ keys) | None => false end.

Definition update_rows (matches : db_row → bool) (set_values : db_row) (d : list db_row) : list db_row :=
  map (λ r, if matches r then row_overlay r set_values else r) d.

Definition table_db (matches : SaExpr → db_row → bool) : PreviewDb (list db_row) :=
  MkPreviewDb
    (MkWriteDb (λ d _ e, Ok (Z.of_nat (length (List.filter (matches e) d))))
       (λ d dml,
          match dml with
          | SaInsert _ rows | SaUpsert _ rows _ _ => DbRan (d ++ rows) None
          | SaUpdate _ e values => DbRan (update_rows (matches e) values d) None
          | SaDelete _ e => DbRan (List.filter (λ r, negb (matches e r)) d) None
          end))
    (λ d _ e n, Ok (take (Z.to_nat n) (List.filter (matches e) d)))
    (λ d _ pk keys, Ok (List.filter (has_key pk keys) d)).

(** The key of a row that has one. *)
Definition key_of (pk : string) (r : db_row) : bound_value := default MASKED (dict_get pk r).

Lemma row_keys_ok pk rows :
  Forall (λ r, is_Some (dict_get pk r)) rows →
  map_result (row_key pk) rows = Ok (map (key_of pk) rows).
Proof.
  intros H. apply map_result_ok. induction H as [|r rows [v Hv] _ IH]; cbn; constructor; [|done].
  unfold row_key, key_of. by rewrite Hv.
Qed.

Lemma key_of_inj pk rows a b :
  NoDup (map (key_of pk) rows) → a ∈ rows → b ∈ rows → key_of pk a = key_of pk b → a = b.
Proof.
  intros Hnd [i Hi]%list_elem_of_lookup [j Hj]%list_elem_of_lookup H.
  enough (i = j) as -> by congruence.
  eapply NoDup_lookup; [exact Hnd|..]; rewrite list_lookup_fmap.
  - by rewrite Hi.
  - by rewrite Hj, H.
Qed.

Lemma row_by_key_found pk rows r :
  NoDup (map (key_of pk) rows) → r ∈ rows →
  row_by_key (zip (map (key_of pk) rows) rows) (key_of pk r) = r.
Proof.
  intros Hnd Hr. unfold row_by_key.
  assert (Hz : zip (map (key_of pk) rows) rows = map (λ x, (key_of pk x, x)) rows).
  { clear. induction rows as [|x l IH]; cbn; [done|by rewrite IH]. }
  rewrite Hz. destruct (List.find _ _) as [[k r']|] eqn:E; cbn.
  - apply find_some in E as [Hin Hk%bool_decide_eq_true]. cbn in Hk.
    apply in_rev, in_map_iff in Hin as (x & [= Hx ->] & Hin%list_elem_of_In).
    apply (key_of_inj pk rows); [done..|congruence].
  - exfalso. eapply find_none in E; [|apply in_rev; rewrite rev_involutive;
      apply in_map_iff; exists r; split; [reflexivity|by apply list_elem_of_In]].
    cbn in E. by rewrite bool_decide_eq_false in E.
Qed.

Lemma overlay_other k set_values r :
  k ∉ dict_keys set_values → dict_get k (row_overlay r set_values) = dict_get k r.
Proof.
  unfold row_overlay, dict_keys. revert r. induction set_values as [|[j v] l IH]; intros r; cbn; [done|].
  intros [Hj Hl]%not_elem_of_cons. by rewrite IH, dict_get_set_ne.
Qed.

Section agreement.
Context `{CF : CaseFold} `{DA : DialectAdapter}.
Variables (matches : SaExpr → db_row → bool) (table : SaTable) (e : SaExpr) (set_values : db_row)
  (pk : string) (d0 d : list db_row).
Hypotheses (Hset : pk ∉ dict_keys set_values)
  (Hsome : Forall (λ r, is_Some (dict_get pk r)) d) (Hnd : NoDup (map (key_of pk) d)).

Let updated := update_rows (matches e) set_values d.

Lemma key_of_overlay r : key_of pk (row_overlay r set_values) = key_of pk r.
Proof. unfold key_of. by rewrite overlay_other. Qed.

Lemma updated_keys : map (key_of pk) updated = map (key_of pk) d.
Proof using Hset.
  unfold updated, update_rows. rewrite map_map. apply map_ext. intros r.
  destruct (matches e r); [apply key_of_overlay|done].
Qed.

Lemma updated_some : Forall (λ r, is_Some (dict_get pk r)) updated.
Proof using Hset Hsome.
  unfold updated, update_rows. apply Forall_map. eapply Forall_impl; [exact Hsome|].
  intros r Hr. destruct (matches e r); [by rewrite overlay_other|done].
Qed.

Lemma read_back_table p before :
  (∀ b, b ∈ before → b ∈ d ∧ matches e b = true) →
  (run_and_read_back p (table_db matches) table (SaUpdate table e set_values) pk before
     (MkSession d0 d)).2
  = Ok (map (λ b, MkRowDiff (Some (mask_row p (st_name table) b))
                    (Some (mask_row p (st_name table) (row_overlay b set_values)))) before).
Proof using Hset Hsome Hnd.
  intros Hb. unfold run_and_read_back. rewrite row_keys_ok.
  2: { apply Forall_forall. intros b Hin. apply (proj1 (Forall_forall _ _) Hsome), Hb, Hin. }
  rewrite lift_bind. unfold mbind at 1, eff_bind at 1, session_execute at 1. cbn [db_run pd_write table_db].
  unfold mbind at 1, eff_bind at 1, session_fetch at 1. cbn [ss_working ss_committed pd_select_keys table_db].
  fold updated. set (found := List.filter _ updated).
  assert (Hf : ∀ r, r ∈ found ↔ r ∈ updated ∧ has_key pk (map (key_of pk) before) r = true).
  { intros r. unfold found. rewrite !list_elem_of_In. apply List.filter_In. }
  rewrite row_keys_ok.
  2: { apply Forall_forall. intros r [Hr _]%Hf. by apply (proj1 (Forall_forall _ _) updated_some). }
  rewrite lift_bind. cbn. f_equal.
  assert (Hndf : NoDup (map (key_of pk) found)).
  { unfold found. apply (sublist_NoDup _ (map (key_of pk) updated)); [by rewrite updated_keys|].
    clear. induction updated as [|r l IH]; cbn; [constructor|].
    destruct (has_key pk _ r); cbn; by constructor. }
  clear -Hb Hndf Hf Hset Hsome.
  assert (Hin : ∀ b, b ∈ before → row_overlay b set_values ∈ found).
  { intros b Hbb. destruct (Hb b Hbb) as [Hd Hm]. apply Hf. split.
    - unfold updated, update_rows. apply list_elem_of_fmap. exists b. by rewrite Hm.
    - unfold has_key. rewrite overlay_other by done.
      destruct (proj1 (Forall_forall _ _) Hsome b Hd) as [k Hk]. rewrite Hk.
      apply bool_decide_eq_true, list_elem_of_fmap. exists b. split; [|done].
      unfold key_of. by rewrite Hk. }
  clear Hb Hf. clearbody found. induction before as [|b l IH]; cbn; [done|]. f_equal.
  - do 3 f_equal. rewrite <-key_of_overlay. apply row_by_key_found; [done|]. apply Hin. by left.
  - apply IH. intros b' Hb'. apply Hin. by right.
Qed.
End agreement.

(** For an UPDATE that leaves the primary key alone, on a table whose rows are
    told apart by it, the difference found by running the statement and reading
    the rows back is the one found by applying the SET to the rows before: the
    approximation of an over-cap preview is exact but for what the database adds
    of its own (defaults, triggers, conversions). *)
Theorem update_diffs_agree `{CF : CaseFold} `{DA : DialectAdapter} env p matches t set_ w table pk d0 d e :
  primary_key table = [pk] →
  pk ∉ dict_keys set_ →
  compile_write_where t table w = Ok e →
  Forall (λ r, is_Some (dict_get pk r)) d →
  NoDup (map (key_of pk) d) →
  let s := UpdateStatement t set_ w in
  let dml := SaUpdate table e (coerce_row (xe_types env) set_ table) in
  let diff b := (mutation_diff env p (table_db matches) s w table dml b (MkSession d0 d)).2 in
  is_ok (diff true) = true ∧ diff true = diff false.
Proof.
  intros Hpk Hset He Hsome Hnd s dml diff. subst diff. cbn beta.
  assert (Hkeys : pk ∉ dict_keys (coerce_row (xe_types env) set_ table)).
  { unfold dict_keys, coerce_row. rewrite <-list_fmap_compose. exact Hset. }
  unfold mutation_diff. subst s. cbn [write_target_table]. rewrite !lift_bind, He, Hpk.
  unfold mbind, eff_bind, session_fetch. cbn [ss_working pd_select table_db].
  set (found := take _ (List.filter _ d)). set (before := take _ found).
  assert (Hb : ∀ b, b ∈ before → b ∈ d ∧ matches e b = true).
  { intros b Hb. rewrite list_elem_of_In, <-List.filter_In, <-list_elem_of_In.
    unfold before, found in Hb.
    apply elem_of_take in Hb as (i & Hb%list_elem_of_lookup_2 & _).
    by apply elem_of_take in Hb as (j & Hb%list_elem_of_lookup_2 & _). }
  clearbody before. destruct before as [|b0 before']; [done|].
  pose proof (read_back_table matches table e _ pk d0 d Hkeys Hsome Hnd p _ Hb) as H.
  fold dml in H. destruct (run_and_read_back _ _ _ _ _ _ _) as [st r]. cbn in H. subst r.
  split; reflexivity.
Qed.

(** * Concrete inputs *)

Definition people_table : SaTable :=
  MkSaTable "users"
    [MkSaColumn "id" false false false true (Some PyInt); MkSaColumn "name" false false false false (Some PyStr);
     MkSaColumn "ssn" true false false false (Some PyStr); MkSaColumn "card" true false false false (Some PyStr)] [] [].

Definition person (id : Z) (name : string) : db_row :=
  [("id", BoundRaw (JInt id)); ("name", BoundRaw (JStr name)); ("ssn", BoundRaw (JStr "078-05-1120"));
   ("card", BoundRaw (JStr "4111"))].

Definition people : list db_row := [person 1 "ada"; person 2 "bob"].

Definition people_env : ExecEnv :=
  MkExecEnv "main" None "postgresql" (λ _, Ok people_table) sample_types "" 0%Q (λ _, "") (λ s, s) (Ok tt).

(** [users.id = 1] selects the first row. *)
Definition first_only (_ : SaExpr) (r : db_row) : bool :=
  bool_decide (dict_get "id" r = Some (BoundRaw (JInt 1))).

Definition people_db : PreviewDb (list db_row) := table_db first_only.

Definition rename_one : WriteStatement :=
  UpdateStatement "users" [("name", JStr "eve")] (id_is 1).

Definition preview_people (s : WriteStatement) (b : bool) : eff (Session (list db_row)) WritePreview :=
  @preview ascii_casefold postgres_adapter (list db_row) people_env writable_policy people_db (λ d, d) s b.

Definition rename_diff : WriteDiff :=
  MkWriteDiff
    [MkRowDiff
       (Some [("id", BoundRaw (JInt 1)); ("name", BoundRaw (JStr "ada"));
              ("ssn", BoundRaw (JStr "078-05-1120")); ("card", MASKED)])
       (Some [("id", BoundRaw (JInt 1)); ("name", BoundRaw (JStr "eve"));
              ("ssn", BoundRaw (JStr "078-05-1120")); ("card", MASKED)])] false 50.

Lemma diff_bounded_and_masked_witness :
  ∃ st' v, preview_people rename_one true (MkSession people people) = (st', Ok v)
    ∧ wv_diff v = Some rename_diff ∧ (length (wd_rows rename_diff) ≤ 50)%nat.
Proof.
  destruct (preview_people rename_one true (MkSession people people)) as [st' [v|e]] eqn:E;
    [|vm_compute in E; discriminate].
  exists st', v. split; [reflexivity|].
  assert (Hd : wv_diff v = Some rename_diff) by (vm_compute in E; injection E as _ <-; reflexivity).
  split; [exact Hd|].
  exact (proj1 (@diff_bounded_and_masked ascii_casefold postgres_adapter (list db_row) people_env
    writable_policy people_db (λ d, d) rename_one true _ st' v rename_diff E Hd)).
Defined.

Lemma over_cap_never_runs_witness :
  let crowd_rows := db_running (λ _ _ _, Ok 1000) (λ d _ _ _, Ok d) (λ d _ _ _, Ok d) in
  @preview ascii_casefold postgres_adapter (list db_row) people_env writable_policy
    (crowd_rows (λ _ _, DbConstraint)) (λ d, d) rename_one true (MkSession people people)
  = @preview ascii_casefold postgres_adapter (list db_row) people_env writable_policy
    (crowd_rows (λ _ _, DbRan [] None)) (λ d, d) rename_one true (MkSession people people).
Proof.
  apply (@over_cap_never_runs ascii_casefold postgres_adapter (list db_row) people_env writable_policy).
  intros table dml w e n _ _ _ Hn _ _. injection Hn as <-. vm_compute. reflexivity.
Defined.

Definition id_condition : SaExpr :=
  match @compile_write_where ascii_casefold postgres_adapter "users" people_table (id_is 1) with
  | Ok e => e
  | Raise _ => EAnd []
  end.

Definition rename_diff_of (within_cap : bool) : result WriteDiff :=
  (@mutation_diff ascii_casefold postgres_adapter (list db_row) people_env writable_policy people_db
    rename_one (id_is 1) people_table
    (SaUpdate people_table id_condition (coerce_row sample_types [("name", JStr "eve")] people_table))
    within_cap (MkSession people people)).2.

Lemma update_diffs_agree_witness :
  is_ok (rename_diff_of true) = true ∧ rename_diff_of true = rename_diff_of false.
Proof.
  apply (@update_diffs_agree ascii_casefold postgres_adapter people_env writable_policy first_only "users"
    [("name", JStr "eve")] (id_is 1) people_table "id" people people id_condition);
    [vm_compute; reflexivity| |vm_compute; reflexivity| |];
    apply (bool_decide_unpack _); vm_compute; exact I.
Defined.

(** A difference masks what the policy masks but not what it denies: a caller
    who may not read or filter by [users.ssn], and could not be shown a masked
    [users.card], is shown the [ssn] of every row an accepted DELETE names, and
    deletes nothing. *)
Theorem denied_columns_in_diff :
  @column_allowed ascii_casefold writable_policy "users" "ssn" = false
  ∧ @check_write_ref ascii_casefold writable_policy "users.ssn"
    = Raise (PolicyViolationError "Column is not accessible under the active policy")
  ∧ ∃ v, preview_people delete_one true (MkSession people people) = (MkSession people people, Ok v)
      ∧ wv_diff v = Some (MkWriteDiff
          [MkRowDiff (Some [("id", BoundRaw (JInt 1)); ("name", BoundRaw (JStr "ada"));
             ("ssn", BoundRaw (JStr "078-05-1120")); ("card", MASKED)]) None] false 50).
Proof. split_and!; [vm_compute; reflexivity..|]. eexists. split; vm_compute; reflexivity. Qed.

(** An UPDATE that writes the primary key is read back by the key the rows
    had before: the difference shows a row that becomes nothing, where the
    statement run keeps every other column of it. *)
Theorem key_change_reads_as_empty :
  let s := UpdateStatement "users" [("id", JInt 9)] (id_is 1) in
  (∃ v, (preview_people s true (MkSession people people)).2 = Ok v
     ∧ (rd_after <$> wd_rows (default rename_diff (wv_diff v))) = [Some []])
  ∧ ∀ e, db_run (pd_write people_db) people (SaUpdate people_table e [("id", BoundRaw (JInt 9))])
    = DbRan [person 9 "ada"; person 2 "bob"] None.
Proof. split; [eexists; split; vm_compute; reflexivity|intros e; vm_compute; reflexivity]. Qed.

(** The preview mode of the batch tool has no item errors: one write the
    policy refuses raises for the whole batch, and the previews already made are
    lost. *)
Theorem one_refusal_drops_the_batch :
  let refused := UpdateStatement "users" [("role", JStr "admin")] (id_is 1) in
  let run ws := (@preview_batch ascii_casefold postgres_adapter (list db_row) people_env writable_policy
    people_db (λ d, d) ws false (MkSession people people)).2 in
  (∃ v, run [rename_one] = Ok [v]) ∧ ∃ msg, run [rename_one; refused] = Raise (PolicyViolationError msg).
Proof. split; eexists; vm_compute; reflexivity. Qed.
