(* ===== verification/AsyncExecution.v ===== *)
(** Queries run in the background: [execution/async_execution.py] with the
    routes that poll and cancel them ([api/routes.py]). An execution is a task
    the event loop runs from one suspension to the next; the routes run between
    those slices and read and change its record. *)
From S2P Require Export Connections Scopes.
Local Open Scope Z_scope.

(** * The record *)

(** [AsyncExecutionState]. *)
Inductive AsyncExecutionState :=
| Queued | Running | Completed | Failed | CancelRequested | Cancelled.

#[export] Instance AsyncExecutionState_eq_dec : EqDecision AsyncExecutionState.
Proof. solve_decision. Defined.

(** [AsyncExecutionRecord]; [created_at] is never read, and the task is beside
    the record in a [Job]. *)
Record AsyncExecutionRecord (R : Type) := MkRecord {
  ar_admission_id : string;
  ar_connection_id : string;
  ar_principal_subject : option string;
  ar_state : AsyncExecutionState;
  ar_queue_wait_ms : option Z;
  ar_result : option R;
  ar_error_message : option string;
  ar_error_admission_state : option string;
  ar_session_identifier : option string;
}.
Arguments MkRecord {R} _ _ _ _ _ _ _ _ _.
Arguments ar_admission_id {R} _.
Arguments ar_connection_id {R} _.
Arguments ar_principal_subject {R} _.
Arguments ar_state {R} _.
Arguments ar_queue_wait_ms {R} _.
Arguments ar_result {R} _.
Arguments ar_error_message {R} _.
Arguments ar_error_admission_state {R} _.
Arguments ar_session_identifier {R} _.

(** * The coroutine and its task *)

(** What [StructuredQueryService.execute] does that its surroundings can see: it
    suspends, reports its admission, opens a database session and reports its
    identifier, and gives the session back to the pool. *)
Inductive co_action :=
| CoAwait
| CoAdmitted (queue_wait_ms : Z)
| CoSession (identifier : string)
| CoClosed.

(** A task: not yet run, suspended with what is left of its coroutine, or over. *)
Inductive task (R : Type) :=
| NotStarted (actions : list co_action) (outcome : result R)
| Suspended (actions : list co_action) (outcome : result R)
| Finished.
Arguments NotStarted {R} actions outcome.
Arguments Suspended {R} actions outcome.
Arguments Finished {R}.

(** [jb_must_cancel]: [task.cancel()] was called and the loop has not delivered
    it; [jb_backend]: the database session the execution holds now. *)
Record Job (R : Type) := MkJob {
  jb_record : AsyncExecutionRecord R;
  jb_task : task R;
  jb_must_cancel : bool;
  jb_backend : option string;
}.
Arguments MkJob {R} _ _ _ _.
Arguments jb_record {R} _.
Arguments jb_task {R} _.
Arguments jb_must_cancel {R} _.
Arguments jb_backend {R} _.

Section execution.
Context {R : Type}.
Implicit Types (r : AsyncExecutionRecord R) (j : Job R).

Definition set_state (s : AsyncExecutionState) r : AsyncExecutionRecord R :=
  MkRecord (ar_admission_id r) (ar_connection_id r) (ar_principal_subject r) s (ar_queue_wait_ms r)
    (ar_result r) (ar_error_message r) (ar_error_admission_state r) (ar_session_identifier r).

(** [on_admitted]. *)
Definition on_admitted (queue_wait_ms : Z) r : AsyncExecutionRecord R :=
  MkRecord (ar_admission_id r) (ar_connection_id r) (ar_principal_subject r) Running
    (Some queue_wait_ms) (ar_result r) (ar_error_message r) (ar_error_admission_state r)
    (ar_session_identifier r).

(** [on_session_identifier]. *)
Definition on_session_identifier (identifier : string) r : AsyncExecutionRecord R :=
  MkRecord (ar_admission_id r) (ar_connection_id r) (ar_principal_subject r) (ar_state r)
    (ar_queue_wait_ms r) (ar_result r) (ar_error_message r) (ar_error_admission_state r)
    (Some identifier).

(** [getattr(exc, "admission_state", None)]. *)
Definition admission_state_of (e : exn) : option string :=
  match e with
  | CapacityTimeoutError _ _ => Some "capacity_timeout"
  | QueueFullError _ _ => Some "queue_full"
  | _ => None
  end.

(** The ends of [_run]: the result of the coroutine or its exception; a
    cancellation is [set_state Cancelled]. *)
Definition run_ended (outcome : result R) r : AsyncExecutionRecord R :=
  match outcome with
  | Ok x =>
      MkRecord (ar_admission_id r) (ar_connection_id r) (ar_principal_subject r) Completed
        (ar_queue_wait_ms r) (Some x) (ar_error_message r) (ar_error_admission_state r)
        (ar_session_identifier r)
  | Raise e =>
      MkRecord (ar_admission_id r) (ar_connection_id r) (ar_principal_subject r)
        (if bool_decide (ar_state r = CancelRequested) then Cancelled else Failed)
        (ar_queue_wait_ms r) (ar_result r) (Some (public_error_message e)) (admission_state_of e)
        (ar_session_identifier r)
  end.

(** The actions up to the next suspension; what is left of them if there is
    one. *)
Fixpoint run_actions (actions : list co_action) r (backend : option string) :
  AsyncExecutionRecord R * option string * option (list co_action) :=
  match actions with
  | [] => (r, backend, None)
  | CoAwait :: rest => (r, backend, Some rest)
  | CoAdmitted ms :: rest => run_actions rest (on_admitted ms r) backend
  | CoSession id :: rest => run_actions rest (on_session_identifier id r) (Some id)
  | CoClosed :: rest => run_actions rest r None
  end.

Definition run_task (actions : list co_action) (outcome : result R) j : Job R :=
  match run_actions actions (jb_record j) (jb_backend j) with
  | (r, backend, Some rest) => MkJob r (Suspended rest outcome) (jb_must_cancel j) backend
  | (r, backend, None) => MkJob (run_ended outcome r) Finished (jb_must_cancel j) backend
  end.

(** One turn of the event loop for the task of [_run]. A pending cancellation is
    thrown where the coroutine is suspended, and [_run] catches it; a task that
    has not run is thrown it before its first line, outside [_run]'s [try]. *)
Definition run_slice j : Job R :=
  match jb_task j with
  | NotStarted actions outcome =>
      if jb_must_cancel j then MkJob (jb_record j) Finished true (jb_backend j)
      else run_task actions outcome j
  | Suspended actions outcome =>
      if jb_must_cancel j then MkJob (set_state Cancelled (jb_record j)) Finished true None
      else run_task actions outcome j
  | Finished => j
  end.

(** ** What the service's [execute] gives the task *)

(** How one call goes: the suspensions before admission (quota, queue, slot) and
    whether a slot was had, those before the session and its identifier, those
    with the session, and those after it was closed (the byte quota, the shape
    registry, the release of the slot). *)
Record ExecutionPath := MkPath {
  ep_queue : nat;
  ep_admission : result Z;
  ep_prepare : nat;
  ep_session : result string;
  ep_query : nat;
  ep_after : nat;
  ep_outcome : result R;
}.

Definition co_awaits (n : nat) : list co_action := repeat CoAwait n.

(** [StructuredQueryService.execute], as its hooks see it. *)
Definition service_coroutine (p : ExecutionPath) : list co_action * result R :=
  match ep_admission p with
  | Raise e => (co_awaits (ep_queue p), Raise e)
  | Ok ms =>
      let admitted := co_awaits (ep_queue p) ++ CoAdmitted ms :: co_awaits (ep_prepare p) in
      match ep_session p with
      | Raise e => (admitted, Raise e)
      | Ok id =>
          (admitted ++ CoSession id :: co_awaits (ep_query p) ++ CoClosed :: co_awaits (ep_after p),
           ep_outcome p)
      end
  end.

(** [start_async_execution], with the admission id it drew. *)
Definition start_async_execution (admission_id connection_id : string)
  (principal_subject : option string) (p : ExecutionPath) : Job R :=
  let '(actions, outcome) := service_coroutine p in
  MkJob (MkRecord admission_id connection_id principal_subject Queued None None None None None)
    (NotStarted actions outcome) false None.

(** ** Cancellation *)

(** What [request_cancel] has done when it returns, raises, or reaches its one
    [await], on the session of which it asks the database to cancel the query. *)
Inductive cancel_reply :=
| Answered (state : AsyncExecutionState)
| CancellationNotEnabled
| CancellationNotReady
| CancelSession (identifier : string).

Definition request_cancel j (allow_query_cancellation : bool) : Job R * cancel_reply :=
  match ar_state (jb_record j) with
  | Queued =>
      (MkJob (jb_record j) (jb_task j) (match jb_task j with Finished => jb_must_cancel j | _ => true end)
         (jb_backend j), Answered Queued)
  | Running =>
      if negb allow_query_cancellation then (j, CancellationNotEnabled)
      else match ar_session_identifier (jb_record j) with
           | None => (j, CancellationNotReady)
           | Some id =>
               (MkJob (set_state CancelRequested (jb_record j)) (jb_task j) (jb_must_cancel j)
                  (jb_backend j), CancelSession id)
           end
  | s => (j, Answered s)
  end.

(** The database cancels the statement of a session: the execution that holds it
    gets the driver's error, closes the session and raises. *)
Definition interrupted (identifier : string) j : Job R :=
  match jb_task j with
  | Suspended _ _ =>
      if bool_decide (jb_backend j = Some identifier)
      then MkJob (jb_record j)
             (Suspended [CoClosed; CoAwait] (Raise (DatabaseError "canceling statement due to user request")))
             (jb_must_cancel j) (jb_backend j)
      else j
  | _ => j
  end.
End execution.
Arguments ExecutionPath R : clear implicits.

(** * The store and the routes *)

(** [InProcessAsyncExecutionStore._records], by admission id; [put] replaces. *)
Definition store (R : Type) : Type := dict (Job R).

Inductive http_error :=
| HTTPException (status_code : Z) (detail : string)
| Propagated (e : exn).

(** A route's answer, or how it fails. *)
Inductive http (A : Type) := Answer (a : A) | Refuse (e : http_error).
Arguments Answer {A} a.
Arguments Refuse {A} e.

Definition unknown_admission : http_error := HTTPException 404 "Unknown async query admission".

(** The body of the polling route's answer. *)
Record AsyncQueryStatus (R : Type) := MkStatus {
  qs_admission_id : string;
  qs_state : AsyncExecutionState;
  qs_queue_wait_ms : option Z;
  qs_result : option R;
  qs_error : option string;
  qs_admission_state : option string;
}.
Arguments MkStatus {R} _ _ _ _ _ _.

Section routes.
Context {R : Type} (resolver : ConnectionResolver).
Implicit Types (st : store R) (connection admission_id : string) (p : Principal).

(** The submitter, or a holder of [query:cancel]. *)
Definition may_see (p : Principal) (connection : string) (j : Job R) : bool :=
  bool_decide (ar_connection_id (jb_record j) = connection)
  && (bool_decide (ar_principal_subject (jb_record j) = Some (subject p))
      || bool_decide (QUERY_CANCEL_SCOPE ∈ scopes p)).

(** [_require_connection]. *)
Definition require_connection connection p : http unit :=
  match resolver connection (Some p) with
  | Ok _ => Answer tt
  | Raise (NotFoundError _) => Refuse (HTTPException 404 "Unknown connection")
  | Raise e => Refuse (Propagated e)
  end.

(** [_require_async_record]. *)
Definition require_async_record st connection admission_id p : http (Job R) :=
  match require_connection connection p with
  | Refuse e => Refuse e
  | Answer _ =>
      match dict_get admission_id st with
      | None => Refuse unknown_admission
      | Some j =>
          if negb (bool_decide (ar_connection_id (jb_record j) = connection))
          then Refuse unknown_admission
          else if negb (bool_decide (ar_principal_subject (jb_record j) = Some (subject p)))
                  && negb (bool_decide (QUERY_CANCEL_SCOPE ∈ scopes p))
          then Refuse unknown_admission
          else Answer j
      end
  end.

(** [get_query_status]. *)
Definition get_query_status st connection admission_id p : http (AsyncQueryStatus R) :=
  match require_async_record st connection admission_id p with
  | Refuse e => Refuse e
  | Answer j =>
      let r := jb_record j in
      Answer (MkStatus (ar_admission_id r) (ar_state r) (ar_queue_wait_ms r) (ar_result r)
                (ar_error_message r) (ar_error_admission_state r))
  end.

(** [cancel_query], up to the database: the store it leaves, and the answer or
    the session it then asks the database to cancel. *)
Definition cancel_query st connection admission_id p : store R * http cancel_reply :=
  match require_async_record st connection admission_id p with
  | Refuse e => (st, Refuse e)
  | Answer j =>
      if negb (bool_decide (ar_principal_subject (jb_record j) = Some (subject p)))
         && negb (bool_decide (QUERY_CANCEL_SCOPE ∈ scopes p))
      then (st, Refuse (HTTPException 403 "Missing required scope"))
      else
        match resolver connection (Some p) with
        | Raise e => (st, Refuse (Propagated e))
        | Ok (_, policy) =>
            let '(j', reply) := request_cancel j (allow_query_cancellation (execution policy)) in
            (dict_set admission_id j' st,
             match reply with
             | CancellationNotEnabled => Refuse (HTTPException 403 "query cancellation is not enabled")
             | CancellationNotReady =>
                 Refuse (HTTPException 409 "this query has not yet opened a database session")
             | r => Answer r
             end)
        end
  end.
End routes.

(** * The running system *)

(** The store, the sessions whose cancellation is on its way to the database,
    and, for the theorems only, the executions one was ever sent for. *)
Record System (R : Type) := MkSystem {
  sy_store : store R;
  sy_cancels : list string;
  sy_sent : list string;
}.
Arguments MkSystem {R} _ _ _.
Arguments sy_store {R} _.
Arguments sy_cancels {R} _.
Arguments sy_sent {R} _.

Definition on_every_job {R} (f : Job R → Job R) (st : store R) : store R :=
  map (λ e, (e.1, f e.2)) st.

(** What happens next: a query is submitted (its id is a fresh UUID), the loop
    gives a task a slice, a caller cancels, and a cancellation reaches the
    database, where it finds a statement to cancel or not, or fails. *)
Inductive step {R} (resolver : ConnectionResolver) : System R → System R → Prop :=
| step_start s admission_id connection_id who path :
    admission_id ∉ dict_keys (sy_store s) →
    step resolver s
      (MkSystem (dict_set admission_id (start_async_execution admission_id connection_id who path) (sy_store s))
         (sy_cancels s) (sy_sent s))
| step_slice s admission_id j :
    dict_get admission_id (sy_store s) = Some j →
    step resolver s
      (MkSystem (dict_set admission_id (run_slice j) (sy_store s)) (sy_cancels s) (sy_sent s))
| step_cancel s connection admission_id p st reply :
    cancel_query resolver (sy_store s) connection admission_id p = (st, reply) →
    step resolver s
      (match reply with
       | Answer (CancelSession id) => MkSystem st (id :: sy_cancels s) (admission_id :: sy_sent s)
       | _ => MkSystem st (sy_cancels s) (sy_sent s)
       end)
| step_database s id before after (found : bool) :
    sy_cancels s = before ++ id :: after →
    step resolver s
      (MkSystem (if found then on_every_job (interrupted id) (sy_store s) else sy_store s)
         (before ++ after) (sy_sent s)).

Definition reachable {R} (resolver : ConnectionResolver) : System R → Prop :=
  rtc (step resolver) (MkSystem [] [] []).

(** * Properties *)

Definition is_terminal (s : AsyncExecutionState) : bool :=
  match s with Completed | Failed | Cancelled => true | _ => false end.

(** How far the hooks have been called: not admitted, admitted, with a session. *)
Definition hook_phase {R} (r : AsyncExecutionRecord R) : nat :=
  match ar_queue_wait_ms r, ar_session_identifier r with
  | None, _ => 0
  | Some _, None => 1
  | Some _, Some _ => 2
  end.

(** What is left of a coroutine calls the hooks in order, and returns a value
    only after it had a session. *)
Fixpoint co_ok (ph : nat) (returns : bool) (actions : list co_action) : bool :=
  match actions with
  | [] => negb returns || (ph =? 2)%nat
  | CoAwait :: l | CoClosed :: l => co_ok ph returns l
  | CoAdmitted _ :: l => (ph =? 0)%nat && co_ok 1 returns l
  | CoSession _ :: l => (ph =? 1)%nat && co_ok 2 returns l
  end.

(** The fields that go with each state of a record. *)
Definition record_ok {R} (r : AsyncExecutionRecord R) : Prop :=
  match ar_state r with
  | Queued =>
      ar_queue_wait_ms r = None ∧ ar_session_identifier r = None ∧ ar_result r = None
      ∧ ar_error_message r = None
  | Running => is_Some (ar_queue_wait_ms r) ∧ ar_result r = None ∧ ar_error_message r = None
  | CancelRequested =>
      is_Some (ar_queue_wait_ms r) ∧ is_Some (ar_session_identifier r) ∧ ar_result r = None
      ∧ ar_error_message r = None
  | Completed =>
      is_Some (ar_queue_wait_ms r) ∧ is_Some (ar_session_identifier r) ∧ is_Some (ar_result r)
      ∧ ar_error_message r = None
  | Failed => ar_result r = None ∧ is_Some (ar_error_message r)
  | Cancelled =>
      ar_result r = None
      ∧ (ar_queue_wait_ms r = None ∧ ar_session_identifier r = None ∧ ar_error_message r = None
         ∨ is_Some (ar_queue_wait_ms r) ∧ is_Some (ar_session_identifier r)
           ∧ is_Some (ar_error_message r))
  end.

(** The task that goes with it. *)
Definition task_ok {R} (j : Job R) : Prop :=
  match jb_task j with
  | NotStarted actions o =>
      ar_state (jb_record j) = Queued ∧ co_ok 0 (is_ok o) actions = true ∧ jb_backend j = None
  | Suspended actions o =>
      is_terminal (ar_state (jb_record j)) = false
      ∧ co_ok (hook_phase (jb_record j)) (is_ok o) actions = true
      ∧ (jb_must_cancel j = true → ar_state (jb_record j) = Queued)
  | Finished =>
      is_terminal (ar_state (jb_record j)) = true
      ∨ ar_state (jb_record j) = Queued ∧ jb_must_cancel j = true
  end.

Definition job_ok {R} (j : Job R) : Prop := record_ok (jb_record j) ∧ task_ok j.

Section job.
Context {R : Type}.
Implicit Types (r : AsyncExecutionRecord R) (j : Job R).

(** A record the hooks may be called on, for a coroutine that is at [actions]. *)
Definition live r : Prop :=
  record_ok r ∧ is_terminal (ar_state r) = false.

Lemma live_ended r o : live r → (is_ok o = true → hook_phase r = 2%nat) → 
  record_ok (run_ended o r) ∧ is_terminal (ar_state (run_ended o r)) = true.
Proof.
  unfold live, record_ok, hook_phase. destruct r as [a c w st q res em es sid]. destruct o as [x|e]; cbn.
  - intros [H Ht] Hp. specialize (Hp eq_refl). split; [|done].
    destruct q, sid; try done. destruct st; naive_solver.
  - intros [H Ht] _. destruct st; cbn; naive_solver.
Qed.

Lemma run_actions_ok actions : ∀ r b returns, live r → co_ok (hook_phase r) returns actions = true →
  (ar_state r = Queued → hook_phase r = 0%nat) →
  let '(r', b', rest) := run_actions actions r b in
  live r' ∧ (ar_state r' = Queued → hook_phase r' = 0%nat)
  ∧ match rest with
    | Some l => co_ok (hook_phase r') returns l = true
    | None => returns = true → hook_phase r' = 2%nat
    end.
Proof.
  induction actions as [|[|ms|id|] l IH]; intros r b returns Hl Hc Hq; cbn in *.
  - split_and!; [done..|]. intros ->. cbn in Hc. by apply Nat.eqb_eq in Hc.
  - done.
  - apply andb_true_iff in Hc as [Hp%Nat.eqb_eq Hc]. 
    apply IH; [|unfold hook_phase in *; destruct r as [a c w st q res em es sid]; cbn in *;
                destruct q, sid; try done; destruct st; unfold live, record_ok in Hl; cbn in *; naive_solver|done].
    unfold live, record_ok, hook_phase in *. destruct r as [a c w st q res em es sid]; cbn in *.
    destruct st; naive_solver.
  - apply andb_true_iff in Hc as [Hp%Nat.eqb_eq Hc].
    unfold live, record_ok, hook_phase in *. destruct r as [a c w st q res em es sid]; cbn in *.
    destruct q, sid; try done. destruct st; try naive_solver; apply IH; cbn; naive_solver.
  - by apply IH.
Qed.

Lemma run_task_ok actions o j :
  live (jb_record j) → co_ok (hook_phase (jb_record j)) (is_ok o) actions = true →
  (ar_state (jb_record j) = Queued → hook_phase (jb_record j) = 0%nat) → jb_must_cancel j = false →
  job_ok (run_task actions o j).
Proof.
  intros Hl Hc Hq Hm. unfold run_task.
  pose proof (run_actions_ok actions _ (jb_backend j) _ Hl Hc Hq) as H.
  destruct (run_actions _ _ _) as [[r' b'] [l|]]; destruct H as (Hl' & Hq' & H).
  - split; [apply Hl'|]. cbn. split_and!; [apply Hl'|exact H|by rewrite Hm].
  - destruct (live_ended r' o Hl' H) as [Hr Ht]. split; [exact Hr|]. by left.
Qed.

Lemma queued_phase r : record_ok r → ar_state r = Queued → hook_phase r = 0%nat.
Proof. unfold record_ok, hook_phase. intros H Hq. rewrite Hq in H. by destruct H as [-> _]. Qed.

Lemma run_slice_ok j : job_ok j → job_ok (run_slice j).
Proof.
  intros [Hr Ht]. unfold run_slice. destruct j as [r [actions o|actions o|] m b]; cbn in *.
  - destruct Ht as (Hs & Hc & Hb), m; [by split; [|right]|].
    apply run_task_ok; cbn; try done; [by split; [|rewrite Hs]|by rewrite queued_phase|].
    by apply queued_phase.
  - destruct Ht as (Hs & Hc & Hm), m.
    + specialize (Hm eq_refl). split; [|by left]. unfold record_ok in *. cbn. rewrite Hm in Hr.
      naive_solver.
    + apply run_task_ok; cbn; try done. by apply queued_phase.
  - done.
Qed.

Lemma request_cancel_ok j allow : job_ok j → job_ok (request_cancel j allow).1.
Proof.
  intros [Hr Ht]. unfold request_cancel. destruct (ar_state (jb_record j)) eqn:Es; cbn; try done.
  - split; [done|]. unfold task_ok in *. destruct (jb_task j) eqn:Et; cbn; rewrite ?Et; cbn; [done|..].
    + by split_and!; [apply Ht..|].
    + destruct Ht as [Ht|[_ Ht]]; [by rewrite Es in Ht|by right].
  - destruct allow; cbn; [|done]. destruct (ar_session_identifier (jb_record j)) as [id|] eqn:Ei; [|done].
    cbn. unfold job_ok, record_ok, task_ok in *. cbn. rewrite Es in *. split; [naive_solver|].
    destruct (jb_task j); cbn; [naive_solver| |naive_solver].
    destruct Ht as (_ & Hc & Hm). by split_and!; [|done|intros H%Hm].
Qed.

Lemma interrupted_ok id j : job_ok j → job_ok (interrupted id j).
Proof.
  intros [Hr Ht]. unfold interrupted. destruct j as [r [|actions o|] m b]; cbn in *; try done.
  case_bool_decide; [|done]. destruct Ht as (Hs & Hc & Hm). by repeat split.
Qed.

Lemma co_ok_awaits n ph returns l : co_ok ph returns (co_awaits n ++ l) = co_ok ph returns l.
Proof. induction n; cbn; [done|exact IHn]. Qed.

Lemma co_ok_only_awaits n ph returns : co_ok ph returns (co_awaits n) = co_ok ph returns [].
Proof. rewrite <-(app_nil_r (co_awaits n)). apply co_ok_awaits. Qed.

Lemma start_ok admission_id connection_id who path :
  job_ok (start_async_execution (R := R) admission_id connection_id who path).
Proof.
  unfold start_async_execution, service_coroutine. split; [by destruct (ep_admission path), (ep_session path)|].
  destruct (ep_admission path) as [ms|e].
  - destruct (ep_session path) as [id|e]; unfold task_ok; cbn; (split_and!; [done| |done]).
    + rewrite <-app_assoc, co_ok_awaits. cbn. rewrite co_ok_awaits. cbn.
      rewrite co_ok_awaits. cbn. rewrite co_ok_only_awaits. cbn. by rewrite orb_true_r.
    + rewrite co_ok_awaits. cbn. by rewrite co_ok_only_awaits.
  - unfold task_ok; cbn. split_and!; [done| |done]. by rewrite co_ok_only_awaits.
Qed.
End job.

(** ** One session, one cancellation *)

(** A cancellation was sent for this execution. *)
Definition past_request {R} (r : AsyncExecutionRecord R) : Prop :=
  hook_phase r = 2%nat
  ∧ (ar_state r = CancelRequested ∨ ar_state r = Completed ∨ ar_state r = Cancelled).

Section once.
Context {R : Type}.
Implicit Types (r : AsyncExecutionRecord R) (j : Job R).

Lemma run_actions_past actions : ∀ r b returns,
  hook_phase r = 2%nat → co_ok 2 returns actions = true → (run_actions actions r b).1.1 = r.
Proof.
  induction actions as [|[|ms|id|] l IH]; intros r b returns Hp Hc; cbn in *; try done; eauto.
Qed.

Lemma past_run_slice j : job_ok j → past_request (jb_record j) → past_request (jb_record (run_slice j)).
Proof.
  intros [Hr Ht] [Hp Hs]. unfold run_slice. destruct j as [r [actions o|actions o|] m b]; cbn in *.
  - destruct Ht as (Hq & _). rewrite Hq in Hs. naive_solver.
  - destruct Ht as (Hn & Hc & Hm). destruct m; [rewrite (Hm eq_refl) in Hs; naive_solver|].
    rewrite Hp in Hc. pose proof (run_actions_past actions r b _ Hp Hc) as He.
    unfold run_task. cbn. destruct (run_actions actions r b) as [[r' b'] [l|]]; cbn in He; subst r'; [done|].
    assert (Hst : ar_state r = CancelRequested) by (destruct (ar_state r); naive_solver).
    unfold past_request, hook_phase in *. cbn. destruct o; cbn; [naive_solver|].
    rewrite Hst, bool_decide_true by done. naive_solver.
  - done.
Qed.

Lemma past_request_cancel j allow : past_request (jb_record j) → (request_cancel j allow).1 = j.
Proof. intros [_ Hs]. unfold request_cancel. by destruct Hs as [->|[->| ->]]. Qed.

Lemma interrupted_record id j : jb_record (interrupted id j) = jb_record j.
Proof. unfold interrupted. destruct (jb_task j); try done. by case_bool_decide. Qed.

(** A cancellation is sent only for an execution that was not asked for before,
    and marks it. *)
Lemma request_cancel_sends j allow id :
  (request_cancel j allow).2 = CancelSession id → record_ok (jb_record j) →
  allow = true ∧ ar_state (jb_record j) = Running ∧ ar_session_identifier (jb_record j) = Some id
  ∧ past_request (jb_record (request_cancel j allow).1).
Proof.
  unfold request_cancel, record_ok. destruct (ar_state (jb_record j)) eqn:Es; try done.
  destruct allow; [|done]. destruct (ar_session_identifier (jb_record j)) as [i|] eqn:Ei; [|done].
  cbn. intros [= ->] [[q Hq] _]. split_and!; try done. split; [|by left].
  unfold hook_phase. cbn. by rewrite Hq, Ei.
Qed.
End once.

Lemma dict_get_every {R} (f : Job R → Job R) k st :
  dict_get k (on_every_job f st) = f <$> dict_get k st.
Proof.
  unfold on_every_job. induction st as [|[k' j] st IH]; cbn; [done|]. by case_bool_decide.
Qed.

Section system.
Context {R : Type} (resolver : ConnectionResolver).
Implicit Types (s : System R) (j : Job R).

Record system_ok s : Prop := {
  so_jobs : ∀ a j, dict_get a (sy_store s) = Some j → job_ok j;
  so_once : NoDup (sy_sent s);
  so_sent : ∀ a, a ∈ sy_sent s →
    ∃ j, dict_get a (sy_store s) = Some j ∧ past_request (jb_record j);
}.

Lemma require_record_inv st c a p j :
  require_async_record resolver st c a p = Answer j →
  dict_get a st = Some j ∧ may_see p c j = true.
Proof.
  unfold require_async_record, may_see. destruct (require_connection _ _ _); [|done].
  destruct (dict_get a st) as [j'|]; [|done]. repeat case_bool_decide; cbn; naive_solver.
Qed.

(** What a cancellation that reaches a record does to the store. *)
Lemma cancel_query_inv st c a p st' reply :
  cancel_query resolver st c a p = (st', reply) →
  st' = st ∧ (∃ e, reply = Refuse e)
  ∨ ∃ j prof policy, dict_get a st = Some j ∧ may_see p c j = true
      ∧ resolver c (Some p) = Ok (prof, policy)
      ∧ let '(j', r) := request_cancel j (allow_query_cancellation (execution policy)) in
        st' = dict_set a j' st
        ∧ ∀ x, reply = Answer x → x = r.
Proof.
  unfold cancel_query. destruct (require_async_record _ _ _ _ _) as [j|e] eqn:E; [|naive_solver].
  apply require_record_inv in E as [Hg Hs].
  destruct (negb _ && negb _); [naive_solver|].
  destruct (resolver c (Some p)) as [[prof policy]|e]; [|naive_solver].
  destruct (request_cancel j _) as [j' r] eqn:Er. intros [= <- <-]. right.
  exists j, prof, policy. rewrite Er. split_and!; try done.
  destruct r; intros x [=]; naive_solver.
Qed.

(** Replacing one job by a good one that keeps its request. *)
Lemma replace_job_ok s a j j' cancels :
  system_ok s → dict_get a (sy_store s) = Some j → job_ok j' →
  (past_request (jb_record j) → past_request (jb_record j')) →
  system_ok (MkSystem (dict_set a j' (sy_store s)) cancels (sy_sent s)).
Proof.
  intros [Hj Hn Hs] Hg Hok Hp. split; cbn; [|done|].
  - intros b k. destruct (decide (a = b)) as [<-|Hne].
    + rewrite dict_get_set_eq. by intros [= <-].
    + rewrite dict_get_set_ne by done. apply Hj.
  - intros b Hb. destruct (Hs b Hb) as (k & Hk & Hpk). destruct (decide (a = b)) as [<-|Hne].
    + exists j'. rewrite dict_get_set_eq. split; [done|]. apply Hp. congruence.
    + exists k. by rewrite dict_get_set_ne.
Qed.

Lemma step_ok s s' : step resolver s s' → system_ok s → system_ok s'.
Proof.
  intros Hstep Hok. destruct Hstep as [s a c who path Hf|s a j Hg|s c a p st reply Hc|s id bef aft found Hc].
  - destruct Hok as [Hj Hn Hs]. split; cbn; [|done|].
    + intros b k. destruct (decide (a = b)) as [<-|Hne].
      * rewrite dict_get_set_eq. intros [= <-]. apply start_ok.
      * rewrite dict_get_set_ne by done. apply Hj.
    + intros b Hb. destruct (Hs b Hb) as (k & Hk & Hpk). exists k. split; [|done].
      rewrite dict_get_set_ne; [done|]. intros ->. apply Hf, dict_get_is_Some. eauto.
  - assert (Hjok := so_jobs _ Hok _ _ Hg). apply (replace_job_ok _ _ j); [done..| |].
    + by apply run_slice_ok.
    + by apply past_run_slice.
  - apply cancel_query_inv in Hc as [[-> [e ->]]|(j & prof & policy & Hg & _ & _ & Hr)]; [by destruct s|].
    assert (Hjok := so_jobs _ Hok _ _ Hg).
    set (allow := allow_query_cancellation _) in Hr.
    pose proof (request_cancel_ok j allow Hjok) as Hok'.
    pose proof (past_request_cancel j allow) as Hsame.
    pose proof (λ id H, request_cancel_sends j allow id H (proj1 Hjok)) as Hsend.
    destruct (request_cancel j allow) as [j' r]. cbn in *. destruct Hr as [-> Hr].
    assert (Hplain : ∀ cancels, system_ok (MkSystem (dict_set a j' (sy_store s)) cancels (sy_sent s))).
    { intros cancels. apply (replace_job_ok _ _ j); [done..|]. intros Hp. by rewrite (Hsame Hp). }
    destruct reply as [[st| | |id]|e]; try apply Hplain.
    specialize (Hr _ eq_refl) as <-. destruct (Hsend id eq_refl) as (_ & Hrun & _ & Hpast).
    destruct (Hplain (id :: sy_cancels s)) as [Hj Hn Hs]. split; cbn in *; [done| |].
    + constructor; [|done]. intros Hin. destruct (so_sent _ Hok a Hin) as (k & Hk & [_ Hpk]).
      assert (k = j) as -> by congruence. rewrite Hrun in Hpk. naive_solver.
    + intros b [->|Hb]%elem_of_cons; [|by apply Hs]. exists j'. by rewrite dict_get_set_eq.
  - destruct Hok as [Hj Hn Hs]. destruct found; [|by split]. split; cbn; [|done|].
    + intros a k. rewrite dict_get_every. intros (j & Hg & ->)%fmap_Some. eapply interrupted_ok, Hj, Hg.
    + intros a Ha. destruct (Hs a Ha) as (j & Hg & Hp). exists (interrupted id j).
      rewrite dict_get_every, interrupted_record, Hg. done.
Qed.

(** C8. In every state the system reaches, each record has the fields its state
    promises and the task that goes with it; and the database is asked at most
    once to cancel an execution, of which it then had a session, and which is from
    then on cancel-requested, completed or cancelled, never reported as failed. *)
Theorem async_executions_stand s :
  reachable resolver s →
  (∀ a j, dict_get a (sy_store s) = Some j → job_ok j)
  ∧ NoDup (sy_sent s)
  ∧ ∀ a, a ∈ sy_sent s → ∃ j, dict_get a (sy_store s) = Some j ∧ past_request (jb_record j).
Proof.
  intros H. enough (Hok : system_ok s) by by destruct Hok.
  unfold reachable in H. remember (MkSystem [] [] []) as s0 eqn:E0.
  assert (H0 : system_ok s0) by (subst; split; cbn; [done|constructor|by intros a ?%elem_of_nil]).
  clear E0. induction H as [|x y z Hxy _ IH]; [done|]. apply IH. by eapply step_ok.
Qed.
End system.

(** ** What the steps never undo *)

Section persistence.
Context {R : Type} (resolver : ConnectionResolver).
Implicit Types (s : System R) (j : Job R).

Lemma finished_slice j :
  job_ok j → is_terminal (ar_state (jb_record j)) = true → run_slice j = j.
Proof.
  intros [_ Ht] H. unfold run_slice. unfold task_ok in Ht. destruct (jb_task j); [|naive_solver congruence|done].
  destruct Ht as (Hq & _). by rewrite Hq in H.
Qed.

(** An execution that was submitted is never forgotten, and once it is
    completed, failed or cancelled no slice, cancellation or database event
    changes what a poll reads. *)
Theorem settled_for_ever s s' a j :
  (∀ a j, dict_get a (sy_store s) = Some j → job_ok j) →
  step resolver s s' → dict_get a (sy_store s) = Some j →
  ∃ j', dict_get a (sy_store s') = Some j'
    ∧ (is_terminal (ar_state (jb_record j)) = true → jb_record j' = jb_record j).
Proof.
  intros Hok Hstep Hg. assert (Hset : ∀ b k k' st, dict_get b st = Some k → dict_get a st = Some j →
    (is_terminal (ar_state (jb_record k)) = true → jb_record k' = jb_record k) →
    ∃ j', dict_get a (dict_set b k' st) = Some j'
      ∧ (is_terminal (ar_state (jb_record j)) = true → jb_record j' = jb_record j)).
  { intros b k k' st Hb Ha Hk. destruct (decide (b = a)) as [->|Hne].
    - exists k'. rewrite dict_get_set_eq. split; [done|]. by replace j with k by congruence.
    - exists j. by rewrite dict_get_set_ne. }
  destruct Hstep as [s b c who path Hf|s b k Hk|s c b p st reply Hc|s id bef aft found Hc]; cbn in *.
  - exists j. rewrite dict_get_set_ne; [done|]. intros ->. apply Hf, dict_get_is_Some. eauto.
  - apply (Hset b k); [done..|]. intros Ht. by rewrite (finished_slice k (Hok _ _ Hk)).
  - apply cancel_query_inv in Hc as [[-> [e ->]]|(k & prof & policy & Hb & _ & _ & Hr)]; [eauto|].
    destruct (request_cancel k _) as [k' r] eqn:Er. destruct Hr as [-> _].
    replace (sy_store _) with (dict_set b k' (sy_store s)) by (by destruct reply as [[]|]).
    apply (Hset b k); [done..|]. intros Ht.
    unfold request_cancel in Er. by destruct (ar_state (jb_record k)); try done; injection Er as <- _.
  - destruct found; [|eauto]. exists (interrupted id j). rewrite dict_get_every, Hg.
    split; [done|]. intros _. apply interrupted_record.
Qed.
End persistence.

(** ** Every execution ends *)

Fixpoint suspensions (actions : list co_action) : nat :=
  match actions with [] => 0 | CoAwait :: l => S (suspensions l) | _ :: l => suspensions l end.

Definition slices_left {R} (j : Job R) : nat :=
  match jb_task j with
  | NotStarted actions _ | Suspended actions _ => S (suspensions actions)
  | Finished => 0
  end.

Section ends.
Context {R : Type}.
Implicit Types (r : AsyncExecutionRecord R) (j : Job R).

Lemma run_actions_suspensions actions : ∀ r b,
  match run_actions actions r b with
  | (_, Some l) => S (suspensions l) = suspensions actions
  | (_, None) => True
  end.
Proof. induction actions as [|[|ms|id|] l IH]; intros r b; cbn; try done; apply IH. Qed.

Lemma run_slice_left j : (slices_left (run_slice j) ≤ pred (slices_left j))%nat.
Proof.
  assert (H : ∀ actions o, (slices_left (run_task actions o j) ≤ suspensions actions)%nat).
  { intros actions o. unfold run_task.
    pose proof (run_actions_suspensions actions (jb_record j) (jb_backend j)) as H.
    destruct (run_actions _ _ _) as [[r b] [l|]]; unfold slices_left; cbn; lia. }
  unfold run_slice. unfold slices_left at 2.
  destruct (jb_task j) as [actions o|actions o|] eqn:E; cbn [pred].
  1,2: destruct (jb_must_cancel j); [unfold slices_left; cbn; lia|apply H].
  unfold slices_left. by rewrite E.
Qed.

Lemma slices_ok n : ∀ j, job_ok j → job_ok (Nat.iter n run_slice j).
Proof. induction n; intros j Hj; cbn; [done|]. by apply run_slice_ok, IHn. Qed.

Lemma slices_bound n : ∀ j, (slices_left (Nat.iter n run_slice j) ≤ slices_left j - n)%nat.
Proof.
  induction n as [|n IH]; intros j; [cbn; lia|]. rewrite Nat.iter_succ.
  etrans; [apply run_slice_left|]. specialize (IH j). lia.
Qed.

(** A started task keeps out of the hole below. *)
Lemma started_slice j : job_ok j →
  (∀ actions o, jb_task j = NotStarted actions o → jb_must_cancel j = false) →
  (jb_task j = Finished → is_terminal (ar_state (jb_record j)) = true) →
  let j' := run_slice j in
  (∀ actions o, jb_task j' = NotStarted actions o → jb_must_cancel j' = false)
  ∧ (jb_task j' = Finished → is_terminal (ar_state (jb_record j')) = true).
Proof.
  intros Hj Hn Hf. assert (Hj' := run_slice_ok j Hj). cbn zeta. split.
  - unfold run_slice. destruct (jb_task j) as [actions o|actions o|] eqn:E; [| |by rewrite E].
    + rewrite (Hn _ _ eq_refl). unfold run_task.
      by destruct (run_actions _ _ _) as [[r b] [l|]].
    + destruct (jb_must_cancel j); [done|]. unfold run_task.
      by destruct (run_actions _ _ _) as [[r b] [l|]].
  - intros E. destruct Hj' as [_ Ht]. unfold task_ok in Ht. rewrite E in Ht.
    destruct Ht as [Ht|[Hq Hm]]; [done|]. revert E Hq Hm. unfold run_slice.
    destruct (jb_task j) as [actions o|actions o|] eqn:E; [| |intros _ Hq; specialize (Hf eq_refl); by rewrite Hq in Hf].
    + specialize (Hn _ _ eq_refl). rewrite Hn. unfold run_task.
      destruct (run_actions _ _ _) as [[r b] [l|]]; cbn; congruence.
    + destruct (jb_must_cancel j) eqn:Em; [done|]. unfold run_task.
      destruct (run_actions _ _ _) as [[r b] [l|]]; cbn; congruence.
Qed.

(** Every execution ends: from any moment of a task that was not cancelled
    before its first line ran, as many slices as the coroutine has suspensions
    left, and one, bring the record to completed, failed or cancelled. *)
Theorem execution_ends j n :
  job_ok j →
  (∀ actions o, jb_task j = NotStarted actions o → jb_must_cancel j = false) →
  (jb_task j = Finished → is_terminal (ar_state (jb_record j)) = true) →
  (slices_left j ≤ n)%nat →
  is_terminal (ar_state (jb_record (Nat.iter n run_slice j))) = true.
Proof.
  intros Hj Hn Hf Hle. pose proof (slices_bound n j) as Hb.
  assert (H : ∀ m, (∀ actions o, jb_task (Nat.iter m run_slice j) = NotStarted actions o →
      jb_must_cancel (Nat.iter m run_slice j) = false)
    ∧ (jb_task (Nat.iter m run_slice j) = Finished →
       is_terminal (ar_state (jb_record (Nat.iter m run_slice j))) = true)).
  { induction m as [|m [IH1 IH2]]; cbn; [done|]. apply started_slice; [by apply slices_ok|done..]. }
  apply (H n). unfold slices_left at 1 in Hb. destruct (jb_task (Nat.iter n run_slice j)); [lia..|done].
Qed.
End ends.

(** ** Strangers *)

Section strangers.
Context {R : Type} (resolver : ConnectionResolver).

(** An execution the caller may not see is none: for one of another connection,
    or of another principal when the caller lacks [query:cancel], polling and
    cancelling answer what they answer when there is no such execution, and
    change nothing. *)
Theorem strangers_learn_nothing (st : store R) c a p j :
  dict_get a st = Some j → may_see p c j = false →
  get_query_status resolver st c a p = get_query_status resolver (dict_pop a st) c a p
  ∧ (cancel_query resolver st c a p).2 = (cancel_query resolver (dict_pop a st) c a p).2
  ∧ (cancel_query resolver st c a p).1 = st.
Proof.
  intros Hg Hs.
  assert (H : require_async_record resolver st c a p = require_async_record resolver (dict_pop a st) c a p
    ∧ ∃ e, require_async_record resolver st c a p = Refuse e).
  { unfold require_async_record. destruct (require_connection _ _ _); [|eauto].
    rewrite Hg, dict_get_pop, (bool_decide_true (a = a)) by done. unfold may_see in Hs.
    destruct (bool_decide (ar_connection_id _ = c)); cbn in *; [|eauto].
    apply orb_false_iff in Hs as [-> ->]. cbn. eauto. }
  destruct H as [He [e Hr]]. unfold get_query_status, cancel_query. rewrite <-He, Hr. by split_and!.
Qed.
End strangers.

(** * Concrete inputs *)

Definition cancelling_policy : Policy :=
  MkPolicy default_access default_write_policy default_caps default_windows default_disclosure
    (MkExecution 30 8 f64_ten None None true None None 60) default_gates.

Definition async_profile : ConnectionProfile :=
  MkProfile "main" "postgresql://db/x" POSTGRESQL true None [] None.

Definition async_resolver : ConnectionResolver := λ _ _, Ok (async_profile, cancelling_policy).

Definition ada : Principal := MkPrincipal "ada" ∅ [] "api_key" None.
Definition bob : Principal := MkPrincipal "bob" ∅ [] "api_key" None.

(** A query that gets its slot at once, then suspends once in its session and
    once after closing it. *)
Definition quick_path (session : string) : ExecutionPath nat := MkPath 1 (Ok 5) 0 (Ok session) 1 1 (Ok 7%nat).

Definition started (id : string) (who : Principal) (session : string) : Job nat :=
  start_async_execution id "main" (Some (subject who)) (quick_path session).

Definition async_store : store nat := [("e1", started "e1" ada "42"); ("e2", started "e2" bob "42")].

Lemma strangers_learn_nothing_witness :
  get_query_status async_resolver async_store "main" "e1" bob = Refuse unknown_admission.
Proof.
  rewrite (proj1 (strangers_learn_nothing async_resolver async_store "main" "e1" bob (started "e1" ada "42")
    eq_refl ltac:(vm_compute; reflexivity))).
  vm_compute. reflexivity.
Defined.

Lemma execution_ends_witness :
  is_terminal (ar_state (jb_record (Nat.iter 4 run_slice (started "e1" ada "42")))) = true.
Proof.
  apply execution_ends; [apply start_ok|reflexivity|intros H; discriminate H|].
  vm_compute. repeat constructor.
Defined.

Lemma settled_for_ever_witness :
  let done := Nat.iter 4 run_slice (started "e1" ada "42") in
  let s := MkSystem [("e1", done)] ["42"] ["e1"] in
  ∃ j', dict_get "e1" (on_every_job (interrupted "42") (sy_store s)) = Some j' ∧ jb_record j' = jb_record done.
Proof.
  cbn zeta. set (done := Nat.iter 4 run_slice (started "e1" ada "42")).
  destruct (settled_for_ever async_resolver (MkSystem [("e1", done)] ["42"] ["e1"])
    (MkSystem (on_every_job (interrupted "42") [("e1", done)]) [] ["e1"]) "e1" done) as (j' & Hj & Hr).
  - intros a j. cbn. case_bool_decide; [|discriminate]. intros E. injection E as <-.
    exact (slices_ok 4 _ (start_ok "e1" "main" (Some "ada") (quick_path "42"))).
  - exact (step_database async_resolver (MkSystem [("e1", done)] ["42"] ["e1"]) "42" [] [] true eq_refl).
  - reflexivity.
  - exists j'. split; [exact Hj|]. apply Hr. vm_compute. reflexivity.
Defined.

Lemma async_executions_stand_witness :
  reachable async_resolver (MkSystem [("e1", started "e1" ada "42")] [] [])
  ∧ job_ok (started "e1" ada "42").
Proof.
  assert (H : reachable async_resolver (MkSystem [("e1", started "e1" ada "42")] [] [])).
  { apply rtc_once, (step_start async_resolver (MkSystem [] [] []) "e1" "main" (Some "ada") (quick_path "42")).
    apply not_elem_of_nil. }
  split; [exact H|]. exact (proj1 (async_executions_stand async_resolver _ H) "e1" _ eq_refl).
Defined.

(** A cancellation before the first slice of a task is lost on the record:
    the task is over, its coroutine never ran, and every later poll and cancel
    answers [queued]. *)
Theorem cancel_before_start_sticks :
  let j := run_slice (request_cancel (started "e1" ada "42") true).1 in
  jb_task j = Finished
  ∧ ∀ n allow, ar_state (jb_record (Nat.iter n run_slice j)) = Queued
      ∧ (request_cancel (Nat.iter n run_slice j) allow).2 = Answered Queued.
Proof.
  split; [reflexivity|]. intros n allow.
  set (j := run_slice (request_cancel (started "e1" ada "42") true).1).
  assert (H : Nat.iter n run_slice j = j).
  { induction n as [|n IH]; [reflexivity|]. rewrite Nat.iter_succ, IH. reflexivity. }
  rewrite H. split; reflexivity.
Qed.

(** A cancellation the database refused or never got cannot be asked for
    again: the record stays cancel-requested, a second request is answered with
    that state and sends nothing, and the query completes. *)
Theorem lost_cancel_is_final :
  let running := Nat.iter 2 run_slice (started "e1" ada "42") in
  let asked := request_cancel running true in
  ar_state (jb_record running) = Running
  ∧ asked.2 = CancelSession "42"
  ∧ request_cancel asked.1 true = (asked.1, Answered CancelRequested)
  ∧ ar_state (jb_record (Nat.iter 2 run_slice asked.1)) = Completed.
Proof. split_and!; reflexivity. Qed.

(** Between the end of its session and the end of its task an execution is
    still running and still names the session: Bob's query, which the pool gave
    that session, is the one a cancellation of Ada's interrupts. Ada's completes;
    Bob's fails with an error of the database, though nobody asked to cancel it. *)
Theorem late_cancel_hits_another :
  let a := Nat.iter 3 run_slice (started "e1" ada "42") in
  let b := Nat.iter 2 run_slice (started "e2" bob "42") in
  let '(st, reply) := cancel_query async_resolver [("e1", a); ("e2", b)] "main" "e1" ada in
  jb_backend a = None ∧ jb_backend b = Some "42"
  ∧ reply = Answer (CancelSession "42")
  ∧ let st' := on_every_job (λ j, Nat.iter 2 run_slice (interrupted "42" j)) st in
    (ar_state ∘ jb_record <$> st'.*2) = [Completed; Failed].
Proof. vm_compute. split_and!; reflexivity. Qed.
